(* ===== verification/_CoqProject ===== *)
-Q . S2P
Prelude.v
Memory.v
CString.v
Ramfs.v
RamfsSpec.v
VfsPath.v
Vfs.v
VfsSpec.v
VfsRamfs.v
Sched.v
SchedLists.v
SchedSpec.v
SchedRun.v
SchedProps.v
Arrays.v
Ipc.v
IpcSpec.v
IpcMail.v
IpcCaps.v
IpcChannels.v
IpcRun.v
IpcExamples.v
Sync.v
SyncProps.v
Bytes.v
Net.v
NetSpec.v
NetRun.v
NetProps.v
Block.v
BlockProps.v
BlockVolumes.v
Fat.v
FatTable.v
FatChain.v
FatFile.v
FatProps.v
FatPath.v
FatRoot.v
FatMount.v
Input.v
InputProps.v
Klog.v
KlogRun.v
KlogFiles.v
KlogProps.v
Service.v
ServiceSpec.v
ServiceProps.v
Syscall.v
SyscallRead.v
SyscallSpec.v
SyscallProps.v
Devmgr.v
DevmgrSpec.v
DevmgrRun.v
DevmgrProps.v
Devicefs.v
DevicefsSpec.v
DevicefsProps.v
Parts.v
Loader.v
LoaderSpec.v
LoaderRun.v
LoaderProps.v
Fonts.v
FontProps.v
Display.v
DisplaySpec.v
DisplayProps.v
ShellText.v
Shell.v
ShellProps.v
ShellRun.v
ShellFiles.v
ShellTools.v
E1000.v
Ata.v
Ps2kbd.v
Examples.v
