(* ===== verification/Prelude.v ===== *)
(** * proOS: a verification of its kernel

    proOS is a 32-bit hobby kernel for i386 written in C (kernel/).  This library
    models the parts of it that keep state and decide, and proves what makes them
    correct.

    ** The program and its models

    - The kernel heap (kernel/memory.c) is a bump allocator.  Memory.v models every
      function on a record of the heap pointer, at 32 bits.
    - The C string functions (kernel/string.c): CString.v, on a flat byte memory, so
      that overlap is real.
    - The RAM file system (kernel/ramfs.c): Ramfs.v, a table of entries with byte
      arrays, every function of the file; RamfsSpec.v, the same as a map from paths to
      files and directories, the refinement and the theorems.
    - The virtual file system (kernel/vfs.c): VfsPath.v (normalisation of paths),
      Vfs.v (mounts, aliases, descriptors, path operations, the adapters to the RAM
      file system, start-up), VfsSpec.v (routing of paths, the invariant of the
      tables, descriptors) and VfsRamfs.v (the two file systems together).  File
      system drivers are a record of operations; the theorems of VfsSpec.v hold for
      any driver, those of VfsRamfs.v plug the RAM file system in.
    - The scheduler (kernel/process.c, kernel/proc.h): Sched.v has the process table
      with its linked run queues and sleep list, every operation from thread creation,
      the first frame on the stack included, to the timer tick; where the linker put the
      stacks is an argument, [Sched.placement].  SchedLists.v shows that the linked lists are lists,
      SchedSpec.v states the abstract scheduler and its invariant, SchedRun.v runs the
      operations in any order from start-up, SchedProps.v has the theorems.
    - Inter-process communication (kernel/ipc.c): Ipc.v has mailboxes, capabilities,
      shared regions and channels, on a kernel record that pairs the IPC state with
      the scheduler it blocks and wakes processes in.  Arrays.v has the arrays with a
      count and the ring buffers this code is built on.  IpcSpec.v states the
      invariant, IpcMail.v, IpcCaps.v and IpcChannels.v have the theorems per part,
      IpcRun.v all operations in any order, start-up, reachable kernels and waking,
      IpcExamples.v a concrete run that instantiates the theorems.
    - Mutexes and semaphores (kernel/sync.c): Sync.v, and SyncProps.v for any
      interleaving of calls.
    - The network stack (kernel/net.c, ethernet.c, arp.c, ipv4.c, icmp.c,
      net_socket.c): Net.v has the device table, frames, ARP with its cache, IPv4, ICMP
      echo and raw sockets, every function; Bytes.v has the big- and little-endian
      accesses to buffers that it shares with the file systems.  NetSpec.v is about
      the Internet checksum, states the invariant and goes through the layers, NetRun.v
      runs any operations, NetProps.v has the theorems on single exchanges.  The transmit
      and poll functions of the drivers are arguments.
    - Block devices, partitions and volumes (kernel/blockdev.c, partition.c,
      volmgr.c): Block.v, every function; BlockProps.v (windows on disks, scanning)
      and BlockVolumes.v (the volume manager).  The drivers of disks
      are a class of operations, [Block.DiskOps], with the laws of a disk,
      [BlockProps.DiskLaws]; a RAM disk is an instance.
    - The FAT file system (kernel/fatfs.c and the boot volume of kernel/fat16.c):
      Fat.v, on an image in memory, with the block devices it writes back to.
      FatTable.v is about the file allocation table, FatChain.v about clusters and
      chains, FatFile.v about chains as contents of files and about replacing
      contents, FatPath.v about short names and, with FatRoot.v, about the root
      directory and files in it, FatProps.v has further theorems.  FatMount.v mounts a volume
      in the virtual file system.
    - The keyboard (kernel/keyboard.c) and the handlers and event mailboxes of the
      interrupt lines (kernel/idt.c): Input.v and InputProps.v.  What the ports give is
      an argument, what is asked of the interrupt controller a trace.
    - The kernel log (kernel/klog.c): Klog.v, on a record of the machine that has the
      log, the kernel of Ipc.v, the table of services and the virtual file system, so
      that a message goes to the log service, to the log channel and to the log
      files.  KlogRun.v states the abstract log and runs every function
      against it with the files behind the interface [FilesReturn], KlogFiles.v
      discharges the interface for the tree the kernel boots with and follows the
      contents of the log files, KlogProps.v has the theorems.
    - Services (kernel/service.c, and the reports of kernel/debug.c on tasks and
      memory): Service.v, on the same machine; [Service.process_create] carries out
      what the scheduler asks for while it creates a thread.  ServiceSpec.v and
      ServiceProps.v.
    - System calls (kernel/syscall.c): Syscall.v, the table and every handler, on the
      same machine with the memory that user pointers point into; where in the range of
      processes the data of the kernel lies is an argument of the theorems.  SyscallRead.v is
      about copying to and from that memory and what a call can see of it, SyscallSpec.v goes through the handlers, SyscallProps.v has the theorems.
    - The device manager (kernel/devmgr.c): Devmgr.v, every function, with its log and
      its events; Arrays.v relates a table of named entries to a map.  DevmgrSpec.v
      states the abstract tree of devices, DevmgrRun.v registers and unregisters
      against it behind the interface [DeviceTree], DevmgrProps.v has the theorems.
    - The device file system (kernel/devicefs.c): Devicefs.v, every function, including
      the operations it gives to the virtual file system; DevicefsSpec.v, and
      DevicefsProps.v with the theorems and the interface [DeviceWorld], discharged by
      the tree the kernel boots with.
    - The module loader (kernel/module.c, module_symbols.c, elf.h): Loader.v, every
      function, on images as lists of bytes, with the heap of Memory.v.  Parts.v has what
      a component that is a part of the machine needs of its log, its kernel and its
      files.  LoaderSpec.v is a reference linker, and with LoaderRun.v it shows that
      the loader does what it does, LoaderProps.v has the theorems.
    - The display (kernel/vbe.c, vga.c, fb_font.h): Fonts.v has the PSF and BDF parsers
      and FontProps.v the BDF format as a printer and its round trip; Display.v has
      drawing in the frame buffer, the console, the text screen, loading of fonts and
      start-up.  DisplaySpec.v states unbounded pages and their windows and
      what drawing leaves in the pixels, DisplayProps.v has the theorems.
    - The shell (kernel/shell.c): ShellText.v has numbers, addresses and paths as text,
      Shell.v the line editor with its history, the commands on files, directories and
      mounts, and the loop that reads lines and dispatches them, with the other commands as
      an argument.  ShellTools.v has those commands, on memory, the log, processes, devices,
      volumes, modules and the network, and their theorems.  ShellProps.v is about text and lines.  ShellRun.v runs the shell on any
      keys, with the file systems behind the interface [FileDriver]; ShellFiles.v
      discharges it for the RAM file system.
    - The network card (kernel/e1000.c, pci.c): E1000.v has the bus, the rings of
      descriptors and start-up, every function; ports and registers are the class
      [E1000.Hardware].  [E1000Props] there runs driver and card against
      queues of frames.
    - The disk driver (modules/ata_module.c, kernel/bios_fallback.c): Ata.v, every
      function, on the class [Ata.Ports].  It states the protocol of a controller,
      [AtaProps.Controller], and of a BIOS, with a drive that is an instance, and compares
      the driver with an array of sectors.
    - The keyboard device (modules/ps2kbd_module.c): Ps2kbd.v, every function, on the
      mailboxes and the keyboard of Input.v, and its theorems.

    Examples.v has concrete states and runs that instantiate the theorems of several
    components.  This file has what they share: machine integers, C strings, byte buffers, scans
    of tables, the tactics and the hint database [kernel].

    ** Conventions

    An integer is a [Z] in the range of its C type, wrapped explicitly ([u8], [u32],
    [u64], [s32]) wherever the code can leave the range.  A count or an index that
    the code keeps below the size of an array is a [nat].  A pointer into a table is
    an index, a pointer that may be NULL an option.  A load or a store outside an
    array makes the operation [None] (in Sched.v it sets the flag [fault], as do a loop
    that follows a cyclic list and a store outside the stack of a new thread), so a theorem that an operation returns is a
    theorem that it stays inside its arrays.  A section between
    [spinlock_lock_irqsave] and [spinlock_unlock_irqrestore] is one step.  A call
    that can block is split at [process_block_current]; the operations of other
    processes can come between the parts.  A context switch is a change of the
    current process.

    Bounds: a loop of the scheduler follows at most [Sched.FUEL] links, more than
    the table has processes; [Ipc.RECV_FUEL] rounds of a receive are one more than a
    mailbox has slots.  [scheduler_refines] and [ipc_recv_refines] prove that these
    are enough.  [Net.FOLD_FUEL] additions fold any sum of 32 bits; [net_run_safe]
    proves it.  [Devmgr.device_depth] follows as many parents as the table has entries,
    which [devices_refine] proves enough as long as no device is its own ancestor;
    [self_parent_never_ends] has the case in which no number is enough.
    [Block.IO_FUEL] is one more than the table has devices.  A transfer of the disk driver takes
    at most as many rounds as it has sectors, a wait 100000 reads of the status as in the
    source; [E1000.RING] rounds empty a ring, and 32 rounds a mailbox.  A wait of the ping
    command ends after 252 ticks, as the longest of its deadlines is 250, and 9 rounds
    show all answers the stack can hold.  A walk along
    a FAT chain follows [Fat.chain_fuel] links, more than the volume has clusters:
    [free_chain_terminates] proves that this is enough to free any chain, and
    [dir_scan_cycle] that no number is enough to scan a directory whose chain runs
    into itself.

    ** The theorems

    - Heap: [kalloc_blocks_disjoint] blocks are aligned, inside the heap and disjoint;
      [kalloc_rounding_wraps] the rounding wraps for huge sizes.
    - Strings: [memmove_overlap_safe].
    - RAM file system: [ramfs_run_refines] refinement of a map from paths to nodes;
      [ramfs_exec_frame] what an operation leaves alone; [ramfs_write_read];
      [ramfs_append_wraps] an append whose size wraps; [ramfs_list_correct] listings.
    - Virtual file system: [normalize_path_correct], [normalize_path_canonical];
      [resolve_mount_longest] the longest mount point wins; [locate_confined] no path
      escapes its mount; [vfs_steps_wf] the tables stay consistent;
      [open_descriptor_stable], [open_close_restores] descriptors;
      [vfs_namespace_refines] operations with any paths over RAM file systems as
      operations on one name space of abstract volumes; [vfs_do_refines],
      [vfs_write_read], [vfs_ramfs_isolated] operations on any one driver and isolation
      of mounts; [vfs_init_boots] start-up.
    - Scheduler: [scheduler_refines] refinement of an abstract scheduler on all
      reachable states; [no_process_lost]; [schedule_next_policy] who runs next;
      [wake_sleepers_exact] who wakes; [account_runtime_charges] the charge for
      running; [new_thread_frame] the first frame of a thread lies on its stack, if that has at
      least 51 bytes; [small_stack_overruns] smaller ones; [set_scheduler_past_deadline].
    - IPC: [ipc_send_refines], [ipc_recv_refines] mailboxes as queues;
      [ipc_cap_refines], [revoke_stops_send] capabilities; [channel_send_refines],
      [channel_receive_refines] channels as bounded queues; [kernel_steps_safe] memory
      safety of all interleavings; [send_wakes_receiver], [ipc_rendezvous] from a send
      to the receive it wakes.
    - Synchronisation: [mutex_exclusive] mutual exclusion; [mutex_handover] the order
      of hand-over; [semaphore_bound] a semaphore lets through no more than it should;
      [semaphore_posts_lost] posts that are lost.
    - Network: [ping_roundtrip] an echo request, its reply, the record of it and the take,
      through all layers of two hosts that know each other's addresses; [arp_exchange], [arp_cache_correct] address resolution;
      [net_run_safe] any sequence of operations, polls included, stays inside its buffers
      and keeps the invariant; [raw_sockets_refine] sockets as bounded queues;
      [short_total_reads_on] a total length below the header; [sent_checksum_order]
      the byte order of checksums.
    - Block devices: [partitions_isolated] a write through one partition is not seen
      through another; [partition_escape] the range test wraps;
      [partition_scan_correct] the partitions a table declares; [volumes_correct] one
      volume for each device; [unregister_redirects] partitions after a disk is removed.
    - FAT: [fat_entry_write] one entry in every copy of the table;
      [allocate_cluster_correct]; [free_chain_terminates]; [file_replace_roundtrip]
      contents of files, with the exact condition for success and isolation from other
      files; [short_name_roundtrip]; [fat_write_read] from [fatfs_write] to [fatfs_read]
      by name; [fat_mounted_write_read] the same through a path of the virtual file system;
      [append_overwrites], [dir_scan_cycle], [long_segment_is_root] what goes
      wrong at the edges.
    - Keyboard: [keyboard_refines] typed characters as a bounded queue.
    - Log: [klog_refines] refinement of the abstract log by any sequence of calls;
      [log_files_mirror] what the log files hold; [long_module_name] names that do not
      fit.
    - Services: [service_start_correct] starting, once and again;
      [service_grant_correct] rights on both sides.
    - System calls: [syscall_safe] every call, with any number and any arguments that
      keep off the data of the kernel and ask for no stack of less than 51 bytes (neither
      of which the code tests), returns, keeps the invariant and writes only to memory of the user;
      [syscall_refuses] which calls are refused; [buffer_check_exact] what the check of
      a pointer lets through; [syscall_reads_user_only] the outcome does not depend on
      memory outside the user's; [message_calls_deliver] from the send call of one
      process to the receive call of another.
    - Devices: [devices_refine] registering and unregistering as operations on a tree;
      [devmgr_init_correct] start-up; [devicefs_refines] publishing, listing, reading and
      writing nodes as operations on a map; [long_names_lost] names that do not fit.
    - Modules: [module_links] objects are laid out and relocated as the ELF format says;
      [modules_refine] the table of modules as a list; [exports_exact] the names that
      modules can refer to; [section_table_unchecked] a table outside the image.
    - Shell: [shell_run_completes] any keys, line after line, until the shell waits, reboots or
      shuts down (that the stack of its thread is as large as its arrays is assumed); [echo_then_cat] a line
      that writes a file and one that shows it; [shell_line_refines] the editor and the
      history; [resolve_path_correct], [shell_numbers_roundtrip] text; [ping_report] what ping
      reports and the sends, takes and waits it comes from; [net_command_completes]; [log_tools_refine] commands on the log and the
      creation of processes, over the abstract log and, in ServiceSpec.v, the slots of the
      process table ([Slots]);
      [memdump_shows_memory]; [parse_u32_wraps], [touch_creates_nothing] what goes wrong.
    - Drivers: [rings_lossless] frames are sent and handed over once and in order, and
      [full_ring_stalls] the case in which they are not; [ata_disk_refines] the disk driver
      as an array of sectors; [high_sector_wraps], [second_sector_not_read] where it leaves
      the protocol; [device_reads_typed] what the keyboard device reads is what was typed;
      [dropped_release_sticks], [poll_result_lost].
    - Display: [displays_show_pages] the text screen and the pixels of the console show
      the ends of the pages that were written, in any font the display may start with; [bdf_roundtrip] fonts that are printed and
      read; [psf_font_drawn] a font that is loaded is drawn from its own bytes;
      [psf_size_wraps], [high_chars_lose_color] sizes that wrap and colours that are lost.

    ** What is not modelled

    The assembly (boot, context switch, interrupt entry), the descriptor table, the
    other drivers and the graphics demonstration do I/O; the sequence of start-up in
    kmain.c and the user programs only call the parts above.  Of the shell the commands
    reboot and gfx and the recovery of the keyboard interrupt are left out, and the
    dispatch of Shell.v takes the commands of ShellTools.v as an argument, since
    they act on other parts of the machine than files.  In the theorems about the scheduler alone the work
    it asks of other components (attach, cleanup, log, events on channels) is recorded
    in order in [Sched.effects]; Service.v performs it for the creation of a thread.
    The fields of [struct fat_dir_scan] that no code reads and the trap handler of
    debug.c are left out.  A system call that ends the caller does the cleanup of its
    mailbox, its rights and its service; the switch to the next process is the
    scheduler's. *)

From Stdlib Require Export ZArith Lia.
From stdpp Require Export prelude list gmap strings.

#[global] Open Scope Z_scope.

(** ** Machine integers

    The kernel is compiled for i386: [size_t], [uintptr_t] and pointers are 32
    bits wide, [uint64_t] 64, [uint8_t] 8.  An unsigned integer is a [Z] in
    range, and every operation that can leave the range is wrapped explicitly. *)

Definition u8 (z : Z) : Z := z mod 256.
Definition u16 (z : Z) : Z := z mod 65536.
Definition u32 (z : Z) : Z := z mod 4294967296.
Definition u64 (z : Z) : Z := z mod 18446744073709551616.

(** Conversion to [int]: the two's-complement reading of the low 32 bits. *)
Definition s32 (z : Z) : Z :=
  let m := u32 z in if m <? 2147483648 then m else m - 4294967296.

(** [~z] of a 32-bit unsigned value. *)
Definition not32 (z : Z) : Z := 4294967295 - z.

Declare Scope cint_scope.
Delimit Scope cint_scope with cint.
Notation "a +32 b" := (u32 (a + b)) (at level 50, left associativity) : cint_scope.
Notation "a -32 b" := (u32 (a - b)) (at level 50, left associativity) : cint_scope.
Notation "a *32 b" := (u32 (a * b)) (at level 40, left associativity) : cint_scope.
Notation "a +64 b" := (u64 (a + b)) (at level 50, left associativity) : cint_scope.
#[global] Open Scope cint_scope.

(** ** C strings

    A [char *] that the code treats as a NUL-terminated string is the list of
    its bytes before the terminator; reading at the end of the list reads the
    terminator.  A string argument that may be [NULL] is an option.  A
    [char name[N]] field that only string functions touch is the string it
    holds: the bytes after its terminator are never read. *)

Abbreviation cstring := (list Z).

(** The byte a string pointer points at: the terminator when it is at the end. *)
Definition char0 (s : cstring) : Z := match s with [] => 0 | c :: _ => c end.

(** [s[i]] for an index up to the terminator. *)
Definition char_at (s : cstring) (i : nat) : Z := default 0 (s !! i).

(** A well-formed string: its bytes are bytes, none of them the terminator. *)
Definition wf_cstr (s : cstring) : Prop := Forall (fun c => 0 < c < 256) s.

#[export] Instance wf_cstr_dec s : Decision (wf_cstr s).
Proof. unfold wf_cstr. apply _. Defined.

(** Literals: the bytes of a Rocq string. *)
Fixpoint lit (s : string) : cstring :=
  match s with
  | EmptyString => []
  | String a s' => Z.of_N (Ascii.N_of_ascii a) :: lit s'
  end.
Arguments lit s%_string_scope.

Definition slash : Z := 47.
Definition dot : Z := 46.
Definition newline : Z := 10.

(** ** Byte buffers

    A byte array the code indexes is the list of its bytes.  A load or a store
    outside the array has no result: the operation that performs it is [None],
    so that a theorem that an operation returns is also a theorem that it stays
    inside its arrays. *)

Definition buf_store {A} (b : list A) (i : nat) (x : A) : option (list A) :=
  if decide (i < length b)%nat then Some (<[i := x]> b) else None.

(** [for (i = 0; i < len; ++i) dst[off + i] = src[i];] *)
Fixpoint buf_copy (dst : list Z) (off : nat) (src : list Z) : option (list Z) :=
  match src with
  | [] => Some dst
  | x :: src' => dst' ← buf_store dst off x; buf_copy dst' (S off) src'
  end.

(** ** Tables of slots

    Most of the kernel's tables are fixed arrays scanned from index 0 for the
    first slot that satisfies a test. *)

Fixpoint first_index {A} (p : A → bool) (l : list A) : option nat :=
  match l with
  | [] => None
  | x :: l' => if p x then Some O else S <$> first_index p l'
  end.

(** ** Tactics *)

#[global] Arguments Nat.leb : simpl never.
#[global] Arguments Nat.ltb : simpl never.
#[global] Arguments Nat.eqb : simpl never.
#[global] Arguments Z.leb : simpl never.
#[global] Arguments Z.ltb : simpl never.
#[global] Arguments Z.eqb : simpl never.
#[global] Arguments Nat.modulo : simpl never.
#[global] Arguments Z.modulo : simpl never.
#[global] Arguments u8 : simpl never.
#[global] Arguments u32 : simpl never.
#[global] Arguments u64 : simpl never.
#[global] Arguments s32 : simpl never.

(** Turn boolean tests in the context and in the goal into propositions. *)
Ltac bool_prop :=
  repeat match goal with
  | H : (_ && _) = true |- _ => apply andb_true_iff in H; destruct H
  | H : (_ || _) = false |- _ => apply orb_false_iff in H; destruct H
  | H : (_ || _) = true |- _ => apply orb_true_iff in H
  | H : (_ && _) = false |- _ => apply andb_false_iff in H
  | H : negb _ = true |- _ => apply negb_true_iff in H
  | H : negb _ = false |- _ => apply negb_false_iff in H
  | H : (_ <? _)%Z = true |- _ => apply Z.ltb_lt in H
  | H : (_ <? _)%Z = false |- _ => apply Z.ltb_ge in H
  | H : (_ <=? _)%Z = true |- _ => apply Z.leb_le in H
  | H : (_ <=? _)%Z = false |- _ => apply Z.leb_gt in H
  | H : (_ =? _)%Z = true |- _ => apply Z.eqb_eq in H
  | H : (_ =? _)%Z = false |- _ => apply Z.eqb_neq in H
  | H : (_ <? _)%nat = true |- _ => apply Nat.ltb_lt in H
  | H : (_ <? _)%nat = false |- _ => apply Nat.ltb_ge in H
  | H : (_ <=? _)%nat = true |- _ => apply Nat.leb_le in H
  | H : (_ <=? _)%nat = false |- _ => apply Nat.leb_gt in H
  | H : (_ =? _)%nat = true |- _ => apply Nat.eqb_eq in H
  | H : (_ =? _)%nat = false |- _ => apply Nat.eqb_neq in H
  | H : bool_decide _ = true |- _ => apply bool_decide_eq_true in H
  | H : bool_decide _ = false |- _ => apply bool_decide_eq_false in H
  end.

(** Case analysis on every test of the goal, with the tests as propositions. *)
Ltac cases := repeat (case_match; bool_prop; simplify_eq/=).

(** Open every match of a hypothesis, keeping the branches that survive. *)
Ltac open_match H :=
  repeat match type of H with
  | context [match ?x with _ => _ end] =>
      let E := fresh "E" in destruct x eqn:E; simplify_eq/=; bool_prop
  end.

(** Decide a closed proposition by evaluation. *)
Ltac by_eval := refine (bool_decide_unpack _ _); vm_compute; exact I.

(** ** Arithmetic lemmas *)

Lemma u32_small z : 0 ≤ z < 4294967296 → u32 z = z.
Proof. intros. unfold u32. by apply Z.mod_small. Qed.

Lemma u32_range z : 0 ≤ u32 z < 4294967296.
Proof. unfold u32. by apply Z.mod_pos_bound. Qed.

Lemma u64_small z : 0 ≤ z < 18446744073709551616 → u64 z = z.
Proof. intros. unfold u64. by apply Z.mod_small. Qed.

Lemma u8_small z : 0 ≤ z < 256 → u8 z = z.
Proof. intros. unfold u8. by apply Z.mod_small. Qed.

Lemma u8_range z : 0 ≤ u8 z < 256.
Proof. unfold u8. by apply Z.mod_pos_bound. Qed.

Lemma s32_small z : 0 ≤ z < 2147483648 → s32 z = z.
Proof. intros. unfold s32. rewrite u32_small by lia. cases; lia. Qed.

(** [x & ~(2^k - 1)] rounds [x] down to a multiple of [2^k]. *)
Lemma land_not32_mask x k :
  0 ≤ x < 4294967296 → 0 ≤ k ≤ 32 →
  Z.land x (not32 (2 ^ k - 1)) = x - x mod 2 ^ k.
Proof.
  intros Hx Hk.
  assert (Hm : not32 (2 ^ k - 1) = Z.shiftl (Z.ones (32 - k)) k).
  { unfold not32. rewrite Z.shiftl_mul_pow2, Z.ones_equiv by lia.
    replace (Z.pred (2 ^ (32 - k)) * 2 ^ k) with (2 ^ (32 - k) * 2 ^ k - 2 ^ k) by lia.
    rewrite <- Z.pow_add_r by lia. replace (32 - k + k) with 32 by lia. lia. }
  assert (Hd : Z.land x (Z.shiftl (Z.ones (32 - k)) k) = Z.shiftl (Z.shiftr x k) k).
  { apply Z.bits_inj'. intros n Hn. rewrite Z.land_spec.
    destruct (Z.ltb_spec n k).
    - rewrite !Z.shiftl_spec_low by lia. by rewrite andb_false_r.
    - rewrite !Z.shiftl_spec, Z.shiftr_spec by lia.
      replace (n - k + k) with n by lia.
      destruct (Z.ltb_spec n 32).
      + rewrite Z.ones_spec_low by lia. by rewrite andb_true_r.
      + rewrite Z.ones_spec_high, andb_false_r by lia.
        symmetry. apply Z.bits_above_log2; [lia|].
        destruct (Z.eq_dec x 0) as [->|]; [simpl; lia|].
        apply Z.log2_lt_pow2; [lia|].
        apply Z.lt_le_trans with (2 ^ 32); [simpl; lia|].
        apply Z.pow_le_mono_r; lia. }
  rewrite Hm, Hd, Z.shiftl_mul_pow2, Z.shiftr_div_pow2 by lia.
  pose proof (Z.div_mod x (2 ^ k)). lia.
Qed.

(** ** Buffer lemmas *)

Lemma buf_store_Some {A} (b : list A) i x b' :
  buf_store b i x = Some b' → (i < length b)%nat ∧ b' = <[i := x]> b.
Proof. unfold buf_store. intros H. case_decide; naive_solver. Qed.

Lemma buf_store_ok {A} (b : list A) i x : (i < length b)%nat → buf_store b i x = Some (<[i := x]> b).
Proof. intros. unfold buf_store. by rewrite decide_True. Qed.

(** A copy inside the buffer replaces exactly the bytes it covers. *)
Lemma buf_copy_ok src dst off :
  (off + length src ≤ length dst)%nat →
  buf_copy dst off src = Some (take off dst ++ src ++ drop (off + length src) dst).
Proof.
  revert dst off. induction src as [|x src IH]; intros dst off H; simpl in *.
  - rewrite Nat.add_0_r, take_drop. done.
  - rewrite buf_store_ok by lia. simpl. rewrite IH by (rewrite length_insert; lia).
    f_equal. erewrite take_S_r by (apply list_lookup_insert_eq; lia).
    rewrite take_insert_ge, drop_insert_lt by lia.
    rewrite <- app_assoc. simpl. by rewrite Nat.add_succ_r.
Qed.

(** A copy that leaves the buffer has no result. *)
Lemma buf_copy_None src dst off :
  (length dst < off + length src)%nat → src ≠ [] → buf_copy dst off src = None.
Proof.
  revert dst off. induction src as [|x src IH]; intros dst off H Hne; [done|].
  simpl. unfold buf_store. case_decide; [|done]. simpl. simpl in H.
  destruct src; simpl in *; [lia|]. apply IH; [rewrite length_insert; simpl; lia|done].
Qed.

Lemma buf_copy_length src dst off dst' :
  buf_copy dst off src = Some dst' → length dst' = length dst.
Proof.
  revert dst off. induction src as [|x src IH]; intros dst off H; simpl in H; [by simplify_eq|].
  apply bind_Some in H as (d & [_ ->]%buf_store_Some & H).
  apply IH in H. by rewrite H, length_insert.
Qed.

(** ** Table lemmas *)

Section first_index.
Context {A : Type} (p : A → bool).
Implicit Types l : list A.

Lemma first_index_Some l i :
  first_index p l = Some i →
  ∃ x, l !! i = Some x ∧ p x = true ∧ ∀ j y, (j < i)%nat → l !! j = Some y → p y = false.
Proof.
  revert i. induction l as [|x l IH]; intros i H; simpl in H; [done|].
  destruct (p x) eqn:Hp; simplify_eq.
  - exists x. repeat split; [done..|lia].
  - apply fmap_Some in H as (j & Hj & ->). destruct (IH j Hj) as (y & ? & ? & Hlt).
    exists y. repeat split; [done..|]. intros [|k] z Hk Hz; simpl in *; [congruence|].
    eapply Hlt; eauto. lia.
Qed.

Lemma first_index_None l :
  first_index p l = None ↔ ∀ i x, l !! i = Some x → p x = false.
Proof.
  induction l as [|x l IH]; simpl; [naive_solver|].
  destruct (p x) eqn:Hp.
  - split; [done|]. intros H. specialize (H O x eq_refl). congruence.
  - rewrite fmap_None, IH. split.
    + intros H [|i] y Hy; simpl in *; [congruence|eauto].
    + intros H i y Hy. by apply (H (S i)).
Qed.

Lemma first_index_lt l i : first_index p l = Some i → (i < length l)%nat.
Proof. intros (x & ? & _)%first_index_Some. by eapply lookup_lt_Some. Qed.

Lemma first_index_is_Some l i x :
  l !! i = Some x → p x = true → is_Some (first_index p l).
Proof.
  intros Hi Hp. destruct (first_index p l) eqn:E; [eauto|].
  rewrite first_index_None in E. specialize (E i x Hi). congruence.
Qed.

(** The scan finds a given slot when no other slot passes the test. *)
Lemma first_index_unique l i x :
  l !! i = Some x → p x = true →
  (∀ j y, l !! j = Some y → p y = true → j = i) → first_index p l = Some i.
Proof.
  intros Hi Hp Hu. destruct (first_index_is_Some l i x Hi Hp) as [j Hj].
  rewrite Hj. apply first_index_Some in Hj as (y & Hy & Hpy & _). by rewrite (Hu j y).
Qed.
End first_index.

Lemma first_index_fmap {A B} (p : B → bool) (f : A → B) (l : list A) :
  first_index p (f <$> l) = first_index (fun x => p (f x)) l.
Proof. induction l as [|x l IH]; [done|]. cbn [fmap list_fmap first_index]. case_match; [done|]. by rewrite <- IH. Qed.

Lemma first_index_insert {A} (p : A → bool) (l : list A) i x y :
  l !! i = Some x → p y = p x → first_index p (<[i := y]> l) = first_index p l.
Proof.
  revert i. induction l as [|z l IH]; intros [|i] Hi Hp; simpl in *; simplify_eq; [by rewrite Hp|].
  by rewrite (IH i).
Qed.

Lemma alter_insert {A} (f : A → A) (l : list A) i x :
  l !! i = Some x → alter f i l = <[i := f x]> l.
Proof.
  intros H. apply list_eq. intros j. rewrite list_lookup_alter, list_lookup_insert.
  apply lookup_lt_Some in H as Hlt. repeat case_decide; subst; try lia; try done.
  by rewrite H.
Qed.

Lemma filter_all {A} (P : A → Prop) `{!∀ x, Decision (P x)} (l : list A) :
  Forall P l → filter P l = l.
Proof. induction 1; [done|]. rewrite filter_cons_True by done. by f_equal. Qed.

Lemma filter_none {A} (P : A → Prop) `{!∀ x, Decision (P x)} (l : list A) :
  Forall (fun x => ¬ P x) l → filter P l = [].
Proof. induction 1; [done|]. by rewrite filter_cons_False. Qed.

(** ** String lemmas *)

Lemma char_at_lt s i : wf_cstr s → (i < length s)%nat → char_at s i ≠ 0.
Proof.
  intros Hs Hi. destruct (lookup_lt_is_Some_2 s i Hi) as [c Hc].
  unfold char_at. rewrite Hc. simpl.
  pose proof (Forall_lookup_1 _ _ _ _ Hs Hc) as H. simpl in H. lia.
Qed.

Lemma char_at_end s : char_at s (length s) = 0.
Proof. unfold char_at. by rewrite lookup_ge_None_2. Qed.

Lemma wf_cstr_app s t : wf_cstr (s ++ t) ↔ wf_cstr s ∧ wf_cstr t.
Proof. apply Forall_app. Qed.

Lemma wf_cstr_take n s : wf_cstr s → wf_cstr (take n s).
Proof. apply Forall_take. Qed.

Lemma wf_cstr_drop n s : wf_cstr s → wf_cstr (drop n s).
Proof. apply Forall_drop. Qed.

Lemma wf_cstr_tail s : wf_cstr s → wf_cstr (tail s).
Proof. intros H. destruct H; [constructor|done]. Qed.

Lemma wf_cstr_nil : wf_cstr [].
Proof. constructor. Qed.

Create HintDb kernel.
Create Rewrite HintDb kernel.
#[export] Hint Resolve u32_range u8_range wf_cstr_take wf_cstr_drop wf_cstr_tail wf_cstr_nil : kernel.
#[export] Hint Rewrite @length_app @length_insert @length_take @length_drop @length_alter
  @length_replicate @length_fmap : kernel.
