(* ===== verification/Memory.v ===== *)
(** * The kernel heap (kernel/memory.c)

    A bump allocator over the fixed range [0x00300000, 0x00400000).  The state
    is the static [heap_ptr]; [kalloc] rounds the request up to 16 bytes and
    advances the pointer.  [size_t] and pointers are 32 bits wide and both the
    rounding and the limit test wrap. *)

From S2P Require Import Prelude.

Module Memory.

Definition HEAP_START_ADDR : Z := 3145728.
Definition HEAP_SIZE_BYTES : Z := 1048576.
Definition heap_end : Z := HEAP_START_ADDR + HEAP_SIZE_BYTES.

(** The static state: the next free address, and memory for [kalloc_zero]. *)
Record heap := Heap { heap_ptr : Z }.

Definition align_up (value alignment : Z) : Z :=
  let mask := alignment -32 1 in
  Z.land (value +32 mask) (not32 mask).

Definition memory_init : heap := Heap HEAP_START_ADDR.

(** [None] is the null pointer. *)
Definition kalloc (h : heap) (size : Z) : option Z * heap :=
  if size =? 0 then (None, h)
  else
    let size := align_up size 16 in
    if heap_end <? heap_ptr h +32 size then (None, h)
    else (Some (heap_ptr h), Heap (heap_ptr h +32 size)).

(** [for (i = 0; i < n; ++i) ptr[i] = 0;] on a flat memory. *)
Fixpoint zero_bytes (mem : gmap Z Z) (ptr : Z) (n : nat) : gmap Z Z :=
  match n with
  | O => mem
  | S n' => zero_bytes (<[ptr := 0]> mem) (ptr +32 1) n'
  end.

Definition kalloc_zero (h : heap) (mem : gmap Z Z) (size : Z) : option Z * heap * gmap Z Z :=
  match kalloc h size with
  | (None, h') => (None, h', mem)
  | (Some ptr, h') => (Some ptr, h', zero_bytes mem ptr (Z.to_nat size))
  end.

Definition memory_total_bytes : Z := HEAP_SIZE_BYTES.

Definition memory_used_bytes (h : heap) : Z := heap_ptr h -32 HEAP_START_ADDR.

Definition memory_free_bytes (h : heap) : Z :=
  let used := memory_used_bytes h in
  if HEAP_SIZE_BYTES <=? used then 0 else HEAP_SIZE_BYTES -32 used.

Definition memory_heap_base : Z := HEAP_START_ADDR.
Definition memory_heap_limit : Z := heap_end.

(** ** Properties *)

(** The heap pointer stays in the heap and 16-byte aligned. *)
Definition wf_heap (h : heap) : Prop :=
  HEAP_START_ADDR ≤ heap_ptr h ≤ heap_end ∧ heap_ptr h mod 16 = 0.

(** The largest request whose rounding and limit test cannot wrap, whatever
    the heap pointer is. *)
Definition max_request : Z := 4294967296 - heap_end - 16.

(** Successive requests: what each returned, and the heap they leave. *)
Fixpoint kalloc_seq (h : heap) (sizes : list Z) : list (option Z) * heap :=
  match sizes with
  | [] => ([], h)
  | size :: sizes' =>
      let '(p, h1) := kalloc h size in
      let '(ps, h2) := kalloc_seq h1 sizes' in
      (p :: ps, h2)
  end.

Lemma align_up_16 v :
  0 ≤ v ≤ 4294967296 - 16 →
  v ≤ align_up v 16 < v + 16 ∧ align_up v 16 mod 16 = 0.
Proof.
  intros Hv. unfold align_up. change (16 -32 1) with (2 ^ 4 - 1).
  rewrite u32_small by (simpl; lia). rewrite land_not32_mask by (simpl; lia).
  set (x := v + (2 ^ 4 - 1)). change (2 ^ 4) with 16 in *.
  pose proof (Z.mod_pos_bound x 16 ltac:(lia)).
  split; [lia|]. rewrite Zminus_mod_idemp_r, Z.sub_diag. reflexivity.
Qed.

(** One allocation: on success the block is the old heap pointer, aligned, at
    least as large as requested, inside the heap, and below the new pointer. *)
Lemma kalloc_spec h size p h' :
  wf_heap h → 0 ≤ size ≤ max_request → kalloc h size = (p, h') →
  wf_heap h' ∧ heap_ptr h ≤ heap_ptr h' ∧
  match p with
  | None => h' = h
  | Some a => a = heap_ptr h ∧ a + size ≤ heap_ptr h' ∧ a mod 16 = 0
  end.
Proof.
  intros [Hr Ha] Hs H.
  unfold kalloc, wf_heap, max_request, heap_end, HEAP_START_ADDR, HEAP_SIZE_BYTES in *.
  destruct (size =? 0) eqn:Hz; bool_prop; simplify_eq; [repeat split; simpl; lia|].
  destruct (align_up_16 size) as [Hal Ham]; [lia|].
  rewrite u32_small in H by lia.
  case_match; bool_prop; simplify_eq; [repeat split; lia|].
  simpl. repeat split; try lia.
  rewrite Z.add_mod, Ha, Ham by lia. reflexivity.
Qed.

Lemma kalloc_seq_length h sizes ps h' :
  kalloc_seq h sizes = (ps, h') → length ps = length sizes.
Proof.
  revert h ps. induction sizes as [|s sizes IH]; intros h ps H; simpl in H; [by simplify_eq|].
  destruct (kalloc h s) as [p h1], (kalloc_seq h1 sizes) as [qs h2] eqn:E2. simplify_eq.
  simpl. f_equal. by eapply IH.
Qed.

Lemma kalloc_seq_wf h sizes ps h' :
  wf_heap h → Forall (fun s => 0 ≤ s ≤ max_request) sizes →
  kalloc_seq h sizes = (ps, h') →
  wf_heap h' ∧ heap_ptr h ≤ heap_ptr h' ∧
  ∀ i s a, sizes !! i = Some s → ps !! i = Some (Some a) →
    heap_ptr h ≤ a ∧ a + s ≤ heap_ptr h' ∧ a mod 16 = 0.
Proof.
  revert h ps h'. induction sizes as [|s sizes IH]; intros h ps h' Hh Hs H; simpl in H.
  { simplify_eq. repeat split; try apply Hh; try lia; by rewrite lookup_nil in *. }
  inv Hs. destruct (kalloc h s) as [p h1] eqn:E1, (kalloc_seq h1 sizes) as [qs h2] eqn:E2.
  simplify_eq. apply kalloc_spec in E1 as (H1 & Hle & Hp); [|done..].
  destruct (IH _ _ _ H1 H3 E2) as (Hh' & Hle' & Hall).
  split; [done|]. split; [lia|]. intros [|i] t a Ht Ha; simpl in *; simplify_eq.
  - destruct Hp as (-> & ? & ?). repeat split; lia.
  - destruct (Hall i t a Ht Ha) as (? & ? & ?). repeat split; lia.
Qed.

(** C40: successive allocations never overlap.  From any heap state, after any
    sequence of requests of at most 2^32 - heap_end - 16 bytes each, so that the 32-bit
    rounding cannot wrap, the blocks handed out are 16-byte aligned, lie in the heap,
    hold the requested number of bytes, and a block given to an earlier request ends at
    or below the start of every block given to a later one. *)
Theorem kalloc_blocks_disjoint h sizes ps h' :
  wf_heap h → Forall (fun s => 0 ≤ s ≤ max_request) sizes →
  kalloc_seq h sizes = (ps, h') →
  (∀ i s a, sizes !! i = Some s → ps !! i = Some (Some a) →
     memory_heap_base ≤ a ∧ a + s ≤ memory_heap_limit ∧ a mod 16 = 0) ∧
  (∀ i j s a b, (i < j)%nat → sizes !! i = Some s →
     ps !! i = Some (Some a) → ps !! j = Some (Some b) → a + s ≤ b).
Proof.
  intros Hh Hs H. split.
  - intros i s a Hi Ha. destruct (kalloc_seq_wf _ _ _ _ Hh Hs H) as (Hh' & _ & Hall).
    destruct (Hall i s a Hi Ha) as (? & ? & ?), Hh as [? _], Hh' as [? _].
    unfold memory_heap_base, memory_heap_limit. repeat split; lia.
  - revert h ps h' Hh H. induction Hs as [|t sizes Ht Hs IH]; intros h ps h' Hh H i j s a b Hij Hi Ha Hb;
      [by rewrite lookup_nil in Hi|]. simpl in H.
    destruct (kalloc h t) as [p h1] eqn:E1, (kalloc_seq h1 sizes) as [qs h2] eqn:E2. simplify_eq.
    apply kalloc_spec in E1 as (H1 & _ & Hp); [|done..].
    destruct j as [|j]; [lia|]. destruct i as [|i]; simpl in *; simplify_eq; [|eapply (IH h1 qs h' H1 E2 i j s a b); (done || lia)].
    destruct Hp as (-> & Hp & _).
    destruct (lookup_lt_is_Some_2 sizes j) as [sj Hsj].
    { rewrite <- (kalloc_seq_length _ _ _ _ E2). by eapply lookup_lt_Some. }
    destruct (kalloc_seq_wf _ _ _ _ H1 Hs E2) as (_ & _ & Hall).
    destruct (Hall j sj b Hsj Hb) as (? & _ & _). lia.
Qed.

Lemma kalloc_blocks_disjoint_witness :
  kalloc_seq memory_init [100; 8; 4096] =
    ([Some 3145728; Some 3145840; Some 3145856], Heap 3149952) ∧
  3145728 + 100 ≤ 3145840.
Proof.
  split; [reflexivity|].
  refine (proj2 (kalloc_blocks_disjoint memory_init [100; 8; 4096]
    [Some 3145728; Some 3145840; Some 3145856] (Heap 3149952) _ _ _)
    0%nat 1%nat 100 3145728 3145840 _ _ _ _).
  - split; [split; vm_compute; discriminate | reflexivity].
  - repeat constructor; vm_compute; discriminate.
  - reflexivity.
  - lia.
  - reflexivity.
  - reflexivity.
  - reflexivity.
Defined.

(** The 32-bit rounding of a request wraps.  For every request within 15
    bytes of the top of the address space the rounded size is zero, so the limit
    test passes, the caller gets a non-null pointer to a block of which no byte
    is reserved, and the heap does not move: the next caller gets the same
    block. *)
Theorem kalloc_rounding_wraps h size next :
  wf_heap h → 4294967280 < size < 4294967296 → 0 < next ≤ 16 →
  heap_ptr h + 16 ≤ heap_end →
  kalloc h size = (Some (heap_ptr h), h) ∧
  fst (kalloc (snd (kalloc h size)) next) = Some (heap_ptr h).
Proof.
  intros [Hr Ha] Hs Hn Hroom. unfold heap_end, HEAP_START_ADDR, HEAP_SIZE_BYTES in *.
  assert (Hz : align_up size 16 = 0).
  { unfold align_up. change (16 -32 1) with 15.
    replace (size +32 15) with (size + 15 - 4294967296).
    - replace (not32 15) with (not32 (2 ^ 4 - 1)) by reflexivity.
      rewrite land_not32_mask by lia. rewrite Z.mod_small by lia. lia.
    - unfold u32. symmetry. rewrite <- (Z.mod_small (size + 15 - 4294967296) 4294967296) by lia.
      rewrite <- (Z_mod_plus_full (size + 15 - 4294967296) 1). f_equal. lia. }
  assert (Hk : kalloc h size = (Some (heap_ptr h), h)).
  { unfold kalloc, heap_end, HEAP_START_ADDR, HEAP_SIZE_BYTES. rewrite Hz, Z.add_0_r, u32_small by lia.
    cases; try lia. by destruct h. }
  split; [done|]. rewrite Hk. simpl. unfold kalloc, heap_end, HEAP_START_ADDR, HEAP_SIZE_BYTES.
  destruct (align_up_16 next) as [? Hm]; [lia|]. rewrite u32_small by lia.
  cases; try done; Z.div_mod_to_equations; lia.
Qed.

Lemma kalloc_rounding_wraps_witness :
  kalloc memory_init 4294967295 = (Some 3145728, memory_init) ∧
  fst (kalloc (snd (kalloc memory_init 4294967295)) 16) = Some 3145728.
Proof.
  apply (kalloc_rounding_wraps memory_init 4294967295 16); [split; [split|] | split | split |];
    try reflexivity; vm_compute; discriminate.
Defined.

End Memory.
