(* ===== verification/CString.v ===== *)
(** * Memory and string primitives (kernel/string.c)

    The functions work on one flat memory, a list of bytes addressed by index,
    so that the two arguments of a copy may overlap.  A load or a store outside
    memory has no result. *)

From S2P Require Import Prelude.

Module CString.

(** [for (i = 0; i < n; ++i) d[i] = s[i];] *)
Fixpoint copy_forward (m : list Z) (dst src : nat) (n : nat) : option (list Z) :=
  match n with
  | O => Some m
  | S n' =>
      x ← m !! src;
      m' ← buf_store m dst x;
      copy_forward m' (S dst) (S src) n'
  end.

(** [for (i = n; i > 0; --i) d[i - 1] = s[i - 1];] *)
Fixpoint copy_backward (m : list Z) (dst src : nat) (n : nat) : option (list Z) :=
  match n with
  | O => Some m
  | S i =>
      x ← m !! (src + i)%nat;
      m' ← buf_store m (dst + i)%nat x;
      copy_backward m' dst src i
  end.

Definition memcpy (m : list Z) (dst src n : nat) : option (list Z) :=
  copy_forward m dst src n.

Definition memmove (m : list Z) (dst src n : nat) : option (list Z) :=
  if (dst =? src)%nat || (n =? 0)%nat then Some m
  else if (dst <? src)%nat then copy_forward m dst src n
  else copy_backward m dst src n.

(** [value] is converted to [unsigned char]. *)
Fixpoint memset (m : list Z) (dst : nat) (value : Z) (n : nat) : option (list Z) :=
  match n with
  | O => Some m
  | S n' => m' ← buf_store m dst (u8 value); memset m' (S dst) value n'
  end.

Fixpoint memcmp (m : list Z) (a b n : nat) : option Z :=
  match n with
  | O => Some 0
  | S n' =>
      x ← m !! a;
      y ← m !! b;
      if x =? y then memcmp m (S a) (S b) n' else Some (x - y)
  end.

(** [while (s[len]) ++len;] from the bytes at [s]: no result when memory ends
    before a terminator. *)
Fixpoint strlen_loop (bytes : list Z) (len : nat) : option nat :=
  match bytes with
  | [] => None
  | c :: bytes' => if c =? 0 then Some len else strlen_loop bytes' (S len)
  end.

Definition strlen (m : list Z) (s : nat) : option nat := strlen_loop (drop s m) 0.

(** ** Properties *)

(** The memory in which [n] bytes at [dst] are those that were at [src]. *)
Definition moved (m : list Z) (dst src n : nat) : list Z :=
  take dst m ++ take n (drop src m) ++ drop (dst + n) m.

Lemma moved_lookup m dst src n i :
  (dst + n ≤ length m)%nat → (src + n ≤ length m)%nat →
  moved m dst src n !! i =
    if decide (dst ≤ i < dst + n)%nat then m !! (src + (i - dst))%nat else m !! i.
Proof.
  intros Hd Hs. unfold moved.
  destruct (decide (i < dst)%nat).
  { rewrite lookup_app_l by (rewrite length_take; lia).
    rewrite lookup_take_lt by lia. by rewrite decide_False by lia. }
  rewrite lookup_app_r by (rewrite length_take; lia). rewrite length_take_le by lia.
  assert (Hl : length (take n (drop src m)) = n) by (rewrite length_take, length_drop; lia).
  destruct (decide (i < dst + n)%nat).
  - rewrite lookup_app_l by lia. rewrite lookup_take_lt, lookup_drop by lia.
    by rewrite decide_True by lia.
  - rewrite lookup_app_r, Hl, lookup_drop by lia. rewrite decide_False by lia. f_equal. lia.
Qed.

Lemma moved_length m dst src n :
  (dst + n ≤ length m)%nat → (src + n ≤ length m)%nat → length (moved m dst src n) = length m.
Proof.
  intros. unfold moved. rewrite !length_app, !length_take, !length_drop. lia.
Qed.

(** Memory equality by lookups, for the copy loops below. *)
Ltac by_lookup :=
  apply list_eq; intros k; rewrite !moved_lookup by (rewrite ?length_insert; lia);
  rewrite ?list_lookup_insert; repeat case_decide; try lia; try done.

Lemma copy_forward_moved m dst src n :
  (dst + n ≤ length m)%nat → (src + n ≤ length m)%nat →
  (dst ≤ src ∨ src + n ≤ dst)%nat →
  copy_forward m dst src n = Some (moved m dst src n).
Proof.
  revert m dst src. induction n as [|n IH]; intros m dst src Hd Hs Ho; simpl.
  { f_equal. by_lookup. }
  destruct (lookup_lt_is_Some_2 m src ltac:(lia)) as [x Hx]. rewrite Hx. simpl.
  rewrite buf_store_ok by lia. simpl. rewrite IH by (rewrite ?length_insert; lia).
  f_equal. by_lookup.
  all: try (f_equal; lia).
  replace k with dst by lia. replace (src + (dst - dst))%nat with src by lia. done.
Qed.

Lemma copy_backward_moved m dst src n :
  (dst + n ≤ length m)%nat → (src + n ≤ length m)%nat → (src ≤ dst)%nat →
  copy_backward m dst src n = Some (moved m dst src n).
Proof.
  revert m. induction n as [|n IH]; intros m Hd Hs Ho; simpl.
  { f_equal. by_lookup. }
  destruct (lookup_lt_is_Some_2 m (src + n)%nat ltac:(lia)) as [x Hx]. rewrite Hx. simpl.
  rewrite buf_store_ok by lia. simpl. rewrite IH by (rewrite ?length_insert; lia).
  f_equal. by_lookup.
  replace k with (dst + n)%nat by lia. replace (src + (dst + n - dst))%nat with (src + n)%nat by lia.
  done.
Qed.

(** [memmove] moves the bytes whatever the overlap.  For every pair of
    ranges inside memory, overlapping or not, it returns, the destination range
    holds exactly what the source range held before the call, and no other byte
    changes. *)
Theorem memmove_overlap_safe m dst src n :
  (dst + n ≤ length m)%nat → (src + n ≤ length m)%nat →
  ∃ m', memmove m dst src n = Some m' ∧ length m' = length m ∧
    (∀ i, (i < n)%nat → m' !! (dst + i)%nat = m !! (src + i)%nat) ∧
    (∀ i, (i < dst ∨ dst + n ≤ i)%nat → m' !! i = m !! i).
Proof.
  intros Hd Hs. exists (moved m dst src n). split.
  - unfold memmove. destruct (dst =? src)%nat eqn:E1; simpl.
    { bool_prop. subst. f_equal. by_lookup. f_equal. lia. }
    destruct (n =? 0)%nat eqn:E2; bool_prop. { subst. f_equal. by_lookup. }
    case_match; bool_prop; [apply copy_forward_moved | apply copy_backward_moved]; lia.
  - split; [by apply moved_length|].
    split; intros i Hi; rewrite moved_lookup by lia; case_decide; try lia; try done.
    f_equal. lia.
Qed.

Lemma memmove_overlap_safe_witness :
  memmove [1; 2; 3; 4; 5; 6] 2 0 4 = Some [1; 2; 1; 2; 3; 4] ∧
  ∃ m', memmove [1; 2; 3; 4; 5; 6] 2 0 4 = Some m' ∧ length m' = 6%nat ∧
    (∀ i, (i < 4)%nat → m' !! (2 + i)%nat = [1; 2; 3; 4; 5; 6] !! i) ∧
    (∀ i, (i < 2 ∨ 2 + 4 ≤ i)%nat → m' !! i = [1; 2; 3; 4; 5; 6] !! i).
Proof.
  split; [reflexivity|]. apply (memmove_overlap_safe [1; 2; 3; 4; 5; 6] 2 0 4); simpl; lia.
Defined.

(** [memcpy] agrees with [memmove] unless the destination starts inside the
    source range. *)
Lemma memcpy_disjoint m dst src n :
  (dst + n ≤ length m)%nat → (src + n ≤ length m)%nat →
  (dst ≤ src ∨ src + n ≤ dst)%nat → memcpy m dst src n = Some (moved m dst src n).
Proof. apply copy_forward_moved. Qed.

Lemma strlen_loop_add bytes k :
  strlen_loop bytes k = (fun n => n + k)%nat <$> strlen_loop bytes 0.
Proof.
  revert k. induction bytes as [|c bytes IH]; intros k; simpl; [done|].
  case_match; [done|]. rewrite IH, (IH 1%nat). destruct (strlen_loop bytes 0); simpl; [|done].
  f_equal. lia.
Qed.

(** [strlen] is the distance to the first terminator. *)
Lemma strlen_spec m s n :
  strlen m s = Some n ↔
  m !! (s + n)%nat = Some 0 ∧ ∀ i, (i < n)%nat → ∃ c, m !! (s + i)%nat = Some c ∧ c ≠ 0.
Proof.
  unfold strlen. setoid_rewrite <- lookup_drop. generalize (drop s m) as bytes.
  intros bytes. revert n. induction bytes as [|c bytes IH]; intros n; simpl.
  { rewrite lookup_nil. naive_solver. }
  case_match; bool_prop.
  - subst. split; [intros; simplify_eq; split; [done|lia]|].
    intros [H1 H2]. destruct n as [|n]; [done|].
    destruct (H2 0%nat ltac:(lia)) as (? & ? & ?). naive_solver.
  - rewrite strlen_loop_add, fmap_Some. split.
    + intros (k & Hk & ->). rewrite Nat.add_1_r. apply IH in Hk as [H1 H2].
      split; [done|]. intros [|i] Hi; simpl; [eauto|]. apply H2. lia.
    + intros [H1 H2]. destruct n as [|n]; simpl in *; [naive_solver|].
      exists n. split; [|lia]. apply IH. split; [done|].
      intros i Hi. apply (H2 (S i)). lia.
Qed.

(** [memcmp] is zero exactly on equal ranges. *)
Lemma memcmp_zero m a b n :
  (a + n ≤ length m)%nat → (b + n ≤ length m)%nat →
  memcmp m a b n = Some 0 ↔ take n (drop a m) = take n (drop b m).
Proof.
  revert a b. induction n as [|n IH]; intros a b Ha Hb; simpl; [done|].
  destruct (lookup_lt_is_Some_2 m a ltac:(lia)) as [x Hx].
  destruct (lookup_lt_is_Some_2 m b ltac:(lia)) as [y Hy].
  rewrite Hx, Hy, (drop_S _ _ _ Hx), (drop_S _ _ _ Hy). simpl.
  case_match; bool_prop.
  - subst. rewrite IH by lia. split; [by intros ->|by intros [=]].
  - split; [intros; simplify_eq; lia|intros [=]; done].
Qed.

End CString.
