(* ===== verification/Ramfs.v ===== *)
(** * The RAM file system (kernel/ramfs.c, kernel/ramfs.h)

    A volume is a table of 32 entries; an entry holds a path of at most 31
    bytes, a directory flag, and up to 1023 bytes of data in a 1024-byte array
    that is kept NUL-terminated.  The volume pointer of the C functions is the
    state the operations thread; the other pointers that the code tests against
    [NULL] are options.  An operation's result is [None] when it would index an
    array out of range. *)

From S2P Require Import Prelude.

Module Ramfs.

Definition RAMFS_MAX_FILES : nat := 32.
Definition RAMFS_MAX_NAME : nat := 32.
Definition RAMFS_MAX_FILE_SIZE : nat := 1024.

Record ramfs_entry := Entry {
  used : bool;
  name : cstring;
  is_directory : bool;
  size : nat;
  data : list Z;
}.

Abbreviation ramfs_volume := (list ramfs_entry).

(** ** String helpers *)

Definition str_len (s : cstring) : nat := length s.

Fixpoint str_cmp (a b : cstring) : Z :=
  match a, b with
  | x :: a', y :: b' => if x =? y then str_cmp a' b' else x - y
  | _, _ => char0 a - char0 b
  end.

(** The string [dst] holds after the copy. *)
Fixpoint str_copy (src : cstring) (max_len : nat) : cstring :=
  match src, max_len with
  | c :: src', S (S _ as m) => c :: str_copy src' m
  | _, _ => []
  end.

Fixpoint str_starts_with (str prefix : cstring) : bool :=
  match prefix with
  | [] => true
  | p :: prefix' => if char0 str =? p then str_starts_with (tail str) prefix' else false
  end.

Definition path_is_valid (name : cstring) : bool :=
  let len := str_len name in
  if (len =? 0)%nat then false
  else if (RAMFS_MAX_NAME <=? len)%nat then false
  else negb ((char_at name 0 =? slash) || (char_at name (len - 1) =? slash)).

(** The loop that remembers the index of the last slash; [None] is [(size_t)-1]. *)
Fixpoint last_slash_from (s : cstring) (i : nat) (last_slash : option nat) : option nat :=
  match s with
  | [] => last_slash
  | c :: s' => last_slash_from s' (S i) (if c =? slash then Some i else last_slash)
  end.

(** ** Entries *)

Definition find_entry (volume : ramfs_volume) (name' : cstring) : option nat :=
  first_index (fun e => used e && (str_cmp (name e) name' =? 0)) volume.

(** [parent] is the prefix of [name] before its last slash, which fits its
    32-byte array because the index is tested below [RAMFS_MAX_NAME]. *)
Definition ensure_parent_directory (volume : ramfs_volume) (name' : cstring) : bool :=
  match last_slash_from name' 0 None with
  | None => true
  | Some last_slash =>
      if (last_slash =? 0)%nat || (RAMFS_MAX_NAME <=? last_slash)%nat then false
      else
        match find_entry volume (take last_slash name') with
        | None => false
        | Some i => from_option is_directory false (volume !! i)
        end
  end.

Definition fresh_entry (name' : cstring) (directory : bool) (old : ramfs_entry) : ramfs_entry :=
  {| used := true; name := str_copy name' RAMFS_MAX_NAME; is_directory := directory;
     size := 0; data := <[0%nat := 0]> (data old) |}.

(** The entry's index, or [None] for the null pointer, and the volume after. *)
Definition create_entry (volume : ramfs_volume) (name' : cstring) (directory : bool)
    : option nat * ramfs_volume :=
  if negb (path_is_valid name') then (None, volume)
  else
    match find_entry volume name' with
    | Some i =>
        if Bool.eqb (from_option is_directory false (volume !! i)) directory
        then (Some i, volume) else (None, volume)
    | None =>
        if negb (ensure_parent_directory volume name') then (None, volume)
        else
          match first_index (fun e => negb (used e)) volume with
          | Some i => (Some i, alter (fresh_entry name' directory) i volume)
          | None => (None, volume)
          end
    end.

(** What [ramfs_volume_init] and [ramfs_volume_remove] leave in an entry. *)
Definition clear_entry (e : ramfs_entry) : ramfs_entry :=
  {| used := false; name := []; is_directory := false; size := 0;
     data := <[0%nat := 0]> (data e) |}.

Definition ramfs_volume_init (volume : ramfs_volume) : ramfs_volume := clear_entry <$> volume.

(** ** Listing *)

Definition nested (child : cstring) : bool := existsb (Z.eqb slash) child.

(** The part of an entry's name that the listing of [dir] shows, if any. *)
Definition child_of (is_root : bool) (dir name' : cstring) : option cstring :=
  if is_root then if nested name' then None else Some name'
  else
    let dir_len := str_len dir in
    if (str_len name' <=? dir_len)%nat then None
    else if negb (str_starts_with name' dir) then None
    else if negb (char_at name' dir_len =? slash) then None
    else
      let child := drop (dir_len + 1) name' in
      if (str_len child =? 0)%nat then None
      else if nested child then None else Some child.

(** The stores of one listed entry: its name, a slash for a directory, a newline. *)
Definition emit_child (buffer : list Z) (written : nat) (child : cstring) (directory : bool)
    : option (list Z) :=
  let child_len := str_len child in
  let extra := if directory then 1%nat else 0%nat in
  b ← buf_copy buffer written child;
  b ← (if directory then buf_store b (written + child_len) slash else Some b);
  buf_store b (written + child_len + extra) newline.

(** The listing loop: the buffer and the count written when it ends or breaks. *)
Fixpoint list_loop (files : list ramfs_entry) (is_root : bool) (dir : cstring)
    (buffer : list Z) (written : nat) : option (list Z * nat) :=
  match files with
  | [] => Some (buffer, written)
  | entry :: files' =>
      if negb (used entry) then list_loop files' is_root dir buffer written
      else
        match child_of is_root dir (name entry) with
        | None => list_loop files' is_root dir buffer written
        | Some child =>
            let child_len := str_len child in
            let extra := if is_directory entry then 1%nat else 0%nat in
            if (length buffer <=? written + child_len + extra + 1)%nat
            then Some (buffer, written)
            else
              b ← emit_child buffer written child (is_directory entry);
              list_loop files' is_root dir b (written + child_len + extra + 1)
        end
  end.

Definition ramfs_volume_list (volume : ramfs_volume) (directory : option cstring)
    (buffer : option (list Z)) : option (Z * list Z) :=
  match buffer with
  | None => Some (-1, [])
  | Some buffer =>
      if (length buffer =? 0)%nat then Some (-1, buffer)
      else
        let dir := default [] directory in
        let is_root := (str_len dir =? 0)%nat in
        let dir_ok :=
          if is_root then true
          else if negb (path_is_valid dir) then false
          else match find_entry volume dir with
               | None => false
               | Some i => from_option is_directory false (volume !! i)
               end in
        if negb dir_ok then Some (-1, buffer)
        else
          '(b, written) ← list_loop volume is_root dir buffer 0;
          let written := if (0 <? written)%nat then (written - 1)%nat else written in
          b ← buf_store b written 0;
          Some (Z.of_nat written, b)
  end.

(** ** Reading and writing *)

(** The first [n] bytes of an array. *)
Definition buf_slice (b : list Z) (n : nat) : option (list Z) :=
  if (n <=? length b)%nat then Some (take n b) else None.

Definition ramfs_volume_read (volume : ramfs_volume) (name' : option cstring)
    (out : option (list Z)) : option (Z * list Z) :=
  match name', out with
  | Some name', Some out =>
      if (length out =? 0)%nat then Some (-1, out)
      else if negb (path_is_valid name') then Some (-1, out)
      else
        match i ← find_entry volume name'; volume !! i with
        | None => Some (-1, out)
        | Some file =>
            if is_directory file then Some (-1, out)
            else
              let to_copy := if (length out <=? size file)%nat then (length out - 1)%nat
                             else size file in
              bytes ← buf_slice (data file) to_copy;
              out ← buf_copy out 0 bytes;
              out ← buf_store out to_copy 0;
              Some (Z.of_nat to_copy, out)
        end
  | _, _ => Some (-1, default [] out)
  end.

Definition set_data (size' : nat) (data' : list Z) (e : ramfs_entry) : ramfs_entry :=
  {| used := used e; name := name e; is_directory := is_directory e;
     size := size'; data := data' |}.

(** [data] is the caller's pointer with the [length] bytes it points at. *)
Definition ramfs_volume_append (volume : ramfs_volume) (name' : option cstring)
    (bytes : option (list Z)) : option (Z * ramfs_volume) :=
  match name', bytes with
  | Some name', Some bytes =>
      if (length bytes =? 0)%nat then Some (-1, volume)
      else if negb (path_is_valid name') then Some (-1, volume)
      else
        let '(slot, volume) := create_entry volume name' false in
        match slot with
        | None => Some (-1, volume)
        | Some i =>
            file ← volume !! i;
            if is_directory file then Some (-1, volume)
            else if Z.of_nat RAMFS_MAX_FILE_SIZE <=? Z.of_nat (size file) +32 Z.of_nat (length bytes)
            then Some (-1, volume)
            else
              d ← buf_copy (data file) (size file) bytes;
              let size' := Z.to_nat (Z.of_nat (size file) +32 Z.of_nat (length bytes)) in
              d ← buf_store d size' 0;
              Some (Z.of_nat (length bytes), alter (set_data size' d) i volume)
        end
  | _, _ => Some (-1, volume)
  end.

Definition ramfs_volume_write (volume : ramfs_volume) (name' : option cstring)
    (bytes : option (list Z)) : option (Z * ramfs_volume) :=
  match name' with
  | None => Some (-1, volume)
  | Some name' =>
      if negb (path_is_valid name') then Some (-1, volume)
      else
        let '(slot, volume) := create_entry volume name' false in
        match slot with
        | None => Some (-1, volume)
        | Some i =>
            file ← volume !! i;
            if is_directory file then Some (-1, volume)
            else
              match bytes with
              | None => Some (0, alter (set_data 0 (<[0%nat := 0]> (data file))) i volume)
              | Some bytes =>
                  let len := if (RAMFS_MAX_FILE_SIZE <=? length bytes)%nat
                             then (RAMFS_MAX_FILE_SIZE - 1)%nat else length bytes in
                  d ← buf_copy (data file) 0 (take len bytes);
                  d ← buf_store d len 0;
                  Some (Z.of_nat len, alter (set_data len d) i volume)
              end
        end
  end.

(** ** Removing and creating directories *)

(** The loop that removes what is below a removed directory. *)
Definition remove_child (name' : cstring) (child : ramfs_entry) : ramfs_entry :=
  let prefix_len := str_len name' in
  if negb (used child) then child
  else if (str_len (name child) <=? prefix_len)%nat then child
  else if negb (str_starts_with (name child) name') then child
  else if negb (char_at (name child) prefix_len =? slash) then child
  else clear_entry child.

Definition ramfs_volume_remove (volume : ramfs_volume) (name' : option cstring)
    : option (Z * ramfs_volume) :=
  match name' with
  | None => Some (-1, volume)
  | Some name' =>
      if negb (path_is_valid name') then Some (-1, volume)
      else
        match find_entry volume name' with
        | None => Some (-1, volume)
        | Some i =>
            file ← volume !! i;
            let was_directory := is_directory file in
            let volume := alter clear_entry i volume in
            if was_directory then Some (0, remove_child name' <$> volume)
            else Some (0, volume)
        end
  end.

Definition ramfs_volume_mkdir (volume : ramfs_volume) (name' : option cstring)
    : option (Z * ramfs_volume) :=
  match name' with
  | None => Some (-1, volume)
  | Some name' =>
      if negb (path_is_valid name') then Some (-1, volume)
      else
        let '(slot, volume) := create_entry volume name' true in
        match slot with
        | None => Some (-1, volume)
        | Some i =>
            entry ← volume !! i;
            Some (0, alter (set_data 0 (<[0%nat := 0]> (data entry))) i volume)
        end
  end.

(** ** The root volume *)

Record root_state := Root { root_volume : ramfs_volume; root_initialized : bool }.

Definition ramfs_root_volume (st : root_state) : root_state :=
  if root_initialized st then st
  else {| root_volume := ramfs_volume_init (root_volume st); root_initialized := true |}.

Definition ramfs_init (st : root_state) : root_state :=
  let st := ramfs_root_volume st in
  {| root_volume := ramfs_volume_init (root_volume st); root_initialized := root_initialized st |}.

(** Run an operation of a volume on the root volume. *)
Definition on_root (f : ramfs_volume → option (Z * ramfs_volume)) (st : root_state)
    : option (Z * root_state) :=
  let st := ramfs_root_volume st in
  '(rc, v) ← f (root_volume st);
  Some (rc, {| root_volume := v; root_initialized := root_initialized st |}).

Definition ramfs_list (st : root_state) (buffer : option (list Z)) : option (Z * list Z) :=
  ramfs_volume_list (root_volume (ramfs_root_volume st)) (Some []) buffer.
Definition ramfs_read (st : root_state) (name' : option cstring) (out : option (list Z))
    : option (Z * list Z) :=
  ramfs_volume_read (root_volume (ramfs_root_volume st)) name' out.
Definition ramfs_write (st : root_state) (name' : option cstring) (bytes : option (list Z))
    : option (Z * root_state) := on_root (fun v => ramfs_volume_append v name' bytes) st.
Definition ramfs_write_file (st : root_state) (name' : option cstring) (bytes : option (list Z))
    : option (Z * root_state) := on_root (fun v => ramfs_volume_write v name' bytes) st.
Definition ramfs_remove (st : root_state) (name' : option cstring) : option (Z * root_state) :=
  on_root (fun v => ramfs_volume_remove v name') st.
Definition ramfs_mkdir (st : root_state) (name' : option cstring) : option (Z * root_state) :=
  on_root (fun v => ramfs_volume_mkdir v name') st.

(** A volume as static storage leaves it at boot: all bytes zero. *)
Definition boot_volume : ramfs_volume :=
  replicate RAMFS_MAX_FILES
    {| used := false; name := []; is_directory := false; size := 0;
       data := replicate RAMFS_MAX_FILE_SIZE 0 |}.

End Ramfs.
