(* ===== verification/RamfsSpec.v ===== *)
(** * Correctness of the RAM file system

    An abstract file system, a finite map from paths to nodes; the invariant
    every operation of kernel/ramfs.c keeps; and the proof that each operation
    behaves as its abstract counterpart and stays inside its arrays. *)

From S2P Require Import Prelude Ramfs.
Import Ramfs.

Module RamfsSpec.

(** ** The abstract file system *)

Inductive node := Dir | File (content : list Z).

Abbreviation fs := (gmap (list Z) node).

(** [q] lies below the directory [p]. *)
Definition below (p q : cstring) : Prop := (p ++ [slash]) `prefix_of` q.
#[export] Instance below_dec p q : Decision (below p q).
Proof. unfold below. apply _. Defined.

Definition parent_ok (m : fs) (p : cstring) : bool :=
  match last_slash_from p 0 None with
  | None => true
  | Some k => match m !! take k p with Some Dir => true | _ => false end
  end.

(** Find or make a node of the given kind; [None] when that is refused. *)
Definition spec_create (m : fs) (p : cstring) (new : node) : option fs :=
  if negb (path_is_valid p) then None
  else match m !! p, new with
       | Some Dir, Dir | Some (File _), File _ => Some m
       | Some _, _ => None
       | None, _ => if parent_ok m p && bool_decide (base.size m < 32)%nat
                    then Some (<[p := new]> m) else None
       end.

Definition spec_write (m : fs) (p : cstring) (bytes : option (list Z)) : Z * fs :=
  match spec_create m p (File []) with
  | None => (-1, m)
  | Some m' =>
      let c := take 1023 (default [] bytes) in (Z.of_nat (length c), <[p := File c]> m')
  end.

Definition spec_append (m : fs) (p : cstring) (bytes : list Z) : Z * fs :=
  if (length bytes =? 0)%nat then (-1, m)
  else match spec_create m p (File []) with
       | None => (-1, m)
       | Some m' =>
           match m' !! p with
           | Some (File c) =>
               if (1024 <=? length c + length bytes)%nat then (-1, m')
               else (Z.of_nat (length bytes), <[p := File (c ++ bytes)]> m')
           | _ => (-1, m')
           end
       end.

Definition spec_remove (m : fs) (p : cstring) : Z * fs :=
  if negb (path_is_valid p) then (-1, m)
  else match m !! p with
       | None => (-1, m)
       | Some (File _) => (0, delete p m)
       | Some Dir => (0, filter (fun '(q, _) => q ≠ p ∧ ¬ below p q) m)
       end.

Definition spec_mkdir (m : fs) (p : cstring) : Z * fs :=
  match spec_create m p Dir with None => (-1, m) | Some m' => (0, m') end.

(** ** Operations as data *)

Inductive op :=
| OWrite (name : option cstring) (bytes : option (list Z))
| OAppend (name : option cstring) (bytes : option (list Z))
| ORemove (name : option cstring)
| OMkdir (name : option cstring).

Definition exec (v : ramfs_volume) (o : op) : option (Z * ramfs_volume) :=
  match o with
  | OWrite n b => ramfs_volume_write v n b
  | OAppend n b => ramfs_volume_append v n b
  | ORemove n => ramfs_volume_remove v n
  | OMkdir n => ramfs_volume_mkdir v n
  end.

Definition spec_exec (m : fs) (o : op) : Z * fs :=
  match o with
  | OWrite (Some p) b => spec_write m p b
  | OAppend (Some p) (Some b) => spec_append m p b
  | ORemove (Some p) => spec_remove m p
  | OMkdir (Some p) => spec_mkdir m p
  | _ => (-1, m)
  end.

(** The path an operation is asked to change. *)
Definition op_path (o : op) : option cstring :=
  match o with OWrite n _ | OAppend n _ | ORemove n | OMkdir n => n end.

(** What a caller must supply: NUL-terminated names, and for an append a length
    that does not make the 32-bit size test wrap. *)
Definition wf_op (o : op) : Prop :=
  match o with
  | OWrite n _ | ORemove n | OMkdir n => from_option wf_cstr True n
  | OAppend n b => from_option wf_cstr True n ∧
      Z.of_nat (length (default [] b)) < 4294967296 - 1024
  end.

(** ** The invariant *)

Definition wf_entry (e : ramfs_entry) : Prop :=
  length (data e) = 1024%nat ∧
  (used e = true →
     path_is_valid (name e) = true ∧ wf_cstr (name e) ∧
     (size e < 1024)%nat ∧ data e !! size e = Some 0 ∧
     (is_directory e = true → size e = 0%nat)).

Definition used_at (v : ramfs_volume) (i : nat) (e : ramfs_entry) : Prop :=
  v !! i = Some e ∧ used e = true.

(** Every entry is well formed, no two used entries share a name, and the
    parent path of every used entry is a used directory. *)
Definition wf (v : ramfs_volume) : Prop :=
  length v = RAMFS_MAX_FILES ∧
  (∀ i e, v !! i = Some e → wf_entry e) ∧
  (∀ i j e f, used_at v i e → used_at v j f → name e = name f → i = j) ∧
  (∀ i e k, used_at v i e → last_slash_from (name e) 0 None = Some k →
     ∃ j d, used_at v j d ∧ is_directory d = true ∧ name d = take k (name e)).

Definition node_of (e : ramfs_entry) : node :=
  if is_directory e then Dir else File (take (size e) (data e)).

(** The abstract file system a volume represents. *)
Definition abs (v : ramfs_volume) : fs :=
  list_to_map (omap (fun e => if used e then Some (name e, node_of e) else None) v).

(** ** Strings *)

Lemma str_cmp_eq a b : wf_cstr a → wf_cstr b → (str_cmp a b =? 0) = bool_decide (a = b).
Proof.
  intros Ha. revert b. induction Ha as [|x a Hx Ha IH]; intros b Hb; destruct Hb as [|y b Hy Hb];
    cbn [str_cmp char0].
  - done.
  - rewrite bool_decide_eq_false_2 by done. apply Z.eqb_neq. lia.
  - rewrite bool_decide_eq_false_2 by done. apply Z.eqb_neq. lia.
  - destruct (Z.eqb_spec x y) as [->|].
    + rewrite IH by done. apply bool_decide_ext. naive_solver.
    + rewrite bool_decide_eq_false_2 by congruence. apply Z.eqb_neq. lia.
Qed.

Lemma str_copy_take s n : str_copy s n = take (n - 1) s.
Proof.
  revert n. induction s as [|c s IH]; intros [|[|n]]; simpl; try done.
  f_equal. rewrite IH. simpl. by rewrite Nat.sub_0_r.
Qed.

Lemma str_starts_with_prefix s p :
  wf_cstr p → str_starts_with s p = bool_decide (p `prefix_of` s).
Proof.
  intros Hp. revert s. induction Hp as [|c p Hc Hp IH]; intros s; cbn [str_starts_with].
  { symmetry. apply bool_decide_eq_true_2, prefix_nil. }
  destruct s as [|x s]; cbn [char0 tail].
  { rewrite bool_decide_eq_false_2 by (intros [? ?]; done). cases; lia. }
  destruct (Z.eqb_spec x c) as [->|].
  - rewrite IH. apply bool_decide_ext. split; [apply prefix_cons|apply prefix_cons_inv_2].
  - rewrite bool_decide_eq_false_2; [done|]. intros ?%prefix_cons_inv_1. done.
Qed.

(** The guard of the removal loop recognises the entries below a directory. *)
Lemma below_guard p n :
  wf_cstr p →
  ((length p < length n)%nat ∧ str_starts_with n p = true ∧ char_at n (length p) = slash)
  ↔ below p n.
Proof.
  intros Hp. rewrite str_starts_with_prefix, bool_decide_eq_true by done. unfold below, char_at. split.
  - intros (Hl & [t ->] & Hc). rewrite lookup_app_r in Hc by lia.
    rewrite Nat.sub_diag in Hc. destruct t as [|c t]; simpl in Hc; [done|].
    subst. exists t. by rewrite <- app_assoc.
  - intros [t ->]. rewrite !length_app. simpl. split; [lia|]. split.
    + rewrite <- app_assoc. by eexists.
    + rewrite <- app_assoc, lookup_app_r by lia. by rewrite Nat.sub_diag.
Qed.

Lemma last_slash_from_acc s i acc :
  last_slash_from s i acc =
    match last_slash_from s 0 None with Some k => Some (i + k)%nat | None => acc end.
Proof.
  revert i acc. induction s as [|c s IH]; intros i acc; simpl; [done|].
  rewrite IH, (IH 1%nat). destruct (last_slash_from s 0 None); simpl; [f_equal; lia|].
  case_match; [f_equal; lia|done].
Qed.

Lemma last_slash_None s : last_slash_from s 0 None = None ↔ slash ∉ s.
Proof.
  induction s as [|c s IH]; simpl; [split; [intros _; apply not_elem_of_nil|done]|].
  rewrite last_slash_from_acc, not_elem_of_cons, <- IH.
  destruct (last_slash_from s 0 None); [naive_solver|].
  destruct (Z.eqb_spec c slash); naive_solver.
Qed.

Lemma last_slash_Some s k :
  last_slash_from s 0 None = Some k ↔ s !! k = Some slash ∧ slash ∉ drop (S k) s.
Proof.
  revert k. induction s as [|c s IH]; intros k; simpl; [naive_solver|].
  rewrite last_slash_from_acc. destruct (last_slash_from s 0 None) as [j|] eqn:E.
  - destruct k as [|k]; simpl.
    + rewrite drop_0, <- last_slash_None, E. naive_solver.
    + rewrite <- IH. split; intros [= H]; f_equal; lia.
  - apply last_slash_None in E. destruct k as [|k]; simpl.
    + rewrite drop_0. destruct (Z.eqb_spec c slash); naive_solver.
    + split; [case_match; naive_solver|]. intros H%IH. done.
Qed.

(** ** Entries and the abstraction *)

Abbreviation keyed := (fun e => if used e then Some (name e, node_of e) else None).

Lemma elem_of_keyed v p n :
  (p, n) ∈ omap keyed v ↔ ∃ i e, used_at v i e ∧ name e = p ∧ node_of e = n.
Proof.
  rewrite list_elem_of_omap. split.
  - intros (e & (i & Hi)%list_elem_of_lookup & He). destruct (used e) eqn:Eu; [|done].
    simplify_eq. exists i, e. by repeat split.
  - intros (i & e & [Hi He] & <- & <-). exists e. rewrite He. split; [|done].
    by eapply list_elem_of_lookup_2.
Qed.

Lemma keyed_nodup v :
  (∀ i j e f, used_at v i e → used_at v j f → name e = name f → i = j) →
  NoDup (omap keyed v).*1.
Proof.
  induction v as [|e v IH]; intros Hg; simpl; [constructor|].
  assert (IH' : NoDup (omap keyed v).*1).
  { apply IH. intros i j x y [? ?] [? ?] ?. assert (S i = S j); [|lia]. by eapply Hg; [split|split|]. }
  destruct (used e) eqn:Eu; [|done]. simpl. constructor; [|done].
  intros ([q n] & Hq & (j & f & [Hj Hf] & Hn & _)%elem_of_keyed)%list_elem_of_fmap. simpl in *.
  assert (0%nat = S j); [|lia]. eapply Hg; [by split|by split|congruence].
Qed.

Lemma abs_lookup v p n :
  wf v → abs v !! p = Some n ↔ ∃ i e, used_at v i e ∧ name e = p ∧ node_of e = n.
Proof.
  intros (_ & _ & Hu & _). unfold abs. rewrite <- elem_of_list_to_map by by apply keyed_nodup.
  apply elem_of_keyed.
Qed.

Lemma abs_lookup_used v i e :
  wf v → used_at v i e → abs v !! name e = Some (node_of e).
Proof. intros Hv He. apply abs_lookup; [done|]. by exists i, e. Qed.

Lemma abs_lookup_None v p :
  wf v → abs v !! p = None ↔ ∀ i e, used_at v i e → name e ≠ p.
Proof.
  intros Hv. rewrite eq_None_not_Some. split.
  - intros H i e He <-. apply H. rewrite (abs_lookup_used v i e) by done. eauto.
  - intros H [n (i & e & He & Hn & _)%abs_lookup]; [|done]. by eapply H.
Qed.

Lemma used_wf v i e : wf v → used_at v i e → path_is_valid (name e) = true ∧ wf_cstr (name e).
Proof. intros (_ & He & _) [Hi Hu]. destruct (He i e Hi) as [_ H]. naive_solver. Qed.

(** The table scan finds the entry that carries the name, and no other. *)
Lemma find_entry_Some v p i :
  wf v → wf_cstr p → find_entry v p = Some i ↔ ∃ e, used_at v i e ∧ name e = p.
Proof.
  intros Hv Hp. unfold find_entry. split.
  - intros (e & Hi & He & _)%first_index_Some. apply andb_true_iff in He as [Hu Hc].
    exists e. rewrite str_cmp_eq, bool_decide_eq_true in Hc; [done|by eapply used_wf|done].
  - intros (e & [Hi Hu] & <-). apply first_index_unique with e; [done| |].
    + rewrite Hu, str_cmp_eq by done. simpl. by apply bool_decide_eq_true.
    + intros j f Hj [Hf Hc]%andb_true_iff.
      rewrite str_cmp_eq, bool_decide_eq_true in Hc; [|by eapply used_wf; [|split]|done].
      destruct Hv as (_ & _ & Hun & _). by eapply Hun.
Qed.

Lemma find_entry_None v p :
  wf v → wf_cstr p → find_entry v p = None ↔ abs v !! p = None.
Proof.
  intros Hv Hp. rewrite abs_lookup_None by done. split.
  - intros H i e He Hn. assert (find_entry v p = Some i) by (apply find_entry_Some; eauto). congruence.
  - intros H. destruct (find_entry v p) as [i|] eqn:E; [|done].
    apply find_entry_Some in E as (e & He & Hn); [|done..]. by apply H in He.
Qed.

(** What the code learns from a lookup: the slot and its node, or absence. *)
Lemma find_entry_cases v p :
  wf v → wf_cstr p →
  (∃ i e, find_entry v p = Some i ∧ used_at v i e ∧ name e = p ∧ abs v !! p = Some (node_of e)) ∨
  (find_entry v p = None ∧ abs v !! p = None).
Proof.
  intros Hv Hp. destruct (find_entry v p) as [i|] eqn:E.
  - left. pose proof E as (e & He & Hn)%find_entry_Some; [|done..].
    exists i, e. repeat split; try done; try apply He. rewrite <- Hn. by eapply abs_lookup_used.
  - right. split; [done|]. by apply find_entry_None.
Qed.

Lemma abs_size v : wf v → base.size (abs v) = length (filter (fun e => used e = true) v).
Proof.
  intros (_ & _ & Hu & _). unfold abs. rewrite map_size_list_to_map by by apply keyed_nodup.
  clear Hu. induction v as [|e v IH]; simpl; [done|]. rewrite filter_cons.
  destruct (used e); [rewrite decide_True by done|rewrite decide_False by done]; simpl; [f_equal|]; exact IH.
Qed.

Lemma used_at_insert v i e' j f :
  (i < length v)%nat →
  used_at (<[i := e']> v) j f ↔
    (j = i ∧ f = e' ∧ used e' = true) ∨ (j ≠ i ∧ used_at v j f).
Proof.
  intros Hi. unfold used_at. rewrite list_lookup_insert. case_decide; naive_solver.
Qed.

(** Rewriting the contents of a used entry. *)
Lemma wf_update v i e e' :
  wf v → used_at v i e → wf_entry e' → used e' = true →
  name e' = name e → is_directory e' = is_directory e →
  wf (<[i := e']> v) ∧ abs (<[i := e']> v) = <[name e := node_of e']> (abs v).
Proof.
  intros Hv Hi He' Hu' Hn Hd. pose proof Hv as (Hlen & Hwf & Hun & Hpar).
  assert (Hil : (i < length v)%nat) by (destruct Hi as [Hi _]; by eapply lookup_lt_Some).
  assert (Hw : wf (<[i := e']> v)).
  { split; [by rewrite length_insert|]. split.
    { intros j f. rewrite list_lookup_insert. case_decide; naive_solver. }
    split.
    - intros j k x y Hx Hy Hxy. rewrite used_at_insert in Hx, Hy by done.
      destruct Hx as [(-> & -> & _)|[? Hx]], Hy as [(-> & -> & _)|[? Hy]]; eauto;
        exfalso; [eapply H, eq_sym, Hun|eapply H, Hun]; eauto; congruence.
    - intros j x k Hx Hk. rewrite used_at_insert in Hx by done.
      assert (∃ j' x', used_at v j' x' ∧ name x' = name x) as (j' & x' & Hx' & Hnx).
      { destruct Hx as [(-> & -> & _)|[_ Hx]]; eauto. }
      rewrite <- Hnx in Hk |- *. destruct (Hpar _ _ _ Hx' Hk) as (l & d & Hl & Hdd & Hnd).
      destruct (decide (l = i)) as [->|].
      + exists i, e'. rewrite used_at_insert by done.
        assert (d = e) as -> by (destruct Hl, Hi; congruence). naive_solver congruence.
      + exists l, d. rewrite used_at_insert by done. naive_solver. }
  split; [done|]. apply map_eq. intros p. apply option_eq. intros n.
  rewrite lookup_insert, (abs_lookup _ _ _ Hw). setoid_rewrite used_at_insert; [|done..].
  case_decide as Hp; [|rewrite (abs_lookup _ _ _ Hv)]; split.
  - intros (j & f & [(-> & -> & _)|[Hj Hf]] & Hnf & <-); [done|].
    exfalso. eapply Hj, Hun; eauto; congruence.
  - intros [= <-]. exists i, e'. naive_solver congruence.
  - intros (j & f & [(-> & -> & _)|[Hj Hf]] & Hnf & <-); [congruence|eauto].
  - intros (j & f & Hf & Hnf & <-). exists j, f. split; [|done].
    right. split; [|done]. intros ->. assert (f = e) by (destruct Hf, Hi; congruence). congruence.
Qed.

(** Filling a free slot with an entry of a new name whose parent exists. *)
Lemma wf_fresh v i e e' :
  wf v → v !! i = Some e → used e = false → wf_entry e' → used e' = true →
  abs v !! name e' = None → parent_ok (abs v) (name e') = true →
  wf (<[i := e']> v) ∧ abs (<[i := e']> v) = <[name e' := node_of e']> (abs v).
Proof.
  intros Hv Hi Hu He' Hu' Hnew Hpok. pose proof Hv as (Hlen & Hwf & Hun & Hpar).
  assert (Hil : (i < length v)%nat) by by eapply lookup_lt_Some.
  rewrite abs_lookup_None in Hnew by done.
  assert (Hold : ∀ j f, used_at v j f → j ≠ i) by (intros j f [Hj Hf] ->; congruence).
  assert (Hw : wf (<[i := e']> v)).
  { split; [by rewrite length_insert|]. split.
    { intros j f. rewrite list_lookup_insert. case_decide; naive_solver. }
    split.
    - intros j k x y Hx Hy Hxy. rewrite used_at_insert in Hx, Hy by done.
      destruct Hx as [(-> & -> & _)|[? Hx]], Hy as [(-> & -> & _)|[? Hy]]; eauto;
        exfalso; eapply Hnew; eauto.
    - intros j x k Hx Hk. rewrite used_at_insert in Hx by done.
      assert (∃ l d, used_at v l d ∧ is_directory d = true ∧ name d = take k (name x)) as (l & d & Hl & Hdd & Hnd).
      { destruct Hx as [(-> & -> & _)|[_ Hx]]; [|eauto].
        unfold parent_ok in Hpok. rewrite Hk in Hpok. case_match eqn:E; [|done].
        case_match; [|done]. subst. apply abs_lookup in E as (l & d & Hl & Hn & Hnd); [|done].
        exists l, d. split; [done|]. unfold node_of in Hnd. by destruct (is_directory d). }
      exists l, d. rewrite used_at_insert by done. eauto 6. }
  split; [done|]. apply map_eq. intros p. apply option_eq. intros n.
  rewrite lookup_insert, (abs_lookup _ _ _ Hw). setoid_rewrite used_at_insert; [|done..].
  case_decide as Hp; [|rewrite (abs_lookup _ _ _ Hv)]; split.
  - intros (j & f & [(-> & -> & _)|[Hj Hf]] & Hnf & <-); [done|].
    exfalso. eapply Hnew; eauto. congruence.
  - intros [= <-]. exists i, e'. naive_solver congruence.
  - intros (j & f & [(-> & -> & _)|[Hj Hf]] & Hnf & <-); [congruence|eauto].
  - intros (j & f & Hf & Hnf & <-). exists j, f. eauto 6.
Qed.

(** ** Creation *)

Definition kind (directory : bool) : node := if directory then Dir else File [].

Lemma path_is_valid_spec p :
  path_is_valid p = true →
  (0 < length p < 32)%nat ∧ char_at p 0 ≠ slash ∧ char_at p (length p - 1) ≠ slash.
Proof.
  unfold path_is_valid, str_len, RAMFS_MAX_NAME. intros H. open_match H; try done; repeat split; lia.
Qed.

Lemma valid_last_slash p k :
  path_is_valid p = true → last_slash_from p 0 None = Some k → (0 < k < 31)%nat.
Proof.
  intros (Hl & Hc & _)%path_is_valid_spec [Hk _]%last_slash_Some.
  pose proof (lookup_lt_Some _ _ _ Hk). destruct k; [|lia].
  unfold char_at in Hc. by rewrite Hk in Hc.
Qed.

Lemma ensure_parent_spec v p :
  wf v → wf_cstr p → path_is_valid p = true →
  ensure_parent_directory v p = parent_ok (abs v) p.
Proof.
  intros Hv Hp Hval. unfold ensure_parent_directory, parent_ok, RAMFS_MAX_NAME.
  destruct (last_slash_from p 0 None) as [k|] eqn:Hk; [|done].
  pose proof (valid_last_slash p k Hval Hk).
  rewrite (proj2 (Nat.eqb_neq k 0)), (proj2 (Nat.leb_gt 32 k)) by lia. simpl.
  destruct (find_entry_cases v (take k p)) as [(i & e & Hf & [Hi _] & _ & Ha)|[Hf Ha]]; auto with kernel.
  - rewrite Hf, Ha. simpl. rewrite Hi. unfold node_of. simpl. by destruct (is_directory e).
  - by rewrite Hf, Ha.
Qed.

Lemma fresh_wf_entry p d e :
  path_is_valid p = true → wf_cstr p → length (data e) = 1024%nat →
  wf_entry (fresh_entry p d e) ∧ name (fresh_entry p d e) = p ∧ node_of (fresh_entry p d e) = kind d.
Proof.
  intros Hval Hp Hl. pose proof (path_is_valid_spec p Hval) as [Hlen _].
  assert (Hn : str_copy p RAMFS_MAX_NAME = p).
  { rewrite str_copy_take. apply take_ge. unfold RAMFS_MAX_NAME. lia. }
  unfold fresh_entry. rewrite Hn. split; [|split; [done|]].
  - split; simpl; [by rewrite length_insert|]. intros _. repeat split; try done; try lia.
    apply list_lookup_insert_eq. lia.
  - unfold node_of, kind. simpl. by destruct d.
Qed.

(** A free slot exists exactly when fewer than 32 nodes exist. *)
Lemma free_slot_spec v :
  wf v → match first_index (fun e => negb (used e)) v with
         | Some i => ∃ e, v !! i = Some e ∧ used e = false ∧ (base.size (abs v) < 32)%nat
         | None => base.size (abs v) = 32%nat
         end.
Proof.
  intros Hv. rewrite abs_size by done. destruct Hv as (Hlen & _). unfold RAMFS_MAX_FILES in Hlen.
  destruct (first_index _ v) as [i|] eqn:E.
  - apply first_index_Some in E as (e & Hi & He & _). exists e. apply negb_true_iff in He.
    repeat split; try done. rewrite <- Hlen.
    apply length_filter_lt with e; [by eapply list_elem_of_lookup_2|congruence].
  - assert (Hall : Forall (fun e => used e = true) v).
    { apply Forall_lookup. intros i e Hi. eapply first_index_None in E; [|done]. by destruct (used e). }
    rewrite (filter_all _ _ Hall). done.
Qed.

Lemma create_entry_spec v p d slot v' :
  wf v → wf_cstr p → create_entry v p d = (slot, v') →
  wf v' ∧
  match slot with
  | None => v' = v ∧ spec_create (abs v) p (kind d) = None
  | Some i => ∃ e, used_at v' i e ∧ name e = p ∧ is_directory e = d ∧
                spec_create (abs v) p (kind d) = Some (abs v')
  end.
Proof.
  intros Hv Hp H. unfold create_entry in H. unfold spec_create.
  destruct (path_is_valid p) eqn:Hval; simpl in *; [|by simplify_eq].
  destruct (find_entry_cases v p Hv Hp) as [(i & e & Hf & [Hi Hu] & Hn & Ha)|[Hf Ha]]; rewrite Hf in H; rewrite Ha.
  - rewrite Hi in H. unfold node_of. simpl in H.
    destruct (is_directory e) eqn:Ed, d; simpl in *; simplify_eq; split; try done; exists e; by repeat split.
  - rewrite <- ensure_parent_spec by done.
    destruct (ensure_parent_directory v p) eqn:Hpar; simpl in *; [|simplify_eq; by destruct d].
    pose proof (free_slot_spec v Hv) as Hfree. case_match; simplify_eq; [destruct Hfree as (e & Hi & Hu & Hs)|].
    + destruct (proj1 (proj2 Hv) _ _ Hi) as [Hl _].
      destruct (fresh_wf_entry p d e Hval Hp Hl) as (Hwe & Hne & Hno).
      rewrite (alter_insert _ _ _ _ Hi).
      destruct (wf_fresh v n e (fresh_entry p d e)) as [Hw Habs]; try done; rewrite ?Hne; try done.
      { by rewrite <- ensure_parent_spec. }
      split; [done|]. exists (fresh_entry p d e). rewrite used_at_insert by by eapply lookup_lt_Some.
      rewrite bool_decide_eq_true_2 by done. rewrite Habs, Hne, Hno. repeat split; eauto; by destruct d.
    + rewrite bool_decide_eq_false_2 by lia. by destruct d.
Qed.

(** ** The operations *)

Lemma used_entry_wf v i e :
  wf v → used_at v i e →
  length (data e) = 1024%nat ∧ (size e < 1024)%nat ∧ (is_directory e = true → size e = 0%nat).
Proof. intros (_ & He & _) [Hi Hu]. destruct (He i e Hi) as [? H]. naive_solver. Qed.

(** Storing [bytes] at [off] of a file's array and terminating it there gives a
    well-formed entry of that size. *)
Lemma set_data_wf v i e bytes off :
  wf v → used_at v i e → is_directory e = false → (off ≤ size e)%nat →
  (off + length bytes < 1024)%nat →
  ∃ d1 d2, buf_copy (data e) off bytes = Some d1 ∧ buf_store d1 (off + length bytes) 0 = Some d2 ∧
    let v' := <[i := set_data (off + length bytes) d2 e]> v in
    wf v' ∧ abs v' = <[name e := File (take off (data e) ++ bytes)]> (abs v).
Proof.
  intros Hv He Hd Hoff Hlen. destruct (used_entry_wf v i e Hv He) as (Hl & Hs & _).
  destruct (used_wf v i e Hv He) as [Hval Hcs]. destruct He as [Hi Hu].
  assert (Ht : length (take off (data e) ++ bytes) = (off + length bytes)%nat).
  { rewrite length_app, length_take. lia. }
  set (d1 := take off (data e) ++ bytes ++ drop (off + length bytes) (data e)).
  assert (Hl1 : length d1 = 1024%nat).
  { unfold d1. rewrite !length_app, length_take, length_drop. lia. }
  exists d1, (<[(off + length bytes)%nat := 0]> d1).
  split; [apply buf_copy_ok; lia|]. split; [apply buf_store_ok; lia|].
  set (e' := set_data (off + length bytes) _ e).
  assert (Hnode : node_of e' = File (take off (data e) ++ bytes)).
  { unfold node_of, e'. simpl. rewrite Hd, take_insert_ge by lia. f_equal.
    unfold d1. rewrite app_assoc, take_app_le, <- Ht, firstn_all by lia. done. }
  rewrite <- Hnode. apply wf_update; try done.
  split; simpl; [by rewrite length_insert|]. intros _. split; [done|]. split; [done|]. split; [lia|].
  split; [apply list_lookup_insert_eq; lia|]. congruence.
Qed.

(** Close a refinement goal whose final state is known. *)
Ltac refined Habs :=
  eexists _, _; split; [reflexivity|]; split; [done|]; rewrite Habs.

Lemma write_refines v p bytes :
  wf v → wf_cstr p →
  ∃ r v', ramfs_volume_write v (Some p) bytes = Some (r, v') ∧ wf v' ∧
    spec_write (abs v) p bytes = (r, abs v').
Proof.
  intros Hv Hp. unfold ramfs_volume_write, spec_write.
  destruct (path_is_valid p) eqn:Hval; simpl; [|by unfold spec_create; rewrite Hval; eauto].
  destruct (create_entry v p false) as [slot v'] eqn:E.
  apply create_entry_spec in E as [Hw Hs]; [|done..]. simpl in Hs.
  destruct slot as [i|]; [destruct Hs as (e & He & <- & Hd & Hs)|destruct Hs as [-> Hs]; rewrite Hs; eauto].
  rewrite Hs. pose proof He as [Hi _]. rewrite Hi. simpl. rewrite Hd.
  destruct bytes as [bytes|]; simpl.
  - set (c := take 1023 bytes). unfold RAMFS_MAX_FILE_SIZE.
    set (len := if (1024 <=? length bytes)%nat then _ else _).
    assert (Hc : take len bytes = c ∧ len = length c ∧ (length c < 1024)%nat).
    { unfold len, c. rewrite length_take. case_match; bool_prop; [split; [done|lia]|].
      rewrite !take_ge by lia. split; [done|lia]. }
    destruct Hc as (-> & -> & Hc).
    destruct (set_data_wf v' i e c 0) as (d1 & d2 & H1 & H2 & H3); try done; [lia|].
    rewrite H1. simpl in *. rewrite H2. simpl. rewrite (alter_insert _ _ _ _ Hi).
    destruct H3 as [H3 H4]. by refined H4.
  - destruct (set_data_wf v' i e [] 0) as (d1 & d2 & H1 & H2 & H3 & H4); try done; [simpl; lia..|].
    simpl in *. apply buf_store_Some in H2 as [_ ->]. simplify_eq.
    rewrite (alter_insert _ _ _ _ Hi). by refined H4.
Qed.

Lemma append_refines v p bytes :
  wf v → wf_cstr p → Z.of_nat (length bytes) < 4294967296 - 1024 →
  ∃ r v', ramfs_volume_append v (Some p) (Some bytes) = Some (r, v') ∧ wf v' ∧
    spec_append (abs v) p bytes = (r, abs v').
Proof.
  intros Hv Hp Hb. unfold ramfs_volume_append, spec_append.
  destruct (length bytes =? 0)%nat eqn:Hz; [eauto|]. bool_prop.
  destruct (path_is_valid p) eqn:Hval; simpl; [|by unfold spec_create; rewrite Hval; eauto].
  destruct (create_entry v p false) as [slot v'] eqn:E.
  apply create_entry_spec in E as [Hw Hs]; [|done..]. simpl in Hs.
  destruct slot as [i|]; [destruct Hs as (e & He & <- & Hd & Hs)|destruct Hs as [-> Hs]; rewrite Hs; eauto].
  rewrite Hs, (abs_lookup_used v' i e) by done. pose proof He as [Hi _]. rewrite Hi.
  unfold node_of. simpl. rewrite Hd. unfold RAMFS_MAX_FILE_SIZE.
  destruct (used_entry_wf v' i e Hw He) as (Hl & Hsz & _).
  rewrite u32_small by lia. rewrite length_take_le by lia.
  case_match; bool_prop; [rewrite (proj2 (Nat.leb_le _ _)) by lia; eauto|].
  rewrite (proj2 (Nat.leb_gt _ _)) by lia.
  destruct (set_data_wf v' i e bytes (size e)) as (d1 & d2 & H1 & H2 & H3 & H4); try done; [lia|].
  rewrite H1. simpl. rewrite <- Nat2Z.inj_add, Nat2Z.id, H2. simpl.
  rewrite (alter_insert _ _ _ _ Hi). by refined H4.
Qed.

Lemma mkdir_refines v p :
  wf v → wf_cstr p →
  ∃ r v', ramfs_volume_mkdir v (Some p) = Some (r, v') ∧ wf v' ∧
    spec_mkdir (abs v) p = (r, abs v').
Proof.
  intros Hv Hp. unfold ramfs_volume_mkdir, spec_mkdir.
  destruct (path_is_valid p) eqn:Hval; simpl; [|by unfold spec_create; rewrite Hval; eauto].
  destruct (create_entry v p true) as [slot v'] eqn:E.
  apply create_entry_spec in E as [Hw Hs]; [|done..]. simpl in Hs.
  destruct slot as [i|]; [destruct Hs as (e & He & <- & Hd & Hs)|destruct Hs as [-> Hs]; rewrite Hs; eauto].
  rewrite Hs. pose proof He as [Hi _]. rewrite Hi. simpl. rewrite (alter_insert _ _ _ _ Hi).
  destruct (used_entry_wf v' i e Hw He) as (Hl & _ & _), (used_wf v' i e Hw He) as [Hval' Hcs].
  destruct (wf_update v' i e (set_data 0 (<[0%nat := 0]> (data e)) e)) as [H1 H2]; try done.
  { split; simpl; [by rewrite length_insert|]. intros _. repeat split; try done; [lia|].
    apply list_lookup_insert_eq. lia. }
  { apply He. }
  refined H2. f_equal. symmetry. apply insert_id.
  rewrite (abs_lookup_used v' i e) by done. unfold node_of. simpl. by rewrite Hd.
Qed.

(** Dropping the used entries whose names fail [Q]: the invariant survives when
    the parent directory of a kept entry is kept. *)
Lemma wf_shrink v v' (Q : cstring → Prop) `{!∀ n, Decision (Q n)} :
  wf v → length v' = length v → (∀ i e, v' !! i = Some e → wf_entry e) →
  (∀ i e, used_at v' i e ↔ used_at v i e ∧ Q (name e)) →
  (∀ i x k j d, used_at v i x → Q (name x) → last_slash_from (name x) 0 None = Some k →
     used_at v j d → is_directory d = true → name d = take k (name x) → Q (name d)) →
  wf v' ∧ abs v' = filter (fun '(q, _) => Q q) (abs v).
Proof.
  intros Hv Hlen Hent Hu Hcl. pose proof Hv as (Hl & _ & Hun & Hpar).
  assert (Hw : wf v').
  { split; [congruence|]. split; [done|]. split.
    - intros i j e f [He _]%Hu [Hf _]%Hu. by eapply Hun.
    - intros i x k [Hx HQ]%Hu Hk. destruct (Hpar i x k Hx Hk) as (j & d & Hd & Hdir & Hn).
      exists j, d. rewrite Hu. split; [|done]. split; [done|]. by eapply (Hcl i x k j d). }
  split; [done|]. apply map_eq. intros p. apply option_eq. intros n.
  rewrite map_lookup_filter_Some, !abs_lookup by done. setoid_rewrite Hu. naive_solver.
Qed.

Lemma clear_wf_entry e : wf_entry e → wf_entry (clear_entry e).
Proof. intros [Hl _]. split; [simpl; by rewrite length_insert|done]. Qed.

Lemma remove_child_spec p e :
  wf_cstr p → used e = true →
  remove_child p e = if decide (below p (name e)) then clear_entry e else e.
Proof.
  intros Hp Hu. unfold remove_child, str_len. rewrite Hu. simpl.
  pose proof (below_guard p (name e) Hp) as Hg. case_decide as Hb.
  - apply Hg in Hb as (H1 & H2 & H3). rewrite H2, H3, (proj2 (Nat.leb_gt _ _)) by lia. done.
  - destruct (Nat.leb_spec (length (name e)) (length p)); [done|].
    destruct (str_starts_with (name e) p); simpl; [|done].
    destruct (Z.eqb_spec (char_at (name e) (length p)) slash); simpl; [|done]. naive_solver.
Qed.

Lemma used_at_clear v i j e :
  used_at (alter clear_entry i v) j e ↔ j ≠ i ∧ used_at v j e.
Proof.
  unfold used_at. destruct (decide (j = i)) as [->|].
  - rewrite list_lookup_alter_eq. destruct (v !! i); naive_solver.
  - rewrite list_lookup_alter_ne by done. naive_solver.
Qed.

Lemma used_at_remove_children v p j e :
  wf_cstr p → used_at (remove_child p <$> v) j e ↔ used_at v j e ∧ ¬ below p (name e).
Proof.
  intros Hp. unfold used_at. rewrite list_lookup_fmap. destruct (v !! j) as [f|]; simpl; [|naive_solver].
  destruct (used f) eqn:Hf; [rewrite remove_child_spec by done; case_decide; naive_solver|].
  unfold remove_child. rewrite Hf. simpl. naive_solver congruence.
Qed.

Lemma remove_child_wf p e : wf_entry e → wf_entry (remove_child p e).
Proof. intros. unfold remove_child. repeat case_match; auto using clear_wf_entry. Qed.

Lemma alter_clear_wf (v : ramfs_volume) (i j : nat) e :
  (∀ j e, v !! j = Some e → wf_entry e) → alter clear_entry i v !! j = Some e → wf_entry e.
Proof.
  intros Hv. destruct (decide (j = i)) as [->|].
  - rewrite list_lookup_alter_eq. intros (f & Hf & ->)%fmap_Some. eauto using clear_wf_entry.
  - rewrite list_lookup_alter_ne by done. eauto.
Qed.

(** The parent path of an entry is a proper prefix that ends before a slash. *)
Lemma parent_below n k : last_slash_from n 0 None = Some k → below (take k n) n.
Proof.
  intros [Hk _]%last_slash_Some. exists (drop (S k) n).
  by rewrite <- app_assoc, <- (take_drop_middle _ _ _ Hk) at 1.
Qed.

Lemma below_trans p n k : below p (take k n) → below p n.
Proof. unfold below. intros H. etrans; [exact H|]. exists (drop k n). by rewrite take_drop. Qed.

Lemma remove_refines v p :
  wf v → wf_cstr p →
  ∃ r v', ramfs_volume_remove v (Some p) = Some (r, v') ∧ wf v' ∧
    spec_remove (abs v) p = (r, abs v').
Proof.
  intros Hv Hp. unfold ramfs_volume_remove, spec_remove.
  destruct (path_is_valid p) eqn:Hval; simpl; [|eauto].
  destruct (find_entry_cases v p Hv Hp) as [(i & e & Hf & He & Hn & Ha)|[Hf Ha]]; rewrite Hf, Ha; [|eauto].
  pose proof He as [Hi _]. pose proof Hv as (_ & Hent & Hun & _). rewrite Hi. unfold node_of. simpl.
  assert (Hne : ∀ j f, used_at v j f → j ≠ i ↔ name f ≠ p).
  { intros j f Hf'. split; [intros Hj Hnf; apply Hj; eapply Hun; eauto; congruence|].
    intros Hnf ->. assert (f = e) by (destruct Hf', He; congruence). congruence. }
  destruct (is_directory e) eqn:Hd.
  - destruct (wf_shrink v (remove_child p <$> alter clear_entry i v) (fun q => q ≠ p ∧ ¬ below p q)) as [H1 H2]; try done.
    + by rewrite length_fmap, length_alter.
    + intros j f. rewrite list_lookup_fmap. intros (g & Hg & ->)%fmap_Some.
      eauto using remove_child_wf, alter_clear_wf.
    + intros j f. rewrite used_at_remove_children, used_at_clear by done. specialize (Hne j f). naive_solver.
    + intros j x k l d _ [_ Hb] Hk _ _ ->. split.
      * intros <-. by apply Hb, parent_below.
      * intros Hb'. by eapply Hb, below_trans.
    + by refined H2.
  - destruct (wf_shrink v (alter clear_entry i v) (fun q => q ≠ p)) as [H1 H2]; try done.
    + by rewrite length_alter.
    + eauto using alter_clear_wf.
    + intros j f. rewrite used_at_clear. specialize (Hne j f). naive_solver.
    + intros j x k l d _ _ _ Hl Hdd _ Hnd.
      assert (l = i) as -> by (eapply Hun; eauto; congruence). destruct Hl, He. congruence.
    + refined H2. f_equal. apply map_eq. intros q. apply option_eq. intros n.
      rewrite lookup_delete_Some, map_lookup_filter_Some. naive_solver.
Qed.

(** One operation, whatever it is. *)
Lemma exec_refines v o :
  wf v → wf_op o →
  ∃ r v', exec v o = Some (r, v') ∧ wf v' ∧ spec_exec (abs v) o = (r, abs v').
Proof.
  intros Hv Ho. destruct o as [[p|] b|[p|] [b|]|[p|]|[p|]]; simpl in Ho |- *; eauto.
  - by apply write_refines.
  - destruct Ho. by apply append_refines.
  - by apply remove_refines.
  - by apply mkdir_refines.
Qed.

(** ** Runs *)

Fixpoint run (v : ramfs_volume) (os : list op) : option (list Z * ramfs_volume) :=
  match os with
  | [] => Some ([], v)
  | o :: os' =>
      '(r, v1) ← exec v o;
      '(rs, v2) ← run v1 os';
      Some (r :: rs, v2)
  end.

Fixpoint spec_run (m : fs) (os : list op) : list Z * fs :=
  match os with
  | [] => ([], m)
  | o :: os' =>
      let '(r, m1) := spec_exec m o in
      let '(rs, m2) := spec_run m1 os' in (r :: rs, m2)
  end.

Lemma init_wf (v : ramfs_volume) :
  length v = RAMFS_MAX_FILES → Forall (fun e => length (data e) = 1024%nat) v →
  wf (ramfs_volume_init v) ∧ abs (ramfs_volume_init v) = ∅.
Proof.
  intros Hl Hd.
  assert (Hnone : ∀ i e, ¬ used_at (ramfs_volume_init v) i e).
  { intros i e [Hi Hu]. unfold ramfs_volume_init in Hi. rewrite list_lookup_fmap in Hi.
    apply fmap_Some in Hi as (f & _ & ->). done. }
  assert (Hw : wf (ramfs_volume_init v)).
  { split; [unfold ramfs_volume_init; by rewrite length_fmap|]. split.
    - intros i e. unfold ramfs_volume_init. rewrite list_lookup_fmap.
      intros (f & Hf & ->)%fmap_Some. split; [|done]. simpl. rewrite length_insert.
      by apply (Forall_lookup_1 _ _ _ _ Hd Hf).
    - split; intros; exfalso; by eapply Hnone. }
  split; [done|]. apply map_eq. intros p. rewrite lookup_empty.
  apply abs_lookup_None; [done|]. intros i e He. exfalso. by eapply Hnone.
Qed.

Lemma run_refines v os :
  wf v → Forall wf_op os →
  ∃ rs v', run v os = Some (rs, v') ∧ wf v' ∧ spec_run (abs v) os = (rs, abs v').
Proof.
  intros Hv Hos. revert v Hv. induction Hos as [|o os Ho Hos IH]; intros v Hv; simpl; [eauto|].
  destruct (exec_refines v o Hv Ho) as (r & v1 & -> & Hv1 & ->). simpl.
  destruct (IH v1 Hv1) as (rs & v2 & -> & Hv2 & ->). simpl. eauto.
Qed.

(** C11: RAMFS implements the abstract file system.  Every run of writes,
    appends, removals and directory creations on a freshly initialised volume,
    with well-formed names and lengths, completes without leaving any array,
    returns to each caller exactly the result of the abstract operation on the
    finite map from paths to nodes, and ends in a volume that represents the
    abstract file system and satisfies the invariant: names valid and distinct,
    data terminated, every parent a directory. *)
Theorem ramfs_run_refines (v : ramfs_volume) os :
  length v = RAMFS_MAX_FILES → Forall (fun e => length (data e) = RAMFS_MAX_FILE_SIZE) v →
  Forall wf_op os →
  ∃ rs v', run (ramfs_volume_init v) os = Some (rs, v') ∧ wf v' ∧ spec_run ∅ os = (rs, abs v').
Proof.
  intros Hl Hd Hos. destruct (init_wf v Hl Hd) as [Hw He]. rewrite <- He. by apply run_refines.
Qed.

Definition demo_ops : list op :=
  [OMkdir (Some (lit "etc")); OWrite (Some (lit "etc/motd")) (Some (lit "hi"));
   OAppend (Some (lit "etc/motd")) (Some (lit "!")); OMkdir (Some (lit "usr/bin"));
   ORemove (Some (lit "etc"))].

Lemma ramfs_run_refines_witness :
  fst <$> run (ramfs_volume_init boot_volume) demo_ops = Some [0; 2; 1; -1; 0] ∧
  ∃ rs v', run (ramfs_volume_init boot_volume) demo_ops = Some (rs, v') ∧ wf v' ∧
    spec_run ∅ demo_ops = (rs, abs v').
Proof.
  split; [vm_compute; reflexivity|]. apply (ramfs_run_refines boot_volume demo_ops).
  - reflexivity.
  - apply Forall_replicate. reflexivity.
  - repeat constructor; vm_compute; done.
Defined.

(** The abstract operations change only the path they name and what is below it. *)
Lemma spec_exec_frame m o p q :
  op_path o = Some p → q ≠ p → ¬ below p q → snd (spec_exec m o) !! q = m !! q.
Proof.
  intros Hop Hq Hb.
  assert (Hc : ∀ k m', spec_create m p k = Some m' → m' !! q = m !! q).
  { intros k m' Hm. unfold spec_create in Hm. repeat case_match; simplify_eq; try done; by rewrite lookup_insert_ne. }
  destruct o as [? b|? b|?|?]; simpl in *; subst.
  - unfold spec_write. case_match eqn:E; simpl; [|done]. rewrite lookup_insert_ne by done. by eapply Hc.
  - destruct b as [b|]; [|done]. unfold spec_append.
    repeat case_match; simpl; rewrite ?lookup_insert_ne by done; try done; by eapply Hc.
  - unfold spec_remove. repeat case_match; simpl; try done; [|by rewrite lookup_delete_ne].
    apply option_eq. intros n1. rewrite map_lookup_filter_Some. naive_solver.
  - unfold spec_mkdir. case_match eqn:E; simpl; [|done]. by eapply Hc.
Qed.

(** The invariant of RAMFS, one operation at a time: from any volume that
    satisfies it, every operation with well-formed arguments stays inside its
    arrays, keeps the invariant, and never changes a path that it was not asked
    to change: after a write, an append or a directory creation at [p] every
    other path is as before, and after a removal of [p] every path outside [p]
    is. *)
Theorem ramfs_exec_frame v o p q r v' :
  wf v → wf_op o → exec v o = Some (r, v') →
  op_path o = Some p → q ≠ p → ¬ below p q →
  wf v' ∧ abs v' !! q = abs v !! q.
Proof.
  intros Hv Ho He Hop Hq Hb. destruct (exec_refines v o Hv Ho) as (r1 & v1 & He1 & Hw & Hs).
  rewrite He in He1. injection He1 as <- <-. split; [done|].
  rewrite <- (spec_exec_frame (abs v) o p q) by done. by rewrite Hs.
Qed.

Lemma ramfs_exec_frame_witness :
  let v := snd (default (0, []) (exec (ramfs_volume_init boot_volume) (OWrite (Some (lit "a")) (Some [1])))) in
  ∃ v', exec v (OWrite (Some (lit "b")) (Some [2; 3])) = Some (2, v') ∧ wf v' ∧ abs v' !! lit "a" = abs v !! lit "a".
Proof.
  intros v. destruct (init_wf boot_volume) as [Hw _]; [reflexivity|by apply Forall_replicate|].
  destruct (exec_refines _ (OWrite (Some (lit "a")) (Some [1])) Hw) as (r0 & v0 & E0 & Hw0 & _).
  { vm_compute. repeat constructor. }
  assert (Hv : v = v0) by (unfold v; by rewrite E0). rewrite Hv. clear Hv v.
  destruct (exec_refines _ (OWrite (Some (lit "b")) (Some [2; 3])) Hw0) as (r & v' & E & _ & _).
  { vm_compute. repeat constructor. }
  assert (Hr : r = 2).
  { assert (Hv : v0 = snd (default (0, []) (Some (r0, v0)))) by done. rewrite <- E0 in Hv.
    rewrite Hv in E. apply (f_equal (fmap fst)) in E. vm_compute in E. by injection E. }
  subst r. exists v'. split; [exact E|].
  apply (ramfs_exec_frame v0 (OWrite (Some (lit "b")) (Some [2; 3])) (lit "b") (lit "a") 2 v'); try done.
  - vm_compute. repeat constructor.
  - intros [t Ht]. done.
Defined.

(** ** Reading *)

Lemma read_spec v p out :
  wf v → wf_cstr p → (0 < length out)%nat →
  ramfs_volume_read v (Some p) (Some out) =
    Some match abs v !! p with
         | Some (File c) =>
             let n := Nat.min (length c) (length out - 1) in
             (Z.of_nat n, take n c ++ 0 :: drop (S n) out)
         | _ => (-1, out)
         end.
Proof.
  intros Hv Hp Hout. unfold ramfs_volume_read.
  rewrite (proj2 (Nat.eqb_neq _ 0)) by lia.
  destruct (find_entry_cases v p Hv Hp) as [(i & e & Hf & He & <- & Ha)|[Hf Ha]].
  2:{ rewrite Hf, Ha. simpl. by case_match. }
  destruct (used_wf v i e Hv He) as [Hval _], (used_entry_wf v i e Hv He) as (Hl & Hs & _).
  rewrite Hval, Hf, Ha. destruct He as [Hi Hu]. simpl. rewrite Hi. unfold node_of. simpl.
  destruct (is_directory e); [done|].
  rewrite length_take_le by lia. set (n := Nat.min (size e) (length out - 1)).
  set (m := if (length out <=? size e)%nat then _ else _).
  assert (Hm : m = n) by (unfold m, n; case_match; bool_prop; lia). rewrite Hm.
  assert (Hn : (n ≤ size e ∧ n < length out)%nat) by lia.
  unfold buf_slice. rewrite (proj2 (Nat.leb_le _ _)) by lia. simpl.
  rewrite buf_copy_ok by (rewrite length_take; simpl; lia). simpl.
  rewrite length_take_le by lia. simpl.
  rewrite buf_store_ok by (rewrite length_app, length_take, length_drop; lia). simpl.
  do 2 f_equal. rewrite take_take, Nat.min_l by lia.
  rewrite insert_app_r_alt by (rewrite length_take; lia). f_equal.
  rewrite length_take_le, Nat.sub_diag by lia.
  destruct (drop n out) as [|x l] eqn:Ed.
  - apply (f_equal length) in Ed. rewrite length_drop in Ed. simpl in Ed. lia.
  - simpl. f_equal. rewrite <- Nat.add_1_r, <- drop_drop, Ed. done.
Qed.

(** What is written is what is read.  After a write of [bytes] to a path
    succeeds, reading that path fills the caller's buffer with the bytes
    written, cut to 1023 and to the buffer less its terminator, terminates them,
    leaves the rest of the buffer alone, and returns their number. *)
Theorem ramfs_write_read v p bytes r v' out :
  wf v → wf_cstr p → (0 < length out)%nat →
  ramfs_volume_write v (Some p) (Some bytes) = Some (r, v') → 0 ≤ r →
  r = Z.of_nat (Nat.min (length bytes) 1023) ∧
  let n := Nat.min (Nat.min (length bytes) 1023) (length out - 1) in
  ramfs_volume_read v' (Some p) (Some out) = Some (Z.of_nat n, take n bytes ++ 0 :: drop (S n) out).
Proof.
  intros Hv Hp Hout Hw Hr. destruct (write_refines v p (Some bytes) Hv Hp) as (r1 & v1 & E & Hv1 & Hs).
  rewrite Hw in E. injection E as <- <-. unfold spec_write in Hs.
  destruct (spec_create _ _ _) as [m|]; simpl in Hs; [|by injection Hs as <- _].
  apply pair_eq in Hs as [<- Ha]. rewrite length_take, Nat.min_comm. split; [done|].
  rewrite read_spec, <- Ha, lookup_insert_eq by done. simpl.
  rewrite length_take, (Nat.min_comm 1023). set (n := Nat.min _ _).
  do 2 f_equal. rewrite take_take. f_equal. f_equal. lia.
Qed.

Lemma ramfs_write_read_witness :
  ∃ v', ramfs_volume_write (ramfs_volume_init boot_volume) (Some (lit "f")) (Some [10; 20; 30]) = Some (3, v') ∧
    ramfs_volume_read v' (Some (lit "f")) (Some [7; 7; 7]) = Some (2, [10; 20; 0]).
Proof.
  destruct (init_wf boot_volume) as [Hw _]; [reflexivity|by apply Forall_replicate|].
  destruct (write_refines _ (lit "f") (Some [10; 20; 30]) Hw) as (r & v' & E & _ & _).
  { vm_compute. repeat constructor. }
  assert (Hr : r = 3) by (pose proof (f_equal (fmap fst) E) as Hr; vm_compute in Hr; by injection Hr).
  subst r. exists v'. split; [exact E|].
  refine (proj2 (ramfs_write_read _ (lit "f") [10; 20; 30] 3 v' [7; 7; 7] Hw _ _ E _)).
  - vm_compute. repeat constructor.
  - simpl. lia.
  - lia.
Defined.

(** The size test of an append wraps.  On a volume that holds a file of
    [c] bytes with [c] positive, an append of [2^32 - c] bytes passes the test
    [size + length >= 1024], because the 32-bit sum is zero, and the copy then
    leaves the 1024-byte array. *)
Theorem ramfs_append_wraps v i e bytes :
  wf v → used_at v i e → is_directory e = false → (0 < size e)%nat →
  Z.of_nat (length bytes) = 4294967296 - Z.of_nat (size e) →
  ramfs_volume_append v (Some (name e)) (Some bytes) = None.
Proof.
  intros Hv He Hd Hs Hb. destruct (used_wf v i e Hv He) as [Hval Hcs].
  destruct (used_entry_wf v i e Hv He) as (Hl & Hsz & _).
  unfold ramfs_volume_append, create_entry. rewrite (proj2 (Nat.eqb_neq _ 0)) by lia.
  rewrite Hval. simpl. rewrite (proj2 (find_entry_Some v (name e) i Hv Hcs)) by eauto.
  destruct He as [Hi Hu]. rewrite Hi. simpl. rewrite Hd. simpl. rewrite Hi. simpl. rewrite Hd, Hb.
  replace (Z.of_nat (size e) + (4294967296 - Z.of_nat (size e))) with 4294967296 by lia.
  change (u32 4294967296) with 0. unfold RAMFS_MAX_FILE_SIZE. simpl.
  rewrite buf_copy_None; [done|lia|]. intros ->. simpl in Hb. lia.
Qed.

Lemma ramfs_append_wraps_witness :
  ∃ v i e, wf v ∧ used_at v i e ∧ name e = lit "f" ∧ size e = 1%nat ∧
    ramfs_volume_append v (Some (name e)) (Some (replicate (Z.to_nat 4294967295) 0)) = None.
Proof.
  destruct (init_wf boot_volume) as [Hw _]; [reflexivity|by apply Forall_replicate|].
  destruct (write_refines _ (lit "f") (Some [9]) Hw) as (r & v & E & Hv & _).
  { vm_compute. repeat constructor. }
  assert (H0 : ∃ e, used_at v 0 e ∧ is_directory e = false ∧ size e = 1%nat ∧ name e = lit "f").
  { assert (Hvv : v = snd (default (0, []) (Some (r, v)))) by done. rewrite <- E in Hvv. rewrite Hvv.
    eexists. split; [split; vm_compute; reflexivity|]. split; [|split]; reflexivity. }
  destruct H0 as (e & He & Hd & Hs & Hn). exists v, 0%nat, e. repeat (split; [assumption|]).
  apply (ramfs_append_wraps v 0 e); try assumption; rewrite ?Hs.
  - lia.
  - rewrite length_replicate, Z2Nat.id by lia. reflexivity.
Defined.

(** ** Listing *)

Definition mark (n : node) : cstring := match n with Dir => [slash] | File _ => [] end.

(** The names a listing shows, in table order, directories marked. *)
Definition children (v : ramfs_volume) (is_root : bool) (dir : cstring) : list cstring :=
  omap (fun e => if used e
                 then (fun c => c ++ mark (node_of e)) <$> child_of is_root dir (name e)
                 else None) v.

(** One name per line. *)
Definition render (cs : list cstring) : list Z := concat ((fun c => c ++ [newline]) <$> cs).

Lemma children_cons e files is_root dir :
  children (e :: files) is_root dir =
    match (if used e then (fun c => c ++ mark (node_of e)) <$> child_of is_root dir (name e) else None) with
    | Some s => s :: children files is_root dir
    | None => children files is_root dir
    end.
Proof. reflexivity. Qed.

Lemma render_cons c cs : render (c :: cs) = (c ++ [newline]) ++ render cs.
Proof. reflexivity. Qed.

Lemma mark_node_of e : mark (node_of e) = if is_directory e then [slash] else [].
Proof. unfold node_of. by destruct (is_directory e). Qed.

(** One line written at the end of what has been written so far. *)
Lemma emit_child_copy buffer written c (d : bool) :
  emit_child buffer written c d = buf_copy buffer written ((c ++ (if d then [slash] else [])) ++ [newline]).
Proof.
  unfold emit_child, str_len. revert buffer written.
  induction c as [|x c IH]; intros buffer written; simpl.
  - rewrite !Nat.add_0_r. destruct d; simpl.
    + destruct (buf_store buffer written slash); simpl; [|done]. rewrite Nat.add_1_r.
      by destruct (buf_store _ _ newline).
    + rewrite Nat.add_0_r. by destruct (buf_store buffer written newline).
  - destruct (buf_store buffer written x) as [b|]; simpl; [|done].
    rewrite <- IH, !Nat.add_succ_r. done.
Qed.

Lemma list_loop_spec files is_root dir buffer written :
  (written < length buffer)%nat →
  ∃ k, let out := render (take k (children files is_root dir)) in
    list_loop files is_root dir buffer written =
      Some (take written buffer ++ out ++ drop (written + length out) buffer, (written + length out)%nat) ∧
    (written + length out < length buffer)%nat ∧
    ((written + length (render (children files is_root dir)) < length buffer)%nat →
     take k (children files is_root dir) = children files is_root dir).
Proof.
  revert buffer written. induction files as [|e files IH]; intros buffer written Hw.
  { exists 0%nat. simpl. rewrite Nat.add_0_r, take_drop. done. }
  rewrite children_cons. cbn [list_loop]. unfold str_len.
  destruct (used e) eqn:Hu; cbn [negb]; [|by apply IH].
  destruct (child_of is_root dir (name e)) as [c|] eqn:Hc; cbn [fmap option_fmap option_map]; [|by apply IH].
  set (line := (c ++ mark (node_of e)) ++ [newline]).
  assert (Hll : length line = (length c + (if is_directory e then 1 else 0) + 1)%nat).
  { unfold line. rewrite mark_node_of, !length_app. simpl. by destruct (is_directory e). }
  destruct (length buffer <=? _)%nat eqn:Hfit; bool_prop.
  { exists 0%nat. simpl. rewrite Nat.add_0_r, take_drop. split; [done|]. split; [done|].
    rewrite render_cons, length_app. fold line. lia. }
  rewrite emit_child_copy, <- mark_node_of. fold line. rewrite buf_copy_ok by lia. simpl.
  set (b := take written buffer ++ line ++ drop (written + length line) buffer).
  assert (Hb : length b = length buffer).
  { unfold b. rewrite !length_app, length_take, length_drop. lia. }
  replace (written + length c + (if is_directory e then 1 else 0) + 1)%nat with (written + length line)%nat by lia.
  destruct (IH b (written + length line)%nat) as (k & H1 & H2 & H3); [lia|].
  exists (S k). cbn [take]. rewrite !render_cons. fold line. rewrite !(length_app line).
  split; [|split; [lia|intros; f_equal; apply H3; lia]].
  rewrite H1. f_equal. f_equal; [|lia].
  assert (Ht : take (written + length line) b = take written buffer ++ line).
  { unfold b. rewrite app_assoc. apply take_app_length'. rewrite length_app, length_take. lia. }
  rewrite Ht, <- !app_assoc. do 3 f_equal.
  unfold b. rewrite app_assoc, drop_app, drop_ge by (rewrite length_app, length_take; lia). simpl.
  rewrite length_app, length_take_le, drop_drop by lia. f_equal. lia.
Qed.

Lemma nested_false c : nested c = false ↔ slash ∉ c.
Proof.
  unfold nested. induction c as [|x c IH]; simpl; [split; [intros _; apply not_elem_of_nil|done]|].
  rewrite orb_false_iff, IH, not_elem_of_cons, Z.eqb_neq. done.
Qed.

(** The full path of a name shown by a listing. *)
Definition child_path (dir c : cstring) : cstring :=
  match dir with [] => c | _ => dir ++ slash :: c end.

Lemma child_of_spec dir n c :
  wf_cstr dir → path_is_valid n = true →
  child_of (str_len dir =? 0)%nat dir n = Some c ↔ n = child_path dir c ∧ slash ∉ c.
Proof.
  intros Hd Hval. unfold child_of, str_len. destruct dir as [|x dir].
  { simpl. destruct (nested n) eqn:E; rewrite <- nested_false; naive_solver congruence. }
  change (length (x :: dir) =? 0)%nat with false. cbn [child_path].
  pose proof (below_guard (x :: dir) n Hd) as Hg. rewrite Nat.add_1_r. split.
  - intros H. open_match H; try done. rewrite <- nested_false. split; [|done].
    assert (Hb : below (x :: dir) n) by naive_solver lia. destruct Hb as [t ->].
    rewrite <- app_assoc. simpl. do 3 f_equal.
    rewrite <- Nat.add_1_r, <- drop_drop, drop_app_length. done.
  - intros [-> Hc]. destruct Hg as [_ Hg].
    destruct Hg as (H1 & H2 & H3); [exists c; by rewrite <- app_assoc|].
    rewrite (proj2 (Nat.leb_gt _ _)), H2, H3 by lia.
    assert (Hdr : drop (S (length (x :: dir))) ((x :: dir) ++ slash :: c) = c).
    { rewrite <- Nat.add_1_r, <- drop_drop, drop_app_length. done. }
    rewrite Hdr. apply nested_false in Hc. rewrite Hc. destruct c; [|done].
    apply path_is_valid_spec in Hval as (_ & _ & Hlast). exfalso. apply Hlast.
    unfold char_at. rewrite length_app. simpl length. rewrite lookup_app_r by (simpl; lia).
    simpl length. by replace (S (length dir) + 1 - 1 - S (length dir))%nat with 0%nat by lia.
Qed.

(** The names listed are those of the nodes directly in the directory. *)
Lemma children_spec v dir s :
  wf v → wf_cstr dir →
  s ∈ children v (str_len dir =? 0)%nat dir ↔
  ∃ c n, s = c ++ mark n ∧ (slash ∉ c) ∧ abs v !! child_path dir c = Some n.
Proof.
  intros Hv Hd. unfold children. rewrite list_elem_of_omap. split.
  - intros (e & (i & Hi)%list_elem_of_lookup & He). destruct (used e) eqn:Hu; [|done].
    apply fmap_Some in He as (c & Hc & ->).
    assert (Hat : used_at v i e) by done. destruct (used_wf v i e Hv Hat) as [Hval _].
    apply child_of_spec in Hc as [Hn Hs]; [|done..]. exists c, (node_of e). split; [done|]. split; [done|].
    rewrite <- Hn. by eapply abs_lookup_used.
  - intros (c & n & -> & Hs & (i & e & Hat & Hn & <-)%abs_lookup); [|done].
    destruct (used_wf v i e Hv Hat) as [Hval _]. destruct Hat as [Hi Hu].
    exists e. split; [by eapply list_elem_of_lookup_2|]. rewrite Hu.
    rewrite (proj2 (child_of_spec dir (name e) c Hd Hval)) by done. done.
Qed.

(** Terminating the listing over its last newline. *)
Lemma terminate_listing buffer out :
  (length out < length buffer)%nat →
  let n := (length out - 1)%nat in
  buf_store (out ++ drop (length out) buffer) n 0 = Some (take n out ++ 0 :: drop (S n) buffer).
Proof.
  intros Hl n. rewrite buf_store_ok by (rewrite length_app, length_drop; lia). f_equal.
  destruct (decide (out = [])) as [->|Hne].
  - simpl in *. destruct buffer; simpl in *; [lia|]. by rewrite drop_0.
  - assert (Hpos : (0 < length out)%nat) by (destruct out; simpl; [done|lia]).
    rewrite insert_app_l by lia. rewrite insert_take_drop by lia. rewrite <- app_assoc. simpl. f_equal. f_equal.
    rewrite drop_ge by lia. simpl. f_equal. lia.
Qed.

(** A listing shows the directory and fits the buffer.  For the root or any
    directory of a well-formed volume and any non-empty buffer, the listing
    stays inside the buffer, terminates it, and writes the names of nodes
    directly in that directory, one per line and directories marked with a
    slash: a prefix of the whole list cut between two names, and the whole list
    whenever it fits. *)
Theorem ramfs_list_correct v dir buffer :
  wf v → wf_cstr dir → (0 < length buffer)%nat → dir = [] ∨ abs v !! dir = Some Dir →
  ∃ cs k,
    (∀ s, s ∈ cs ↔ ∃ c n, s = c ++ mark n ∧ (slash ∉ c) ∧ abs v !! child_path dir c = Some n) ∧
    (let out := render (take k cs) in
     let n := (length out - 1)%nat in
     ramfs_volume_list v (Some dir) (Some buffer) = Some (Z.of_nat n, take n out ++ 0 :: drop (S n) buffer)) ∧
    ((length (render cs) < length buffer)%nat → take k cs = cs).
Proof.
  intros Hv Hd Hb Hdir.
  destruct (list_loop_spec v (str_len dir =? 0)%nat dir buffer 0 Hb) as (k & H1 & H2 & H3).
  simpl in H2. exists (children v (str_len dir =? 0)%nat dir), k. split; [intros s; by apply children_spec|].
  split; [|done]. unfold ramfs_volume_list. rewrite (proj2 (Nat.eqb_neq _ 0)) by lia.
  cbn [default from_option id]. rewrite H1. set (out := render _) in *.
  assert (Hok : (if (str_len dir =? 0)%nat then true else if negb (path_is_valid dir) then false else
    match find_entry v dir with None => false | Some i => from_option is_directory false (v !! i) end) = true).
  { destruct Hdir as [->|Hdir]; [done|]. destruct (str_len dir =? 0)%nat; [done|].
    apply abs_lookup in Hdir as (i & e & He & <- & Hn); [|done].
    destruct (used_wf v i e Hv He) as [-> Hcs]. simpl.
    rewrite (proj2 (find_entry_Some v (name e) i Hv Hcs)) by eauto.
    destruct He as [-> _]. simpl. unfold node_of in Hn. by destruct (is_directory e). }
  rewrite Hok. cbn [negb mbind option_bind]. rewrite take_0, app_nil_l, Nat.add_0_l.
  set (n := if (0 <? length out)%nat then _ else _).
  assert (Hn : n = (length out - 1)%nat) by (unfold n; destruct (0 <? length out)%nat eqn:?; bool_prop; lia).
  rewrite Hn, terminate_listing by lia. done.
Qed.

Lemma ramfs_list_correct_witness :
  ∃ v, run (ramfs_volume_init boot_volume) (take 2 demo_ops) = Some ([0; 2], v) ∧
    ramfs_volume_list v (Some []) (Some [7; 7; 7; 7; 7; 7]) = Some (4, [101; 116; 99; 47; 0; 7]) ∧
    ∃ cs k, (∀ s, s ∈ cs ↔ ∃ c n, s = c ++ mark n ∧ (slash ∉ c) ∧ abs v !! child_path [] c = Some n) ∧
      ramfs_volume_list v (Some []) (Some [7; 7; 7; 7; 7; 7]) =
        (let out := render (take k cs) in let n := (length out - 1)%nat in
         Some (Z.of_nat n, take n out ++ 0 :: drop (S n) [7; 7; 7; 7; 7; 7])) ∧
      ((length (render cs) < 6)%nat → take k cs = cs).
Proof.
  destruct (init_wf boot_volume) as [Hw _]; [reflexivity|by apply Forall_replicate|].
  destruct (run_refines _ (take 2 demo_ops) Hw) as (rs & v & E & Hv & _).
  { repeat constructor. }
  exists v. assert (Hrv : Some (rs, v) = run (ramfs_volume_init boot_volume) (take 2 demo_ops)) by done.
  split; [|split].
  - rewrite E. f_equal. f_equal. apply (f_equal (fmap fst)) in Hrv. vm_compute in Hrv. by injection Hrv.
  - apply (f_equal (fun x => ramfs_volume_list (snd (default ([], []) x)) (Some []) (Some [7; 7; 7; 7; 7; 7]))) in Hrv.
    cbn [snd default from_option id] in Hrv. rewrite Hrv. vm_compute. reflexivity.
  - apply (ramfs_list_correct v [] [7; 7; 7; 7; 7; 7] Hv); [constructor|simpl; lia|by left].
Defined.

End RamfsSpec.
