(* ===== verification/VfsPath.v ===== *)
(** Paths of the virtual file system: [local_strncmp] and [normalize_path] of
    [kernel/vfs.c].

    [normalize_path] scans its input once, keeps the segments seen on a stack of
    at most 32 pointers into the input, and writes the canonical path out.  It
    is compared here with a reference definition that splits the path at
    slashes and resolves the segments one after the other. *)

From S2P Require Import Prelude.

Module VfsPath.

Definition VFS_MAX_PATH : nat := 128.

(** [s ? strlen(s) : 0] *)
Definition local_strlen (s : option cstring) : nat := from_option length 0%nat s.

Fixpoint local_strncmp (a b : cstring) (n : nat) : Z :=
  match n with
  | O => 0
  | S n' =>
      let ca := char0 a in
      let cb := char0 b in
      if negb (ca =? cb) then ca - cb
      else if ca =? 0 then 0
      else local_strncmp (tail a) (tail b) n'
  end.

(** ** Normalisation *)

(** [while (input[i] == '/') ++i;] *)
Fixpoint skip_slashes (input : cstring) : cstring :=
  match input with
  | c :: rest => if c =? slash then skip_slashes rest else input
  | [] => []
  end.

(** [start = i; while (input[i] && input[i] != '/') ++i;]: the segment scanned
    and what follows it. *)
Fixpoint scan_segment (input : cstring) : cstring * cstring :=
  match input with
  | c :: rest =>
      if c =? slash then ([], input)
      else let '(seg, rest') := scan_segment rest in (c :: seg, rest')
  | [] => ([], [])
  end.

Definition MAX_SEGMENTS : nat := 32.

(** The outer loop.  [segs] is [segments[0 .. seg_count)], each pointer with the
    length recorded beside it; each round consumes at least one byte. *)
Fixpoint collect_segments (fuel : nat) (input : cstring) (segs : list cstring)
    : option (list cstring) :=
  match fuel with
  | O => None
  | S fuel =>
      match input with
      | [] => Some segs
      | _ =>
          match skip_slashes input with
          | [] => Some segs
          | input =>
              let '(seg, rest) := scan_segment input in
              let len := length seg in
              if (len =? 0)%nat then collect_segments fuel rest segs
              else if (len =? 1)%nat && (char_at seg 0 =? dot) then collect_segments fuel rest segs
              else if (len =? 2)%nat && (char_at seg 0 =? dot) && (char_at seg 1 =? dot) then
                collect_segments fuel rest
                  (if (0 <? length segs)%nat then take (length segs - 1) segs else segs)
              else if (MAX_SEGMENTS <=? length segs)%nat then None
              else collect_segments fuel rest (segs ++ [seg])
          end
      end
  end.

(** The output loop: [out] is what is written so far, [out_pos] its length. *)
Fixpoint emit_segments (segs : list cstring) (out : cstring) (capacity : nat) : option cstring :=
  match segs with
  | [] => Some out
  | seg :: segs' =>
      if (capacity <=? length out + length seg + 1)%nat then None
      else emit_segments segs' (out ++ slash :: seg) capacity
  end.

(** [None] is the return value -1. *)
Definition normalize_path (input : option cstring) (capacity : nat) : option cstring :=
  match input with
  | None => None
  | Some input =>
      if (capacity <? 2)%nat then None
      else if char0 input =? 0 then None
      else if negb (char0 input =? slash) then None
      else
        match collect_segments (S (length input)) input [] with
        | None => None
        | Some [] => Some [slash]
        | Some segs => emit_segments segs [] capacity
        end
  end.

(** ** Reference: what a path means *)

(** The pieces between slashes, empty ones included. *)
Fixpoint split_slash (p : cstring) : list cstring :=
  match p with
  | [] => [[]]
  | c :: p' =>
      if c =? slash then [] :: split_slash p'
      else match split_slash p' with
           | [] => [[c]]
           | s :: ss => (c :: s) :: ss
           end
  end.

Definition dotdot : cstring := [dot; dot].

(** Following one segment from the directory [at_] (outermost first). *)
Definition follow (at_ : list cstring) (seg : cstring) : list cstring :=
  if decide (seg = [] ∨ seg = [dot]) then at_
  else if decide (seg = dotdot) then removelast at_
  else at_ ++ [seg].

(** The directories visited on the way, the last one the destination. *)
Definition walk (p : cstring) : list cstring := foldl follow [] (split_slash p).

(** The depth never exceeds the 32 segments the kernel has room for. *)
Definition shallow (p : cstring) : Prop :=
  ∀ k, (length (foldl follow [] (take k (split_slash p))) ≤ MAX_SEGMENTS)%nat.

(** The canonical spelling of a directory. *)
Definition spell (segs : list cstring) : cstring :=
  match segs with [] => [slash] | _ => concat ((fun s => slash :: s) <$> segs) end.

(** A canonical segment: what a path may contain after normalisation. *)
Definition plain (seg : cstring) : Prop :=
  seg ≠ [] ∧ seg ≠ [dot] ∧ seg ≠ dotdot ∧ slash ∉ seg.

(** ** The scan computes the walk *)

(** The walk, stopped where it would go too deep. *)
Fixpoint walk_limited (ss : list cstring) (at_ : list cstring) : option (list cstring) :=
  match ss with
  | [] => Some at_
  | s :: ss' =>
      let a := follow at_ s in
      if (length a <=? MAX_SEGMENTS)%nat then walk_limited ss' a else None
  end.

Lemma follow_nil at_ : follow at_ [] = at_.
Proof. unfold follow. rewrite decide_True by auto. done. Qed.

Lemma follow_plain at_ seg : plain seg → follow at_ seg = at_ ++ [seg].
Proof. intros (? & ? & ? & _). unfold follow. rewrite !decide_False by naive_solver. done. Qed.

Lemma walk_limited_nil ss at_ :
  (length at_ ≤ MAX_SEGMENTS)%nat → walk_limited ([] :: ss) at_ = walk_limited ss at_.
Proof. intros H. simpl. rewrite follow_nil. by rewrite (proj2 (Nat.leb_le _ _) H). Qed.

Lemma walk_limited_Some ss at_ r :
  walk_limited ss at_ = Some r ↔
  r = foldl follow at_ ss ∧
  ∀ k, (0 < k ≤ length ss)%nat → (length (foldl follow at_ (take k ss)) ≤ MAX_SEGMENTS)%nat.
Proof.
  revert at_. induction ss as [|s ss IH]; intros at_; simpl.
  { split; [intros [= <-]; split; [done|lia]|naive_solver]. }
  destruct (length (follow at_ s) <=? MAX_SEGMENTS)%nat eqn:E; bool_prop.
  - rewrite IH. split; intros [-> H]; (split; [done|]).
    + intros [|k] Hk; [lia|]. simpl. destruct (decide (k = 0%nat)) as [->|]; [simpl; lia|apply H; lia].
    + intros k Hk. apply (H (S k)). lia.
  - split; [done|]. intros [_ H]. specialize (H 1%nat ltac:(lia)). simpl in H. lia.
Qed.

Lemma skip_slashes_split input at_ :
  (length at_ ≤ MAX_SEGMENTS)%nat →
  walk_limited (split_slash (skip_slashes input)) at_ = walk_limited (split_slash input) at_.
Proof.
  intros H. induction input as [|c input IH]; [done|]. cbn [skip_slashes split_slash].
  destruct (c =? slash) eqn:E; [rewrite walk_limited_nil by done; done|].
  cbn [split_slash]. by rewrite E.
Qed.

Lemma scan_segment_split input seg rest :
  scan_segment input = (seg, rest) →
  input = seg ++ rest ∧ (slash ∉ seg) ∧ (rest = [] ∨ ∃ r, rest = slash :: r) ∧
  split_slash input = seg :: tail (split_slash rest).
Proof.
  revert seg rest. induction input as [|c input IH]; intros seg rest H; simpl in H.
  { injection H as <- <-. repeat split; [set_solver|by left]. }
  destruct (c =? slash) eqn:E.
  - injection H as <- <-. bool_prop. subst. repeat split; [set_solver|eauto].
  - destruct (scan_segment input) as [s r] eqn:Es. injection H as <- <-.
    destruct (IH s r eq_refl) as (-> & Hs & Hr & Hsp). bool_prop. simpl.
    repeat split; [set_solver|done|]. rewrite (proj2 (Z.eqb_neq _ _)) by done. by rewrite Hsp.
Qed.

(** After a segment the scan stands at a slash or at the end: the piece there
    is empty. *)
Lemma walk_limited_rest rest at_ :
  (length at_ ≤ MAX_SEGMENTS)%nat → rest = [] ∨ (∃ r, rest = slash :: r) →
  walk_limited (tail (split_slash rest)) at_ = walk_limited (split_slash rest) at_.
Proof.
  intros H [->|[r ->]]; simpl; rewrite follow_nil, (proj2 (Nat.leb_le _ _) H); done.
Qed.

Lemma skip_slashes_length input : (length (skip_slashes input) ≤ length input)%nat.
Proof. induction input; simpl; [lia|]. case_match; simpl; lia. Qed.

Lemma skip_slashes_head input c rest : skip_slashes input = c :: rest → c ≠ slash.
Proof.
  induction input as [|x input IH]; simpl; [done|]. destruct (x =? slash) eqn:E; [done|].
  intros [= <- _]. bool_prop. done.
Qed.

(** The tests on a segment's length and bytes recognise the dot segments. *)
Lemma dot_test seg : (length seg =? 1)%nat && (char_at seg 0 =? dot) = bool_decide (seg = [dot]).
Proof.
  apply eq_bool_prop_intro. rewrite !Is_true_true, andb_true_iff, Nat.eqb_eq, Z.eqb_eq, bool_decide_eq_true.
  unfold char_at. destruct seg as [|a [|b seg]]; naive_solver.
Qed.

Lemma dotdot_test seg :
  (length seg =? 2)%nat && (char_at seg 0 =? dot) && (char_at seg 1 =? dot) = bool_decide (seg = dotdot).
Proof.
  apply eq_bool_prop_intro.
  rewrite !Is_true_true, !andb_true_iff, Nat.eqb_eq, !Z.eqb_eq, bool_decide_eq_true.
  unfold char_at, dotdot. destruct seg as [|a [|b [|c seg]]]; naive_solver.
Qed.

Lemma collect_segments_walk fuel input segs :
  (length input < fuel)%nat → (length segs ≤ MAX_SEGMENTS)%nat →
  collect_segments fuel input segs = walk_limited (split_slash input) segs.
Proof.
  revert input segs. induction fuel as [|fuel IH]; intros input segs Hf Hs; [lia|].
  cbn [collect_segments]. pose proof (skip_slashes_length input) as Hsk.
  rewrite <- skip_slashes_split by done.
  destruct input as [|c0 input0]; [simpl; rewrite follow_nil, (proj2 (Nat.leb_le _ _)) by lia; done|].
  destruct (skip_slashes (c0 :: input0)) as [|c input] eqn:Ei.
  { simpl. rewrite follow_nil, (proj2 (Nat.leb_le _ _)) by lia. done. }
  apply skip_slashes_head in Ei as Hc. destruct (scan_segment (c :: input)) as [seg rest] eqn:Es.
  assert (Hseg : seg ≠ []).
  { simpl in Es. rewrite (proj2 (Z.eqb_neq _ _)) in Es by done.
    destruct (scan_segment input). by injection Es as <- _. }
  apply scan_segment_split in Es as (Happ & Hsl & Hrest & Hsp). rewrite Hsp.
  assert (Hlr : (length rest < fuel)%nat).
  { rewrite Happ, length_app in Hsk. destruct seg; simpl in *; [done|lia]. }
  cbn [walk_limited]. rewrite dot_test, dotdot_test.
  rewrite (proj2 (Nat.eqb_neq (length seg) 0)) by (by destruct seg).
  unfold follow. destruct (bool_decide_reflect (seg = [dot])) as [->|Hd].
  { rewrite decide_True, (proj2 (Nat.leb_le _ _)), walk_limited_rest by auto. by apply IH. }
  rewrite decide_False by naive_solver.
  destruct (bool_decide_reflect (seg = dotdot)) as [->|Hdd].
  - rewrite decide_True by done. rewrite removelast_firstn_len, <- Nat.sub_1_r.
    assert (Ht : (if (0 <? length segs)%nat then take (length segs - 1) segs else segs) =
                 take (length segs - 1) segs) by (destruct segs; done).
    rewrite Ht, (proj2 (Nat.leb_le _ _)), walk_limited_rest by (rewrite ?length_take; auto; lia).
    apply IH; [done|]. rewrite length_take. lia.
  - rewrite decide_False by done. rewrite length_app. simpl.
    destruct (MAX_SEGMENTS <=? length segs)%nat eqn:E; bool_prop.
    + rewrite (proj2 (Nat.leb_gt _ _)) by lia. done.
    + rewrite (proj2 (Nat.leb_le _ _)), walk_limited_rest by (rewrite ?length_app; simpl; auto; lia).
      apply IH; [done|]. rewrite length_app. simpl. lia.
Qed.

Lemma emit_segments_spec segs out capacity r :
  (length out < capacity)%nat →
  emit_segments segs out capacity = Some r ↔
  r = out ++ concat ((fun s => slash :: s) <$> segs) ∧ (length r < capacity)%nat.
Proof.
  revert out. induction segs as [|s segs IH]; intros out Hout; simpl.
  { rewrite app_nil_r. naive_solver. }
  destruct (capacity <=? _)%nat eqn:E; bool_prop.
  - split; [done|]. intros [-> H]. rewrite !length_app in H. simpl in H. rewrite length_app in H. lia.
  - rewrite IH by (rewrite length_app; simpl; lia). rewrite <- app_assoc. done.
Qed.

Lemma shallow_limited p :
  shallow p ↔ ∀ k, (0 < k ≤ length (split_slash p))%nat →
    (length (foldl follow [] (take k (split_slash p))) ≤ MAX_SEGMENTS)%nat.
Proof.
  unfold shallow. split; [auto|]. intros H k.
  destruct (decide (k = 0%nat)) as [->|]; [simpl; lia|].
  destruct (decide (k ≤ length (split_slash p))%nat); [apply H; lia|].
  rewrite take_ge by lia. rewrite <- (take_ge (split_slash p) (length (split_slash p))) by lia.
  apply H. destruct p; simpl; [lia|]. repeat case_match; simpl; lia.
Qed.

Lemma normalize_spec p capacity r :
  normalize_path (Some p) capacity = Some r ↔
  (2 ≤ capacity)%nat ∧ char0 p = slash ∧ shallow p ∧ r = spell (walk p) ∧ (length r < capacity)%nat.
Proof.
  unfold normalize_path. destruct (capacity <? 2)%nat eqn:Ec; bool_prop; [naive_solver lia|].
  destruct (char0 p =? 0) eqn:E0; bool_prop.
  { split; [done|]. intros (_ & H & _). rewrite E0 in H. done. }
  destruct (char0 p =? slash) eqn:E1; bool_prop; simpl negb; [|naive_solver].
  rewrite collect_segments_walk by (simpl; lia).
  destruct (walk_limited (split_slash p) []) as [segs|] eqn:E.
  - apply walk_limited_Some in E as [Hw Hk]. rewrite <- shallow_limited in Hk. fold (walk p) in Hw.
    rewrite <- Hw. destruct segs as [|s segs]; [simpl; naive_solver lia|].
    rewrite emit_segments_spec by (simpl; lia). naive_solver.
  - split; [done|]. intros (_ & _ & Hsh & _). rewrite shallow_limited in Hsh.
    rewrite (proj2 (walk_limited_Some _ _ (walk p)) (conj eq_refl Hsh)) in E. done.
Qed.

(** ** Canonical paths *)

Lemma split_slash_no_slash p : Forall (fun s => slash ∉ s) (split_slash p).
Proof.
  induction p as [|c p IH]; simpl; [constructor; [set_solver|constructor]|].
  destruct (c =? slash) eqn:E; bool_prop; [constructor; [set_solver|done]|].
  destruct IH; constructor; [set_solver|constructor|set_solver|done].
Qed.

Lemma follow_all_plain at_ s :
  Forall plain at_ → (slash ∉ s) → Forall plain (follow at_ s).
Proof.
  intros Ha Hs. unfold follow. repeat case_decide; [done| |].
  - rewrite removelast_firstn_len. by apply Forall_take.
  - apply Forall_app. split; [done|]. constructor; [|constructor]. unfold plain. naive_solver.
Qed.

Lemma walk_plain p : Forall plain (walk p).
Proof.
  unfold walk. generalize (Forall_nil_2 plain). generalize ([] : list cstring).
  induction (split_slash_no_slash p) as [|s ss Hs Hss IH]; intros at_ Ha; simpl; [done|].
  apply IH. by apply follow_all_plain.
Qed.

Lemma follow_plains segs at_ : Forall plain segs → foldl follow at_ segs = at_ ++ segs.
Proof.
  intros H. revert at_. induction H as [|s segs Hs H IH]; intros at_; simpl; [by rewrite app_nil_r|].
  rewrite follow_plain, IH by done. by rewrite <- app_assoc.
Qed.

Lemma split_slash_seg s t :
  (slash ∉ s) → t = [] ∨ (∃ r, t = slash :: r) → split_slash (s ++ t) = s :: tail (split_slash t).
Proof.
  intros Hs Ht. induction s as [|c s IH]; simpl.
  { destruct Ht as [->|[r ->]]; done. }
  apply not_elem_of_cons in Hs as [Hc Hs]. rewrite (proj2 (Z.eqb_neq _ _)) by congruence.
  by rewrite IH.
Qed.

Lemma split_slash_spell segs :
  Forall plain segs → split_slash (concat ((fun s => slash :: s) <$> segs)) = [] :: segs.
Proof.
  induction 1 as [|s segs (_ & _ & _ & Hs) Hsegs IH]; [done|]. cbn [fmap list_fmap concat].
  change ((slash :: s) ++ ?x) with (slash :: (s ++ x)). cbn [split_slash].
  change (slash =? slash) with true. cbv iota. f_equal.
  rewrite split_slash_seg; [by rewrite IH|done|]. destruct segs; [by left|]. right. eexists. done.
Qed.

Lemma spell_concat segs :
  segs ≠ [] → spell segs = concat ((fun s => slash :: s) <$> segs).
Proof. by destruct segs. Qed.

Lemma walk_spell segs : Forall plain segs → walk (spell segs) = segs.
Proof.
  intros H. destruct (decide (segs = [])) as [->|Hne]; [done|].
  unfold walk. rewrite spell_concat, split_slash_spell by done. simpl.
  rewrite follow_nil, follow_plains by done. done.
Qed.

Lemma spell_inj segs segs' : Forall plain segs → Forall plain segs' → spell segs = spell segs' → segs = segs'.
Proof. intros H H' E. apply (f_equal walk) in E. by rewrite !walk_spell in E. Qed.

Lemma shallow_spell segs :
  Forall plain segs → (length segs ≤ MAX_SEGMENTS)%nat → shallow (spell segs).
Proof.
  intros H Hl k. destruct (decide (segs = [])) as [->|Hne].
  { assert (foldl follow [] (take k (split_slash (spell []))) = []) as ->; [|simpl; lia].
    destruct k as [|[|[|k]]]; done. }
  rewrite spell_concat, split_slash_spell by done. destruct k as [|k]; [simpl; lia|]. simpl.
  rewrite follow_nil, follow_plains by (by apply Forall_take). rewrite length_app, length_take. simpl. lia.
Qed.

Lemma char0_spell segs : char0 (spell segs) = slash.
Proof. by destruct segs. Qed.

Lemma shallow_depth p : shallow p → (length (walk p) ≤ MAX_SEGMENTS)%nat.
Proof.
  intros H. specialize (H (length (split_slash p))). by rewrite take_ge in H.
Qed.

Lemma normalize_walk p capacity r :
  normalize_path (Some p) capacity = Some r → r = spell (walk p) ∧ walk r = walk p.
Proof.
  rewrite normalize_spec. intros (_ & _ & _ & -> & _). split; [done|]. apply walk_spell, walk_plain.
Qed.

(** C37: [normalize_path] computes what a path means.  It accepts a path exactly
    when the path is absolute, never goes deeper than 32 directories, and its
    canonical spelling fits the buffer with its terminator; the result is then
    the canonical spelling of the directory reached by following the segments
    one after the other, [.] and empty ones staying in place and [..] going to
    the parent and no higher than the root.  The scan always terminates. *)
Theorem normalize_path_correct p capacity r :
  normalize_path (Some p) capacity = Some r ↔
  (2 ≤ capacity)%nat ∧ char0 p = slash ∧ shallow p ∧ r = spell (walk p) ∧ (length r < capacity)%nat.
Proof. apply normalize_spec. Qed.

(** Normalised paths are canonical.  What [normalize_path] returns is spelled
    from segments that are not empty, not [.], not [..] and free of slashes; it
    is a fixed point of [normalize_path]; and two accepted paths that lead to the
    same directory get the same spelling, and only they do. *)
Theorem normalize_path_canonical p q capacity r r' :
  normalize_path (Some p) capacity = Some r → normalize_path (Some q) capacity = Some r' →
  Forall plain (walk p) ∧ r = spell (walk p) ∧ normalize_path (Some r) capacity = Some r ∧
  (r = r' ↔ walk p = walk q).
Proof.
  intros Hp Hq. apply normalize_walk in Hq as [-> _]. pose proof (walk_plain p) as Hpl.
  apply normalize_spec in Hp as (Hc & _ & Hsh & -> & Hl). split; [done|]. split; [done|]. split.
  - apply normalize_spec. rewrite walk_spell by done. split; [done|]. split; [apply char0_spell|].
    split; [|done]. apply shallow_spell; [done|]. by apply shallow_depth.
  - split; [|congruence]. apply spell_inj; [done|apply walk_plain].
Qed.

Lemma normalize_path_canonical_witness :
  normalize_path (Some (lit "//a/./b/../c/")) 128 = Some (lit "/a/c") ∧
  (lit "/a/c" = lit "/a/c" ↔ walk (lit "//a/./b/../c/") = walk (lit "/a/c")).
Proof.
  assert (E1 : normalize_path (Some (lit "//a/./b/../c/")) 128 = Some (lit "/a/c")) by (vm_compute; reflexivity).
  assert (E2 : normalize_path (Some (lit "/a/c")) 128 = Some (lit "/a/c")) by (vm_compute; reflexivity).
  split; [exact E1|].
  apply (normalize_path_canonical (lit "//a/./b/../c/") (lit "/a/c") 128 (lit "/a/c") (lit "/a/c") E1 E2).
Defined.

End VfsPath.
