(* ===== verification/Vfs.v ===== *)
(** The virtual file system of [kernel/vfs.c]: the mount table, the alias table
    and the table of open files, over file systems reached only through their
    operation tables.

    A file system is a [vfs_fs_ops]: functions on a world [W], which holds the
    state of every file system of the kernel, and on the [ctx] pointer given at
    the mount.  A NULL entry of the table is [None].  A pointer to a
    [struct vfs_mount] is its index in the mount table. *)

From S2P Require Import Prelude VfsPath Ramfs.

Module Vfs.

Import VfsPath Ramfs.

Definition VFS_MAX_MOUNTS : nat := 8.
Definition VFS_MAX_OPEN_FILES : nat := 32.
Definition VFS_MAX_ALIASES : nat := 8.

Inductive vfs_write_mode := VFS_WRITE_APPEND | VFS_WRITE_REPLACE.

Record vfs_fs_ops {W Ctx : Type} := Ops {
  op_list : option (W → Ctx → cstring → list Z → option (Z * list Z * W));
  op_read : option (W → Ctx → cstring → list Z → option (Z * list Z * W));
  op_write : option (W → Ctx → cstring → option (list Z) → vfs_write_mode → option (Z * W));
  op_remove : option (W → Ctx → cstring → option (Z * W));
  op_mkdir : option (W → Ctx → cstring → option (Z * W))
}.
Arguments vfs_fs_ops : clear implicits.

Record vfs_mount {W Ctx : Type} := Mount {
  m_used : bool;
  mount_point : cstring;
  prefix_len : nat;
  m_ops : option (vfs_fs_ops W Ctx);
  m_ctx : Ctx
}.
Arguments vfs_mount : clear implicits.

Record vfs_alias := Alias {
  a_used : bool;
  a_from : cstring;
  from_len : nat;
  a_to : cstring
}.

Record vfs_handle := Handle {
  h_used : bool;
  h_mount : option nat;
  relative : cstring
}.

Record vfs {W Ctx : Type} := Vfs {
  mount_table : list (vfs_mount W Ctx);
  root_mount : option nat;
  mounts_initialized : bool;
  alias_table : list vfs_alias;
  open_table : list vfs_handle
}.
Arguments vfs : clear implicits.

Section vfs.
Context {W Ctx : Type}.
Implicit Types (v : vfs W Ctx) (w : W).

(** ** Aliases *)

Definition clear_alias (a : vfs_alias) : vfs_alias :=
  {| a_used := false; a_from := []; from_len := 0; a_to := [] |}.

Definition reset_aliases (aliases : list vfs_alias) : list vfs_alias := clear_alias <$> aliases.

(** One round of the search: the alias applies to the path. *)
Definition alias_matches (path : cstring) (a : vfs_alias) : bool :=
  a_used a && negb (from_len a =? 0)%nat && (local_strncmp path (a_from a) (from_len a) =? 0) &&
  ((char_at path (from_len a) =? 0) || (char_at path (from_len a) =? slash)).

(** What the first alias that applies makes of the path. *)
Definition expand_alias (path : cstring) (a : vfs_alias) (buffer_size : nat) : cstring :=
  let target := a_to a in
  let target_len := length target in
  let suffix := drop (from_len a) path in
  let suffix := if char0 suffix =? slash then tail suffix else suffix in
  let suffix_len := length suffix in
  let extra_slash :=
    (0 <? suffix_len)%nat && (0 <? target_len)%nat && negb (char_at target (target_len - 1) =? slash) in
  let total_len := (target_len + suffix_len + if extra_slash then 1 else 0)%nat in
  if (buffer_size <=? total_len + 1)%nat then path
  else target ++ (if extra_slash then [slash] else []) ++ suffix.

Definition apply_alias (aliases : list vfs_alias) (path : cstring) (buffer_size : nat) : cstring :=
  if (buffer_size =? 0)%nat then path
  else
    match i ← first_index (alias_matches path) aliases; aliases !! i with
    | None => path
    | Some a => expand_alias path a buffer_size
    end.

(** ** Mounts *)

Definition acquire_mount_slot (mounts : list (vfs_mount W Ctx)) : option nat :=
  first_index (fun m => negb (m_used m)) mounts.

(** The tests of one round of [resolve_mount]. *)
Definition mount_matches (path : cstring) (m : vfs_mount W Ctx) : bool :=
  m_used m && bool_decide (is_Some (m_ops m)) && negb (prefix_len m =? 0)%nat &&
  (if (prefix_len m =? 1)%nat then char0 path =? slash
   else (local_strncmp path (mount_point m) (prefix_len m) =? 0) &&
        ((char_at path (prefix_len m) =? 0) || (char_at path (prefix_len m) =? slash))).

(** The loop: [i] is the index of the head of [mounts], [best] the index and the
    prefix length of the best mount so far. *)
Fixpoint resolve_loop (mounts : list (vfs_mount W Ctx)) (i : nat) (path : cstring)
    (best : option (nat * nat)) : option (nat * nat) :=
  match mounts with
  | [] => best
  | m :: mounts' =>
      let best :=
        if mount_matches path m then
          match best with
          | None => Some (i, prefix_len m)
          | Some (_, best_len) => if (best_len <? prefix_len m)%nat then Some (i, prefix_len m) else best
          end
        else best in
      resolve_loop mounts' (S i) path best
  end.

(** The mount and the path relative to it. *)
Definition resolve_mount (mounts : list (vfs_mount W Ctx)) (path : cstring) : option (nat * cstring) :=
  match resolve_loop mounts 0 path None with
  | None => None
  | Some (i, _) =>
      m ← mounts !! i;
      let relative := drop (prefix_len m) path in
      let relative := if char0 relative =? slash then tail relative else relative in
      Some (i, relative)
  end.

Definition set_mounts (mounts : list (vfs_mount W Ctx)) (root : option nat) v : vfs W Ctx :=
  {| mount_table := mounts; root_mount := root; mounts_initialized := mounts_initialized v;
     alias_table := alias_table v; open_table := open_table v |}.

Definition vfs_mount_ (v : vfs W Ctx) (point : option cstring) (ops : option (vfs_fs_ops W Ctx)) (ctx : Ctx)
    : Z * vfs W Ctx :=
  match point, ops with
  | Some point, Some ops =>
      match normalize_path (Some point) VFS_MAX_PATH with
      | None => (-1, v)
      | Some normalized =>
          let path_len := length normalized in
          if (path_len =? 0)%nat then (-1, v)
          else if existsb (fun m => m_used m && (length (mount_point m) =? path_len)%nat &&
                                    (local_strncmp (mount_point m) normalized path_len =? 0))
                          (mount_table v)
          then (-1, v)
          else
            match acquire_mount_slot (mount_table v) with
            | None => (-1, v)
            | Some slot =>
                let m := {| m_used := true; mount_point := normalized; prefix_len := path_len;
                            m_ops := Some ops; m_ctx := ctx |} in
                let root := if (path_len =? 1)%nat && (char0 normalized =? slash)
                            then Some slot else root_mount v in
                (0, set_mounts (<[slot := m]> (mount_table v)) root v)
            end
      end
  | _, _ => (-1, v)
  end.

(** ** Operations on paths *)

(** What every operation on a path does first: expand an alias, normalise,
    find the mount.  [None] makes the operation return -1. *)
Definition locate (v : vfs W Ctx) (path : cstring) : option (nat * cstring) :=
  let effective := apply_alias (alias_table v) path VFS_MAX_PATH in
  normalized ← normalize_path (Some effective) VFS_MAX_PATH;
  resolve_mount (mount_table v) normalized.

(** An entry of the operation table of the mount at an index. *)
Definition mount_op {A} (v : vfs W Ctx) (i : nat) (sel : vfs_fs_ops W Ctx → option A) : option (A * Ctx) :=
  m ← mount_table v !! i;
  ops ← m_ops m;
  f ← sel ops;
  Some (f, m_ctx m).

(** Find the file system for a path and call one of its operations. *)
Definition dispatch {A R} (v : vfs W Ctx) (path : cstring) (sel : vfs_fs_ops W Ctx → option A)
    (fail : R) (call : A → Ctx → cstring → option R) : option R :=
  match locate v path with
  | None => Some fail
  | Some (i, rel) =>
      match mount_op v i sel with
      | None => Some fail
      | Some (f, ctx) => call f ctx rel
      end
  end.

Definition vfs_list (v : vfs W Ctx) w (path : option cstring) (buffer : option (list Z))
    : option (Z * list Z * W) :=
  match buffer with
  | None => Some (-1, [], w)
  | Some buffer =>
      if (length buffer =? 0)%nat then Some (-1, buffer, w)
      else
        let effective := match path with
                         | Some p => if char0 p =? 0 then [slash] else p
                         | None => [slash]
                         end in
        dispatch v effective op_list (-1, buffer, w) (fun f ctx rel => f w ctx rel buffer)
  end.

Definition vfs_read_path (v : vfs W Ctx) w (path : option cstring) (buffer : option (list Z))
    : option (Z * list Z * W) :=
  match path, buffer with
  | Some path, Some buffer =>
      if (length buffer =? 0)%nat then Some (-1, buffer, w)
      else dispatch v path op_read (-1, buffer, w) (fun f ctx rel => f w ctx rel buffer)
  | _, _ => Some (-1, default [] buffer, w)
  end.

Definition vfs_write_internal (v : vfs W Ctx) w (path : option cstring) (data : option (list Z))
    (mode : vfs_write_mode) : option (Z * W) :=
  match path with
  | None => Some (-1, w)
  | Some path => dispatch v path op_write (-1, w) (fun f ctx rel => f w ctx rel data mode)
  end.

Definition vfs_append (v : vfs W Ctx) w (path : option cstring) (data : option (list Z)) : option (Z * W) :=
  vfs_write_internal v w path data VFS_WRITE_APPEND.

Definition vfs_write_file (v : vfs W Ctx) w (path : option cstring) (data : option (list Z)) : option (Z * W) :=
  vfs_write_internal v w path data VFS_WRITE_REPLACE.

Definition vfs_remove (v : vfs W Ctx) w (path : option cstring) : option (Z * W) :=
  match path with
  | None => Some (-1, w)
  | Some path => dispatch v path op_remove (-1, w) (fun f ctx rel => f w ctx rel)
  end.

Definition vfs_mkdir (v : vfs W Ctx) w (path : option cstring) : option (Z * W) :=
  match path with
  | None => Some (-1, w)
  | Some path => dispatch v path op_mkdir (-1, w) (fun f ctx rel => f w ctx rel)
  end.

(** ** Open files *)

Definition set_open (handles : list vfs_handle) v : vfs W Ctx :=
  {| mount_table := mount_table v; root_mount := root_mount v;
     mounts_initialized := mounts_initialized v; alias_table := alias_table v;
     open_table := handles |}.

Definition closed_handle : vfs_handle := {| h_used := false; h_mount := None; relative := [] |}.

(** [fd] is a C [int]. *)
Definition get_handle (v : vfs W Ctx) (fd : Z) : option vfs_handle :=
  if (fd <? 0) || (Z.of_nat VFS_MAX_OPEN_FILES <=? fd) then None
  else
    h ← open_table v !! Z.to_nat fd;
    if h_used h then Some h else None.

Definition vfs_open (v : vfs W Ctx) (path : option cstring) : Z * vfs W Ctx :=
  match path with
  | None => (-1, v)
  | Some path =>
      match locate v path with
      | None => (-1, v)
      | Some (i, rel) =>
          match m ← mount_table v !! i; m_ops m with
          | None => (-1, v)
          | Some ops =>
              if negb (bool_decide (is_Some (op_read ops))) && negb (bool_decide (is_Some (op_write ops)))
              then (-1, v)
              else
                match first_index (fun h => negb (h_used h)) (open_table v) with
                | None => (-1, v)
                | Some fd =>
                    if (VFS_MAX_PATH <=? length rel)%nat
                    then (-1, set_open (<[fd := closed_handle]> (open_table v)) v)
                    else
                      (Z.of_nat fd,
                       set_open (<[fd := {| h_used := true; h_mount := Some i; relative := rel |}]>
                                   (open_table v)) v)
                end
          end
      end
  end.

Definition vfs_read (v : vfs W Ctx) w (fd : Z) (buffer : option (list Z)) : option (Z * list Z * W) :=
  match buffer with
  | None => Some (-1, [], w)
  | Some buffer =>
      if (length buffer =? 0)%nat then Some (-1, buffer, w)
      else
        match h ← get_handle v fd; i ← h_mount h; f ← mount_op v i op_read; Some (f, relative h) with
        | None => Some (-1, buffer, w)
        | Some (f, ctx, rel) => f w ctx rel buffer
        end
  end.

Definition vfs_write (v : vfs W Ctx) w (fd : Z) (buffer : option (list Z)) : option (Z * W) :=
  match buffer with
  | None => Some (-1, w)
  | Some buffer =>
      match h ← get_handle v fd; i ← h_mount h; f ← mount_op v i op_write; Some (f, relative h) with
      | None => Some (-1, w)
      | Some (f, ctx, rel) => f w ctx rel (Some buffer) VFS_WRITE_REPLACE
      end
  end.

Definition vfs_close (v : vfs W Ctx) (fd : Z) : Z * vfs W Ctx :=
  match get_handle v fd with
  | None => (-1, v)
  | Some _ => (0, set_open (<[Z.to_nat fd := closed_handle]> (open_table v)) v)
  end.

(** ** Listing the mounts *)

Definition vfs_mount_count (v : vfs W Ctx) : nat := length (filter (fun m => m_used m = true) (mount_table v)).

Fixpoint nth_mount (mounts : list (vfs_mount W Ctx)) (seen index : nat) : option (vfs_mount W Ctx) :=
  match mounts with
  | [] => None
  | m :: mounts' =>
      if negb (m_used m) then nth_mount mounts' seen index
      else if (seen =? index)%nat then Some m
      else nth_mount mounts' (S seen) index
  end.

Definition vfs_mount_path_at (v : vfs W Ctx) (index : nat) (buffer : option (list Z)) : option (Z * list Z) :=
  match buffer with
  | None => Some (-1, [])
  | Some buffer =>
      if (length buffer =? 0)%nat then Some (-1, buffer)
      else
        match nth_mount (mount_table v) 0 index with
        | None => Some (-1, buffer)
        | Some m =>
            let len := length (mount_point m) in
            let len := if (length buffer <=? len)%nat then (length buffer - 1)%nat else len in
            buffer ← buf_copy buffer 0 (take len (mount_point m));
            buffer ← buf_store buffer len 0;
            Some (0, buffer)
        end
  end.

(** ** Registering an alias *)

(** The scan for the slot: the entry with the same source if there is one
    before the end, else the first free one. *)
Fixpoint alias_slot (aliases : list vfs_alias) (i : nat) (norm_from : cstring) (slot : option nat) : option nat :=
  match aliases with
  | [] => slot
  | a :: aliases' =>
      if negb (a_used a) then alias_slot aliases' (S i) norm_from (match slot with None => Some i | _ => slot end)
      else if (from_len a =? length norm_from)%nat &&
              (local_strncmp (a_from a) norm_from (length norm_from) =? 0) then Some i
      else alias_slot aliases' (S i) norm_from slot
  end.

Definition vfs_register_alias (v : vfs W Ctx) (from to : option cstring) : Z * vfs W Ctx :=
  match from, to with
  | Some from, Some to =>
      match normalize_path (Some from) VFS_MAX_PATH, normalize_path (Some to) VFS_MAX_PATH with
      | Some norm_from, Some norm_to =>
          let from_len' := length norm_from in
          let to_len := length norm_to in
          if (from_len' <=? 1)%nat then (-1, v)
          else if (to_len =? 0)%nat then (-1, v)
          else if (from_len' =? to_len)%nat && (local_strncmp norm_from norm_to from_len' =? 0) then (-1, v)
          else
            match alias_slot (alias_table v) 0 norm_from None with
            | None => (-1, v)
            | Some slot =>
                let to_len := if (VFS_MAX_PATH <=? to_len)%nat then (VFS_MAX_PATH - 1)%nat else to_len in
                let a := {| a_used := true; a_from := take (VFS_MAX_PATH - 1) norm_from;
                            from_len := from_len'; a_to := take to_len norm_to |} in
                (0, {| mount_table := mount_table v; root_mount := root_mount v;
                       mounts_initialized := mounts_initialized v;
                       alias_table := <[slot := a]> (alias_table v); open_table := open_table v |})
            end
      | _, _ => (-1, v)
      end
  | _, _ => (-1, v)
  end.

End vfs.

(** ** RAMFS behind the interface *)

(** The statically allocated volumes, and the flag of [ramfs_root_volume]. *)
Inductive volume_id :=
  RootVolume | SystemVolume | VolumesVolume | UsersVolume | AppsVolume | TempVolume.

#[export] Instance volume_id_eq_dec : EqDecision volume_id.
Proof. solve_decision. Defined.

Record ramfs_world := RamfsWorld {
  volumes : volume_id → ramfs_volume;
  root_ready : bool
}.

(** A world that contains the RAMFS volumes, and pointers that may point at one. *)
Class HasRamfs (W Ctx : Type) := {
  ramfs_of : W → ramfs_world;
  with_ramfs : ramfs_world → W → W;
  as_volume : Ctx → option volume_id;
  null_ctx : Ctx;
  volume_ctx : volume_id → Ctx;
  ramfs_of_with r w : ramfs_of (with_ramfs r w) = r;
  as_volume_ctx id : as_volume (volume_ctx id) = Some id;
  as_volume_null : as_volume null_ctx = None
}.

Section ramfs.
Context {W Ctx : Type} `{!HasRamfs W Ctx}.
Implicit Types (w : W) (ctx : Ctx).

Definition get_volume w (id : volume_id) : ramfs_volume := volumes (ramfs_of w) id.

Definition set_volume (id : volume_id) (volume : ramfs_volume) w : W :=
  with_ramfs {| volumes := fun j => if decide (j = id) then volume else get_volume w j;
                root_ready := root_ready (ramfs_of w) |} w.

(** Run an operation on the volume a context points at; -1 for NULL. *)
Definition on_volume (f : ramfs_volume → option (Z * ramfs_volume)) w ctx : option (Z * W) :=
  match as_volume ctx with
  | None => Some (-1, w)
  | Some id => '(rc, volume) ← f (get_volume w id); Some (rc, set_volume id volume w)
  end.

Definition ramfs_list_adapter w ctx (path : cstring) (buffer : list Z) : option (Z * list Z * W) :=
  match as_volume ctx with
  | None => Some (-1, buffer, w)
  | Some id =>
      '(rc, buffer) ← ramfs_volume_list (get_volume w id) (Some path) (Some buffer);
      Some (rc, buffer, w)
  end.

Definition ramfs_read_adapter w ctx (path : cstring) (buffer : list Z) : option (Z * list Z * W) :=
  match as_volume ctx with
  | None => Some (-1, buffer, w)
  | Some id =>
      if char0 path =? 0 then Some (-1, buffer, w)
      else
        '(rc, buffer) ← ramfs_volume_read (get_volume w id) (Some path) (Some buffer);
        Some (rc, buffer, w)
  end.

Definition ramfs_write_adapter w ctx (path : cstring) (data : option (list Z)) (mode : vfs_write_mode)
    : option (Z * W) :=
  if char0 path =? 0 then Some (-1, w)
  else
    match mode with
    | VFS_WRITE_REPLACE => on_volume (fun volume => ramfs_volume_write volume (Some path) data) w ctx
    | VFS_WRITE_APPEND => on_volume (fun volume => ramfs_volume_append volume (Some path) data) w ctx
    end.

Definition ramfs_remove_adapter w ctx (path : cstring) : option (Z * W) :=
  if char0 path =? 0 then Some (-1, w)
  else on_volume (fun volume => ramfs_volume_remove volume (Some path)) w ctx.

Definition ramfs_mkdir_adapter w ctx (path : cstring) : option (Z * W) :=
  if char0 path =? 0 then Some (-1, w)
  else on_volume (fun volume => ramfs_volume_mkdir volume (Some path)) w ctx.

Definition ramfs_ops : vfs_fs_ops W Ctx :=
  {| op_list := Some ramfs_list_adapter; op_read := Some ramfs_read_adapter;
     op_write := Some ramfs_write_adapter; op_remove := Some ramfs_remove_adapter;
     op_mkdir := Some ramfs_mkdir_adapter |}.

(** ** Start-up *)

(** Code of other components that start-up calls: the operations and the reset
    of the device file system, and the two publishers that write into the tree. *)
Context (devicefs_ops : vfs_fs_ops W Ctx) (reset_data_entries : W → W).
Context (klog_enable_proc_sink debug_publish_memory_info : vfs W Ctx → W → option W).

(** The root volume as [ramfs_root_volume] returns it. *)
Definition root_world w : W :=
  let st := ramfs_root_volume {| root_volume := get_volume w RootVolume;
                                 root_initialized := root_ready (ramfs_of w) |} in
  with_ramfs {| volumes := fun j => if decide (j = RootVolume) then root_volume st else get_volume w j;
                root_ready := root_initialized st |} w.

Definition init_volume (id : volume_id) w : W := set_volume id (ramfs_volume_init (get_volume w id)) w.

Definition add_root_directory w (name : cstring) : option W :=
  let w := root_world w in
  '(rc, volume) ← ramfs_volume_mkdir (get_volume w RootVolume) (Some name);
  let w := set_volume RootVolume volume w in
  if rc <? 0 then
    '(_, volume) ← ramfs_volume_write (get_volume w RootVolume) (Some name) None;
    Some (set_volume RootVolume volume w)
  else Some w.

Fixpoint add_root_directories w (names : list cstring) : option W :=
  match names with
  | [] => Some w
  | name :: names' => w ← add_root_directory w name; add_root_directories w names'
  end.

Definition top_level : list cstring :=
  [lit "System"; lit "Volumes"; lit "Users"; lit "Apps"; lit "Temp"; lit "Devices"].

Definition devicefs_mount (v : vfs W Ctx) w : Z * vfs W Ctx * W :=
  let w := reset_data_entries w in
  let '(rc, v) := vfs_mount_ v (Some (lit "/Devices")) (Some devicefs_ops) null_ctx in
  (if rc <? 0 then -1 else 0, v, w).

Definition version : cstring := lit "proOS kernel/0.5" ++ [newline].

Definition mount_volume (point : string) (id : volume_id) (v : vfs W Ctx) : vfs W Ctx :=
  snd (vfs_mount_ v (Some (lit point)) (Some ramfs_ops) (volume_ctx id)).

Definition mount_volumes (v : vfs W Ctx) : vfs W Ctx :=
  let v := mount_volume "/System" SystemVolume v in
  let v := mount_volume "/Volumes" VolumesVolume v in
  let v := mount_volume "/Users" UsersVolume v in
  let v := mount_volume "/Apps" AppsVolume v in
  mount_volume "/Temp" TempVolume v.

Definition init_volumes w : W :=
  let w := init_volume SystemVolume w in
  let w := init_volume VolumesVolume w in
  let w := init_volume UsersVolume w in
  let w := init_volume AppsVolume w in
  init_volume TempVolume w.

Definition vfs_prepare_virtual_fs (v : vfs W Ctx) w : option (vfs W Ctx * W) :=
  w ← add_root_directories w top_level;
  let w := init_volumes w in
  let v := mount_volumes v in
  let '(_, v, w) := devicefs_mount v w in
  '(_, w) ← vfs_write_file v w (Some (lit "/System/version")) (Some version);
  '(_, w) ← vfs_write_file v w (Some (lit "/Devices/Null")) (Some []);
  w ← klog_enable_proc_sink v w;
  w ← debug_publish_memory_info v w;
  Some (v, w).

Definition clear_mount (m : vfs_mount W Ctx) : vfs_mount W Ctx :=
  {| m_used := false; mount_point := []; prefix_len := 0; m_ops := None; m_ctx := null_ctx |}.

(** [ramfs_init()] on the root volume. *)
Definition ramfs_init_world w : W :=
  let w := root_world w in init_volume RootVolume w.

Definition vfs_init (v : vfs W Ctx) w : option (Z * vfs W Ctx * W) :=
  if mounts_initialized v then Some (0, v, w)
  else
    let v := set_mounts (clear_mount <$> mount_table v) (root_mount v) v in
    let w := root_world (ramfs_init_world w) in
    let '(rc, v) := vfs_mount_ v (Some (lit "/")) (Some ramfs_ops) (volume_ctx RootVolume) in
    if rc <? 0 then Some (-1, v, w)
    else
      let v := {| mount_table := mount_table v; root_mount := root_mount v;
                  mounts_initialized := mounts_initialized v;
                  alias_table := reset_aliases (alias_table v);
                  open_table := (fun _ => closed_handle) <$> open_table v |} in
      '(v, w) ← vfs_prepare_virtual_fs v w;
      Some (0, {| mount_table := mount_table v; root_mount := root_mount v; mounts_initialized := true;
                  alias_table := alias_table v; open_table := open_table v |}, w).

End ramfs.
End Vfs.
