(* ===== verification/VfsSpec.v ===== *)
(** Correctness of the virtual file system of [Vfs.v]: which mount a path
    reaches, what the file system behind it is asked, and that open
    descriptors keep their meaning. *)

From S2P Require Import Prelude VfsPath Ramfs RamfsSpec Vfs.

Module VfsSpec.

Import VfsPath Vfs.

(** ** String comparison *)

Lemma local_strncmp_prefix a b :
  wf_cstr b → (local_strncmp a b (length b) =? 0) = bool_decide (b `prefix_of` a).
Proof.
  intros Hb. revert a. induction Hb as [|y b Hy Hb IH]; intros a; cbv beta in *; cbn [local_strncmp length char0 tail].
  { rewrite bool_decide_eq_true_2; [done|apply prefix_nil]. }
  destruct (Z.eqb_spec (char0 a) y) as [He|Hne]; cbn [negb].
  - rewrite (proj2 (Z.eqb_neq (char0 a) 0)) by lia. destruct a as [|x a]; cbn [char0 tail] in *; [lia|]. subst.
    rewrite IH. apply bool_decide_ext. split; [apply prefix_cons|apply prefix_cons_inv_2].
  - rewrite bool_decide_eq_false_2; [apply Z.eqb_neq; lia|].
    intros [k ->]. done.
Qed.

(** The boundary test after a prefix: the path ends there or continues with a
    slash. *)
Lemma boundary_test (path b : cstring) :
  wf_cstr path → b `prefix_of` path →
  ((char_at path (length b) =? 0) || (char_at path (length b) =? slash)) =
  bool_decide (path = b ∨ (b ++ [slash]) `prefix_of` path).
Proof.
  intros Hp [t ->]. unfold char_at. rewrite lookup_app_r, Nat.sub_diag by lia.
  apply wf_cstr_app in Hp as [_ Ht]. destruct t as [|c t]; simpl.
  { rewrite app_nil_r, bool_decide_eq_true_2 by auto. done. }
  apply Forall_cons in Ht as [Hc Ht]. rewrite (proj2 (Z.eqb_neq c 0)) by lia. simpl.
  apply eq_bool_prop_intro. rewrite !Is_true_true, Z.eqb_eq, bool_decide_eq_true. split.
  - intros ->. right. exists t. by rewrite <- app_assoc.
  - intros [H|[k H]].
    + apply (f_equal length) in H. rewrite length_app in H. simpl in H. lia.
    + rewrite <- app_assoc in H. apply app_inv_head in H. by injection H.
Qed.

(** ** Canonical spellings and prefixes *)

Definition join (segs : list cstring) : cstring := tail (concat ((fun s => slash :: s) <$> segs)).

Lemma spell_slash segs : spell segs = slash :: join segs.
Proof. by destruct segs. Qed.

(** [tails] after a mount's segments: where the relative path starts. *)
Lemma spell_app ms rs :
  ms ≠ [] → spell (ms ++ rs) = spell ms ++ concat ((fun s => slash :: s) <$> rs).
Proof.
  intros H. destruct ms as [|m ms]; [done|]. rewrite !spell_concat by (done || by destruct rs).
  by rewrite fmap_app, concat_app.
Qed.

(** Segment lists are determined by the concatenation of their spellings. *)
Lemma concat_segs_inj ms rs :
  Forall plain ms → Forall plain rs →
  concat ((fun s => slash :: s) <$> ms) = concat ((fun s => slash :: s) <$> rs) → ms = rs.
Proof. intros Hm Hr E. apply (f_equal split_slash) in E. rewrite !split_slash_spell in E by done. by injection E. Qed.

(** A canonical path lies under a canonical mount point exactly when its
    segments extend those of the mount point. *)
Lemma spell_prefix ms segs :
  ms ≠ [] → Forall plain ms → Forall plain segs →
  spell segs = spell ms ∨ (spell ms ++ [slash]) `prefix_of` spell segs ↔ ms `prefix_of` segs.
Proof.
  intros Hne Hm Hs. split.
  - intros [H|[t H]]; [apply spell_inj in H as ->; done|].
    assert (Hsegs : segs ≠ []).
    { intros ->. destruct ms as [|[|c m] ms]; [done|by destruct (Forall_inv Hm)|done]. }
    rewrite !spell_concat in H by done. rewrite <- app_assoc in H.
    change ([slash] ++ t) with (slash :: t) in H.
    clear Hne Hsegs. revert segs Hs H. induction Hm as [|m ms Hm0 Hm IH]; intros segs Hs H; [apply prefix_nil|].
    destruct Hs as [|s segs Hs0 Hs]; simpl in H; [done|]. injection H as H.
    rewrite <- app_assoc in H. apply (f_equal split_slash) in H as Hsp.
    destruct Hm0 as (_ & _ & _ & Hm0), Hs0 as (_ & _ & _ & Hs0).
    rewrite (split_slash_seg s), (split_slash_seg m) in Hsp; [|done| |done|].
    + injection Hsp as -> _. apply app_inv_head in H. apply prefix_cons, IH; [done|].
      exact H.
    + right. destruct ms; eexists; done.
    + destruct segs; [by left|right; eexists; done].
  - intros [rs ->]. rewrite spell_app by done. destruct rs as [|r rs]; [left; simpl; by rewrite app_nil_r|].
    right. exists (r ++ concat ((fun s => slash :: s) <$> rs)). by rewrite <- app_assoc.
Qed.

(** ** The invariant of the tables *)

Section spec.
Context {W Ctx : Type}.
Implicit Types (v : vfs W Ctx) (m : vfs_mount W Ctx) (w : W).

(** The canonical segments of a mount point. *)
Definition segs_of m : list cstring := walk (mount_point m).

Definition wf_mount m : Prop :=
  m_used m = true →
  Forall plain (segs_of m) ∧ mount_point m = spell (segs_of m) ∧ wf_cstr (mount_point m) ∧
  prefix_len m = length (mount_point m) ∧ is_Some (m_ops m).

Definition mounted (mounts : list (vfs_mount W Ctx)) (i : nat) m : Prop :=
  mounts !! i = Some m ∧ m_used m = true.

Definition wf_handle v (h : vfs_handle) : Prop :=
  h_used h = true →
  ∃ i m rs, h_mount h = Some i ∧ mounted (mount_table v) i m ∧
    relative h = join rs ∧ Forall plain rs ∧ (length (relative h) < VFS_MAX_PATH)%nat.

Definition wf_alias (a : vfs_alias) : Prop :=
  a_used a = true →
  (∃ fs, fs ≠ [] ∧ Forall plain fs ∧ a_from a = spell fs) ∧ wf_cstr (a_from a) ∧
  from_len a = length (a_from a) ∧
  (∃ ts, Forall plain ts ∧ a_to a = spell ts) ∧ wf_cstr (a_to a).

(** Mount points are canonical and distinct, the root mount is the one at [/],
    every open descriptor refers to a mount by a canonical relative path, and
    aliases are canonical. *)
Record wf v : Prop := {
  wf_mounts_len : length (mount_table v) = VFS_MAX_MOUNTS;
  wf_mounts : Forall wf_mount (mount_table v);
  wf_distinct i j m m' : mounted (mount_table v) i m → mounted (mount_table v) j m' →
    mount_point m = mount_point m' → i = j;
  wf_root i : root_mount v = Some i ↔ ∃ m, mounted (mount_table v) i m ∧ mount_point m = [slash];
  wf_open_len : length (open_table v) = VFS_MAX_OPEN_FILES;
  wf_open : Forall (wf_handle v) (open_table v);
  wf_alias_len : length (alias_table v) = VFS_MAX_ALIASES;
  wf_aliases : Forall wf_alias (alias_table v)
}.

(** ** Which mount a path reaches *)

Lemma mount_matches_spec segs m :
  Forall plain segs → wf_cstr (spell segs) → wf_mount m →
  mount_matches (spell segs) m = true ↔ m_used m = true ∧ segs_of m `prefix_of` segs.
Proof.
  intros Hs Hc Hm. unfold mount_matches. destruct (m_used m) eqn:Hu; simpl; [|naive_solver].
  destruct (Hm Hu) as (Hpl & Hmp & Hmc & Hlen & Hops).
  rewrite bool_decide_eq_true_2 by done. rewrite Hlen. destruct (segs_of m) as [|s ms] eqn:Es.
  - rewrite Hmp. simpl. rewrite char0_spell. split; [split; [done|apply prefix_nil]|done].
  - rewrite Hmp. assert (Hl : (2 ≤ length (spell (s :: ms)))%nat).
    { apply Forall_inv in Hpl. destruct Hpl as [Hne _]. simpl. destruct s; [done|]. simpl. lia. }
    rewrite (proj2 (Nat.eqb_neq _ 0)), (proj2 (Nat.eqb_neq _ 1)) by lia. simpl negb.
    rewrite local_strncmp_prefix by (by rewrite <- Hmp). rewrite andb_true_l, andb_true_iff, bool_decide_eq_true.
    rewrite <- spell_prefix by done. split.
    + intros [Hpre Hb]. split; [done|]. rewrite boundary_test in Hb by done. by apply bool_decide_eq_true in Hb.
    + intros [_ Hb]. assert (Hpre : spell (s :: ms) `prefix_of` spell segs).
      { destruct Hb as [->|[t ->]]; [done|]. rewrite <- app_assoc. by apply prefix_app_r. }
      split; [done|]. rewrite boundary_test by done. by apply bool_decide_eq_true.
Qed.

Lemma resolve_loop_spec (mounts : list (vfs_mount W Ctx)) i path best :
  match resolve_loop mounts i path best with
  | None => best = None ∧ ∀ j m, mounts !! j = Some m → mount_matches path m = false
  | Some (k, len) =>
      (best = Some (k, len) ∨
       ∃ j m, k = (i + j)%nat ∧ mounts !! j = Some m ∧ mount_matches path m = true ∧ len = prefix_len m) ∧
      (∀ j m, mounts !! j = Some m → mount_matches path m = true → (prefix_len m ≤ len)%nat) ∧
      (∀ k' len', best = Some (k', len') → (len' ≤ len)%nat)
  end.
Proof.
  revert i best. induction mounts as [|m mounts IH]; intros i best; cbn [resolve_loop].
  { destruct best as [[k len]|]; [|done]. repeat split; [by left|done|]. intros k' len' [= <- <-]. done. }
  set (best' := if mount_matches path m then _ else _).
  specialize (IH (S i) best'). destruct (resolve_loop mounts (S i) path best') as [[k len]|].
  - destruct IH as (H1 & H2 & H3).
    assert (Hb : mount_matches path m = true → (prefix_len m ≤ len)%nat).
    { intros Hm. unfold best' in H3. rewrite Hm in H3. destruct best as [[k' len']|]; [|by eapply H3].
      destruct (len' <? prefix_len m)%nat eqn:E; [by eapply H3|]. bool_prop. etrans; [exact E|by eapply H3]. }
    split; [|split].
    + destruct H1 as [H1|(j & m' & -> & ?)]; [|right; exists (S j), m'; split; [lia|done]].
      unfold best' in H1. repeat case_match; simplify_eq; try (by left); right; exists 0%nat, m; split_and!; done || lia.
    + intros [|j] m' Hj Hm; simpl in Hj; [simplify_eq; auto|eauto].
    + intros k' len' ->. unfold best' in H3. destruct (mount_matches path m) eqn:E; [|eauto].
      destruct (len' <? prefix_len m)%nat eqn:E'; [|eauto]. bool_prop. specialize (H3 _ _ eq_refl). lia.
  - destruct IH as [H1 H2]. unfold best' in H1. repeat case_match; simplify_eq. split; [done|].
    intros [|j] m' Hj; simpl in Hj; [by simplify_eq|eauto].
Qed.

Lemma join_head rs : Forall plain rs → (char0 (join rs) =? slash) = false.
Proof.
  intros [|r rs' (Hne & _ & _ & Hs) _]; [done|]. unfold join. simpl. apply Z.eqb_neq.
  destruct r as [|c r]; simpl; [done|]. set_solver.
Qed.

(** The relative path computed for a mount is spelled from the segments after
    those of the mount. *)
Lemma relative_spell m rs :
  wf_mount m → m_used m = true → Forall plain rs →
  let rel := drop (prefix_len m) (spell (segs_of m ++ rs)) in
  (if char0 rel =? slash then tail rel else rel) = join rs.
Proof.
  intros Hm Hu Hrs. destruct (Hm Hu) as (Hpl & Hmp & _ & -> & _). rewrite Hmp.
  destruct (decide (segs_of m = [])) as [->|Hne].
  - rewrite (spell_slash (_ ++ _)). simpl. rewrite drop_0. by rewrite join_head.
  - rewrite spell_app, drop_app_length by done. by destruct rs.
Qed.

Lemma spell_length_lt ms s rs : plain s → (length (spell ms) < length (spell (ms ++ s :: rs)))%nat.
Proof.
  intros [Hs _]. destruct (decide (ms = [])) as [->|Hne].
  - simpl. rewrite length_app. destruct s; [done|]. simpl. lia.
  - rewrite spell_app, length_app by done. simpl. lia.
Qed.

(** Two prefixes of one path are ordered by the lengths of their spellings. *)
Lemma prefix_by_length ms ms' segs :
  Forall plain segs → ms `prefix_of` segs → ms' `prefix_of` segs →
  (length (spell ms') ≤ length (spell ms))%nat → ms' `prefix_of` ms.
Proof.
  intros Hs H H' Hl. destruct (prefix_weak_total ms ms' segs H H') as [[t ->]|?]; [|done].
  destruct t as [|s t]; [by rewrite app_nil_r|]. exfalso.
  destruct H' as [u ->]. rewrite !Forall_app, Forall_cons in Hs.
  pose proof (spell_length_lt ms s t). naive_solver lia.
Qed.

Lemma mounted_wf v i m : wf v → mounted (mount_table v) i m → wf_mount m.
Proof. intros Hv [Hi _]. exact (Forall_lookup_1 _ _ _ _ (wf_mounts v Hv) Hi). Qed.

(** The mount with the longest mount point above the path, and the rest of the path. *)
Definition routes v (segs : list cstring) (i : nat) (m : vfs_mount W Ctx) (rs : list cstring) : Prop :=
  mounted (mount_table v) i m ∧ segs = segs_of m ++ rs ∧
  ∀ j m', mounted (mount_table v) j m' → segs_of m' `prefix_of` segs → segs_of m' `prefix_of` segs_of m.

Lemma resolve_routes v segs i rel :
  wf v → Forall plain segs → wf_cstr (spell segs) →
  resolve_mount (mount_table v) (spell segs) = Some (i, rel) →
  ∃ m rs, routes v segs i m rs ∧ rel = join rs.
Proof.
  intros Hv Hs Hc. unfold resolve_mount.
  pose proof (resolve_loop_spec (mount_table v) 0 (spell segs) None) as H.
  destruct (resolve_loop _ _ _ _) as [[k len]|]; [|done].
  destruct H as ([?|(j & m & -> & Hj & Hm & ->)] & Hmax & _); [done|]. simpl. rewrite Hj. simpl.
  intros [= <- <-].
  assert (Hwf : wf_mount m) by exact (Forall_lookup_1 _ _ _ _ (wf_mounts v Hv) Hj).
  apply mount_matches_spec in Hm as [Hu [rs Hrs]]; [|done..].
  exists m, rs. assert (Hplain : Forall plain rs) by (rewrite Hrs, Forall_app in Hs; naive_solver).
  split; [split; [done|split; [done|]]|].
  - intros k m' Hk Hpre. apply (prefix_by_length _ _ segs); [done|by exists rs|done|].
    assert (Hwf' : wf_mount m') by by eapply mounted_wf.
    destruct Hk as [Hk Hu']. destruct (Hwf Hu) as (_ & <- & _ & <- & _), (Hwf' Hu') as (_ & <- & _ & <- & _).
    apply (Hmax k); [done|]. by apply mount_matches_spec.
  - rewrite Hrs. by apply relative_spell.
Qed.

Lemma routes_unique v segs i m rs i' m' rs' :
  wf v → routes v segs i m rs → routes v segs i' m' rs' → i = i' ∧ rs = rs'.
Proof.
  intros Hv (Hi & -> & Hmax) (Hi' & E & Hmax').
  assert (Hpre : segs_of m `prefix_of` segs_of m') by (eapply Hmax'; [done|by eexists]).
  assert (Hpre' : segs_of m' `prefix_of` segs_of m) by (eapply Hmax; [done|by rewrite E; eexists]).
  assert (Heq : segs_of m = segs_of m').
  { apply prefix_length_eq; [done|]. by apply prefix_length. }
  rewrite Heq in E. apply app_inv_head in E. split; [|done].
  eapply (wf_distinct v Hv); [done..|].
  destruct (mounted_wf v i m Hv Hi (proj2 Hi)) as (_ & -> & _).
  destruct (mounted_wf v i' m' Hv Hi' (proj2 Hi')) as (_ & -> & _). by rewrite Heq.
Qed.

Lemma resolve_exists v segs j m :
  wf v → Forall plain segs → wf_cstr (spell segs) →
  mounted (mount_table v) j m → segs_of m `prefix_of` segs →
  is_Some (resolve_mount (mount_table v) (spell segs)).
Proof.
  intros Hv Hs Hc Hm Hpre. unfold resolve_mount.
  pose proof (resolve_loop_spec (mount_table v) 0 (spell segs) None) as H.
  destruct (resolve_loop _ _ _ _) as [[k len]|].
  - destruct H as ([?|(i & m' & -> & Hi & _)] & _); [done|]. simpl. rewrite Hi. simpl. eauto.
  - destruct H as [_ H]. exfalso. destruct Hm as [Hj Hu]. specialize (H j m Hj).
    assert (mount_matches (spell segs) m = true); [|congruence].
    apply mount_matches_spec; [done..| |done]. by apply (mounted_wf v j m).
Qed.

(** ** Strings stay strings *)

Lemma split_slash_wf p : wf_cstr p → Forall wf_cstr (split_slash p).
Proof.
  induction 1 as [|c p Hc Hp IH]; simpl; [constructor; constructor|].
  destruct (c =? slash); [constructor; [constructor|done]|].
  destruct IH; constructor; (done || constructor; done || constructor).
Qed.

Lemma walk_wf p : wf_cstr p → Forall wf_cstr (walk p).
Proof.
  intros Hp. unfold walk. generalize (Forall_nil_2 wf_cstr). generalize ([] : list cstring).
  induction (split_slash_wf p Hp) as [|s ss Hs Hss IH]; intros at_ Ha; simpl; [done|].
  apply IH. unfold follow. repeat case_decide; [done| |].
  - rewrite removelast_firstn_len. by apply Forall_take.
  - apply Forall_app. split; [done|]. by constructor.
Qed.

Lemma spell_wf segs : Forall wf_cstr segs → wf_cstr (spell segs).
Proof.
  intros H. assert (Hc : wf_cstr (concat ((fun s => slash :: s) <$> segs))).
  { induction H; simpl; [constructor|]. constructor; [unfold slash; lia|]. by apply wf_cstr_app. }
  destruct segs; [repeat constructor|done].
Qed.

Lemma expand_alias_wf path a n :
  wf_cstr path → wf_cstr (a_to a) → wf_cstr (expand_alias path a n).
Proof.
  intros Hp Ha. unfold expand_alias. set (suffix := if char0 _ =? slash then _ else _).
  assert (Hs : wf_cstr suffix) by (unfold suffix; case_match; auto with kernel). clearbody suffix.
  destruct (n <=? _)%nat; [done|]. rewrite !wf_cstr_app. split; [done|]. split; [|done].
  destruct (_ && _); [repeat constructor|constructor].
Qed.

Lemma apply_alias_wf v path n : wf v → wf_cstr path → wf_cstr (apply_alias (alias_table v) path n).
Proof.
  intros Hv Hp. unfold apply_alias. destruct (n =? 0)%nat; [done|].
  destruct (first_index _ _) as [i|] eqn:E; simpl; [|done].
  apply first_index_Some in E as (a & Hi & Ha & _). rewrite Hi.
  apply expand_alias_wf; [done|]. unfold alias_matches in Ha. bool_prop.
  apply (Forall_lookup_1 _ _ _ _ (wf_aliases v Hv) Hi). done.
Qed.

(** ** What an operation on a path reaches *)

(** The directory a path means once its alias is expanded. *)
Definition destination v (path : cstring) : list cstring :=
  walk (apply_alias (alias_table v) path VFS_MAX_PATH).

Lemma destination_plain v path : Forall plain (destination v path).
Proof. apply walk_plain. Qed.

Lemma destination_wf v path : wf v → wf_cstr path → wf_cstr (spell (destination v path)).
Proof. intros. by apply spell_wf, walk_wf, apply_alias_wf. Qed.

Lemma locate_routes v path i rel :
  wf v → wf_cstr path → locate v path = Some (i, rel) →
  ∃ m rs, routes v (destination v path) i m rs ∧ Forall plain rs ∧ rel = join rs ∧
    (length rel < VFS_MAX_PATH)%nat.
Proof.
  intros Hv Hp. unfold locate. intros (norm & Hn & Hr)%bind_Some.
  apply normalize_spec in Hn as (_ & _ & _ & -> & Hlen). fold (destination v path) in *.
  destruct (resolve_routes v _ i rel Hv (destination_plain v path) (destination_wf v path Hv Hp) Hr)
    as (m & rs & Hro & ->).
  exists m, rs. pose proof (destination_plain v path) as Hpl. destruct (Hro) as (_ & Hd & _).
  rewrite Hd, Forall_app in Hpl. split; [done|]. split; [naive_solver|]. split; [done|].
  rewrite Hd in Hlen. destruct (decide (segs_of m = [])) as [E|E].
  - rewrite E, spell_slash in Hlen. simpl in Hlen. lia.
  - rewrite spell_app, length_app in Hlen by done. unfold join.
    destruct (concat _); simpl in *; lia.
Qed.

Lemma join_wf rs : Forall wf_cstr rs → wf_cstr (join rs).
Proof. intros H. pose proof (spell_wf rs H) as Hs. rewrite spell_slash in Hs. by apply Forall_inv_tail in Hs. Qed.

Lemma routes_wf v path i m rs : wf v → wf_cstr path → routes v (destination v path) i m rs → wf_cstr (join rs).
Proof.
  intros Hv Hp (_ & Hd & _). apply join_wf. pose proof (walk_wf _ (apply_alias_wf v path VFS_MAX_PATH Hv Hp)) as Hw.
  fold (destination v path) in Hw. rewrite Hd in Hw. by apply Forall_app in Hw as [_ Hw].
Qed.

(** A path is served by the longest mount point above it.  For a canonical
    path, [resolve_mount] finds the mount whose mount point is above the path
    and below which lies every other mount point above the path, comparing whole
    segments ([/Users] does not capture [/UsersX]), together with the path from
    there on; and it finds none exactly when no mount point is above the path. *)
Theorem resolve_mount_longest v segs :
  wf v → Forall plain segs → wf_cstr (spell segs) →
  (∀ i rel, resolve_mount (mount_table v) (spell segs) = Some (i, rel) ↔
     ∃ m rs, routes v segs i m rs ∧ rel = join rs) ∧
  (resolve_mount (mount_table v) (spell segs) = None ↔
     ∀ i m, mounted (mount_table v) i m → ¬ segs_of m `prefix_of` segs).
Proof.
  intros Hv Hs Hc. split; [intros i rel; split; [by apply resolve_routes|]|split].
  - intros (m & rs & Hr & ->). destruct (Hr) as (Hm & Hsegs & _).
    destruct (resolve_exists v segs i m Hv Hs Hc Hm) as [[i' rel'] E]; [by exists rs|].
    destruct (resolve_routes v segs i' rel' Hv Hs Hc E) as (m' & rs' & Hr' & ->).
    destruct (routes_unique v segs i m rs i' m' rs' Hv Hr Hr') as [-> ->]. done.
  - intros E i m Hm Hpre. destruct (resolve_exists v segs i m Hv Hs Hc Hm Hpre). congruence.
  - intros H. destruct (resolve_mount _ _) as [[i rel]|] eqn:E; [|done].
    destruct (resolve_routes v segs i rel Hv Hs Hc E) as (m & rs & (Hm & -> & _) & _).
    exfalso. eapply H; [done|]. by eexists.
Qed.

(** No path escapes its mount.  Whatever path a caller passes, the file
    system it reaches is asked for a relative path spelled from segments none of
    which is empty, [.] or [..] or holds a slash, that fits a path buffer, and
    that names, below the mount point of the longest matching mount, exactly the
    place the caller's path leads to once its alias is expanded. *)
Theorem locate_confined v path i rel :
  wf v → wf_cstr path → locate v path = Some (i, rel) →
  ∃ m rs, routes v (destination v path) i m rs ∧ Forall plain rs ∧ rel = join rs ∧
    (length rel < VFS_MAX_PATH)%nat.
Proof. apply locate_routes. Qed.

(** ** The operations that change the tables *)

Inductive vfs_op :=
| OpMount (point : cstring) (ops : vfs_fs_ops W Ctx) (ctx : Ctx)
| OpOpen (path : cstring)
| OpClose (fd : Z)
| OpAlias (from to : cstring).

Definition vfs_exec v (o : vfs_op) : Z * vfs W Ctx :=
  match o with
  | OpMount point ops ctx => vfs_mount_ v (Some point) (Some ops) ctx
  | OpOpen path => vfs_open v (Some path)
  | OpClose fd => vfs_close v fd
  | OpAlias from to => vfs_register_alias v (Some from) (Some to)
  end.

Definition wf_vfs_op (o : vfs_op) : Prop :=
  match o with
  | OpMount point _ _ => wf_cstr point
  | OpOpen path => wf_cstr path
  | OpClose _ => True
  | OpAlias from to => wf_cstr from ∧ wf_cstr to
  end.

Inductive vfs_step v (o : vfs_op) (rc : Z) (v' : vfs W Ctx) : Prop :=
| Step : wf_vfs_op o → vfs_exec v o = (rc, v') → vfs_step v o rc v'.

(** *** Mounting *)

Lemma equal_test (a b : cstring) :
  wf_cstr b → (length a =? length b)%nat && (local_strncmp a b (length b) =? 0) = bool_decide (a = b).
Proof.
  intros Hb. rewrite local_strncmp_prefix by done. apply eq_bool_prop_intro.
  rewrite !Is_true_true, andb_true_iff, Nat.eqb_eq, !bool_decide_eq_true. split; [|by intros ->].
  intros [Hl [t ->]]. rewrite length_app in Hl. destruct t; [by rewrite app_nil_r|simpl in Hl; lia].
Qed.

(** What a successful mount adds. *)
Lemma vfs_mount_spec v point ops ctx rc v' :
  wf v → wf_cstr point → vfs_mount_ v (Some point) (Some ops) ctx = (rc, v') →
  (rc = -1 ∧ v' = v) ∨
  ∃ slot old m, rc = 0 ∧ mount_table v !! slot = Some old ∧ m_used old = false ∧
    m_used m = true ∧ mount_point m = spell (walk point) ∧ m_ops m = Some ops ∧ m_ctx m = ctx ∧ wf_mount m ∧
    (∀ j m', mounted (mount_table v) j m' → mount_point m' ≠ mount_point m) ∧
    v' = set_mounts (<[slot := m]> (mount_table v))
           (if decide (mount_point m = [slash]) then Some slot else root_mount v) v.
Proof.
  intros Hv Hp H. unfold vfs_mount_ in H.
  destruct (normalize_path (Some point) VFS_MAX_PATH) as [norm|] eqn:En; [|left; naive_solver].
  apply normalize_spec in En as (_ & _ & _ & -> & _).
  set (norm := spell (walk point)) in *.
  assert (Hn : wf_cstr norm) by (by apply spell_wf, walk_wf).
  rewrite (proj2 (Nat.eqb_neq (length norm) 0)) in H by (unfold norm; rewrite spell_slash; simpl; lia).
  destruct (existsb _ _) eqn:Ex; [left; naive_solver|].
  destruct (acquire_mount_slot _) as [slot|] eqn:Es; [|left; naive_solver].
  apply first_index_Some in Es as (old & Hold & Hfree & _). bool_prop.
  right. exists slot, old, {| m_used := true; mount_point := norm; prefix_len := length norm;
                              m_ops := Some ops; m_ctx := ctx |}.
  injection H as <- <-. do 7 (split; [done|]). split; [|split].
  - intros _. unfold segs_of. simpl. unfold norm at 1 2 3. rewrite walk_spell by apply walk_plain.
    split; [apply walk_plain|]. split; [done|]. split; [done|]. split; [done|]. by eexists.
  - intros j m' [Hj Hu] E. simpl in E. apply not_true_iff_false in Ex. apply Ex, existsb_exists.
    exists m'. split; [by eapply list_elem_of_In, list_elem_of_lookup_2|].
    rewrite Hu, andb_true_l, equal_test by done. by apply bool_decide_eq_true.
  - f_equal. simpl. destruct (decide (norm = [slash])) as [->|Hne]; [done|].
    destruct (walk point) as [|s ss] eqn:Ew; [done|].
    assert (Hl : (2 ≤ length norm)%nat).
    { pose proof (walk_plain point) as Hpl. rewrite Ew in Hpl. apply Forall_inv in Hpl as [Hs _].
      unfold norm. simpl. destruct s; [done|]. simpl. lia. }
    by rewrite (proj2 (Nat.eqb_neq _ 1)) by lia.
Qed.

Lemma mounted_insert mounts slot old m i m' :
  mounts !! slot = Some old → m_used m = true → m_used old = false →
  mounted (<[slot := m]> mounts) i m' ↔ (i = slot ∧ m' = m) ∨ mounted mounts i m'.
Proof.
  intros Hs Hu Ho. unfold mounted. rewrite list_lookup_insert. apply lookup_lt_Some in Hs as Hlt.
  case_decide as Hd.
  - destruct Hd as [<- _]. rewrite Hs. split; [intros [[= ->] ?]; auto|].
    intros [[_ ->]|[[= ->] ?]]; [done|congruence].
  - split; [auto|]. intros [[-> _]|?]; [|done]. by destruct Hd.
Qed.

Lemma mount_wf v point ops ctx rc v' :
  wf v → wf_cstr point → vfs_mount_ v (Some point) (Some ops) ctx = (rc, v') → wf v'.
Proof.
  intros Hv Hp [[-> ->]|(slot & old & m & -> & Hold & Hfree & Hu & Hmp & Hops & Hctx & Hwm & Hnew & ->)]%vfs_mount_spec; [done| |done..].
  pose proof (fun i m' => mounted_insert _ _ _ _ i m' Hold Hu Hfree) as Hin.
  constructor; simpl.
  - rewrite length_insert. apply Hv.
  - apply Forall_insert; [apply Hv|done].
  - intros i j m1 m2. rewrite !Hin. intros [[-> ->]|H1] [[-> ->]|H2] E; [done| | |by eapply wf_distinct].
    + by destruct (Hnew _ _ H2).
    + by destruct (Hnew _ _ H1).
  - intros i. setoid_rewrite Hin. case_decide as Hroot.
    + split; [intros [= <-]; naive_solver|]. intros (m1 & [[-> _]|H1] & E); [done|].
      by destruct (Hnew _ _ H1 ltac:(congruence)).
    + rewrite (wf_root v Hv i). naive_solver.
  - apply Hv.
  - eapply Forall_impl; [apply Hv|]. intros h Hh Hhu. destruct (Hh Hhu) as (i & m1 & rs & ? & Hm1 & ?).
    exists i, m1, rs. split; [done|]. split; [|done]. simpl. apply Hin. by right.
  - apply Hv.
  - apply Hv.
Qed.

(** *** Opening and closing *)

(** What a successful open records: the mount and the relative path it located,
    in the first free descriptor. *)
Lemma vfs_open_spec v path rc v' :
  wf v → wf_cstr path → vfs_open v (Some path) = (rc, v') →
  (rc = -1 ∧ v' = v) ∨
  ∃ fd old i rel, rc = Z.of_nat fd ∧ open_table v !! fd = Some old ∧ h_used old = false ∧
    locate v path = Some (i, rel) ∧ (length rel < VFS_MAX_PATH)%nat ∧
    v' = set_open (<[fd := {| h_used := true; h_mount := Some i; relative := rel |}]> (open_table v)) v.
Proof.
  intros Hv Hp H. unfold vfs_open in H.
  destruct (locate v path) as [[i rel]|] eqn:El; [|left; naive_solver].
  destruct (locate_routes v path i rel Hv Hp El) as (m & rs & (Hm & _) & _ & _ & Hlen).
  destruct Hm as [Hi Hu]. rewrite Hi in H. simpl in H.
  destruct (m_ops m) as [ops|]; [|left; naive_solver].
  destruct (negb _ && negb _); [left; naive_solver|].
  destruct (first_index _ _) as [fd|] eqn:Ef; [|left; naive_solver].
  apply first_index_Some in Ef as (old & Hold & Hfree & _). bool_prop.
  rewrite (proj2 (Nat.leb_gt _ _)) in H by done. injection H as <- <-.
  right. exists fd, old, i, rel. by split_and!.
Qed.

(** Replacing a descriptor keeps the invariant when the new one satisfies it. *)
Lemma set_open_wf v fd h : wf v → wf_handle v h → wf (set_open (<[fd := h]> (open_table v)) v).
Proof.
  intros Hv Hh. constructor; simpl; try apply Hv; [rewrite length_insert; apply Hv|].
  apply Forall_insert; [apply Hv|done].
Qed.

Lemma open_wf v path rc v' : wf v → wf_cstr path → vfs_open v (Some path) = (rc, v') → wf v'.
Proof.
  intros Hv Hp [[-> ->]|(fd & old & i & rel & _ & _ & _ & Hl & Hlen & ->)]%vfs_open_spec; [done| |done..].
  destruct (locate_routes v path i rel Hv Hp Hl) as (m & rs & (Hm & _) & Hpl & -> & _).
  apply set_open_wf; [done|]. intros _. by exists i, m, rs.
Qed.

Lemma close_wf v fd rc v' : wf v → vfs_close v fd = (rc, v') → wf v'.
Proof.
  unfold vfs_close. intros Hv H. destruct (get_handle v fd); injection H as <- <-; [|done].
  by apply set_open_wf.
Qed.

(** *** Aliases *)

Lemma alias_slot_lt aliases i norm slot k :
  alias_slot aliases i norm slot = Some k → slot = Some k ∨ (i ≤ k < i + length aliases)%nat.
Proof.
  revert i slot. induction aliases as [|a aliases IH]; intros i slot; cbn [alias_slot length]; [auto|].
  destruct (negb (a_used a)); [|destruct (_ && _)].
  - intros H. apply IH in H as [H|]; [|lia]. destruct slot; [auto|]. injection H as <-. lia.
  - intros [= <-]. lia.
  - intros H. apply IH in H as [H|]; [auto|lia].
Qed.

Lemma alias_wf v from to rc v' :
  wf v → wf_cstr from → wf_cstr to → vfs_register_alias v (Some from) (Some to) = (rc, v') → wf v'.
Proof.
  unfold vfs_register_alias. intros Hv Hf Ht H.
  destruct (normalize_path (Some from) VFS_MAX_PATH) as [nf|] eqn:Ef; [|by injection H as <- <-].
  destruct (normalize_path (Some to) VFS_MAX_PATH) as [nt|] eqn:Et; [|by injection H as <- <-].
  apply normalize_spec in Ef as (_ & _ & _ & Hnf & Hlf), Et as (_ & _ & _ & Hnt & Hlt).
  unfold VFS_MAX_PATH in *.
  destruct (length nf <=? 1)%nat eqn:E1; [by injection H as <- <-|]. bool_prop.
  destruct (length nt =? 0)%nat; [by injection H as <- <-|].
  destruct (_ && _); [by injection H as <- <-|].
  destruct (alias_slot _ _ _ _) as [slot|]; injection H as <- <-; [|done].
  constructor; simpl; try apply Hv; [rewrite length_insert; apply Hv|].
  apply Forall_insert; [apply Hv|]. intros _. simpl.
  rewrite (proj2 (Nat.leb_gt _ _)), (take_ge nf), (take_ge nt) by lia.
  split_and!; [| |done| |]; subst.
  - exists (walk from). split_and!; [|apply walk_plain|done]. intros E. rewrite E in E1. simpl in E1. lia.
  - by apply spell_wf, walk_wf.
  - exists (walk to). split; [apply walk_plain|done].
  - by apply spell_wf, walk_wf.
Qed.

Lemma exec_wf v o rc v' : wf v → vfs_step v o rc v' → wf v'.
Proof.
  intros Hv [Ho H]. destruct o; cbn [vfs_exec wf_vfs_op] in *.
  - by eapply mount_wf.
  - by eapply open_wf.
  - by eapply close_wf.
  - destruct Ho as [Hf Ht]. by eapply (alias_wf _ from to).
Qed.

(** Runs of operations. *)
Inductive vfs_steps : vfs W Ctx → list vfs_op → vfs W Ctx → Prop :=
| steps_nil v : vfs_steps v [] v
| steps_cons v o rc v1 os v2 : vfs_step v o rc v1 → vfs_steps v1 os v2 → vfs_steps v (o :: os) v2.

Lemma steps_wf v os v' : wf v → vfs_steps v os v' → wf v'.
Proof. intros Hv H. induction H; [done|]. eauto using exec_wf. Qed.

(** *** What no operation undoes *)

Lemma mounted_step v o rc v' i m :
  wf v → vfs_step v o rc v' → mounted (mount_table v) i m → mounted (mount_table v') i m.
Proof.
  intros Hv [Ho H] Hm. destruct o; cbn [vfs_exec wf_vfs_op] in *.
  - apply vfs_mount_spec in H as [[-> ->]|(slot & old & m' & _ & Hold & Hfree & Hu & _ & _ & _ & _ & _ & ->)]; try done.
    apply (mounted_insert _ slot old m'); auto.
  - apply vfs_open_spec in H as [[-> ->]|(? & ? & ? & ? & _ & _ & _ & _ & _ & ->)]; done.
  - unfold vfs_close in H. destruct (get_handle _ _); by injection H as <- <-.
  - unfold vfs_register_alias in H. repeat case_match; by injection H as <- <-.
Qed.

Lemma get_handle_Some v fd h :
  wf v → get_handle v fd = Some h ↔
  0 ≤ fd < Z.of_nat VFS_MAX_OPEN_FILES ∧ open_table v !! Z.to_nat fd = Some h ∧ h_used h = true.
Proof.
  intros Hv. unfold get_handle. destruct (fd <? 0) eqn:E1, (Z.of_nat VFS_MAX_OPEN_FILES <=? fd) eqn:E2;
    simpl; bool_prop; try (split; [done|]; intros [? _]; lia).
  destruct (open_table v !! Z.to_nat fd) as [h'|]; simpl; [|naive_solver].
  destruct (h_used h') eqn:E.
  - split; [intros [= <-]; by split_and!|intros (_ & [= ->] & _); done].
  - split; [done|]. intros (_ & [= ->] & ?). congruence.
Qed.

Lemma handle_step v o rc v' fd h :
  wf v → vfs_step v o rc v' → o ≠ OpClose fd →
  get_handle v fd = Some h → get_handle v' fd = Some h.
Proof.
  intros Hv Hst Hne Hh. assert (Hv' : wf v') by by eapply exec_wf. destruct Hst as [Ho H].
  rewrite get_handle_Some in Hh |- * by done. destruct Hh as (Hr & Hl & Hu). split; [done|].
  split; [|done]. destruct o; cbn [vfs_exec wf_vfs_op] in *.
  - apply vfs_mount_spec in H as [[-> ->]|(? & ? & ? & _ & _ & _ & _ & _ & _ & _ & _ & _ & ->)]; done.
  - apply vfs_open_spec in H as [[-> ->]|(fd' & old & ? & ? & -> & Hold & Hfree & _ & _ & ->)]; try done.
    simpl. rewrite list_lookup_insert_ne; [done|]. intros ->. congruence.
  - unfold vfs_close in H. destruct (get_handle v fd0) as [h0|] eqn:E; injection H as <- <-; [|done].
    apply get_handle_Some in E as (Hr0 & _); [|done]. simpl. rewrite list_lookup_insert_ne; [done|].
    intros E. apply Hne. f_equal. lia.
  - unfold vfs_register_alias in H. repeat case_match; by injection H as <- <-.
Qed.

Lemma mount_op_mounted v i m {A} (sel : vfs_fs_ops W Ctx → option A) :
  mounted (mount_table v) i m →
  mount_op v i sel = (ops ← m_ops m; f ← sel ops; Some (f, m_ctx m)).
Proof. intros [Hi _]. unfold mount_op. by rewrite Hi. Qed.

(** The tables before the first mount. *)
Definition cleared v : Prop :=
  length (mount_table v) = VFS_MAX_MOUNTS ∧ Forall (fun m => m_used m = false) (mount_table v) ∧
  root_mount v = None ∧
  length (open_table v) = VFS_MAX_OPEN_FILES ∧ Forall (fun h => h_used h = false) (open_table v) ∧
  length (alias_table v) = VFS_MAX_ALIASES ∧ Forall (fun a => a_used a = false) (alias_table v).

Lemma cleared_wf v : cleared v → wf v.
Proof.
  intros (Hml & Hm & Hr & Hol & Ho & Hal & Ha).
  assert (Hnone : ∀ i m, ¬ mounted (mount_table v) i m).
  { intros i m [Hi Hu]. apply (Forall_lookup_1 _ _ _ _ Hm) in Hi. congruence. }
  constructor; try done.
  - eapply Forall_impl; [exact Hm|]. intros m H H'. congruence.
  - intros i j m m' Hi. by destruct (Hnone i m).
  - intros i. rewrite Hr. split; [done|]. intros (m & H & _). by destruct (Hnone i m).
  - eapply Forall_impl; [exact Ho|]. intros h H H'. congruence.
  - eapply Forall_impl; [exact Ha|]. intros a H H'. congruence.
Qed.

(** The tables of the VFS stay consistent.  From empty tables, every
    sequence of mounts, opens, closes and alias registrations, whether they
    succeed or fail, keeps every mount point canonical and distinct from the
    others, keeps [root_mount] the mount at [/] and no other, and keeps every
    open descriptor pointing at a mount in use with a canonical relative path. *)
Theorem vfs_steps_wf v os v' : cleared v → vfs_steps v os v' → wf v'.
Proof. intros Hc. apply steps_wf. by apply cleared_wf. Qed.

(** The operation a descriptor performs, through the mount it recorded. *)
Lemma handle_mount_op v fd h i m {A} (sel : vfs_fs_ops W Ctx → option A) :
  get_handle v fd = Some h → h_mount h = Some i → mounted (mount_table v) i m →
  (h ← get_handle v fd; i ← h_mount h; f ← mount_op v i sel; Some (f, relative h)) =
  (ops ← m_ops m; f ← sel ops; Some ((f, m_ctx m), relative h)).
Proof.
  intros -> Hi Hm. simpl. rewrite Hi. simpl. rewrite (mount_op_mounted v i m sel Hm).
  destruct (m_ops m) as [ops|]; simpl; [|done]. by destruct (sel ops).
Qed.

Lemma steps_keep v os v' fd h i m :
  wf v → vfs_steps v os v' → Forall (fun o => o ≠ OpClose fd) os →
  get_handle v fd = Some h → mounted (mount_table v) i m →
  get_handle v' fd = Some h ∧ mounted (mount_table v') i m.
Proof.
  intros Hv Hst Hos Hh Hm. induction Hst as [v|v o rc v1 os v2 Hst1 Hst IH]; [done|].
  apply Forall_cons in Hos as [Ho Hos].
  apply IH; [by eapply exec_wf|done|by eapply handle_step|by eapply mounted_step].
Qed.

(** A descriptor keeps naming the file it was opened on.  When opening a
    path succeeds, then after any further mounts (even ones that shadow the
    path), aliases, opens, and closes of other descriptors, a read or a write
    through the descriptor is exactly a read or a replacing write of the path in
    the state in which it was opened. *)
Theorem open_descriptor_stable v path fd v1 os v2 w buffer data :
  wf v → wf_cstr path → vfs_open v (Some path) = (fd, v1) → 0 ≤ fd →
  vfs_steps v1 os v2 → Forall (fun o => o ≠ OpClose fd) os →
  vfs_read v2 w fd (Some buffer) = vfs_read_path v w (Some path) (Some buffer) ∧
  vfs_write v2 w fd (Some data) = vfs_write_file v w (Some path) (Some data).
Proof.
  intros Hv Hp Hopen Hfd Hst Hos. assert (Hv1 : wf v1) by by eapply open_wf.
  apply vfs_open_spec in Hopen as [[-> _]|(k & old & i & rel & -> & Hold & _ & Hl & _ & ->)]; [lia| |done..].
  destruct (locate_routes v path i rel Hv Hp Hl) as (m & rs & (Hm & _) & _).
  set (h := {| h_used := true; h_mount := Some i; relative := rel |}) in *.
  apply lookup_lt_Some in Hold as Hlt. rewrite (wf_open_len v Hv) in Hlt.
  destruct (steps_keep _ os v2 (Z.of_nat k) h i m Hv1 Hst Hos) as [Hh2 Hm2]; [|done|].
  { apply get_handle_Some; [done|]. rewrite Nat2Z.id. split; [lia|]. split; [|done].
    simpl. apply list_lookup_insert_eq. rewrite (wf_open_len v Hv). done. }
  unfold vfs_read, vfs_write, vfs_read_path, vfs_write_file, vfs_write_internal, dispatch. rewrite Hl.
  rewrite !(handle_mount_op v2 _ h i m _ Hh2 eq_refl Hm2), !(mount_op_mounted v i m _ Hm).
  destruct (m_ops m) as [ops|]; simpl; [|done].
  destruct (op_read ops), (op_write ops); done.
Qed.

(** Descriptors are not shared.  A successful open returns a descriptor that
    was not open and leaves every other descriptor as it was; closing it
    afterwards succeeds and restores exactly the set of open descriptors from
    before the open, so that neither operation can be used to disturb another
    descriptor. *)
Theorem open_close_restores v path fd v1 :
  wf v → wf_cstr path → vfs_open v (Some path) = (fd, v1) → 0 ≤ fd →
  get_handle v fd = None ∧ (∀ fd', fd' ≠ fd → get_handle v1 fd' = get_handle v fd') ∧
  ∃ v2, vfs_close v1 fd = (0, v2) ∧ ∀ fd', get_handle v2 fd' = get_handle v fd'.
Proof.
  intros Hv Hp Hopen Hfd. assert (Hv1 : wf v1) by by eapply open_wf.
  apply vfs_open_spec in Hopen as [[-> _]|(k & old & i & rel & -> & Hold & Hfree & _ & _ & ->)]; [lia| |done..].
  apply lookup_lt_Some in Hold as Hlt. rewrite (wf_open_len v Hv) in Hlt.
  assert (Hother : ∀ h (fd' : Z), fd' ≠ Z.of_nat k →
    get_handle (set_open (<[k := h]> (open_table v)) v) fd' = get_handle v fd').
  { intros h fd' Hne. unfold get_handle. destruct (fd' <? 0) eqn:E1; [done|]. bool_prop.
    destruct (_ <=? _); [done|]. simpl. rewrite list_lookup_insert_ne; [done|]. intros ->. lia. }
  assert (Hnone : get_handle v (Z.of_nat k) = None).
  { unfold get_handle. rewrite Nat2Z.id, Hold. simpl. rewrite Hfree. by destruct (_ || _). }
  split; [done|]. split; [intros fd' Hne; by apply Hother|].
  set (h := {| h_used := true; h_mount := Some i; relative := rel |}) in *.
  unfold vfs_close. rewrite (proj2 (get_handle_Some _ (Z.of_nat k) h Hv1)).
  2:{ rewrite Nat2Z.id. split; [lia|]. split; [|done]. simpl. apply list_lookup_insert_eq.
      rewrite (wf_open_len v Hv). done. }
  eexists. split; [done|]. intros fd'. rewrite Nat2Z.id. simpl.
  assert (E : set_open (<[k := closed_handle]> (<[k := h]> (open_table v)))
                (set_open (<[k := h]> (open_table v)) v) =
              set_open (<[k := closed_handle]> (open_table v)) v)
    by (unfold set_open; simpl; by rewrite list_insert_insert_eq).
  rewrite E. destruct (decide (fd' = Z.of_nat k)) as [->|]; [|by apply Hother].
  rewrite Hnone. unfold get_handle. rewrite Nat2Z.id. simpl. rewrite list_lookup_insert_eq by (rewrite (wf_open_len v Hv); done).
  simpl. by destruct (_ || _).
Qed.

End spec.

(** ** A concrete configuration *)

(** A file system of one file whose bytes are the world. *)
Definition demo_fs : vfs_fs_ops (list Z) unit :=
  {| op_list := None; op_remove := None; op_mkdir := None;
     op_read := Some (fun w _ _ buffer => Some (Z.of_nat (length w), w ++ drop (length w) buffer, w));
     op_write := Some (fun w _ _ data _ => Some (0, default w data)) |}.

Definition demo0 : vfs (list Z) unit :=
  {| mount_table := replicate 8 {| m_used := false; mount_point := []; prefix_len := 0; m_ops := None; m_ctx := tt |};
     root_mount := None; mounts_initialized := false;
     alias_table := replicate 8 {| a_used := false; a_from := []; from_len := 0; a_to := [] |};
     open_table := replicate 32 closed_handle |}.

Definition demo_steps : list (vfs_op (W := list Z) (Ctx := unit)) :=
  [OpMount (lit "/") demo_fs tt; OpMount (lit "/Users/") demo_fs tt; OpAlias (lit "/home") (lit "/Users")].

(** Running operations one after the other. *)
Definition demo_run (v : vfs (list Z) unit) (os : list vfs_op) : vfs (list Z) unit :=
  foldl (fun v o => snd (vfs_exec v o)) v os.

Definition demo : vfs (list Z) unit := Eval vm_compute in demo_run demo0 demo_steps.

Lemma demo_run_steps v os : Forall wf_vfs_op os → vfs_steps v os (demo_run v os).
Proof.
  intros H. revert v. induction H as [|o os Ho H IH]; intros v; simpl; [constructor|].
  destruct (vfs_exec v o) as [rc v1] eqn:E. econstructor; [by constructor|]. apply IH.
Qed.

Lemma demo0_cleared : cleared demo0.
Proof. repeat split; try (apply Forall_replicate; done). Qed.

Lemma demo_steps_ok : vfs_steps demo0 demo_steps demo.
Proof. apply (demo_run_steps demo0 demo_steps). repeat constructor. Qed.

Lemma demo_wf : wf demo.
Proof. eapply steps_wf; [apply cleared_wf, demo0_cleared|exact demo_steps_ok]. Qed.

Lemma vfs_steps_wf_witness : wf demo ∧ root_mount demo = Some 0%nat.
Proof. split; [apply (vfs_steps_wf demo0 demo_steps demo demo0_cleared demo_steps_ok)|reflexivity]. Defined.

Lemma resolve_mount_longest_witness :
  resolve_mount (mount_table demo) (lit "/Users/bob") = Some (1%nat, lit "bob") ∧
  resolve_mount (mount_table demo) (lit "/UsersX") = Some (0%nat, lit "UsersX") ∧
  ∃ m rs, routes demo [lit "Users"; lit "bob"] 1 m rs ∧ lit "bob" = join rs.
Proof.
  split; [vm_compute; reflexivity|]. split; [vm_compute; reflexivity|].
  refine (proj1 (proj1 (resolve_mount_longest demo [lit "Users"; lit "bob"] demo_wf _ _) 1%nat (lit "bob")) _).
  - repeat constructor; vm_compute; try done; set_solver.
  - repeat constructor.
  - vm_compute. reflexivity.
Defined.

Lemma locate_confined_witness :
  locate demo (lit "/home/../../home/./bob") = Some (0%nat, lit "home/bob") ∧
  locate demo (lit "/home/./bob") = Some (1%nat, lit "bob") ∧
  ∃ m rs, routes demo (destination demo (lit "/home/./bob")) 1 m rs ∧ Forall plain rs ∧
    lit "bob" = join rs ∧ (length (lit "bob") < VFS_MAX_PATH)%nat.
Proof.
  split; [vm_compute; reflexivity|]. split; [vm_compute; reflexivity|].
  apply (locate_confined demo (lit "/home/./bob") 1 (lit "bob") demo_wf).
  - repeat constructor.
  - vm_compute. reflexivity.
Defined.

Definition demo_open : vfs (list Z) unit := Eval vm_compute in snd (vfs_open demo (Some (lit "/etc/motd"))).

Definition demo_shadow : list (vfs_op (W := list Z) (Ctx := unit)) :=
  [OpMount (lit "/etc") {| op_list := None; op_read := None; op_write := None; op_remove := None; op_mkdir := None |} tt;
   OpClose 5].

Lemma open_descriptor_stable_witness :
  vfs_read (demo_run demo_open demo_shadow) [1; 2] 0 (Some [7; 7; 7]) = Some (2, [1; 2; 7], [1; 2]) ∧
  vfs_read_path (demo_run demo_open demo_shadow) [1; 2] (Some (lit "/etc/motd")) (Some [7; 7; 7]) = Some (-1, [7; 7; 7], [1; 2]) ∧
  vfs_read (demo_run demo_open demo_shadow) [1; 2] 0 (Some [7; 7; 7]) =
    vfs_read_path demo [1; 2] (Some (lit "/etc/motd")) (Some [7; 7; 7]) ∧
  vfs_write (demo_run demo_open demo_shadow) [1; 2] 0 (Some [9]) =
    vfs_write_file demo [1; 2] (Some (lit "/etc/motd")) (Some [9]).
Proof.
  split; [vm_compute; reflexivity|]. split; [vm_compute; reflexivity|].
  apply (open_descriptor_stable demo (lit "/etc/motd") 0 demo_open demo_shadow); [exact demo_wf| | | | |].
  - repeat constructor.
  - vm_compute. reflexivity.
  - lia.
  - apply demo_run_steps. repeat constructor.
  - repeat constructor; done.
Defined.

Lemma open_close_restores_witness :
  vfs_open demo (Some (lit "/etc/motd")) = (0, demo_open) ∧
  ∃ v2, vfs_close demo_open 0 = (0, v2) ∧ ∀ fd', get_handle v2 fd' = get_handle demo fd'.
Proof.
  assert (E : vfs_open demo (Some (lit "/etc/motd")) = (0, demo_open)) by (vm_compute; reflexivity).
  split; [exact E|].
  refine (proj2 (proj2 (open_close_restores demo (lit "/etc/motd") 0 demo_open demo_wf _ E _))).
  - repeat constructor.
  - lia.
Defined.

End VfsSpec.
