(* ===== verification/VfsRamfs.v ===== *)
(** What the virtual file system promises to its callers, proved against an
    interface that a file system discharges, and its discharge by RAMFS.

    [AbstractFs] says that the operations in a mount's table implement the
    abstract file system of [RamfsSpec.v] on some part of the world.  The
    theorems about [vfs_write_file] and the others use only the interface; the
    instance for the adapters of [kernel/vfs.c] rests on the refinement of
    [kernel/ramfs.c].  The last part runs [vfs_init] and shows the tree the
    kernel boots with. *)

From S2P Require Import Prelude VfsPath Ramfs RamfsSpec Vfs VfsSpec.

Module VfsRamfs.

Import VfsPath Ramfs Vfs.

(** ** The interface *)

(** The operations that change a file system, at a relative path. *)
Inductive file_op := FWrite (data : option (list Z)) | FAppend (data : option (list Z)) | FRemove | FMkdir.

(** The same operation of the abstract file system. *)
Definition abstract_op (o : file_op) (rel : cstring) : RamfsSpec.op :=
  match o with
  | FWrite d => RamfsSpec.OWrite (Some rel) d
  | FAppend d => RamfsSpec.OAppend (Some rel) d
  | FRemove => RamfsSpec.ORemove (Some rel)
  | FMkdir => RamfsSpec.OMkdir (Some rel)
  end.

Section interface.
Context {W Ctx : Type}.

(** Call the operation of a table; -1 when the table has none. *)
Definition call_op (ops : vfs_fs_ops W Ctx) (ctx : Ctx) (w : W) (rel : cstring) (o : file_op) : option (Z * W) :=
  match o with
  | FWrite d => from_option (fun f => f w ctx rel d VFS_WRITE_REPLACE) (Some (-1, w)) (op_write ops)
  | FAppend d => from_option (fun f => f w ctx rel d VFS_WRITE_APPEND) (Some (-1, w)) (op_write ops)
  | FRemove => from_option (fun f => f w ctx rel) (Some (-1, w)) (op_remove ops)
  | FMkdir => from_option (fun f => f w ctx rel) (Some (-1, w)) (op_mkdir ops)
  end.

(** What a read of a file with these contents leaves in a buffer. *)
Definition read_result (c buffer : list Z) : Z * list Z :=
  let n := Nat.min (length c) (length buffer - 1) in
  (Z.of_nat n, take n c ++ 0 :: drop (S n) buffer).

Class AbstractFs (ops : vfs_fs_ops W Ctx) (ctx : Ctx) := {
  fs_inv : W → Prop;
  fs_abs : W → RamfsSpec.fs;
  fs_do w rel o :
    fs_inv w → RamfsSpec.wf_op (abstract_op o rel) →
    ∃ r w', call_op ops ctx w rel o = Some (r, w') ∧ fs_inv w' ∧
      RamfsSpec.spec_exec (fs_abs w) (abstract_op o rel) = (r, fs_abs w');
  fs_get w rel buffer :
    fs_inv w → wf_cstr rel → (0 < length buffer)%nat →
    ∃ f, op_read ops = Some f ∧
      f w ctx rel buffer =
        Some (match fs_abs w !! rel with
              | Some (RamfsSpec.File c) => read_result c buffer
              | _ => (-1, buffer)
              end, w)
}.

(** ** The client: the VFS entry points *)

(** The entry point of [kernel/vfs.c] for an operation. *)
Definition vfs_do (v : vfs W Ctx) (w : W) (path : cstring) (o : file_op) : option (Z * W) :=
  match o with
  | FWrite d => vfs_write_file v w (Some path) d
  | FAppend d => vfs_append v w (Some path) d
  | FRemove => vfs_remove v w (Some path)
  | FMkdir => vfs_mkdir v w (Some path)
  end.

Lemma vfs_do_call v w path o i rel m ops :
  locate v path = Some (i, rel) → VfsSpec.mounted (mount_table v) i m → m_ops m = Some ops →
  vfs_do v w path o = call_op ops (m_ctx m) w rel o.
Proof.
  intros Hl Hm Hops. destruct o;
    unfold vfs_do, call_op, vfs_write_file, vfs_append, vfs_write_internal, vfs_remove, vfs_mkdir, dispatch;
    rewrite Hl, (VfsSpec.mount_op_mounted v i m _ Hm), Hops; simpl.
  - by destruct (op_write ops).
  - by destruct (op_write ops).
  - by destruct (op_remove ops).
  - by destruct (op_mkdir ops).
Qed.

(** The VFS is the abstract file system of the mount.  When a path leads to
    a mount whose table implements the interface, every write, append, removal
    or directory creation through the VFS completes, returns to the caller what
    the abstract operation returns on the path relative to the mount, and leaves
    the mounted file system in the abstract operation's state. *)
Theorem vfs_do_refines v w path o i rel m ops `{!AbstractFs ops (m_ctx m)} :
  locate v path = Some (i, rel) → VfsSpec.mounted (mount_table v) i m → m_ops m = Some ops →
  fs_inv w → RamfsSpec.wf_op (abstract_op o rel) →
  ∃ r w', vfs_do v w path o = Some (r, w') ∧ fs_inv w' ∧
    RamfsSpec.spec_exec (fs_abs w) (abstract_op o rel) = (r, fs_abs w').
Proof.
  intros Hl Hm Hops Hinv Hwf. rewrite (vfs_do_call v w path o i rel m ops) by done. by apply fs_do.
Qed.

(** What is written through the VFS is what is read back.  After
    [vfs_write_file] of some bytes to a path that leads to such a mount reports
    success, [vfs_read_path] of any path that leads to the same place, and
    through any alias, returns the bytes written, cut to 1023 and to the
    caller's buffer, with a terminator. *)
Theorem vfs_write_read v w path path' bytes r w' i rel m ops buffer `{!AbstractFs ops (m_ctx m)} :
  locate v path = Some (i, rel) → locate v path' = Some (i, rel) →
  VfsSpec.mounted (mount_table v) i m → m_ops m = Some ops →
  fs_inv w → wf_cstr rel → (0 < length buffer)%nat →
  vfs_write_file v w (Some path) (Some bytes) = Some (r, w') → 0 ≤ r →
  r = Z.of_nat (Nat.min (length bytes) 1023) ∧
  vfs_read_path v w' (Some path') (Some buffer) = Some (read_result (take 1023 bytes) buffer, w').
Proof.
  intros Hl Hl' Hm Hops Hinv Hrel Hbuf Hw Hr.
  change (vfs_write_file v w (Some path) (Some bytes)) with (vfs_do v w path (FWrite (Some bytes))) in Hw.
  rewrite (vfs_do_call v w path _ i rel m ops) in Hw by done.
  destruct (fs_do w rel (FWrite (Some bytes)) Hinv) as (r1 & w1 & E & Hinv1 & Hs); [done|].
  rewrite Hw in E. injection E as <- <-. simpl in Hs. unfold RamfsSpec.spec_write in Hs.
  destruct (RamfsSpec.spec_create _ _ _) as [m'|]; [|injection Hs as <- _; lia].
  simpl in Hs. apply pair_eq in Hs as [<- Habs]. rewrite length_take, Nat.min_comm. split; [done|].
  destruct (fs_get w' rel buffer Hinv1 Hrel Hbuf) as (f & Hf & Hread).
  unfold vfs_read_path. rewrite (proj2 (Nat.eqb_neq _ 0)) by lia. unfold dispatch.
  rewrite Hl', (VfsSpec.mount_op_mounted v i m _ Hm), Hops. simpl. rewrite Hf. simpl.
  rewrite Hread, <- Habs, lookup_insert_eq. done.
Qed.

End interface.

(** ** RAMFS discharges the interface *)

Section ramfs.
Context {W Ctx : Type} `{!HasRamfs W Ctx}.

Lemma get_set_volume id volume w j :
  get_volume (set_volume id volume w) j = if decide (j = id) then volume else get_volume w j.
Proof. unfold get_volume, set_volume. by rewrite ramfs_of_with. Qed.

(** An adapter that runs a volume operation, empty paths being refused by both. *)
Lemma on_volume_refines id w (o : RamfsSpec.op) :
  RamfsSpec.wf (get_volume w id) → RamfsSpec.wf_op o →
  ∃ r w', on_volume (fun volume => RamfsSpec.exec volume o) w (volume_ctx id) = Some (r, w') ∧
    RamfsSpec.wf (get_volume w' id) ∧
    RamfsSpec.spec_exec (RamfsSpec.abs (get_volume w id)) o = (r, RamfsSpec.abs (get_volume w' id)) ∧
    ∀ j, j ≠ id → get_volume w' j = get_volume w j.
Proof.
  intros Hw Ho. destruct (RamfsSpec.exec_refines _ o Hw Ho) as (r & volume & E & Hv & Hs).
  exists r, (set_volume id volume w). unfold on_volume. rewrite as_volume_ctx, E. simpl.
  rewrite get_set_volume, decide_True by done. split_and!; [done..|].
  intros j Hj. by rewrite get_set_volume, decide_False.
Qed.

Lemma empty_path_refused (m : RamfsSpec.fs) o :
  RamfsSpec.op_path o = Some [] → RamfsSpec.spec_exec m o = (-1, m).
Proof.
  destruct o as [n b|n b|n|n]; simpl; intros ->; try done.
  destruct b as [b|]; [|done]. unfold RamfsSpec.spec_append. by case_match.
Qed.

(** Everything an adapter does, on every branch. *)
Lemma ramfs_call_refines id w rel o :
  RamfsSpec.wf (get_volume w id) → RamfsSpec.wf_op (abstract_op o rel) →
  ∃ r w', call_op ramfs_ops (volume_ctx id) w rel o = Some (r, w') ∧
    RamfsSpec.wf (get_volume w' id) ∧
    RamfsSpec.spec_exec (RamfsSpec.abs (get_volume w id)) (abstract_op o rel) =
      (r, RamfsSpec.abs (get_volume w' id)) ∧
    ∀ j, j ≠ id → get_volume w' j = get_volume w j.
Proof.
  intros Hw Ho. destruct (decide (char0 rel = 0)) as [E|E].
  - assert (Hrel : rel = []).
    { destruct rel as [|c rel]; [done|]. simpl in E. destruct o as [d|d| |]; simpl in Ho;
        try destruct Ho as [Ho _]; apply Forall_inv in Ho; lia. }
    subst rel. exists (-1), w.
    rewrite empty_path_refused by (by destruct o). destruct o; done.
  - assert (Hc : call_op ramfs_ops (volume_ctx id) w rel o =
                 on_volume (fun volume => RamfsSpec.exec volume (abstract_op o rel)) w (volume_ctx id)).
    { apply Z.eqb_neq in E. destruct o; simpl;
        unfold ramfs_write_adapter, ramfs_remove_adapter, ramfs_mkdir_adapter; rewrite E; done. }
    rewrite Hc. by apply on_volume_refines.
Qed.

#[export] Program Instance ramfs_abstract_fs (id : volume_id) : AbstractFs ramfs_ops (volume_ctx id) := {
  fs_inv w := RamfsSpec.wf (get_volume w id);
  fs_abs w := RamfsSpec.abs (get_volume w id)
}.
Next Obligation.
  intros id w rel o Hw Ho. destruct (ramfs_call_refines id w rel o Hw Ho) as (r & w' & ? & ? & ? & _). eauto.
Qed.
Next Obligation.
  intros id w rel buffer Hw Hrel Hbuf. exists ramfs_read_adapter. split; [done|].
  unfold ramfs_read_adapter. rewrite as_volume_ctx. destruct rel as [|c rel].
  - simpl. destruct (RamfsSpec.abs (get_volume w id) !! []) as [n|] eqn:E; [|done].
    apply RamfsSpec.abs_lookup in E as (i & e & He & Hn & _); [|done].
    destruct (RamfsSpec.used_wf _ i e Hw He) as [Hval _]. by rewrite Hn in Hval.
  - apply Forall_cons in Hrel as Hc. destruct Hc as [Hc _]. cbn [char0]. rewrite (proj2 (Z.eqb_neq c 0)) by lia.
    rewrite RamfsSpec.read_spec by done. by destruct (RamfsSpec.abs _ !! _) as [[]|].
Qed.

(** File systems are isolated.  A write, append, removal or directory
    creation on a path served by a RAMFS mount completes, changes no volume other
    than the mounted one, and in it no node other than the one the path names
    and, for a removal, those below it. *)
Theorem vfs_ramfs_isolated v w path o i rel m id q :
  VfsSpec.wf v → wf_cstr path → locate v path = Some (i, rel) →
  VfsSpec.mounted (mount_table v) i m → m_ops m = Some ramfs_ops → m_ctx m = volume_ctx id →
  RamfsSpec.wf (get_volume w id) → RamfsSpec.wf_op (abstract_op o rel) →
  ∃ r w', vfs_do v w path o = Some (r, w') ∧ RamfsSpec.wf (get_volume w' id) ∧
    (∀ j, j ≠ id → get_volume w' j = get_volume w j) ∧
    (q ≠ rel → ¬ RamfsSpec.below rel q →
     RamfsSpec.abs (get_volume w' id) !! q = RamfsSpec.abs (get_volume w id) !! q).
Proof.
  intros Hv Hp Hl Hm Hops Hctx Hw Ho. rewrite (vfs_do_call v w path o i rel m ramfs_ops), Hctx by done.
  destruct (ramfs_call_refines id w rel o Hw Ho) as (r & w' & E & Hw' & Hs & Hj).
  exists r, w'. split_and!; [done..|]. intros Hq Hb.
  assert (Hop : RamfsSpec.op_path (abstract_op o rel) = Some rel) by by destruct o.
  rewrite <- (RamfsSpec.spec_exec_frame (RamfsSpec.abs (get_volume w id)) _ _ _ Hop Hq Hb). by rewrite Hs.
Qed.

(** ** One name space *)

(** The world as a caller of the VFS sees it: for every volume a map from paths to
    directories and files. *)
Abbreviation volumes_abs := (volume_id → RamfsSpec.fs).

(** What a caller asks for. *)
Inductive vfs_call := CDo (path : cstring) (o : file_op) | CRead (path : cstring) (buffer : list Z).

Definition call_path (c : vfs_call) : cstring := match c with CDo path _ | CRead path _ => path end.

Definition vfs_exec_call (v : vfs W Ctx) (c : vfs_call) (w : W) : option (Z * list Z * W) :=
  match c with
  | CDo path o => '(r, w) ← vfs_do v w path o; Some (r, [], w)
  | CRead path buffer => vfs_read_path v w (Some path) (Some buffer)
  end.

Fixpoint vfs_run (v : vfs W Ctx) (cs : list vfs_call) (w : W) : option (list (Z * list Z) * W) :=
  match cs with
  | [] => Some ([], w)
  | c :: cs' => '(r, out, w) ← vfs_exec_call v c w; '(rs, w) ← vfs_run v cs' w; Some ((r, out) :: rs, w)
  end.

(** The paths that are accepted, once their alias is expanded: absolute, never deeper than
    32 directories, and not too long when they are spelled canonically. *)
Definition accepted (v : vfs W Ctx) (path : cstring) : Prop :=
  let effective := apply_alias (alias_table v) path VFS_MAX_PATH in
  char0 effective = slash ∧ shallow effective ∧ (length (spell (VfsSpec.destination v path)) < VFS_MAX_PATH)%nat.

(** What a path names: the volume on the longest mount point above the place it leads to,
    and the rest of the way there. *)
Inductive names (v : vfs W Ctx) (path : cstring) : option (volume_id * cstring) → Prop :=
| names_place i m rs id : accepted v path → VfsSpec.routes v (VfsSpec.destination v path) i m rs → m_ctx m = volume_ctx id →
    names v path (Some (id, VfsSpec.join rs))
| names_nothing : ¬ (accepted v path ∧ ∃ i m rs, VfsSpec.routes v (VfsSpec.destination v path) i m rs) → names v path None.

(** A call on the abstract volumes: only the volume that the path names changes, as the
    abstract file system says; a path that names nothing is refused. *)
Inductive a_call (v : vfs W Ctx) : vfs_call → volumes_abs → Z * list Z → volumes_abs → Prop :=
| a_do path o F F' id rel : names v path (Some (id, rel)) →
    (∀ j, F' j = if decide (j = id) then (RamfsSpec.spec_exec (F id) (abstract_op o rel)).2 else F j) →
    a_call v (CDo path o) F ((RamfsSpec.spec_exec (F id) (abstract_op o rel)).1, []) F'
| a_read path buffer F F' id rel : names v path (Some (id, rel)) → (∀ j, F' j = F j) →
    a_call v (CRead path buffer) F
      (match F id !! rel with Some (RamfsSpec.File c) => read_result c buffer | _ => (-1, buffer) end) F'
| a_do_refused path o F F' : names v path None → (∀ j, F' j = F j) → a_call v (CDo path o) F (-1, []) F'
| a_read_refused path buffer F F' : names v path None → (∀ j, F' j = F j) → a_call v (CRead path buffer) F (-1, buffer) F'.

Inductive a_calls (v : vfs W Ctx) : list vfs_call → volumes_abs → list (Z * list Z) → volumes_abs → Prop :=
| a_calls_nil F : a_calls v [] F [] F
| a_calls_cons c cs F r F1 rs F2 : a_call v c F r F1 → a_calls v cs F1 rs F2 → a_calls v (c :: cs) F (r :: rs) F2.

(** The calls of the theorem: strings without a NUL, a place for the terminator of what is
    read, appended bytes that do not overflow the size, and a path that does not lead into
    a mount of another kind. *)
Definition ramfs_path (v : vfs W Ctx) (path : cstring) : Prop :=
  ∀ i m rs, VfsSpec.routes v (VfsSpec.destination v path) i m rs → m_ops m = Some ramfs_ops ∧ ∃ id, m_ctx m = volume_ctx id.

Definition call_ok (v : vfs W Ctx) (c : vfs_call) : Prop :=
  wf_cstr (call_path c) ∧ ramfs_path v (call_path c) ∧
  match c with
  | CDo _ (FAppend d) => Z.of_nat (length (default [] d)) < 4294967296 - 1024
  | CDo _ _ => True
  | CRead _ buffer => (0 < length buffer)%nat
  end.

Definition volumes_ok (w : W) : Prop := ∀ id, RamfsSpec.wf (get_volume w id).
Definition volumes_of (w : W) : volumes_abs := fun id => RamfsSpec.abs (get_volume w id).

(** The lookup of a path, on both sides. *)
Lemma locate_names v path :
  VfsSpec.wf v → wf_cstr path → ramfs_path v path →
  match locate v path with
  | Some (i, rel) => ∃ m id, VfsSpec.mounted (mount_table v) i m ∧ m_ops m = Some ramfs_ops ∧ m_ctx m = volume_ctx id ∧
      wf_cstr rel ∧ names v path (Some (id, rel))
  | None => names v path None
  end.
Proof.
  intros Hv Hp Hr. pose proof (VfsSpec.destination_plain v path) as Hpl. pose proof (VfsSpec.destination_wf v path Hv Hp) as Hwf.
  destruct (VfsSpec.resolve_mount_longest v _ Hv Hpl Hwf) as [Hsome Hnone].
  destruct (locate v path) as [[i rel]|] eqn:E; unfold locate in E.
  - apply bind_Some in E as (norm & (_ & H0 & Hsh & -> & Hlen)%normalize_spec & E). fold (VfsSpec.destination v path) in *.
    apply Hsome in E as (m & rs & Hro & ->). destruct (Hr i m rs Hro) as (Hops & id & Hid).
    exists m, id. split; [apply Hro|]. split; [done|]. split; [done|]. split; [exact (VfsSpec.routes_wf v path i m rs Hv Hp Hro)|]. by eapply names_place.
  - apply names_nothing. intros ((H0 & Hsh & Hlen) & i & m & rs & Hro).
    assert (En : normalize_path (Some (apply_alias (alias_table v) path VFS_MAX_PATH)) VFS_MAX_PATH = Some (spell (VfsSpec.destination v path))).
    { apply normalize_spec. split; [unfold VFS_MAX_PATH; lia|]. done. }
    rewrite En in E. cbn [mbind option_bind] in E. rewrite (proj2 (Hsome i (VfsSpec.join rs))) in E by eauto. done.
Qed.

Lemma vfs_do_nowhere (v : vfs W Ctx) w path o : locate v path = None → vfs_do v w path o = Some (-1, w).
Proof. intros E. destruct o; unfold vfs_do, vfs_write_file, vfs_append, vfs_write_internal, vfs_remove, vfs_mkdir, dispatch; by rewrite E. Qed.

Lemma call_wf_op path o rel v : call_ok v (CDo path o) → wf_cstr rel → RamfsSpec.wf_op (abstract_op o rel).
Proof. intros (_ & _ & Ho) Hrel. by destruct o. Qed.

Lemma exec_call_refines v w c :
  VfsSpec.wf v → volumes_ok w → call_ok v c →
  ∃ r out w', vfs_exec_call v c w = Some (r, out, w') ∧ volumes_ok w' ∧ a_call v c (volumes_of w) (r, out) (volumes_of w').
Proof.
  intros Hv Hw Hc. destruct (Hc) as (Hp & Hr & Hx). pose proof (locate_names v _ Hv Hp Hr) as Hl.
  destruct c as [path o|path buffer]; cbn [vfs_exec_call call_path] in *; destruct (locate v path) as [[i rel]|] eqn:E.
  - destruct Hl as (m & id & Hm & Hops & Hctx & Hrel & Hn). rewrite (vfs_do_call v w path o i rel m ramfs_ops), Hctx by done.
    destruct (ramfs_call_refines id w rel o (Hw id) (call_wf_op _ _ _ _ Hc Hrel)) as (r & w' & -> & Hw' & Hs & Hj).
    cbn [mbind option_bind]. exists r, [], w'. split; [done|]. split.
    + intros j. destruct (decide (j = id)) as [->|Hne]; [done|]. rewrite Hj by done. apply Hw.
    + replace r with (RamfsSpec.spec_exec (volumes_of w id) (abstract_op o rel)).1 by (unfold volumes_of; by rewrite Hs).
      apply a_do; [done|]. intros j. unfold volumes_of. rewrite Hs. case_decide; [by subst|]. by rewrite Hj.
  - rewrite vfs_do_nowhere by done. cbn [mbind option_bind]. exists (-1), [], w. split; [done|]. split; [done|]. by apply a_do_refused.
  - destruct Hl as (m & id & Hm & Hops & Hctx & Hrel & Hn). unfold vfs_read_path. rewrite (proj2 (Nat.eqb_neq _ 0)) by lia.
    unfold dispatch. rewrite E, (VfsSpec.mount_op_mounted v i m _ Hm), Hops. cbn [mbind option_bind].
    destruct (fs_get (AbstractFs := ramfs_abstract_fs id) w rel buffer (Hw id) Hrel Hx) as (f & Hf & Hread). rewrite Hf, Hctx.
    cbn [mbind option_bind]. rewrite Hread. destruct (match fs_abs w !! rel with Some (RamfsSpec.File _) => _ | _ => _ end) as [r out] eqn:Er.
    exists r, out, w. split; [done|]. split; [done|]. rewrite <- Er. by apply (a_read v path buffer (volumes_of w) (volumes_of w) id rel Hn).
  - unfold vfs_read_path. rewrite (proj2 (Nat.eqb_neq _ 0)) by lia. unfold dispatch. rewrite E.
    exists (-1), buffer, w. split; [done|]. split; [done|]. by apply a_read_refused.
Qed.

(** C39: the VFS over RAM file systems is one name space.  Any sequence of writes, appends,
    removals, directory creations and reads, with any paths that do not lead into a mount
    of another kind, completes and does what the abstract volumes say: a path whose alias
    has been expanded and that is absolute, at most 32 directories deep and short enough
    names, on the volume of the longest mount point above the place it leads to, the rest
    of the way there; the operation has the result of the abstract file system there and
    changes that volume as the abstract operation does and no other, a read gives the
    contents cut to the buffer with a terminator; any other path gives -1 and changes
    nothing. *)
Theorem vfs_namespace_refines v w cs :
  VfsSpec.wf v → volumes_ok w → Forall (call_ok v) cs →
  ∃ rs w', vfs_run v cs w = Some (rs, w') ∧ volumes_ok w' ∧ a_calls v cs (volumes_of w) rs (volumes_of w').
Proof.
  intros Hv Hw Hc. revert w Hw. induction Hc as [|c cs Hc _ IH]; intros w Hw; [exists [], w; split_and!; [done..|constructor]|].
  destruct (exec_call_refines v w c Hv Hw Hc) as (r & out & w1 & E & Hw1 & Ha). destruct (IH w1 Hw1) as (rs & w2 & E2 & Hw2 & Ha2).
  exists ((r, out) :: rs), w2. cbn [vfs_run]. rewrite E. cbn [mbind option_bind]. rewrite E2. split; [done|]. split; [done|]. by econstructor.
Qed.

(** ** Booting *)

Lemma clear_mounts mounts :
  clear_mount (W := W) (Ctx := Ctx) <$> mounts =
  replicate (length mounts) {| m_used := false; mount_point := []; prefix_len := 0; m_ops := None; m_ctx := null_ctx |}.
Proof. induction mounts as [|m mounts IH]; [done|]. simpl. f_equal. exact IH. Qed.

(** Making a directory of the root volume completes, whatever the volume holds. *)
Lemma add_root_directory_ok w name :
  RamfsSpec.wf (get_volume w RootVolume) → root_ready (ramfs_of w) = true → wf_cstr name →
  ∃ w', add_root_directory w name = Some w' ∧ RamfsSpec.wf (get_volume w' RootVolume) ∧
    root_ready (ramfs_of w') = true ∧ ∀ j, j ≠ RootVolume → get_volume w' j = get_volume w j.
Proof.
  intros Hw Hr Hn. unfold add_root_directory, root_world, ramfs_root_volume.
  cbn [root_initialized root_volume]. rewrite Hr.
  set (w0 := with_ramfs _ w).
  assert (H0 : ∀ j, get_volume w0 j = get_volume w j).
  { intros j. unfold w0, get_volume. rewrite ramfs_of_with. simpl. by case_decide; subst. }
  assert (Hr0 : root_ready (ramfs_of w0) = true) by (unfold w0; by rewrite ramfs_of_with).
  clearbody w0. rewrite (H0 RootVolume).
  destruct (RamfsSpec.mkdir_refines _ name Hw Hn) as (rc & v1 & -> & Hv1 & _). cbn [mbind option_bind].
  assert (Hset : ∀ v2 w2, RamfsSpec.wf v2 → root_ready (ramfs_of w2) = true →
    (∀ j, j ≠ RootVolume → get_volume w2 j = get_volume w j) →
    let w3 := set_volume RootVolume v2 w2 in
    RamfsSpec.wf (get_volume w3 RootVolume) ∧ root_ready (ramfs_of w3) = true ∧
    ∀ j, j ≠ RootVolume → get_volume w3 j = get_volume w j).
  { intros v2 w2 Hv2 Hr2 Hj w3. unfold w3. rewrite get_set_volume, decide_True by done. split_and!; [done| |].
    - unfold set_volume. by rewrite ramfs_of_with.
    - intros j Hne. rewrite get_set_volume, decide_False by done. auto. }
  destruct (Hset v1 w0 Hv1 Hr0) as (Ha & Hb & Hc); [auto|].
  destruct (rc <? 0); [|eauto].
  destruct (RamfsSpec.write_refines _ name None Ha Hn) as (rc2 & v2 & -> & Hv2 & _). cbn [mbind option_bind].
  eexists. split; [done|]. by apply Hset.
Qed.

Lemma add_root_directories_ok w names :
  RamfsSpec.wf (get_volume w RootVolume) → root_ready (ramfs_of w) = true → Forall wf_cstr names →
  ∃ w', add_root_directories w names = Some w' ∧ RamfsSpec.wf (get_volume w' RootVolume) ∧
    ∀ j, j ≠ RootVolume → get_volume w' j = get_volume w j.
Proof.
  intros Hw Hr Hn. revert w Hw Hr. induction Hn as [|n names Hn Hns IH]; intros w Hw Hr; simpl; [eauto|].
  destruct (add_root_directory_ok w n Hw Hr Hn) as (w1 & -> & Hw1 & Hr1 & Hj1). simpl.
  destruct (IH w1 Hw1 Hr1) as (w2 & -> & Hw2 & Hj2). exists w2. split_and!; [done..|].
  intros j Hj. rewrite Hj2 by done. auto.
Qed.

(** *** The boot theorem *)

Section boot.
Context (devicefs_ops : vfs_fs_ops W Ctx) (reset_data_entries : W → W).
Context (klog_enable_proc_sink debug_publish_memory_info : vfs W Ctx → W → option W).

(** The other components only have to return, and to leave the RAMFS volumes to
    the file system while it is set up. *)
Hypothesis reset_keeps : ∀ w, ramfs_of (reset_data_entries w) = ramfs_of w.
Hypothesis devicefs_returns : ∀ f, op_write devicefs_ops = Some f → ∀ w ctx p d mode, is_Some (f w ctx p d mode).
Hypothesis klog_returns : ∀ v w, is_Some (klog_enable_proc_sink v w).
Hypothesis debug_returns : ∀ v w, is_Some (debug_publish_memory_info v w).

Local Abbreviation boot := (vfs_init devicefs_ops reset_data_entries klog_enable_proc_sink debug_publish_memory_info).

(** The tables as static storage and the compiler leave them: of their declared
    sizes, no root mount; the volumes of their declared shapes. *)
Definition boot_tables (v : vfs W Ctx) : Prop :=
  length (mount_table v) = VFS_MAX_MOUNTS ∧ length (open_table v) = VFS_MAX_OPEN_FILES ∧
  length (alias_table v) = VFS_MAX_ALIASES ∧ root_mount v = None ∧ mounts_initialized v = false.

Definition shaped (volume : ramfs_volume) : Prop :=
  length volume = RAMFS_MAX_FILES ∧ Forall (fun e => length (data e) = RAMFS_MAX_FILE_SIZE) volume.

Lemma shaped_init volume : shaped volume → RamfsSpec.wf (ramfs_volume_init volume) ∧ shaped (ramfs_volume_init volume).
Proof.
  intros [Hl Hd]. split; [by apply RamfsSpec.init_wf|]. unfold ramfs_volume_init, shaped.
  rewrite length_fmap. split; [done|]. apply Forall_fmap. eapply Forall_impl; [exact Hd|].
  intros e He. simpl. by rewrite length_insert.
Qed.

(** The tables after the root mount and the resets. *)
Definition mounted_slot (point : cstring) (ops : vfs_fs_ops W Ctx) (ctx : Ctx) : vfs_mount W Ctx :=
  {| m_used := true; mount_point := point; prefix_len := length point; m_ops := Some ops; m_ctx := ctx |}.

Definition free_slot : vfs_mount W Ctx :=
  {| m_used := false; mount_point := []; prefix_len := 0; m_ops := None; m_ctx := null_ctx |}.

Definition boot_mounts : list (vfs_mount W Ctx) :=
  [mounted_slot (lit "/") ramfs_ops (volume_ctx RootVolume);
   mounted_slot (lit "/System") ramfs_ops (volume_ctx SystemVolume);
   mounted_slot (lit "/Volumes") ramfs_ops (volume_ctx VolumesVolume);
   mounted_slot (lit "/Users") ramfs_ops (volume_ctx UsersVolume);
   mounted_slot (lit "/Apps") ramfs_ops (volume_ctx AppsVolume);
   mounted_slot (lit "/Temp") ramfs_ops (volume_ctx TempVolume);
   mounted_slot (lit "/Devices") devicefs_ops null_ctx;
   free_slot].

Definition boot_vfs (mounts : list (vfs_mount W Ctx)) (root : option nat) (ready : bool) : vfs W Ctx :=
  {| mount_table := mounts; root_mount := root; mounts_initialized := ready;
     alias_table := replicate VFS_MAX_ALIASES {| a_used := false; a_from := []; from_len := 0; a_to := [] |};
     open_table := replicate VFS_MAX_OPEN_FILES closed_handle |}.

Lemma mount_root_boot v :
  mount_table v = replicate 8 free_slot → root_mount v = None →
  vfs_mount_ v (Some (lit "/")) (Some ramfs_ops) (volume_ctx RootVolume) =
  (0, set_mounts (mounted_slot (lit "/") ramfs_ops (volume_ctx RootVolume) :: replicate 7 free_slot) (Some 0%nat) v).
Proof.
  intros Hm Hr. generalize (ramfs_ops : vfs_fs_ops W Ctx) as ops, (volume_ctx RootVolume) as ctx.
  intros ops ctx. unfold vfs_mount_. rewrite Hm. reflexivity.
Qed.

Definition root_only (ready : bool) : vfs W Ctx :=
  boot_vfs (mounted_slot (lit "/") ramfs_ops (volume_ctx RootVolume) :: replicate 7 free_slot) (Some 0%nat) ready.

Lemma boot_vfs_mounts ready :
  vfs_mount_ (mount_volumes (root_only ready)) (Some (lit "/Devices")) (Some devicefs_ops) null_ctx =
  (0, boot_vfs boot_mounts (Some 0%nat) ready).
Proof.
  unfold mount_volumes, mount_volume, boot_mounts, root_only. generalize (ramfs_ops : vfs_fs_ops W Ctx) as ops.
  generalize (volume_ctx (W := W) (Ctx := Ctx)) as ctx. generalize (null_ctx : Ctx) as null.
  intros null ctx ops. vm_compute. reflexivity.
Qed.

Lemma const_fmap {A B} (y : B) (l : list A) : (fun _ => y) <$> l = replicate (length l) y.
Proof. induction l as [|x l IH]; [done|]. simpl. f_equal. exact IH. Qed.

(** The volumes are initialised, whatever they held. *)
Lemma init_volumes_system w :
  (∀ id, id ≠ RootVolume → shaped (get_volume w id)) →
  RamfsSpec.wf (get_volume (init_volumes w) SystemVolume).
Proof.
  intros Hs. unfold init_volumes, init_volume.
  repeat (rewrite get_set_volume; rewrite decide_False by done).
  rewrite get_set_volume, decide_True by done. by apply shaped_init, Hs.
Qed.

(** A path below [/System] or [/Devices] of the booted tree. *)
Lemma boot_locate ready :
  locate (boot_vfs boot_mounts (Some 0%nat) ready) (lit "/System/version") = Some (1%nat, lit "version") ∧
  locate (boot_vfs boot_mounts (Some 0%nat) ready) (lit "/Devices/Null") = Some (6%nat, lit "Null").
Proof.
  unfold boot_mounts. generalize (ramfs_ops : vfs_fs_ops W Ctx) as ops. intros ops.
  split; vm_compute; reflexivity.
Qed.

Lemma boot_writes w :
  RamfsSpec.wf (get_volume w SystemVolume) →
  ∃ r1 w1 r2 w2,
    vfs_write_file (boot_vfs boot_mounts (Some 0%nat) false) w (Some (lit "/System/version")) (Some version) = Some (r1, w1) ∧
    vfs_write_file (boot_vfs boot_mounts (Some 0%nat) false) w1 (Some (lit "/Devices/Null")) (Some []) = Some (r2, w2).
Proof.
  intros Hw. destruct (boot_locate false) as [H1 H2].
  destruct (ramfs_call_refines SystemVolume w (lit "version") (FWrite (Some version)) Hw) as (r1 & w1 & E & _).
  { change (wf_cstr (lit "version")). by_eval. }
  exists r1, w1.
  assert (E2 : ∃ p, vfs_write_file (boot_vfs boot_mounts (Some 0%nat) false) w1 (Some (lit "/Devices/Null")) (Some []) = Some p).
  { unfold vfs_write_file, vfs_write_internal, dispatch. rewrite H2.
    unfold mount_op. cbn [boot_vfs mount_table boot_mounts lookup list_lookup mbind option_bind mounted_slot m_ops m_ctx].
    destruct (op_write devicefs_ops) as [f|] eqn:Ef; cbn [mbind option_bind]; [|eauto].
    destruct (devicefs_returns f eq_refl w1 null_ctx (lit "Null") (Some []) VFS_WRITE_REPLACE). eauto. }
  destruct E2 as [[r2 w2] E2]. exists r2, w2. split; [|done].
  rewrite <- E. exact (vfs_do_call (boot_vfs boot_mounts (Some 0%nat) false) w (lit "/System/version")
    (FWrite (Some version)) 1 (lit "version") (mounted_slot (lit "/System") ramfs_ops (volume_ctx SystemVolume))
    ramfs_ops H1 (conj eq_refl eq_refl) eq_refl).
Qed.

Lemma mount_volume_wf point id v : VfsSpec.wf v → wf_cstr (lit point) → VfsSpec.wf (mount_volume point id v).
Proof.
  intros Hv Hp. unfold mount_volume. destruct (vfs_mount_ _ _ _ _) as [rc v'] eqn:E. by eapply VfsSpec.mount_wf.
Qed.

Lemma boot_vfs_wf ready : VfsSpec.wf (boot_vfs boot_mounts (Some 0%nat) ready).
Proof.
  eapply (VfsSpec.mount_wf _ (lit "/Devices") devicefs_ops null_ctx 0); [|by_eval|apply boot_vfs_mounts].
  unfold mount_volumes. do 5 (apply mount_volume_wf; [|by_eval]).
  apply (VfsSpec.mount_wf (boot_vfs (replicate 8 free_slot) None ready) (lit "/") ramfs_ops (volume_ctx RootVolume) 0).
  - apply VfsSpec.cleared_wf. split_and!; try done; by apply Forall_replicate.
  - by_eval.
  - by rewrite mount_root_boot.
Qed.

Lemma prepare_boots w :
  RamfsSpec.wf (get_volume w RootVolume) → root_ready (ramfs_of w) = true →
  (∀ id, id ≠ RootVolume → shaped (get_volume w id)) →
  ∃ w', vfs_prepare_virtual_fs devicefs_ops reset_data_entries klog_enable_proc_sink debug_publish_memory_info
          (root_only false) w = Some (boot_vfs boot_mounts (Some 0%nat) false, w').
Proof.
  intros Hw Hr Hs. unfold vfs_prepare_virtual_fs.
  destruct (add_root_directories_ok w top_level Hw Hr) as (w1 & -> & _ & Hj1); [by_eval|].
  cbn [mbind option_bind]. unfold devicefs_mount. rewrite boot_vfs_mounts.
  set (w2 := reset_data_entries _).
  assert (Hw2 : RamfsSpec.wf (get_volume w2 SystemVolume)).
  { unfold w2, get_volume. rewrite reset_keeps. apply init_volumes_system.
    intros id Hid. rewrite Hj1 by done. auto. }
  destruct (boot_writes w2 Hw2) as (r3 & w3 & r4 & w4 & E3 & E4).
  rewrite E3. cbn [mbind option_bind]. rewrite E4. cbn [mbind option_bind].
  destruct (klog_returns (boot_vfs boot_mounts (Some 0%nat) false) w4) as [w5 ->]. cbn [mbind option_bind].
  destruct (debug_returns (boot_vfs boot_mounts (Some 0%nat) false) w5) as [w6 ->]. eauto.
Qed.

(** The root volume after [ramfs_init] and [ramfs_root_volume]. *)
Lemma root_world_ready w : root_ready (ramfs_of w) = true →
  root_ready (ramfs_of (root_world w)) = true ∧ ∀ id, get_volume (root_world w) id = get_volume w id.
Proof.
  intros Hr. unfold root_world, ramfs_root_volume, get_volume. simpl. rewrite Hr, ramfs_of_with. simpl.
  split; [done|]. intros id. by case_decide; subst.
Qed.

Lemma root_world_shaped w : (∀ id, shaped (get_volume w id)) →
  root_ready (ramfs_of (root_world w)) = true ∧ ∀ id, shaped (get_volume (root_world w) id).
Proof.
  intros Hs. destruct (root_ready (ramfs_of w)) eqn:Hr.
  { destruct (root_world_ready w Hr) as [H1 H2]. split; [done|]. intros id. by rewrite H2. }
  unfold root_world, ramfs_root_volume. cbn [root_initialized root_volume]. rewrite Hr.
  cbn [root_initialized root_volume]. split; [by rewrite ramfs_of_with|]. intros id. unfold get_volume at 1.
  rewrite ramfs_of_with. cbn [volumes]. case_decide; [apply shaped_init, Hs|apply Hs].
Qed.

(** The kernel boots into the tree it describes.  From tables and volumes of
    their declared sizes, [vfs_init] completes and returns 0 with exactly the
    seven mounts [/], [/System], [/Volumes], [/Users], [/Apps], [/Temp] and
    [/Devices], each on its own volume or device file system, the root recorded,
    no alias and no open descriptor; the tables satisfy the invariant; and a
    second call returns 0 and changes nothing. *)
Theorem vfs_init_boots v w :
  boot_tables v → (∀ id, shaped (get_volume w id)) →
  ∃ w', boot v w = Some (0, boot_vfs boot_mounts (Some 0%nat) true, w') ∧
    VfsSpec.wf (boot_vfs boot_mounts (Some 0%nat) true) ∧
    boot (boot_vfs boot_mounts (Some 0%nat) true) w' = Some (0, boot_vfs boot_mounts (Some 0%nat) true, w').
Proof.
  intros (Hml & Hol & Hal & Hr & Hi) Hs. unfold vfs_init at 1. rewrite Hi.
  rewrite (clear_mounts (mount_table v)), Hml, mount_root_boot by done.
  cbn [alias_table open_table set_mounts mount_table root_mount mounts_initialized].
  unfold reset_aliases, clear_alias. rewrite !const_fmap, Hol, Hal, Hi. change (0 <? 0) with false. cbv iota.
  destruct (root_world_shaped w Hs) as [Hr1 Hs1].
  set (w1 := root_world w) in *. set (w2 := ramfs_init_world w).
  assert (Hw2 : w2 = init_volume RootVolume w1) by done.
  assert (Hr2 : root_ready (ramfs_of w2) = true).
  { rewrite Hw2. unfold init_volume, set_volume. by rewrite ramfs_of_with. }
  destruct (root_world_ready w2 Hr2) as [Hr3 Hg3].
  destruct (prepare_boots (root_world w2)) as [w' E]; [| done | |].
  - rewrite Hg3, Hw2. unfold init_volume. rewrite get_set_volume, decide_True by done. by apply shaped_init.
  - intros id Hid. rewrite Hg3, Hw2. unfold init_volume. by rewrite get_set_volume, decide_False.
  - unfold root_only, boot_vfs at 1 in E. rewrite E. exists w'. split; [done|]. split; [apply boot_vfs_wf|done].
Qed.

End boot.
End ramfs.

(** ** A concrete kernel *)

(** The world of RAMFS alone, with contexts that are NULL or a volume. *)
#[export] Program Instance ramfs_only : HasRamfs ramfs_world (option volume_id) := {
  ramfs_of w := w; with_ramfs r w := r; as_volume c := c; null_ctx := None; volume_ctx := Some
}.
Solve All Obligations with done.

Definition no_devices : vfs_fs_ops ramfs_world (option volume_id) :=
  {| op_list := None; op_read := None; op_write := None; op_remove := None; op_mkdir := None |}.

Definition demo : vfs ramfs_world (option volume_id) := boot_vfs (boot_mounts no_devices) (Some 0%nat) true.

Definition demo_world : ramfs_world :=
  {| volumes := fun _ => ramfs_volume_init boot_volume; root_ready := true |}.

Definition users_mount : vfs_mount ramfs_world (option volume_id) :=
  mounted_slot (lit "/Users") ramfs_ops (Some UsersVolume).

Lemma demo_locate :
  locate demo (lit "/Users/./bob") = Some (3%nat, lit "bob") ∧
  locate demo (lit "/System/../Users//bob") = Some (3%nat, lit "bob").
Proof.
  unfold demo, boot_mounts. generalize (ramfs_ops : vfs_fs_ops ramfs_world (option volume_id)) as ops. intros ops.
  split; vm_compute; reflexivity.
Qed.

Lemma demo_volume_wf id : RamfsSpec.wf (get_volume demo_world id).
Proof. apply RamfsSpec.init_wf; [reflexivity|by apply Forall_replicate]. Qed.

Definition users_fs : AbstractFs ramfs_ops (m_ctx users_mount) :=
  ramfs_abstract_fs (W := ramfs_world) (Ctx := option volume_id) UsersVolume.

Lemma demo_users_mounted : VfsSpec.mounted (mount_table demo) 3 users_mount.
Proof. done. Qed.

Lemma vfs_do_refines_witness :
  ∃ r w', vfs_do demo demo_world (lit "/Users/./bob") FMkdir = Some (r, w') ∧
    RamfsSpec.wf (get_volume w' UsersVolume) ∧
    RamfsSpec.spec_exec (RamfsSpec.abs (get_volume demo_world UsersVolume)) (RamfsSpec.OMkdir (Some (lit "bob"))) =
      (r, RamfsSpec.abs (get_volume w' UsersVolume)).
Proof.
  apply (vfs_do_refines demo demo_world (lit "/Users/./bob") FMkdir 3 (lit "bob") users_mount ramfs_ops
           (AbstractFs0 := users_fs)).
  - apply demo_locate.
  - exact demo_users_mounted.
  - reflexivity.
  - apply (demo_volume_wf UsersVolume).
  - change (wf_cstr (lit "bob")). by_eval.
Defined.

(** The first write of the demonstration, evaluated. *)
Lemma demo_write :
  ∃ w', vfs_write_file demo demo_world (Some (lit "/Users/./bob")) (Some [10; 20; 30]) = Some (3, w').
Proof.
  destruct (RamfsSpec.write_refines _ (lit "bob") (Some [10; 20; 30]) (demo_volume_wf UsersVolume)) as (r & v' & E & _ & _).
  { by_eval. }
  assert (Hr : r = 3) by (pose proof (f_equal (fmap fst) E) as Hr; vm_compute in Hr; by injection Hr). subst r.
  exists (set_volume UsersVolume v' demo_world).
  pose proof (vfs_do_call demo demo_world (lit "/Users/./bob") (FWrite (Some [10; 20; 30])) 3 (lit "bob")
    users_mount ramfs_ops (proj1 demo_locate) demo_users_mounted eq_refl) as Hc.
  etransitivity; [exact Hc|]. cbn [call_op from_option op_write ramfs_ops]. unfold ramfs_write_adapter, on_volume.
  change (char0 (lit "bob") =? 0) with false. cbn [as_volume ramfs_only m_ctx users_mount mounted_slot].
  rewrite E. reflexivity.
Qed.

Lemma vfs_write_read_witness :
  ∃ w', vfs_write_file demo demo_world (Some (lit "/Users/./bob")) (Some [10; 20; 30]) = Some (3, w') ∧
    vfs_read_path demo w' (Some (lit "/System/../Users//bob")) (Some [7; 7; 7]) = Some (2, [10; 20; 0], w').
Proof.
  destruct demo_write as [w' E]. exists w'. split; [exact E|].
  refine (proj2 (vfs_write_read demo demo_world (lit "/Users/./bob") (lit "/System/../Users//bob") [10; 20; 30] 3 w' 3
    (lit "bob") users_mount ramfs_ops [7; 7; 7] (AbstractFs0 := users_fs) _ _ _ _ _ _ _ E _)).
  - apply demo_locate.
  - apply demo_locate.
  - exact demo_users_mounted.
  - reflexivity.
  - apply (demo_volume_wf UsersVolume).
  - by_eval.
  - simpl. lia.
  - lia.
Defined.

Lemma vfs_ramfs_isolated_witness :
  ∃ r w', vfs_do demo demo_world (lit "/Users/./bob") FMkdir = Some (r, w') ∧
    RamfsSpec.wf (get_volume w' UsersVolume) ∧
    (∀ j, j ≠ UsersVolume → get_volume w' j = get_volume demo_world j) ∧
    (lit "al" ≠ lit "bob" → ¬ RamfsSpec.below (lit "bob") (lit "al") →
     RamfsSpec.abs (get_volume w' UsersVolume) !! lit "al" = RamfsSpec.abs (get_volume demo_world UsersVolume) !! lit "al").
Proof.
  apply (vfs_ramfs_isolated demo demo_world (lit "/Users/./bob") FMkdir 3 (lit "bob") users_mount UsersVolume (lit "al")).
  - apply boot_vfs_wf.
  - by_eval.
  - apply demo_locate.
  - exact demo_users_mounted.
  - reflexivity.
  - reflexivity.
  - apply (demo_volume_wf UsersVolume).
  - change (wf_cstr (lit "bob")). by_eval.
Defined.

(** A file is written, read through another spelling of its path, and a path that is not
    absolute is refused. *)
Definition demo_calls : list vfs_call :=
  [CDo (lit "/Users/./bob") (FWrite (Some [10; 20; 30])); CRead (lit "/System/../Users//bob") [7; 7; 7]; CDo (lit "bob") FMkdir].

Lemma demo_ramfs_path path : VfsSpec.destination demo path = [lit "Users"; lit "bob"] ∨ VfsSpec.destination demo path = [lit "bob"] → ramfs_path demo path.
Proof.
  intros Hd i m rs ([Hm Hu] & Hs & _).
  do 7 (destruct i as [|i]; [injection Hm as <-; try (split; [reflexivity|eexists; reflexivity])|]).
  - exfalso. destruct Hd as [Hd|Hd]; rewrite Hd in Hs; vm_compute in Hs; discriminate Hs.
  - destruct i as [|i]; [injection Hm as <-; discriminate Hu|done].
Qed.

Lemma demo_calls_ok : Forall (call_ok demo) demo_calls.
Proof.
  repeat (apply Forall_cons; split); [..|constructor]; (split; [by_eval|]); (split; [apply demo_ramfs_path; vm_compute; auto|]); cbn; (done || lia).
Qed.

Lemma vfs_namespace_refines_witness :
  ∃ w', vfs_run demo demo_calls demo_world = Some ([(3, []); (2, [10; 20; 0]); (-1, [])], w') ∧
    a_calls demo demo_calls (volumes_of demo_world) [(3, []); (2, [10; 20; 0]); (-1, [])] (volumes_of w').
Proof.
  destruct (vfs_namespace_refines demo demo_world demo_calls) as (rs & w' & E & _ & Ha).
  - apply boot_vfs_wf.
  - exact demo_volume_wf.
  - exact demo_calls_ok.
  - assert (Er : fst <$> vfs_run demo demo_calls demo_world = Some [(3, []); (2, [10; 20; 0]); (-1, [])]) by (vm_compute; reflexivity).
    rewrite E in Er. injection Er as ->. by exists w'.
Defined.

Definition boot_state : vfs ramfs_world (option volume_id) :=
  {| mount_table := replicate 8 free_slot; root_mount := None; mounts_initialized := false;
     alias_table := replicate 8 {| a_used := false; a_from := []; from_len := 0; a_to := [] |};
     open_table := replicate 32 closed_handle |}.

Lemma vfs_init_boots_witness :
  ∃ w', vfs_init no_devices id (fun _ w => Some w) (fun _ w => Some w) boot_state
          {| volumes := fun _ => boot_volume; root_ready := false |} = Some (0, demo, w') ∧
    VfsSpec.wf demo ∧
    vfs_init no_devices id (fun _ w => Some w) (fun _ w => Some w) demo w' = Some (0, demo, w').
Proof.
  apply (vfs_init_boots no_devices id (fun _ w => Some w) (fun _ w => Some w)).
  - done.
  - done.
  - by eexists.
  - by eexists.
  - done.
  - intros i. split; [reflexivity|by apply Forall_replicate].
Defined.

End VfsRamfs.
