(* ===== verification/Sched.v ===== *)
(** The scheduler and process table of [kernel/process.c].

    A [struct process *] is the index of the process in the table, [NULL] is
    [None], and the intrusive lists of the run queues and of the sleepers are
    kept as the code keeps them, in the [next_run] and [next_sleep] fields.  The
    fields that the IPC code owns are not part of the record: what the scheduler
    asks of other components is a list of [effects].  A dereference of [NULL] or
    of a pointer outside the table, and a list walk longer than the table, set
    [fault]; the invariant of [SchedSpec.v] shows that none happens.

    [context_switch] moves the processor between threads and the scheduler loop:
    a thread operation that gives up the processor is its code up to the switch
    followed by the rest of the loop body of [process_schedule] and the next
    round up to the switch to the chosen thread. *)

From S2P Require Import Prelude.

Module Sched.

Definition MAX_PROCS : nat := 32.
Definition PROC_STACK_SIZE : Z := 4096.
Definition SCHED_PRIORITY_LEVELS : nat := 4.
Definition SCHED_PRIORITY_MIN : Z := 0.
Definition SCHED_PRIORITY_MAX : Z := 3.
Definition CONFIG_SCHED_DEFAULT_TIMESLICE : Z := 4.
Definition CONFIG_SCHED_MAX_DYNAMIC_BOOST : Z := 1.
Definition CONFIG_SCHED_BASE_WEIGHT : Z := 1024.
Definition CONFIG_SCHED_DEFAULT_WEIGHT : Z := 1024.

(** A walk of a list inside the table takes at most this many steps. *)
Definition FUEL : nat := S MAX_PROCS.

Inductive proc_state_t := PROC_UNUSED | PROC_READY | PROC_RUNNING | PROC_WAITING | PROC_ZOMBIE.
Inductive thread_kind_t := THREAD_KIND_KERNEL | THREAD_KIND_USER.
Inductive sched_policy_t := SCHED_POLICY_FAIR | SCHED_POLICY_DEADLINE.

#[export] Instance proc_state_eq_dec : EqDecision proc_state_t.
Proof. solve_decision. Defined.
#[export] Instance thread_kind_eq_dec : EqDecision thread_kind_t.
Proof. solve_decision. Defined.
#[export] Instance sched_policy_eq_dec : EqDecision sched_policy_t.
Proof. solve_decision. Defined.

Record process := Process {
  pid : Z;
  state : proc_state_t;
  esp : Z;
  stack_size : Z;
  stack_words : gmap Z Z;
  exit_code : Z;
  kind : thread_kind_t;
  base_priority : Z;
  dynamic_priority : Z;
  sched_policy : sched_policy_t;
  sched_weight : Z;
  sched_deadline : Z;
  vruntime : Z;
  on_run_queue : bool;
  time_slice_ticks : Z;
  time_slice_remaining : Z;
  wake_deadline : Z;
  next_run : option nat;
  next_sleep : option nat;
  entry : option Z
}.

Definition set_state (x : proc_state_t) (p : process) : process :=
  {| pid := pid p; state := x; esp := esp p; stack_size := stack_size p; stack_words := stack_words p;
     exit_code := exit_code p; kind := kind p; base_priority := base_priority p;
     dynamic_priority := dynamic_priority p; sched_policy := sched_policy p;
     sched_weight := sched_weight p; sched_deadline := sched_deadline p; vruntime := vruntime p;
     on_run_queue := on_run_queue p; time_slice_ticks := time_slice_ticks p;
     time_slice_remaining := time_slice_remaining p; wake_deadline := wake_deadline p;
     next_run := next_run p; next_sleep := next_sleep p; entry := entry p |}.

Definition set_esp (x : Z) (p : process) : process :=
  {| pid := pid p; state := state p; esp := x; stack_size := stack_size p; stack_words := stack_words p;
     exit_code := exit_code p; kind := kind p; base_priority := base_priority p;
     dynamic_priority := dynamic_priority p; sched_policy := sched_policy p;
     sched_weight := sched_weight p; sched_deadline := sched_deadline p; vruntime := vruntime p;
     on_run_queue := on_run_queue p; time_slice_ticks := time_slice_ticks p;
     time_slice_remaining := time_slice_remaining p; wake_deadline := wake_deadline p;
     next_run := next_run p; next_sleep := next_sleep p; entry := entry p |}.

Definition set_stack_words (x : gmap Z Z) (p : process) : process :=
  {| pid := pid p; state := state p; esp := esp p; stack_size := stack_size p; stack_words := x;
     exit_code := exit_code p; kind := kind p; base_priority := base_priority p;
     dynamic_priority := dynamic_priority p; sched_policy := sched_policy p;
     sched_weight := sched_weight p; sched_deadline := sched_deadline p; vruntime := vruntime p;
     on_run_queue := on_run_queue p; time_slice_ticks := time_slice_ticks p;
     time_slice_remaining := time_slice_remaining p; wake_deadline := wake_deadline p;
     next_run := next_run p; next_sleep := next_sleep p; entry := entry p |}.

Definition set_exit_code (x : Z) (p : process) : process :=
  {| pid := pid p; state := state p; esp := esp p; stack_size := stack_size p; stack_words := stack_words p; exit_code := x;
     kind := kind p; base_priority := base_priority p; dynamic_priority := dynamic_priority p;
     sched_policy := sched_policy p; sched_weight := sched_weight p;
     sched_deadline := sched_deadline p; vruntime := vruntime p; on_run_queue := on_run_queue p;
     time_slice_ticks := time_slice_ticks p; time_slice_remaining := time_slice_remaining p;
     wake_deadline := wake_deadline p; next_run := next_run p; next_sleep := next_sleep p;
     entry := entry p |}.

Definition set_dynamic_priority (x : Z) (p : process) : process :=
  {| pid := pid p; state := state p; esp := esp p; stack_size := stack_size p; stack_words := stack_words p;
     exit_code := exit_code p; kind := kind p; base_priority := base_priority p;
     dynamic_priority := x; sched_policy := sched_policy p; sched_weight := sched_weight p;
     sched_deadline := sched_deadline p; vruntime := vruntime p; on_run_queue := on_run_queue p;
     time_slice_ticks := time_slice_ticks p; time_slice_remaining := time_slice_remaining p;
     wake_deadline := wake_deadline p; next_run := next_run p; next_sleep := next_sleep p;
     entry := entry p |}.

Definition set_sched_policy (x : sched_policy_t) (p : process) : process :=
  {| pid := pid p; state := state p; esp := esp p; stack_size := stack_size p; stack_words := stack_words p;
     exit_code := exit_code p; kind := kind p; base_priority := base_priority p;
     dynamic_priority := dynamic_priority p; sched_policy := x; sched_weight := sched_weight p;
     sched_deadline := sched_deadline p; vruntime := vruntime p; on_run_queue := on_run_queue p;
     time_slice_ticks := time_slice_ticks p; time_slice_remaining := time_slice_remaining p;
     wake_deadline := wake_deadline p; next_run := next_run p; next_sleep := next_sleep p;
     entry := entry p |}.

Definition set_sched_weight (x : Z) (p : process) : process :=
  {| pid := pid p; state := state p; esp := esp p; stack_size := stack_size p; stack_words := stack_words p;
     exit_code := exit_code p; kind := kind p; base_priority := base_priority p;
     dynamic_priority := dynamic_priority p; sched_policy := sched_policy p; sched_weight := x;
     sched_deadline := sched_deadline p; vruntime := vruntime p; on_run_queue := on_run_queue p;
     time_slice_ticks := time_slice_ticks p; time_slice_remaining := time_slice_remaining p;
     wake_deadline := wake_deadline p; next_run := next_run p; next_sleep := next_sleep p;
     entry := entry p |}.

Definition set_sched_deadline (x : Z) (p : process) : process :=
  {| pid := pid p; state := state p; esp := esp p; stack_size := stack_size p; stack_words := stack_words p;
     exit_code := exit_code p; kind := kind p; base_priority := base_priority p;
     dynamic_priority := dynamic_priority p; sched_policy := sched_policy p;
     sched_weight := sched_weight p; sched_deadline := x; vruntime := vruntime p;
     on_run_queue := on_run_queue p; time_slice_ticks := time_slice_ticks p;
     time_slice_remaining := time_slice_remaining p; wake_deadline := wake_deadline p;
     next_run := next_run p; next_sleep := next_sleep p; entry := entry p |}.

Definition set_vruntime (x : Z) (p : process) : process :=
  {| pid := pid p; state := state p; esp := esp p; stack_size := stack_size p; stack_words := stack_words p;
     exit_code := exit_code p; kind := kind p; base_priority := base_priority p;
     dynamic_priority := dynamic_priority p; sched_policy := sched_policy p;
     sched_weight := sched_weight p; sched_deadline := sched_deadline p; vruntime := x;
     on_run_queue := on_run_queue p; time_slice_ticks := time_slice_ticks p;
     time_slice_remaining := time_slice_remaining p; wake_deadline := wake_deadline p;
     next_run := next_run p; next_sleep := next_sleep p; entry := entry p |}.

Definition set_on_run_queue (x : bool) (p : process) : process :=
  {| pid := pid p; state := state p; esp := esp p; stack_size := stack_size p; stack_words := stack_words p;
     exit_code := exit_code p; kind := kind p; base_priority := base_priority p;
     dynamic_priority := dynamic_priority p; sched_policy := sched_policy p;
     sched_weight := sched_weight p; sched_deadline := sched_deadline p; vruntime := vruntime p;
     on_run_queue := x; time_slice_ticks := time_slice_ticks p;
     time_slice_remaining := time_slice_remaining p; wake_deadline := wake_deadline p;
     next_run := next_run p; next_sleep := next_sleep p; entry := entry p |}.

Definition set_time_slice_ticks (x : Z) (p : process) : process :=
  {| pid := pid p; state := state p; esp := esp p; stack_size := stack_size p; stack_words := stack_words p;
     exit_code := exit_code p; kind := kind p; base_priority := base_priority p;
     dynamic_priority := dynamic_priority p; sched_policy := sched_policy p;
     sched_weight := sched_weight p; sched_deadline := sched_deadline p; vruntime := vruntime p;
     on_run_queue := on_run_queue p; time_slice_ticks := x;
     time_slice_remaining := time_slice_remaining p; wake_deadline := wake_deadline p;
     next_run := next_run p; next_sleep := next_sleep p; entry := entry p |}.

Definition set_time_slice_remaining (x : Z) (p : process) : process :=
  {| pid := pid p; state := state p; esp := esp p; stack_size := stack_size p; stack_words := stack_words p;
     exit_code := exit_code p; kind := kind p; base_priority := base_priority p;
     dynamic_priority := dynamic_priority p; sched_policy := sched_policy p;
     sched_weight := sched_weight p; sched_deadline := sched_deadline p; vruntime := vruntime p;
     on_run_queue := on_run_queue p; time_slice_ticks := time_slice_ticks p;
     time_slice_remaining := x; wake_deadline := wake_deadline p; next_run := next_run p;
     next_sleep := next_sleep p; entry := entry p |}.

Definition set_wake_deadline (x : Z) (p : process) : process :=
  {| pid := pid p; state := state p; esp := esp p; stack_size := stack_size p; stack_words := stack_words p;
     exit_code := exit_code p; kind := kind p; base_priority := base_priority p;
     dynamic_priority := dynamic_priority p; sched_policy := sched_policy p;
     sched_weight := sched_weight p; sched_deadline := sched_deadline p; vruntime := vruntime p;
     on_run_queue := on_run_queue p; time_slice_ticks := time_slice_ticks p;
     time_slice_remaining := time_slice_remaining p; wake_deadline := x; next_run := next_run p;
     next_sleep := next_sleep p; entry := entry p |}.

Definition set_next_run (x : option nat) (p : process) : process :=
  {| pid := pid p; state := state p; esp := esp p; stack_size := stack_size p; stack_words := stack_words p;
     exit_code := exit_code p; kind := kind p; base_priority := base_priority p;
     dynamic_priority := dynamic_priority p; sched_policy := sched_policy p;
     sched_weight := sched_weight p; sched_deadline := sched_deadline p; vruntime := vruntime p;
     on_run_queue := on_run_queue p; time_slice_ticks := time_slice_ticks p;
     time_slice_remaining := time_slice_remaining p; wake_deadline := wake_deadline p;
     next_run := x; next_sleep := next_sleep p; entry := entry p |}.

Definition set_next_sleep (x : option nat) (p : process) : process :=
  {| pid := pid p; state := state p; esp := esp p; stack_size := stack_size p; stack_words := stack_words p;
     exit_code := exit_code p; kind := kind p; base_priority := base_priority p;
     dynamic_priority := dynamic_priority p; sched_policy := sched_policy p;
     sched_weight := sched_weight p; sched_deadline := sched_deadline p; vruntime := vruntime p;
     on_run_queue := on_run_queue p; time_slice_ticks := time_slice_ticks p;
     time_slice_remaining := time_slice_remaining p; wake_deadline := wake_deadline p;
     next_run := next_run p; next_sleep := x; entry := entry p |}.

Record run_queue := RunQueue { head : option nat; tail : option nat }.

(** What the scheduler asks of the other components. *)
Inductive effect :=
| EIpcAttach (slot : nat)
| EIpcCleanup (slot : nat)
| EServiceExit (pid : Z)
| ELog (message : cstring)
| ESend (channel action pid value : Z) (st : proc_state_t)
| EPublishTasks.

(** [ipc_service] is what [ipc_is_initialized] and [ipc_get_service_channel]
    answer: [None] before the IPC system is up. *)
Record sched := Sched {
  processes : list process;
  ready_queues : list run_queue;
  ready_bitmap : Z;
  current_process : option nat;
  idle_process : option nat;
  sleep_list : option nat;
  next_pid : Z;
  scheduler_active : bool;
  scheduler_channel_id : Z;
  ipc_service : option Z;
  effects : list effect;
  fault : bool
}.

Definition put_processes (x : list process) (s : sched) : sched :=
  {| processes := x; ready_queues := ready_queues s; ready_bitmap := ready_bitmap s;
     current_process := current_process s; idle_process := idle_process s;
     sleep_list := sleep_list s; next_pid := next_pid s; scheduler_active := scheduler_active s;
     scheduler_channel_id := scheduler_channel_id s; ipc_service := ipc_service s;
     effects := effects s; fault := fault s |}.

Definition put_ready_queues (x : list run_queue) (s : sched) : sched :=
  {| processes := processes s; ready_queues := x; ready_bitmap := ready_bitmap s;
     current_process := current_process s; idle_process := idle_process s;
     sleep_list := sleep_list s; next_pid := next_pid s; scheduler_active := scheduler_active s;
     scheduler_channel_id := scheduler_channel_id s; ipc_service := ipc_service s;
     effects := effects s; fault := fault s |}.

Definition put_ready_bitmap (x : Z) (s : sched) : sched :=
  {| processes := processes s; ready_queues := ready_queues s; ready_bitmap := x;
     current_process := current_process s; idle_process := idle_process s;
     sleep_list := sleep_list s; next_pid := next_pid s; scheduler_active := scheduler_active s;
     scheduler_channel_id := scheduler_channel_id s; ipc_service := ipc_service s;
     effects := effects s; fault := fault s |}.

Definition put_current_process (x : option nat) (s : sched) : sched :=
  {| processes := processes s; ready_queues := ready_queues s; ready_bitmap := ready_bitmap s;
     current_process := x; idle_process := idle_process s; sleep_list := sleep_list s;
     next_pid := next_pid s; scheduler_active := scheduler_active s;
     scheduler_channel_id := scheduler_channel_id s; ipc_service := ipc_service s;
     effects := effects s; fault := fault s |}.

Definition put_idle_process (x : option nat) (s : sched) : sched :=
  {| processes := processes s; ready_queues := ready_queues s; ready_bitmap := ready_bitmap s;
     current_process := current_process s; idle_process := x; sleep_list := sleep_list s;
     next_pid := next_pid s; scheduler_active := scheduler_active s;
     scheduler_channel_id := scheduler_channel_id s; ipc_service := ipc_service s;
     effects := effects s; fault := fault s |}.

Definition put_sleep_list (x : option nat) (s : sched) : sched :=
  {| processes := processes s; ready_queues := ready_queues s; ready_bitmap := ready_bitmap s;
     current_process := current_process s; idle_process := idle_process s; sleep_list := x;
     next_pid := next_pid s; scheduler_active := scheduler_active s;
     scheduler_channel_id := scheduler_channel_id s; ipc_service := ipc_service s;
     effects := effects s; fault := fault s |}.

Definition put_next_pid (x : Z) (s : sched) : sched :=
  {| processes := processes s; ready_queues := ready_queues s; ready_bitmap := ready_bitmap s;
     current_process := current_process s; idle_process := idle_process s;
     sleep_list := sleep_list s; next_pid := x; scheduler_active := scheduler_active s;
     scheduler_channel_id := scheduler_channel_id s; ipc_service := ipc_service s;
     effects := effects s; fault := fault s |}.

Definition put_scheduler_active (x : bool) (s : sched) : sched :=
  {| processes := processes s; ready_queues := ready_queues s; ready_bitmap := ready_bitmap s;
     current_process := current_process s; idle_process := idle_process s;
     sleep_list := sleep_list s; next_pid := next_pid s; scheduler_active := x;
     scheduler_channel_id := scheduler_channel_id s; ipc_service := ipc_service s;
     effects := effects s; fault := fault s |}.

Definition put_scheduler_channel_id (x : Z) (s : sched) : sched :=
  {| processes := processes s; ready_queues := ready_queues s; ready_bitmap := ready_bitmap s;
     current_process := current_process s; idle_process := idle_process s;
     sleep_list := sleep_list s; next_pid := next_pid s; scheduler_active := scheduler_active s;
     scheduler_channel_id := x; ipc_service := ipc_service s; effects := effects s;
     fault := fault s |}.

Definition put_effects (x : list effect) (s : sched) : sched :=
  {| processes := processes s; ready_queues := ready_queues s; ready_bitmap := ready_bitmap s;
     current_process := current_process s; idle_process := idle_process s;
     sleep_list := sleep_list s; next_pid := next_pid s; scheduler_active := scheduler_active s;
     scheduler_channel_id := scheduler_channel_id s; ipc_service := ipc_service s; effects := x;
     fault := fault s |}.

Definition put_fault (x : bool) (s : sched) : sched :=
  {| processes := processes s; ready_queues := ready_queues s; ready_bitmap := ready_bitmap s;
     current_process := current_process s; idle_process := idle_process s;
     sleep_list := sleep_list s; next_pid := next_pid s; scheduler_active := scheduler_active s;
     scheduler_channel_id := scheduler_channel_id s; ipc_service := ipc_service s;
     effects := effects s; fault := x |}.

Definition faulted (s : sched) : sched := put_fault true s.
Definition emit (e : effect) (s : sched) : sched := put_effects (effects s ++ [e]) s.

(** Write through a process pointer. *)
Definition upd (i : nat) (f : process → process) (s : sched) : sched :=
  match processes s !! i with
  | None => faulted s
  | Some _ => put_processes (alter f i (processes s)) s
  end.

Definition put_queue (priority : nat) (q : run_queue) (s : sched) : sched :=
  match ready_queues s !! priority with
  | None => faulted s
  | Some _ => put_ready_queues (<[priority := q]> (ready_queues s)) s
  end.

(** ** Messages and events *)

(** The digits of a positive number, least significant first, at most [n]. *)
Fixpoint digits_rev (n : nat) (value : Z) : cstring :=
  match n with
  | O => []
  | S n' => if value <=? 0 then [] else (48 + value mod 10) :: digits_rev n' (value / 10)
  end.

Definition int_to_string (value : Z) : cstring := if value =? 0 then [48] else rev (digits_rev 16 value).

Definition log_process_event (prefix : cstring) (pid : Z) (s : sched) : sched :=
  let prefix := take 31 prefix in
  let num := if (length prefix <? 31)%nat then take (31 - length prefix) (int_to_string pid) else [] in
  emit (ELog (prefix ++ num)) s.

Definition SCHED_EVENT_CREATE : Z := 1.
Definition SCHED_EVENT_EXIT : Z := 2.
Definition SCHED_EVENT_RECLAIM : Z := 3.

Definition scheduler_send_event (action pid value : Z) (st : proc_state_t) (s : sched) : sched :=
  if pid <=? 0 then s
  else
    match ipc_service s with
    | None => s
    | Some service =>
        let s := if scheduler_channel_id s <? 0 then put_scheduler_channel_id service s else s in
        if scheduler_channel_id s <? 0 then s
        else emit (ESend (scheduler_channel_id s) action pid value st) s
    end.

(** ** Priorities and time slices *)

Definition scheduler_clamp_priority (value : Z) : Z :=
  if value <? SCHED_PRIORITY_MIN then u8 SCHED_PRIORITY_MIN
  else if SCHED_PRIORITY_MAX <? value then u8 SCHED_PRIORITY_MAX
  else u8 value.

Definition scheduler_timeslice_for (priority : Z) : Z :=
  let base := if 0 <? CONFIG_SCHED_DEFAULT_TIMESLICE then CONFIG_SCHED_DEFAULT_TIMESLICE else 1 in
  let pr := if priority <? SCHED_PRIORITY_MIN then SCHED_PRIORITY_MIN else priority in
  let pr := if SCHED_PRIORITY_MAX <? pr then SCHED_PRIORITY_MAX else pr in
  let offset := pr - SCHED_PRIORITY_MIN in
  let offset := if 4 <? offset then 4 else offset in
  let slice := u32 (Z.shiftl base offset) in
  if slice =? 0 then 1 else slice.

Definition reset_priority (p : process) : process := set_dynamic_priority (base_priority p) p.

Definition demote_priority (p : process) : process :=
  if dynamic_priority p <? u8 SCHED_PRIORITY_MAX then set_dynamic_priority (u8 (dynamic_priority p + 1)) p
  else p.

Definition boost_priority (p : process) : process :=
  let base := base_priority p in
  let target :=
    if (0 <? CONFIG_SCHED_MAX_DYNAMIC_BOOST) && (u8 SCHED_PRIORITY_MIN <? base) then
      let max_boost := u8 CONFIG_SCHED_MAX_DYNAMIC_BOOST in
      let distance := u8 (base - u8 SCHED_PRIORITY_MIN) in
      let max_boost := if distance <? max_boost then distance else max_boost in
      u8 (base - max_boost)
    else base in
  set_dynamic_priority (scheduler_clamp_priority target) p.

Definition arm_timeslice (p : process) : process :=
  let slice := scheduler_timeslice_for (dynamic_priority p) in
  set_time_slice_remaining slice (set_time_slice_ticks slice p).

Definition scheduler_reset_priority (i : nat) (s : sched) : sched := upd i reset_priority s.
Definition scheduler_demote_priority (i : nat) (s : sched) : sched := upd i demote_priority s.
Definition scheduler_boost_priority (i : nat) (s : sched) : sched := upd i boost_priority s.
Definition scheduler_arm_timeslice (i : nat) (s : sched) : sched := upd i arm_timeslice s.

(** ** The run queues *)

Definition bit (priority : nat) : Z := Z.shiftl 1 (Z.of_nat priority).
Definition set_bit (priority : nat) (s : sched) : sched :=
  put_ready_bitmap (Z.lor (ready_bitmap s) (bit priority)) s.
Definition clear_bit (priority : nat) (s : sched) : sched :=
  put_ready_bitmap (Z.land (ready_bitmap s) (not32 (bit priority))) s.

(** Append to the list of a queue. *)
Definition append_queue (priority : nat) (i : nat) (s : sched) : sched :=
  match ready_queues s !! priority with
  | None => faulted s
  | Some q =>
      match head q with
      | None => put_queue priority {| head := Some i; tail := Some i |} s
      | Some _ =>
          let s := match tail q with Some t => upd t (set_next_run (Some i)) s | None => faulted s end in
          put_queue priority {| head := head q; tail := Some i |} s
      end
  end.

Definition scheduler_enqueue_ready (i : nat) (s : sched) : sched :=
  if decide (idle_process s = Some i) then s
  else
    match processes s !! i with
    | None => faulted s
    | Some p =>
        if on_run_queue p then s
        else
          let priority := Z.to_nat (scheduler_clamp_priority (dynamic_priority p)) in
          let s := upd i (set_next_run None) s in
          let s := append_queue priority i s in
          let s := set_bit priority s in
          upd i (set_on_run_queue true) s
    end.

(** Unlink the process [i] found after [prev]. *)
Definition unlink (priority : nat) (prev : option nat) (i : nat) (next : option nat) (s : sched) : sched :=
  let s :=
    match prev with
    | Some pr => upd pr (set_next_run next) s
    | None =>
        match ready_queues s !! priority with
        | None => faulted s
        | Some q => put_queue priority {| head := next; tail := tail q |} s
        end
    end in
  match ready_queues s !! priority with
  | None => faulted s
  | Some q =>
      let q := if decide (tail q = Some i) then {| head := head q; tail := prev |} else q in
      let s := put_queue priority q s in
      let s := match head q with None => clear_bit priority s | Some _ => s end in
      upd i (fun p => set_on_run_queue false (set_next_run None p)) s
  end.

(** The walk of one queue: [Some] when the process was found. *)
Fixpoint remove_loop (fuel : nat) (priority : nat) (prev iter : option nat) (target : nat) (s : sched)
    : option sched :=
  match fuel with
  | O => Some (faulted s)
  | S fuel =>
      match iter with
      | None => None
      | Some i =>
          match processes s !! i with
          | None => Some (faulted s)
          | Some p =>
              if (i =? target)%nat then Some (unlink priority prev i (next_run p) s)
              else remove_loop fuel priority (Some i) (next_run p) target s
          end
      end
  end.

Fixpoint remove_priorities (priorities : list nat) (target : nat) (s : sched) : sched :=
  match priorities with
  | [] => s
  | priority :: priorities' =>
      match ready_queues s !! priority with
      | None => faulted s
      | Some q =>
          match remove_loop FUEL priority None (head q) target s with
          | Some s' => s'
          | None => remove_priorities priorities' target s
          end
      end
  end.

(** [SCHED_PRIORITY_MIN .. SCHED_PRIORITY_MAX] *)
Definition priorities : list nat := seq 0 SCHED_PRIORITY_LEVELS.

Definition scheduler_remove_from_ready (i : nat) (s : sched) : sched := remove_priorities priorities i s.

Fixpoint dequeue_loop (ps : list nat) (s : sched) : option nat * sched :=
  match ps with
  | [] => (None, s)
  | priority :: ps' =>
      if Z.land (ready_bitmap s) (bit priority) =? 0 then dequeue_loop ps' s
      else
        match ready_queues s !! priority with
        | None => (None, faulted s)
        | Some q =>
            match head q with
            | None =>
                let s := clear_bit priority s in
                dequeue_loop ps' (put_queue priority {| head := head q; tail := None |} s)
            | Some i =>
                match processes s !! i with
                | None => (None, faulted s)
                | Some p =>
                    let s :=
                      match next_run p with
                      | None => clear_bit priority (put_queue priority {| head := None; tail := None |} s)
                      | Some n => put_queue priority {| head := Some n; tail := tail q |} s
                      end in
                    (Some i, upd i (fun p => set_on_run_queue false (set_next_run None p)) s)
                end
            end
        end
  end.

Definition scheduler_dequeue_next (s : sched) : option nat * sched := dequeue_loop priorities s.

(** ** Choosing the next process *)

(** The search loops keep the first process with the least key; a process
    without a key is passed over. *)
Definition better (best : option (nat * Z)) (i : nat) (key : option Z) : option (nat * Z) :=
  match key with
  | None => best
  | Some k =>
      match best with
      | None => Some (i, k)
      | Some (_, best_key) => if k <? best_key then Some (i, k) else best
      end
  end.

Fixpoint scan_queue (fuel : nat) (key : process → option Z) (iter : option nat)
    (best : option (nat * Z)) (s : sched) : option (nat * Z) * sched :=
  match fuel with
  | O => (best, faulted s)
  | S fuel =>
      match iter with
      | None => (best, s)
      | Some i =>
          match processes s !! i with
          | None => (best, faulted s)
          | Some p => scan_queue fuel key (next_run p) (better best i (key p)) s
          end
      end
  end.

Fixpoint scan_queues (ps : list nat) (key : process → option Z) (best : option (nat * Z)) (s : sched)
    : option (nat * Z) * sched :=
  match ps with
  | [] => (best, s)
  | priority :: ps' =>
      match ready_queues s !! priority with
      | None => (best, faulted s)
      | Some q => let '(best, s) := scan_queue FUEL key (head q) best s in scan_queues ps' key best s
      end
  end.

Definition deadline_key (p : process) : option Z :=
  match sched_policy p with
  | SCHED_POLICY_DEADLINE => if sched_deadline p =? 0 then None else Some (sched_deadline p)
  | _ => None
  end.

Definition fair_key (p : process) : option Z :=
  match sched_policy p with SCHED_POLICY_FAIR => Some (vruntime p) | _ => None end.

(** Search the queues and take the process found off its queue. *)
Definition pick (key : process → option Z) (s : sched) : option nat * sched :=
  let '(best, s) := scan_queues priorities key None s in
  match best with
  | Some (i, _) => (Some i, scheduler_remove_from_ready i s)
  | None => (None, s)
  end.

Definition scheduler_pick_deadline (s : sched) : option nat * sched := pick deadline_key s.
Definition scheduler_pick_fair (s : sched) : option nat * sched := pick fair_key s.

Definition scheduler_select_next (s : sched) : option nat * sched :=
  match scheduler_pick_deadline s with
  | (Some i, s) => (Some i, s)
  | (None, s) =>
      match scheduler_pick_fair s with
      | (Some i, s) => (Some i, s)
      | (None, s) => scheduler_dequeue_next s
      end
  end.

(** ** Accounting *)

Definition account_runtime (p : process) : process :=
  match sched_policy p with
  | SCHED_POLICY_DEADLINE => p
  | SCHED_POLICY_FAIR =>
      let used := time_slice_ticks p in
      let used := if time_slice_remaining p <=? time_slice_ticks p
                  then used -32 time_slice_remaining p else used in
      if used =? 0 then p
      else
        let weight := if sched_weight p =? 0 then CONFIG_SCHED_DEFAULT_WEIGHT else sched_weight p in
        let scaled := u64 (used * CONFIG_SCHED_BASE_WEIGHT) / weight in
        let scaled := if scaled =? 0 then 1 else scaled in
        set_vruntime (vruntime p +64 scaled) p
  end.

Definition scheduler_account_runtime (i : nat) (s : sched) : sched :=
  if decide (idle_process s = Some i) then s else upd i account_runtime s.

(** ** Sleeping *)

Fixpoint sleep_remove_loop (fuel : nat) (prev : nat) (iter : option nat) (target : nat) (s : sched) : sched :=
  match fuel with
  | O => faulted s
  | S fuel =>
      match iter with
      | None => s
      | Some i =>
          match processes s !! i with
          | None => faulted s
          | Some p =>
              if (i =? target)%nat then upd i (set_next_sleep None) (upd prev (set_next_sleep (next_sleep p)) s)
              else sleep_remove_loop fuel i (next_sleep p) target s
          end
      end
  end.

Definition scheduler_remove_from_sleep (target : nat) (s : sched) : sched :=
  match sleep_list s with
  | None => s
  | Some first =>
      match processes s !! first with
      | None => faulted s
      | Some p =>
          if (first =? target)%nat then upd first (set_next_sleep None) (put_sleep_list (next_sleep p) s)
          else sleep_remove_loop FUEL first (next_sleep p) target s
      end
  end.

(** The walk to the last sleeper that wakes no later. *)
Fixpoint sleep_position (fuel : nat) (iter : nat) (deadline : Z) (s : sched) : option nat :=
  match fuel with
  | O => None
  | S fuel =>
      match processes s !! iter with
      | None => None
      | Some p =>
          match next_sleep p with
          | None => Some iter
          | Some n =>
              match processes s !! n with
              | None => None
              | Some q => if wake_deadline q <=? deadline then sleep_position fuel n deadline s else Some iter
              end
          end
      end
  end.

Definition scheduler_insert_sleep (i : nat) (s : sched) : sched :=
  let s := scheduler_remove_from_sleep i s in
  match processes s !! i with
  | None => faulted s
  | Some p =>
      match sleep_list s with
      | None => put_sleep_list (Some i) (upd i (set_next_sleep None) s)
      | Some first =>
          match processes s !! first with
          | None => faulted s
          | Some f =>
              if wake_deadline p <? wake_deadline f then
                put_sleep_list (Some i) (upd i (set_next_sleep (Some first)) s)
              else
                match sleep_position FUEL first (wake_deadline p) s with
                | None => faulted s
                | Some k =>
                    match processes s !! k with
                    | None => faulted s
                    | Some q => upd k (set_next_sleep (Some i)) (upd i (set_next_sleep (next_sleep q)) s)
                    end
                end
          end
      end
  end.

(** One sleeper wakes. *)
Definition wake_one (i : nat) (next : option nat) (s : sched) : sched :=
  let s := put_sleep_list next s in
  let s := upd i (set_next_sleep None) s in
  let s := upd i (set_wake_deadline 0) s in
  let s := scheduler_boost_priority i s in
  let s := upd i (set_state PROC_READY) s in
  scheduler_enqueue_ready i s.

Fixpoint wake_loop (fuel : nat) (now : Z) (s : sched) : sched :=
  match fuel with
  | O => faulted s
  | S fuel =>
      match sleep_list s with
      | None => s
      | Some i =>
          match processes s !! i with
          | None => faulted s
          | Some p =>
              if wake_deadline p <=? now then wake_loop fuel now (wake_one i (next_sleep p) s) else s
          end
      end
  end.

Definition wake_sleepers (now : Z) (s : sched) : sched := wake_loop FUEL now s.

(** ** Processes *)

(** A table slot after [zero_memory] and the assignments that follow it. *)
Definition blank_process : process :=
  {| pid := -1; state := PROC_UNUSED; esp := 0; stack_size := PROC_STACK_SIZE; stack_words := ∅; exit_code := 0;
     kind := THREAD_KIND_KERNEL; base_priority := 0; dynamic_priority := 0;
     sched_policy := SCHED_POLICY_FAIR; sched_weight := CONFIG_SCHED_DEFAULT_WEIGHT; sched_deadline := 0;
     vruntime := 0; on_run_queue := false; time_slice_ticks := 0; time_slice_remaining := 0;
     wake_deadline := 0; next_run := None; next_sleep := None; entry := None |}.

Definition free_slot (p : process) : bool :=
  bool_decide (state p = PROC_UNUSED) || bool_decide (state p = PROC_ZOMBIE).

Definition alloc_process_slot (s : sched) : option nat * sched :=
  match first_index free_slot (processes s) with
  | None => (None, s)
  | Some i => (Some i, emit (EIpcAttach i) (upd i (fun _ => blank_process) s))
  end.

Definition stack_align (ptr : Z) : Z := Z.land ptr (not32 15).

(** [next_pid++] on an [int]. *)
Definition acquire_pid (s : sched) : Z * sched :=
  let s := if next_pid s <=? 0 then put_next_pid 1 s else s in
  (next_pid s, put_next_pid (s32 (next_pid s + 1)) s).

Definition scheduler_default_user_priority : Z :=
  let candidate := SCHED_PRIORITY_MIN + 1 in
  scheduler_clamp_priority (if SCHED_PRIORITY_MAX <? candidate then SCHED_PRIORITY_MAX else candidate).

Definition scheduler_default_kernel_priority : Z := scheduler_clamp_priority SCHED_PRIORITY_MIN.

(** The words pushed on a new stack, the last one at the stack pointer: the
    return address, a zero, the flags, and six saved registers. *)
Definition initial_frame (bootstrap : Z) : list Z := [bootstrap; 0; 514; 0; 0; 0; 0; 0; 0].

(** The fields a new thread starts with; its stack and its stack pointer are still those
    of the slot. *)
Definition start_thread (entry' : Z) (size : Z) (kind' : thread_kind_t) (priority pid' : Z) (p : process) : process :=
  {| pid := pid'; state := PROC_READY; esp := esp p; stack_size := size; stack_words := stack_words p; exit_code := 0; kind := kind';
     base_priority := scheduler_clamp_priority priority; dynamic_priority := scheduler_clamp_priority priority;
     sched_policy := SCHED_POLICY_FAIR; sched_weight := CONFIG_SCHED_DEFAULT_WEIGHT; sched_deadline := 0;
     vruntime := 0; on_run_queue := false; time_slice_ticks := 0; time_slice_remaining := 0;
     wake_deadline := 0; next_run := None; next_sleep := None; entry := Some entry' |}.

(** Where the linker put each [processes[i].stack] and [thread_bootstrap]; the stacks lie
    below the end of the address space. *)
Record placement := Placement {
  stack_addr : nat → Z;
  thread_bootstrap : Z;
  stacks_inside i : (i < MAX_PROCS)%nat → 0 ≤ stack_addr i ∧ stack_addr i + PROC_STACK_SIZE < 4294967296
}.

Section process.
Context (place : placement).

(** A word stored at an address of the stack of process [i].  Outside the array it would
    overwrite other fields of the table. *)
Definition in_stack (i : nat) (a : Z) : bool := (stack_addr place i <=? a) && (a + 4 <=? stack_addr place i + PROC_STACK_SIZE).

Definition set_word (a w : Z) (p : process) : process := set_stack_words (<[a := w]> (stack_words p)) p.

Definition store_word (i : nat) (a w : Z) (s : sched) : sched := if in_stack i a then upd i (set_word a w) s else faulted s.

(** [*--sp = w;] for each word. *)
Fixpoint push_words (i : nat) (sp : Z) (ws : list Z) (s : sched) : Z * sched :=
  match ws with
  | [] => (sp, s)
  | w :: ws' => let sp := sp -32 4 in push_words i sp ws' (store_word i sp w s)
  end.

(** The first frame of a thread, on top of its stack. *)
Definition push_frame (i : nat) (size : Z) (s : sched) : sched :=
  let stack_top := stack_align (stack_addr place i +32 size) in
  let '(sp, s) := push_words i stack_top (initial_frame (thread_bootstrap place)) s in
  upd i (set_esp sp) s.

Definition scheduler_create_thread (entry' : option Z) (stack_size' : Z) (kind' : thread_kind_t)
    (base_priority' : Z) (emit_event is_idle : bool) (s : sched) : option nat * sched :=
  match entry' with
  | None => (None, s)
  | Some entry' =>
      let size := if (stack_size' =? 0) || (PROC_STACK_SIZE <? stack_size') then PROC_STACK_SIZE else stack_size' in
      match alloc_process_slot s with
      | (None, s) => (None, s)
      | (Some i, s) =>
          let '(pid', s) := if is_idle then (0, s) else acquire_pid s in
          let s := upd i (start_thread entry' size kind' base_priority' pid') s in
          let s := push_frame i size s in
          let s := scheduler_arm_timeslice i s in
          let s := if is_idle then put_idle_process (Some i) s else scheduler_enqueue_ready i s in
          let s :=
            if emit_event && (0 <? pid') then
              scheduler_send_event SCHED_EVENT_CREATE pid' 0 PROC_READY
                (log_process_event (lit "process: created pid ") pid' s)
            else s in
          (Some i, s)
      end
  end.

(** The pid of the new process and the publication of the task list. *)
Definition created (r : option nat * sched) : Z * sched :=
  let '(proc_exec, s) := r in
  let pid' := match i ← proc_exec; processes s !! i with Some p => pid p | None => -1 end in
  (pid', if 0 <? pid' then emit EPublishTasks s else s).

Definition process_create (entry' : option Z) (stack_size' : Z) (s : sched) : Z * sched :=
  created (scheduler_create_thread entry' stack_size' THREAD_KIND_USER scheduler_default_user_priority true false s).

Definition process_create_kernel (entry' : option Z) (stack_size' : Z) (s : sched) : Z * sched :=
  created (scheduler_create_thread entry' stack_size' THREAD_KIND_KERNEL scheduler_default_kernel_priority true false s).

Definition reset_process (p : process) : process :=
  {| pid := -1; state := PROC_UNUSED; esp := esp p; stack_size := PROC_STACK_SIZE; stack_words := stack_words p; exit_code := 0;
     kind := kind p; base_priority := base_priority p; dynamic_priority := dynamic_priority p;
     sched_policy := SCHED_POLICY_FAIR; sched_weight := CONFIG_SCHED_DEFAULT_WEIGHT; sched_deadline := 0;
     vruntime := 0; on_run_queue := false; time_slice_ticks := 0; time_slice_remaining := 0;
     wake_deadline := 0; next_run := None; next_sleep := None; entry := entry p |}.

(** The resets of [process_system_init], before it creates the idle thread. *)
Definition reset_tables (s : sched) : sched :=
  let s := put_processes (reset_process <$> processes s) s in
  let s := put_effects (effects s ++ (EIpcAttach <$> seq 0 (length (processes s)))) s in
  let s := put_ready_queues ((fun _ => {| head := None; tail := None |}) <$> ready_queues s) s in
  let s := put_ready_bitmap 0 s in
  let s := put_current_process None s in
  let s := put_idle_process None s in
  let s := put_sleep_list None s in
  let s := put_next_pid 1 s in
  let s := put_scheduler_active false s in
  put_scheduler_channel_id (default (-1) (ipc_service s)) s.

(** [idle_entry] is the address of [idle_thread]. *)
Definition process_system_init (idle_entry : Z) (s : sched) : sched :=
  snd (scheduler_create_thread (Some idle_entry) PROC_STACK_SIZE THREAD_KIND_KERNEL SCHED_PRIORITY_MAX false true
         (reset_tables s)).

End process.

Definition process_lookup (pid' : Z) (s : sched) : option nat :=
  if pid' <=? 0 then None
  else first_index (fun p => (pid p =? pid') && negb (bool_decide (state p = PROC_UNUSED))) (processes s).

Definition process_current (s : sched) : option nat := current_process s.

(** The fields of a reclaimed slot. *)
Definition reclaimed (p : process) : process :=
  {| pid := -1; state := PROC_UNUSED; esp := 0; stack_size := stack_size p; stack_words := stack_words p; exit_code := 0;
     kind := THREAD_KIND_KERNEL; base_priority := scheduler_clamp_priority SCHED_PRIORITY_MAX;
     dynamic_priority := scheduler_clamp_priority SCHED_PRIORITY_MAX;
     sched_policy := SCHED_POLICY_FAIR; sched_weight := CONFIG_SCHED_DEFAULT_WEIGHT; sched_deadline := 0;
     vruntime := 0; on_run_queue := false; time_slice_ticks := 0; time_slice_remaining := 0;
     wake_deadline := 0; next_run := None; next_sleep := next_sleep p; entry := None |}.

Definition reclaim_zombie (i : nat) (s : sched) : sched :=
  match processes s !! i with
  | None => faulted s
  | Some p =>
      if negb (bool_decide (state p = PROC_ZOMBIE)) then s
      else
        let s := scheduler_remove_from_sleep i s in
        let s := upd i reclaimed s in
        let s := emit (EIpcAttach i) s in
        scheduler_send_event SCHED_EVENT_RECLAIM (pid p) (exit_code p) PROC_UNUSED s
  end.

(** ** The scheduler loop *)

(** From the top of the loop to the switch to the chosen thread. *)
Definition schedule_next (now : Z) (s : sched) : sched :=
  let s := wake_sleepers now s in
  let '(next, s) := scheduler_select_next s in
  match match next with Some i => Some i | None => idle_process s end with
  | None => faulted s
  | Some i =>
      let s := put_current_process (Some i) s in
      let s := upd i (set_state PROC_RUNNING) s in
      scheduler_arm_timeslice i s
  end.

(** From the return of the switch to the end of the loop body. *)
Definition schedule_finish (s : sched) : sched :=
  match current_process s with
  | None => s
  | Some i =>
      let s := scheduler_account_runtime i s in
      let s :=
        match processes s !! i with
        | None => faulted s
        | Some p =>
            if bool_decide (state p = PROC_ZOMBIE) then
              let s := reclaim_zombie i s in
              let s := if 0 <? pid p then log_process_event (lit "process: reclaimed pid ") (pid p) s else s in
              emit EPublishTasks s
            else s
        end in
      let s :=
        match processes s !! i with
        | None => faulted s
        | Some p =>
            if bool_decide (state p = PROC_READY) && negb (bool_decide (idle_process s = Some i)) && negb (on_run_queue p)
            then scheduler_enqueue_ready i s else s
        end in
      put_current_process None s
  end.

(** [context_switch(&proc_exec->ctx, &scheduler_ctx)]: the loop runs until it
    switches to a thread.  A thread that resumes sets its state to
    [PROC_RUNNING], which the loop has just done. *)
Definition context_switch (now : Z) (s : sched) : sched := schedule_next now (schedule_finish s).

Definition process_schedule (now : Z) (s : sched) : sched :=
  if scheduler_active s then s else schedule_next now (put_scheduler_active true s).

(** ** What threads and interrupts call *)

(** The current thread, unless it is the idle thread. *)
Definition running_thread (s : sched) : option nat :=
  match current_process s with
  | None => None
  | Some i => if decide (idle_process s = Some i) then None else Some i
  end.

Definition scheduler_preempt_running (demote : bool) (now : Z) (s : sched) : sched :=
  match current_process s with
  | None => s
  | Some i =>
      if decide (idle_process s = Some i) then context_switch now s
      else
        let s := if demote then scheduler_demote_priority i s else s in
        let s := upd i (set_state PROC_READY) s in
        let s := scheduler_enqueue_ready i s in
        context_switch now s
  end.

Definition process_yield (now : Z) (s : sched) : sched :=
  match running_thread s with
  | None => s
  | Some i =>
      let s := scheduler_reset_priority i s in
      let s := upd i (set_state PROC_READY) s in
      let s := upd i (set_time_slice_remaining 0) s in
      let s := scheduler_enqueue_ready i s in
      context_switch now s
  end.

Definition process_block_current (now : Z) (s : sched) : sched :=
  match running_thread s with
  | None => s
  | Some i =>
      let s := upd i (set_state PROC_WAITING) s in
      let s := upd i (set_time_slice_remaining 0) s in
      context_switch now s
  end.

(** [now] is the tick count the thread reads, [now'] the one the loop reads. *)
Definition process_sleep (ticks now now' : Z) (s : sched) : sched :=
  match running_thread s with
  | None => s
  | Some i =>
      let ticks := if ticks =? 0 then 1 else ticks in
      let s := upd i (set_wake_deadline (now +64 ticks)) s in
      let s := upd i (set_state PROC_WAITING) s in
      let s := upd i (set_time_slice_remaining 0) s in
      let s := scheduler_insert_sleep i s in
      context_switch now' s
  end.

Definition process_exit (code now : Z) (s : sched) : sched :=
  match current_process s with
  | None => s
  | Some i =>
      match processes s !! i with
      | None => faulted s
      | Some p =>
          let s := emit (EServiceExit (pid p)) (emit (EIpcCleanup i) s) in
          let s := scheduler_remove_from_sleep i s in
          let s := upd i (fun p => set_next_run None (set_on_run_queue false p)) s in
          let s := upd i (fun p => set_state PROC_ZOMBIE (set_exit_code code p)) s in
          let s := log_process_event (lit "process: exit pid ") (pid p) s in
          let s := scheduler_send_event SCHED_EVENT_EXIT (pid p) code PROC_ZOMBIE s in
          let s := emit EPublishTasks s in
          context_switch now s
      end
  end.

Definition process_wake (i : nat) (s : sched) : sched :=
  match processes s !! i with
  | None => faulted s
  | Some p =>
      if negb (bool_decide (state p = PROC_WAITING)) then s
      else
        let s := scheduler_remove_from_sleep i s in
        let s := scheduler_boost_priority i s in
        let s := upd i (set_state PROC_READY) s in
        scheduler_enqueue_ready i s
  end.

Definition process_scheduler_tick (now now' : Z) (s : sched) : sched :=
  if negb (scheduler_active s) then s
  else
    let s := wake_sleepers now s in
    match current_process s with
    | None => s
    | Some i =>
        if decide (idle_process s = Some i) then
          if negb (ready_bitmap s =? 0) then scheduler_preempt_running false now' s else s
        else
          let s := upd i (fun p => if 0 <? time_slice_remaining p
                                   then set_time_slice_remaining (time_slice_remaining p - 1) p else p) s in
          match processes s !! i with
          | None => faulted s
          | Some p => if time_slice_remaining p =? 0 then scheduler_preempt_running true now' s else s
          end
    end.

(** [policy] is the caller's byte. *)
Definition process_set_scheduler (pid' policy weight deadline_ticks now : Z) (s : sched) : Z * sched :=
  match if pid' <=? 0 then process_current s else process_lookup pid' s with
  | None => (-1, s)
  | Some i =>
      let effective := if weight =? 0 then CONFIG_SCHED_DEFAULT_WEIGHT else weight in
      if policy =? 0 then
        (0, upd i (fun p => set_sched_deadline 0 (set_sched_weight effective (set_sched_policy SCHED_POLICY_FAIR p))) s)
      else if policy =? 1 then
        let deadline := if negb (deadline_ticks =? 0) && (deadline_ticks <? now)
                        then now +64 deadline_ticks else deadline_ticks in
        (0, upd i (fun p => set_sched_deadline deadline (set_sched_weight effective (set_sched_policy SCHED_POLICY_DEADLINE p))) s)
      else (-1, s)
  end.

(** ** Reports *)

Definition listed (p : process) : bool := negb (bool_decide (state p = PROC_UNUSED)) && (0 <? pid p).

Definition process_count (s : sched) : nat := length (filter (fun p => listed p = true) (processes s)).

Record process_info := ProcessInfo {
  i_pid : Z; i_state : proc_state_t; i_kind : thread_kind_t; i_base_priority : Z; i_dynamic_priority : Z;
  i_sched_policy : sched_policy_t; i_sched_weight : Z; i_sched_deadline : Z; i_vruntime : Z;
  i_time_slice_remaining : Z; i_time_slice_ticks : Z; i_wake_deadline : Z; i_stack_pointer : Z; i_stack_size : Z
}.

Definition info_of (p : process) : process_info :=
  {| i_pid := pid p; i_state := state p; i_kind := kind p; i_base_priority := base_priority p;
     i_dynamic_priority := dynamic_priority p; i_sched_policy := sched_policy p;
     i_sched_weight := sched_weight p; i_sched_deadline := sched_deadline p; i_vruntime := vruntime p;
     i_time_slice_remaining := time_slice_remaining p; i_time_slice_ticks := time_slice_ticks p;
     i_wake_deadline := wake_deadline p; i_stack_pointer := esp p; i_stack_size := stack_size p |}.

Fixpoint snapshot_loop (procs : list process) (room : nat) : list process_info :=
  match procs, room with
  | p :: procs', S room' => if listed p then info_of p :: snapshot_loop procs' room' else snapshot_loop procs' room
  | _, _ => []
  end.

(** The entries written; their number is the return value. *)
Definition process_snapshot (out : option nat) (s : sched) : list process_info :=
  match out with None => [] | Some max_entries => snapshot_loop (processes s) max_entries end.

End Sched.
