(* ===== verification/SchedLists.v ===== *)
(** The intrusive lists of the scheduler represent lists of process indices.

    [shape s qs sl] says that the four run queues of [s] hold the lists [qs],
    the sleep list holds [sl], the [on_run_queue] flags and the ready bitmap agree
    with [qs], and no fault has happened.  Every primitive of [Sched.v] that
    relinks processes is shown here to perform the corresponding operation on
    the lists, without faulting and without touching any other field. *)

From S2P Require Import Prelude Sched.

Module SchedLists.

Import Sched.

(** ** List segments *)

(** From the pointer [o], following [next] through the processes [l], one
    arrives at the pointer [m]. *)
Fixpoint seg (next : process → option nat) (procs : list process) (o : option nat) (l : list nat)
    (m : option nat) : Prop :=
  match l with
  | [] => o = m
  | i :: l' => o = Some i ∧ ∃ p, procs !! i = Some p ∧ seg next procs (next p) l' m
  end.

Section seg.
Context (next : process → option nat).
Implicit Types (procs : list process) (l : list nat).

Lemma seg_app procs o l1 l2 m :
  seg next procs o (l1 ++ l2) m ↔ ∃ k, seg next procs o l1 k ∧ seg next procs k l2 m.
Proof.
  revert o. induction l1 as [|i l1 IH]; intros o; simpl; [naive_solver|]. setoid_rewrite IH. naive_solver.
Qed.

(** The fields outside the segment do not matter. *)
Lemma seg_ext procs procs' o l m :
  (∀ i, i ∈ l → (next <$> procs' !! i) = (next <$> procs !! i)) →
  seg next procs o l m → seg next procs' o l m.
Proof.
  revert o. induction l as [|i l IH]; intros o H; simpl; [done|].
  intros (-> & p & Hp & Hs). split; [done|]. specialize (H i) as Hi. rewrite Hp in Hi. simpl in Hi.
  destruct (procs' !! i) as [p'|]; [|by specialize (Hi ltac:(set_solver))].
  specialize (Hi ltac:(set_solver)). simpl in Hi. injection Hi as Hi. exists p'. split; [done|].
  rewrite Hi. apply IH; [|done]. intros j Hj. apply H. set_solver.
Qed.

Lemma seg_lookup procs o l m i : seg next procs o l m → i ∈ l → is_Some (procs !! i).
Proof.
  revert o. induction l as [|j l IH]; intros o; simpl; [set_solver|].
  intros (_ & p & Hp & Hs) [->|Hi]%elem_of_cons; eauto.
Qed.

Lemma seg_alter_ne procs o l m f j :
  j ∉ l → seg next procs o l m → seg next (alter f j procs) o l m.
Proof.
  intros Hj. apply seg_ext. intros i Hi. rewrite list_lookup_alter_ne by set_solver. done.
Qed.

Lemma seg_alter_same procs o l m f j :
  (∀ p, next (f p) = next p) → seg next procs o l m → seg next (alter f j procs) o l m.
Proof.
  intros Hf. apply seg_ext. intros i _. rewrite list_lookup_alter.
  case_decide; [|done]. subst. destruct (procs !! i); simpl; [by rewrite Hf|done].
Qed.

(** Redirecting the last link of a segment. *)
Lemma seg_relink procs o l t m m' f :
  seg next procs o (l ++ [t]) m → NoDup (l ++ [t]) → (∀ p, next (f p) = m') →
  seg next (alter f t procs) o (l ++ [t]) m'.
Proof.
  rewrite !seg_app. intros (k & H1 & H2) Hnd Hf. exists k. apply NoDup_app in Hnd as (_ & Hd & _).
  split; [apply seg_alter_ne; [|done]; intros Ht; by apply (Hd t Ht), list_elem_of_singleton|].
  simpl in *. destruct H2 as (-> & p & Hp & _). split; [done|]. exists (f p).
  rewrite list_lookup_alter_eq, Hp. simpl. by rewrite Hf.
Qed.

(** A segment that ends in [NULL] is determined by its start. *)
Lemma seg_None_inv procs l : seg next procs None l None → l = [].
Proof. destruct l; [done|]. simpl. naive_solver. Qed.

Lemma seg_head procs o l m : seg next procs o l m → o = match l with [] => m | i :: _ => Some i end.
Proof. destruct l; simpl; naive_solver. Qed.

End seg.

(** A duplicate-free list of table indices is no longer than the table. *)
Lemma nodup_bound (l : list nat) n : NoDup l → (∀ i, i ∈ l → (i < n)%nat) → (length l ≤ n)%nat.
Proof.
  intros Hnd Hlt. rewrite <- (length_seq n 0). apply submseteq_length, NoDup_submseteq; [done|].
  intros i Hi. apply elem_of_seq. specialize (Hlt i Hi). lia.
Qed.

Lemma NoDup_concat_lookup (qs : list (list nat)) k l : NoDup (concat qs) → qs !! k = Some l → NoDup l.
Proof.
  intros H Hk. rewrite <- (take_drop_middle qs k l Hk), concat_app in H. simpl in H.
  apply NoDup_app in H as (_ & _ & H). by apply NoDup_app in H as [? _].
Qed.

Lemma elem_of_concat_lookup (qs : list (list nat)) i : i ∈ concat qs ↔ ∃ k l, qs !! k = Some l ∧ i ∈ l.
Proof.
  induction qs as [|l qs IH]; simpl; [set_solver|]. rewrite elem_of_app, IH. split.
  - intros [H|(k & l' & ? & ?)]; [by exists 0%nat, l|by exists (S k), l'].
  - intros ([|k] & l' & Hk & Hi); simpl in Hk; [injection Hk as ->; by left|right; eauto].
Qed.

Lemma NoDup_concat_ne (qs : list (list nat)) k k' l l' i :
  NoDup (concat qs) → qs !! k = Some l → qs !! k' = Some l' → i ∈ l → i ∈ l' → k = k'.
Proof.
  revert k k'. induction qs as [|q qs IH]; intros k k' H Hk Hk' Hi Hi'; [done|].
  simpl in H. apply NoDup_app in H as (_ & Hd & Hnd).
  destruct k as [|k], k' as [|k']; simpl in *; simplify_eq; [done| | |f_equal; eauto].
  - exfalso. apply (Hd i Hi), elem_of_concat_lookup. eauto.
  - exfalso. apply (Hd i Hi'), elem_of_concat_lookup. eauto.
Qed.

(** ** The representation *)

Definition nonempty (l : list nat) : bool := match l with [] => false | _ => true end.

Record shape (s : sched) (qs : list (list nat)) (sl : list nat) : Prop := {
  sh_procs : length (processes s) = MAX_PROCS;
  sh_levels : length (ready_queues s) = SCHED_PRIORITY_LEVELS;
  sh_len : length qs = SCHED_PRIORITY_LEVELS;
  sh_queue k q l : ready_queues s !! k = Some q → qs !! k = Some l →
    seg next_run (processes s) (head q) l None ∧ tail q = last l;
  sh_nodup : NoDup (concat qs);
  sh_on i p : processes s !! i = Some p → on_run_queue p = bool_decide (i ∈ concat qs);
  sh_bits k : Z.testbit (ready_bitmap s) (Z.of_nat k) = from_option nonempty false (qs !! k);
  sh_bitmap : 0 ≤ ready_bitmap s;
  sh_sleep : seg next_sleep (processes s) (sleep_list s) sl None;
  sh_sleep_nodup : NoDup sl;
  sh_fault : fault s = false
}.

(** The fields of a process that are not links. *)
Definition core (p : process) : process :=
  set_next_run None (set_next_sleep None (set_on_run_queue false p)).

Definition cores (s : sched) : list process := core <$> processes s.

(** Everything but the links, the queues and the bitmap. *)
Definition frame (s s' : sched) : Prop :=
  cores s' = cores s ∧ current_process s' = current_process s ∧ idle_process s' = idle_process s ∧
  next_pid s' = next_pid s ∧ scheduler_active s' = scheduler_active s ∧
  scheduler_channel_id s' = scheduler_channel_id s ∧ ipc_service s' = ipc_service s ∧ effects s' = effects s.

#[export] Instance frame_preorder : PreOrder frame.
Proof. split; [intros s; by split_and!|]. unfold frame. intros s1 s2 s3. naive_solver congruence. Qed.

(** ** Updates that are not relinkings *)

(** A function that leaves the links alone. *)
Definition link_free (f : process → process) : Prop :=
  ∀ p, next_run (f p) = next_run p ∧ next_sleep (f p) = next_sleep p ∧ on_run_queue (f p) = on_run_queue p.

Lemma upd_ok i f s : (i < length (processes s))%nat → upd i f s = put_processes (alter f i (processes s)) s.
Proof. intros H. unfold upd. apply lookup_lt_is_Some_2 in H as [p ->]. done. Qed.

Lemma upd_lookup i f s p : processes s !! i = Some p → upd i f s = put_processes (<[i := f p]> (processes s)) s.
Proof. intros H. unfold upd. by rewrite H, (alter_insert f _ i p). Qed.

Lemma lookup_bound {s qs sl i p} : shape s qs sl → processes s !! i = Some p → (i < MAX_PROCS)%nat.
Proof. intros Hs H. apply lookup_lt_Some in H. by rewrite (sh_procs _ _ _ Hs) in H. Qed.

Lemma bound_lookup {s qs sl} i : shape s qs sl → (i < MAX_PROCS)%nat → ∃ p, processes s !! i = Some p.
Proof. intros Hs H. apply lookup_lt_is_Some_2. by rewrite (sh_procs _ _ _ Hs). Qed.

Lemma shape_procs s qs sl procs :
  shape s qs sl → length procs = MAX_PROCS →
  (∀ i, (next_run <$> procs !! i) = (next_run <$> processes s !! i)) →
  (∀ i, (next_sleep <$> procs !! i) = (next_sleep <$> processes s !! i)) →
  (∀ i, (on_run_queue <$> procs !! i) = (on_run_queue <$> processes s !! i)) →
  shape (put_processes procs s) qs sl.
Proof.
  intros Hs Hl H1 H2 H3. constructor; simpl; try apply Hs; [done| | |].
  - intros k q l Hq Hk. destruct (sh_queue _ _ _ Hs k q l Hq Hk) as [Hseg Ht]. split; [|done].
    eapply seg_ext; [|exact Hseg]. intros i _. apply H1.
  - intros i p Hp. specialize (H3 i). rewrite Hp in H3. destruct (processes s !! i) as [p'|] eqn:E; [|done].
    simpl in H3. injection H3 as ->. by apply (sh_on _ _ _ Hs).
  - eapply seg_ext; [|apply Hs]. intros i _. apply H2.
Qed.

Lemma fmap_alter_same {A B} (g : A → B) (f : A → A) (l : list A) i j :
  (∀ x, g (f x) = g x) → g <$> alter f i l !! j = g <$> l !! j.
Proof.
  intros H. rewrite list_lookup_alter. case_decide; [|done]. subst. destruct (l !! j); simpl; [by rewrite H|done].
Qed.

Lemma shape_upd s qs sl i f :
  shape s qs sl → (i < MAX_PROCS)%nat → link_free f → shape (upd i f s) qs sl.
Proof.
  intros Hs Hi Hf. rewrite upd_ok by (rewrite (sh_procs _ _ _ Hs); done).
  apply shape_procs; [done|by rewrite length_alter, (sh_procs _ _ _ Hs)| | |];
    intros j; apply fmap_alter_same; intros p; apply Hf.
Qed.

(** A process on no list may be rewritten as long as its flag stays down. *)
Lemma shape_upd_out s qs sl i f :
  shape s qs sl → (i < MAX_PROCS)%nat → (i ∉ concat qs) → (i ∉ sl) →
  (∀ p, on_run_queue (f p) = false) → shape (upd i f s) qs sl.
Proof.
  intros Hs Hi Hq Hsl Hf. pose proof (sh_procs _ _ _ Hs) as Hlen. rewrite upd_ok by lia.
  constructor; simpl; try apply Hs.
  - rewrite length_alter. apply Hs.
  - intros k q l Hk Hl. destruct (sh_queue _ _ _ Hs k q l Hk Hl) as [Hseg Ht]. split; [|done].
    apply seg_alter_ne; [|done]. intros H. apply Hq, elem_of_concat_lookup. eauto.
  - intros j p. rewrite list_lookup_alter. case_decide as Hd; [|apply (sh_on _ _ _ Hs)].
    subst. intros (q & Hp & ->)%fmap_Some. by rewrite Hf, bool_decide_eq_false_2.
  - apply seg_alter_ne; [done|apply Hs].
Qed.

(** Fields that no list depends on. *)
Lemma shape_put s qs sl cur idle np active ch eff :
  shape s qs sl →
  shape {| processes := processes s; ready_queues := ready_queues s; ready_bitmap := ready_bitmap s;
           current_process := cur; idle_process := idle; sleep_list := sleep_list s; next_pid := np;
           scheduler_active := active; scheduler_channel_id := ch; ipc_service := ipc_service s;
           effects := eff; fault := fault s |} qs sl.
Proof. intros []. by constructor. Qed.

Lemma cores_upd i f s :
  (i < length (processes s))%nat → (∀ p, core (f p) = f (core p)) → cores (upd i f s) = alter f i (cores s).
Proof.
  intros Hi Hf. rewrite upd_ok by done. unfold cores. simpl. apply list_fmap_alter.
  apply Forall_forall. intros p _. apply Hf.
Qed.

Lemma cores_same i f s :
  (i < length (processes s))%nat → (∀ p, core (f p) = core p) → cores (upd i f s) = cores s.
Proof.
  intros Hi Hf. rewrite upd_ok by done. unfold cores. simpl. apply list_eq. intros j.
  rewrite !list_lookup_fmap. by apply fmap_alter_same.
Qed.

(** ** Enqueueing *)

Lemma clamp_range v : 0 ≤ scheduler_clamp_priority v ≤ 3.
Proof.
  unfold scheduler_clamp_priority, SCHED_PRIORITY_MIN, SCHED_PRIORITY_MAX.
  change (u8 0) with 0. change (u8 3) with 3.
  destruct (v <? 0) eqn:E1; [lia|]. destruct (3 <? v) eqn:E2; [lia|]. bool_prop. rewrite u8_small by lia. lia.
Qed.

Lemma clamp_id v : 0 ≤ v ≤ 3 → scheduler_clamp_priority v = v.
Proof.
  intros H. unfold scheduler_clamp_priority, SCHED_PRIORITY_MIN, SCHED_PRIORITY_MAX.
  destruct (v <? 0) eqn:E1; bool_prop; [lia|]. destruct (3 <? v) eqn:E2; bool_prop; [lia|].
  apply u8_small. lia.
Qed.

Definition level (p : process) : nat := Z.to_nat (scheduler_clamp_priority (dynamic_priority p)).

Lemma level_lt p : (level p < SCHED_PRIORITY_LEVELS)%nat.
Proof. unfold level, SCHED_PRIORITY_LEVELS. pose proof (clamp_range (dynamic_priority p)). lia. Qed.

Lemma bit_testbit k j : Z.testbit (bit k) (Z.of_nat j) = bool_decide (j = k).
Proof.
  unfold bit. rewrite Z.shiftl_1_l, Z.pow2_bits_eqb by lia. apply eq_bool_prop_intro.
  rewrite !Is_true_true, Z.eqb_eq, bool_decide_eq_true. lia.
Qed.

Lemma not_bit_testbit k j :
  (k < 32)%nat → (j < 32)%nat → Z.testbit (not32 (bit k)) (Z.of_nat j) = negb (bool_decide (j = k)).
Proof.
  intros Hk Hj. unfold not32. change 4294967295 with (Z.ones 32).
  rewrite Z.sub_nocarry_ldiff.
  - rewrite Z.ldiff_spec, bit_testbit, Z.ones_spec_low by lia. by rewrite andb_true_l.
  - apply Z.bits_inj'. intros n Hn. rewrite Z.ldiff_spec, Z.bits_0.
    destruct (decide (n < 32)) as [Hlt|Hge]; [by rewrite Z.ones_spec_low, andb_false_r by lia|].
    unfold bit. rewrite Z.shiftl_1_l, Z.pow2_bits_false by lia. done.
Qed.

(** Splitting a list of queues at one of them. *)
Lemma queues_split (qs : list (list nat)) k l (f : list nat → list nat) :
  qs !! k = Some l →
  qs = take k qs ++ l :: drop (S k) qs ∧ alter f k qs = take k qs ++ f l :: drop (S k) qs.
Proof.
  intros H. split; [by rewrite take_drop_middle|].
  rewrite (alter_insert f qs k l H). apply insert_take_drop. by eapply lookup_lt_Some.
Qed.

Lemma concat_append (qs : list (list nat)) k i :
  (k < length qs)%nat → concat (alter (fun l => l ++ [i]) k qs) ≡ₚ i :: concat qs.
Proof.
  intros [l Hl]%lookup_lt_is_Some_2. destruct (queues_split qs k l (fun l => l ++ [i]) Hl) as [E1 E2].
  rewrite E2. rewrite E1 at 3. rewrite !concat_app. simpl. solve_Permutation.
Qed.

(** The run queue a process joins, in front of nobody. *)
Definition enqueued (k i : nat) (qs : list (list nat)) : list (list nat) := alter (fun l => l ++ [i]) k qs.

Lemma append_shape s qs sl i k l hd procs' :
  shape s qs sl → qs !! k = Some l → (i ∉ concat qs) → length procs' = MAX_PROCS →
  seg next_run procs' hd (l ++ [i]) None →
  (∀ j, j ≠ i → (j ∉ l) → next_run <$> procs' !! j = next_run <$> processes s !! j) →
  (∀ j, next_sleep <$> procs' !! j = next_sleep <$> processes s !! j) →
  (∀ j, on_run_queue <$> procs' !! j = if decide (j = i) then Some true else on_run_queue <$> processes s !! j) →
  shape {| processes := procs'; ready_queues := <[k := {| head := hd; tail := Some i |}]> (ready_queues s);
           ready_bitmap := Z.lor (ready_bitmap s) (bit k); current_process := current_process s;
           idle_process := idle_process s; sleep_list := sleep_list s; next_pid := next_pid s;
           scheduler_active := scheduler_active s; scheduler_channel_id := scheduler_channel_id s;
           ipc_service := ipc_service s; effects := effects s; fault := fault s |}
        (enqueued k i qs) sl.
Proof.
  intros Hs Hl Hi Hlen Hseg Hrun Hsleep Hon. apply lookup_lt_Some in Hl as Hk.
  pose proof (sh_nodup _ _ _ Hs) as Hnd. unfold enqueued.
  constructor; simpl; try apply Hs.
  - done.
  - rewrite length_insert. apply Hs.
  - rewrite length_alter. apply Hs.
  - intros k' q l' Hq Hl'. destruct (decide (k = k')) as [<-|Hne].
    + rewrite list_lookup_insert_eq in Hq by (rewrite (sh_levels _ _ _ Hs), <- (sh_len _ _ _ Hs); done).
      rewrite list_lookup_alter_eq, Hl in Hl'. injection Hq as <-. injection Hl' as <-.
      split; [done|]. simpl. by rewrite last_snoc.
    + rewrite list_lookup_insert_ne in Hq by done. rewrite list_lookup_alter_ne in Hl' by done.
      destruct (sh_queue _ _ _ Hs k' q l' Hq Hl') as [Hs' Ht]. split; [|done].
      eapply seg_ext; [|exact Hs']. intros j Hj. apply Hrun.
      * intros ->. apply Hi, elem_of_concat_lookup. eauto.
      * intros Hj'. apply Hne. by eapply NoDup_concat_ne.
  - rewrite concat_append by done. by apply NoDup_cons.
  - intros j p Hp. specialize (Hon j). rewrite Hp in Hon. simpl in Hon. case_decide as Hd.
    + injection Hon as ->. symmetry. apply bool_decide_eq_true. rewrite concat_append by done. set_solver.
    + destruct (processes s !! j) as [p'|] eqn:E; simpl in Hon; [|done]. injection Hon as ->.
      rewrite (sh_on _ _ _ Hs j p' E). apply bool_decide_ext. rewrite concat_append by done. set_solver.
  - intros j. rewrite Z.lor_spec, bit_testbit, (sh_bits _ _ _ Hs). destruct (decide (j = k)) as [->|Hne].
    + rewrite bool_decide_eq_true_2, orb_true_r by done. rewrite list_lookup_alter_eq, Hl. simpl. by destruct l.
    + rewrite bool_decide_eq_false_2, orb_false_r by done. by rewrite list_lookup_alter_ne.
  - apply Z.lor_nonneg. split; [apply Hs|]. unfold bit. apply Z.shiftl_nonneg. lia.
  - eapply seg_ext; [|apply Hs]. intros j _. apply Hsleep.
Qed.

(** Appending to an empty queue, and behind the last process of a queue. *)
Lemma enqueue_first s qs sl i p k q :
  shape s qs sl → processes s !! i = Some p → (i ∉ concat qs) → ready_queues s !! k = Some q → qs !! k = Some [] →
  let s' := upd i (set_on_run_queue true) (set_bit k (append_queue k i (upd i (set_next_run None) s))) in
  shape s' (enqueued k i qs) sl ∧ frame s s'.
Proof.
  intros Hs Hp Hi Hq Hl. destruct (sh_queue _ _ _ Hs k q [] Hq Hl) as [Hseg Htail].
  pose proof (sh_procs _ _ _ Hs) as Hlen. pose proof (lookup_bound Hs Hp) as Hlt.
  assert (Hk : (k < SCHED_PRIORITY_LEVELS)%nat) by (rewrite <- (sh_levels _ _ _ Hs); by eapply lookup_lt_Some).
  assert (Hh : head q = None) by (by apply seg_head in Hseg).
  rewrite (upd_ok i (set_next_run None) s) by lia. unfold append_queue. simpl. rewrite Hq, Hh. unfold put_queue. simpl. rewrite Hq.
  rewrite upd_ok by (simpl; rewrite length_alter; lia). simpl. unfold set_bit, put_ready_bitmap. simpl.
  split; [|split_and!; try done].
  - apply (append_shape s qs sl i k [] (Some i)); try done.
    + by rewrite !length_alter.
    + simpl. split; [done|]. eexists. rewrite !list_lookup_alter_eq, Hp. simpl. split; done.
    + intros j Hj _. by rewrite !list_lookup_alter_ne by done.
    + intros j. by rewrite !fmap_alter_same.
    + intros j. case_decide as Hd; [subst; by rewrite list_lookup_alter_eq, list_lookup_alter_eq, Hp|].
      by rewrite !list_lookup_alter_ne by done.
  - unfold cores. simpl. apply list_eq. intros j. rewrite !list_lookup_fmap. by rewrite !fmap_alter_same.
Qed.

Lemma enqueue_behind s qs sl i p k q l0 t :
  shape s qs sl → processes s !! i = Some p → (i ∉ concat qs) → ready_queues s !! k = Some q → qs !! k = Some (l0 ++ [t]) →
  let s' := upd i (set_on_run_queue true) (set_bit k (append_queue k i (upd i (set_next_run None) s))) in
  shape s' (enqueued k i qs) sl ∧ frame s s'.
Proof.
  intros Hs Hp Hi Hq Hl. destruct (sh_queue _ _ _ Hs k q _ Hq Hl) as [Hseg Htail].
  pose proof (sh_procs _ _ _ Hs) as Hlen. pose proof (lookup_bound Hs Hp) as Hlt.
  assert (Hk : (k < SCHED_PRIORITY_LEVELS)%nat) by (rewrite <- (sh_levels _ _ _ Hs); by eapply lookup_lt_Some).
  assert (Hil : i ∉ l0 ++ [t]) by (intros H; apply Hi, elem_of_concat_lookup; eauto).
  rewrite last_snoc in Htail. assert (Hti : t ≠ i) by set_solver.
  assert (Hh : ∃ h, head q = Some h) by (apply seg_head in Hseg; destruct l0; simpl in Hseg; eauto). destruct Hh as [h Hh].
  assert (Ht : ∃ pt, processes s !! t = Some pt) by (eapply seg_lookup; [exact Hseg|set_solver]).
  destruct Ht as [pt Hpt]. apply lookup_lt_Some in Hpt as Htlt.
  pose proof (NoDup_concat_lookup qs k _ (sh_nodup _ _ _ Hs) Hl) as Hndl.
  rewrite (upd_ok i (set_next_run None) s) by lia. unfold append_queue. cbn [ready_queues put_processes]. rewrite Hq, Hh, Htail.
  rewrite (upd_ok t) by (cbn [processes put_processes]; rewrite length_alter; done).
  unfold put_queue. cbn [ready_queues put_processes]. rewrite Hq.
  rewrite upd_ok by (simpl; rewrite !length_alter; lia). simpl. unfold set_bit, put_ready_bitmap. simpl.
  split; [|split_and!; try done].
  - apply (append_shape s qs sl i k (l0 ++ [t]) (Some h)); try done.
    + by rewrite !length_alter.
    + rewrite seg_app. exists (Some i). split.
      * apply seg_alter_ne; [done|]. eapply (seg_relink _ _ _ _ _ None); [|done|done].
        apply seg_alter_ne; [done|]. by rewrite <- Hh.
      * simpl. split; [done|]. eexists. rewrite list_lookup_alter_eq, list_lookup_alter_ne, list_lookup_alter_eq, Hp by done.
        simpl. split; done.
    + intros j Hj Hjl. rewrite !list_lookup_alter_ne; set_solver.
    + intros j. by rewrite !fmap_alter_same.
    + intros j. case_decide as Hd.
      * subst. by rewrite list_lookup_alter_eq, list_lookup_alter_ne, list_lookup_alter_eq, Hp by done.
      * rewrite list_lookup_alter_ne by done. by rewrite !fmap_alter_same.
  - unfold cores. simpl. apply list_eq. intros j. rewrite !list_lookup_fmap. by rewrite !fmap_alter_same.
Qed.

Lemma enqueue_shape s qs sl i p :
  shape s qs sl → idle_process s ≠ Some i → processes s !! i = Some p → (i ∉ concat qs) →
  shape (scheduler_enqueue_ready i s) (enqueued (level p) i qs) sl ∧ frame s (scheduler_enqueue_ready i s).
Proof.
  intros Hs Hidle Hp Hi. unfold scheduler_enqueue_ready. rewrite decide_False by done. rewrite Hp.
  rewrite (sh_on _ _ _ Hs i p Hp), bool_decide_eq_false_2 by done.
  pose proof (level_lt p) as Hk. fold (level p).
  destruct (lookup_lt_is_Some_2 (ready_queues s) (level p)) as [q Hq]; [by rewrite (sh_levels _ _ _ Hs)|].
  destruct (lookup_lt_is_Some_2 qs (level p)) as [l Hl]; [by rewrite (sh_len _ _ _ Hs)|].
  destruct l as [|t l0 _] using rev_ind; [by eapply enqueue_first|by eapply enqueue_behind].
Qed.

Lemma enqueue_noop s qs sl i p :
  shape s qs sl → processes s !! i = Some p → i ∈ concat qs → scheduler_enqueue_ready i s = s.
Proof.
  intros Hs Hp Hi. unfold scheduler_enqueue_ready. case_decide; [done|].
  by rewrite Hp, (sh_on _ _ _ Hs i p Hp), bool_decide_eq_true_2.
Qed.

(** ** Removing from the queues *)

Definition without (i : nat) (l : list nat) : list nat := filter (fun j => j ≠ i) l.

Lemma elem_of_without i j l : j ∈ without i l ↔ j ≠ i ∧ j ∈ l.
Proof. unfold without. by rewrite list_elem_of_filter. Qed.

Lemma without_notin i l : (i ∉ l) → without i l = l.
Proof. intros H. apply filter_all, Forall_forall. intros j Hj ->. done. Qed.

Lemma without_app i l1 l2 : without i (l1 ++ l2) = without i l1 ++ without i l2.
Proof. apply filter_app. Qed.

Lemma without_cons i l : without i (i :: l) = without i l.
Proof. unfold without. apply filter_cons_False. naive_solver. Qed.

Lemma without_middle i l1 l2 : NoDup (l1 ++ i :: l2) → without i (l1 ++ i :: l2) = l1 ++ l2.
Proof.
  intros (_ & H1 & [H2 _]%NoDup_cons)%NoDup_app. rewrite without_app, without_cons, !without_notin; [done|done|].
  intros H. apply (H1 i H). set_solver.
Qed.

Lemma concat_without i (qs : list (list nat)) : concat (without i <$> qs) = without i (concat qs).
Proof. induction qs as [|l qs IH]; [done|]. cbn [fmap list_fmap concat]. by rewrite without_app, <- IH. Qed.

(** The state with one queue and the process table replaced, the bit of the
    queue cleared when the queue is empty. *)
Definition relinked (s : sched) (k : nat) (hd tl : option nat) (procs' : list process) : sched :=
  {| processes := procs'; ready_queues := <[k := {| head := hd; tail := tl |}]> (ready_queues s);
     ready_bitmap := match hd with None => Z.land (ready_bitmap s) (not32 (bit k)) | Some _ => ready_bitmap s end;
     current_process := current_process s; idle_process := idle_process s; sleep_list := sleep_list s;
     next_pid := next_pid s; scheduler_active := scheduler_active s;
     scheduler_channel_id := scheduler_channel_id s; ipc_service := ipc_service s; effects := effects s;
     fault := fault s |}.

Lemma relinked_frame s k hd tl procs' : core <$> procs' = cores s → frame s (relinked s k hd tl procs').
Proof. intros H. by split_and!. Qed.

Lemma remove_shape s qs sl i k l1 l2 hd procs' :
  shape s qs sl → qs !! k = Some (l1 ++ i :: l2) → length procs' = MAX_PROCS →
  seg next_run procs' hd (l1 ++ l2) None →
  (∀ j, (j ∉ l1 ++ i :: l2) → next_run <$> procs' !! j = next_run <$> processes s !! j) →
  (∀ j, next_sleep <$> procs' !! j = next_sleep <$> processes s !! j) →
  (∀ j, on_run_queue <$> procs' !! j = if decide (j = i) then Some false else on_run_queue <$> processes s !! j) →
  shape (relinked s k hd (last (l1 ++ l2)) procs') (without i <$> qs) sl.
Proof.
  intros Hs Hl Hlen Hseg Hrun Hsleep Hon. apply lookup_lt_Some in Hl as Hk.
  pose proof (sh_nodup _ _ _ Hs) as Hnd. pose proof (NoDup_concat_lookup qs k _ Hnd Hl) as Hndl.
  assert (Hk4 : (k < SCHED_PRIORITY_LEVELS)%nat) by (by rewrite <- (sh_len _ _ _ Hs)).
  assert (Hother : ∀ k' l', k' ≠ k → qs !! k' = Some l' → i ∉ l').
  { intros k' l' Hne Hl' Hi. apply Hne. eapply NoDup_concat_ne; [done..|set_solver]. }
  assert (Hq' : ∀ k', (without i <$> qs) !! k' = if decide (k' = k) then Some (l1 ++ l2) else qs !! k').
  { intros k'. rewrite list_lookup_fmap. case_decide as Hd.
    - subst. rewrite Hl. simpl. by rewrite without_middle.
    - destruct (qs !! k') as [l'|] eqn:E; simpl; [|done]. by rewrite without_notin by eauto. }
  pose proof (seg_head _ _ _ _ _ Hseg) as Hhd.
  constructor; simpl; try apply Hs.
  - done.
  - rewrite length_insert. apply Hs.
  - rewrite length_fmap. apply Hs.
  - intros k' q l' Hq Hl'. rewrite Hq' in Hl'. case_decide as Hd.
    + subst. injection Hl' as <-. rewrite list_lookup_insert_eq in Hq by (by rewrite (sh_levels _ _ _ Hs)).
      by injection Hq as <-.
    + rewrite list_lookup_insert_ne in Hq by done.
      destruct (sh_queue _ _ _ Hs k' q l' Hq Hl') as [Hs' Ht]. split; [|done].
      eapply seg_ext; [|exact Hs']. intros j Hj. apply Hrun.
      intros Hj'. apply Hd. by eapply (NoDup_concat_ne qs _ _ l').
  - rewrite concat_without. by apply NoDup_filter.
  - intros j p Hp. specialize (Hon j). rewrite Hp in Hon. simpl in Hon. rewrite concat_without.
    case_decide as Hd.
    + injection Hon as ->. symmetry. apply bool_decide_eq_false. rewrite elem_of_without. naive_solver.
    + destruct (processes s !! j) as [p'|] eqn:E; simpl in Hon; [|done]. injection Hon as ->.
      rewrite (sh_on _ _ _ Hs j p' E). apply bool_decide_ext. rewrite elem_of_without. naive_solver.
  - intros j. rewrite Hq'. destruct (l1 ++ l2) as [|h t] eqn:El; subst hd.
    + rewrite Z.land_spec, (sh_bits _ _ _ Hs). destruct (decide (j < 32)%nat) as [Hj|Hj].
      * rewrite not_bit_testbit by (unfold SCHED_PRIORITY_LEVELS in *; lia).
        case_decide as Hd; [subst; by rewrite bool_decide_eq_true_2, andb_false_r|].
        by rewrite bool_decide_eq_false_2, andb_true_r.
      * rewrite (lookup_ge_None_2 qs j) by (rewrite (sh_len _ _ _ Hs); unfold SCHED_PRIORITY_LEVELS; lia).
        case_decide; done.
    + rewrite (sh_bits _ _ _ Hs). case_decide as Hd; [subst|done]. rewrite Hl. by destruct l1.
  - destruct hd; [apply Hs|]. apply Z.land_nonneg. left. apply Hs.
  - eapply seg_ext; [|apply Hs]. intros j _. apply Hsleep.
Qed.

(** The new tail: the old one, or what precedes it when the tail goes. *)
Lemma unlink_tail l1 i l2 hd :
  NoDup (l1 ++ i :: l2) →
  (if decide (last (l1 ++ i :: l2) = Some i) then {| head := hd; tail := last l1 |}
   else {| head := hd; tail := last (l1 ++ i :: l2) |}) = {| head := hd; tail := last (l1 ++ l2) |}.
Proof.
  intros Hnd. destruct l2 as [|x l2 _] using rev_ind.
  - by rewrite last_snoc, app_nil_r, decide_True.
  - rewrite app_comm_cons, !app_assoc, !last_snoc. rewrite decide_False; [done|].
    intros [= ->]. apply NoDup_app in Hnd as (_ & _ & [Hnd _]%NoDup_cons). set_solver.
Qed.

(** The pointer after [i] on its queue. *)
Lemma seg_middle next procs o l1 i l2 m p :
  seg next procs o (l1 ++ i :: l2) m → procs !! i = Some p →
  seg next procs o l1 (Some i) ∧ seg next procs (next p) l2 m.
Proof. rewrite seg_app. simpl. intros (k & H1 & -> & p' & Hp' & H2) Hp. by simplify_eq. Qed.

Lemma put_queue_ok k q' s q :
  ready_queues s !! k = Some q → put_queue k q' s = put_ready_queues (<[k := q']> (ready_queues s)) s.
Proof. intros H. unfold put_queue. by rewrite H. Qed.

(** The result of taking [i] out of the queue [k] between [l1] and [l2]. *)
Definition unlinked (s : sched) (k i : nat) (l1 l2 : list nat) (s' : sched) : Prop :=
  ∃ hd procs', s' = relinked s k hd (last (l1 ++ l2)) procs' ∧
    core <$> procs' = cores s ∧ length procs' = MAX_PROCS ∧ seg next_run procs' hd (l1 ++ l2) None ∧
    (∀ j, (j ∉ l1 ++ i :: l2) → next_run <$> procs' !! j = next_run <$> processes s !! j) ∧
    (∀ j, next_sleep <$> procs' !! j = next_sleep <$> processes s !! j) ∧
    (∀ j, on_run_queue <$> procs' !! j = if decide (j = i) then Some false else on_run_queue <$> processes s !! j).

(** What [unlink] does to the process it takes out. *)
Definition detached (p : process) : process := set_on_run_queue false (set_next_run None p).

Lemma unlink_head s k i l2 p q :
  length (processes s) = MAX_PROCS → (i < MAX_PROCS)%nat → ready_queues s !! k = Some q → processes s !! i = Some p →
  NoDup (i :: l2) → tail q = last (i :: l2) → seg next_run (processes s) (next_run p) l2 None →
  unlinked s k i [] l2 (unlink k None i (next_run p) s).
Proof.
  intros Hlen Hlt Hq Hp Hnd Htail Hseg2. apply lookup_lt_Some in Hq as Hklt.
  apply NoDup_cons in Hnd as Hnd'. destruct Hnd' as [Hi2 _].
  unfold unlink. exists (next_run p), (alter detached i (processes s)). split; [|split_and!].
  - cbv zeta. rewrite Hq. rewrite (put_queue_ok k _ s q Hq).
    cbn [ready_queues put_ready_queues]. rewrite list_lookup_insert_eq by done. cbn [tail head]. rewrite Htail.
    pose proof (unlink_tail [] i l2 (next_run p) Hnd) as Ht. change (last []) with (@None nat) in Ht.
    change ([] ++ i :: l2) with (i :: l2) in Ht. rewrite Ht.
    erewrite put_queue_ok by (cbn [ready_queues put_ready_queues]; by apply list_lookup_insert_eq).
    cbn [ready_queues put_ready_queues head]. rewrite list_insert_insert_eq.
    unfold relinked. destruct (next_run p); rewrite upd_ok by (simpl; lia); done.
  - apply list_eq. intros j. unfold cores. rewrite !list_lookup_fmap. by rewrite fmap_alter_same.
  - by rewrite length_alter.
  - by apply seg_alter_ne.
  - intros j Hj. rewrite list_lookup_alter_ne by set_solver. done.
  - intros j. by rewrite fmap_alter_same.
  - intros j. case_decide as Hd; [subst; by rewrite list_lookup_alter_eq, Hp|by rewrite list_lookup_alter_ne by done].
Qed.

Lemma unlink_behind s k i l1 pr l2 p q :
  length (processes s) = MAX_PROCS → (i < MAX_PROCS)%nat → ready_queues s !! k = Some q → processes s !! i = Some p →
  NoDup ((l1 ++ [pr]) ++ i :: l2) → tail q = last ((l1 ++ [pr]) ++ i :: l2) →
  seg next_run (processes s) (head q) ((l1 ++ [pr]) ++ i :: l2) None →
  unlinked s k i (l1 ++ [pr]) l2 (unlink k (Some pr) i (next_run p) s).
Proof.
  intros Hlen Hlt Hq Hp Hnd Htail Hseg. destruct (seg_middle _ _ _ _ _ _ _ _ Hseg Hp) as [Hseg1 Hseg2].
  apply NoDup_app in Hnd as Hnd'. destruct Hnd' as (Hnd1 & Hdisj & [Hi2 Hnd2]%NoDup_cons).
  assert (Hi1 : i ∉ l1 ++ [pr]) by (intros H; apply (Hdisj i H); set_solver).
  assert (Hpr : ∃ pp, processes s !! pr = Some pp) by (eapply seg_lookup; [exact Hseg1|set_solver]).
  destruct Hpr as [pp Hpr]. apply lookup_lt_Some in Hpr as Hprlt. assert (Hpri : pr ≠ i) by set_solver.
  unfold unlink. exists (head q), (alter detached i (alter (set_next_run (next_run p)) pr (processes s))). split; [|split_and!].
  - cbv zeta. rewrite (upd_ok pr) by done. cbn [ready_queues put_processes]. rewrite Hq.
    pose proof (unlink_tail (l1 ++ [pr]) i l2 (head q) Hnd) as Ht. rewrite last_snoc in Ht.
    destruct q as [hd tl]. cbn [head tail] in *. rewrite Htail, Ht. erewrite put_queue_ok by exact Hq.
    cbn [head]. unfold relinked.
    destruct hd as [h|]; [|apply seg_head in Hseg; by destruct l1].
    rewrite upd_ok by (simpl; rewrite length_alter; lia). done.
  - apply list_eq. intros j. unfold cores. rewrite !list_lookup_fmap. by rewrite !fmap_alter_same.
  - by rewrite !length_alter.
  - apply seg_alter_ne; [set_solver|]. rewrite seg_app. exists (next_run p). split.
    + by apply (seg_relink _ _ _ _ _ (Some i)).
    + apply seg_alter_ne; [|done]. intros H. apply (Hdisj pr); set_solver.
  - intros j Hj. rewrite !list_lookup_alter_ne by set_solver. done.
  - intros j. by rewrite !fmap_alter_same.
  - intros j. case_decide as Hd; [subst; by rewrite list_lookup_alter_eq, list_lookup_alter_ne, Hp by done|].
    rewrite list_lookup_alter_ne by done. by rewrite fmap_alter_same.
Qed.

Lemma unlink_shape s qs sl k l1 i l2 p :
  shape s qs sl → qs !! k = Some (l1 ++ i :: l2) → processes s !! i = Some p →
  shape (unlink k (last l1) i (next_run p) s) (without i <$> qs) sl ∧
  frame s (unlink k (last l1) i (next_run p) s).
Proof.
  intros Hs Hl Hp. pose proof (NoDup_concat_lookup qs k _ (sh_nodup _ _ _ Hs) Hl) as Hnd.
  assert (Hq : ∃ q, ready_queues s !! k = Some q).
  { apply lookup_lt_is_Some_2. rewrite (sh_levels _ _ _ Hs), <- (sh_len _ _ _ Hs). by eapply lookup_lt_Some. }
  destruct Hq as [q Hq]. destruct (sh_queue _ _ _ Hs k q _ Hq Hl) as [Hseg Htail].
  pose proof (sh_procs _ _ _ Hs) as Hlen. pose proof (lookup_bound Hs Hp) as Hlt. apply lookup_lt_Some in Hq as Hklt.
  assert (E : unlinked s k i l1 l2 (unlink k (last l1) i (next_run p) s)).
  { destruct l1 as [|pr l1 _] using rev_ind.
    - apply (unlink_head s k i l2 p q); try done. exact (proj2 (seg_middle _ _ _ [] _ _ _ _ Hseg Hp)).
    - rewrite last_snoc. by apply (unlink_behind s k i l1 pr l2 p q). }
  destruct E as (hd & procs' & -> & ? & ? & ? & ? & ? & ?). split; [by apply remove_shape|by apply relinked_frame].
Qed.

(** The walk finds the process on the queue that holds it, with its predecessor. *)
Lemma remove_loop_found fuel k l1 l2 l3 i p iter s :
  seg next_run (processes s) iter (l2 ++ i :: l3) None → (i ∉ l2) → processes s !! i = Some p →
  (length l2 < fuel)%nat →
  remove_loop fuel k (last l1) iter i s = Some (unlink k (last (l1 ++ l2)) i (next_run p) s).
Proof.
  revert l1 l2 iter. induction fuel as [|fuel IH]; intros l1 l2 iter Hseg Hi Hp Hf; [lia|].
  destruct l2 as [|j l2]; simpl in Hseg; destruct Hseg as (-> & pj & Hj & Hseg); cbn [remove_loop]; rewrite Hj.
  - rewrite Nat.eqb_refl, app_nil_r. by simplify_eq.
  - rewrite (proj2 (Nat.eqb_neq _ _)) by set_solver. rewrite <- (last_snoc j l1).
    rewrite (IH (l1 ++ [j]) l2) by (done || set_solver || simpl in Hf; lia). by rewrite <- app_assoc.
Qed.

Lemma remove_loop_missing fuel k prev l i iter s :
  seg next_run (processes s) iter l None → (i ∉ l) → (length l < fuel)%nat →
  remove_loop fuel k prev iter i s = None.
Proof.
  revert prev l iter. induction fuel as [|fuel IH]; intros prev l iter Hseg Hi Hf; [lia|].
  destruct l as [|j l]; simpl in Hseg; [by subst|]. destruct Hseg as (-> & pj & Hj & Hseg). cbn [remove_loop].
  rewrite Hj, (proj2 (Nat.eqb_neq _ _)) by set_solver. apply (IH _ l); [done|set_solver|simpl in Hf; lia].
Qed.

Lemma queue_bound s qs sl k l : shape s qs sl → qs !! k = Some l → (length l < FUEL)%nat.
Proof.
  intros Hs Hl. unfold FUEL. apply Nat.lt_succ_r, nodup_bound.
  { by eapply NoDup_concat_lookup; [apply Hs|]. }
  assert (Hq : ∃ q, ready_queues s !! k = Some q).
  { apply lookup_lt_is_Some_2. rewrite (sh_levels _ _ _ Hs), <- (sh_len _ _ _ Hs). by eapply lookup_lt_Some. }
  destruct Hq as [q Hq]. destruct (sh_queue _ _ _ Hs k q l Hq Hl) as [Hseg _].
  intros i Hi. destruct (seg_lookup _ _ _ _ _ _ Hseg Hi) as [p Hp]. by eapply lookup_bound.
Qed.

Lemma remove_priorities_shape s qs sl i p ks :
  shape s qs sl → processes s !! i = Some p →
  (∀ k, k ∈ ks → (k < SCHED_PRIORITY_LEVELS)%nat) →
  (∃ k l, k ∈ ks ∧ qs !! k = Some l ∧ i ∈ l) →
  shape (remove_priorities ks i s) (without i <$> qs) sl ∧ frame s (remove_priorities ks i s).
Proof.
  intros Hs Hp. induction ks as [|k ks IH]; intros Hks (k0 & l0 & Hk0 & Hl0 & Hi0); [set_solver|].
  cbn [remove_priorities]. assert (Hk : (k < SCHED_PRIORITY_LEVELS)%nat) by (apply Hks; set_solver).
  assert (Hq : ∃ q, ready_queues s !! k = Some q) by (apply lookup_lt_is_Some_2; by rewrite (sh_levels _ _ _ Hs)).
  assert (Hl : ∃ l, qs !! k = Some l) by (apply lookup_lt_is_Some_2; by rewrite (sh_len _ _ _ Hs)).
  destruct Hq as [q Hq], Hl as [l Hl]. rewrite Hq. destruct (sh_queue _ _ _ Hs k q l Hq Hl) as [Hseg _].
  pose proof (queue_bound s qs sl k l Hs Hl) as Hb. destruct (decide (i ∈ l)) as [Hi|Hi].
  - apply list_elem_of_split in Hi as (l2 & l3 & ->).
    pose proof (NoDup_concat_lookup _ _ _ (sh_nodup _ _ _ Hs) Hl) as Hnd. apply NoDup_app in Hnd as (_ & Hd & _).
    assert (Hi2 : i ∉ l2) by (intros H; apply (Hd i H); set_solver).
    change None with (last (@nil nat)). rewrite (remove_loop_found FUEL k [] l2 l3 i p) by (done || rewrite length_app in Hb; lia).
    by apply (unlink_shape _ _ _ _ _ _ l3).
  - rewrite (remove_loop_missing FUEL k None l) by done. apply IH; [set_solver|].
    apply elem_of_cons in Hk0 as [->|Hk0]; [|eauto]. simplify_eq. done.
Qed.

Lemma elem_of_priorities k : k ∈ priorities ↔ (k < SCHED_PRIORITY_LEVELS)%nat.
Proof. unfold priorities. rewrite elem_of_seq. lia. Qed.

Lemma remove_ready_shape s qs sl i :
  shape s qs sl → i ∈ concat qs →
  shape (scheduler_remove_from_ready i s) (without i <$> qs) sl ∧ frame s (scheduler_remove_from_ready i s).
Proof.
  intros Hs (k & l & Hl & Hi)%elem_of_concat_lookup.
  assert (Hk : (k < SCHED_PRIORITY_LEVELS)%nat) by (rewrite <- (sh_len _ _ _ Hs); by eapply lookup_lt_Some).
  assert (Hq : ∃ q, ready_queues s !! k = Some q) by (apply lookup_lt_is_Some_2; by rewrite (sh_levels _ _ _ Hs)).
  destruct Hq as [q Hq]. destruct (sh_queue _ _ _ Hs k q l Hq Hl) as [Hseg _].
  destruct (seg_lookup _ _ _ _ _ _ Hseg Hi) as [p Hp].
  eapply remove_priorities_shape; [done|done| |].
  - intros j. by rewrite elem_of_priorities.
  - exists k, l. by rewrite elem_of_priorities.
Qed.

(** ** Scanning the queues *)

(** The key of a process by its index. *)
Definition key_of (key : process → option Z) (s : sched) (i : nat) : option Z := p ← processes s !! i; key p.

(** The scan over a list of processes. *)
Definition scan (key : process → option Z) (s : sched) (l : list nat) (best : option (nat * Z)) : option (nat * Z) :=
  foldl (fun b i => better b i (key_of key s i)) best l.

Lemma scan_queue_spec fuel key iter best s l :
  seg next_run (processes s) iter l None → (length l < fuel)%nat →
  scan_queue fuel key iter best s = (scan key s l best, s).
Proof.
  revert iter best l. induction fuel as [|fuel IH]; intros iter best l Hseg Hf; [lia|].
  destruct l as [|i l]; simpl in Hseg; [by subst|]. destruct Hseg as (-> & p & Hp & Hseg). cbn [scan_queue].
  rewrite Hp, (IH _ _ l) by (done || simpl in Hf; lia). unfold scan. simpl. unfold key_of at 3. by rewrite Hp.
Qed.

Lemma scan_queues_spec key s qs sl ks best :
  shape s qs sl → (∀ k, k ∈ ks → (k < SCHED_PRIORITY_LEVELS)%nat) →
  scan_queues ks key best s = (scan key s (concat ((fun k => default [] (qs !! k)) <$> ks)) best, s).
Proof.
  intros Hs. revert best. induction ks as [|k ks IH]; intros best Hks; [done|]. cbn [scan_queues].
  assert (Hk : (k < SCHED_PRIORITY_LEVELS)%nat) by (apply Hks; set_solver).
  assert (Hq : ∃ q, ready_queues s !! k = Some q) by (apply lookup_lt_is_Some_2; by rewrite (sh_levels _ _ _ Hs)).
  assert (Hl : ∃ l, qs !! k = Some l) by (apply lookup_lt_is_Some_2; by rewrite (sh_len _ _ _ Hs)).
  destruct Hq as [q Hq], Hl as [l Hl]. rewrite Hq. destruct (sh_queue _ _ _ Hs k q l Hq Hl) as [Hseg _].
  rewrite (scan_queue_spec FUEL key (head q) best s l) by (done || by eapply queue_bound).
  rewrite IH by set_solver. cbn [fmap list_fmap concat]. rewrite Hl. simpl. unfold scan. by rewrite foldl_app.
Qed.

Lemma all_queues (qs : list (list nat)) :
  length qs = SCHED_PRIORITY_LEVELS → (fun k => default [] (qs !! k)) <$> priorities = qs.
Proof. intros H. destruct qs as [|a [|b [|c [|d [|e qs]]]]]; try done. Qed.

(** The scan returns the first process with the least key. *)
Lemma scan_spec key s l best :
  match scan key s l best with
  | None => best = None ∧ ∀ i, i ∈ l → key_of key s i = None
  | Some (i, k) =>
      (best = Some (i, k) ∨ (i ∈ l ∧ key_of key s i = Some k)) ∧
      (∀ j k', best = Some (j, k') → k ≤ k') ∧
      (∀ j k', j ∈ l → key_of key s j = Some k' → k ≤ k')
  end.
Proof.
  revert best. induction l as [|i l IH]; intros best.
  { simpl. destruct best as [[i k]|]; [|set_solver]. split; [by left|]. split; [|set_solver].
    intros j k' [= <- <-]. lia. }
  change (scan key s (i :: l) best) with (scan key s l (better best i (key_of key s i))).
  specialize (IH (better best i (key_of key s i))). unfold better in *.
  destruct (key_of key s i) as [ki|] eqn:Ek.
  - destruct best as [[j kj]|]; [destruct (ki <? kj) eqn:Elt; bool_prop|].
    all: destruct (scan _ _ _ _) as [[m km]|]; [|naive_solver].
    all: destruct IH as (H1 & H2 & H3); split; [|split].
    all: try (intros ? ? [= <- <-]; specialize (H2 _ _ eq_refl); lia).
    all: try (intros m' k' [->|Hm]%elem_of_cons Hk'; [|by eapply H3]).
    all: try (rewrite Ek in Hk'; injection Hk' as <-; specialize (H2 _ _ eq_refl); lia).
    + destruct H1 as [[= <- <-]|[? ?]]; [right; split; [set_solver|done]|right; split; [set_solver|done]].
    + destruct H1 as [?|[? ?]]; [by left|right; split; [set_solver|done]].
    + destruct H1 as [[= <- <-]|[? ?]]; [right; split; [set_solver|done]|right; split; [set_solver|done]].
  - destruct (scan _ _ _ _) as [[m km]|].
    + destruct IH as (H1 & H2 & H3). split; [|split; [done|]].
      * destruct H1 as [?|[? ?]]; [by left|right; split; [set_solver|done]].
      * intros j k' [->|Hj]%elem_of_cons Hk'; [congruence|by eapply H3].
    + destruct IH as [H1 H2]. split; [done|]. intros j [->|Hj]%elem_of_cons; [done|auto].
Qed.

(** ** Taking the next process *)

Lemma pick_shape key s qs sl :
  shape s qs sl →
  match scan key s (concat qs) None with
  | Some (i, _) => ∃ s', pick key s = (Some i, s') ∧ i ∈ concat qs ∧ shape s' (without i <$> qs) sl ∧ frame s s'
  | None => pick key s = (None, s)
  end.
Proof.
  intros Hs. unfold pick. rewrite (scan_queues_spec key s qs sl) by (done || by intros k; rewrite elem_of_priorities).
  rewrite all_queues by apply Hs. pose proof (scan_spec key s (concat qs) None) as Hsc.
  destruct (scan key s (concat qs) None) as [[i k]|]; [|done].
  destruct Hsc as ([?|[Hi Hk]] & _ & Hmin); [done|]. eexists. split; [done|]. split; [done|].
  by apply remove_ready_shape.
Qed.

Lemma bit_test bm k : (Z.land bm (bit k) =? 0) = negb (Z.testbit bm (Z.of_nat k)).
Proof.
  apply eq_bool_prop_intro. rewrite !Is_true_true, Z.eqb_eq, negb_true_iff. split.
  - intros H. apply (f_equal (fun z => Z.testbit z (Z.of_nat k))) in H.
    rewrite Z.land_spec, bit_testbit, bool_decide_eq_true_2, andb_true_r, Z.bits_0 in H by done. done.
  - intros H. apply Z.bits_inj'. intros n Hn. rewrite Z.land_spec, Z.bits_0.
    rewrite <- (Z2Nat.id n) by done. rewrite bit_testbit. destruct (decide (Z.to_nat n = k)) as [<-|Hne].
    + by rewrite H.
    + by rewrite bool_decide_eq_false_2, andb_false_r.
Qed.

Lemma dequeue_head s qs sl k q i l p :
  shape s qs sl → ready_queues s !! k = Some q → qs !! k = Some (i :: l) → processes s !! i = Some p →
  let s1 := match next_run p with
            | None => clear_bit k (put_queue k {| head := None; tail := None |} s)
            | Some n => put_queue k {| head := Some n; tail := tail q |} s
            end in
  let s' := upd i (fun p => set_on_run_queue false (set_next_run None p)) s1 in
  shape s' (without i <$> qs) sl ∧ frame s s'.
Proof.
  intros Hs Hq Hl Hp s1 s'. set (g := fun p => set_on_run_queue false (set_next_run None p)) in *.
  destruct (sh_queue _ _ _ Hs k q _ Hq Hl) as [Hseg Htail]. pose proof (sh_procs _ _ _ Hs) as Hlen.
  pose proof (lookup_bound Hs Hp) as Hlt.
  pose proof (NoDup_concat_lookup _ _ _ (sh_nodup _ _ _ Hs) Hl) as Hnd. apply NoDup_cons in Hnd as [Hi Hnd].
  destruct (seg_middle _ _ _ [] _ _ _ _ Hseg Hp) as [_ Hseg2]. apply seg_head in Hseg2 as Hnext.
  assert (E : s' = relinked s k (next_run p) (last ([] ++ l)) (alter g i (processes s))).
  { unfold s', s1, relinked. rewrite Hnext. destruct l as [|n l]; rewrite (put_queue_ok k _ s q Hq);
      (rewrite upd_ok by (simpl; lia)); [done|]. simpl. by rewrite Htail. }
  rewrite E. split.
  - apply (remove_shape s qs sl i k [] l); try done.
    + by rewrite length_alter.
    + by apply seg_alter_ne.
    + intros j Hj. by rewrite list_lookup_alter_ne by set_solver.
    + intros j. by rewrite fmap_alter_same.
    + intros j. case_decide as Hd; [subst; by rewrite list_lookup_alter_eq, Hp|by rewrite list_lookup_alter_ne by done].
  - apply relinked_frame, list_eq. intros j. unfold cores. rewrite !list_lookup_fmap. by rewrite fmap_alter_same.
Qed.

Lemma dequeue_loop_shape s qs sl ks :
  shape s qs sl → (∀ k, k ∈ ks → (k < SCHED_PRIORITY_LEVELS)%nat) →
  match dequeue_loop ks s with
  | (Some i, s') =>
      (∃ l, concat ((fun k => default [] (qs !! k)) <$> ks) = i :: l) ∧ shape s' (without i <$> qs) sl ∧ frame s s'
  | (None, s') => s' = s ∧ concat ((fun k => default [] (qs !! k)) <$> ks) = []
  end.
Proof.
  intros Hs. induction ks as [|k ks IH]; intros Hks; [done|]. cbn [dequeue_loop].
  assert (Hk : (k < SCHED_PRIORITY_LEVELS)%nat) by (apply Hks; set_solver).
  assert (Hq : ∃ q, ready_queues s !! k = Some q) by (apply lookup_lt_is_Some_2; by rewrite (sh_levels _ _ _ Hs)).
  assert (Hl : ∃ l, qs !! k = Some l) by (apply lookup_lt_is_Some_2; by rewrite (sh_len _ _ _ Hs)).
  destruct Hq as [q Hq], Hl as [l Hl]. destruct (sh_queue _ _ _ Hs k q l Hq Hl) as [Hseg Htail].
  specialize (IH ltac:(set_solver)).
  assert (Hcat : concat ((fun k => default [] (qs !! k)) <$> k :: ks) = l ++ concat ((fun k => default [] (qs !! k)) <$> ks)).
  { cbn [fmap list_fmap concat]. by rewrite Hl. }
  rewrite bit_test, (sh_bits _ _ _ Hs), Hl. simpl from_option. destruct l as [|i l]; cbn [nonempty negb].
  - rewrite Hcat. done.
  - rewrite Hq. apply seg_head in Hseg as Hh. rewrite Hh.
    destruct (seg_lookup _ _ _ _ _ i Hseg) as [p Hp]; [set_solver|]. rewrite Hp.
    destruct (dequeue_head s qs sl k q i l p Hs Hq Hl Hp) as [Hs' Hf]. split; [|done]. rewrite Hcat. simpl. eauto.
Qed.

Lemma dequeue_shape s qs sl :
  shape s qs sl →
  match scheduler_dequeue_next s with
  | (Some i, s') => (∃ l, concat qs = i :: l) ∧ shape s' (without i <$> qs) sl ∧ frame s s'
  | (None, s') => s' = s ∧ concat qs = []
  end.
Proof.
  intros Hs. pose proof (dequeue_loop_shape s qs sl priorities Hs) as H.
  rewrite all_queues in H by apply Hs. apply H. intros k. by rewrite elem_of_priorities.
Qed.

(** The process the scheduler chooses among those on the queues, in queue order:
    the first with the earliest deadline, else the first with the least virtual
    runtime, else the first. *)
Definition choose (s : sched) (l : list nat) : option nat :=
  match scan deadline_key s l None with
  | Some (i, _) => Some i
  | None =>
      match scan fair_key s l None with
      | Some (i, _) => Some i
      | None => match l with [] => None | i :: _ => Some i end
      end
  end.

Lemma select_shape s qs sl :
  shape s qs sl →
  match choose s (concat qs) with
  | Some i => ∃ s', scheduler_select_next s = (Some i, s') ∧ i ∈ concat qs ∧ shape s' (without i <$> qs) sl ∧ frame s s'
  | None => scheduler_select_next s = (None, s) ∧ concat qs = []
  end.
Proof.
  intros Hs. unfold scheduler_select_next, scheduler_pick_deadline, scheduler_pick_fair, choose.
  pose proof (pick_shape deadline_key s qs sl Hs) as Hd. destruct (scan deadline_key s _ None) as [[i k]|].
  { destruct Hd as (s' & -> & ? & ? & ?). eauto. }
  rewrite Hd. pose proof (pick_shape fair_key s qs sl Hs) as Hf. destruct (scan fair_key s _ None) as [[i k]|].
  { destruct Hf as (s' & -> & ? & ? & ?). eauto. }
  rewrite Hf. pose proof (dequeue_shape s qs sl Hs) as Hq.
  destruct (scheduler_dequeue_next s) as [[i|] s1].
  - destruct Hq as ([l ->] & Hs' & Hfr). eexists. split; [done|]. split; [set_solver|done].
  - by destruct Hq as [-> ->].
Qed.

(** ** The sleep list *)

Lemma sleep_shape s qs sl sl' procs' o' :
  shape s qs sl → length procs' = MAX_PROCS →
  (∀ j, next_run <$> procs' !! j = next_run <$> processes s !! j) →
  (∀ j, on_run_queue <$> procs' !! j = on_run_queue <$> processes s !! j) →
  seg next_sleep procs' o' sl' None → NoDup sl' →
  shape (put_sleep_list o' (put_processes procs' s)) qs sl'.
Proof.
  intros Hs Hlen Hrun Hon Hseg Hnd. constructor; simpl; try apply Hs; [done| | |done|done].
  - intros k q l Hq Hk. destruct (sh_queue _ _ _ Hs k q l Hq Hk) as [Hq' Ht]. split; [|done].
    eapply seg_ext; [|exact Hq']. intros j _. apply Hrun.
  - intros i p Hp. specialize (Hon i). rewrite Hp in Hon. destruct (processes s !! i) as [p'|] eqn:E; [|done].
    simpl in Hon. injection Hon as ->. by apply (sh_on _ _ _ Hs).
Qed.

(** Relinking sleepers in one or two places. *)
Lemma relink_frame s procs' o' :
  core <$> procs' = cores s → frame s (put_sleep_list o' (put_processes procs' s)).
Proof. intros H. by split_and!. Qed.

Lemma put_sleep_same s : put_sleep_list (sleep_list s) s = s.
Proof. by destruct s. Qed.

Lemma core_alter_sleep o i (l : list process) : core <$> alter (set_next_sleep o) i l = core <$> l.
Proof. apply list_eq. intros j. rewrite !list_lookup_fmap. by apply fmap_alter_same. Qed.

Lemma sleep_bound s qs sl : shape s qs sl → (length sl < FUEL)%nat.
Proof.
  intros Hs. unfold FUEL. apply Nat.lt_succ_r, nodup_bound; [apply Hs|].
  intros i Hi. destruct (seg_lookup _ _ _ _ _ _ (sh_sleep _ _ _ Hs) Hi) as [p Hp]. by eapply lookup_bound.
Qed.

Lemma sleep_remove_loop_missing fuel prev iter l i s :
  seg next_sleep (processes s) iter l None → (i ∉ l) → (length l < fuel)%nat →
  sleep_remove_loop fuel prev iter i s = s.
Proof.
  revert prev iter l. induction fuel as [|fuel IH]; intros prev iter l Hseg Hi Hf; [lia|].
  destruct l as [|j l]; simpl in Hseg; [by subst|]. destruct Hseg as (-> & p & Hp & Hseg). cbn [sleep_remove_loop].
  rewrite Hp, (proj2 (Nat.eqb_neq _ _)) by set_solver. apply (IH _ _ l); [done|set_solver|simpl in Hf; lia].
Qed.

Lemma sleep_remove_loop_found fuel prev iter l2 i l3 p s :
  seg next_sleep (processes s) iter (l2 ++ i :: l3) None → (i ∉ l2) → processes s !! i = Some p →
  (length l2 < fuel)%nat →
  sleep_remove_loop fuel prev iter i s =
  upd i (set_next_sleep None) (upd (default prev (last l2)) (set_next_sleep (next_sleep p)) s).
Proof.
  revert prev iter l2. induction fuel as [|fuel IH]; intros prev iter l2 Hseg Hi Hp Hf; [lia|].
  destruct l2 as [|j l2]; simpl in Hseg; destruct Hseg as (-> & pj & Hj & Hseg); cbn [sleep_remove_loop]; rewrite Hj.
  - rewrite Nat.eqb_refl. by simplify_eq.
  - rewrite (proj2 (Nat.eqb_neq _ _)) by set_solver. rewrite (IH _ _ l2) by (done || set_solver || simpl in Hf; lia).
    do 2 f_equal. destruct l2 as [|x l2 _] using rev_ind; [done|]. by rewrite app_comm_cons, !last_snoc.
Qed.

(** Unlinking the sleeper [i] behind [pr]. *)
Lemma sleep_unlink s qs l1 pr i l3 p :
  shape s qs (l1 ++ pr :: i :: l3) → processes s !! i = Some p →
  let s' := upd i (set_next_sleep None) (upd pr (set_next_sleep (next_sleep p)) s) in
  shape s' qs (l1 ++ pr :: l3) ∧ frame s s'.
Proof.
  intros Hs Hp s'. pose proof (sh_sleep _ _ _ Hs) as Hseg. pose proof (sh_sleep_nodup _ _ _ Hs) as Hnd.
  pose proof (sh_procs _ _ _ Hs) as Hlen. pose proof (lookup_bound Hs Hp) as Hlt.
  destruct (seg_lookup _ _ _ _ _ pr Hseg) as [pp Hpp]; [set_solver|]. pose proof (lookup_bound Hs Hpp) as Hplt.
  replace (l1 ++ pr :: i :: l3) with ((l1 ++ [pr]) ++ i :: l3) in * by (by rewrite <- app_assoc).
  destruct (seg_middle _ _ _ _ _ _ _ _ Hseg Hp) as [H1 H2].
  apply NoDup_app in Hnd as (Hnd1 & Hd & [Hi3 Hnd3]%NoDup_cons).
  assert (Hi1 : i ∉ l1 ++ [pr]) by (intros H; apply (Hd i H); set_solver).
  assert (Hpr3 : pr ∉ l3) by (intros H; apply (Hd pr); set_solver).
  assert (E : s' = put_sleep_list (sleep_list s) (put_processes (alter (set_next_sleep None) i
                     (alter (set_next_sleep (next_sleep p)) pr (processes s))) s)).
  { unfold s'. rewrite (upd_ok pr) by lia. rewrite upd_ok by (simpl; rewrite length_alter; lia).
    by destruct s. }
  rewrite E. split.
  - apply (sleep_shape s qs ((l1 ++ [pr]) ++ i :: l3)); [done|by rewrite !length_alter| | | |].
    + intros j. by rewrite !fmap_alter_same.
    + intros j. by rewrite !fmap_alter_same.
    + replace (l1 ++ pr :: l3) with ((l1 ++ [pr]) ++ l3) by (by rewrite <- app_assoc).
      apply seg_alter_ne; [set_solver|]. rewrite seg_app. exists (next_sleep p). split.
      * by apply (seg_relink _ _ _ _ _ (Some i)).
      * by apply seg_alter_ne.
    + replace (l1 ++ pr :: l3) with ((l1 ++ [pr]) ++ l3) by (by rewrite <- app_assoc).
      apply NoDup_app. split; [done|]. split; [|done]. intros x Hx Hx3. apply (Hd x Hx). set_solver.
  - apply relink_frame. by rewrite !core_alter_sleep.
Qed.

Lemma remove_sleep_shape s qs sl i :
  shape s qs sl →
  shape (scheduler_remove_from_sleep i s) qs (without i sl) ∧ frame s (scheduler_remove_from_sleep i s).
Proof.
  intros Hs. pose proof (sh_sleep _ _ _ Hs) as Hseg. pose proof (sh_sleep_nodup _ _ _ Hs) as Hnd.
  pose proof (sleep_bound _ _ _ Hs) as Hb. unfold scheduler_remove_from_sleep.
  destruct sl as [|first sl]; simpl in Hseg; [rewrite Hseg; done|].
  destruct Hseg as (Hfirst & p & Hp & Hseg). rewrite Hfirst, Hp.
  pose proof (sh_procs _ _ _ Hs) as Hlen. pose proof (lookup_bound Hs Hp) as Hlt. apply NoDup_cons in Hnd as [Hf Hnd].
  destruct (Nat.eqb_spec first i) as [->|Hne].
  - rewrite without_cons, without_notin by done. rewrite upd_ok by (simpl; lia).
    change (put_processes ?x (put_sleep_list ?o s)) with (put_sleep_list o (put_processes x s)). split.
    + apply (sleep_shape s qs (i :: sl)); [done|by rewrite length_alter| | | |done].
      * intros j. by rewrite fmap_alter_same.
      * intros j. by rewrite fmap_alter_same.
      * by apply seg_alter_ne.
    + apply relink_frame, core_alter_sleep.
  - destruct (decide (i ∈ sl)) as [Hi|Hi].
    + apply list_elem_of_split in Hi as (l2 & l3 & ->).
      apply NoDup_app in Hnd as Hnd'. destruct Hnd' as (_ & Hd & _).
      assert (Hi2 : i ∉ l2) by (intros H; apply (Hd i H); set_solver).
      destruct (seg_lookup _ _ _ _ _ i Hseg) as [pi Hpi]; [set_solver|].
      rewrite (sleep_remove_loop_found FUEL first (next_sleep p) l2 i l3 pi) by
        (done || simpl in Hb; rewrite length_app in Hb; lia).
      rewrite app_comm_cons, without_middle by (rewrite <- app_comm_cons; by apply NoDup_cons).
      destruct l2 as [|x l2 _] using rev_ind; [by apply (sleep_unlink s qs [] first i l3)|].
      rewrite last_snoc. cbn [default from_option id].
      replace ((first :: l2 ++ [x]) ++ l3) with ((first :: l2) ++ x :: l3) by (simpl; by rewrite <- app_assoc).
      replace (first :: (l2 ++ [x]) ++ i :: l3) with ((first :: l2) ++ x :: i :: l3) in Hs by (simpl; by rewrite <- app_assoc).
      by apply (sleep_unlink s qs (first :: l2) x i l3).
    + rewrite (sleep_remove_loop_missing FUEL first _ sl) by (done || simpl in Hb; lia).
      rewrite without_notin by set_solver. done.
Qed.

(** When a process is to wake. *)
Definition wake_of (s : sched) (i : nat) : Z := from_option wake_deadline 0 (processes s !! i).

(** Where a sleeper is inserted: behind every sleeper that wakes no later, up to
    the first one that wakes later. *)
Fixpoint insert_by (wake : nat → Z) (i : nat) (d : Z) (l : list nat) : list nat :=
  match l with
  | [] => [i]
  | j :: l' => if wake j <=? d then j :: insert_by wake i d l' else i :: l
  end.

Lemma insert_by_split wake i d l1 l2 :
  Forall (fun j => wake j ≤ d) l1 → match l2 with [] => True | j :: _ => d < wake j end →
  insert_by wake i d (l1 ++ l2) = l1 ++ i :: l2.
Proof.
  intros H1 H2. induction H1 as [|j l1 Hj H1 IH]; simpl.
  - destruct l2 as [|j l2]; simpl; [done|]. by rewrite (proj2 (Z.leb_gt _ _)).
  - by rewrite (proj2 (Z.leb_le _ _) Hj), IH.
Qed.

Lemma insert_by_perm wake i d l : insert_by wake i d l ≡ₚ i :: l.
Proof. induction l as [|j l IH]; simpl; [done|]. case_match; [rewrite IH; constructor|done]. Qed.

Lemma insert_by_ext wake wake' i d l :
  (∀ j, j ∈ l → wake j = wake' j) → insert_by wake i d l = insert_by wake' i d l.
Proof.
  induction l as [|j l IH]; intros H; simpl; [done|]. rewrite (H j), IH by set_solver. done.
Qed.

(** The walk stops at the last sleeper of the prefix that wakes no later. *)
Lemma sleep_position_spec fuel s d j l :
  seg next_sleep (processes s) (Some j) (j :: l) None → (length l < fuel)%nat →
  ∃ l1 l2, l = l1 ++ l2 ∧ sleep_position fuel j d s = Some (default j (last l1)) ∧
    Forall (fun j => wake_of s j ≤ d) l1 ∧ match l2 with [] => True | j :: _ => d < wake_of s j end.
Proof.
  revert j l. induction fuel as [|fuel IH]; intros j l Hseg Hf; [lia|].
  destruct Hseg as (_ & p & Hp & Hseg). cbn [sleep_position]. rewrite Hp.
  destruct l as [|n l]; simpl in Hseg.
  { rewrite Hseg. exists [], []. done. }
  destruct Hseg as (Hn & q & Hq & Hseg). rewrite Hn, Hq.
  assert (Hw : wake_of s n = wake_deadline q) by (unfold wake_of; by rewrite Hq).
  destruct (wake_deadline q <=? d) eqn:E; bool_prop.
  - destruct (IH n l) as (l1 & l2 & -> & -> & Hle & Hgt); [simpl; eauto|simpl in Hf; lia|].
    exists (n :: l1), l2. split; [done|]. split; [|split; [constructor; [by rewrite Hw|done]|done]].
    f_equal. destruct l1 as [|x l1 _] using rev_ind; [done|]. by rewrite app_comm_cons, !last_snoc.
  - exists [], (n :: l). split_and!; [done..|]. by rewrite Hw.
Qed.

(** Linking [i] behind the sleeper [k]. *)
Lemma sleep_link s qs l1 k l2 i q :
  shape s qs (l1 ++ k :: l2) → (i ∉ l1 ++ k :: l2) → (i < MAX_PROCS)%nat → processes s !! k = Some q →
  let s' := upd k (set_next_sleep (Some i)) (upd i (set_next_sleep (next_sleep q)) s) in
  shape s' qs (l1 ++ k :: i :: l2) ∧ frame s s'.
Proof.
  intros Hs Hi Hlt Hq s'. pose proof (sh_sleep _ _ _ Hs) as Hseg. pose proof (sh_sleep_nodup _ _ _ Hs) as Hnd.
  pose proof (sh_procs _ _ _ Hs) as Hlen. pose proof (lookup_bound Hs Hq) as Hklt.
  destruct (bound_lookup i Hs Hlt) as [p Hp].
  destruct (seg_middle _ _ _ _ _ _ _ _ Hseg Hq) as [H1 H2].
  apply NoDup_app in Hnd as (Hnd1 & Hd & [Hk2 Hnd2]%NoDup_cons).
  assert (Hk1 : k ∉ l1) by (intros H; apply (Hd k H); set_solver). assert (Hki : k ≠ i) by set_solver.
  assert (E : s' = put_sleep_list (sleep_list s) (put_processes (alter (set_next_sleep (Some i)) k
                     (alter (set_next_sleep (next_sleep q)) i (processes s))) s)).
  { unfold s'. rewrite (upd_ok i) by lia. rewrite upd_ok by (simpl; rewrite length_alter; lia). by destruct s. }
  rewrite E. split; [|apply relink_frame; by rewrite !core_alter_sleep].
  apply (sleep_shape s qs (l1 ++ k :: l2)); [done|by rewrite !length_alter| | | |].
  - intros j. by rewrite !fmap_alter_same.
  - intros j. by rewrite !fmap_alter_same.
  - rewrite seg_app. exists (Some k). split; [do 2 (apply seg_alter_ne; [set_solver|]); done|].
    simpl. split; [done|]. eexists. rewrite list_lookup_alter_eq, list_lookup_alter_ne, Hq by done.
    split; [done|]. simpl. split; [done|]. eexists.
    rewrite list_lookup_alter_ne, list_lookup_alter_eq, Hp by done. split; [done|]. simpl.
    do 2 (apply seg_alter_ne; [set_solver|]). done.
  - apply NoDup_app. split; [done|]. split; [|apply NoDup_cons; split; [set_solver|apply NoDup_cons; split; [set_solver|done]]].
    intros x Hx. specialize (Hd x Hx). set_solver.
Qed.

Lemma sleep_push s qs sl i :
  shape s qs sl → (i ∉ sl) → (i < MAX_PROCS)%nat →
  let s' := put_sleep_list (Some i) (upd i (set_next_sleep (sleep_list s)) s) in
  shape s' qs (i :: sl) ∧ frame s s'.
Proof.
  intros Hs Hi Hlt s'. destruct (bound_lookup i Hs Hlt) as [p Hp]. pose proof (sh_procs _ _ _ Hs) as Hlen.
  unfold s'. rewrite upd_ok by lia. split; [|apply relink_frame, core_alter_sleep].
  apply (sleep_shape s qs sl); [done|by rewrite length_alter| | | |].
  - intros j. by rewrite fmap_alter_same.
  - intros j. by rewrite fmap_alter_same.
  - simpl. split; [done|]. eexists. rewrite list_lookup_alter_eq, Hp. split; [done|]. simpl.
    apply seg_alter_ne; [done|]. apply Hs.
  - apply NoDup_cons. split; [done|]. apply Hs.
Qed.

Lemma wake_of_cores s s' i : cores s' = cores s → wake_of s' i = wake_of s i.
Proof.
  intros H. assert (Hi : core <$> processes s' !! i = core <$> processes s !! i)
    by (rewrite <- !list_lookup_fmap; unfold cores in H; by rewrite H).
  unfold wake_of. destruct (processes s' !! i), (processes s !! i); simpl in *; try done.
  injection Hi. congruence.
Qed.

Lemma insert_sleep_shape s qs sl i :
  shape s qs sl → (i < MAX_PROCS)%nat →
  shape (scheduler_insert_sleep i s) qs (insert_by (wake_of s) i (wake_of s i) (without i sl)) ∧
  frame s (scheduler_insert_sleep i s).
Proof.
  intros Hs0 Hlt. destruct (remove_sleep_shape s qs sl i Hs0) as [Hs Hf]. unfold scheduler_insert_sleep.
  set (s1 := scheduler_remove_from_sleep i s) in *. set (l := without i sl) in *.
  assert (Hw : ∀ j, wake_of s j = wake_of s1 j) by (intros j; symmetry; apply wake_of_cores, Hf).
  rewrite (insert_by_ext (wake_of s) (wake_of s1)) by auto. rewrite Hw.
  assert (Hi : i ∉ l) by (unfold l; rewrite elem_of_without; naive_solver).
  destruct (bound_lookup i Hs Hlt) as [p Hp]. rewrite Hp.
  assert (Hwi : wake_of s1 i = wake_deadline p) by (unfold wake_of; by rewrite Hp). rewrite Hwi.
  enough (H : ∀ s2 l2, s2 = match sleep_list s1 with
                | None => put_sleep_list (Some i) (upd i (set_next_sleep None) s1)
                | Some first => match processes s1 !! first with
                  | None => faulted s1
                  | Some f => if wake_deadline p <? wake_deadline f
                      then put_sleep_list (Some i) (upd i (set_next_sleep (Some first)) s1)
                      else match sleep_position FUEL first (wake_deadline p) s1 with
                        | None => faulted s1
                        | Some k => match processes s1 !! k with
                          | None => faulted s1
                          | Some q => upd k (set_next_sleep (Some i)) (upd i (set_next_sleep (next_sleep q)) s1)
                          end end end end →
              l2 = insert_by (wake_of s1) i (wake_deadline p) l → shape s2 qs l2 ∧ frame s1 s2).
  { destruct (H _ _ eq_refl eq_refl) as [H1 H2]. split; [exact H1|]. etrans; [exact Hf|exact H2]. }
  intros s2 l2 -> ->. pose proof (sh_sleep _ _ _ Hs) as Hseg. pose proof (sleep_bound _ _ _ Hs) as Hb.
  destruct l as [|first l]; simpl in Hseg.
  { rewrite Hseg. rewrite <- Hseg. by apply sleep_push. }
  destruct Hseg as (Hfirst & f & Hfp & Hseg). rewrite Hfirst, Hfp.
  assert (Hwf : wake_of s1 first = wake_deadline f) by (unfold wake_of; by rewrite Hfp).
  simpl insert_by. rewrite Hwf. destruct (wake_deadline p <? wake_deadline f) eqn:E; bool_prop.
  { rewrite (proj2 (Z.leb_gt _ _)) by lia. rewrite <- Hfirst. by apply sleep_push. }
  rewrite (proj2 (Z.leb_le _ _)) by lia.
  destruct (sleep_position_spec FUEL s1 (wake_deadline p) first l) as (l1 & l2 & -> & -> & Hle & Hgt);
    [simpl; eauto|simpl in Hb; lia|].
  rewrite insert_by_split by done.
  assert (Hsplit : ∃ la k, last (first :: l1) = Some k ∧ first :: l1 = la ++ [k] ∧ default first (last l1) = k).
  { destruct l1 as [|x l1 _] using rev_ind; [by exists [], first|]. exists (first :: l1), x.
    by rewrite app_comm_cons, !last_snoc. }
  destruct Hsplit as (la & k & _ & Hla & ->).
  rewrite app_comm_cons, Hla, <- app_assoc in Hs, Hi |- *. simpl in Hs, Hi |- *.
  destruct (seg_lookup _ _ _ _ _ k (sh_sleep _ _ _ Hs)) as [q Hq]; [set_solver|]. rewrite Hq.
  by apply sleep_link.
Qed.

End SchedLists.
