(* ===== verification/SchedSpec.v ===== *)
(** An abstract scheduler on lists, and the proof that the scheduler of
    [Sched.v], with its intrusive lists and its bitmap, implements it.

    The abstract state holds the processes without their links, the run queues
    and the sleepers as lists of indices, and the current and idle processes.
    [R] relates a concrete state to an abstract one; every operation preserves
    it, so no operation dereferences NULL, runs off a list or lets the flags and
    the bitmap drift from the queues. *)

From Stdlib Require Import Sorted.
From S2P Require Import Prelude Sched SchedLists.

Module SchedSpec.

Import Sched SchedLists.

Record asched := ASched {
  a_procs : list process;
  a_qs : list (list nat);
  a_sl : list nat;
  a_cur : option nat;
  a_idle : option nat;
  a_next_pid : Z;
  a_active : bool
}.

Definition R (s : sched) (a : asched) : Prop :=
  shape s (a_qs a) (a_sl a) ∧ a_procs a = cores s ∧ a_cur a = current_process s ∧
  a_idle a = idle_process s ∧ a_next_pid a = next_pid s ∧ a_active a = scheduler_active s.

(** ** Abstract steps *)

Definition a_upd (i : nat) (f : process → process) (a : asched) : asched :=
  {| a_procs := alter f i (a_procs a); a_qs := a_qs a; a_sl := a_sl a; a_cur := a_cur a;
     a_idle := a_idle a; a_next_pid := a_next_pid a; a_active := a_active a |}.

Definition a_put_qs (qs : list (list nat)) (a : asched) : asched :=
  {| a_procs := a_procs a; a_qs := qs; a_sl := a_sl a; a_cur := a_cur a;
     a_idle := a_idle a; a_next_pid := a_next_pid a; a_active := a_active a |}.

Definition a_put_sl (sl : list nat) (a : asched) : asched :=
  {| a_procs := a_procs a; a_qs := a_qs a; a_sl := sl; a_cur := a_cur a;
     a_idle := a_idle a; a_next_pid := a_next_pid a; a_active := a_active a |}.

Definition a_put_cur (cur : option nat) (a : asched) : asched :=
  {| a_procs := a_procs a; a_qs := a_qs a; a_sl := a_sl a; a_cur := cur;
     a_idle := a_idle a; a_next_pid := a_next_pid a; a_active := a_active a |}.

Definition ready (a : asched) : list nat := concat (a_qs a).

(** A process joins the queue of its priority, unless it is the idle process or
    already waits there. *)
Definition a_enqueue (i : nat) (a : asched) : asched :=
  match a_procs a !! i with
  | None => a
  | Some p => if decide (a_idle a = Some i ∨ i ∈ ready a) then a
              else a_put_qs (enqueued (level p) i (a_qs a)) a
  end.

Definition a_dequeue (i : nat) (a : asched) : asched := a_put_qs (without i <$> a_qs a) a.

Definition a_wake_of (a : asched) (i : nat) : Z := from_option wake_deadline 0 (a_procs a !! i).

Definition a_unsleep (i : nat) (a : asched) : asched := a_put_sl (without i (a_sl a)) a.
Definition a_sleep (i : nat) (a : asched) : asched :=
  a_put_sl (insert_by (a_wake_of a) i (a_wake_of a i) (without i (a_sl a))) a.

Definition woken (p : process) : process := set_state PROC_READY (boost_priority (set_wake_deadline 0 p)).

(** The sleepers at the front whose time has come, one after the other. *)
Fixpoint a_wake_loop (sl : list nat) (now : Z) (a : asched) : asched :=
  match sl with
  | [] => a
  | i :: sl' =>
      if a_wake_of a i <=? now then a_wake_loop sl' now (a_enqueue i (a_upd i woken (a_put_sl sl' a))) else a
  end.
Definition a_wake (now : Z) (a : asched) : asched := a_wake_loop (a_sl a) now a.

(** The choice, on the abstract state. *)
Definition a_key (key : process → option Z) (a : asched) (i : nat) : option Z := p ← a_procs a !! i; key p.
Definition a_scan (key : process → option Z) (a : asched) (l : list nat) : option (nat * Z) :=
  foldl (fun b i => better b i (a_key key a i)) None l.
Definition a_choose (a : asched) : option nat :=
  match a_scan deadline_key a (ready a) with
  | Some (i, _) => Some i
  | None =>
      match a_scan fair_key a (ready a) with
      | Some (i, _) => Some i
      | None => match ready a with [] => None | i :: _ => Some i end
      end
  end.

Definition dispatched (p : process) : process := arm_timeslice (set_state PROC_RUNNING p).

Definition a_next (now : Z) (a : asched) : asched :=
  let a := a_wake now a in
  let '(next, a) := match a_choose a with
                    | Some i => (Some i, a_dequeue i a)
                    | None => (a_idle a, a)
                    end in
  match next with
  | None => a
  | Some i => a_upd i dispatched (a_put_cur (Some i) a)
  end.

(** ** The primitives refine *)

Lemma core_lookup s i : cores s !! i = core <$> processes s !! i.
Proof. unfold cores. apply list_lookup_fmap. Qed.

Lemma R_lookup s a i p : R s a → a_procs a !! i = Some p → ∃ q, processes s !! i = Some q ∧ p = core q.
Proof.
  intros (_ & -> & _) H. rewrite core_lookup in H. destruct (processes s !! i); simpl in H; [|done].
  injection H as <-. eauto.
Qed.

Lemma R_len s a : R s a → length (a_procs a) = MAX_PROCS ∧ length (processes s) = MAX_PROCS.
Proof.
  intros (Hs & -> & _). unfold cores. rewrite length_fmap. by rewrite (sh_procs _ _ _ Hs).
Qed.

(** From the representation of the lists and the frame. *)
Lemma R_frame s a s' qs sl :
  R s a → shape s' qs sl → frame s s' → R s' (a_put_sl sl (a_put_qs qs a)).
Proof.
  intros (_ & Hp & Hc & Hi & Hn & Ha) Hs' (F1 & F2 & F3 & F4 & F5 & _).
  split; [done|]. simpl. by rewrite Hp, Hc, Hi, Hn, Ha, F1, F2, F3, F4, F5.
Qed.

Lemma put_same a : a_put_sl (a_sl a) (a_put_qs (a_qs a) a) = a.
Proof. by destruct a. Qed.

(** A function on processes that neither reads nor writes the links. *)
Definition pure (f : process → process) : Prop := link_free f ∧ ∀ p, core (f p) = f (core p).

Lemma R_upd s a i f : R s a → (i < MAX_PROCS)%nat → pure f → R (upd i f s) (a_upd i f a).
Proof.
  intros HR Hi [Hf Hc]. destruct (R_len s a HR) as [_ Hl]. destruct HR as (Hs & Hp & Hr).
  split; [by apply shape_upd|]. split; [simpl; by rewrite cores_upd, Hp by (done || lia)|].
  rewrite upd_ok by lia. done.
Qed.

Lemma R_enqueue s a i : R s a → (i < MAX_PROCS)%nat → R (scheduler_enqueue_ready i s) (a_enqueue i a).
Proof.
  intros HR Hi. destruct (HR) as (Hs & Hp & Hc & Hid & _). destruct (bound_lookup i Hs Hi) as [p Hlp].
  unfold a_enqueue. rewrite Hp, core_lookup, Hlp. simpl. case_decide as Hd.
  - destruct Hd as [Hd|Hd].
    + unfold scheduler_enqueue_ready. rewrite decide_True by congruence. done.
    + by rewrite (enqueue_noop s _ _ i p Hs Hlp Hd).
  - destruct (enqueue_shape s _ _ i p Hs) as [Hs' Hf]; [intros E; apply Hd; left; congruence|done|tauto|].
    apply (R_frame s a _ _ _ HR Hs' Hf).
Qed.

Lemma R_unsleep s a i : R s a → R (scheduler_remove_from_sleep i s) (a_unsleep i a).
Proof.
  intros HR. destruct (HR) as (Hs & _). destruct (remove_sleep_shape s _ _ i Hs) as [Hs' Hf].
  apply (R_frame s a _ _ _ HR Hs' Hf).
Qed.

Lemma R_wake_of s a i : R s a → a_wake_of a i = wake_of s i.
Proof.
  intros (_ & Hp & _). unfold a_wake_of, wake_of. rewrite Hp, core_lookup. by destruct (processes s !! i).
Qed.

Lemma R_sleep s a i : R s a → (i < MAX_PROCS)%nat → R (scheduler_insert_sleep i s) (a_sleep i a).
Proof.
  intros HR Hi. destruct (HR) as (Hs & _). destruct (insert_sleep_shape s _ _ i Hs Hi) as [Hs' Hf].
  unfold a_sleep. rewrite (R_wake_of s a i HR).
  rewrite (insert_by_ext (a_wake_of a) (wake_of s)) by (intros j _; by apply R_wake_of).
  apply (R_frame s a _ _ _ HR Hs' Hf).
Qed.

Lemma R_sl_head s a i l : R s a → a_sl a = i :: l →
  ∃ p, sleep_list s = Some i ∧ processes s !! i = Some p ∧ (i < MAX_PROCS)%nat ∧
    R (upd i (set_next_sleep None) (put_sleep_list (next_sleep p) s)) (a_put_sl l a).
Proof.
  intros HR E. destruct (HR) as (Hs & _). pose proof (sh_sleep _ _ _ Hs) as Hseg. rewrite E in Hseg.
  destruct Hseg as (Hh & p & Hp & _). exists p. split; [done|]. split; [done|].
  split; [by eapply lookup_bound|].
  pose proof (sh_sleep_nodup _ _ _ Hs) as Hnd. rewrite E in Hnd. apply NoDup_cons in Hnd as [Hi _].
  pose proof (R_unsleep s a i HR) as HR'. unfold a_unsleep in HR'.
  rewrite E, without_cons, without_notin in HR' by done.
  unfold scheduler_remove_from_sleep in HR'. by rewrite Hh, Hp, Nat.eqb_refl in HR'.
Qed.

(** Functions composed of setters are pure. *)
Ltac solve_pure := split; [intros ?; by split_and!|intros ?; reflexivity].

Lemma pure_compose f g : pure f → pure g → pure (fun p => f (g p)).
Proof.
  intros [F1 F2] [G1 G2]. split; [|intros p; by rewrite F2, G2].
  intros p. destruct (F1 (g p)) as (-> & -> & ->). apply G1.
Qed.

Lemma a_upd_upd i f g a : a_upd i f (a_upd i g a) = a_upd i (fun p => f (g p)) a.
Proof. unfold a_upd. simpl. f_equal. apply list_alter_alter_eq. Qed.

Lemma R_wake_loop fuel now s a :
  R s a → (length (a_sl a) < fuel)%nat → R (wake_loop fuel now s) (a_wake_loop (a_sl a) now a).
Proof.
  revert s a. induction fuel as [|fuel IH]; intros s a HR Hf; [lia|]. cbn [wake_loop].
  destruct (a_sl a) as [|i l] eqn:E; simpl.
  - destruct (HR) as (Hs & _). pose proof (sh_sleep _ _ _ Hs) as Hseg. rewrite E in Hseg. simpl in Hseg. by rewrite Hseg.
  - destruct (R_sl_head s a i l HR E) as (p & -> & Hp & Hi & HR1). rewrite Hp.
    assert (Hw : a_wake_of a i = wake_deadline p) by (rewrite (R_wake_of s a i HR); unfold wake_of; by rewrite Hp).
    rewrite Hw. destruct (wake_deadline p <=? now); [|done].
    assert (HR2 : R (wake_one i (next_sleep p) s) (a_enqueue i (a_upd i woken (a_put_sl l a)))).
    { unfold wake_one, scheduler_boost_priority. apply R_enqueue; [|done].
      replace (a_upd i woken (a_put_sl l a)) with
        (a_upd i (set_state PROC_READY) (a_upd i boost_priority (a_upd i (set_wake_deadline 0) (a_put_sl l a))))
        by (by rewrite !a_upd_upd).
      do 3 (apply R_upd; [|done|solve_pure]). done. }
    assert (Hl : a_sl (a_enqueue i (a_upd i woken (a_put_sl l a))) = l).
    { unfold a_enqueue. repeat case_match; done. }
    specialize (IH _ _ HR2). rewrite Hl in IH. apply IH. simpl in Hf. lia.
Qed.

Lemma R_wake s a now : R s a → R (wake_sleepers now s) (a_wake now a).
Proof. intros HR. apply R_wake_loop; [done|]. destruct HR as (Hs & _). by eapply sleep_bound. Qed.

Lemma a_scan_R key s a l best :
  R s a → (∀ p, key (core p) = key p) →
  foldl (fun b i => better b i (a_key key a i)) best l = scan key s l best.
Proof.
  intros HR Hk. unfold scan. revert best. induction l as [|i l IH]; intros best; simpl; [done|].
  rewrite IH. do 2 f_equal. unfold a_key, key_of. destruct HR as (_ & -> & _). rewrite core_lookup.
  destruct (processes s !! i); simpl; [by rewrite Hk|done].
Qed.

Lemma a_choose_R s a : R s a → a_choose a = choose s (ready a).
Proof.
  intros HR. unfold a_choose, choose, a_scan. rewrite !(a_scan_R _ s a) by done. done.
Qed.

Lemma R_select s a : R s a →
  match a_choose a with
  | Some i => ∃ s', scheduler_select_next s = (Some i, s') ∧ i ∈ ready a ∧ R s' (a_dequeue i a)
  | None => scheduler_select_next s = (None, s) ∧ ready a = []
  end.
Proof.
  intros HR. rewrite (a_choose_R s a HR). destruct (HR) as (Hs & _).
  pose proof (select_shape s _ _ Hs) as H. fold (ready a) in H. destruct (choose s (ready a)) as [i|]; [|done].
  destruct H as (s' & E & Hi & Hs' & Hf). exists s'. split; [done|]. split; [done|].
  apply (R_frame s a _ _ _ HR Hs' Hf).
Qed.

(** ** The invariant *)

(** Everything the scheduler relies on, the process [x] being in transition: a
    process on a queue is ready, a sleeper waits, the sleepers are in the order
    of their deadlines; a process that is ready is on a queue, so that none is
    ever lost; and no process but [x] and the idle one is running. *)
Record ainv (a : asched) (x : option nat) : Prop := {
  ai_len : length (a_procs a) = MAX_PROCS;
  ai_levels : length (a_qs a) = SCHED_PRIORITY_LEVELS;
  ai_nodup : NoDup (ready a);
  ai_sl_nodup : NoDup (a_sl a);
  ai_idle : ∃ d, a_idle a = Some d ∧ (d < MAX_PROCS)%nat;
  ai_queue i : i ∈ ready a → ∃ p, a_procs a !! i = Some p ∧ state p = PROC_READY ∧ a_idle a ≠ Some i;
  ai_sleep i : i ∈ a_sl a → ∃ p, a_procs a !! i = Some p ∧ state p = PROC_WAITING ∧ a_idle a ≠ Some i;
  ai_ready i p : a_procs a !! i = Some p → state p = PROC_READY → Some i ≠ x → i ∈ ready a ∨ a_idle a = Some i;
  ai_running i p : a_procs a !! i = Some p → state p = PROC_RUNNING → Some i ≠ x → a_idle a = Some i;
  ai_zombie i p : a_procs a !! i = Some p → state p = PROC_ZOMBIE → Some i = x;
  ai_idle_state i p : a_idle a = Some i → a_procs a !! i = Some p → state p = PROC_READY ∨ state p = PROC_RUNNING;
  ai_sorted : StronglySorted (fun i j => a_wake_of a i ≤ a_wake_of a j) (a_sl a);
  ai_prio i p : a_procs a !! i = Some p → 0 ≤ base_priority p ≤ 3 ∧ 0 ≤ dynamic_priority p ≤ 3
}.

(** The current process is running, and there is one exactly when the scheduler runs. *)
Definition inv (a : asched) : Prop :=
  ainv a (a_cur a) ∧
  (∀ i, a_cur a = Some i → ∃ p, a_procs a !! i = Some p ∧ state p = PROC_RUNNING) ∧
  (a_active a = true ↔ is_Some (a_cur a)).

Lemma lookup_a_upd a i f j :
  a_procs (a_upd i f a) !! j = if decide (i = j) then f <$> a_procs a !! j else a_procs a !! j.
Proof. simpl. rewrite list_lookup_alter. by case_decide; subst. Qed.

Lemma a_wake_of_upd a i f j :
  (∀ p, wake_deadline (f p) = wake_deadline p) → a_wake_of (a_upd i f a) j = a_wake_of a j.
Proof.
  intros H. unfold a_wake_of. rewrite lookup_a_upd. case_decide; [|done]. destruct (a_procs a !! j); simpl; auto.
Qed.

Lemma StronglySorted_ext {A} (P Q : A → A → Prop) (l : list A) :
  (∀ x y, x ∈ l → y ∈ l → P x y → Q x y) → StronglySorted P l → StronglySorted Q l.
Proof.
  intros H Hs. induction Hs as [|x l Hs IH Hf]; [constructor|]. constructor.
  - apply IH. intros y z Hy Hz. apply H; set_solver.
  - rewrite Forall_forall in Hf |- *. intros y Hy. apply H; [set_solver..|auto].
Qed.

(** Updates that leave state, deadline and priorities alone. *)
Definition quiet (f : process → process) : Prop :=
  ∀ p, state (f p) = state p ∧ wake_deadline (f p) = wake_deadline p ∧
    base_priority (f p) = base_priority p ∧ dynamic_priority (f p) = dynamic_priority p.

Lemma upd_lookup_inv a i f j p :
  a_procs (a_upd i f a) !! j = Some p →
  ∃ q, a_procs a !! j = Some q ∧ p = if decide (i = j) then f q else q.
Proof.
  rewrite lookup_a_upd. case_decide; [|eauto]. intros (q & ? & ->)%fmap_Some. eauto.
Qed.

Lemma ainv_quiet a x i f : ainv a x → quiet f → ainv (a_upd i f a) x.
Proof.
  intros H Hf.
  assert (Hinv : ∀ j p, a_procs (a_upd i f a) !! j = Some p → ∃ q, a_procs a !! j = Some q ∧
    state p = state q ∧ base_priority p = base_priority q ∧ dynamic_priority p = dynamic_priority q).
  { intros j p (q & Hq & ->)%upd_lookup_inv. exists q. case_decide; [|done]. destruct (Hf q) as (? & ? & ? & ?). done. }
  assert (Hfwd : ∀ j q, a_procs a !! j = Some q → ∃ p, a_procs (a_upd i f a) !! j = Some p ∧ state p = state q).
  { intros j q Hq. rewrite lookup_a_upd, Hq. case_decide; simpl; eexists; split; try done. apply Hf. }
  constructor; simpl; try apply H.
  - rewrite length_alter. apply H.
  - intros j Hj. destruct (ai_queue _ _ H j Hj) as (q & Hq & Hst & ?). destruct (Hfwd j q Hq) as (p & ? & ?).
    exists p. split; [done|]. split; [congruence|done].
  - intros j Hj. destruct (ai_sleep _ _ H j Hj) as (q & Hq & Hst & ?). destruct (Hfwd j q Hq) as (p & ? & ?).
    exists p. split; [done|]. split; [congruence|done].
  - intros j p (q & Hq & Hst & _)%Hinv Hp. eapply (ai_ready _ _ H); [done|congruence].
  - intros j p (q & Hq & Hst & _)%Hinv Hp. eapply (ai_running _ _ H); [done|congruence].
  - intros j p (q & Hq & Hst & _)%Hinv Hp. eapply (ai_zombie _ _ H); [done|congruence].
  - intros j p Hd (q & Hq & -> & _)%Hinv. by eapply (ai_idle_state _ _ H).
  - eapply StronglySorted_ext; [|apply H]. intros y z _ _. rewrite !a_wake_of_upd by apply Hf. done.
  - intros j p (q & Hq & _ & -> & ->)%Hinv. by eapply (ai_prio _ _ H).
Qed.

(** Joining a queue. *)
Lemma ready_enqueued a k i : (k < length (a_qs a))%nat → concat (enqueued k i (a_qs a)) ≡ₚ i :: ready a.
Proof. apply concat_append. Qed.

(** A process that is on no list becomes ready and joins its queue. *)
Lemma ainv_make_ready a x i p f :
  ainv a x → a_procs a !! i = Some p → a_idle a ≠ Some i → (i ∉ ready a) → (i ∉ a_sl a) →
  state (f p) = PROC_READY → 0 ≤ base_priority (f p) ≤ 3 → 0 ≤ dynamic_priority (f p) ≤ 3 →
  ainv (a_enqueue i (a_upd i f a)) x.
Proof.
  intros H Hp Hidle Hq Hsl Hst Hb Hd.
  assert (Hi : a_procs (a_upd i f a) !! i = Some (f p)) by (by rewrite lookup_a_upd, decide_True, Hp).
  assert (Hne : ∀ j, j ≠ i → a_procs (a_upd i f a) !! j = a_procs a !! j)
    by (intros j Hj; by rewrite lookup_a_upd, decide_False).
  unfold a_enqueue. rewrite Hi, decide_False by (simpl; unfold ready in *; tauto).
  assert (Hperm : concat (enqueued (level (f p)) i (a_qs a)) ≡ₚ i :: ready a).
  { apply ready_enqueued. rewrite (ai_levels _ _ H). apply level_lt. }
  assert (Hcase : ∀ j q, a_procs (a_upd i f a) !! j = Some q → (j = i ∧ q = f p) ∨ (j ≠ i ∧ a_procs a !! j = Some q)).
  { intros j q Hj. destruct (decide (j = i)) as [->|Hji]; [left; split; congruence|right; by rewrite Hne in Hj]. }
  constructor; unfold ready; cbn [a_procs a_qs a_sl a_idle a_put_qs a_upd]; try apply H.
  - rewrite length_alter. apply H.
  - unfold enqueued. rewrite length_alter. apply H.
  - rewrite Hperm. apply NoDup_cons. split; [done|apply H].
  - intros j. rewrite Hperm. intros [->|Hj]%elem_of_cons; [eauto|].
    destruct (ai_queue _ _ H j Hj) as (q & Hq' & ?). exists q. split; [|done]. rewrite Hne; [done|]. intros ->. done.
  - intros j Hj. destruct (ai_sleep _ _ H j Hj) as (q & Hq' & ?). exists q. split; [|done]. rewrite Hne; [done|]. intros ->. done.
  - intros j q [[-> ->]|[Hji Hj]]%Hcase Hr Hx; rewrite Hperm, elem_of_cons; [auto|].
    destruct (ai_ready _ _ H j q Hj Hr Hx); auto.
  - intros j q [[-> ->]|[Hji Hj]]%Hcase Hr Hx; [congruence|by eapply (ai_running _ _ H)].
  - intros j q [[-> ->]|[Hji Hj]]%Hcase Hr; [congruence|by eapply (ai_zombie _ _ H)].
  - intros j q Hj' [[-> ->]|[Hji Hj]]%Hcase; [done|by eapply (ai_idle_state _ _ H)].
  - eapply StronglySorted_ext; [|apply H]. intros y z Hy Hz. unfold a_wake_of.
    cbn [a_procs a_put_qs]. rewrite !Hne by (intros ->; done). done.
  - intros j q [[-> ->]|[Hji Hj]]%Hcase; [done|by eapply (ai_prio _ _ H)].
Qed.

(** Dropping sleepers from the list keeps the invariant. *)
Lemma ainv_put_sl a x sl :
  ainv a x → sl `sublist_of` a_sl a → ainv (a_put_sl sl a) x.
Proof.
  intros H Hsub. constructor; try apply H; simpl.
  - eapply sublist_NoDup; [exact (ai_sl_nodup _ _ H)|done].
  - intros i Hi. apply (ai_sleep _ _ H). by eapply elem_of_sublist.
  - pose proof (ai_sorted _ _ H) as Hs. change (a_wake_of (a_put_sl sl a)) with (a_wake_of a).
    clear H. induction Hsub as [|y l1 l2 Hsub IH|y l1 l2 Hsub IH]; [done| |].
    + apply StronglySorted_inv in Hs as [Hs Hf]. constructor; [auto|].
      rewrite Forall_forall in Hf |- *. intros z Hz. apply Hf. by eapply elem_of_sublist.
    + apply StronglySorted_inv in Hs as [Hs _]. auto.
Qed.

Lemma boost_range p :
  0 ≤ base_priority p ≤ 3 → base_priority (boost_priority p) = base_priority p ∧
  0 ≤ dynamic_priority (boost_priority p) ≤ 3 ∧ state (boost_priority p) = state p.
Proof. intros H. split; [done|]. split; [apply clamp_range|done]. Qed.

Lemma ainv_wake_loop a x sl now :
  ainv a x → a_sl a = sl → ainv (a_wake_loop sl now a) x.
Proof.
  revert a. induction sl as [|i l IH]; intros a H E; simpl; [done|].
  destruct (a_wake_of a i <=? now); [|done]. apply IH.
  - pose proof (ai_sl_nodup _ _ H) as Hnd. rewrite E in Hnd. apply NoDup_cons in Hnd as [Hi _].
    destruct (ai_sleep _ _ H i) as (p & Hp & Hst & Hid); [rewrite E; set_solver|].
    destruct (ai_prio _ _ H i p Hp) as [Hb Hd].
    apply (ainv_make_ready (a_put_sl l a) x i p); try done.
    + apply ainv_put_sl; [done|]. rewrite E. by constructor.
    + intros Hq. destruct (ai_queue _ _ H i Hq) as (q & Hq' & ? & _). congruence.
    + apply (boost_range (set_wake_deadline 0 p) Hb).
  - unfold a_enqueue. repeat case_match; done.
Qed.

Lemma ainv_wake a x now : ainv a x → ainv (a_wake now a) x.
Proof. intros H. by apply ainv_wake_loop. Qed.

(** What waking does not change. *)
Lemma a_wake_loop_same sl now a :
  a_cur (a_wake_loop sl now a) = a_cur a ∧ a_idle (a_wake_loop sl now a) = a_idle a ∧
  a_active (a_wake_loop sl now a) = a_active a ∧ a_next_pid (a_wake_loop sl now a) = a_next_pid a.
Proof.
  revert a. induction sl as [|i l IH]; intros a; simpl; [done|]. case_match; [|done].
  destruct (IH (a_enqueue i (a_upd i woken (a_put_sl l a)))) as (-> & -> & -> & ->).
  unfold a_enqueue. repeat case_match; done.
Qed.

(** Dispatching a process that is ready, or the idle process. *)
Lemma ainv_dispatch a i p :
  ainv a None → a_procs a !! i = Some p → i ∈ ready a ∨ a_idle a = Some i →
  ainv (a_upd i dispatched (a_put_cur (Some i) (a_dequeue i a))) (Some i).
Proof.
  intros H Hp Hi.
  set (b := a_upd i dispatched (a_put_cur (Some i) (a_dequeue i a))).
  assert (Hpi : a_procs b !! i = Some (dispatched p)) by (unfold b; rewrite lookup_a_upd, decide_True by done; simpl; by rewrite Hp).
  assert (Hne : ∀ j, j ≠ i → a_procs b !! j = a_procs a !! j)
    by (intros j Hj; unfold b; by rewrite lookup_a_upd, decide_False).
  assert (Hcase : ∀ j q, a_procs b !! j = Some q → (j = i ∧ q = dispatched p) ∨ (j ≠ i ∧ a_procs a !! j = Some q)).
  { intros j q Hj. destruct (decide (j = i)) as [->|Hji]; [left; split; congruence|right; by rewrite Hne in Hj]. }
  assert (Hrd : ready b = without i (ready a)) by apply concat_without.
  constructor.
  - unfold b. simpl. rewrite length_alter. apply H.
  - unfold b. simpl. rewrite length_fmap. apply H.
  - rewrite Hrd. apply NoDup_filter, H.
  - apply H.
  - apply H.
  - intros j. rewrite Hrd, elem_of_without. intros [Hji Hj]. rewrite Hne by done. by apply (ai_queue _ _ H).
  - intros j Hj. destruct (ai_sleep _ _ H j Hj) as (q & Hq & Hst & Hid).
    assert (j ≠ i).
    { intros ->. destruct Hi as [Hi|Hi]; [|done]. destruct (ai_queue _ _ H i Hi) as (q' & ? & ? & _). congruence. }
    rewrite Hne by done. eauto.
  - intros j q [[-> ->]|[Hji Hj]]%Hcase Hr Hx; [done|]. rewrite Hrd, elem_of_without.
    destruct (ai_ready _ _ H j q Hj Hr); [done|auto..].
  - intros j q [[-> ->]|[Hji Hj]]%Hcase Hr Hx; [done|]. by eapply (ai_running _ _ H).
  - intros j q [[-> ->]|[Hji Hj]]%Hcase Hr; [done|]. by pose proof (ai_zombie _ _ H j q Hj Hr).
  - intros j q Hd [[-> ->]|[Hji Hj]]%Hcase; [by right|]. by eapply (ai_idle_state _ _ H).
  - eapply StronglySorted_ext; [|apply H]. intros y z _ _. unfold b. by rewrite !a_wake_of_upd.
  - intros j q [[-> ->]|[Hji Hj]]%Hcase; [exact (ai_prio _ _ H i p Hp)|by eapply (ai_prio _ _ H)].
Qed.

Lemma a_dequeue_id i a : (i ∉ ready a) → a_dequeue i a = a.
Proof.
  intros Hi. unfold a_dequeue. assert (E : without i <$> a_qs a = a_qs a); [|rewrite E; by destruct a].
  apply list_eq. intros k. rewrite list_lookup_fmap. destruct (a_qs a !! k) as [l|] eqn:E; simpl; [|done].
  f_equal. apply without_notin. intros H. apply Hi, elem_of_concat_lookup. eauto.
Qed.

Lemma a_choose_ready a : match a_choose a with Some i => i ∈ ready a | None => ready a = [] end.
Proof.
  assert (Hs : ∀ key l best i k, foldl (fun b i => better b i (a_key key a i)) best l = Some (i, k) →
    best = Some (i, k) ∨ i ∈ l).
  { intros key l. induction l as [|j l IH]; intros best i k H; simpl in H; [auto|].
    apply IH in H as [H|H]; [|set_solver]. unfold better in H. repeat case_match; simplify_eq; set_solver. }
  unfold a_choose, a_scan. destruct (foldl _ None (ready a)) as [[i k]|] eqn:E1.
  { apply Hs in E1 as [?|?]; done. }
  destruct (foldl (fun b i => better b i (a_key fair_key a i)) None (ready a)) as [[i k]|] eqn:E2.
  { apply Hs in E2 as [?|?]; done. }
  destruct (ready a); [done|set_solver].
Qed.

(** The next round of the loop ends with a running process. *)
Lemma inv_next a now : ainv a None → a_active a = true → inv (a_next now a).
Proof.
  intros H0 Hact. pose proof (ainv_wake a None now H0) as H. unfold a_next. set (b := a_wake now a) in *.
  assert (Hactb : a_active b = true) by (unfold b, a_wake; by rewrite (proj1 (proj2 (proj2 (a_wake_loop_same _ now a))))).
  pose proof (a_choose_ready b) as Hch. destruct (ai_idle _ _ H) as (d & Hd & Hdlt).
  assert (Hgoal : ∀ i, i ∈ ready b ∨ a_idle b = Some i →
    inv (a_upd i dispatched (a_put_cur (Some i) (a_dequeue i b)))).
  { intros i Hi. assert (Hp : ∃ p, a_procs b !! i = Some p).
    { destruct Hi as [Hi|Hi]; [destruct (ai_queue _ _ H i Hi) as (p & ? & _); eauto|].
      apply lookup_lt_is_Some_2. rewrite (ai_len _ _ H). congruence. }
    destruct Hp as [p Hp]. split; [by apply (ainv_dispatch b i p)|]. split; [|simpl; split; eauto].
    intros j [= <-]. exists (dispatched p). split; [|done]. rewrite lookup_a_upd, decide_True by done. simpl. by rewrite Hp. }
  destruct (a_choose b) as [i|]; [apply Hgoal; by left|]. rewrite Hd.
  rewrite <- (a_dequeue_id d b) by (rewrite Hch; set_solver). apply Hgoal. by right.
Qed.

(** ** The end of the loop body *)

Definition a_finish (a : asched) : asched :=
  match a_cur a with
  | None => a
  | Some i =>
      let a := if decide (a_idle a = Some i) then a else a_upd i account_runtime a in
      let a := match a_procs a !! i with
               | Some p => if bool_decide (state p = PROC_ZOMBIE) then a_upd i reclaimed (a_unsleep i a) else a
               | None => a
               end in
      let a := match a_procs a !! i with
               | Some p => if bool_decide (state p = PROC_READY) then a_enqueue i a else a
               | None => a
               end in
      a_put_cur None a
  end.

Definition a_switch (now : Z) (a : asched) : asched := a_next now (a_finish a).

Lemma R_put_cur s a c : R s a → R (put_current_process c s) (a_put_cur c a).
Proof.
  intros (Hs & Hp & Hc & Hi & Hn & Ha). split; [|by split_and!].
  pose proof (shape_put s _ _ c (idle_process s) (next_pid s) (scheduler_active s) (scheduler_channel_id s)
    (effects s) Hs) as H. exact H.
Qed.

Lemma R_emit s a e : R s a → R (emit e s) a.
Proof.
  intros (Hs & Hr). split; [|done].
  exact (shape_put s _ _ (current_process s) (idle_process s) (next_pid s) (scheduler_active s)
    (scheduler_channel_id s) (effects s ++ [e]) Hs).
Qed.

Lemma R_send s a action pid' value st : R s a → R (scheduler_send_event action pid' value st s) a.
Proof.
  intros HR. unfold scheduler_send_event. destruct (pid' <=? 0); [done|]. destruct (ipc_service s) as [ch|]; [|done].
  assert (HR' : R (if scheduler_channel_id s <? 0 then put_scheduler_channel_id ch s else s) a).
  { case_match; [|done]. destruct HR as (Hs & Hr). split; [|done].
    exact (shape_put s _ _ (current_process s) (idle_process s) (next_pid s) (scheduler_active s) ch (effects s) Hs). }
  destruct (scheduler_channel_id (if scheduler_channel_id s <? 0 then put_scheduler_channel_id ch s else s) <? 0); [done|].
  by apply R_emit.
Qed.

Lemma R_log s a prefix pid' : R s a → R (log_process_event prefix pid' s) a.
Proof. apply R_emit. Qed.

Lemma R_next s a now : R s a → ainv a None → R (schedule_next now s) (a_next now a).
Proof.
  intros HR H. unfold schedule_next, a_next. apply (R_wake s a now) in HR. apply (ainv_wake a None now) in H.
  set (b := a_wake now a) in *. pose proof (R_select _ _ HR) as Hsel. destruct (ai_idle _ _ H) as (d & Hd & Hdlt).
  assert (Hdisp : ∀ s1 b1 i, R s1 b1 → (i < MAX_PROCS)%nat →
    R (scheduler_arm_timeslice i (upd i (set_state PROC_RUNNING) (put_current_process (Some i) s1)))
      (a_upd i dispatched (a_put_cur (Some i) b1))).
  { intros s1 b1 i HR1 Hi. change dispatched with (fun p => arm_timeslice (set_state PROC_RUNNING p)).
    rewrite <- (a_upd_upd i arm_timeslice (set_state PROC_RUNNING)).
    do 2 (apply R_upd; [|done|solve_pure]). by apply R_put_cur. }
  destruct (a_choose b) as [i|].
  - destruct Hsel as (s' & -> & Hi & HR'). apply Hdisp; [done|].
    destruct (ai_queue _ _ H i Hi) as (p & Hp & _). apply lookup_lt_Some in Hp. by rewrite (ai_len _ _ H) in Hp.
  - destruct Hsel as [-> _]. destruct (HR) as (_ & _ & _ & <- & _). rewrite Hd. by apply Hdisp.
Qed.

Lemma R_upd_out s a i f g :
  R s a → (i < MAX_PROCS)%nat → (i ∉ ready a) → (i ∉ a_sl a) →
  (∀ p, on_run_queue (f p) = false) → (∀ p, core (f p) = g (core p)) → R (upd i f s) (a_upd i g a).
Proof.
  intros HR Hi Hq Hsl Hf Hc. destruct (R_len s a HR) as [_ Hl]. destruct HR as (Hs & Hp & Hr).
  split; [by apply shape_upd_out|]. rewrite upd_ok by lia. split; [|done]. simpl. rewrite Hp. unfold cores. simpl.
  symmetry. apply list_fmap_alter. apply Forall_forall. auto.
Qed.

Lemma pure_account : pure account_runtime.
Proof.
  split; [intros p; unfold account_runtime; repeat case_match; done|].
  intros p. unfold account_runtime. simpl. repeat case_match; done.
Qed.

Lemma quiet_account : quiet account_runtime.
Proof. intros p. unfold account_runtime. repeat case_match; done. Qed.

(** The current process as the loop finds it when the switch returns: on a queue
    or waiting or, when it has exited, on no list at all. *)
Definition switched_out (a : asched) (i : nat) (p : process) : Prop :=
  a_cur a = Some i ∧ a_procs a !! i = Some p ∧
  (state p = PROC_ZOMBIE → (i ∉ ready a) ∧ a_idle a ≠ Some i) ∧
  (state p = PROC_READY → i ∈ ready a) ∧
  (state p = PROC_RUNNING → a_idle a = Some i).

(** The process after accounting. *)
Lemma accounted a i p :
  a_procs a !! i = Some p →
  ∃ q, a_procs (if decide (a_idle a = Some i) then a else a_upd i account_runtime a) !! i = Some q ∧ state q = state p.
Proof.
  intros Hp. case_decide; [eauto|]. rewrite lookup_a_upd, decide_True, Hp by done. simpl.
  eexists. split; [done|]. apply quiet_account.
Qed.

Lemma R_finish s a i p :
  R s a → switched_out a i p → R (schedule_finish s) (a_finish a).
Proof.
  intros HR (Hcur & Hp & Hz & _). destruct (HR) as (Hs & _ & Hc & Hid & _).
  assert (Hi : (i < MAX_PROCS)%nat).
  { apply lookup_lt_Some in Hp. by rewrite (proj1 (R_len s a HR)) in Hp. }
  unfold schedule_finish, a_finish. rewrite <- Hc, Hcur.
  destruct (accounted a i p Hp) as (q & Hq & Hst).
  set (a1 := if decide (a_idle a = Some i) then a else a_upd i account_runtime a) in *.
  assert (HR1 : R (scheduler_account_runtime i s) a1).
  { unfold scheduler_account_runtime, a1. rewrite Hid. destruct (decide (idle_process s = Some i)); [done|].
    apply R_upd; [done|done|apply pure_account]. }
  assert (Hrd : ready a1 = ready a ∧ a_idle a1 = a_idle a) by (unfold a1; case_decide; done). destruct Hrd as [Hrd Hid1].
  destruct (R_lookup _ _ i q HR1 Hq) as (c & Hc1 & ->). rewrite Hc1, Hq. cbn [state core set_next_run set_next_sleep set_on_run_queue].
  set (s2 := if bool_decide (state c = PROC_ZOMBIE) then _ else scheduler_account_runtime i s).
  set (a2 := if bool_decide (state c = PROC_ZOMBIE) then a_upd i reclaimed (a_unsleep i a1) else a1).
  assert (HR2 : R s2 a2).
  { unfold s2, a2. destruct (bool_decide_reflect (state c = PROC_ZOMBIE)) as [Hzom|Hzom]; [|done].
    apply R_emit. unfold reclaim_zombie. rewrite Hc1, bool_decide_eq_true_2 by done. simpl negb. cbv iota.
    assert (HR3 : R (scheduler_send_event SCHED_EVENT_RECLAIM (pid c) (exit_code c) PROC_UNUSED
      (emit (EIpcAttach i) (upd i reclaimed (scheduler_remove_from_sleep i (scheduler_account_runtime i s)))))
      (a_upd i reclaimed (a_unsleep i a1))).
    { apply R_send, R_emit. apply R_upd_out; try done; [by apply R_unsleep| |].
      - unfold ready in Hrd |- *. simpl. rewrite Hrd. apply Hz. by rewrite <- Hst.
      - simpl. rewrite elem_of_without. naive_solver. }
    destruct (0 <? pid c); [by apply R_log|done]. }
  apply R_put_cur. destruct (bound_lookup i (proj1 HR2) Hi) as [c2 Hc2]. rewrite Hc2.
  assert (Hp2 : a_procs a2 !! i = Some (core c2)) by (destruct HR2 as (_ & -> & _); by rewrite core_lookup, Hc2).
  rewrite Hp2. cbn [state core set_next_run set_next_sleep set_on_run_queue].
  destruct (bool_decide (state c2 = PROC_READY)); [|done]. simpl andb.
  destruct (HR2) as (Hs2 & _ & _ & Hid2 & _).
  destruct (bool_decide_reflect (idle_process s2 = Some i)) as [E|E]; simpl.
  { unfold a_enqueue. rewrite Hp2, decide_True; [done|]. left. congruence. }
  rewrite (sh_on _ _ _ Hs2 i c2 Hc2). destruct (bool_decide_reflect (i ∈ concat (a_qs a2))) as [E'|E']; simpl.
  { unfold a_enqueue. rewrite Hp2, decide_True; [done|]. by right. }
  by apply R_enqueue.
Qed.

(** The exemption of [i] is not needed when its state is accounted for. *)
Lemma ainv_drop b i :
  ainv b (Some i) →
  (∀ c, a_procs b !! i = Some c →
     (state c = PROC_READY → i ∈ ready b ∨ a_idle b = Some i) ∧ (state c = PROC_RUNNING → a_idle b = Some i) ∧
     state c ≠ PROC_ZOMBIE) → ainv b None.
Proof.
  intros Hb Hc. constructor; try apply Hb.
  - intros j c Hj Hs _. destruct (decide (j = i)) as [->|Hne]; [by eapply Hc|].
    eapply (ai_ready _ _ Hb); [done..|congruence].
  - intros j c Hj Hs _. destruct (decide (j = i)) as [->|Hne]; [by eapply Hc|].
    eapply (ai_running _ _ Hb); [done..|congruence].
  - intros j c Hj Hs. pose proof (ai_zombie _ _ Hb j c Hj Hs) as [= ->]. by destruct (Hc c Hj) as (_ & _ & ?).
Qed.

(** Reclaiming a process that is on no list and not the idle one. *)
Lemma ainv_reclaim b i q :
  ainv b (Some i) → a_procs b !! i = Some q → (i ∉ a_sl b) → (i ∉ ready b) → a_idle b ≠ Some i →
  ainv (a_upd i reclaimed b) None.
Proof.
  intros H2 Hq Hslb Hrdb Hni.
  assert (Hrec : a_procs (a_upd i reclaimed b) !! i = Some (reclaimed q)) by (by rewrite lookup_a_upd, decide_True, Hq).
  apply (ainv_drop _ i); [|intros c Hc; rewrite Hrec in Hc; by injection Hc as <-].
  assert (Hcase : ∀ j c, a_procs (a_upd i reclaimed b) !! j = Some c →
    (j = i ∧ c = reclaimed q) ∨ (j ≠ i ∧ a_procs b !! j = Some c)).
  { intros j c Hj. destruct (decide (j = i)) as [->|Hji]; [left; split; congruence|].
    rewrite lookup_a_upd, decide_False in Hj by done. auto. }
  assert (Hne : ∀ j, j ≠ i → a_procs (a_upd i reclaimed b) !! j = a_procs b !! j)
    by (intros j Hj; by rewrite lookup_a_upd, decide_False).
  constructor; try apply H2.
  - simpl. rewrite length_alter. apply H2.
  - intros j Hj. rewrite Hne by (intros ->; done). by apply (ai_queue _ _ H2).
  - intros j Hj. rewrite Hne by (intros ->; done). by apply (ai_sleep _ _ H2).
  - intros j c [[-> ->]|[Hji Hj]]%Hcase Hs Hx; [done|]. by eapply (ai_ready _ _ H2).
  - intros j c [[-> ->]|[Hji Hj]]%Hcase Hs Hx; [done|]. by eapply (ai_running _ _ H2).
  - intros j c [[-> ->]|[Hji Hj]]%Hcase Hs; [done|]. by eapply (ai_zombie _ _ H2).
  - intros j c Hd [[-> ->]|[Hji Hj]]%Hcase; [by destruct Hni|by eapply (ai_idle_state _ _ H2)].
  - eapply StronglySorted_ext; [|apply H2]. intros y z Hy Hz. unfold a_wake_of.
    rewrite !Hne by (intros ->; done). done.
  - intros j c [[-> ->]|[Hji Hj]]%Hcase; [simpl; change (scheduler_clamp_priority SCHED_PRIORITY_MAX) with 3; lia|].
    by eapply (ai_prio _ _ H2).
Qed.

(** The process that left the processor is settled. *)
Lemma ainv_finish a i p :
  ainv a (Some i) → switched_out a i p → ainv (a_finish a) None.
Proof.
  intros H (Hcur & Hp & Hz & Hr & Hrun). unfold a_finish. rewrite Hcur.
  destruct (accounted a i p Hp) as (q & Hq & Hst).
  set (a1 := if decide (a_idle a = Some i) then a else a_upd i account_runtime a) in *.
  assert (H1 : ainv a1 (Some i)) by (unfold a1; case_decide; [done|apply ainv_quiet; [done|apply quiet_account]]).
  assert (Hrd : ready a1 = ready a ∧ a_idle a1 = a_idle a ∧ a_sl a1 = a_sl a) by (unfold a1; case_decide; done).
  destruct Hrd as (Hrd & Hid1 & Hsl). rewrite Hq.
  assert (Hput : ∀ b, ainv b None → ainv (a_put_cur None b) None) by (intros b []; by constructor).
  apply Hput. destruct (bool_decide_reflect (state q = PROC_ZOMBIE)) as [Hzom|Hzom].
  - destruct Hz as [Hnr Hni]; [congruence|].
    assert (H2 : ainv (a_unsleep i a1) (Some i)) by (apply ainv_put_sl; [done|]; apply sublist_filter).
    assert (Hrec : a_procs (a_upd i reclaimed (a_unsleep i a1)) !! i = Some (reclaimed q)).
    { rewrite lookup_a_upd, decide_True by done. simpl. by rewrite Hq. }
    rewrite Hrec, bool_decide_eq_false_2 by done. apply (ainv_reclaim _ i q); try done.
    + simpl. rewrite elem_of_without. naive_solver.
    + unfold ready in *. simpl. by rewrite Hrd.
    + change (a_idle (a_unsleep i a1)) with (a_idle a1). by rewrite Hid1.
  - rewrite Hq. assert (Hb : ainv a1 None).
    { apply (ainv_drop _ i); [done|]. intros c Hc. rewrite Hq in Hc. injection Hc as <-. rewrite Hrd, Hid1, Hst.
      split; [|split; [done|congruence]]. intros Hs. left. auto. }
    destruct (bool_decide_reflect (state q = PROC_READY)) as [Hrdy|Hrdy]; [|done].
    unfold a_enqueue. rewrite Hq, decide_True; [done|]. right. rewrite Hrd. apply Hr. congruence.
Qed.

(** ** Giving up the processor *)

Lemma a_finish_active a : a_active (a_finish a) = a_active a.
Proof. unfold a_finish, a_enqueue. repeat case_match; done. Qed.

Lemma switch_ok s a i p now :
  R s a → ainv a (Some i) → a_active a = true → switched_out a i p →
  R (context_switch now s) (a_switch now a) ∧ inv (a_switch now a).
Proof.
  intros HR H Hact Hsw. pose proof (ainv_finish a i p H Hsw) as Hf. split.
  - apply R_next; [by eapply R_finish|done].
  - apply inv_next; [done|]. by rewrite a_finish_active.
Qed.

(** A process that is on no list may take any state while it is in transition. *)
Lemma ainv_upd_off a i f p :
  ainv a (Some i) → a_procs a !! i = Some p → (i ∉ ready a) → (i ∉ a_sl a) → a_idle a ≠ Some i →
  0 ≤ base_priority (f p) ≤ 3 → 0 ≤ dynamic_priority (f p) ≤ 3 → ainv (a_upd i f a) (Some i).
Proof.
  intros H Hp Hr Hsl Hid Hb Hd.
  assert (Hcase : ∀ j c, a_procs (a_upd i f a) !! j = Some c →
    (j = i ∧ c = f p) ∨ (j ≠ i ∧ a_procs a !! j = Some c)).
  { intros j c. rewrite lookup_a_upd. case_decide as E; [subst; rewrite Hp; intros [= <-]; auto|auto]. }
  assert (Hne : ∀ j, j ≠ i → a_procs (a_upd i f a) !! j = a_procs a !! j)
    by (intros j Hj; by rewrite lookup_a_upd, decide_False).
  constructor; try apply H.
  - simpl. rewrite length_alter. apply H.
  - intros j Hj. rewrite Hne by (intros ->; done). by apply (ai_queue _ _ H).
  - intros j Hj. rewrite Hne by (intros ->; done). by apply (ai_sleep _ _ H).
  - intros j c [[-> ->]|[Hji Hj]]%Hcase Hs Hx; [done|]. by eapply (ai_ready _ _ H).
  - intros j c [[-> ->]|[Hji Hj]]%Hcase Hs Hx; [done|]. by eapply (ai_running _ _ H).
  - intros j c [[-> ->]|[Hji Hj]]%Hcase Hs; [done|]. by eapply (ai_zombie _ _ H).
  - intros j c Hd' [[-> ->]|[Hji Hj]]%Hcase; [done|]. by eapply (ai_idle_state _ _ H).
  - eapply StronglySorted_ext; [|apply H]. intros y z Hy Hz. unfold a_wake_of.
    rewrite !Hne by (intros ->; done). done.
  - intros j c [[-> ->]|[Hji Hj]]%Hcase; [done|]. by eapply (ai_prio _ _ H).
Qed.

(** The running thread is on no list. *)
Lemma current_off a i :
  inv a → a_cur a = Some i → a_idle a ≠ Some i →
  ∃ p, a_procs a !! i = Some p ∧ state p = PROC_RUNNING ∧ (i ∉ ready a) ∧ (i ∉ a_sl a) ∧
    ainv a (Some i) ∧ a_active a = true ∧ (i < MAX_PROCS)%nat ∧
    0 ≤ base_priority p ≤ 3 ∧ 0 ≤ dynamic_priority p ≤ 3.
Proof.
  intros (H & Hc & Ha) Hcur Hid. rewrite Hcur in H. destruct (Hc i Hcur) as (p & Hp & Hst). exists p.
  split; [done|]. split; [done|]. split; [|split; [|split; [done|split; [|split]]]].
  - intros Hi. destruct (ai_queue _ _ H i Hi) as (q & ? & ? & _). congruence.
  - intros Hi. destruct (ai_sleep _ _ H i Hi) as (q & ? & ? & _). congruence.
  - apply Ha. eauto.
  - apply lookup_lt_Some in Hp. by rewrite (ai_len _ _ H) in Hp.
  - apply (ai_prio _ _ H i p Hp).
Qed.

Lemma ready_a_enqueue a i p :
  a_procs a !! i = Some p → length (a_qs a) = SCHED_PRIORITY_LEVELS → a_idle a ≠ Some i → i ∈ ready (a_enqueue i a).
Proof.
  intros Hp Hl Hid. unfold a_enqueue. rewrite Hp. case_decide as Hd; [tauto|]. unfold ready. simpl.
  rewrite (ready_enqueued a) by (rewrite Hl; apply level_lt). set_solver.
Qed.

Lemma a_enqueue_same i a :
  a_procs (a_enqueue i a) = a_procs a ∧ a_cur (a_enqueue i a) = a_cur a ∧ a_idle (a_enqueue i a) = a_idle a ∧
  a_active (a_enqueue i a) = a_active a ∧ a_sl (a_enqueue i a) = a_sl a ∧ a_next_pid (a_enqueue i a) = a_next_pid a.
Proof. unfold a_enqueue. repeat case_match; done. Qed.

(** Giving up the processor while staying ready. *)
Lemma requeue_ok s a i f p now :
  R s a → inv a → a_cur a = Some i → a_idle a ≠ Some i → a_procs a !! i = Some p → pure f →
  state (f p) = PROC_READY → 0 ≤ base_priority (f p) ≤ 3 → 0 ≤ dynamic_priority (f p) ≤ 3 →
  R (context_switch now (scheduler_enqueue_ready i (upd i f s))) (a_switch now (a_enqueue i (a_upd i f a))) ∧
  inv (a_switch now (a_enqueue i (a_upd i f a))).
Proof.
  intros HR Hinv Hcur Hid Hp Hf Hst Hb Hd.
  destruct (current_off a i Hinv Hcur Hid) as (p' & Hp' & Hrun & Hnr & Hns & H & Hact & Hi & _ & _).
  assert (Hpi : a_procs (a_upd i f a) !! i = Some (f p)) by (by rewrite lookup_a_upd, decide_True, Hp).
  destruct (a_enqueue_same i (a_upd i f a)) as (E1 & E2 & E3 & E4 & _).
  apply (switch_ok _ _ i (f p)).
  - apply R_enqueue; [|done]. by apply R_upd.
  - by apply (ainv_make_ready a (Some i) i p f).
  - rewrite E4. exact Hact.
  - split; [by rewrite E2|]. split; [by rewrite E1|]. split; [congruence|]. split; [|congruence].
    intros _. eapply ready_a_enqueue; [exact Hpi|apply H|exact Hid].
Qed.

(** Giving up the processor to wait, or for good. *)
Lemma park_ok s a i f p now :
  R s a → inv a → a_cur a = Some i → a_idle a ≠ Some i → a_procs a !! i = Some p → pure f →
  state (f p) = PROC_WAITING ∨ state (f p) = PROC_ZOMBIE →
  0 ≤ base_priority (f p) ≤ 3 → 0 ≤ dynamic_priority (f p) ≤ 3 →
  R (context_switch now (upd i f s)) (a_switch now (a_upd i f a)) ∧ inv (a_switch now (a_upd i f a)).
Proof.
  intros HR Hinv Hcur Hid Hp Hf Hst Hb Hd.
  destruct (current_off a i Hinv Hcur Hid) as (p' & Hp' & Hrun & Hnr & Hns & H & Hact & Hi & _ & _).
  assert (Hpi : a_procs (a_upd i f a) !! i = Some (f p)) by (by rewrite lookup_a_upd, decide_True, Hp).
  apply (switch_ok _ _ i (f p)); [by apply R_upd|by apply (ainv_upd_off a i f p)|done|].
  split; [done|]. split; [done|]. split; [done|]. split; intros E; destruct Hst; congruence.
Qed.

End SchedSpec.
