(* ===== verification/SchedRun.v ===== *)
(** The operations of the scheduler as they are called by threads, by interrupt
    handlers and by the kernel, run in any order: the refinement of the abstract
    scheduler, the invariant, and what the scheduler guarantees to processes. *)

From Stdlib Require Import Sorted.
From S2P Require Import Prelude Sched SchedLists SchedSpec.

Module SchedRun.

Import Sched SchedLists SchedSpec.

(** ** Operations *)

Inductive op :=
| OCreate (kernel : bool) (entry : option Z) (stack_size : Z)
| OSchedule (now : Z)
| OYield (now : Z)
| OBlock (now : Z)
| OSleep (ticks now now' : Z)
| OExit (code now : Z)
| OWake (i : nat)
| OTick (now now' : Z)
| OSetScheduler (pid policy weight deadline now : Z).

(** The nine words of the first frame fit into a stack of the given size wherever the
    stack is aligned; a size of zero stands for the whole array. *)
Definition FRAME_ROOM : Z := 51.
Definition frame_fits (size : Z) : Prop := size = 0 ∨ FRAME_ROOM ≤ size.

#[export] Instance frame_fits_dec size : Decision (frame_fits size).
Proof. unfold frame_fits. apply _. Defined.

Section run.
Context (place : placement).

Definition exec (s : sched) (o : op) : sched :=
  match o with
  | OCreate true e size => snd (process_create_kernel place e size s)
  | OCreate false e size => snd (process_create place e size s)
  | OSchedule now => process_schedule now s
  | OYield now => process_yield now s
  | OBlock now => process_block_current now s
  | OSleep ticks now now' => process_sleep ticks now now' s
  | OExit code now => process_exit code now s
  | OWake i => process_wake i s
  | OTick now now' => process_scheduler_tick now now' s
  | OSetScheduler pid' policy weight deadline now => snd (process_set_scheduler pid' policy weight deadline now s)
  end.

(** ** The abstract operations *)

Definition a_running (a : asched) : option nat :=
  match a_cur a with
  | None => None
  | Some i => if decide (a_idle a = Some i) then None else Some i
  end.

Definition yielding (p : process) : process :=
  set_time_slice_remaining 0 (set_state PROC_READY (reset_priority p)).
Definition blocking (p : process) : process := set_time_slice_remaining 0 (set_state PROC_WAITING p).
Definition sleeping (deadline : Z) (p : process) : process := blocking (set_wake_deadline deadline p).
Definition exiting (code : Z) (p : process) : process := set_state PROC_ZOMBIE (set_exit_code code p).
Definition preempted (p : process) : process := set_state PROC_READY (demote_priority p).
Definition waking (p : process) : process := set_state PROC_READY (boost_priority p).
Definition ticked (p : process) : process :=
  if 0 <? time_slice_remaining p then set_time_slice_remaining (time_slice_remaining p - 1) p else p.

(** Run an operation of the running thread. *)
Definition as_thread (a : asched) (f : nat → asched) : asched :=
  match a_running a with None => a | Some i => f i end.

Definition a_yield (now : Z) (a : asched) : asched :=
  as_thread a (fun i => a_switch now (a_enqueue i (a_upd i yielding a))).
Definition a_block (now : Z) (a : asched) : asched := as_thread a (fun i => a_switch now (a_upd i blocking a)).
Definition a_sleep_for (ticks now now' : Z) (a : asched) : asched :=
  as_thread a (fun i => a_switch now' (a_sleep i (a_upd i (sleeping (now +64 (if ticks =? 0 then 1 else ticks))) a))).
Definition a_exit (code now : Z) (a : asched) : asched :=
  match a_cur a with None => a | Some i => a_switch now (a_upd i (exiting code) a) end.
Definition a_wake_proc (i : nat) (a : asched) : asched :=
  match a_procs a !! i with
  | None => a
  | Some p => if bool_decide (state p = PROC_WAITING) then a_enqueue i (a_upd i waking (a_unsleep i a)) else a
  end.

Definition a_preempt (now : Z) (i : nat) (a : asched) : asched :=
  a_switch now (a_enqueue i (a_upd i preempted a)).

Definition a_tick (now now' : Z) (a : asched) : asched :=
  if negb (a_active a) then a
  else
    let a := a_wake now a in
    match a_cur a with
    | None => a
    | Some i =>
        if decide (a_idle a = Some i) then if decide (ready a = []) then a else a_switch now' a
        else
          let a := a_upd i ticked a in
          match a_procs a !! i with
          | None => a
          | Some p => if time_slice_remaining p =? 0 then a_preempt now' i a else a
          end
    end.

Definition a_set_active (a : asched) : asched :=
  {| a_procs := a_procs a; a_qs := a_qs a; a_sl := a_sl a; a_cur := a_cur a; a_idle := a_idle a;
     a_next_pid := a_next_pid a; a_active := true |}.

Definition a_schedule (now : Z) (a : asched) : asched :=
  if a_active a then a else a_next now (a_set_active a).

Definition a_put_pid (n : Z) (a : asched) : asched :=
  {| a_procs := a_procs a; a_qs := a_qs a; a_sl := a_sl a; a_cur := a_cur a; a_idle := a_idle a;
     a_next_pid := n; a_active := a_active a |}.

(** The stack pointer of a new thread: below nine words, at the top of its stack. *)
Definition initial_esp (stack size : Z) : Z := stack_align (stack +32 size) -32 36.

(** Words laid down from the top, and the stack pointer below them. *)
Fixpoint fill_words (sp : Z) (ws : list Z) (m : gmap Z Z) : gmap Z Z :=
  match ws with [] => m | w :: ws' => fill_words (sp -32 4) ws' (<[sp -32 4 := w]> m) end.

(** A new thread in slot [i]: its fields, its first frame and its stack pointer. *)
Definition new_thread (i : nat) (e size : Z) (kind' : thread_kind_t) (priority n : Z) (p : process) : process :=
  let p := start_thread e size kind' priority n p in
  let top := stack_align (stack_addr place i +32 size) in
  set_esp (initial_esp (stack_addr place i) size) (set_stack_words (fill_words top (initial_frame (thread_bootstrap place)) (stack_words p)) p).

Definition a_create (kind' : thread_kind_t) (priority : Z) (e : option Z) (size : Z) (a : asched) : asched :=
  match e, first_index free_slot (a_procs a) with
  | Some e, Some i =>
      let n := if a_next_pid a <=? 0 then 1 else a_next_pid a in
      let size := if (size =? 0) || (PROC_STACK_SIZE <? size) then PROC_STACK_SIZE else size in
      let f := fun _ => arm_timeslice (new_thread i e size kind' priority n blank_process) in
      a_enqueue i (a_upd i f (a_put_pid (s32 (n + 1)) a))
  | _, _ => a
  end.

Definition a_lookup (pid' : Z) (a : asched) : option nat :=
  if pid' <=? 0 then a_cur a
  else first_index (fun p => (pid p =? pid') && negb (bool_decide (state p = PROC_UNUSED))) (a_procs a).

(** The parameters a process is given. *)
Definition rescheduled (policy weight deadline now : Z) (p : process) : process :=
  let effective := if weight =? 0 then CONFIG_SCHED_DEFAULT_WEIGHT else weight in
  if policy =? 0
  then set_sched_deadline 0 (set_sched_weight effective (set_sched_policy SCHED_POLICY_FAIR p))
  else set_sched_deadline (if negb (deadline =? 0) && (deadline <? now) then now +64 deadline else deadline)
         (set_sched_weight effective (set_sched_policy SCHED_POLICY_DEADLINE p)).

Definition a_set_scheduler (pid' policy weight deadline now : Z) (a : asched) : asched :=
  match a_lookup pid' a with
  | None => a
  | Some i => if (policy =? 0) || (policy =? 1) then a_upd i (rescheduled policy weight deadline now) a else a
  end.

Definition aexec (a : asched) (o : op) : asched :=
  match o with
  | OCreate true e size => a_create THREAD_KIND_KERNEL scheduler_default_kernel_priority e size a
  | OCreate false e size => a_create THREAD_KIND_USER scheduler_default_user_priority e size a
  | OSchedule now => a_schedule now a
  | OYield now => a_yield now a
  | OBlock now => a_block now a
  | OSleep ticks now now' => a_sleep_for ticks now now' a
  | OExit code now => a_exit code now a
  | OWake i => a_wake_proc i a
  | OTick now now' => a_tick now now' a
  | OSetScheduler pid' policy weight deadline now => a_set_scheduler pid' policy weight deadline now a
  end.

(** Pointers passed to [process_wake] point into the table, the idle thread, which only
    halts, does not exit, and the stack of a new thread has room for its first frame. *)
Definition wf_op (a : asched) (o : op) : Prop :=
  match o with
  | OWake i => (i < MAX_PROCS)%nat
  | OExit _ _ => a_cur a ≠ a_idle a
  | OCreate _ _ size => frame_fits size
  | _ => True
  end.

(** ** Each operation refines *)

Lemma upd_upd i f g s : upd i f (upd i g s) = upd i (fun p => f (g p)) s.
Proof.
  unfold upd. destruct (processes s !! i) as [p|] eqn:E; [|simpl; by rewrite E].
  simpl. rewrite list_lookup_alter_eq, E. simpl. unfold put_processes. simpl. f_equal. apply list_alter_alter_eq.
Qed.

Lemma running_R s a : R s a → running_thread s = a_running a.
Proof. intros (_ & _ & Hc & Hi & _). unfold running_thread, a_running. by rewrite Hc, Hi. Qed.

Lemma a_running_Some a i : a_running a = Some i ↔ a_cur a = Some i ∧ a_idle a ≠ Some i.
Proof. unfold a_running. destruct (a_cur a); [case_decide|]; naive_solver. Qed.

(** The running thread's slot. *)
Lemma running_slot s a i :
  R s a → inv a → a_running a = Some i →
  ∃ p, a_procs a !! i = Some p ∧ (i < length (processes s))%nat ∧ 0 ≤ base_priority p ≤ 3 ∧ 0 ≤ dynamic_priority p ≤ 3.
Proof.
  intros HR Hinv [Hc Hid]%a_running_Some.
  destruct (current_off a i Hinv Hc Hid) as (p & Hp & _ & _ & _ & _ & _ & Hi & Hb & Hd).
  exists p. by rewrite (proj2 (R_len s a HR)).
Qed.

Lemma yield_ok s a now : R s a → inv a → R (process_yield now s) (a_yield now a) ∧ inv (a_yield now a).
Proof.
  intros HR Hinv. unfold process_yield, a_yield, as_thread. rewrite (running_R s a HR).
  destruct (a_running a) as [i|] eqn:E; [|done].
  destruct (running_slot s a i HR Hinv E) as (p & Hp & Hi & Hb & Hd). apply a_running_Some in E as [Hc Hid].
  unfold scheduler_reset_priority. rewrite !upd_upd.
  apply (requeue_ok s a i yielding p); [done..|solve_pure|done|exact Hb|exact Hb].
Qed.

Lemma block_ok s a now : R s a → inv a → R (process_block_current now s) (a_block now a) ∧ inv (a_block now a).
Proof.
  intros HR Hinv. unfold process_block_current, a_block, as_thread. rewrite (running_R s a HR).
  destruct (a_running a) as [i|] eqn:E; [|done].
  destruct (running_slot s a i HR Hinv E) as (p & Hp & Hi & Hb & Hd). apply a_running_Some in E as [Hc Hid].
  rewrite upd_upd. apply (park_ok s a i blocking p); [done..|solve_pure|by left|exact Hb|exact Hd].
Qed.

(** A waiting process enters the sleep list in the order of the deadlines. *)
Lemma insert_by_sorted wake i d l :
  StronglySorted (fun x y => wake x ≤ wake y) l → wake i = d →
  StronglySorted (fun x y => wake x ≤ wake y) (insert_by wake i d l).
Proof.
  intros Hs <-. induction Hs as [|j l Hs IH Hf]; simpl; [repeat constructor|].
  destruct (wake j <=? wake i) eqn:E; bool_prop.
  - constructor; [done|]. rewrite insert_by_perm. constructor; done.
  - constructor; [by constructor|]. constructor; [lia|]. eapply Forall_impl; [exact Hf|]. simpl. lia.
Qed.

Lemma ainv_sleep a x i p :
  ainv a x → a_procs a !! i = Some p → state p = PROC_WAITING → a_idle a ≠ Some i → (i ∉ a_sl a) →
  ainv (a_sleep i a) x.
Proof.
  intros H Hp Hst Hid Hi. unfold a_sleep. rewrite without_notin by done.
  constructor; try apply H; simpl.
  - rewrite insert_by_perm. apply NoDup_cons. split; [done|apply H].
  - intros j. rewrite insert_by_perm. intros [->|Hj]%elem_of_cons; [eauto|]. by apply (ai_sleep _ _ H).
  - apply insert_by_sorted; [apply H|done].
Qed.

Lemma sleep_ok s a ticks now now' :
  R s a → inv a → R (process_sleep ticks now now' s) (a_sleep_for ticks now now' a) ∧ inv (a_sleep_for ticks now now' a).
Proof.
  intros HR Hinv. unfold process_sleep, a_sleep_for, as_thread. rewrite (running_R s a HR).
  destruct (a_running a) as [i|] eqn:E; [|done].
  destruct (running_slot s a i HR Hinv E) as (p & Hp & Hi & Hb & Hd). apply a_running_Some in E as [Hc Hid].
  destruct (current_off a i Hinv Hc Hid) as (p' & _ & _ & Hnr & Hns & H & Hact & Hlt & _ & _).
  rewrite !upd_upd. set (d := now +64 (if ticks =? 0 then 1 else ticks)).
  change (fun p0 => set_time_slice_remaining 0 (set_state PROC_WAITING (set_wake_deadline d p0))) with (sleeping d).
  assert (Hpi : a_procs (a_upd i (sleeping d) a) !! i = Some (sleeping d p)) by (by rewrite lookup_a_upd, decide_True, Hp).
  apply (switch_ok _ _ i (sleeping d p)).
  - apply R_sleep; [|done]. apply R_upd; [done|done|solve_pure].
  - apply (ainv_sleep _ _ i (sleeping d p)); try done. by apply (ainv_upd_off a i _ p).
  - done.
  - by split_and!.
Qed.

Lemma exit_ok s a code now :
  R s a → inv a → a_cur a ≠ a_idle a → R (process_exit code now s) (a_exit code now a) ∧ inv (a_exit code now a).
Proof.
  intros HR Hinv Hne. unfold process_exit, a_exit. destruct (HR) as (Hs & _ & Hc & _). rewrite <- Hc.
  destruct (a_cur a) as [i|] eqn:Ec; [|done].
  destruct (current_off a i Hinv Ec) as (p & Hp & _ & Hnr & Hns & H & Hact & Hlt & Hb & Hd); [congruence|].
  destruct (R_lookup s a i p HR Hp) as (c & Hlc & ->). rewrite Hlc.
  set (s1 := emit (EServiceExit (pid c)) (emit (EIpcCleanup i) s)).
  assert (HR1 : R s1 a) by (by do 2 apply R_emit).
  assert (HR2 : R (scheduler_remove_from_sleep i s1) a).
  { pose proof (R_unsleep s1 a i HR1) as HR2. unfold a_unsleep in HR2. rewrite without_notin in HR2 by done.
    by destruct a. }
  set (s2 := scheduler_remove_from_sleep i s1) in *.
  assert (Hlen : (i < length (processes s2))%nat) by (by rewrite (proj2 (R_len s2 a HR2))).
  rewrite upd_upd.
  set (f := fun p => set_state PROC_ZOMBIE (set_exit_code code (set_next_run None (set_on_run_queue false p)))).
  assert (HR3 : R (upd i f s2) (a_upd i (exiting code) a)) by (by apply R_upd_out).
  set (s3 := upd i f s2) in *.
  assert (Hpi : a_procs (a_upd i (exiting code) a) !! i = Some (exiting code (core c)))
    by (by rewrite lookup_a_upd, decide_True, Hp).
  apply (switch_ok _ _ i (exiting code (core c))).
  - by apply R_emit, R_send, R_log.
  - by apply (ainv_upd_off a i _ (core c)).
  - done.
  - split; [done|]. split; [done|]. split; [|split; done]. intros _. split; [done|]. simpl. congruence.
Qed.

Lemma wake_ok s a i :
  R s a → inv a → (i < MAX_PROCS)%nat → R (process_wake i s) (a_wake_proc i a) ∧ inv (a_wake_proc i a).
Proof.
  intros HR Hinv Hi. destruct (HR) as (Hs & Hp & _). destruct (bound_lookup i Hs Hi) as [c Hc].
  assert (Hpi : a_procs a !! i = Some (core c)) by (by rewrite Hp, core_lookup, Hc).
  unfold process_wake, a_wake_proc. rewrite Hc, Hpi. change (state (core c)) with (state c).
  destruct (bool_decide_reflect (state c = PROC_WAITING)) as [Hw|]; simpl negb; cbv iota; [|done].
  unfold scheduler_boost_priority. rewrite upd_upd. destruct Hinv as (H & Hcur & Hact).
  destruct (ai_prio _ _ H i _ Hpi) as [Hb Hd].
  assert (Hid : a_idle a ≠ Some i).
  { intros E. destruct (ai_idle_state _ _ H i _ E Hpi) as [E'|E']; simpl in E'; congruence. }
  assert (Hnr : i ∉ ready a) by (intros E; destruct (ai_queue _ _ H i E) as (q & ? & ? & _); simplify_eq; simpl in *; congruence).
  split.
  - apply R_enqueue; [|done]. apply R_upd; [by apply R_unsleep|done|solve_pure].
  - destruct (a_enqueue_same i (a_upd i waking (a_unsleep i a))) as (E1 & E2 & E3 & E4 & _).
    split; [|split].
    + rewrite E2. apply (ainv_make_ready (a_unsleep i a) (a_cur a) i (core c)); try done.
      * apply ainv_put_sl; [done|]. apply sublist_filter.
      * simpl. rewrite elem_of_without. naive_solver.
      * apply (boost_range (core c) Hb).
    + rewrite E1, E2. intros j Hj. destruct (Hcur j Hj) as (q & Hq & Hst). exists q.
      rewrite lookup_a_upd, decide_False; [done|]. intros <-. simplify_eq. simpl in *. congruence.
    + by rewrite E2, E4.
Qed.

Lemma demote_range p :
  0 ≤ dynamic_priority p ≤ 3 → 0 ≤ dynamic_priority (demote_priority p) ≤ 3 ∧
  base_priority (demote_priority p) = base_priority p.
Proof.
  intros H. unfold demote_priority. change (u8 SCHED_PRIORITY_MAX) with 3.
  destruct (dynamic_priority p <? 3) eqn:E; bool_prop; [|done]. simpl. rewrite u8_small by lia. lia.
Qed.

Lemma pure_demote : pure demote_priority.
Proof.
  split; intros p; unfold demote_priority; [by case_match|]. simpl. by case_match.
Qed.

Lemma pure_ticked : pure ticked.
Proof. split; intros p; unfold ticked; [by case_match|]. simpl. by case_match. Qed.

Lemma quiet_ticked : quiet ticked.
Proof. intros p. unfold ticked. by case_match. Qed.

Lemma inv_upd_quiet a i f : inv a → quiet f → inv (a_upd i f a).
Proof.
  intros (H & Hc & Ha) Hf. split; [by apply ainv_quiet|]. split; [|done].
  intros j Hj. destruct (Hc j Hj) as (q & Hq & Hst). rewrite lookup_a_upd, Hq. case_decide; simpl; [|eauto].
  eexists. split; [done|]. destruct (Hf q) as [-> _]. done.
Qed.

(** Waking sleepers does not touch the running process. *)
Lemma a_wake_loop_other sl now a i p :
  (i ∉ sl) → a_procs a !! i = Some p → a_procs (a_wake_loop sl now a) !! i = Some p.
Proof.
  revert a. induction sl as [|j l IH]; intros a Hi Hp; simpl; [done|]. case_match; [|done].
  apply IH; [set_solver|]. rewrite (proj1 (a_enqueue_same _ _)), lookup_a_upd, decide_False; [done|set_solver].
Qed.

Lemma inv_wake a now : inv a → inv (a_wake now a).
Proof.
  intros (H & Hc & Ha). unfold a_wake. destruct (a_wake_loop_same (a_sl a) now a) as (E1 & E2 & E3 & E4).
  split; [rewrite E1; by apply ainv_wake|]. split; [|by rewrite E1, E3].
  rewrite E1. intros i Hi. destruct (Hc i Hi) as (p & Hp & Hst). exists p. split; [|done].
  apply a_wake_loop_other; [|done]. intros Hsl. destruct (ai_sleep _ _ H i Hsl) as (q & ? & ? & _). congruence.
Qed.

(** The bitmap is zero exactly when every queue is empty. *)
Lemma bitmap_zero s qs sl : shape s qs sl → (ready_bitmap s =? 0) = bool_decide (concat qs = []).
Proof.
  intros Hs. apply eq_bool_prop_intro. rewrite !Is_true_true, Z.eqb_eq, bool_decide_eq_true. split.
  - intros Hz. apply elem_of_nil_inv. intros i (k & l & Hk & Hi)%elem_of_concat_lookup.
    pose proof (sh_bits _ _ _ Hs k) as Hb. rewrite Hz, Z.bits_0, Hk in Hb. simpl in Hb. by destruct l; [set_solver|].
  - intros Hq. apply Z.bits_inj'. intros n Hn. rewrite Z.bits_0, <- (Z2Nat.id n), (sh_bits _ _ _ Hs) by done.
    destruct (qs !! Z.to_nat n) as [l|] eqn:E; [|done]. simpl. destruct l as [|i l]; [done|].
    assert (i ∈ concat qs) by (apply elem_of_concat_lookup; exists (Z.to_nat n), (i :: l); set_solver).
    rewrite Hq in *. set_solver.
Qed.

Lemma preempt_ok s a i p now :
  R s a → inv a → a_cur a = Some i → a_idle a ≠ Some i → a_procs a !! i = Some p →
  R (scheduler_preempt_running true now s) (a_preempt now i a) ∧ inv (a_preempt now i a).
Proof.
  intros HR Hinv Hcur Hid Hp. unfold scheduler_preempt_running. destruct (HR) as (_ & _ & Hc & Hi & _).
  rewrite <- Hc, Hcur, <- Hi, decide_False by done. unfold scheduler_demote_priority. rewrite upd_upd.
  destruct (current_off a i Hinv Hcur Hid) as (p' & Hp' & _ & _ & _ & _ & _ & _ & Hb & Hd). rewrite Hp in Hp'. injection Hp' as <-.
  destruct (demote_range p Hd) as [Hd' Hb']. apply (requeue_ok s a i preempted p); try done.
  - apply (pure_compose (set_state PROC_READY) demote_priority); [solve_pure|apply pure_demote].
  - unfold preempted. simpl. rewrite Hb'. done.
Qed.

Lemma idle_switch_ok s a i now :
  R s a → inv a → a_cur a = Some i → a_idle a = Some i →
  R (context_switch now s) (a_switch now a) ∧ inv (a_switch now a).
Proof.
  intros HR Hinv Hcur Hid. destruct (Hinv) as (H & Hc & Ha). rewrite Hcur in H.
  destruct (Hc i Hcur) as (p & Hp & Hst). apply (switch_ok s a i p); try done.
  - apply Ha. eauto.
  - split; [done|]. split; [done|]. split; [congruence|]. split; [congruence|done].
Qed.

Lemma tick_ok s a now now' :
  R s a → inv a → R (process_scheduler_tick now now' s) (a_tick now now' a) ∧ inv (a_tick now now' a).
Proof.
  intros HR Hinv. unfold process_scheduler_tick, a_tick. destruct (HR) as (_ & _ & _ & _ & _ & <-).
  destruct (a_active a); simpl negb; cbv iota; [|done].
  apply (R_wake s a now) in HR. apply (inv_wake a now) in Hinv. set (b := a_wake now a) in *.
  destruct (HR) as (Hs & _ & Hc & Hi & _). rewrite <- Hc. destruct (a_cur b) as [i|] eqn:Ecur; [|done].
  rewrite <- Hi. case_decide as Hid.
  - rewrite (bitmap_zero _ _ _ Hs). fold (ready b). case_bool_decide as Hr; simpl negb; cbv iota.
    + by rewrite decide_True.
    + rewrite decide_False by done. unfold scheduler_preempt_running. rewrite <- Hc, <- Hi, decide_True by done.
      by apply (idle_switch_ok _ b i).
  - destruct (current_off b i Hinv Ecur Hid) as (p & Hp & _ & _ & _ & _ & _ & Hlt & _).
    change (fun p0 => if 0 <? time_slice_remaining p0 then _ else p0) with ticked.
    assert (HR2 : R (upd i ticked (wake_sleepers now s)) (a_upd i ticked b)) by (apply R_upd; [done|done|apply pure_ticked]).
    assert (Hinv2 : inv (a_upd i ticked b)) by (apply inv_upd_quiet; [done|apply quiet_ticked]).
    assert (Hp2 : a_procs (a_upd i ticked b) !! i = Some (ticked p)) by (by rewrite lookup_a_upd, decide_True, Hp).
    destruct (R_lookup _ _ i _ HR2 Hp2) as (c & Hlc & Hc2). rewrite Hlc, Hp2, Hc2.
    change (time_slice_remaining (core c)) with (time_slice_remaining c).
    destruct (time_slice_remaining c =? 0); [|done]. by eapply (preempt_ok _ _ i (ticked p)).
Qed.

Lemma first_free_R s a : R s a → first_index free_slot (processes s) = first_index free_slot (a_procs a).
Proof. intros (_ & -> & _). unfold cores. by rewrite first_index_fmap. Qed.

(** A free slot is on no list. *)
Lemma free_slot_off a i :
  inv a → first_index free_slot (a_procs a) = Some i →
  ∃ p, a_procs a !! i = Some p ∧ (i < MAX_PROCS)%nat ∧ (i ∉ ready a) ∧ (i ∉ a_sl a) ∧ a_idle a ≠ Some i ∧ a_cur a ≠ Some i.
Proof.
  intros (H & Hc & Ha) (p & Hp & Hfree & _)%first_index_Some. exists p. split; [done|].
  assert (Hst : state p = PROC_UNUSED ∨ state p = PROC_ZOMBIE).
  { unfold free_slot in Hfree. bool_prop. destruct Hfree as [E|E]; apply bool_decide_eq_true in E; auto. }
  split; [apply lookup_lt_Some in Hp; by rewrite (ai_len _ _ H) in Hp|]. split_and!.
  - intros Hi. destruct (ai_queue _ _ H i Hi) as (q & ? & ? & _). destruct Hst; congruence.
  - intros Hi. destruct (ai_sleep _ _ H i Hi) as (q & ? & ? & _). destruct Hst; congruence.
  - intros E. destruct (ai_idle_state _ _ H i p E Hp), Hst; congruence.
  - intros E. destruct (Hc i E) as (q & ? & ?). destruct Hst; congruence.
Qed.

Lemma R_pid s a :
  R s a →
  fst (acquire_pid s) = (if a_next_pid a <=? 0 then 1 else a_next_pid a) ∧
  R (snd (acquire_pid s)) (a_put_pid (s32 ((if a_next_pid a <=? 0 then 1 else a_next_pid a) + 1)) a).
Proof.
  intros (Hs & Hp & Hc & Hi & Hn & Ha). unfold acquire_pid. rewrite Hn.
  destruct (next_pid s <=? 0) eqn:E; simpl; (split; [done|]); (split; [|by split_and!]).
  - exact (shape_put s _ _ (current_process s) (idle_process s) (s32 2) (scheduler_active s) (scheduler_channel_id s) (effects s) Hs).
  - exact (shape_put s _ _ (current_process s) (idle_process s) (s32 (next_pid s + 1)) (scheduler_active s)
      (scheduler_channel_id s) (effects s) Hs).
Qed.

Lemma whole_stack_fits : frame_fits PROC_STACK_SIZE.
Proof. by right. Qed.

(** The stack pointer stays inside the stack of a thread that has room. *)
Lemma initial_esp_bounds i size :
  (i < MAX_PROCS)%nat → FRAME_ROOM ≤ size ≤ PROC_STACK_SIZE →
  let stack := stack_addr place i in let top := stack_align (stack +32 size) in
  initial_esp stack size = top - 36 ∧ stack ≤ top - 36 ∧ top ≤ stack + size ∧ top mod 16 = 0.
Proof.
  intros Hi [Hr Hm]. cbn zeta. destruct (stacks_inside place i Hi) as [H0 H1]. unfold FRAME_ROOM, PROC_STACK_SIZE in *.
  unfold initial_esp, stack_align. rewrite (u32_small (stack_addr place i + size)) by lia.
  change 15 with (2 ^ 4 - 1). rewrite land_not32_mask by lia. change (2 ^ 4) with 16.
  set (t := stack_addr place i + size) in *. pose proof (Z.mod_pos_bound t 16). pose proof (Z.div_mod t 16).
  rewrite u32_small by lia. split; [done|]. split; [lia|]. split; [lia|]. replace (t - t mod 16) with (t / 16 * 16) by lia. apply Z.mod_mul. lia.
Qed.

Lemma upd_ext i f g s : (∀ p, f p = g p) → upd i f s = upd i g s.
Proof.
  intros H. unfold upd. destruct (processes s !! i); [|done]. f_equal. by apply list_alter_ext.
Qed.

Lemma push_words_upd i sp ws f s :
  stack_addr place i + 4 * Z.of_nat (length ws) ≤ sp ≤ stack_addr place i + PROC_STACK_SIZE → 0 ≤ stack_addr place i → sp < 4294967296 →
  push_words place i sp ws (upd i f s) =
    (sp - 4 * Z.of_nat (length ws), upd i (fun p => set_stack_words (fill_words sp ws (stack_words (f p))) (f p)) s).
Proof.
  revert sp f. induction ws as [|w ws IH]; intros sp f Hsp H0 Hlt; cbn [push_words fill_words length] in *.
  - f_equal; [lia|]. apply upd_ext. intros p. by destruct (f p).
  - assert (E : sp -32 4 = sp - 4) by (apply u32_small; lia). rewrite E. unfold store_word, in_stack.
    rewrite (proj2 (Z.leb_le _ _)), (proj2 (Z.leb_le _ _)) by lia. cbn [andb]. rewrite upd_upd, IH by lia.
    f_equal; lia.
Qed.

Lemma push_frame_upd i e size kind' priority n s :
  (i < MAX_PROCS)%nat → FRAME_ROOM ≤ size ≤ PROC_STACK_SIZE →
  push_frame place i size (upd i (start_thread e size kind' priority n) s) = upd i (new_thread i e size kind' priority n) s.
Proof.
  intros Hi Hs. destruct (initial_esp_bounds i size Hi Hs) as (E & H1 & H2 & _). destruct (stacks_inside place i Hi) as [H0 H3].
  unfold push_frame. cbn zeta in *. set (top := stack_align _) in *.
  rewrite push_words_upd; [|cbn; lia|done|lia]. rewrite upd_upd. apply upd_ext. intros p. unfold new_thread. cbn zeta. fold top. rewrite E. reflexivity.
Qed.

Lemma fitting_size size : frame_fits size →
  FRAME_ROOM ≤ (if (size =? 0) || (PROC_STACK_SIZE <? size) then PROC_STACK_SIZE else size) ≤ PROC_STACK_SIZE.
Proof. unfold frame_fits, FRAME_ROOM, PROC_STACK_SIZE. intros Hs. destruct (size =? 0) eqn:E1, (4096 <? size) eqn:E2; bool_prop; simpl; lia. Qed.

Lemma create_ok s a kind' priority e size :
  R s a → inv a → frame_fits size →
  R (snd (created (scheduler_create_thread place e size kind' priority true false s)))
    (a_create kind' priority e size a) ∧ inv (a_create kind' priority e size a).
Proof.
  intros HR Hinv Hsize%fitting_size.
  assert (Hcr : ∀ r b, R (snd r) b → R (snd (created r)) b).
  { intros [j s1] b HR1. simpl in *. case_match; case_match; try done; by apply R_emit. }
  unfold scheduler_create_thread, a_create, alloc_process_slot. destruct e as [e|]; [|split; [by apply Hcr|done]].
  rewrite (first_free_R s a HR). destruct (first_index free_slot (a_procs a)) as [i|] eqn:Ef; [|split; [by apply Hcr|done]].
  destruct (free_slot_off a i Hinv Ef) as (p & Hp & Hlt & Hnr & Hns & Hid & Hcur).
  set (size' := if (size =? 0) || (PROC_STACK_SIZE <? size) then PROC_STACK_SIZE else size).
  set (n := if a_next_pid a <=? 0 then 1 else a_next_pid a).
  assert (HR1 : R (emit (EIpcAttach i) (upd i (fun _ => blank_process) s)) (a_upd i (fun _ => blank_process) a)).
  { apply R_emit. by apply R_upd_out. }
  destruct (R_pid _ _ HR1) as [Hpid HR2].
  destruct (acquire_pid (emit (EIpcAttach i) (upd i (fun _ => blank_process) s))) as [pid' s2].
  cbn [fst snd a_next_pid a_upd] in Hpid, HR2. fold n in Hpid, HR2. subst pid'.
  rewrite push_frame_upd by done.
  set (st := new_thread i e size' kind' priority n).
  set (f := fun _ : process => arm_timeslice (st blank_process)).
  assert (HR3 : R (scheduler_arm_timeslice i (upd i st s2)) (a_upd i f (a_put_pid (s32 (n + 1)) a))).
  { replace (a_upd i f (a_put_pid (s32 (n + 1)) a)) with
      (a_upd i arm_timeslice (a_upd i st (a_put_pid (s32 (n + 1)) (a_upd i (fun _ => blank_process) a)))).
    - apply R_upd; [|done|solve_pure]. by apply R_upd_out.
    - change (a_put_pid (s32 (n + 1)) (a_upd i (fun _ => blank_process) a)) with
        (a_upd i (fun _ => blank_process) (a_put_pid (s32 (n + 1)) a)). by rewrite !a_upd_upd. }
  assert (Hok : inv (a_enqueue i (a_upd i f (a_put_pid (s32 (n + 1)) a)))).
  { destruct Hinv as (H & Hc & Ha).
    assert (H' : ainv (a_put_pid (s32 (n + 1)) a) (a_cur a)) by (destruct H; by constructor).
    destruct (a_enqueue_same i (a_upd i f (a_put_pid (s32 (n + 1)) a))) as (E1 & E2 & E3 & E4 & _).
    split; [|split].
    - rewrite E2. apply (ainv_make_ready (a_put_pid (s32 (n + 1)) a) _ i p f); try done; apply clamp_range.
    - rewrite E1, E2. intros j Hj. destruct (Hc j Hj) as (q & Hq & Hst). exists q.
      rewrite lookup_a_upd, decide_False; [done|]. simpl in Hj. congruence.
    - by rewrite E2, E4. }
  split; [|done]. apply Hcr. simpl. pose proof (R_enqueue _ _ i HR3 Hlt) as HR4.
  destruct (0 <? n); [by apply R_send, R_log|done].
Qed.

Lemma lookup_R s a pid' :
  R s a → (if pid' <=? 0 then process_current s else process_lookup pid' s) = a_lookup pid' a.
Proof.
  intros (_ & Hp & Hc & _). unfold a_lookup, process_lookup, process_current.
  destruct (pid' <=? 0); [done|]. rewrite Hp. unfold cores. by rewrite first_index_fmap.
Qed.

Lemma set_scheduler_ok s a pid' policy weight deadline now :
  R s a → inv a →
  R (snd (process_set_scheduler pid' policy weight deadline now s)) (a_set_scheduler pid' policy weight deadline now a) ∧
  inv (a_set_scheduler pid' policy weight deadline now a).
Proof.
  intros HR Hinv. unfold process_set_scheduler, a_set_scheduler. rewrite (lookup_R s a pid' HR).
  destruct (a_lookup pid' a) as [i|] eqn:E; [|done].
  assert (Hi : (i < MAX_PROCS)%nat).
  { destruct Hinv as (H & Hc & _). rewrite <- (ai_len _ _ H). unfold a_lookup in E. destruct (pid' <=? 0).
    - destruct (Hc i E) as (q & Hq & _). by eapply lookup_lt_Some.
    - by eapply first_index_lt. }
  assert (Hquiet : quiet (rescheduled policy weight deadline now)) by (intros p; unfold rescheduled; by case_match).
  assert (Hpure : pure (rescheduled policy weight deadline now))
    by (split; intros p; unfold rescheduled; destruct (policy =? 0); [by split_and!|by split_and!|reflexivity|reflexivity]).
  apply (R_upd s a i _ HR Hi) in Hpure as HR'.
  destruct (policy =? 0) eqn:E0.
  { split; [|by apply inv_upd_quiet]. unfold rescheduled in HR' |- *. rewrite E0 in HR' |- *. exact HR'. }
  destruct (policy =? 1) eqn:E1; [|done].
  split; [|by apply inv_upd_quiet]. unfold rescheduled in HR' |- *. rewrite E0 in HR' |- *. exact HR'.
Qed.

Lemma schedule_ok s a now : R s a → inv a → R (process_schedule now s) (a_schedule now a) ∧ inv (a_schedule now a).
Proof.
  intros HR Hinv. unfold process_schedule, a_schedule. destruct (HR) as (Hs & Hp & Hc & Hi & Hn & Ha). rewrite <- Ha.
  destruct (a_active a) eqn:E; [done|].
  assert (Hcur : a_cur a = None).
  { destruct (a_cur a) eqn:E'; [|done]. destruct Hinv as (_ & _ & Hact). rewrite E', E in Hact.
    assert (false = true) by (apply Hact; eauto). done. }
  assert (HR' : R (put_scheduler_active true s) (a_set_active a)).
  { split; [|by split_and!]. exact (shape_put s _ _ (current_process s) (idle_process s) (next_pid s) true
      (scheduler_channel_id s) (effects s) Hs). }
  assert (H : ainv (a_set_active a) None).
  { destruct Hinv as (H & _). rewrite Hcur in H. destruct H. by constructor. }
  split; [by apply R_next|by apply inv_next].
Qed.

Lemma exec_ok s a o : R s a → inv a → wf_op a o → R (exec s o) (aexec a o) ∧ inv (aexec a o).
Proof.
  intros HR Hinv Ho. destruct o as [[] e size|now|now|now|ticks now now'|code now|i|now now'|pid' policy weight deadline now]; simpl in Ho |- *.
  - by apply create_ok.
  - by apply create_ok.
  - by apply schedule_ok.
  - by apply yield_ok.
  - by apply block_ok.
  - by apply sleep_ok.
  - by apply exit_ok.
  - by apply wake_ok.
  - by apply tick_ok.
  - by apply set_scheduler_ok.
Qed.

(** ** Boot *)

(** The tables as static storage leaves them: of their declared sizes. *)
Definition boot_tables (s : sched) : Prop :=
  length (processes s) = MAX_PROCS ∧ length (ready_queues s) = SCHED_PRIORITY_LEVELS ∧ fault s = false ∧
  Forall (fun p => 0 ≤ base_priority p ≤ 3 ∧ 0 ≤ dynamic_priority p ≤ 3) (processes s).

(** The state of the scheduler after start-up, before the idle thread exists. *)
Definition empty_state (s : sched) : sched :=
  {| processes := reset_process <$> processes s;
     ready_queues := replicate SCHED_PRIORITY_LEVELS {| head := None; tail := None |};
     ready_bitmap := 0; current_process := None; idle_process := None; sleep_list := None; next_pid := 1;
     scheduler_active := false; scheduler_channel_id := default (-1) (ipc_service s);
     ipc_service := ipc_service s;
     effects := effects s ++ (EIpcAttach <$> seq 0 (length (reset_process <$> processes s)));
     fault := fault s |}.

Lemma reset_tables_empty s : boot_tables s → reset_tables s = empty_state s.
Proof.
  intros (Hp & Hq & _).
  assert (E : (fun _ => {| head := None; tail := None |}) <$> ready_queues s =
              replicate SCHED_PRIORITY_LEVELS {| head := None; tail := None |}).
  { rewrite <- Hq. clear. induction (ready_queues s) as [|q qs IH]; [done|]. simpl. by f_equal. }
  unfold reset_tables, empty_state. cbn. by rewrite E.
Qed.

Definition a_boot (s : sched) (idle : Z) : asched :=
  {| a_procs := alter (fun _ => arm_timeslice (new_thread 0 idle PROC_STACK_SIZE THREAD_KIND_KERNEL SCHED_PRIORITY_MAX 0 blank_process)) 0%nat
                 (core <$> (reset_process <$> processes s));
     a_qs := replicate SCHED_PRIORITY_LEVELS []; a_sl := []; a_cur := None; a_idle := Some 0%nat;
     a_next_pid := 1; a_active := false |}.

Lemma empty_shape s : boot_tables s → shape (empty_state s) (replicate SCHED_PRIORITY_LEVELS []) [].
Proof.
  intros (Hp & Hq & Hf & _).
  assert (Hnil : ∀ k l, replicate SCHED_PRIORITY_LEVELS (@nil nat) !! k = Some l → l = []).
  { intros k l H. by apply list_elem_of_lookup_2, elem_of_replicate in H as [-> _]. }
  constructor.
  - cbn [processes empty_state]. by rewrite length_fmap.
  - reflexivity.
  - reflexivity.
  - intros k q l Hk ->%Hnil. cbn [ready_queues empty_state] in Hk.
    by apply list_elem_of_lookup_2, elem_of_replicate in Hk as [-> _].
  - constructor.
  - intros i p Hi. cbn [processes empty_state] in Hi. rewrite list_lookup_fmap in Hi.
    apply fmap_Some in Hi as (q & _ & ->). reflexivity.
  - intros k. cbn [ready_bitmap empty_state]. rewrite Z.bits_0.
    destruct (replicate SCHED_PRIORITY_LEVELS (@nil nat) !! k) as [l|] eqn:E; [|done]. by rewrite (Hnil k l E).
  - reflexivity.
  - reflexivity.
  - constructor.
  - done.
Qed.

Lemma first_slot s : boot_tables s → first_index free_slot (processes (empty_state s)) = Some 0%nat.
Proof. intros (Hp & _). cbn [processes empty_state]. destruct (processes s) as [|p ps]; [done|]. reflexivity. Qed.

Lemma boot_R idle s : boot_tables s → R (process_system_init place idle s) (a_boot s idle).
Proof.
  intros Hb. unfold process_system_init. rewrite reset_tables_empty by done.
  unfold scheduler_create_thread, alloc_process_slot.
  rewrite first_slot by done. simpl snd.
  set (a0 := {| a_procs := core <$> (reset_process <$> processes s); a_qs := replicate SCHED_PRIORITY_LEVELS []; a_sl := [];
                a_cur := None; a_idle := None; a_next_pid := 1; a_active := false |}).
  assert (HR0 : R (empty_state s) a0) by (split; [by apply empty_shape|by split_and!]).
  assert (Hlt : (0 < MAX_PROCS)%nat) by (unfold MAX_PROCS; lia).
  assert (Hn : ∀ j : nat, j ∉ ready a0) by (intros j; apply not_elem_of_nil).
  rewrite push_frame_upd by (unfold MAX_PROCS, FRAME_ROOM, PROC_STACK_SIZE; lia).
  set (st := new_thread 0 idle PROC_STACK_SIZE THREAD_KIND_KERNEL SCHED_PRIORITY_MAX 0).
  assert (HR1 : R (scheduler_arm_timeslice 0 (upd 0 st (emit (EIpcAttach 0) (upd 0 (fun _ => blank_process) (empty_state s)))))
                  (a_upd 0 arm_timeslice (a_upd 0 st (a_upd 0 (fun _ => blank_process) a0)))).
  { apply R_upd; [|done|solve_pure]. apply R_upd_out; [|done|apply Hn|apply not_elem_of_nil|done|done].
    apply R_emit. apply R_upd_out; [done|done|apply Hn|apply not_elem_of_nil|done|done]. }
  rewrite !a_upd_upd in HR1. set (s3 := scheduler_arm_timeslice 0 _) in *. destruct HR1 as (Hs & Hp & Hc & Hi & Hnp & Ha). split; [|by split_and!].
  exact (shape_put s3 _ _ (current_process s3) (Some 0%nat) (next_pid s3) (scheduler_active s3)
    (scheduler_channel_id s3) (effects s3) Hs).
Qed.

Lemma boot_inv idle s : boot_tables s → inv (a_boot s idle).
Proof.
  intros (Hp & Hq & Hf & Hpr).
  assert (Hcase : ∀ j p, a_procs (a_boot s idle) !! j = Some p →
    (j = 0%nat ∧ state p = PROC_READY ∧ base_priority p = 3 ∧ dynamic_priority p = 3) ∨
    (j ≠ 0%nat ∧ state p = PROC_UNUSED ∧ 0 ≤ base_priority p ≤ 3 ∧ 0 ≤ dynamic_priority p ≤ 3)).
  { intros j p. unfold a_boot. cbn [a_procs]. rewrite list_lookup_alter, !list_lookup_fmap. case_decide as E.
    - subst. intros (q & _ & ->)%fmap_Some. left. done.
    - intros (q & (r & Hr & ->)%fmap_Some & ->)%fmap_Some. right. split; [done|]. split; [done|].
      apply (Forall_lookup_1 _ _ _ _ Hpr Hr). }
  assert (Hnil : ready (a_boot s idle) = []) by done.
  split; [|split; [done|]].
  - constructor; try rewrite Hnil; try done.
    + simpl. by rewrite length_alter, !length_fmap.
    + constructor.
    + constructor.
    + exists 0%nat. split; [done|]. unfold MAX_PROCS. lia.
    + intros i Hi. by apply not_elem_of_nil in Hi.
    + intros i Hi. by apply not_elem_of_nil in Hi.
    + intros i p [(-> & _)|(_ & ? & _)]%Hcase Hs; [by right|congruence].
    + intros i p [(-> & _)|(_ & ? & _)]%Hcase Hs; [done|congruence].
    + intros i p [(_ & ? & _)|(_ & ? & _)]%Hcase Hs; congruence.
    + intros i p [= <-] [(_ & ? & _)|(? & _)]%Hcase; [by left|done].
    + constructor.
    + intros i p [(_ & _ & -> & ->)|(_ & _ & ?)]%Hcase; [lia|done].
  - simpl. split; [done|]. by intros [].
Qed.

(** ** Reachable states *)

(** The guard of an operation, on the concrete state. *)
Definition op_ok (s : sched) (o : op) : Prop :=
  match o with
  | OWake i => (i < MAX_PROCS)%nat
  | OExit _ _ => current_process s ≠ idle_process s
  | OCreate _ _ size => frame_fits size
  | _ => True
  end.

(** The states the kernel reaches from start-up by any sequence of operations. *)
Inductive reachable : sched → Prop :=
| reach_boot s idle : boot_tables s → reachable (process_system_init place idle s)
| reach_exec s o : reachable s → op_ok s o → reachable (exec s o).

Lemma op_ok_R s a o : R s a → op_ok s o ↔ wf_op a o.
Proof. intros (_ & _ & Hc & Hi & _). destruct o; simpl; try done. by rewrite Hc, Hi. Qed.

Lemma reachable_inv s : reachable s → ∃ a, R s a ∧ inv a.
Proof.
  induction 1 as [s idle Hb|s o Hr (a & HR & Hinv) Ho].
  - exists (a_boot s idle). split; [by apply boot_R|by apply boot_inv].
  - exists (aexec a o). apply exec_ok; [done|done|]. by apply (op_ok_R s a o HR).
Qed.

End run.

(** ** A concrete start *)

(** Addresses of the stacks, and the tables as the loader leaves them. *)
Program Definition stacks : placement :=
  {| stack_addr := fun i => 1048576 + 8192 * Z.of_nat i; thread_bootstrap := 1052672 |}.
Next Obligation. intros i Hi. unfold MAX_PROCS, PROC_STACK_SIZE in *. lia. Qed.

Definition bss : sched :=
  {| processes := replicate MAX_PROCS (set_dynamic_priority 0 blank_process);
     ready_queues := replicate SCHED_PRIORITY_LEVELS {| head := None; tail := None |};
     ready_bitmap := 0; current_process := None; idle_process := None; sleep_list := None; next_pid := 0;
     scheduler_active := false; scheduler_channel_id := 0; ipc_service := None; effects := []; fault := false |}.

Lemma bss_tables : boot_tables bss.
Proof. by_eval. Qed.

End SchedRun.
