(* ===== verification/SchedProps.v ===== *)
(** What the scheduler guarantees: the refinement of the abstract scheduler on
    every reachable state, that no process is ever lost, which process runs next,
    which sleepers wake, what running costs, and where a new thread starts. *)

From Stdlib Require Import Sorted.
From S2P Require Import Prelude Sched SchedLists SchedSpec SchedRun.

Module SchedProps.

Import Sched SchedLists SchedSpec SchedRun.

Section props.
Context (place : placement).
Local Abbreviation reachable := (SchedRun.reachable place).
Local Abbreviation exec := (SchedRun.exec place).
Local Abbreviation aexec := (SchedRun.aexec place).

(** C1: the scheduler implements its specification on lists.  Every state that
    the kernel reaches from start-up, by any sequence of creations, yields,
    blocks, sleeps, exits, wake-ups, timer ticks and policy changes, threads being
    created with the default size of stack or one of at least 51 bytes, represents
    an abstract state in which run queues and sleepers are lists; and every
    further operation takes it to a state that represents the result of the
    abstract operation.  In particular no operation follows a NULL pointer, a
    pointer outside the table or a cyclic list, and the queue flags and the ready
    bitmap always agree with the queues. *)
Theorem scheduler_refines s :
  reachable s →
  ∃ a, R s a ∧ inv a ∧
    ∀ o, op_ok s o → R (exec s o) (aexec a o) ∧ inv (aexec a o) ∧ fault (exec s o) = false.
Proof.
  intros (a & HR & Hinv)%reachable_inv. exists a. split; [done|]. split; [done|]. intros o Ho.
  destruct (exec_ok place s a o HR Hinv) as [HR' Hinv']; [by apply (op_ok_R s a o HR)|].
  split; [done|]. split; [done|]. destruct HR' as (Hs & _). apply Hs.
Qed.

(** C2: no process is lost.  In every state reached from start-up, threads being created with
    the default size of stack or one of at least 51 bytes, following the run queues
    and the sleep list, every ready process but the idle one is on exactly one
    run queue, and every process on a queue is ready; only the current process
    and the idle process can be running, and the current one is; sleepers wait,
    in the order of their deadlines; and no zombie is left behind. *)
Theorem no_process_lost s :
  reachable s →
  ∃ qs sl, shape s qs sl ∧
    (∀ i p, processes s !! i = Some p →
       (state p = PROC_READY → idle_process s ≠ Some i → i ∈ concat qs) ∧
       (i ∈ concat qs → state p = PROC_READY ∧ idle_process s ≠ Some i) ∧
       (state p = PROC_RUNNING → current_process s = Some i ∨ idle_process s = Some i) ∧
       (current_process s = Some i → state p = PROC_RUNNING) ∧
       (i ∈ sl → state p = PROC_WAITING) ∧ state p ≠ PROC_ZOMBIE) ∧
    StronglySorted (fun i j => wake_of s i ≤ wake_of s j) sl.
Proof.
  intros (a & HR & H & Hcur & _)%reachable_inv. exists (a_qs a), (a_sl a).
  destruct (HR) as (Hs & Hp & Hc & Hi & _). split; [done|]. split.
  - intros i p Hl. assert (Hpi : a_procs a !! i = Some (core p)) by (by rewrite Hp, core_lookup, Hl).
    rewrite <- Hc, <- Hi. fold (ready a). change (state p) with (state (core p)). split_and!.
    + intros Hst Hid. destruct (decide (a_cur a = Some i)) as [E|E].
      * destruct (Hcur i E) as (q & Hq & Hqs). rewrite Hpi in Hq. injection Hq as <-. congruence.
      * destruct (ai_ready _ _ H i _ Hpi Hst); [congruence|done..].
    + intros Hq. destruct (ai_queue _ _ H i Hq) as (q & Hq' & Hqs & ?). rewrite Hpi in Hq'. by injection Hq' as <-.
    + intros Hst. destruct (decide (a_cur a = Some i)) as [E|E]; [by left|right].
      eapply (ai_running _ _ H); [done..|congruence].
    + intros E. destruct (Hcur i E) as (q & Hq & Hqs). rewrite Hpi in Hq. by injection Hq as <-.
    + intros Hsl. destruct (ai_sleep _ _ H i Hsl) as (q & Hq & Hqs & _). rewrite Hpi in Hq. by injection Hq as <-.
    + intros Hz. pose proof (ai_zombie _ _ H i _ Hpi Hz) as E. destruct (Hcur i) as (q & Hq & Hqs); [done|].
      rewrite Hpi in Hq. injection Hq as <-. congruence.
  - eapply (StronglySorted_ext (fun i j => a_wake_of a i ≤ a_wake_of a j)); [|apply H].
    intros x y _ _. by rewrite !(R_wake_of s a _ HR).
Qed.

End props.

(** ** The choice *)

(** [i] has the least key among [l]. *)
Definition least (key : process → option Z) (a : asched) (l : list nat) (i : nat) : Prop :=
  ∃ k, a_key key a i = Some k ∧ ∀ j k', j ∈ l → a_key key a j = Some k' → k ≤ k'.

Lemma a_scan_least key a l :
  match a_scan key a l with
  | Some (i, _) => i ∈ l ∧ least key a l i
  | None => ∀ j, j ∈ l → a_key key a j = None
  end.
Proof.
  assert (Hgen : ∀ best, match foldl (fun b i => better b i (a_key key a i)) best l with
    | None => best = None ∧ ∀ i, i ∈ l → a_key key a i = None
    | Some (i, k) => (best = Some (i, k) ∨ (i ∈ l ∧ a_key key a i = Some k)) ∧
        (∀ j k', best = Some (j, k') → k ≤ k') ∧ (∀ j k', j ∈ l → a_key key a j = Some k' → k ≤ k') end).
  { set (s := {| processes := a_procs a; ready_queues := []; ready_bitmap := 0; current_process := None;
                 idle_process := None; sleep_list := None; next_pid := 0; scheduler_active := false;
                 scheduler_channel_id := 0; ipc_service := None; effects := []; fault := false |}).
    intros best. exact (scan_spec key s l best). }
  specialize (Hgen None). unfold a_scan. destruct (foldl _ None l) as [[i k]|]; [|naive_solver].
  destruct Hgen as ([?|[Hi Hk]] & _ & Hmin); [done|]. split; [done|]. exists k. auto.
Qed.

(** Which process runs next.  From any consistent state with nobody on the
    processor, after the sleepers whose time has come have been woken, the
    scheduler loop dispatches a process and marks it current: the idle process
    only if no process is ready; else a ready process, and among the ready
    processes that have a deadline the one whose deadline is earliest; if none
    has a deadline, among those of the fair policy the one that has the least
    virtual runtime. *)
Theorem schedule_next_policy s a now :
  R s a → ainv a None →
  let b := a_wake now a in
  ∃ c, current_process (schedule_next now s) = Some c ∧
    (ready b = [] → idle_process s = Some c) ∧
    (ready b ≠ [] → c ∈ ready b ∧
      ((∃ j, j ∈ ready b ∧ is_Some (a_key deadline_key b j)) → least deadline_key b (ready b) c) ∧
      ((∀ j, j ∈ ready b → a_key deadline_key b j = None) →
       (∃ j, j ∈ ready b ∧ is_Some (a_key fair_key b j)) → least fair_key b (ready b) c)).
Proof.
  intros HR H b. pose proof (R_next s a now HR H) as HR'. destruct (HR') as (_ & _ & Hc & _). rewrite <- Hc.
  unfold a_next. fold b. pose proof (ainv_wake a None now H) as Hb. fold b in Hb.
  destruct (ai_idle _ _ Hb) as (d & Hd & _).
  assert (Hid : a_idle b = idle_process s).
  { unfold b, a_wake. rewrite (proj1 (proj2 (a_wake_loop_same _ now a))). by destruct HR as (_ & _ & _ & <- & _). }
  pose proof (a_scan_least deadline_key b (ready b)) as Hdl. pose proof (a_scan_least fair_key b (ready b)) as Hfl.
  pose proof (a_choose_ready b) as Hch. unfold a_choose in *.
  destruct (a_scan deadline_key b (ready b)) as [[i k]|].
  { exists i. split; [done|]. destruct Hdl as [Hi Hl]. split; [intros E; rewrite E in Hi; by apply not_elem_of_nil in Hi|].
    intros _. split; [done|]. split; [done|]. intros Hnone. exfalso. destruct Hl as (k' & Hk & _).
    rewrite (Hnone i Hi) in Hk. done. }
  assert (Hnod : ¬ ∃ j, j ∈ ready b ∧ is_Some (a_key deadline_key b j)).
  { intros (j & Hj & k & Hk). rewrite (Hdl j Hj) in Hk. done. }
  destruct (a_scan fair_key b (ready b)) as [[i k]|].
  { exists i. split; [done|]. destruct Hfl as [Hi Hl]. split; [intros E; rewrite E in Hi; by apply not_elem_of_nil in Hi|].
    intros _. split; [done|]. split; [tauto|done]. }
  destruct (ready b) as [|i l] eqn:Er.
  - exists d. rewrite Hd. split; [done|]. split; [by rewrite <- Hid|done].
  - exists i. split; [done|]. split; [done|]. intros _. split; [set_solver|]. split; [tauto|].
    intros _ (j & Hj & k & Hk). rewrite (Hfl j Hj) in Hk. done.
Qed.

(** ** Waking *)

(** The sleepers at the front whose time has come, and the rest. *)
Lemma a_wake_loop_spec sl now a x :
  ainv a x → a_sl a = sl →
  ∃ w r, sl = w ++ r ∧ Forall (fun i => a_wake_of a i ≤ now) w ∧
    match r with [] => True | i :: _ => now < a_wake_of a i end ∧
    a_sl (a_wake_loop sl now a) = r ∧ ready (a_wake_loop sl now a) ≡ₚ w ++ ready a ∧
    (∀ i, i ∈ w → ∃ p, a_procs (a_wake_loop sl now a) !! i = Some p ∧ state p = PROC_READY) ∧
    (∀ i, (i ∉ w) → a_procs (a_wake_loop sl now a) !! i = a_procs a !! i).
Proof.
  revert a. induction sl as [|i l IH]; intros a H E; simpl.
  { exists [], []. split_and!; try done. set_solver. }
  destruct (a_wake_of a i <=? now) eqn:Ei; bool_prop.
  2:{ exists [], (i :: l). split_and!; try done. set_solver. }
  pose proof (ai_sl_nodup _ _ H) as Hnd. rewrite E in Hnd. apply NoDup_cons in Hnd as [Hil Hndl].
  destruct (ai_sleep _ _ H i) as (p & Hp & Hst & Hid); [rewrite E; set_solver|].
  assert (Hnr : i ∉ ready a) by (intros Hq; destruct (ai_queue _ _ H i Hq) as (q & ? & ? & _); congruence).
  set (b := a_enqueue i (a_upd i woken (a_put_sl l a))).
  assert (Hb : ainv b x).
  { destruct (ai_prio _ _ H i p Hp) as [Hbp _].
    apply (ainv_make_ready (a_put_sl l a) x i p); try done; [apply ainv_put_sl; [done|rewrite E; by constructor]|].
    apply (boost_range (set_wake_deadline 0 p) Hbp). }
  destruct (a_enqueue_same i (a_upd i woken (a_put_sl l a))) as (E1 & _ & _ & _ & E5 & _). fold b in E1, E5.
  assert (Hpi : a_procs b !! i = Some (woken p)) by (rewrite E1, lookup_a_upd, decide_True by done; simpl; by rewrite Hp).
  assert (Hne : ∀ j, j ≠ i → a_procs b !! j = a_procs a !! j) by (intros j Hj; by rewrite E1, lookup_a_upd, decide_False).
  assert (Hrd : ready b ≡ₚ i :: ready a).
  { unfold b, a_enqueue. rewrite lookup_a_upd, decide_True by done. simpl. rewrite Hp. simpl.
    rewrite decide_False by tauto. apply ready_enqueued. rewrite (ai_levels _ _ H). apply level_lt. }
  destruct (IH b Hb E5) as (w & r & -> & Hw & Hr & Hsl & Hready & Hwok & Hother).
  assert (Hwake : ∀ j, j ∈ w ++ r → a_wake_of b j = a_wake_of a j).
  { intros j Hj. unfold a_wake_of. rewrite Hne; [done|]. intros ->. done. }
  exists (i :: w), r. split; [done|]. split_and!.
  - constructor; [done|]. rewrite Forall_forall in Hw |- *. intros j Hj. rewrite <- Hwake by set_solver. auto.
  - destruct r as [|j r]; [done|]. rewrite <- Hwake by set_solver. done.
  - done.
  - rewrite Hready, Hrd. solve_Permutation.
  - intros j [->|Hj]%elem_of_cons; [|auto]. exists (woken p). split; [|done]. rewrite Hother by set_solver. done.
  - intros j Hj. rewrite Hother, Hne by set_solver. done.
Qed.

(** Sleepers wake when their time has come, and not before.  From any
    consistent state, [wake_sleepers] takes exactly the sleepers whose deadline is
    at most [now] off the sleep list, in whatever order they went to sleep, makes
    each of them ready and puts it on a run queue; every other sleeper stays
    asleep in the same order, and no other process changes. *)
Theorem wake_sleepers_exact s a x now :
  R s a → ainv a x →
  let due := filter (fun i => a_wake_of a i ≤ now) (a_sl a) in
  ∃ a', R (wake_sleepers now s) a' ∧ ainv a' x ∧
    a_sl a' = filter (fun i => ¬ a_wake_of a i ≤ now) (a_sl a) ∧
    ready a' ≡ₚ due ++ ready a ∧
    (∀ i, i ∈ due → ∃ p, a_procs a' !! i = Some p ∧ state p = PROC_READY) ∧
    (∀ i, (i ∉ due) → a_procs a' !! i = a_procs a !! i).
Proof.
  intros HR H due. exists (a_wake now a). split; [by apply R_wake|]. split; [by apply ainv_wake|].
  destruct (a_wake_loop_spec (a_sl a) now a x H eq_refl) as (w & r & Hsl & Hw & Hr & H1 & H2 & H3 & H4).
  assert (Hrest : Forall (fun i => ¬ a_wake_of a i ≤ now) r).
  { pose proof (ai_sorted _ _ H) as Hs. rewrite Hsl in Hs. clear -Hr Hs. induction w as [|j w IH]; simpl in Hs.
    - destruct r as [|i r]; [constructor|]. apply StronglySorted_inv in Hs as [_ Hf]. constructor; [lia|].
      eapply Forall_impl; [exact Hf|]. simpl. lia.
    - apply StronglySorted_inv in Hs as [Hs _]. auto. }
  assert (Hdue : due = w).
  { unfold due. rewrite Hsl, filter_app, (filter_all _ w) by done.
    rewrite (filter_none _ r Hrest), app_nil_r. done. }
  rewrite Hdue. split; [|done]. unfold a_wake. rewrite H1, Hsl, filter_app, (filter_all _ r) by done.
  assert (E : filter (fun i => ¬ a_wake_of a i ≤ now) w = []); [|by rewrite E].
  apply filter_none. eapply Forall_impl; [exact Hw|]. simpl. lia.
Qed.

(** ** Accounting *)

(** The charge for running: used ticks in proportion to the inverse of the
    weight, and at least one. *)
Definition charge (used weight : Z) : Z := Z.max 1 (used * CONFIG_SCHED_BASE_WEIGHT / weight).

(** Running is paid for in proportion.  When a process of the fair policy
    leaves the processor having used part of its time slice, its virtual runtime
    grows by 1024 times the ticks used divided by its weight, and by at least one
    tick, so that a process that ran always falls behind itself; a process that
    used no tick or has a deadline pays nothing; and nothing else about it
    changes. *)
Theorem account_runtime_charges p :
  0 ≤ time_slice_remaining p ≤ time_slice_ticks p → time_slice_ticks p < 4194304 →
  0 < sched_weight p → 0 ≤ vruntime p < 9223372036854775808 →
  let used := time_slice_ticks p - time_slice_remaining p in
  account_runtime p =
  if bool_decide (sched_policy p = SCHED_POLICY_FAIR) && (0 <? used)
  then set_vruntime (vruntime p + charge used (sched_weight p)) p else p.
Proof.
  intros Hr Ht Hw Hv used. unfold account_runtime. destruct (sched_policy p).
  2:{ by rewrite bool_decide_eq_false_2. }
  rewrite bool_decide_eq_true_2, (proj2 (Z.leb_le _ _)) by (done || lia). simpl andb.
  rewrite u32_small by (fold used; lia). fold used.
  destruct (used =? 0) eqn:E; bool_prop; [by rewrite (proj2 (Z.ltb_ge 0 used)) by lia|].
  rewrite (proj2 (Z.ltb_lt 0 used)) by lia. rewrite (proj2 (Z.eqb_neq (sched_weight p) 0)) by lia.
  assert (Hu : 0 < used < 4194304) by (unfold used in *; lia). clearbody used.
  unfold CONFIG_SCHED_BASE_WEIGHT. rewrite (u64_small (used * 1024)) by lia.
  assert (Hc : (if used * 1024 / sched_weight p =? 0 then 1 else used * 1024 / sched_weight p) = charge used (sched_weight p)).
  { unfold charge, CONFIG_SCHED_BASE_WEIGHT. pose proof (Z.div_pos (used * 1024) (sched_weight p)).
    destruct (_ =? 0) eqn:Ez; bool_prop; lia. }
  rewrite Hc, u64_small; [done|]. unfold charge, CONFIG_SCHED_BASE_WEIGHT.
  assert (used * 1024 / sched_weight p ≤ used * 1024) by (apply Z.div_le_upper_bound; nia). lia.
Qed.

(** ** Starting a thread *)

Section thread_frames.
Context (place : placement).

Lemma fill_words_old sp ws m a : sp < 4294967296 → 4 * Z.of_nat (length ws) ≤ sp → sp ≤ a → fill_words sp ws m !! a = m !! a.
Proof.
  revert sp m. induction ws as [|w ws IH]; intros sp m H1 H2 Ha; [done|]. cbn [fill_words length] in *.
  assert (E : sp -32 4 = sp - 4) by (apply u32_small; lia). rewrite E, IH by lia. apply lookup_insert_ne. lia.
Qed.

Lemma fill_words_at sp ws m k w :
  sp < 4294967296 → 4 * Z.of_nat (length ws) ≤ sp → ws !! k = Some w → fill_words sp ws m !! (sp - 4 * Z.of_nat (S k)) = Some w.
Proof.
  revert sp m k. induction ws as [|w0 ws IH]; intros sp m k H1 H2 Hk; [done|]. cbn [fill_words length] in *.
  assert (E : sp -32 4 = sp - 4) by (apply u32_small; lia). rewrite E. destruct k as [|k].
  - injection Hk as ->. rewrite fill_words_old by lia. by rewrite lookup_insert_eq.
  - replace (sp - 4 * Z.of_nat (S (S k))) with (sp - 4 - 4 * Z.of_nat (S k)) by lia. apply IH; [lia..|done].
Qed.

(** The first frame of a new thread.  With room for it, the nine words lie inside the
    stack of the thread, word aligned, from the stack pointer up: six registers, a zero,
    the flags 0x202, a zero and the address at which the thread starts. *)
Theorem new_thread_frame i e size kind' priority n p :
  (i < MAX_PROCS)%nat → FRAME_ROOM ≤ size ≤ PROC_STACK_SIZE →
  let q := new_thread place i e size kind' priority n p in
  stack_addr place i ≤ esp q ∧ esp q + 36 ≤ stack_addr place i + size ∧ esp q mod 4 = 0 ∧
  ∀ k w, reverse (initial_frame (thread_bootstrap place)) !! k = Some w → stack_words q !! (esp q + 4 * Z.of_nat k) = Some w.
Proof.
  intros Hi Hs q. destruct (initial_esp_bounds place i size Hi Hs) as (E & H1 & H2 & H3). destruct (stacks_inside place i Hi) as [H0 H4].
  cbn zeta in *. set (top := stack_align _) in *. assert (Eq : esp q = top - 36) by exact E. rewrite Eq.
  split; [done|]. split; [lia|]. split.
  - pose proof (Z.div_mod top 16). replace (top - 36) with ((4 * (top / 16) - 9) * 4) by lia. apply Z.mod_mul. lia.
  - intros k w Hk. pose proof (lookup_lt_Some _ _ _ Hk) as Hlt. rewrite length_reverse in Hlt. rewrite reverse_lookup in Hk by done.
    cbn [initial_frame length] in Hlt, Hk. replace (top - 36 + 4 * Z.of_nat k) with (top - 4 * Z.of_nat (S (9 - S k))) by lia.
    change (stack_words q) with (fill_words top (initial_frame (thread_bootstrap place)) (stack_words p)).
    apply fill_words_at; [unfold PROC_STACK_SIZE in *; lia|cbn; lia|exact Hk].
Qed.

Lemma upd_fault i f s : fault s = true → fault (upd i f s) = true.
Proof. unfold upd. by destruct (processes s !! i). Qed.

Lemma store_word_fault i a w s : fault s = true → fault (store_word place i a w s) = true.
Proof. intros H. unfold store_word. case_match; [by apply upd_fault|done]. Qed.

Lemma push_words_fault i sp ws s : fault s = true → fault (push_words place i sp ws s).2 = true.
Proof. revert sp s. induction ws as [|w ws IH]; intros sp s H; [done|]. cbn [push_words]. by apply IH, store_word_fault. Qed.

Lemma push_words_below i sp ws s :
  sp < 4294967296 → 4 * Z.of_nat (length ws) ≤ sp → ws ≠ [] → sp - 4 * Z.of_nat (length ws) < stack_addr place i →
  fault (push_words place i sp ws s).2 = true.
Proof.
  revert sp s. induction ws as [|w ws IH]; intros sp s H1 H2 Hn H3; [done|]. cbn [push_words length] in *.
  assert (E : sp -32 4 = sp - 4) by (apply u32_small; lia). rewrite E. destruct ws as [|w' ws]; [|apply IH; [lia..|done|cbn [length] in *; lia]].
  cbn. unfold store_word, in_stack. rewrite (proj2 (Z.leb_gt _ _)) by (cbn in *; lia). done.
Qed.

(** A stack that is too small for the frame.  [process_create] accepts any size, and below
    36 bytes the stores leave the array: they go over the pid, the state and the saved
    stack pointer that precede it in the table. *)
Theorem small_stack_overruns i size s :
  (i < MAX_PROCS)%nat → 64 ≤ stack_addr place i → 0 ≤ size < 36 → fault (push_frame place i size s) = true.
Proof.
  intros Hi H64 Hs. destruct (stacks_inside place i Hi) as [H0 H1]. unfold PROC_STACK_SIZE in *. unfold push_frame, stack_align.
  rewrite (u32_small (stack_addr place i + size)) by lia. change 15 with (2 ^ 4 - 1). rewrite land_not32_mask by lia. change (2 ^ 4) with 16.
  set (t := stack_addr place i + size) in *. pose proof (Z.mod_pos_bound t 16).
  destruct (push_words _ _ _ _ _) as [sp s'] eqn:E. apply upd_fault. change s' with (sp, s').2. rewrite <- E.
  apply push_words_below; cbn; [lia|lia|done|lia].
Qed.

End thread_frames.

(** An absolute deadline that has passed becomes a future one.  The header
    documents the deadline of [process_set_scheduler] as an absolute tick count;
    for a deadline in the past the code adds the present to it, so the process
    gets a deadline [now] ticks later than the one asked for. *)
Theorem set_scheduler_past_deadline s pid' i p weight deadline now :
  process_lookup pid' s = Some i → 0 < pid' → processes s !! i = Some p →
  0 < deadline < now → now + deadline < 18446744073709551616 →
  ∃ q, process_set_scheduler pid' 1 weight deadline now s = (0, upd i (fun _ => q) s) ∧
    sched_policy q = SCHED_POLICY_DEADLINE ∧ sched_deadline q = now + deadline.
Proof.
  intros Hl Hpid Hp Hd Hn. unfold process_set_scheduler. rewrite (proj2 (Z.leb_gt pid' 0)), Hl by lia.
  change (1 =? 0) with false. change (1 =? 1) with true. cbv iota.
  rewrite (proj2 (Z.eqb_neq deadline 0)), (proj2 (Z.ltb_lt deadline now)), u64_small by lia. simpl andb. cbv iota.
  exists (set_sched_deadline (now + deadline)
    (set_sched_weight (if weight =? 0 then CONFIG_SCHED_DEFAULT_WEIGHT else weight)
       (set_sched_policy SCHED_POLICY_DEADLINE p))).
  split; [|split; reflexivity].
  f_equal. unfold upd. rewrite Hp. f_equal. by rewrite !(alter_insert _ _ _ p).
Qed.

(** ** Witnesses *)

(** The kernel after start-up with two user threads created, and with the first of
    them on the processor. *)
Definition started : sched :=
  exec stacks (exec stacks (process_system_init stacks 4096 bss) (OCreate false (Some 8192) 4096))
    (OCreate false (Some 12288) 4096).
Definition dispatched : sched := exec stacks started (OSchedule 5).

Lemma started_reachable : reachable stacks started.
Proof. apply reach_exec; [apply reach_exec; [apply reach_boot, bss_tables|by right]|by right]. Qed.

Lemma dispatched_reachable : reachable stacks dispatched.
Proof. apply reach_exec; [apply started_reachable|exact I]. Qed.

(** A state with a sleeper: the first thread sleeps for ten ticks. *)
Definition asleep : sched := exec stacks dispatched (OSleep 10 6 6).

Lemma asleep_reachable : reachable stacks asleep.
Proof. apply reach_exec; [apply dispatched_reachable|exact I]. Qed.

Lemma scheduler_refines_witness :
  reachable stacks asleep ∧
  ∃ a, R asleep a ∧ inv a ∧
    ∀ o, op_ok asleep o → R (exec stacks asleep o) (aexec stacks a o) ∧ inv (aexec stacks a o) ∧
      fault (exec stacks asleep o) = false.
Proof. split; [exact asleep_reachable|]. exact (scheduler_refines stacks asleep asleep_reachable). Defined.

Lemma no_process_lost_witness :
  reachable stacks asleep ∧ sleep_list asleep = Some 1%nat ∧ current_process asleep = Some 2%nat ∧
  ∃ qs sl, shape asleep qs sl ∧
    (∀ i p, processes asleep !! i = Some p →
       (state p = PROC_READY → idle_process asleep ≠ Some i → i ∈ concat qs) ∧
       (i ∈ concat qs → state p = PROC_READY ∧ idle_process asleep ≠ Some i) ∧
       (state p = PROC_RUNNING → current_process asleep = Some i ∨ idle_process asleep = Some i) ∧
       (current_process asleep = Some i → state p = PROC_RUNNING) ∧
       (i ∈ sl → state p = PROC_WAITING) ∧ state p ≠ PROC_ZOMBIE) ∧
    StronglySorted (fun i j => wake_of asleep i ≤ wake_of asleep j) sl.
Proof.
  split; [exact asleep_reachable|]. split; [vm_compute; reflexivity|]. split; [vm_compute; reflexivity|].
  exact (no_process_lost stacks asleep asleep_reachable).
Defined.

(** The abstract states that [started] and [asleep] represent. *)
Definition started_a : asched :=
  aexec stacks (aexec stacks (a_boot stacks bss 4096) (OCreate false (Some 8192) 4096)) (OCreate false (Some 12288) 4096).
Definition asleep_a : asched := aexec stacks (aexec stacks started_a (OSchedule 5)) (OSleep 10 6 6).

Lemma started_ok : R started started_a ∧ inv started_a.
Proof.
  unfold started, started_a. set (s0 := process_system_init stacks 4096 bss). set (a0 := a_boot stacks bss 4096).
  destruct (exec_ok stacks s0 a0 (OCreate false (Some 8192) 4096)) as [H1 H2];
    [apply boot_R, bss_tables|apply boot_inv, bss_tables|by right|].
  apply (exec_ok stacks _ _ (OCreate false (Some 12288) 4096) H1 H2). by right.
Qed.

Lemma asleep_ok : R asleep asleep_a ∧ inv asleep_a.
Proof.
  destruct started_ok as [H1 H2]. destruct (exec_ok stacks _ _ (OSchedule 5) H1 H2 I) as [H3 H4].
  exact (exec_ok stacks _ _ (OSleep 10 6 6) H3 H4 I).
Qed.

Lemma schedule_next_policy_witness :
  ready (a_wake 5 started_a) = [1; 2]%nat ∧
  ∃ c, current_process (schedule_next 5 started) = Some c ∧ c ∈ ready (a_wake 5 started_a) ∧
    least fair_key (a_wake 5 started_a) (ready (a_wake 5 started_a)) c.
Proof.
  assert (Hr : ready (a_wake 5 started_a) = [1; 2]%nat) by (vm_compute; reflexivity).
  split; [exact Hr|]. destruct started_ok as [H1 (H2 & _)].
  destruct (schedule_next_policy started started_a 5 H1 H2) as (c & Hc & _ & Hp).
  destruct Hp as (Hin & _ & Hf); [rewrite Hr; discriminate|].
  exists c. split; [exact Hc|]. split; [exact Hin|]. apply Hf.
  - rewrite Hr. intros j Hj. apply elem_of_cons in Hj as [->|Hj]; [vm_compute; reflexivity|].
    apply list_elem_of_singleton in Hj as ->. vm_compute. reflexivity.
  - rewrite Hr. exists 1%nat. split; [by_eval|]. vm_compute. eauto.
Defined.

Lemma wake_sleepers_exact_witness :
  a_sl asleep_a = [1]%nat ∧ a_wake_of asleep_a 1 = 16 ∧
  ∃ a', R (wake_sleepers 16 asleep) a' ∧ a_sl a' = [] ∧ ready a' ≡ₚ [1]%nat.
Proof.
  split; [vm_compute; reflexivity|]. split; [vm_compute; reflexivity|].
  destruct asleep_ok as [H1 (H2 & _)].
  destruct (wake_sleepers_exact asleep asleep_a _ 16 H1 H2) as (a' & Ha & _ & Hs & Hr & _).
  exists a'. split; [exact Ha|]. split; [rewrite Hs; vm_compute; reflexivity|].
  rewrite Hr. vm_compute. reflexivity.
Defined.

Lemma account_runtime_charges_witness :
  let p := set_time_slice_remaining 1 (set_time_slice_ticks 4 blank_process) in
  account_runtime p = set_vruntime 3 p.
Proof.
  intros p. refine (account_runtime_charges p _ _ _ _); by_eval.
Defined.

Lemma new_thread_frame_witness :
  let q := new_thread stacks 1 4096 4096 THREAD_KIND_USER 1 1 blank_process in
  stack_words q !! (esp q + 32) = Some 1052672 ∧ stack_words q !! (esp q + 24) = Some 514.
Proof.
  cbn zeta. destruct (new_thread_frame stacks 1 4096 4096 THREAD_KIND_USER 1 1 blank_process) as (_ & _ & _ & H).
  - unfold MAX_PROCS. lia.
  - unfold FRAME_ROOM, PROC_STACK_SIZE. lia.
  - split; [exact (H 8%nat _ eq_refl)|exact (H 6%nat _ eq_refl)].
Defined.

Lemma small_stack_overruns_witness : fault (push_frame stacks 1 16 bss) = true.
Proof. apply small_stack_overruns; [unfold MAX_PROCS; lia|vm_compute; discriminate|lia]. Defined.

Lemma set_scheduler_past_deadline_witness :
  ∃ q, process_set_scheduler 2 1 0 50 100 started = (0, upd 2 (fun _ => q) started) ∧
    sched_policy q = SCHED_POLICY_DEADLINE ∧ sched_deadline q = 150.
Proof.
  refine (set_scheduler_past_deadline started 2 2 _ 0 50 100 _ _ _ _ _);
    [vm_compute; reflexivity|reflexivity|vm_compute; reflexivity|lia|lia].
Defined.
End SchedProps.
