(* ===== verification/Arrays.v ===== *)
(** Arrays that hold a sequence in their first cells, with a count beside them:
    the mailboxes, waiter lists, subscriber lists and channel lists of the kernel.
    The loops that search them and close the gap of a removed cell, and what they
    do to the sequence; ring buffers; and tables of named entries (module [Tables]). *)

From S2P Require Import Prelude.

Module Arrays.

(** ** Loops on counted arrays *)

(** The cells [0 .. count - 1] a loop reads; none when they leave the array. *)
Definition cells {A} (arr : list A) (count : nat) : option (list A) :=
  if decide (count ≤ length arr)%nat then Some (take count arr) else None.

(** [n] rounds of [arr[j - 1] = arr[j]], from [j] up. *)
Fixpoint shift_left {A} (n j : nat) (arr : list A) : option (list A) :=
  match n with
  | O => Some arr
  | S n' => x ← arr !! j; arr' ← buf_store arr (j - 1) x; shift_left n' (S j) arr'
  end.

(** Close the gap at [m] of the first [count] cells and put [blank] in the last of them. *)
Definition arr_remove {A} (blank : A) (m count : nat) (arr : list A) : option (list A) :=
  arr' ← shift_left (count - S m) (S m) arr; buf_store arr' (count - 1) blank.

(** The sequence without the cell [m]. *)
Fixpoint remove_at {A} (m : nat) (l : list A) : list A :=
  match l, m with
  | [], _ => []
  | _ :: l', O => l'
  | x :: l', S m' => x :: remove_at m' l'
  end.

Section lemmas.
Context {A : Type}.
Implicit Types (l arr : list A) (x blank : A).

Lemma cells_ok arr count : (count ≤ length arr)%nat → cells arr count = Some (take count arr).
Proof. intros. unfold cells. by rewrite decide_True. Qed.

Lemma remove_at_take_drop m l : (m < length l)%nat → remove_at m l = take m l ++ drop (S m) l.
Proof.
  revert m. induction l as [|x l IH]; intros m H; simpl in *; [lia|].
  destruct m; simpl; [by rewrite drop_0|]. by rewrite IH by lia.
Qed.

Lemma remove_at_length m l : (m < length l)%nat → length (remove_at m l) = (length l - 1)%nat.
Proof. intros. rewrite remove_at_take_drop, length_app, length_take, length_drop by done. lia. Qed.

Lemma remove_at_app m l k : (m < length l)%nat → remove_at m (l ++ k) = remove_at m l ++ k.
Proof. revert m. induction l as [|x l IH]; intros [|m] H; simpl in *; try lia; [done|]. by rewrite IH by lia. Qed.

Lemma shift_left_ok n j arr :
  (1 ≤ j)%nat → (j + n ≤ length arr)%nat →
  shift_left n j arr = Some (take (j - 1) arr ++ take n (drop j arr) ++ drop (j - 1 + n) arr).
Proof.
  revert j arr. induction n as [|n IH]; intros j arr Hj H; simpl.
  { rewrite Nat.add_0_r, take_drop. done. }
  destruct (lookup_lt_is_Some_2 arr j) as [x Hx]; [lia|]. rewrite Hx. simpl.
  rewrite buf_store_ok by lia. simpl. rewrite IH by (try rewrite length_insert; lia). f_equal.
  replace (S j - 1)%nat with (S (j - 1)) by lia.
  erewrite take_S_r by (apply list_lookup_insert_eq; lia).
  rewrite take_insert_ge, !drop_insert_lt by lia. rewrite (drop_S arr x j Hx). cbn [take app].
  rewrite <- app_assoc. cbn [app]. by replace (S (j - 1) + n)%nat with (j - 1 + S n)%nat by lia.
Qed.

(** Removing the cell [m] removes it from the sequence, keeps the order of the
    rest and stays inside the array. *)
Lemma arr_remove_ok blank m count arr :
  (m < count)%nat → (count ≤ length arr)%nat →
  ∃ arr', arr_remove blank m count arr = Some arr' ∧ length arr' = length arr ∧
    take (count - 1) arr' = remove_at m (take count arr) ∧ drop count arr' = drop count arr.
Proof.
  intros Hm Hc. unfold arr_remove. rewrite shift_left_ok by lia. cbn [mbind option_bind].
  set (mid := take (S m - 1) arr ++ take (count - S m) (drop (S m) arr)).
  assert (Hmid : mid = remove_at m (take count arr)).
  { unfold mid. rewrite remove_at_take_drop by (rewrite length_take; lia).
    rewrite take_take, Nat.min_l by lia. replace (S m - 1)%nat with m by lia. f_equal.
    rewrite <- skipn_firstn_comm. done. }
  rewrite app_assoc. fold mid. replace (S m - 1 + (count - S m))%nat with (count - 1)%nat by lia.
  assert (Hlen : length mid = (count - 1)%nat).
  { rewrite Hmid, remove_at_length; rewrite ?length_take; lia. }
  assert (Hall : length (mid ++ drop (count - 1) arr) = length arr) by (rewrite length_app, length_drop, Hlen; lia).
  rewrite buf_store_ok by (rewrite Hall; lia). eexists. split; [done|].
  rewrite length_insert. split; [done|].
  rewrite take_insert_ge, drop_insert_lt by lia. split.
  - rewrite <- Hmid, <- Hlen. apply take_app_length.
  - rewrite drop_app_ge by lia. rewrite drop_drop. f_equal. lia.
Qed.

(** Storing at [count] appends to the sequence. *)
Lemma push_ok x count arr :
  (count < length arr)%nat →
  buf_store arr count x = Some (<[count := x]> arr) ∧ length (<[count := x]> arr) = length arr ∧
  take (S count) (<[count := x]> arr) = take count arr ++ [x].
Proof.
  intros H. rewrite buf_store_ok, length_insert by done. split; [done|]. split; [done|].
  erewrite take_S_r by (by apply list_lookup_insert_eq). by rewrite take_insert_ge.
Qed.

End lemmas.

(** ** Ring buffers *)

(** The [count] cells of a ring from [head] on. *)
Definition ring {A} (q : list A) (head count : nat) : list A := take count (drop head q ++ take head q).

Section ring.
Context {A : Type}.
Implicit Types q : list A.

Lemma ring_index n head j :
  (head < n)%nat → (j < n)%nat → ((head + j) mod n = if decide (head + j < n) then head + j else head + j - n)%nat.
Proof.
  intros Hh Hj. case_decide; [by apply Nat.mod_small|].
  replace (head + j)%nat with ((head + j - n) + 1 * n)%nat at 1 by lia. rewrite Nat.Div0.mod_add. apply Nat.mod_small. lia.
Qed.

Lemma ring_lookup q head count j :
  (head < length q)%nat → (count ≤ length q)%nat → (j < count)%nat →
  ring q head count !! j = q !! ((head + j) mod length q)%nat.
Proof.
  intros Hh Hc Hj. unfold ring. rewrite lookup_take_lt, ring_index by lia. case_decide.
  - rewrite lookup_app_l by (rewrite length_drop; lia). by rewrite lookup_drop.
  - rewrite lookup_app_r by (rewrite length_drop; lia). rewrite length_drop, lookup_take_lt by lia. f_equal. lia.
Qed.

Lemma ring_length q head count :
  (head < length q)%nat → (count ≤ length q)%nat → length (ring q head count) = count.
Proof. intros. unfold ring. rewrite length_take, length_app, length_drop, length_take. lia. Qed.

(** Storing behind the last cell appends; advancing the head takes the first. *)
Lemma ring_push q head count x :
  (head < length q)%nat → (count < length q)%nat →
  ring (<[((head + count) mod length q)%nat := x]> q) head (S count) = ring q head count ++ [x].
Proof.
  intros Hh Hc. assert (Hlt : ((head + count) mod length q < length q)%nat) by (apply Nat.mod_upper_bound; lia).
  apply list_eq_same_length with (n := S count); [|rewrite ring_length; rewrite ?length_insert; lia|].
  { rewrite length_app, ring_length by lia. simpl. lia. }
  intros j y z Hj Hy Hz. rewrite ring_lookup in Hy by (rewrite ?length_insert; lia). rewrite length_insert in Hy.
  destruct (decide (j = count)) as [->|Hne].
  - rewrite list_lookup_insert_eq in Hy by done. rewrite lookup_app_r in Hz by (rewrite ring_length; lia).
    rewrite ring_length, Nat.sub_diag in Hz by lia. simpl in Hz. congruence.
  - rewrite list_lookup_insert_ne in Hy.
    2:{ rewrite !ring_index by lia. repeat case_decide; lia. }
    rewrite lookup_app_l, ring_lookup in Hz by (rewrite ?ring_length; lia). congruence.
Qed.

Lemma ring_pop q head count :
  (head < length q)%nat → (0 < count ≤ length q)%nat →
  ∃ x, q !! head = Some x ∧ ring q head count = x :: ring q ((head + 1) mod length q)%nat (count - 1).
Proof.
  intros Hh Hc. destruct (lookup_lt_is_Some_2 q head Hh) as [x Hx]. exists x. split; [done|].
  assert (Hlt : ((head + 1) mod length q < length q)%nat) by (apply Nat.mod_upper_bound; lia).
  apply list_eq_same_length with (n := count); [|by rewrite ring_length by lia|].
  { simpl. rewrite ring_length; lia. }
  intros j y z Hj Hy Hz. rewrite ring_lookup in Hy by lia. destruct j as [|j]; simpl in Hz.
  - rewrite Nat.add_0_r, Nat.mod_small in Hy by lia. congruence.
  - rewrite ring_lookup in Hz by lia. rewrite Nat.Div0.add_mod_idemp_l in Hz.
    replace (head + 1 + j)%nat with (head + S j)%nat in Hz by lia. congruence.
Qed.

(** Storing over the oldest cell of a full ring. *)
Lemma ring_overwrite q head x :
  (head < length q)%nat →
  ring (<[head := x]> q) ((head + 1) mod length q)%nat (length q) = tail (ring q head (length q)) ++ [x].
Proof.
  intros Hh. destruct (ring_pop q head (length q)) as (y & _ & ->); [lia..|]. simpl.
  rewrite <- ring_push by (try apply Nat.mod_upper_bound; lia). rewrite Nat.sub_1_r, Nat.succ_pred by lia.
  do 2 f_equal. rewrite Nat.Div0.add_mod_idemp_l. replace (head + 1 + pred (length q))%nat with (head + 1 * length q)%nat by lia.
  rewrite Nat.Div0.mod_add, Nat.mod_small by lia. done.
Qed.

End ring.
End Arrays.

(** Tables whose entries are free or hold something with a name, as the device manager
    and the device file system have them: the map from names that such a table stands
    for. *)
Module Tables.

Section tables.
Context {E V : Type} (used : E → bool) (label : E → cstring) (val : E → V).
Implicit Types (l : list E) (n : cstring).

Definition entries l : list E := filter (fun e => used e = true) l.

Definition table_map l : gmap cstring V := list_to_map ((fun e => (label e, val e)) <$> entries l).

(** No two entries have the same name. *)
Definition unique l : Prop :=
  ∀ i j e e', l !! i = Some e → l !! j = Some e' → used e = true → used e' = true → label e = label e' → i = j.

Lemma unique_NoDup l : unique l → NoDup (label <$> entries l).
Proof.
  unfold entries. induction l as [|e l IH]; intros H; [constructor|].
  assert (IHl : NoDup (label <$> filter (fun e => used e = true) l)).
  { apply IH. intros i j e1 e2 H1 H2 U1 U2 Hn. by specialize (H (S i) (S j) e1 e2 H1 H2 U1 U2 Hn) as [= ->]. }
  rewrite filter_cons. destruct (decide (used e = true)) as [Hu|]; [|done]. constructor; [|done].
  intros (e' & Hn & [Hu' He']%list_elem_of_filter)%list_elem_of_fmap. apply list_elem_of_lookup in He' as [j Hj].
  by specialize (H 0%nat (S j) e e' eq_refl Hj Hu Hu' Hn).
Qed.

Lemma table_keys l : ((fun e => (label e, val e)) <$> entries l).*1 = label <$> entries l.
Proof. rewrite <- list_fmap_compose. by apply list_fmap_ext. Qed.

Lemma elem_entries l e : e ∈ entries l ↔ used e = true ∧ ∃ i, l !! i = Some e.
Proof. unfold entries. by rewrite list_elem_of_filter, list_elem_of_lookup. Qed.

Lemma table_lookup l n x : unique l → table_map l !! n = Some x ↔ ∃ i e, l !! i = Some e ∧ used e = true ∧ label e = n ∧ val e = x.
Proof.
  intros Hl. unfold table_map. rewrite <- elem_of_list_to_map by (rewrite table_keys; by apply unique_NoDup). rewrite list_elem_of_fmap. split.
  - intros (e & [= -> ->] & [Hu [i Hi]]%elem_entries). by exists i, e.
  - intros (i & e & Hi & Hu & <- & <-). exists e. split; [done|]. apply elem_entries. eauto.
Qed.

Lemma table_lookup_None l n : unique l → table_map l !! n = None ↔ ∀ i e, l !! i = Some e → used e = true → label e ≠ n.
Proof.
  intros Hl. rewrite eq_None_not_Some. split.
  - intros H i e Hi Hu Hn. apply H. exists (val e). apply table_lookup; [done|]. by exists i, e.
  - intros H (x & (i & e & Hi & Hu & Hn & _)%table_lookup); [|done]. by destruct (H i e).
Qed.

Lemma table_size l : unique l → size (table_map l) = length (entries l).
Proof. intros Hl. unfold table_map. rewrite map_size_list_to_map by (rewrite table_keys; by apply unique_NoDup). apply length_fmap. Qed.

(** The search for a name, and for a free entry. *)
Lemma table_find l n : unique l →
  table_map l !! n = (i ← first_index (fun e => used e && bool_decide (label e = n)) l; val <$> l !! i).
Proof.
  intros Hl. destruct (first_index _ l) as [i|] eqn:E0; cbn [mbind option_bind].
  - apply first_index_Some in E0 as (e & He & Hp & _). apply andb_true_iff in Hp as [Hu Hn%bool_decide_eq_true]. rewrite He.
    apply table_lookup; [done|]. by exists i, e.
  - apply table_lookup_None; [done|]. rewrite first_index_None in E0. intros i e He Hu Hn. specialize (E0 i e He). by rewrite Hu, bool_decide_true in E0.
Qed.

Lemma table_free l : unique l →
  match first_index (fun e => negb (used e)) l with
  | None => size (table_map l) = length l
  | Some i => (size (table_map l) < length l)%nat ∧ ∃ e, l !! i = Some e ∧ used e = false
  end.
Proof.
  intros Hl. rewrite table_size by done. unfold entries. destruct (first_index _ l) as [i|] eqn:E0.
  - apply first_index_Some in E0 as (e & He & Hu%negb_true_iff & _). split; [|by exists e].
    rewrite <- (take_drop_middle _ _ _ He), filter_app, filter_cons_False, !length_app by (by rewrite Hu). cbn [length].
    pose proof (length_filter (fun e => used e = true) (take i l)). pose proof (length_filter (fun e => used e = true) (drop (S i) l)). lia.
  - rewrite first_index_None in E0. clear Hl. induction l as [|e l IH]; [done|].
    rewrite filter_cons_True by (apply negb_false_iff, (E0 0%nat); done). cbn [length]. f_equal. apply IH. intros j x Hx. by apply (E0 (S j)).
Qed.

(** ** Updates *)

(** An entry that takes a free place under a new name, or changes under its name. *)
Definition takes l (i : nat) (e e' : E) : Prop :=
  l !! i = Some e ∧ used e' = true ∧ (used e = true ∧ label e = label e' ∨ used e = false ∧ table_map l !! label e' = None).

Lemma takes_other l i e e' j x : unique l → takes l i e e' → l !! j = Some x → j ≠ i → used x = true → label x ≠ label e'.
Proof.
  intros Hl (Hi & Hu' & [[Hu Hn]|[Hu Hn]]) Hj Hne Hux Hx.
  - apply Hne, (Hl j i x e); congruence.
  - rewrite table_lookup_None in Hn by done. by destruct (Hn j x).
Qed.

Lemma takes_unique l i e e' : unique l → takes l i e e' → unique (<[i := e']> l).
Proof.
  intros Hl Ht j k x y Hj Hk Hx Hy Hn. apply list_lookup_insert_Some in Hj as [(<- & <- & _)|[Hne Hj]];
    apply list_lookup_insert_Some in Hk as [(<- & <- & _)|[Hne' Hk]];
    [done|by destruct (takes_other l i e e' k y Hl Ht Hk ltac:(done) Hy)|by destruct (takes_other l i e e' j x Hl Ht Hj ltac:(done) Hx)|by eapply Hl].
Qed.

Lemma takes_map l i e e' : unique l → takes l i e e' → table_map (<[i := e']> l) = <[label e' := val e']> (table_map l).
Proof.
  intros Hl Ht. pose proof (takes_unique l i e e' Hl Ht) as Hl'. pose proof Ht as (Hi & Hu' & _). pose proof (lookup_lt_Some _ _ _ Hi) as Hlt.
  apply map_eq. intros n. apply option_eq. intros x. rewrite table_lookup by done. destruct (decide (label e' = n)) as [<-|Hne].
  - rewrite lookup_insert_eq. split.
    + intros (j & y & Hj & Huy & Hn & <-). f_equal. apply list_lookup_insert_Some in Hj as [(_ & <- & _)|[Hne Hj]]; [done|].
      by destruct (takes_other l i e e' j y Hl Ht Hj ltac:(done) Huy).
    + intros [= <-]. exists i, e'. by rewrite list_lookup_insert_eq.
  - rewrite lookup_insert_ne, table_lookup by done. split.
    + intros (j & y & Hj & Huy & Hn & <-). apply list_lookup_insert_Some in Hj as [(_ & <- & _)|[_ Hj]]; [done|]. by exists j, y.
    + intros (j & y & Hj & Huy & Hn & <-). exists j, y. rewrite list_lookup_insert_ne; [done|]. intros ->. rewrite Hi in Hj. injection Hj as <-.
      destruct Ht as (_ & _ & [[_ ?]|[? _]]); congruence.
Qed.

Lemma drop_unique l i e' : unique l → used e' = false → unique (<[i := e']> l).
Proof.
  intros Hl Hu j k x y Hj Hk Hx Hy. apply list_lookup_insert_Some in Hj as [(_ & <- & _)|[_ Hj]]; [congruence|].
  apply list_lookup_insert_Some in Hk as [(_ & <- & _)|[_ Hk]]; [congruence|]. by eapply Hl.
Qed.

Lemma drop_map l i e e' : unique l → l !! i = Some e → used e = true → used e' = false → table_map (<[i := e']> l) = delete (label e) (table_map l).
Proof.
  intros Hl Hi Hu Hu'. pose proof (drop_unique l i e' Hl Hu') as Hl'. apply map_eq. intros n. apply option_eq. intros x.
  rewrite lookup_delete_Some, !table_lookup by done. split.
  - intros (j & y & Hj & Huy & Hn & Hx). apply list_lookup_insert_Some in Hj as [(_ & <- & _)|[Hne Hj]]; [congruence|].
    split; [|by exists j, y]. intros E0. apply Hne, (Hl i j e y); congruence.
  - intros (Hne & j & y & Hj & Huy & Hn & Hx). exists j, y. rewrite list_lookup_insert_ne; [done|]. intros ->. congruence.
Qed.

End tables.

End Tables.
