(* ===== verification/Ipc.v ===== *)
(** Inter-process communication (kernel/ipc.c): the mailboxes, capabilities and
    shared regions of processes, and the channels of the older interface.

    [struct process] is split in two: the fields the scheduler owns are the
    records of [Sched], the fields of this layer are [ipc_proc], both indexed by
    the slot of the process.  A section between [spinlock_lock_irqsave] and
    [spinlock_unlock_irqrestore] is one step.  A receive that finds nothing is
    split where it calls [process_block_current]: what runs before that call is
    one definition, the call another, so that other processes can run between
    the two, as they can in the kernel.  An operation is [None] when it would
    leave an array. *)

From S2P Require Import Prelude Arrays Sched.

Module Ipc.

Import Arrays Sched.

(** ** Constants (config.h, ipc_types.h, ipc.c) *)

Definition CONFIG_MSG_QUEUE_LEN : nat := 16.
Definition CONFIG_MSG_DATA_MAX : nat := 256.
Definition CONFIG_IPC_MAX_CHANNELS : nat := 32.
Definition CONFIG_IPC_CHANNEL_QUEUE_LEN : nat := 32.
Definition CONFIG_IPC_CHANNEL_NAME_MAX : nat := 32.
Definition CONFIG_IPC_CHANNEL_SUBSCRIBERS : nat := 8.
Definition CONFIG_IPC_CHANNEL_WAITERS : nat := 8.
Definition CONFIG_PROCESS_CHANNEL_SLOTS : nat := 8.
Definition CONFIG_IPC_PAGE_SIZE : Z := 4096.
Definition CONFIG_IPC_CAPACITY_PER_PROC : nat := 16.
Definition CONFIG_IPC_MAX_SHARED_REGIONS : nat := 64.
Definition CONFIG_IPC_MAX_SHARED_PER_PROC : nat := 8.
Definition CONFIG_IPC_ENDPOINT_WAITERS : nat := 8.
Definition CONFIG_USER_SPACE_LIMIT : Z := 2147483648.
Definition IPC_ANY_PROCESS : Z := -1.
Definition IPC_INVALID_PID : Z := -1.
Definition IPC_RIGHT_SEND : Z := 1.
Definition IPC_RIGHT_RECV : Z := 2.
Definition IPC_RIGHT_SHARE : Z := 4.
Definition IPC_SERVICE_COUNT : nat := 4.
Definition IPC_RECV_NONBLOCK : Z := 1.
Definition IPC_MESSAGE_TRUNCATED : Z := 1.
Definition IPC_CHANNEL_FLAG_KERNEL : Z := 1.

(** ** Data *)

Record ipc_mailbox_slot := MailboxSlot {
  ms_used : bool; ms_sender : Z; ms_flags : Z; ms_size : Z; ms_data : list Z
}.

Record ipc_mailbox_state := MailboxState {
  mb_slots : list ipc_mailbox_slot; mb_count : nat; mb_waiters : list Z; mb_waiter_count : nat
}.

Record ipc_cap_entry := CapEntry { cap_used : bool; cap_peer : Z; cap_rights : Z }.

Record ipc_share_link := ShareLink { link_used : bool; link_share_id : Z }.

(** The fields of [struct process] that this layer owns. *)
Record ipc_proc := IpcProc {
  channel_slots : list Z; channel_count : nat; wait_channel : Z; ipc_waiting : bool;
  ipc_mailbox : ipc_mailbox_state;
  ipc_caps : list ipc_cap_entry; ipc_cap_count : nat;
  ipc_shares : list ipc_share_link; ipc_share_count : nat
}.

Record ipc_share_record := ShareRecord {
  sr_used : bool; sr_owner : Z; sr_target : Z; sr_addr : Z; sr_pages : Z; sr_flags : Z
}.

Record ipc_message_slot := MessageSlot {
  cm_header : Z; cm_type : Z; cm_size : Z; cm_flags : Z; cm_sender_pid : Z; cm_data : list Z
}.

Record ipc_channel := Channel {
  ch_used : bool; ch_id : Z; ch_flags : Z; ch_name : list Z;
  ch_queue : list ipc_message_slot; ch_head : nat; ch_tail : nat; ch_count : nat;
  ch_waiters : list (option nat); ch_waiter_count : nat;
  ch_subscribers : list (option nat); ch_subscriber_count : nat
}.

(** The variables of the file and the IPC fields of the process table. *)
Record ipc := IpcState {
  procs : list ipc_proc;
  share_table : list ipc_share_record;
  ipc_initialized : bool;
  channel_table : list ipc_channel;
  next_channel_id : Z;
  service_channel_ids : list Z
}.

(** The kernel as this layer sees it: the scheduler and itself. *)
Record kernel := Kernel { sys : Sched.sched; ipc_of : ipc }.

Definition with_sys (f : Sched.sched → Sched.sched) (k : kernel) : kernel :=
  {| sys := f (sys k); ipc_of := ipc_of k |}.
Definition with_ipc (v : ipc) (k : kernel) : kernel := {| sys := sys k; ipc_of := v |}.

Definition put_procs (x : list ipc_proc) (v : ipc) : ipc :=
  {| procs := x; share_table := share_table v; ipc_initialized := ipc_initialized v;
     channel_table := channel_table v; next_channel_id := next_channel_id v;
     service_channel_ids := service_channel_ids v |}.
Definition put_share_table (x : list ipc_share_record) (v : ipc) : ipc :=
  {| procs := procs v; share_table := x; ipc_initialized := ipc_initialized v;
     channel_table := channel_table v; next_channel_id := next_channel_id v;
     service_channel_ids := service_channel_ids v |}.
Definition put_channel_table (x : list ipc_channel) (v : ipc) : ipc :=
  {| procs := procs v; share_table := share_table v; ipc_initialized := ipc_initialized v;
     channel_table := x; next_channel_id := next_channel_id v;
     service_channel_ids := service_channel_ids v |}.

(** Write the IPC fields of the process in slot [i], and a channel. *)
Definition put_proc (i : nat) (p : ipc_proc) (k : kernel) : kernel :=
  with_ipc (put_procs (<[i := p]> (procs (ipc_of k))) (ipc_of k)) k.
Definition put_channel (c : nat) (ch : ipc_channel) (k : kernel) : kernel :=
  with_ipc (put_channel_table (<[c := ch]> (channel_table (ipc_of k))) (ipc_of k)) k.
Definition proc_at (k : kernel) (i : nat) : option ipc_proc := procs (ipc_of k) !! i.
Definition channel_at (k : kernel) (c : nat) : option ipc_channel := channel_table (ipc_of k) !! c.

Definition set_mailbox (m : ipc_mailbox_state) (p : ipc_proc) : ipc_proc :=
  {| channel_slots := channel_slots p; channel_count := channel_count p; wait_channel := wait_channel p;
     ipc_waiting := ipc_waiting p; ipc_mailbox := m; ipc_caps := ipc_caps p;
     ipc_cap_count := ipc_cap_count p; ipc_shares := ipc_shares p; ipc_share_count := ipc_share_count p |}.
Definition set_waiting (b : bool) (p : ipc_proc) : ipc_proc :=
  {| channel_slots := channel_slots p; channel_count := channel_count p; wait_channel := wait_channel p;
     ipc_waiting := b; ipc_mailbox := ipc_mailbox p; ipc_caps := ipc_caps p;
     ipc_cap_count := ipc_cap_count p; ipc_shares := ipc_shares p; ipc_share_count := ipc_share_count p |}.
Definition set_caps (cs : list ipc_cap_entry) (n : nat) (p : ipc_proc) : ipc_proc :=
  {| channel_slots := channel_slots p; channel_count := channel_count p; wait_channel := wait_channel p;
     ipc_waiting := ipc_waiting p; ipc_mailbox := ipc_mailbox p; ipc_caps := cs;
     ipc_cap_count := n; ipc_shares := ipc_shares p; ipc_share_count := ipc_share_count p |}.
Definition set_shares (ls : list ipc_share_link) (n : nat) (p : ipc_proc) : ipc_proc :=
  {| channel_slots := channel_slots p; channel_count := channel_count p; wait_channel := wait_channel p;
     ipc_waiting := ipc_waiting p; ipc_mailbox := ipc_mailbox p; ipc_caps := ipc_caps p;
     ipc_cap_count := ipc_cap_count p; ipc_shares := ls; ipc_share_count := n |}.
Definition set_channels (cs : list Z) (n : nat) (p : ipc_proc) : ipc_proc :=
  {| channel_slots := cs; channel_count := n; wait_channel := wait_channel p;
     ipc_waiting := ipc_waiting p; ipc_mailbox := ipc_mailbox p; ipc_caps := ipc_caps p;
     ipc_cap_count := ipc_cap_count p; ipc_shares := ipc_shares p; ipc_share_count := ipc_share_count p |}.
Definition set_wait_channel (c : Z) (p : ipc_proc) : ipc_proc :=
  {| channel_slots := channel_slots p; channel_count := channel_count p; wait_channel := c;
     ipc_waiting := ipc_waiting p; ipc_mailbox := ipc_mailbox p; ipc_caps := ipc_caps p;
     ipc_cap_count := ipc_cap_count p; ipc_shares := ipc_shares p; ipc_share_count := ipc_share_count p |}.

(** [buffer_copy]: nothing when a pointer is [NULL]; a source shorter than the
    length is read outside. *)
Definition buffer_copy (dst : list Z) (src : option (list Z)) (length' : nat) : option (list Z) :=
  match src with
  | None => Some dst
  | Some src => bytes ← cells src length'; buf_copy dst 0 bytes
  end.

(** ** Mailboxes *)

(** A slot that has been reset keeps its bytes. *)
Definition reset_slot (s : ipc_mailbox_slot) : ipc_mailbox_slot :=
  {| ms_used := false; ms_sender := 0; ms_flags := 0; ms_size := 0; ms_data := ms_data s |}.

Definition mailbox_init (m : ipc_mailbox_state) : ipc_mailbox_state :=
  {| mb_slots := reset_slot <$> mb_slots m; mb_count := 0;
     mb_waiters := (fun _ => IPC_INVALID_PID) <$> mb_waiters m; mb_waiter_count := 0 |}.

Definition mailbox_clear (m : ipc_mailbox_state) : ipc_mailbox_state :=
  {| mb_slots := reset_slot <$> mb_slots m; mb_count := 0;
     mb_waiters := (fun _ => IPC_INVALID_PID) <$> mb_waiters m; mb_waiter_count := 0 |}.

Definition mailbox_push_waiter (pid : Z) (m : ipc_mailbox_state) : option (bool * ipc_mailbox_state) :=
  if pid <=? 0 then Some (false, m)
  else
    ws ← cells (mb_waiters m) (mb_waiter_count m);
    match first_index (fun w => w =? pid) ws with
    | Some _ => Some (true, m)
    | None =>
        if (CONFIG_IPC_ENDPOINT_WAITERS <=? mb_waiter_count m)%nat then Some (false, m)
        else
          ws' ← buf_store (mb_waiters m) (mb_waiter_count m) pid;
          Some (true, {| mb_slots := mb_slots m; mb_count := mb_count m; mb_waiters := ws';
                         mb_waiter_count := S (mb_waiter_count m) |})
    end.

Definition mailbox_pop_waiter (m : ipc_mailbox_state) : option (Z * ipc_mailbox_state) :=
  if (mb_waiter_count m =? 0)%nat then Some (IPC_INVALID_PID, m)
  else
    value ← mb_waiters m !! 0%nat;
    ws ← arr_remove IPC_INVALID_PID 0 (mb_waiter_count m) (mb_waiters m);
    Some (value, {| mb_slots := mb_slots m; mb_count := mb_count m; mb_waiters := ws;
                    mb_waiter_count := mb_waiter_count m - 1 |}).

(** A message that [source] asks for. *)
Definition wanted (source : Z) (s : ipc_mailbox_slot) : bool :=
  ms_used s && ((source =? IPC_ANY_PROCESS) || (ms_sender s =? source)).

Definition mailbox_try_dequeue (source : Z) (m : ipc_mailbox_state) :
  option (option ipc_mailbox_slot * ipc_mailbox_state) :=
  sl ← cells (mb_slots m) (mb_count m);
  match first_index (wanted source) sl with
  | None => Some (None, m)
  | Some i =>
      out ← mb_slots m !! i;
      slots ← shift_left (mb_count m - S i) (S i) (mb_slots m);
      let count := if (0 <? mb_count m)%nat then (mb_count m - 1)%nat else mb_count m in
      last ← slots !! count;
      slots ← buf_store slots count (reset_slot last);
      Some (Some out, {| mb_slots := slots; mb_count := count; mb_waiters := mb_waiters m;
                         mb_waiter_count := mb_waiter_count m |})
  end.

(** [process_wake(process_lookup(pid))] for the pid a waiter list gave. *)
Definition wake_pid (pid : Z) (s : Sched.sched) : Sched.sched :=
  if 0 <? pid then
    match Sched.process_lookup pid s with
    | Some i => Sched.process_wake i s
    | None => s
    end
  else s.

Definition mailbox_enqueue (target : nat) (sender : Z) (data : option (list Z)) (size flags_value : Z)
  (k : kernel) : option (Z * kernel) :=
  p ← proc_at k target;
  let m := ipc_mailbox p in
  if (CONFIG_MSG_QUEUE_LEN <=? mb_count m)%nat then Some (-1, k)
  else
    slot ← mb_slots m !! mb_count m;
    bytes ← (if 0 <? size then buffer_copy (ms_data slot) data (Z.to_nat size) else Some (ms_data slot));
    slots ← buf_store (mb_slots m) (mb_count m)
              {| ms_used := true; ms_sender := sender; ms_flags := flags_value; ms_size := u32 size; ms_data := bytes |};
    '(pid, m) ← mailbox_pop_waiter
      {| mb_slots := slots; mb_count := S (mb_count m); mb_waiters := mb_waiters m; mb_waiter_count := mb_waiter_count m |};
    Some (s32 size, with_sys (wake_pid pid) (put_proc target (set_mailbox m p) k)).

(** ** Capabilities *)

Definition capability_find_slot (peer : Z) (p : ipc_proc) : option nat :=
  first_index (fun c => cap_used c && (cap_peer c =? peer)) (ipc_caps p).

(** The rights that the table of [p] holds for [peer]. *)
Definition granted (peer : Z) (p : ipc_proc) : Z :=
  match capability_find_slot peer p with
  | Some j => match ipc_caps p !! j with Some c => cap_rights c | None => 0 end
  | None => 0
  end.

Definition capability_check (i : nat) (peer rights : Z) (k : kernel) : option bool :=
  t ← Sched.processes (sys k) !! i;
  p ← proc_at k i;
  if rights =? 0 then Some true
  else if bool_decide (Sched.kind t = Sched.THREAD_KIND_KERNEL) then Some true
  else if peer <=? 0 then Some true
  else if Sched.pid t =? peer then Some true
  else Some (Z.land (granted peer p) rights =? rights).

Definition clear_cap (c : ipc_cap_entry) : ipc_cap_entry :=
  {| cap_used := false; cap_peer := IPC_INVALID_PID; cap_rights := 0 |}.

Definition ipc_cap_grant (owner target rights : Z) (k : kernel) : option (Z * kernel) :=
  if negb (ipc_initialized (ipc_of k)) then Some (-1, k)
  else if (owner <=? 0) || (target <=? 0) || (rights =? 0) then Some (-1, k)
  else match Sched.process_lookup owner (sys k) with
  | None => Some (-1, k)
  | Some i =>
      p ← proc_at k i;
      let '(entry, p) :=
        match capability_find_slot target p with
        | Some j => (Some j, p)
        | None =>
            match first_index (fun c => negb (cap_used c)) (ipc_caps p) with
            | None => (None, p)
            | Some j =>
                (Some j, set_caps (<[j := {| cap_used := true; cap_peer := target; cap_rights := 0 |}]> (ipc_caps p))
                           (if (ipc_cap_count p <? CONFIG_IPC_CAPACITY_PER_PROC)%nat then S (ipc_cap_count p) else ipc_cap_count p) p)
            end
        end in
      match entry with
      | None => Some (-1, k)
      | Some j =>
          c ← ipc_caps p !! j;
          Some (0, put_proc i (set_caps
            (<[j := {| cap_used := cap_used c; cap_peer := cap_peer c; cap_rights := Z.lor (cap_rights c) rights |}]> (ipc_caps p))
            (ipc_cap_count p) p) k)
      end
  end.

Definition ipc_cap_revoke (owner target rights : Z) (k : kernel) : option (Z * kernel) :=
  if negb (ipc_initialized (ipc_of k)) then Some (-1, k)
  else if (owner <=? 0) || (target <=? 0) || (rights =? 0) then Some (-1, k)
  else match Sched.process_lookup owner (sys k) with
  | None => Some (-1, k)
  | Some i =>
      p ← proc_at k i;
      match capability_find_slot target p with
      | None => Some (0, k)
      | Some j =>
          c ← ipc_caps p !! j;
          let left := Z.land (cap_rights c) (not32 rights) in
          if left =? 0 then
            Some (0, put_proc i (set_caps
              (<[j := {| cap_used := false; cap_peer := IPC_INVALID_PID; cap_rights := left |}]> (ipc_caps p))
              (if (0 <? ipc_cap_count p)%nat then (ipc_cap_count p - 1)%nat else ipc_cap_count p) p) k)
          else
            Some (0, put_proc i (set_caps
              (<[j := {| cap_used := cap_used c; cap_peer := cap_peer c; cap_rights := left |}]> (ipc_caps p))
              (ipc_cap_count p) p) k)
      end
  end.

(** The status and what is stored through [rights_out]. *)
Definition ipc_cap_query (owner target : Z) (k : kernel) : option (Z * option Z) :=
  if negb (ipc_initialized (ipc_of k)) then Some (-1, None)
  else if (owner <=? 0) || (target <=? 0) then Some (-1, None)
  else match Sched.process_lookup owner (sys k) with
  | None => Some (-1, None)
  | Some i => p ← proc_at k i; Some (0, Some (granted target p))
  end.

(** ** Shared regions *)

Definition unused_link : ipc_share_link := {| link_used := false; link_share_id := -1 |}.
Definition unused_record : ipc_share_record :=
  {| sr_used := false; sr_owner := IPC_INVALID_PID; sr_target := IPC_INVALID_PID; sr_addr := 0; sr_pages := 0; sr_flags := 0 |}.

Definition share_attach_to_process (share_id : Z) (p : ipc_proc) : Z * ipc_proc :=
  match first_index (fun l => negb (link_used l)) (ipc_shares p) with
  | None => (-1, p)
  | Some j =>
      (0, set_shares (<[j := {| link_used := true; link_share_id := share_id |}]> (ipc_shares p))
            (if (ipc_share_count p <? CONFIG_IPC_MAX_SHARED_PER_PROC)%nat then S (ipc_share_count p) else ipc_share_count p) p)
  end.

Definition share_detach_from_process (share_id : Z) (p : ipc_proc) : ipc_proc :=
  match first_index (fun l => link_used l && (link_share_id l =? share_id)) (ipc_shares p) with
  | None => p
  | Some j =>
      set_shares (<[j := unused_link]> (ipc_shares p))
        (if (0 <? ipc_share_count p)%nat then (ipc_share_count p - 1)%nat else ipc_share_count p) p
  end.

(** Detach the process a pid names, if it exists. *)
Definition detach_pid (pid share_id : Z) (k : kernel) : option kernel :=
  if 0 <? pid then
    match Sched.process_lookup pid (sys k) with
    | None => Some k
    | Some i => p ← proc_at k i; Some (put_proc i (share_detach_from_process share_id p) k)
    end
  else Some k.

Definition put_share (slot : nat) (r : ipc_share_record) (k : kernel) : kernel :=
  with_ipc (put_share_table (<[slot := r]> (share_table (ipc_of k))) (ipc_of k)) k.

(** [n] rounds of the loop of [share_drop_for_pid], from the record [i] up. *)
Fixpoint share_drop_loop (n i : nat) (pid : Z) (k : kernel) : option kernel :=
  match n with
  | O => Some k
  | S n' =>
      r ← share_table (ipc_of k) !! i;
      if negb (sr_used r) then share_drop_loop n' (S i) pid k
      else if negb (sr_owner r =? pid) && negb (sr_target r =? pid) then share_drop_loop n' (S i) pid k
      else
        k ← detach_pid (sr_owner r) (Z.of_nat i) k;
        k ← detach_pid (sr_target r) (Z.of_nat i) k;
        share_drop_loop n' (S i) pid (put_share i unused_record k)
  end.

Definition share_drop_for_pid (pid : Z) (k : kernel) : option kernel :=
  if pid <=? 0 then Some k else share_drop_loop CONFIG_IPC_MAX_SHARED_REGIONS 0 pid k.

Definition ipc_share (target addr pages : Z) (k : kernel) : option (Z * kernel) :=
  if negb (ipc_initialized (ipc_of k)) then Some (-1, k)
  else if (target <=? 0) || (addr =? 0) || (pages =? 0) then Some (-1, k)
  else if negb (Z.land addr (CONFIG_IPC_PAGE_SIZE - 1) =? 0) then Some (-1, k)
  else
    let limit := addr +32 (pages *32 CONFIG_IPC_PAGE_SIZE) in
    if (limit <? addr) || (CONFIG_USER_SPACE_LIMIT <? limit) then Some (-1, k)
    else match Sched.process_current (sys k) with
    | None => Some (-1, k)
    | Some owner =>
        ok ← capability_check owner target IPC_RIGHT_SHARE k;
        if negb ok then Some (-1, k)
        else match Sched.process_lookup target (sys k) with
        | None => Some (-1, k)
        | Some target_proc =>
            match first_index (fun r => negb (sr_used r)) (share_table (ipc_of k)) with
            | None => Some (-1, k)
            | Some slot =>
                t ← Sched.processes (sys k) !! owner;
                let k := put_share slot {| sr_used := true; sr_owner := Sched.pid t; sr_target := target;
                                           sr_addr := addr; sr_pages := pages; sr_flags := 0 |} k in
                p ← proc_at k owner;
                let '(r1, p1) := share_attach_to_process (Z.of_nat slot) p in
                let k := put_proc owner p1 k in
                q ← proc_at k target_proc;
                let '(r2, k) :=
                  if r1 <? 0 then (r1, k)
                  else let '(r2, q1) := share_attach_to_process (Z.of_nat slot) q in (r2, put_proc target_proc q1 k) in
                if r2 <? 0 then
                  p ← proc_at k owner;
                  let k := put_proc owner (share_detach_from_process (Z.of_nat slot) p) k in
                  q ← proc_at k target_proc;
                  let k := put_proc target_proc (share_detach_from_process (Z.of_nat slot) q) k in
                  Some (-1, put_share slot unused_record k)
                else Some (0, k)
            end
        end
    end.

(** ** Attaching and detaching processes *)

Definition clear_endpoint (m : ipc_mailbox_state) (p : ipc_proc) : ipc_proc :=
  {| channel_slots := channel_slots p; channel_count := channel_count p; wait_channel := wait_channel p;
     ipc_waiting := false; ipc_mailbox := m;
     ipc_caps := clear_cap <$> ipc_caps p; ipc_cap_count := 0;
     ipc_shares := (fun _ => unused_link) <$> ipc_shares p; ipc_share_count := 0 |}.

Definition ipc_attach_process (i : nat) (k : kernel) : option kernel :=
  p ← proc_at k i; Some (put_proc i (clear_endpoint (mailbox_init (ipc_mailbox p)) p) k).

Definition ipc_detach_process (i : nat) (k : kernel) : option kernel :=
  p ← proc_at k i;
  if negb (ipc_initialized (ipc_of k)) then
    Some (put_proc i (clear_endpoint (mailbox_clear (ipc_mailbox p)) p) k)
  else
    t ← Sched.processes (sys k) !! i;
    let k := put_proc i (set_caps (clear_cap <$> ipc_caps p) 0 (set_mailbox (mailbox_clear (ipc_mailbox p)) p)) k in
    k ← share_drop_for_pid (Sched.pid t) k;
    p ← proc_at k i;
    Some (put_proc i (set_waiting false (set_shares ((fun _ => unused_link) <$> ipc_shares p) 0 p)) k).

(** What [alloc_process_slot] leaves in the fields of this layer: zeroed memory,
    no channels, and [ipc_attach_process]. *)
Definition zero_slot : ipc_mailbox_slot :=
  {| ms_used := false; ms_sender := 0; ms_flags := 0; ms_size := 0; ms_data := replicate CONFIG_MSG_DATA_MAX 0 |}.
Definition zero_endpoint : ipc_proc :=
  {| channel_slots := replicate CONFIG_PROCESS_CHANNEL_SLOTS (-1); channel_count := 0; wait_channel := -1; ipc_waiting := false;
     ipc_mailbox := {| mb_slots := replicate CONFIG_MSG_QUEUE_LEN zero_slot; mb_count := 0;
                       mb_waiters := replicate CONFIG_IPC_ENDPOINT_WAITERS 0; mb_waiter_count := 0 |};
     ipc_caps := replicate CONFIG_IPC_CAPACITY_PER_PROC {| cap_used := false; cap_peer := 0; cap_rights := 0 |};
     ipc_cap_count := 0;
     ipc_shares := replicate CONFIG_IPC_MAX_SHARED_PER_PROC {| link_used := false; link_share_id := 0 |};
     ipc_share_count := 0 |}.

Definition ipc_alloc_slot (i : nat) (k : kernel) : option kernel :=
  _ ← proc_at k i; ipc_attach_process i (put_proc i zero_endpoint k).

(** What [reclaim_zombie] does to them. *)
Definition ipc_reclaim_slot (i : nat) (k : kernel) : option kernel :=
  p ← proc_at k i;
  ipc_attach_process i (put_proc i (set_waiting false (set_wait_channel (-1)
    (set_channels ((fun _ => -1) <$> channel_slots p) 0 p))) k).

(** ** Sending and receiving *)

(** [msg] is the memory the caller's pointer points at. *)
Definition ipc_send (target : Z) (msg : option (list Z)) (size : Z) (k : kernel) : option (Z * kernel) :=
  if negb (ipc_initialized (ipc_of k)) then Some (-1, k)
  else if target <=? 0 then Some (-1, k)
  else if Z.of_nat CONFIG_MSG_DATA_MAX <? size then Some (-1, k)
  else if (0 <? size) && bool_decide (msg = None) then Some (-1, k)
  else match Sched.process_lookup target (sys k) with
  | None => Some (-1, k)
  | Some target_proc =>
      let sender := Sched.process_current (sys k) in
      ok ← match sender with
           | None => Some true
           | Some i => capability_check i target IPC_RIGHT_SEND k
           end;
      if negb ok then Some (-1, k)
      else
        buffer ← (if 0 <? size then buffer_copy (replicate CONFIG_MSG_DATA_MAX 0) msg (Z.to_nat size)
                  else Some (replicate CONFIG_MSG_DATA_MAX 0));
        sender_pid ← match sender with
                     | None => Some 0
                     | Some i => Sched.pid <$> Sched.processes (sys k) !! i
                     end;
        mailbox_enqueue target_proc sender_pid (if 0 <? size then Some buffer else None) size 0 k
  end.

(** A receive returns a status and the caller's buffer, or is about to block. *)
Inductive recv_result :=
| RReturn (r : Z) (buffer : option (list Z)) (k : kernel)
| RWait (k : kernel).

(** Rounds of the loop of [ipc_recv] in the process [i], up to its return or its
    call of [process_block_current].  Every round but the last takes a message out
    of the mailbox, so as many rounds as a mailbox has slots and one more are
    enough. *)
Fixpoint recv_loop (fuel : nat) (i : nat) (source : Z) (buffer : option (list Z)) (max : Z) (k : kernel) :
  option recv_result :=
  match fuel with
  | O => None
  | S fuel' =>
      t ← Sched.processes (sys k) !! i;
      p ← proc_at k i;
      '(message, m) ← mailbox_try_dequeue source (ipc_mailbox p);
      let k := put_proc i (set_mailbox m p) k in
      match message with
      | Some message =>
          ok ← capability_check i (ms_sender message) IPC_RIGHT_RECV k;
          if negb ok then
            recv_loop fuel' i source buffer max
              (with_sys (Sched.emit (Sched.ELog (lit "ipc: dropping message without recv capability"))) k)
          else
            let to_copy := if ms_size message <? max then ms_size message else max in
            buffer ← match buffer with
                     | Some b => if 0 <? to_copy then Some <$> buffer_copy b (Some (ms_data message)) (Z.to_nat to_copy)
                                 else Some (Some b)
                     | None => Some None
                     end;
            p ← proc_at k i;
            Some (RReturn (s32 (ms_size message)) buffer (put_proc i (set_waiting false p) k))
      | None =>
          if bool_decide (Sched.kind t = Sched.THREAD_KIND_KERNEL) then Some (RReturn 0 buffer k)
          else
            '(enqueued, m) ← mailbox_push_waiter (Sched.pid t) m;
            let k := put_proc i (set_mailbox m p) k in
            if negb enqueued then Some (RReturn (-1) buffer k) else Some (RWait k)
      end
  end.

Definition RECV_FUEL : nat := S CONFIG_MSG_QUEUE_LEN.

(** From the call to the return or to [process_block_current]. *)
Definition ipc_recv_begin (source : Z) (buffer : option (list Z)) (max : Z) (k : kernel) : option recv_result :=
  if negb (ipc_initialized (ipc_of k)) then Some (RReturn (-1) buffer k)
  else match Sched.process_current (sys k) with
  | None => Some (RReturn (-1) buffer k)
  | Some i =>
      if (0 <? max) && bool_decide (buffer = None) then Some (RReturn (-1) buffer k)
      else recv_loop RECV_FUEL i source buffer max k
  end.

(** [proc->ipc_waiting = 1; process_block_current();] *)
Definition ipc_recv_block (i : nat) (now : Z) (k : kernel) : option kernel :=
  p ← proc_at k i; Some (with_sys (Sched.process_block_current now) (put_proc i (set_waiting true p) k)).

(** From the return of [process_block_current]. *)
Definition ipc_recv_resume (i : nat) (source : Z) (buffer : option (list Z)) (max : Z) (k : kernel) :
  option recv_result :=
  p ← proc_at k i; recv_loop RECV_FUEL i source buffer max (put_proc i (set_waiting false p) k).

(** A receive that nothing interrupts, up to its return or its sleep. *)
Definition ipc_recv (source : Z) (buffer : option (list Z)) (max now : Z) (k : kernel) : option recv_result :=
  r ← ipc_recv_begin source buffer max k;
  match r with
  | RReturn r b k => Some (RReturn r b k)
  | RWait k =>
      match Sched.process_current (sys k) with
      | None => None
      | Some i => RWait <$> ipc_recv_block i now k
      end
  end.

(** ** Channels *)

(** The [size] bytes of a C array at a pointer that may be [NULL] (then zeros). *)
Definition name_bytes (src : option (list Z)) (n : nat) : option (list Z) :=
  match src with None => Some (replicate n 0) | Some s => cells s n end.

Definition channel_name_copy (dst : list Z) (dst_cap : nat) (src : option (list Z)) (src_len : nat) : option (list Z) :=
  if (dst_cap =? 0)%nat then Some dst
  else
    let limit := Nat.min (dst_cap - 1) src_len in
    bytes ← name_bytes src limit;
    dst ← buf_copy dst 0 bytes;
    buf_store dst limit 0.

Definition find_channel (channel_id : Z) (k : kernel) : option nat :=
  if channel_id <=? 0 then None
  else first_index (fun c => ch_used c && (ch_id c =? channel_id)) (channel_table (ipc_of k)).

Definition process_has_channel (channel_id : Z) (p : ipc_proc) : option bool :=
  cs ← cells (channel_slots p) (channel_count p);
  Some (bool_decide (is_Some (first_index (fun c => c =? channel_id) cs))).

Definition process_add_channel (channel_id : Z) (p : ipc_proc) : option (Z * ipc_proc) :=
  has ← process_has_channel channel_id p;
  if (has : bool) then Some (0, p)
  else if (CONFIG_PROCESS_CHANNEL_SLOTS <=? channel_count p)%nat then Some (-1, p)
  else
    cs ← buf_store (channel_slots p) (channel_count p) channel_id;
    Some (0, set_channels cs (S (channel_count p)) p).

Definition process_remove_channel (channel_id : Z) (p : ipc_proc) : option ipc_proc :=
  cs ← cells (channel_slots p) (channel_count p);
  match first_index (fun c => c =? channel_id) cs with
  | None => Some p
  | Some i =>
      cs ← arr_remove (-1) i (channel_count p) (channel_slots p);
      Some (set_channels cs (channel_count p - 1) p)
  end.

(** The loop that takes a process out of a waiter or subscriber list. *)
Definition drop_member (i : nat) (arr : list (option nat)) (count : nat) : option (list (option nat) * nat) :=
  ms ← cells arr count;
  match first_index (fun w => bool_decide (w = Some i)) ms with
  | None => Some (arr, count)
  | Some j => arr ← arr_remove None j count arr; Some (arr, (count - 1)%nat)
  end.

Definition set_waiters (ws : list (option nat)) (n : nat) (c : ipc_channel) : ipc_channel :=
  {| ch_used := ch_used c; ch_id := ch_id c; ch_flags := ch_flags c; ch_name := ch_name c;
     ch_queue := ch_queue c; ch_head := ch_head c; ch_tail := ch_tail c; ch_count := ch_count c;
     ch_waiters := ws; ch_waiter_count := n;
     ch_subscribers := ch_subscribers c; ch_subscriber_count := ch_subscriber_count c |}.
Definition set_subscribers (ss : list (option nat)) (n : nat) (c : ipc_channel) : ipc_channel :=
  {| ch_used := ch_used c; ch_id := ch_id c; ch_flags := ch_flags c; ch_name := ch_name c;
     ch_queue := ch_queue c; ch_head := ch_head c; ch_tail := ch_tail c; ch_count := ch_count c;
     ch_waiters := ch_waiters c; ch_waiter_count := ch_waiter_count c;
     ch_subscribers := ss; ch_subscriber_count := n |}.
Definition set_ring (q : list ipc_message_slot) (head tail count : nat) (c : ipc_channel) : ipc_channel :=
  {| ch_used := ch_used c; ch_id := ch_id c; ch_flags := ch_flags c; ch_name := ch_name c;
     ch_queue := q; ch_head := head; ch_tail := tail; ch_count := count;
     ch_waiters := ch_waiters c; ch_waiter_count := ch_waiter_count c;
     ch_subscribers := ch_subscribers c; ch_subscriber_count := ch_subscriber_count c |}.

Definition channel_remove_waiter (i : nat) (c : ipc_channel) : option ipc_channel :=
  '(ws, n) ← drop_member i (ch_waiters c) (ch_waiter_count c); Some (set_waiters ws n c).

Definition channel_remove_subscriber (i : nat) (c : ipc_channel) : option ipc_channel :=
  '(ss, n) ← drop_member i (ch_subscribers c) (ch_subscriber_count c); Some (set_subscribers ss n c).

(** [while (name[n] && n < CONFIG_IPC_CHANNEL_NAME_MAX - 1) ++n;] *)
Fixpoint name_length (fuel n : nat) (name : list Z) : option nat :=
  match fuel with
  | O => x ← name !! n; Some n
  | S fuel' => x ← name !! n; if x =? 0 then Some n else name_length fuel' (S n) name
  end.

Definition ipc_channel_create (name : option (list Z)) (name_len : nat) (flags : Z) (k : kernel) : option (Z * kernel) :=
  match first_index (fun c => negb (ch_used c)) (channel_table (ipc_of k)) with
  | None => Some (-1, k)
  | Some i =>
      c ← channel_at k i;
      effective_len ← match name with
                      | Some s => if (name_len =? 0)%nat then name_length (CONFIG_IPC_CHANNEL_NAME_MAX - 1) 0 s else Some name_len
                      | None => Some name_len
                      end;
      name ← channel_name_copy (ch_name c) CONFIG_IPC_CHANNEL_NAME_MAX name effective_len;
      let id := next_channel_id (ipc_of k) in
      let c := {| ch_used := true; ch_id := id; ch_flags := flags; ch_name := name;
                  ch_queue := ch_queue c; ch_head := 0; ch_tail := 0; ch_count := 0;
                  ch_waiters := ch_waiters c; ch_waiter_count := 0;
                  ch_subscribers := ch_subscribers c; ch_subscriber_count := 0 |} in
      let v := ipc_of k in
      Some (id, with_ipc {| procs := procs v; share_table := share_table v; ipc_initialized := ipc_initialized v;
                            channel_table := <[i := c]> (channel_table v); next_channel_id := s32 (id + 1);
                            service_channel_ids := service_channel_ids v |} k)
  end.

Definition ipc_channel_join (i : nat) (channel_id : Z) (k : kernel) : option (Z * kernel) :=
  match find_channel channel_id k with
  | None => Some (-1, k)
  | Some c =>
      p ← proc_at k i;
      '(r, p) ← process_add_channel channel_id p;
      if r <? 0 then Some (-1, k)
      else
        let k := put_proc i p k in
        ch ← channel_at k c;
        ms ← cells (ch_subscribers ch) (ch_subscriber_count ch);
        match first_index (fun w => bool_decide (w = Some i)) ms with
        | Some _ => Some (0, k)
        | None =>
            if (CONFIG_IPC_CHANNEL_SUBSCRIBERS <=? ch_subscriber_count ch)%nat then
              p ← process_remove_channel channel_id p; Some (-1, put_proc i p k)
            else
              ss ← buf_store (ch_subscribers ch) (ch_subscriber_count ch) (Some i);
              Some (0, put_channel c (set_subscribers ss (S (ch_subscriber_count ch)) ch) k)
        end
  end.

Definition ipc_channel_leave (i : nat) (channel_id : Z) (k : kernel) : option (Z * kernel) :=
  match find_channel channel_id k with
  | None => Some (-1, k)
  | Some c =>
      p ← proc_at k i;
      p ← process_remove_channel channel_id p;
      let k := put_proc i p k in
      ch ← channel_at k c;
      ch ← channel_remove_subscriber i ch;
      ch ← channel_remove_waiter i ch;
      Some (0, put_channel c ch k)
  end.

(** May the process use the channel: it has joined it, or it is a kernel channel. *)
Definition may_use (channel_id : Z) (p : ipc_proc) (c : ipc_channel) : option bool :=
  has ← process_has_channel channel_id p;
  Some ((has : bool) || negb (Z.land (ch_flags c) IPC_CHANNEL_FLAG_KERNEL =? 0)).

(** Wake the first waiter of a channel. *)
Definition pop_channel_waiter (c : ipc_channel) : option (option nat * ipc_channel) :=
  if (ch_waiter_count c =? 0)%nat then Some (None, c)
  else
    w ← ch_waiters c !! 0%nat;
    ws ← arr_remove None 0 (ch_waiter_count c) (ch_waiters c);
    Some (w, set_waiters ws (ch_waiter_count c - 1) c).

Definition ring_next (n : nat) : nat := ((n + 1) mod CONFIG_IPC_CHANNEL_QUEUE_LEN)%nat.

Definition ipc_channel_send (channel_id sender_pid header type : Z) (data : option (list Z)) (size flags : Z)
  (k : kernel) : option (Z * kernel) :=
  if Z.of_nat CONFIG_MSG_DATA_MAX <? size then Some (-1, k)
  else match find_channel channel_id k with
  | None => Some (-1, k)
  | Some c =>
      ch ← channel_at k c;
      allowed ← (if 0 <? sender_pid then
                   match Sched.process_lookup sender_pid (sys k) with
                   | None => Some false
                   | Some i => p ← proc_at k i; may_use channel_id p ch
                   end
                 else Some true);
      if negb allowed then Some (-1, k)
      else if (CONFIG_IPC_CHANNEL_QUEUE_LEN <=? ch_count ch)%nat then Some (-1, k)
      else
        slot ← ch_queue ch !! ch_tail ch;
        bytes ← (if 0 <? size then buffer_copy (cm_data slot) data (Z.to_nat size) else Some (cm_data slot));
        queue ← buf_store (ch_queue ch) (ch_tail ch)
          {| cm_header := header; cm_type := type; cm_size := u32 size; cm_flags := flags;
             cm_sender_pid := sender_pid; cm_data := bytes |};
        '(w, ch) ← pop_channel_waiter
          (set_ring queue (ch_head ch) (ring_next (ch_tail ch)) (S (ch_count ch)) ch);
        let k := put_channel c ch k in
        match w with
        | None => Some (s32 size, k)
        | Some i =>
            p ← proc_at k i;
            Some (s32 size, with_sys (Sched.process_wake i) (put_proc i (set_wait_channel (-1) p) k))
        end
  end.

(** [struct ipc_message], its [data] field the caller's buffer pointer. *)
Record ipc_message := IpcMessage { header : Z; sender_pid : Z; type : Z; size : Z }.

(** A channel receive returns a status, what it stored through [out] and the
    buffer, or is about to block. *)
Inductive channel_result :=
| CReturn (r : Z) (out : option ipc_message) (buffer : option (list Z)) (k : kernel)
| CWait (k : kernel).

(** One round of the loop of [ipc_channel_receive] in the process [i], on the
    channel in slot [c]: a round that does not return blocks. *)
Definition channel_receive_round (i c : nat) (channel_id : Z) (out : bool) (buffer : option (list Z))
  (buffer_len flags : Z) (k : kernel) : option channel_result :=
  ch ← channel_at k c;
  p ← proc_at k i;
  if (0 <? ch_count ch)%nat then
    slot ← ch_queue ch !! ch_head ch;
    let ch := set_ring (ch_queue ch) (ring_next (ch_head ch)) (ch_tail ch) (ch_count ch - 1) ch in
    let truncated := buffer_len <? cm_size slot in
    let message := {| header := if truncated then Z.lor (cm_header slot) IPC_MESSAGE_TRUNCATED else cm_header slot;
                      sender_pid := cm_sender_pid slot; type := cm_type slot; size := cm_size slot |} in
    let copy_len := Z.min (cm_size slot) buffer_len in
    buffer ← match buffer with
             | Some b => if 0 <? copy_len then Some <$> buffer_copy b (Some (cm_data slot)) (Z.to_nat copy_len)
                         else Some (Some b)
             | None => Some None
             end;
    Some (CReturn 1 (if out then Some message else None) buffer
            (put_proc i (set_wait_channel (-1) p) (put_channel c ch k)))
  else if negb (Z.land flags IPC_RECV_NONBLOCK =? 0) then Some (CReturn 0 None buffer k)
  else
    ws ← cells (ch_waiters ch) (ch_waiter_count ch);
    match first_index (fun w => bool_decide (w = Some i)) ws with
    | Some _ => Some (CWait k)
    | None =>
        if (CONFIG_IPC_CHANNEL_WAITERS <=? ch_waiter_count ch)%nat then Some (CReturn (-1) None buffer k)
        else
          ws ← buf_store (ch_waiters ch) (ch_waiter_count ch) (Some i);
          Some (CWait (put_proc i (set_wait_channel channel_id p)
                  (put_channel c (set_waiters ws (S (ch_waiter_count ch)) ch) k)))
    end.

Definition ipc_channel_receive_begin (i : nat) (channel_id : Z) (out : bool) (buffer : option (list Z))
  (buffer_len flags : Z) (k : kernel) : option channel_result :=
  match find_channel channel_id k with
  | None => Some (CReturn (-1) None buffer k)
  | Some c =>
      ch ← channel_at k c;
      p ← proc_at k i;
      allowed ← may_use channel_id p ch;
      if negb allowed then Some (CReturn (-1) None buffer k)
      else channel_receive_round i c channel_id out buffer buffer_len flags k
  end.

(** A channel receive that nothing interrupts, up to its return or its sleep. *)
Definition ipc_channel_receive (i : nat) (channel_id : Z) (out : bool) (buffer : option (list Z))
  (buffer_len flags now : Z) (k : kernel) : option channel_result :=
  r ← ipc_channel_receive_begin i channel_id out buffer buffer_len flags k;
  match r with
  | CReturn r o b k => Some (CReturn r o b k)
  | CWait k => Some (CWait (with_sys (Sched.process_block_current now) k))
  end.

Definition ipc_channel_peek (channel_id : Z) (k : kernel) : option Z :=
  match find_channel channel_id k with
  | None => Some (-1)
  | Some c => ch ← channel_at k c; Some (if (0 <? ch_count ch)%nat then 1 else 0)
  end.

Definition ipc_get_service_channel (service : Z) (k : kernel) : option Z :=
  if (service <? 0) || (Z.of_nat IPC_SERVICE_COUNT <=? service) then Some (-1)
  else service_channel_ids (ipc_of k) !! Z.to_nat service.

Definition ipc_is_initialized (k : kernel) : bool := ipc_initialized (ipc_of k).

(** ** Start-up and cleaning up *)

Definition reset_message (s : ipc_message_slot) : ipc_message_slot :=
  {| cm_header := 0; cm_type := 0; cm_size := 0; cm_flags := 0; cm_sender_pid := -1; cm_data := cm_data s |}.

(** The loop body of [ipc_system_init]; a name is emptied by its first byte. *)
Definition reset_channel (c : ipc_channel) : ipc_channel :=
  {| ch_used := false; ch_id := 0; ch_flags := 0; ch_name := <[0%nat := 0]> (ch_name c);
     ch_queue := reset_message <$> ch_queue c; ch_head := 0; ch_tail := 0; ch_count := 0;
     ch_waiters := (fun _ => None) <$> ch_waiters c; ch_waiter_count := 0;
     ch_subscribers := (fun _ => None) <$> ch_subscribers c; ch_subscriber_count := 0 |}.

Definition service_names : list (list Z) :=
  (fun s => lit s ++ [0]) <$> ["svc.devmgr"%string; "svc.module"%string; "svc.logger"%string; "svc.scheduler"%string].

(** The loop that creates the service channels. *)
Fixpoint create_services (names : list (list Z)) (k : kernel) : option (list Z * kernel) :=
  match names with
  | [] => Some ([], k)
  | name :: names' =>
      '(id, k) ← ipc_channel_create (Some name) 0 IPC_CHANNEL_FLAG_KERNEL k;
      let '(id, k) := if id <? 0 then (-1, with_sys (Sched.emit (Sched.ELog (lit "ipc: failed to create service channel"))) k)
                      else (id, k) in
      '(ids, k) ← create_services names' k;
      Some (id :: ids, k)
  end.

Definition ipc_system_init (k : kernel) : option kernel :=
  let v := ipc_of k in
  let k := with_ipc {| procs := procs v; share_table := (fun _ => unused_record) <$> share_table v;
                       ipc_initialized := ipc_initialized v; channel_table := reset_channel <$> channel_table v;
                       next_channel_id := 1; service_channel_ids := replicate IPC_SERVICE_COUNT (-1) |} k in
  '(ids, k) ← create_services service_names k;
  let v := ipc_of k in
  Some (with_ipc {| procs := procs v; share_table := share_table v; ipc_initialized := true;
                    channel_table := channel_table v; next_channel_id := next_channel_id v;
                    service_channel_ids := ids |} k).

(** The loop of [ipc_process_cleanup] over the channels of the process. *)
Fixpoint leave_channels (ids : list Z) (i : nat) (k : kernel) : option kernel :=
  match ids with
  | [] => Some k
  | id :: ids' =>
      match find_channel id k with
      | None => leave_channels ids' i k
      | Some c =>
          ch ← channel_at k c;
          ch ← channel_remove_subscriber i ch;
          ch ← channel_remove_waiter i ch;
          leave_channels ids' i (put_channel c ch k)
      end
  end.

Definition ipc_process_cleanup (i : nat) (k : kernel) : option kernel :=
  k ← ipc_detach_process i k;
  p ← proc_at k i;
  ids ← cells (channel_slots p) (channel_count p);
  k ← leave_channels ids i k;
  p ← proc_at k i;
  Some (put_proc i (set_wait_channel (-1) (set_channels ((fun _ => -1) <$> channel_slots p) 0 p)) k).

End Ipc.
