(* ===== verification/IpcSpec.v ===== *)
(** Mailboxes as queues: the invariant of the IPC layer, the messages a mailbox
    holds, and what each mailbox and capability operation does to them. *)

From S2P Require Import Prelude Arrays Sched SchedLists SchedSpec SchedRun Ipc.

Module IpcSpec.

Import Arrays Sched SchedLists SchedSpec SchedRun Ipc.

(** ** The invariant *)

Record slot_ok (s : ipc_mailbox_slot) : Prop := {
  so_used : ms_used s = true;
  so_size : 0 ≤ ms_size s ≤ 256
}.

Record mailbox_ok (m : ipc_mailbox_state) : Prop := {
  mo_slots : length (mb_slots m) = CONFIG_MSG_QUEUE_LEN;
  mo_count : (mb_count m ≤ CONFIG_MSG_QUEUE_LEN)%nat;
  mo_waiters : length (mb_waiters m) = CONFIG_IPC_ENDPOINT_WAITERS;
  mo_waiter_count : (mb_waiter_count m ≤ CONFIG_IPC_ENDPOINT_WAITERS)%nat;
  mo_used : Forall slot_ok (take (mb_count m) (mb_slots m));
  mo_data : Forall (fun s => length (ms_data s) = CONFIG_MSG_DATA_MAX) (mb_slots m)
}.

(** A message: who sent it, and its bytes. *)
Definition message : Type := Z * list Z.

Definition message_of (s : ipc_mailbox_slot) : message := (ms_sender s, take (Z.to_nat (ms_size s)) (ms_data s)).

(** The messages of a mailbox, oldest first, and the processes waiting on it. *)
Definition messages (m : ipc_mailbox_state) : list message := message_of <$> take (mb_count m) (mb_slots m).
Definition waiting_on (m : ipc_mailbox_state) : list Z := take (mb_waiter_count m) (mb_waiters m).

Lemma messages_length m : mailbox_ok m → length (messages m) = mb_count m.
Proof. intros []. unfold messages. rewrite length_fmap, length_take. lia. Qed.

Lemma waiting_on_length m : mailbox_ok m → length (waiting_on m) = mb_waiter_count m.
Proof. intros []. unfold waiting_on. rewrite length_take. lia. Qed.

Lemma mailbox_init_ok m :
  length (mb_slots m) = CONFIG_MSG_QUEUE_LEN → length (mb_waiters m) = CONFIG_IPC_ENDPOINT_WAITERS →
  Forall (fun s => length (ms_data s) = CONFIG_MSG_DATA_MAX) (mb_slots m) →
  mailbox_ok (mailbox_init m) ∧ messages (mailbox_init m) = [] ∧ waiting_on (mailbox_init m) = [].
Proof.
  intros H1 H2 H3. split; [|done].
  constructor; simpl; rewrite ?length_fmap; try done; try lia.
  apply Forall_fmap. eapply Forall_impl; [exact H3|]. done.
Qed.

(** A waiter that is taken is the first one. *)
Lemma pop_waiter_ok m :
  mailbox_ok m →
  ∃ m', mailbox_pop_waiter m = Some (match waiting_on m with [] => -1 | w :: _ => w end, m') ∧
    mailbox_ok m' ∧ mb_slots m' = mb_slots m ∧ mb_count m' = mb_count m ∧ waiting_on m' = list.tail (waiting_on m).
Proof.
  intros H. destruct (H). unfold mailbox_pop_waiter. destruct (mb_waiter_count m =? 0)%nat eqn:E; bool_prop.
  { exists m. unfold waiting_on. rewrite E. done. }
  destruct (arr_remove_ok IPC_INVALID_PID 0 (mb_waiter_count m) (mb_waiters m)) as (ws & -> & Hl & Ht & _); [lia..|].
  destruct (mb_waiters m) as [|w l] eqn:Ew; [simpl in *; lia|]. simpl lookup. cbn [mbind option_bind].
  assert (Hw : waiting_on m = w :: take (mb_waiter_count m - 1) l).
  { unfold waiting_on. rewrite Ew. by destruct (mb_waiter_count m) as [|n]; [lia|]; simpl; rewrite Nat.sub_0_r. }
  eexists. rewrite Hw. split; [done|]. split; [constructor; simpl; try done; [congruence|lia]|].
  split; [done|]. split; [done|]. unfold waiting_on. simpl. rewrite Ht.
  destruct (mb_waiter_count m) as [|n]; [lia|]. simpl. by rewrite Nat.sub_0_r.
Qed.

(** A process that waits is on the list of waiters, unless the list is full. *)
Lemma push_waiter_ok pid m :
  mailbox_ok m →
  ∃ b m', mailbox_push_waiter pid m = Some (b, m') ∧ mailbox_ok m' ∧
    mb_slots m' = mb_slots m ∧ mb_count m' = mb_count m ∧
    (b = true → pid ∈ waiting_on m') ∧
    (b = false → m' = m ∧ (0 < pid → length (waiting_on m) = CONFIG_IPC_ENDPOINT_WAITERS ∧ pid ∉ waiting_on m)).
Proof.
  intros H. destruct (H). unfold mailbox_push_waiter. destruct (pid <=? 0) eqn:Ep; bool_prop.
  { exists false, m. split_and!; try done. intros _. split; [done|lia]. }
  rewrite cells_ok by lia. cbn [mbind option_bind]. fold (waiting_on m).
  destruct (first_index _ (waiting_on m)) as [j|] eqn:E.
  { exists true, m. split_and!; try done. intros _. apply first_index_Some in E as (x & Hx & ?%Z.eqb_eq & _). subst.
    by eapply list_elem_of_lookup_2. }
  assert (Hni : pid ∉ waiting_on m).
  { intros (j & Hj)%list_elem_of_lookup_1. rewrite first_index_None in E. specialize (E j pid Hj). bool_prop. done. }
  destruct (CONFIG_IPC_ENDPOINT_WAITERS <=? mb_waiter_count m)%nat eqn:E2; bool_prop.
  { exists false, m. split_and!; try done. intros _. split; [done|]. intros _. rewrite waiting_on_length by done. split; [lia|done]. }
  destruct (push_ok pid (mb_waiter_count m) (mb_waiters m)) as (-> & Hl & Ht); [lia|]. cbn [mbind option_bind].
  eexists true, _. split; [done|]. split; [constructor; simpl; try done; lia|]. split_and!; try done.
  intros _. unfold waiting_on. simpl. rewrite Ht. set_solver.
Qed.

(** ** Taking a message *)

(** A message that [source] asks for. *)
Definition matches (source : Z) (m : message) : bool := (source =? IPC_ANY_PROCESS) || (m.1 =? source).

Lemma wanted_matches source s : slot_ok s → wanted source s = matches source (message_of s).
Proof. intros [Hu _]. unfold wanted. by rewrite Hu. Qed.

Lemma first_index_wanted source l :
  Forall slot_ok l → first_index (wanted source) l = first_index (matches source) (message_of <$> l).
Proof. induction 1 as [|s l Hs _ IH]; [done|]. cbn [fmap list_fmap first_index]. by rewrite IH, wanted_matches. Qed.

Lemma remove_at_fmap {A B} (f : A → B) m l : f <$> remove_at m l = remove_at m (f <$> l).
Proof. revert m. induction l as [|x l IH]; intros [|m]; try done. cbn [remove_at fmap list_fmap]. by rewrite <- IH. Qed.

Lemma remove_at_Forall {A} (P : A → Prop) m l : Forall P l → Forall P (remove_at m l).
Proof. intros H. revert m. induction H; intros [|m]; simpl; try done; constructor; auto. Qed.

Lemma shift_left_Forall {A} (P : A → Prop) n j arr arr' :
  shift_left n j arr = Some arr' → Forall P arr → Forall P arr'.
Proof.
  revert j arr. induction n as [|n IH]; intros j arr H HP; simpl in H; [by simplify_eq|].
  apply bind_Some in H as (x & Hx & (arr1 & [_ ->]%buf_store_Some & H)%bind_Some).
  eapply IH; [exact H|]. apply Forall_insert; [done|]. by eapply Forall_lookup_1.
Qed.

Lemma try_dequeue_ok source m :
  mailbox_ok m →
  match first_index (matches source) (messages m) with
  | None => mailbox_try_dequeue source m = Some (None, m)
  | Some j => ∃ s m', mailbox_try_dequeue source m = Some (Some s, m') ∧ mailbox_ok m' ∧
      slot_ok s ∧ length (ms_data s) = CONFIG_MSG_DATA_MAX ∧ messages m !! j = Some (message_of s) ∧
      messages m' = remove_at j (messages m) ∧ mb_count m' = (mb_count m - 1)%nat ∧ waiting_on m' = waiting_on m
  end.
Proof.
  intros H. destruct (H). unfold mailbox_try_dequeue, messages. rewrite cells_ok by lia. cbn [mbind option_bind].
  rewrite <- first_index_wanted by done. set (sl := take (mb_count m) (mb_slots m)) in *.
  destruct (first_index (wanted source) sl) as [j|] eqn:E; [|done].
  pose proof (first_index_lt _ _ _ E) as Hj. assert (Hc : (j < mb_count m)%nat) by (unfold sl in Hj; rewrite length_take in Hj; lia).
  destruct (lookup_lt_is_Some_2 sl j Hj) as [s Hs]. assert (Hs' : mb_slots m !! j = Some s).
  { unfold sl in Hs. by rewrite lookup_take_lt in Hs. }
  rewrite Hs', (proj2 (Nat.ltb_lt 0 (mb_count m))) by lia. cbn [mbind option_bind].
  rewrite shift_left_ok by lia. cbn [mbind option_bind].
  set (arr := take (S j - 1) (mb_slots m) ++ _).
  assert (Hlen : length arr = CONFIG_MSG_QUEUE_LEN).
  { unfold arr. rewrite !length_app, !length_take, !length_drop. unfold CONFIG_MSG_QUEUE_LEN in *. lia. }
  assert (HP : Forall (fun s => length (ms_data s) = CONFIG_MSG_DATA_MAX) arr).
  { eapply (shift_left_Forall _ (mb_count m - S j) (S j) (mb_slots m)); [|done]. apply shift_left_ok; lia. }
  destruct (lookup_lt_is_Some_2 arr (mb_count m - 1)) as [last Hlast]; [lia|]. rewrite Hlast. cbn [mbind option_bind].
  rewrite buf_store_ok by lia. cbn [mbind option_bind].
  assert (Htake : take (mb_count m - 1) (<[(mb_count m - 1)%nat := reset_slot last]> arr) = remove_at j sl).
  { destruct (arr_remove_ok (reset_slot last) j (mb_count m) (mb_slots m)) as (arr' & Ha & _ & Ht & _); [lia..|].
    unfold arr_remove in Ha. rewrite shift_left_ok in Ha by lia. cbn [mbind option_bind] in Ha. fold arr in Ha.
    rewrite buf_store_ok in Ha by lia. simplify_eq. done. }
  exists s. eexists. split; [done|]. split.
  { constructor; simpl; rewrite ?length_insert; try done; [lia|rewrite Htake; by apply remove_at_Forall|].
    apply Forall_insert; [done|]. simpl. by eapply (Forall_lookup_1 _ _ _ _ HP). }
  split; [by eapply (Forall_lookup_1 _ _ _ _ mo_used0)|].
  split; [by eapply (Forall_lookup_1 _ _ _ _ mo_data0)|]. split; [by rewrite list_lookup_fmap, Hs|].
  simpl. rewrite Htake, remove_at_fmap. done.
Qed.

(** ** The invariant of the kernel *)

(** The scheduler represents an abstract state that satisfies its invariant. *)
Definition sched_ok (s : sched) : Prop := ∃ a, R s a ∧ inv a.

(** A used entry of a capability table grants something, and to one peer only. *)
Record caps_ok (cs : list ipc_cap_entry) : Prop := {
  co_length : length cs = CONFIG_IPC_CAPACITY_PER_PROC;
  co_unique j1 j2 c1 c2 : cs !! j1 = Some c1 → cs !! j2 = Some c2 → cap_used c1 = true → cap_used c2 = true →
    cap_peer c1 = cap_peer c2 → j1 = j2;
  co_rights j c : cs !! j = Some c → 0 ≤ cap_rights c < 4294967296
}.

Record endpoint_ok (p : ipc_proc) : Prop := {
  eo_mailbox : mailbox_ok (ipc_mailbox p);
  eo_caps : caps_ok (ipc_caps p);
  eo_shares : length (ipc_shares p) = CONFIG_IPC_MAX_SHARED_PER_PROC;
  eo_slots : length (channel_slots p) = CONFIG_PROCESS_CHANNEL_SLOTS;
  eo_count : (channel_count p ≤ CONFIG_PROCESS_CHANNEL_SLOTS)%nat
}.

(** Waiters and subscribers are processes of the table. *)
Definition members_ok (arr : list (option nat)) (count cap : nat) : Prop :=
  length arr = cap ∧ (count ≤ cap)%nat ∧
  Forall (fun w => ∃ i, w = Some i ∧ (i < MAX_PROCS)%nat) (take count arr).

Record channel_ok (c : ipc_channel) : Prop := {
  cho_name : length (ch_name c) = CONFIG_IPC_CHANNEL_NAME_MAX;
  cho_queue : length (ch_queue c) = CONFIG_IPC_CHANNEL_QUEUE_LEN;
  cho_head : (ch_head c < CONFIG_IPC_CHANNEL_QUEUE_LEN)%nat;
  cho_count : (ch_count c ≤ CONFIG_IPC_CHANNEL_QUEUE_LEN)%nat;
  cho_tail : ch_tail c = ((ch_head c + ch_count c) mod CONFIG_IPC_CHANNEL_QUEUE_LEN)%nat;
  cho_data : Forall (fun s => length (cm_data s) = CONFIG_MSG_DATA_MAX ∧ 0 ≤ cm_size s ≤ 256) (ch_queue c);
  cho_waiters : members_ok (ch_waiters c) (ch_waiter_count c) CONFIG_IPC_CHANNEL_WAITERS;
  cho_subscribers : members_ok (ch_subscribers c) (ch_subscriber_count c) CONFIG_IPC_CHANNEL_SUBSCRIBERS
}.

Record ipc_ok (v : ipc) : Prop := {
  io_procs : length (procs v) = MAX_PROCS;
  io_endpoints : Forall endpoint_ok (procs v);
  io_shares : length (share_table v) = CONFIG_IPC_MAX_SHARED_REGIONS;
  io_channels : length (channel_table v) = CONFIG_IPC_MAX_CHANNELS;
  io_channel : Forall channel_ok (channel_table v);
  io_services : length (service_channel_ids v) = IPC_SERVICE_COUNT
}.

Record kernel_ok (k : kernel) : Prop := { ko_sched : sched_ok (sys k); ko_ipc : ipc_ok (ipc_of k) }.

(** ** What the scheduler promises to this layer *)

Section scheduler.
Implicit Types s : sched.

Lemma sched_ok_procs s : sched_ok s → length (processes s) = MAX_PROCS.
Proof. intros (a & (H & _) & _). apply H. Qed.

Lemma sched_ok_current s i : sched_ok s → process_current s = Some i → (i < MAX_PROCS)%nat.
Proof.
  intros (a & HR & _ & Hc & _) Hi. destruct HR as (Hs & Hp & Hcur & _). unfold process_current in Hi.
  rewrite <- Hcur in Hi. destruct (Hc i Hi) as (p & Hl & _). rewrite Hp in Hl. unfold cores in Hl.
  apply lookup_lt_Some in Hl. rewrite length_fmap, (sh_procs _ _ _ Hs) in Hl. done.
Qed.

Lemma lookup_lt_procs s pid i : sched_ok s → process_lookup pid s = Some i → (i < MAX_PROCS)%nat.
Proof.
  intros Hs H. unfold process_lookup in H. destruct (pid <=? 0); [done|].
  apply first_index_lt in H. by rewrite sched_ok_procs in H.
Qed.

Lemma sched_ok_emit s e : sched_ok s → sched_ok (emit e s).
Proof. intros (a & HR & Hi). exists a. split; [by apply R_emit|done]. Qed.

Lemma sched_ok_exec place s o : sched_ok s → op_ok s o → sched_ok (SchedRun.exec place s o).
Proof.
  intros (a & HR & Hi) Ho. exists (aexec place a o). apply exec_ok; [done|done|]. by apply (op_ok_R s a o HR).
Qed.

Lemma sched_ok_wake s i : sched_ok s → (i < MAX_PROCS)%nat → sched_ok (process_wake i s).
Proof. intros Hs Hi. exact (sched_ok_exec stacks s (OWake i) Hs Hi). Qed.

Lemma sched_ok_block s now : sched_ok s → sched_ok (process_block_current now s).
Proof. intros Hs. exact (sched_ok_exec stacks s (OBlock now) Hs I). Qed.

Lemma sched_ok_wake_pid s pid : sched_ok s → sched_ok (wake_pid pid s).
Proof.
  intros Hs. unfold wake_pid. destruct (0 <? pid); [|done]. destruct (process_lookup pid s) as [i|] eqn:E; [|done].
  apply sched_ok_wake; [done|]. by eapply lookup_lt_procs.
Qed.
End scheduler.

#[export] Hint Resolve sched_ok_emit sched_ok_block sched_ok_wake sched_ok_wake_pid sched_ok_current lookup_lt_procs : kernel.

(** ** Writing an endpoint or a channel *)

Lemma proc_at_ok k i : kernel_ok k → (i < MAX_PROCS)%nat → ∃ p, proc_at k i = Some p ∧ endpoint_ok p.
Proof.
  intros [_ H] Hi. destruct (lookup_lt_is_Some_2 (procs (ipc_of k)) i) as [p Hp]; [by rewrite (io_procs _ H)|].
  exists p. split; [done|]. eapply (Forall_lookup_1 _ _ _ _ (io_endpoints _ H) Hp).
Qed.

Lemma table_at_ok k i : kernel_ok k → (i < MAX_PROCS)%nat → ∃ t, processes (sys k) !! i = Some t.
Proof. intros [H _] Hi. apply lookup_lt_is_Some_2. by rewrite sched_ok_procs. Qed.

Lemma ipc_ok_put_procs v i p : ipc_ok v → endpoint_ok p → ipc_ok (put_procs (<[i := p]> (procs v)) v).
Proof. intros [] Hp. constructor; simpl; rewrite ?length_insert; try done. by apply Forall_insert. Qed.

Lemma kernel_ok_put_proc k i p : kernel_ok k → endpoint_ok p → kernel_ok (put_proc i p k).
Proof. intros [? ?] Hp. constructor; [done|]. by apply ipc_ok_put_procs. Qed.

Lemma kernel_ok_put_channel k c ch : kernel_ok k → channel_ok ch → kernel_ok (put_channel c ch k).
Proof.
  intros [? []] Hc. constructor; [done|]. constructor; simpl; rewrite ?length_insert; try done. by apply Forall_insert.
Qed.

Lemma kernel_ok_put_share k n r : kernel_ok k → kernel_ok (put_share n r k).
Proof. intros [? []]. constructor; [done|]. constructor; simpl; rewrite ?length_insert; done. Qed.

Lemma kernel_ok_with_sys k f : kernel_ok k → sched_ok (f (sys k)) → kernel_ok (with_sys f k).
Proof. by intros [? ?]. Qed.

Lemma endpoint_ok_set_mailbox p m : endpoint_ok p → mailbox_ok m → endpoint_ok (set_mailbox m p).
Proof. by intros [] ?. Qed.

Lemma endpoint_ok_set_waiting p b : endpoint_ok p → endpoint_ok (set_waiting b p).
Proof. by intros []. Qed.

Lemma endpoint_ok_set_wait_channel p c : endpoint_ok p → endpoint_ok (set_wait_channel c p).
Proof. by intros []. Qed.

Lemma endpoint_ok_set_shares p ls n :
  endpoint_ok p → length ls = CONFIG_IPC_MAX_SHARED_PER_PROC → endpoint_ok (set_shares ls n p).
Proof. by intros [] ?. Qed.

Lemma endpoint_ok_set_caps p cs n : endpoint_ok p → caps_ok cs → endpoint_ok (set_caps cs n p).
Proof. by intros [] ?. Qed.

#[export] Hint Resolve kernel_ok_put_proc kernel_ok_put_channel kernel_ok_put_share kernel_ok_with_sys
  endpoint_ok_set_mailbox endpoint_ok_set_waiting endpoint_ok_set_wait_channel endpoint_ok_set_shares
  endpoint_ok_set_caps : kernel.

Lemma proc_at_put k i j p :
  (i < length (procs (ipc_of k)))%nat → proc_at (put_proc i p k) j = if decide (i = j) then Some p else proc_at k j.
Proof.
  intros Hi. unfold proc_at, put_proc. simpl. rewrite list_lookup_insert. repeat case_decide; try done; naive_solver lia.
Qed.

(** ** Capabilities *)

(** Whether [i] holds all of [rights] on [peer]: kernel threads and oneself
    always, and anybody on the kernel. *)
Definition holds_right (t : process) (p : ipc_proc) (peer rights : Z) : bool :=
  (rights =? 0) || bool_decide (kind t = THREAD_KIND_KERNEL) || (peer <=? 0) || (pid t =? peer) ||
  (Z.land (granted peer p) rights =? rights).

Lemma capability_check_spec k i t p peer rights :
  processes (sys k) !! i = Some t → proc_at k i = Some p →
  capability_check i peer rights k = Some (holds_right t p peer rights).
Proof.
  intros Ht Hp. unfold capability_check, holds_right. rewrite Ht, Hp. simpl.
  destruct (rights =? 0); [done|]. destruct (bool_decide _); [done|]. destruct (peer <=? 0); [done|].
  by destruct (pid t =? peer).
Qed.
End IpcSpec.
