(* ===== verification/IpcMail.v ===== *)
(** Sending and receiving: [ipc_send] appends to the target's queue of messages,
    [ipc_recv] takes the first message it asks for and is allowed to have, and
    neither touches anything else. *)

From S2P Require Import Prelude Arrays Sched SchedLists SchedSpec SchedRun Ipc IpcSpec.

Module IpcMail.

Import Arrays Sched Ipc IpcSpec.

(** The messages waiting for the process in slot [i]. *)
Definition inbox (k : kernel) (i : nat) : list message :=
  match proc_at k i with Some p => messages (ipc_mailbox p) | None => [] end.

(** The processes that wait on the mailbox of [i]. *)
Definition waiters_of (k : kernel) (i : nat) : list Z :=
  match proc_at k i with Some p => waiting_on (ipc_mailbox p) | None => [] end.

Lemma buffer_copy_ok dst src n :
  (n ≤ length src)%nat → (n ≤ length dst)%nat → buffer_copy dst (Some src) n = Some (take n src ++ drop n dst).
Proof.
  intros Hs Hd. unfold buffer_copy. rewrite cells_ok by done. cbn [mbind option_bind].
  rewrite buf_copy_ok by (rewrite length_take; lia). rewrite take_0, length_take, Nat.min_l by lia. done.
Qed.

(** Appending a message to a mailbox that has room. *)
Lemma mailbox_enqueue_ok k i p sender b size :
  kernel_ok k → proc_at k i = Some p → 0 ≤ size ≤ 256 → Z.to_nat size = length b →
  (length (messages (ipc_mailbox p)) < CONFIG_MSG_QUEUE_LEN)%nat →
  ∀ data, (data = None ∧ size = 0 ∨ ∃ rest, data = Some (b ++ rest)) →
  ∃ m, mailbox_enqueue i sender data size 0 k =
       Some (size, with_sys (wake_pid (match waiting_on (ipc_mailbox p) with [] => -1 | w :: _ => w end))
                     (put_proc i (set_mailbox m p) k)) ∧
    mailbox_ok m ∧ messages m = messages (ipc_mailbox p) ++ [(sender, b)] ∧
    waiting_on m = list.tail (waiting_on (ipc_mailbox p)).
Proof.
  intros Hk Hp Hsz Hb Hroom data Hdata. set (m := ipc_mailbox p) in *.
  assert (Hm : mailbox_ok m).
  { destruct (proc_at_ok k i Hk) as (q & Hq & Ho); [|rewrite Hp in Hq; injection Hq as <-; apply Ho].
    apply lookup_lt_Some in Hp. by rewrite (io_procs _ (ko_ipc _ Hk)) in Hp. }
  rewrite messages_length in Hroom by done. destruct (Hm) as [Hslots Hc Hw Hwc Hused Hdat].
  unfold mailbox_enqueue. rewrite Hp. cbn [mbind option_bind]. fold m. rewrite (proj2 (Nat.leb_gt _ _)) by lia.
  destruct (lookup_lt_is_Some_2 (mb_slots m) (mb_count m)) as [slot Hslot]; [lia|]. rewrite Hslot. cbn [mbind option_bind].
  pose proof (Forall_lookup_1 _ _ _ _ Hdat Hslot) as Hd. unfold CONFIG_MSG_DATA_MAX in Hd.
  assert (Hbytes : ∃ bytes, (if 0 <? size then buffer_copy (ms_data slot) data (Z.to_nat size) else Some (ms_data slot)) = Some bytes ∧
                   length bytes = 256%nat ∧ take (Z.to_nat size) bytes = b).
  { destruct (0 <? size) eqn:E; bool_prop.
    - destruct Hdata as [[_ ?]|(rest & ->)]; [lia|]. rewrite buffer_copy_ok by (rewrite ?length_app; lia).
      rewrite take_app_le, take_ge by lia. eexists. split; [done|]. rewrite length_app, length_drop. split; [lia|].
      by rewrite Hb, take_app_length.
    - exists (ms_data slot). split; [done|]. split; [done|]. replace size with 0 in * by lia.
      symmetry in Hb. by apply nil_length_inv in Hb as ->. }
  destruct Hbytes as (bytes & -> & Hblen & Hbt). cbn [mbind option_bind].
  set (new := {| ms_used := true; ms_sender := sender; ms_flags := 0; ms_size := u32 size; ms_data := bytes |}).
  destruct (push_ok new (mb_count m) (mb_slots m)) as (-> & Hl & Ht); [lia|]. cbn [mbind option_bind].
  set (m1 := {| mb_slots := _; mb_count := S (mb_count m) |}).
  assert (Hm1 : mailbox_ok m1).
  { constructor; simpl; try done; [congruence| |].
    - rewrite Ht. apply Forall_app. split; [done|]. constructor; [|done]. constructor; simpl; [done|]. rewrite u32_small; lia.
    - by apply Forall_insert. }
  destruct (pop_waiter_ok m1 Hm1) as (m2 & Hpop & Hm2 & Hs2 & Hc2 & Hw2). change (waiting_on m1) with (waiting_on m) in *.
  rewrite Hpop. cbn [mbind option_bind]. rewrite s32_small by lia. exists m2. split; [done|]. split; [done|]. split; [|done].
  unfold messages. rewrite Hs2, Hc2. simpl mb_slots. simpl mb_count. rewrite Ht, fmap_app. simpl.
  unfold message_of at 2. simpl. by rewrite u32_small, Hbt by lia.
Qed.

(** ** Sending *)

(** The process that calls, if there is one, and the pid messages carry. *)
Definition caller_pid (k : kernel) : Z :=
  match process_current (sys k) with
  | Some i => match processes (sys k) !! i with Some t => pid t | None => 0 end
  | None => 0
  end.

(** The caller holds [rights] on [peer]. *)
Definition caller_may (k : kernel) (peer rights : Z) : bool :=
  match process_current (sys k) with
  | Some i =>
      match processes (sys k) !! i, proc_at k i with
      | Some t, Some p => holds_right t p peer rights
      | _, _ => false
      end
  | None => true
  end.

(** The target of a send that the arguments, the process table and the
    capabilities allow. *)
Definition send_target (k : kernel) (target : Z) (msg : option (list Z)) (size : Z) : option nat :=
  if ipc_initialized (ipc_of k) && (0 <? target) && (size <=? 256) && negb ((0 <? size) && bool_decide (msg = None)) &&
     caller_may k target IPC_RIGHT_SEND
  then process_lookup target (sys k) else None.

(** The queue of a process after a message has been handed to it. *)
Definition delivered (k k' : kernel) (i : nat) (sender : Z) (b : list Z) (r : Z) : Prop :=
  if decide (length (inbox k i) < CONFIG_MSG_QUEUE_LEN)%nat then
    r = Z.of_nat (length b) ∧ inbox k' i = inbox k i ++ [(sender, b)] ∧ (∀ j, j ≠ i → proc_at k' j = proc_at k j) ∧
    sys k' = wake_pid (match waiters_of k i with [] => -1 | w :: _ => w end) (sys k) ∧
    waiters_of k' i = list.tail (waiters_of k i)
  else r = -1 ∧ k' = k.

Lemma deliver_ok k i sender b data size :
  kernel_ok k → (i < MAX_PROCS)%nat → 0 ≤ size ≤ 256 → Z.to_nat size = length b →
  (data = None ∧ size = 0 ∨ ∃ rest, data = Some (b ++ rest)) →
  ∃ r k', mailbox_enqueue i sender data size 0 k = Some (r, k') ∧ kernel_ok k' ∧ delivered k k' i sender b r.
Proof.
  intros Hk Hi Hsz Hb Hdata. destruct (proc_at_ok k i Hk Hi) as (p & Hp & Hpo).
  assert (Hin : inbox k i = messages (ipc_mailbox p)) by (unfold inbox; by rewrite Hp).
  assert (Hlen : (i < length (procs (ipc_of k)))%nat) by (by rewrite (io_procs _ (ko_ipc _ Hk))).
  unfold delivered. case_decide as Hroom; rewrite Hin in Hroom.
  - destruct (mailbox_enqueue_ok k i p sender b size Hk Hp Hsz Hb Hroom data Hdata) as (m & Hq & Hm & Hms & Hmw).
    assert (Hwt : waiters_of k i = waiting_on (ipc_mailbox p)) by (unfold waiters_of; by rewrite Hp).
    eexists _, _. split; [exact Hq|]. split; [|split; [lia|split; [|split; [|split]]]].
    + apply kernel_ok_with_sys; [apply kernel_ok_put_proc; auto with kernel|]. apply sched_ok_wake_pid. apply Hk.
    + unfold inbox at 1. change (proc_at (with_sys _ ?x) i) with (proc_at x i).
      rewrite proc_at_put, decide_True by done. simpl. by rewrite Hms, Hin.
    + intros j Hj. change (proc_at (with_sys _ ?x) j) with (proc_at x j). by rewrite proc_at_put, decide_False by done.
    + by rewrite Hwt.
    + rewrite Hwt. unfold waiters_of. change (proc_at (with_sys _ ?x) i) with (proc_at x i).
      rewrite proc_at_put, decide_True by done. done.
  - exists (-1), k. split; [|done]. unfold mailbox_enqueue. rewrite Hp. simpl.
    rewrite messages_length in Hroom by apply Hpo. by rewrite (proj2 (Nat.leb_le _ _)) by lia.
Qed.

(** The bytes that [ipc_send] copies to its stack. *)
Lemma stage_ok msg size :
  0 ≤ size ≤ 256 → (∀ b, msg = Some b → size ≤ Z.of_nat (length b)) → (0 <? size) && bool_decide (msg = None) = false →
  ∃ buffer, (if 0 <? size then buffer_copy (replicate CONFIG_MSG_DATA_MAX 0) msg (Z.to_nat size)
             else Some (replicate CONFIG_MSG_DATA_MAX 0)) = Some buffer ∧
    ((if 0 <? size then Some buffer else None) = None ∧ size = 0 ∨
     ∃ rest, (if 0 <? size then Some buffer else None) = Some (take (Z.to_nat size) (default [] msg) ++ rest)).
Proof.
  intros Hs Hmsg En. destruct (0 <? size) eqn:E; bool_prop; [|eexists; split; [done|left; split; [done|lia]]].
  destruct msg as [b|]; [|by destruct En]. specialize (Hmsg b eq_refl). change (default [] (Some b)) with b.
  rewrite buffer_copy_ok by (rewrite ?length_replicate; unfold CONFIG_MSG_DATA_MAX; lia). eauto.
Qed.

(** A caller without the right gets -1, whatever it sends. *)
Lemma send_denied k target msg size :
  kernel_ok k → caller_may k target IPC_RIGHT_SEND = false → ipc_send target msg size k = Some (-1, k).
Proof.
  intros Hk Hno. unfold ipc_send. repeat (case_match; [done|]). destruct (process_lookup target (sys k)); [|done].
  unfold caller_may in Hno. destruct (process_current (sys k)) as [c|] eqn:Ec; [|done].
  assert (Hc : (c < MAX_PROCS)%nat) by (eapply sched_ok_current; [apply Hk|done]).
  destruct (table_at_ok k c Hk Hc) as [t Ht]. destruct (proc_at_ok k c Hk Hc) as (q & Hq & _).
  rewrite Ht, Hq in Hno. by rewrite (capability_check_spec k c t q), Hno.
Qed.

Lemma send_ok k target msg size :
  kernel_ok k → 0 ≤ size → (∀ b, msg = Some b → size ≤ Z.of_nat (length b)) →
  ∃ r k', ipc_send target msg size k = Some (r, k') ∧ kernel_ok k' ∧
    match send_target k target msg size with
    | Some i => delivered k k' i (caller_pid k) (take (Z.to_nat size) (default [] msg)) r
    | None => r = -1 ∧ k' = k
    end.
Proof.
  intros Hk Hsz Hmsg. unfold ipc_send, send_target. destruct (ipc_initialized (ipc_of k)); [|by exists (-1), k].
  cbn [negb andb]. change (Z.of_nat CONFIG_MSG_DATA_MAX) with 256.
  destruct (Z.leb_spec target 0) as [Ht|Ht].
  { exists (-1), k. by rewrite (proj2 (Z.ltb_ge 0 target)) by lia. }
  rewrite (proj2 (Z.ltb_lt 0 target)) by lia. cbn [andb].
  destruct (Z.ltb_spec 256 size) as [Hs|Hs].
  { exists (-1), k. by rewrite (proj2 (Z.leb_gt size 256)) by lia. }
  rewrite (proj2 (Z.leb_le size 256)) by lia. cbn [andb].
  destruct ((0 <? size) && bool_decide (msg = None)) eqn:En; [by exists (-1), k|]. cbn [negb andb].
  unfold caller_may, caller_pid. destruct (process_lookup target (sys k)) as [i|] eqn:El.
  2:{ exists (-1), k. by destruct (match process_current (sys k) with Some _ => _ | None => _ end). }
  assert (Hi : (i < MAX_PROCS)%nat) by (eapply lookup_lt_procs; [apply Hk|done]).
  assert (Hlen : Z.to_nat size = length (take (Z.to_nat size) (default [] msg))).
  { rewrite length_take. destruct msg as [b|]; simpl; [specialize (Hmsg b eq_refl); lia|].
    rewrite andb_true_r in En. bool_prop. lia. }
  destruct (stage_ok msg size ltac:(lia) Hmsg En) as (buffer & Hb & Hdata).
  destruct (process_current (sys k)) as [c|] eqn:Ec.
  - destruct (table_at_ok k c Hk) as [t Htc]; [by eapply sched_ok_current; [apply Hk|]|].
    destruct (proc_at_ok k c Hk) as (q & Hq & _); [by eapply sched_ok_current; [apply Hk|]|].
    rewrite (capability_check_spec k c t q) by done. rewrite Htc, Hq. cbn [mbind option_bind].
    destruct (holds_right t q target IPC_RIGHT_SEND); [|by exists (-1), k]. cbn [negb].
    rewrite Hb. cbn [mbind option_bind fmap option_fmap option_map]. by apply deliver_ok.
  - cbn [mbind option_bind negb]. rewrite Hb. cbn [mbind option_bind]. by apply deliver_ok.
Qed.

(** C29: what a send does.  With [size] readable bytes at [msg], [ipc_send]
    completes inside its arrays and keeps the kernel's invariant.  If IPC is up,
    the arguments are valid, the target exists, the caller holds the right to send
    to it (or is a kernel thread) and the target has fewer than 16 messages
    waiting, it returns [size], the message with the caller's pid is the last one
    in the target's queue, the first process on the mailbox's list of waiters is
    taken off it and woken, and nothing else changes; in every other case it returns -1 and changes nothing. *)
Theorem ipc_send_refines k target msg size :
  kernel_ok k → 0 ≤ size → (∀ b, msg = Some b → size ≤ Z.of_nat (length b)) →
  ∃ r k', ipc_send target msg size k = Some (r, k') ∧ kernel_ok k' ∧
    match send_target k target msg size with
    | Some i => delivered k k' i (caller_pid k) (take (Z.to_nat size) (default [] msg)) r
    | None => r = -1 ∧ k' = k
    end.
Proof. apply send_ok. Qed.

(** ** Receiving *)

(** What a receive takes out of a queue: the first message that [source] asks for
    and [ok] allows; messages that [source] asks for and [ok] forbids before it are
    dropped.  The rest stays in order. *)
Fixpoint receive (ok : Z → bool) (source : Z) (l : list message) : option message * list message :=
  match l with
  | [] => (None, [])
  | x :: l' =>
      if matches source x then
        if ok x.1 then (Some x, l') else receive ok source l'
      else let '(m, r) := receive ok source l' in (m, x :: r)
  end.

Lemma receive_none ok source l : first_index (matches source) l = None → receive ok source l = (None, l).
Proof.
  induction l as [|x l IH]; intros H; simpl in *; [done|]. destruct (matches source x); [done|].
  apply fmap_None in H. by rewrite (IH H).
Qed.

Lemma receive_first ok source l j x :
  first_index (matches source) l = Some j → l !! j = Some x →
  receive ok source l = if ok x.1 then (Some x, remove_at j l) else receive ok source (remove_at j l).
Proof.
  revert j. induction l as [|y l IH]; intros j H Hx; simpl in *; [done|].
  destruct (matches source y) eqn:E; [by simplify_eq/=|].
  apply fmap_Some in H as (j' & Hj & ->). simpl in Hx. rewrite (IH j' Hj Hx).
  cbn [remove_at]. destruct (ok x.1); [done|]. simpl. by rewrite E.
Qed.

(** The caller's buffer after a message has been copied to it. *)
Definition fill (buffer : option (list Z)) (max : Z) (b : list Z) : option (list Z) :=
  let n := Nat.min (length b) (Z.to_nat max) in (fun d => take n b ++ drop n d) <$> buffer.

(** The kernel after a receive of the process [i] that leaves [rest] in its queue. *)
Record received (k k' : kernel) (i : nat) (rest : list message) : Prop := {
  rc_ok : kernel_ok k';
  rc_inbox : inbox k' i = rest;
  rc_others j : j ≠ i → proc_at k' j = proc_at k j;
  rc_table : processes (sys k') = processes (sys k) ∧ current_process (sys k') = current_process (sys k)
}.

Definition recv_post (t : process) (k : kernel) (i : nat) (buffer : option (list Z)) (max : Z)
  (m : option message) (rest : list message) (out : recv_result) : Prop :=
  match m, out with
  | Some (_, b), RReturn r buffer' k' => r = Z.of_nat (length b) ∧ buffer' = fill buffer max b ∧ received k k' i rest
  | None, RReturn r buffer' k' => buffer' = buffer ∧ received k k' i rest ∧
      if decide (kind t = THREAD_KIND_KERNEL) then r = 0
      else r = -1 ∧ (0 < pid t → length (waiters_of k' i) = CONFIG_IPC_ENDPOINT_WAITERS)
  | None, RWait k' => kind t = THREAD_KIND_USER ∧ received k k' i rest ∧ pid t ∈ waiters_of k' i
  | _, _ => False
  end.

Lemma fill_ok buffer max s :
  slot_ok s → length (ms_data s) = CONFIG_MSG_DATA_MAX → 0 ≤ max →
  (∀ d, buffer = Some d → max ≤ Z.of_nat (length d)) →
  let to_copy := if ms_size s <? max then ms_size s else max in
  match buffer with
  | Some b => if 0 <? to_copy then Some <$> buffer_copy b (Some (ms_data s)) (Z.to_nat to_copy) else Some (Some b)
  | None => Some None
  end = Some (fill buffer max (message_of s).2).
Proof.
  intros [_ Hsz] Hd Hm Hb to_copy. unfold CONFIG_MSG_DATA_MAX in Hd. destruct buffer as [b|]; [|done].
  specialize (Hb b eq_refl). unfold fill, message_of. cbn [fmap option_fmap option_map snd].
  assert (Hn : Nat.min (length (take (Z.to_nat (ms_size s)) (ms_data s))) (Z.to_nat max) = Z.to_nat to_copy).
  { rewrite length_take. unfold to_copy. destruct (Z.ltb_spec (ms_size s) max); lia. }
  rewrite Hn. assert (0 ≤ to_copy ≤ ms_size s ∧ to_copy ≤ max) by (unfold to_copy; destruct (Z.ltb_spec (ms_size s) max); lia).
  destruct (0 <? to_copy) eqn:E; bool_prop.
  - rewrite buffer_copy_ok by lia. cbn [fmap option_fmap option_map]. by rewrite take_take, Nat.min_l by lia.
  - replace to_copy with 0 by lia. by rewrite take_0, drop_0.
Qed.

Lemma received_put k k' i p m rest :
  received k k' i rest → proc_at k' i = Some p → endpoint_ok (set_mailbox m p) →
  received k (put_proc i (set_mailbox m p) k') i (messages m).
Proof.
  intros [Hok Hin Hoth Htab] Hp Hm. constructor; [auto with kernel| | |done].
  - unfold inbox. rewrite proc_at_put, decide_True by (done || by eapply lookup_lt_Some). done.
  - intros j Hj. rewrite proc_at_put, decide_False by (done || by eapply lookup_lt_Some). auto.
Qed.

Lemma received_trans k1 k2 k3 i l1 l2 : received k1 k2 i l1 → received k2 k3 i l2 → received k1 k3 i l2.
Proof.
  intros [_ _ H1 [H2 H3]] [Hok Hin H4 [H5 H6]]. constructor; [done..| |split; congruence].
  intros j Hj. by rewrite H4, H1.
Qed.

Lemma recv_post_trans t k1 k2 i buffer max l1 m rest out :
  received k1 k2 i l1 → recv_post t k2 i buffer max m rest out → recv_post t k1 i buffer max m rest out.
Proof.
  intros H. unfold recv_post. destruct m as [[s b]|], out as [r b' k3|k3]; try done;
    intros H'; split_and!; try apply H'; eapply received_trans; try exact H; apply H'.
Qed.

Lemma received_log k i e :
  kernel_ok k → (i < MAX_PROCS)%nat → received k (with_sys (emit e) k) i (inbox k i).
Proof. intros Hk Hi. constructor; [|done..]. apply kernel_ok_with_sys; [done|]. apply sched_ok_emit, Hk. Qed.

Lemma received_refl k i : kernel_ok k → received k k i (inbox k i).
Proof. by constructor. Qed.

(** A round that takes the message [s] out of the mailbox. *)
Lemma recv_loop_take fuel i source buffer max k t p s m :
  processes (sys k) !! i = Some t → proc_at k i = Some p →
  mailbox_try_dequeue source (ipc_mailbox p) = Some (Some s, m) →
  slot_ok s → length (ms_data s) = CONFIG_MSG_DATA_MAX → 0 ≤ max → (∀ d, buffer = Some d → max ≤ Z.of_nat (length d)) →
  let k1 := put_proc i (set_mailbox m p) k in
  recv_loop (S fuel) i source buffer max k =
  if holds_right t p (ms_sender s) IPC_RIGHT_RECV
  then Some (RReturn (Z.of_nat (length (message_of s).2)) (fill buffer max (message_of s).2)
               (put_proc i (set_waiting false (set_mailbox m p)) k1))
  else recv_loop fuel i source buffer max
         (with_sys (emit (ELog (lit "ipc: dropping message without recv capability"))) k1).
Proof.
  intros Ht Hp Hd Hs Hlen Hmax Hb k1. cbn [recv_loop]. rewrite Ht, Hp. cbn [mbind option_bind]. rewrite Hd. cbn [mbind option_bind].
  fold k1. assert (Hp1 : proc_at k1 i = Some (set_mailbox m p)).
  { unfold k1. rewrite proc_at_put, decide_True by (done || by eapply lookup_lt_Some). done. }
  rewrite (capability_check_spec k1 i t (set_mailbox m p)) by done. cbn [mbind option_bind].
  change (holds_right t (set_mailbox m p)) with (holds_right t p).
  destruct (holds_right t p (ms_sender s) IPC_RIGHT_RECV); [|done]. cbn [negb].
  rewrite fill_ok by done. cbn [mbind option_bind]. rewrite Hp1. cbn [mbind option_bind]. do 2 f_equal.
  destruct Hs as [_ Hsz]. unfold CONFIG_MSG_DATA_MAX in Hlen. simpl. rewrite length_take, s32_small; lia.
Qed.

(** A round that finds no message. *)
Lemma recv_loop_wait fuel i source buffer max k t p :
  kernel_ok k → (i < MAX_PROCS)%nat → processes (sys k) !! i = Some t → proc_at k i = Some p →
  mailbox_try_dequeue source (ipc_mailbox p) = Some (None, ipc_mailbox p) →
  ∃ out, recv_loop (S fuel) i source buffer max k = Some out ∧ recv_post t k i buffer max None (inbox k i) out.
Proof.
  intros Hk Hi Ht Hp Hd. cbn [recv_loop]. rewrite Ht, Hp. cbn [mbind option_bind]. rewrite Hd. cbn [mbind option_bind].
  assert (Hpo : endpoint_ok p) by (eapply (Forall_lookup_1 _ _ _ _ (io_endpoints _ (ko_ipc _ Hk))); exact Hp).
  assert (Hmsg : inbox k i = messages (ipc_mailbox p)) by (unfold inbox; by rewrite Hp).
  assert (Hlt : (i < length (procs (ipc_of k)))%nat) by (by eapply lookup_lt_Some).
  pose proof (received_put k k i p (ipc_mailbox p) _ (received_refl k i Hk) Hp (endpoint_ok_set_mailbox _ _ Hpo (eo_mailbox _ Hpo))) as Hr.
  rewrite <- Hmsg in Hr.
  destruct (bool_decide (kind t = THREAD_KIND_KERNEL)) eqn:E; bool_prop.
  { eexists. split; [done|]. simpl. split; [done|]. split; [done|]. by rewrite decide_True. }
  assert (Hu : kind t = THREAD_KIND_USER) by (destruct (kind t); done).
  destruct (push_waiter_ok (pid t) (ipc_mailbox p) (eo_mailbox _ Hpo)) as (b & m & -> & Hm & Hs & Hc & Htrue & Hfalse).
  cbn [mbind option_bind].
  pose proof (received_put k k i p m _ (received_refl k i Hk) Hp (endpoint_ok_set_mailbox _ _ Hpo Hm)) as Hr2.
  assert (Hm2 : messages m = inbox k i) by (unfold messages; by rewrite Hs, Hc). rewrite Hm2 in Hr2.
  set (k1 := put_proc i (set_mailbox (ipc_mailbox p) p) k) in *.
  assert (Hput : put_proc i (set_mailbox m p) k1 = put_proc i (set_mailbox m p) k).
  { unfold k1, put_proc. simpl. by rewrite list_insert_insert_eq. }
  rewrite Hput. assert (Hw : waiters_of (put_proc i (set_mailbox m p) k) i = waiting_on m).
  { unfold waiters_of. by rewrite proc_at_put, decide_True. }
  destruct b; cbn [negb]; eexists; (split; [done|]); simpl; rewrite Hw.
  - auto.
  - split; [done|]. split; [done|]. rewrite decide_False by done. split; [done|].
    destruct Hfalse as (-> & Hf); [done|]. intros Hpos. by destruct (Hf Hpos).
Qed.

Lemma recv_loop_ok fuel i source buffer max k t p :
  kernel_ok k → (i < MAX_PROCS)%nat → processes (sys k) !! i = Some t → proc_at k i = Some p →
  0 ≤ max → (∀ d, buffer = Some d → max ≤ Z.of_nat (length d)) →
  (length (messages (ipc_mailbox p)) < fuel)%nat →
  ∃ out, recv_loop fuel i source buffer max k = Some out ∧
    let '(m, rest) := receive (fun s => holds_right t p s IPC_RIGHT_RECV) source (messages (ipc_mailbox p)) in
    recv_post t k i buffer max m rest out.
Proof.
  revert k p. induction fuel as [|fuel IH]; intros k p Hk Hi Ht Hp Hmax Hb Hf; [lia|].
  assert (Hpo : endpoint_ok p) by (eapply (Forall_lookup_1 _ _ _ _ (io_endpoints _ (ko_ipc _ Hk))); exact Hp).
  assert (Hin : inbox k i = messages (ipc_mailbox p)) by (unfold inbox; by rewrite Hp).
  assert (Hlt : (i < length (procs (ipc_of k)))%nat) by (by eapply lookup_lt_Some).
  pose proof (try_dequeue_ok source (ipc_mailbox p) (eo_mailbox _ Hpo)) as Hd.
  destruct (first_index (matches source) (messages (ipc_mailbox p))) as [j|] eqn:Ej.
  2:{ rewrite receive_none by done. rewrite <- Hin. by apply (recv_loop_wait fuel i source buffer max k t p). }
  destruct Hd as (s & m & Hd & Hm & Hs & Hlen & Hj & Hrest & _). rewrite (receive_first _ source _ j _ Ej Hj).
  rewrite (recv_loop_take fuel i source buffer max k t p s m) by done. simpl fst.
  assert (Hem : endpoint_ok (set_mailbox m p)) by auto with kernel.
  pose proof (received_put k k i p m _ (received_refl k i Hk) Hp Hem) as Hr. set (k1 := put_proc i (set_mailbox m p) k) in *.
  assert (Hp1 : proc_at k1 i = Some (set_mailbox m p)) by (unfold k1; by rewrite proc_at_put, decide_True).
  destruct (holds_right t p (ms_sender s) IPC_RIGHT_RECV) eqn:Eok.
  - eexists. split; [done|]. unfold message_of at 1. cbn [recv_post]. split; [done|]. split; [done|].
    rewrite <- Hrest.
    constructor.
    + apply kernel_ok_put_proc; [apply Hr|]. auto with kernel.
    + unfold inbox. rewrite proc_at_put, decide_True by (done || by eapply lookup_lt_Some). done.
    + intros n Hn. rewrite proc_at_put, decide_False by (done || by eapply lookup_lt_Some). by apply Hr.
    + apply Hr.
  - set (e := ELog _). set (k2 := with_sys (emit e) k1).
    assert (Hr2 : received k k2 i (messages m)).
    { eapply received_trans; [exact Hr|]. rewrite <- (rc_inbox _ _ _ _ Hr). apply received_log; [apply Hr|done]. }
    destruct (IH k2 (set_mailbox m p)) as (out & Hout & Hpost); try done; [apply Hr2| |].
    { simpl. pose proof (first_index_lt _ _ _ Ej). rewrite Hrest, remove_at_length by done. lia. }
    exists out. split; [done|]. simpl ipc_mailbox in Hpost. rewrite <- Hrest.
    change (holds_right t (set_mailbox m p)) with (holds_right t p) in Hpost.
    destruct (receive _ source (messages m)) as [m' rest]. eapply recv_post_trans; [exact Hr2|done].
Qed.

Lemma recv_begin_receives k i t p source buffer max :
  kernel_ok k → ipc_initialized (ipc_of k) = true → process_current (sys k) = Some i →
  processes (sys k) !! i = Some t → proc_at k i = Some p →
  0 ≤ max → (0 < max → is_Some buffer) → (∀ d, buffer = Some d → max ≤ Z.of_nat (length d)) →
  ∃ out, ipc_recv_begin source buffer max k = Some out ∧
    let '(m, rest) := receive (fun s => holds_right t p s IPC_RIGHT_RECV) source (inbox k i) in
    recv_post t k i buffer max m rest out.
Proof.
  intros Hk Hinit Hc Ht Hp Hmax Hnn Hb. unfold ipc_recv_begin. rewrite Hinit, Hc. cbn [negb].
  assert (Hg : (0 <? max) && bool_decide (buffer = None) = false).
  { destruct (0 <? max) eqn:E; bool_prop; [|done]. destruct (Hnn E) as [d ->]. done. }
  rewrite Hg. assert (Hin : inbox k i = messages (ipc_mailbox p)) by (unfold inbox; by rewrite Hp). rewrite Hin.
  assert (Hi : (i < MAX_PROCS)%nat) by (eapply sched_ok_current; [apply Hk|done]).
  destruct (proc_at_ok k i Hk Hi) as (q & Hq & Hqo). rewrite Hp in Hq. injection Hq as <-.
  apply recv_loop_ok; try done. rewrite messages_length by apply Hqo. unfold RECV_FUEL.
  pose proof (mo_count _ (eo_mailbox _ Hqo)). lia.
Qed.

(** C30: what a receive does.  A call of [ipc_recv] in the current process, with
    a buffer of at least [max] bytes, runs inside its arrays and ends its loop: it
    returns or goes to block.  It takes the oldest message that comes from the
    source asked for and from a sender the process holds the receive right on; older
    messages from the source that it may not receive are dropped, all other messages
    stay in order, and no other process is touched.  It returns the full size of the
    message and fills the buffer with at most [max] of its bytes.  Without a message
    a kernel thread gets 0, and a user process blocks, on the mailbox's list of
    waiters, or gets -1 when that list is full (or the process
    has no pid). *)
Theorem ipc_recv_refines k i t p source buffer max :
  kernel_ok k → ipc_initialized (ipc_of k) = true → process_current (sys k) = Some i →
  processes (sys k) !! i = Some t → proc_at k i = Some p →
  0 ≤ max → (0 < max → is_Some buffer) → (∀ d, buffer = Some d → max ≤ Z.of_nat (length d)) →
  ∃ out, ipc_recv_begin source buffer max k = Some out ∧
    let '(m, rest) := receive (fun s => holds_right t p s IPC_RIGHT_RECV) source (inbox k i) in
    recv_post t k i buffer max m rest out.
Proof. apply recv_begin_receives. Qed.
End IpcMail.
