(* ===== verification/IpcCaps.v ===== *)
(** Capabilities: the table of a process as a map from peers to rights, what
    granting, revoking and querying do to it, and that sending obeys it. *)

From S2P Require Import Prelude Arrays Sched SchedLists SchedSpec SchedRun Ipc IpcSpec IpcMail.

Module IpcCaps.

Import Arrays Sched Ipc IpcSpec IpcMail.

(** An entry for [peer]. *)
Definition entry_for (peer : Z) (c : ipc_cap_entry) : bool := cap_used c && (cap_peer c =? peer).

(** The rights a table grants on [peer]: 0 without an entry. *)
Definition rights_in (cs : list ipc_cap_entry) (peer : Z) : Z :=
  match first_index (entry_for peer) cs with
  | Some j => match cs !! j with Some c => cap_rights c | None => 0 end
  | None => 0
  end.

Lemma granted_rights p peer : granted peer p = rights_in (ipc_caps p) peer.
Proof. done. Qed.

Lemma rights_in_entry cs j c peer :
  caps_ok cs → cs !! j = Some c → entry_for peer c = true → first_index (entry_for peer) cs = Some j ∧ rights_in cs peer = cap_rights c.
Proof.
  intros H Hj Hc. assert (Hf : first_index (entry_for peer) cs = Some j).
  { apply (first_index_unique _ cs j c Hj Hc). intros j' c' Hj' Hc'. unfold entry_for in *. bool_prop.
    by apply (co_unique _ H j' j c' c); try congruence. }
  split; [done|]. unfold rights_in. by rewrite Hf, Hj.
Qed.

Lemma rights_in_none cs peer :
  (∀ j c, cs !! j = Some c → entry_for peer c = false) → first_index (entry_for peer) cs = None ∧ rights_in cs peer = 0.
Proof.
  intros H. assert (Hf : first_index (entry_for peer) cs = None) by (by apply first_index_None).
  split; [done|]. unfold rights_in. by rewrite Hf.
Qed.

Lemma rights_in_range cs peer : caps_ok cs → 0 ≤ rights_in cs peer < 4294967296.
Proof.
  intros H. unfold rights_in. destruct (first_index _ cs) as [j|]; [|lia]. destruct (cs !! j) as [c|] eqn:E; [|lia].
  by apply (co_rights _ H j c).
Qed.

(** Writing the only entry that is or becomes [target]'s changes [target]'s rights
    and no others. *)
Lemma caps_write cs j c0 c1 target :
  caps_ok cs → cs !! j = Some c0 → (cap_used c0 = true → cap_peer c0 = target) →
  (∀ j' c', j' ≠ j → cs !! j' = Some c' → entry_for target c' = false) →
  (cap_used c1 = true → cap_peer c1 = target) → 0 ≤ cap_rights c1 < 4294967296 →
  caps_ok (<[j := c1]> cs) ∧ rights_in (<[j := c1]> cs) target = (if cap_used c1 then cap_rights c1 else 0) ∧
  ∀ x, x ≠ target → rights_in (<[j := c1]> cs) x = rights_in cs x.
Proof.
  intros H Hj H0 Hoth H1 Hr. assert (Hlt : (j < length cs)%nat) by (by eapply lookup_lt_Some).
  assert (Hl : ∀ n, <[j := c1]> cs !! n = if decide (j = n) then Some c1 else cs !! n).
  { intros n. rewrite list_lookup_insert. repeat case_decide; try done; naive_solver lia. }
  assert (Hok : caps_ok (<[j := c1]> cs)).
  { constructor.
    - rewrite length_insert. apply H.
    - intros j1 j2 a b Ha Hb Hua Hub Hp. rewrite Hl in Ha, Hb.
      destruct (decide (j = j1)) as [E1|E1], (decide (j = j2)) as [E2|E2]; [congruence| | |].
      + injection Ha as ->. specialize (Hoth j2 b ltac:(congruence) Hb). unfold entry_for in Hoth.
        rewrite Hub, <- Hp, H1, Z.eqb_refl in Hoth by done. done.
      + injection Hb as ->. specialize (Hoth j1 a ltac:(congruence) Ha). unfold entry_for in Hoth.
        rewrite Hua, Hp, H1, Z.eqb_refl in Hoth by done. done.
      + by apply (co_unique _ H j1 j2 a b).
    - intros n c Hc. rewrite Hl in Hc. case_decide; [by simplify_eq|]. by apply (co_rights _ H n). }
  split; [done|]. split.
  - destruct (cap_used c1) eqn:Eu.
    + apply (rights_in_entry _ j c1); [done|by rewrite Hl, decide_True|]. unfold entry_for. by rewrite Eu, H1, Z.eqb_refl.
    + apply rights_in_none. intros n c Hc. rewrite Hl in Hc. case_decide; [simplify_eq; unfold entry_for; by rewrite Eu|].
      apply (Hoth n); [congruence|done].
  - intros x Hx. destruct (first_index (entry_for x) cs) as [n|] eqn:En.
    + apply first_index_Some in En as (c & Hc & Hec & _).
      assert (j ≠ n). { intros ->. simplify_eq. unfold entry_for in Hec. bool_prop. rewrite H0 in * by done. congruence. }
      rewrite (proj2 (rights_in_entry cs n c x H Hc Hec)).
      apply (rights_in_entry _ n c); [done|by rewrite Hl, decide_False|done].
    + rewrite first_index_None in En. rewrite (proj2 (rights_in_none cs x En)). apply rights_in_none.
      intros n c Hc. rewrite Hl in Hc. case_decide; [|by apply (En n)]. simplify_eq. unfold entry_for.
      destruct (cap_used c) eqn:Eu; [|done]. rewrite H1 by done. simpl. by apply Z.eqb_neq.
Qed.

(** The kernel after the table of [i] was changed for [target] only. *)
Record recapped (k k' : kernel) (i : nat) (target rights : Z) : Prop := {
  rd_ok : kernel_ok k';
  rd_rights p p' : proc_at k i = Some p → proc_at k' i = Some p' →
    granted target p' = rights ∧ ∀ x, x ≠ target → granted x p' = granted x p;
  rd_others j : j ≠ i → proc_at k' j = proc_at k j;
  rd_sys : sys k' = sys k;
  rd_inbox : inbox k' i = inbox k i;
  rd_init : ipc_initialized (ipc_of k') = ipc_initialized (ipc_of k)
}.

Lemma recapped_put k i p j c0 c1 n target :
  kernel_ok k → proc_at k i = Some p → ipc_caps p !! j = Some c0 → (cap_used c0 = true → cap_peer c0 = target) →
  (∀ j' c', j' ≠ j → ipc_caps p !! j' = Some c' → entry_for target c' = false) →
  (cap_used c1 = true → cap_peer c1 = target) → 0 ≤ cap_rights c1 < 4294967296 →
  recapped k (put_proc i (set_caps (<[j := c1]> (ipc_caps p)) n p) k) i target (if cap_used c1 then cap_rights c1 else 0).
Proof.
  intros Hk Hp Hj H0 Hoth H1 Hr. assert (Hlt : (i < length (procs (ipc_of k)))%nat) by (by eapply lookup_lt_Some).
  assert (Hpo : endpoint_ok p) by (eapply (Forall_lookup_1 _ _ _ _ (io_endpoints _ (ko_ipc _ Hk))); exact Hp).
  destruct (caps_write (ipc_caps p) j c0 c1 target (eo_caps _ Hpo) Hj H0 Hoth H1 Hr) as (Hok & Ht & Hx).
  constructor; try done.
  - auto with kernel.
  - intros q q' Hq Hq'. rewrite Hp in Hq. injection Hq as <-. rewrite proc_at_put, decide_True in Hq' by done. injection Hq' as <-.
    rewrite !granted_rights. simpl. split; [done|]. intros x Hne. rewrite !granted_rights. by apply Hx.
  - intros n' Hn. by rewrite proc_at_put, decide_False.
  - unfold inbox. rewrite proc_at_put, decide_True by done. by rewrite Hp.
Qed.

Lemma recapped_refl k i p target : kernel_ok k → proc_at k i = Some p → recapped k k i target (granted target p).
Proof. intros Hk Hp. constructor; try done. intros q q' Hq Hq'. by simplify_eq. Qed.

Lemma find_slot_entry p target j :
  endpoint_ok p → capability_find_slot target p = Some j →
  ∃ c, ipc_caps p !! j = Some c ∧ cap_used c = true ∧ cap_peer c = target ∧ granted target p = cap_rights c ∧
    ∀ j' c', j' ≠ j → ipc_caps p !! j' = Some c' → entry_for target c' = false.
Proof.
  intros Hp Hf. destruct (first_index_Some _ _ _ Hf) as (c & Hc & He & _).
  destruct (rights_in_entry _ j c target (eo_caps _ Hp) Hc He) as [_ Hr].
  apply andb_true_iff in He as [Hu Hpeer%Z.eqb_eq].
  exists c. split_and!; try done. intros j' c' Hne Hc'. destruct (entry_for target c') eqn:E; [|done].
  exfalso. apply Hne. unfold entry_for in E. bool_prop. apply (co_unique _ (eo_caps _ Hp) j' j c' c); congruence.
Qed.

Lemma find_slot_none p target :
  capability_find_slot target p = None →
  granted target p = 0 ∧ ∀ j c, ipc_caps p !! j = Some c → entry_for target c = false.
Proof.
  intros Hf. unfold capability_find_slot in Hf. rewrite first_index_None in Hf.
  split; [exact (proj2 (rights_in_none _ _ Hf))|exact Hf].
Qed.

(** A value is below 2^32 when its logarithm is below 32. *)
Lemma log2_range a : 0 ≤ a → Z.log2 a < 32 ↔ a < 4294967296.
Proof.
  intros Ha. change 4294967296 with (2 ^ 32). destruct (Z.eq_dec a 0) as [->|]; [done|].
  symmetry. apply Z.log2_lt_pow2. lia.
Qed.

Lemma lor_range a b : 0 ≤ a < 4294967296 → 0 ≤ b < 4294967296 → 0 ≤ Z.lor a b < 4294967296.
Proof.
  intros Ha Hb. assert (Hn : 0 ≤ Z.lor a b) by (apply Z.lor_nonneg; lia). split; [done|].
  apply log2_range; [done|]. rewrite Z.log2_lor by lia.
  pose proof (proj2 (log2_range a ltac:(lia)) ltac:(lia)). pose proof (proj2 (log2_range b ltac:(lia)) ltac:(lia)). lia.
Qed.

Lemma land_range a b : 0 ≤ a < 4294967296 → 0 ≤ b → 0 ≤ Z.land a b < 4294967296.
Proof.
  intros Ha Hb. assert (Hn : 0 ≤ Z.land a b) by (apply Z.land_nonneg; lia). split; [done|].
  apply log2_range; [done|]. pose proof (Z.log2_land a b ltac:(lia) Hb).
  pose proof (proj2 (log2_range a ltac:(lia)) ltac:(lia)). lia.
Qed.

Lemma grant_ok k owner i p target rights :
  kernel_ok k → ipc_initialized (ipc_of k) = true → 0 < owner → 0 < target → 0 < rights < 4294967296 →
  process_lookup owner (sys k) = Some i → proc_at k i = Some p →
  ∃ r k', ipc_cap_grant owner target rights k = Some (r, k') ∧
    (r = 0 ∧ recapped k k' i target (Z.lor (granted target p) rights) ∨
     r = -1 ∧ k' = k ∧ granted target p = 0 ∧ Forall (fun c => cap_used c = true) (ipc_caps p)).
Proof.
  intros Hk Hinit Ho Ht Hr Hl Hp.
  assert (Hpo : endpoint_ok p) by (eapply (Forall_lookup_1 _ _ _ _ (io_endpoints _ (ko_ipc _ Hk))); exact Hp).
  assert (Hlt : (i < length (procs (ipc_of k)))%nat) by (by eapply lookup_lt_Some).
  unfold ipc_cap_grant. rewrite Hinit, Hl, Hp. cbn [negb mbind option_bind].
  rewrite (proj2 (Z.leb_gt owner 0)), (proj2 (Z.leb_gt target 0)), (proj2 (Z.eqb_neq rights 0)) by lia. cbn [orb].
  destruct (capability_find_slot target p) as [j|] eqn:Ef.
  - destruct (find_slot_entry p target j Hpo Ef) as (c & Hc & Hu & Hpeer & Hg & Hoth). rewrite Hc. cbn [mbind option_bind].
    eexists 0, _. split; [done|]. left. split; [done|]. rewrite Hg.
    set (c1 := {| cap_used := cap_used c; cap_peer := cap_peer c; cap_rights := Z.lor (cap_rights c) rights |}).
    pose proof (recapped_put k i p j c c1 (ipc_cap_count p) target Hk Hp Hc (fun _ => Hpeer) Hoth (fun _ => Hpeer)) as H.
    simpl in H. rewrite Hu in H. apply H. apply lor_range; [|lia].
    by apply (co_rights _ (eo_caps _ Hpo) j).
  - destruct (find_slot_none p target Ef) as [Hg Hnone]. rewrite Hg, Z.lor_0_l.
    destruct (first_index (fun c => negb (cap_used c)) (ipc_caps p)) as [j|] eqn:Ej.
    + destruct (first_index_Some _ _ _ Ej) as (c & Hc & Hu%negb_true_iff & _).
      assert (Hj : (j < length (ipc_caps p))%nat) by (by eapply lookup_lt_Some).
      simpl ipc_caps. rewrite list_lookup_insert_eq by done. cbn [mbind option_bind cap_used cap_peer cap_rights].
      rewrite list_insert_insert_eq, Z.lor_0_l. eexists 0, _. split; [done|]. left. split; [done|].
      set (c1 := {| cap_used := true; cap_peer := target; cap_rights := rights |}).
      pose proof (recapped_put k i p j c c1 (if (ipc_cap_count p <? CONFIG_IPC_CAPACITY_PER_PROC)%nat then S (ipc_cap_count p)
        else ipc_cap_count p) target Hk Hp Hc) as H.
      apply H; [congruence| |done|simpl; lia]. intros j' c' _ Hc'. by apply (Hnone j').
    + eexists (-1), k. split; [done|]. right. split_and!; try done. apply Forall_lookup. intros j c Hc.
      rewrite first_index_None in Ej. by apply negb_false_iff, (Ej j c).
Qed.

Lemma revoke_ok k owner i p target rights :
  kernel_ok k → ipc_initialized (ipc_of k) = true → 0 < owner → 0 < target → 0 < rights < 4294967296 →
  process_lookup owner (sys k) = Some i → proc_at k i = Some p →
  ∃ k', ipc_cap_revoke owner target rights k = Some (0, k') ∧
    recapped k k' i target (Z.land (granted target p) (not32 rights)).
Proof.
  intros Hk Hinit Ho Ht Hr Hl Hp.
  assert (Hpo : endpoint_ok p) by (eapply (Forall_lookup_1 _ _ _ _ (io_endpoints _ (ko_ipc _ Hk))); exact Hp).
  unfold ipc_cap_revoke. rewrite Hinit, Hl, Hp. cbn [negb mbind option_bind].
  rewrite (proj2 (Z.leb_gt owner 0)), (proj2 (Z.leb_gt target 0)), (proj2 (Z.eqb_neq rights 0)) by lia. cbn [orb].
  destruct (capability_find_slot target p) as [j|] eqn:Ef.
  - destruct (find_slot_entry p target j Hpo Ef) as (c & Hc & Hu & Hpeer & Hg & Hoth). rewrite Hc, Hg. cbn [mbind option_bind].
    set (left := Z.land (cap_rights c) (not32 rights)).
    assert (Hleft : 0 ≤ left < 4294967296).
    { apply land_range; [by apply (co_rights _ (eo_caps _ Hpo) j)|unfold not32; lia]. }
    destruct (left =? 0) eqn:E; bool_prop.
    + eexists. split; [done|]. rewrite E.
      apply (recapped_put k i p j c {| cap_used := false; cap_peer := IPC_INVALID_PID; cap_rights := 0 |}
        (if (0 <? ipc_cap_count p)%nat then (ipc_cap_count p - 1)%nat else ipc_cap_count p) target Hk Hp Hc (fun _ => Hpeer) Hoth); [done|simpl; lia].
    + eexists. split; [done|]. rewrite Hu.
      apply (recapped_put k i p j c {| cap_used := true; cap_peer := cap_peer c; cap_rights := left |}
        (ipc_cap_count p) target Hk Hp Hc (fun _ => Hpeer) Hoth); [done|simpl; lia].
  - exists k. split; [done|]. destruct (find_slot_none p target Ef) as [Hg _].
    replace (Z.land (granted target p) (not32 rights)) with (granted target p) by (by rewrite Hg). by apply recapped_refl.
Qed.

(** Capability tables are maps from peers to rights.  For a process that
    exists, granting adds the rights to those it has on the peer, or fails without
    any change exactly when there is no entry for the peer and all 16 are in use;
    revoking takes exactly those rights away; a query returns what is held.  The
    rights on other peers, other processes' tables, the messages and the scheduler
    are untouched. *)
Theorem ipc_cap_refines k owner i p target rights :
  kernel_ok k → ipc_initialized (ipc_of k) = true → 0 < owner → 0 < target → 0 < rights < 4294967296 →
  process_lookup owner (sys k) = Some i → proc_at k i = Some p →
  (∃ r k', ipc_cap_grant owner target rights k = Some (r, k') ∧
     (r = 0 ∧ recapped k k' i target (Z.lor (granted target p) rights) ∨
      r = -1 ∧ k' = k ∧ granted target p = 0 ∧ Forall (fun c => cap_used c = true) (ipc_caps p))) ∧
  (∃ k', ipc_cap_revoke owner target rights k = Some (0, k') ∧
     recapped k k' i target (Z.land (granted target p) (not32 rights))) ∧
  ipc_cap_query owner target k = Some (0, Some (granted target p)).
Proof.
  intros Hk Hinit Ho Ht Hr Hl Hp. split; [by apply grant_ok|]. split; [by apply revoke_ok|].
  unfold ipc_cap_query. rewrite Hinit, Hl, Hp. cbn [negb mbind option_bind].
  by rewrite (proj2 (Z.leb_gt owner 0)), (proj2 (Z.leb_gt target 0)) by lia.
Qed.

Lemma land_one g : (Z.land g 1 =? 1) = Z.testbit g 0.
Proof.
  change 1 with (Z.ones 1) at 1. rewrite Z.land_ones by lia. change (2 ^ 1) with 2. rewrite <- Z.bit0_mod.
  by destruct (Z.testbit g 0).
Qed.

Lemma not32_bit0 z : Z.testbit (not32 z) 0 = negb (Z.testbit z 0).
Proof. unfold not32. rewrite !Z.bit0_odd, Z.odd_sub. by destruct (Z.odd z). Qed.

(** A revoked right is gone.  Once the right to send to [target] has been
    revoked from a user process, its sends to [target] fail and change nothing;
    once it has been granted, the process holds it again. *)
Theorem revoke_stops_send k owner i t p target rights msg size :
  kernel_ok k → ipc_initialized (ipc_of k) = true → 0 < owner → 0 < target → 0 < rights < 4294967296 →
  process_lookup owner (sys k) = Some i → process_current (sys k) = Some i →
  processes (sys k) !! i = Some t → proc_at k i = Some p → kind t = THREAD_KIND_USER → pid t ≠ target →
  Z.testbit rights 0 = true →
  (∃ k', ipc_cap_revoke owner target rights k = Some (0, k') ∧ ipc_send target msg size k' = Some (-1, k')) ∧
  ∀ k', ipc_cap_grant owner target rights k = Some (0, k') → caller_may k' target IPC_RIGHT_SEND = true.
Proof.
  intros Hk Hinit Ho Ht Hr Hl Hc Hti Hp Hkind Hpid Hbit.
  assert (Hcheck : ∀ k' g, recapped k k' i target g → caller_may k' target IPC_RIGHT_SEND = (Z.land g 1 =? 1)).
  { intros k' g H. destruct (proc_at_ok k' i (rd_ok _ _ _ _ _ H)) as (p' & Hp' & _); [eapply lookup_lt_procs; [apply Hk|done]|].
    unfold caller_may. rewrite (rd_sys _ _ _ _ _ H), Hc, Hti, Hp'. unfold holds_right.
    rewrite Hkind, (proj2 (Z.leb_gt target 0)), (proj2 (Z.eqb_neq (pid t) target)) by (done || lia).
    by rewrite (proj1 (rd_rights _ _ _ _ _ H p p' Hp Hp')). }
  split.
  - destruct (revoke_ok k owner i p target rights) as (k' & Hrev & Hre); try done. exists k'. split; [done|].
    apply send_denied; [apply Hre|]. rewrite (Hcheck k' _ Hre), land_one, Z.land_spec, not32_bit0, Hbit by lia.
    apply andb_false_r.
  - intros k' Hg. destruct (grant_ok k owner i p target rights) as (r & k2 & Hg2 & [[-> Hre]|(-> & _)]); try done; [|congruence].
    rewrite Hg2 in Hg. injection Hg as <-. rewrite (Hcheck _ _ Hre), land_one, Z.lor_spec, Hbit. apply orb_true_r.
Qed.
End IpcCaps.
