(* ===== verification/IpcChannels.v ===== *)
(** Channels: the ring of a channel as a queue of messages, sending and receiving
    on it, and the lists of waiters and subscribers. *)

From S2P Require Import Prelude Arrays Sched SchedLists SchedSpec SchedRun Ipc IpcSpec IpcMail.

Module IpcChannels.

Import Arrays Sched Ipc IpcSpec IpcMail.

(** ** Waiters and subscribers *)

Lemma members_ok_push arr count cap i :
  members_ok arr count cap → (count < cap)%nat → (i < MAX_PROCS)%nat →
  ∃ arr', buf_store arr count (Some i) = Some arr' ∧ members_ok arr' (S count) cap ∧
    take (S count) arr' = take count arr ++ [Some i].
Proof.
  intros (Hl & Hc & Hf) Hlt Hi. destruct (push_ok (Some i) count arr) as (-> & Hl' & Ht); [lia|].
  eexists. split; [done|]. split; [|done]. split; [congruence|]. split; [lia|]. rewrite Ht.
  apply Forall_app. split; [done|]. constructor; eauto.
Qed.

Lemma members_ok_remove arr count cap m :
  members_ok arr count cap → (m < count)%nat →
  ∃ arr', arr_remove None m count arr = Some arr' ∧ members_ok arr' (count - 1) cap ∧
    take (count - 1) arr' = remove_at m (take count arr).
Proof.
  intros (Hl & Hc & Hf) Hm. destruct (arr_remove_ok None m count arr) as (arr' & -> & Hl' & Ht & _); [lia..|].
  eexists. split; [done|]. split; [|done]. split; [congruence|]. split; [lia|]. rewrite Ht. by apply remove_at_Forall.
Qed.

(** Taking a process out of a list takes its first entry out and nothing else. *)
Lemma drop_member_ok i arr count cap :
  members_ok arr count cap →
  ∃ arr' n, drop_member i arr count = Some (arr', n) ∧ members_ok arr' n cap ∧
    take n arr' = match first_index (fun w => bool_decide (w = Some i)) (take count arr) with
                  | Some j => remove_at j (take count arr) | None => take count arr end.
Proof.
  intros H. destruct (H) as (Hl & Hc & Hf). unfold drop_member. rewrite cells_ok by lia. cbn [mbind option_bind].
  destruct (first_index _ (take count arr)) as [j|] eqn:E.
  - pose proof (first_index_lt _ _ _ E) as Hj. rewrite length_take in Hj.
    destruct (members_ok_remove arr count cap j H) as (arr' & -> & Hok & Ht); [lia|]. cbn [mbind option_bind]. eauto.
  - exists arr, count. done.
Qed.

Lemma channel_ok_set_waiters c ws n :
  channel_ok c → members_ok ws n CONFIG_IPC_CHANNEL_WAITERS → channel_ok (set_waiters ws n c).
Proof. by intros [] ?. Qed.

Lemma channel_ok_set_subscribers c ss n :
  channel_ok c → members_ok ss n CONFIG_IPC_CHANNEL_SUBSCRIBERS → channel_ok (set_subscribers ss n c).
Proof. by intros [] ?. Qed.

#[export] Hint Resolve channel_ok_set_waiters channel_ok_set_subscribers : kernel.

Lemma remove_waiter_ok i c : channel_ok c → ∃ c', channel_remove_waiter i c = Some c' ∧ channel_ok c' ∧
  ch_id c' = ch_id c ∧ ch_used c' = ch_used c.
Proof.
  intros H. destruct (drop_member_ok i _ _ _ (cho_waiters _ H)) as (ws & n & Hd & Hm & _).
  unfold channel_remove_waiter. rewrite Hd. eexists. split; [done|]. auto with kernel.
Qed.

Lemma remove_subscriber_ok i c : channel_ok c → ∃ c', channel_remove_subscriber i c = Some c' ∧ channel_ok c' ∧
  ch_id c' = ch_id c ∧ ch_used c' = ch_used c.
Proof.
  intros H. destruct (drop_member_ok i _ _ _ (cho_subscribers _ H)) as (ss & n & Hd & Hm & _).
  unfold channel_remove_subscriber. rewrite Hd. eexists. split; [done|]. auto with kernel.
Qed.

Lemma channel_at_ok k c ch : kernel_ok k → channel_at k c = Some ch → channel_ok ch.
Proof. intros Hk Hc. eapply (Forall_lookup_1 _ _ _ _ (io_channel _ (ko_ipc _ Hk))). exact Hc. Qed.

Lemma find_channel_at k id c : find_channel id k = Some c → ∃ ch, channel_at k c = Some ch ∧ ch_used ch = true ∧ ch_id ch = id.
Proof.
  unfold find_channel. destruct (id <=? 0); [done|]. intros (ch & Hc & Hu & _)%first_index_Some.
  apply andb_true_iff in Hu as [Hu ?%Z.eqb_eq]. eauto.
Qed.

Lemma channel_at_put k c d ch :
  (c < length (channel_table (ipc_of k)))%nat →
  channel_at (put_channel c ch k) d = if decide (c = d) then Some ch else channel_at k d.
Proof.
  intros Hi. unfold channel_at, put_channel. simpl. rewrite list_lookup_insert. repeat case_decide; try done; naive_solver lia.
Qed.

(** Whether a process has joined a channel. *)
Definition joined (id : Z) (p : ipc_proc) : bool := bool_decide (id ∈ take (channel_count p) (channel_slots p)).

Lemma has_channel_ok id p : endpoint_ok p → process_has_channel id p = Some (joined id p).
Proof.
  intros [_ _ _ Hs Hc]. unfold process_has_channel. rewrite cells_ok by lia. cbn [mbind option_bind]. f_equal.
  unfold joined. apply bool_decide_ext. split.
  - intros (j & (x & Hx & ?%Z.eqb_eq & _)%first_index_Some). subst. by eapply list_elem_of_lookup_2.
  - intros (j & Hj)%list_elem_of_lookup_1. apply (first_index_is_Some _ _ j id Hj). apply Z.eqb_refl.
Qed.

(** Whether a process may use a channel. *)
Definition allowed (id : Z) (p : ipc_proc) (ch : ipc_channel) : bool :=
  joined id p || negb (Z.land (ch_flags ch) IPC_CHANNEL_FLAG_KERNEL =? 0).

Lemma may_use_ok id p ch : endpoint_ok p → may_use id p ch = Some (allowed id p ch).
Proof. intros H. unfold may_use. by rewrite has_channel_ok. Qed.

(** ** The queue of a channel *)

Record cmessage := CMessage { c_header : Z; c_type : Z; c_sender : Z; c_bytes : list Z }.

Definition cmessage_of (s : ipc_message_slot) : cmessage :=
  {| c_header := cm_header s; c_type := cm_type s; c_sender := cm_sender_pid s;
     c_bytes := take (Z.to_nat (cm_size s)) (cm_data s) |}.

(** The messages of a channel, oldest first, and those who wait for one. *)
Definition queued (ch : ipc_channel) : list cmessage := cmessage_of <$> ring (ch_queue ch) (ch_head ch) (ch_count ch).
Definition channel_waiters (ch : ipc_channel) : list (option nat) := take (ch_waiter_count ch) (ch_waiters ch).

Lemma queued_length ch : channel_ok ch → length (queued ch) = ch_count ch.
Proof. intros []. unfold queued. rewrite length_fmap, ring_length; lia. Qed.

Lemma pop_channel_waiter_ok ch :
  channel_ok ch →
  ∃ ch', pop_channel_waiter ch = Some (match channel_waiters ch with [] => None | w :: _ => w end, ch') ∧ channel_ok ch' ∧
    queued ch' = queued ch ∧ channel_waiters ch' = list.tail (channel_waiters ch) ∧
    ch_id ch' = ch_id ch ∧ ch_used ch' = ch_used ch ∧ ch_flags ch' = ch_flags ch.
Proof.
  intros H. destruct (cho_waiters _ H) as (Hl & Hc & Hf). unfold pop_channel_waiter.
  destruct (ch_waiter_count ch =? 0)%nat eqn:E; bool_prop.
  { exists ch. unfold channel_waiters. rewrite E. done. }
  destruct (members_ok_remove _ _ _ 0 (cho_waiters _ H)) as (ws & Hr & Hok & Ht); [lia|].
  unfold channel_waiters. destruct (ch_waiters ch) as [|w l] eqn:Ew; [simpl in *; lia|]. rewrite Hr. simpl lookup.
  cbn [mbind option_bind]. eexists. split.
  { f_equal. f_equal. by destruct (ch_waiter_count ch). }
  split; [auto with kernel|]. split; [done|]. split; [|done]. simpl. rewrite Ht.
  by destruct (ch_waiter_count ch) as [|n]; [lia|].
Qed.

(** The slot behind the last message takes a new one. *)
Lemma channel_push_ok ch slot :
  channel_ok ch → (ch_count ch < CONFIG_IPC_CHANNEL_QUEUE_LEN)%nat →
  length (cm_data slot) = CONFIG_MSG_DATA_MAX → 0 ≤ cm_size slot ≤ 256 →
  ∃ q, buf_store (ch_queue ch) (ch_tail ch) slot = Some q ∧
    channel_ok (set_ring q (ch_head ch) (ring_next (ch_tail ch)) (S (ch_count ch)) ch) ∧
    queued (set_ring q (ch_head ch) (ring_next (ch_tail ch)) (S (ch_count ch)) ch) = queued ch ++ [cmessage_of slot].
Proof.
  intros H Hc Hd Hs. destruct (H) as [Hn Hq Hh Hcc Ht Hf Hw Hsub].
  assert (Hlt : (ch_tail ch < length (ch_queue ch))%nat) by (rewrite Ht, Hq; apply Nat.mod_upper_bound; done).
  rewrite buf_store_ok by done. eexists. split; [done|]. split.
  - constructor; simpl; rewrite ?length_insert; try done.
    + unfold ring_next. rewrite Ht, Nat.Div0.add_mod_idemp_l. f_equal. lia.
    + by apply Forall_insert.
  - unfold queued. simpl. rewrite Ht. rewrite <- Hq at 1. rewrite ring_push by lia. by rewrite fmap_app.
Qed.

(** The slot at the head is the oldest message. *)
Lemma channel_pop_ok ch :
  channel_ok ch → (0 < ch_count ch)%nat →
  ∃ slot, ch_queue ch !! ch_head ch = Some slot ∧ length (cm_data slot) = CONFIG_MSG_DATA_MAX ∧ 0 ≤ cm_size slot ≤ 256 ∧
    let ch' := set_ring (ch_queue ch) (ring_next (ch_head ch)) (ch_tail ch) (ch_count ch - 1) ch in
    channel_ok ch' ∧ queued ch = cmessage_of slot :: queued ch'.
Proof.
  intros H Hc. destruct (H) as [Hn Hq Hh Hcc Ht Hf Hw Hsub].
  destruct (ring_pop (ch_queue ch) (ch_head ch) (ch_count ch)) as (slot & Hslot & Hring); [lia..|].
  destruct (Forall_lookup_1 _ _ _ _ Hf Hslot) as [Hd Hs].
  exists slot. split; [done|]. split; [done|]. split; [done|]. split.
  - constructor; simpl; try done; [apply Nat.mod_upper_bound; done|lia|].
    unfold ring_next. rewrite Ht, Nat.Div0.add_mod_idemp_l. f_equal. lia.
  - unfold queued. rewrite Hring. simpl. unfold ring_next. by rewrite Hq.
Qed.

(** ** Sending *)

(** The kernel may always send; a process if it may use the channel. *)
Definition sender_allowed (k : kernel) (id sender : Z) (ch : ipc_channel) : bool :=
  if 0 <? sender then
    match process_lookup sender (sys k) with
    | Some i => match proc_at k i with Some p => allowed id p ch | None => false end
    | None => false
    end
  else true.

Lemma sender_allowed_ok k id sender ch :
  kernel_ok k →
  (if 0 <? sender then
     match process_lookup sender (sys k) with
     | None => Some false
     | Some i => p ← proc_at k i; may_use id p ch
     end
   else Some true) = Some (sender_allowed k id sender ch).
Proof.
  intros Hk. unfold sender_allowed. destruct (0 <? sender); [|done].
  destruct (process_lookup sender (sys k)) as [i|] eqn:E; [|done].
  destruct (proc_at_ok k i Hk) as (p & Hp & Hpo); [by eapply lookup_lt_procs; [apply Hk|]|].
  rewrite Hp. by apply may_use_ok.
Qed.

(** The bytes of a slot after a message of [size] bytes was copied to it. *)
Lemma slot_bytes_ok old b size :
  length old = CONFIG_MSG_DATA_MAX → 0 ≤ size ≤ 256 → size ≤ Z.of_nat (length (default [] b)) →
  ∃ bytes, (if 0 <? size then buffer_copy old b (Z.to_nat size) else Some old) = Some bytes ∧
    length bytes = CONFIG_MSG_DATA_MAX ∧ take (Z.to_nat size) bytes = take (Z.to_nat size) (default [] b).
Proof.
  unfold CONFIG_MSG_DATA_MAX. intros Ho Hs Hb. destruct (0 <? size) eqn:E; bool_prop.
  - destruct b as [b|]; simpl in Hb; [|lia]. rewrite buffer_copy_ok by lia. eexists. split; [done|].
    rewrite length_app, length_take, length_drop. split; [lia|]. simpl.
    rewrite take_app_le by (rewrite length_take; lia). by rewrite take_take, Nat.min_l by lia.
  - exists old. replace size with 0 by lia. done.
Qed.

(** Handing a message on to the first waiter. *)
Lemma channel_wake_ok k c ch ch' size :
  kernel_ok k → channel_ok ch → channel_ok ch' → (c < CONFIG_IPC_MAX_CHANNELS)%nat →
  ∃ k', match match channel_waiters ch with [] => None | w :: _ => w end with
        | None => Some (s32 size, put_channel c ch' k)
        | Some i => p ← proc_at (put_channel c ch' k) i;
            Some (s32 size, with_sys (process_wake i) (put_proc i (set_wait_channel (-1) p) (put_channel c ch' k)))
        end = Some (s32 size, k') ∧ kernel_ok k' ∧ channel_at k' c = Some ch' ∧
    (∀ d, d ≠ c → channel_at k' d = channel_at k d) ∧
    sys k' = match channel_waiters ch with Some i :: _ => process_wake i (sys k) | _ => sys k end ∧
    ∀ j, inbox k' j = inbox k j.
Proof.
  intros Hk Hch Hch' Hc. set (k1 := put_channel c ch' k).
  assert (Hk1 : kernel_ok k1) by (by apply kernel_ok_put_channel).
  assert (Hat : ∀ d, channel_at k1 d = if decide (c = d) then Some ch' else channel_at k d).
  { intros d. apply channel_at_put. by rewrite (io_channels _ (ko_ipc _ Hk)). }
  assert (Hc1 : channel_at k1 c = Some ch') by (by rewrite Hat, decide_True).
  assert (Hd1 : ∀ d, d ≠ c → channel_at k1 d = channel_at k d) by (intros d Hd; by rewrite Hat, decide_False).
  destruct (channel_waiters ch) as [|[i|] l] eqn:Ew; [by exists k1| |by exists k1].
  assert (Hi : (i < MAX_PROCS)%nat).
  { destruct (cho_waiters _ Hch) as (_ & _ & Hf). unfold channel_waiters in Ew. rewrite Ew in Hf.
    apply Forall_cons in Hf as [(i' & [= ->] & ?) _]. done. }
  destruct (proc_at_ok k1 i Hk1 Hi) as (p & Hp & Hpo). rewrite Hp. cbn [mbind option_bind].
  eexists. split; [done|]. split; [|split; [done|split; [done|split; [done|]]]].
  - apply kernel_ok_with_sys; [auto with kernel|]. apply sched_ok_wake; [apply Hk|done].
  - intros j. unfold inbox. change (proc_at (with_sys _ ?x) j) with (proc_at x j).
    rewrite proc_at_put by (by eapply lookup_lt_Some). change (proc_at k1 j) with (proc_at k j) in *.
    case_decide; [|done]. subst. change (proc_at k1 j) with (proc_at k j) in Hp. by rewrite Hp.
Qed.

(** What a send of [size] bytes at [data] on the channel [ch], in slot [c], does. *)
Definition channel_send_post (k : kernel) (id sender header type : Z) (data : option (list Z)) (size : Z)
  (c : nat) (ch : ipc_channel) (r : Z) (k' : kernel) : Prop :=
  if (size <=? 256) && sender_allowed k id sender ch && (length (queued ch) <? CONFIG_IPC_CHANNEL_QUEUE_LEN)%nat then
    r = size ∧
    (∃ ch', channel_at k' c = Some ch' ∧ channel_waiters ch' = list.tail (channel_waiters ch) ∧
       queued ch' = queued ch ++ [{| c_header := header; c_type := type; c_sender := sender;
                                     c_bytes := take (Z.to_nat size) (default [] data) |}]) ∧
    (∀ d, d ≠ c → channel_at k' d = channel_at k d) ∧
    sys k' = match channel_waiters ch with Some i :: _ => process_wake i (sys k) | _ => sys k end ∧
    ∀ j, inbox k' j = inbox k j
  else r = -1 ∧ k' = k.

Lemma channel_send_ok k id sender header type data size flags c ch :
  kernel_ok k → 0 ≤ size → size ≤ Z.of_nat (length (default [] data)) →
  find_channel id k = Some c → channel_at k c = Some ch →
  ∃ r k', ipc_channel_send id sender header type data size flags k = Some (r, k') ∧ kernel_ok k' ∧
    channel_send_post k id sender header type data size c ch r k'.
Proof.
  intros Hk Hs Hdata Hf Hc. pose proof (channel_at_ok k c ch Hk Hc) as Hch. unfold ipc_channel_send, channel_send_post.
  change (Z.of_nat CONFIG_MSG_DATA_MAX) with 256. destruct (Z.ltb_spec 256 size) as [Hbig|Hsmall].
  { exists (-1), k. by rewrite (proj2 (Z.leb_gt size 256)) by lia. }
  rewrite (proj2 (Z.leb_le size 256)) by lia. rewrite Hf, Hc. cbn [mbind option_bind andb].
  rewrite (sender_allowed_ok k id sender ch Hk). cbn [mbind option_bind].
  destruct (sender_allowed k id sender ch); [|by exists (-1), k]. cbn [negb andb].
  rewrite queued_length by done. destruct (Nat.leb_spec CONFIG_IPC_CHANNEL_QUEUE_LEN (ch_count ch)) as [Hfull|Hroom].
  { exists (-1), k. by rewrite (proj2 (Nat.ltb_ge _ _)) by done. }
  rewrite (proj2 (Nat.ltb_lt _ _)) by done.
  assert (Htail : (ch_tail ch < length (ch_queue ch))%nat).
  { rewrite (cho_tail _ Hch), (cho_queue _ Hch). by apply Nat.mod_upper_bound. }
  destruct (lookup_lt_is_Some_2 _ _ Htail) as [slot Hslot]. rewrite Hslot. cbn [mbind option_bind].
  destruct (Forall_lookup_1 _ _ _ _ (cho_data _ Hch) Hslot) as [Hlen _].
  destruct (slot_bytes_ok (cm_data slot) data size Hlen ltac:(lia) Hdata) as (bytes & -> & Hbl & Hbt). cbn [mbind option_bind].
  set (new := {| cm_header := header; cm_size := u32 size |}).
  destruct (channel_push_ok ch new Hch Hroom Hbl) as (q & -> & Hch1 & Hq1); [simpl; rewrite u32_small; lia|]. cbn [mbind option_bind].
  destruct (pop_channel_waiter_ok _ Hch1) as (ch2 & -> & Hch2 & Hq2 & Hw2 & _). cbn [mbind option_bind].
  change (channel_waiters (set_ring _ _ _ _ ch)) with (channel_waiters ch) in *.
  assert (Hcl : (c < CONFIG_IPC_MAX_CHANNELS)%nat).
  { rewrite <- (io_channels _ (ko_ipc _ Hk)). by eapply lookup_lt_Some. }
  destruct (channel_wake_ok k c ch ch2 size Hk Hch Hch2 Hcl) as (k' & -> & Hk' & Hc' & Hoth & Hsys & Hin).
  exists (s32 size), k'. split; [done|]. split; [done|]. rewrite s32_small by lia. split; [done|]. split; [|done].
  exists ch2. split; [done|]. split; [done|]. rewrite Hq2, Hq1. unfold cmessage_of, new. simpl. by rewrite u32_small, Hbt by lia.
Qed.

(** What a channel send does.  On a channel that exists, with [size] readable
    bytes at [data], [ipc_channel_send] stays inside its arrays and keeps the
    invariant.  If the message is at most 256 bytes, the sender may use the channel
    (the kernel always, a process if it has joined it or it is a kernel channel) and
    fewer than 32 messages are queued, it returns [size], the message is the last in
    the channel's queue, the first process on the list of waiters is woken, and no
    other channel and no mailbox changes.  Otherwise it returns -1 and changes
    nothing. *)
Theorem channel_send_refines k id sender header type data size flags c ch :
  kernel_ok k → 0 ≤ size → size ≤ Z.of_nat (length (default [] data)) →
  find_channel id k = Some c → channel_at k c = Some ch →
  ∃ r k', ipc_channel_send id sender header type data size flags k = Some (r, k') ∧ kernel_ok k' ∧
    channel_send_post k id sender header type data size c ch r k'.
Proof. apply channel_send_ok. Qed.

(** ** Receiving *)

(** The channel [c] of [k'] is [ch'], and nothing else but the wait mark of a process changed. *)
Record rechanneled (k k' : kernel) (c : nat) (ch' : ipc_channel) : Prop := {
  rh_ok : kernel_ok k';
  rh_channel : channel_at k' c = Some ch';
  rh_others d : d ≠ c → channel_at k' d = channel_at k d;
  rh_sys : sys k' = sys k;
  rh_inbox j : inbox k' j = inbox k j
}.

Lemma rechanneled_put k i p c ch' w :
  kernel_ok k → proc_at k i = Some p → endpoint_ok p → channel_ok ch' → (c < CONFIG_IPC_MAX_CHANNELS)%nat →
  rechanneled k (put_proc i (set_wait_channel w p) (put_channel c ch' k)) c ch'.
Proof.
  intros Hk Hp Hpo Hch Hc. assert (Hlt : (c < length (channel_table (ipc_of k)))%nat) by (by rewrite (io_channels _ (ko_ipc _ Hk))).
  constructor; [auto with kernel| | |done|].
  - change (channel_at (put_channel c ch' k) c = Some ch'). by rewrite channel_at_put, decide_True.
  - intros d Hd. change (channel_at (put_channel c ch' k) d = channel_at k d). by rewrite channel_at_put, decide_False.
  - intros j. unfold inbox. rewrite proc_at_put by (by eapply lookup_lt_Some).
    change (proc_at (put_channel c ch' k) j) with (proc_at k j). case_decide; [|done]. subst. by rewrite Hp.
Qed.

(** What a receive on a channel in state [ch] does. *)
Definition channel_recv_post (k : kernel) (i c : nat) (ch : ipc_channel) (out : bool) (buffer : option (list Z))
  (buffer_len flags : Z) (res : channel_result) : Prop :=
  match queued ch with
  | m :: rest =>
      ∃ k' ch', res = CReturn 1
          (if out then Some {| header := if buffer_len <? Z.of_nat (length (c_bytes m))
                                         then Z.lor (c_header m) IPC_MESSAGE_TRUNCATED else c_header m;
                               sender_pid := c_sender m; type := c_type m; size := Z.of_nat (length (c_bytes m)) |} else None)
          (fill buffer buffer_len (c_bytes m)) k' ∧
        rechanneled k k' c ch' ∧ queued ch' = rest ∧ channel_waiters ch' = channel_waiters ch
  | [] =>
      if negb (Z.land flags IPC_RECV_NONBLOCK =? 0) then res = CReturn 0 None buffer k
      else if bool_decide (Some i ∈ channel_waiters ch) then res = CWait k
      else if (CONFIG_IPC_CHANNEL_WAITERS <=? length (channel_waiters ch))%nat then res = CReturn (-1) None buffer k
      else ∃ k' ch', res = CWait k' ∧ rechanneled k k' c ch' ∧ queued ch' = [] ∧
             channel_waiters ch' = channel_waiters ch ++ [Some i]
  end.

Lemma fill_channel_ok buffer buffer_len slot :
  length (cm_data slot) = CONFIG_MSG_DATA_MAX → 0 ≤ cm_size slot ≤ 256 → 0 ≤ buffer_len →
  (∀ d, buffer = Some d → buffer_len ≤ Z.of_nat (length d)) →
  match buffer with
  | Some b => if 0 <? Z.min (cm_size slot) buffer_len
              then Some <$> buffer_copy b (Some (cm_data slot)) (Z.to_nat (Z.min (cm_size slot) buffer_len)) else Some (Some b)
  | None => Some None
  end = Some (fill buffer buffer_len (c_bytes (cmessage_of slot))).
Proof.
  intros Hd Hs Hl Hb.
  pose proof (fill_ok buffer buffer_len {| ms_used := true; ms_sender := 0; ms_flags := 0; ms_size := cm_size slot; ms_data := cm_data slot |}) as H.
  simpl in H. change (c_bytes (cmessage_of slot)) with (take (Z.to_nat (cm_size slot)) (cm_data slot)).
  rewrite <- H; [|constructor; done|done..].
  replace (if cm_size slot <? buffer_len then cm_size slot else buffer_len) with (Z.min (cm_size slot) buffer_len);
    [done|destruct (Z.ltb_spec (cm_size slot) buffer_len); lia].
Qed.

Lemma receive_round_ok k i p c ch id out buffer buffer_len flags :
  kernel_ok k → (i < MAX_PROCS)%nat → proc_at k i = Some p → channel_at k c = Some ch → 0 ≤ buffer_len →
  (∀ d, buffer = Some d → buffer_len ≤ Z.of_nat (length d)) →
  ∃ res, channel_receive_round i c id out buffer buffer_len flags k = Some res ∧
    channel_recv_post k i c ch out buffer buffer_len flags res.
Proof.
  intros Hk Hi Hp Hc Hl Hb. pose proof (channel_at_ok k c ch Hk Hc) as Hch.
  destruct (proc_at_ok k i Hk Hi) as (p' & Hp' & Hpo). rewrite Hp in Hp'. injection Hp' as <-.
  assert (Hcl : (c < CONFIG_IPC_MAX_CHANNELS)%nat).
  { rewrite <- (io_channels _ (ko_ipc _ Hk)). by eapply lookup_lt_Some. }
  unfold channel_receive_round, channel_recv_post. rewrite Hc, Hp. cbn [mbind option_bind].
  destruct (0 <? ch_count ch)%nat eqn:E; bool_prop.
  - destruct (channel_pop_ok ch Hch E) as (slot & Hslot & Hd & Hs & Hch' & Hq). rewrite Hslot, Hq. cbn [mbind option_bind].
    rewrite fill_channel_ok by done. cbn [mbind option_bind]. eexists. split; [done|]. eexists _, _. split.
    + assert (Hbl : Z.of_nat (length (c_bytes (cmessage_of slot))) = cm_size slot).
      { simpl. rewrite length_take, Hd. unfold CONFIG_MSG_DATA_MAX. lia. }
      rewrite Hbl. simpl. done.
    + split; [by apply rechanneled_put|]. done.
  - assert (Hq : queued ch = []) by (apply nil_length_inv; rewrite queued_length by done; lia). rewrite Hq.
    destruct (negb (Z.land flags IPC_RECV_NONBLOCK =? 0)); [eexists; done|].
    destruct (cho_waiters _ Hch) as (Hwl & Hwc & _). rewrite cells_ok by lia. cbn [mbind option_bind]. fold (channel_waiters ch).
    destruct (first_index _ (channel_waiters ch)) as [j|] eqn:Ej.
    { apply first_index_Some in Ej as (w & Hw & ->%bool_decide_eq_true & _).
      rewrite bool_decide_eq_true_2 by (by eapply list_elem_of_lookup_2). eexists; done. }
    rewrite bool_decide_eq_false_2.
    2:{ intros (j & Hj)%list_elem_of_lookup_1. rewrite first_index_None in Ej. specialize (Ej j _ Hj).
        apply bool_decide_eq_false in Ej. done. }
    assert (Hlen : length (channel_waiters ch) = ch_waiter_count ch) by (unfold channel_waiters; rewrite length_take; lia).
    rewrite Hlen. destruct (Nat.leb_spec CONFIG_IPC_CHANNEL_WAITERS (ch_waiter_count ch)); [eexists; done|].
    destruct (members_ok_push _ _ _ i (cho_waiters _ Hch)) as (ws & -> & Hok & Ht); [done..|]. cbn [mbind option_bind].
    eexists. split; [done|]. eexists _, _. split; [done|].
    split; [apply rechanneled_put; auto with kernel|]. by split.
Qed.

(** What a channel receive does.  For a process that may use the channel, with
    a buffer of at least [buffer_len] bytes, [ipc_channel_receive] takes the oldest
    message of the queue: it returns 1 with the message's header (marked as truncated
    exactly when the buffer is too short), type, sender and size, and as much of its
    bytes as fits.  On an empty queue it returns 0 if asked not to block, else it
    goes to block with the process on the list of waiters once, or returns -1 when
    all 8 places are taken.  Other channels, mailboxes and the scheduler are
    untouched.  A process that may not use the channel gets -1 and nothing changes. *)
Theorem channel_receive_refines k i p c ch id out buffer buffer_len flags :
  kernel_ok k → (i < MAX_PROCS)%nat → proc_at k i = Some p → find_channel id k = Some c → channel_at k c = Some ch →
  0 ≤ buffer_len → (∀ d, buffer = Some d → buffer_len ≤ Z.of_nat (length d)) →
  ∃ res, ipc_channel_receive_begin i id out buffer buffer_len flags k = Some res ∧
    if allowed id p ch then channel_recv_post k i c ch out buffer buffer_len flags res
    else res = CReturn (-1) None buffer k.
Proof.
  intros Hk Hi Hp Hf Hc Hl Hb. destruct (proc_at_ok k i Hk Hi) as (p' & Hp' & Hpo). rewrite Hp in Hp'. injection Hp' as <-.
  unfold ipc_channel_receive_begin. rewrite Hf, Hc, Hp. cbn [mbind option_bind].
  rewrite may_use_ok by done. cbn [mbind option_bind]. destruct (allowed id p ch); cbn [negb]; [|eexists; done].
  by apply (receive_round_ok k i p).
Qed.
End IpcChannels.
