(* ===== verification/IpcRun.v ===== *)
(** The IPC layer and the scheduler together: every operation of either, in any
    order, stays inside its arrays and keeps the invariant.

    Start-up of the IPC layer, the kernels that are reachable from it, and whether
    a receiver that sleeps is woken by a message. *)

From S2P Require Import Prelude Sched SchedLists SchedSpec SchedRun Arrays Ipc IpcSpec IpcMail IpcCaps IpcChannels.

Module IpcRun.

Import Arrays Sched Ipc IpcSpec IpcMail IpcCaps IpcChannels.

(** ** Shared regions *)

Lemma share_attach_ok id p : endpoint_ok p → endpoint_ok (share_attach_to_process id p).2.
Proof.
  intros H. unfold share_attach_to_process. destruct (first_index _ _); [|done]. simpl.
  apply endpoint_ok_set_shares; [done|]. rewrite length_insert. apply H.
Qed.

Lemma share_detach_ok id p : endpoint_ok p → endpoint_ok (share_detach_from_process id p).
Proof.
  intros H. unfold share_detach_from_process. destruct (first_index _ _); [|done].
  apply endpoint_ok_set_shares; [done|]. rewrite length_insert. apply H.
Qed.

#[export] Hint Resolve share_attach_ok share_detach_ok : kernel.

(** Only the IPC half of the kernel changed, and it is still well formed. *)
Definition ipc_step (k k' : kernel) : Prop := kernel_ok k' ∧ sys k' = sys k.

Lemma detach_pid_ok pid id k : kernel_ok k → ∃ k', detach_pid pid id k = Some k' ∧ ipc_step k k'.
Proof.
  intros Hk. unfold detach_pid. destruct (0 <? pid); [|by exists k].
  destruct (process_lookup pid (sys k)) as [i|] eqn:E; [|by exists k].
  destruct (proc_at_ok k i Hk) as (p & -> & Hp); [by eapply lookup_lt_procs; [apply Hk|]|].
  eexists. split; [done|]. split; [auto with kernel|done].
Qed.

Lemma share_drop_loop_ok n i pid k :
  kernel_ok k → (i + n ≤ CONFIG_IPC_MAX_SHARED_REGIONS)%nat → ∃ k', share_drop_loop n i pid k = Some k' ∧ ipc_step k k'.
Proof.
  revert i k. induction n as [|n IH]; intros i k Hk Hi; [by exists k|]. cbn [share_drop_loop].
  destruct (lookup_lt_is_Some_2 (share_table (ipc_of k)) i) as [r Hr]; [rewrite (io_shares _ (ko_ipc _ Hk)); lia|].
  rewrite Hr. cbn [mbind option_bind]. destruct (negb (sr_used r)); [apply IH; [done|lia]|].
  destruct (negb (sr_owner r =? pid) && negb (sr_target r =? pid)); [apply IH; [done|lia]|].
  destruct (detach_pid_ok (sr_owner r) (Z.of_nat i) k Hk) as (k1 & -> & Hk1 & Hs1). cbn [mbind option_bind].
  destruct (detach_pid_ok (sr_target r) (Z.of_nat i) k1 Hk1) as (k2 & -> & Hk2 & Hs2). cbn [mbind option_bind].
  destruct (IH (S i) (put_share i unused_record k2)) as (k3 & -> & Hk3 & Hs3); [auto with kernel|lia|].
  exists k3. split; [done|]. split; [done|]. rewrite Hs3. simpl. congruence.
Qed.

Lemma share_drop_ok pid k : kernel_ok k → ∃ k', share_drop_for_pid pid k = Some k' ∧ ipc_step k k'.
Proof. intros Hk. unfold share_drop_for_pid. destruct (pid <=? 0); [by exists k|]. by apply share_drop_loop_ok. Qed.

Lemma share_ok target addr pages k : kernel_ok k → ∃ r k', ipc_share target addr pages k = Some (r, k') ∧ ipc_step k k'.
Proof.
  intros Hk. unfold ipc_share. repeat (case_match; [by exists (-1), k|]).
  destruct (process_current (sys k)) as [o|] eqn:Ec; [|by exists (-1), k].
  assert (Ho : (o < MAX_PROCS)%nat) by (eapply sched_ok_current; [apply Hk|done]).
  destruct (table_at_ok k o Hk Ho) as [t Ht]. destruct (proc_at_ok k o Hk Ho) as (p & Hp & Hpo).
  rewrite (capability_check_spec k o t p) by done. cbn [mbind option_bind]. case_match; [by exists (-1), k|].
  destruct (process_lookup target (sys k)) as [g|] eqn:El; [|by exists (-1), k].
  assert (Hg : (g < MAX_PROCS)%nat) by (eapply lookup_lt_procs; [apply Hk|done]).
  destruct (first_index _ (share_table (ipc_of k))) as [slot|]; [|by exists (-1), k].
  rewrite Ht. cbn [mbind option_bind]. set (k1 := put_share slot _ k).
  assert (Hk1 : kernel_ok k1) by (by apply kernel_ok_put_share).
  change (proc_at k1 o) with (proc_at k o). rewrite Hp. cbn [mbind option_bind].
  pose proof (share_attach_ok (Z.of_nat slot) p Hpo) as Hp1. destruct (share_attach_to_process (Z.of_nat slot) p) as [r1 p1]. simpl in Hp1.
  assert (Hk2 : kernel_ok (put_proc o p1 k1)) by auto with kernel. set (k2 := put_proc o p1 k1) in *.
  destruct (proc_at_ok k2 g Hk2 Hg) as (q & -> & Hqo). cbn [mbind option_bind].
  pose proof (share_attach_ok (Z.of_nat slot) q Hqo) as Hq1. destruct (share_attach_to_process (Z.of_nat slot) q) as [r2 q1]. simpl in Hq1.
  assert (Hmid : ∃ r3 k3, (if r1 <? 0 then (r1, k2) else (r2, put_proc g q1 k2)) = (r3, k3) ∧ kernel_ok k3 ∧ sys k3 = sys k).
  { destruct (r1 <? 0); eexists _, _; (split; [done|]); auto with kernel. }
  destruct Hmid as (r3 & k3 & -> & Hk3 & Hs3). destruct (r3 <? 0); [|by exists 0, k3].
  destruct (proc_at_ok k3 o Hk3 Ho) as (p3 & -> & Hp3). cbn [mbind option_bind].
  set (k4 := put_proc o _ k3). assert (Hk4 : kernel_ok k4) by (apply kernel_ok_put_proc; auto with kernel).
  destruct (proc_at_ok k4 g Hk4 Hg) as (q4 & -> & Hq4). cbn [mbind option_bind].
  eexists _, _. split; [done|]. split; [auto with kernel|done].
Qed.

(** ** Attaching, detaching, cleaning up *)

Lemma caps_ok_clear cs : length cs = CONFIG_IPC_CAPACITY_PER_PROC → caps_ok (clear_cap <$> cs).
Proof.
  intros Hl. constructor.
  - by rewrite length_fmap.
  - intros j1 j2 c1 c2 H1 _ Hu. rewrite list_lookup_fmap in H1. apply fmap_Some in H1 as (c & _ & ->). done.
  - intros j c H. rewrite list_lookup_fmap in H. apply fmap_Some in H as (c' & _ & ->). simpl. lia.
Qed.

Lemma mailbox_clear_ok m : mailbox_ok m → mailbox_ok (mailbox_clear m).
Proof. intros H. exact (proj1 (mailbox_init_ok m (mo_slots _ H) (mo_waiters _ H) (mo_data _ H))). Qed.

Lemma clear_endpoint_ok m p : endpoint_ok p → mailbox_ok m → endpoint_ok (clear_endpoint m p).
Proof.
  intros [Hm Hc Hs Hcs Hcc] ?. constructor; simpl; try done; [|by rewrite length_fmap]. apply caps_ok_clear, Hc.
Qed.

Lemma attach_ok i k : kernel_ok k → (i < MAX_PROCS)%nat → ∃ k', ipc_attach_process i k = Some k' ∧ ipc_step k k'.
Proof.
  intros Hk Hi. unfold ipc_attach_process. destruct (proc_at_ok k i Hk Hi) as (p & -> & Hp). cbn [mbind option_bind].
  eexists. split; [done|]. split; [|done]. apply kernel_ok_put_proc; [done|]. apply clear_endpoint_ok; [done|].
  apply mailbox_clear_ok, Hp.
Qed.

Lemma detach_ok i k : kernel_ok k → (i < MAX_PROCS)%nat → ∃ k', ipc_detach_process i k = Some k' ∧ ipc_step k k'.
Proof.
  intros Hk Hi. unfold ipc_detach_process. destruct (proc_at_ok k i Hk Hi) as (p & -> & Hp). cbn [mbind option_bind].
  pose proof (mailbox_clear_ok _ (eo_mailbox _ Hp)) as Hm. destruct (negb (ipc_initialized (ipc_of k))).
  { eexists. split; [done|]. split; [|done]. apply kernel_ok_put_proc; [done|]. by apply clear_endpoint_ok. }
  destruct (table_at_ok k i Hk Hi) as [t ->]. cbn [mbind option_bind]. set (k1 := put_proc i _ k).
  assert (Hk1 : kernel_ok k1).
  { apply kernel_ok_put_proc; [done|]. apply endpoint_ok_set_caps; [auto with kernel|]. apply caps_ok_clear, Hp. }
  destruct (share_drop_ok (Sched.pid t) k1 Hk1) as (k2 & -> & Hk2 & Hs2). cbn [mbind option_bind].
  destruct (proc_at_ok k2 i Hk2 Hi) as (p2 & -> & Hp2). cbn [mbind option_bind]. eexists. split; [done|].
  split; [|done]. apply kernel_ok_put_proc; [done|]. apply endpoint_ok_set_waiting, endpoint_ok_set_shares; [done|].
  rewrite length_fmap. apply Hp2.
Qed.

Lemma leave_channels_ok ids i k : kernel_ok k → ∃ k', leave_channels ids i k = Some k' ∧ ipc_step k k'.
Proof.
  revert k. induction ids as [|id ids IH]; intros k Hk; [by exists k|]. cbn [leave_channels].
  destruct (find_channel id k) as [c|] eqn:E; [|by apply IH].
  destruct (find_channel_at k id c E) as (ch & Hch & _). rewrite Hch. cbn [mbind option_bind].
  destruct (remove_subscriber_ok i ch (channel_at_ok k c ch Hk Hch)) as (ch1 & -> & H1 & _). cbn [mbind option_bind].
  destruct (remove_waiter_ok i ch1 H1) as (ch2 & -> & H2 & _). cbn [mbind option_bind].
  destruct (IH (put_channel c ch2 k)) as (k' & -> & Hk' & Hs); [auto with kernel|]. by exists k'.
Qed.

Lemma cleanup_ok i k : kernel_ok k → (i < MAX_PROCS)%nat → ∃ k', ipc_process_cleanup i k = Some k' ∧ ipc_step k k'.
Proof.
  intros Hk Hi. unfold ipc_process_cleanup. destruct (detach_ok i k Hk Hi) as (k1 & -> & Hk1 & Hs1). cbn [mbind option_bind].
  destruct (proc_at_ok k1 i Hk1 Hi) as (p1 & -> & [Hm Hc Hsh Hsl Hcc]). cbn [mbind option_bind].
  rewrite cells_ok by lia. cbn [mbind option_bind].
  destruct (leave_channels_ok (take (channel_count p1) (channel_slots p1)) i k1 Hk1) as (k2 & -> & Hk2 & Hs2). cbn [mbind option_bind].
  destruct (proc_at_ok k2 i Hk2 Hi) as (p2 & -> & Hp2). cbn [mbind option_bind]. eexists. split; [done|].
  split; [|simpl; congruence]. apply kernel_ok_put_proc; [done|]. apply endpoint_ok_set_wait_channel.
  destruct Hp2. constructor; simpl; rewrite ?length_fmap; try done. lia.
Qed.

(** ** Joining, leaving and creating channels *)

Lemma add_channel_ok id p :
  endpoint_ok p → ∃ r p', process_add_channel id p = Some (r, p') ∧ endpoint_ok p'.
Proof.
  intros Hp. destruct (Hp) as [Hm Hc Hs Hsl Hcc]. unfold process_add_channel. rewrite has_channel_ok by done. cbn [mbind option_bind].
  destruct (joined id p); [by exists 0, p|]. destruct (Nat.leb_spec CONFIG_PROCESS_CHANNEL_SLOTS (channel_count p)); [by exists (-1), p|].
  rewrite buf_store_ok by lia. cbn [mbind option_bind]. eexists _, _. split; [done|]. by constructor; simpl; rewrite ?length_insert.
Qed.

Lemma remove_channel_ok id p : endpoint_ok p → ∃ p', process_remove_channel id p = Some p' ∧ endpoint_ok p'.
Proof.
  intros Hp. destruct (Hp) as [Hm Hc Hs Hsl Hcc]. unfold process_remove_channel. rewrite cells_ok by lia. cbn [mbind option_bind].
  destruct (first_index _ _) as [j|] eqn:E; [|by exists p].
  pose proof (first_index_lt _ _ _ E) as Hj. rewrite length_take in Hj.
  destruct (arr_remove_ok (-1) j (channel_count p) (channel_slots p)) as (cs & -> & Hl & _); [lia..|]. cbn [mbind option_bind].
  eexists. split; [done|]. constructor; simpl; try done; [congruence|lia].
Qed.

Lemma join_ok i id k :
  kernel_ok k → (i < MAX_PROCS)%nat → ∃ r k', ipc_channel_join i id k = Some (r, k') ∧ ipc_step k k'.
Proof.
  intros Hk Hi. unfold ipc_channel_join. destruct (find_channel id k) as [c|] eqn:E; [|by exists (-1), k].
  destruct (find_channel_at k id c E) as (ch & Hch & _).
  destruct (proc_at_ok k i Hk Hi) as (p & -> & Hp). cbn [mbind option_bind].
  destruct (add_channel_ok id p Hp) as (r & p1 & -> & Hp1). cbn [mbind option_bind].
  destruct (r <? 0); [by exists (-1), k|]. change (channel_at (put_proc i p1 k) c) with (channel_at k c).
  rewrite Hch. cbn [mbind option_bind]. pose proof (cho_subscribers _ (channel_at_ok k c ch Hk Hch)) as Hsub.
  destruct (Hsub) as (Hl & Hc & _). rewrite cells_ok by lia. cbn [mbind option_bind].
  destruct (first_index _ _); [eexists 0, _; split; [done|]; split; [auto with kernel|done]|].
  destruct (Nat.leb_spec CONFIG_IPC_CHANNEL_SUBSCRIBERS (ch_subscriber_count ch)).
  { destruct (remove_channel_ok id p1 Hp1) as (p2 & -> & Hp2). cbn [mbind option_bind].
    eexists (-1), _. split; [done|]. split; [auto with kernel|done]. }
  destruct (members_ok_push _ _ _ i Hsub) as (ss & -> & Hok & _); [done..|]. cbn [mbind option_bind].
  eexists 0, _. split; [done|]. split; [|done]. apply kernel_ok_put_channel; [auto with kernel|].
  apply channel_ok_set_subscribers; [by eapply channel_at_ok|done].
Qed.

Lemma leave_ok i id k :
  kernel_ok k → (i < MAX_PROCS)%nat → ∃ r k', ipc_channel_leave i id k = Some (r, k') ∧ ipc_step k k'.
Proof.
  intros Hk Hi. unfold ipc_channel_leave. destruct (find_channel id k) as [c|] eqn:E; [|by exists (-1), k].
  destruct (find_channel_at k id c E) as (ch & Hch & _).
  destruct (proc_at_ok k i Hk Hi) as (p & -> & Hp). cbn [mbind option_bind].
  destruct (remove_channel_ok id p Hp) as (p1 & -> & Hp1). cbn [mbind option_bind].
  change (channel_at (put_proc i p1 k) c) with (channel_at k c). rewrite Hch. cbn [mbind option_bind].
  destruct (remove_subscriber_ok i ch (channel_at_ok k c ch Hk Hch)) as (ch1 & -> & H1 & _). cbn [mbind option_bind].
  destruct (remove_waiter_ok i ch1 H1) as (ch2 & -> & H2 & _). cbn [mbind option_bind].
  eexists 0, _. split; [done|]. split; [auto with kernel|done].
Qed.

(** A name that can be read: up to its length, or up to its terminator. *)
Definition name_readable (name : option (list Z)) (name_len : nat) : Prop :=
  match name with
  | None => True
  | Some s => if (name_len =? 0)%nat then (32 ≤ length s)%nat ∨ 0 ∈ take 32 s else (Nat.min 31 name_len ≤ length s)%nat
  end.

Lemma elem_of_drop_lt (x : Z) n m s : x ∈ drop n (take m s) → (n < length s)%nat.
Proof.
  intros (j & Hj)%list_elem_of_lookup_1. rewrite lookup_drop in Hj. apply lookup_lt_Some in Hj. rewrite length_take in Hj. lia.
Qed.

Lemma name_length_ok fuel n s :
  ((n + fuel < length s)%nat ∨ 0 ∈ drop n (take (S (n + fuel)) s)) →
  ∃ m, name_length fuel n s = Some m ∧ (m ≤ length s)%nat.
Proof.
  revert n. induction fuel as [|fuel IH]; intros n H;
    (assert (Hn : (n < length s)%nat) by (destruct H as [|H%elem_of_drop_lt]; lia));
    destruct (lookup_lt_is_Some_2 s n Hn) as [x Hx]; cbn [name_length]; rewrite Hx; cbn [mbind option_bind].
  - exists n. split; [done|lia].
  - destruct (x =? 0) eqn:E; bool_prop; [exists n; split; [done|lia]|].
    apply IH. destruct H as [|H]; [left; lia|right]. rewrite skipn_firstn_comm in H |- *.
    rewrite (drop_S s x n Hx) in H. replace (S (n + S fuel) - n)%nat with (S (S fuel)) in H by lia.
    replace (S (S n + fuel) - S n)%nat with (S fuel) by lia. cbn [take] in H.
    apply elem_of_cons in H as [?|?]; [congruence|done].
Qed.

Lemma name_copy_ok dst name len :
  length dst = CONFIG_IPC_CHANNEL_NAME_MAX → (∀ s, name = Some s → Nat.min 31 len ≤ length s)%nat →
  ∃ dst', channel_name_copy dst CONFIG_IPC_CHANNEL_NAME_MAX name len = Some dst' ∧ length dst' = CONFIG_IPC_CHANNEL_NAME_MAX.
Proof.
  unfold CONFIG_IPC_CHANNEL_NAME_MAX. intros Hd Hs. unfold channel_name_copy. simpl (32 =? 0)%nat. cbn iota.
  change (32 - 1)%nat with 31%nat. set (limit := Nat.min 31 len) in *.
  assert (Hb : ∃ bytes, name_bytes name limit = Some bytes ∧ length bytes = limit).
  { unfold name_bytes. destruct name as [s|]; [|eexists; split; [done|by rewrite length_replicate]].
    specialize (Hs s eq_refl). rewrite cells_ok by done. eexists. split; [done|]. rewrite length_take. lia. }
  destruct Hb as (bytes & -> & Hbl). cbn [mbind option_bind]. rewrite buf_copy_ok by (unfold limit in *; lia). cbn [mbind option_bind].
  rewrite buf_store_ok.
  - eexists. split; [done|]. rewrite length_insert, !length_app, length_take, length_drop. unfold limit in *. lia.
  - rewrite !length_app, length_take, length_drop. unfold limit in *. lia.
Qed.

Lemma channel_create_ipc_ok name len flags k :
  ipc_ok (ipc_of k) → name_readable name len →
  ∃ r k', ipc_channel_create name len flags k = Some (r, k') ∧ ipc_ok (ipc_of k') ∧ sys k' = sys k.
Proof.
  intros Hk Hn. unfold ipc_channel_create.
  destruct (first_index _ (channel_table (ipc_of k))) as [c|] eqn:E; [|by exists (-1), k].
  apply first_index_Some in E as (ch & Hch & _). change (channel_table (ipc_of k) !! c) with (channel_at k c) in Hch.
  pose proof (Forall_lookup_1 _ _ _ _ (io_channel _ Hk) Hch) as Hok. rewrite Hch. cbn [mbind option_bind].
  assert (Hlen : ∃ n, match name with
      | Some s => if (len =? 0)%nat then name_length (CONFIG_IPC_CHANNEL_NAME_MAX - 1) 0 s else Some len
      | None => Some len end = Some n ∧ (∀ s, name = Some s → Nat.min 31 n ≤ length s)%nat).
  { unfold name_readable in Hn. destruct name as [s|]; [|by exists len]. destruct (len =? 0)%nat.
    - destruct (name_length_ok (CONFIG_IPC_CHANNEL_NAME_MAX - 1) 0 s) as (m & -> & Hm).
      { simpl. destruct Hn; [left; lia|by right]. }
      exists m. split; [done|]. intros s' [= <-]. lia.
    - exists len. split; [done|]. by intros s' [= <-]. }
  destruct Hlen as (n & -> & Hn'). cbn [mbind option_bind].
  destruct (name_copy_ok (ch_name ch) name n (cho_name _ Hok) Hn') as (nm & -> & Hnm). cbn [mbind option_bind].
  eexists _, _. split; [done|]. split; [|done]. destruct Hk.
  constructor; simpl; rewrite ?length_insert; try done. apply Forall_insert; [done|].
  destruct Hok as [? ? ? ? ? ? (Hw & _) (Hsub & _)].
  constructor; simpl; try done; try (unfold CONFIG_IPC_CHANNEL_QUEUE_LEN; lia); (split; [done|split; [lia|constructor]]).
Qed.

Lemma channel_create_ok name len flags k :
  kernel_ok k → name_readable name len → ∃ r k', ipc_channel_create name len flags k = Some (r, k') ∧ ipc_step k k'.
Proof.
  intros [Hs Hi] Hn. destruct (channel_create_ipc_ok name len flags k Hi Hn) as (r & k' & H & Hi' & Hs').
  exists r, k'. split; [done|]. split; [constructor; [by rewrite Hs'|done]|done].
Qed.

(** ** Slots of the process table *)

Lemma zero_endpoint_ok : endpoint_ok zero_endpoint.
Proof.
  constructor; try done; [|constructor; [done| |]|simpl; lia].
  - constructor; try done; simpl; try (unfold CONFIG_MSG_QUEUE_LEN, CONFIG_IPC_ENDPOINT_WAITERS; lia).
    repeat (apply Forall_cons; split; [reflexivity|]). constructor.
  - intros j1 j2 c1 c2 [-> _]%lookup_replicate _ Hu. done.
  - intros j c [-> _]%lookup_replicate. simpl. lia.
Qed.

Lemma alloc_ok i k : kernel_ok k → (i < MAX_PROCS)%nat → ∃ k', ipc_alloc_slot i k = Some k' ∧ ipc_step k k'.
Proof.
  intros Hk Hi. unfold ipc_alloc_slot. destruct (proc_at_ok k i Hk Hi) as (p & -> & _). cbn [mbind option_bind].
  destruct (attach_ok i (put_proc i zero_endpoint k)) as (k' & -> & Hk' & Hs); [|done|by exists k'].
  apply kernel_ok_put_proc; [done|apply zero_endpoint_ok].
Qed.

Lemma reclaim_slot_ok i k : kernel_ok k → (i < MAX_PROCS)%nat → ∃ k', ipc_reclaim_slot i k = Some k' ∧ ipc_step k k'.
Proof.
  intros Hk Hi. unfold ipc_reclaim_slot. destruct (proc_at_ok k i Hk Hi) as (p & -> & Hp). cbn [mbind option_bind].
  set (p' := set_waiting _ _). assert (Hp' : endpoint_ok p').
  { destruct Hp. constructor; simpl; rewrite ?length_fmap; try done. lia. }
  destruct (attach_ok i (put_proc i p' k)) as (k' & -> & Hk' & Hs); [auto with kernel|done|by exists k'].
Qed.

(** ** Capabilities, with any arguments *)

Lemma grant_step owner target rights k :
  kernel_ok k → 0 ≤ rights < 4294967296 → ∃ r k', ipc_cap_grant owner target rights k = Some (r, k') ∧ ipc_step k k'.
Proof.
  intros Hk Hr. destruct (ipc_initialized (ipc_of k)) eqn:Ei; [|exists (-1), k; split; [unfold ipc_cap_grant; by rewrite Ei|done]].
  destruct ((owner <=? 0) || (target <=? 0) || (rights =? 0)) eqn:Eg;
    [exists (-1), k; split; [unfold ipc_cap_grant; by rewrite Ei, Eg|done]|].
  destruct (process_lookup owner (sys k)) as [i|] eqn:El; [|exists (-1), k; split; [unfold ipc_cap_grant; by rewrite Ei, Eg, El|done]].
  destruct (proc_at_ok k i Hk) as (p & Hp & _); [by eapply lookup_lt_procs; [apply Hk|]|]. bool_prop.
  destruct (grant_ok k owner i p target rights) as (r & k' & Hg & [[-> Hre]|(-> & -> & _)]); try done; try lia.
  - exists 0, k'. split; [done|]. split; apply Hre.
  - by exists (-1), k.
Qed.

Lemma revoke_step owner target rights k :
  kernel_ok k → 0 ≤ rights < 4294967296 → ∃ r k', ipc_cap_revoke owner target rights k = Some (r, k') ∧ ipc_step k k'.
Proof.
  intros Hk Hr. destruct (ipc_initialized (ipc_of k)) eqn:Ei; [|exists (-1), k; split; [unfold ipc_cap_revoke; by rewrite Ei|done]].
  destruct ((owner <=? 0) || (target <=? 0) || (rights =? 0)) eqn:Eg;
    [exists (-1), k; split; [unfold ipc_cap_revoke; by rewrite Ei, Eg|done]|].
  destruct (process_lookup owner (sys k)) as [i|] eqn:El; [|exists (-1), k; split; [unfold ipc_cap_revoke; by rewrite Ei, Eg, El|done]].
  destruct (proc_at_ok k i Hk) as (p & Hp & _); [by eapply lookup_lt_procs; [apply Hk|]|]. bool_prop.
  destruct (revoke_ok k owner i p target rights) as (k' & Hg & Hre); try done; try lia.
  exists 0, k'. split; [done|]. split; apply Hre.
Qed.

(** ** Operations *)

(** The operations of the scheduler and of this layer.  [KRecv] and [KChRecv] run
    up to the call of [process_block_current], [KRecvBlock] and [KChBlock] are that
    call, [KRecvResume] and [KChResume] what follows it. *)
Inductive kop :=
| KSched (o : SchedRun.op)
| KAlloc (i : nat)
| KReclaim (i : nat)
| KCleanup (i : nat)
| KSend (target : Z) (msg : option (list Z)) (size : Z)
| KRecv (source : Z) (buffer : option (list Z)) (max : Z)
| KRecvBlock (i : nat) (now : Z)
| KRecvResume (i : nat) (source : Z) (buffer : option (list Z)) (max : Z)
| KShare (target addr pages : Z)
| KGrant (owner target rights : Z)
| KRevoke (owner target rights : Z)
| KCreate (name : option (list Z)) (name_len : nat) (flags : Z)
| KJoin (i : nat) (id : Z)
| KLeave (i : nat) (id : Z)
| KChSend (id sender header type : Z) (data : option (list Z)) (size flags : Z)
| KChRecv (i : nat) (id : Z) (out : bool) (buffer : option (list Z)) (buffer_len flags : Z)
| KChBlock (now : Z)
| KChResume (i c : nat) (id : Z) (out : bool) (buffer : option (list Z)) (buffer_len flags : Z).

Definition recv_kernel (r : recv_result) : kernel := match r with RReturn _ _ k => k | RWait k => k end.
Definition channel_kernel (r : channel_result) : kernel := match r with CReturn _ _ _ k => k | CWait k => k end.

Section run.
Context (place : Sched.placement).

Definition kstep (k : kernel) (o : kop) : option kernel :=
  match o with
  | KSched o => Some (with_sys (fun s => SchedRun.exec place s o) k)
  | KAlloc i => ipc_alloc_slot i k
  | KReclaim i => ipc_reclaim_slot i k
  | KCleanup i => ipc_process_cleanup i k
  | KSend target msg size => snd <$> ipc_send target msg size k
  | KRecv source buffer max => recv_kernel <$> ipc_recv_begin source buffer max k
  | KRecvBlock i now => ipc_recv_block i now k
  | KRecvResume i source buffer max => recv_kernel <$> ipc_recv_resume i source buffer max k
  | KShare target addr pages => snd <$> ipc_share target addr pages k
  | KGrant owner target rights => snd <$> ipc_cap_grant owner target rights k
  | KRevoke owner target rights => snd <$> ipc_cap_revoke owner target rights k
  | KCreate name len flags => snd <$> ipc_channel_create name len flags k
  | KJoin i id => snd <$> ipc_channel_join i id k
  | KLeave i id => snd <$> ipc_channel_leave i id k
  | KChSend id sender header type data size flags => snd <$> ipc_channel_send id sender header type data size flags k
  | KChRecv i id out buffer len flags => channel_kernel <$> ipc_channel_receive_begin i id out buffer len flags k
  | KChBlock now => Some (with_sys (process_block_current now) k)
  | KChResume i c id out buffer len flags => channel_kernel <$> channel_receive_round i c id out buffer len flags k
  end.

(** Memory the caller passes: [size] bytes at a pointer. *)
Definition holds (buffer : option (list Z)) (size : Z) : Prop :=
  0 ≤ size ∧ ∀ b, buffer = Some b → size ≤ Z.of_nat (length b).

(** Pointers point into tables, and buffers are as long as the caller says. *)
Definition kop_ok (k : kernel) (o : kop) : Prop :=
  match o with
  | KSched o => SchedRun.op_ok (sys k) o
  | KAlloc i | KReclaim i | KCleanup i | KRecvBlock i _ | KJoin i _ | KLeave i _ => (i < MAX_PROCS)%nat
  | KSend _ msg size => holds msg size
  | KRecv _ buffer max => holds buffer max
  | KRecvResume i _ buffer max => (i < MAX_PROCS)%nat ∧ holds buffer max
  | KShare _ _ _ | KChBlock _ => True
  | KGrant _ _ rights | KRevoke _ _ rights => 0 ≤ rights < 4294967296
  | KCreate name len _ => name_readable name len
  | KChSend _ _ _ _ data size _ => 0 ≤ size ≤ Z.of_nat (length (default [] data))
  | KChRecv i _ _ buffer len _ => (i < MAX_PROCS)%nat ∧ holds buffer len
  | KChResume i c _ _ buffer len _ => (i < MAX_PROCS)%nat ∧ (c < CONFIG_IPC_MAX_CHANNELS)%nat ∧ holds buffer len
  end.

Lemma send_step target msg size k :
  kernel_ok k → holds msg size → ∃ r k', ipc_send target msg size k = Some (r, k') ∧ kernel_ok k'.
Proof. intros Hk [H0 Hb]. destruct (send_ok k target msg size Hk H0 Hb) as (r & k' & H & Hk' & _). eauto. Qed.

Lemma recv_post_ok t k i buffer max m rest out : recv_post t k i buffer max m rest out → kernel_ok (recv_kernel out).
Proof. unfold recv_post. destruct m as [[? ?]|], out; simpl; try done; intros H; apply H. Qed.

Lemma recv_loop_step i source buffer max k :
  kernel_ok k → (i < MAX_PROCS)%nat → holds buffer max →
  ∃ out, recv_loop RECV_FUEL i source buffer max k = Some out ∧ kernel_ok (recv_kernel out).
Proof.
  intros Hk Hi [H0 Hb]. destruct (table_at_ok k i Hk Hi) as [t Ht]. destruct (proc_at_ok k i Hk Hi) as (p & Hp & Hpo).
  destruct (recv_loop_ok RECV_FUEL i source buffer max k t p) as (out & -> & H); try done.
  { rewrite messages_length by apply Hpo. unfold RECV_FUEL. pose proof (mo_count _ (eo_mailbox _ Hpo)). lia. }
  exists out. split; [done|]. destruct (receive _ _ _) as [m rest]. by apply recv_post_ok in H.
Qed.

Lemma channel_post_ok k i c ch out buffer len flags res :
  kernel_ok k → channel_recv_post k i c ch out buffer len flags res → kernel_ok (channel_kernel res).
Proof.
  intros Hk. unfold channel_recv_post. destruct (queued ch) as [|m rest].
  - repeat case_match; [by intros ->..|]. intros (k' & ch' & -> & Hre & _). apply Hre.
  - intros (k' & ch' & -> & H & _). apply H.
Qed.

Lemma channel_send_step id sender header type data size flags k :
  kernel_ok k → 0 ≤ size ≤ Z.of_nat (length (default [] data)) →
  ∃ r k', ipc_channel_send id sender header type data size flags k = Some (r, k') ∧ kernel_ok k'.
Proof.
  intros Hk Hd. destruct (find_channel id k) as [c|] eqn:E.
  - destruct (find_channel_at k id c E) as (ch & Hch & _).
    destruct (channel_send_ok k id sender header type data size flags c ch) as (r & k' & H & Hk' & _); try done; [lia..|eauto].
  - exists (-1), k. split; [|done]. unfold ipc_channel_send. rewrite E. by case_match.
Qed.

Lemma channel_recv_step i id out buffer len flags k :
  kernel_ok k → (i < MAX_PROCS)%nat → holds buffer len →
  ∃ res, ipc_channel_receive_begin i id out buffer len flags k = Some res ∧ kernel_ok (channel_kernel res).
Proof.
  intros Hk Hi [H0 Hb]. unfold ipc_channel_receive_begin.
  destruct (find_channel id k) as [c|] eqn:E; [|eexists; split; [done|done]].
  destruct (find_channel_at k id c E) as (ch & Hch & _). destruct (proc_at_ok k i Hk Hi) as (p & Hp & Hpo).
  rewrite Hch, Hp. cbn [mbind option_bind]. rewrite may_use_ok by done. cbn [mbind option_bind].
  destruct (negb _); [eexists; split; [done|done]|].
  destruct (receive_round_ok k i p c ch id out buffer len flags) as (res & -> & Hpost); try done.
  exists res. split; [done|]. by apply channel_post_ok in Hpost.
Qed.

Lemma kstep_ok k o :
  kernel_ok k → kop_ok k o → ∃ k', kstep k o = Some k' ∧ kernel_ok k'.
Proof.
  intros Hk Ho.
  assert (Hipc : ∀ f : option (Z * kernel), (∃ r k', f = Some (r, k') ∧ ipc_step k k') → ∃ k', snd <$> f = Some k' ∧ kernel_ok k').
  { intros f (r & k' & -> & Hk' & _). eauto. }
  destruct o as [o|i|i|i|target msg sz|source buffer max|i now|i source buffer max|target addr pages|owner target rights
    |owner target rights|name len flags|i id|i id|id sender hd ty data sz flags|i id out buffer blen flags|now
    |i c id out buffer blen flags]; simpl in Ho |- *.
  - eexists. split; [done|]. apply kernel_ok_with_sys; [done|]. apply sched_ok_exec; [apply Hk|done].
  - destruct (alloc_ok i k Hk Ho) as (k' & -> & Hk' & _). eauto.
  - destruct (reclaim_slot_ok i k Hk Ho) as (k' & -> & Hk' & _). eauto.
  - destruct (cleanup_ok i k Hk Ho) as (k' & -> & Hk' & _). eauto.
  - destruct (send_step target msg sz k Hk Ho) as (r & k' & -> & Hk'). eauto.
  - unfold ipc_recv_begin. repeat (case_match; [by eexists|]). case_match eqn:E; [|by eexists]. case_match; [by eexists|].
    destruct (recv_loop_step n source buffer max k Hk) as (out & -> & H'); [by eapply sched_ok_current; [apply Hk|]|done|eauto].
  - unfold ipc_recv_block. destruct (proc_at_ok k i Hk Ho) as (p & -> & Hp). eexists. split; [done|].
    apply kernel_ok_with_sys; [auto with kernel|]. apply sched_ok_block, Hk.
  - destruct Ho as [Hi Hb]. unfold ipc_recv_resume. destruct (proc_at_ok k i Hk Hi) as (p & -> & Hp). cbn [mbind option_bind].
    destruct (recv_loop_step i source buffer max (put_proc i (set_waiting false p) k)) as (out & -> & H'); [auto with kernel|done..|eauto].
  - by apply Hipc, share_ok.
  - by apply Hipc, grant_step.
  - by apply Hipc, revoke_step.
  - by apply Hipc, channel_create_ok.
  - by apply Hipc, join_ok.
  - by apply Hipc, leave_ok.
  - destruct (channel_send_step id sender hd ty data sz flags k Hk Ho) as (r & k' & -> & Hk'). eauto.
  - destruct Ho as [Hi Hb]. destruct (channel_recv_step i id out buffer blen flags k Hk Hi Hb) as (res & -> & H). eauto.
  - eexists. split; [done|]. apply kernel_ok_with_sys; [done|]. apply sched_ok_block, Hk.
  - destruct Ho as (Hi & Hc & H0 & Hb). destruct (proc_at_ok k i Hk Hi) as (p & Hp & _).
    destruct (lookup_lt_is_Some_2 (channel_table (ipc_of k)) c) as [ch Hch]; [by rewrite (io_channels _ (ko_ipc _ Hk))|].
    destruct (receive_round_ok k i p c ch id out buffer blen flags) as (res & -> & H); try done.
    eexists. split; [done|]. by apply channel_post_ok in H.
Qed.

End run.
End IpcRun.

Module IpcWake.

Import Arrays Sched SchedLists SchedSpec SchedRun Ipc IpcSpec IpcMail IpcCaps IpcChannels IpcRun.

(** ** Start-up *)

(** The static tables of the image: zeroed memory. *)
Definition zero_message : ipc_message_slot :=
  {| cm_header := 0; cm_type := 0; cm_size := 0; cm_flags := 0; cm_sender_pid := 0; cm_data := replicate CONFIG_MSG_DATA_MAX 0 |}.
Definition zero_channel : ipc_channel :=
  {| ch_used := false; ch_id := 0; ch_flags := 0; ch_name := replicate CONFIG_IPC_CHANNEL_NAME_MAX 0;
     ch_queue := replicate CONFIG_IPC_CHANNEL_QUEUE_LEN zero_message; ch_head := 0; ch_tail := 0; ch_count := 0;
     ch_waiters := replicate CONFIG_IPC_CHANNEL_WAITERS None; ch_waiter_count := 0;
     ch_subscribers := replicate CONFIG_IPC_CHANNEL_SUBSCRIBERS None; ch_subscriber_count := 0 |}.
Definition zero_ipc : ipc :=
  {| procs := replicate MAX_PROCS zero_endpoint;
     share_table := replicate CONFIG_IPC_MAX_SHARED_REGIONS
       {| sr_used := false; sr_owner := 0; sr_target := 0; sr_addr := 0; sr_pages := 0; sr_flags := 0 |};
     ipc_initialized := false; channel_table := replicate CONFIG_IPC_MAX_CHANNELS zero_channel;
     next_channel_id := 1; service_channel_ids := replicate IPC_SERVICE_COUNT 0 |}.

(** [ipc_attach_process] on every slot, as [process_system_init] does. *)
Definition attach_endpoint (p : ipc_proc) : ipc_proc := clear_endpoint (mailbox_init (ipc_mailbox p)) p.

Section boot.
Context (place : Sched.placement).

(** The order of kmain: [ipc_system_init], later [process_system_init]. *)
Definition boot_kernel (idle : Z) (s : sched) : option kernel :=
  k ← ipc_system_init {| sys := s; ipc_of := zero_ipc |};
  Some (with_sys (process_system_init place idle)
          (with_ipc (put_procs (attach_endpoint <$> procs (ipc_of k)) (ipc_of k)) k)).

(** The kernels that any sequence of operations leads to. *)
Inductive kreachable : kernel → Prop :=
| kreach_boot s idle k : boot_tables s → boot_kernel idle s = Some k → kreachable k
| kreach_step k o k' : kreachable k → kop_ok k o → kstep place k o = Some k' → kreachable k'.

Lemma reset_channel_ok c : channel_ok c → channel_ok (reset_channel c).
Proof.
  intros [? ? ? ? ? Hd (Hw & _) (Hs & _)].
  constructor; simpl; rewrite ?length_insert, ?length_fmap; try done; try (unfold CONFIG_IPC_CHANNEL_QUEUE_LEN; lia).
  - apply Forall_fmap. eapply Forall_impl; [exact Hd|]. intros m [? _]. simpl. split; [done|lia].
  - split; [by rewrite length_fmap|split; [lia|constructor]].
  - split; [by rewrite length_fmap|split; [lia|constructor]].
Qed.

Lemma create_services_ok names k :
  ipc_ok (ipc_of k) → Forall (fun n => name_readable (Some n) 0) names →
  ∃ ids k', create_services names k = Some (ids, k') ∧ length ids = length names ∧ ipc_ok (ipc_of k') ∧
    (boot_tables (sys k) → boot_tables (sys k')).
Proof.
  intros Hk Hn. revert k Hk. induction Hn as [|n names Hn _ IH]; intros k Hk; [by exists [], k|]. cbn [create_services].
  destruct (channel_create_ipc_ok (Some n) 0 IPC_CHANNEL_FLAG_KERNEL k Hk Hn) as (r & k1 & -> & Hk1 & Hs1). cbn [mbind option_bind].
  rewrite <- Hs1. set (k2 := with_sys _ k1).
  destruct (r <? 0).
  - destruct (IH k2 Hk1) as (ids & k3 & -> & Hl & H3 & Hb). eexists _, _. split; [done|]. split; [simpl; by rewrite Hl|done].
  - destruct (IH k1 Hk1) as (ids & k3 & -> & Hl & H3 & Hb). eexists _, _. split; [done|]. split; [simpl; by rewrite Hl|done].
Qed.

Lemma zero_ipc_ok : ipc_ok zero_ipc.
Proof.
  constructor; try done.
  - change (procs zero_ipc) with (replicate MAX_PROCS zero_endpoint). apply Forall_replicate, zero_endpoint_ok.
  - change (channel_table zero_ipc) with (replicate CONFIG_IPC_MAX_CHANNELS zero_channel). apply Forall_replicate.
    constructor; try done; try (simpl; unfold CONFIG_IPC_CHANNEL_QUEUE_LEN; lia).
    + change (ch_queue zero_channel) with (replicate CONFIG_IPC_CHANNEL_QUEUE_LEN zero_message). by apply Forall_replicate.
    + split; [done|split; [simpl; lia|constructor]].
    + split; [done|split; [simpl; lia|constructor]].
Qed.

Lemma service_names_readable : Forall (fun n => name_readable (Some n) 0) service_names.
Proof. repeat (apply Forall_cons; split; [right; by_eval|]). constructor. Qed.

Lemma system_init_ok k :
  ipc_ok (ipc_of k) → ∃ k', ipc_system_init k = Some k' ∧ ipc_ok (ipc_of k') ∧
    ipc_initialized (ipc_of k') = true ∧ (boot_tables (sys k) → boot_tables (sys k')).
Proof.
  intros [Hp He Hs Hc Hch _]. unfold ipc_system_init. set (k1 := with_ipc _ k).
  destruct (create_services_ok service_names k1) as (ids & k2 & -> & Hl & H2 & Hb); [|apply service_names_readable|].
  { constructor; simpl; rewrite ?length_fmap; try done. apply Forall_fmap. eapply Forall_impl; [exact Hch|]. apply reset_channel_ok. }
  cbn [mbind option_bind]. eexists. split; [done|]. split; [destruct H2; by constructor|]. done.
Qed.

Lemma boot_kernel_ok idle s : boot_tables s → ∃ k, boot_kernel idle s = Some k ∧ kernel_ok k.
Proof.
  intros Hb. unfold boot_kernel. destruct (system_init_ok {| sys := s; ipc_of := zero_ipc |} zero_ipc_ok) as (k & Hk & Hi & _ & Hb').
  rewrite Hk. cbn [mbind option_bind]. eexists. split; [done|]. constructor.
  - exists (a_boot place (sys k) idle). specialize (Hb' Hb). split; [by apply boot_R|by apply boot_inv].
  - destruct Hi. constructor; simpl; rewrite ?length_fmap; try done. apply Forall_fmap.
    eapply Forall_impl; [eassumption|]. intros p Hp. apply clear_endpoint_ok; [done|]. apply mailbox_clear_ok, Hp.
Qed.

Lemma kreachable_ok k : kreachable k → kernel_ok k.
Proof.
  induction 1 as [s idle k Hb Hk|k o k' _ Hk Ho Hs].
  - destruct (boot_kernel_ok idle s Hb) as (k' & Hk' & ?). congruence.
  - destruct (kstep_ok place k o Hk Ho) as (k2 & Hk2 & ?). congruence.
Qed.

(** C3: the IPC layer is memory safe.  Start-up completes, and in every kernel
    reached from it by any interleaving of operations of the scheduler and of the IPC
    layer, called with pointers into the tables, buffers as long as the caller says and,
    for a new thread, the default size of stack or one of at least 51 bytes, the next operation completes too (no loop runs on, no array is left, no
    missing slot is followed), and the kernel is consistent: counts and cursors in
    bounds, waiters and subscribers processes of the table, capability tables without
    duplicates, the scheduler's invariant included. *)
Theorem kernel_steps_safe :
  (∀ idle s, boot_tables s → ∃ k, boot_kernel idle s = Some k ∧ kernel_ok k) ∧
  (∀ k, kreachable k → kernel_ok k ∧ ∀ o, kop_ok k o → ∃ k', kstep place k o = Some k').
Proof.
  split; [exact boot_kernel_ok|]. intros k Hk%kreachable_ok. split; [done|].
  intros o Ho. destruct (kstep_ok place k o Hk Ho) as (k' & ? & _). eauto.
Qed.
End boot.

(** ** A receiver that is asleep and registered is woken *)

Lemma process_wake_ready s i t :
  sched_ok s → processes s !! i = Some t → state t = PROC_WAITING →
  ∃ t', processes (process_wake i s) !! i = Some t' ∧ state t' = PROC_READY ∧ on_run_queue t' = true.
Proof.
  intros (a & HR & Hinv) Ht Hw.
  assert (Hi : (i < MAX_PROCS)%nat) by (rewrite <- (sched_ok_procs s); [by eapply lookup_lt_Some|by exists a]).
  destruct (wake_ok s a i HR Hinv Hi) as [HR' (H' & Hcur' & _)].
  destruct (HR) as (_ & Hp & _ & Hid & _). destruct (HR') as (Hs' & Hp' & _).
  assert (Ha : a_procs a !! i = Some (core t)) by (by rewrite Hp, core_lookup, Ht).
  assert (Hpi : a_procs (a_wake_proc i a) !! i = Some (waking (core t))).
  { unfold a_wake_proc. rewrite Ha. change (state (core t)) with (state t). rewrite bool_decide_eq_true_2 by done.
    destruct (a_enqueue_same i (a_upd i waking (a_unsleep i a))) as (-> & _).
    rewrite lookup_a_upd, decide_True by done. simpl. by rewrite Ha. }
  destruct (lookup_lt_is_Some_2 (processes (process_wake i s)) i) as [t' Ht']; [by rewrite (sh_procs _ _ _ Hs')|].
  assert (Hcore : core t' = waking (core t)).
  { rewrite Hp', core_lookup, Ht' in Hpi. exact (Some_inj _ _ Hpi). }
  assert (Hst : state t' = PROC_READY) by (change (state t') with (state (core t')); by rewrite Hcore).
  exists t'. split; [done|]. split; [done|]. rewrite (sh_on _ _ _ Hs' i t' Ht'). apply bool_decide_eq_true_2.
  destruct (ai_ready _ _ H' i _ Hpi) as [?|Hidle]; [done| |done|].
  - intros E. destruct (Hcur' i (eq_sym E)) as (q & Hq & Hqs). rewrite Hpi in Hq. injection Hq as <-. done.
  - exfalso. destruct Hinv as (H & _). assert (E : a_idle a = Some i).
    { revert Hidle. unfold a_wake_proc. rewrite Ha. case_match; [|done].
      by destruct (a_enqueue_same i (a_upd i waking (a_unsleep i a))) as (_ & _ & -> & _). }
    destruct (ai_idle_state _ _ H i _ E Ha) as [E'|E']; change (state (core t)) with (state t) in E'; congruence.
Qed.

(** C38: a message wakes a sleeping receiver.  When a process is blocked and first
    on the list of waiters of its own mailbox, a send to it that is allowed and finds
    room delivers the message and makes the process ready, on a run queue. *)
Theorem send_wakes_receiver k target msg size i p t w ws :
  kernel_ok k → 0 ≤ size → (∀ b, msg = Some b → size ≤ Z.of_nat (length b)) →
  send_target k target msg size = Some i → (length (inbox k i) < CONFIG_MSG_QUEUE_LEN)%nat →
  proc_at k i = Some p → waiting_on (ipc_mailbox p) = w :: ws → 0 < w → process_lookup w (sys k) = Some i →
  processes (sys k) !! i = Some t → state t = PROC_WAITING →
  ∃ k' t', ipc_send target msg size k = Some (size, k') ∧
    inbox k' i = inbox k i ++ [(caller_pid k, take (Z.to_nat size) (default [] msg))] ∧
    processes (sys k') !! i = Some t' ∧ state t' = PROC_READY ∧ on_run_queue t' = true.
Proof.
  intros Hk Hs Hmsg Htg Hroom Hp Hw Hpos Hlk Ht Hst.
  destruct (process_wake_ready (sys k) i t) as (t' & Ht' & Hrdy & Hon); [apply Hk|done..|].
  destruct (send_ok k target msg size Hk Hs Hmsg) as (r & k' & Hsend & _ & Hpost). rewrite Htg in Hpost.
  unfold delivered in Hpost. rewrite decide_True in Hpost by done. destruct Hpost as (Hr & Hin & _ & Hsys & _).
  assert (Hlen : r = size).
  { rewrite Hr, length_take. unfold send_target in Htg. destruct msg as [b|]; simpl.
    - specialize (Hmsg b eq_refl). lia.
    - destruct (0 <? size) eqn:E; bool_prop; [|lia]. rewrite andb_false_r in Htg. done. }
  subst r. rewrite Hlen in Hsend. exists k', t'. split; [done|]. split; [done|]. rewrite Hsys.
  unfold waiters_of. rewrite Hp, Hw. unfold wake_pid. by rewrite (proj2 (Z.ltb_lt 0 w)), Hlk by lia.
Qed.

(** ** From a send to the receive it wakes *)

(** What was sent is what is received.  When a send to a process without
    waiting messages succeeds, and the process then goes on after its sleep in
    [ipc_recv] (in any kernel with the same IPC state, whatever has been scheduled
    in between), asking for any sender or for this one and allowed to receive from
    it, the receive returns the size of the message and the buffer starts with its
    bytes, cut to the buffer's size; the mailbox is empty again. *)
Theorem ipc_rendezvous k target msg size i k' k2 t p source buffer max :
  kernel_ok k → 0 ≤ size → (∀ b, msg = Some b → size ≤ Z.of_nat (length b)) →
  send_target k target msg size = Some i → inbox k i = [] → ipc_send target msg size k = Some (size, k') →
  kernel_ok k2 → ipc_of k2 = ipc_of k' → processes (sys k2) !! i = Some t → proc_at k2 i = Some p →
  (source = IPC_ANY_PROCESS ∨ source = caller_pid k) → holds_right t p (caller_pid k) IPC_RIGHT_RECV = true →
  0 ≤ max → (∀ d, buffer = Some d → max ≤ Z.of_nat (length d)) →
  ∃ k3, ipc_recv_resume i source buffer max k2 =
    Some (RReturn size (fill buffer max (take (Z.to_nat size) (default [] msg))) k3) ∧ inbox k3 i = [].
Proof.
  intros Hk Hs Hmsg Htg Hempty Hsend Hk2 Hipc Ht Hp Hsrc Hright Hmax Hb.
  destruct (send_ok k target msg size Hk Hs Hmsg) as (r & k'' & Hsend' & _ & Hpost).
  rewrite Hsend in Hsend'. injection Hsend' as <- <-. rewrite Htg in Hpost. unfold delivered in Hpost.
  rewrite decide_True in Hpost by (rewrite Hempty; unfold CONFIG_MSG_QUEUE_LEN; simpl; lia).
  destruct Hpost as (Hr & Hin & _). rewrite Hempty in Hin. cbn [app] in Hin.
  assert (Hi : (i < MAX_PROCS)%nat) by (rewrite <- (io_procs _ (ko_ipc _ Hk2)); by eapply lookup_lt_Some).
  assert (Hin2 : messages (ipc_mailbox p) = [(caller_pid k, take (Z.to_nat size) (default [] msg))]).
  { rewrite <- Hin. unfold inbox, proc_at. rewrite <- Hipc. unfold proc_at in Hp. by rewrite Hp. }
  destruct (proc_at_ok k2 i Hk2 Hi) as (q & Hq & Hpo). rewrite Hp in Hq. injection Hq as <-.
  unfold ipc_recv_resume. rewrite Hp. cbn [mbind option_bind]. set (k4 := put_proc i (set_waiting false p) k2).
  destruct (recv_loop_ok RECV_FUEL i source buffer max k4 t (set_waiting false p)) as (out & -> & H); try done.
  - unfold k4. auto with kernel.
  - unfold k4. rewrite proc_at_put, decide_True by (done || by eapply lookup_lt_Some). done.
  - simpl. rewrite Hin2. unfold RECV_FUEL, CONFIG_MSG_QUEUE_LEN. simpl. lia.
  - change (ipc_mailbox (set_waiting false p)) with (ipc_mailbox p) in H. rewrite Hin2 in H.
    assert (Hm : matches source (caller_pid k, take (Z.to_nat size) (default [] msg)) = true).
    { unfold matches. destruct Hsrc as [->|<-]; [done|]. simpl. rewrite Z.eqb_refl. apply orb_true_r. }
    cbn [receive fst] in H. rewrite Hm in H. change (holds_right t (set_waiting false p)) with (holds_right t p) in H.
    rewrite Hright in H. unfold recv_post in H. destruct out as [r b k3|k3]; [|done]. destruct H as (-> & -> & Hre).
    exists k3. split; [by rewrite <- Hr|]. apply Hre.
Qed.

End IpcWake.
