(* ===== verification/IpcExamples.v ===== *)
(** Two user processes on a freshly started kernel, one asleep in [ipc_recv]: the
    theorems about the IPC layer applied to them. *)

From S2P Require Import Prelude Arrays Sched SchedLists SchedSpec SchedRun Ipc IpcSpec IpcMail IpcCaps IpcChannels IpcRun.

Module IpcExamples.

Import Arrays Sched SchedLists SchedSpec SchedRun Ipc IpcSpec IpcMail IpcCaps IpcChannels IpcRun IpcWake.

(** ** A concrete run *)

Definition run (ops : list kop) (k : kernel) : option kernel := foldl (fun k o => k ≫= fun k => kstep stacks k o) (Some k) ops.

(** Two user processes, with pids 1 and 2 in the slots 1 and 2; the first may receive
    from the second, the second may send to the first; the first runs. *)
Definition set_up : list kop :=
  [KSched (OCreate false (Some 8192) 4096); KAlloc 1; KSched (OCreate false (Some 12288) 4096); KAlloc 2;
   KGrant 1 2 IPC_RIGHT_RECV; KGrant 2 1 IPC_RIGHT_SEND; KSched (OSchedule 5)].

(** The first process receives and sleeps, and the second runs. *)
Definition fall_asleep : list kop := [KRecv IPC_ANY_PROCESS (Some (replicate 8 0)) 8; KRecvBlock 1 6].

Definition booted : kernel := default {| sys := bss; ipc_of := zero_ipc |} (boot_kernel stacks 4096 bss).
Definition two_processes : kernel := default booted (run set_up booted).
Definition sleeping_receiver : kernel := default booted (run fall_asleep two_processes).

Lemma run_ok ops k :
  kernel_ok k → Forall (fun o => ∀ k, kop_ok k o) ops → ∃ k', run ops k = Some k' ∧ kernel_ok k'.
Proof.
  intros Hk Ho. revert k Hk. induction Ho as [|o ops Ho _ IH]; intros k Hk; [by exists k|].
  destruct (kstep_ok stacks k o Hk (Ho k)) as (k1 & H1 & Hk1). unfold run. cbn [foldl mbind option_bind]. rewrite H1. by apply IH.
Qed.

Lemma run_default_ok ops k d : kernel_ok k → Forall (fun o => ∀ k, kop_ok k o) ops → kernel_ok (default d (run ops k)).
Proof. intros Hk Ho. destruct (run_ok ops k Hk Ho) as (k' & -> & ?). done. Qed.

Lemma booted_ok : kernel_ok booted.
Proof. unfold booted. destruct (boot_kernel_ok stacks 4096 bss bss_tables) as (k & -> & ?). done. Qed.

Lemma two_processes_ok : kernel_ok two_processes.
Proof.
  apply run_default_ok; [apply booted_ok|]. repeat (apply Forall_cons; split; [intros k; simpl; unfold MAX_PROCS; first [by right|done|lia]|]). constructor.
Qed.

Lemma sleeping_receiver_ok : kernel_ok sleeping_receiver.
Proof.
  apply run_default_ok; [apply two_processes_ok|].
  apply Forall_cons; split; [intros k; split; [lia|]; intros b [= <-]; simpl; lia|].
  apply Forall_cons; split; [intros k; simpl; unfold MAX_PROCS; lia|]. constructor.
Qed.

(** The entry of a slot in the two halves of the process table. *)
Definition thread (k : kernel) (i : nat) : process := default blank_process (processes (sys k) !! i).
Definition endpoint (k : kernel) (i : nat) : ipc_proc := default zero_endpoint (proc_at k i).

Lemma thread_at k i : kernel_ok k → (i < MAX_PROCS)%nat → processes (sys k) !! i = Some (thread k i).
Proof. intros Hk Hi. destruct (table_at_ok k i Hk Hi) as [t Ht]. unfold thread. by rewrite Ht. Qed.

Lemma endpoint_at k i : kernel_ok k → (i < MAX_PROCS)%nat → proc_at k i = Some (endpoint k i).
Proof. intros Hk Hi. destruct (proc_at_ok k i Hk Hi) as (p & Hp & _). unfold endpoint. by rewrite Hp. Qed.

Ltac slot := unfold MAX_PROCS; lia.

Lemma hi_readable : ∀ b, Some [104; 105] = Some b → 2 ≤ Z.of_nat (length b).
Proof. intros b H. injection H as <-. simpl. lia. Qed.

Lemma buffer_readable : ∀ d, Some (replicate 8 0) = Some d → 8 ≤ Z.of_nat (length d).
Proof. intros d H. injection H as <-. simpl. lia. Qed.

Lemma ipc_send_refines_witness :
  send_target sleeping_receiver 1 (Some [104; 105]) 2 = Some 1%nat ∧
  ∃ r k', ipc_send 1 (Some [104; 105]) 2 sleeping_receiver = Some (r, k') ∧ inbox k' 1 = [(2, [104; 105])].
Proof.
  split; [vm_compute; reflexivity|].
  destruct (ipc_send_refines sleeping_receiver 1 (Some [104; 105]) 2 sleeping_receiver_ok ltac:(lia) hi_readable)
    as (r & k' & H & _ & Hpost).
  exists r, k'. split; [exact H|].
  replace (send_target sleeping_receiver 1 (Some [104; 105]) 2) with (Some 1%nat) in Hpost by (vm_compute; reflexivity).
  unfold delivered in Hpost. rewrite decide_True in Hpost by (vm_compute; lia). destruct Hpost as (_ & -> & _).
  vm_compute. reflexivity.
Defined.

Lemma ipc_recv_refines_witness :
  ∃ out, ipc_recv_begin IPC_ANY_PROCESS (Some (replicate 8 0)) 8 two_processes = Some out ∧
    recv_post (thread two_processes 1) two_processes 1 (Some (replicate 8 0)) 8 None [] out.
Proof.
  destruct (ipc_recv_refines two_processes 1 (thread two_processes 1) (endpoint two_processes 1) IPC_ANY_PROCESS
    (Some (replicate 8 0)) 8) as (out & H & Hpost).
  - exact two_processes_ok.
  - vm_compute. reflexivity.
  - vm_compute. reflexivity.
  - apply thread_at; [exact two_processes_ok|slot].
  - apply endpoint_at; [exact two_processes_ok|slot].
  - lia.
  - intros _. eexists. reflexivity.
  - exact buffer_readable.
  - exists out. split; [exact H|].
    replace (inbox two_processes 1) with (@nil message) in Hpost by (vm_compute; reflexivity). exact Hpost.
Defined.

Lemma ipc_cap_refines_witness :
  granted 1 (endpoint two_processes 2) = 1 ∧
  (∃ r k', ipc_cap_grant 2 1 4 two_processes = Some (r, k')) ∧
  (∃ k', ipc_cap_revoke 2 1 4 two_processes = Some (0, k')) ∧
  ipc_cap_query 2 1 two_processes = Some (0, Some 1).
Proof.
  split; [vm_compute; reflexivity|].
  destruct (ipc_cap_refines two_processes 2 2 (endpoint two_processes 2) 1 4) as (Hg & Hr & Hq).
  - exact two_processes_ok.
  - vm_compute. reflexivity.
  - lia.
  - lia.
  - lia.
  - vm_compute. reflexivity.
  - apply endpoint_at; [exact two_processes_ok|slot].
  - split; [destruct Hg as (r & k' & H & _); exists r, k'; exact H|].
    split; [destruct Hr as (k' & H & _); exists k'; exact H|]. exact Hq.
Defined.

Lemma revoke_stops_send_witness :
  ∃ k', ipc_cap_revoke 2 1 1 sleeping_receiver = Some (0, k') ∧ ipc_send 1 (Some [104; 105]) 2 k' = Some (-1, k').
Proof.
  apply (revoke_stops_send sleeping_receiver 2 2 (thread sleeping_receiver 2) (endpoint sleeping_receiver 2) 1 1 (Some [104; 105]) 2).
  - exact sleeping_receiver_ok.
  - vm_compute. reflexivity.
  - lia.
  - lia.
  - lia.
  - vm_compute. reflexivity.
  - vm_compute. reflexivity.
  - apply thread_at; [exact sleeping_receiver_ok|slot].
  - apply endpoint_at; [exact sleeping_receiver_ok|slot].
  - vm_compute. reflexivity.
  - vm_compute. discriminate.
  - reflexivity.
Defined.

(** The first service channel, "svc.devmgr". *)
Definition devmgr_channel (k : kernel) : ipc_channel := default zero_channel (channel_at k 0).

Lemma channel_send_refines_witness :
  ∃ r k', ipc_channel_send 1 0 7 0 (Some [1; 2; 3]) 3 0 two_processes = Some (r, k') ∧
    channel_send_post two_processes 1 0 7 0 (Some [1; 2; 3]) 3 0 (devmgr_channel two_processes) r k'.
Proof.
  destruct (channel_send_refines two_processes 1 0 7 0 (Some [1; 2; 3]) 3 0 0 (devmgr_channel two_processes)) as (r & k' & H & _ & Hp).
  - exact two_processes_ok.
  - lia.
  - simpl. lia.
  - vm_compute. reflexivity.
  - vm_compute. reflexivity.
  - exists r, k'. split; [exact H|exact Hp].
Defined.

Lemma channel_receive_refines_witness :
  ∃ res, ipc_channel_receive_begin 1 1 true (Some (replicate 8 0)) 8 0 two_processes = Some res ∧
    channel_recv_post two_processes 1 0 (devmgr_channel two_processes) true (Some (replicate 8 0)) 8 0 res.
Proof.
  destruct (channel_receive_refines two_processes 1 (endpoint two_processes 1) 0 (devmgr_channel two_processes) 1 true
    (Some (replicate 8 0)) 8 0) as (res & H & Hp).
  - exact two_processes_ok.
  - slot.
  - apply endpoint_at; [exact two_processes_ok|slot].
  - vm_compute. reflexivity.
  - vm_compute. reflexivity.
  - lia.
  - exact buffer_readable.
  - exists res. split; [exact H|].
    replace (allowed 1 (endpoint two_processes 1) (devmgr_channel two_processes)) with true in Hp by (vm_compute; reflexivity).
    exact Hp.
Defined.

Lemma send_wakes_receiver_witness :
  state (thread sleeping_receiver 1) = PROC_WAITING ∧
  ∃ k' t', ipc_send 1 (Some [104; 105]) 2 sleeping_receiver = Some (2, k') ∧ processes (sys k') !! 1%nat = Some t' ∧
    state t' = PROC_READY ∧ on_run_queue t' = true.
Proof.
  split; [vm_compute; reflexivity|].
  destruct (send_wakes_receiver sleeping_receiver 1 (Some [104; 105]) 2 1 (endpoint sleeping_receiver 1)
    (thread sleeping_receiver 1) 1 []) as (k' & t' & Hs & _ & Ht).
  - exact sleeping_receiver_ok.
  - lia.
  - exact hi_readable.
  - vm_compute. reflexivity.
  - vm_compute. lia.
  - apply endpoint_at; [exact sleeping_receiver_ok|slot].
  - vm_compute. reflexivity.
  - lia.
  - vm_compute. reflexivity.
  - apply thread_at; [exact sleeping_receiver_ok|slot].
  - vm_compute. reflexivity.
  - exists k', t'. split; [exact Hs|exact Ht].
Defined.

(** After the send, and after the first process is back on the processor. *)
Definition after_send : kernel := default booted (snd <$> ipc_send 1 (Some [104; 105]) 2 sleeping_receiver).
Definition back_again : kernel := default booted (run [KSched (OBlock 7)] after_send).

Lemma after_send_ok : kernel_ok after_send.
Proof.
  unfold after_send. assert (H : holds (Some [104; 105]) 2) by (split; [lia|exact hi_readable]).
  destruct (send_step 1 (Some [104; 105]) 2 sleeping_receiver sleeping_receiver_ok H) as (r & k' & -> & ?). done.
Qed.

Lemma back_again_ok : kernel_ok back_again.
Proof. apply run_default_ok; [apply after_send_ok|]. apply Forall_cons; split; [done|constructor]. Qed.

Lemma ipc_rendezvous_witness :
  current_process (sys back_again) = Some 1%nat ∧
  ∃ k3, ipc_recv_resume 1 IPC_ANY_PROCESS (Some (replicate 8 0)) 8 back_again =
    Some (RReturn 2 (Some [104; 105; 0; 0; 0; 0; 0; 0]) k3) ∧ inbox k3 1 = [].
Proof.
  split; [vm_compute; reflexivity|].
  refine (ipc_rendezvous sleeping_receiver 1 (Some [104; 105]) 2 1 after_send back_again (thread back_again 1)
    (endpoint back_again 1) IPC_ANY_PROCESS (Some (replicate 8 0)) 8 _ _ _ _ _ _ _ _ _ _ _ _ _ _).
  - exact sleeping_receiver_ok.
  - lia.
  - exact hi_readable.
  - vm_compute. reflexivity.
  - vm_compute. reflexivity.
  - vm_compute. reflexivity.
  - exact back_again_ok.
  - vm_compute. reflexivity.
  - apply thread_at; [exact back_again_ok|slot].
  - apply endpoint_at; [exact back_again_ok|slot].
  - left. reflexivity.
  - vm_compute. reflexivity.
  - lia.
  - exact buffer_readable.
Defined.

End IpcExamples.
