(* ===== verification/Sync.v ===== *)
(** Mutexes and semaphores (kernel/sync.c).  A section under [sync_lock] is one
    step.  A lock or wait that has to block is split at its call of
    [process_block_current]: a round of its loop is one definition, and a process
    that is woken runs another round.  An operation is [None] when it would leave an
    array. *)

From S2P Require Import Prelude Arrays Sched SchedLists SchedSpec SchedRun Ipc IpcSpec.

Module Sync.

Import Arrays Sched.

Definition CONFIG_SYNC_MAX_MUTEXES : nat := 32.
Definition CONFIG_SYNC_MAX_SEMAPHORES : nat := 32.
Definition CONFIG_SYNC_MAX_WAITERS : nat := 8.

(** [waiters[CONFIG_SYNC_MAX_WAITERS]] and [wait_count]. *)
Record waiters := Waiters { w_list : list Z; w_count : nat }.

Record sync_mutex := Mutex { m_used : bool; m_locked : bool; m_owner : Z; m_waiters : waiters }.
Record sync_semaphore := Semaphore { s_used : bool; s_count : Z; s_waiters : waiters }.

(** The variables of the file. *)
Record sync := SyncState { mutexes : list sync_mutex; semaphores : list sync_semaphore }.

Definition put_mutex (id : nat) (m : sync_mutex) (y : sync) : sync :=
  {| mutexes := <[id := m]> (mutexes y); semaphores := semaphores y |}.
Definition put_semaphore (id : nat) (m : sync_semaphore) (y : sync) : sync :=
  {| mutexes := mutexes y; semaphores := <[id := m]> (semaphores y) |}.

(** ** Waiter lists *)

Definition waiter_exists (pid : Z) (w : waiters) : option bool :=
  l ← cells (w_list w) (w_count w); Some (bool_decide (is_Some (first_index (fun x => x =? pid) l))).

Definition enqueue_waiter (pid : Z) (w : waiters) : option (Z * waiters) :=
  if (CONFIG_SYNC_MAX_WAITERS <=? w_count w)%nat then Some (-1, w)
  else l ← buf_store (w_list w) (w_count w) pid; Some (0, {| w_list := l; w_count := S (w_count w) |}).

Definition dequeue_waiter (w : waiters) : option (Z * waiters) :=
  if (w_count w =? 0)%nat then Some (-1, w)
  else
    pid ← w_list w !! 0%nat;
    l ← shift_left (w_count w - 1) 1 (w_list w);
    Some (pid, {| w_list := l; w_count := w_count w - 1 |}).

(** [if (!waiter_exists(...)) enqueue_waiter(...);] *)
Definition register (pid : Z) (w : waiters) : option waiters :=
  there ← waiter_exists pid w;
  if (there : bool) then Some w else '(_, w) ← enqueue_waiter pid w; Some w.

(** ** Start-up and creation *)

Definition clear_mutex (m : sync_mutex) : sync_mutex :=
  {| m_used := false; m_locked := false; m_owner := -1; m_waiters := {| w_list := w_list (m_waiters m); w_count := 0 |} |}.
Definition clear_semaphore (s : sync_semaphore) : sync_semaphore :=
  {| s_used := false; s_count := 0; s_waiters := {| w_list := w_list (s_waiters s); w_count := 0 |} |}.

Definition sync_init (y : sync) : sync :=
  {| mutexes := clear_mutex <$> mutexes y; semaphores := clear_semaphore <$> semaphores y |}.

Definition sync_mutex_create (y : sync) : Z * sync :=
  match first_index (fun m => negb (m_used m)) (mutexes y) with
  | None => (-1, y)
  | Some i =>
      match mutexes y !! i with
      | None => (-1, y)
      | Some m => (Z.of_nat i, put_mutex i {| m_used := true; m_locked := false; m_owner := -1;
                                              m_waiters := {| w_list := w_list (m_waiters m); w_count := 0 |} |} y)
      end
  end.

Definition sync_semaphore_create (initial_count : Z) (y : sync) : Z * sync :=
  if initial_count <? 0 then (-1, y)
  else match first_index (fun s => negb (s_used s)) (semaphores y) with
  | None => (-1, y)
  | Some i =>
      match semaphores y !! i with
      | None => (-1, y)
      | Some s => (Z.of_nat i, put_semaphore i {| s_used := true; s_count := initial_count;
                                                  s_waiters := {| w_list := w_list (s_waiters s); w_count := 0 |} |} y)
      end
  end.

(** ** Locking *)

(** A round returns a status, or goes to block. *)
Inductive round :=
| Done (r : Z) (y : sync)
| Block (y : sync).

(** One round of the loop of [sync_mutex_lock] for the process with pid [self]. *)
Definition mutex_lock_round (id : nat) (self : Z) (y : sync) : option round :=
  m ← mutexes y !! id;
  if negb (m_used m) then Some (Done (-1) y)
  else if negb (m_locked m) then
    Some (Done 0 (put_mutex id {| m_used := m_used m; m_locked := true; m_owner := self; m_waiters := m_waiters m |} y))
  else if m_owner m =? self then Some (Done 0 y)
  else
    w ← register self (m_waiters m);
    Some (Block (put_mutex id {| m_used := m_used m; m_locked := m_locked m; m_owner := m_owner m; m_waiters := w |} y)).

(** The unlock up to the wake-up: its status and whom it wakes. *)
Definition mutex_unlock_step (id : nat) (self : Z) (y : sync) : option (Z * Z * sync) :=
  m ← mutexes y !! id;
  if negb (m_used m) || negb (m_locked m) || negb (m_owner m =? self) then Some (-1, -1, y)
  else if (0 <? w_count (m_waiters m))%nat then
    '(pid, w) ← dequeue_waiter (m_waiters m);
    Some (0, pid, put_mutex id {| m_used := m_used m; m_locked := true; m_owner := pid; m_waiters := w |} y)
  else
    Some (0, -1, put_mutex id {| m_used := m_used m; m_locked := false; m_owner := -1; m_waiters := m_waiters m |} y).

(** ** Semaphores *)

Definition semaphore_wait_round (id : nat) (self : Z) (y : sync) : option round :=
  s ← semaphores y !! id;
  if negb (s_used s) then Some (Done (-1) y)
  else if 0 <? s_count s then
    Some (Done 0 (put_semaphore id {| s_used := s_used s; s_count := s_count s - 1; s_waiters := s_waiters s |} y))
  else
    w ← register self (s_waiters s);
    Some (Block (put_semaphore id {| s_used := s_used s; s_count := s_count s; s_waiters := w |} y)).

Definition semaphore_post_step (id : nat) (y : sync) : option (Z * Z * sync) :=
  s ← semaphores y !! id;
  if negb (s_used s) then Some (-1, -1, y)
  else if (0 <? w_count (s_waiters s))%nat then
    '(pid, w) ← dequeue_waiter (s_waiters s);
    Some (0, pid, put_semaphore id {| s_used := s_used s; s_count := s_count s; s_waiters := w |} y)
  else
    Some (0, -1, put_semaphore id {| s_used := s_used s; s_count := s32 (s_count s + 1); s_waiters := s_waiters s |} y).

(** ** The calls, with the scheduler *)

(** A call returns a status, or the caller sleeps. *)
Inductive outcome :=
| Returned (r : Z) (s : sched) (y : sync)
| Asleep (s : sched) (y : sync).

Definition self_pid (s : sched) : option Z := i ← process_current s; pid <$> processes s !! i.

Definition in_table (id : Z) (size : nat) : bool := (0 <=? id) && (id <? Z.of_nat size).

Definition blocking_call (id : Z) (size : nat) (f : nat → Z → sync → option round) (now : Z) (s : sched) (y : sync) : option outcome :=
  if negb (in_table id size) then Some (Returned (-1) s y)
  else match self_pid s with
  | None => Some (Returned (-1) s y)
  | Some self =>
      r ← f (Z.to_nat id) self y;
      Some (match r with Done r y => Returned r s y | Block y => Asleep (process_block_current now s) y end)
  end.

Definition sync_mutex_lock (id now : Z) : sched → sync → option outcome :=
  blocking_call id CONFIG_SYNC_MAX_MUTEXES mutex_lock_round now.

Definition sync_semaphore_wait (id now : Z) : sched → sync → option outcome :=
  blocking_call id CONFIG_SYNC_MAX_SEMAPHORES semaphore_wait_round now.

Definition sync_mutex_unlock (id : Z) (s : sched) (y : sync) : option (Z * sched * sync) :=
  if negb (in_table id CONFIG_SYNC_MAX_MUTEXES) then Some (-1, s, y)
  else match self_pid s with
  | None => Some (-1, s, y)
  | Some self => '(r, w, y) ← mutex_unlock_step (Z.to_nat id) self y; Some (r, Ipc.wake_pid w s, y)
  end.

Definition sync_semaphore_post (id : Z) (s : sched) (y : sync) : option (Z * sched * sync) :=
  if negb (in_table id CONFIG_SYNC_MAX_SEMAPHORES) then Some (-1, s, y)
  else '(r, w, y) ← semaphore_post_step (Z.to_nat id) y; Some (r, Ipc.wake_pid w s, y).

End Sync.
