(* ===== verification/SyncProps.v ===== *)
(** What mutexes and semaphores guarantee, for any interleaving of calls: mutual
    exclusion, the order in which a mutex is handed on, and how many waits a
    semaphore lets through. *)

From S2P Require Import Prelude Arrays Sched SchedLists SchedSpec SchedRun Ipc IpcSpec Sync.

Module SyncProps.

Import Arrays Sched Sync.

(** ** Waiter lists *)

Definition waiters_ok (w : waiters) : Prop :=
  length (w_list w) = CONFIG_SYNC_MAX_WAITERS ∧ (w_count w ≤ CONFIG_SYNC_MAX_WAITERS)%nat.

(** The pids that wait, first come first. *)
Definition waiting (w : waiters) : list Z := take (w_count w) (w_list w).

Lemma waiting_length w : waiters_ok w → length (waiting w) = w_count w.
Proof. intros [? ?]. unfold waiting. rewrite length_take. lia. Qed.

(** The list after [pid] has been registered: at the end, once, and not at all when
    all places are taken. *)
Definition registered (pid : Z) (l : list Z) : list Z :=
  if bool_decide (pid ∈ l) then l else if (CONFIG_SYNC_MAX_WAITERS <=? length l)%nat then l else l ++ [pid].

Lemma register_ok pid w :
  waiters_ok w → ∃ w', register pid w = Some w' ∧ waiters_ok w' ∧ waiting w' = registered pid (waiting w).
Proof.
  intros H. destruct (H) as [Hl Hc]. unfold register, waiter_exists. rewrite cells_ok by lia. cbn [mbind option_bind].
  fold (waiting w). unfold registered. rewrite waiting_length by done.
  assert (E : bool_decide (is_Some (first_index (fun x => x =? pid) (waiting w))) = bool_decide (pid ∈ waiting w)).
  { apply bool_decide_ext. split.
    - intros (j & (x & Hx & ?%Z.eqb_eq & _)%first_index_Some). subst. by eapply list_elem_of_lookup_2.
    - intros (j & Hj)%list_elem_of_lookup_1. apply (first_index_is_Some _ _ j pid Hj), Z.eqb_refl. }
  rewrite E. destruct (bool_decide (pid ∈ waiting w)); [by exists w|]. unfold enqueue_waiter.
  destruct (Nat.leb_spec CONFIG_SYNC_MAX_WAITERS (w_count w)); [by exists w|].
  destruct (push_ok pid (w_count w) (w_list w)) as (-> & Hl' & Ht); [lia|]. cbn [mbind option_bind].
  eexists. split; [done|]. split; [split; simpl; lia|done].
Qed.

Lemma dequeue_ok w :
  waiters_ok w → (0 < w_count w)%nat →
  ∃ pid w', dequeue_waiter w = Some (pid, w') ∧ waiters_ok w' ∧ waiting w = pid :: waiting w'.
Proof.
  intros [Hl Hc] Hpos. unfold dequeue_waiter. rewrite (proj2 (Nat.eqb_neq _ _)) by lia.
  destruct (w_list w) as [|x l] eqn:E; [simpl in *; lia|]. simpl lookup. cbn [mbind option_bind].
  rewrite shift_left_ok by (simpl in *; lia). cbn [mbind option_bind]. eexists _, _. split; [done|]. split.
  - split; [|simpl; lia]. cbn [w_list]. rewrite !length_app, !length_take, !length_drop. cbn [length] in *. lia.
  - unfold waiting. rewrite E. cbn [w_list w_count]. destruct (w_count w) as [|n]; [lia|].
    replace (S n - 1)%nat with n by lia. change (1 - 1)%nat with 0%nat. rewrite take_0. cbn [app take]. rewrite skipn_cons, drop_0.
    cbn [length] in Hl. rewrite take_app_le by (rewrite length_take; unfold CONFIG_SYNC_MAX_WAITERS in *; lia).
    by rewrite take_take, Nat.min_id.
Qed.

(** ** The invariant of the tables *)

Record sync_ok (y : sync) : Prop := {
  yo_mutexes : length (mutexes y) = CONFIG_SYNC_MAX_MUTEXES;
  yo_semaphores : length (semaphores y) = CONFIG_SYNC_MAX_SEMAPHORES;
  yo_mwait : Forall (fun m => waiters_ok (m_waiters m)) (mutexes y);
  yo_swait : Forall (fun s => waiters_ok (s_waiters s)) (semaphores y)
}.

Lemma sync_ok_put_mutex y id m : sync_ok y → waiters_ok (m_waiters m) → sync_ok (put_mutex id m y).
Proof. intros [] ?. constructor; simpl; rewrite ?length_insert; try done. by apply Forall_insert. Qed.

Lemma sync_ok_put_semaphore y id s : sync_ok y → waiters_ok (s_waiters s) → sync_ok (put_semaphore id s y).
Proof. intros [] ?. constructor; simpl; rewrite ?length_insert; try done. by apply Forall_insert. Qed.

#[export] Hint Resolve sync_ok_put_mutex sync_ok_put_semaphore : kernel.

Lemma mutex_at y id : sync_ok y → (id < CONFIG_SYNC_MAX_MUTEXES)%nat → ∃ m, mutexes y !! id = Some m ∧ waiters_ok (m_waiters m).
Proof.
  intros H Hi. destruct (lookup_lt_is_Some_2 (mutexes y) id) as [m Hm]; [by rewrite (yo_mutexes _ H)|].
  exists m. split; [done|]. apply (Forall_lookup_1 _ _ _ _ (yo_mwait _ H) Hm).
Qed.

Lemma semaphore_at y id : sync_ok y → (id < CONFIG_SYNC_MAX_SEMAPHORES)%nat → ∃ s, semaphores y !! id = Some s ∧ waiters_ok (s_waiters s).
Proof.
  intros H Hi. destruct (lookup_lt_is_Some_2 (semaphores y) id) as [s Hs]; [by rewrite (yo_semaphores _ H)|].
  exists s. split; [done|]. apply (Forall_lookup_1 _ _ _ _ (yo_swait _ H) Hs).
Qed.

Lemma lookup_put_mutex y id m j :
  (id < length (mutexes y))%nat → mutexes (put_mutex id m y) !! j = if decide (id = j) then Some m else mutexes y !! j.
Proof. intros. simpl. rewrite list_lookup_insert. repeat case_decide; try done; naive_solver lia. Qed.

Lemma lookup_put_semaphore y id s j :
  (id < length (semaphores y))%nat → semaphores (put_semaphore id s y) !! j = if decide (id = j) then Some s else semaphores y !! j.
Proof. intros. simpl. rewrite list_lookup_insert. repeat case_decide; try done; naive_solver lia. Qed.

Lemma in_table_nat id size : in_table id size = true → (Z.to_nat id < size)%nat.
Proof. unfold in_table. intros H. bool_prop. lia. Qed.

(** What a round of a lock does. *)
Definition lock_post (id : nat) (self : Z) (y : sync) (m : sync_mutex) (r : round) : Prop :=
  if negb (m_used m) then r = Done (-1) y
  else if negb (m_locked m) then
    r = Done 0 (put_mutex id {| m_used := true; m_locked := true; m_owner := self; m_waiters := m_waiters m |} y)
  else if m_owner m =? self then r = Done 0 y
  else ∃ w, r = Block (put_mutex id {| m_used := true; m_locked := true; m_owner := m_owner m; m_waiters := w |} y) ∧
         waiters_ok w ∧ waiting w = registered self (waiting (m_waiters m)).

Lemma lock_round_ok id self y m :
  mutexes y !! id = Some m → waiters_ok (m_waiters m) → ∃ r, mutex_lock_round id self y = Some r ∧ lock_post id self y m r.
Proof.
  intros Hm Hw. unfold mutex_lock_round, lock_post. rewrite Hm. cbn [mbind option_bind].
  destruct (m_used m) eqn:Eu; cbn [negb]; [|by eexists]. destruct (m_locked m) eqn:El; cbn [negb]; [|by eexists].
  destruct (m_owner m =? self); [by eexists|]. destruct (register_ok self _ Hw) as (w & -> & Hok & Hwt). cbn [mbind option_bind]. eauto 6.
Qed.

(** What an unlock does: its status, whom it wakes, and the table. *)
Definition unlock_post (id : nat) (self : Z) (y : sync) (m : sync_mutex) (r : Z * Z * sync) : Prop :=
  if m_used m && m_locked m && (m_owner m =? self) then
    match waiting (m_waiters m) with
    | [] => r = (0, -1, put_mutex id {| m_used := true; m_locked := false; m_owner := -1; m_waiters := m_waiters m |} y)
    | p :: rest => ∃ w, r = (0, p, put_mutex id {| m_used := true; m_locked := true; m_owner := p; m_waiters := w |} y) ∧
        waiters_ok w ∧ waiting w = rest
    end
  else r = (-1, -1, y).

Lemma unlock_step_ok id self y m :
  mutexes y !! id = Some m → waiters_ok (m_waiters m) → ∃ r, mutex_unlock_step id self y = Some r ∧ unlock_post id self y m r.
Proof.
  intros Hm Hw. unfold mutex_unlock_step, unlock_post. rewrite Hm. cbn [mbind option_bind].
  destruct (m_used m) eqn:Eu; cbn [negb orb andb]; [|by eexists]. destruct (m_locked m) eqn:El; cbn [negb orb andb]; [|by eexists].
  destruct (m_owner m =? self); cbn [negb]; [|by eexists]. destruct (Nat.ltb_spec 0 (w_count (m_waiters m))).
  - destruct (dequeue_ok _ Hw) as (p & w & -> & Hok & ->); [done|]. cbn [mbind option_bind]. eauto 6.
  - assert (E : waiting (m_waiters m) = []) by (apply nil_length_inv; rewrite waiting_length by done; lia). rewrite E. by eexists.
Qed.

Definition wait_post (id : nat) (self : Z) (y : sync) (m : sync_semaphore) (r : round) : Prop :=
  if negb (s_used m) then r = Done (-1) y
  else if 0 <? s_count m then
    r = Done 0 (put_semaphore id {| s_used := true; s_count := s_count m - 1; s_waiters := s_waiters m |} y)
  else ∃ w, r = Block (put_semaphore id {| s_used := true; s_count := s_count m; s_waiters := w |} y) ∧
         waiters_ok w ∧ waiting w = registered self (waiting (s_waiters m)).

Lemma wait_round_ok id self y m :
  semaphores y !! id = Some m → waiters_ok (s_waiters m) → ∃ r, semaphore_wait_round id self y = Some r ∧ wait_post id self y m r.
Proof.
  intros Hm Hw. unfold semaphore_wait_round, wait_post. rewrite Hm. cbn [mbind option_bind].
  destruct (s_used m) eqn:Eu; cbn [negb]; [|by eexists]. destruct (0 <? s_count m); [by eexists|].
  destruct (register_ok self _ Hw) as (w & -> & Hok & Hwt). cbn [mbind option_bind]. eauto 6.
Qed.

Definition post_post (id : nat) (y : sync) (m : sync_semaphore) (r : Z * Z * sync) : Prop :=
  if s_used m then
    match waiting (s_waiters m) with
    | [] => r = (0, -1, put_semaphore id {| s_used := true; s_count := s32 (s_count m + 1); s_waiters := s_waiters m |} y)
    | p :: rest => ∃ w, r = (0, p, put_semaphore id {| s_used := true; s_count := s_count m; s_waiters := w |} y) ∧
        waiters_ok w ∧ waiting w = rest
    end
  else r = (-1, -1, y).

Lemma post_step_ok id y m :
  semaphores y !! id = Some m → waiters_ok (s_waiters m) → ∃ r, semaphore_post_step id y = Some r ∧ post_post id y m r.
Proof.
  intros Hm Hw. unfold semaphore_post_step, post_post. rewrite Hm. cbn [mbind option_bind].
  destruct (s_used m) eqn:Eu; cbn [negb]; [|by eexists]. destruct (Nat.ltb_spec 0 (w_count (s_waiters m))).
  - destruct (dequeue_ok _ Hw) as (p & w & -> & Hok & ->); [done|]. cbn [mbind option_bind]. eauto 6.
  - assert (E : waiting (s_waiters m) = []) by (apply nil_length_inv; rewrite waiting_length by done; lia). rewrite E. by eexists.
Qed.

(** ** Any interleaving of calls *)

(** The tables, who has been told that it holds which mutex and has not unlocked it
    since, and for each semaphore its initial count and posts less the waits that
    have returned. *)
Record world := World { tables : sync; held : gset (Z * nat); budget : nat → Z }.

Definition set_budget (id : nat) (z : Z) (b : nat → Z) : nat → Z := fun j => if decide (j = id) then z else b j.

(** A call of a process with pid [self], in any state [s] of the scheduler: what runs
    between two calls may be anything.  A process that was asleep calls again. *)
Inductive step : world → world → Prop :=
| step_lock id now s self r s' y y' h b :
    self_pid s = Some self → sync_mutex_lock id now s y = Some (Returned r s' y') →
    step (World y h b) (World y' (if r =? 0 then {[(self, Z.to_nat id)]} ∪ h else h) b)
| step_lock_sleep id now s s' y y' h b :
    sync_mutex_lock id now s y = Some (Asleep s' y') → step (World y h b) (World y' h b)
| step_unlock id s self r s' y y' h b :
    self_pid s = Some self → sync_mutex_unlock id s y = Some (r, s', y') →
    step (World y h b) (World y' (if r =? 0 then h ∖ {[(self, Z.to_nat id)]} else h) b)
| step_create y r y' h b : sync_mutex_create y = (r, y') → step (World y h b) (World y' h b)
| step_sem_create c y r y' h b :
    c < 2147483648 → sync_semaphore_create c y = (r, y') → step (World y h b) (World y' h (if r <? 0 then b else set_budget (Z.to_nat r) c b))
| step_wait id now s self r s' y y' h b :
    self_pid s = Some self → sync_semaphore_wait id now s y = Some (Returned r s' y') →
    step (World y h b) (World y' h (if r =? 0 then set_budget (Z.to_nat id) (b (Z.to_nat id) - 1) b else b))
| step_wait_sleep id now s s' y y' h b :
    sync_semaphore_wait id now s y = Some (Asleep s' y') → step (World y h b) (World y' h b)
| step_post id s r s' y y' h b :
    sync_semaphore_post id s y = Some (r, s', y') →
    step (World y h b) (World y' h (if r =? 0 then set_budget (Z.to_nat id) (b (Z.to_nat id) + 1) b else b)).

(** From [sync_init] on tables of the right size. *)
Inductive reached : world → Prop :=
| reached_init y : sync_ok (sync_init y) → reached (World (sync_init y) ∅ (fun _ => 0))
| reached_step w w' : reached w → step w w' → reached w'.

(** A holder owns its mutex; the count of a semaphore is backed by its budget. *)
Record world_ok (w : world) : Prop := {
  wo_sync : sync_ok (tables w);
  wo_held p id : (p, id) ∈ held w → ∃ m, mutexes (tables w) !! id = Some m ∧ m_used m = true ∧ m_locked m = true ∧ m_owner m = p;
  wo_budget id m : semaphores (tables w) !! id = Some m → s_used m = true →
    s_count m ≤ budget w id ∧ 0 ≤ budget w id ∧ -2147483648 ≤ s_count m < 2147483648
}.

(** Changing one mutex keeps the rest. *)
Lemma world_ok_mutex y h b h' id m m' :
  world_ok (World y h b) → mutexes y !! id = Some m → waiters_ok (m_waiters m') →
  (∀ p j, (p, j) ∈ h' → j ≠ id → (p, j) ∈ h) →
  (∀ p, (p, id) ∈ h' → m_used m' = true ∧ m_locked m' = true ∧ m_owner m' = p) →
  world_ok (World (put_mutex id m' y) h' b).
Proof.
  intros [Hs Hh Hb] Hm Hw Ho Hid. constructor; simpl in *; [auto with kernel| |done].
  intros p j Hj. assert (Hlt : (id < length (mutexes y))%nat) by (by eapply lookup_lt_Some).
  rewrite list_lookup_insert. case_decide as E.
  - destruct E as [<- _]. exists m'. split; [done|]. auto.
  - apply Hh, Ho; [done|]. intros ->. apply E. done.
Qed.

Lemma world_ok_semaphore y h b b' id m m' :
  world_ok (World y h b) → semaphores y !! id = Some m → waiters_ok (s_waiters m') →
  (∀ j, j ≠ id → b' j = b j) → (s_used m' = true → s_count m' ≤ b' id ∧ 0 ≤ b' id ∧ -2147483648 ≤ s_count m' < 2147483648) →
  world_ok (World (put_semaphore id m' y) h b').
Proof.
  intros [Hs Hh Hb] Hm Hw Ho Hid. constructor; simpl in *; [auto with kernel|done|].
  intros j m2 Hj Hu. assert (Hlt : (id < length (semaphores y))%nat) by (by eapply lookup_lt_Some).
  rewrite list_lookup_insert in Hj. case_decide as E.
  - destruct E as [<- _]. simplify_eq. auto.
  - rewrite Ho; [by apply (Hb j m2)|]. intros ->. apply E. done.
Qed.

(** The call behind a step: the index, the caller and the round. *)
Lemma blocking_call_inv id size f now s y o :
  blocking_call id size f now s y = Some o →
  (o = Returned (-1) s y) ∨
  ∃ self r, in_table id size = true ∧ self_pid s = Some self ∧ f (Z.to_nat id) self y = Some r ∧
    o = match r with Done r y => Returned r s y | Block y => Asleep (process_block_current now s) y end.
Proof.
  unfold blocking_call. destruct (in_table id size); simpl; [|intros [= <-]; by left].
  destruct (self_pid s) as [self|]; [|intros [= <-]; by left]. intros (r & Hr & [= <-])%bind_Some. right. eauto 6.
Qed.

Lemma lock_step_ok id now s y o h b :
  world_ok (World y h b) → sync_mutex_lock id now s y = Some o →
  match o with
  | Returned r s' y' => ∀ self, self_pid s = Some self → world_ok (World y' (if r =? 0 then {[(self, Z.to_nat id)]} ∪ h else h) b)
  | Asleep s' y' => world_ok (World y' h b)
  end.
Proof.
  intros Hw H. apply blocking_call_inv in H as [->|(self & r & Hin & Hself & Hr & ->)]; [done|].
  apply in_table_nat in Hin. destruct (mutex_at y (Z.to_nat id) (wo_sync _ Hw) Hin) as (m & Hm & Hmw).
  destruct (lock_round_ok (Z.to_nat id) self y m Hm Hmw) as (r' & Hr' & Hpost). rewrite Hr in Hr'. injection Hr' as <-.
  unfold lock_post in Hpost. destruct (m_used m) eqn:Eu; cbn [negb] in Hpost; [|by subst].
  destruct (m_locked m) eqn:El; cbn [negb] in Hpost.
  - destruct (m_owner m =? self) eqn:Eo.
    + subst r. bool_prop. intros self' Hs'. rewrite Hself in Hs'. injection Hs' as <-. simpl.
      destruct Hw as [Hs Hh Hb]. constructor; simpl in *; try done. intros p j Hj. apply elem_of_union in Hj as [Hj|Hj]; [|auto].
      apply elem_of_singleton in Hj as [= -> ->]. eauto.
    + destruct Hpost as (w & -> & Hwok & _). apply (world_ok_mutex y h b h _ m); try done.
      intros p Hp. destruct (wo_held _ Hw p _ Hp) as (m' & Hm' & _ & _ & <-). simpl in Hm'. rewrite Hm in Hm'. by injection Hm' as <-.
  - subst r. intros self' Hs'. rewrite Hself in Hs'. injection Hs' as <-. simpl.
    apply (world_ok_mutex y h b _ _ m); try done.
    + intros p j Hj Hne. apply elem_of_union in Hj as [Hj|Hj]; [|done]. apply elem_of_singleton in Hj as [= _ ->]. done.
    + intros p Hp. apply elem_of_union in Hp as [Hp|Hp]; [by apply elem_of_singleton in Hp as [= ->]|].
      destruct (wo_held _ Hw p _ Hp) as (m' & Hm' & _ & Hl & _). simpl in Hm'. rewrite Hm in Hm'. injection Hm' as <-. congruence.
Qed.

Lemma unlock_call_ok id s self r s' y y' h b :
  world_ok (World y h b) → self_pid s = Some self → sync_mutex_unlock id s y = Some (r, s', y') →
  world_ok (World y' (if r =? 0 then h ∖ {[(self, Z.to_nat id)]} else h) b).
Proof.
  intros Hw Hself. unfold sync_mutex_unlock. destruct (in_table id CONFIG_SYNC_MAX_MUTEXES) eqn:Hin; simpl; [|by intros [= <- _ <-]].
  rewrite Hself. apply in_table_nat in Hin. destruct (mutex_at y (Z.to_nat id) (wo_sync _ Hw) Hin) as (m & Hm & Hmw).
  destruct (unlock_step_ok (Z.to_nat id) self y m Hm Hmw) as ([[r' w] y1] & -> & Hpost). intros [= <- _ <-].
  unfold unlock_post in Hpost. destruct (m_used m && m_locked m && (m_owner m =? self)) eqn:E; [|by simplify_eq]. bool_prop.
  assert (Hmine : ∀ p, (p, Z.to_nat id) ∈ h ∖ {[(self, Z.to_nat id)]} → False).
  { intros p [Hp Hne]%elem_of_difference. destruct (wo_held _ Hw p _ Hp) as (m' & Hm' & _ & _ & <-). simpl in Hm'.
    rewrite Hm in Hm'. injection Hm' as <-. apply Hne, elem_of_singleton. congruence. }
  destruct (waiting (m_waiters m)) as [|p rest].
  - simplify_eq. apply (world_ok_mutex y h b _ _ m); try done; [set_solver|]. intros p Hp. by destruct (Hmine p).
  - destruct Hpost as (w' & [= -> -> ->] & Hok & _). apply (world_ok_mutex y h b _ _ m); try done; [set_solver|].
    intros q Hq. by destruct (Hmine q).
Qed.

Lemma create_call_ok y r y' h b : world_ok (World y h b) → sync_mutex_create y = (r, y') → world_ok (World y' h b).
Proof.
  intros Hw. unfold sync_mutex_create. destruct (first_index _ (mutexes y)) as [i|] eqn:E; [|by intros [= _ <-]].
  apply first_index_Some in E as (m & Hm & Hu%negb_true_iff & _). rewrite Hm. intros [= _ <-].
  apply (world_ok_mutex y h b h i m); try done.
  - destruct (Forall_lookup_1 _ _ _ _ (yo_mwait _ (wo_sync _ Hw)) Hm) as [Hl _]. split; simpl; [done|lia].
  - intros p Hp. destruct (wo_held _ Hw p _ Hp) as (m' & Hm' & Hu' & _). simpl in Hm'. rewrite Hm in Hm'. injection Hm' as <-. congruence.
Qed.

Lemma sem_create_call_ok c y r y' h b :
  world_ok (World y h b) → c < 2147483648 → sync_semaphore_create c y = (r, y') →
  world_ok (World y' h (if r <? 0 then b else set_budget (Z.to_nat r) c b)).
Proof.
  intros Hw Hmax. unfold sync_semaphore_create. destruct (Z.ltb_spec c 0) as [|Hc]; [by intros [= <- <-]|].
  destruct (first_index _ (semaphores y)) as [i|] eqn:E; [|by intros [= <- <-]].
  apply first_index_Some in E as (m & Hm & _ & _). rewrite Hm. intros [= <- <-]. rewrite (proj2 (Z.ltb_ge _ 0)), Nat2Z.id by lia.
  apply (world_ok_semaphore y h b _ i m); try done.
  - destruct (Forall_lookup_1 _ _ _ _ (yo_swait _ (wo_sync _ Hw)) Hm) as [Hl _]. split; simpl; [done|lia].
  - intros j Hj. unfold set_budget. by rewrite decide_False.
  - intros _. unfold set_budget. rewrite decide_True by done. simpl. lia.
Qed.

Lemma wait_call_ok id now s y o h b :
  world_ok (World y h b) → sync_semaphore_wait id now s y = Some o →
  match o with
  | Returned r s' y' => world_ok (World y' h (if r =? 0 then set_budget (Z.to_nat id) (b (Z.to_nat id) - 1) b else b))
  | Asleep s' y' => world_ok (World y' h b)
  end.
Proof.
  intros Hw H. apply blocking_call_inv in H as [->|(self & r & Hin & Hself & Hr & ->)]; [done|].
  apply in_table_nat in Hin. destruct (semaphore_at y (Z.to_nat id) (wo_sync _ Hw) Hin) as (m & Hm & Hmw).
  destruct (wait_round_ok (Z.to_nat id) self y m Hm Hmw) as (r' & Hr' & Hpost). rewrite Hr in Hr'. injection Hr' as <-.
  unfold wait_post in Hpost. destruct (s_used m) eqn:Eu; cbn [negb] in Hpost; [|by subst].
  destruct (wo_budget _ Hw _ _ Hm Eu) as (Hc & Hpos & Hint). simpl in Hc, Hpos.
  destruct (0 <? s_count m) eqn:Ec; bool_prop.
  - subst r. simpl. apply (world_ok_semaphore y h b _ _ m); try done.
    + intros j Hj. unfold set_budget. by rewrite decide_False.
    + intros _. unfold set_budget. rewrite decide_True by done. simpl. lia.
  - destruct Hpost as (w & -> & Hok & _). by apply (world_ok_semaphore y h b b _ m).
Qed.

Lemma s32_succ c : -2147483648 ≤ c < 2147483648 → s32 (c + 1) ≤ c + 1 ∧ -2147483648 ≤ s32 (c + 1) < 2147483648.
Proof.
  intros Hc. unfold s32, u32. destruct (decide (0 ≤ c + 1)).
  - rewrite Z.mod_small by lia. destruct (Z.ltb_spec (c + 1) 2147483648); lia.
  - assert ((c + 1) mod 4294967296 = c + 1 + 4294967296) as -> by (symmetry; apply (Z.mod_unique _ _ (-1)); lia).
    destruct (Z.ltb_spec (c + 1 + 4294967296) 2147483648); lia.
Qed.

Lemma post_call_ok id s r s' y y' h b :
  world_ok (World y h b) → sync_semaphore_post id s y = Some (r, s', y') →
  world_ok (World y' h (if r =? 0 then set_budget (Z.to_nat id) (b (Z.to_nat id) + 1) b else b)).
Proof.
  intros Hw. unfold sync_semaphore_post. destruct (in_table id CONFIG_SYNC_MAX_SEMAPHORES) eqn:Hin; simpl; [|by intros [= <- _ <-]].
  apply in_table_nat in Hin. destruct (semaphore_at y (Z.to_nat id) (wo_sync _ Hw) Hin) as (m & Hm & Hmw).
  destruct (post_step_ok (Z.to_nat id) y m Hm Hmw) as ([[r' w] y1] & -> & Hpost). intros [= <- _ <-].
  unfold post_post in Hpost. destruct (s_used m) eqn:Eu; [|by simplify_eq].
  destruct (wo_budget _ Hw _ _ Hm Eu) as (Hc & Hpos & Hint). simpl in Hc, Hpos. destruct (s32_succ (s_count m) Hint) as [H1 H2].
  assert (Hb : ∀ j, j ≠ Z.to_nat id → set_budget (Z.to_nat id) (b (Z.to_nat id) + 1) b j = b j).
  { intros j Hj. unfold set_budget. by rewrite decide_False. }
  assert (Hid : set_budget (Z.to_nat id) (b (Z.to_nat id) + 1) b (Z.to_nat id) = b (Z.to_nat id) + 1).
  { unfold set_budget. by rewrite decide_True. }
  destruct (waiting (s_waiters m)) as [|p rest].
  - simplify_eq. change (0 =? 0) with true. cbv iota. apply (world_ok_semaphore y h b _ _ m); try done. intros _. rewrite Hid. simpl. lia.
  - destruct Hpost as (w' & [= -> -> ->] & Hok & _). change (0 =? 0) with true. cbv iota.
    apply (world_ok_semaphore y h b _ _ m); try done. intros _. rewrite Hid. simpl. lia.
Qed.

Lemma reached_ok w : reached w → world_ok w.
Proof.
  induction 1 as [y Hy|w w' _ Hw Hs].
  - constructor; simpl; [done|set_solver|]. intros id m Hm Hu. rewrite list_lookup_fmap in Hm.
    apply fmap_Some in Hm as (m' & _ & ->). done.
  - destruct Hs as [id now s self r s' y y' h b Hself H|id now s s' y y' h b H|id s self r s' y y' h b Hself H|y r y' h b H
      |c y r y' h b Hc H|id now s self r s' y y' h b Hself H|id now s s' y y' h b H|id s r s' y y' h b H].
    + by apply (lock_step_ok id now s y _ h b Hw H).
    + apply (lock_step_ok id now s y _ h b Hw H).
    + by apply (unlock_call_ok id s self r s' y).
    + by apply (create_call_ok y r).
    + by apply (sem_create_call_ok c y).
    + apply (wait_call_ok id now s y _ h b Hw H).
    + apply (wait_call_ok id now s y _ h b Hw H).
    + by apply (post_call_ok id s r s' y).
Qed.

(** C32: mutual exclusion.  Whatever calls processes make, in whatever order, and
    however they are scheduled in between: two processes are never both inside the
    same mutex, that is, told by [sync_mutex_lock] that they hold it and not yet
    through with [sync_mutex_unlock]; and whoever is inside is the recorded owner,
    the only one whose unlock succeeds. *)
Theorem mutex_exclusive w p q id :
  reached w → (p, id) ∈ held w → (q, id) ∈ held w →
  p = q ∧ ∃ m, mutexes (tables w) !! id = Some m ∧ m_used m = true ∧ m_locked m = true ∧ m_owner m = p.
Proof.
  intros H%reached_ok Hp Hq. destruct (wo_held _ H p id Hp) as (m & Hm & Hu & Hl & Ho).
  destruct (wo_held _ H q id Hq) as (m' & Hm' & _ & _ & Ho'). split; [|by exists m]. congruence.
Qed.

(** How a mutex is handed on.  On a mutex another process holds, a lock goes
    to block with the caller at the end of the list of waiters, once; if all eight
    places are taken it blocks without being on the list.  The holder's unlock hands
    the mutex to the first waiter, which is woken, and whose next round of the lock
    then returns 0; without waiters it frees the mutex.  An unlock by anybody else
    fails and changes nothing. *)
Theorem mutex_handover y id m self :
  sync_ok y → (id < CONFIG_SYNC_MAX_MUTEXES)%nat → mutexes y !! id = Some m → m_used m = true → m_locked m = true →
  (m_owner m ≠ self →
     (∃ w, mutex_lock_round id self y =
        Some (Block (put_mutex id {| m_used := true; m_locked := true; m_owner := m_owner m; m_waiters := w |} y)) ∧
        waiting w = registered self (waiting (m_waiters m))) ∧
     mutex_unlock_step id self y = Some (-1, -1, y)) ∧
  (m_owner m = self →
     match waiting (m_waiters m) with
     | [] => mutex_unlock_step id self y =
               Some (0, -1, put_mutex id {| m_used := true; m_locked := false; m_owner := -1; m_waiters := m_waiters m |} y)
     | p :: rest => ∃ w y', mutex_unlock_step id self y = Some (0, p, y') ∧ waiting w = rest ∧
         mutexes y' !! id = Some {| m_used := true; m_locked := true; m_owner := p; m_waiters := w |} ∧
         mutex_lock_round id p y' = Some (Done 0 y')
     end).
Proof.
  intros Hy Hid Hm Hu Hl. destruct (mutex_at y id Hy Hid) as (m' & Hm' & Hw). rewrite Hm in Hm'. injection Hm' as <-.
  destruct (unlock_step_ok id self y m Hm Hw) as (r & Hr & Hpost). unfold unlock_post in Hpost. rewrite Hu, Hl in Hpost. cbn [andb] in Hpost.
  split; intros Ho.
  - rewrite (proj2 (Z.eqb_neq _ _) Ho) in Hpost. subst r. split; [|done].
    destruct (lock_round_ok id self y m Hm Hw) as (r & Hr' & Hpost). unfold lock_post in Hpost.
    rewrite Hu, Hl, (proj2 (Z.eqb_neq _ _) Ho) in Hpost. destruct Hpost as (w & -> & _ & Hwt). by exists w.
  - rewrite (proj2 (Z.eqb_eq _ _) Ho) in Hpost. destruct (waiting (m_waiters m)) as [|p rest]; [by subst r|].
    destruct Hpost as (w & -> & _ & Hwt). eexists w, _. split; [done|]. split; [done|].
    assert (Hat : mutexes (put_mutex id {| m_used := true; m_locked := true; m_owner := p; m_waiters := w |} y) !! id =
                  Some {| m_used := true; m_locked := true; m_owner := p; m_waiters := w |}).
    { rewrite lookup_put_mutex, decide_True by (done || by eapply lookup_lt_Some). done. }
    split; [done|]. unfold mutex_lock_round. rewrite Hat. cbn [mbind option_bind m_used m_locked m_owner negb]. by rewrite Z.eqb_refl.
Qed.

(** A semaphore never lets more through than it should.  Whatever calls
    processes make and in whatever order, the waits on a semaphore that have returned
    are at most its initial count plus the posts to it. *)
Theorem semaphore_bound w id m :
  reached w → semaphores (tables w) !! id = Some m → s_used m = true → 0 ≤ budget w id ∧ s_count m ≤ budget w id.
Proof. intros H%reached_ok Hm Hu. destruct (wo_budget _ H id m Hm Hu) as (? & ? & _). auto. Qed.

(** [n] posts to a semaphore, and whom they wake. *)
Fixpoint posts (n id : nat) (y : sync) : option (list Z * sync) :=
  match n with
  | O => Some ([], y)
  | S n' => '(_, w, y) ← semaphore_post_step id y; '(ws, y) ← posts n' id y; Some (w :: ws, y)
  end.

(** Posts to a semaphore that processes wait on are lost.  A post wakes the
    first waiter but does not raise the count, and a woken process looks at the count
    again.  So after as many posts as there are waiters, on an empty semaphore, every
    waiter has been woken, the count is still 0, and each of them, on its next round,
    goes back to sleep. *)
Theorem semaphore_posts_lost y id m :
  sync_ok y → (id < CONFIG_SYNC_MAX_SEMAPHORES)%nat → semaphores y !! id = Some m → s_used m = true → s_count m = 0 →
  ∃ y' m', posts (length (waiting (s_waiters m))) id y = Some (waiting (s_waiters m), y') ∧
    semaphores y' !! id = Some m' ∧ s_used m' = true ∧ s_count m' = 0 ∧ waiting (s_waiters m') = [] ∧
    ∀ p, p ∈ waiting (s_waiters m) → ∃ y'', semaphore_wait_round id p y' = Some (Block y'').
Proof.
  intros Hy Hid Hm Hu Hc.
  assert (Hgen : ∀ l y m, sync_ok y → semaphores y !! id = Some m → s_used m = true → s_count m = 0 → waiting (s_waiters m) = l →
    ∃ y' m', posts (length l) id y = Some (l, y') ∧ sync_ok y' ∧ semaphores y' !! id = Some m' ∧ s_used m' = true ∧
      s_count m' = 0 ∧ waiting (s_waiters m') = []).
  { clear. induction l as [|p l IH]; intros y m Hy Hm Hu Hc Hl; [exists y, m; done|]. cbn [length posts].
    pose proof (Forall_lookup_1 _ _ _ _ (yo_swait _ Hy) Hm) as Hw.
    destruct (post_step_ok id y m Hm Hw) as (r & -> & Hpost). unfold post_post in Hpost. rewrite Hu, Hl in Hpost.
    destruct Hpost as (w & -> & Hok & Hwt). cbn [mbind option_bind].
    set (m1 := {| s_used := true; s_count := s_count m; s_waiters := w |}).
    destruct (IH (put_semaphore id m1 y) m1) as (y' & m' & -> & Hrest); try done.
    { auto with kernel. }
    { rewrite lookup_put_semaphore, decide_True by (done || by eapply lookup_lt_Some). done. }
    by exists y', m'. }
  destruct (Hgen _ y m Hy Hm Hu Hc eq_refl) as (y' & m' & Hp & Hy' & Hm' & Hu' & Hc' & Hw'). exists y', m'.
  split_and!; try done. intros p _. destruct (wait_round_ok id p y' m' Hm') as (r & -> & Hpost).
  { apply (Forall_lookup_1 _ _ _ _ (yo_swait _ Hy') Hm'). }
  unfold wait_post in Hpost. rewrite Hu', Hc' in Hpost. simpl in Hpost. destruct Hpost as (w & -> & _). by eexists.
Qed.

(** ** Witnesses *)

Definition no_waiters : waiters := {| w_list := replicate CONFIG_SYNC_MAX_WAITERS 0; w_count := 0 |}.
Definition zero_sync : sync :=
  {| mutexes := replicate CONFIG_SYNC_MAX_MUTEXES {| m_used := false; m_locked := false; m_owner := 0; m_waiters := no_waiters |};
     semaphores := replicate CONFIG_SYNC_MAX_SEMAPHORES {| s_used := false; s_count := 0; s_waiters := no_waiters |} |}.

(** A user process with pid 1 on the processor. *)
Definition one_process : sched :=
  SchedRun.exec SchedRun.stacks (SchedRun.exec SchedRun.stacks (process_system_init SchedRun.stacks 4096 SchedRun.bss)
    (SchedRun.OCreate false (Some 8192) 4096)) (SchedRun.OSchedule 5).

(** A mutex, and the same held by the process; a semaphore with count 0. *)
Definition one_mutex : sync := (sync_mutex_create (sync_init zero_sync)).2.
Definition one_holder : sync :=
  match mutex_lock_round 0 1 one_mutex with Some (Done _ y) => y | _ => one_mutex end.
Definition one_semaphore : sync := (sync_semaphore_create 0 (sync_init zero_sync)).2.
Definition two_waiters : sync :=
  match semaphore_wait_round 0 7 one_semaphore with
  | Some (Block y) => match semaphore_wait_round 0 8 y with Some (Block y') => y' | _ => y end
  | _ => one_semaphore
  end.

Ltac sync_ok_eval :=
  constructor; [vm_compute; reflexivity|vm_compute; reflexivity|vm_compute; repeat constructor|vm_compute; repeat constructor].

Lemma zero_sync_ok : sync_ok (sync_init zero_sync).
Proof. sync_ok_eval. Qed.

Lemma one_holder_ok : sync_ok one_holder.
Proof. sync_ok_eval. Qed.

Lemma two_waiters_ok : sync_ok two_waiters.
Proof. sync_ok_eval. Qed.

Definition held_world : world := World one_holder ({[(1, 0%nat)]} ∪ ∅) (fun _ => 0).

Lemma held_reached : reached held_world.
Proof.
  apply (reached_step (World one_mutex ∅ (fun _ => 0))).
  - apply (reached_step (World (sync_init zero_sync) ∅ (fun _ => 0))); [apply reached_init, zero_sync_ok|].
    apply (step_create _ 0). vm_compute. reflexivity.
  - apply (step_lock 0 6 one_process 1 0 one_process one_mutex one_holder ∅ (fun _ => 0)); vm_compute; reflexivity.
Qed.

Lemma mutex_exclusive_witness :
  (1, 0%nat) ∈ held held_world ∧
  (1 = 1 ∧ ∃ m, mutexes (tables held_world) !! 0%nat = Some m ∧ m_used m = true ∧ m_locked m = true ∧ m_owner m = 1).
Proof.
  assert (H : (1, 0%nat) ∈ held held_world) by (apply elem_of_union_l, elem_of_singleton; reflexivity).
  split; [exact H|]. exact (mutex_exclusive held_world 1 1 0 held_reached H H).
Defined.

Definition held_mutex : sync_mutex := {| m_used := true; m_locked := true; m_owner := 1; m_waiters := no_waiters |}.

Lemma mutex_handover_witness :
  mutex_unlock_step 0 2 one_holder = Some (-1, -1, one_holder) ∧
  ∃ w, mutex_lock_round 0 2 one_holder =
    Some (Block (put_mutex 0 {| m_used := true; m_locked := true; m_owner := 1; m_waiters := w |} one_holder)) ∧ waiting w = [2].
Proof.
  destruct (mutex_handover one_holder 0 held_mutex 2) as [H _].
  - exact one_holder_ok.
  - unfold CONFIG_SYNC_MAX_MUTEXES. lia.
  - vm_compute. reflexivity.
  - reflexivity.
  - reflexivity.
  - destruct H as [H1 H2]; [vm_compute; discriminate|]. split; [exact H2|]. exact H1.
Defined.

Lemma semaphore_bound_witness :
  ∃ w m, reached w ∧ semaphores (tables w) !! 0%nat = Some m ∧ s_used m = true ∧ 0 ≤ budget w 0 ∧ s_count m ≤ budget w 0.
Proof.
  assert (Hr : reached (World one_semaphore ∅ (set_budget 0 0 (fun _ => 0)))).
  { apply (reached_step (World (sync_init zero_sync) ∅ (fun _ => 0))); [apply reached_init, zero_sync_ok|].
    apply (step_sem_create 0 _ 0); [lia|]. vm_compute. reflexivity. }
  assert (Hm : semaphores one_semaphore !! 0%nat = Some {| s_used := true; s_count := 0; s_waiters := no_waiters |}) by (vm_compute; reflexivity).
  eexists _, _. split; [exact Hr|]. split; [exact Hm|]. split; [reflexivity|].
  exact (semaphore_bound _ 0 _ Hr Hm eq_refl).
Defined.

Lemma semaphore_posts_lost_witness :
  ∃ y' m', posts 2 0 two_waiters = Some ([7; 8], y') ∧ semaphores y' !! 0%nat = Some m' ∧ s_count m' = 0 ∧
    ∃ y'', semaphore_wait_round 0 7 y' = Some (Block y'').
Proof.
  destruct (semaphore_posts_lost two_waiters 0
    {| s_used := true; s_count := 0; s_waiters := {| w_list := [7; 8; 0; 0; 0; 0; 0; 0]; w_count := 2 |} |})
    as (y' & m' & H1 & H2 & _ & H3 & _ & H4).
  - exact two_waiters_ok.
  - unfold CONFIG_SYNC_MAX_SEMAPHORES. lia.
  - vm_compute. reflexivity.
  - reflexivity.
  - reflexivity.
  - exists y', m'. split; [exact H1|]. split; [exact H2|]. split; [exact H3|]. apply H4. by_eval.
Defined.

End SyncProps.
