(* ===== verification/Bytes.v ===== *)
(** Fields of packed structures in byte buffers, at both byte orders, and the
    predicate [returns] with which the theorems about partial operations are
    stated. *)

From S2P Require Import Prelude.

Module Bytes.

(** ** Packed fields *)

(** The [n] bytes at an offset of a buffer. *)
Definition field (p : list Z) (off n : nat) : option (list Z) :=
  if decide (off + n ≤ length p)%nat then Some (take n (drop off p)) else None.

Definition read_be16 (p : list Z) (off : nat) : option Z :=
  a ← p !! off; b ← p !! S off; Some (u16 (Z.lor (Z.shiftl a 8) b)).

Definition read_le16 (p : list Z) (off : nat) : option Z :=
  b0 ← p !! off; b1 ← p !! (off + 1)%nat; Some (Z.lor b0 (Z.shiftl b1 8)).

Definition read_le32 (p : list Z) (off : nat) : option Z :=
  b0 ← p !! off; b1 ← p !! (off + 1)%nat; b2 ← p !! (off + 2)%nat; b3 ← p !! (off + 3)%nat;
  Some (Z.lor (Z.lor (Z.lor b0 (Z.shiftl b1 8)) (Z.shiftl b2 16)) (Z.shiftl b3 24)).

(** The bytes [write_be16] stores. *)
Definition be16 (v : Z) : list Z := [u8 (Z.land (Z.shiftr v 8) 255); u8 (Z.land v 255)].

(** The bytes of a 16-bit and a 32-bit store on a little-endian machine. *)
Definition le16 (v : Z) : list Z := [v mod 256; v / 256 mod 256].
Definition le32 (v : Z) : list Z := [v mod 256; v / 256 mod 256; v / 65536 mod 256; v / 16777216 mod 256].

(** ** Bytes *)

Definition byte (b : Z) : Prop := 0 ≤ b < 256.
Definition bytes (l : list Z) : Prop := Forall byte l.

#[export] Instance byte_dec b : Decision (byte b).
Proof. unfold byte. apply _. Defined.
#[export] Instance bytes_dec l : Decision (bytes l).
Proof. unfold bytes. apply _. Defined.

(** ** Operations that return *)

(** The operation has a result, and the result satisfies [P]. *)
Definition returns {A} (o : option A) (P : A → Prop) : Prop := ∃ x, o = Some x ∧ P x.

Section returns.
Context {A B : Type}.

Lemma returns_ret (x : A) (P : A → Prop) : P x → returns (Some x) P.
Proof. intros. by exists x. Qed.

Lemma returns_bind (o : option A) (f : A → option B) P Q :
  returns o P → (∀ x, P x → returns (f x) Q) → returns (o ≫= f) Q.
Proof. intros (x & -> & Hx) H. simpl. by apply H. Qed.

Lemma returns_mono (o : option A) (P Q : A → Prop) : returns o P → (∀ x, P x → Q x) → returns o Q.
Proof. intros (x & -> & Hx) H. exists x. split; [done|]. by apply H. Qed.

Lemma returns_eq (o : option A) P x : returns o P → o = Some x → P x.
Proof. intros (y & Hy & ?) Hx. congruence. Qed.

Lemma returns_if (b : bool) (x y : option A) P :
  (b = true → returns x P) → (b = false → returns y P) → returns (if b then x else y) P.
Proof. destruct b; auto. Qed.
End returns.

(** ** Lemmas on fields *)

Lemma field_ok p off n : (off + n ≤ length p)%nat → field p off n = Some (take n (drop off p)).
Proof. intros. unfold field. by rewrite decide_True. Qed.

Lemma field_Some p off n x :
  field p off n = Some x → (off + n ≤ length p)%nat ∧ x = take n (drop off p) ∧ length x = n.
Proof. unfold field. intros H. case_decide; simplify_eq. rewrite length_take, length_drop. auto with lia. Qed.

(** A field that lies inside the second part of a concatenation, or the first. *)
Lemma field_app_r p q off n : (length p ≤ off)%nat → field (p ++ q) off n = field q (off - length p) n.
Proof.
  intros. unfold field. rewrite length_app. repeat case_decide; try lia; [|done].
  by rewrite drop_app_ge.
Qed.

Lemma field_app_l p q off n : (off + n ≤ length p)%nat → field (p ++ q) off n = field p off n.
Proof.
  intros. rewrite !field_ok by (rewrite ?length_app; lia). f_equal.
  rewrite drop_app_le by lia. rewrite take_app_le; [done|]. rewrite length_drop. lia.
Qed.

Lemma field_exact p q : field (p ++ q) 0 (length p) = Some p.
Proof. rewrite field_ok by (rewrite length_app; lia). by rewrite drop_0, take_app_length. Qed.

Lemma field_all p n : n = length p → field p 0 n = Some p.
Proof. intros ->. rewrite field_ok by lia. by rewrite drop_0, firstn_all. Qed.

Lemma bytes_app l k : bytes (l ++ k) ↔ bytes l ∧ bytes k.
Proof. apply Forall_app. Qed.

Lemma bytes_take n l : bytes l → bytes (take n l).
Proof. apply Forall_take. Qed.

Lemma bytes_drop n l : bytes l → bytes (drop n l).
Proof. apply Forall_drop. Qed.

Lemma bytes_lookup l i b : bytes l → l !! i = Some b → 0 ≤ b < 256.
Proof. intros H Hi. exact (Forall_lookup_1 _ _ _ _ H Hi). Qed.

Lemma bytes_replicate n b : byte b → bytes (replicate n b).
Proof. intros. by apply Forall_replicate. Qed.

Lemma field_bytes p off n x : bytes p → field p off n = Some x → bytes x.
Proof. intros H (_ & -> & _)%field_Some. by apply bytes_take, bytes_drop. Qed.

Lemma bytes_copy src dst off dst' : bytes src → bytes dst → buf_copy dst off src = Some dst' → bytes dst'.
Proof.
  revert dst off. induction src as [|x src IH]; intros dst off Hs Hd H; simpl in H; [by simplify_eq|].
  apply bind_Some in H as (d & [_ ->]%buf_store_Some & H). inversion Hs; subst.
  eapply IH; [done| |done]. by apply Forall_insert.
Qed.

Lemma returns_field p off n :
  (off + n ≤ length p)%nat → returns (field p off n) (λ x, x = take n (drop off p) ∧ length x = n).
Proof.
  intros. rewrite field_ok by done. apply returns_ret. split; [done|].
  rewrite length_take, length_drop. lia.
Qed.

Lemma returns_lookup {A} (l : list A) i : (i < length l)%nat → returns (l !! i) (λ x, l !! i = Some x).
Proof. intros [x Hx]%lookup_lt_is_Some_2. exists x. done. Qed.

Lemma returns_copy dst off src :
  (off + length src ≤ length dst)%nat →
  returns (buf_copy dst off src) (λ d, d = take off dst ++ src ++ drop (off + length src) dst ∧ length d = length dst).
Proof.
  intros H. rewrite buf_copy_ok by done. apply returns_ret. split; [done|].
  rewrite !length_app, length_take, length_drop. lia.
Qed.

Lemma returns_store {A} (b : list A) i x :
  (i < length b)%nat → returns (buf_store b i x) (λ b', b' = <[i := x]> b).
Proof. intros. rewrite buf_store_ok by done. by apply returns_ret. Qed.

(** ** Sixteen-bit values *)

Lemma u16_small z : 0 ≤ z < 65536 → u16 z = z.
Proof. intros. unfold u16. by apply Z.mod_small. Qed.

(** Two bytes side by side. *)
Lemma lor_shift8 a b : byte a → byte b → Z.lor (Z.shiftl a 8) b = a * 256 + b.
Proof.
  intros Ha Hb. unfold byte in *. rewrite Z.shiftl_mul_pow2 by lia. change (2 ^ 8) with 256.
  rewrite <- Z.lxor_lor, <- Z.add_nocarry_lxor; [done| |].
  all: apply Z.bits_inj'; intros n Hn; rewrite Z.land_spec, Z.bits_0; change 256 with (2 ^ 8);
    destruct (Z.ltb_spec n 8).
  all: try (rewrite Z.mul_pow2_bits_low by lia; done).
  all: rewrite andb_comm; replace (Z.testbit b n) with false; [done|]; symmetry;
    destruct (Z.eq_dec b 0) as [->|]; [apply Z.bits_0|apply Z.bits_above_log2; [lia|]];
    apply Z.log2_lt_pow2; [lia|]; apply Z.lt_le_trans with (2 ^ 8); [simpl; lia|apply Z.pow_le_mono_r; lia].
Qed.

Lemma be16_eq v : 0 ≤ v < 65536 → be16 v = [v / 256; v mod 256].
Proof.
  intros. unfold be16. change 255 with (Z.ones 8). rewrite !Z.land_ones, Z.shiftr_div_pow2 by lia.
  change (2 ^ 8) with 256. unfold u8. rewrite !Z.mod_mod by lia. f_equal.
  apply Z.mod_small. split; [apply Z.div_pos; lia|apply Z.div_lt_upper_bound; lia].
Qed.

Lemma be16_length v : length (be16 v) = 2%nat.
Proof. done. Qed.

Lemma le16_length v : length (le16 v) = 2%nat.
Proof. done. Qed.

Lemma be16_bytes v : bytes (be16 v).
Proof. repeat constructor; apply u8_range. Qed.

Lemma le16_bytes v : bytes (le16 v).
Proof. repeat constructor; apply Z.mod_pos_bound; lia. Qed.

Lemma read_be16_ok p off a b :
  byte a → byte b → p !! off = Some a → p !! S off = Some b → read_be16 p off = Some (a * 256 + b).
Proof.
  intros Ha Hb H1 H2. unfold read_be16. rewrite H1, H2. simpl. rewrite lor_shift8 by done.
  f_equal. unfold u16. apply Z.mod_small. unfold byte in *. lia.
Qed.

Lemma returns_be16 p off :
  bytes p → (S off < length p)%nat →
  returns (read_be16 p off) (λ v, 0 ≤ v < 65536).
Proof.
  intros Hp Hlen. destruct (lookup_lt_is_Some_2 p off) as [a Ha]; [lia|].
  destruct (lookup_lt_is_Some_2 p (S off)) as [b Hb]; [lia|].
  pose proof (bytes_lookup _ _ _ Hp Ha). pose proof (bytes_lookup _ _ _ Hp Hb).
  exists (a * 256 + b). split; [by apply read_be16_ok|lia].
Qed.

(** What [write_be16] wrote, [read_be16] reads. *)
Lemma read_be16_app p v q : 0 ≤ v < 65536 → read_be16 (p ++ be16 v ++ q) (length p) = Some v.
Proof.
  intros Hv. rewrite be16_eq by done.
  assert (0 ≤ v / 256 < 256) by (split; [apply Z.div_pos; lia|apply Z.div_lt_upper_bound; lia]).
  pose proof (Z.mod_pos_bound v 256 ltac:(lia)).
  erewrite read_be16_ok with (a := v / 256) (b := v mod 256); [f_equal; pose proof (Z.div_mod v 256); lia|done|done| |].
  - rewrite lookup_app_r, Nat.sub_diag by lia. done.
  - rewrite lookup_app_r by lia. replace (S (length p) - length p)%nat with 1%nat by lia. done.
Qed.

(** Reading depends only on the bytes read. *)
Lemma read_be16_ext p q off n :
  take n p = take n q → (S off < n)%nat → read_be16 p off = read_be16 q off.
Proof.
  intros H Hn. unfold read_be16.
  rewrite <- !(lookup_take_lt p n), <- !(lookup_take_lt q n) by lia. by rewrite H.
Qed.

(** ** Little-endian values *)

(** A value below [2^n] beside one shifted by [n]. *)
Lemma lor_shiftl a b n : 0 ≤ n → 0 ≤ a < 2 ^ n → 0 ≤ b → Z.lor a (Z.shiftl b n) = a + b * 2 ^ n.
Proof.
  intros Hn Ha Hb. rewrite Z.shiftl_mul_pow2 by done.
  rewrite <- Z.lxor_lor, <- Z.add_nocarry_lxor; [done| |].
  all: apply Z.bits_inj'; intros m Hm; rewrite Z.land_spec, Z.bits_0; destruct (Z.ltb_spec m n).
  all: try (rewrite Z.mul_pow2_bits_low, andb_false_r by lia; done).
  all: replace (Z.testbit a m) with false; [done|]; symmetry; rewrite <- (Z.mod_small a (2 ^ n)) by done;
    apply Z.mod_pow2_bits_high; lia.
Qed.

Lemma read_le16_ok p off a b :
  byte a → byte b → p !! off = Some a → p !! (off + 1)%nat = Some b → read_le16 p off = Some (a + b * 256).
Proof.
  intros Ha Hb H1 H2. unfold read_le16. rewrite H1, H2. cbn. unfold byte in *. by rewrite lor_shiftl by (cbn; lia).
Qed.

Lemma read_le32_ok p off a b c d :
  byte a → byte b → byte c → byte d → p !! off = Some a → p !! (off + 1)%nat = Some b → p !! (off + 2)%nat = Some c →
  p !! (off + 3)%nat = Some d → read_le32 p off = Some (a + b * 256 + c * 65536 + d * 16777216).
Proof.
  intros Ha Hb Hc Hd H1 H2 H3 H4. unfold read_le32. rewrite H1, H2, H3, H4. cbn [mbind option_bind]. unfold byte in *.
  rewrite (lor_shiftl a b 8), (lor_shiftl _ c 16), (lor_shiftl _ d 24) by (cbn; lia). done.
Qed.

Lemma returns_le16 p off : bytes p → (off + 1 < length p)%nat → returns (read_le16 p off) (λ v, 0 ≤ v < 65536).
Proof.
  intros Hp Hl. destruct (lookup_lt_is_Some_2 p off) as [a Ha]; [lia|].
  destruct (lookup_lt_is_Some_2 p (off + 1)) as [b Hb]; [lia|].
  pose proof (bytes_lookup _ _ _ Hp Ha). pose proof (bytes_lookup _ _ _ Hp Hb).
  exists (a + b * 256). split; [by apply read_le16_ok|lia].
Qed.

Lemma returns_le32 p off : bytes p → (off + 3 < length p)%nat → returns (read_le32 p off) (λ v, 0 ≤ v < 4294967296).
Proof.
  intros Hp Hl. destruct (lookup_lt_is_Some_2 p off) as [a Ha]; [lia|].
  destruct (lookup_lt_is_Some_2 p (off + 1)) as [b Hb]; [lia|]. destruct (lookup_lt_is_Some_2 p (off + 2)) as [c Hc]; [lia|].
  destruct (lookup_lt_is_Some_2 p (off + 3)) as [d Hd]; [lia|].
  pose proof (bytes_lookup _ _ _ Hp Ha). pose proof (bytes_lookup _ _ _ Hp Hb).
  pose proof (bytes_lookup _ _ _ Hp Hc). pose proof (bytes_lookup _ _ _ Hp Hd).
  exists (a + b * 256 + c * 65536 + d * 16777216). split; [by apply read_le32_ok|lia].
Qed.

(** What a little-endian store wrote is what a load reads. *)
Lemma read_le16_app p v q : 0 ≤ v < 65536 → read_le16 (p ++ le16 v ++ q) (length p) = Some v.
Proof.
  intros Hv. unfold le16. rewrite (Z.mod_small (v / 256)) by (split; [apply Z.div_pos; lia|apply Z.div_lt_upper_bound; lia]).
  assert (0 ≤ v / 256 < 256) by (split; [apply Z.div_pos; lia|apply Z.div_lt_upper_bound; lia]).
  pose proof (Z.mod_pos_bound v 256 ltac:(lia)).
  erewrite read_le16_ok with (a := v mod 256) (b := v / 256); [f_equal; pose proof (Z.div_mod v 256); lia|done|done| |].
  - by rewrite lookup_app_r, Nat.sub_diag by lia.
  - rewrite lookup_app_r by lia. by replace (length p + 1 - length p)%nat with 1%nat by lia.
Qed.

Lemma le32_value v : 0 ≤ v < 4294967296 →
  v mod 256 + v / 256 mod 256 * 256 + v / 65536 mod 256 * 65536 + v / 16777216 mod 256 * 16777216 = v.
Proof.
  intros Hv. replace 65536 with (256 * 256) by done. replace 16777216 with (256 * 256 * 256) by done.
  rewrite <- !Z.div_div by lia. pose proof (Z.div_mod v 256). pose proof (Z.div_mod (v / 256) 256).
  pose proof (Z.div_mod (v / 256 / 256) 256).
  assert (0 ≤ v / 256 / 256 / 256 < 256).
  { rewrite !Z.div_div by lia. split; [apply Z.div_pos; lia|apply Z.div_lt_upper_bound; lia]. }
  rewrite (Z.mod_small (v / 256 / 256 / 256)) by lia. lia.
Qed.

Lemma read_le32_app p v q : 0 ≤ v < 4294967296 → read_le32 (p ++ le32 v ++ q) (length p) = Some v.
Proof.
  intros Hv. erewrite read_le32_ok with (a := v mod 256) (b := v / 256 mod 256) (c := v / 65536 mod 256) (d := v / 16777216 mod 256);
    [f_equal; by apply le32_value|apply Z.mod_pos_bound; lia..| | | |].
  - by rewrite lookup_app_r, Nat.sub_diag by lia.
  - rewrite lookup_app_r by lia. by replace (length p + 1 - length p)%nat with 1%nat by lia.
  - rewrite lookup_app_r by lia. by replace (length p + 2 - length p)%nat with 2%nat by lia.
  - rewrite lookup_app_r by lia. by replace (length p + 3 - length p)%nat with 3%nat by lia.
Qed.

Lemma le32_bytes v : bytes (le32 v).
Proof. repeat constructor; apply Z.mod_pos_bound; lia. Qed.

#[export] Hint Resolve be16_bytes le16_bytes bytes_take bytes_drop field_bytes : kernel.

End Bytes.
