(* ===== verification/Net.v ===== *)
(** The network stack (kernel/net.c, ethernet.c, arp.c, ipv4.c, icmp.c,
    net_socket.c): devices, Ethernet frames, the ARP cache, IPv4 and ICMP echo,
    raw sockets.  A [struct net_device] is known by its number in [dev_store];
    what its driver answers to a frame is the section variable [driver].  The
    packed headers are read from and written to byte buffers at their offsets; a
    read or a write outside a buffer makes the operation [None]. *)

From S2P Require Import Prelude Arrays Bytes.

Module Net.

Import Arrays Bytes.

Definition MAX_NET_DEVICES : nat := 4.
Definition ETHERTYPE_ARP : Z := 0x0806.
Definition ETHERTYPE_IPV4 : Z := 0x0800.
Definition ETHERNET_MAX_PAYLOAD : Z := 1500.
Definition ETHERNET_HEADER : nat := 14.
Definition ARP_HTYPE_ETHERNET : Z := 1.
Definition ARP_PTYPE_IPV4 : Z := 0x0800.
Definition ARP_OPER_REQUEST : Z := 1.
Definition ARP_OPER_REPLY : Z := 2.
Definition ARP_HEADER : nat := 28.
Definition ARP_CACHE_CAPACITY : nat := 8.
Definition IPV4_HEADER : nat := 20.
Definition ICMP_HEADER : nat := 8.
Definition ICMP_REPLY_CAPACITY : nat := 8.
Definition NET_SOCKET_CAPACITY : nat := 4.
Definition NET_SOCKET_QUEUE : nat := 8.
Definition NET_SOCKET_FRAME_MAX : nat := 1600.

(** ** State *)

(** [has_transmit] stands for [dev->ops && dev->ops->transmit], [has_poll] for
    [dev->ops && dev->ops->poll]. *)
Record net_device := NetDevice { mac : list Z; has_transmit : bool; has_poll : bool }.

Record arp_cache_entry := ArpEntry { e_dev : option nat; e_ipv4 : list Z; e_mac : list Z; e_updated : Z }.

Record icmp_echo_reply := EchoReply { r_identifier : Z; r_sequence : Z; r_src : list Z }.

Record net_raw_packet := RawPacket { p_length : nat; p_data : list Z }.

Record net_raw_socket := RawSocket {
  s_used : bool;
  s_device : option nat;
  s_head : nat;
  s_tail : nat;
  s_count : nat;
  s_packets : list net_raw_packet
}.

(** The variables of the files, the clock the cache reads, the frames handed to
    the drivers (oldest first) and the log. *)
Record net := NetState {
  dev_store : list net_device;
  g_devices : list (option nat);
  g_device_count : nat;
  g_tx_buffer : list Z;
  g_cache : list arp_cache_entry;
  g_ipv4_address : list Z;
  g_ipv4_ident : Z;
  g_ipv4_tx_buffer : list Z;
  g_replies : list icmp_echo_reply;
  g_reply_count : nat;
  g_sockets : list net_raw_socket;
  ticks : Z;
  sent : list (nat * list Z);
  log : list cstring
}.

Definition set_devices (d : list (option nat)) (c : nat) (s : net) : net :=
  NetState (dev_store s) d c (g_tx_buffer s) (g_cache s) (g_ipv4_address s) (g_ipv4_ident s)
    (g_ipv4_tx_buffer s) (g_replies s) (g_reply_count s) (g_sockets s) (ticks s) (sent s) (log s).
Definition set_tx (b : list Z) (s : net) : net :=
  NetState (dev_store s) (g_devices s) (g_device_count s) b (g_cache s) (g_ipv4_address s) (g_ipv4_ident s)
    (g_ipv4_tx_buffer s) (g_replies s) (g_reply_count s) (g_sockets s) (ticks s) (sent s) (log s).
Definition set_cache (c : list arp_cache_entry) (s : net) : net :=
  NetState (dev_store s) (g_devices s) (g_device_count s) (g_tx_buffer s) c (g_ipv4_address s) (g_ipv4_ident s)
    (g_ipv4_tx_buffer s) (g_replies s) (g_reply_count s) (g_sockets s) (ticks s) (sent s) (log s).
Definition set_ipv4 (a : list Z) (i : Z) (b : list Z) (s : net) : net :=
  NetState (dev_store s) (g_devices s) (g_device_count s) (g_tx_buffer s) (g_cache s) a i
    b (g_replies s) (g_reply_count s) (g_sockets s) (ticks s) (sent s) (log s).
Definition set_replies (r : list icmp_echo_reply) (c : nat) (s : net) : net :=
  NetState (dev_store s) (g_devices s) (g_device_count s) (g_tx_buffer s) (g_cache s) (g_ipv4_address s) (g_ipv4_ident s)
    (g_ipv4_tx_buffer s) r c (g_sockets s) (ticks s) (sent s) (log s).
Definition set_sockets (k : list net_raw_socket) (s : net) : net :=
  NetState (dev_store s) (g_devices s) (g_device_count s) (g_tx_buffer s) (g_cache s) (g_ipv4_address s) (g_ipv4_ident s)
    (g_ipv4_tx_buffer s) (g_replies s) (g_reply_count s) k (ticks s) (sent s) (log s).
Definition add_sent (f : nat * list Z) (s : net) : net :=
  NetState (dev_store s) (g_devices s) (g_device_count s) (g_tx_buffer s) (g_cache s) (g_ipv4_address s) (g_ipv4_ident s)
    (g_ipv4_tx_buffer s) (g_replies s) (g_reply_count s) (g_sockets s) (ticks s) (sent s ++ [f]) (log s).
Definition set_ticks (t : Z) (s : net) : net :=
  NetState (dev_store s) (g_devices s) (g_device_count s) (g_tx_buffer s) (g_cache s) (g_ipv4_address s) (g_ipv4_ident s)
    (g_ipv4_tx_buffer s) (g_replies s) (g_reply_count s) (g_sockets s) t (sent s) (log s).
Definition klog (m : string) (s : net) : net :=
  NetState (dev_store s) (g_devices s) (g_device_count s) (g_tx_buffer s) (g_cache s) (g_ipv4_address s) (g_ipv4_ident s)
    (g_ipv4_tx_buffer s) (g_replies s) (g_reply_count s) (g_sockets s) (ticks s) (sent s) (log s ++ [lit m]).

(** ** Checksums *)

(** The loop over the 16-bit words and the odd byte. *)
Fixpoint sum_words (data : list Z) (sum : Z) : Z :=
  match data with
  | a :: b :: rest => sum_words rest (sum +32 Z.lor (Z.shiftl a 8) b)
  | [a] => sum +32 Z.shiftl a 8
  | [] => sum
  end.

(** [while (sum >> 16) sum = (sum & 0xFFFF) + (sum >> 16);] *)
Definition FOLD_FUEL : nat := 2.
Fixpoint fold_sum (fuel : nat) (sum : Z) : option Z :=
  if Z.shiftr sum 16 =? 0 then Some sum
  else match fuel with
  | O => None
  | S fuel' => fold_sum fuel' (Z.land sum 0xFFFF +32 Z.shiftr sum 16)
  end.

Definition ipv4_checksum (data : list Z) : option Z :=
  sum ← fold_sum FOLD_FUEL (sum_words data 0); Some (u16 (not32 sum)).

(** icmp.c has its own copy of the same function. *)
Definition icmp_checksum (data : list Z) : option Z :=
  sum ← fold_sum FOLD_FUEL (sum_words data 0); Some (u16 (not32 sum)).

Section stack.

(** What the driver of a device returns for a frame, given the frames handed to
    the drivers before. *)
Variable driver : nat → list (nat * list Z) → list Z → Z.

(** ** Devices *)

Definition init_socket (k : net_raw_socket) : net_raw_socket :=
  {| s_used := false; s_device := None; s_head := 0; s_tail := 0; s_count := 0; s_packets := s_packets k |}.

Definition net_socket_system_init (s : net) : net := set_sockets (init_socket <$> g_sockets s) s.

Definition net_init (s : net) : Z * net :=
  (0, klog "net: stack initialized"
        (net_socket_system_init (set_devices (replicate (length (g_devices s)) None) 0 s))).

Definition net_register_device (dev : option nat) (s : net) : option (Z * net) :=
  match dev with
  | None => Some (-1, s)
  | Some d =>
      nd ← dev_store s !! d;
      if negb (has_transmit nd) then Some (-1, klog "net: device missing ops" s)
      else if (MAX_NET_DEVICES <=? g_device_count s)%nat then Some (-1, klog "net: device limit reached" s)
      else
        l ← buf_store (g_devices s) (g_device_count s) (Some d);
        Some (0, klog "net: device registered" (set_devices l (S (g_device_count s)) s))
  end.

Definition net_device_count (s : net) : nat := g_device_count s.

Definition net_get_device (index : nat) (s : net) : option (option nat) :=
  if (g_device_count s <=? index)%nat then Some None else g_devices s !! index.

(** [dev->ops->transmit(dev, data, length)] *)
Definition transmit (d : nat) (data : list Z) (s : net) : Z * net :=
  (driver d (sent s) data, add_sent (d, data) s).

(** ** Ethernet *)

Definition ethernet_send_frame (dev : option nat) (dest_mac : option (list Z)) (ethertype : Z)
    (payload : option (list Z)) (len : Z) (s : net) : option (Z * net) :=
  match dev, dest_mac, payload with
  | Some d, Some dm, Some p =>
      if len =? 0 then Some (-1, s)
      else
        nd ← dev_store s !! d;
        if negb (has_transmit nd) then Some (-1, s)
        else if ETHERNET_MAX_PAYLOAD <? len then Some (-1, klog "ethernet: payload too large" s)
        else
          dst ← field dm 0 6;
          b ← buf_copy (g_tx_buffer s) 0 dst;
          src ← field (mac nd) 0 6;
          b ← buf_copy b 6 src;
          b ← buf_copy b 12 (be16 ethertype);
          data ← field p 0 (Z.to_nat len);
          b ← buf_copy b ETHERNET_HEADER data;
          frame ← field b 0 (ETHERNET_HEADER + Z.to_nat len);
          Some (transmit d frame (set_tx b s))
  | _, _, _ => Some (-1, s)
  end.

(** ** ARP *)

(** The comparison of the four bytes of an address. *)
Definition ipv4_equal (a b : list Z) : bool := bool_decide (take 4 a = take 4 b).

(** Whether an entry is for an address of a device. *)
Definition entry_is (d : nat) (ip : list Z) (e : arp_cache_entry) : bool :=
  match e_dev e with Some d' => (d' =? d)%nat && ipv4_equal (e_ipv4 e) ip | None => false end.

(** The scan for the oldest entry: [oldest_index], [oldest_time]. *)
Fixpoint oldest (l : list arp_cache_entry) (i : nat) (index : nat) (time : Z) : nat :=
  match l with
  | [] => index
  | e :: l' =>
      if bool_decide (is_Some (e_dev e)) && (e_updated e <? time)
      then oldest l' (S i) i (e_updated e) else oldest l' (S i) index time
  end.

Definition arp_cache_store (d : nat) (ip m : list Z) (s : net) : option net :=
  m6 ← field m 0 6;
  match first_index (entry_is d ip) (g_cache s) with
  | Some i =>
      e ← g_cache s !! i;
      Some (set_cache (<[i := {| e_dev := e_dev e; e_ipv4 := e_ipv4 e; e_mac := m6; e_updated := ticks s |}]> (g_cache s)) s)
  | None =>
      let free := default ARP_CACHE_CAPACITY (first_index (fun e => bool_decide (e_dev e = None)) (g_cache s)) in
      let old := oldest (g_cache s) 0 ARP_CACHE_CAPACITY 18446744073709551615 in
      let target := if (free =? ARP_CACHE_CAPACITY)%nat then old else free in
      let target := if (target =? ARP_CACHE_CAPACITY)%nat then 0%nat else target in
      ip4 ← field ip 0 4;
      c ← buf_store (g_cache s) target {| e_dev := Some d; e_ipv4 := ip4; e_mac := m6; e_updated := ticks s |};
      Some (set_cache c s)
  end.

(** The address found, as [memcpy] leaves it in [mac_out]. *)
Definition arp_cache_lookup (d : nat) (ip : list Z) (s : net) : option (list Z) :=
  i ← first_index (entry_is d ip) (g_cache s); e ← g_cache s !! i; Some (e_mac e).

(** A [struct arp_header] with every field written. *)
Definition arp_packet (oper : Z) (sha spa tha tpa : list Z) : list Z :=
  be16 ARP_HTYPE_ETHERNET ++ be16 ARP_PTYPE_IPV4 ++ [6; 4] ++ be16 oper ++ sha ++ spa ++ tha ++ tpa.

Definition arp_receive (dev : option nat) (packet : option (list Z)) (len : Z) (s : net) : option (Z * net) :=
  match dev, packet with
  | Some d, Some p =>
      if len <? Z.of_nat ARP_HEADER then Some (-1, klog "arp: packet too small" s)
      else
        htype ← read_be16 p 0; ptype ← read_be16 p 2; hlen ← p !! 4%nat; plen ← p !! 5%nat;
        if negb (htype =? ARP_HTYPE_ETHERNET) || negb (ptype =? ARP_PTYPE_IPV4) || negb (hlen =? 6) || negb (plen =? 4)
        then Some (-1, klog "arp: unsupported format" s)
        else
          oper ← read_be16 p 6;
          sha ← field p 8 6; spa ← field p 14 4;
          if oper =? ARP_OPER_REQUEST then
            s ← arp_cache_store d spa sha s;
            nd ← dev_store s !! d;
            own ← field (mac nd) 0 6;
            tpa ← field p 24 4;
            '(r, s) ← ethernet_send_frame dev (Some sha) ETHERTYPE_ARP (Some (arp_packet ARP_OPER_REPLY own tpa sha spa)) (Z.of_nat ARP_HEADER) s;
            if r <? 0 then Some (-1, klog "arp: failed to send reply" s) else Some (0, s)
          else if oper =? ARP_OPER_REPLY then
            s ← arp_cache_store d spa sha s; Some (0, s)
          else Some (-1, s)
  | _, _ => Some (-1, s)
  end.

(** 0 with the address, 1 when a request went out, -1 on failure. *)
Definition arp_resolve (dev : option nat) (ipv4 : option (list Z)) (s : net) : option (Z * list Z * net) :=
  match dev, ipv4 with
  | Some d, Some ip =>
      match arp_cache_lookup d ip s with
      | Some m => Some (0, m, s)
      | None =>
          nd ← dev_store s !! d;
          own ← field (mac nd) 0 6;
          local_ip ← field (g_ipv4_address s) 0 4;
          let have_ip := existsb (fun b => negb (b =? 0)) local_ip in
          let spa := if have_ip then local_ip else replicate 4 0 in
          target ← field ip 0 4;
          '(r, s) ← ethernet_send_frame dev (Some (replicate 6 255)) ETHERTYPE_ARP
                      (Some (arp_packet ARP_OPER_REQUEST own spa (replicate 6 0) target)) (Z.of_nat ARP_HEADER) s;
          Some (if r <? 0 then -1 else 1, [], s)
      end
  | _, _ => Some (-1, [], s)
  end.

(** ** IPv4 *)

(** The header [ipv4_send] fills in, its checksum still 0. *)
Definition ipv4_header (total ident protocol : Z) (src dst : list Z) : list Z :=
  [0x45; 0] ++ be16 (u16 total) ++ be16 ident ++ be16 0 ++ [64; protocol] ++ [0; 0] ++ src ++ dst.

Definition ipv4_send (dev : option nat) (dst_ipv4 : option (list Z)) (protocol : Z) (payload : option (list Z)) (len : Z)
    (s : net) : option (Z * net) :=
  match dev, dst_ipv4 with
  | Some d, Some dst =>
      if (0 <? len) && bool_decide (payload = None) then Some (-1, s)
      else if ETHERNET_MAX_PAYLOAD <? Z.of_nat IPV4_HEADER +32 len then Some (-1, klog "ipv4: payload too large" s)
      else
        '(resolve, dmac, s) ← arp_resolve dev dst_ipv4 s;
        if resolve <? 0 then Some (-1, s)
        else if 0 <? resolve then Some (1, s)
        else
          let total := Z.of_nat IPV4_HEADER +32 len in
          let ident := u16 (g_ipv4_ident s + 1) in
          src4 ← field (g_ipv4_address s) 0 4;
          dst4 ← field dst 0 4;
          b ← buf_copy (g_ipv4_tx_buffer s) 0 (ipv4_header total ident protocol src4 dst4);
          b ← (if 0 <? len then data ← field (default [] payload) 0 (Z.to_nat len); buf_copy b IPV4_HEADER data else Some b);
          hdr ← field b 0 IPV4_HEADER;
          sum ← ipv4_checksum hdr;
          b ← buf_copy b 10 (le16 sum);
          ethernet_send_frame dev (Some dmac) ETHERTYPE_IPV4 (Some b) total (set_ipv4 (g_ipv4_address s) ident b s)
  | _, _ => Some (-1, s)
  end.

Definition ipv4_set_address (addr : option (list Z)) (s : net) : option net :=
  match addr with
  | None => Some s
  | Some a => a4 ← field a 0 4; b ← buf_copy (g_ipv4_address s) 0 a4; Some (set_ipv4 b (g_ipv4_ident s) (g_ipv4_tx_buffer s) s)
  end.

Definition ipv4_get_address (s : net) : option (list Z) := field (g_ipv4_address s) 0 4.

(** ** ICMP *)

Definition record_reply (identifier sequence : Z) (src : option (list Z)) (s : net) : option net :=
  '(l, count) ← (if (ICMP_REPLY_CAPACITY <=? g_reply_count s)%nat
                 then l ← shift_left (g_reply_count s - 1) 1 (g_replies s); Some (l, (g_reply_count s - 1)%nat)
                 else Some (g_replies s, g_reply_count s));
  src4 ← (match src with Some a => field a 0 4 | None => Some (replicate 4 0) end);
  l ← buf_store l count {| r_identifier := identifier; r_sequence := sequence; r_src := src4 |};
  Some (set_replies l (S count) s).

(** The bytes of the reply buffer before its checksum is stored. *)
Definition echo_header (type identifier sequence : Z) : list Z := [type; 0; 0; 0] ++ be16 identifier ++ be16 sequence.

Definition icmp_receive (dev : option nat) (packet : option (list Z)) (len : Z) (src : option (list Z))
    (s : net) : option (Z * net) :=
  match dev, packet with
  | Some d, Some p =>
      if len <? Z.of_nat ICMP_HEADER then Some (-1, klog "icmp: packet too small" s)
      else
        identifier ← read_be16 p 4; sequence ← read_be16 p 6;
        type ← p !! 0%nat; code ← p !! 1%nat;
        if (type =? 0) && (code =? 0) then s ← record_reply identifier sequence src s; Some (0, s)
        else if (type =? 8) && (code =? 0) then
          let payload_len := len - Z.of_nat ICMP_HEADER in
          let payload_len := if 1500 <? payload_len then 1500 else payload_len in
          data ← field p ICMP_HEADER (Z.to_nat payload_len);
          b ← buf_copy (replicate 1508 0) 0 (echo_header 0 identifier sequence);
          b ← buf_copy b ICMP_HEADER data;
          reply ← field b 0 (ICMP_HEADER + Z.to_nat payload_len);
          sum ← icmp_checksum reply;
          b ← buf_copy b 2 (le16 sum);
          ipv4_send dev src 1 (Some b) (Z.of_nat ICMP_HEADER + payload_len) s
        else Some (-1, klog "icmp: unsupported type" s)
  | _, _ => Some (-1, s)
  end.

Definition icmp_send_echo_request (dev : option nat) (dst : option (list Z)) (identifier sequence : Z)
    (s : net) : option (Z * net) :=
  match dev, dst with
  | Some d, Some ip =>
      let packet := echo_header 8 identifier sequence in
      sum ← icmp_checksum packet;
      packet ← buf_copy packet 2 (le16 sum);
      ipv4_send dev dst 1 (Some packet) (Z.of_nat ICMP_HEADER) s
  | _, _ => Some (-1, s)
  end.

Definition icmp_clear_echo_replies (s : net) : net := set_replies (g_replies s) 0 s.

(** The reply taken, and the array with its gap closed. *)
Definition icmp_take_reply_at_locked (index : nat) (s : net) : option (option icmp_echo_reply * net) :=
  if (g_reply_count s <=? index)%nat then Some (None, s)
  else
    r ← g_replies s !! index;
    l ← shift_left (g_reply_count s - S index) (S index) (g_replies s);
    Some (Some r, set_replies l (g_reply_count s - 1) s).

Definition reply_is (identifier sequence : Z) (r : icmp_echo_reply) : bool :=
  (r_identifier r =? identifier) && (r_sequence r =? sequence).

Definition icmp_take_echo_reply (identifier sequence : Z) (s : net) : option (option icmp_echo_reply * net) :=
  l ← cells (g_replies s) (g_reply_count s);
  match first_index (reply_is identifier sequence) l with
  | Some i => icmp_take_reply_at_locked i s
  | None => Some (None, s)
  end.

Definition icmp_take_any_echo_reply (s : net) : option (option icmp_echo_reply * net) :=
  if (0 <? g_reply_count s)%nat then icmp_take_reply_at_locked 0 s else Some (None, s).

(** ** Receiving *)

Definition ipv4_receive (dev : option nat) (packet : option (list Z)) (len : Z) (s : net) : option (Z * net) :=
  match dev, packet with
  | Some d, Some p =>
      if len <? Z.of_nat IPV4_HEADER then Some (-1, klog "ipv4: packet too small" s)
      else
        version_ihl ← p !! 0%nat;
        let version := Z.shiftr version_ihl 4 in
        let ihl := Z.land version_ihl 15 in
        if negb (version =? 4) || (ihl <? 5) then Some (-1, klog "ipv4: invalid header" s)
        else
          let header_len := ihl * 4 in
          if len <? header_len then Some (-1, klog "ipv4: truncated header" s)
          else
            total_length ← read_be16 p 2;
            if len <? total_length then Some (-1, klog "ipv4: total length mismatch" s)
            else
              let payload := drop (Z.to_nat header_len) p in
              let payload_len := total_length -32 header_len in
              protocol ← p !! 9%nat;
              src ← field p 12 4;
              if protocol =? 1 then icmp_receive dev (Some payload) payload_len (Some src) s
              else Some (-1, klog "ipv4: unsupported protocol" s)
  | _, _ => Some (-1, s)
  end.

Definition ethernet_process_frame (dev : option nat) (frame : option (list Z)) (len : Z) (s : net) : option (Z * net) :=
  match dev, frame with
  | Some d, Some f =>
      if len <? Z.of_nat ETHERNET_HEADER then Some (-1, klog "ethernet: frame too short" s)
      else
        ethertype ← read_be16 f 12;
        let payload := drop ETHERNET_HEADER f in
        let payload_len := len - Z.of_nat ETHERNET_HEADER in
        if ethertype =? ETHERTYPE_ARP then arp_receive dev (Some payload) payload_len s
        else if ethertype =? ETHERTYPE_IPV4 then ipv4_receive dev (Some payload) payload_len s
        else Some (-1, klog "ethernet: unsupported ethertype" s)
  | _, _ => Some (-1, s)
  end.

(** ** Raw sockets *)

Definition resolve_socket (handle : Z) (s : net) : option nat :=
  if handle <=? 0 then None
  else
    let index := Z.to_nat (handle - 1) in
    if (NET_SOCKET_CAPACITY <=? index)%nat then None
    else k ← g_sockets s !! index; if s_used k then Some index else None.

Definition ring_next (i : nat) : nat := ((i + 1) mod NET_SOCKET_QUEUE)%nat.

(** Drop the oldest packet. *)
Definition advance (k : net_raw_socket) : net_raw_socket :=
  {| s_used := s_used k; s_device := s_device k; s_head := ring_next (s_head k); s_tail := s_tail k;
     s_count := s_count k - 1; s_packets := s_packets k |}.

Definition net_open (s : net) : option (Z * net) :=
  dev ← net_get_device 0 s;
  match dev with
  | None => Some (-1, s)
  | Some d =>
      match first_index (fun k => negb (s_used k)) (g_sockets s) with
      | None => Some (-1, s)
      | Some i =>
          k ← g_sockets s !! i;
          Some (Z.of_nat (i + 1),
            set_sockets (<[i := {| s_used := true; s_device := Some d; s_head := 0; s_tail := 0; s_count := 0;
                                   s_packets := s_packets k |}]> (g_sockets s)) s)
      end
  end.

Definition net_send (handle : Z) (data : option (list Z)) (size : Z) (s : net) : option (Z * net) :=
  match resolve_socket handle s, data with
  | Some i, Some p =>
      if size =? 0 then Some (-1, s)
      else if Z.of_nat NET_SOCKET_FRAME_MAX <? size then Some (-1, s)
      else
        k ← g_sockets s !! i;
        match s_device k with
        | None => Some (-1, s)
        | Some d =>
            nd ← dev_store s !! d;
            if negb (has_transmit nd) then Some (-1, s)
            else f ← field p 0 (Z.to_nat size); Some (transmit d f s)
        end
  | _, _ => Some (-1, s)
  end.

(** The status and the bytes copied to the buffer. *)
Definition net_recv (handle : Z) (has_buf : bool) (max : Z) (s : net) : option (Z * list Z * net) :=
  match resolve_socket handle s with
  | None => Some (-1, [], s)
  | Some i =>
      if negb has_buf || (max =? 0) then Some (-1, [], s)
      else
        k ← g_sockets s !! i;
        if (s_count k =? 0)%nat then Some (0, [], s)
        else
          packet ← s_packets k !! s_head k;
          let s' := set_sockets (<[i := advance k]> (g_sockets s)) s in
          if max <? Z.of_nat (p_length packet) then Some (-1, [], s')
          else data ← field (p_data packet) 0 (p_length packet); Some (Z.of_nat (p_length packet), data, s')
  end.

Definition net_close (handle : Z) (s : net) : option (Z * net) :=
  match resolve_socket handle s with
  | None => Some (-1, s)
  | Some i => k ← g_sockets s !! i; Some (0, set_sockets (<[i := init_socket k]> (g_sockets s)) s)
  end.

(** One socket's share of a frame. *)
Definition notify_socket (d : nat) (frame : list Z) (len : nat) (k : net_raw_socket) : option net_raw_socket :=
  if negb (s_used k) || negb (bool_decide (s_device k = Some d)) then Some k
  else
    let k := if (s_count k =? NET_SOCKET_QUEUE)%nat then advance k else k in
    packet ← s_packets k !! s_tail k;
    bytes ← field frame 0 len;
    data ← buf_copy (p_data packet) 0 bytes;
    Some {| s_used := s_used k; s_device := s_device k; s_head := s_head k; s_tail := ring_next (s_tail k);
            s_count := S (s_count k); s_packets := <[s_tail k := {| p_length := len; p_data := data |}]> (s_packets k) |}.

Definition net_socket_notify_frame (dev : option nat) (frame : option (list Z)) (len : Z) (s : net) : option net :=
  match dev, frame with
  | Some d, Some f =>
      if len =? 0 then Some s
      else
        let len := if Z.of_nat NET_SOCKET_FRAME_MAX <? len then Z.of_nat NET_SOCKET_FRAME_MAX else len in
        l ← mapM (notify_socket d f (Z.to_nat len)) (g_sockets s);
        Some (set_sockets l s)
  | _, _ => Some s
  end.

Definition net_receive_frame (dev : option nat) (frame : option (list Z)) (len : Z) (s : net) : option (Z * net) :=
  match dev, frame with
  | Some d, Some f =>
      if len =? 0 then Some (-1, s)
      else s ← net_socket_notify_frame dev frame len s; ethernet_process_frame dev frame len s
  | _, _ => Some (-1, s)
  end.

(** ** Polling *)

(** What the driver's [poll] returns and does to the stack. *)
Variable poll : nat → net → option (Z * net).

Fixpoint poll_loop (n i : nat) (polled : Z) (s : net) : option (Z * net) :=
  if (g_device_count s <=? i)%nat then Some (polled, s)
  else match n with
  | O => None
  | S n' =>
        dev ← g_devices s !! i;
        match dev with
        | None => poll_loop n' (S i) polled s
        | Some d =>
            nd ← dev_store s !! d;
            if negb (has_poll nd) then poll_loop n' (S i) polled s
            else '(rc, s) ← poll d s; poll_loop n' (S i) (if 0 <? rc then s32 (polled + rc) else polled) s
        end
  end.

Definition net_poll_devices (s : net) : option (Z * net) := poll_loop MAX_NET_DEVICES 0 0 s.

End stack.
End Net.
