(* ===== verification/NetSpec.v ===== *)
(** The checksum of the network stack: the loops terminate, what they compute, and
    what a receiver finds when it checks a header the kernel has sent.

    The invariant of the network stack, what each layer sends, and that every
    operation stays inside its buffers and keeps the invariant.

    What each layer of the stack sends and stores, and that it stays inside its
    buffers: ARP, IPv4, ICMP. *)

From S2P Require Import Prelude Arrays Bytes Net.

Module NetSum.

Import Arrays Bytes Net.

(** ** The reference: the sum of the 16-bit words, at ones' complement *)

(** The words of a packet, most significant byte first, an odd byte padded. *)
Fixpoint words (data : list Z) : list Z :=
  match data with
  | a :: b :: rest => a * 256 + b :: words rest
  | [a] => [a * 256]
  | [] => []
  end.

Definition total (l : list Z) : Z := foldr Z.add 0 l.

(** The representative in [1 .. 65535] of a positive sum modulo 65535. *)
Definition ones_complement (n : Z) : Z := if n =? 0 then 0 else (n - 1) mod 65535 + 1.

(** ** The loops *)

Lemma shiftr16 n : Z.shiftr n 16 = n / 65536.
Proof. by rewrite Z.shiftr_div_pow2. Qed.

Lemma land16 n : Z.land n 0xFFFF = n mod 65536.
Proof. change 0xFFFF with (Z.ones 16). by rewrite Z.land_ones. Qed.

Lemma ones_complement_fold n :
  65536 ≤ n → ones_complement n = ones_complement (n mod 65536 + n / 65536).
Proof.
  intros Hn. pose proof (Z.div_mod n 65536). pose proof (Z.mod_pos_bound n 65536).
  assert (1 ≤ n / 65536) by (apply Z.div_le_lower_bound; lia).
  unfold ones_complement. rewrite !(proj2 (Z.eqb_neq _ _)) by lia. f_equal.
  replace (n - 1) with (n mod 65536 + n / 65536 - 1 + n / 65536 * 65535) by lia.
  by rewrite Z_mod_plus_full.
Qed.

Lemma ones_complement_small n : 0 ≤ n < 65536 → ones_complement n = n.
Proof. intros. unfold ones_complement. cases; [done|]. rewrite Z.mod_small by lia. lia. Qed.

(** The carry loop ends after at most two rounds, whatever the sum. *)
Lemma fold_sum_ok n : 0 ≤ n < 4294967296 → fold_sum FOLD_FUEL n = Some (ones_complement n).
Proof.
  intros Hn. unfold FOLD_FUEL. cbn [fold_sum]. rewrite !shiftr16, !land16.
  destruct (Z.eqb_spec (n / 65536) 0) as [H0|H0].
  { rewrite ones_complement_small; [done|]. pose proof (Z.div_mod n 65536). pose proof (Z.mod_pos_bound n 65536). lia. }
  pose proof (Z.div_mod n 65536). pose proof (Z.mod_pos_bound n 65536).
  assert (1 ≤ n / 65536 < 65536) by (split; [apply Z.div_le_lower_bound; lia|apply Z.div_lt_upper_bound; lia]).
  rewrite (u32_small (n mod 65536 + n / 65536)) by lia. rewrite (ones_complement_fold n) by lia.
  set (m := n mod 65536 + n / 65536) in *. assert (Hm : 1 ≤ m < 131071) by lia. clearbody m. clear -Hm.
  destruct (Z.eqb_spec (m / 65536) 0) as [H0|H0].
  { rewrite ones_complement_small; [done|]. pose proof (Z.div_mod m 65536). pose proof (Z.mod_pos_bound m 65536). lia. }
  pose proof (Z.div_mod m 65536). pose proof (Z.mod_pos_bound m 65536).
  assert (m / 65536 = 1) as Hq by (assert (m / 65536 < 2) by (apply Z.div_lt_upper_bound; lia);
    assert (0 <= m / 65536) by (apply Z.div_pos; lia); lia).
  rewrite u32_small by lia. rewrite (ones_complement_fold m) by lia. rewrite Hq in *.
  assert (Hlt : 0 ≤ m mod 65536 + 1 < 65536) by lia.
  rewrite (Z.div_small (m mod 65536 + 1)) by lia. rewrite Z.eqb_refl. by rewrite ones_complement_small.
Qed.

Lemma words_bound data : bytes data → 0 ≤ total (words data) ≤ 65535 * Z.of_nat (length data).
Proof.
  intros H. assert (Hgo : ∀ n d, (length d ≤ n)%nat → bytes d → 0 ≤ total (words d) ≤ 65535 * Z.of_nat (length d)).
  { induction n as [|n IH]; intros d Hn Hd; destruct d as [|a [|b d]]; cbn in *; try lia.
    - inversion Hd as [|? ? Ha]; subst. unfold byte in *. lia.
    - inversion Hd as [|? ? Ha Hd']; subst. inversion Hd' as [|? ? Hb Hr]; subst. unfold byte in *.
      specialize (IH d ltac:(lia) Hr). unfold total in *. lia. }
  by apply (Hgo (length data)).
Qed.

(** The word loop adds the words, as long as the sum does not leave 32 bits. *)
Lemma sum_words_ok data acc :
  bytes data → 0 ≤ acc → acc + total (words data) < 4294967296 → sum_words data acc = acc + total (words data).
Proof.
  assert (Hgo : ∀ n d x, (length d ≤ n)%nat → bytes d → 0 ≤ x → x + total (words d) < 4294967296 →
    sum_words d x = x + total (words d)).
  { induction n as [|n IH]; intros d x Hn Hd Hx Hs; destruct d as [|a [|b d]]; cbn in *; try lia.
    - inversion Hd as [|? ? Ha]; subst. unfold byte in *. rewrite Z.shiftl_mul_pow2 by lia.
      change (2 ^ 8) with 256. rewrite u32_small; lia.
    - inversion Hd as [|? ? Ha Hd']; subst. inversion Hd' as [|? ? Hb Hr]; subst.
      pose proof (words_bound d Hr). rewrite lor_shift8 by done. unfold byte in *.
      fold (total (words d)) in *. rewrite u32_small by lia. rewrite IH by (try lia; done). lia. }
  intros. by apply (Hgo (length data)).
Qed.

Lemma total_app l k : total (l ++ k) = total l + total k.
Proof. unfold total. induction l as [|x l IH]; cbn; [done|]. rewrite IH. lia. Qed.

Lemma words_app l k : Nat.Even (length l) → words (l ++ k) = words l ++ words k.
Proof.
  assert (Hgo : ∀ n d, (length d ≤ n)%nat → Nat.Even (length d) → words (d ++ k) = words d ++ words k).
  { induction n as [|n IH]; intros d Hn Hd; destruct d as [|a [|b d]]; cbn in *; try done; try lia.
    - destruct Hd. lia.
    - f_equal. apply IH; [lia|]. destruct Hd as [m Hm]. exists (m - 1)%nat. lia. }
  by apply (Hgo (length l)).
Qed.

(** The size for which the 32-bit sum cannot overflow. *)
Definition SUM_LIMIT : Z := 65536.

(** The checksum of any packet of up to 64 KiB is the complement of its sum; both
    copies of the function compute the same. *)
Lemma checksum_ok data :
  bytes data → Z.of_nat (length data) ≤ SUM_LIMIT →
  ipv4_checksum data = Some (65535 - ones_complement (total (words data))) ∧
  icmp_checksum data = ipv4_checksum data.
Proof.
  intros Hd Hl. pose proof (words_bound data Hd) as Hw. unfold SUM_LIMIT in Hl.
  split; [|done]. unfold ipv4_checksum. rewrite sum_words_ok by (try done; lia).
  rewrite fold_sum_ok by lia. cbn [mbind option_bind]. f_equal. rewrite Z.add_0_l.
  assert (Ho : 0 ≤ ones_complement (total (words data)) ≤ 65535).
  { unfold ones_complement. cases; [lia|]. pose proof (Z.mod_pos_bound (total (words data) - 1) 65535). lia. }
  unfold u16, not32. replace (4294967295 - ones_complement (total (words data)))
    with (65535 - ones_complement (total (words data)) + 65535 * 65536) by lia.
  rewrite Z_mod_plus_full. apply Z.mod_small. lia.
Qed.

(** ** Checking a stored checksum *)

Lemma ones_complement_full n : 0 < n → ones_complement n = 65535 ↔ n mod 65535 = 0.
Proof.
  intros Hn. unfold ones_complement. rewrite (proj2 (Z.eqb_neq _ _)) by lia.
  replace n with (n - 1 + 1) at 2 by lia.
  pose proof (Z.div_mod (n - 1) 65535). pose proof (Z.mod_pos_bound (n - 1) 65535).
  set (r := (n - 1) mod 65535) in *. set (k := (n - 1) / 65535) in *.
  replace (n - 1 + 1) with (r + 1 + k * 65535) by lia. rewrite Z_mod_plus_full.
  destruct (decide (r = 65534)) as [->|]; [done|]. rewrite Z.mod_small by lia. lia.
Qed.

(** A packet with a two-byte checksum field [w] in the middle. *)
Lemma total_with_field p w1 w2 q :
  Nat.Even (length p) → total (words (p ++ [w1; w2] ++ q)) = total (words (p ++ [0; 0] ++ q)) + (w1 * 256 + w2).
Proof.
  intros He. rewrite !(words_app p) by done. rewrite !total_app. cbn. lia.
Qed.

(** [65535 - c] modulo 65535, for the checksum of a packet that is not all zeros. *)
Lemma checksum_residue n w :
  0 < n → 0 ≤ w → ones_complement (n + w) = 65535 ↔ (w - (65535 - ones_complement n)) mod 65535 = 0.
Proof.
  intros Hn Hw. rewrite ones_complement_full by lia. unfold ones_complement. rewrite (proj2 (Z.eqb_neq _ _)) by lia.
  pose proof (Z.div_mod (n - 1) 65535). set (r := (n - 1) mod 65535) in *. set (k := (n - 1) / 65535) in *.
  replace (n + w) with (w + (r + 1) + k * 65535) by lia.
  replace (w - (65535 - (r + 1))) with (w + (r + 1) + (-1) * 65535) by lia.
  by rewrite !Z_mod_plus_full.
Qed.

Lemma bytes_with_field p w1 w2 q : bytes p → bytes q → byte w1 → byte w2 → bytes (p ++ [w1; w2] ++ q).
Proof.
  intros Hp Hq H1 H2. apply bytes_app; split; [done|]. apply bytes_app; split; [|done].
  constructor; [done|]. constructor; [done|]. constructor.
Qed.

(** The checksum of a packet that is not all zeros, its field still 0. *)
Lemma checksum_value p q :
  bytes p → bytes q → Z.of_nat (length p + 2 + length q) ≤ SUM_LIMIT → 0 < total (words (p ++ [0; 0] ++ q)) →
  ipv4_checksum (p ++ [0; 0] ++ q) = Some (65535 - ones_complement (total (words (p ++ [0; 0] ++ q)))) ∧
  1 ≤ ones_complement (total (words (p ++ [0; 0] ++ q))) ≤ 65535.
Proof.
  intros Hp Hq Hl Ht. split.
  - apply checksum_ok; [by apply bytes_with_field|]. rewrite !length_app. cbn. lia.
  - unfold ones_complement. rewrite (proj2 (Z.eqb_neq _ _)) by lia.
    pose proof (Z.mod_pos_bound (total (words (p ++ [0; 0] ++ q)) - 1) 65535). lia.
Qed.

Lemma checksum_field_ok p w1 w2 q :
  Nat.Even (length p) → bytes p → bytes q → byte w1 → byte w2 →
  Z.of_nat (length p + 2 + length q) ≤ SUM_LIMIT → 0 < total (words (p ++ [0; 0] ++ q)) →
  ipv4_checksum (p ++ [w1; w2] ++ q) = Some 0 ↔
  ∃ c, ipv4_checksum (p ++ [0; 0] ++ q) = Some c ∧ 0 ≤ c < 65535 ∧ (w1 * 256 + w2 - c) mod 65535 = 0.
Proof.
  intros He Hp Hq H1 H2 Hl Ht. destruct (checksum_value p q Hp Hq Hl Ht) as [-> Ho].
  rewrite (proj1 (checksum_ok _ (bytes_with_field _ _ _ _ Hp Hq H1 H2) ltac:(rewrite !length_app; cbn; lia))).
  rewrite total_with_field by done. set (n := total (words (p ++ [0; 0] ++ q))) in *.
  unfold byte in *. pose proof (checksum_residue n (w1 * 256 + w2) Ht ltac:(lia)) as Hr.
  split.
  - intros [= He']. eexists. split; [done|]. split; [lia|]. apply Hr. lia.
  - intros (c & [= <-] & _ & Hc). f_equal. apply Hr in Hc. lia.
Qed.

(** A field holding the checksum most significant byte first verifies. *)
Lemma checksum_be_verifies p q c :
  Nat.Even (length p) → bytes p → bytes q →
  Z.of_nat (length p + 2 + length q) ≤ SUM_LIMIT → 0 < total (words (p ++ [0; 0] ++ q)) →
  ipv4_checksum (p ++ [0; 0] ++ q) = Some c → ipv4_checksum (p ++ be16 c ++ q) = Some 0.
Proof.
  intros He Hp Hq Hl Ht Hc. destruct (checksum_value p q Hp Hq Hl Ht) as [Hv Ho]. rewrite Hc in Hv. apply (inj Some) in Hv.
  rewrite be16_eq by lia. pose proof (Z.mod_pos_bound c 256). pose proof (Z.div_mod c 256).
  assert (0 ≤ c / 256 < 256) by (split; [apply Z.div_pos; lia|apply Z.div_lt_upper_bound; lia]).
  rewrite checksum_field_ok by (try done; unfold byte; lia). exists c. split; [done|].
  replace (c / 256 * 256 + c mod 256 - c) with 0 by lia. split; [lia|done].
Qed.

(** A field holding it least significant byte first verifies only when its two
    bytes are the same. *)
Lemma checksum_le_verifies p q c :
  Nat.Even (length p) → bytes p → bytes q →
  Z.of_nat (length p + 2 + length q) ≤ SUM_LIMIT → 0 < total (words (p ++ [0; 0] ++ q)) →
  ipv4_checksum (p ++ [0; 0] ++ q) = Some c →
  (ipv4_checksum (p ++ le16 c ++ q) = Some 0 ↔ c mod 256 = c / 256).
Proof.
  intros He Hp Hq Hl Ht Hc. unfold le16. destruct (checksum_value p q Hp Hq Hl Ht) as [Hv Ho].
  rewrite checksum_field_ok by (try done; apply Z.mod_pos_bound; lia).
  rewrite Hc in *. apply (inj Some) in Hv. pose proof (Z.div_mod c 256). pose proof (Z.mod_pos_bound c 256).
  assert (0 ≤ c / 256 < 256) by (split; [apply Z.div_pos; lia|apply Z.div_lt_upper_bound; lia]).
  rewrite (Z.mod_small (c / 256)) by lia. split.
  - intros (c' & [= <-] & _ & Hm). apply Z.mod_divide in Hm as [k Hk]; [|lia]. nia.
  - intros Heq. exists c. split; [done|]. split; [lia|]. replace (_ - c) with 0 by lia. done.
Qed.

End NetSum.

Module NetSpec.

Import Arrays Bytes Net NetSum.

(** ** The invariant *)

Definition wf_device (d : net_device) : Prop := length (mac d) = 6%nat ∧ bytes (mac d).

Definition wf_entry (n : nat) (e : arp_cache_entry) : Prop :=
  length (e_ipv4 e) = 4%nat ∧ length (e_mac e) = 6%nat ∧ bytes (e_ipv4 e) ∧ bytes (e_mac e) ∧ 0 ≤ e_updated e < 2 ^ 64 ∧
  ∀ d, e_dev e = Some d → (d < n)%nat.

(** No two entries are for the same address of the same device. *)
Definition distinct_keys (c : list arp_cache_entry) : Prop :=
  ∀ i j ei ej d, c !! i = Some ei → c !! j = Some ej → e_dev ei = Some d → e_dev ej = Some d → e_ipv4 ei = e_ipv4 ej → i = j.

Definition wf_packet (p : net_raw_packet) : Prop :=
  length (p_data p) = NET_SOCKET_FRAME_MAX ∧ (p_length p ≤ NET_SOCKET_FRAME_MAX)%nat.

Record wf_socket (n : nat) (k : net_raw_socket) : Prop := {
  wk_packets : length (s_packets k) = NET_SOCKET_QUEUE;
  wk_data : Forall wf_packet (s_packets k);
  wk_head : (s_head k < NET_SOCKET_QUEUE)%nat;
  wk_count : (s_count k ≤ NET_SOCKET_QUEUE)%nat;
  wk_tail : s_tail k = ((s_head k + s_count k) mod NET_SOCKET_QUEUE)%nat;
  wk_device : ∀ d, s_device k = Some d → (d < n)%nat
}.

Record wf (s : net) : Prop := {
  wf_store : Forall wf_device (dev_store s);
  wf_devices : length (g_devices s) = MAX_NET_DEVICES;
  wf_device_count : (g_device_count s ≤ MAX_NET_DEVICES)%nat;
  wf_registered : ∀ i, (i < g_device_count s)%nat →
    ∃ d nd, g_devices s !! i = Some (Some d) ∧ dev_store s !! d = Some nd ∧ has_transmit nd = true;
  wf_tx : length (g_tx_buffer s) = (ETHERNET_HEADER + 1500)%nat;
  wf_cache : length (g_cache s) = ARP_CACHE_CAPACITY;
  wf_entries : Forall (wf_entry (length (dev_store s))) (g_cache s);
  wf_keys : distinct_keys (g_cache s);
  wf_address : length (g_ipv4_address s) = 4%nat ∧ bytes (g_ipv4_address s);
  wf_ident : 0 ≤ g_ipv4_ident s < 65536;
  wf_ipv4_tx : length (g_ipv4_tx_buffer s) = (IPV4_HEADER + 1500)%nat;
  wf_replies : length (g_replies s) = ICMP_REPLY_CAPACITY;
  wf_reply_count : (g_reply_count s ≤ ICMP_REPLY_CAPACITY)%nat;
  wf_ticks : 0 ≤ ticks s < 2 ^ 64;
  wf_sockets : length (g_sockets s) = NET_SOCKET_CAPACITY;
  wf_each_socket : Forall (wf_socket (length (dev_store s))) (g_sockets s)
}.

(** What the layers below the sockets leave alone. *)
Definition kept (s s' : net) : Prop :=
  dev_store s' = dev_store s ∧ g_devices s' = g_devices s ∧ g_device_count s' = g_device_count s ∧ g_sockets s' = g_sockets s.

(** The operation returns, and keeps the invariant, the devices and the sockets. *)
Definition safe (s : net) (o : option (Z * net)) : Prop := returns o (λ '(_, s'), wf s' ∧ kept s s').

Lemma wf_klog m s : wf s → wf (klog m s).
Proof. intros []. by constructor. Qed.

Lemma wf_set_tx b s : wf s → length b = length (g_tx_buffer s) → wf (set_tx b s).
Proof. intros [] Hb. constructor; try done. by transitivity (length (g_tx_buffer s)). Qed.

Lemma wf_add_sent f s : wf s → wf (add_sent f s).
Proof. intros []. by constructor. Qed.

Lemma wf_set_ticks t s : wf s → 0 ≤ t < 2 ^ 64 → wf (set_ticks t s).
Proof. intros [] ?. by constructor. Qed.

Lemma wf_set_cache c s :
  wf s → length c = ARP_CACHE_CAPACITY → Forall (wf_entry (length (dev_store s))) c → distinct_keys c → wf (set_cache c s).
Proof. intros [] ? ? ?. by constructor. Qed.

Lemma wf_set_ipv4 a i b s :
  wf s → length a = 4%nat → bytes a → 0 ≤ i < 65536 → length b = length (g_ipv4_tx_buffer s) → wf (set_ipv4 a i b s).
Proof. intros [] ? ? ? Hb. constructor; try done. by transitivity (length (g_ipv4_tx_buffer s)). Qed.

Lemma wf_set_replies r c s :
  wf s → length r = ICMP_REPLY_CAPACITY → (c ≤ ICMP_REPLY_CAPACITY)%nat → wf (set_replies r c s).
Proof. intros [] ? ?. by constructor. Qed.

Lemma wf_set_sockets k s :
  wf s → length k = NET_SOCKET_CAPACITY → Forall (wf_socket (length (dev_store s))) k → wf (set_sockets k s).
Proof. intros [] ? ?. by constructor. Qed.

#[export] Hint Resolve wf_klog wf_add_sent : kernel.

Lemma kept_trans s t u : kept s t → kept t u → kept s u.
Proof. unfold kept. intuition congruence. Qed.

Lemma safe_fail r s s' : wf s' → kept s s' → safe s (Some (r, s')).
Proof. intros. by apply returns_ret. Qed.

Lemma safe_trans s s' o : kept s s' → safe s' o → safe s o.
Proof. intros Hd H. eapply returns_mono; [apply H|]. intros [r t] [? ?]. split; [done|by eapply kept_trans]. Qed.

(** A device that is there. *)
Lemma wf_nd s d : wf s → (d < length (dev_store s))%nat → ∃ nd, dev_store s !! d = Some nd ∧ wf_device nd.
Proof.
  intros Hs Hd. destruct (lookup_lt_is_Some_2 _ _ Hd) as [nd Hnd]. exists nd. split; [done|].
  exact (Forall_lookup_1 _ _ _ _ (wf_store _ Hs) Hnd).
Qed.

(** ** Ethernet *)

(** The frame for a payload. *)
Definition frame (dst src : list Z) (ethertype : Z) (payload : list Z) : list Z :=
  dst ++ src ++ be16 ethertype ++ payload.

(** A second copy right behind the first. *)
Lemma take_copy (b x y : list Z) off :
  length x = off → (off + length y ≤ length b)%nat →
  take off (x ++ drop off b) ++ y ++ drop (off + length y) (x ++ drop off b) =
  (x ++ y) ++ drop (off + length y) b.
Proof.
  intros Hx Hl. rewrite take_app_le, firstn_all2 by lia. rewrite drop_app_ge, drop_drop by lia.
  rewrite <- app_assoc. do 3 f_equal. lia.
Qed.

(** Copying fields one behind the other fills the front of the buffer. *)
Lemma copy_behind (b x y : list Z) off :
  length x = off → (off + length y ≤ length b)%nat →
  buf_copy (x ++ drop off b) off y = Some ((x ++ y) ++ drop (off + length y) b).
Proof.
  intros Hx Hl. rewrite buf_copy_ok by (rewrite length_app, length_drop; lia). by rewrite take_copy.
Qed.

Section layers.
Variable driver : nat → list (nat * list Z) → list Z → Z.

(** The frame handed to the driver, and the state then: only the transmit buffer
    and the frames sent differ. *)
Lemma ethernet_send_ok s d nd dm ty p len :
  wf s → dev_store s !! d = Some nd → has_transmit nd = true →
  (6 ≤ length dm)%nat → 0 < len ≤ ETHERNET_MAX_PAYLOAD → (Z.to_nat len ≤ length p)%nat →
  let f := frame (take 6 dm) (mac nd) ty (take (Z.to_nat len) p) in
  ∃ b, length b = length (g_tx_buffer s) ∧
    ethernet_send_frame driver (Some d) (Some dm) ty (Some p) len s =
      Some (driver d (sent s) f, add_sent (d, f) (set_tx b s)).
Proof.
  intros Hs Hnd Htx Hdm Hlen Hp f. unfold ethernet_send_frame.
  assert (Hm : length (mac nd) = 6%nat) by exact (proj1 (Forall_lookup_1 _ _ _ _ (wf_store _ Hs) Hnd)).
  pose proof (wf_tx _ Hs) as Hb. unfold ETHERNET_HEADER in *.
  rewrite (proj2 (Z.eqb_neq _ _)), Hnd by lia. cbn [mbind option_bind]. rewrite Htx. cbn [negb].
  rewrite (proj2 (Z.ltb_ge _ _)) by lia. unfold ETHERNET_MAX_PAYLOAD in *.
  assert (H6 : length (take 6 dm) = 6%nat) by (rewrite length_take; lia).
  rewrite (field_ok dm) by lia. cbn [mbind option_bind]. rewrite drop_0.
  pose proof (copy_behind (g_tx_buffer s) [] (take 6 dm) 0 eq_refl ltac:(lia)) as Hc. rewrite drop_0 in Hc. cbn [app] in Hc.
  rewrite Hc. cbn [mbind option_bind app]. rewrite H6, Nat.add_0_l.
  rewrite (field_all (mac nd)) by done. cbn [mbind option_bind].
  rewrite copy_behind by lia. cbn [mbind option_bind]. rewrite Hm. change (6 + 6)%nat with 12%nat.
  rewrite copy_behind by (rewrite ?length_app, ?be16_length; lia). cbn [mbind option_bind]. rewrite be16_length. change (12 + 2)%nat with 14%nat.
  rewrite (field_ok p) by lia. cbn [mbind option_bind]. rewrite drop_0.
  rewrite copy_behind by (rewrite ?length_app, ?be16_length, ?length_take; lia). cbn [mbind option_bind].
  rewrite length_take, Nat.min_l by lia.
  set (b := _ ++ drop _ _). assert (Hf : field b 0 (14 + Z.to_nat len) = Some f).
  { unfold b. replace (14 + Z.to_nat len)%nat with (length f); [|unfold f, frame; rewrite !length_app, be16_length, !length_take; lia].
    replace (((take 6 dm ++ mac nd) ++ be16 ty) ++ take (Z.to_nat len) p) with f by (unfold f, frame; by rewrite <- !app_assoc).
    apply field_exact. }
  rewrite Hf. cbn [mbind option_bind]. exists b. split; [|done].
  unfold b. rewrite !length_app, be16_length, length_drop, !length_take. lia.
Qed.

(** Whatever the arguments, as long as the pointers point at what they say. *)
Lemma ethernet_send_safe s dev dm ty p len :
  wf s → (∀ d, dev = Some d → (d < length (dev_store s))%nat) → (∀ m, dm = Some m → (6 ≤ length m)%nat) →
  0 ≤ len → (∀ q, p = Some q → (Z.to_nat len ≤ length q)%nat) →
  safe s (ethernet_send_frame driver dev dm ty p len s).
Proof.
  intros Hs Hdev Hdm Hlen Hp. destruct dev as [d|], dm as [m|], p as [q|];
    try (by apply safe_fail); specialize (Hdev _ eq_refl); specialize (Hdm _ eq_refl); specialize (Hp _ eq_refl).
  destruct (wf_nd s d Hs Hdev) as (nd & Hnd & _).
  destruct (decide (len = 0)) as [->|Hne]; [by apply safe_fail|].
  destruct (has_transmit nd) eqn:Ht.
  2:{ unfold ethernet_send_frame. rewrite (proj2 (Z.eqb_neq _ _)), Hnd by done. cbn. rewrite Ht. by apply safe_fail. }
  destruct (decide (len ≤ ETHERNET_MAX_PAYLOAD)) as [Hle|Hgt].
  - destruct (ethernet_send_ok s d nd m ty q len) as (b & Hb & ->); try done; [lia|].
    apply safe_fail; [|done]. apply wf_add_sent. by apply wf_set_tx.
  - unfold ethernet_send_frame. rewrite (proj2 (Z.eqb_neq _ _)), Hnd by done. cbn [mbind option_bind]. rewrite Ht.
    cbn [negb]. rewrite (proj2 (Z.ltb_lt _ _)) by lia. apply safe_fail; [by apply wf_klog|done].
Qed.

End layers.

(** ** The ARP cache *)

Section cache.
Implicit Types (c : list arp_cache_entry) (e : arp_cache_entry).

Lemma ipv4_equal_eq a b : length a = 4%nat → length b = 4%nat → ipv4_equal a b = true ↔ a = b.
Proof. intros Ha Hb. unfold ipv4_equal. rewrite !firstn_all2 by lia. apply bool_decide_eq_true. Qed.

Lemma entry_is_true n d ip e :
  wf_entry n e → length ip = 4%nat → entry_is d ip e = true ↔ e_dev e = Some d ∧ e_ipv4 e = ip.
Proof.
  intros (H4 & _) Hip. unfold entry_is. destruct (e_dev e) as [d'|]; [|naive_solver].
  rewrite andb_true_iff, Nat.eqb_eq, ipv4_equal_eq by done. naive_solver.
Qed.

(** With one entry per address a lookup finds it wherever it is. *)
Lemma lookup_iff s d ip m :
  wf s → length ip = 4%nat →
  arp_cache_lookup d ip s = Some m ↔
  ∃ i e, g_cache s !! i = Some e ∧ e_dev e = Some d ∧ e_ipv4 e = ip ∧ e_mac e = m.
Proof.
  intros Hs Hip. pose proof (wf_entries _ Hs) as He. rewrite Forall_lookup in He.
  unfold arp_cache_lookup. split.
  - intros (i & Hi & H)%bind_Some. apply bind_Some in H as (e & Hl & [= <-]).
    apply first_index_Some in Hi as (e' & Hl' & Ht & _). simplify_eq.
    apply (entry_is_true _ _ _ _ (He _ _ Hl') Hip) in Ht as []. eauto 10.
  - intros (i & e & Hl & Hd & H4 & <-).
    rewrite (first_index_unique _ _ i e Hl); [cbn; by rewrite Hl|by eapply entry_is_true; eauto|].
    intros j y Hj Ht. apply (entry_is_true _ _ _ _ (He _ _ Hj) Hip) in Ht as [Hd' H4'].
    eapply (wf_keys _ Hs); eauto. congruence.
Qed.

Lemma lookup_None s d ip :
  wf s → length ip = 4%nat →
  arp_cache_lookup d ip s = None ↔ first_index (entry_is d ip) (g_cache s) = None.
Proof.
  intros Hs Hip. unfold arp_cache_lookup. destruct (first_index _ _) as [i|] eqn:E; [|done].
  cbn [mbind option_bind]. apply first_index_lt in E as Hlt. destruct (lookup_lt_is_Some_2 _ _ Hlt) as [e ->]. done.
Qed.

(** The scan for the oldest entry: nothing used is older than what it returns. *)
Lemma oldest_spec c i index time :
  let o := oldest c i index time in
  (o = index ∧ ∀ j e, c !! j = Some e → is_Some (e_dev e) → time ≤ e_updated e) ∨
  ∃ j e, o = (i + j)%nat ∧ c !! j = Some e ∧ is_Some (e_dev e) ∧ e_updated e < time ∧
    ∀ k e', c !! k = Some e' → is_Some (e_dev e') → e_updated e ≤ e_updated e'.
Proof.
  revert i index time. induction c as [|x c IH]; intros i index time; cbn [oldest]; [left; by split|].
  case_match eqn:E; bool_prop.
  - right. destruct (IH (S i) i (e_updated x)) as [[Ho Hm]|(j & e & Ho & Hj & He & Hlt & Hm)].
    + exists 0%nat, x. split; [lia|]. repeat split; [done..|]. intros [|k] e' Hk He'; cbn in Hk; simplify_eq; [lia|].
      by eapply Hm.
    + exists (S j), e. split; [lia|]. repeat split; [done..|lia|]. intros [|k] e' Hk He'; cbn in Hk; simplify_eq; [lia|].
      by eapply Hm.
  - assert (Hx : is_Some (e_dev x) → time ≤ e_updated x).
    { intros Hx. rewrite bool_decide_eq_true_2 in E by done. cbn in E. bool_prop. lia. }
    destruct (IH (S i) index time) as [[Ho Hm]|(j & e & Ho & Hj & He & Hlt & Hm)].
    + left. split; [done|]. intros [|k] e' Hk He'; cbn in Hk; simplify_eq; [by apply Hx|by eapply Hm].
    + right. exists (S j), e. split; [lia|]. repeat split; [done..|]. intros [|k] e' Hk He'; cbn in Hk; simplify_eq.
      * specialize (Hx He'). lia.
      * by eapply Hm.
Qed.

(** Putting an entry for a key in a slot, when no other slot has the key. *)
Lemma insert_entry s t e0 e d :
  wf s → g_cache s !! t = Some e0 → wf_entry (length (dev_store s)) e → e_dev e = Some d →
  (∀ j ej, g_cache s !! j = Some ej → e_dev ej = Some d → e_ipv4 ej = e_ipv4 e → j = t) →
  let s' := set_cache (<[t := e]> (g_cache s)) s in
  wf s' ∧ arp_cache_lookup d (e_ipv4 e) s' = Some (e_mac e) ∧
  ∀ d' ip', length ip' = 4%nat → (d', ip') ≠ (d, e_ipv4 e) →
    arp_cache_lookup d' ip' s' =
      if bool_decide (e_dev e0 = Some d' ∧ e_ipv4 e0 = ip') then None else arp_cache_lookup d' ip' s.
Proof.
  intros Hs Ht He Hd Hu s'. apply lookup_lt_Some in Ht as Hlt.
  assert (Hs' : wf s').
  { apply wf_set_cache; [done|rewrite length_insert; apply (wf_cache _ Hs)|apply Forall_insert; [apply (wf_entries _ Hs)|done]|].
    intros i j ei ej k Hi Hj Hdi Hdj Hip. destruct (decide (i = t)) as [->|Hi'], (decide (j = t)) as [->|Hj']; [done| | |].
    - rewrite list_lookup_insert_eq in Hi by done. rewrite list_lookup_insert_ne in Hj by done. simplify_eq.
      symmetry. eapply Hu; eauto.
    - rewrite list_lookup_insert_eq in Hj by done. rewrite list_lookup_insert_ne in Hi by done. simplify_eq.
      eapply Hu; eauto.
    - rewrite list_lookup_insert_ne in Hi, Hj by done. by eapply (wf_keys _ Hs). }
  split; [done|]. split.
  { apply lookup_iff; [done|apply He|]. exists t, e. repeat split; try done. by apply list_lookup_insert_eq. }
  intros d' ip' Hip Hne. apply option_eq. intros m. rewrite lookup_iff by done. split.
  - intros (i & ei & Hi & Hdi & H4 & Hm). cbn in Hi. destruct (decide (i = t)) as [->|Hi'].
    { rewrite list_lookup_insert_eq in Hi by done. naive_solver. }
    rewrite list_lookup_insert_ne in Hi by done.
    rewrite bool_decide_eq_false_2; [apply lookup_iff; eauto 10|]. intros [Hd0 H40]. subst.
    assert (i = t); [|done]. eapply (wf_keys _ Hs); eauto.
  - intros H. case_bool_decide as Hb; [done|]. apply lookup_iff in H as (i & ei & Hi & Hdi & H4 & Hm); [|done..].
    exists i, ei. split; [|done]. cbn. rewrite list_lookup_insert_ne; [done|]. intros <-. simplify_eq. naive_solver.
Qed.

(** The slot a new entry goes to: the first free one, or the oldest. *)
Lemma store_target s :
  wf s →
  let free := default ARP_CACHE_CAPACITY (first_index (fun e => bool_decide (e_dev e = None)) (g_cache s)) in
  let old := oldest (g_cache s) 0 ARP_CACHE_CAPACITY 18446744073709551615 in
  let target := if (free =? ARP_CACHE_CAPACITY)%nat then old else free in
  let target := if (target =? ARP_CACHE_CAPACITY)%nat then 0%nat else target in
  ∃ e0, g_cache s !! target = Some e0 ∧
    (e_dev e0 = None ∨
     (∀ i e, g_cache s !! i = Some e → is_Some (e_dev e) ∧ e_updated e0 ≤ e_updated e)).
Proof.
  intros Hs. pose proof (wf_cache _ Hs) as Hl. unfold ARP_CACHE_CAPACITY in *. cbv zeta.
  destruct (first_index _ _) as [i|] eqn:E; cbn [from_option id].
  { apply first_index_lt in E as Hlt. rewrite (proj2 (Nat.eqb_neq i 8)) by lia. cbv iota. rewrite (proj2 (Nat.eqb_neq i 8)) by lia. cbv iota.
    apply first_index_Some in E as (e & He & Hn%bool_decide_eq_true & _). exists e. auto. }
  rewrite first_index_None in E.
  assert (Hu : ∀ i e, g_cache s !! i = Some e → is_Some (e_dev e)).
  { intros i e He. specialize (E i e He). apply bool_decide_eq_false in E. by destruct (e_dev e). }
  change (8 =? 8)%nat with true. cbv iota. destruct (oldest_spec (g_cache s) 0 8 18446744073709551615) as [[-> Hm]|(j & e & -> & Hj & _ & _ & Hm)].
  - change (8 =? 8)%nat with true. cbv iota. destruct (lookup_lt_is_Some_2 (g_cache s) 0) as [e0 He0]; [lia|]. exists e0. split; [done|]. right.
    intros i e He. split; [eauto|]. pose proof (Hm i e He (Hu i e He)).
    destruct (Forall_lookup_1 _ _ _ _ (wf_entries _ Hs) He0) as (_ & _ & _ & _ & Hr & _). lia.
  - apply lookup_lt_Some in Hj as Hlt. rewrite Nat.add_0_l, (proj2 (Nat.eqb_neq j 8)) by lia. cbv iota.
    exists e. split; [done|]. right. eauto.
Qed.

(** What a store does: the address is found; every other address is found as
    before, except that the oldest entry may have made room. *)
Definition cache_stored (d : nat) (ip m : list Z) (s s' : net) : Prop :=
  arp_cache_lookup d ip s' = Some m ∧
  ∀ d' ip', length ip' = 4%nat → (d', ip') ≠ (d, ip) →
    arp_cache_lookup d' ip' s' = arp_cache_lookup d' ip' s ∨
    (arp_cache_lookup d ip s = None ∧ arp_cache_lookup d' ip' s' = None ∧
     ∃ i e, g_cache s !! i = Some e ∧ e_dev e = Some d' ∧ e_ipv4 e = ip' ∧
       ∀ j e', g_cache s !! j = Some e' → is_Some (e_dev e') ∧ e_updated e ≤ e_updated e').

Lemma cache_store_ok s d ip m :
  wf s → (d < length (dev_store s))%nat → length ip = 4%nat → bytes ip → length m = 6%nat → bytes m →
  returns (arp_cache_store d ip m s) (λ s', wf s' ∧ (∃ c, s' = set_cache c s) ∧ cache_stored d ip m s s').
Proof.
  intros Hs Hd Hip Hbi Hm Hbm. unfold arp_cache_store. rewrite (field_all m) by done. cbn [mbind option_bind].
  pose proof (wf_ticks _ Hs) as Hti. pose proof (wf_entries _ Hs) as Hes. rewrite Forall_lookup in Hes.
  destruct (first_index (entry_is d ip) (g_cache s)) as [i|] eqn:E.
  - apply first_index_Some in E as (e & He & Ht & _). rewrite He. cbn [mbind option_bind].
    apply (entry_is_true _ _ _ _ (Hes _ _ He) Hip) in Ht as [Hdev H4].
    set (e1 := ArpEntry (e_dev e) (e_ipv4 e) m (ticks s)).
    assert (Hw : wf_entry (length (dev_store s)) e1) by (pose proof (Hes _ _ He); unfold wf_entry in *; cbn; naive_solver).
    destruct (insert_entry s i e e1 d Hs He Hw Hdev) as (Hs' & Hl & Ho).
    { intros j ej Hj Hdj H4j. by eapply (wf_keys _ Hs); eauto. }
    apply returns_ret. split; [done|]. split; [eauto|]. cbn [e_ipv4 e1] in Hl, Ho. rewrite H4 in *. split; [done|].
    intros d' ip' Hl' Hne. left. rewrite Ho by done. rewrite bool_decide_eq_false_2; [done|]. intros []. congruence.
  - apply lookup_None in E as Hn; [|done..]. rewrite first_index_None in E.
    destruct (store_target s Hs) as (e0 & Ht & Hold). cbv zeta in Ht. rewrite (field_all ip) by done. cbn [mbind option_bind].
    match type of Ht with _ !! ?x = _ => set (t := x) in * end. rewrite buf_store_ok by (by eapply lookup_lt_Some). cbn [mbind option_bind].
    set (e1 := ArpEntry (Some d) ip m (ticks s)).
    assert (Hw : wf_entry (length (dev_store s)) e1) by (unfold wf_entry; cbn; naive_solver).
    destruct (insert_entry s t e0 e1 d Hs Ht Hw eq_refl) as (Hs' & Hl & Ho).
    { intros j ej Hj Hdj H4j. specialize (E j ej Hj).
      assert (entry_is d ip ej = true) by (eapply entry_is_true; eauto). congruence. }
    apply returns_ret. split; [done|]. split; [eauto|]. split; [done|]. intros d' ip' Hl' Hne. rewrite Ho by done.
    case_bool_decide as Hb; [|by left]. right. split; [done|]. split; [done|]. destruct Hb as [Hb1 Hb2].
    destruct Hold as [Hold|Hold]; [congruence|]. eauto 10.
Qed.

End cache.

End NetSpec.

Module NetLayers.

Import Arrays Bytes Net NetSum NetSpec.

(** The IPv4 packet [ipv4_send] builds: the checksum of the header is stored by a
    plain assignment, least significant byte first. *)
Definition ipv4_packet (total ident protocol : Z) (src dst : list Z) (sum : Z) (payload : list Z) : list Z :=
  ([0x45; 0] ++ be16 (u16 total) ++ be16 ident ++ be16 0 ++ [64; protocol]) ++ le16 sum ++ (src ++ dst) ++ payload.

(** The echo message with its checksum, stored the same way. *)
Definition echo_packet (type sum identifier sequence : Z) (payload : list Z) : list Z :=
  [type; 0] ++ le16 sum ++ be16 identifier ++ be16 sequence ++ payload.

Lemma ipv4_header_length total ident protocol src dst :
  length src = 4%nat → length dst = 4%nat → length (ipv4_header total ident protocol src dst) = 20%nat.
Proof. intros. unfold ipv4_header. rewrite !length_app, !be16_length. cbn. lia. Qed.

Lemma ipv4_header_bytes total ident protocol src dst :
  bytes src → bytes dst → byte protocol → bytes (ipv4_header total ident protocol src dst).
Proof.
  intros Hs Hd Hp. unfold ipv4_header.
  repeat (apply bytes_app; split); try apply be16_bytes; try done;
    repeat (constructor; [done|]); constructor.
Qed.

(** The sum over a header is positive: it starts with the version. *)
Lemma ipv4_header_sum total ident protocol src dst :
  bytes src → bytes dst → byte protocol → 0 < NetSum.total (words (ipv4_header total ident protocol src dst)).
Proof.
  intros Hs Hd Hp. pose proof (ipv4_header_bytes total ident protocol src dst Hs Hd Hp) as Hb.
  unfold ipv4_header in *. cbn [app words] in *. do 2 apply Forall_cons_1 in Hb as [_ Hb].
  unfold NetSum.total. cbn [foldr]. pose proof (words_bound _ Hb). unfold NetSum.total in *. lia.
Qed.

(** Overwriting two bytes in the middle of a buffer. *)
Lemma copy_middle (p x q y : list Z) n :
  n = length p → length x = length y → buf_copy (p ++ x ++ q) n y = Some (p ++ y ++ q).
Proof.
  intros -> Hxy. rewrite buf_copy_ok by (rewrite !length_app; lia). f_equal.
  rewrite take_app_length. f_equal. f_equal.
  rewrite drop_app_ge by lia. replace (length p + length y - length p)%nat with (length x) by lia.
  by rewrite drop_app_length.
Qed.

Section layers.
Variable driver : nat → list (nat * list Z) → list Z → Z.

(** ** Sending IPv4 *)

(** The header and the payload in the transmit buffer. *)
Lemma ipv4_fill b h p len :
  length h = 20%nat → length b = (20 + 1500)%nat → 0 ≤ len ≤ 1480 → (Z.to_nat len ≤ length (default [] p))%nat →
  ∃ b', buf_copy b 0 h = Some b' ∧
    (if 0 <? len then data ← field (default [] p) 0 (Z.to_nat len); buf_copy b' 20 data else Some b') =
      Some (h ++ take (Z.to_nat len) (default [] p) ++ drop (20 + Z.to_nat len) b).
Proof.
  intros Hh Hb Hlen Hp. pose proof (copy_behind b [] h 0 eq_refl ltac:(lia)) as Hcp. rewrite drop_0 in Hcp. cbn [app] in Hcp.
  rewrite Hcp, Hh, Nat.add_0_l. eexists. split; [done|].
  destruct (Z.ltb_spec 0 len) as [Hpos|Hz].
  - rewrite field_ok by lia. cbn [mbind option_bind]. rewrite drop_0.
    rewrite copy_behind by (rewrite ?length_take; lia). by rewrite length_take, Nat.min_l, <- app_assoc by lia.
  - assert (len = 0) as -> by lia. done.
Qed.

(** With the receiver in the ARP cache the packet goes to the Ethernet layer. *)
Lemma ipv4_send_reaches s d dst m protocol p len :
  wf s → length dst = 4%nat → bytes dst → byte protocol →
  arp_cache_lookup d dst s = Some m → 0 ≤ len ≤ 1480 → (Z.to_nat len ≤ length (default [] p))%nat → (p = None → len = 0) →
  let ident := u16 (g_ipv4_ident s + 1) in
  let total := 20 + len in
  ∃ sum b, length b = length (g_ipv4_tx_buffer s) ∧
    ipv4_checksum (ipv4_header total ident protocol (g_ipv4_address s) dst) = Some sum ∧
    take (Z.to_nat total) b = ipv4_packet total ident protocol (g_ipv4_address s) dst sum (take (Z.to_nat len) (default [] p)) ∧
    ipv4_send driver (Some d) (Some dst) protocol p len s =
      ethernet_send_frame driver (Some d) (Some m) ETHERTYPE_IPV4 (Some b) total (set_ipv4 (g_ipv4_address s) ident b s).
Proof.
  intros Hs Hdst Hbd Hpr Hc Hlen Hp Hnull ident total. destruct (wf_address _ Hs) as [Ha Hba].
  set (h := ipv4_header total ident protocol (g_ipv4_address s) dst).
  assert (Hh : length h = 20%nat) by (by apply ipv4_header_length).
  destruct (checksum_ok h) as [Hsum _]; [by apply ipv4_header_bytes|unfold SUM_LIMIT; lia|].
  set (sum := 65535 - _) in Hsum. unfold ipv4_send.
  assert ((0 <? len) && bool_decide (p = None) = false) as ->.
  { apply andb_false_iff. destruct (Z.ltb_spec 0 len); [right|by left]. apply bool_decide_eq_false. intros Hn. specialize (Hnull Hn). lia. }
  unfold IPV4_HEADER in *. change (Z.of_nat 20) with 20. rewrite u32_small by lia.
  rewrite (proj2 (Z.ltb_ge _ _)) by (unfold ETHERNET_MAX_PAYLOAD; lia).
  unfold arp_resolve. rewrite Hc. cbn [mbind option_bind]. change (0 <? 0) with false. cbv iota.
  rewrite (field_all (g_ipv4_address s)), (field_all dst) by done. cbn [mbind option_bind]. fold ident total h.
  pose proof (wf_ipv4_tx _ Hs) as Hb. set (b := g_ipv4_tx_buffer s) in *. set (data := take (Z.to_nat len) (default [] p)).
  assert (Hdl : length data = Z.to_nat len) by (unfold data; rewrite length_take; lia).
  destruct (ipv4_fill b h p len) as (b' & -> & Hf); try done. cbn [mbind option_bind]. rewrite Hf. cbn [mbind option_bind].
  fold data. pose proof (field_exact h (data ++ drop (20 + Z.to_nat len) b)) as Hx. rewrite Hh in Hx.
  rewrite Hx. cbn [mbind option_bind]. rewrite Hsum. cbn [mbind option_bind].
  set (h1 := [69; 0] ++ be16 (u16 total) ++ be16 ident ++ be16 0 ++ [64; protocol]).
  replace (h ++ data ++ drop (20 + Z.to_nat len) b) with
    (h1 ++ [0; 0] ++ (g_ipv4_address s ++ dst) ++ data ++ drop (20 + Z.to_nat len) b)
    by (unfold h, h1, ipv4_header; by rewrite <- !app_assoc).
  rewrite copy_middle by done. cbn [mbind option_bind]. set (b2 := h1 ++ _). exists sum, b2. split.
  { unfold b2. rewrite !length_app, length_drop, le16_length, Hdl, Ha, Hdst. change (length h1) with 10%nat. lia. }
  split; [done|]. split; [|done].
  unfold b2, ipv4_packet. fold h1. rewrite !app_assoc, take_app_le, firstn_all2; [done|..];
    rewrite !length_app, le16_length, Hdl, Ha, Hdst; change (length h1) with 10%nat; lia.
Qed.

(** The hardware address found in the cache has six bytes. *)
Lemma cached_length s d ip m : wf s → length ip = 4%nat → arp_cache_lookup d ip s = Some m → length m = 6%nat ∧ bytes m.
Proof.
  intros Hs Hip (i & e & He & _ & _ & <-)%lookup_iff; [|done..].
  by destruct (Forall_lookup_1 _ _ _ _ (wf_entries _ Hs) He) as (_ & ? & _ & ? & _).
Qed.

(** The state in which the packet is handed over. *)
Lemma wf_sending s ident b :
  wf s → length b = length (g_ipv4_tx_buffer s) → wf (set_ipv4 (g_ipv4_address s) (u16 ident) b s).
Proof.
  intros Hs Hb. destruct (wf_address _ Hs). apply wf_set_ipv4; try done. unfold u16. apply Z.mod_pos_bound. lia.
Qed.

(** The frame that goes out. *)
Lemma ipv4_send_ok s d nd dst m protocol p len :
  wf s → dev_store s !! d = Some nd → has_transmit nd = true → length dst = 4%nat → bytes dst → byte protocol →
  arp_cache_lookup d dst s = Some m → 0 ≤ len ≤ 1480 → (Z.to_nat len ≤ length p)%nat →
  let ident := u16 (g_ipv4_ident s + 1) in
  ∃ sum b1 b2, length b1 = length (g_tx_buffer s) ∧ length b2 = length (g_ipv4_tx_buffer s) ∧
    ipv4_checksum (ipv4_header (20 + len) ident protocol (g_ipv4_address s) dst) = Some sum ∧
    let f := frame m (mac nd) ETHERTYPE_IPV4
               (ipv4_packet (20 + len) ident protocol (g_ipv4_address s) dst sum (take (Z.to_nat len) p)) in
    ipv4_send driver (Some d) (Some dst) protocol (Some p) len s =
      Some (driver d (sent s) f, add_sent (d, f) (set_tx b1 (set_ipv4 (g_ipv4_address s) ident b2 s))).
Proof.
  intros Hs Hnd Htx Hdst Hbd Hpr Hc Hlen Hp ident.
  destruct (ipv4_send_reaches s d dst m protocol (Some p) len) as (sum & b & Hb & Hsum & Ht & Heq); try done.
  destruct (cached_length _ _ _ _ Hs Hdst Hc) as [Hm _]. pose proof (wf_ipv4_tx _ Hs) as Hbl.
  destruct (ethernet_send_ok driver (set_ipv4 (g_ipv4_address s) ident b s) d nd m ETHERTYPE_IPV4 b (20 + len))
    as (b1 & Hb1 & Hsend); try done; try (unfold ETHERNET_MAX_PAYLOAD, IPV4_HEADER in *; lia); [by apply wf_sending|].
  exists sum, b1, b. do 3 (split; [done|]). cbv zeta. rewrite Heq. etransitivity; [exact Hsend|].
  by rewrite Ht, firstn_all2 by lia.
Qed.

(** ** ARP *)

Lemma arp_packet_length oper sha spa tha tpa :
  length sha = 6%nat → length spa = 4%nat → length tha = 6%nat → length tpa = 4%nat →
  length (arp_packet oper sha spa tha tpa) = 28%nat.
Proof. intros. unfold arp_packet. rewrite !length_app, !be16_length. cbn [length]. lia. Qed.

Definition valid_dev (s : net) (dev : option nat) : Prop := ∀ d, dev = Some d → (d < length (dev_store s))%nat.

(** The pointer points at a buffer of at least [n] bytes. *)
Definition valid_ptr (n : Z) (p : option (list Z)) : Prop := ∀ q, p = Some q → (Z.to_nat n ≤ length q)%nat ∧ bytes q.

(** The fields of a request or a reply. *)
Lemma arp_fields oper sha spa tha tpa rest :
  0 ≤ oper < 65536 → length sha = 6%nat → length spa = 4%nat → length tha = 6%nat → length tpa = 4%nat →
  let p := arp_packet oper sha spa tha tpa ++ rest in
  read_be16 p 0 = Some ARP_HTYPE_ETHERNET ∧ read_be16 p 2 = Some ARP_PTYPE_IPV4 ∧ p !! 4%nat = Some 6 ∧ p !! 5%nat = Some 4 ∧
  read_be16 p 6 = Some oper ∧ field p 8 6 = Some sha ∧ field p 14 4 = Some spa ∧ field p 24 4 = Some tpa.
Proof.
  intros Ho Hsha Hspa Htha Htpa p. unfold p, arp_packet. rewrite <- !app_assoc.
  split; [done|]. split; [done|]. split; [done|]. split; [done|]. split.
  { rewrite (app_assoc [6; 4]), (app_assoc (be16 ARP_PTYPE_IPV4)), (app_assoc (be16 ARP_HTYPE_ETHERNET)).
    by apply (read_be16_app (be16 ARP_HTYPE_ETHERNET ++ be16 ARP_PTYPE_IPV4 ++ [6; 4])). }
  set (hd := be16 ARP_HTYPE_ETHERNET ++ be16 ARP_PTYPE_IPV4 ++ [6; 4] ++ be16 oper).
  assert (Hhd : length hd = 8%nat) by done.
  replace (be16 ARP_HTYPE_ETHERNET ++ be16 ARP_PTYPE_IPV4 ++ [6; 4] ++ be16 oper ++ sha ++ spa ++ tha ++ tpa ++ rest)
    with (hd ++ sha ++ spa ++ tha ++ tpa ++ rest) by (unfold hd; by rewrite <- !app_assoc).
  rewrite !(field_app_r hd) by lia. rewrite Hhd. change (8 - 8)%nat with 0%nat. change (14 - 8)%nat with 6%nat. change (24 - 8)%nat with 16%nat.
  split; [rewrite <- Hsha; apply field_exact|].
  rewrite !(field_app_r sha) by lia. rewrite Hsha. change (6 - 6)%nat with 0%nat. change (16 - 6)%nat with 10%nat.
  split; [rewrite <- Hspa at 1; apply field_exact|].
  rewrite (field_app_r spa), (field_app_r tha) by lia. rewrite Hspa, Htha. change (10 - 4 - 6)%nat with 0%nat.
  rewrite <- Htpa at 1. apply field_exact.
Qed.

(** A packet of any content leaves the stack in order. *)
Lemma arp_receive_safe s dev p len :
  wf s → valid_dev s dev → valid_ptr len p → safe s (arp_receive driver dev p len s).
Proof.
  intros Hs Hdev Hp. destruct dev as [d|], p as [q|]; try (by apply safe_fail).
  specialize (Hdev _ eq_refl). destruct (Hp _ eq_refl) as [Hl Hb]. unfold arp_receive, ARP_HEADER. change (Z.of_nat 28) with 28.
  destruct (Z.ltb_spec len 28); [apply safe_fail; [by apply wf_klog|done]|].
  eapply returns_bind; [apply returns_be16; [done|lia]|]. intros htype _.
  eapply returns_bind; [apply returns_be16; [done|lia]|]. intros ptype _.
  eapply returns_bind; [apply returns_lookup; lia|]. intros hlen _.
  eapply returns_bind; [apply returns_lookup; lia|]. intros plen _.
  case_match; [apply safe_fail; [by apply wf_klog|done]|].
  eapply returns_bind; [apply returns_be16; [done|lia]|]. intros oper _.
  eapply returns_bind; [apply returns_field; lia|]. intros sha [Hsha Hsl].
  eapply returns_bind; [apply returns_field; lia|]. intros spa [Hspa Hpl].
  assert (bytes sha ∧ bytes spa) as [Hb1 Hb2] by (subst; split; by apply bytes_take, bytes_drop).
  assert (Hstore := cache_store_ok s d spa sha Hs Hdev Hpl Hb2 Hsl Hb1).
  case_match; [|case_match; [|by apply safe_fail]].
  2:{ eapply returns_bind; [apply Hstore|]. intros s' (Hs' & [c ->] & _). by apply safe_fail. }
  eapply returns_bind; [apply Hstore|]. intros s' (Hs' & [c Hc] & _).
  assert (Hds : dev_store s' = dev_store s) by (by subst). rewrite Hds.
  destruct (wf_nd s d Hs Hdev) as (nd & -> & Hm & _). cbn [mbind option_bind].
  rewrite (field_all (mac nd)) by done. cbn [mbind option_bind].
  eapply returns_bind; [apply returns_field; lia|]. intros tpa [_ Htl].
  eapply returns_bind; [apply (ethernet_send_safe driver s'); try done|].
  - intros d' [= <-]. by rewrite Hds.
  - intros m' [= <-]. lia.
  - intros q' [= <-]. by rewrite arp_packet_length.
  - intros [r t] [Ht Hdt]. pose proof (kept_trans s s' t ltac:(by subst) Hdt). case_match; apply safe_fail; try done; by apply wf_klog.
Qed.

(** An address in the cache, or a request. *)
Lemma arp_resolve_safe s dev ip :
  wf s → valid_dev s dev → valid_ptr 4 ip →
  returns (arp_resolve driver dev ip s) (λ '(r, m, s'), wf s' ∧ kept s s' ∧
    (r = 0 → s' = s ∧ ∃ d a, dev = Some d ∧ ip = Some a ∧ arp_cache_lookup d a s = Some m)).
Proof.
  intros Hs Hdev Hip. destruct dev as [d|], ip as [a|]; try (by apply returns_ret).
  specialize (Hdev _ eq_refl). destruct (Hip _ eq_refl) as [Hl Hb]. unfold arp_resolve.
  destruct (arp_cache_lookup d a s) as [m|] eqn:E; [apply returns_ret; do 2 (split; [done|]); eauto 10|].
  destruct (wf_nd s d Hs Hdev) as (nd & -> & Hm & _). cbn [mbind option_bind].
  rewrite (field_all (mac nd)) by done. destruct (wf_address _ Hs) as [Ha _].
  cbn [mbind option_bind]. rewrite (field_all (g_ipv4_address s)) by done. cbn [mbind option_bind].
  eapply returns_bind; [apply returns_field; lia|]. intros t [_ Ht].
  eapply returns_bind; [apply (ethernet_send_safe driver s); try done|].
  - by intros d' [= <-].
  - intros m' [= <-]. done.
  - intros q' [= <-]. rewrite arp_packet_length; try done. by case_match.
  - intros [r s'] [? ?]. apply returns_ret. split; [done|]. split; [done|]. case_match; lia.
Qed.

Lemma ipv4_send_safe s dev dst protocol p len :
  wf s → valid_dev s dev → valid_ptr 4 dst → (∀ a, dst = Some a → length a = 4%nat) → byte protocol → 0 ≤ len < 4294967276 → valid_ptr len p →
  safe s (ipv4_send driver dev dst protocol p len s).
Proof.
  intros Hs Hdev Hdst H4 Hpr Hlen Hp. destruct dev as [d|], dst as [a|]; try (by apply safe_fail).
  destruct (Hdst _ eq_refl) as [_ Hb]. specialize (H4 _ eq_refl).
  destruct ((0 <? len) && bool_decide (p = None)) eqn:Hnull.
  { unfold ipv4_send. rewrite Hnull. by apply safe_fail. }
  destruct (decide (len ≤ 1480)) as [Hle|Hgt].
  2:{ unfold ipv4_send. rewrite Hnull. unfold IPV4_HEADER, ETHERNET_MAX_PAYLOAD. change (Z.of_nat 20) with 20.
      rewrite u32_small, (proj2 (Z.ltb_lt _ _)) by lia. apply safe_fail; [by apply wf_klog|done]. }
  destruct (arp_cache_lookup d a s) as [m|] eqn:Hm.
  2:{ unfold ipv4_send. rewrite Hnull. unfold IPV4_HEADER, ETHERNET_MAX_PAYLOAD. change (Z.of_nat 20) with 20.
      rewrite u32_small, (proj2 (Z.ltb_ge _ _)) by lia.
      eapply returns_bind; [apply (arp_resolve_safe s); done|]. intros [[r mm] s'] (Hs' & Hds & Hr).
      case_match; [by apply safe_fail|]. case_match; [by apply safe_fail|]. bool_prop.
      destruct Hr as (_ & d' & a' & [= <-] & [= <-] & Hc); [lia|]. congruence. }
  assert (Hn : p = None → len = 0).
  { intros ->. apply andb_false_iff in Hnull as [Hz|Hz]; [bool_prop; lia|done]. }
  assert (Hpl : (Z.to_nat len ≤ length (default [] p))%nat).
  { destruct p as [q|]; [by destruct (Hp _ eq_refl)|]. rewrite Hn by done. done. }
  destruct (ipv4_send_reaches s d a m protocol p len) as (sum & b & Hb2 & _ & _ & ->); try done; [lia|].
  destruct (cached_length _ _ _ _ Hs H4 Hm) as [Hml _]. pose proof (wf_ipv4_tx _ Hs) as Hbl.
  apply (safe_trans _ (set_ipv4 (g_ipv4_address s) (u16 (g_ipv4_ident s + 1)) b s)); [done|].
  apply ethernet_send_safe; [by apply wf_sending|done|intros m' [= <-]; lia|lia|].
  intros q [= <-]. unfold IPV4_HEADER in *. lia.
Qed.

(** ** Echo replies *)

(** The replies waiting, oldest first. *)
Definition replies (s : net) : list icmp_echo_reply := take (g_reply_count s) (g_replies s).

(** A bounded queue that drops its oldest element when it is full. *)
Definition push_bounded {A} (n : nat) (l : list A) (x : A) : list A :=
  (if (n <=? length l)%nat then list.tail l else l) ++ [x].

Lemma replies_length s : wf s → length (replies s) = g_reply_count s.
Proof. intros Hs. unfold replies. rewrite length_take, (wf_replies _ Hs). pose proof (wf_reply_count _ Hs). lia. Qed.

Lemma record_reply_ok s identifier sequence src :
  wf s → valid_ptr 4 src →
  returns (record_reply identifier sequence src s) (λ s', wf s' ∧ kept s s' ∧ sent s' = sent s ∧
    replies s' = push_bounded ICMP_REPLY_CAPACITY (replies s)
                   (EchoReply identifier sequence (take 4 (default (replicate 4 0) src)))).
Proof.
  intros Hs Hsrc. pose proof (wf_replies _ Hs) as Hl. pose proof (wf_reply_count _ Hs) as Hc.
  pose proof (replies_length s Hs) as Hrl. unfold record_reply, push_bounded, ICMP_REPLY_CAPACITY in *. rewrite Hrl.
  set (r := EchoReply _ _ _).
  assert (Hsrc4 : match src with Some a => field a 0 4 | None => Some (replicate 4 0) end = Some (r_src r)).
  { cbn. destruct src as [a|]; [|done]. destruct (Hsrc _ eq_refl). rewrite field_ok by lia. by rewrite drop_0. }
  destruct (Nat.leb_spec 8 (g_reply_count s)) as [Hfull|Hroom].
  - rewrite shift_left_ok by lia. cbn [mbind option_bind]. set (l := take _ _ ++ _).
    assert (Hll : length l = 8%nat) by (unfold l; rewrite !length_app, !length_take, !length_drop; lia).
    rewrite Hsrc4. cbn [mbind option_bind]. change (EchoReply identifier sequence (r_src r)) with r.
    destruct (push_ok r (g_reply_count s - 1) l) as (Hp & Hpl & Ht); [lia|]. rewrite Hp. cbn [mbind option_bind].
    apply returns_ret. split; [apply wf_set_replies; [done|by rewrite Hpl|unfold ICMP_REPLY_CAPACITY; lia]|]. do 2 (split; [done|]).
    unfold replies. cbn [g_replies g_reply_count set_replies]. rewrite Ht. f_equal. unfold l.
    change (1 - 1)%nat with 0%nat. rewrite take_0, app_nil_l.
    rewrite take_app_le by (rewrite length_take, length_drop; lia). rewrite take_take, Nat.min_l by lia.
    destruct (g_replies s) as [|x t]; [done|]. destruct (g_reply_count s); [lia|].
    cbn [take list.tail drop Nat.sub]. by rewrite Nat.sub_0_r, drop_0.
  - rewrite Hsrc4. cbn [mbind option_bind]. change (EchoReply identifier sequence (r_src r)) with r.
    destruct (push_ok r (g_reply_count s) (g_replies s)) as (Hp & Hpl & Ht); [lia|]. rewrite Hp. cbn [mbind option_bind].
    apply returns_ret. split; [apply wf_set_replies; [done|by rewrite Hpl|unfold ICMP_REPLY_CAPACITY; lia]|]. done.
Qed.

(** ** ICMP *)

Lemma echo_header_bytes type identifier sequence : byte type → bytes (echo_header type identifier sequence).
Proof.
  intros. unfold echo_header. repeat (apply bytes_app; split); try apply be16_bytes.
  repeat (constructor; [done|]). constructor.
Qed.

(** Filling in the reply buffer of [icmp_receive]. *)
Lemma echo_build identifier sequence data :
  bytes data → (length data ≤ 1500)%nat →
  ∃ b1 b2 sum b3,
    buf_copy (replicate 1508 0) 0 (echo_header 0 identifier sequence) = Some b1 ∧ buf_copy b1 ICMP_HEADER data = Some b2 ∧
    field b2 0 (ICMP_HEADER + length data) = Some (echo_header 0 identifier sequence ++ data) ∧
    icmp_checksum (echo_header 0 identifier sequence ++ data) = Some sum ∧
    buf_copy b2 2 (le16 sum) = Some b3 ∧ length b3 = 1508%nat ∧
    take (ICMP_HEADER + length data) b3 = echo_packet 0 sum identifier sequence data.
Proof.
  intros Hb Hl. set (h := echo_header 0 identifier sequence). assert (Hh : length h = 8%nat) by done.
  unfold ICMP_HEADER. set (z := replicate 1508 0). assert (Hz : length z = 1508%nat) by apply length_replicate.
  pose proof (copy_behind z [] h 0 eq_refl ltac:(lia)) as H1. rewrite drop_0 in H1. cbn [app] in H1. rewrite Hh, Nat.add_0_l in H1.
  pose proof (copy_behind z h data 8 Hh ltac:(lia)) as H2.
  destruct (checksum_ok (h ++ data)) as [Hsum Hicmp].
  { apply bytes_app. split; [by apply echo_header_bytes|done]. }
  { rewrite length_app. unfold SUM_LIMIT. lia. }
  rewrite Hsum in Hicmp. set (sum := 65535 - _) in Hicmp.
  pose proof (copy_middle [0; 0] [0; 0] ((be16 identifier ++ be16 sequence) ++ data ++ drop (8 + length data) z) (le16 sum) 2 eq_refl eq_refl) as H3.
  exists (h ++ drop 8 z), ((h ++ data) ++ drop (8 + length data) z), sum. eexists.
  split; [done|]. split; [done|]. split.
  { replace (8 + length data)%nat with (length (h ++ data)) at 1 by (rewrite length_app; lia). apply field_exact. }
  split; [done|]. split; [rewrite <- H3; f_equal; by rewrite <- app_assoc|]. split.
  - rewrite !length_app, length_drop, Hz, le16_length, !be16_length. cbn [length]. lia.
  - unfold echo_packet. rewrite (app_assoc (be16 identifier)), !app_assoc.
    rewrite take_app_le, firstn_all2; [done|..]; rewrite !length_app, le16_length, !be16_length; cbn [length]; lia.
Qed.

(** Any message is handled inside its buffers, as long as the 1500 bytes that a
    request is cut to are there. *)
Lemma icmp_receive_safe s dev p len src :
  wf s → valid_dev s dev → 0 ≤ len → valid_ptr (Z.min len 1508) p → valid_ptr 4 src → (∀ a, src = Some a → length a = 4%nat) →
  safe s (icmp_receive driver dev p len src s).
Proof.
  intros Hs Hdev Hlen Hp Hsrc H4. destruct dev as [d|], p as [q|]; try (by apply safe_fail).
  destruct (Hp _ eq_refl) as [Hl Hb]. unfold icmp_receive. unfold ICMP_HEADER at 1. change (Z.of_nat 8) with 8.
  destruct (Z.ltb_spec len 8); [apply safe_fail; [by apply wf_klog|done]|].
  eapply returns_bind; [apply returns_be16; [done|lia]|]. intros identifier _.
  eapply returns_bind; [apply returns_be16; [done|lia]|]. intros sequence _.
  eapply returns_bind; [apply returns_lookup; lia|]. intros type _.
  eapply returns_bind; [apply returns_lookup; lia|]. intros code _.
  case_match.
  { eapply returns_bind; [by apply record_reply_ok|]. intros s' (Hs' & Hds & _). by apply safe_fail. }
  case_match; [|apply safe_fail; [by apply wf_klog|done]].
  unfold ICMP_HEADER. change (Z.of_nat 8) with 8. set (n := if 1500 <? len - 8 then 1500 else len - 8).
  assert (Hn : 0 ≤ n ≤ 1500 ∧ n ≤ len - 8) by (unfold n; case_match; bool_prop; lia).
  eapply returns_bind; [apply returns_field; lia|]. intros data [Hd Hdl].
  destruct (echo_build identifier sequence data) as (b1 & b2 & sum & b3 & Hb1 & Hb2 & Hf & Hsum & Hb3 & Hl3 & _);
    [subst; by apply bytes_take, bytes_drop|lia|].
  rewrite Hb1. cbn [mbind option_bind]. unfold ICMP_HEADER in *. rewrite Hb2. cbn [mbind option_bind]. rewrite <- Hdl, Hf.
  cbn [mbind option_bind]. rewrite Hsum. cbn [mbind option_bind]. rewrite Hb3. cbn [mbind option_bind].
  apply ipv4_send_safe; try done; [lia|]. intros b [= <-]. split; [lia|].
  refine (bytes_copy _ _ _ _ (le16_bytes _) _ Hb3). refine (bytes_copy _ _ _ _ _ _ Hb2).
  - subst. by apply bytes_take, bytes_drop.
  - refine (bytes_copy _ _ _ _ _ _ Hb1); [by apply echo_header_bytes|by apply bytes_replicate].
Qed.

(** ** Receiving *)

(** The bytes a malformed packet can make the stack look at: the longest IPv4
    header, the echo header and the 1500 bytes a reply is cut to. *)
Definition IPV4_REACH : Z := 60 + 1508.

Lemma ipv4_receive_safe s dev p len :
  wf s → valid_dev s dev → 0 ≤ len → valid_ptr (Z.max len IPV4_REACH) p → safe s (ipv4_receive driver dev p len s).
Proof.
  intros Hs Hdev Hlen Hp. destruct dev as [d|], p as [q|]; try (by apply safe_fail).
  destruct (Hp _ eq_refl) as [Hl Hb]. unfold IPV4_REACH in Hl. unfold ipv4_receive, IPV4_HEADER. change (Z.of_nat 20) with 20.
  destruct (Z.ltb_spec len 20); [apply safe_fail; [by apply wf_klog|done]|].
  eapply returns_bind; [apply returns_lookup; lia|]. intros vi Hvi. pose proof (bytes_lookup _ _ _ Hb Hvi) as Hvr. cbv zeta.
  case_match; [apply safe_fail; [by apply wf_klog|done]|]. bool_prop.
  assert (Hihl : Z.land vi 15 < 16).
  { change 15 with (Z.ones 4). rewrite Z.land_ones by lia. apply Z.mod_pos_bound. lia. }
  set (hl := Z.land vi 15 * 4) in *. case_match; [apply safe_fail; [by apply wf_klog|done]|]. bool_prop.
  eapply returns_bind; [apply returns_be16; [done|lia]|]. intros total Ht.
  case_match; [apply safe_fail; [by apply wf_klog|done]|]. bool_prop.
  eapply returns_bind; [apply returns_lookup; lia|]. intros protocol _.
  eapply returns_bind; [apply returns_field; lia|]. intros src [Hsrc Hsl].
  case_match; [|apply safe_fail; [by apply wf_klog|done]].
  pose proof (u32_range (total - hl)).
  apply icmp_receive_safe; try done; [lia|..].
  - intros b [= <-]. rewrite length_drop. split; [lia|by apply bytes_drop].
  - intros b [= <-]. split; [lia|]. subst. by apply bytes_take, bytes_drop.
  - by intros b [= <-].
Qed.

(** The size of a receive buffer for which every frame can be processed. *)
Definition FRAME_REACH : Z := 14 + IPV4_REACH.

Lemma ethernet_process_safe s dev p len :
  wf s → valid_dev s dev → 0 ≤ len → valid_ptr (Z.max len FRAME_REACH) p →
  safe s (ethernet_process_frame driver dev p len s).
Proof.
  intros Hs Hdev Hlen Hp. destruct dev as [d|], p as [q|]; try (by apply safe_fail).
  destruct (Hp _ eq_refl) as [Hl Hb]. unfold FRAME_REACH, IPV4_REACH in Hl.
  unfold ethernet_process_frame, ETHERNET_HEADER. change (Z.of_nat 14) with 14.
  destruct (Z.ltb_spec len 14); [apply safe_fail; [by apply wf_klog|done]|].
  eapply returns_bind; [apply returns_be16; [done|lia]|]. intros ty _.
  case_match; [|case_match; [|apply safe_fail; [by apply wf_klog|done]]].
  - apply arp_receive_safe; try done. intros b [= <-]. rewrite length_drop. split; [lia|by apply bytes_drop].
  - apply ipv4_receive_safe; try done; [lia|]. intros b [= <-]. unfold IPV4_REACH. rewrite length_drop. split; [lia|by apply bytes_drop].
Qed.

End layers.

(** ** Raw sockets *)

(** The frames waiting at a socket, oldest first. *)
Definition queue (k : net_raw_socket) : list (list Z) :=
  (λ p, take (p_length p) (p_data p)) <$> ring (s_packets k) (s_head k) (s_count k).

Lemma queue_length n k : wf_socket n k → length (queue k) = s_count k.
Proof. intros []. unfold queue. rewrite length_fmap, ring_length; congruence. Qed.

Lemma ring_next_lt i : (ring_next i < NET_SOCKET_QUEUE)%nat.
Proof. unfold ring_next. apply Nat.mod_upper_bound. done. Qed.

(** Dropping the oldest frame. *)
Lemma advance_ok n k :
  wf_socket n k → (0 < s_count k)%nat →
  wf_socket n (advance k) ∧
  ∃ p, s_packets k !! s_head k = Some p ∧ queue k = take (p_length p) (p_data p) :: queue (advance k).
Proof.
  intros Hk Hc. destruct Hk as [Hp Hd Hh Hcnt Ht Hdev]. split.
  - constructor; try done; cbn; [apply ring_next_lt|lia|].
    rewrite Ht. unfold ring_next. rewrite Nat.Div0.add_mod_idemp_l. f_equal. lia.
  - destruct (ring_pop (s_packets k) (s_head k) (s_count k)) as (p & Hl & Hr); [congruence|rewrite Hp; lia|].
    exists p. split; [done|]. unfold queue. rewrite Hr, fmap_cons. cbn [advance s_packets s_head s_count].
    unfold ring_next. by rewrite Hp.
Qed.

Lemma init_socket_ok n k : wf_socket n k → wf_socket n (init_socket k).
Proof. intros []. constructor; try done; cbn; unfold NET_SOCKET_QUEUE; lia. Qed.
(** Storing a frame behind the last one. *)
Lemma enqueue_ok n k f len :
  wf_socket n k → (s_count k < NET_SOCKET_QUEUE)%nat → (len ≤ NET_SOCKET_FRAME_MAX)%nat → (len ≤ length f)%nat →
  returns (packet ← s_packets k !! s_tail k; bytes ← field f 0 len; data ← buf_copy (p_data packet) 0 bytes;
           Some {| s_used := s_used k; s_device := s_device k; s_head := s_head k; s_tail := ring_next (s_tail k);
                   s_count := S (s_count k); s_packets := <[s_tail k := {| p_length := len; p_data := data |}]> (s_packets k) |})
    (λ k', wf_socket n k' ∧ s_used k' = s_used k ∧ s_device k' = s_device k ∧ queue k' = queue k ++ [take len f]).
Proof.
  intros [Hp Hd Hh Hcnt Ht Hdev] Hc Hlen Hf.
  assert (Htl : (s_tail k < length (s_packets k))%nat) by (rewrite Ht, Hp; apply Nat.mod_upper_bound; done).
  eapply returns_bind; [by apply returns_lookup|]. intros pk Hpk.
  destruct (Forall_lookup_1 _ _ _ _ Hd Hpk) as [Hpd _].
  eapply returns_bind; [apply returns_field; lia|]. intros b [Hb Hbl]. rewrite drop_0 in Hb.
  eapply returns_bind; [apply returns_copy; lia|]. intros data [Hdata Hdl]. rewrite take_0 in Hdata. cbn [app Nat.add] in Hdata.
  apply returns_ret. split; [|split; [done|split; [done|]]].
  - constructor; cbn; try done; [by rewrite length_insert| |].
    + apply Forall_insert; [done|]. split; cbn; [congruence|done].
    + rewrite Ht. unfold ring_next. rewrite Nat.Div0.add_mod_idemp_l. f_equal. lia.
  - unfold queue. cbn [s_packets s_head s_count]. rewrite Ht. rewrite <- Hp at 1. rewrite ring_push by (rewrite Hp; lia).
    rewrite fmap_app. f_equal. cbn [fmap list_fmap p_length p_data]. f_equal.
    rewrite Hdata, <- Hb, <- Hbl. apply take_app_length.
Qed.

(** A frame goes to the sockets open on its device. *)
Definition delivered (d : nat) (f : list Z) (k : net_raw_socket) : list (list Z) :=
  if s_used k && bool_decide (s_device k = Some d) then push_bounded NET_SOCKET_QUEUE (queue k) f else queue k.

Lemma notify_ok n d k f len :
  wf_socket n k → (len ≤ NET_SOCKET_FRAME_MAX)%nat → (len ≤ length f)%nat →
  returns (notify_socket d f len k) (λ k', wf_socket n k' ∧ s_used k' = s_used k ∧ s_device k' = s_device k ∧
    queue k' = delivered d (take len f) k).
Proof.
  intros Hk Hlen Hf. unfold notify_socket, delivered.
  destruct (s_used k && bool_decide (s_device k = Some d)) eqn:E.
  2:{ replace (negb (s_used k) || negb (bool_decide (s_device k = Some d))) with true; [by apply returns_ret|].
      rewrite <- negb_andb, E. done. }
  replace (negb (s_used k) || negb (bool_decide (s_device k = Some d))) with false by (by rewrite <- negb_andb, E).
  pose proof (wk_count _ _ Hk) as Hc. unfold push_bounded. rewrite (queue_length n k Hk).
  destruct (Nat.eqb_spec (s_count k) NET_SOCKET_QUEUE) as [Hfull|Hroom].
  - destruct (advance_ok n k Hk) as (Hk' & p & _ & Hq); [rewrite Hfull; unfold NET_SOCKET_QUEUE; lia|].
    eapply returns_mono; [apply (enqueue_ok n (advance k) f len); try done; cbn; unfold NET_SOCKET_QUEUE in *; lia|].
    intros k' (Hw & Hu & Hd & Hqq). split; [done|]. do 2 (split; [done|]). rewrite Hqq. f_equal.
    rewrite (proj2 (Nat.leb_le _ _)) by lia. by rewrite Hq.
  - eapply returns_mono; [apply (enqueue_ok n k f len); try done; lia|].
    intros k' (Hw & Hu & Hd & Hqq). do 3 (split; [done|]). rewrite Hqq. f_equal. by rewrite (proj2 (Nat.leb_gt _ _)) by lia.
Qed.

(** What the sockets share: everything but their buffers. *)
Definition sockets_view (s : net) : list (bool * option nat * list (list Z)) :=
  (λ k, (s_used k, s_device k, queue k)) <$> g_sockets s.

Definition deliver (d : nat) (f : list Z) (v : bool * option nat * list (list Z)) : bool * option nat * list (list Z) :=
  let '(u, dev, q) := v in
  (u, dev, if u && bool_decide (dev = Some d) then push_bounded NET_SOCKET_QUEUE q f else q).

Lemma mapM_returns {A B} (f : A → option B) (P : A → B → Prop) l :
  (∀ x, x ∈ l → returns (f x) (P x)) → returns (mapM f l) (λ k, Forall2 P l k).
Proof.
  induction l as [|x l IH]; intros H; [by apply returns_ret|]. cbn [mapM].
  eapply returns_bind; [apply H; constructor|]. intros y Hy.
  eapply returns_bind; [apply IH; intros z Hz; apply H; by constructor|]. intros k Hk.
  apply returns_ret. by constructor.
Qed.

Lemma notify_frame_ok s d f len :
  wf s → 0 < len → (Z.to_nat len ≤ length f)%nat →
  returns (net_socket_notify_frame (Some d) (Some f) len s) (λ s', wf s' ∧ dev_store s' = dev_store s ∧
    (∃ k, s' = set_sockets k s) ∧
    sockets_view s' = deliver d (take (Nat.min (Z.to_nat len) NET_SOCKET_FRAME_MAX) f) <$> sockets_view s).
Proof.
  intros Hs Hlen Hf. unfold net_socket_notify_frame. rewrite (proj2 (Z.eqb_neq _ _)) by lia. cbv zeta.
  set (n := Z.to_nat (if _ <? len then _ else len)).
  assert (Hn : n = Nat.min (Z.to_nat len) NET_SOCKET_FRAME_MAX) by (unfold n; case_match; bool_prop; lia).
  pose proof (wf_each_socket _ Hs) as Hk. rewrite Forall_forall in Hk.
  eapply returns_bind; [apply mapM_returns; intros k Hin; apply (notify_ok (length (dev_store s))); [by apply Hk|lia|lia]|].
  intros l Hl. apply returns_ret. split; [|split; [done|split; [eauto|]]].
  - apply wf_set_sockets; [done|rewrite <- (Forall2_length _ _ _ Hl); apply (wf_sockets _ Hs)|].
    eapply Forall2_Forall_r; [exact Hl|]. apply Forall_forall. naive_solver.
  - unfold sockets_view. cbn [g_sockets set_sockets]. rewrite <- list_fmap_compose. rewrite Hn in Hl. clear Hk.
    induction Hl as [|k k' l1 l2 (_ & Hu & Hd & Hq) Hl IH]; [done|]. rewrite !fmap_cons. f_equal; [|done].
    unfold compose, deliver. rewrite Hu, Hd, Hq. done.
Qed.

End NetLayers.
