(* ===== verification/NetRun.v ===== *)
(** All operations of the network stack, in any order: memory safety and the
    invariant, and the raw sockets as bounded queues of frames. *)

From S2P Require Import Prelude Arrays Bytes Net NetSpec.

Module NetRun.

Import Arrays Bytes Net NetSum NetSpec NetLayers.

(** ** Operations *)

Inductive net_op :=
| OInit
| ORegister (dev : option nat)
| OReceive (dev : option nat) (buffer : option (list Z)) (len : Z)
| OPing (dev : option nat) (dst : option (list Z)) (identifier sequence : Z)
| OTakeReply (identifier sequence : Z)
| OTakeAny
| OClearReplies
| OSetAddress (addr : option (list Z))
| OOpen
| OSend (handle : Z) (data : option (list Z)) (size : Z)
| ORecv (handle : Z) (has_buf : bool) (max : Z)
| OClose (handle : Z)
| OPoll (batch : nat → list (list Z * Z) * Z)
| OTick (t : Z).

Definition no_data (o : option (Z * net)) : option (Z * list Z * net) := '(r, s) ← o; Some (r, [], s).

(** The status of a take, and the address it copies out. *)
Definition taken (o : option (option icmp_echo_reply * net)) : option (Z * list Z * net) :=
  '(r, s) ← o; Some (match r with Some e => (1, r_src e, s) | None => (0, [], s) end).

Section run.
Variable driver : nat → list (nat * list Z) → list Z → Z.

(** The [poll] of a driver: it hands the frames that have come to [net_receive_frame], as
    buffers with their lengths, and returns some number.  [batch] has both for every
    device. *)
Fixpoint hand_over (d : nat) (frames : list (list Z * Z)) (s : net) : option net :=
  match frames with
  | [] => Some s
  | (f, len) :: frames' => '(_, s) ← net_receive_frame driver (Some d) (Some f) len s; hand_over d frames' s
  end.

Definition driver_poll (batch : nat → list (list Z * Z) * Z) (d : nat) (s : net) : option (Z * net) :=
  s ← hand_over d (batch d).1 s; Some ((batch d).2, s).

Definition net_do (op : net_op) (s : net) : option (Z * list Z * net) :=
  match op with
  | OInit => no_data (Some (net_init s))
  | ORegister dev => no_data (net_register_device dev s)
  | OReceive dev buffer len => no_data (net_receive_frame driver dev buffer len s)
  | OPing dev dst identifier sequence => no_data (icmp_send_echo_request driver dev dst identifier sequence s)
  | OTakeReply identifier sequence => taken (icmp_take_echo_reply identifier sequence s)
  | OTakeAny => taken (icmp_take_any_echo_reply s)
  | OClearReplies => Some (0, [], icmp_clear_echo_replies s)
  | OSetAddress addr => s ← ipv4_set_address addr s; Some (0, [], s)
  | OOpen => no_data (net_open s)
  | OSend handle data size => no_data (net_send driver handle data size s)
  | ORecv handle has_buf max => net_recv handle has_buf max s
  | OClose handle => no_data (net_close handle s)
  | OPoll batch => no_data (net_poll_devices (driver_poll batch) s)
  | OTick t => Some (0, [], set_ticks t s)
  end.

Fixpoint net_run (ops : list net_op) (s : net) : option net :=
  match ops with
  | [] => Some s
  | op :: ops' => '(_, _, s') ← net_do op s; net_run ops' s'
  end.

End run.

(** A receive buffer has room for the longest packet the stack can look at. *)
Definition valid_frame (x : list Z * Z) : Prop := 0 ≤ x.2 ∧ valid_ptr (Z.max x.2 FRAME_REACH) (Some x.1).

(** What a caller owes: the pointers point at what they say. *)
Definition valid_op (n : nat) (op : net_op) : Prop :=
  match op with
  | ORegister dev => ∀ d, dev = Some d → (d < n)%nat
  | OReceive dev buffer len =>
      (∀ d, dev = Some d → (d < n)%nat) ∧ 0 ≤ len ∧ valid_ptr (Z.max len FRAME_REACH) buffer
  | OPing dev dst identifier sequence =>
      (∀ d, dev = Some d → (d < n)%nat) ∧ ∀ a, dst = Some a → length a = 4%nat ∧ bytes a
  | OSetAddress addr => ∀ a, addr = Some a → length a = 4%nat ∧ bytes a
  | OSend _ data size => 0 ≤ size ∧ ∀ p, data = Some p → (Z.to_nat size ≤ length p)%nat
  | OPoll batch => ∀ d, Forall valid_frame (batch d).1
  | OTick t => 0 ≤ t < 2 ^ 64
  | _ => True
  end.

(** ** The sockets, abstractly *)

Abbreviation view := (list (bool * option nat * list (list Z))).

Definition socket_at (handle : Z) (v : view) : option nat :=
  if handle <=? 0 then None
  else let i := Z.to_nat (handle - 1) in
    '(used, _, _) ← v !! i; if (used : bool) then Some i else None.

(** The first registered device. *)
Definition first_device (s : net) : option nat := if (g_device_count s =? 0)%nat then None else mjoin (g_devices s !! 0%nat).

(** The registered devices that can be polled, in their order. *)
Definition polled_device (s : net) (dev : option nat) : option nat :=
  d ← dev; nd ← dev_store s !! d; if has_poll nd then Some d else None.
Definition polled_devices (s : net) : list nat := omap (polled_device s) (take (g_device_count s) (g_devices s)).

(** A frame that reaches the sockets. *)
Definition raw_receive (d : nat) (v : view) (x : list Z * Z) : view :=
  if x.2 =? 0 then v else deliver d (take (Nat.min (Z.to_nat x.2) NET_SOCKET_FRAME_MAX) x.1) <$> v.

(** An operation on the queues, and what a socket call returns; [dev0] is the first device,
    [devs] are those that are polled. *)
Definition raw_do (dev0 : option nat) (devs : list nat) (op : net_op) (v : view) : view * option (Z * list Z) :=
  match op with
  | OInit => ((λ _, (false, None, [])) <$> v, None)
  | OReceive (Some d) (Some f) len => (raw_receive d v (f, len), None)
  | OPoll batch => (foldl (fun v d => foldl (raw_receive d) v (batch d).1) v devs, None)
  | OOpen =>
      match dev0, first_index (λ x, negb x.1.1) v with
      | Some d, Some i => (<[i := (true, Some d, [])]> v, Some (Z.of_nat (i + 1), []))
      | _, _ => (v, Some (-1, []))
      end
  | ORecv handle has_buf max =>
      match socket_at handle v with
      | None => (v, Some (-1, []))
      | Some i =>
          if negb has_buf || (max =? 0) then (v, Some (-1, []))
          else match v !! i with
          | Some (u, d, f :: q) =>
              (<[i := (u, d, q)]> v, Some (if max <? Z.of_nat (length f) then (-1, []) else (Z.of_nat (length f), f)))
          | _ => (v, Some (0, []))
          end
      end
  | OClose handle =>
      match socket_at handle v with
      | None => (v, Some (-1, []))
      | Some i => (<[i := (false, None, [])]> v, Some (0, []))
      end
  | _ => (v, None)
  end.

(** ** Each operation *)

Definition refines (s : net) (op : net_op) (x : Z * list Z * net) : Prop :=
  let '(r, data, s') := x in
  wf s' ∧ length (dev_store s') = length (dev_store s) ∧
  sockets_view s' = (raw_do (first_device s) (polled_devices s) op (sockets_view s)).1 ∧
  ∀ y, (raw_do (first_device s) (polled_devices s) op (sockets_view s)).2 = Some y → y = (r, data).

(** An operation that leaves the sockets alone. *)
Lemma refines_safe s op o :
  raw_do (first_device s) (polled_devices s) op (sockets_view s) = (sockets_view s, None) → safe s o → returns (no_data o) (refines s op).
Proof.
  intros Hr H. unfold no_data. eapply returns_bind; [exact H|]. intros [r s'] [Hs' (Hd & _ & _ & Hk)].
  apply returns_ret. unfold refines. rewrite Hr. split; [done|]. split; [congruence|]. unfold sockets_view. by rewrite Hk.
Qed.

Lemma sockets_view_lookup s i : sockets_view s !! i = (λ k, (s_used k, s_device k, queue k)) <$> g_sockets s !! i.
Proof. unfold sockets_view. by rewrite list_lookup_fmap. Qed.

Lemma wf_nth_socket s i k : wf s → g_sockets s !! i = Some k → wf_socket (length (dev_store s)) k.
Proof. intros Hs Hk. exact (Forall_lookup_1 _ _ _ _ (wf_each_socket _ Hs) Hk). Qed.

(** Changing one socket changes its queue. *)
Lemma set_socket_ok s i k k' :
  wf s → g_sockets s !! i = Some k → wf_socket (length (dev_store s)) k' →
  let s' := set_sockets (<[i := k']> (g_sockets s)) s in
  wf s' ∧ sockets_view s' = <[i := (s_used k', s_device k', queue k')]> (sockets_view s).
Proof.
  intros Hs Hk Hk' s'. split.
  - apply wf_set_sockets; [done|rewrite length_insert; apply (wf_sockets _ Hs)|].
    apply Forall_insert; [apply (wf_each_socket _ Hs)|done].
  - unfold sockets_view, s'. cbn [g_sockets set_sockets]. by rewrite list_fmap_insert.
Qed.

Lemma resolve_socket_at s handle : wf s → resolve_socket handle s = socket_at handle (sockets_view s).
Proof.
  intros Hs. unfold resolve_socket, socket_at. case_match; [done|]. cbv zeta. rewrite sockets_view_lookup.
  pose proof (wf_sockets _ Hs) as Hl. destruct (Nat.leb_spec NET_SOCKET_CAPACITY (Z.to_nat (handle - 1))).
  - by rewrite lookup_ge_None_2 by lia.
  - by destruct (g_sockets s !! Z.to_nat (handle - 1)).
Qed.

Lemma resolve_socket_Some s handle i : resolve_socket handle s = Some i → ∃ k, g_sockets s !! i = Some k ∧ s_used k = true.
Proof.
  unfold resolve_socket. intros H. repeat case_match; try done. apply bind_Some in H as (k & Hk & H).
  case_match; simplify_eq. eauto.
Qed.

Lemma open_refines s : wf s → returns (no_data (net_open s)) (refines s OOpen).
Proof.
  intros Hs. unfold net_open, net_get_device, refines, first_device. cbn [raw_do].
  destruct (Nat.leb_spec (g_device_count s) 0).
  { rewrite (proj2 (Nat.eqb_eq _ _)) by lia. apply returns_ret. cbn. naive_solver. }
  rewrite (proj2 (Nat.eqb_neq _ _)) by lia.
  destruct (wf_registered _ Hs 0) as (d & nd & Hd & Hnd & _); [lia|]. rewrite Hd. cbn [mbind option_bind mjoin option_join].
  assert (Hfi : first_index (λ x : bool * option nat * list (list Z), negb x.1.1) (sockets_view s) =
                first_index (λ k, negb (s_used k)) (g_sockets s)).
  { unfold sockets_view. by rewrite first_index_fmap. }
  rewrite Hfi. destruct (first_index _ (g_sockets s)) as [i|] eqn:E; [|apply returns_ret; cbn; naive_solver].
  apply first_index_Some in E as (k & Hk & _). rewrite Hk. cbn [mbind option_bind no_data]. apply returns_ret.
  set (k' := {| s_used := true; s_device := _; s_head := _; s_tail := _; s_count := _; s_packets := _ |}).
  destruct (set_socket_ok s i k k' Hs Hk) as [Hw Hv]; [|cbn; naive_solver].
  destruct (wf_nth_socket s i k Hs Hk). constructor; try done; cbn; try (unfold NET_SOCKET_QUEUE; lia).
  intros d' [= <-]. by eapply lookup_lt_Some.
Qed.

Lemma recv_refines s handle has_buf max : wf s → returns (net_recv handle has_buf max s) (refines s (ORecv handle has_buf max)).
Proof.
  intros Hs. unfold net_recv, refines. cbn [raw_do]. rewrite <- (resolve_socket_at s handle Hs).
  destruct (resolve_socket handle s) as [i|] eqn:E; [|apply returns_ret; cbn; naive_solver].
  destruct (negb has_buf || (max =? 0)); [apply returns_ret; cbn; naive_solver|].
  apply resolve_socket_Some in E as (k & Hk & Hu). rewrite Hk. cbn [mbind option_bind].
  pose proof (wf_nth_socket s i k Hs Hk) as Hw. rewrite sockets_view_lookup, Hk. cbn [fmap option_fmap option_map].
  destruct (Nat.eqb_spec (s_count k) 0) as [Hz|Hz].
  { pose proof (queue_length _ k Hw) as Hq. rewrite Hz in Hq. destruct (queue k); [|done]. apply returns_ret. cbn. naive_solver. }
  destruct (advance_ok _ k Hw) as (Hw' & p & Hp & Hq); [lia|]. rewrite Hp, Hq. cbn [mbind option_bind].
  destruct (Forall_lookup_1 _ _ _ _ (wk_data _ _ Hw) Hp) as [Hpd Hpl].
  assert (Hlen : length (take (p_length p) (p_data p)) = p_length p) by (rewrite length_take; lia). rewrite Hlen.
  destruct (set_socket_ok s i k (advance k) Hs Hk Hw') as [Hws Hv].
  case_match.
  - apply returns_ret. cbn. naive_solver.
  - rewrite field_ok by lia. cbn [mbind option_bind]. rewrite drop_0. apply returns_ret. cbn. naive_solver.
Qed.

Lemma close_refines s handle : wf s → returns (no_data (net_close handle s)) (refines s (OClose handle)).
Proof.
  intros Hs. unfold net_close, refines. cbn [raw_do]. rewrite <- (resolve_socket_at s handle Hs).
  destruct (resolve_socket handle s) as [i|] eqn:E; [|apply returns_ret; cbn; naive_solver].
  apply resolve_socket_Some in E as (k & Hk & Hu). rewrite Hk. cbn [mbind option_bind no_data]. apply returns_ret.
  destruct (set_socket_ok s i k (init_socket k) Hs Hk) as [Hw Hv]; [|cbn; naive_solver].
  apply init_socket_ok. by eapply wf_nth_socket.
Qed.

Lemma init_refines s : wf s → refines s OInit (0, [], (net_init s).2).
Proof.
  intros Hs. unfold refines. cbn [raw_do fst snd net_init]. split; [|split; [done|split; [|done]]].
  - apply wf_klog. unfold net_socket_system_init. cbn [g_sockets set_devices].
    apply wf_set_sockets; [|rewrite length_fmap; apply (wf_sockets _ Hs)|].
    + destruct Hs. constructor; try done; cbn; [by rewrite length_replicate|lia|lia].
    + apply Forall_fmap. eapply Forall_impl; [apply (wf_each_socket _ Hs)|]. intros k Hk. by apply init_socket_ok.
  - unfold sockets_view, net_socket_system_init. cbn [g_sockets set_devices set_sockets klog].
    rewrite <- !list_fmap_compose. apply list_fmap_ext. done.
Qed.

Lemma register_safe s dev :
  wf s → (∀ d, dev = Some d → (d < length (dev_store s))%nat) → returns (no_data (net_register_device dev s)) (refines s (ORegister dev)).
Proof.
  intros Hs Hdev. unfold refines. cbn [raw_do fst snd]. destruct dev as [d|]; [|by apply returns_ret].
  specialize (Hdev _ eq_refl). unfold net_register_device. destruct (wf_nd s d Hs Hdev) as (nd & Hnd & _). rewrite Hnd.
  cbn [mbind option_bind]. destruct (has_transmit nd) eqn:Ht; cbn [negb].
  2:{ apply returns_ret. split; [by apply wf_klog|done]. }
  destruct (Nat.leb_spec MAX_NET_DEVICES (g_device_count s)); [apply returns_ret; split; [by apply wf_klog|done]|].
  pose proof (wf_devices _ Hs) as Hl. rewrite buf_store_ok by lia. cbn [mbind option_bind no_data]. apply returns_ret.
  split; [|done]. apply wf_klog. destruct Hs. constructor; try done; cbn [g_devices g_device_count set_devices dev_store].
  - by rewrite length_insert.
  - intros i Hi. destruct (decide (i = g_device_count s)) as [->|Hne].
    + exists d, nd. rewrite list_lookup_insert_eq by lia. done.
    + rewrite list_lookup_insert_ne by done. apply wf_registered0. lia.
Qed.

(** Taking a reply closes the gap it leaves. *)
Lemma take_reply_ok index s :
  wf s → returns (icmp_take_reply_at_locked index s) (λ '(r, s'), wf s' ∧ kept s s' ∧
    r = replies s !! index ∧ replies s' = remove_at index (replies s)).
Proof.
  intros Hs. pose proof (replies_length s Hs) as Hl. pose proof (wf_replies _ Hs) as Hr. pose proof (wf_reply_count _ Hs) as Hc.
  unfold icmp_take_reply_at_locked. destruct (Nat.leb_spec (g_reply_count s) index) as [Hi|Hi].
  { apply returns_ret. do 2 (split; [done|]). rewrite lookup_ge_None_2 by lia. split; [done|].
    symmetry. clear -Hi Hl. revert index Hi. rewrite <- Hl. generalize (replies s). clear.
    induction l as [|x l IH]; intros [|i] Hi; cbn in *; try done; [lia|]. rewrite IH; [done|lia]. }
  destruct (lookup_lt_is_Some_2 (g_replies s) index) as [r Hx]; [lia|]. rewrite Hx. cbn [mbind option_bind].
  rewrite shift_left_ok by lia. cbn [mbind option_bind]. apply returns_ret. split; [|split; [done|split]].
  - unfold ICMP_REPLY_CAPACITY in *. apply wf_set_replies; unfold ICMP_REPLY_CAPACITY; [done| |lia].
    rewrite !length_app, !length_take, !length_drop. lia.
  - unfold replies. by rewrite lookup_take_lt.
  - rewrite remove_at_take_drop by lia. unfold replies. cbn [g_replies g_reply_count set_replies].
    replace (S index - 1)%nat with index by lia. rewrite app_assoc, take_app_le by (rewrite !length_app, !length_take, !length_drop; lia).
    rewrite firstn_all2 by (rewrite !length_app, !length_take, !length_drop; lia).
    rewrite take_take, Nat.min_l by lia. f_equal. by rewrite <- skipn_firstn_comm.
Qed.

Lemma taken_refines s op o :
  raw_do (first_device s) (polled_devices s) op (sockets_view s) = (sockets_view s, None) →
  returns o (λ '(_, s'), wf s' ∧ kept s s') → returns (taken o) (refines s op).
Proof.
  intros Hr H. unfold taken. eapply returns_bind; [exact H|]. intros [r s'] [Hs' (Hd & _ & _ & Hk)].
  apply returns_ret. unfold refines. rewrite Hr. cbn [fst snd].
  destruct r; (split; [done|]); (split; [congruence|]); unfold sockets_view; by rewrite Hk.
Qed.

Lemma take_safe index s : wf s → returns (icmp_take_reply_at_locked index s) (λ '(_, s'), wf s' ∧ kept s s').
Proof. intros Hs. eapply returns_mono; [by apply take_reply_ok|]. intros [r s']. tauto. Qed.

Section run.
Variable driver : nat → list (nat * list Z) → list Z → Z.

(** A received frame: the devices stay, the sockets get it. *)
Definition received (s : net) (v : view) (s' : net) : Prop :=
  wf s' ∧ dev_store s' = dev_store s ∧ g_devices s' = g_devices s ∧ g_device_count s' = g_device_count s ∧ sockets_view s' = v.

Lemma net_receive_ok s d f len :
  wf s → (d < length (dev_store s))%nat → valid_frame (f, len) →
  returns (net_receive_frame driver (Some d) (Some f) len s) (λ '(_, s'), received s (raw_receive d (sockets_view s) (f, len)) s').
Proof.
  intros Hs Hdev [Hlen Hb]. unfold net_receive_frame, raw_receive. cbn [fst snd] in *.
  destruct (Z.eqb_spec len 0) as [->|Hne]; [by apply returns_ret|]. destruct (Hb _ eq_refl) as [Hl Hbf].
  eapply returns_bind; [apply (notify_frame_ok s d f len Hs); lia|].
  intros s1 (Hs1 & Hd1 & [k ->] & Hv). unfold compose.
  eapply returns_mono; [apply (ethernet_process_safe driver (set_sockets k s) (Some d) (Some f) len); try done|].
  - by intros ? [= <-].
  - intros [r s'] [Hs' (Hd & Hg & Hc & Hk)]. split; [done|]. split; [congruence|]. split; [done|]. split; [done|].
    rewrite <- Hv. unfold sockets_view. by rewrite Hk.
Qed.

Lemma receive_refines s dev buffer len :
  wf s → valid_op (length (dev_store s)) (OReceive dev buffer len) →
  returns (no_data (net_receive_frame driver dev buffer len s)) (refines s (OReceive dev buffer len)).
Proof.
  intros Hs (Hdev & Hlen & Hb). unfold refines. destruct dev as [d|], buffer as [f|]; try (by apply returns_ret).
  cbn [raw_do fst snd]. unfold no_data. eapply returns_bind; [apply (net_receive_ok s d f len Hs)|].
  - by apply Hdev.
  - by split.
  - intros [r s'] (Hs' & Hd & _ & _ & Hv). apply returns_ret. split; [done|]. split; [congruence|]. done.
Qed.

Lemma hand_over_ok d frames s :
  wf s → (d < length (dev_store s))%nat → Forall valid_frame frames →
  returns (hand_over driver d frames s) (received s (foldl (raw_receive d) (sockets_view s) frames)).
Proof.
  intros Hs Hd Hf. revert s Hs Hd. induction Hf as [|[f len] frames Hf _ IH]; intros s Hs Hd; [by apply returns_ret|].
  cbn [hand_over foldl]. eapply returns_bind; [by apply net_receive_ok|]. intros [r s1] (Hs1 & E1 & E2 & E3 & Hv).
  eapply returns_mono; [apply IH; [done|by rewrite E1]|]. intros s2 (Hs2 & F1 & F2 & F3 & Hv2).
  split; [done|]. split; [congruence|]. split; [congruence|]. split; [congruence|]. by rewrite Hv2, Hv.
Qed.

Lemma net_poll_loop_ok batch n i polled s :
  wf s → (∀ d, Forall valid_frame (batch d).1) → (g_device_count s ≤ i + n)%nat →
  returns (poll_loop (driver_poll driver batch) n i polled s) (λ '(_, s'),
    received s (foldl (fun v d => foldl (raw_receive d) v (batch d).1) (sockets_view s)
                  (omap (polled_device s) (drop i (take (g_device_count s) (g_devices s))))) s').
Proof.
  intros Hs Hb. revert i polled s Hs. induction n as [|n IH]; intros i polled s Hs Hn; cbn [poll_loop];
    (destruct (Nat.leb_spec (g_device_count s) i) as [Hi|Hi];
      [apply returns_ret; rewrite drop_ge by (rewrite length_take; lia); done|]); [lia|].
  destruct (wf_registered _ Hs i Hi) as (d & nd & Hd & Hnd & _). rewrite Hd. cbn [mbind option_bind]. rewrite Hnd. cbn [mbind option_bind].
  assert (Hdrop : drop i (take (g_device_count s) (g_devices s)) = Some d :: drop (S i) (take (g_device_count s) (g_devices s))).
  { apply drop_S. by rewrite lookup_take_lt. }
  rewrite Hdrop. cbn [omap list_omap]. assert (Hp : polled_device s (Some d) = if has_poll nd then Some d else None).
  { unfold polled_device. cbn [mbind option_bind]. by rewrite Hnd. }
  rewrite Hp. destruct (has_poll nd); cbn [negb]; [|apply IH; [done|lia]].
  assert (Hone : returns (driver_poll driver batch d s) (λ '(_, s1), received s (foldl (raw_receive d) (sockets_view s) (batch d).1) s1)).
  { unfold driver_poll. eapply returns_bind; [apply (hand_over_ok d (batch d).1 s Hs); [by eapply lookup_lt_Some|done]|].
    intros s1 H1. by apply returns_ret. }
  eapply returns_bind; [exact Hone|]. intros [rc s1] (Hs1 & E1 & E2 & E3 & Hv). cbn [foldl]. eapply returns_mono; [apply IH; [done|lia]|].
  intros [r s2] (Hs2 & F1 & F2 & F3 & Hv2). split; [done|]. split; [congruence|]. split; [congruence|]. split; [congruence|].
  rewrite Hv2, Hv, E2, E3. f_equal. assert (E : polled_device s1 = polled_device s) by (unfold polled_device; by rewrite E1). by rewrite E.
Qed.

Lemma poll_refines batch s :
  wf s → (∀ d, Forall valid_frame (batch d).1) → returns (no_data (net_poll_devices (driver_poll driver batch) s)) (refines s (OPoll batch)).
Proof.
  intros Hs Hb. unfold no_data, net_poll_devices. eapply returns_bind; [apply net_poll_loop_ok; [done..|]|].
  - pose proof (wf_devices _ Hs). pose proof (wf_device_count _ Hs). lia.
  - intros [r s'] (Hs' & Hd & _ & _ & Hv). apply returns_ret. unfold refines. cbn [raw_do fst snd].
    split; [done|]. split; [congruence|]. split; [exact Hv|done].
Qed.

Lemma send_safe s handle data size :
  wf s → valid_op (length (dev_store s)) (OSend handle data size) → safe s (net_send driver handle data size s).
Proof.
  intros Hs (Hsize & Hp). unfold net_send. destruct (resolve_socket handle s) as [i|] eqn:E; [|by apply safe_fail].
  destruct data as [p|]; [|by apply safe_fail]. specialize (Hp _ eq_refl).
  case_match; [by apply safe_fail|]. case_match; [by apply safe_fail|].
  apply resolve_socket_Some in E as (k & Hk & _). rewrite Hk. cbn [mbind option_bind].
  destruct (s_device k) as [d|] eqn:Hd; [|by apply safe_fail].
  destruct (wf_nd s d Hs) as (nd & -> & _); [by apply (wk_device _ _ (wf_nth_socket s i k Hs Hk))|]. cbn [mbind option_bind].
  case_match; [by apply safe_fail|]. rewrite field_ok by lia. apply safe_fail; [by apply wf_add_sent|done].
Qed.

Lemma ping_safe s dev dst identifier sequence :
  wf s → valid_op (length (dev_store s)) (OPing dev dst identifier sequence) →
  safe s (icmp_send_echo_request driver dev dst identifier sequence s).
Proof.
  intros Hs (Hdev & Hdst). unfold icmp_send_echo_request. destruct dev as [d|], dst as [a|]; try (by apply safe_fail).
  destruct (Hdst _ eq_refl) as [Hl Hb]. pose proof (echo_header_bytes 8 identifier sequence ltac:(done)) as He.
  destruct (checksum_ok (echo_header 8 identifier sequence) He) as [Hsum Hicmp]; [done|]. rewrite Hicmp, Hsum. cbn [mbind option_bind].
  eapply returns_bind; [apply returns_copy; cbn; lia|]. intros b [Hb1 Hb2].
  apply ipv4_send_safe; try done.
  - intros q [= <-]. split; [lia|done].
  - by intros q [= <-].
  - intros q [= <-]. split; [by rewrite Hb2|]. subst.
    apply bytes_app; split; [by apply bytes_take|]. apply bytes_app; split; [apply le16_bytes|by apply bytes_drop].
Qed.

(** Every operation returns, keeps the invariant, and does to the sockets what it
    does to bounded queues. *)
Lemma net_do_refines s op :
  wf s → valid_op (length (dev_store s)) op → returns (net_do driver op s) (refines s op).
Proof.
  intros Hs Hv. destruct op; cbn [net_do].
  - apply returns_ret. by apply init_refines.
  - by apply register_safe.
  - by apply receive_refines.
  - apply refines_safe; [done|]. by apply ping_safe.
  - apply taken_refines; [done|]. unfold icmp_take_echo_reply. pose proof (wf_replies _ Hs). pose proof (wf_reply_count _ Hs).
    rewrite cells_ok by lia. cbn [mbind option_bind]. case_match; [by apply take_safe|by apply returns_ret].
  - apply taken_refines; [done|]. unfold icmp_take_any_echo_reply. case_match; [by apply take_safe|by apply returns_ret].
  - apply returns_ret. split; [|done]. apply wf_set_replies; [done|apply (wf_replies _ Hs)|lia].
  - destruct addr as [a|]; [|by apply returns_ret]. destruct (Hv _ eq_refl) as [Hl Hb]. destruct (wf_address _ Hs) as [Ha Hba].
    cbn [ipv4_set_address]. rewrite (field_all a) by done. cbn [mbind option_bind]. rewrite buf_copy_ok by lia.
    cbn [mbind option_bind take app Nat.add]. rewrite drop_ge, app_nil_r by lia. apply returns_ret. split; [|done].
    apply wf_set_ipv4; try done. apply (wf_ident _ Hs).
  - by apply open_refines.
  - apply refines_safe; [done|]. by apply send_safe.
  - by apply recv_refines.
  - by apply close_refines.
  - by apply poll_refines.
  - apply returns_ret. split; [|done]. by apply wf_set_ticks.
Qed.

(** C9: the network stack is memory safe and keeps its invariant.  From any
    well-formed state every sequence of start-up, registration, received frames of
    any content, polls of the devices whose drivers hand over any frames, pings, socket
    calls, address changes and clock ticks runs to the end: no loop and no copy leaves
    its array, even for malformed packets, as long as a frame is in a buffer of at least
    [FRAME_REACH] bytes (1582), whatever its length. *)
Theorem net_run_safe ops s :
  wf s → Forall (valid_op (length (dev_store s))) ops → ∃ s', net_run driver ops s = Some s' ∧ wf s'.
Proof.
  revert s. induction ops as [|op ops IH]; intros s Hs Hv; [by exists s|]. inversion Hv as [|? ? Hop Hrest]; subst.
  destruct (net_do_refines s op Hs Hop) as ([[r data] s'] & Hdo & Hs' & Hd & _). cbn [net_run]. rewrite Hdo.
  cbn [mbind option_bind]. apply IH; [done|]. by rewrite Hd.
Qed.

(** C36: the raw sockets are bounded queues of frames.  Every operation of the stack
    changes the queues and the results of socket calls as the abstract queues do: a
    received frame, also one that a poll brings, joins the queue of every socket open on its
    device, cut to 1600 bytes, a full queue drops its oldest frame; a receive returns the
    oldest frame whole, or drops it and returns -1 when the caller's buffer is too small;
    no other operation touches a queue. *)
Theorem raw_sockets_refine s op :
  wf s → valid_op (length (dev_store s)) op →
  ∃ r data s', net_do driver op s = Some (r, data, s') ∧ wf s' ∧
    sockets_view s' = (raw_do (first_device s) (polled_devices s) op (sockets_view s)).1 ∧
    ∀ y, (raw_do (first_device s) (polled_devices s) op (sockets_view s)).2 = Some y → y = (r, data).
Proof.
  intros Hs Hv. destruct (net_do_refines s op Hs Hv) as ([[r data] s'] & Hdo & Hs' & _ & Hq & Hy). eauto 10.
Qed.

End run.

End NetRun.
