(* ===== verification/NetProps.v ===== *)
(** The theorems about the network stack: a ping between two hosts, the raw
    sockets as bounded queues, the ARP cache, checksums, and all operations in any
    order. *)

From S2P Require Import Prelude Arrays Bytes Net NetSpec NetRun.

Module NetProps.

Import Arrays Bytes Net NetSum NetSpec NetLayers NetRun.

(** ** Parsing what was sent *)

Section parse.
Variable driver : nat → list (nat * list Z) → list Z → Z.

Lemma ipv4_packet_length total ident protocol src dst sum payload :
  length src = 4%nat → length dst = 4%nat →
  length (ipv4_packet total ident protocol src dst sum payload) = (20 + length payload)%nat.
Proof. intros. unfold ipv4_packet. rewrite !length_app, !be16_length, le16_length. cbn [length]. lia. Qed.

Lemma frame_length dst src ty p :
  length dst = 6%nat → length src = 6%nat → length (frame dst src ty p) = (14 + length p)%nat.
Proof. intros. unfold frame. rewrite !length_app, be16_length. lia. Qed.

(** The fields of an IPv4 packet the stack has built. *)
Lemma ipv4_fields total ident protocol src dst sum payload rest :
  0 ≤ total < 65536 → length src = 4%nat → length dst = 4%nat →
  let p := ipv4_packet total ident protocol src dst sum payload ++ rest in
  p !! 0%nat = Some 0x45 ∧ read_be16 p 2 = Some total ∧ p !! 9%nat = Some protocol ∧ field p 12 4 = Some src ∧
  drop 20 p = payload ++ rest.
Proof.
  intros Ht Hs Hd p. unfold p, ipv4_packet. rewrite <- !app_assoc.
  split; [done|]. split.
  { rewrite (u16_small total) by done. by apply (read_be16_app [0x45; 0]). }
  split; [done|].
  set (hd := [0x45; 0] ++ be16 (u16 total) ++ be16 ident ++ be16 0 ++ [64; protocol] ++ le16 sum).
  assert (Hhd : length hd = 12%nat) by done.
  replace ([0x45; 0] ++ be16 (u16 total) ++ be16 ident ++ be16 0 ++ [64; protocol] ++ le16 sum ++ src ++ dst ++ payload ++ rest)
    with (hd ++ src ++ dst ++ payload ++ rest) by (unfold hd; by rewrite <- !app_assoc).
  rewrite field_app_r by lia. rewrite Hhd, Nat.sub_diag. split; [rewrite <- Hs; apply field_exact|].
  rewrite !app_assoc, drop_app_le by (rewrite !length_app; lia). rewrite drop_app_ge by (rewrite !length_app; lia).
  rewrite !length_app, Hhd, Hs, Hd. change (20 - (12 + 4 + 4))%nat with 0%nat. by rewrite drop_0.
Qed.

(** A frame with an IPv4 header reaches ICMP with what follows the header, and the
    length that the header gives, less 20, at 32 bits. *)
Lemma process_ipv4_any s d dm sm total ident src dst sum payload rest len :
  length dm = 6%nat → length sm = 6%nat → length src = 4%nat → length dst = 4%nat →
  0 ≤ total < 65536 → 34 ≤ len → 14 + total ≤ len →
  ethernet_process_frame driver (Some d)
    (Some (frame dm sm ETHERTYPE_IPV4 (ipv4_packet total ident 1 src dst sum payload) ++ rest)) len s =
  icmp_receive driver (Some d) (Some (payload ++ rest)) (total -32 20) (Some src) s.
Proof.
  intros Hdm Hsm Hsrc Hdst Ht Hlen Hlt. unfold ethernet_process_frame, ETHERNET_HEADER.
  change (Z.of_nat 14) with 14. rewrite (proj2 (Z.ltb_ge _ _)) by lia.
  set (packet := ipv4_packet total ident 1 src dst sum payload).
  replace (frame dm sm ETHERTYPE_IPV4 packet ++ rest) with ((dm ++ sm) ++ be16 ETHERTYPE_IPV4 ++ packet ++ rest)
    by (unfold frame; by rewrite <- !app_assoc).
  assert (Hl : length (dm ++ sm) = 12%nat) by (rewrite length_app; lia).
  pose proof (read_be16_app (dm ++ sm) ETHERTYPE_IPV4 (packet ++ rest) ltac:(done)) as He. rewrite Hl in He. rewrite He.
  cbn [mbind option_bind]. change (ETHERTYPE_IPV4 =? ETHERTYPE_ARP) with false. rewrite Z.eqb_refl. cbv iota.
  replace (drop 14 _) with (packet ++ rest).
  2:{ rewrite app_assoc, drop_app_ge; rewrite length_app, Hl, be16_length; [|lia]. by rewrite Nat.sub_diag, drop_0. }
  destruct (ipv4_fields total ident 1 src dst sum payload rest) as (H0 & H2 & H9 & H12 & H20); [done..|].
  fold packet in H0, H2, H9, H12, H20. unfold ipv4_receive, IPV4_HEADER. change (Z.of_nat 20) with 20.
  rewrite (proj2 (Z.ltb_ge _ _)), H0 by lia. cbn [mbind option_bind]. cbv zeta.
  change (negb (Z.shiftr 69 4 =? 4) || (Z.land 69 15 <? 5)) with false. cbv iota. change (Z.land 69 15 * 4) with 20.
  rewrite (proj2 (Z.ltb_ge _ _)), H2 by lia. cbn [mbind option_bind].
  rewrite (proj2 (Z.ltb_ge _ _)), H9 by lia. cbn [mbind option_bind]. rewrite H12. cbn [mbind option_bind]. rewrite Z.eqb_refl.
  change (Z.to_nat 20) with 20%nat. by rewrite H20.
Qed.

(** A packet with the right length, perhaps padded, gives ICMP its payload. *)
Lemma process_ipv4 s d dm sm ident src dst sum payload rest len :
  length dm = 6%nat → length sm = 6%nat → length src = 4%nat → length dst = 4%nat →
  let total := Z.of_nat (20 + length payload) in
  total < 65536 → 14 + total ≤ len →
  ethernet_process_frame driver (Some d)
    (Some (frame dm sm ETHERTYPE_IPV4 (ipv4_packet total ident 1 src dst sum payload) ++ rest)) len s =
  icmp_receive driver (Some d) (Some (payload ++ rest)) (Z.of_nat (length payload)) (Some src) s.
Proof.
  intros Hdm Hsm Hsrc Hdst total Ht Hlen. unfold total in *. rewrite process_ipv4_any by (try done; lia).
  rewrite u32_small by lia. do 2 f_equal. lia.
Qed.

(** The fields of an echo message. *)
Lemma echo_fields type sum identifier sequence payload rest :
  0 ≤ identifier < 65536 → 0 ≤ sequence < 65536 →
  let p := echo_packet type sum identifier sequence payload ++ rest in
  read_be16 p 4 = Some identifier ∧ read_be16 p 6 = Some sequence ∧ p !! 0%nat = Some type ∧ p !! 1%nat = Some 0 ∧
  drop 8 p = payload ++ rest ∧ length (echo_packet type sum identifier sequence payload) = (8 + length payload)%nat.
Proof.
  intros Hi Hq p. unfold p, echo_packet. rewrite <- !app_assoc. split.
  { by apply (read_be16_app ([type; 0] ++ le16 sum)). }
  split; [by apply (read_be16_app ([type; 0] ++ le16 sum ++ be16 identifier))|].
  do 3 (split; [done|]). rewrite !length_app, !be16_length, le16_length. cbn [length]. lia.
Qed.

(** A reply is recorded. *)
Lemma icmp_reply_ok s d sum identifier sequence payload rest len src :
  wf s → 0 ≤ identifier < 65536 → 0 ≤ sequence < 65536 → 8 ≤ len → length src = 4%nat → bytes src →
  returns (icmp_receive driver (Some d) (Some (echo_packet 0 sum identifier sequence payload ++ rest)) len (Some src) s)
    (λ '(r, s'), r = 0 ∧ replies s' = push_bounded ICMP_REPLY_CAPACITY (replies s) (EchoReply identifier sequence src) ∧ wf s').
Proof.
  intros Hs Hi Hq Hlen Hsrc Hb. unfold icmp_receive. change (Z.of_nat ICMP_HEADER) with 8. rewrite (proj2 (Z.ltb_ge _ _)) by lia.
  destruct (echo_fields 0 sum identifier sequence payload rest Hi Hq) as (H4 & H6 & H0 & H1 & _).
  rewrite H4. cbn [mbind option_bind]. rewrite H6. cbn [mbind option_bind]. rewrite H0. cbn [mbind option_bind].
  rewrite H1. cbn [mbind option_bind andb]. change (0 =? 0) with true. cbn [andb].
  eapply returns_bind; [apply (record_reply_ok s identifier sequence (Some src) Hs)|].
  { intros q [= <-]. split; [lia|done]. }
  intros s' (Hw & _ & _ & Hr). apply returns_ret. split; [done|]. split; [|done]. rewrite Hr. cbn [from_option id]. by rewrite firstn_all2 by lia.
Qed.

(** The frame that answers an echo request. *)
Definition echo_frame (s : net) (nd : net_device) (m dst : list Z) (type identifier sequence : Z) (payload f : list Z) : Prop :=
  ∃ sum isum ident, f = frame m (mac nd) ETHERTYPE_IPV4
    (ipv4_packet (Z.of_nat (20 + (8 + length payload))) ident 1 (g_ipv4_address s) dst isum
       (echo_packet type sum identifier sequence payload)).

(** A request is answered at once when the sender is in the ARP cache. *)
Lemma icmp_request_ok s d nd m sum identifier sequence payload rest src :
  wf s → dev_store s !! d = Some nd → has_transmit nd = true → length src = 4%nat → bytes src →
  arp_cache_lookup d src s = Some m → 0 ≤ identifier < 65536 → 0 ≤ sequence < 65536 →
  bytes payload → (length payload ≤ 1472)%nat →
  returns (icmp_receive driver (Some d) (Some (echo_packet 8 sum identifier sequence payload ++ rest))
             (Z.of_nat (8 + length payload)) (Some src) s)
    (λ '(r, s'), ∃ f, echo_frame s nd m src 0 identifier sequence payload f ∧ r = driver d (sent s) f ∧ sent s' = sent s ++ [(d, f)]).
Proof.
  intros Hs Hnd Htx Hsrc Hb Hm Hi Hq Hbp Hlen. unfold icmp_receive. change (Z.of_nat ICMP_HEADER) with 8.
  rewrite (proj2 (Z.ltb_ge _ _)) by lia.
  destruct (echo_fields 8 sum identifier sequence payload rest Hi Hq) as (H4 & H6 & H0 & H1 & H8 & Hl).
  rewrite H4. cbn [mbind option_bind]. rewrite H6. cbn [mbind option_bind]. rewrite H0. cbn [mbind option_bind].
  rewrite H1. cbn [mbind option_bind]. change (8 =? 0) with false. change (8 =? 8) with true. change (0 =? 0) with true. cbn [andb].
  replace (Z.of_nat (8 + length payload) - 8) with (Z.of_nat (length payload)) by lia.
  rewrite (proj2 (Z.ltb_ge _ _)), Nat2Z.id by lia. rewrite field_ok by (rewrite length_app; unfold ICMP_HEADER; lia).
  unfold ICMP_HEADER. rewrite H8, take_app_length. cbn [mbind option_bind].
  destruct (echo_build identifier sequence payload) as (b1 & b2 & sum' & b3 & Hb1 & Hb2 & Hf & Hsum & Hb3 & Hl3 & Ht); [done|lia|].
  unfold ICMP_HEADER in *. rewrite Hb1. cbn [mbind option_bind]. rewrite Hb2. cbn [mbind option_bind]. rewrite Hf.
  cbn [mbind option_bind]. rewrite Hsum. cbn [mbind option_bind]. rewrite Hb3. cbn [mbind option_bind].
  destruct (ipv4_send_ok driver s d nd src m 1 b3 (8 + Z.of_nat (length payload))) as (isum & c1 & c2 & _ & _ & _ & Hsend); try done; [lia..|].
  rewrite Hsend. apply returns_ret. eexists. split; [|done]. exists sum', isum. eexists. repeat f_equal; [lia|].
  rewrite <- Ht. f_equal. lia.
Qed.

(** What [icmp_send_echo_request] puts on the wire. *)
Lemma echo_request_ok s d nd m dst identifier sequence :
  wf s → dev_store s !! d = Some nd → has_transmit nd = true → length dst = 4%nat → bytes dst →
  arp_cache_lookup d dst s = Some m →
  returns (icmp_send_echo_request driver (Some d) (Some dst) identifier sequence s)
    (λ '(r, s'), ∃ f, echo_frame s nd m dst 8 identifier sequence [] f ∧ r = driver d (sent s) f ∧ wf s' ∧
       dev_store s' = dev_store s ∧ sent s' = sent s ++ [(d, f)] ∧ replies s' = replies s).
Proof.
  intros Hs Hnd Htx Hdst Hb Hm. unfold icmp_send_echo_request.
  destruct (checksum_ok (echo_header 8 identifier sequence)) as [Hsum Hicmp]; [by apply echo_header_bytes|done|].
  rewrite Hsum in Hicmp. set (sum := 65535 - _) in Hicmp. rewrite Hicmp. cbn [mbind option_bind].
  pose proof (copy_middle [8; 0] [0; 0] (be16 identifier ++ be16 sequence) (le16 sum) 2 eq_refl eq_refl) as Hc.
  change ([8; 0] ++ [0; 0] ++ be16 identifier ++ be16 sequence) with (echo_header 8 identifier sequence) in Hc.
  rewrite Hc. cbn [mbind option_bind]. change (Z.of_nat ICMP_HEADER) with 8.
  destruct (ipv4_send_ok driver s d nd dst m 1 ([8; 0] ++ le16 sum ++ be16 identifier ++ be16 sequence) 8)
    as (isum & b1 & b2 & Hb1 & Hb2 & _ & Hsend); try done.
  rewrite Hsend. apply returns_ret. eexists. split; [exists sum, isum; eexists; reflexivity|].
  split; [done|]. split; [|done]. apply wf_add_sent, wf_set_tx; [|done]. by apply wf_sending.
Qed.

(** ** ARP messages *)

Lemma process_arp s d dm sm p len :
  length dm = 6%nat → length sm = 6%nat → 14 ≤ len →
  ethernet_process_frame driver (Some d) (Some (frame dm sm ETHERTYPE_ARP p)) len s =
  arp_receive driver (Some d) (Some p) (len - 14) s.
Proof.
  intros Hdm Hsm Hlen. unfold ethernet_process_frame, ETHERNET_HEADER.
  change (Z.of_nat 14) with 14. rewrite (proj2 (Z.ltb_ge _ _)) by lia.
  replace (frame dm sm ETHERTYPE_ARP p) with ((dm ++ sm) ++ be16 ETHERTYPE_ARP ++ p) by (unfold frame; by rewrite <- !app_assoc).
  assert (Hl : length (dm ++ sm) = 12%nat) by (rewrite length_app; lia).
  pose proof (read_be16_app (dm ++ sm) ETHERTYPE_ARP p ltac:(done)) as He. rewrite Hl in He. rewrite He.
  cbn [mbind option_bind]. rewrite Z.eqb_refl. do 2 f_equal.
  rewrite app_assoc, drop_app_ge; rewrite length_app, Hl, be16_length; [|lia]. by rewrite Nat.sub_diag, drop_0.
Qed.

(** The answer to a request, and what is remembered of its sender. *)
Lemma arp_request_ok s d nd sha spa tha tpa rest len :
  wf s → dev_store s !! d = Some nd → has_transmit nd = true →
  length sha = 6%nat → bytes sha → length spa = 4%nat → bytes spa → length tha = 6%nat → length tpa = 4%nat → 28 ≤ len →
  returns (arp_receive driver (Some d) (Some (arp_packet ARP_OPER_REQUEST sha spa tha tpa ++ rest)) len s) (λ '(r, s'),
    let f := frame sha (mac nd) ETHERTYPE_ARP (arp_packet ARP_OPER_REPLY (mac nd) tpa sha spa) in
    sent s' = sent s ++ [(d, f)] ∧ cache_stored d spa sha s s' ∧ g_ipv4_address s' = g_ipv4_address s ∧
    r = if driver d (sent s) f <? 0 then -1 else 0).
Proof.
  intros Hs Hnd Htx Hsha Hbs Hspa Hbp Htha Htpa Hlen. unfold arp_receive. change (Z.of_nat ARP_HEADER) with 28.
  rewrite (proj2 (Z.ltb_ge _ _)) by lia.
  destruct (arp_fields ARP_OPER_REQUEST sha spa tha tpa rest) as (H0 & H2 & H4 & H5 & H6 & H8 & H14 & H24); [done..|].
  rewrite H0. cbn [mbind option_bind]. rewrite H2. cbn [mbind option_bind]. rewrite H4. cbn [mbind option_bind].
  rewrite H5. cbn [mbind option_bind]. rewrite !Z.eqb_refl. cbn [negb orb]. rewrite H6. cbn [mbind option_bind].
  rewrite H8. cbn [mbind option_bind]. rewrite H14. cbn [mbind option_bind]. rewrite Z.eqb_refl.
  apply lookup_lt_Some in Hnd as Hd. assert (Hm : length (mac nd) = 6%nat) by exact (proj1 (Forall_lookup_1 _ _ _ _ (wf_store _ Hs) Hnd)).
  eapply returns_bind; [by apply (cache_store_ok s d spa sha)|]. intros s' (Hs' & [c ->] & Hst).
  cbn [dev_store set_cache]. rewrite Hnd. cbn [mbind option_bind]. rewrite (field_all (mac nd)) by done. cbn [mbind option_bind].
  rewrite H24. cbn [mbind option_bind].
  set (p := arp_packet ARP_OPER_REPLY (mac nd) tpa sha spa). assert (Hp : length p = 28%nat) by (by apply arp_packet_length).
  destruct (ethernet_send_ok driver (set_cache c s) d nd sha ETHERTYPE_ARP p (Z.of_nat 28)) as (b & Hb & Hsend); try done; [lia| |].
  { rewrite Hp. done. }
  change (Z.of_nat 28) with 28 in Hsend. rewrite Hsend. cbn [mbind option_bind]. change (Z.to_nat 28) with 28%nat in *.
  rewrite !firstn_all2 by lia. cbn [sent set_cache]. case_match; by apply returns_ret.
Qed.

Lemma arp_reply_ok s d sha spa tha tpa rest len :
  wf s → (d < length (dev_store s))%nat →
  length sha = 6%nat → bytes sha → length spa = 4%nat → bytes spa → length tha = 6%nat → length tpa = 4%nat → 28 ≤ len →
  returns (arp_receive driver (Some d) (Some (arp_packet ARP_OPER_REPLY sha spa tha tpa ++ rest)) len s) (λ '(r, s'),
    r = 0 ∧ sent s' = sent s ∧ cache_stored d spa sha s s').
Proof.
  intros Hs Hd Hsha Hbs Hspa Hbp Htha Htpa Hlen. unfold arp_receive. change (Z.of_nat ARP_HEADER) with 28.
  rewrite (proj2 (Z.ltb_ge _ _)) by lia.
  destruct (arp_fields ARP_OPER_REPLY sha spa tha tpa rest) as (H0 & H2 & H4 & H5 & H6 & H8 & H14 & H24); [done..|].
  rewrite H0. cbn [mbind option_bind]. rewrite H2. cbn [mbind option_bind]. rewrite H4. cbn [mbind option_bind].
  rewrite H5. cbn [mbind option_bind]. rewrite !Z.eqb_refl. cbn [negb orb]. rewrite H6. cbn [mbind option_bind].
  rewrite H8. cbn [mbind option_bind]. rewrite H14. cbn [mbind option_bind].
  change (ARP_OPER_REPLY =? ARP_OPER_REQUEST) with false. rewrite Z.eqb_refl.
  eapply returns_bind; [by apply (cache_store_ok s d spa sha)|]. intros s' (Hs' & [c ->] & Hst). by apply returns_ret.
Qed.

(** The source address of a request: zeros when no address is set. *)
Lemma request_source (ip : list Z) :
  length ip = 4%nat → (if existsb (fun b => negb (b =? 0)) ip then ip else replicate 4 0) = ip.
Proof.
  intros Hl. destruct (existsb _ ip) eqn:E; [done|]. rewrite <- Hl. apply replicate_as_elem_of. split; [done|].
  intros x Hx. apply not_true_iff_false in E. destruct (decide (x = 0)) as [|Hne]; [done|]. exfalso. apply E, existsb_exists.
  exists x. split; [by apply list_elem_of_In|]. by rewrite (proj2 (Z.eqb_neq _ _)).
Qed.

(** An address that is not in the cache is asked for by a broadcast. *)
Lemma arp_resolve_asks s d nd ip :
  wf s → dev_store s !! d = Some nd → has_transmit nd = true → length ip = 4%nat → arp_cache_lookup d ip s = None →
  let f := frame (replicate 6 255) (mac nd) ETHERTYPE_ARP
             (arp_packet ARP_OPER_REQUEST (mac nd) (g_ipv4_address s) (replicate 6 0) ip) in
  ∃ b, length b = length (g_tx_buffer s) ∧
    arp_resolve driver (Some d) (Some ip) s =
      Some (if driver d (sent s) f <? 0 then -1 else 1, [], add_sent (d, f) (set_tx b s)).
Proof.
  intros Hs Hnd Htx Hip Hn f. destruct (wf_address _ Hs) as [Ha _].
  assert (Hm : length (mac nd) = 6%nat) by exact (proj1 (Forall_lookup_1 _ _ _ _ (wf_store _ Hs) Hnd)).
  unfold arp_resolve. rewrite Hn, Hnd. cbn [mbind option_bind]. rewrite (field_all (mac nd)) by done. cbn [mbind option_bind].
  rewrite (field_all (g_ipv4_address s)) by done. cbn [mbind option_bind]. cbv zeta. rewrite request_source by done.
  rewrite (field_all ip) by done. cbn [mbind option_bind]. change (Z.of_nat ARP_HEADER) with 28.
  set (p := arp_packet _ _ _ _ _) in *. assert (Hp : length p = 28%nat) by (by apply arp_packet_length).
  destruct (ethernet_send_ok driver s d nd (replicate 6 255) ETHERTYPE_ARP p 28) as (b & Hb & Hsend); try done; [rewrite Hp; done|].
  change (Z.to_nat 28) with 28%nat in Hsend. rewrite (firstn_all2 p) in Hsend by lia. exists b. split; [done|].
  rewrite Hsend. done.
Qed.

End parse.
(** ** A ping between two hosts *)

(** A received frame goes to the sockets, then up the stack. *)
Lemma receive_echo driver s d dm sm ident src dst isum payload rest len (P : Z * net → Prop) :
  wf s → length dm = 6%nat → length sm = 6%nat → length src = 4%nat → length dst = 4%nat →
  let f := frame dm sm ETHERTYPE_IPV4 (ipv4_packet (Z.of_nat (20 + length payload)) ident 1 src dst isum payload) in
  Z.of_nat (20 + length payload) < 65536 → Z.of_nat (length f) ≤ len ≤ Z.of_nat (length (f ++ rest)) →
  (∀ k, wf (set_sockets k s) →
     returns (icmp_receive driver (Some d) (Some (payload ++ rest)) (Z.of_nat (length payload)) (Some src) (set_sockets k s)) P) →
  returns (net_receive_frame driver (Some d) (Some (f ++ rest)) len s) P.
Proof.
  intros Hs Hdm Hsm Hsrc Hdst f Ht Hlen H. unfold net_receive_frame.
  assert (Hf : Z.of_nat (length f) = 14 + Z.of_nat (20 + length payload)).
  { unfold f. rewrite frame_length, ipv4_packet_length by done. lia. }
  rewrite (proj2 (Z.eqb_neq _ _)) by lia.
  eapply returns_bind; [apply notify_frame_ok; [done|lia|lia]|]. intros s' (Hs' & _ & [k ->] & _).
  unfold f. rewrite process_ipv4 by (try done; lia). by apply H.
Qed.

Definition next_replies (s s' : net) (r : icmp_echo_reply) : Prop :=
  replies s' = push_bounded ICMP_REPLY_CAPACITY (replies s) r.

(** The reply that has been recorded last is found, and when no other reply bears its
    numbers it is the one that is taken. *)
Lemma take_pushed s s' r :
  wf s' → next_replies s s' r →
  returns (icmp_take_echo_reply (r_identifier r) (r_sequence r) s') (λ '(e, s2),
    (∃ e', e = Some e' ∧ reply_is (r_identifier r) (r_sequence r) e' = true) ∧
    (Forall (λ e', reply_is (r_identifier r) (r_sequence r) e' = false) (replies s) → e = Some r ∧ replies s' = replies s2 ++ [r])).
Proof.
  intros Hs Hn. unfold next_replies in Hn. unfold push_bounded in Hn. set (l := if (_ <=? _)%nat then _ else _) in Hn.
  unfold icmp_take_echo_reply. pose proof (wf_replies _ Hs). pose proof (wf_reply_count _ Hs).
  rewrite cells_ok by lia. cbn [mbind option_bind]. fold (replies s'). rewrite Hn.
  assert (Hr : reply_is (r_identifier r) (r_sequence r) r = true) by (unfold reply_is; by rewrite !Z.eqb_refl).
  destruct (first_index (reply_is (r_identifier r) (r_sequence r)) (l ++ [r])) as [i|] eqn:E.
  2:{ exfalso. rewrite first_index_None in E. rewrite (E (length l) r) in Hr; [done|by apply list_lookup_middle]. }
  eapply returns_mono; [by apply take_reply_ok|]. intros [e s2] (_ & _ & -> & Hrest). rewrite Hn in Hrest |- *.
  apply first_index_Some in E as (e' & He' & Hm & _). rewrite He'. split; [by exists e'|]. intros Hnone.
  assert (Hl : Forall (λ x, reply_is (r_identifier r) (r_sequence r) x = false) l).
  { unfold l. case_match; [|done]. destruct (replies s); [done|]. by inversion Hnone. }
  apply lookup_app_Some in He' as [He'|[Hi He']].
  - rewrite (Forall_lookup_1 _ _ _ _ Hl He') in Hm. done.
  - apply list_lookup_singleton_Some in He' as [Hz ->]. split; [done|]. rewrite Hrest. assert (i = length l) as -> by lia.
    rewrite remove_at_take_drop by (rewrite length_app; cbn; lia). rewrite take_app_length, drop_ge by (rewrite length_app; cbn; lia). by rewrite app_nil_r.
Qed.

(** C10: a ping between two hosts of this kernel whose ARP caches have each other's
    hardware addresses: the request goes out as one frame; received by the other host, in
    any buffer and padded or not, it is answered with one frame; received by the
    first host that frame records the reply, with the identifier and the sequence
    number of the request and the address of the host that answered; and a take for these
    numbers then finds a reply, this one when no earlier reply bears the same numbers. *)
Theorem ping_roundtrip driver_a driver_b sa sb da db nda ndb ma mb identifier sequence :
  wf sa → wf sb →
  dev_store sa !! da = Some nda → has_transmit nda = true → dev_store sb !! db = Some ndb → has_transmit ndb = true →
  arp_cache_lookup da (g_ipv4_address sb) sa = Some mb → arp_cache_lookup db (g_ipv4_address sa) sb = Some ma →
  0 ≤ identifier < 65536 → 0 ≤ sequence < 65536 →
  returns (icmp_send_echo_request driver_a (Some da) (Some (g_ipv4_address sb)) identifier sequence sa) (λ '(_, sa1),
    ∃ f1, sent sa1 = sent sa ++ [(da, f1)] ∧
    ∀ rest1 len1, Z.of_nat (length f1) ≤ len1 ≤ Z.of_nat (length (f1 ++ rest1)) →
    returns (net_receive_frame driver_b (Some db) (Some (f1 ++ rest1)) len1 sb) (λ '(_, sb1),
      ∃ f2, sent sb1 = sent sb ++ [(db, f2)] ∧
      ∀ rest2 len2, Z.of_nat (length f2) ≤ len2 ≤ Z.of_nat (length (f2 ++ rest2)) →
      returns (net_receive_frame driver_a (Some da) (Some (f2 ++ rest2)) len2 sa1) (λ '(r, sa2),
        r = 0 ∧ next_replies sa sa2 (EchoReply identifier sequence (g_ipv4_address sb)) ∧
        returns (icmp_take_echo_reply identifier sequence sa2) (λ '(e, sa3),
          (∃ e', e = Some e' ∧ reply_is identifier sequence e' = true) ∧
          (Forall (λ e', reply_is identifier sequence e' = false) (replies sa) →
           e = Some (EchoReply identifier sequence (g_ipv4_address sb)) ∧ replies sa2 = replies sa3 ++ [EchoReply identifier sequence (g_ipv4_address sb)]))))).
Proof.
  intros Hsa Hsb Hnda Hta Hndb Htb Hmb Hma Hi Hq.
  destruct (wf_address _ Hsa) as [Haa Hba], (wf_address _ Hsb) as [Hab Hbb].
  destruct (cached_length _ _ _ _ Hsa Hab Hmb) as [Hmbl _], (cached_length _ _ _ _ Hsb Haa Hma) as [Hmal _].
  assert (Hmaca : length (mac nda) = 6%nat) by exact (proj1 (Forall_lookup_1 _ _ _ _ (wf_store _ Hsa) Hnda)).
  assert (Hmacb : length (mac ndb) = 6%nat) by exact (proj1 (Forall_lookup_1 _ _ _ _ (wf_store _ Hsb) Hndb)).
  eapply returns_mono; [by apply (echo_request_ok driver_a sa da nda mb)|].
  intros [ra sa1] (f1 & (sum1 & isum1 & id1 & Hf1) & _ & Hsa1 & Hds1 & Hsent1 & Hrep1).
  exists f1. split; [done|]. intros rest1 len1 Hlen1. subst f1.
  pose proof (λ rest, echo_fields 8 sum1 identifier sequence [] rest Hi Hq) as He1.
  eapply receive_echo with (payload := echo_packet 8 sum1 identifier sequence []); try done.
  intros k Hk. eapply returns_mono; [apply (icmp_request_ok driver_b (set_sockets k sb) db ndb ma); try done; [constructor|cbn; lia]|].
  intros [rb sb1] (f2 & (sum2 & isum2 & id2 & Hf2) & _ & Hsent2). exists f2. split; [done|].
  intros rest2 len2 Hlen2. subst f2.
  eapply receive_echo with (payload := echo_packet 0 sum2 identifier sequence []); try done.
  intros k2 Hk2. eapply returns_mono; [apply (icmp_reply_ok driver_a (set_sockets k2 sa1)); try done|].
  intros [r sa2] (-> & Hr & Hw). assert (Hn : next_replies sa sa2 (EchoReply identifier sequence (g_ipv4_address sb))).
  { unfold next_replies. rewrite Hr. f_equal. exact Hrep1. }
  split; [done|]. split; [done|]. exact (take_pushed sa sa2 (EchoReply identifier sequence (g_ipv4_address sb)) Hw Hn).
Qed.

(** ** Address resolution between two hosts *)

Lemma receive_arp driver s d dm sm p rest len (P : Z * net → Prop) :
  wf s → length dm = 6%nat → length sm = 6%nat →
  let f := frame dm sm ETHERTYPE_ARP p in
  Z.of_nat (length f) ≤ len ≤ Z.of_nat (length (f ++ rest)) →
  (∀ k, wf (set_sockets k s) → returns (arp_receive driver (Some d) (Some (p ++ rest)) (len - 14) (set_sockets k s)) P) →
  returns (net_receive_frame driver (Some d) (Some (f ++ rest)) len s) P.
Proof.
  intros Hs Hdm Hsm f Hlen H. assert (Hf : length f = (14 + length p)%nat) by (by apply frame_length).
  unfold net_receive_frame. rewrite (proj2 (Z.eqb_neq _ _)) by lia.
  eapply returns_bind; [apply notify_frame_ok; [done|lia|lia]|]. intros s' (Hs' & _ & [k ->] & _).
  replace (f ++ rest) with (frame dm sm ETHERTYPE_ARP (p ++ rest)) by (unfold f, frame; by rewrite <- !app_assoc).
  rewrite process_arp by (try done; lia). by apply H.
Qed.

(** Address resolution between two hosts.  Asking for an address that is not in
    the cache broadcasts one request; a host that receives it remembers the sender
    and answers, whatever its own address is; receiving the answer puts the
    hardware address of that host in the cache under the address asked for. *)
Theorem arp_exchange driver_a driver_b sa sb da db nda ndb ip :
  wf sa → wf sb →
  dev_store sa !! da = Some nda → has_transmit nda = true → dev_store sb !! db = Some ndb → has_transmit ndb = true →
  length ip = 4%nat → bytes ip → arp_cache_lookup da ip sa = None →
  returns (arp_resolve driver_a (Some da) (Some ip) sa) (λ '(_, _, sa1),
    ∃ f1, sent sa1 = sent sa ++ [(da, f1)] ∧
    ∀ rest1 len1, Z.of_nat (length f1) ≤ len1 ≤ Z.of_nat (length (f1 ++ rest1)) →
    returns (net_receive_frame driver_b (Some db) (Some (f1 ++ rest1)) len1 sb) (λ '(_, sb1),
      arp_cache_lookup db (g_ipv4_address sa) sb1 = Some (mac nda) ∧
      ∃ f2, sent sb1 = sent sb ++ [(db, f2)] ∧
      ∀ rest2 len2, Z.of_nat (length f2) ≤ len2 ≤ Z.of_nat (length (f2 ++ rest2)) →
      returns (net_receive_frame driver_a (Some da) (Some (f2 ++ rest2)) len2 sa1) (λ '(r, sa2),
        r = 0 ∧ arp_cache_lookup da ip sa2 = Some (mac ndb)))).
Proof.
  intros Hsa Hsb Hnda Hta Hndb Htb Hip Hbi Hn. destruct (wf_address _ Hsa) as [Haa Hba].
  destruct (Forall_lookup_1 _ _ _ _ (wf_store _ Hsa) Hnda) as [Hma Hbma].
  destruct (Forall_lookup_1 _ _ _ _ (wf_store _ Hsb) Hndb) as [Hmb Hbmb].
  destruct (arp_resolve_asks driver_a sa da nda ip) as (b & Hb & ->); try done.
  apply returns_ret. eexists. split; [done|]. intros rest1 len1 Hlen1.
  apply receive_arp; try done. intros k Hk. rewrite frame_length, arp_packet_length in Hlen1 by done.
  eapply returns_mono; [apply (arp_request_ok driver_b (set_sockets k sb) db ndb); try done; lia|].
  intros [rb sb1] (Hsent & [Hst _] & _). split; [exact Hst|]. eexists. split; [exact Hsent|].
  intros rest2 len2 Hlen2. rewrite frame_length, arp_packet_length in Hlen2 by done.
  apply receive_arp; try done; [by apply wf_add_sent, wf_set_tx|rewrite frame_length, arp_packet_length by done; lia|].
  intros k2 Hk2. eapply returns_mono.
  - apply (arp_reply_ok driver_a (set_sockets k2 _)); try done; [by eapply lookup_lt_Some|lia].
  - intros [r sa2] (-> & _ & Hc & _). done.
Qed.

(** The ARP cache.  A store makes the address known; every other address is
    found as before, except that a new address may push out the entry that has not
    been updated for the longest time, and only when all eight slots are in use. *)
Theorem arp_cache_correct s d ip m :
  wf s → (d < length (dev_store s))%nat → length ip = 4%nat → bytes ip → length m = 6%nat → bytes m →
  returns (arp_cache_store d ip m s) (λ s', wf s' ∧ arp_cache_lookup d ip s' = Some m ∧
    ∀ d' ip', length ip' = 4%nat → (d', ip') ≠ (d, ip) →
      arp_cache_lookup d' ip' s' = arp_cache_lookup d' ip' s ∨
      (arp_cache_lookup d ip s = None ∧ arp_cache_lookup d' ip' s' = None ∧
       ∃ i e, g_cache s !! i = Some e ∧ e_dev e = Some d' ∧ e_ipv4 e = ip' ∧
         ∀ j e', g_cache s !! j = Some e' → is_Some (e_dev e') ∧ e_updated e ≤ e_updated e')).
Proof.
  intros Hs Hd Hip Hbi Hm Hbm. eapply returns_mono; [by apply cache_store_ok|]. intros s' (Hs' & _ & Hl & Ho). done.
Qed.

(** ** What goes wrong *)

Lemma drop_frame dm sm ty p : length dm = 6%nat → length sm = 6%nat → drop 14 (frame dm sm ty p) = p.
Proof.
  intros Hd Hs. unfold frame. rewrite !app_assoc, drop_app_ge; rewrite !length_app, Hd, Hs, be16_length; [|lia].
  by rewrite Nat.sub_diag, drop_0.
Qed.

(** The header of a packet, before and after its checksum field. *)
Lemma packet_parts total ident protocol src dst sum payload :
  length src = 4%nat → length dst = 4%nat →
  let p := ipv4_packet total ident protocol src dst sum payload in
  take 20 p = take 10 p ++ le16 sum ++ take 8 (drop 12 p) ∧ take 2 (drop 10 p) = le16 sum ∧
  ipv4_header total ident protocol src dst = take 10 p ++ [0; 0] ++ take 8 (drop 12 p) ∧ length (take 10 p) = 10%nat ∧
  length (take 8 (drop 12 p)) = 8%nat.
Proof.
  intros Hs Hd. destruct src as [|s1 [|s2 [|s3 [|s4 [|]]]]]; try done. destruct dst as [|d1 [|d2 [|d3 [|d4 [|]]]]]; done.
Qed.

Lemma packet_checksum total ident protocol src dst sum payload :
  length src = 4%nat → length dst = 4%nat → bytes src → bytes dst → byte protocol →
  ipv4_checksum (ipv4_header total ident protocol src dst) = Some sum →
  let p := ipv4_packet total ident protocol src dst sum payload in
  take 2 (drop 10 p) = le16 sum ∧ (ipv4_checksum (take 20 p) = Some 0 ↔ sum mod 256 = sum / 256) ∧
  ipv4_checksum (take 10 p ++ be16 sum ++ take 8 (drop 12 p)) = Some 0.
Proof.
  intros Hs Hd Hbs Hbd Hpr Hsum p. destruct (packet_parts total ident protocol src dst sum payload Hs Hd) as (H20 & H2 & Hh & Hl1 & Hl2).
  fold p in H20, H2, Hh, Hl1, Hl2. pose proof (ipv4_header_bytes total ident protocol src dst Hbs Hbd Hpr) as Hb.
  pose proof (ipv4_header_sum total ident protocol src dst Hbs Hbd Hpr) as Hpos. rewrite Hh in *.
  apply bytes_app in Hb as [Hb1 [_ Hb2]%bytes_app]. rewrite H20. split; [done|].
  assert (He : Nat.Even (length (take 10 p))) by (rewrite Hl1; by exists 5%nat).
  split; [apply checksum_le_verifies|apply checksum_be_verifies]; try done; unfold SUM_LIMIT; lia.
Qed.

(** The checksum of a sent packet is in the wrong byte order.  The header of
    every IPv4 packet the kernel sends passes the check that a receiver makes (the
    ones' complement sum of its words, which [ipv4_checksum] computes, is zero)
    exactly when the two bytes of the checksum are equal; stored most significant
    byte first it would always pass. *)
Theorem sent_checksum_order driver s d nd dst m protocol p len :
  wf s → dev_store s !! d = Some nd → has_transmit nd = true → length dst = 4%nat → bytes dst → byte protocol →
  arp_cache_lookup d dst s = Some m → 0 ≤ len ≤ 1480 → (Z.to_nat len ≤ length p)%nat →
  returns (ipv4_send driver (Some d) (Some dst) protocol (Some p) len s) (λ '(_, s'),
    ∃ f sum, sent s' = sent s ++ [(d, f)] ∧ take 2 (drop 24 f) = le16 sum ∧
      (ipv4_checksum (take 20 (drop 14 f)) = Some 0 ↔ sum mod 256 = sum / 256) ∧
      ipv4_checksum (take 10 (drop 14 f) ++ be16 sum ++ take 8 (drop 26 f)) = Some 0).
Proof.
  intros Hs Hnd Htx Hdst Hbd Hpr Hm Hlen Hp. destruct (wf_address _ Hs) as [Ha Hba].
  destruct (cached_length _ _ _ _ Hs Hdst Hm) as [Hml _].
  assert (Hmac : length (mac nd) = 6%nat) by exact (proj1 (Forall_lookup_1 _ _ _ _ (wf_store _ Hs) Hnd)).
  destruct (ipv4_send_ok driver s d nd dst m protocol p len) as (sum & b1 & b2 & _ & _ & Hsum & Hsend); try done.
  rewrite Hsend. apply returns_ret. eexists _, sum. split; [done|]. set (f := frame _ _ _ _).
  assert (drop 24 f = drop 10 (drop 14 f)) as -> by (by rewrite drop_drop).
  assert (drop 26 f = drop 12 (drop 14 f)) as -> by (by rewrite drop_drop).
  unfold f. rewrite !drop_frame by done. by apply packet_checksum.
Qed.

(** A length field below the header length makes the stack read on past the
    frame.  A frame of 34 bytes, an IPv4 header that says it has fewer than 20, is
    not refused: the bytes left in the receive buffer behind the frame are taken for
    an echo message of nearly 4 GiB. *)
Theorem short_total_reads_on driver s d dm sm total ident src dst sum stale :
  length dm = 6%nat → length sm = 6%nat → length src = 4%nat → length dst = 4%nat → 0 ≤ total < 20 →
  let f := frame dm sm ETHERTYPE_IPV4 (ipv4_packet total ident 1 src dst sum []) in
  length f = 34%nat ∧
  ethernet_process_frame driver (Some d) (Some (f ++ stale)) 34 s =
    icmp_receive driver (Some d) (Some stale) (4294967276 + total) (Some src) s.
Proof.
  intros Hdm Hsm Hsrc Hdst Ht f. unfold f. rewrite frame_length, ipv4_packet_length by done. split; [done|].
  rewrite process_ipv4_any by (try done; lia). cbn [app]. do 2 f_equal. unfold u32.
  replace (total - 20) with (4294967276 + total + (-1) * 4294967296) by lia. rewrite Z_mod_plus_full. apply Z.mod_small. lia.
Qed.

(** ** Start-up and a concrete run *)

Definition boot_entry : arp_cache_entry := ArpEntry None (replicate 4 0) (replicate 6 0) 0.
Definition boot_packet : net_raw_packet := RawPacket 0 (replicate NET_SOCKET_FRAME_MAX 0).
Definition boot_socket : net_raw_socket := RawSocket false None 0 0 0 (replicate NET_SOCKET_QUEUE boot_packet).

(** The variables as the kernel image has them, with the devices of the machine. *)
Definition boot_net (devs : list net_device) : net :=
  NetState devs (replicate MAX_NET_DEVICES None) 0 (replicate (ETHERNET_HEADER + 1500) 0)
    (replicate ARP_CACHE_CAPACITY boot_entry) (replicate 4 0) 0 (replicate (IPV4_HEADER + 1500) 0)
    (replicate ICMP_REPLY_CAPACITY (EchoReply 0 0 (replicate 4 0))) 0 (replicate NET_SOCKET_CAPACITY boot_socket) 0 [] [].

Lemma boot_net_wf devs : Forall wf_device devs → wf (boot_net devs).
Proof.
  intros Hd. assert (Hz : ∀ n, bytes (replicate n 0)) by (intros; by apply bytes_replicate).
  constructor; cbn [boot_net dev_store g_devices g_device_count g_tx_buffer g_cache g_ipv4_address g_ipv4_ident
    g_ipv4_tx_buffer g_replies g_reply_count g_sockets ticks]; try done; try lia; try apply length_replicate.
  - apply Forall_replicate. repeat split; try done; try apply Hz.
  - intros i j ei ej d Hi Hj Hdi. apply lookup_replicate in Hi as [-> _]. done.
  - apply Forall_replicate. constructor; cbn [boot_socket s_packets s_head s_count s_tail s_device];
      unfold NET_SOCKET_QUEUE; try apply length_replicate; try lia; try done.
    apply Forall_replicate. split; [apply length_replicate|cbn; lia].
Qed.

End NetProps.
