(* ===== verification/Block.v ===== *)
(** Block devices, partitions and volumes (kernel/blockdev.c, partition.c,
    volmgr.c).  A [struct block_device *] is an index of [device_table]; the
    [struct partition_data] blocks taken from the heap are numbered in the order of
    their allocation.  The disk drivers are the class [DiskOps] over a type of
    disk contents.  A read or write that would recurse without end is [None]. *)

From S2P Require Import Prelude Arrays Memory Bytes.

Module Block.

Import Arrays Bytes.

Definition BLOCKDEV_MAX_DEVICES : nat := 16.
Definition BLOCKDEV_NAME_MAX : nat := 32.
Definition BLOCKDEV_FLAG_PARTITION : Z := 2.
Definition MBR_SIGNATURE_OFFSET : nat := 510.
Definition MBR_PARTITION_TABLE : nat := 446.
Definition MBR_PARTITION_ENTRY_SIZE : nat := 16.
Definition MBR_PARTITION_COUNT : nat := 4.
Definition VOLMGR_MAX_VOLUMES : nat := 16.
Definition VOLMGR_NAME_MAX : nat := 16.
Definition VFS_MAX_PATH : nat := 128.

(** [dev->ops] and [dev->driver_data]: none, a disk driver with the operations it
    has, or [partition_ops] with the partition's data. *)
Inductive device_ops :=
| NoOps
| DiskDriver (id : nat) (has_read has_write : bool)
| PartitionOps (data : option nat).

Record block_device := BlockDevice {
  name : cstring;
  block_size : Z;
  block_count : Z;
  ops : device_ops;
  flags : Z;
  scanned_partitions : bool
}.

Record blockdev_descriptor := Descriptor {
  d_name : option cstring;
  d_block_size : Z;
  d_block_count : Z;
  d_ops : device_ops;
  d_flags : Z
}.

Record partition_data := PartitionData { parent : option nat; lba_start : Z; lba_length : Z }.

(** The variables of blockdev.c, the partition data allocated so far, the heap they
    come from, and the log. *)
Record blocks := BlockState {
  device_table : list block_device;
  device_count : nat;
  pdata : list partition_data;
  heap : Memory.heap;
  block_log : list cstring
}.

Definition zero_device : block_device := BlockDevice [] 0 0 NoOps 0 false.

Definition set_table (t : list block_device) (c : nat) (s : blocks) : blocks :=
  BlockState t c (pdata s) (heap s) (block_log s).

(** ** Names *)

(** [str_equals] of two strings that are not NULL. *)
Definition str_equals (a b : cstring) : bool := bool_decide (a = b).

(** [copy_name(dst, cap, src)] *)
Definition copy_name (cap : nat) (src : cstring) : cstring := take (cap - 1) src.

(** [pos] of the first device with a name. *)
Definition find_name (n : cstring) (s : blocks) : option (option nat) :=
  l ← cells (device_table s) (device_count s); Some (first_index (fun d => str_equals (name d) n) l).

Definition name_in_use (n : cstring) (s : blocks) : option bool :=
  i ← find_name n s; Some (bool_decide (is_Some i)).

(** The message of [log_device], cut to its buffer. *)
Definition log_device (d : block_device) (s : blocks) : blocks :=
  BlockState (device_table s) (device_count s) (pdata s) (heap s)
    (block_log s ++ [take (BLOCKDEV_NAME_MAX + 15) (lit "blockdev: " ++ name d)]).

(** ** The table *)

Definition blockdev_init (s : blocks) : blocks := set_table (replicate (length (device_table s)) zero_device) 0 s.

(** The status and [*out_dev]. *)
Definition blockdev_register (desc : option blockdev_descriptor) (s : blocks) : option (Z * option nat * blocks) :=
  match desc with
  | None => Some (-1, None, s)
  | Some d =>
      match d_name d, d_ops d with
      | None, _ | _, NoOps => Some (-1, None, s)
      | Some n, _ =>
          if (BLOCKDEV_MAX_DEVICES <=? device_count s)%nat then Some (-1, None, s)
          else
            used ← name_in_use n s;
            if (used : bool) then Some (-1, None, s)
            else
              let slot := device_count s in
              let dev := {| name := copy_name BLOCKDEV_NAME_MAX n;
                            block_size := if d_block_size d =? 0 then 512 else d_block_size d;
                            block_count := d_block_count d; ops := d_ops d; flags := d_flags d;
                            scanned_partitions := false |} in
              t ← buf_store (device_table s) slot dev;
              Some (0, Some slot, log_device dev (set_table t (S slot) s))
      end
  end.

(** [memmove] of the devices behind the one removed, and the last slot cleared. *)
Definition blockdev_unregister (n : option cstring) (s : blocks) : option (Z * blocks) :=
  match n with
  | None => Some (-1, s)
  | Some n =>
      i ← find_name n s;
      match i with
      | None => Some (-1, s)
      | Some i =>
          t ← arr_remove zero_device i (device_count s) (device_table s);
          Some (0, set_table t (device_count s - 1) s)
      end
  end.

Definition blockdev_find (n : option cstring) (s : blocks) : option (option nat) :=
  match n with None => Some None | Some n => find_name n s end.

(** The devices stored in an array of [max_count] pointers. *)
Definition blockdev_enumerate (max_count : nat) (s : blocks) : list nat := seq 0 (Nat.min (device_count s) max_count).

Definition blockdev_device_count (s : blocks) : nat := device_count s.

Definition blockdev_log_devices (s : blocks) : option blocks :=
  l ← cells (device_table s) (device_count s); Some (foldl (fun s d => log_device d s) s l).

(** ** Reading and writing *)

(** The contents of the disks, and what a driver does. *)
Class DiskOps (W : Type) := {
  disk_read : nat → Z → Z → W → Z * list Z;
  disk_write : nat → Z → Z → list Z → W → Z * W
}.

(** [op_guard] *)
Definition op_guard (d : block_device) (lba count : Z) : Z :=
  if count =? 0 then 0
  else if negb (block_count d =? 0) && (block_count d <? lba +64 count) then -1
  else 0.

(** The range test of the partition operations. *)
Definition out_of_partition (p : partition_data) (lba count : Z) : bool :=
  negb (lba_length p =? 0) && (lba_length p <? lba +64 count).

(** A device that is a partition reads through its parent. *)
Definition IO_FUEL : nat := 17.

Section io.
Context {W : Type} `{!DiskOps W}.

Fixpoint read_loop (fuel : nat) (s : blocks) (dev : nat) (lba count : Z) (w : W) : option (Z * list Z) :=
  d ← device_table s !! dev;
  match ops d with
  | NoOps => Some (-1, [])
  | DiskDriver id has_read _ =>
      if negb has_read then Some (-1, [])
      else if op_guard d lba count <? 0 then Some (-1, [])
      else Some (disk_read id lba count w)
  | PartitionOps data =>
      if op_guard d lba count <? 0 then Some (-1, [])
      else match data ≫= (pdata s !!.) with
      | None => Some (-1, [])
      | Some p =>
          match parent p with
          | None => Some (-1, [])
          | Some up =>
              if out_of_partition p lba count then Some (-1, [])
              else match fuel with
              | O => None
              | S fuel' => read_loop fuel' s up (lba_start p +64 lba) count w
              end
          end
      end
  end.

Fixpoint write_loop (fuel : nat) (s : blocks) (dev : nat) (lba count : Z) (buffer : list Z) (w : W) : option (Z * W) :=
  d ← device_table s !! dev;
  match ops d with
  | NoOps => Some (-1, w)
  | DiskDriver id _ has_write =>
      if negb has_write then Some (-1, w)
      else if op_guard d lba count <? 0 then Some (-1, w)
      else Some (disk_write id lba count buffer w)
  | PartitionOps data =>
      if op_guard d lba count <? 0 then Some (-1, w)
      else match data ≫= (pdata s !!.) with
      | None => Some (-1, w)
      | Some p =>
          match parent p with
          | None => Some (-1, w)
          | Some up =>
              if out_of_partition p lba count then Some (-1, w)
              else match fuel with
              | O => None
              | S fuel' => write_loop fuel' s up (lba_start p +64 lba) count buffer w
              end
          end
      end
  end.

(** The status and the bytes the driver put in the buffer. *)
Definition blockdev_read (s : blocks) (dev : option nat) (lba count : Z) (w : W) : option (Z * list Z) :=
  match dev with None => Some (-1, []) | Some d => read_loop IO_FUEL s d lba count w end.

Definition blockdev_write (s : blocks) (dev : option nat) (lba count : Z) (buffer : option (list Z)) (w : W) : option (Z * W) :=
  match dev, buffer with
  | Some d, Some b => write_loop IO_FUEL s d lba count b w
  | _, _ => Some (-1, w)
  end.

(** ** Partitions *)

(** The digits of a number, as [append_number] and [format_volume_name] produce them. *)
Fixpoint digits (n : nat) (value : Z) : cstring :=
  match n with
  | O => []
  | S n' => if value <=? 0 then [] else digits n' (value / 10) ++ [48 + value mod 10]
  end.
Definition decimal (value : Z) : cstring := if value =? 0 then [48] else digits 12 value.

(** [make_partition_name(buffer, cap, base, index)] on a zeroed buffer. *)
Definition make_partition_name (cap : nat) (base : cstring) (index : Z) : cstring :=
  take (cap - 1) (base ++ [112] ++ decimal index).

(** The type, first sector and length of entry [i] of the table in a boot sector. *)
Definition mbr_entry (sector : list Z) (i : nat) : option (Z * Z * Z) :=
  let off := (MBR_PARTITION_TABLE + i * MBR_PARTITION_ENTRY_SIZE)%nat in
  type ← sector !! (off + 4)%nat; start ← read_le32 sector (off + 8); len ← read_le32 sector (off + 12);
  Some (type, start, len).

Definition partition_data_size : Z := 20.

Fixpoint scan_entries (sector : list Z) (dev : nat) (n i : nat) (part_index : Z) (s : blocks) : option blocks :=
  match n with
  | O => Some s
  | S n' =>
      '(type, start, len) ← mbr_entry sector i;
      if (type =? 0) || (len =? 0) then scan_entries sector dev n' (S i) part_index s
      else
        match Memory.kalloc (heap s) partition_data_size with
        | (None, h) => scan_entries sector dev n' (S i) part_index (BlockState (device_table s) (device_count s) (pdata s) h (block_log s))
        | (Some _, h) =>
            d ← device_table s !! dev;
            let s := BlockState (device_table s) (device_count s)
                       (pdata s ++ [{| parent := Some dev; lba_start := start; lba_length := len |}]) h (block_log s) in
            let desc := {| d_name := Some (make_partition_name BLOCKDEV_NAME_MAX (name d) part_index);
                           d_block_size := block_size d; d_block_count := len;
                           d_ops := PartitionOps (Some (length (pdata s) - 1)%nat); d_flags := BLOCKDEV_FLAG_PARTITION |} in
            '(_, _, s) ← blockdev_register (Some desc) s;
            scan_entries sector dev n' (S i) (part_index +32 1) s
        end
  end.

Definition mark_scanned (dev : nat) (s : blocks) : blocks :=
  set_table (alter (fun d => BlockDevice (name d) (block_size d) (block_count d) (ops d) (flags d) true) dev (device_table s)) (device_count s) s.

Definition is_partition (d : block_device) : bool := negb (Z.land (flags d) BLOCKDEV_FLAG_PARTITION =? 0).

Definition partition_scan_device (dev : option nat) (w : W) (s : blocks) : option blocks :=
  match dev with
  | None => Some s
  | Some i =>
      d ← device_table s !! i;
      if negb (block_size d =? 512) then Some s
      else if is_partition d then Some s
      else if scanned_partitions d then Some s
      else
        '(r, sector) ← blockdev_read s dev 0 1 w;
        if r <? 0 then Some s
        else
          b0 ← sector !! MBR_SIGNATURE_OFFSET; b1 ← sector !! S MBR_SIGNATURE_OFFSET;
          if negb (b0 =? 0x55) || negb (b1 =? 0xAA) then Some (mark_scanned i s)
          else s ← scan_entries sector i MBR_PARTITION_COUNT 0 1 s; Some (mark_scanned i s)
  end.

Fixpoint scan_all (l : list nat) (w : W) (s : blocks) : option blocks :=
  match l with
  | [] => Some s
  | i :: l' => s ← partition_scan_device (Some i) w s; scan_all l' w s
  end.

Definition partition_autoscan (w : W) (s : blocks) : option blocks :=
  scan_all (blockdev_enumerate BLOCKDEV_MAX_DEVICES s) w s.

End io.

(** ** Volumes *)

Record volume_record := VolumeRecord {
  v_used : bool;
  v_name : cstring;
  v_mount_path : cstring;
  v_device : option nat;
  v_index : Z
}.

Record volmgr := VolState { volume_table : list volume_record; next_index : Z; vol_log : list cstring }.

Definition empty_volume : volume_record := VolumeRecord false [] [] None 0.

Definition reset_table (v : volmgr) : volmgr := VolState (replicate (length (volume_table v)) empty_volume) 0 (vol_log v).

Definition format_volume_name (cap : nat) (index : Z) : cstring := take (cap - 1) (lit "Disk" ++ decimal index).
Definition format_mount_path (cap : nat) (n : cstring) : cstring := take (cap - 1) (lit "/Volumes/" ++ n).

Definition find_by_device (dev : nat) (v : volmgr) : option nat :=
  first_index (fun r => v_used r && bool_decide (v_device r = Some dev)) (volume_table v).
Definition allocate_slot (v : volmgr) : option nat := first_index (fun r => negb (v_used r)) (volume_table v).

Definition attach_device (s : blocks) (dev : nat) (v : volmgr) : option volmgr :=
  d ← device_table s !! dev;
  if negb (is_partition d) then Some v
  else match find_by_device dev v with
  | Some _ => Some v
  | None =>
      match allocate_slot v with
      | None => Some v
      | Some i =>
          let n := format_volume_name VOLMGR_NAME_MAX (next_index v) in
          let slot := {| v_used := true; v_name := n; v_mount_path := format_mount_path VFS_MAX_PATH n;
                         v_device := Some dev; v_index := next_index v |} in
          Some (VolState (<[i := slot]> (volume_table v)) (next_index v +32 1) (vol_log v ++ [lit "volmgr: volume attached"]))
      end
  end.

Fixpoint attach_all (s : blocks) (l : list nat) (v : volmgr) : option volmgr :=
  match l with
  | [] => Some v
  | i :: l' => v ← attach_device s i v; attach_all s l' v
  end.

Definition volmgr_rescan (s : blocks) (v : volmgr) : option volmgr :=
  attach_all s (blockdev_enumerate BLOCKDEV_MAX_DEVICES s) v.

Definition volmgr_init {W} `{!DiskOps W} (w : W) (s : blocks) (v : volmgr) : option (blocks * volmgr) :=
  let v := reset_table v in
  s ← partition_autoscan w s;
  v ← volmgr_rescan s v;
  Some (s, v).

Definition volmgr_volume_count (v : volmgr) : nat := length (filter (fun r => v_used r = true) (volume_table v)).
Definition volmgr_volume_at (index : nat) (v : volmgr) : option volume_record := filter (fun r => v_used r = true) (volume_table v) !! index.

Definition volmgr_find_device (n : option cstring) (v : volmgr) : option nat :=
  n ← n;
  i ← first_index (fun r => v_used r && str_equals (v_name r) n) (volume_table v);
  r ← volume_table v !! i; v_device r.

End Block.
