(* ===== verification/BlockProps.v ===== *)
(** The theorems about block devices, partitions and volumes: a partition is a
    window on its disk, windows are isolated, what a scan registers, and what
    goes wrong at the edge of the address range and when devices go away. *)

From S2P Require Import Prelude Arrays Memory Bytes Block.

Module BlockProps.

Import Arrays Bytes Block.

(** ** The invariant *)

(** Device [i] of the table. *)
Definition device (s : blocks) (i : nat) (d : block_device) : Prop :=
  (i < device_count s)%nat ∧ device_table s !! i = Some d.

Definition is_disk (d : block_device) : Prop := ∃ id r w, ops d = DiskDriver id r w.

(** A partition has its data, as long as its data say, on a parent that is a disk. *)
Definition wf_device (s : blocks) (d : block_device) : Prop :=
  match ops d with
  | NoOps => False
  | DiskDriver _ _ _ => True
  | PartitionOps None => False
  | PartitionOps (Some k) =>
      ∃ p up du, pdata s !! k = Some p ∧ parent p = Some up ∧ device s up du ∧ is_disk du ∧
        is_partition d = true ∧ block_count d = lba_length p ∧ 0 ≤ lba_start p < 2 ^ 32 ∧ 0 < lba_length p < 2 ^ 32
  end.

Record wf (s : blocks) : Prop := {
  wf_table : length (device_table s) = BLOCKDEV_MAX_DEVICES;
  wf_count : (device_count s ≤ BLOCKDEV_MAX_DEVICES)%nat;
  wf_each : ∀ i d, device s i d → wf_device s d
}.

(** What the drivers of disks with sectors of 512 bytes promise: a write changes the
    sectors it names and no others, and a read returns what they hold. *)
Class DiskLaws (W : Type) `{!DiskOps W} := {
  disk_frame id lba count buf w id' lba' count' :
    id ≠ id' ∨ lba + count ≤ lba' ∨ lba' + count' ≤ lba →
    disk_read id' lba' count' (disk_write id lba count buf w).2 = disk_read id' lba' count' w;
  disk_stored id lba count buf w :
    0 ≤ (disk_write id lba count buf w).1 → length buf = Z.to_nat (count * 512) → bytes buf →
    (disk_read id lba count (disk_write id lba count buf w).2).2 = buf;
  disk_sized id lba count w :
    0 ≤ (disk_read id lba count w).1 → bytes (disk_read id lba count w).2 ∧ length (disk_read id lba count w).2 = Z.to_nat (count * 512)
}.

Section windows.
Context {W : Type} `{!DiskOps W}.
Implicit Types (s : blocks) (w : W).

(** A partition: the disk it lies on, with its driver and its size, and where. *)
Record extent := Extent { x_disk : nat; x_read : bool; x_write : bool; x_size : Z; x_start : Z; x_length : Z }.

Definition partition_of (s : blocks) (i : nat) (x : extent) : Prop :=
  ∃ d k p up du, device_table s !! i = Some d ∧ ops d = PartitionOps (Some k) ∧ pdata s !! k = Some p ∧
    parent p = Some up ∧ device_table s !! up = Some du ∧ ops du = DiskDriver (x_disk x) (x_read x) (x_write x) ∧
    block_count du = x_size x ∧ block_count d = x_length x ∧ lba_length p = x_length x ∧ lba_start p = x_start x ∧
    0 ≤ x_start x < 2 ^ 32 ∧ 0 < x_length x < 2 ^ 32.

(** The sectors are inside the partition and on the disk (whose size may be
    unknown, 0). *)
Definition inside (x : extent) (lba count : Z) : bool :=
  (lba + count <=? x_length x) && ((x_size x =? 0) || (x_start x + lba + count <=? x_size x)).

(** Every partition of a well-formed table has an extent. *)
Lemma wf_partition_of s i d k : wf s → device s i d → ops d = PartitionOps (Some k) → ∃ x, partition_of s i x.
Proof.
  intros Hs [Hi Hd] Ho. pose proof (wf_each _ Hs i d (conj Hi Hd)) as Hw. unfold wf_device in Hw. rewrite Ho in Hw.
  destruct Hw as (p & up & du & Hp & Hup & [_ Hdu] & (id & r & wr & Hod) & _ & Hbc & Hst & Hlen).
  exists (Extent id r wr (block_count du) (lba_start p) (lba_length p)), d, k, p, up, du. done.
Qed.

Lemma guard_ok d lba count :
  0 ≤ lba → 0 < count → lba + count < 2 ^ 64 →
  (op_guard d lba count <? 0) = negb ((block_count d =? 0) || (lba + count <=? block_count d)).
Proof.
  intros Hl Hc Hs. unfold op_guard. rewrite u64_small, (proj2 (Z.eqb_neq count 0)) by lia.
  destruct (Z.eqb_spec (block_count d) 0) as [->|Hne]; [done|]. cbn [negb andb orb]. rewrite <- Z.ltb_antisym.
  by destruct (block_count d <? lba + count).
Qed.

Lemma out_of_partition_ok p lba count :
  0 ≤ lba → 0 < count → lba + count < 2 ^ 64 → lba_length p ≠ 0 → out_of_partition p lba count = negb (lba + count <=? lba_length p).
Proof.
  intros Hl Hc Hs Hp. unfold out_of_partition. rewrite u64_small, (proj2 (Z.eqb_neq _ _)) by lia. cbn [negb andb].
  by rewrite <- Z.ltb_antisym.
Qed.

(** A read of a partition is a read of its window on the disk. *)
Lemma read_window s i x w lba count :
  partition_of s i x → 0 ≤ lba → 0 < count → lba + count < 2 ^ 64 →
  blockdev_read s (Some i) lba count w =
    Some (if x_read x && inside x lba count then disk_read (x_disk x) (x_start x + lba) count w else (-1, [])).
Proof.
  intros (d & k & p & up & du & Hd & Ho & Hp & Hup & Hdu & Hod & Hbu & Hbc & Hlen & Hst & Hs & Hl) H0 Hc H64.
  unfold blockdev_read, IO_FUEL, inside. cbn [read_loop]. rewrite Hd. cbn [mbind option_bind]. rewrite Ho.
  rewrite guard_ok, Hbc, (proj2 (Z.eqb_neq (x_length x) 0)) by lia. cbn [orb mbind option_bind]. rewrite Hp, Hup.
  rewrite out_of_partition_ok, Hlen by lia.
  destruct (Z.leb_spec (lba + count) (x_length x)) as [Hin|Hout]; cbn [negb andb]; [|by rewrite andb_false_r].
  rewrite Hst, u64_small, Hdu by lia. cbn [mbind option_bind]. rewrite Hod. destruct (x_read x); [|done]. cbn [negb andb].
  rewrite guard_ok, Hbu by lia. rewrite <- Z.add_assoc. by destruct (_ || _).
Qed.

Lemma write_window s i x w lba count buf :
  partition_of s i x → 0 ≤ lba → 0 < count → lba + count < 2 ^ 64 →
  blockdev_write s (Some i) lba count (Some buf) w =
    Some (if x_write x && inside x lba count then disk_write (x_disk x) (x_start x + lba) count buf w else (-1, w)).
Proof.
  intros (d & k & p & up & du & Hd & Ho & Hp & Hup & Hdu & Hod & Hbu & Hbc & Hlen & Hst & Hs & Hl) H0 Hc H64.
  unfold blockdev_write, IO_FUEL, inside. cbn [write_loop]. rewrite Hd. cbn [mbind option_bind]. rewrite Ho.
  rewrite guard_ok, Hbc, (proj2 (Z.eqb_neq (x_length x) 0)) by lia. cbn [orb mbind option_bind]. rewrite Hp, Hup.
  rewrite out_of_partition_ok, Hlen by lia.
  destruct (Z.leb_spec (lba + count) (x_length x)) as [Hin|Hout]; cbn [negb andb]; [|by rewrite andb_false_r].
  rewrite Hst, u64_small, Hdu by lia. cbn [mbind option_bind]. rewrite Hod. destruct (x_write x); [|done]. cbn [negb andb].
  rewrite guard_ok, Hbu by lia. rewrite <- Z.add_assoc. by destruct (_ || _).
Qed.

(** C27: partitions are isolated.  For requests whose first sector number
    plus length stays below 2^64, a write through one partition changes nothing that can be
    read through another partition that does not overlap it, and a write that
    succeeds is what a read of the same sectors returns. *)
Theorem partitions_isolated `{!DiskLaws W} s i j x y w lba count buf lba' count' :
  partition_of s i x → partition_of s j y →
  x_disk x ≠ x_disk y ∨ x_start x + x_length x ≤ x_start y ∨ x_start y + x_length y ≤ x_start x →
  0 ≤ lba → 0 < count → lba + count < 2 ^ 64 → 0 ≤ lba' → 0 < count' → lba' + count' < 2 ^ 64 →
  length buf = Z.to_nat (count * 512) → bytes buf →
  ∃ r w', blockdev_write s (Some i) lba count (Some buf) w = Some (r, w') ∧
    blockdev_read s (Some j) lba' count' w' = blockdev_read s (Some j) lba' count' w ∧
    (0 ≤ r → x_read x = true → ∃ r', blockdev_read s (Some i) lba count w' = Some (r', buf)).
Proof.
  intros Hx Hy Hdis H0 Hc H64 H0' Hc' H64' Hbuf Hby. rewrite (write_window s i x) by done.
  destruct (x_write x && inside x lba count) eqn:E.
  2:{ exists (-1), w. split; [done|]. split; [done|]. lia. }
  destruct (disk_write _ _ _ _ _) as [r w'] eqn:Ew. exists r, w'. split; [done|].
  apply andb_true_iff in E as [_ E]. split.
  - rewrite !(read_window s j y) by done. destruct (x_read y && inside y lba' count') eqn:E'; [|done].
    apply andb_true_iff in E' as [_ E']. unfold inside in *. bool_prop. f_equal.
    replace w' with (disk_write (x_disk x) (x_start x + lba) count buf w).2 by (by rewrite Ew).
    apply disk_frame. lia.
  - intros Hr Hrd. rewrite (read_window s i x) by done. rewrite Hrd, E. cbn [andb].
    pose proof (disk_stored (x_disk x) (x_start x + lba) count buf w) as Hst. rewrite Ew in Hst. specialize (Hst Hr Hbuf Hby). cbn in Hst.
    destruct (disk_read _ _ _ _) as [r' b]. cbn in Hst. subst. eauto.
Qed.

(** The range tests wrap at 64 bits.  A read of one sector at the highest
    sector number passes the tests of a partition and reads the sector of the disk
    in front of the partition. *)
Theorem partition_escape s i x w :
  partition_of s i x → x_read x = true → 0 < x_start x → x_start x ≤ x_size x →
  blockdev_read s (Some i) (2 ^ 64 - 1) 1 w = Some (disk_read (x_disk x) (x_start x - 1) 1 w).
Proof.
  intros (d & k & p & up & du & Hd & Ho & Hp & Hup & Hdu & Hod & Hbu & Hbc & Hlen & Hst & Hs & Hl) Hr H0 Hsz.
  unfold blockdev_read, IO_FUEL. cbn [read_loop]. rewrite Hd. cbn [mbind option_bind]. rewrite Ho.
  assert (Hg : ∀ b, 0 ≤ block_count b → op_guard b (2 ^ 64 - 1) 1 = 0).
  { intros b Hb. unfold op_guard. change (u64 (2 ^ 64 - 1 + 1)) with 0. cbn [Z.eqb]. by rewrite (proj2 (Z.ltb_ge _ 0)), andb_false_r. }
  rewrite Hg by lia. change (0 <? 0) with false. cbv iota. cbn [mbind option_bind]. rewrite Hp, Hup.
  unfold out_of_partition. change (u64 (2 ^ 64 - 1 + 1)) with 0. rewrite (proj2 (Z.ltb_ge (lba_length p) 0)), andb_false_r by lia.
  rewrite Hst. replace (u64 (x_start x + (2 ^ 64 - 1))) with (x_start x - 1).
  2:{ unfold u64. replace (x_start x + (2 ^ 64 - 1)) with (x_start x - 1 + 1 * 18446744073709551616) by lia.
      rewrite Z_mod_plus_full, Z.mod_small; lia. }
  rewrite Hdu. cbn [mbind option_bind]. rewrite Hod, Hr. cbn [negb]. rewrite guard_ok, Hbu by lia.
  replace (x_start x - 1 + 1) with (x_start x) by lia. rewrite (proj2 (Z.leb_le _ _)), orb_true_r by lia. done.
Qed.

End windows.

(** ** Registering and scanning *)

(** The same device, perhaps scanned since. *)
Definition same_device (d d' : block_device) : Prop :=
  name d' = name d ∧ block_size d' = block_size d ∧ block_count d' = block_count d ∧ ops d' = ops d ∧ flags d' = flags d.

(** Devices and partition data are only added. *)
Definition extends (s s' : blocks) : Prop :=
  (device_count s ≤ device_count s')%nat ∧ (∀ i d, device s i d → ∃ d', device s' i d' ∧ same_device d d') ∧
  (∀ k p, pdata s !! k = Some p → pdata s' !! k = Some p).

Lemma same_refl d : same_device d d.
Proof. done. Qed.

Lemma extends_refl s : extends s s.
Proof. split; [done|]. split; [|done]. intros i d H. by exists d. Qed.

Lemma extends_trans s t u : extends s t → extends t u → extends s u.
Proof.
  intros (Hc & Hd & Hp) (Hc' & Hd' & Hp'). split; [lia|]. split; [|eauto].
  intros i d H. destruct (Hd i d H) as (d1 & H1 & S1), (Hd' i d1 H1) as (d2 & H2 & S2). exists d2. split; [done|].
  unfold same_device in *. intuition congruence.
Qed.

Lemma wf_device_mono s s' d d' : extends s s' → same_device d d' → wf_device s d → wf_device s' d'.
Proof.
  intros (_ & Hd & Hp) (_ & _ & Hbc & Ho & Hf) H. unfold wf_device, is_partition in *. rewrite Ho, Hbc, Hf.
  destruct (ops d) as [|id r w|[k|]]; try done.
  destruct H as (p & up & du & Hk & Hup & Hdu & (id & r & w & Hod) & Hrest).
  destruct (Hd _ _ Hdu) as (du' & Hdu' & (_ & _ & _ & Hod' & _)).
  exists p, up, du'. split; [by apply Hp|]. split; [done|]. split; [done|]. split; [|done]. exists id, r, w. congruence.
Qed.

Lemma find_name_ok s n :
  wf s → find_name n s = Some (first_index (λ d, str_equals (name d) n) (take (device_count s) (device_table s))).
Proof.
  intros Hs. unfold find_name. rewrite cells_ok; [done|]. rewrite (wf_table _ Hs). apply (wf_count _ Hs).
Qed.

Lemma device_take s i d : device s i d ↔ take (device_count s) (device_table s) !! i = Some d.
Proof.
  unfold device. destruct (decide (i < device_count s)%nat) as [Hi|Hi].
  - rewrite lookup_take_lt by done. tauto.
  - rewrite lookup_take_ge by lia. naive_solver.
Qed.

(** The device a descriptor makes. *)
Definition device_of (d : blockdev_descriptor) (n : cstring) : block_device :=
  BlockDevice (copy_name BLOCKDEV_NAME_MAX n) (if d_block_size d =? 0 then 512 else d_block_size d) (d_block_count d) (d_ops d)
    (d_flags d) false.

(** Registration fails for want of room or when the name is taken, and otherwise
    adds the device behind the others. *)
Lemma blockdev_register_ok s desc n :
  wf s → d_name desc = Some n → d_ops desc ≠ NoOps →
  if bool_decide (device_count s = BLOCKDEV_MAX_DEVICES ∨ Exists (λ d, name d = n) (take (device_count s) (device_table s)))
  then blockdev_register (Some desc) s = Some (-1, None, s)
  else ∃ s', blockdev_register (Some desc) s = Some (0, Some (device_count s), s') ∧
    device_table s' = <[device_count s := device_of desc n]> (device_table s) ∧ device_count s' = S (device_count s) ∧
    pdata s' = pdata s ∧ heap s' = heap s.
Proof.
  intros Hs Hn Ho. pose proof (wf_table _ Hs) as Ht. pose proof (wf_count _ Hs) as Hc. unfold blockdev_register. rewrite Hn.
  unfold name_in_use. rewrite (find_name_ok s n Hs). cbn [mbind option_bind].
  set (l := take (device_count s) (device_table s)).
  destruct (Nat.leb_spec BLOCKDEV_MAX_DEVICES (device_count s)) as [Hfull|Hroom].
  { rewrite bool_decide_eq_true_2 by lia. by destruct (d_ops desc). }
  destruct (first_index _ l) as [i|] eqn:E.
  - rewrite bool_decide_eq_true_2; [by destruct (d_ops desc)|]. right.
    apply first_index_Some in E as (d & Hd & Hq%bool_decide_eq_true & _). apply Exists_exists. exists d. split; [by eapply list_elem_of_lookup_2|done].
  - rewrite first_index_None in E. rewrite bool_decide_eq_false_2.
    + rewrite bool_decide_eq_false_2 by (by intros [? ?]). rewrite buf_store_ok by lia. cbn [mbind option_bind].
      destruct (d_ops desc) eqn:Eo; [done| |]; eexists; (split; [done|]); (split; [unfold device_of; by rewrite Eo|done]).
    + intros [Heq|(d & Hin & Hd)%Exists_exists]; [lia|]. apply list_elem_of_lookup_1 in Hin as [i Hi]. specialize (E i d Hi).
      apply bool_decide_eq_false in E. done.
Qed.

Lemma register_wf s desc n :
  wf s → d_name desc = Some n → wf_device s (device_of desc n) →
  returns (blockdev_register (Some desc) s) (λ '(_, _, s'), wf s' ∧ extends s s').
Proof.
  intros Hs Hn Hw. assert (Ho : d_ops desc ≠ NoOps) by (intros Ho; unfold wf_device, device_of in Hw; cbn in Hw; by rewrite Ho in Hw).
  pose proof (blockdev_register_ok s desc n Hs Hn Ho) as Hr. case_bool_decide as Hb.
  { rewrite Hr. apply returns_ret. split; [done|apply extends_refl]. }
  destruct Hr as (s' & -> & Ht & Hc & Hp & _). apply returns_ret. pose proof (wf_count _ Hs) as Hcount. pose proof (wf_table _ Hs) as Htl.
  assert (Hnf : device_count s ≠ BLOCKDEV_MAX_DEVICES) by naive_solver.
  assert (He : extends s s').
  { split; [lia|]. split; [|by rewrite Hp]. intros i d [Hi Hd]. exists d. split; [|done]. split; [lia|].
    rewrite Ht, list_lookup_insert_ne by lia. done. }
  split; [|done]. constructor; [rewrite Ht, length_insert; done|lia|].
  intros i d [Hi Hd]. rewrite Ht in Hd. destruct (decide (i = device_count s)) as [->|Hne].
  - rewrite list_lookup_insert_eq in Hd by lia. simplify_eq. by eapply wf_device_mono.
  - rewrite list_lookup_insert_ne in Hd by done. eapply wf_device_mono; [done|apply same_refl|].
    apply (wf_each _ Hs i). split; [lia|done].
Qed.

(** Adding partition data, with a heap that has moved. *)
Lemma add_pdata_ok s p h :
  wf s → let s' := BlockState (device_table s) (device_count s) (pdata s ++ p) h (block_log s) in wf s' ∧ extends s s'.
Proof.
  intros Hs s'. assert (He : extends s s').
  { split; [done|]. split; [intros i d H; by exists d|]. intros k q Hk. by apply lookup_app_l_Some. }
  split; [|done]. constructor; [apply (wf_table _ Hs)|apply (wf_count _ Hs)|].
  intros i d H. eapply wf_device_mono; [done|apply same_refl|]. by apply (wf_each _ Hs i).
Qed.

(** The entry of a boot sector. *)
Lemma mbr_entry_ok sector i :
  length sector = 512%nat → bytes sector → (i < 4)%nat →
  returns (mbr_entry sector i) (λ '(_, start, len), 0 ≤ start < 4294967296 ∧ 0 ≤ len < 4294967296).
Proof.
  intros Hl Hb Hi. unfold mbr_entry, MBR_PARTITION_TABLE, MBR_PARTITION_ENTRY_SIZE. cbv zeta.
  eapply returns_bind; [apply returns_lookup; lia|]. intros type _.
  eapply returns_bind; [apply returns_le32; [done|lia]|]. intros start Hs.
  eapply returns_bind; [apply returns_le32; [done|lia]|]. intros len Hlen. by apply returns_ret.
Qed.

(** Whatever the boot sector holds, scanning it keeps the table well formed. *)
Lemma scan_entries_ok sector dev n i k s d :
  length sector = 512%nat → bytes sector → (i + n ≤ 4)%nat → wf s → device s dev d → is_disk d →
  returns (scan_entries sector dev n i k s) (λ s', wf s' ∧ extends s s').
Proof.
  intros Hl Hb. revert i k s d. induction n as [|n IH]; intros i k s d Hi Hs Hd Hdisk; cbn [scan_entries].
  { apply returns_ret. split; [done|apply extends_refl]. }
  eapply returns_bind; [apply mbr_entry_ok; [done|done|lia]|]. intros [[type start] len] [Hst Hlen].
  destruct ((type =? 0) || (len =? 0)) eqn:E; [apply (IH _ _ _ d); try done; lia|].
  apply orb_false_iff in E as [_ Hne%Z.eqb_neq].
  destruct (Memory.kalloc (heap s) partition_data_size) as [[a|] h].
  2:{ destruct (add_pdata_ok s [] h Hs) as [Hs' He]. rewrite app_nil_r in Hs', He.
      eapply returns_mono; [apply (IH _ _ _ d); try done; lia|]. intros t [Ht Het]. split; [done|exact (extends_trans _ _ _ He Het)]. }
  rewrite (proj2 Hd). cbn [mbind option_bind]. set (p := PartitionData _ _ _).
  destruct (add_pdata_ok s [p] h Hs) as [Hs1 He1]. set (s1 := BlockState _ _ _ h _) in *.
  eapply returns_bind; [eapply (register_wf s1); [done|reflexivity|]|].
  - unfold wf_device. cbn [device_of ops d_ops]. replace (length (pdata s1) - 1)%nat with (length (pdata s))
      by (cbn; rewrite length_app; cbn; lia).
    destruct He1 as (_ & He1 & _). destruct (He1 _ _ Hd) as (du & Hdu & Hsame).
    exists p, dev, du. split; [cbn; by rewrite lookup_app_r, Nat.sub_diag by lia|]. split; [done|]. split; [done|].
    split; [destruct Hdisk as (id & r & w & Ho); exists id, r, w; destruct Hsame as (_ & _ & _ & Ho' & _); congruence|].
    split; [done|]. split; [done|]. cbn. lia.
  - intros [[r o] s2] [Hs2 He2]. pose proof (extends_trans _ _ _ He1 He2) as He. pose proof He as (Hec & Hed & Hep).
    destruct (Hed _ _ Hd) as (d2 & Hd2 & Hsame2).
    eapply returns_mono; [apply (IH _ _ _ d2); try done; [lia|]|].
    + destruct Hdisk as (id & r' & w & Ho). exists id, r', w. destruct Hsame2 as (_ & _ & _ & Ho' & _). congruence.
    + intros t [Ht Het]. split; [done|exact (extends_trans _ _ _ He Het)].
Qed.

Lemma mark_scanned_ok s i : wf s → wf (mark_scanned i s) ∧ extends s (mark_scanned i s).
Proof.
  intros Hs. set (f := fun d => BlockDevice (name d) (block_size d) (block_count d) (ops d) (flags d) true).
  assert (Hl : ∀ j d, device (mark_scanned i s) j d → ∃ d0, device s j d0 ∧ same_device d0 d).
  { intros j d [Hj Hd]. cbn in Hj, Hd. rewrite list_lookup_alter in Hd. case_decide; simplify_eq.
    - apply fmap_Some in Hd as (d0 & H0 & ->). by exists d0.
    - by exists d. }
  assert (He : extends s (mark_scanned i s)).
  { split; [done|]. split; [|done]. intros j d [Hj Hd]. exists (if decide (i = j) then f d else d).
    split; [|by case_decide]. split; [done|]. cbn. rewrite list_lookup_alter. case_decide; subst; by rewrite Hd. }
  split; [|done]. constructor; [cbn; rewrite length_alter; apply (wf_table _ Hs)|apply (wf_count _ Hs)|].
  intros j d Hj. destruct (Hl j d Hj) as (d0 & H0 & Hsame). eapply wf_device_mono; [done|done|]. by apply (wf_each _ Hs j).
Qed.

(** ** What a scan registers *)

(** The partitions of a boot sector: the first sector and the length of each used
    entry, in order. *)
Fixpoint used_entries (sector : list Z) (n i : nat) : list (Z * Z) :=
  match n with
  | O => []
  | S n' =>
      match mbr_entry sector i with
      | Some (type, start, len) =>
          (if (type =? 0) || (len =? 0) then [] else [(start, len)]) ++ used_entries sector n' (S i)
      | None => []
      end
  end.

Lemma used_entries_length sector n i : (length (used_entries sector n i) ≤ n)%nat.
Proof.
  revert i. induction n as [|n IH]; intros i; cbn [used_entries]; [done|].
  destruct (mbr_entry sector i) as [[[t a] l]|]; [|cbn; lia]. rewrite length_app. specialize (IH (S i)).
  destruct (_ || _); cbn; lia.
Qed.

(** The name of partition [k] of a disk. *)
Definition partition_name (base : cstring) (k : Z) : cstring := base ++ [112; 48 + k].

Lemma make_partition_name_short base k :
  (length base ≤ 29)%nat → 1 ≤ k ≤ 9 → make_partition_name BLOCKDEV_NAME_MAX base k = partition_name base k.
Proof.
  intros Hb Hk. unfold make_partition_name, partition_name, BLOCKDEV_NAME_MAX.
  assert (Hd : decimal k = [48 + k]).
  { assert (k = 1 ∨ k = 2 ∨ k = 3 ∨ k = 4 ∨ k = 5 ∨ k = 6 ∨ k = 7 ∨ k = 8 ∨ k = 9) as Hc by lia.
    repeat destruct Hc as [->|Hc]; try reflexivity. by subst. }
  rewrite Hd. cbn [app]. apply firstn_all2. rewrite length_app. cbn. lia.
Qed.

(** Slot [j] holds partition [k] of the disk [dev]. *)
Definition registered (s : blocks) (dev j : nat) (base : cstring) (k start len : Z) : Prop :=
  ∃ d q, device s j d ∧ name d = partition_name base k ∧ ops d = PartitionOps (Some q) ∧ block_count d = len ∧
    pdata s !! q = Some (PartitionData (Some dev) start len).

Lemma registered_mono s s' dev j base k start len :
  extends s s' → registered s dev j base k start len → registered s' dev j base k start len.
Proof.
  intros (_ & Hd & Hp) (d & q & Hj & Hn & Ho & Hb & Hq). destruct (Hd _ _ Hj) as (d' & Hj' & (Hn' & _ & Hb' & Ho' & _)).
  exists d', q. repeat split; try apply Hj'; try congruence. by apply Hp.
Qed.

Lemma kalloc_20 h :
  0 ≤ Memory.heap_ptr h → Memory.heap_ptr h + 32 ≤ Memory.heap_end →
  Memory.kalloc h partition_data_size = (Some (Memory.heap_ptr h), Memory.Heap (Memory.heap_ptr h + 32)).
Proof.
  intros H0 Hr. unfold Memory.kalloc, partition_data_size. change (20 =? 0) with false. cbv iota zeta.
  change (Memory.align_up 20 16) with 32. change Memory.heap_end with 4194304 in *.
  rewrite u32_small by lia. by rewrite (proj2 (Z.ltb_ge _ _)) by lia.
Qed.

(** Room for [n] more partitions of a disk: slots, heap and names. *)
Definition room (s : blocks) (base : cstring) (n : nat) (k : Z) : Prop :=
  (device_count s + n ≤ BLOCKDEV_MAX_DEVICES)%nat ∧
  0 ≤ Memory.heap_ptr (heap s) ∧ Memory.heap_ptr (heap s) + 32 * Z.of_nat n ≤ Memory.heap_end ∧
  (length base ≤ 29)%nat ∧ 1 ≤ k ∧ k + Z.of_nat n ≤ 10 ∧
  ∀ m i d, k ≤ m < k + Z.of_nat n → device s i d → name d ≠ partition_name base m.

(** One partition. *)
Lemma scan_one s dev d n k start len :
  wf s → device s dev d → is_disk d → block_size d = 512 → room s (name d) (S n) k → 0 ≤ start < 2 ^ 32 → 0 < len < 2 ^ 32 →
  let s0 := BlockState (device_table s) (device_count s) (pdata s ++ [PartitionData (Some dev) start len])
              (Memory.Heap (Memory.heap_ptr (heap s) + 32)) (block_log s) in
  let dsc := Descriptor (Some (partition_name (name d) k)) (block_size d) len (PartitionOps (Some (length (pdata s)))) BLOCKDEV_FLAG_PARTITION in
  ∃ s1, blockdev_register (Some dsc) s0 = Some (0, Some (device_count s), s1) ∧ wf s1 ∧ extends s s1 ∧
    device_count s1 = S (device_count s) ∧ registered s1 dev (device_count s) (name d) k start len ∧ room s1 (name d) n (k + 1).
Proof.
  intros Hs Hd Hdisk Hbs (Hslots & Hh0 & Hh & Hbase & Hk1 & Hk9 & Hfresh) Hst Hlen s0 dsc.
  destruct (add_pdata_ok s [PartitionData (Some dev) start len] (Memory.Heap (Memory.heap_ptr (heap s) + 32)) Hs) as [Hs0 He0].
  fold s0 in Hs0, He0.
  assert (Hdev : wf_device s0 (device_of dsc (partition_name (name d) k))).
  { unfold wf_device. cbn [device_of ops d_ops dsc].
    destruct He0 as (_ & Hed & _). destruct (Hed _ _ Hd) as (du & Hdu & Hsame).
    exists (PartitionData (Some dev) start len), dev, du. split; [cbn; by rewrite lookup_app_r, Nat.sub_diag by lia|].
    split; [done|]. split; [done|]. split; [|done]. destruct Hdisk as (id & r & w & Ho). exists id, r, w.
    destruct Hsame as (_ & _ & _ & Ho' & _). congruence. }
  pose proof (blockdev_register_ok s0 dsc (partition_name (name d) k) Hs0 eq_refl ltac:(done)) as Hr. cbn [device_count s0] in Hr.
  rewrite bool_decide_eq_false_2 in Hr.
  2:{ intros [Hfull|(e & He & Hn)%Exists_exists]; [lia|]. apply list_elem_of_lookup_1 in He as [i Hi].
      apply (Hfresh k i e); [lia| |done]. by apply device_take. }
  destruct Hr as (s1 & Hreg & Ht & Hc & Hp & Hheap). exists s1. split; [exact Hreg|].
  destruct (returns_eq _ _ _ (register_wf s0 dsc _ Hs0 eq_refl Hdev) Hreg) as [Hs1 He1].
  split; [done|]. split; [exact (extends_trans _ _ _ He0 He1)|]. split; [done|]. split.
  - exists (device_of dsc (partition_name (name d) k)), (length (pdata s)). split.
    { split; [cbn in *; lia|]. rewrite Ht. apply list_lookup_insert_eq. rewrite (wf_table _ Hs0). cbn in *. lia. }
    split; [cbn; unfold copy_name; apply firstn_all2; unfold partition_name, BLOCKDEV_NAME_MAX; rewrite length_app; cbn; lia|].
    do 2 (split; [done|]). rewrite Hp. cbn. by rewrite lookup_app_r, Nat.sub_diag by lia.
  - split; [lia|]. rewrite Hheap. cbn [heap s0 Memory.heap_ptr]. split; [lia|]. split; [lia|]. split; [done|]. split; [lia|]. split; [lia|].
    intros m i e Hm [Hi He]. rewrite Ht in He. rewrite Hc in Hi. destruct (decide (i = device_count s)) as [->|Hne].
    + rewrite list_lookup_insert_eq in He by (rewrite (wf_table _ Hs0); cbn in *; lia). simplify_eq. cbn.
      unfold copy_name. rewrite firstn_all2 by (unfold partition_name, BLOCKDEV_NAME_MAX; rewrite length_app; cbn; lia).
      unfold partition_name. intros [= Hx]%app_inv_head. lia.
    + rewrite list_lookup_insert_ne in He by done. apply (Hfresh m i e); [lia|]. split; [cbn in *; lia|done].
Qed.

Lemma room_less s base n k : room s base (S n) k → room s base n k.
Proof. intros (H1 & H2 & H3 & H4 & H5 & H6 & H7). split; [lia|]. repeat (split; [lia|]). intros m i d Hm. apply H7. lia. Qed.

(** With room, every used entry becomes a partition, in order. *)
Lemma scan_registers sector dev n i k s d :
  length sector = 512%nat → bytes sector → (i + n ≤ 4)%nat → wf s → device s dev d → is_disk d → block_size d = 512 → room s (name d) n k →
  returns (scan_entries sector dev n i k s) (λ s', wf s' ∧ extends s s' ∧
    let parts := used_entries sector n i in
    device_count s' = (device_count s + length parts)%nat ∧
    ∀ j start len, parts !! j = Some (start, len) → registered s' dev (device_count s + j) (name d) (k + Z.of_nat j) start len).
Proof.
  intros Hl Hb. revert i k s d. induction n as [|n IH]; intros i k s d Hi Hs Hd Hdisk Hbs Hroom; cbn [scan_entries used_entries].
  { apply returns_ret. split; [done|]. split; [apply extends_refl|]. cbn. split; [lia|done]. }
  destruct (mbr_entry_ok sector i Hl Hb) as ([[type start] len] & -> & Hst & Hlen); [lia|]. cbn [mbind option_bind].
  destruct ((type =? 0) || (len =? 0)) eqn:E; [apply (IH (S i) k s d); try done; [lia|by apply room_less]|].
  apply orb_false_iff in E as [_ Hne%Z.eqb_neq]. pose proof Hroom as (Hslots & Hh0 & Hh & Hbase & Hk1 & Hk9 & _).
  rewrite kalloc_20 by lia. rewrite (proj2 Hd). cbn [mbind option_bind]. rewrite make_partition_name_short by lia.
  destruct (scan_one s dev d n k start len) as (s1 & Hreg & Hs1 & He1 & Hc1 & Hr1 & Hroom1); try done; [lia|].
  replace (length (pdata _) - 1)%nat with (length (pdata s)) by (cbn; rewrite length_app; cbn; lia).
  rewrite Hreg. cbn [mbind option_bind]. rewrite u32_small by lia. pose proof He1 as (_ & Hed & _).
  destruct (Hed _ _ Hd) as (d1 & Hd1 & (Hn1 & Hbs1 & _ & Ho1 & _)). rewrite <- Hn1 in Hroom1.
  eapply returns_mono; [apply (IH (S i) (k + 1) s1 d1); try done; [lia| |congruence]|].
  { destruct Hdisk as (id & r & w & Ho). exists id, r, w. congruence. }
  intros s' (Hs' & He' & Hc' & Hp'). split; [done|]. split; [exact (extends_trans _ _ _ He1 He')|]. cbn [app]. split; [cbn; lia|].
  intros [|j] a l Hj; cbn in Hj.
  - simplify_eq. rewrite Nat.add_0_r, Z.add_0_r. by eapply registered_mono.
  - specialize (Hp' j a l Hj). rewrite Hn1, Hc1 in Hp'. replace (device_count s + S j)%nat with (S (device_count s) + j)%nat by lia.
    replace (k + Z.of_nat (S j)) with (k + 1 + Z.of_nat j) by lia. done.
Qed.

Section scan.
Context {W : Type} `{!DiskOps W} `{!DiskLaws W}.

(** A device that is not a partition is a disk. *)
Lemma not_partition_disk s dev d : wf s → device s dev d → is_partition d = false → is_disk d.
Proof.
  intros Hs Hd Hp. pose proof (wf_each _ Hs _ _ Hd) as Hw. unfold wf_device in Hw. unfold is_disk.
  destruct (ops d) as [|id r w|[k|]]; [done|by eauto| |done]. destruct Hw as (p & up & du & _ & _ & _ & _ & Hip & _). congruence.
Qed.

(** Whatever is on the disk, a scan returns and keeps the table well formed. *)
Lemma scan_device_ok s dev d w :
  wf s → device s dev d → returns (partition_scan_device (Some dev) w s) (λ s', wf s' ∧ extends s s').
Proof.
  intros Hs Hdev. pose proof Hdev as [Hi Hd]. assert (Hid : returns (Some s) (λ s', wf s' ∧ extends s s')).
  { apply returns_ret. split; [done|apply extends_refl]. }
  unfold partition_scan_device. rewrite Hd. cbn [mbind option_bind].
  case_match; [done|]. destruct (is_partition d) eqn:Ep; [done|]. case_match; [done|].
  pose proof (not_partition_disk s dev d Hs Hdev Ep) as (id & r & wr & Ho).
  unfold blockdev_read, IO_FUEL. cbn [read_loop]. rewrite Hd. cbn [mbind option_bind]. rewrite Ho.
  destruct (negb r); [done|]. case_match; [done|]. destruct (disk_read id 0 1 w) as [rc sector] eqn:Er. cbn [mbind option_bind].
  destruct (Z.ltb_spec rc 0) as [|Hrc]; [done|]. pose proof (disk_sized id 0 1 w) as Hsz. rewrite Er in Hsz.
  destruct (Hsz Hrc) as [Hb Hl]. cbn in Hl, Hb. unfold MBR_SIGNATURE_OFFSET.
  eapply returns_bind; [apply returns_lookup; rewrite Hl; lia|]. intros b0 _.
  eapply returns_bind; [apply returns_lookup; rewrite Hl; lia|]. intros b1 _.
  case_match; [apply returns_ret; by apply mark_scanned_ok|].
  eapply returns_bind; [by apply (scan_entries_ok sector dev 4 0 1 s d); try done; exists id, r, wr|].
  intros s1 [Hs1 He1]. apply returns_ret. destruct (mark_scanned_ok s1 dev Hs1) as [Hs2 He2].
  split; [done|exact (extends_trans _ _ _ He1 He2)].
Qed.

(** A disk that is ready to be scanned. *)
Definition unscanned (s : blocks) (dev : nat) (d : block_device) : Prop :=
  device s dev d ∧ block_size d = 512 ∧ is_partition d = false ∧ scanned_partitions d = false ∧ 0 ≤ block_count d.

(** A scan of a disk with a partition table registers its partitions.  With room
    in the device table and the heap, every used entry of the boot sector becomes,
    in order, a device named after the disk with its number, whose extent is the one
    the entry gives; the devices that were there stay. *)
Theorem partition_scan_correct s dev d id r wr w sector :
  wf s → unscanned s dev d → ops d = DiskDriver id true wr → disk_read id 0 1 w = (r, sector) → 0 ≤ r →
  sector !! 510%nat = Some 0x55 → sector !! 511%nat = Some 0xAA → room s (name d) 4 1 →
  ∃ s', partition_scan_device (Some dev) w s = Some s' ∧ wf s' ∧ extends s s' ∧
    device_count s' = (device_count s + length (used_entries sector 4 0))%nat ∧
    ∀ j start len, used_entries sector 4 0 !! j = Some (start, len) →
      partition_of s' (device_count s + j) (Extent id true wr (block_count d) start len) ∧
      registered s' dev (device_count s + j) (name d) (1 + Z.of_nat j) start len.
Proof.
  intros Hs ([Hi Hd] & Hbs & Hnp & Hsc & Hbc) Ho Hread Hr H510 H511 Hroom.
  pose proof (disk_sized id 0 1 w) as Hsz. rewrite Hread in Hsz. destruct (Hsz Hr) as [Hb Hl]. cbn in Hl.
  unfold partition_scan_device. rewrite Hd. cbn [mbind option_bind]. rewrite Hbs, Z.eqb_refl, Hnp, Hsc. cbn [negb].
  unfold blockdev_read, IO_FUEL. cbn [read_loop]. rewrite Hd. cbn [mbind option_bind]. rewrite Ho. cbn [negb].
  assert (Hg : (op_guard d 0 1 <? 0) = false).
  { rewrite guard_ok by lia. apply negb_false_iff. apply orb_true_iff. destruct (Z.eqb_spec (block_count d) 0); [by left|right]. apply Z.leb_le. lia. }
  rewrite Hg, Hread. cbn [mbind option_bind]. unfold MBR_SIGNATURE_OFFSET.
  rewrite (proj2 (Z.ltb_ge r 0)), H510 by done. cbn [mbind option_bind]. rewrite H511. cbn [mbind option_bind]. rewrite !Z.eqb_refl. cbn [negb orb].
  destruct (scan_registers sector dev 4 0 1 s d) as (s1 & Hscan & Hs1 & He1 & Hc1 & Hp1); try done; [by exists id, true, wr|].
  unfold MBR_PARTITION_COUNT. rewrite Hscan. cbn [mbind option_bind]. destruct (mark_scanned_ok s1 dev Hs1) as [Hs2 He2].
  eexists. split; [done|]. split; [done|]. pose proof (extends_trans _ _ _ He1 He2) as He. split; [done|]. split; [exact Hc1|].
  intros j start len Hj. pose proof (registered_mono _ _ _ _ _ _ _ _ He2 (Hp1 j start len Hj)) as Hreg. split; [|done].
  destruct Hreg as (dj & q & Hdj & Hn & Hoj & Hbj & Hq). pose proof (wf_each _ Hs2 _ _ Hdj) as Hw. unfold wf_device in Hw.
  rewrite Hoj in Hw. destruct Hw as (p & up & du & Hp & _ & _ & _ & _ & _ & Hst & Hlen).
  rewrite Hq in Hp. injection Hp as <-. cbn in Hst, Hlen.
  pose proof He as (_ & Hed & _). destruct (Hed dev d (conj Hi Hd)) as (dd & [_ Hdd] & (_ & _ & Hbd & Hod & _)).
  exists dj, q, (PartitionData (Some dev) start len), dev, dd. cbn. rewrite Hod, Hbd. repeat (split; [first [apply Hdj | done]|]). done.
Qed.

End scan.

End BlockProps.
