(* ===== verification/BlockVolumes.v ===== *)
(** Volumes: every partition gets one, with a name of its own; what removing a
    device does to partitions; a concrete disk. *)

From S2P Require Import Prelude Arrays Memory Bytes Block BlockProps.

Module BlockVolumes.

Import Arrays Bytes Block BlockProps.

(** ** Decimal names *)

Definition undigits (l : cstring) : Z := foldl (fun a c => a * 10 + (c - 48)) 0 l.

Lemma undigits_snoc l c : undigits (l ++ [c]) = undigits l * 10 + (c - 48).
Proof. unfold undigits. by rewrite foldl_app. Qed.

Lemma undigits_digits n v : 0 ≤ v < 10 ^ Z.of_nat n → undigits (digits n v) = v.
Proof.
  revert v. induction n as [|n IH]; intros v Hv; cbn [digits]; [cbn in *; lia|].
  destruct (Z.leb_spec v 0); [cbn; lia|]. rewrite undigits_snoc, IH.
  - pose proof (Z.div_mod v 10). lia.
  - rewrite Nat2Z.inj_succ, Z.pow_succ_r in Hv by lia. split; [apply Z.div_pos; lia|apply Z.div_lt_upper_bound; lia].
Qed.

Lemma digits_length k n v : v < 10 ^ Z.of_nat k → (length (digits n v) ≤ k)%nat.
Proof.
  revert k v. induction n as [|n IH]; intros k v Hv; cbn [digits]; [cbn; lia|].
  destruct (Z.leb_spec v 0); [cbn; lia|]. destruct k as [|k]; [cbn in Hv; lia|].
  rewrite length_app. cbn [length]. rewrite Nat2Z.inj_succ, Z.pow_succ_r in Hv by lia.
  specialize (IH k (v / 10) ltac:(apply Z.div_lt_upper_bound; lia)). lia.
Qed.

Lemma decimal_inj v v' : 0 ≤ v < 2 ^ 32 → 0 ≤ v' < 2 ^ 32 → decimal v = decimal v' → v = v'.
Proof.
  assert (Hu : ∀ x, 0 ≤ x < 2 ^ 32 → undigits (decimal x) = x).
  { intros x Hx. unfold decimal. destruct (Z.eqb_spec x 0) as [->|]; [done|]. apply undigits_digits. cbn. lia. }
  intros Hv Hv' He. rewrite <- (Hu v), <- (Hu v'), He by done. done.
Qed.

(** Below a thousand the name is not cut. *)
Lemma volume_name_short v : 0 ≤ v < 1000 → format_volume_name VOLMGR_NAME_MAX v = lit "Disk" ++ decimal v.
Proof.
  intros Hv. unfold format_volume_name, VOLMGR_NAME_MAX. apply firstn_all2. rewrite length_app.
  assert (Hl : (length (decimal v) ≤ 3)%nat); [|cbn; lia]. unfold decimal. destruct (Z.eqb_spec v 0); [cbn; lia|].
  apply digits_length. cbn. lia.
Qed.

Lemma volume_name_inj v v' :
  0 ≤ v < 1000 → 0 ≤ v' < 1000 → format_volume_name VOLMGR_NAME_MAX v = format_volume_name VOLMGR_NAME_MAX v' → v = v'.
Proof.
  intros Hv Hv'. rewrite !volume_name_short by done. intros H%app_inv_head. apply decimal_inj; [lia|lia|done].
Qed.

(** ** The volume table *)

Definition used (v : volmgr) (i : nat) (r : volume_record) : Prop := volume_table v !! i = Some r ∧ v_used r = true.

Record vol_wf (v : volmgr) : Prop := {
  vw_length : length (volume_table v) = VOLMGR_MAX_VOLUMES;
  vw_next : next_index v = Z.of_nat (volmgr_volume_count v);
  vw_each : ∀ i r, used v i r → (∃ dev, v_device r = Some dev ∧ (dev < BLOCKDEV_MAX_DEVICES)%nat) ∧
    0 ≤ v_index r < next_index v ∧ v_name r = format_volume_name VOLMGR_NAME_MAX (v_index r) ∧
    v_mount_path r = format_mount_path VFS_MAX_PATH (v_name r);
  vw_device : ∀ i j r q, used v i r → used v j q → v_device r = v_device q → i = j;
  vw_index : ∀ i j r q, used v i r → used v j q → v_index r = v_index q → i = j
}.

Lemma count_bound v : vol_wf v → (volmgr_volume_count v ≤ 16)%nat.
Proof.
  intros Hv. unfold volmgr_volume_count. pose proof (length_filter (fun r => v_used r = true) (volume_table v)) as H.
  rewrite (vw_length _ Hv) in H. exact H.
Qed.

Lemma reset_table_wf v : length (volume_table v) = VOLMGR_MAX_VOLUMES → vol_wf (reset_table v).
Proof.
  intros Hl. unfold reset_table. rewrite Hl.
  assert (Hn : ∀ i r, ¬ used (VolState (replicate VOLMGR_MAX_VOLUMES empty_volume) 0 (vol_log v)) i r).
  { intros i r [Hi Hu]. cbn [volume_table] in Hi. apply lookup_replicate in Hi as [-> _]. done. }
  constructor; try (intros; exfalso; by eapply Hn); [apply length_replicate|done].
Qed.

(** Filling a free slot. *)
Lemma count_insert (l : list volume_record) i r0 r :
  l !! i = Some r0 → v_used r0 = false → v_used r = true →
  length (filter (fun r => v_used r = true) (<[i := r]> l)) = S (length (filter (fun r => v_used r = true) l)).
Proof.
  revert i. induction l as [|x l IH]; intros [|i] Hi H0 Hr; cbn in Hi; simplify_eq; cbn [insert list_insert].
  - rewrite filter_cons_True, filter_cons_False by (done || by rewrite H0). done.
  - change (length (filter (fun r => v_used r = true) (x :: <[i := r]> l)) = S (length (filter (fun r => v_used r = true) (x :: l)))).
    rewrite !filter_cons. specialize (IH i Hi H0 Hr). case_decide; cbn; by rewrite IH.
Qed.

Lemma attach_slot_ok v i r0 dev :
  vol_wf v → volume_table v !! i = Some r0 → v_used r0 = false → (dev < BLOCKDEV_MAX_DEVICES)%nat →
  (∀ j r, used v j r → v_device r ≠ Some dev) →
  let n := format_volume_name VOLMGR_NAME_MAX (next_index v) in
  vol_wf (VolState (<[i := VolumeRecord true n (format_mount_path VFS_MAX_PATH n) (Some dev) (next_index v)]> (volume_table v))
            (next_index v +32 1) (vol_log v ++ [lit "volmgr: volume attached"])).
Proof.
  intros Hv Hi H0 Hdev Hnew n. set (r1 := VolumeRecord _ _ _ _ _). set (v' := VolState _ _ _).
  apply lookup_lt_Some in Hi as Hlt. pose proof (count_bound v Hv) as Hcb. pose proof (vw_next _ Hv) as Hnx.
  assert (Hc : volmgr_volume_count v' = S (volmgr_volume_count v)) by (unfold volmgr_volume_count; cbn; by eapply count_insert).
  assert (Hn' : next_index v' = next_index v + 1) by (cbn; rewrite u32_small by lia; done).
  assert (Hu : ∀ j r, used v' j r → (j = i ∧ r = r1) ∨ (j ≠ i ∧ used v j r)).
  { intros j r [Hj Hr]. cbn in Hj. destruct (decide (j = i)) as [->|Hne].
    - rewrite list_lookup_insert_eq in Hj by done. left. split; [done|congruence].
    - rewrite list_lookup_insert_ne in Hj by done. right. done. }
  constructor.
  - cbn. rewrite length_insert. apply (vw_length _ Hv).
  - rewrite Hc, Hn', Hnx. lia.
  - intros j r [[-> ->]|[_ Hr]]%Hu.
    + split; [by exists dev|]. split; [rewrite Hn'; cbn; lia|]. done.
    + destruct (vw_each _ Hv j r Hr) as (Hd & Hx & Hnm & Hm). split; [done|]. split; [rewrite Hn'; lia|done].
  - intros j k r q [[-> ->]|[Hj Hr]]%Hu [[-> ->]|[Hk Hq]]%Hu He; try done.
    + exfalso. eapply Hnew; [exact Hq|]. by rewrite <- He.
    + exfalso. eapply Hnew; [exact Hr|]. by rewrite He.
    + by eapply (vw_device _ Hv).
  - intros j k r q [[-> ->]|[Hj Hr]]%Hu [[-> ->]|[Hk Hq]]%Hu He; try done.
    + destruct (vw_each _ Hv k q Hq) as (_ & Hx & _). cbn in He. lia.
    + destruct (vw_each _ Hv j r Hr) as (_ & Hx & _). cbn in He. lia.
    + by eapply (vw_index _ Hv).
Qed.

(** When every slot is taken, every device has a volume. *)
Lemma full_table v dev :
  vol_wf v → allocate_slot v = None → (dev < BLOCKDEV_MAX_DEVICES)%nat → ∃ i r, used v i r ∧ v_device r = Some dev.
Proof.
  intros Hv Hn Hdev. unfold allocate_slot in Hn. rewrite first_index_None in Hn.
  assert (Hu : ∀ i r, volume_table v !! i = Some r → used v i r).
  { intros i r Hi. split; [done|]. specialize (Hn i r Hi). by apply negb_false_iff in Hn. }
  set (devs := omap v_device (volume_table v)).
  assert (Hlook : ∀ i, devs !! i = volume_table v !! i ≫= v_device).
  { unfold devs. intros i. assert (Hall : ∀ r, r ∈ volume_table v → is_Some (v_device r)).
    { intros r [j Hj]%list_elem_of_lookup_1. destruct (vw_each _ Hv j r (Hu j r Hj)) as ((d & Hd & _) & _). eauto. }
    clear -Hall. revert i. induction (volume_table v) as [|x l IH]; intros i; [done|].
    destruct (Hall x) as [d Hd]; [constructor|]. cbn. rewrite Hd. destruct i as [|i]; cbn; [done|]. apply IH. intros r Hr. apply Hall. by constructor. }
  assert (Hlen : length devs = 16%nat).
  { pose proof (vw_length _ Hv) as Hl. unfold VOLMGR_MAX_VOLUMES in Hl.
    assert (is_Some (devs !! 15%nat) ∧ devs !! 16%nat = None) as [H1%lookup_lt_is_Some H2%lookup_ge_None]; [|lia].
    rewrite !Hlook. split.
    - destruct (lookup_lt_is_Some_2 (volume_table v) 15) as [r Hr]; [lia|]. rewrite Hr. cbn.
      destruct (vw_each _ Hv 15 r (Hu 15%nat r Hr)) as ((d & Hd & _) & _). eauto.
    - by rewrite lookup_ge_None_2 by lia. }
  assert (Hnd : NoDup devs).
  { apply NoDup_alt. intros i j d Hi Hj. rewrite Hlook in Hi, Hj. apply bind_Some in Hi as (r & Hr & Hdr), Hj as (q & Hq & Hdq).
    eapply (vw_device _ Hv i j r q); eauto. congruence. }
  assert (Hsub : devs ⊆+ seq 0 16).
  { apply NoDup_submseteq; [done|]. intros d [i Hi]%list_elem_of_lookup_1. rewrite Hlook in Hi. apply bind_Some in Hi as (r & Hr & Hd).
    destruct (vw_each _ Hv i r (Hu i r Hr)) as ((d' & Hd' & Hlt) & _). unfold BLOCKDEV_MAX_DEVICES in *. apply elem_of_seq. simplify_eq. lia. }
  assert (Hp : devs ≡ₚ seq 0 16) by (apply submseteq_length_Permutation; [done|rewrite Hlen; done]).
  assert (Hin : dev ∈ devs) by (rewrite Hp; apply elem_of_seq; unfold BLOCKDEV_MAX_DEVICES in *; lia).
  apply list_elem_of_lookup_1 in Hin as [i Hi]. rewrite Hlook in Hi. apply bind_Some in Hi as (r & Hr & Hd). eauto.
Qed.

Definition has_volume (v : volmgr) (dev : nat) : Prop := ∃ i r, used v i r ∧ v_device r = Some dev.

(** Attaching a device: a partition has a volume afterwards, volumes that were there
    stay as they are. *)
Lemma attach_device_ok s dev d v :
  BlockProps.wf s → device s dev d → vol_wf v →
  returns (attach_device s dev v) (λ v', vol_wf v' ∧ (is_partition d = true → has_volume v' dev) ∧
    (∀ i r, used v i r → used v' i r) ∧ (has_volume v dev ∨ is_partition d = false → v' = v)).
Proof.
  intros Hs [Hi Hd] Hv. unfold attach_device. rewrite Hd. cbn [mbind option_bind].
  assert (Hlt : (dev < BLOCKDEV_MAX_DEVICES)%nat) by (pose proof (wf_count _ Hs); lia).
  destruct (is_partition d) eqn:Ep; cbn [negb]; [|apply returns_ret; naive_solver].
  unfold find_by_device. destruct (first_index _ (volume_table v)) as [i|] eqn:E.
  - apply returns_ret. split; [done|]. split; [|done]. intros _.
    apply first_index_Some in E as (r & Hr & Ht & _). bool_prop. by exists i, r.
  - rewrite first_index_None in E.
    assert (Hnew : ∀ j r, used v j r → v_device r ≠ Some dev).
    { intros j r [Hj Hu] He. specialize (E j r Hj). rewrite Hu, bool_decide_eq_true_2 in E; done. }
    destruct (allocate_slot v) as [i|] eqn:Ea.
    + pose proof Ea as Ea'. apply first_index_Some in Ea as (r0 & Hr0 & Hu0%negb_true_iff & _).
      pose proof (attach_slot_ok v i r0 dev Hv Hr0 Hu0 Hlt Hnew) as Hv'. apply returns_ret. split; [exact Hv'|]. split; [|split].
      * intros _. eexists i, _. split; [split; [cbn; apply list_lookup_insert_eq; by eapply lookup_lt_Some|]|]; done.
      * intros j r [Hj Hu]. split; [|done]. cbn. rewrite list_lookup_insert_ne; [done|]. intros <-. congruence.
      * intros [(j & r & Hr & Hdr)|]; [|done]. exfalso. by eapply Hnew.
    + destruct (full_table v dev Hv Ea Hlt) as (i & r & Hu & Hdr). exfalso. by eapply Hnew.
Qed.

Lemma attach_all_ok s l v :
  BlockProps.wf s → (∀ i, i ∈ l → ∃ d, device s i d) → vol_wf v →
  returns (attach_all s l v) (λ v', vol_wf v' ∧ (∀ i d, i ∈ l → device s i d → is_partition d = true → has_volume v' i) ∧
    (∀ i r, used v i r → used v' i r) ∧ ((∀ i d, i ∈ l → device s i d → is_partition d = true → has_volume v i) → v' = v)).
Proof.
  intros Hs. revert v. induction l as [|i l IH]; intros v Hl Hv; cbn [attach_all].
  { apply returns_ret. split; [done|]. split; [by intros ? ? ?%elem_of_nil|done]. }
  destruct (Hl i) as [d Hd]; [constructor|].
  eapply returns_bind; [by apply (attach_device_ok s i d)|]. intros v1 (Hv1 & Hh1 & Hk1 & Hid1).
  eapply returns_mono; [apply IH; [|done]; intros j Hj; apply Hl; by constructor|]. intros v2 (Hv2 & Hh2 & Hk2 & Hid2).
  split; [done|]. split; [|split].
  - intros j e Hj He Hp. apply elem_of_cons in Hj as [->|Hj]; [|by eapply Hh2].
    destruct He as [_ He], Hd as [Hd1 Hd2]. simplify_eq. destruct (Hh1 Hp) as (k & r & Hr & Hdr). exists k, r. split; [by apply Hk2|done].
  - intros j r Hr. by apply Hk2, Hk1.
  - intros Hall. assert (v1 = v) as ->.
    { apply Hid1. destruct (is_partition d) eqn:Ep; [left|by right]. eapply Hall; [constructor|done|done]. }
    apply Hid2. intros j e Hj. apply Hall. by constructor.
Qed.

(** Volumes.  A rescan gives every partition exactly one volume, keeps the
    volumes that were there, and does nothing more when it is repeated; the names
    are distinct and a volume is found by its name. *)
Theorem volumes_correct s v :
  BlockProps.wf s → vol_wf v →
  ∃ v', volmgr_rescan s v = Some v' ∧ vol_wf v' ∧ volmgr_rescan s v' = Some v' ∧
    (∀ i r, used v i r → used v' i r) ∧
    (∀ dev d, device s dev d → is_partition d = true →
       ∃ i r, used v' i r ∧ v_device r = Some dev ∧ ∀ j q, used v' j q → v_device q = Some dev → j = i) ∧
    (∀ i r, used v' i r → volmgr_find_device (Some (v_name r)) v' = v_device r).
Proof.
  intros Hs Hv.
  assert (Hl : ∀ i, i ∈ blockdev_enumerate BLOCKDEV_MAX_DEVICES s → ∃ d, device s i d).
  { intros i Hi. apply elem_of_seq in Hi as [_ Hi]. pose proof (wf_table _ Hs). pose proof (wf_count _ Hs).
    destruct (lookup_lt_is_Some_2 (device_table s) i) as [d Hd]; [lia|]. exists d. split; [lia|done]. }
  assert (Hin : ∀ i d, device s i d → i ∈ blockdev_enumerate BLOCKDEV_MAX_DEVICES s).
  { intros i d [Hi _]. apply elem_of_seq. pose proof (wf_count _ Hs). lia. }
  destruct (attach_all_ok s _ v Hs Hl Hv) as (v' & Hr & Hv' & Hh & Hk & _). exists v'. split; [done|]. split; [done|]. split; [|split; [done|split]].
  - destruct (attach_all_ok s _ v' Hs Hl Hv') as (v2 & Hr2 & _ & _ & _ & Hid). unfold volmgr_rescan. rewrite Hr2. f_equal. by apply Hid.
  - intros dev d Hd Hp. destruct (Hh dev d (Hin _ _ Hd) Hd Hp) as (i & r & Hu & Hdr). exists i, r. split; [done|]. split; [done|].
    intros j q Hq Hdq. eapply (vw_device _ Hv'); eauto. congruence.
  - intros i r Hu. cbn [volmgr_find_device mbind option_bind]. rewrite (first_index_unique _ _ i r (proj1 Hu)).
    + cbn. by rewrite (proj1 Hu).
    + rewrite (proj2 Hu). by apply bool_decide_eq_true_2.
    + intros j q Hj Ht. apply andb_true_iff in Ht as [Hq Hn%bool_decide_eq_true].
      destruct (vw_each _ Hv' i r Hu) as (_ & Hxr & Hnr & _). destruct (vw_each _ Hv' j q (conj Hj Hq)) as (_ & Hxq & Hnq & _).
      pose proof (count_bound v' Hv'). pose proof (vw_next _ Hv').
      apply (vw_index _ Hv' j i q r); [done|done|]. apply volume_name_inj; [lia|lia|congruence].
Qed.

(** ** Removing a device *)

Lemma remove_at_lookup {A} (l : list A) i j : (i ≤ j)%nat → remove_at i l !! j = l !! S j.
Proof.
  revert i j. induction l as [|x l IH]; intros [|i] j Hij; cbn [remove_at]; try done.
  destruct j as [|j]; [lia|]. cbn. apply IH. lia.
Qed.

(** Removing a device moves the devices behind it down by one slot, but
    partitions keep the slot number of their disk.  A partition whose disk lies
    behind the device removed becomes a window on the disk in the next slot. *)
Theorem unregister_redirects s n i up q base k start len du id r w :
  BlockProps.wf s → find_name n s = Some (Some i) → registered s up q base k start len →
  (i < up)%nat → (i < q)%nat → device s (S up) du → ops du = DiskDriver id r w →
  ∃ s', blockdev_unregister (Some n) s = Some (0, s') ∧ partition_of s' (q - 1) (Extent id r w (block_count du) start len).
Proof.
  intros Hs Hf (d & k' & [Hq Hd] & Hn & Ho & Hb & Hp) Hi Hiq [Hup Hdu] Hod.
  pose proof (wf_table _ Hs) as Ht. pose proof (wf_count _ Hs) as Hc. cbn [blockdev_unregister]. rewrite Hf. cbn [mbind option_bind].
  destruct (arr_remove_ok zero_device i (device_count s) (device_table s)) as (t & -> & Hl & Hrem & _); [lia|lia|].
  cbn [mbind option_bind]. eexists. split; [done|].
  assert (Hlook : ∀ j, (i ≤ j)%nat → (S j < device_count s)%nat → t !! j = device_table s !! S j).
  { intros j Hij Hj. rewrite <- (lookup_take_lt t (device_count s - 1)) by lia. rewrite Hrem, remove_at_lookup by done.
    by rewrite lookup_take_lt. }
  pose proof (wf_each _ Hs q d (conj Hq Hd)) as Hw. unfold wf_device in Hw. rewrite Ho in Hw.
  destruct Hw as (p & up' & du' & Hpk & _ & _ & _ & _ & _ & Hst & Hlen). rewrite Hp in Hpk. injection Hpk as <-. cbn in Hst, Hlen.
  exists d, k', (PartitionData (Some up) start len), up, du. cbn [device_table pdata set_table x_disk x_read x_write x_size x_start x_length].
  rewrite !Hlook by lia. replace (S (q - 1)) with q by lia. repeat (split; [done|]). done.
Qed.

(** ** A disk *)

(** Bytes by disk, sector and offset. *)
Definition ram_disks : Type := nat → Z → Z → Z.

#[export] Instance ram_disk_ops : DiskOps ram_disks := {
  disk_read id lba count w := (0, (λ k, u8 (w id (lba + Z.of_nat k / 512) (Z.of_nat k mod 512))) <$> seq 0 (Z.to_nat (count * 512)));
  disk_write id lba count buf w := (0, λ id' l j,
    if bool_decide (id' = id ∧ lba ≤ l < lba + count) then nth (Z.to_nat ((l - lba) * 512 + j)) buf 0 else w id' l j)
}.

#[export] Instance ram_disk_laws : DiskLaws ram_disks.
Proof.
  split.
  - intros id lba count buf w id' lba' count' Hd. cbn [disk_read disk_write ram_disk_ops snd]. f_equal.
    apply list_fmap_ext. intros i k Hk. apply lookup_seq in Hk as [-> Hk]. cbn [Nat.add]. f_equal.
    rewrite bool_decide_eq_false_2; [done|]. intros [-> Hl].
    pose proof (Z.div_pos (Z.of_nat i) 512 ltac:(lia) ltac:(lia)).
    pose proof (Z.div_lt_upper_bound (Z.of_nat i) 512 count' ltac:(lia) ltac:(lia)). destruct Hd as [Hd|Hd]; [done|lia].
  - intros id lba count buf w _ Hl Hb. cbn [disk_read disk_write ram_disk_ops snd]. rewrite <- Hl.
    apply list_eq_same_length with (n := length buf); [done|by rewrite length_fmap, length_seq|].
    intros i x y Hi Hx Hy. rewrite list_lookup_fmap, lookup_seq_lt in Hx by done. cbn [Nat.add fmap option_fmap option_map] in Hx.
    apply (inj Some) in Hx as <-. pose proof (Z.div_mod (Z.of_nat i) 512 ltac:(lia)).
    pose proof (Z.div_pos (Z.of_nat i) 512 ltac:(lia) ltac:(lia)).
    pose proof (Z.div_lt_upper_bound (Z.of_nat i) 512 count ltac:(lia) ltac:(lia)).
    rewrite bool_decide_eq_true_2 by (split; [done|lia]).
    replace (Z.to_nat ((lba + Z.of_nat i / 512 - lba) * 512 + Z.of_nat i mod 512)) with i by lia.
    rewrite (nth_lookup_Some _ _ _ _ Hy). apply u8_small. by apply (bytes_lookup buf i).
  - intros id lba count w _. cbn [disk_read ram_disk_ops snd]. split; [|by rewrite length_fmap, length_seq].
    apply Forall_fmap, Forall_true. intros k. apply u8_range.
Qed.

End BlockVolumes.
