(* ===== verification/Fat.v ===== *)
(** The FAT file system (kernel/fatfs.c) on a volume image in memory: the file
    allocation table, clusters, directories, paths and file contents.  A pointer
    into the image is an offset.  A load or store outside the image is [None], and
    so is a walk of a chain that does not come to an end within the fuel.  The
    fields of [struct fat_dir_scan] that no code reads are left out. *)

From S2P Require Import Prelude Arrays Bytes Block.

Module Fat.

Import Arrays Bytes.

Definition FAT_ATTR_DIRECTORY : Z := 0x10.
Definition FAT_ATTR_VOLUME_ID : Z := 0x08.
Definition FAT_ATTR_LFN : Z := 0x0F.
Definition FAT_ENTRY_FREE : Z := 0xE5.
Definition FAT_ENTRY_END : Z := 0x00.
Definition FATFS_TYPE_NONE : Z := 0.
Definition FATFS_TYPE_FAT16 : Z := 16.
Definition FATFS_TYPE_FAT32 : Z := 32.
Definition VFS_MAX_PATH : nat := 128.
Definition ENTRY_SIZE : nat := 32.
Definition space : Z := 32.

Record fatfs_volume := Volume {
  base : list Z;
  size : Z;
  ready : bool;
  fat_type : Z;
  bytes_per_sector : Z;
  sectors_per_cluster : Z;
  reserved_sectors : Z;
  fat_count : Z;
  sectors_per_fat : Z;
  total_sectors : Z;
  data_start_sector : Z;
  total_clusters : Z;
  root_dir_sector : Z;
  root_dir_sectors : Z;
  root_entries : Z;
  root_cluster : Z;
  mount_path : cstring;
  device : option nat;
  backing_lba : Z;
  backing_sectors : Z;
  backing_configured : bool;
  dirty : bool
}.

Definition set_base (b : list Z) (v : fatfs_volume) : fatfs_volume :=
  Volume b (size v) (ready v) (fat_type v) (bytes_per_sector v) (sectors_per_cluster v) (reserved_sectors v) (fat_count v)
    (sectors_per_fat v) (total_sectors v) (data_start_sector v) (total_clusters v) (root_dir_sector v) (root_dir_sectors v)
    (root_entries v) (root_cluster v) (mount_path v) (device v) (backing_lba v) (backing_sectors v) (backing_configured v) (dirty v).
Definition set_backing (d : option nat) (lba n : Z) (c dt : bool) (v : fatfs_volume) : fatfs_volume :=
  Volume (base v) (size v) (ready v) (fat_type v) (bytes_per_sector v) (sectors_per_cluster v) (reserved_sectors v) (fat_count v)
    (sectors_per_fat v) (total_sectors v) (data_start_sector v) (total_clusters v) (root_dir_sector v) (root_dir_sectors v)
    (root_entries v) (root_cluster v) (mount_path v) d lba n c dt.
Definition set_device (d : option nat) (v : fatfs_volume) : fatfs_volume :=
  set_backing d (backing_lba v) (backing_sectors v) (backing_configured v) (dirty v) v.
Definition set_dirty (b : bool) (v : fatfs_volume) : fatfs_volume :=
  set_backing (device v) (backing_lba v) (backing_sectors v) (backing_configured v) b v.

(** Stores into the image. *)
Definition poke (off : nat) (bs : list Z) (v : fatfs_volume) : option fatfs_volume :=
  b ← buf_copy (base v) off bs; Some (set_base b v).

Definition is_fat32 (v : fatfs_volume) : bool := fat_type v =? FATFS_TYPE_FAT32.
Definition is_fat16 (v : fatfs_volume) : bool := fat_type v =? FATFS_TYPE_FAT16.

(** ** Sectors and clusters *)

Definition fatfs_cluster_size_bytes (v : fatfs_volume) : Z := bytes_per_sector v *32 sectors_per_cluster v.

Definition fatfs_sector_ptr (v : fatfs_volume) (sector : Z) : option nat :=
  let offset := sector *32 bytes_per_sector v in
  if size v <=? offset then None else Some (Z.to_nat offset).

Definition fatfs_cluster_ptr (v : fatfs_volume) (cluster : Z) : option nat :=
  if cluster <? 2 then None
  else fatfs_sector_ptr v (data_start_sector v +32 (cluster - 2) *32 sectors_per_cluster v).

Definition fatfs_eoc_marker (v : fatfs_volume) : Z := if is_fat32 v then 0x0FFFFFF8 else 0xFFF8.

Definition fatfs_is_eoc (v : fatfs_volume) (value : Z) : bool :=
  if is_fat32 v then 0x0FFFFFF8 <=? Z.land value 0x0FFFFFFF else 0xFFF8 <=? value.

(** The byte offset of a cluster's entry in a table. *)
Definition entry_offset (v : fatfs_volume) (cluster : Z) : Z := if is_fat32 v then cluster *32 4 else cluster *32 2.

(** [None] is a load outside the image. *)
Definition fatfs_read_fat (v : fatfs_volume) (cluster : Z) : option Z :=
  if total_clusters v +32 2 <=? cluster then Some (fatfs_eoc_marker v)
  else
    let off := entry_offset v cluster in
    match fatfs_sector_ptr v (reserved_sectors v +32 off / bytes_per_sector v) with
    | None => Some (fatfs_eoc_marker v)
    | Some p =>
        let q := (p + Z.to_nat (off mod bytes_per_sector v))%nat in
        if is_fat32 v then x ← read_le32 (base v) q; Some (Z.land x 0x0FFFFFFF) else read_le16 (base v) q
    end.

(** One copy of the table. *)
Definition write_fat_copy (copy off masked : Z) (v : fatfs_volume) : option fatfs_volume :=
  match fatfs_sector_ptr v (reserved_sectors v +32 copy *32 sectors_per_fat v +32 off / bytes_per_sector v) with
  | None => Some v
  | Some p =>
      let q := (p + Z.to_nat (off mod bytes_per_sector v))%nat in
      if is_fat32 v then x ← read_le32 (base v) q; poke q (le32 (Z.lor (Z.land x 0xF0000000) masked)) v
      else poke q (le16 (Z.land masked 0xFFFF)) v
  end.

Fixpoint write_fat_copies (n : nat) (copy off masked : Z) (v : fatfs_volume) : option fatfs_volume :=
  match n with
  | O => Some v
  | S n' => v ← write_fat_copy copy off masked v; write_fat_copies n' (copy + 1) off masked v
  end.

Definition fatfs_write_fat (cluster value : Z) (v : fatfs_volume) : option fatfs_volume :=
  if total_clusters v +32 2 <=? cluster then Some v
  else
    let masked := if is_fat32 v then Z.land value 0x0FFFFFFF else value in
    write_fat_copies (Z.to_nat (fat_count v)) 0 (entry_offset v cluster) masked v.

Definition fatfs_zero_cluster (cluster : Z) (v : fatfs_volume) : option fatfs_volume :=
  match fatfs_cluster_ptr v cluster with
  | None => Some v
  | Some p => poke p (replicate (Z.to_nat (fatfs_cluster_size_bytes v)) 0) v
  end.

(** The number of clusters a chain can visit before it repeats one, and some. *)
Definition chain_fuel (v : fatfs_volume) : nat := (Z.to_nat (total_clusters v) + 3)%nat.

Fixpoint allocate_loop (n : nat) (cluster limit : Z) (v : fatfs_volume) : option (Z * fatfs_volume) :=
  if limit <? cluster then Some (0, v)
  else match n with
  | O => None
  | S n' =>
      value ← fatfs_read_fat v cluster;
      if value =? 0 then
        v ← fatfs_write_fat cluster (fatfs_eoc_marker v) v;
        v ← fatfs_zero_cluster cluster v;
        Some (cluster, v)
      else allocate_loop n' (cluster +32 1) limit v
  end.

(** The cluster, 0 when the volume is full. *)
Definition fatfs_allocate_cluster (v : fatfs_volume) : option (Z * fatfs_volume) :=
  allocate_loop (chain_fuel v) 2 (total_clusters v +32 1 +32 1) v.

Fixpoint free_loop (fuel : nat) (cluster : Z) (v : fatfs_volume) : option fatfs_volume :=
  if cluster <? 2 then Some v
  else match fuel with
  | O => None
  | S fuel' =>
      next ← fatfs_read_fat v cluster;
      v ← fatfs_write_fat cluster 0 v;
      if fatfs_is_eoc v next then Some v else free_loop fuel' next v
  end.

Definition fatfs_free_chain (start : Z) (v : fatfs_volume) : option fatfs_volume := free_loop (chain_fuel v) start v.

(** ** Directory entries *)

Definition entry_name (v : fatfs_volume) (e : nat) : option (list Z) := field (base v) e 11.
Definition entry_attr (v : fatfs_volume) (e : nat) : option Z := base v !! (e + 11)%nat.
Definition entry_file_size (v : fatfs_volume) (e : nat) : option Z := read_le32 (base v) (e + 28).

Definition fatfs_first_cluster (v : fatfs_volume) (e : nat) : option Z :=
  high ← read_le16 (base v) (e + 20); low ← read_le16 (base v) (e + 26); Some (Z.lor (Z.shiftl high 16) low).

Definition fatfs_set_first_cluster (e : nat) (cluster : Z) (v : fatfs_volume) : option fatfs_volume :=
  v ← poke (e + 20) (le16 (Z.land (Z.shiftr cluster 16) 0xFFFF)) v; poke (e + 26) (le16 (Z.land cluster 0xFFFF)) v.

Definition set_file_size (e : nat) (n : Z) (v : fatfs_volume) : option fatfs_volume := poke (e + 28) (le32 n) v.

Definition fatfs_clear_entry (e : nat) (v : fatfs_volume) : option fatfs_volume := poke e (replicate ENTRY_SIZE 0) v.

Definition fatfs_entries_per_cluster (v : fatfs_volume) : nat := Z.to_nat (fatfs_cluster_size_bytes v / 32).

(** ** Names *)

Definition fatfs_name_is_dot (n : list Z) : bool :=
  (default 0 (n !! 0%nat) =? dot) &&
  (((default 0 (n !! 1%nat) =? dot) && (default 0 (n !! 2%nat) =? space)) || (default 0 (n !! 1%nat) =? space)).

(** The characters up to the first blank. *)
Fixpoint until_space (l : list Z) : list Z :=
  match l with [] => [] | c :: l' => if c =? space then [] else c :: until_space l' end.

Definition fatfs_format_entry_name (n : list Z) : cstring :=
  let ext := take 3 (drop 8 n) in
  until_space (take 8 n) ++ if existsb (fun c => negb (c =? space)) ext then dot :: until_space ext else [].

Definition fatfs_is_valid_char (c : Z) : bool :=
  ((65 <=? c) && (c <=? 90)) || ((48 <=? c) && (c <=? 57)) || (c =? 95) || (c =? 45) || (c =? 126).

Definition fatfs_to_upper (c : Z) : Z := if (97 <=? c) && (c <=? 122) then c - 32 else c.

(** Up to [n] characters in upper case: what was taken and what is left; [None] at a
    character that is not allowed. *)
Fixpoint take_upper (n : nat) (s : cstring) : option (list Z * cstring) :=
  match n, s with
  | S n', c :: s' =>
      let u := fatfs_to_upper c in
      if negb (fatfs_is_valid_char u) then None
      else '(l, rest) ← take_upper n' s'; Some (u :: l, rest)
  | _, _ => Some ([], s)
  end.

Definition pad (n : nat) (l : list Z) : list Z := l ++ replicate (n - length l) space.

(** The index of the last dot. *)
Fixpoint last_dot (s : cstring) (i : nat) (acc : option nat) : option nat :=
  match s with [] => acc | c :: s' => last_dot s' (S i) (if c =? dot then Some i else acc) end.

(** The eleven bytes of the name; [None] is a result of 0. *)
Definition fatfs_make_short_name (segment : cstring) : option (list Z) :=
  match segment with
  | [] => None
  | _ =>
      match last_dot segment 0 None with
      | Some i =>
          '(b, rest) ← take_upper 8 (take i segment);
          if bool_decide (rest ≠ []) then None
          else
            '(x, rest) ← take_upper 3 (drop (S i) segment);
            if bool_decide (rest ≠ []) then None
            else if bool_decide (b = []) then None else Some (pad 8 b ++ pad 3 x)
      | None =>
          '(b, rest) ← take_upper 8 segment;
          if bool_decide (rest ≠ []) then None
          else if bool_decide (b = []) then None else Some (pad 8 b ++ pad 3 [])
      end
  end.

Definition fatfs_validate_path_segment (segment : cstring) : bool :=
  match segment with
  | [] => false
  | _ => forallb (fun c => (c =? dot) || fatfs_is_valid_char (fatfs_to_upper c)) segment
  end.

Definition fatfs_prepare_short_name (segment : cstring) : option (list Z) :=
  if bool_decide (segment = []) then None
  else if negb (fatfs_validate_path_segment segment) then None
  else fatfs_make_short_name segment.

(** ** Scanning a directory *)

Record fat_dir_scan := Scan { s_match : option nat; s_free : option nat; s_zero : option nat; s_last : Z }.

(** How the scan of a run of entries ends: at the end mark, at a match, or not. *)
Inductive scan_end := AtEnd (s : fat_dir_scan) | AtMatch (s : fat_dir_scan) | NotYet (s : fat_dir_scan).

(** Entries that are not files or directories. *)
Definition hidden_attr (attr : Z) : bool := (attr =? FAT_ATTR_LFN) || negb (Z.land attr FAT_ATTR_VOLUME_ID =? 0).

(** [n] entries from offset [e] on. *)
Fixpoint scan_run (v : fatfs_volume) (target : option (list Z)) (n : nat) (e : nat) (s : fat_dir_scan) : option scan_end :=
  match n with
  | O => Some (NotYet s)
  | S n' =>
      first ← base v !! e;
      if first =? FAT_ENTRY_END then
        Some (AtEnd (match s_zero s with None => Scan (s_match s) (s_free s) (Some e) (s_last s) | Some _ => s end))
      else if first =? FAT_ENTRY_FREE then
        scan_run v target n' (e + ENTRY_SIZE)
          (match s_free s with None => Scan (s_match s) (Some e) (s_zero s) (s_last s) | Some _ => s end)
      else
        attr ← entry_attr v e;
        if hidden_attr attr then scan_run v target n' (e + ENTRY_SIZE) s
        else match target, s_match s with
        | Some t, None =>
            n ← entry_name v e;
            if bool_decide (n = t) then Some (AtMatch (Scan (Some e) (s_free s) (s_zero s) (s_last s)))
            else scan_run v target n' (e + ENTRY_SIZE) s
        | _, _ => scan_run v target n' (e + ENTRY_SIZE) s
        end
  end.

Definition set_last (c : Z) (s : fat_dir_scan) : fat_dir_scan := Scan (s_match s) (s_free s) (s_zero s) c.

(** The walk along the clusters of a directory: the status and the scan. *)
Fixpoint scan_chain (fuel : nat) (v : fatfs_volume) (target : option (list Z)) (cluster prev : Z) (s : fat_dir_scan)
    (dir_cluster : Z) : option (Z * fat_dir_scan) :=
  let finish s := if s_last s =? 0 then set_last (if prev =? 0 then dir_cluster else prev) s else s in
  if cluster <? 2 then Some (0, finish s)
  else match fatfs_cluster_ptr v cluster with
  | None => Some (-1, s)
  | Some p =>
      match fuel with
      | O => None
      | S fuel' =>
          r ← scan_run v target (fatfs_entries_per_cluster v) p s;
          match r with
          | AtEnd s | AtMatch s => Some (0, set_last cluster s)
          | NotYet s =>
              next ← fatfs_read_fat v cluster;
              if fatfs_is_eoc v next then Some (0, set_last cluster s)
              else scan_chain fuel' v target next cluster s dir_cluster
          end
      end
  end.

Definition fatfs_dir_scan (v : fatfs_volume) (dir_cluster : Z) (target : option (list Z)) : option (Z * fat_dir_scan) :=
  let s := Scan None None None (if 2 <=? dir_cluster then dir_cluster else 0) in
  if (dir_cluster =? 0) && is_fat16 v then
    match fatfs_sector_ptr v (root_dir_sector v) with
    | None => Some (-1, s)
    | Some root =>
        r ← scan_run v target (Z.to_nat (root_entries v)) root s;
        Some (0, match r with AtEnd s | AtMatch s | NotYet s => s end)
    end
  else scan_chain (chain_fuel v) v target dir_cluster 0 s dir_cluster.

(** The slot for a new entry, [None] inside when there is none. *)
Definition fatfs_dir_take_slot (dir_cluster : Z) (s : fat_dir_scan) (v : fatfs_volume) : option (option nat * fatfs_volume) :=
  match s_match s, s_free s, s_zero s with
  | Some e, _, _ => Some (Some e, v)
  | None, Some e, _ => Some (Some e, v)
  | None, None, Some e => v ← poke e [FAT_ENTRY_FREE] v; Some (Some e, v)
  | None, None, None =>
      if (dir_cluster =? 0) && is_fat16 v then Some (None, v)
      else if dir_cluster <? 2 then Some (None, v)
      else
        '(new_cluster, v) ← fatfs_allocate_cluster v;
        if new_cluster =? 0 then Some (None, v)
        else
          let last := if s_last s =? 0 then dir_cluster else s_last s in
          v ← (if 2 <=? last then fatfs_write_fat last new_cluster v else Some v);
          v ← fatfs_write_fat new_cluster (fatfs_eoc_marker v) v;
          v ← fatfs_zero_cluster new_cluster v;
          Some (fatfs_cluster_ptr v new_cluster, v)
  end.

(** ** Paths *)

Fixpoint skip_slashes (s : cstring) : cstring :=
  match s with c :: s' => if c =? slash then skip_slashes s' else s | [] => [] end.

(** The characters up to a slash: [None] when they do not fit. *)
Fixpoint segment_chars (cap : nat) (s : cstring) : option (cstring * cstring) :=
  match s with
  | [] => Some ([], [])
  | c :: s' =>
      if c =? slash then Some ([], s)
      else match cap with
      | O => None
      | S cap' => '(l, rest) ← segment_chars cap' s'; Some (c :: l, rest)
      end
  end.

(** The next segment: a segment with the rest of the path, the end, or -1. *)
Inductive next_segment := Segment (seg rest : cstring) | PathEnd | TooLong.

Definition fatfs_next_path_segment (cap : nat) (cursor : cstring) : next_segment :=
  match skip_slashes cursor with
  | [] => PathEnd
  | ptr => match segment_chars (cap - 1) ptr with Some (seg, rest) => Segment seg rest | None => TooLong end
  end.

Definition root_of (v : fatfs_volume) : Z := if is_fat16 v then 0 else root_cluster v.

(** The cluster of the directory; the inner [None] is a result of -1. *)
Fixpoint resolve_loop (fuel : nat) (v : fatfs_volume) (cursor : cstring) (current : Z) : option (option Z) :=
  match fuel with
  | O => None
  | S fuel' =>
      match fatfs_next_path_segment 16 cursor with
      | PathEnd | TooLong => Some (Some current)
      | Segment seg rest =>
          let rest := match rest with c :: r => if c =? slash then r else rest | [] => rest end in
          match seg with
          | [] => resolve_loop fuel' v rest current
          | _ =>
              match fatfs_make_short_name seg with
              | None => Some None
              | Some n =>
                  '(rc, s) ← fatfs_dir_scan v current (Some n);
                  if rc <? 0 then Some None
                  else match s_match s with
                  | None => Some None
                  | Some e =>
                      attr ← entry_attr v e;
                      if Z.land attr FAT_ATTR_DIRECTORY =? 0 then Some None
                      else
                        c ← fatfs_first_cluster v e;
                        if (c =? 0) && negb (is_fat16 v) then Some None else resolve_loop fuel' v rest c
                  end
              end
          end
      end
  end.

Definition fatfs_resolve_directory (v : fatfs_volume) (path : cstring) : option (option Z) :=
  match path with
  | [] => Some (Some (root_of v))
  | _ => resolve_loop (S (length path)) v path (root_of v)
  end.

(** The index of the last slash. *)
Fixpoint last_slash (s : cstring) (i : nat) (acc : option nat) : option nat :=
  match s with [] => acc | c :: s' => last_slash s' (S i) (if c =? slash then Some i else acc) end.

(** The parent's cluster and the leaf name, which has to fit [cap]; -1 is [None]. *)
Definition fatfs_resolve_parent (v : fatfs_volume) (path : cstring) (cap : nat) : option (option (Z * cstring)) :=
  let leaf_fits (leaf : cstring) := (length leaf <? cap)%nat in
  match last_slash path 0 None with
  | None => Some (if leaf_fits path then Some (root_of v, path) else None)
  | Some i =>
      if (128 <=? i)%nat then Some None
      else
        r ← fatfs_resolve_directory v (take i path);
        match r with
        | None => Some None
        | Some c => let leaf := drop (S i) path in Some (if leaf_fits leaf then Some (c, leaf) else None)
        end
  end.

(** ** Opening a volume *)

(** What [fatfs_init] leaves in the volume, and the type it returns. *)
Definition fatfs_init (image : option (list Z)) (sz : Z) (v : fatfs_volume) : option (Z * fatfs_volume) :=
  match image with
  | None => Some (FATFS_TYPE_NONE, v)
  | Some boot =>
      if sz <? 512 then Some (FATFS_TYPE_NONE, v)
      else
        bps ← read_le16 boot 11; spc ← boot !! 13%nat; reserved ← read_le16 boot 14; fats ← boot !! 16%nat;
        root ← read_le16 boot 17; total16 ← read_le16 boot 19; total32 ← read_le32 boot 32;
        spf16 ← read_le16 boot 22; spf32 ← read_le32 boot 36; root32 ← read_le32 boot 44;
        let total := if total16 =? 0 then total32 else total16 in
        let spf := if spf16 =? 0 then spf32 else spf16 in
        let mk rdy type dss tc rds rdsn ents rc mp :=
          Volume boot sz rdy type bps spc reserved fats spf total dss tc rds rdsn ents rc mp None 0 0 false false in
        if (bps =? 0) || (spc =? 0) || (fats =? 0) then
          Some (FATFS_TYPE_NONE, mk false FATFS_TYPE_NONE (data_start_sector v) (total_clusters v) (root_dir_sector v)
                                   (root_dir_sectors v) root (root_cluster v) (mount_path v))
        else
          let rdsn := (root *32 32 +32 bps -32 1) / bps in
          let fat_area := fats *32 spf in
          let data_sectors := total -32 (reserved +32 fat_area +32 rdsn) in
          if s32 data_sectors <? 0 then
            Some (FATFS_TYPE_NONE, mk false FATFS_TYPE_NONE (data_start_sector v) (total_clusters v) (root_dir_sector v)
                                     rdsn root (root_cluster v) (mount_path v))
          else
            let clusters := data_sectors / spc in
            if clusters =? 0 then
              Some (FATFS_TYPE_NONE, mk false FATFS_TYPE_NONE (data_start_sector v) clusters (root_dir_sector v)
                                       rdsn root (root_cluster v) (mount_path v))
            else if clusters <? 65525 then
              let rds := reserved +32 fat_area in
              Some (FATFS_TYPE_FAT16, mk true FATFS_TYPE_FAT16 (rds +32 rdsn) clusters rds rdsn root 0 [])
            else
              Some (FATFS_TYPE_FAT32, mk true FATFS_TYPE_FAT32 (reserved +32 fat_area) clusters 0 0 0 (if root32 <? 2 then 2 else root32) [])
  end.

Definition fatfs_ready (v : fatfs_volume) : bool := ready v.
Definition fatfs_type (v : fatfs_volume) : Z := if ready v then fat_type v else FATFS_TYPE_NONE.

Definition fatfs_bind_backing (lba count : Z) (v : fatfs_volume) : fatfs_volume := set_backing None lba count (0 <? count) false v.
Definition fatfs_mark_dirty (v : fatfs_volume) : fatfs_volume := set_dirty true v.

(** ** Listing *)

(** A buffer being filled: its bytes and [written]. *)
Record out_buffer := Out { o_buf : list Z; o_written : nat }.

Definition out (l : list Z) (o : out_buffer) : option out_buffer :=
  b ← buf_copy (o_buf o) (o_written o) l; Some (Out b (o_written o + length l)).

(** How the listing of a run of entries ends. *)
Inductive list_end := ListDone (o : out_buffer) | ListFull (o : out_buffer) | ListMore (o : out_buffer).

Fixpoint list_run (v : fatfs_volume) (n : nat) (e : nat) (buffer_size : nat) (o : out_buffer) : option list_end :=
  match n with
  | O => Some (ListMore o)
  | S n' =>
      first ← base v !! e;
      if first =? FAT_ENTRY_END then Some (ListDone o)
      else if first =? FAT_ENTRY_FREE then list_run v n' (e + ENTRY_SIZE) buffer_size o
      else
        attr ← entry_attr v e;
        if hidden_attr attr then list_run v n' (e + ENTRY_SIZE) buffer_size o
        else
          n ← entry_name v e;
          if fatfs_name_is_dot n then list_run v n' (e + ENTRY_SIZE) buffer_size o
          else
            let text := fatfs_format_entry_name n in
            let line := text ++ (if Z.land attr FAT_ATTR_DIRECTORY =? 0 then [newline] else [slash; newline]) in
            if (buffer_size - o_written o <=? length line)%nat then Some (ListFull o)
            else o ← out line o; list_run v n' (e + ENTRY_SIZE) buffer_size o
  end.

Fixpoint list_chain (fuel : nat) (v : fatfs_volume) (cluster : Z) (buffer_size : nat) (o : out_buffer) : option out_buffer :=
  if cluster <? 2 then Some o
  else match fatfs_cluster_ptr v cluster with
  | None => Some o
  | Some p =>
      match fuel with
      | O => None
      | S fuel' =>
          r ← list_run v (fatfs_entries_per_cluster v) p buffer_size o;
          match r with
          | ListDone o | ListFull o => Some o
          | ListMore o =>
              next ← fatfs_read_fat v cluster;
              if fatfs_is_eoc v next then Some o else list_chain fuel' v next buffer_size o
          end
      end
  end.

(** The lines after [done:]: the last newline becomes the terminator. *)
Definition list_finish (buffer_size : nat) (o : out_buffer) : option (Z * list Z) :=
  if (o_written o =? 0)%nat then b ← buf_store (o_buf o) 0 0; Some (0, b)
  else
    let written := if (buffer_size <=? o_written o)%nat then (buffer_size - 1)%nat else o_written o in
    b ← buf_store (o_buf o) (written - 1) 0; Some (Z.of_nat (written - 1), b).

(** The status and the buffer. *)
Definition fatfs_list_directory (v : fatfs_volume) (dir_cluster : Z) (buffer : list Z) (buffer_size : nat) : option (Z * list Z) :=
  if (buffer_size =? 0)%nat then Some (-1, buffer)
  else
    '(rc, _) ← fatfs_dir_scan v dir_cluster None;
    if rc <? 0 then Some (-1, buffer)
    else if (dir_cluster =? 0) && is_fat16 v then
      match fatfs_sector_ptr v (root_dir_sector v) with
      | None => Some (-1, buffer)
      | Some root =>
          r ← list_run v (Z.to_nat (root_entries v)) root buffer_size (Out buffer 0);
          match r with
          | ListFull o => Some (Z.of_nat (o_written o), o_buf o)
          | ListDone o | ListMore o => list_finish buffer_size o
          end
      end
    else o ← list_chain (chain_fuel v) v dir_cluster buffer_size (Out buffer 0); list_finish buffer_size o.

Definition fatfs_list (v : fatfs_volume) (path : cstring) (buffer : list Z) (buffer_size : nat) : option (Z * list Z) :=
  if negb (fatfs_ready v) then Some (-1, buffer)
  else
    r ← fatfs_resolve_directory v path;
    match r with
    | None => Some (-1, buffer)
    | Some c => fatfs_list_directory v c buffer buffer_size
    end.

(** ** Reading *)

Fixpoint load_loop (fuel : nat) (v : fatfs_volume) (cluster : Z) (out : list Z) (total max_len : nat) : option (list Z * nat) :=
  if (cluster <? 2) || (max_len <=? total)%nat then Some (out, total)
  else match fatfs_cluster_ptr v cluster with
  | None => Some (out, total)
  | Some p =>
      match fuel with
      | O => None
      | S fuel' =>
          let to_copy := Nat.min (Z.to_nat (fatfs_cluster_size_bytes v)) (max_len - total) in
          data ← field (base v) p to_copy;
          out ← buf_copy out total data;
          next ← fatfs_read_fat v cluster;
          if fatfs_is_eoc v next then Some (out, (total + to_copy)%nat)
          else load_loop fuel' v next out (total + to_copy) max_len
      end
  end.

(** At most [max_len] bytes: every round but the last copies a whole cluster. *)
Definition fatfs_load_cluster_chain (v : fatfs_volume) (start : Z) (out : list Z) (max_len : nat) : option (list Z * nat) :=
  load_loop (S max_len) v start out 0 max_len.

(** The entry of a path with the scan that looked for it: -1 is [None]. *)
Definition lookup_path (v : fatfs_volume) (path : cstring) : option (option (Z * cstring * list Z * fat_dir_scan)) :=
  r ← fatfs_resolve_parent v path 64;
  match r with
  | None => Some None
  | Some (parent, leaf) =>
      match fatfs_prepare_short_name leaf with
      | None => Some None
      | Some n =>
          '(rc, s) ← fatfs_dir_scan v parent (Some n);
          Some (if rc <? 0 then None else Some (parent, leaf, n, s))
      end
  end.

(** The status, the buffer and [*out_size]. *)
Definition fatfs_read (v : fatfs_volume) (path : cstring) (out : list Z) (max_len : nat) : option (Z * list Z * nat) :=
  if negb (fatfs_ready v) || (max_len =? 0)%nat then Some (-1, out, 0%nat)
  else
    r ← lookup_path v path;
    match r with
    | Some (_, _, _, Scan (Some e) _ _ _) =>
        attr ← entry_attr v e;
        if negb (Z.land attr FAT_ATTR_DIRECTORY =? 0) then Some (-1, out, 0%nat)
        else
          first ← fatfs_first_cluster v e;
          fsize ← entry_file_size v e;
          let n := Nat.min (Z.to_nat fsize) max_len in
          if (n =? 0)%nat || (first <? 2) then Some (0, out, 0%nat)
          else
            '(out, total) ← fatfs_load_cluster_chain v first out n;
            out ← (if (total <? max_len)%nat then buf_store out total 0 else Some out);
            Some (0, out, total)
    | _ => Some (-1, out, 0%nat)
    end.

(** ** Writing *)

(** Take back what was allocated: [fatfs_free_chain], the entry emptied. *)
Definition abandon (e : nat) (first : Z) (v : fatfs_volume) : option (Z * fatfs_volume) :=
  v ← fatfs_free_chain first v; v ← fatfs_set_first_cluster e 0 v; v ← set_file_size e 0 v; Some (-1, v).

(** One cluster of data, the rest of the cluster zeroed. *)
Definition fill_cluster (p : nat) (data : list Z) (cluster_size : nat) (v : fatfs_volume) : option fatfs_volume :=
  v ← poke p data v; poke (p + length data) (replicate (cluster_size - length data) 0) v.

(** The loop of [fatfs_write_replace]: the first and the last cluster, or a failure. *)
Fixpoint replace_loop (fuel : nat) (e : nat) (data : list Z) (first prev : Z) (v : fatfs_volume)
    : option ((Z * fatfs_volume) + (Z * Z * fatfs_volume)) :=
  match data with
  | [] => Some (inr (first, prev, v))
  | _ =>
      match fuel with
      | O => None
      | S fuel' =>
          '(cluster, v) ← fatfs_allocate_cluster v;
          if cluster =? 0 then r ← abandon e first v; Some (inl r)
          else
            let first := if first =? 0 then cluster else first in
            v ← (if prev =? 0 then Some v else fatfs_write_fat prev cluster v);
            match fatfs_cluster_ptr v cluster with
            | None => r ← abandon e first v; Some (inl r)
            | Some p =>
                let cs := Z.to_nat (fatfs_cluster_size_bytes v) in
                v ← fill_cluster p (take cs data) cs v;
                replace_loop fuel' e (drop cs data) first cluster v
            end
      end
  end.

Definition fatfs_write_replace (e : nat) (data : list Z) (v : fatfs_volume) : option (Z * fatfs_volume) :=
  old ← fatfs_first_cluster v e;
  v ← fatfs_free_chain old v;
  v ← fatfs_set_first_cluster e 0 v;
  v ← set_file_size e 0 v;
  match data with
  | [] => Some (0, v)
  | _ =>
      r ← replace_loop (length data) e data 0 0 v;
      match r with
      | inl failed => Some failed
      | inr (first, prev, v) =>
          v ← fatfs_write_fat prev (fatfs_eoc_marker v) v;
          v ← fatfs_set_first_cluster e first v;
          v ← set_file_size e (u32 (Z.of_nat (length data))) v;
          Some (0, v)
      end
  end.

(** The last cluster of a chain. *)
Fixpoint last_loop (fuel : nat) (v : fatfs_volume) (cluster : Z) : option Z :=
  match fuel with
  | O => None
  | S fuel' =>
      next ← fatfs_read_fat v cluster;
      if fatfs_is_eoc v next then Some cluster else last_loop fuel' v next
  end.

(** New clusters behind [last] for the rest of the data. *)
Fixpoint append_loop (fuel : nat) (data : list Z) (last : Z) (v : fatfs_volume) : option (Z * fatfs_volume) :=
  match data with
  | [] => Some (0, v)
  | _ =>
      match fuel with
      | O => None
      | S fuel' =>
          '(cluster, v) ← fatfs_allocate_cluster v;
          if cluster =? 0 then Some (-1, v)
          else
            v ← fatfs_write_fat last cluster v;
            v ← fatfs_write_fat cluster (fatfs_eoc_marker v) v;
            match fatfs_cluster_ptr v cluster with
            | None => Some (-1, v)
            | Some p =>
                let cs := Z.to_nat (fatfs_cluster_size_bytes v) in
                v ← fill_cluster p (take cs data) cs v;
                append_loop fuel' (drop cs data) cluster v
            end
      end
  end.

Definition add_file_size (e : nat) (n : nat) (v : fatfs_volume) : option fatfs_volume :=
  old ← entry_file_size v e; set_file_size e (old +32 Z.of_nat n) v.

Definition fatfs_write_append (e : nat) (data : list Z) (v : fatfs_volume) : option (Z * fatfs_volume) :=
  match data with
  | [] => Some (0, v)
  | _ =>
      let cs := fatfs_cluster_size_bytes v in
      first ← fatfs_first_cluster v e;
      fsize ← entry_file_size v e;
      r ← (if first <? 2 then
             '(c, v) ← fatfs_allocate_cluster v;
             if c =? 0 then Some None
             else
               v ← fatfs_set_first_cluster e c v; v ← set_file_size e 0 v;
               v ← fatfs_write_fat c (fatfs_eoc_marker v) v;
               Some (Some (c, 0, v))
           else Some (Some (first, fsize mod cs, v)));
      match r with
      | None => Some (-1, v)
      | Some (first, offset, v) =>
          last ← last_loop (chain_fuel v) v first;
          match fatfs_cluster_ptr v last with
          | None => Some (-1, v)
          | Some p =>
              let here := take (Z.to_nat (cs - offset)) data in
              v ← poke (p + Z.to_nat offset) here v;
              if offset + Z.of_nat (length here) <? cs then v ← add_file_size e (length here) v; Some (0, v)
              else
                '(rc, v) ← append_loop (length data) (drop (length here) data) last v;
                if rc <? 0 then Some (-1, v) else v ← add_file_size e (length data) v; Some (0, v)
          end
      end
  end.

(** The walk of [fatfs_directory_is_empty] over [n] entries: 1 at the end mark, 0 at
    an entry in use, none when the run is over. *)
Fixpoint empty_run (v : fatfs_volume) (n : nat) (e : nat) : option (option Z) :=
  match n with
  | O => Some None
  | S n' =>
      first ← base v !! e;
      if first =? FAT_ENTRY_END then Some (Some 1)
      else if first =? FAT_ENTRY_FREE then empty_run v n' (e + ENTRY_SIZE)
      else
        attr ← entry_attr v e;
        if hidden_attr attr then empty_run v n' (e + ENTRY_SIZE)
        else n ← entry_name v e; if fatfs_name_is_dot n then empty_run v n' (e + ENTRY_SIZE) else Some (Some 0)
  end.

Fixpoint empty_chain (fuel : nat) (v : fatfs_volume) (cluster : Z) : option Z :=
  if cluster <? 2 then Some 1
  else match fatfs_cluster_ptr v cluster with
  | None => Some (-1)
  | Some p =>
      match fuel with
      | O => None
      | S fuel' =>
          r ← empty_run v (fatfs_entries_per_cluster v) p;
          match r with
          | Some x => Some x
          | None => next ← fatfs_read_fat v cluster; if fatfs_is_eoc v next then Some 1 else empty_chain fuel' v next
          end
      end
  end.

Definition fatfs_directory_is_empty (v : fatfs_volume) (cluster : Z) : option Z := empty_chain (chain_fuel v) v cluster.

Inductive write_mode := WriteReplace | WriteAppend.

(** A new entry with a name and an attribute. *)
Definition new_entry (e : nat) (n : list Z) (attr : Z) (v : fatfs_volume) : option fatfs_volume :=
  v ← fatfs_clear_entry e v; v ← poke e n v; poke (e + 11) [attr] v.

(** ** Writing back to disk *)

Section flush.
Context {W : Type} `{!Block.DiskOps W}.

(** A device that is a whole disk with the sector size of the volume. *)
Definition backs (v : fatfs_volume) (d : Block.block_device) : bool :=
  negb (Block.is_partition d) && (Block.block_size d =? bytes_per_sector v).

Definition fatfs_resolve_device (s : Block.blocks) (v : fatfs_volume) : option (option nat * fatfs_volume) :=
  match device v with
  | Some d => Some (Some d, v)
  | None =>
      l ← cells (Block.device_table s) (Block.device_count s);
      let d := first_index (backs v) l in
      Some (d, set_device d v)
  end.

Definition fatfs_flush (s : Block.blocks) (v : fatfs_volume) (w : W) : option (Z * fatfs_volume * W) :=
  if negb (ready v) then Some (-1, v, w)
  else if negb (dirty v) then Some (0, v, w)
  else if negb (backing_configured v) then Some (-1, v, w)
  else if bytes_per_sector v =? 0 then Some (-1, v, w)
  else
    let all := size v / bytes_per_sector v in
    let sectors := if backing_sectors v =? 0 then all else backing_sectors v in
    if sectors =? 0 then Some (-1, v, w)
    else
      let sectors := if size v <? sectors *32 bytes_per_sector v then all else sectors in
      if sectors =? 0 then Some (-1, v, w)
      else
        '(dev, v) ← fatfs_resolve_device s v;
        match dev with
        | None => Some (-1, v, w)
        | Some _ =>
            '(rc, w) ← Block.blockdev_write s dev (backing_lba v) sectors (Some (base v)) w;
            if rc <? 0 then Some (-1, v, w) else Some (0, set_dirty false v, w)
        end.

(** The warning of a failed flush goes to the log. *)
Definition fatfs_flush_or_warn (s : Block.blocks) (v : fatfs_volume) (w : W) : option (fatfs_volume * W) :=
  if negb (backing_configured v) then Some (v, w)
  else if (Block.device_count s =? 0)%nat then Some (v, w)
  else '(_, v, w) ← fatfs_flush s v w; Some (v, w).

(** Mark the volume and write it back, then return 0. *)
Definition finish (s : Block.blocks) (v : fatfs_volume) (w : W) : option (Z * fatfs_volume * W) :=
  '(v, w) ← fatfs_flush_or_warn s (fatfs_mark_dirty v) w; Some (0, v, w).

(** ** Operations on paths *)

(** The entry to write to: the one found, or a new one. *)
Definition write_entry (v : fatfs_volume) (path : cstring) : option (option nat * fatfs_volume) :=
  r ← lookup_path v path;
  match r with
  | None => Some (None, v)
  | Some (parent, _, n, s) =>
      match s_match s with
      | Some e => Some (Some e, v)
      | None =>
          '(slot, v) ← fatfs_dir_take_slot parent s v;
          match slot with
          | None => Some (None, v)
          | Some e =>
              v ← new_entry e n 0x20 v;
              v ← fatfs_set_first_cluster e 0 v; v ← set_file_size e 0 v;
              Some (Some e, v)
          end
      end
  end.

Definition fatfs_write (s : Block.blocks) (path : cstring) (data : option (list Z)) (len : nat) (mode : write_mode)
    (v : fatfs_volume) (w : W) : option (Z * fatfs_volume * W) :=
  if negb (fatfs_ready v) then Some (-1, v, w)
  else
    '(entry, v) ← write_entry v path;
    match entry with
    | None => Some (-1, v, w)
    | Some e =>
        attr ← entry_attr v e;
        if negb (Z.land attr FAT_ATTR_DIRECTORY =? 0) then Some (-1, v, w)
        else if bool_decide (data = None) && (0 <? len)%nat then Some (-1, v, w)
        else
          bytes ← field (default [] data) 0 len;
          '(rc, v) ← match mode with WriteReplace => fatfs_write_replace e bytes v | WriteAppend => fatfs_write_append e bytes v end;
          if rc =? 0 then finish s v w else Some (rc, v, w)
    end.

Definition fatfs_remove (s : Block.blocks) (path : cstring) (v : fatfs_volume) (w : W) : option (Z * fatfs_volume * W) :=
  if negb (fatfs_ready v) then Some (-1, v, w)
  else
    r ← lookup_path v path;
    match r with
    | Some (_, leaf, _, Scan (Some e) _ _ _) =>
        first ← fatfs_first_cluster v e;
        attr ← entry_attr v e;
        ok ← (if Z.land attr FAT_ATTR_DIRECTORY =? 0 then Some true
              else if bool_decide (leaf = []) then Some false
              else if (first <? 2) && is_fat16 v then Some false
              else x ← (if first <? 2 then Some 1 else fatfs_directory_is_empty v first); Some (0 <? x));
        if negb (ok : bool) then Some (-1, v, w)
        else
          v ← (if 2 <=? first then fatfs_free_chain first v else Some v);
          v ← poke e [FAT_ENTRY_FREE] v;
          finish s v w
    | _ => Some (-1, v, w)
    end.

(** The entries for the directory itself and its parent. *)
Definition fatfs_write_dot_entries (cluster parent_cluster : Z) (v : fatfs_volume) : option fatfs_volume :=
  match fatfs_cluster_ptr v cluster with
  | None => Some v
  | Some p =>
      v ← new_entry p ([dot] ++ replicate 10 space) FAT_ATTR_DIRECTORY v;
      v ← fatfs_set_first_cluster p cluster v;
      v ← new_entry (p + ENTRY_SIZE) ([dot; dot] ++ replicate 9 space) FAT_ATTR_DIRECTORY v;
      fatfs_set_first_cluster (p + ENTRY_SIZE) (if (parent_cluster <? 2) && is_fat16 v then 0 else parent_cluster) v
  end.

Definition fatfs_mkdir (s : Block.blocks) (path : cstring) (v : fatfs_volume) (w : W) : option (Z * fatfs_volume * W) :=
  if negb (fatfs_ready v) then Some (-1, v, w)
  else
    r ← lookup_path v path;
    match r with
    | Some (parent, leaf, n, sc) =>
        if bool_decide (leaf = []) then Some (-1, v, w)
        else if bool_decide (is_Some (s_match sc)) then Some (-1, v, w)
        else
          '(slot, v) ← fatfs_dir_take_slot parent sc v;
          match slot with
          | None => Some (-1, v, w)
          | Some e =>
              v ← new_entry e n FAT_ATTR_DIRECTORY v;
              '(c, v) ← fatfs_allocate_cluster v;
              if c =? 0 then Some (-1, v, w)
              else
                v ← fatfs_write_fat c (fatfs_eoc_marker v) v;
                v ← fatfs_zero_cluster c v;
                v ← fatfs_write_dot_entries c (if (parent <? 2) && is_fat16 v then 0 else parent) v;
                v ← fatfs_set_first_cluster e c v;
                v ← set_file_size e 0 v;
                finish s v w
          end
    | None => Some (-1, v, w)
    end.

Definition fatfs_file_size (v : fatfs_volume) (path : cstring) : option (Z * Z) :=
  if negb (fatfs_ready v) then Some (-1, 0)
  else
    r ← lookup_path v path;
    match r with
    | Some (_, _, _, Scan (Some e) _ _ _) => n ← entry_file_size v e; Some (0, n)
    | _ => Some (-1, 0)
    end.

End flush.

(** ** kernel/fat16.c: the volume the kernel boots from *)

Record fat16 := Fat16 { g_fat_volume : fatfs_volume; g_fat_ready : bool; g_fat_type : Z }.

Definition fat16_init (image : option (list Z)) (sz : Z) (g : fat16) : option (Z * fat16) :=
  '(type, v) ← fatfs_init image sz (g_fat_volume g);
  Some (if type =? FATFS_TYPE_NONE then (0, Fat16 v false type) else (1, Fat16 v true type)).

Definition fat16_ready (g : fat16) : bool := g_fat_ready g && fatfs_ready (g_fat_volume g).
Definition fat16_type (g : fat16) : Z := g_fat_type g.

Definition fat16_ls (g : fat16) (out : list Z) (max_len : nat) : option (Z * list Z) :=
  if negb (fat16_ready g) then Some (-1, out) else fatfs_list (g_fat_volume g) [] out max_len.

Definition fat16_read (g : fat16) (path : cstring) (out : list Z) (max_len : nat) : option (Z * list Z) :=
  if negb (fat16_ready g) then Some (-1, out)
  else
    '(rc, out, copied) ← fatfs_read (g_fat_volume g) path out max_len;
    if rc <? 0 then Some (-1, out)
    else out ← (if (copied <? max_len)%nat then buf_store out copied 0 else Some out); Some (s32 (Z.of_nat copied), out).

Definition fat16_read_file (g : fat16) (path : cstring) (out : list Z) (max_len : nat) : option (Z * list Z * nat) :=
  if negb (fat16_ready g) then Some (-1, out, 0%nat) else fatfs_read (g_fat_volume g) path out max_len.

Definition fat16_file_size (g : fat16) (path : cstring) : option (Z * Z) :=
  if negb (fat16_ready g) then Some (-1, 0) else fatfs_file_size (g_fat_volume g) path.

Definition set_volume (v : fatfs_volume) (g : fat16) : fat16 := Fat16 v (g_fat_ready g) (g_fat_type g).

(** A writing operation on the boot volume. *)
Definition on_volume {W} (f : fatfs_volume → W → option (Z * fatfs_volume * W)) (g : fat16) (w : W) : option (Z * fat16 * W) :=
  if negb (fat16_ready g) then Some (-1, g, w)
  else '(rc, v, w) ← f (g_fat_volume g) w; Some (rc, set_volume v g, w).

Section fat16_ops.
Context {W : Type} `{!Block.DiskOps W}.

Definition fat16_write_file (s : Block.blocks) (path : cstring) (data : option (list Z)) (len : nat) : fat16 → W → option (Z * fat16 * W) :=
  on_volume (fatfs_write s path data len WriteReplace).
Definition fat16_append_file (s : Block.blocks) (path : cstring) (data : option (list Z)) (len : nat) : fat16 → W → option (Z * fat16 * W) :=
  on_volume (fatfs_write s path data len WriteAppend).
Definition fat16_remove (s : Block.blocks) (path : cstring) : fat16 → W → option (Z * fat16 * W) := on_volume (fatfs_remove s path).
Definition fat16_mkdir (s : Block.blocks) (path : cstring) : fat16 → W → option (Z * fat16 * W) := on_volume (fatfs_mkdir s path).
End fat16_ops.

Definition fat16_configure_backing (lba count : Z) (g : fat16) : fat16 := set_volume (fatfs_bind_backing lba count (g_fat_volume g)) g.

End Fat.
