(* ===== verification/FatTable.v ===== *)
(** The file allocation table: where its entries are, that a write changes the
    entry it names in every copy and nothing else, and what allocating a cluster
    and freeing a chain do. *)

From S2P Require Import Prelude Arrays Bytes Block Fat.

Module FatTable.

Import Arrays Bytes Fat.

(** ** Stores into the image *)

Lemma copy_lookup dst off src dst' i :
  buf_copy dst off src = Some dst' →
  dst' !! i = if decide (off ≤ i < off + length src)%nat then src !! (i - off)%nat else dst !! i.
Proof.
  revert dst off. induction src as [|x src IH]; intros dst off H; cbn [buf_copy] in H.
  { simplify_eq. rewrite decide_False; [done|]. cbn. lia. }
  apply bind_Some in H as (d & [Hlt ->]%buf_store_Some & H). rewrite (IH _ _ H). cbn [length].
  destruct (decide (i = off)) as [->|Hne].
  - rewrite decide_False, decide_True, Nat.sub_diag by lia. by rewrite list_lookup_insert_eq.
  - repeat case_decide; try lia.
    + replace (i - off)%nat with (S (i - S off)) by lia. done.
    + by rewrite list_lookup_insert_ne.
Qed.

(** [poke] inside the image: what it leaves where. *)
Lemma poke_ok off bs v :
  (off + length bs ≤ length (base v))%nat →
  ∃ b, poke off bs v = Some (set_base b v) ∧ length b = length (base v) ∧
    ∀ i, b !! i = if decide (off ≤ i < off + length bs)%nat then bs !! (i - off)%nat else base v !! i.
Proof.
  intros H. unfold poke. pose proof (buf_copy_ok bs (base v) off H) as Hc. rewrite Hc. cbn [mbind option_bind].
  eexists. split; [done|]. split; [by rewrite (buf_copy_length _ _ _ _ Hc)|]. intros i. by apply copy_lookup.
Qed.

Lemma poke_bytes off bs v b : bytes bs → bytes (base v) → poke off bs v = Some (set_base b v) → bytes b.
Proof.
  unfold poke. intros Hs Hv H. apply bind_Some in H as (b' & Hc & H). apply (inj Some) in H.
  assert (b' = b) as -> by exact (f_equal base H). exact (bytes_copy _ _ _ _ Hs Hv Hc).
Qed.

(** The bytes from [lo] to [lo + n] are the same. *)
Definition agree (b b' : list Z) (lo n : nat) : Prop := ∀ i, (lo ≤ i < lo + n)%nat → b !! i = b' !! i.

Lemma read_le16_agree b b' off : agree b b' off 2 → read_le16 b off = read_le16 b' off.
Proof. intros H. unfold read_le16. by rewrite !H by lia. Qed.

Lemma read_le32_agree b b' off : agree b b' off 4 → read_le32 b off = read_le32 b' off.
Proof. intros H. unfold read_le32. by rewrite !H by lia. Qed.

Lemma read_le16_at b off v : 0 ≤ v < 65536 → (∀ j, (j < 2)%nat → b !! (off + j)%nat = le16 v !! j) → read_le16 b off = Some v.
Proof.
  intros Hv H. pose proof (read_le16_app [] v [] Hv) as Hr. rewrite app_nil_l, app_nil_r in Hr. cbn [length] in Hr.
  rewrite <- Hr. unfold read_le16. pose proof (H 0%nat) as H0. rewrite Nat.add_0_r in H0.
  by rewrite H0, (H 1%nat) by lia.
Qed.

Lemma read_le32_at b off v : 0 ≤ v < 4294967296 → (∀ j, (j < 4)%nat → b !! (off + j)%nat = le32 v !! j) → read_le32 b off = Some v.
Proof.
  intros Hv H. pose proof (read_le32_app [] v [] Hv) as Hr. rewrite app_nil_l, app_nil_r in Hr. cbn [length] in Hr.
  rewrite <- Hr. unfold read_le32. pose proof (H 0%nat) as H0. rewrite Nat.add_0_r in H0.
  by rewrite H0, (H 1%nat), (H 2%nat), (H 3%nat) by lia.
Qed.

(** ** Geometry *)

(** Bytes of an entry of the table. *)
Definition width (v : fatfs_volume) : Z := if is_fat32 v then 4 else 2.

(** The first byte of the tables, of the data, and of a cluster. *)
Definition fat_start (v : fatfs_volume) : Z := reserved_sectors v * bytes_per_sector v.
Definition fat_end (v : fatfs_volume) : Z := (reserved_sectors v + fat_count v * sectors_per_fat v) * bytes_per_sector v.
Definition data_start (v : fatfs_volume) : Z := data_start_sector v * bytes_per_sector v.
Definition cluster_bytes (v : fatfs_volume) : Z := bytes_per_sector v * sectors_per_cluster v.
Definition cluster_at (v : fatfs_volume) (c : Z) : Z := data_start v + (c - 2) * cluster_bytes v.

(** The layout of a volume: the tables, the root directory and the clusters follow
    one another inside the image, and the tables have room for every cluster. *)
Record geometry (v : fatfs_volume) : Prop := {
  geo_image : Z.of_nat (length (base v)) = size v;
  geo_bytes : bytes (base v);
  geo_size : size v < 2 ^ 31;
  geo_type : fat_type v = 16 ∨ fat_type v = 32;
  geo_sector : 0 < bytes_per_sector v ∧ bytes_per_sector v mod 32 = 0;
  geo_cluster : 1 ≤ sectors_per_cluster v;
  geo_reserved : 0 ≤ reserved_sectors v;
  geo_fats : 1 ≤ fat_count v ∧ 0 ≤ sectors_per_fat v;
  geo_entries : width v * (total_clusters v + 2) ≤ sectors_per_fat v * bytes_per_sector v;
  geo_clusters : 1 ≤ total_clusters v < (if is_fat32 v then 0x0FFFFFF0 else 65525);
  geo_data : fat_end v ≤ data_start v;
  geo_end : data_start v + total_clusters v * cluster_bytes v ≤ size v;
  geo_root : is_fat16 v = true → fat_end v ≤ root_dir_sector v * bytes_per_sector v ∧ 0 ≤ root_entries v ∧
    root_dir_sector v * bytes_per_sector v + 32 * root_entries v ≤ data_start v;
  geo_root_cluster : is_fat16 v = false → 2 ≤ root_cluster v < 2 ^ 32
}.

Lemma geometry_set_base b v : geometry v → length b = length (base v) → bytes b → geometry (set_base b v).
Proof. intros [] Hl Hb. constructor; try done. cbn [base size set_base]. by rewrite Hl. Qed.

Section geo.
Context (v : fatfs_volume) (Hg : geometry v).

Lemma fat_type_cases : is_fat32 v = negb (is_fat16 v).
Proof using Hg. unfold is_fat32, is_fat16, FATFS_TYPE_FAT32, FATFS_TYPE_FAT16. by destruct (geo_type _ Hg) as [->| ->]. Qed.

Lemma geo_fat_bounds : 0 ≤ fat_start v ≤ fat_end v ∧ fat_end v ≤ size v.
Proof using Hg.
  destruct Hg. unfold fat_start, fat_end, data_start, cluster_bytes in *. nia.
Qed.

(** A sector inside the image. *)
Lemma sector_ptr_ok sector :
  0 ≤ sector → sector * bytes_per_sector v < size v → fatfs_sector_ptr v sector = Some (Z.to_nat (sector * bytes_per_sector v)).
Proof using Hg.
  intros H0 Hs. pose proof (geo_size _ Hg). destruct (geo_sector _ Hg) as [Hb _]. unfold fatfs_sector_ptr. rewrite u32_small by nia. by rewrite (proj2 (Z.leb_gt _ _)).
Qed.

(** Where the entry of a cluster is, in copy [k] of the table. *)
Definition slot (k c : Z) : Z := (reserved_sectors v + k * sectors_per_fat v) * bytes_per_sector v + width v * c.

Lemma width_pos : 2 ≤ width v ≤ 4 ∧ (bytes_per_sector v) mod (width v) = 0.
Proof using Hg.
  destruct (geo_sector _ Hg) as [Hb Hm]. unfold width. apply Z.mod_divide in Hm as [q Hq]; [|lia]. rewrite Hq.
  destruct (is_fat32 v); (split; [lia|]).
  - replace (q * 32) with (q * 8 * 4) by lia. by rewrite Z_mod_mult.
  - replace (q * 32) with (q * 16 * 2) by lia. by rewrite Z_mod_mult.
Qed.

(** An entry does not cross the end of its sector. *)
Lemma entry_in_sector c : 0 ≤ c → (width v * c) mod bytes_per_sector v + width v ≤ bytes_per_sector v.
Proof using Hg.
  intros Hc. destruct width_pos as [Hw Hm]. destruct (geo_sector _ Hg) as [Hb _].
  apply Z.mod_divide in Hm as [q Hq]; [|lia]. rewrite Hq.
  rewrite (Z.mul_comm q), Zmult_mod_distr_l. pose proof (Z.mod_pos_bound c q ltac:(nia)). nia.
Qed.

Lemma slot_bounds k c :
  0 ≤ k < fat_count v → 0 ≤ c < total_clusters v + 2 → fat_start v ≤ slot k c ∧ slot k c + width v ≤ fat_end v.
Proof using Hg.
  intros Hk Hc. destruct width_pos as [Hw _]. destruct Hg. unfold slot, fat_start, fat_end. nia.
Qed.

Lemma entry_offset_ok c : 0 ≤ c < total_clusters v + 2 → entry_offset v c = width v * c.
Proof using Hg.
  intros Hc. destruct width_pos as [Hw _]. pose proof geo_fat_bounds. destruct Hg. unfold entry_offset, width in *. unfold fat_start, fat_end in *.
  destruct (is_fat32 v); rewrite u32_small by nia; lia.
Qed.

Lemma clusters_u32 c : total_clusters v +32 2 = total_clusters v + 2 ∧ ((total_clusters v +32 2 <=? c) = bool_decide (total_clusters v + 2 ≤ c)).
Proof using Hg.
  assert (H : total_clusters v +32 2 = total_clusters v + 2).
  { apply u32_small. pose proof (geo_clusters _ Hg). destruct (is_fat32 v); lia. }
  split; [done|]. rewrite H. destruct (Z.leb_spec (total_clusters v + 2) c); [by rewrite bool_decide_eq_true_2|by rewrite bool_decide_eq_false_2 by lia].
Qed.

(** The value of a cluster's entry in copy [k] of the table. *)
Definition entry (k c : Z) : option Z :=
  if is_fat32 v then x ← read_le32 (base v) (Z.to_nat (slot k c)); Some (Z.land x 0x0FFFFFFF)
  else read_le16 (base v) (Z.to_nat (slot k c)).

(** The sector and the byte the code computes are the entry's. *)
Lemma slot_ptr k c :
  0 ≤ k < fat_count v → 0 ≤ c < total_clusters v + 2 →
  ∃ p, fatfs_sector_ptr v (reserved_sectors v +32 k *32 sectors_per_fat v +32 entry_offset v c / bytes_per_sector v) = Some p ∧
    (p + Z.to_nat (entry_offset v c mod bytes_per_sector v))%nat = Z.to_nat (slot k c).
Proof using Hg.
  intros Hk Hc. rewrite entry_offset_ok by done. pose proof (slot_bounds k c Hk Hc) as Hs. pose proof geo_fat_bounds as Hb.
  pose proof (geo_size _ Hg). destruct (geo_sector _ Hg) as [Hp _]. destruct width_pos as [Hw _].
  pose proof (Z.div_mod (width v * c) (bytes_per_sector v) ltac:(lia)) as Hd.
  pose proof (Z.mod_pos_bound (width v * c) (bytes_per_sector v) ltac:(lia)) as Hm.
  pose proof (Z.div_pos (width v * c) (bytes_per_sector v) ltac:(nia) ltac:(lia)) as Hq.
  pose proof (geo_reserved _ Hg). destruct (geo_fats _ Hg).
  unfold slot in *. set (q := width v * c / bytes_per_sector v) in *.
  rewrite (u32_small (k * _)), (u32_small (reserved_sectors v + _)), (u32_small (_ + q)) by nia.
  rewrite sector_ptr_ok by nia. eexists. split; [done|]. nia.
Qed.

Lemma read_fat_entry c : 0 ≤ c < total_clusters v + 2 → fatfs_read_fat v c = entry 0 c.
Proof using Hg.
  intros Hc. unfold fatfs_read_fat, entry. destruct (clusters_u32 c) as [_ ->]. rewrite bool_decide_eq_false_2 by lia.
  destruct (slot_ptr 0 c ltac:(destruct (geo_fats _ Hg); lia) Hc) as (p & Hp & Hq).
  rewrite Z.mul_0_l in Hp. change (u32 0) with 0 in Hp. rewrite Z.add_0_r in Hp.
  replace (u32 (u32 (reserved_sectors v) + _)) with (reserved_sectors v +32 entry_offset v c / bytes_per_sector v) in Hp
    by (unfold u32; by rewrite Zplus_mod_idemp_l).
  rewrite Hp, Hq. done.
Qed.

Lemma read_fat_past c : total_clusters v + 2 ≤ c → fatfs_read_fat v c = Some (fatfs_eoc_marker v).
Proof using Hg. intros Hc. unfold fatfs_read_fat. destruct (clusters_u32 c) as [_ ->]. by rewrite bool_decide_eq_true_2. Qed.

End geo.

(** ** Updates of the image *)

(** The volume with other bytes at most where [P] says, still laid out as before. *)
Record updates (P : Z → Prop) (v v' : fatfs_volume) : Prop := {
  upd_set : v' = set_base (base v') v;
  upd_geo : geometry v';
  upd_same : ∀ i, ¬ P (Z.of_nat i) → base v' !! i = base v !! i
}.

Lemma updates_inv P v v' : updates P v v' → ∃ b, v' = set_base b v.
Proof. intros [H _ _]. by exists (base v'). Qed.

Lemma updates_refl P v : geometry v → updates P v v.
Proof. intros H. constructor; [by destruct v|done|done]. Qed.

Lemma updates_trans P v1 v2 v3 : updates P v1 v2 → updates P v2 v3 → updates P v1 v3.
Proof.
  intros [H1 G1 S1] [H2 G2 S2]. constructor; [|done|].
  - rewrite H2 at 1. rewrite H1 at 1. done.
  - intros i Hi. by rewrite S2, S1.
Qed.

Lemma updates_mono (P Q : Z → Prop) v v' : updates P v v' → (∀ i, P i → Q i) → updates Q v v'.
Proof. intros [H G S] HPQ. constructor; [done|done|]. intros i Hi. apply S. auto. Qed.

Lemma poke_updates off bs v :
  geometry v → bytes bs → 0 ≤ off → off + Z.of_nat (length bs) ≤ size v →
  ∃ v', poke (Z.to_nat off) bs v = Some v' ∧ updates (λ i, off ≤ i < off + Z.of_nat (length bs)) v v' ∧
    ∀ j, (j < length bs)%nat → base v' !! (Z.to_nat off + j)%nat = bs !! j.
Proof.
  intros Hg Hb H0 Hs. destruct (poke_ok (Z.to_nat off) bs v) as (b & Hp & Hl & Hi); [pose proof (geo_image _ Hg); lia|].
  exists (set_base b v). split; [done|]. split; [constructor|].
  - done.
  - apply geometry_set_base; [done|done|]. eapply poke_bytes; [exact Hb|apply Hg|done].
  - intros i Hni. cbn [base set_base]. rewrite Hi, decide_False; [done|]. lia.
  - intros j Hj. cbn [base set_base]. rewrite Hi, decide_True by lia. f_equal. lia.
Qed.

(** ** Entries *)

(** The values an entry can hold. *)
Definition value_bound (v : fatfs_volume) : Z := if is_fat32 v then 2 ^ 28 else 65536.

Lemma entry_returns v k c :
  geometry v → 0 ≤ k < fat_count v → 0 ≤ c < total_clusters v + 2 → returns (entry v k c) (λ x, 0 ≤ x < value_bound v).
Proof.
  intros Hg Hk Hc. pose proof (slot_bounds v Hg k c Hk Hc) as Hs. pose proof (geo_fat_bounds v Hg). pose proof (geo_image _ Hg).
  unfold entry, value_bound, width in *. destruct (is_fat32 v).
  - eapply returns_bind; [apply returns_le32; [apply Hg|lia]|]. intros x Hx. apply returns_ret. change 0x0FFFFFFF with (Z.ones 28).
    rewrite Z.land_ones by lia. by apply Z.mod_pos_bound.
  - apply returns_le16; [apply Hg|lia].
Qed.

(** Entries of copies whose bytes are the same. *)
Lemma entry_agree v v' k c :
  v' = set_base (base v') v → 0 ≤ slot v k c →
  (∀ i, slot v k c ≤ Z.of_nat i < slot v k c + width v → base v' !! i = base v !! i) → entry v' k c = entry v k c.
Proof.
  intros Hv H0 H. set (b := base v') in *. clearbody b. subst v'. unfold entry, slot, width in *.
  cbn [set_base is_fat32 fat_type base reserved_sectors sectors_per_fat bytes_per_sector] in *.
  unfold is_fat32 in *. cbn [set_base fat_type] in *. destruct (fat_type v =? FATFS_TYPE_FAT32).
  - rewrite (read_le32_agree b (base v)); [done|]. intros i Hi. apply H. lia.
  - apply read_le16_agree. intros i Hi. apply H. lia.
Qed.

(** Different entries do not overlap. *)
Lemma slot_disjoint v k c k' c' :
  geometry v → 0 ≤ k < fat_count v → 0 ≤ c < total_clusters v + 2 → 0 ≤ k' < fat_count v → 0 ≤ c' < total_clusters v + 2 →
  (k, c) ≠ (k', c') → slot v k c + width v ≤ slot v k' c' ∨ slot v k' c' + width v ≤ slot v k c.
Proof.
  intros Hg Hk Hc Hk' Hc' Hne. destruct (width_pos v Hg) as [Hw _]. pose proof (geo_entries _ Hg) as He.
  pose proof (geo_sector _ Hg). pose proof (geo_fats _ Hg). unfold slot.
  assert (k < k' ∨ k' < k ∨ (k = k' ∧ (c < c' ∨ c' < c))) as [?|[?|[<- [?|?]]]].
  { destruct (decide (k = k')) as [<-|]; [right; right; split; [done|]; assert (c ≠ c') by congruence; lia|lia]. }
  all: nia.
Qed.

Lemma land_mask28 x : 0 ≤ x < 2 ^ 28 → Z.land x 0x0FFFFFFF = x.
Proof. intros H. change 0x0FFFFFFF with (Z.ones 28). rewrite Z.land_ones by lia. by apply Z.mod_small. Qed.

(** The upper four bits of an entry are kept and do not disturb its value. *)
Lemma merge28 old x : 0 ≤ old < 2 ^ 32 → 0 ≤ x < 2 ^ 28 →
  let y := Z.lor (Z.land old 0xF0000000) x in 0 ≤ y < 2 ^ 32 ∧ Z.land y 0x0FFFFFFF = x.
Proof.
  intros Ho Hx y. split.
  - split; [apply Z.lor_nonneg; split; [apply Z.land_nonneg|]; lia|].
    assert (Hy : y = Z.land y (Z.ones 32)); [|rewrite Hy, Z.land_ones by lia; by apply Z.mod_pos_bound].
    unfold y. rewrite Z.land_lor_distr_l, <- Z.land_assoc. change (Z.land 0xF0000000 (Z.ones 32)) with 0xF0000000.
    f_equal. rewrite Z.land_ones, Z.mod_small by lia. done.
  - unfold y. rewrite Z.land_lor_distr_l, <- Z.land_assoc. change (Z.land 0xF0000000 0x0FFFFFFF) with 0.
    rewrite Z.land_0_r, Z.lor_0_l. by apply land_mask28.
Qed.

(** One copy. *)
Lemma write_copy_ok v k c x :
  geometry v → 0 ≤ k < fat_count v → 0 ≤ c < total_clusters v + 2 → 0 ≤ x < value_bound v →
  ∃ v', write_fat_copy k (entry_offset v c) x v = Some v' ∧
    updates (λ i, slot v k c ≤ i < slot v k c + width v) v v' ∧ entry v' k c = Some x.
Proof.
  intros Hg Hk Hc Hx. destruct (slot_ptr v Hg k c Hk Hc) as (p & Hp & Hq).
  pose proof (slot_bounds v Hg k c Hk Hc) as Hs. pose proof (geo_fat_bounds v Hg). pose proof (geo_image _ Hg).
  unfold write_fat_copy. rewrite Hp, Hq. unfold entry, value_bound, width in *.
  destruct (is_fat32 v) eqn:Ht.
  - destruct (returns_le32 (base v) (Z.to_nat (slot v k c))) as (old & -> & Ho); [apply Hg|lia|]. cbn [mbind option_bind].
    destruct (merge28 old x) as [Hy Hm]; [done..|].
    destruct (poke_updates (slot v k c) (le32 (Z.lor (Z.land old 0xF0000000) x)) v) as (v' & -> & Hu & Hi);
      [done|apply le32_bytes|lia|cbn [le32 length]; lia|].
    exists v'. split; [done|]. split; [exact Hu|]. rewrite (upd_set _ _ _ Hu). unfold is_fat32 in *. cbn [set_base fat_type]. rewrite Ht.
    change (slot (set_base (base v') v) k c) with (slot v k c). cbn [base set_base].
    rewrite (read_le32_at _ _ (Z.lor (Z.land old 0xF0000000) x)); [cbn [mbind option_bind]; by rewrite Hm|done|exact Hi].
  - rewrite Z.land_ones with (n := 16), Z.mod_small by lia.
    destruct (poke_updates (slot v k c) (le16 x) v) as (v' & -> & Hu & Hi); [done|apply le16_bytes|lia|cbn [le16 length]; lia|].
    exists v'. split; [done|]. split; [exact Hu|]. rewrite (upd_set _ _ _ Hu). unfold is_fat32 in *. cbn [set_base fat_type]. rewrite Ht.
    change (slot (set_base (base v') v) k c) with (slot v k c). cbn [base set_base]. by apply read_le16_at.
Qed.

(** What a write of an entry does: the entry in the copies from [k] on, nothing else. *)
Record wrote (k c x : Z) (v v' : fatfs_volume) : Prop := {
  wrote_upd : updates (λ i, fat_start v ≤ i < fat_end v) v v';
  wrote_here : ∀ j, k ≤ j < fat_count v → entry v' j c = Some x;
  wrote_there : ∀ j d, 0 ≤ j < fat_count v → 0 ≤ d < total_clusters v + 2 → d ≠ c ∨ j < k → entry v' j d = entry v j d
}.

Lemma write_copies_ok n k c v x :
  geometry v → 0 ≤ k → k + Z.of_nat n = fat_count v → 0 ≤ c < total_clusters v + 2 → 0 ≤ x < value_bound v →
  ∃ v', write_fat_copies n k (entry_offset v c) x v = Some v' ∧ wrote k c x v v'.
Proof.
  revert k v. induction n as [|n IH]; intros k v Hg Hk Hn Hc Hx; cbn [write_fat_copies].
  { exists v. split; [done|]. constructor; [by apply updates_refl|lia|done]. }
  destruct (write_copy_ok v k c x Hg ltac:(lia) Hc Hx) as (v1 & -> & Hu & He). cbn [mbind option_bind].
  pose proof (upd_set _ _ _ Hu) as Hv1. set (b := base v1) in *.
  destruct (IH (k + 1) v1) as (v2 & H2 & Hw); [apply Hu|lia|rewrite Hv1; cbn; lia|by rewrite Hv1|by rewrite Hv1|].
  replace (entry_offset v1 c) with (entry_offset v c) in H2 by by rewrite Hv1. exists v2. split; [done|].
  pose proof (slot_bounds v Hg k c ltac:(lia) Hc) as Hb. destruct Hw as [Wu Wh Wt].
  replace (fat_count v1) with (fat_count v) in * by by rewrite Hv1.
  replace (total_clusters v1) with (total_clusters v) in * by by rewrite Hv1. constructor.
  - eapply updates_trans; [eapply updates_mono; [exact Hu|]; cbn; lia|].
    eapply updates_mono; [exact Wu|]. intros i. by rewrite Hv1.
  - intros j Hj. destruct (decide (j = k)) as [->|]; [|apply Wh; lia]. rewrite Wt; [done|lia|done|lia].
  - intros j d Hj Hd Hne. rewrite Wt by lia. apply entry_agree; [done|pose proof (slot_bounds v Hg j d Hj Hd);
      pose proof (geo_fat_bounds v Hg); lia|]. intros i Hi. apply Hu.
    pose proof (slot_disjoint v k c j d Hg ltac:(lia) Hc Hj Hd ltac:(intros [= <- <-]; lia)). lia.
Qed.

Lemma write_fat_ok c x v :
  geometry v → 0 ≤ c < total_clusters v + 2 → 0 ≤ x < value_bound v →
  ∃ v', fatfs_write_fat c x v = Some v' ∧ wrote 0 c x v v'.
Proof.
  intros Hg Hc Hx. unfold fatfs_write_fat. destruct (clusters_u32 v Hg c) as [_ ->]. rewrite bool_decide_eq_false_2 by lia.
  replace (if is_fat32 v then Z.land x 0x0FFFFFFF else x) with x
    by (unfold value_bound in Hx; destruct (is_fat32 v); [by rewrite land_mask28|done]).
  apply write_copies_ok; [done|lia| |done|done]. destruct (geo_fats _ Hg). lia.
Qed.
End FatTable.
