(* ===== verification/FatChain.v ===== *)
(** Clusters and chains: the table as a function from clusters to values, what
    allocating a cluster does to it, and that freeing a chain ends on any table and
    frees exactly the clusters that can be reached. *)

From stdpp Require Import relations.
From S2P Require Import Prelude Arrays Bytes Block Fat FatTable.

Module FatChain.

Import Arrays Bytes Fat FatTable.

(** Filters that agree on the list, and filters that differ at one element. *)
Section filters.
Context {A : Type} `{!EqDecision A} (P Q : A → Prop) `{!∀ x, Decision (P x)} `{!∀ x, Decision (Q x)}.

Lemma filter_same (l : list A) : (∀ d, d ∈ l → P d ↔ Q d) → filter P l = filter Q l.
Proof using Type.
  induction l as [|x l IH]; [done|]. intros Hs. rewrite !filter_cons, IH by (intros d Hd; apply Hs; by right).
  pose proof (Hs x ltac:(by left)). repeat case_decide; tauto.
Qed.

Lemma filter_flip (l : list A) (c : A) :
  NoDup l → c ∈ l → P c → ¬ Q c → (∀ d, d ∈ l → d ≠ c → P d ↔ Q d) → length (filter P l) = S (length (filter Q l)).
Proof.
  induction l as [|x l IH]; [by intros _ ?%elem_of_nil|]. intros [Hx Hnd]%NoDup_cons Hin HP HQ Hsame.
  rewrite !filter_cons. destruct (decide (x = c)) as [->|Hne].
  - rewrite decide_True, decide_False by done. cbn [length]. do 2 f_equal. apply filter_same.
    intros d Hd. apply Hsame; [by right|]. by intros ->.
  - apply elem_of_cons in Hin as [->|Hin]; [done|]. pose proof (Hsame x ltac:(by left) Hne) as Hsx.
    assert (IH' := IH Hnd Hin HP HQ ltac:(intros d Hd; apply Hsame; by right)).
    repeat case_decide; cbn [length]; [by f_equal|tauto..|done].
Qed.
End filters.

(** ** The table as a function *)

Definition fat (v : fatfs_volume) (c : Z) : Z := default 0 (fatfs_read_fat v c).

(** The clusters of the volume. *)
Definition in_volume (v : fatfs_volume) (c : Z) : Prop := 2 ≤ c < total_clusters v + 2.

(** Bytes of the tables, and of a cluster. *)
Definition table_byte (v : fatfs_volume) (i : Z) : Prop := fat_start v ≤ i < fat_end v.
Definition cluster_byte (v : fatfs_volume) (c i : Z) : Prop := cluster_at v c ≤ i < cluster_at v c + cluster_bytes v.

Definition content (v : fatfs_volume) (c : Z) : list Z :=
  take (Z.to_nat (cluster_bytes v)) (drop (Z.to_nat (cluster_at v c)) (base v)).

Lemma eoc_bound v : geometry v → 0 ≤ fatfs_eoc_marker v < value_bound v.
Proof. intros _. unfold fatfs_eoc_marker, value_bound. by destruct (is_fat32 v). Qed.

Lemma eoc_is_eoc v : fatfs_is_eoc v (fatfs_eoc_marker v) = true.
Proof. unfold fatfs_eoc_marker, fatfs_is_eoc. by destruct (is_fat32 v). Qed.

Lemma in_volume_not_eoc v c : geometry v → 0 ≤ c < total_clusters v + 2 → fatfs_is_eoc v c = false.
Proof.
  intros Hg Hc. pose proof (geo_clusters _ Hg). unfold fatfs_is_eoc. destruct (is_fat32 v).
  - rewrite land_mask28 by lia. lia.
  - lia.
Qed.

Lemma in_volume_bound v c : geometry v → 0 ≤ c < total_clusters v + 2 → 0 ≤ c < value_bound v.
Proof. intros Hg Hc. pose proof (geo_clusters _ Hg). unfold value_bound. destruct (is_fat32 v); lia. Qed.

Section views.
Context (v : fatfs_volume) (Hg : geometry v).

Lemma read_fat_ok c : 0 ≤ c → fatfs_read_fat v c = Some (fat v c) ∧ 0 ≤ fat v c < value_bound v.
Proof using Hg.
  intros Hc. unfold fat. destruct (decide (c < total_clusters v + 2)).
  - rewrite read_fat_entry by (done || lia). destruct (geo_fats _ Hg).
    by destruct (entry_returns v 0 c Hg) as (x & -> & Hx); [lia|lia|].
  - rewrite read_fat_past by (done || lia). split; [done|]. by apply eoc_bound.
Qed.

Lemma fat_past c : total_clusters v + 2 ≤ c → fat v c = fatfs_eoc_marker v.
Proof using Hg. intros Hc. unfold fat. by rewrite read_fat_past. Qed.

Lemma cluster_size_ok : fatfs_cluster_size_bytes v = cluster_bytes v ∧ 0 < cluster_bytes v.
Proof using Hg.
  destruct Hg. unfold fatfs_cluster_size_bytes, cluster_bytes, data_start, fat_end in *. split; [|nia]. apply u32_small. nia.
Qed.

Lemma cluster_bounds c : in_volume v c → fat_end v ≤ cluster_at v c ∧ cluster_at v c + cluster_bytes v ≤ size v.
Proof using Hg.
  intros Hc. unfold in_volume in Hc. pose proof (geo_data _ Hg). pose proof (geo_end _ Hg). destruct cluster_size_ok as [_ Hp].
  unfold cluster_at. nia.
Qed.

Lemma cluster_ptr_ok c : in_volume v c → fatfs_cluster_ptr v c = Some (Z.to_nat (cluster_at v c)).
Proof using Hg.
  intros Hc. pose proof (cluster_bounds c Hc) as Hb. destruct cluster_size_ok as [_ Hp]. pose proof (geo_fat_bounds v Hg).
  pose proof (geo_size _ Hg). destruct (geo_sector _ Hg) as [Hs _]. pose proof (geo_cluster _ Hg). pose proof (geo_data _ Hg).
  unfold in_volume in Hc. unfold cluster_at, data_start, cluster_bytes in *.
  assert (0 ≤ data_start_sector v) by nia.
  unfold fatfs_cluster_ptr. rewrite (proj2 (Z.ltb_ge _ _)) by lia.
  rewrite (u32_small ((c - 2) * _)), (u32_small (data_start_sector v + _)) by nia.
  rewrite sector_ptr_ok by (done || nia). do 2 f_equal. nia.
Qed.

Lemma content_length c : in_volume v c → length (content v c) = Z.to_nat (cluster_bytes v).
Proof using Hg.
  intros Hc. pose proof (cluster_bounds c Hc). pose proof (geo_image _ Hg). pose proof (geo_fat_bounds v Hg).
  unfold content. rewrite length_take, length_drop. lia.
Qed.

Lemma clusters_disjoint c d i : in_volume v c → in_volume v d → cluster_byte v c i → cluster_byte v d i → c = d.
Proof using Hg.
  intros Hc Hd. unfold cluster_byte, cluster_at. destruct cluster_size_ok as [_ Hp]. intros H1 H2.
  destruct (Z.lt_trichotomy c d) as [?|[?|?]]; [nia|done|nia].
Qed.

Lemma table_not_cluster c i : in_volume v c → table_byte v i → ¬ cluster_byte v c i.
Proof using Hg. intros Hc. pose proof (cluster_bounds c Hc). unfold table_byte, cluster_byte. lia. Qed.

End views.

(** ** What an update keeps *)

Section kept.
Context (P : Z → Prop) (v v' : fatfs_volume) (Hg : geometry v) (Hu : updates P v v').

(** A view that depends on the layout only. *)
Lemma layout_kept {A} (f : fatfs_volume → A) : (∀ b, f (set_base b v) = f v) → f v' = f v.
Proof using Hu. intros H. rewrite (upd_set _ _ _ Hu). apply H. Qed.

Lemma fat_kept c : (∀ i, table_byte v i → ¬ P i) → 0 ≤ c → fat v' c = fat v c.
Proof using Hg Hu.
  intros HP Hc. pose proof (upd_geo _ _ _ Hu) as Hg'. unfold fat. f_equal.
  assert (Ht : total_clusters v' = total_clusters v) by by apply layout_kept.
  destruct (decide (c < total_clusters v + 2)).
  - destruct (geo_fats _ Hg). rewrite !read_fat_entry by (done || lia). apply entry_agree; [apply Hu| |].
    + pose proof (slot_bounds v Hg 0 c ltac:(lia) ltac:(lia)). pose proof (geo_fat_bounds v Hg). lia.
    + intros i Hi. apply Hu, HP. pose proof (slot_bounds v Hg 0 c ltac:(lia) ltac:(lia)). unfold table_byte. lia.
  - rewrite !read_fat_past by (done || lia). by rewrite (layout_kept fatfs_eoc_marker).
Qed.

Lemma content_kept c : in_volume v c → (∀ i, cluster_byte v c i → ¬ P i) → content v' c = content v c.
Proof using Hg Hu.
  intros Hc HP. unfold content. rewrite (layout_kept cluster_bytes), (layout_kept (λ v, cluster_at v c)) by done.
  pose proof (cluster_bounds v Hg c Hc). pose proof (geo_fat_bounds v Hg).
  apply list_eq. intros j. destruct (decide (j < Z.to_nat (cluster_bytes v))%nat).
  - rewrite !lookup_take_lt, !lookup_drop by done. apply Hu, HP. unfold cluster_byte. lia.
  - by rewrite !lookup_take_ge by lia.
Qed.

End kept.

(** ** Writing an entry *)

Lemma wrote_fat c x v v' d :
  geometry v → 0 ≤ c < total_clusters v + 2 → wrote 0 c x v v' → 0 ≤ d → fat v' d = if decide (d = c) then x else fat v d.
Proof.
  intros Hg Hc [Hu Hh Ht] Hd. pose proof (upd_geo _ _ _ Hu) as Hg'. destruct (geo_fats _ Hg).
  assert (E : total_clusters v' = total_clusters v) by by apply (layout_kept _ _ _ Hu).
  unfold fat. destruct (decide (d < total_clusters v + 2)).
  - rewrite !read_fat_entry by (done || lia). case_decide as Hdc; [subst d; by rewrite Hh by lia|].
    rewrite (Ht 0 d); [done|lia|lia|by left].
  - rewrite decide_False by lia. rewrite !read_fat_past by (done || lia).
    by rewrite (layout_kept _ _ _ Hu fatfs_eoc_marker).
Qed.

(** [fatfs_write_fat] on the table. *)
Lemma write_fat_table c x v :
  geometry v → in_volume v c → 0 ≤ x < value_bound v →
  ∃ v', fatfs_write_fat c x v = Some v' ∧ updates (table_byte v) v v' ∧
    ∀ d, 0 ≤ d → fat v' d = if decide (d = c) then x else fat v d.
Proof.
  unfold in_volume. intros Hg Hc Hx. destruct (write_fat_ok c x v Hg ltac:(lia) Hx) as (v' & Hv' & Hw).
  exists v'. split; [done|]. split; [apply Hw|]. intros d Hd. by apply wrote_fat; [|lia| |].
Qed.

(** A store into a cluster: the bytes from [k] on are the data, the others stay. *)
Lemma poke_cluster c k bs v :
  geometry v → in_volume v c → bytes bs → 0 ≤ k → k + Z.of_nat (length bs) ≤ cluster_bytes v →
  ∃ v', poke (Z.to_nat (cluster_at v c) + Z.to_nat k) bs v = Some v' ∧ updates (cluster_byte v c) v v' ∧
    content v' c = take (Z.to_nat k) (content v c) ++ bs ++ drop (Z.to_nat k + length bs) (content v c).
Proof.
  intros Hg Hc Hb Hk Hl. pose proof (cluster_bounds v Hg c Hc) as Hcb. pose proof (geo_fat_bounds v Hg) as Hf.
  rewrite <- Z2Nat.inj_add by lia.
  destruct (poke_updates (cluster_at v c + k) bs v) as (v' & -> & Hu & Hi); [done|done|lia|lia|].
  exists v'. split; [done|]. split; [eapply updates_mono; [exact Hu|]; unfold cluster_byte; lia|].
  pose proof (content_length v Hg c Hc) as Hcl. unfold content in *.
  rewrite (layout_kept _ _ _ Hu cluster_bytes), (layout_kept _ _ _ Hu (λ v, cluster_at v c)) by done.
  apply list_eq. intros j. destruct (decide (j < Z.to_nat (cluster_bytes v))%nat) as [Hj|Hj].
  - rewrite lookup_take_lt, lookup_drop by done. destruct (decide (j < Z.to_nat k)%nat) as [H1|H1].
    + rewrite lookup_app_l by (rewrite length_take; lia). rewrite !lookup_take_lt, lookup_drop by lia. apply Hu. lia.
    + rewrite lookup_app_r by (rewrite length_take; lia). rewrite (length_take _ (Z.to_nat k)), Hcl, Nat.min_l by lia.
      destruct (decide (j - Z.to_nat k < length bs)%nat) as [H2|H2].
      * rewrite lookup_app_l, <- (Hi (j - Z.to_nat k)%nat) by done. f_equal. lia.
      * rewrite lookup_app_r, lookup_drop, lookup_take_lt, lookup_drop by lia. rewrite (upd_same _ _ _ Hu) by lia. f_equal. lia.
  - rewrite lookup_take_ge, lookup_ge_None_2 by (rewrite ?length_app, ?length_take, ?length_drop, ?Hcl; lia). done.
Qed.

(** ** Allocating *)

Lemma zero_cluster_ok c v :
  geometry v → in_volume v c →
  ∃ v', fatfs_zero_cluster c v = Some v' ∧ updates (cluster_byte v c) v v' ∧ content v' c = replicate (Z.to_nat (cluster_bytes v)) 0.
Proof.
  intros Hg Hc. unfold fatfs_zero_cluster. rewrite cluster_ptr_ok by done. destruct (cluster_size_ok v Hg) as [-> Hp].
  destruct (poke_cluster c 0 (replicate (Z.to_nat (cluster_bytes v)) 0) v) as (v' & Hv' & Hu & Hco);
    [done|done|by apply bytes_replicate|lia|rewrite length_replicate; lia|].
  rewrite Nat.add_0_r in Hv'. exists v'. split; [done|]. split; [done|]. rewrite Hco, length_replicate, drop_ge, app_nil_r; [done|].
  rewrite content_length by done. lia.
Qed.

(** The clusters with entry 0, in order. *)
Definition free_clusters (v : fatfs_volume) : list Z := filter (λ c, fat v c = 0) (seqZ 2 (total_clusters v)).

Lemma elem_of_free v c : c ∈ free_clusters v ↔ in_volume v c ∧ fat v c = 0.
Proof. unfold free_clusters, in_volume. rewrite list_elem_of_filter, elem_of_seqZ. intuition lia. Qed.

(** The first of them. *)
Lemma head_free v c : in_volume v c → fat v c = 0 → (∀ d, in_volume v d → d < c → fat v d ≠ 0) → head (free_clusters v) = Some c.
Proof.
  intros Hin Hz Hmin. pose proof Hin as [H2 H3]. unfold free_clusters.
  replace (total_clusters v) with ((c - 2) + (1 + (total_clusters v - (c - 1)))) by lia.
  rewrite !seqZ_app by lia. rewrite !filter_app. rewrite (filter_none _ (seqZ 2 (c - 2))).
  - replace (2 + (c - 2)) with c by lia. rewrite seqZ_cons by lia. cbn [app]. rewrite filter_cons, decide_True by done. done.
  - apply Forall_forall. intros d [Hd1 Hd2]%elem_of_seqZ. apply Hmin; [unfold in_volume; lia|lia].
Qed.

(** What taking cluster [c] changes: its entry ends a chain, its bytes are 0. *)
Record allocated (c : Z) (v v' : fatfs_volume) : Prop := {
  al_in : in_volume v c;
  al_was_free : fat v c = 0;
  al_upd : updates (λ i, table_byte v i ∨ cluster_byte v c i) v v';
  al_fat : ∀ d, 0 ≤ d → fat v' d = if decide (d = c) then fatfs_eoc_marker v else fat v d;
  al_content : content v' c = replicate (Z.to_nat (cluster_bytes v)) 0
}.

Lemma take_cluster c v :
  geometry v → in_volume v c → fat v c = 0 →
  ∃ v', (v ← fatfs_write_fat c (fatfs_eoc_marker v) v; v ← fatfs_zero_cluster c v; Some (c, v)) = Some (c, v') ∧ allocated c v v'.
Proof.
  intros Hg Hc Hf. destruct (write_fat_table c (fatfs_eoc_marker v) v) as (v1 & -> & Hu1 & Hf1); [done|done|by apply eoc_bound|].
  cbn [mbind option_bind]. pose proof (upd_geo _ _ _ Hu1) as Hg1.
  assert (Hc1 : in_volume v1 c) by (unfold in_volume; by rewrite (layout_kept _ _ _ Hu1 total_clusters)).
  destruct (zero_cluster_ok c v1 Hg1 Hc1) as (v2 & -> & Hu2 & Hz2). cbn [mbind option_bind]. exists v2. split; [done|].
  assert (Ec : cluster_byte v1 c = cluster_byte v c) by by apply (layout_kept _ _ _ Hu1 (λ v, cluster_byte v c)).
  constructor; [done|done| | |].
  - eapply updates_trans; [eapply updates_mono; [exact Hu1|by left]|]. eapply updates_mono; [exact Hu2|]. rewrite Ec. by right.
  - intros d Hd. rewrite (fat_kept _ v1 v2 Hg1 Hu2); [by apply Hf1| |done]. intros i Hi. by apply table_not_cluster.
  - by rewrite Hz2, (layout_kept _ _ _ Hu1 cluster_bytes).
Qed.

Lemma allocate_loop_ok n c v :
  geometry v → 2 ≤ c ≤ total_clusters v + 3 → total_clusters v + 3 ≤ c + Z.of_nat n →
  ∃ r, allocate_loop n c (total_clusters v + 2) v = Some r ∧
    ((r = (0, v) ∧ ∀ d, c ≤ d → in_volume v d → fat v d ≠ 0) ∨
     ∃ d v', r = (d, v') ∧ allocated d v v' ∧ ∀ d', c ≤ d' < d → fat v d' ≠ 0).
Proof.
  intros Hg. revert c. induction n as [|n IH]; intros c Hc Hn; cbn [allocate_loop].
  all: destruct (Z.ltb_spec (total_clusters v + 2) c).
  1,3: eexists; split; [done|]; left; split; [done|]; unfold in_volume; lia.
  { lia. }
  destruct (read_fat_ok v Hg c) as [-> Hb]; [lia|]. cbn [mbind option_bind]. destruct (Z.eqb_spec (fat v c) 0) as [Hz|Hz].
  - assert (Hin : in_volume v c).
    { unfold in_volume. destruct (decide (c < total_clusters v + 2)); [lia|]. rewrite fat_past in Hz by (done || lia).
      unfold fatfs_eoc_marker in Hz. by destruct (is_fat32 v). }
    destruct (take_cluster c v Hg Hin Hz) as (v' & -> & Ha). eexists. split; [done|]. right. exists c, v'. split; [done|]. split; [done|lia].
  - rewrite u32_small by (pose proof (geo_clusters _ Hg); destruct (is_fat32 v); lia).
    destruct (IH (c + 1) ltac:(lia) ltac:(lia)) as (r & -> & Hr). exists r. split; [done|].
    destruct Hr as [[-> Hd]|(d & v' & -> & Ha & Hd)].
    + left. split; [done|]. intros d Hcd Hin. destruct (decide (d = c)) as [->|]; [done|]. apply Hd; [lia|done].
    + right. exists d, v'. split; [done|]. split; [done|]. intros d' Hd'. destruct (decide (d' = c)) as [->|]; [done|]. apply Hd. lia.
Qed.

(** The first free cluster, or 0 when there is none. *)
Lemma allocate_cases v :
  geometry v →
  (free_clusters v = [] ∧ fatfs_allocate_cluster v = Some (0, v)) ∨
  ∃ c v', fatfs_allocate_cluster v = Some (c, v') ∧ allocated c v v' ∧ ∀ d, in_volume v d → d < c → fat v d ≠ 0.
Proof.
  intros Hg. pose proof (geo_clusters _ Hg) as Ht. unfold fatfs_allocate_cluster.
  rewrite (u32_small (total_clusters v + 1)), (u32_small (_ + 1 + 1)) by (destruct (is_fat32 v); lia).
  replace (total_clusters v + 1 + 1) with (total_clusters v + 2) by lia.
  destruct (allocate_loop_ok (chain_fuel v) 2 v Hg) as (r & -> & Hr); [lia|unfold chain_fuel; lia|].
  destruct Hr as [[-> Hd]|(d & v' & -> & Ha & Hd)]; [left|right].
  - split; [|done]. apply elem_of_nil_inv. intros c. rewrite elem_of_free. intros [Hin Hz]. apply (Hd c); [unfold in_volume in Hin; lia|done|done].
  - exists d, v'. split; [done|]. split; [done|]. intros d' [? ?] ?. apply Hd. lia.
Qed.

(** One free cluster fewer. *)
Lemma allocated_free c v v' : geometry v → allocated c v v' → length (free_clusters v) = S (length (free_clusters v')).
Proof.
  intros Hg [Hin Hf Hu Hfat _]. unfold free_clusters. rewrite (layout_kept _ _ _ Hu total_clusters) by done. unfold in_volume in Hin.
  apply (filter_flip _ _ _ c); [apply NoDup_seqZ|apply elem_of_seqZ; lia|done| |].
  - rewrite Hfat, decide_True by (lia || done). unfold fatfs_eoc_marker. by destruct (is_fat32 v).
  - intros d [Hd _]%elem_of_seqZ Hne. rewrite Hfat, decide_False by (lia || done). done.
Qed.

(** ** Freeing *)

(** One step along a chain. *)
Definition edge (v : fatfs_volume) (c d : Z) : Prop := in_volume v c ∧ fat v c = d ∧ fatfs_is_eoc v d = false ∧ 2 ≤ d.

(** What [fatfs_free_chain] leaves: the clusters reached from [start] are free and
    the other entries are as they were. *)
Record freed (start : Z) (v v' : fatfs_volume) : Prop := {
  fr_upd : updates (table_byte v) v v';
  fr_reached : ∀ d, in_volume v d → 2 ≤ start → rtc (edge v) start d → fat v' d = 0;
  fr_other : ∀ d, 0 ≤ d → ¬ (in_volume v d ∧ 2 ≤ start ∧ rtc (edge v) start d) → fat v' d = fat v d;
  fr_free : ∀ d, in_volume v d → fat v' d = 0 → fat v d = 0 ∨ (2 ≤ start ∧ rtc (edge v) start d)
}.

(** Clusters in use. *)
Definition live (v : fatfs_volume) : nat := length (filter (λ c, fat v c ≠ 0) (seqZ 2 (total_clusters v))).

(** A cluster that is emptied has no step to take: what is reached from it is itself
    and what is reached from its successor in the table that is left. *)
Lemma reach_split v v1 c d :
  (∀ d, 0 ≤ d → fat v1 d = if decide (d = c) then 0 else fat v d) → total_clusters v1 = total_clusters v →
  (∀ x, fatfs_is_eoc v1 x = fatfs_is_eoc v x) → in_volume v c →
  rtc (edge v) c d ↔ d = c ∨ (edge v c (fat v c) ∧ rtc (edge v1) (fat v c) d).
Proof.
  intros Hf Ht He Hc. unfold in_volume in Hc.
  assert (Hsub : ∀ x y, edge v1 x y → edge v x y).
  { intros x y (Hx & Hy & Hny & H2). unfold edge, in_volume in *. rewrite He in Hny. rewrite Ht in Hx. rewrite Hf in Hy by lia.
    case_decide; [lia|]. done. }
  split.
  - revert d. apply rtc_ind_r; [by left|]. intros x y _ Hxy IH.
    destruct (decide (x = c)) as [->|Hne].
    { right. destruct Hxy as (Hx & <- & Hr). done. }
    destruct IH as [->|[He1 Hr]]; [done|]. right. split; [done|]. eapply rtc_r; [exact Hr|].
    destruct Hxy as (Hx & Hy & Hny & H2). unfold edge, in_volume in *. rewrite He, Ht, Hf, decide_False by (lia || done). done.
  - intros [->|[He1 Hr]]; [done|]. eapply rtc_l; [exact He1|]. by eapply rtc_subrel.
Qed.

(** A start past the last cluster. *)
Lemma freed_outside c v : geometry v → total_clusters v + 2 ≤ c → freed c v v.
Proof.
  intros Hg Hc. constructor; [by apply updates_refl| |done|by left]. intros d Hd _ Hr. unfold in_volume in Hd.
  destruct (rtc_inv _ _ Hr) as [->|(y & (Hy & _) & _)]; unfold in_volume in *; lia.
Qed.

(** Emptying [c] and then, if there is a successor, what is reached from it. *)
Lemma freed_step v v1 v2 c :
  updates (table_byte v) v v1 → (∀ d, 0 ≤ d → fat v1 d = if decide (d = c) then 0 else fat v d) → in_volume v c →
  (∀ d, rtc (edge v) c d ↔ d = c ∨ (edge v c (fat v c) ∧ rtc (edge v1) (fat v c) d)) →
  (v2 = v1 ∧ ¬ edge v c (fat v c)) ∨ (edge v c (fat v c) ∧ freed (fat v c) v1 v2) → freed c v v2.
Proof.
  intros Hu Hf Hin Hr Hcase. pose proof (layout_kept _ _ _ Hu total_clusters ltac:(done)) as Ht. unfold in_volume in *.
  destruct Hcase as [[-> Hne]|[He [Fu Fr Fo Ff]]]; constructor.
  - done.
  - intros d Hd _ Hcd. apply Hr in Hcd as [->|[? _]]; [|done]. rewrite Hf, decide_True by (lia || done). done.
  - intros d Hd Hn. rewrite Hf by done. case_decide as E; [|done]. subst d. destruct Hn. by split; [|split; [lia|]].
  - intros d Hd. rewrite Hf by (unfold in_volume in Hd; lia). case_decide as E; [|by left]. subst d. right. by split; [lia|].
  - eapply updates_trans; [exact Hu|]. eapply updates_mono; [exact Fu|]. intros i. by rewrite (upd_set _ _ _ Hu).
  - pose proof He as (_ & _ & _ & H2). intros d Hd _ Hcd. apply Hr in Hcd as [->|[_ Hcd]]; [|apply Fr; [unfold in_volume; by rewrite Ht|done|done]].
    destruct (decide (fat v2 c = 0)) as [|Hnz]; [done|]. rewrite Fo; [by rewrite Hf, decide_True by (lia || done)|lia|].
    intros (? & ? & Hreach). destruct Hnz. by apply Fr.
  - pose proof He as (_ & _ & _ & H2). intros d Hd Hn. assert (d ≠ c) by (intros ->; destruct Hn; split; [|split; [lia|]]; done).
    rewrite Fo; [by rewrite Hf, decide_False|done|]. intros (Hv & _ & Hreach). destruct Hn. unfold in_volume in Hv. rewrite Ht in Hv.
    split; [done|]. split; [lia|]. apply Hr. by right.
  - intros d Hd Hz. destruct (Ff d) as [Hz1|[_ Hreach]]; [unfold in_volume; by rewrite Ht|done| |right; split; [lia|]; apply Hr; by right].
    rewrite Hf in Hz1 by (unfold in_volume in Hd; lia). case_decide as E; [|by left]. subst d. right. by split; [lia|].
Qed.

Lemma live_drop v v1 c :
  in_volume v c → fat v c ≠ 0 → (∀ d, 0 ≤ d → fat v1 d = if decide (d = c) then 0 else fat v d) →
  total_clusters v1 = total_clusters v → live v = S (live v1).
Proof.
  intros Hc Hn Hf Ht. unfold live. rewrite Ht. unfold in_volume in Hc.
  apply (filter_flip _ _ _ c); [apply NoDup_seqZ|apply elem_of_seqZ; lia|done| |].
  - rewrite Hf, decide_True by (lia || done). auto.
  - intros d [Hd _]%elem_of_seqZ Hne. by rewrite Hf, decide_False by (lia || done).
Qed.

(** The loop ends: every step but the last empties an entry that was in use. *)
Lemma free_loop_ok fuel c v : geometry v → 0 ≤ c → (live v + 2 ≤ fuel)%nat → ∃ v', free_loop fuel c v = Some v' ∧ freed c v v'.
Proof.
  revert c v. induction fuel as [|fuel IH]; intros c v Hg Hc Hl; [lia|]. cbn [free_loop].
  destruct (Z.ltb_spec c 2).
  { exists v. split; [done|]. constructor; [by apply updates_refl|lia|done|by left]. }
  destruct (read_fat_ok v Hg c Hc) as [-> Hb]. cbn [mbind option_bind].
  destruct (decide (c < total_clusters v + 2)) as [Hlt|Hge].
  2: { unfold fatfs_write_fat. destruct (clusters_u32 v Hg c) as [_ ->]. rewrite bool_decide_eq_true_2 by lia. cbn [mbind option_bind].
       rewrite fat_past, eoc_is_eoc by (done || lia). exists v. split; [done|]. apply freed_outside; [done|lia]. }
  assert (Hin : in_volume v c) by (unfold in_volume; lia).
  destruct (write_fat_table c 0 v) as (v1 & -> & Hu & Hf); [done|done|unfold value_bound; destruct (is_fat32 v); lia|].
  cbn [mbind option_bind]. assert (He : ∀ x, fatfs_is_eoc v1 x = fatfs_is_eoc v x) by (intros x; by apply (layout_kept _ _ _ Hu (λ v, fatfs_is_eoc v x))).
  pose proof (layout_kept _ _ _ Hu total_clusters ltac:(done)) as Ht. rewrite He.
  pose proof (λ d, reach_split v v1 c d Hf Ht He Hin) as Hr.
  destruct (fatfs_is_eoc v (fat v c)) eqn:Heoc.
  { exists v1. split; [done|]. apply (freed_step v v1 v1 c); try done. left. split; [done|]. intros (_ & _ & ? & _). congruence. }
  destruct (decide (2 ≤ fat v c)) as [H2|H2].
  - destruct (IH (fat v c) v1) as (v2 & -> & Hv2); [apply Hu|lia| |exists v2; split; [done|]; apply (freed_step v v1 v2 c); try done; right].
    + pose proof (live_drop v v1 c Hin ltac:(lia) Hf Ht). lia.
    + split; [|done]. done.
  - exists v1. destruct fuel; [lia|]. cbn [free_loop]. rewrite (proj2 (Z.ltb_lt _ _)) by lia. split; [done|].
    apply (freed_step v v1 v1 c); try done. left. split; [done|]. intros (_ & _ & _ & ?). lia.
Qed.

Lemma free_chain_ok c v : geometry v → 0 ≤ c → ∃ v', fatfs_free_chain c v = Some v' ∧ freed c v v'.
Proof.
  intros Hg Hc. apply free_loop_ok; [done|done|]. unfold live, chain_fuel.
  pose proof (length_filter (λ c, fat v c ≠ 0) (seqZ 2 (total_clusters v))) as Hl. rewrite length_seqZ in Hl. lia.
Qed.

End FatChain.
