(* ===== verification/FatFile.v ===== *)
(** The contents of files: chains as lists of clusters, what reading a chain
    returns, and that replacing a file's contents stores them in a fresh chain
    without touching any other chain.

    Replacing a file's contents: the new chain, the count of free clusters, and
    the volume after a write that runs out of clusters. *)

From stdpp Require Import relations.
From S2P Require Import Prelude Arrays Bytes Block Fat FatTable FatChain.

Module FatFile.

Import Arrays Bytes Fat FatTable FatChain.

(** ** Chains *)

(** The clusters [l] follow one another and the last one ends the chain. *)
Definition linked (v : fatfs_volume) (l : list Z) : Prop :=
  NoDup l ∧ ∀ i c, l !! i = Some c →
    in_volume v c ∧ match l !! S i with Some d => fat v c = d | None => fatfs_is_eoc v (fat v c) = true end.

Definition contents (v : fatfs_volume) (l : list Z) : list Z := concat (content v <$> l).

Lemma linked_nil v : linked v [].
Proof. by split; [constructor|]. Qed.

Lemma linked_in v l c : linked v l → c ∈ l → in_volume v c.
Proof. intros [_ H] [i Hi]%list_elem_of_lookup. by apply (H i). Qed.

Lemma linked_tail v c l : linked v (c :: l) → linked v l.
Proof. intros [[_ Hnd]%NoDup_cons H]. split; [done|]. intros i d Hi. by apply (H (S i) d). Qed.

Lemma linked_nonzero v l c : linked v l → c ∈ l → fat v c ≠ 0.
Proof.
  intros Hl [i Hi]%list_elem_of_lookup. destruct (proj2 Hl i c Hi) as [_ Hm]. destruct (l !! S i) as [d|] eqn:Hd.
  - rewrite Hm. destruct (proj2 Hl _ _ Hd) as [[? _] _]. lia.
  - intros Hz. rewrite Hz in Hm. unfold fatfs_is_eoc in Hm. by destruct (is_fat32 v).
Qed.

(** A chain whose clusters keep their entries. *)
Lemma linked_ext v v' l :
  (∀ c, c ∈ l → fat v' c = fat v c) → total_clusters v' = total_clusters v → (∀ x, fatfs_is_eoc v' x = fatfs_is_eoc v x) →
  linked v l → linked v' l.
Proof.
  intros Hf Ht He [Hnd H]. split; [done|]. intros i c Hi. unfold in_volume. rewrite Ht, Hf by (by eapply list_elem_of_lookup_2).
  destruct (H i c Hi) as [Hin Hm]. split; [done|]. destruct (l !! S i); [done|]. by rewrite He.
Qed.

(** A cluster at the end: the last entry points to it, its own ends the chain. *)
Lemma linked_snoc v v' l c :
  linked v l → in_volume v c → c ∉ l → total_clusters v' = total_clusters v → fatfs_is_eoc v' (fat v' c) = true →
  (∀ p, last l = Some p → fat v' p = c) → (∀ d, d ∈ l → last l ≠ Some d → fat v' d = fat v d) → linked v' (l ++ [c]).
Proof.
  intros [Hnd H] Hc Hni Ht He Hp Hd. split; [apply NoDup_app; split; [done|]; split; [|apply NoDup_singleton]; set_solver|].
  intros i x Hi. unfold in_volume. rewrite Ht. apply lookup_app_Some in Hi as [Hi|[Hge Hi]].
  - destruct (H i x Hi) as [Hin Hm]. split; [done|]. pose proof (lookup_lt_Some _ _ _ Hi) as Hlt.
    destruct (decide (S i < length l)%nat) as [Hs|Hs].
    + rewrite lookup_app_l by done. destruct (lookup_lt_is_Some_2 l (S i) Hs) as [d E]. rewrite E in *.
      rewrite Hd; [done|by eapply list_elem_of_lookup_2|]. rewrite last_lookup. intros Hl.
      pose proof (NoDup_lookup _ _ _ _ Hnd Hi Hl). lia.
    + rewrite lookup_app_r by lia. replace (S i - length l)%nat with 0%nat by lia. cbn.
      apply Hp. rewrite last_lookup. by replace (pred (length l)) with i by lia.
  - destruct (i - length l)%nat as [|j] eqn:E; [|done]. cbn in Hi. apply (inj Some) in Hi as <-. split; [done|].
    rewrite lookup_app_r by lia. by replace (S i - length l)%nat with 1%nat by lia.
Qed.

(** Every cluster of a chain is reached from its head. *)
Lemma linked_reach v l c d : geometry v → linked v (c :: l) → d ∈ c :: l → rtc (edge v) c d.
Proof.
  intros Hg. revert c. induction l as [|c' l IH]; intros c Hl Hd.
  - apply list_elem_of_singleton in Hd as ->. done.
  - apply elem_of_cons in Hd as [->|Hd]; [done|]. destruct (proj2 Hl 0%nat c eq_refl) as [Hin Hm]. cbn in Hm.
    destruct (proj2 Hl 1%nat c' eq_refl) as [Hin' _]. eapply rtc_l; [|by apply IH; [by eapply linked_tail|]].
    unfold in_volume in Hin'. split; [done|]. split; [done|]. rewrite in_volume_not_eoc by (done || lia). split; [done|lia].
Qed.

(** Only they are. *)
Lemma reach_linked v l c d : linked v (c :: l) → rtc (edge v) c d → d ∈ c :: l.
Proof.
  intros Hl Hr. revert l Hl. induction Hr as [c|c x d (Hin & <- & Hne & H2) Hr IH]; intros l Hl; [by left|].
  destruct (proj2 Hl 0%nat c eq_refl) as [_ Hm]. cbn in Hm. destruct l as [|c' l]; cbn in Hm; [congruence|].
  subst c'. right. apply IH. by eapply linked_tail.
Qed.

Lemma contents_length v l : geometry v → Forall (in_volume v) l → length (contents v l) = (length l * Z.to_nat (cluster_bytes v))%nat.
Proof.
  intros Hg. unfold contents. induction 1 as [|c l Hc _ IH]; [done|]. cbn [fmap list_fmap concat length].
  rewrite length_app, content_length, IH by done. lia.
Qed.

(** ** Reading a chain *)

(** Loading [m - t] bytes along a chain that has them. *)
Lemma load_loop_ok fuel v c l out t m :
  geometry v → linked v (c :: l) → (t < m ≤ length out)%nat → (m - t ≤ length (contents v (c :: l)))%nat → (m - t ≤ fuel)%nat →
  load_loop fuel v c out t m = Some (take t out ++ take (m - t) (contents v (c :: l)) ++ drop m out, m).
Proof.
  intros Hg. revert c l out t. induction fuel as [|fuel IH]; intros c l out t Hl Ht Hm Hf; [lia|]. cbn [load_loop].
  destruct (proj2 Hl 0%nat c eq_refl) as [Hin Hnext]. cbn in Hnext. pose proof Hin as [H2 _].
  rewrite (proj2 (Z.ltb_ge _ _)), (proj2 (Nat.leb_gt _ _)) by lia. cbn [orb]. rewrite cluster_ptr_ok by done.
  destruct (cluster_size_ok v Hg) as [-> Hp]. set (cs := Z.to_nat (cluster_bytes v)). set (n := Nat.min cs (m - t)).
  pose proof (cluster_bounds v Hg c Hin). pose proof (geo_image _ Hg). pose proof (geo_fat_bounds v Hg).
  rewrite field_ok by lia. cbn [mbind option_bind].
  assert (E : take n (drop (Z.to_nat (cluster_at v c)) (base v)) = take n (content v c)).
  { unfold content. rewrite take_take. f_equal. lia. }
  rewrite E. assert (Hln : length (take n (content v c)) = n) by (rewrite length_take, content_length by done; lia).
  rewrite buf_copy_ok by (rewrite Hln; lia). cbn [mbind option_bind]. rewrite Hln.
  destruct (read_fat_ok v Hg c) as [-> _]; [lia|]. cbn [mbind option_bind].
  unfold contents in *. cbn [fmap list_fmap concat] in *. rewrite length_app, content_length in Hm by done. fold cs in Hm.
  destruct (decide (m - t ≤ cs)%nat) as [Hlast|Hmore].
  - assert (n = m - t)%nat as -> by lia. replace (t + (m - t))%nat with m by lia.
    rewrite take_app_le by (rewrite content_length by done; lia).
    destruct (fatfs_is_eoc v (fat v c)); [done|]. destruct fuel; cbn [load_loop]; by rewrite (proj2 (Nat.leb_le m m)), orb_true_r by lia.
  - assert (n = cs) as -> by lia. destruct l as [|c' l]; [cbn in Hm; lia|]. cbn in Hnext. rewrite Hnext.
    destruct (proj2 Hl 1%nat c' eq_refl) as [[? ?] _]. rewrite in_volume_not_eoc by (done || lia).
    rewrite (IH c' l); [|by eapply linked_tail| |unfold contents; cbn [fmap list_fmap concat] in *; lia|lia].
    2: { rewrite !length_app, Hln, length_take, length_drop. lia. }
    unfold contents. do 2 f_equal. rewrite take_ge with (l := content v c) by (rewrite content_length by done; lia).
    set (x := content v c) in *. assert (Hx : length x = cs) by (unfold x; by rewrite content_length).
    assert (Htl : length (take t out) = t) by (rewrite length_take; lia).
    rewrite (take_app_ge (take t out)), Htl by lia. replace (t + cs - t)%nat with cs by lia. rewrite (take_app_length' x) by lia.
    rewrite (take_app_ge x), Hx by lia. replace (m - (t + cs))%nat with (m - t - cs)%nat by lia.
    rewrite <- !(assoc app). do 3 f_equal. rewrite (drop_app_ge (take t out)), Htl by lia.
    rewrite drop_app_ge, drop_drop by lia. f_equal. lia.
Qed.

(** ** Entries of directories *)

(** The bytes of an entry that hold the first cluster and the size. *)
Definition meta_byte (e : nat) (i : Z) : Prop := Z.of_nat e + 20 ≤ i < Z.of_nat e + 32.

(** An entry behind the tables. *)
Definition placed (v : fatfs_volume) (e : nat) : Prop := fat_end v ≤ Z.of_nat e ∧ Z.of_nat e + 32 ≤ size v.

Lemma poke_at (off : nat) bs v :
  geometry v → bytes bs → Z.of_nat (off + length bs) ≤ size v →
  ∃ v', poke off bs v = Some v' ∧ updates (λ i, Z.of_nat off ≤ i < Z.of_nat (off + length bs)) v v' ∧
    ∀ j, (j < length bs)%nat → base v' !! (off + j)%nat = bs !! j.
Proof.
  intros Hg Hb Hs. destruct (poke_updates (Z.of_nat off) bs v Hg Hb) as (v' & Hp & Hu & Hi); [lia|lia|].
  rewrite Nat2Z.id in Hp, Hi. exists v'. split; [done|]. split; [|done]. eapply updates_mono; [exact Hu|]. cbn. lia.
Qed.

Lemma set_file_size_ok e n v :
  geometry v → placed v e → 0 ≤ n < 2 ^ 32 →
  ∃ v', set_file_size e n v = Some v' ∧ updates (meta_byte e) v v' ∧ entry_file_size v' e = Some n ∧
    fatfs_first_cluster v' e = fatfs_first_cluster v e.
Proof.
  intros Hg [_ Hs] Hn. unfold set_file_size. destruct (poke_at (e + 28) (le32 n) v Hg (le32_bytes n)) as (v' & -> & Hu & Hi);
    [cbn [le32 length]; lia|]. exists v'. split; [done|]. cbn [le32 length] in Hu. split; [|split].
  - eapply updates_mono; [exact Hu|]. unfold meta_byte. cbn. lia.
  - apply read_le32_at; [done|exact Hi].
  - unfold fatfs_first_cluster. by rewrite !(read_le16_agree (base v') (base v)) by (intros i Hr; apply Hu; lia).
Qed.

Lemma lor_halves c : 0 ≤ c < 2 ^ 32 → Z.lor (Z.shiftl (Z.land (Z.shiftr c 16) 0xFFFF) 16) (Z.land c 0xFFFF) = c.
Proof.
  intros Hc. change 0xFFFF with (Z.ones 16). rewrite !Z.land_ones, Z.lor_comm, lor_shiftl, Z.shiftr_div_pow2 by
    (lia || (apply Z.mod_pos_bound; lia)).
  rewrite (Z.mod_small (c / _)) by (split; [apply Z.div_pos; lia|apply Z.div_lt_upper_bound; lia]).
  pose proof (Z.div_mod c (2 ^ 16) ltac:(lia)). lia.
Qed.

Lemma half_bound x : 0 ≤ Z.land x 0xFFFF < 65536.
Proof. change 0xFFFF with (Z.ones 16). rewrite Z.land_ones by lia. by apply Z.mod_pos_bound. Qed.

Lemma set_first_cluster_ok e c v :
  geometry v → placed v e → 0 ≤ c < 2 ^ 32 →
  ∃ v', fatfs_set_first_cluster e c v = Some v' ∧ updates (meta_byte e) v v' ∧ fatfs_first_cluster v' e = Some c ∧
    entry_file_size v' e = entry_file_size v e.
Proof.
  intros Hg [Hf Hs] Hc. unfold fatfs_set_first_cluster.
  destruct (poke_at (e + 20) (le16 (Z.land (Z.shiftr c 16) 0xFFFF)) v Hg (le16_bytes _)) as (v1 & -> & Hu1 & Hi1);
    [cbn [le16 length]; lia|]. cbn [mbind option_bind]. pose proof (layout_kept _ _ _ Hu1 size ltac:(done)) as Hs1.
  destruct (poke_at (e + 26) (le16 (Z.land c 0xFFFF)) v1 (upd_geo _ _ _ Hu1) (le16_bytes _)) as (v2 & -> & Hu2 & Hi2);
    [cbn [le16 length]; lia|]. exists v2. split; [done|]. cbn [le16 length] in Hu1, Hu2. split; [|split].
  - eapply updates_trans; (eapply updates_mono; [eassumption|]); unfold meta_byte; cbn; lia.
  - unfold fatfs_first_cluster. rewrite (read_le16_agree (base v2) (base v1) (e + 20)) by (intros i Hi; apply Hu2; lia).
    rewrite (read_le16_at (base v1) (e + 20) (Z.land (Z.shiftr c 16) 0xFFFF)); [|apply half_bound|exact Hi1].
    rewrite (read_le16_at (base v2) (e + 26) (Z.land c 0xFFFF)); [|apply half_bound|exact Hi2]. cbn [mbind option_bind].
    by rewrite lor_halves.
  - unfold entry_file_size. rewrite (read_le32_agree (base v2) (base v)); [done|].
    intros i Hi. rewrite (upd_same _ _ _ Hu2) by lia. apply Hu1. lia.
Qed.

(** Both fields at once. *)
Lemma set_entry_ok e c n v :
  geometry v → placed v e → 0 ≤ c < 2 ^ 32 → 0 ≤ n < 2 ^ 32 →
  ∃ v', (v ← fatfs_set_first_cluster e c v; set_file_size e n v) = Some v' ∧ updates (meta_byte e) v v' ∧
    fatfs_first_cluster v' e = Some c ∧ entry_file_size v' e = Some n.
Proof.
  intros Hg Hp Hc Hn. destruct (set_first_cluster_ok e c v Hg Hp Hc) as (v1 & -> & Hu1 & Hc1 & _). cbn [mbind option_bind].
  destruct (set_file_size_ok e n v1) as (v2 & -> & Hu2 & Hn2 & Hc2);
    [apply Hu1|unfold placed; by rewrite (layout_kept _ _ _ Hu1 fat_end), (layout_kept _ _ _ Hu1 size)|done|].
  exists v2. split; [done|]. split; [by eapply updates_trans|]. by rewrite Hc2.
Qed.

Lemma first_cluster_returns v e : geometry v → placed v e → returns (fatfs_first_cluster v e) (λ c, 0 ≤ c < 2 ^ 32).
Proof.
  intros Hg [_ Hs]. pose proof (geo_image _ Hg). unfold fatfs_first_cluster.
  eapply returns_bind; [apply returns_le16; [apply Hg|lia]|]. intros h Hh.
  eapply returns_bind; [apply returns_le16; [apply Hg|lia]|]. intros l Hl. apply returns_ret.
  cbn beta in Hh, Hl. rewrite Z.lor_comm, (lor_shiftl l h 16) by lia. lia.
Qed.

End FatFile.

Module FatWrite.

Import Arrays Bytes Fat FatTable FatChain FatFile.

(** ** One cluster *)

Lemma fill_cluster_ok c data v :
  geometry v → in_volume v c → bytes data → Z.of_nat (length data) ≤ cluster_bytes v →
  ∃ v', fill_cluster (Z.to_nat (cluster_at v c)) data (Z.to_nat (cluster_bytes v)) v = Some v' ∧
    updates (cluster_byte v c) v v' ∧ content v' c = data ++ replicate (Z.to_nat (cluster_bytes v) - length data) 0.
Proof.
  intros Hg Hc Hb Hl. unfold fill_cluster.
  destruct (poke_cluster c 0 data v) as (v1 & H1 & Hu1 & Hc1); [done|done|done|lia|lia|].
  rewrite Nat.add_0_r in H1. rewrite H1. cbn [mbind option_bind].
  pose proof (layout_kept _ _ _ Hu1 (λ v, cluster_at v c) ltac:(done)) as Hat. cbn beta in Hat.
  pose proof (layout_kept _ _ _ Hu1 cluster_bytes ltac:(done)) as Hcb.
  assert (Hin1 : in_volume v1 c) by (unfold in_volume; by rewrite (layout_kept _ _ _ Hu1 total_clusters)).
  destruct (poke_cluster c (Z.of_nat (length data)) (replicate (Z.to_nat (cluster_bytes v) - length data) 0) v1) as (v2 & H2 & Hu2 & Hc2);
    [apply Hu1|done|by apply bytes_replicate|lia|rewrite length_replicate; lia|].
  rewrite Hat, Nat2Z.id in H2. exists v2. split; [done|]. split.
  - eapply updates_trans; [exact Hu1|]. by rewrite (layout_kept _ _ _ Hu1 (λ v, cluster_byte v c)) in Hu2.
  - rewrite Hc2, Hc1, Nat2Z.id, length_replicate. change (Z.to_nat 0) with 0%nat. rewrite take_0, Nat.add_0_l, app_nil_l.
    rewrite take_app_length, drop_ge, app_nil_r; [done|]. rewrite length_app, length_drop, content_length by done. lia.
Qed.

(** ** The chain being written *)

(** What has happened to the table and the data since [v0], with [acc] written. *)
Record writing (v0 : fatfs_volume) (acc : list Z) (v : fatfs_volume) : Prop := {
  wr_upd : updates (λ i, table_byte v0 i ∨ ∃ c, c ∈ acc ∧ cluster_byte v0 c i) v0 v;
  wr_free : ∀ c, c ∈ acc → in_volume v0 c ∧ fat v0 c = 0;
  wr_fat : ∀ d, 0 ≤ d → d ∉ acc → fat v d = fat v0 d;
  wr_linked : linked v acc;
  wr_count : length (free_clusters v0) = (length acc + length (free_clusters v))%nat
}.

Lemma writing_start v : geometry v → writing v [] v.
Proof. intros Hg. constructor; [by apply updates_refl|set_solver|done|apply linked_nil|done]. Qed.

(** The previous cluster is made to point to the new one. *)
Lemma link_prev acc c v :
  geometry v → (∀ p, last acc = Some p → in_volume v p) → in_volume v c →
  ∃ v', (if default 0 (last acc) =? 0 then Some v else fatfs_write_fat (default 0 (last acc)) c v) = Some v' ∧
    updates (table_byte v) v v' ∧ ∀ d, 0 ≤ d → fat v' d = if decide (last acc = Some d) then c else fat v d.
Proof.
  intros Hg Hp Hc. destruct (last acc) as [p|]; cbn [from_option id].
  - specialize (Hp p eq_refl). rewrite (proj2 (Z.eqb_neq _ _)) by (unfold in_volume in Hp; lia).
    destruct (write_fat_table p c v) as (v' & -> & Hu & Hf); [done|done|apply in_volume_bound; [done|unfold in_volume in Hc; lia]|].
    exists v'. split; [done|]. split; [done|]. intros d Hd. rewrite Hf by done. repeat case_decide; congruence.
  - exists v. split; [done|]. split; [by apply updates_refl|done].
Qed.

Lemma contents_snoc v v' acc c x :
  (∀ d, d ∈ acc → content v' d = content v d) → content v' c = x → contents v' (acc ++ [c]) = contents v acc ++ x.
Proof.
  intros Hs Hx. unfold contents. rewrite fmap_app, concat_app. cbn [fmap list_fmap concat]. rewrite Hx, app_nil_r. f_equal. f_equal.
  apply list_fmap_ext. intros i d Hd. apply Hs. by eapply list_elem_of_lookup_2.
Qed.

(** A chain that got cluster [c] with [chunk] at its end. *)
Record extended (acc : list Z) (c : Z) (chunk : list Z) (v v' : fatfs_volume) : Prop := {
  ex_in : in_volume v c;
  ex_was_free : fat v c = 0;
  ex_upd : updates (λ i, table_byte v i ∨ cluster_byte v c i) v v';
  ex_fat : ∀ d, 0 ≤ d →
    fat v' d = if decide (d = c) then fatfs_eoc_marker v else if decide (last acc = Some d) then c else fat v d;
  ex_content : content v' c = chunk
}.

Lemma extend acc c v v1 v2 v3 chunk :
  geometry v → c ∉ acc → allocated c v v1 →
  updates (table_byte v1) v1 v2 → (∀ d, 0 ≤ d → fat v2 d = if decide (last acc = Some d) then c else fat v1 d) →
  updates (cluster_byte v2 c) v2 v3 → content v3 c = chunk → extended acc c chunk v v3.
Proof.
  intros Hg Hni [Hin Hz U1 F1 _] U2 F2 U3 C3. pose proof (upd_geo _ _ _ U2) as Hg2.
  destruct (updates_inv _ _ _ U1) as [b1 ->]. destruct (updates_inv _ _ _ U2) as [b2 ->]. constructor; [done|done| | |done].
  - eapply updates_trans; [exact U1|]. eapply updates_trans; (eapply updates_mono; [eassumption|]); [by left|by right].
  - intros d Hd. rewrite (fat_kept _ _ _ Hg2 U3 d); [|intros i; by apply table_not_cluster|done].
    rewrite F2, F1 by done. repeat case_decide; try done. subst d. rewrite last_lookup in *. destruct Hni. by eapply list_elem_of_lookup_2.
Qed.

Lemma extended_linked acc c chunk v v' : geometry v → linked v acc → c ∉ acc → extended acc c chunk v v' → linked v' (acc ++ [c]).
Proof.
  intros Hg Hl Hni [Hin Hz U F _]. destruct (updates_inv _ _ _ U) as [b ->].
  assert (Hpos : ∀ d, d ∈ acc → 0 ≤ d) by (intros d Hd; destruct (linked_in v acc d Hl Hd); lia).
  assert (Hlast : ∀ d, last acc = Some d → d ∈ acc) by (intros d; rewrite last_lookup; apply list_elem_of_lookup_2).
  apply (linked_snoc v); [done|done|done|done| | |].
  - unfold in_volume in Hin. rewrite F by lia. rewrite decide_True by done. exact (eoc_is_eoc v).
  - intros p Hp. pose proof (Hlast p Hp). rewrite F by auto. rewrite decide_False by (by intros ->). by rewrite decide_True.
  - intros d Hd Hne. rewrite F by auto. rewrite decide_False by (by intros ->). by rewrite decide_False.
Qed.

Lemma extended_content acc c chunk v v' d :
  geometry v → in_volume v d → d ≠ c → extended acc c chunk v v' → content v' d = content v d.
Proof.
  intros Hg Hd Hne [Hin _ U _ _]. apply (content_kept _ v v' Hg U d Hd). intros i Hi [Ht|Hc].
  - exact (table_not_cluster v Hg d i Hd Ht Hi).
  - exact (Hne (clusters_disjoint v Hg d c i Hd Hin Hi Hc)).
Qed.

Lemma extended_count acc c chunk v v' :
  geometry v → linked v acc → c ∉ acc → extended acc c chunk v v' → length (free_clusters v) = S (length (free_clusters v')).
Proof.
  intros Hg Hl Hni [Hin Hf U F _]. destruct (updates_inv _ _ _ U) as [b ->]. unfold free_clusters. cbn [total_clusters set_base].
  pose proof Hin as [H2 H3]. apply (filter_flip _ _ _ c); [apply NoDup_seqZ|apply elem_of_seqZ; lia|done| |].
  - rewrite F, decide_True by (lia || done). unfold fatfs_eoc_marker. by destruct (is_fat32 v).
  - intros d [Hd _]%elem_of_seqZ Hne. rewrite F, decide_False by (lia || done). case_decide as Hlast; [|done].
    split; intros Hz; [|lia]. rewrite last_lookup in Hlast.
    by destruct (linked_nonzero v acc d Hl ltac:(by eapply list_elem_of_lookup_2)).
Qed.

Lemma writing_step v0 acc v c v' chunk :
  geometry v0 → writing v0 acc v → c ∉ acc → extended acc c chunk v v' →
  writing v0 (acc ++ [c]) v' ∧ contents v' (acc ++ [c]) = contents v acc ++ chunk.
Proof.
  intros Hg0 [U0 Hfr Hfat Hl Hcnt] Hni He. pose proof (upd_geo _ _ _ U0) as Hg. pose proof He as [Hin Hz U F C].
  destruct (updates_inv _ _ _ U0) as [b0 E0]. pose proof Hin as [H2 _].
  assert (Hin0 : in_volume v0 c) by (by rewrite E0 in Hin). split.
  - constructor.
    + eapply updates_trans; [eapply updates_mono; [exact U0|]|eapply updates_mono; [exact U|]].
      * intros i [?|(d & ? & ?)]; [by left|right]. exists d. split; [set_solver|done].
      * rewrite E0. intros i [?|?]; [by left|right]. exists c. split; [set_solver|done].
    + intros d [Hd| ->%list_elem_of_singleton]%elem_of_app; [by apply Hfr|]. split; [done|]. by rewrite <- Hfat by (lia || done).
    + intros d Hd Hnd. rewrite F by done. rewrite decide_False by set_solver. rewrite decide_False; [apply Hfat; [done|set_solver]|].
      rewrite last_lookup. intros Hx%list_elem_of_lookup_2. set_solver.
    + by eapply extended_linked.
    + rewrite length_app, Hcnt, (extended_count _ _ _ _ _ Hg Hl Hni He). cbn [length]. lia.
  - apply contents_snoc; [|done]. intros d Hd. apply (extended_content acc c chunk); [done|by eapply linked_in|by intros ->|done].
Qed.

(** ** Giving up *)

(** Where a write of entry [e] may store: the tables, the clusters [Q], the entry. *)
Definition write_byte (v : fatfs_volume) (e : nat) (Q : Z → Prop) (i : Z) : Prop :=
  table_byte v i ∨ (∃ c, in_volume v c ∧ Q c ∧ cluster_byte v c i) ∨ meta_byte e i.

(** What a failed write leaves: the table of [v0] and an empty entry. *)
Record gave_up (v0 : fatfs_volume) (e : nat) (v' : fatfs_volume) : Prop := {
  gu_upd : updates (write_byte v0 e (λ c, fat v0 c = 0)) v0 v';
  gu_fat : ∀ d, in_volume v0 d → fat v' d = fat v0 d;
  gu_first : fatfs_first_cluster v' e = Some 0;
  gu_size : entry_file_size v' e = Some 0
}.

Lemma meta_not_table v e i : placed v e → meta_byte e i → ¬ table_byte v i.
Proof. unfold placed, meta_byte, table_byte. lia. Qed.

Lemma abandon_ok v0 e acc v :
  geometry v0 → placed v0 e → writing v0 acc v →
  ∃ v', abandon e (default 0 (head acc)) v = Some (-1, v') ∧ gave_up v0 e v'.
Proof.
  intros Hg0 Hp [U Hfr Hfat Hl _]. pose proof (upd_geo _ _ _ U) as Hg. unfold abandon.
  assert (Hlin : ∀ c l, acc = c :: l → 2 ≤ c) by (intros c l ->; destruct (Hfr c ltac:(by left)) as [[? _] _]; lia).
  destruct (free_chain_ok (default 0 (head acc)) v Hg) as (v1 & -> & Hv1);
    [destruct acc as [|c l]; [done|]; specialize (Hlin c l eq_refl); cbn; lia|].
  cbn [mbind option_bind]. destruct Hv1 as [U1 Hr Ho]. pose proof (upd_geo _ _ _ U1) as Hg1.
  destruct (updates_inv _ _ _ U) as [b E]. destruct (updates_inv _ _ _ U1) as [b1 E1].
  assert (F1 : ∀ d, in_volume v0 d → fat v1 d = fat v0 d).
  { intros d Hd. pose proof Hd as [H2 _]. assert (Hdv : in_volume v d) by by rewrite E. destruct (decide (d ∈ acc)) as [Hi|Hi].
    - destruct (Hfr d Hi) as [_ ->]. destruct acc as [|c l]; [set_solver|]. apply Hr; [done|cbn; by eapply Hlin|].
      by eapply linked_reach.
    - rewrite Ho; [by apply Hfat; [lia|]|lia|]. intros (_ & Hh & Hreach). destruct acc as [|c l]; [cbn in Hh; lia|].
      apply Hi. by eapply reach_linked. }
  destruct (set_entry_ok e 0 0 v1 Hg1) as (v2 & H2 & U2 & C2 & S2); [rewrite E1, E; exact Hp|lia|lia|].
  destruct (fatfs_set_first_cluster e 0 v1) as [v1'|]; [|done]. cbn [mbind option_bind] in *. rewrite H2. cbn [mbind option_bind].
  exists v2. split; [done|]. constructor; [|intros d Hd; rewrite (fat_kept _ _ _ Hg1 U2 d)|done|done].
  - eapply updates_trans; [eapply updates_mono; [exact U|]|eapply updates_trans;
      [eapply updates_mono; [exact U1|]|eapply updates_mono; [exact U2|]]]; unfold write_byte; rewrite ?E.
    + intros i [?|(c & Hc & ?)]; [by left|right; left]. exists c. by destruct (Hfr c Hc).
    + by left.
    + by right; right.
  - by apply F1.
  - rewrite E1, E. intros i Ht Hm. by eapply meta_not_table.
  - destruct Hd. lia.
Qed.

(** ** The loop *)

(** A write that stored [data] in the chain [acc]. *)
Record stored (v0 : fatfs_volume) (data : list Z) (acc : list Z) (v' : fatfs_volume) : Prop := {
  st_writing : writing v0 acc v';
  st_contents : ∃ k, contents v' acc = data ++ replicate k 0;
  st_nonempty : data ≠ [] → acc ≠ []
}.

Lemma writing_contents_length v0 acc v :
  geometry v0 → writing v0 acc v → length (contents v acc) = (length acc * Z.to_nat (cluster_bytes v0))%nat.
Proof.
  intros Hg0 Hw. pose proof (upd_geo _ _ _ (wr_upd _ _ _ Hw)) as Hg. destruct (updates_inv _ _ _ (wr_upd _ _ _ Hw)) as [b E].
  rewrite contents_length; [by rewrite E|done|]. apply Forall_forall. intros c. apply linked_in, Hw.
Qed.

(** The data fit the free clusters, and so the image. *)
Lemma data_bound v0 acc v data k :
  geometry v0 → writing v0 acc v → contents v acc = data ++ replicate k 0 →
  Z.of_nat (length data) < 2 ^ 31 ∧ (length data ≤ length (free_clusters v0) * Z.to_nat (cluster_bytes v0))%nat.
Proof.
  intros Hg0 Hw Hc. pose proof (writing_contents_length v0 acc v Hg0 Hw) as Hl. rewrite Hc, length_app in Hl.
  pose proof (wr_count _ _ _ Hw) as Hn. split; [|nia].
  pose proof (length_filter (λ c, fat v0 c = 0) (seqZ 2 (total_clusters v0))) as Hf. rewrite length_seqZ in Hf.
  change (filter (λ c, fat v0 c = 0) (seqZ 2 (total_clusters v0))) with (free_clusters v0) in Hf.
  pose proof (geo_end _ Hg0). pose proof (geo_size _ Hg0). pose proof (geo_data _ Hg0). pose proof (geo_fat_bounds v0 Hg0).
  destruct (cluster_size_ok v0 Hg0) as [_ ?].
  assert (Z.of_nat (length acc) ≤ total_clusters v0) by (pose proof (geo_clusters _ Hg0); lia). nia.
Qed.

(** One round: a cluster is taken, linked and filled with the next bytes. *)
Lemma replace_round v0 acc v c v1 data :
  geometry v0 → writing v0 acc v → allocated c v v1 → bytes data →
  ∃ v2 v3, (if default 0 (last acc) =? 0 then Some v1 else fatfs_write_fat (default 0 (last acc)) c v1) = Some v2 ∧
    fatfs_cluster_ptr v2 c = Some (Z.to_nat (cluster_at v0 c)) ∧ fatfs_cluster_size_bytes v2 = cluster_bytes v0 ∧
    let cs := Z.to_nat (cluster_bytes v0) in
    fill_cluster (Z.to_nat (cluster_at v0 c)) (take cs data) cs v2 = Some v3 ∧ writing v0 (acc ++ [c]) v3 ∧
    contents v3 (acc ++ [c]) = contents v acc ++ take cs data ++ replicate (cs - length (take cs data)) 0.
Proof.
  intros Hg0 Hw Ha Hb. pose proof (upd_geo _ _ _ (wr_upd _ _ _ Hw)) as Hg. pose proof (wr_linked _ _ _ Hw) as Hl.
  pose proof Ha as [Hin Hz U1 _ _]. pose proof (upd_geo _ _ _ U1) as Hg1.
  destruct (updates_inv _ _ _ (wr_upd _ _ _ Hw)) as [b E]. destruct (updates_inv _ _ _ U1) as [b1 E1].
  destruct (link_prev acc c v1 Hg1) as (v2 & H2 & U2 & F2); [|by rewrite E1|].
  { intros p Hp. rewrite E1. apply (linked_in v acc p Hl). rewrite last_lookup in Hp. by eapply list_elem_of_lookup_2. }
  pose proof (upd_geo _ _ _ U2) as Hg2. destruct (updates_inv _ _ _ U2) as [b2 E2].
  assert (Hin2 : in_volume v2 c) by by rewrite E2, E1. assert (Hcs2 : cluster_bytes v2 = cluster_bytes v0) by by rewrite E2, E1, E.
  assert (Hat2 : cluster_at v2 c = cluster_at v0 c) by by rewrite E2, E1, E. destruct (cluster_size_ok v2 Hg2) as [Hs2 Hp2].
  destruct (fill_cluster_ok c (take (Z.to_nat (cluster_bytes v0)) data) v2) as (v3 & H3 & U3 & C3);
    [done|done|by apply bytes_take|rewrite length_take; lia|].
  rewrite Hcs2 in H3, C3. rewrite Hat2 in H3. exists v2, v3. split; [done|]. split; [by rewrite cluster_ptr_ok, Hat2|].
  split; [by rewrite Hs2|]. cbn zeta. split; [done|].
  assert (Hni : c ∉ acc) by (intros Hc; by apply (linked_nonzero v acc c Hl Hc)).
  apply writing_step; [done|done|done|]. by eapply extend.
Qed.

Lemma replace_loop_ok fuel v0 e acc v dn k data :
  geometry v0 → placed v0 e → writing v0 acc v → bytes data → (length data ≤ fuel)%nat →
  contents v acc = dn ++ replicate k 0 → (data ≠ [] → k = 0%nat) →
  ∃ r, replace_loop fuel e data (default 0 (head acc)) (default 0 (last acc)) v = Some r ∧
    match r with
    | inl (rc, v') => rc = -1 ∧ gave_up v0 e v' ∧ (length (free_clusters v0) * Z.to_nat (cluster_bytes v0) < length (dn ++ data))%nat
    | inr (first, prev, v') => ∃ acc', first = default 0 (head acc') ∧ prev = default 0 (last acc') ∧ stored v0 (dn ++ data) acc' v'
    end.
Proof.
  intros Hg0 Hp. revert acc v dn k data. induction fuel as [|fuel IH]; intros acc v dn k data Hw Hb Hf Hc Hk;
    (destruct data as [|x data]; [eexists; split; [done|]; exists acc; split; [done|]; split; [done|]; rewrite app_nil_r;
      constructor; [done|by exists k|]; intros Hne ->; by destruct dn|]); [cbn in Hf; lia|].
  set (dat := x :: data) in *. cbn [replace_loop]. fold dat. specialize (Hk ltac:(done)). subst k. rewrite app_nil_r in Hc.
  pose proof (upd_geo _ _ _ (wr_upd _ _ _ Hw)) as Hg. pose proof (writing_contents_length v0 acc v Hg0 Hw) as Hcl.
  destruct (allocate_cases v Hg) as [[Hnil ->]|(c & v1 & -> & Ha & _)]; cbn [mbind option_bind].
  - rewrite Z.eqb_refl. destruct (abandon_ok v0 e acc v Hg0 Hp Hw) as (v' & -> & Hgu). cbn [mbind option_bind].
    eexists. split; [done|]. split; [done|]. split; [done|]. rewrite (wr_count _ _ _ Hw), Hnil, Nat.add_0_r, <- Hcl, Hc, length_app.
    cbn [length dat]. lia.
  - pose proof (al_in _ _ _ Ha) as [Hc2 _]. rewrite (proj2 (Z.eqb_neq _ _)) by lia.
    replace (if default 0 (head acc) =? 0 then c else default 0 (head acc)) with (default 0 (head (acc ++ [c]))).
    2: { destruct acc as [|h acc]; [done|]. cbn. destruct (wr_free _ _ _ Hw h ltac:(by left)) as [[? _] _]. by rewrite (proj2 (Z.eqb_neq _ _)) by lia. }
    destruct (replace_round v0 acc v c v1 dat Hg0 Hw Ha Hb) as (v2 & v3 & -> & Hptr & Hcs & H3 & Hw3 & Hc3).
    cbn [mbind option_bind]. rewrite Hptr, Hcs, H3. cbn [mbind option_bind].
    destruct (cluster_size_ok v0 Hg0) as [_ Hpos]. set (cs := Z.to_nat (cluster_bytes v0)) in *. assert (Hcs0 : (0 < cs)%nat) by lia.
    destruct (IH (acc ++ [c]) v3 (dn ++ take cs dat) (cs - length (take cs dat))%nat (drop cs dat) Hw3) as (r & Hr & Hpost).
    + by apply bytes_drop.
    + rewrite length_drop. cbn [length dat] in *. lia.
    + by rewrite Hc3, Hc, <- (assoc app).
    + intros Hne. rewrite length_take. assert (length (drop cs dat) ≠ 0%nat) by (by destruct (drop cs dat)). rewrite length_drop in *. lia.
    + rewrite last_snoc in Hr. exists r. split; [exact Hr|]. rewrite <- (assoc_L app), take_drop in Hpost. exact Hpost.
Qed.

(** ** The whole operation *)

(** The clusters a write to a file may take: the free ones and the file's own. *)
Definition reusable (v : fatfs_volume) (first c : Z) : Prop := fat v c = 0 ∨ (2 ≤ first ∧ rtc (edge v) first c).

(** The entry of a file whose first cluster is [first] lies outside the tables and
    outside the clusters a write to the file may take. *)
Record file_entry (v : fatfs_volume) (e : nat) (first : Z) : Prop := {
  fe_placed : placed v e;
  fe_first : fatfs_first_cluster v e = Some first;
  fe_apart : ∀ c i, in_volume v c → reusable v first c → meta_byte e i → ¬ cluster_byte v c i
}.

(** A file of [v]: its entry names the chain [l], which holds [data]. *)
Record file_data (v : fatfs_volume) (e : nat) (data : list Z) (l : list Z) : Prop := {
  fd_first : fatfs_first_cluster v e = Some (default 0 (head l));
  fd_size : entry_file_size v e = Some (Z.of_nat (length data));
  fd_linked : linked v l;
  fd_contents : ∃ k, contents v l = data ++ replicate k 0;
  fd_nonempty : data ≠ [] → l ≠ []
}.

(** The state after the old chain is freed and the entry emptied. *)
Lemma replace_start v e first :
  geometry v → file_entry v e first → 0 ≤ first →
  ∃ v1 v0, fatfs_free_chain first v = Some v1 ∧ (v ← fatfs_set_first_cluster e 0 v1; set_file_size e 0 v) = Some v0 ∧
    updates (λ i, table_byte v i ∨ meta_byte e i) v v0 ∧ placed v0 e ∧ free_clusters v0 = free_clusters v1 ∧
    fatfs_first_cluster v0 e = Some 0 ∧ entry_file_size v0 e = Some 0 ∧
    (∀ c, in_volume v c → reusable v first c → fat v0 c = 0) ∧
    (∀ c, in_volume v c → ¬ reusable v first c → fat v0 c = fat v c) ∧
    (∀ c, in_volume v c → fat v0 c = 0 → reusable v first c).
Proof.
  intros Hg [Hp _ _] Hf. destruct (free_chain_ok first v Hg Hf) as (v1 & -> & [U1 Hr Ho Hfree]). pose proof (upd_geo _ _ _ U1) as Hg1.
  destruct (updates_inv _ _ _ U1) as [b1 E1]. assert (Hp1 : placed v1 e) by by rewrite E1.
  destruct (set_entry_ok e 0 0 v1 Hg1 Hp1) as (v0 & H0 & U0 & C0 & S0); [lia|lia|].
  destruct (updates_inv _ _ _ U0) as [b0 E0].
  assert (F0 : ∀ c, 0 ≤ c → fat v0 c = fat v1 c) by (intros c Hc; apply (fat_kept _ _ _ Hg1 U0); [intros i Ht Hm; by eapply meta_not_table|done]).
  exists v1, v0. split; [done|]. split; [done|]. split; [|split; [by rewrite E0|split; [|split; [done|split; [done|split; [|split]]]]]].
  - eapply updates_trans; [eapply updates_mono; [exact U1|]|eapply updates_mono; [exact U0|]]; [by left|by right].
  - unfold free_clusters. replace (total_clusters v0) with (total_clusters v1) by by rewrite E0. apply filter_same.
    intros c [Hc _]%elem_of_seqZ. by rewrite F0 by lia.
  - intros c Hc Hre. rewrite F0 by (destruct Hc; lia). destruct Hre as [Hz|[H2 Hre]]; [|by apply Hr].
    destruct (decide (fat v1 c = 0)) as [|Hnz]; [done|]. rewrite Ho; [done|destruct Hc; lia|]. intros (? & ? & ?). by apply Hnz, Hr.
  - intros c Hc Hre. rewrite F0 by (destruct Hc; lia). apply Ho; [destruct Hc; lia|]. intros (_ & H2 & Hre'). apply Hre. by right.
  - intros c Hc. rewrite F0 by (destruct Hc; lia). by apply Hfree.
Qed.

(** A chain whose last entry is rewritten with an end mark. *)
Lemma linked_close v v' l q :
  linked v l → last l = Some q → total_clusters v' = total_clusters v → fatfs_is_eoc v' (fat v' q) = true →
  (∀ d, d ∈ l → d ≠ q → fat v' d = fat v d) → linked v' l.
Proof.
  intros [Hnd H] Hq Ht He Hf. split; [done|]. intros i c Hi. unfold in_volume. rewrite Ht. destruct (H i c Hi) as [Hin Hm].
  split; [done|]. rewrite last_lookup in Hq. destruct (l !! S i) as [d|] eqn:Hd.
  - rewrite Hf; [done|by eapply list_elem_of_lookup_2|]. intros ->. pose proof (NoDup_lookup _ _ _ _ Hnd Hi Hq).
    apply lookup_lt_Some in Hd. lia.
  - apply lookup_ge_None in Hd. pose proof (lookup_lt_Some _ _ _ Hi). replace (pred (length l)) with i in Hq by lia.
    by replace c with q by congruence.
Qed.

Lemma contents_kept P v v' l :
  geometry v → updates P v v' → Forall (in_volume v) l → (∀ c i, c ∈ l → cluster_byte v c i → ¬ P i) → contents v' l = contents v l.
Proof.
  intros Hg U Hl HP. unfold contents. f_equal. apply list_fmap_ext. intros j c Hj%list_elem_of_lookup_2.
  eapply content_kept; [done|exact U|by eapply Forall_forall|]. intros i. by apply HP.
Qed.

(** The chain is closed and the entry set. *)
Lemma replace_finish v0 e data acc v :
  geometry v0 → placed v0 e → (∀ c i, in_volume v0 c → fat v0 c = 0 → meta_byte e i → ¬ cluster_byte v0 c i) →
  stored v0 data acc v → data ≠ [] →
  ∃ v', (v ← fatfs_write_fat (default 0 (last acc)) (fatfs_eoc_marker v) v;
         v ← fatfs_set_first_cluster e (default 0 (head acc)) v;
         v ← set_file_size e (u32 (Z.of_nat (length data))) v; Some (0, v)) = Some (0, v') ∧
    updates (write_byte v0 e (λ c, fat v0 c = 0)) v0 v' ∧ file_data v' e data acc ∧ ∀ d, 0 ≤ d → d ∉ acc → fat v' d = fat v0 d.
Proof.
  intros Hg0 Hp Hap [Hw [k Hc] Hne] Hd. specialize (Hne Hd). pose proof Hw as [U Hfr Hfat Hl Hcnt]. pose proof (upd_geo _ _ _ U) as Hg.
  destruct (last acc) as [q|] eqn:Hq; [|by apply last_None in Hq]. cbn [from_option id].
  assert (Hqin : q ∈ acc) by (rewrite last_lookup in Hq; by eapply list_elem_of_lookup_2).
  destruct (write_fat_table q (fatfs_eoc_marker v) v Hg) as (v1 & -> & U1 & F1); [by eapply linked_in|by apply eoc_bound|].
  cbn [mbind option_bind]. pose proof (upd_geo _ _ _ U1) as Hg1.
  destruct (updates_inv _ _ _ U) as [b E]. destruct (updates_inv _ _ _ U1) as [b1 E1].
  destruct (data_bound v0 acc v data k Hg0 Hw Hc) as [Hlen _].
  assert (Hfirst : 2 ≤ default 0 (head acc) < 2 ^ 32).
  { destruct acc as [|c acc]; [done|]. cbn. destruct (Hfr c ltac:(by left)) as [Hin _].
    pose proof (in_volume_bound v0 c Hg0 ltac:(destruct Hin; lia)). unfold value_bound in *. destruct Hin, (is_fat32 v0); lia. }
  rewrite u32_small by lia.
  destruct (set_entry_ok e (default 0 (head acc)) (Z.of_nat (length data)) v1 Hg1) as (v2 & H2 & U2 & C2 & S2);
    [rewrite E1, E; exact Hp|lia|lia|]. destruct (updates_inv _ _ _ U2) as [b2 E2].
  destruct (fatfs_set_first_cluster e _ v1) as [v1'|]; [|done]. cbn [mbind option_bind] in *. rewrite H2. cbn [mbind option_bind].
  assert (F2 : ∀ d, 0 ≤ d → fat v2 d = fat v1 d).
  { intros d H0. apply (fat_kept _ _ _ Hg1 U2); [|done]. rewrite E1, E. intros i Ht Hm. by eapply meta_not_table. }
  assert (Hpos : ∀ d, d ∈ acc → 0 ≤ d) by (intros d Hx; destruct (Hfr d Hx) as [[? _] _]; lia).
  exists v2. split; [done|]. split; [|split].
  - eapply updates_trans; [eapply updates_mono; [exact U|]|eapply updates_trans;
      [eapply updates_mono; [exact U1|]|eapply updates_mono; [exact U2|]]]; unfold write_byte; rewrite ?E.
    + intros i [?|(c & Hx & ?)]; [by left|right; left]. exists c. by destruct (Hfr c Hx).
    + by left.
    + by right; right.
  - constructor; [done|done| | |done].
    + apply (linked_close v _ _ q); [done|done|by rewrite E2, E1| |].
      * rewrite F2, F1, decide_True by auto. rewrite E2, E1. exact (eoc_is_eoc v).
      * intros d Hx Hnq. by rewrite F2, F1, decide_False by auto.
    + exists k. rewrite <- Hc. assert (Hall : Forall (in_volume v0) acc) by (apply Forall_forall; intros c Hx; by apply Hfr).
      rewrite (contents_kept _ v1 v2 acc Hg1 U2); [|by rewrite E1, E|].
      2: { rewrite E1, E. intros c i Hx Hcb Hm. destruct (Hfr c Hx). by apply (Hap c i). }
      rewrite E in Hg, U1 |- *. apply (contents_kept _ _ _ acc Hg U1); [done|].
      intros c i Hx Hcb Ht. destruct (Hfr c Hx). by apply (table_not_cluster v0 Hg0 c i).
  - intros d H0 Hx. rewrite F2, F1, decide_False by (done || by intros ->). by apply Hfat.
Qed.

(** What [fatfs_write_replace] does: it succeeds exactly when the clusters that are
    free once the old chain is given back can hold the data, and then the entry
    names a chain of those clusters that holds them; otherwise the file is left
    empty with nothing allocated. *)
Record replaced (v : fatfs_volume) (e : nat) (first : Z) (data : list Z) (room : nat) (rc : Z) (v' : fatfs_volume) : Prop := {
  rp_upd : updates (write_byte v e (reusable v first)) v v';
  rp_others : ∀ c, in_volume v c → ¬ reusable v first c → fat v' c = fat v c;
  rp_result : (rc = 0 ∧ (length data ≤ room)%nat ∧
                 ∃ l, file_data v' e data l ∧ Forall (λ c, in_volume v c ∧ reusable v first c) l) ∨
              (rc = -1 ∧ (room < length data)%nat ∧ file_data v' e [] [] ∧
                 ∀ c, in_volume v c → reusable v first c → fat v' c = 0)
}.

Lemma write_byte_mono v e Q R i : (∀ c, in_volume v c → Q c → R c) → write_byte v e Q i → write_byte v e R i.
Proof. intros H [?|[(c & Hc & HQ & ?)|?]]; [by left|right; left; exists c; auto|by right; right]. Qed.

Lemma write_replace_ok v e first data :
  geometry v → file_entry v e first → bytes data →
  ∃ v1 rc v', fatfs_free_chain first v = Some v1 ∧ fatfs_write_replace e data v = Some (rc, v') ∧
    replaced v e first data (length (free_clusters v1) * Z.to_nat (cluster_bytes v)) rc v'.
Proof.
  intros Hg He Hb. destruct (first_cluster_returns v e Hg (fe_placed _ _ _ He)) as (f & Hf & Hfb).
  assert (f = first) as -> by (pose proof (fe_first _ _ _ He); congruence). cbn beta in Hfb.
  destruct (replace_start v e first Hg He ltac:(lia)) as (v1 & v0 & H1 & H0 & U & Hp0 & Hfr & C0 & S0 & Z0 & K0 & R0).
  unfold fatfs_write_replace. rewrite Hf. cbn [mbind option_bind]. rewrite H1. cbn [mbind option_bind].
  destruct (fatfs_set_first_cluster e 0 v1) as [w|]; [|done]. cbn [mbind option_bind] in *. rewrite H0. cbn [mbind option_bind].
  pose proof (upd_geo _ _ _ U) as Hg0. destruct (updates_inv _ _ _ U) as [b E]. exists v1.
  assert (Hwb : ∀ P, (∀ i, P i → write_byte v0 e (λ c, fat v0 c = 0) i) → ∀ i, P i → write_byte v e (reusable v first) i).
  { intros P HP i Hi. specialize (HP i Hi). rewrite E in HP at 1. eapply write_byte_mono; [|exact HP]. exact R0. }
  assert (U' : updates (write_byte v e (reusable v first)) v v0).
  { eapply updates_mono; [exact U|]. intros i [?|?]; [by left|by right; right]. }
  rewrite <- Hfr. assert (Hcs : cluster_bytes v0 = cluster_bytes v) by by rewrite E. rewrite <- Hcs.
  destruct data as [|x data].
  { exists 0, v0. split; [done|]. split; [done|]. constructor; [done|by apply K0|]. left. split; [done|]. split; [cbn; lia|].
    exists []. split; [|constructor]. constructor; [done|done|apply linked_nil|by exists 0%nat|done]. }
  set (dat := x :: data) in *.
  destruct (replace_loop_ok (length dat) v0 e [] v0 [] 0 dat Hg0 Hp0 (writing_start v0 Hg0) Hb) as (r & Hr & Hpost); [done|done|done|].
  cbn [head last from_option id] in Hr. change (default 0 (last [])) with 0 in Hr. rewrite Hr. cbn [mbind option_bind]. rewrite app_nil_l in Hpost.
  destruct r as [[rc v']|[[fst prev] v2]].
  - destruct Hpost as (-> & [Gu Gf G0 G1] & Hlt). exists (-1), v'. split; [done|]. split; [done|]. constructor.
    + eapply updates_trans; [exact U'|]. eapply updates_mono; [exact Gu|]. apply Hwb. auto.
    + intros c Hc Hn. rewrite Gf by by rewrite E. by apply K0.
    + right. split; [done|]. split; [done|]. split; [constructor; [done|done|apply linked_nil|by exists 0%nat|done]|].
      intros c Hc Hre. rewrite Gf by by rewrite E. by apply Z0.
  - destruct Hpost as (acc & -> & -> & Hst). pose proof Hst as [Hw [k Hk] _].
    destruct (replace_finish v0 e dat acc v2 Hg0 Hp0) as (v' & -> & Uf & Hfd & Ff); [|done|done|].
    { intros c i Hc Hz Hm. assert (Hcv : in_volume v c) by (by rewrite E in Hc). rewrite E.
      exact (fe_apart _ _ _ He c i Hcv (R0 c Hcv Hz) Hm). }
    destruct (data_bound v0 acc v2 dat k Hg0 Hw Hk) as [_ Hle]. exists 0, v'. split; [done|]. split; [done|]. constructor.
    + eapply updates_trans; [exact U'|]. eapply updates_mono; [exact Uf|]. apply Hwb. auto.
    + intros c Hc Hn. rewrite Ff; [by apply K0|destruct Hc; lia|]. intros Hi. apply Hn. destruct (wr_free _ _ _ Hw c Hi) as [? Hz]. by apply R0.
    + left. split; [done|]. split; [done|]. exists acc. split; [done|]. apply Forall_forall. intros c Hi.
      destruct (wr_free _ _ _ Hw c Hi) as [Hx Hz]. rewrite E in Hx. split; [done|]. by apply R0.
Qed.

(** Loading what a file's entry names gives its data. *)
Lemma file_data_load v e data l out :
  geometry v → file_data v e data l → data ≠ [] → (length data ≤ length out)%nat →
  fatfs_load_cluster_chain v (default 0 (head l)) out (length data) = Some (data ++ drop (length data) out, length data).
Proof.
  intros Hg [_ _ Hl [k Hc] Hn] Hne Hout. specialize (Hn Hne). destruct l as [|c l]; [done|]. cbn [head from_option id].
  assert (length data ≠ 0%nat) by (by destruct data).
  unfold fatfs_load_cluster_chain. rewrite (load_loop_ok _ _ _ l); [|done|done|lia|rewrite Hc, length_app; lia|lia].
  rewrite Hc, Nat.sub_0_r, take_app_length, take_0, app_nil_l. done.
Qed.

(** The file at [e2] with the clusters [l2] has nothing in common with the one at [e]. *)
Record apart (v : fatfs_volume) (e : nat) (first : Z) (e2 : nat) (l2 : list Z) : Prop := {
  ap_placed : placed v e2;
  ap_meta : ∀ i, meta_byte e2 i → ¬ meta_byte e i;
  ap_entry : ∀ c i, in_volume v c → reusable v first c → meta_byte e2 i → ¬ cluster_byte v c i;
  ap_clusters : ∀ c, c ∈ l2 → ¬ reusable v first c;
  ap_data : ∀ c i, c ∈ l2 → meta_byte e i → ¬ cluster_byte v c i
}.

Lemma meta_kept P v v' e : updates P v v' → (∀ i, meta_byte e i → ¬ P i) →
  fatfs_first_cluster v' e = fatfs_first_cluster v e ∧ entry_file_size v' e = entry_file_size v e.
Proof.
  intros U HP. unfold fatfs_first_cluster, entry_file_size.
  rewrite !(read_le16_agree (base v') (base v)), (read_le32_agree (base v') (base v)); [done|..];
    intros i Hi; apply U, HP; unfold meta_byte; lia.
Qed.

Lemma replaced_other v e first data room rc v' e2 d2 l2 :
  geometry v → replaced v e first data room rc v' → file_data v e2 d2 l2 → apart v e first e2 l2 → file_data v' e2 d2 l2.
Proof.
  intros Hg [U Ho _] [F S L [k C] N] [Hp Hm He Hcl Hda]. destruct (updates_inv _ _ _ U) as [b E].
  destruct (meta_kept _ _ _ e2 U) as [E1 E2].
  { intros i Hi [Ht|[(c & Hc & Hre & Hcb)|Hx]]; [by eapply meta_not_table|by eapply He|by eapply Hm]. }
  constructor; [by rewrite E1|by rewrite E2| | |done].
  - apply (linked_ext v); [|by rewrite E|by rewrite E|done]. intros c Hc. apply Ho; [by eapply linked_in|by apply Hcl].
  - exists k. rewrite <- C. apply (contents_kept _ _ _ _ Hg U); [apply Forall_forall; intros c; by apply linked_in|].
    intros c i Hc Hcb. pose proof (linked_in _ _ _ L Hc) as Hin. intros [Ht|[(d & Hd & Hre & Hdb)|Hx]].
    + exact (table_not_cluster v Hg c i Hin Ht Hcb).
    + assert (c = d) as -> by exact (clusters_disjoint v Hg c d i Hin Hd Hcb Hdb). by apply (Hcl d).
    + by eapply Hda.
Qed.
End FatWrite.
