(* ===== verification/FatProps.v ===== *)
(** The properties of the FAT layer below paths: table entries, allocation, freeing,
    and the contents of files.

    Where the FAT layer does something else than its callers expect: appending to a
    file that fills its last cluster, a directory chain that runs into itself, and a
    path segment that is too long. *)

From stdpp Require Import relations.
From S2P Require Import Prelude Arrays Bytes Block Fat FatTable FatChain FatFile.

Module FatProps.

Import Arrays Bytes Fat FatTable FatChain FatFile FatWrite.

(** [fatfs_write_fat] stores a value in the entry of a cluster in every copy of
    the file allocation table: [fatfs_read_fat] and every copy then give the value,
    every entry of another cluster is as before in every copy, and no byte outside
    the tables changes. *)
Theorem fat_entry_write v c x :
  geometry v → 0 ≤ c < total_clusters v + 2 → 0 ≤ x < value_bound v →
  ∃ v', fatfs_write_fat c x v = Some v' ∧ geometry v' ∧ fatfs_read_fat v' c = Some x ∧
    (∀ k, 0 ≤ k < fat_count v → entry v' k c = Some x) ∧
    (∀ d, 0 ≤ d → d ≠ c → fatfs_read_fat v' d = fatfs_read_fat v d) ∧
    (∀ k d, 0 ≤ k < fat_count v → 0 ≤ d < total_clusters v + 2 → d ≠ c → entry v' k d = entry v k d) ∧
    (∀ i, ¬ (fat_start v ≤ Z.of_nat i < fat_end v) → base v' !! i = base v !! i).
Proof.
  intros Hg Hc Hx. destruct (write_fat_ok c x v Hg Hc Hx) as (v' & Hv & Hw). pose proof Hw as [U Hh Ht].
  pose proof (upd_geo _ _ _ U) as Hg'. exists v'. split; [done|]. split; [done|].
  assert (Hr : ∀ d, 0 ≤ d → fatfs_read_fat v' d = Some (if decide (d = c) then x else fat v d)).
  { intros d Hd. rewrite <- (wrote_fat c x v v' d) by done. by apply read_fat_ok. }
  split; [by rewrite Hr, decide_True by (lia || done)|]. split; [exact Hh|]. split; [|split; [|apply U]].
  - intros d Hd Hne. rewrite Hr, decide_False by done. symmetry. by apply read_fat_ok.
  - intros k d Hk Hd Hne. apply Ht; [done|done|by left].
Qed.

(** [fatfs_allocate_cluster] returns the first cluster of the volume whose entry is
    0, marks it as the end of a chain, zeroes its bytes and changes no other entry
    and no other cluster; it returns 0, changing nothing, exactly when no entry is
    0. *)
Theorem allocate_cluster_correct v :
  geometry v →
  ∃ c v', fatfs_allocate_cluster v = Some (c, v') ∧ (c = 0 ↔ free_clusters v = []) ∧ (c = 0 → v' = v) ∧
    (c ≠ 0 → head (free_clusters v) = Some c ∧ fatfs_read_fat v' c = Some (fatfs_eoc_marker v) ∧
       content v' c = replicate (Z.to_nat (cluster_bytes v)) 0 ∧
       ∀ d, in_volume v d → d ≠ c → fatfs_read_fat v' d = fatfs_read_fat v d ∧ content v' d = content v d).
Proof.
  intros Hg. destruct (allocate_cases v Hg) as [[Hn ->]|(c & v' & -> & Ha & Hmin)].
  - exists 0, v. split; [done|]. split; [done|]. split; done.
  - pose proof Ha as [Hin Hz U F C]. pose proof Hin as [H2 _]. exists c, v'. split; [done|]. split; [|split; [lia|intros _; split; [|split; [|split; [done|]]]]].
    + split; [lia|]. intros Hn. assert (Hm : c ∈ free_clusters v) by by apply elem_of_free. rewrite Hn in Hm. set_solver.
    + by apply head_free.
    + destruct (read_fat_ok v' (upd_geo _ _ _ U) c ltac:(lia)) as [-> _]. by rewrite F, decide_True by (lia || done).
    + intros d Hd Hne. pose proof Hd as [H2d _]. split.
      * destruct (read_fat_ok v' (upd_geo _ _ _ U) d ltac:(lia)) as [-> _]. rewrite F, decide_False by (lia || done).
        symmetry. apply read_fat_ok; [done|lia].
      * apply (content_kept _ _ _ Hg U d Hd). intros i Hi [Ht|Hcb].
        -- exact (table_not_cluster v Hg d i Hd Ht Hi).
        -- exact (Hne (clusters_disjoint v Hg d c i Hd Hin Hi Hcb)).
Qed.

(** C28: [fatfs_free_chain] ends whatever the table holds, a chain that runs into itself
    included: the entries of the clusters that can be reached from [start] become 0,
    every other entry keeps its value and no byte outside the tables changes. *)
Theorem free_chain_terminates v start :
  geometry v → 0 ≤ start →
  ∃ v', fatfs_free_chain start v = Some v' ∧ geometry v' ∧
    (∀ d, in_volume v d → 2 ≤ start → rtc (edge v) start d → fatfs_read_fat v' d = Some 0) ∧
    (∀ d, in_volume v d → ¬ (2 ≤ start ∧ rtc (edge v) start d) → fatfs_read_fat v' d = fatfs_read_fat v d) ∧
    (∀ i, ¬ (fat_start v ≤ Z.of_nat i < fat_end v) → base v' !! i = base v !! i).
Proof.
  intros Hg Hs. destruct (free_chain_ok start v Hg Hs) as (v' & Hv & [U Hr Ho _]). pose proof (upd_geo _ _ _ U) as Hg'.
  exists v'. split; [done|]. split; [done|]. split; [|split; [|apply U]].
  - intros d Hd H2 Hreach. destruct (read_fat_ok v' Hg' d) as [-> _]; [destruct Hd; lia|]. by rewrite Hr.
  - intros d Hd Hn. pose proof Hd as [H2 _]. destruct (read_fat_ok v' Hg' d) as [-> _]; [lia|]. rewrite Ho by (lia || tauto).
    symmetry. apply read_fat_ok; [done|lia].
Qed.

(** C8: [fatfs_write_replace] followed by [fatfs_load_cluster_chain] of the first
    cluster in the entry gives back the data.  The write succeeds exactly when the
    clusters that are free once the file's old chain is given back can hold the
    data; when it fails the file is empty and all these clusters are free.  A file
    whose clusters were in use by neither keeps its contents. *)
Theorem file_replace_roundtrip v e first data out :
  geometry v → file_entry v e first → bytes data → (length data ≤ length out)%nat → data ≠ [] →
  ∃ v1 rc v', fatfs_free_chain first v = Some v1 ∧ fatfs_write_replace e data v = Some (rc, v') ∧ geometry v' ∧
    (rc = 0 ↔ (length data ≤ length (free_clusters v1) * Z.to_nat (cluster_bytes v))%nat) ∧
    (rc = 0 → ∃ c, fatfs_first_cluster v' e = Some c ∧ entry_file_size v' e = Some (Z.of_nat (length data)) ∧
       fatfs_load_cluster_chain v' c out (length data) = Some (data ++ drop (length data) out, length data)) ∧
    (rc ≠ 0 → file_data v' e [] [] ∧ ∀ c, in_volume v c → reusable v first c → fatfs_read_fat v' c = Some 0) ∧
    (∀ e2 d2 l2, file_data v e2 d2 l2 → apart v e first e2 l2 → file_data v' e2 d2 l2).
Proof.
  intros Hg He Hb Hout Hne. destruct (write_replace_ok v e first data Hg He Hb) as (v1 & rc & v' & H1 & Hw & Hrp).
  pose proof (upd_geo _ _ _ (rp_upd _ _ _ _ _ _ _ Hrp)) as Hg'. exists v1, rc, v'. split; [done|]. split; [done|]. split; [done|].
  split; [|split; [|split]].
  - destruct (rp_result _ _ _ _ _ _ _ Hrp) as [(-> & ? & _)|(-> & ? & _)]; [done|]. split; [done|lia].
  - intros ->. destruct (rp_result _ _ _ _ _ _ _ Hrp) as [(_ & _ & l & Hfd & _)|(? & _)]; [|done].
    exists (default 0 (head l)). split; [apply Hfd|]. split; [apply Hfd|]. by eapply file_data_load.
  - destruct (rp_result _ _ _ _ _ _ _ Hrp) as [(-> & _)|(_ & _ & Hfd & Hz)]; [done|]. intros _. split; [done|].
    intros c Hc Hre. destruct (read_fat_ok v' Hg' c) as [-> _]; [destruct Hc; lia|]. by rewrite Hz.
  - intros e2 d2 l2 Hfd Hap. exact (replaced_other _ _ _ _ _ _ _ _ _ _ Hg Hrp Hfd Hap).
Qed.

End FatProps.

Module FatEdge.

Import Arrays Bytes Fat FatTable FatChain FatFile FatWrite.

(** ** Appending *)

Lemma last_loop_ok fuel v c l :
  geometry v → linked v (c :: l) → (length l < fuel)%nat → ∃ q, last (c :: l) = Some q ∧ last_loop fuel v c = Some q.
Proof.
  intros Hg. revert c l. induction fuel as [|fuel IH]; intros c l Hl Hf; [lia|]. cbn [last_loop].
  destruct (proj2 Hl 0%nat c eq_refl) as [[H2 _] Hm]. destruct (read_fat_ok v Hg c) as [-> _]; [lia|]. cbn [mbind option_bind].
  destruct l as [|d l]; cbn in Hm.
  - rewrite Hm. by exists c.
  - destruct (proj2 Hl 1%nat d eq_refl) as [[? ?] _]. rewrite Hm, in_volume_not_eoc by (done || lia).
    change (last (c :: d :: l)) with (last (d :: l)). apply IH; [by eapply linked_tail|cbn in Hf; lia].
Qed.

Lemma linked_length v l : geometry v → linked v l → Z.of_nat (length l) ≤ total_clusters v.
Proof.
  intros Hg Hl. assert (length l ≤ length (seqZ 2 (total_clusters v)))%nat as H.
  { apply submseteq_length, NoDup_submseteq; [apply Hl|]. intros c Hc. apply elem_of_seqZ. destruct (linked_in _ _ _ Hl Hc). lia. }
  rewrite length_seqZ in H. pose proof (geo_clusters _ Hg). lia.
Qed.

(** Appending to a file whose size is a whole number of clusters overwrites the
    start of its last cluster: [file_size % cluster_size] is 0 and the new bytes go
    to offset 0 of that cluster instead of a new one.  The size grows by their
    number, the chain does not, and the bytes the cluster held there are lost. *)
Theorem append_overwrites v e c l data :
  geometry v → placed v e → linked v (c :: l) → fatfs_first_cluster v e = Some c →
  entry_file_size v e = Some (Z.of_nat (length (c :: l)) * cluster_bytes v) →
  (∀ d i, in_volume v d → meta_byte e i → ¬ cluster_byte v d i) →
  bytes data → data ≠ [] → Z.of_nat (length data) < cluster_bytes v →
  ∃ v' q, fatfs_write_append e data v = Some (0, v') ∧ last (c :: l) = Some q ∧
    entry_file_size v' e = Some (Z.of_nat (length (c :: l)) * cluster_bytes v + Z.of_nat (length data)) ∧
    content v' q = data ++ drop (length data) (content v q) ∧
    ∀ d, in_volume v d → d ≠ q → content v' d = content v d.
Proof.
  intros Hg Hp Hl Hc Hsz Hap Hb Hne Hlen. destruct (cluster_size_ok v Hg) as [Hcs Hpos].
  pose proof (linked_length v (c :: l) Hg Hl) as Hll. destruct (proj2 Hl 0%nat c eq_refl) as [[H2 _] _].
  destruct (last_loop_ok (chain_fuel v) v c l Hg Hl) as (q & Hq & Hlast); [unfold chain_fuel; cbn in Hll; lia|].
  assert (Hqin : in_volume v q) by (rewrite last_lookup in Hq; by eapply linked_in, list_elem_of_lookup_2).
  destruct (poke_cluster q 0 data v Hg Hqin Hb) as (v1 & H1 & U1 & C1); [lia|lia|]. change (Z.to_nat 0) with 0%nat in C1.
  rewrite take_0, app_nil_l, Nat.add_0_l in C1. destruct (updates_inv _ _ _ U1) as [b E1]. pose proof (upd_geo _ _ _ U1) as Hg1.
  destruct (meta_kept _ _ _ e U1) as [_ Es1]; [intros i Hm; by apply Hap|].
  pose proof (geo_end _ Hg). pose proof (geo_size _ Hg). pose proof (geo_data _ Hg). pose proof (geo_fat_bounds v Hg).
  assert (Hnew : 0 ≤ Z.of_nat (length (c :: l)) * cluster_bytes v + Z.of_nat (length data) < 2 ^ 32).
  { assert (Z.of_nat (length (c :: l)) * cluster_bytes v ≤ total_clusters v * cluster_bytes v) by nia.
    assert (cluster_bytes v ≤ total_clusters v * cluster_bytes v) by (pose proof (geo_clusters _ Hg); nia). lia. }
  destruct (set_file_size_ok e (Z.of_nat (length (c :: l)) * cluster_bytes v + Z.of_nat (length data)) v1) as (v2 & H2' & U2 & S2 & _);
    [done|by rewrite E1|done|].
  exists v2, q. split; [|split; [done|split; [done|split]]].
  - unfold fatfs_write_append. destruct data as [|x data]; [done|]. set (dat := x :: data) in *. rewrite Hc, Hsz, Hcs. cbn [mbind option_bind].
    rewrite (proj2 (Z.ltb_ge _ _)) by lia. cbn [mbind option_bind]. rewrite Z_mod_mult, Z.sub_0_r. rewrite Hlast. cbn [mbind option_bind].
    rewrite cluster_ptr_ok by done. rewrite take_ge by lia. rewrite H1. cbn [mbind option_bind]. rewrite (proj2 (Z.ltb_lt _ _)) by lia.
    unfold add_file_size. rewrite Es1, Hsz. cbn [mbind option_bind]. rewrite u32_small by done. by rewrite H2'.
  - rewrite <- C1. apply (content_kept _ _ _ Hg1 U2); [by rewrite E1|]. intros i Hi Hm. rewrite E1 in Hi. by apply (Hap q i).
  - intros d Hd Hdq. rewrite (content_kept _ _ _ Hg1 U2 d); [|by rewrite E1|intros i Hi Hm; rewrite E1 in Hi; by apply (Hap d i)].
    apply (content_kept _ _ _ Hg U1 d Hd). intros i Hi Hx. exact (Hdq (clusters_disjoint v Hg d q i Hd Hqin Hi Hx)).
Qed.

(** ** Chains that run into themselves *)

(** A directory whose cluster names itself as its successor and has neither an end
    mark, nor a free entry, nor the name looked for is scanned for ever: the loop of
    [fatfs_dir_scan] has no result, whatever number of rounds is allowed. *)
Theorem dir_scan_cycle v t c dir prev s fuel :
  geometry v → in_volume v c → fat v c = c →
  scan_run v t (fatfs_entries_per_cluster v) (Z.to_nat (cluster_at v c)) s = Some (NotYet s) →
  scan_chain fuel v t c prev s dir = None.
Proof.
  intros Hg Hc Hf Hs. pose proof Hc as [H2 ?]. revert prev. induction fuel as [|fuel IH]; intros prev; cbn [scan_chain].
  all: rewrite (proj2 (Z.ltb_ge _ _)), cluster_ptr_ok by (done || lia).
  { done. }
  rewrite Hs. cbn [mbind option_bind]. destruct (read_fat_ok v Hg c) as [-> _]; [lia|]. cbn [mbind option_bind].
  rewrite Hf, in_volume_not_eoc by (done || lia). apply IH.
Qed.

(** ** Long path segments *)

Lemma segment_chars_long n s : slash ∉ s → (n < length s)%nat → segment_chars n s = None.
Proof.
  revert n. induction s as [|c s IH]; intros n Hs Hl; [cbn in Hl; lia|]. apply not_elem_of_cons in Hs as [Hc Hs].
  destruct n as [|n]; cbn [segment_chars]; rewrite (proj2 (Z.eqb_neq c slash)) by done; [done|].
  by rewrite IH by (done || cbn in Hl; lia).
Qed.

(** A directory path of one segment with 16 characters or more resolves to the root
    directory: [fatfs_next_path_segment] reports -1 for a segment that does not fit,
    and [fatfs_resolve_directory] takes every result that is not positive for the
    end of the path. *)
Theorem long_segment_is_root v path :
  slash ∉ path → (16 ≤ length path)%nat → fatfs_resolve_directory v path = Some (Some (root_of v)).
Proof.
  intros Hs Hl. unfold fatfs_resolve_directory. destruct path as [|c path]; [cbn in Hl; lia|]. cbn [resolve_loop].
  unfold fatfs_next_path_segment. cbn [skip_slashes]. rewrite (proj2 (Z.eqb_neq c slash)) by set_solver.
  by rewrite segment_chars_long by (done || lia).
Qed.

End FatEdge.
