(* ===== verification/FatPath.v ===== *)
(** Short names: what [fatfs_make_short_name] accepts and stores, and that
    [fatfs_format_entry_name] reads it back.

    Files in the root directory of a FAT16 volume: finding and making entries, and
    that what [fatfs_write] stores under a name [fatfs_read] returns. *)

From stdpp Require Import relations.
From S2P Require Import Prelude Arrays Bytes Block Fat FatTable FatChain FatFile.

Module FatNames.

Import Arrays Bytes Fat.

Definition valid (c : Z) : Prop := fatfs_is_valid_char c = true.

Lemma valid_range c : valid c → 45 ≤ c ≤ 126 ∧ c ≠ dot ∧ fatfs_to_upper c = c.
Proof.
  unfold valid, fatfs_is_valid_char, fatfs_to_upper, dot. intros H. assert (45 ≤ c ≤ 126 ∧ c ≠ 46 ∧ ¬ 97 ≤ c ≤ 122) by lia.
  destruct ((97 <=? c) && (c <=? 122)) eqn:E; lia.
Qed.

Lemma valid_not_space c : valid c → (c =? space) = false.
Proof. intros H. pose proof (valid_range c H). unfold space. lia. Qed.

Lemma upper_valid l : Forall valid l → map fatfs_to_upper l = l.
Proof. induction 1 as [|c l Hc _ IH]; [done|]. cbn [map]. rewrite IH. f_equal. by apply valid_range. Qed.

(** ** Taking characters *)

Lemma take_upper_Some n s l rest :
  take_upper n s = Some (l, rest) → l = map fatfs_to_upper (take n s) ∧ rest = drop n s ∧ Forall valid l.
Proof.
  revert s l rest. induction n as [|n IH]; intros s l rest H; cbn [take_upper] in H; [by simplify_eq|].
  destruct s as [|c s]; [by simplify_eq|]. destruct (fatfs_is_valid_char (fatfs_to_upper c)) eqn:Hv; cbn [negb] in H; [|done].
  apply bind_Some in H as ([l' rest'] & Hl & H). cbn beta iota in H. apply (inj Some) in H. simplify_eq.
  destruct (IH _ _ _ Hl) as (-> & -> & Hf). split; [done|]. split; [done|]. by constructor.
Qed.

Lemma take_upper_ok n s : Forall valid s → (length s ≤ n)%nat → take_upper n s = Some (s, []).
Proof.
  intros H. revert n. induction H as [|c s Hc _ IH]; intros [|n] Hl; cbn [take_upper length] in *; try done; [lia|].
  destruct (valid_range c Hc) as (_ & _ & ->). unfold valid in Hc. rewrite Hc. cbn [negb]. by rewrite IH by lia.
Qed.

(** ** The last dot *)

Lemma last_dot_none s i acc : dot ∉ s → last_dot s i acc = acc.
Proof.
  revert i acc. induction s as [|c s IH]; intros i acc Hs; [done|]. cbn [last_dot]. apply not_elem_of_cons in Hs as [Hc Hs].
  rewrite (proj2 (Z.eqb_neq c dot)) by done. by apply IH.
Qed.

Lemma last_dot_app b x i acc : dot ∉ x → last_dot (b ++ dot :: x) i acc = Some (i + length b)%nat.
Proof.
  intros Hx. revert i acc. induction b as [|c b IH]; intros i acc; cbn [app last_dot length].
  - rewrite Z.eqb_refl, last_dot_none by done. f_equal. lia.
  - rewrite IH. f_equal. lia.
Qed.

(** A name without a dot, or the parts before and after the last one. *)
Lemma last_dot_split s : dot ∉ s ∨ ∃ b x, s = b ++ dot :: x ∧ dot ∉ x.
Proof.
  induction s as [|c s IH]; [left; set_solver|]. destruct IH as [Hs|(b & x & -> & Hx)].
  - destruct (decide (c = dot)) as [->|]; [right; by exists [], s|left; set_solver].
  - right. by exists (c :: b), x.
Qed.

(** ** Names *)

(** A base of one to eight characters and an extension of at most three. *)
Record short_parts (b x : list Z) : Prop := {
  sp_base : b ≠ [];
  sp_base_len : (length b ≤ 8)%nat;
  sp_ext_len : (length x ≤ 3)%nat;
  sp_base_valid : Forall valid b;
  sp_ext_valid : Forall valid x
}.

Definition stored_name (b x : list Z) : list Z := pad 8 b ++ pad 3 x.

(** What the parts are written as. *)
Definition shown_name (b x : list Z) : cstring := b ++ match x with [] => [] | _ => dot :: x end.

Lemma no_dot l : Forall valid l → dot ∉ l.
Proof. intros H Hd. rewrite Forall_forall in H. by destruct (valid_range dot (H _ Hd)) as (_ & ? & _). Qed.

Lemma drop_nil_length {A} n (l : list A) : drop n l = [] → (length l ≤ n)%nat.
Proof. intros H. apply (f_equal length) in H. rewrite length_drop in H. cbn in H. lia. Qed.

(** Every name that is accepted has such parts, in upper case. *)
Lemma make_short_name_parts s n :
  fatfs_make_short_name s = Some n →
  ∃ b x, short_parts b x ∧ n = stored_name b x ∧
    (map fatfs_to_upper s = b ∧ x = [] ∧ dot ∉ s ∨ ∃ b' x', s = b' ++ dot :: x' ∧ b = map fatfs_to_upper b' ∧ x = map fatfs_to_upper x').
Proof.
  unfold fatfs_make_short_name. destruct s as [|c0 s0]; [done|]. set (s := c0 :: s0). clearbody s.
  destruct (last_dot_split s) as [Hn|(b & x & -> & Hx)].
  - rewrite last_dot_none by done. intros H. apply bind_Some in H as ([b rest] & Hb & H). cbn beta iota in H.
    destruct (take_upper_Some _ _ _ _ Hb) as (Eb & Er & Hv). case_bool_decide as Hr; [done|]. case_bool_decide as Hne; [done|].
    subst rest. apply drop_nil_length in Hr. apply (inj Some) in H as <-.
    rewrite take_ge in Eb by done. exists b, []. split; [|split; [done|left; done]].
    constructor; [done|rewrite Eb, length_map; lia|cbn; lia|done|constructor].
  - rewrite last_dot_app by done. cbn [Nat.add]. intros H. apply bind_Some in H as ([b1 rest] & Hb & H). cbn beta iota in H.
    rewrite take_app_length in Hb. destruct (take_upper_Some _ _ _ _ Hb) as (Eb & Er & Hv). case_bool_decide as Hr; [done|].
    subst rest. apply drop_nil_length in Hr. rewrite take_ge in Eb by done.
    apply bind_Some in H as ([x1 rest] & Hx1 & H). cbn beta iota in H.
    replace (drop (S (length b)) (b ++ dot :: x)) with x in Hx1 by (rewrite drop_app_ge by lia; by replace (S (length b) - length b)%nat with 1%nat by lia).
    destruct (take_upper_Some _ _ _ _ Hx1) as (Ex & Er & Hvx). case_bool_decide as Hr'; [done|]. case_bool_decide as Hne; [done|].
    subst rest. apply drop_nil_length in Hr'. rewrite take_ge in Ex by done. apply (inj Some) in H as <-.
    exists b1, x1. split; [|split; [done|right; by exists b, x]].
    constructor; [done|rewrite Eb, length_map; lia|rewrite Ex, length_map; lia|done|done].
Qed.

(** The parts are accepted as they are written. *)
Lemma make_short_name_shown b x : short_parts b x → fatfs_make_short_name (shown_name b x) = Some (stored_name b x).
Proof.
  intros [Hb Hlb Hlx Hvb Hvx]. unfold fatfs_make_short_name, shown_name. pose proof (no_dot _ Hvb). pose proof (no_dot _ Hvx).
  destruct x as [|y x].
  - rewrite app_nil_r. destruct b as [|c b]; [done|]. rewrite last_dot_none by done. rewrite take_upper_ok by done. cbn [mbind option_bind].
    by rewrite bool_decide_eq_false_2, bool_decide_eq_false_2 by auto.
  - set (y' := y :: x) in *. destruct (b ++ dot :: y') as [|h t] eqn:E; [by destruct b|]. rewrite <- E.
    rewrite (last_dot_app b y') by done. cbn [Nat.add]. rewrite take_app_length, (take_upper_ok 8 b) by done. cbn [mbind option_bind].
    rewrite bool_decide_eq_false_2 by auto. rewrite drop_app_ge by lia. replace (S (length b) - length b)%nat with 1%nat by lia.
    replace (drop 1 (dot :: y')) with y' by done. rewrite (take_upper_ok 3 y') by done. cbn [mbind option_bind]. by rewrite bool_decide_eq_false_2, bool_decide_eq_false_2 by auto.
Qed.

Lemma until_space_pad l n : Forall valid l → until_space (l ++ replicate n space) = l.
Proof. induction 1 as [|c l Hc _ IH]; [by destruct n|]. cbn [app until_space]. by rewrite valid_not_space, IH. Qed.

Lemma pad_length n l : (length l ≤ n)%nat → length (pad n l) = n.
Proof. intros H. unfold pad. rewrite length_app, length_replicate. lia. Qed.

(** Reading a stored name. *)
Lemma format_stored b x : short_parts b x → fatfs_format_entry_name (stored_name b x) = shown_name b x.
Proof.
  intros [Hb Hlb Hlx Hvb Hvx]. unfold fatfs_format_entry_name, stored_name, shown_name.
  rewrite take_app_length', drop_app_length' by (by rewrite pad_length). rewrite (take_ge (pad 3 x)) by (rewrite pad_length; done || lia).
  unfold pad at 1 3. rewrite !until_space_pad by done. f_equal. unfold pad. rewrite existsb_app. destruct x as [|y x].
  - by replace (existsb _ (replicate _ space)) with false.
  - inversion Hvx. cbn [existsb]. by rewrite valid_not_space.
Qed.

Lemma stored_name_length b x : short_parts b x → length (stored_name b x) = 11%nat.
Proof. intros [_ H1 H2 _ _]. unfold stored_name. by rewrite length_app, !pad_length. Qed.

Lemma stored_name_bytes b x : short_parts b x → bytes (stored_name b x).
Proof.
  intros [_ _ _ Hb Hx]. assert (Hv : ∀ l n, Forall valid l → bytes (l ++ replicate n space)).
  { intros l n Hl. apply bytes_app. split; [|by apply bytes_replicate]. eapply Forall_impl; [exact Hl|].
    intros c Hc. pose proof (valid_range c Hc). unfold byte. lia. }
  unfold stored_name, pad. apply bytes_app. split; by apply Hv.
Qed.

(** A name [fatfs_make_short_name] accepts is stored as eleven bytes that
    [fatfs_format_entry_name] turns into the upper-case form of the name (a dot with
    nothing behind it is dropped), and from that form the same eleven bytes are
    made again: the stored name and its listing determine each other. *)
Theorem short_name_roundtrip s n :
  fatfs_make_short_name s = Some n →
  length n = 11%nat ∧ fatfs_make_short_name (fatfs_format_entry_name n) = Some n ∧
  (fatfs_format_entry_name n = map fatfs_to_upper s ∨ fatfs_format_entry_name n ++ [dot] = map fatfs_to_upper s).
Proof.
  intros H. destruct (make_short_name_parts s n H) as (b & x & Hp & -> & Hs). split; [by apply stored_name_length|].
  rewrite format_stored by done. split; [by apply make_short_name_shown|]. unfold shown_name.
  destruct Hs as [(<- & -> & _)|(b' & x' & -> & -> & ->)]; [left; apply app_nil_r|]. rewrite map_app. cbn [map].
  change (fatfs_to_upper dot) with dot. destruct x' as [|y x']; [right; by rewrite app_nil_r|by left].
Qed.

End FatNames.

Module FatPath.

Import Arrays Bytes Fat FatTable FatChain FatFile FatWrite FatNames.

(** ** Runs of entries *)

(** The byte [j] of entry [k] of a run at [e]. *)
Definition at_entry (e k j : nat) : nat := (e + k * ENTRY_SIZE + j)%nat.

(** The names and attributes of [n] entries are the same. *)
Definition names_agree (v v' : fatfs_volume) (e n : nat) : Prop :=
  length (base v') = length (base v) ∧
  ∀ k j, (k < n)%nat → (j < 12)%nat → base v' !! at_entry e k j = base v !! at_entry e k j.

Lemma names_agree_tail v v' e n : names_agree v v' e (S n) → names_agree v v' (e + ENTRY_SIZE) n.
Proof.
  intros [Hl H]. split; [done|]. intros k j Hk Hj. specialize (H (S k) j ltac:(lia) Hj). unfold at_entry in *.
  by replace (e + ENTRY_SIZE + k * ENTRY_SIZE + j)%nat with (e + S k * ENTRY_SIZE + j)%nat by lia.
Qed.

Lemma names_agree_head v v' e n j : names_agree v v' e (S n) → (j < 12)%nat → base v' !! (e + j)%nat = base v !! (e + j)%nat.
Proof. intros [_ H] Hj. specialize (H 0%nat j ltac:(lia) Hj). unfold at_entry in H. by rewrite Nat.mul_0_l, Nat.add_0_r in H. Qed.

Lemma field_agree p q off n :
  length p = length q → (∀ j, (j < n)%nat → p !! (off + j)%nat = q !! (off + j)%nat) → field p off n = field q off n.
Proof.
  intros Hl H. unfold field. rewrite Hl. case_decide; [|done]. f_equal. apply list_eq. intros j. destruct (decide (j < n)%nat).
  - rewrite !lookup_take_lt, !lookup_drop by done. by apply H.
  - by rewrite !lookup_take_ge by lia.
Qed.

Lemma scan_run_agree v v' t n e s : names_agree v v' e n → scan_run v' t n e s = scan_run v t n e s.
Proof.
  revert e s. induction n as [|n IH]; intros e s H; [done|]. cbn [scan_run]. unfold entry_attr, entry_name.
  pose proof (names_agree_head _ _ _ _ 0 H ltac:(lia)) as H0. rewrite Nat.add_0_r in H0. rewrite H0.
  rewrite (names_agree_head _ _ _ _ 11 H) by lia.
  rewrite (field_agree (base v') (base v)) by (apply H || (intros j Hj; eapply names_agree_head; [exact H|lia])).
  assert (IH' : ∀ s, scan_run v' t n (e + ENTRY_SIZE) s = scan_run v t n (e + ENTRY_SIZE) s) by (intros s'; by apply IH, names_agree_tail).
  destruct (base v !! e) as [b|]; [|done]. cbn [mbind option_bind]. destruct (b =? FAT_ENTRY_END); [done|].
  destruct (b =? FAT_ENTRY_FREE); [apply IH'|]. destruct (base v !! (e + 11)%nat) as [a|]; [|done]. cbn [mbind option_bind].
  destruct (hidden_attr a); [apply IH'|]. destruct t as [t|]; [|apply IH']. destruct (s_match s); [apply IH'|].
  destruct (field (base v) e 11) as [x|]; [|done]. cbn [mbind option_bind]. case_bool_decide; [done|apply IH'].
Qed.

Definition scan_of (r : scan_end) : fat_dir_scan := match r with AtEnd s | AtMatch s | NotYet s => s end.

(** A visible entry with the name [t]. *)
Record entry_for (v : fatfs_volume) (t : list Z) (e : nat) : Prop := {
  ef_first : ∃ b, base v !! e = Some b ∧ b ≠ FAT_ENTRY_END ∧ b ≠ FAT_ENTRY_FREE;
  ef_attr : ∃ a, entry_attr v e = Some a ∧ hidden_attr a = false;
  ef_name : entry_name v e = Some t
}.

(** The entries of a run. *)
Definition in_run (e n m : nat) : Prop := ∃ k, (k < n)%nat ∧ m = (e + k * ENTRY_SIZE)%nat.

(** A scan for [t] returns, and a match it reports is an entry for [t] of the run; a
    free or end slot it reports is an entry of the run too. *)
Lemma scan_run_ok v t n e s :
  (e + n * ENTRY_SIZE ≤ length (base v))%nat → s_match s = None →
  ∃ r, scan_run v (Some t) n e s = Some r ∧
    (∀ m, s_match (scan_of r) = Some m → entry_for v t m ∧ in_run e n m) ∧
    (∀ m, s_free (scan_of r) = Some m → s_free s = Some m ∨ in_run e n m) ∧
    (∀ m, s_zero (scan_of r) = Some m → s_zero s = Some m ∨ in_run e n m).
Proof.
  revert e s. induction n as [|n IH]; intros e s Hl Hs.
  { exists (NotYet s). cbn [scan_of]. rewrite Hs. split; [done|]. split; [done|]. split; by left. }
  cbn [scan_run]. destruct (lookup_lt_is_Some_2 (base v) e) as [b Hb]; [unfold ENTRY_SIZE in *; lia|]. rewrite Hb. cbn [mbind option_bind].
  assert (Hstep : ∀ s', s_match s' = None → (∀ m, s_free s' = Some m → s_free s = Some m ∨ m = e) → s_zero s' = s_zero s →
    ∃ r, scan_run v (Some t) n (e + ENTRY_SIZE) s' = Some r ∧
    (∀ m, s_match (scan_of r) = Some m → entry_for v t m ∧ in_run e (S n) m) ∧
    (∀ m, s_free (scan_of r) = Some m → s_free s = Some m ∨ in_run e (S n) m) ∧
    (∀ m, s_zero (scan_of r) = Some m → s_zero s = Some m ∨ in_run e (S n) m)).
  { intros s' Hs' Hf Hz. destruct (IH (e + ENTRY_SIZE)%nat s') as (r & Hr & Hm & Hfr & Hze); [lia|done|]. exists r. split; [done|].
    split; [|split]; intros m Hm'.
    - destruct (Hm m Hm') as [? (k & ? & ->)]. split; [done|]. exists (S k). split; lia.
    - destruct (Hfr m Hm') as [H1|(k & ? & ->)]; [|right; exists (S k); split; lia].
      destruct (Hf m H1) as [?| ->]; [by left|]. right. exists 0%nat. split; lia.
    - rewrite <- Hz. destruct (Hze m Hm') as [H1|(k & ? & ->)]; [by left|right; exists (S k); split; lia]. }
  destruct (Z.eqb_spec b FAT_ENTRY_END) as [Hend|Hend].
  { eexists. split; [done|]. cbn [scan_of]. destruct (s_zero s) eqn:Ez; cbn [s_match s_free s_zero].
    - rewrite Hs, Ez. split; [done|]. split; by left.
    - rewrite Hs. split; [done|]. split; [by left|]. intros m [= <-]. right. exists 0%nat. split; lia. }
  destruct (Z.eqb_spec b FAT_ENTRY_FREE) as [Hfree|Hfree].
  { apply Hstep; destruct (s_free s) eqn:Ef; cbn [s_match s_free s_zero]; rewrite ?Ef; auto. intros m [= <-]. by right. }
  destruct (lookup_lt_is_Some_2 (base v) (e + 11)%nat) as [a Ha]; [unfold ENTRY_SIZE in *; lia|]. unfold entry_attr. rewrite Ha. cbn [mbind option_bind].
  destruct (hidden_attr a) eqn:Hh; [apply Hstep; auto|]. rewrite Hs. unfold entry_name.
  rewrite field_ok by (unfold ENTRY_SIZE in *; lia). cbn [mbind option_bind]. case_bool_decide as Hn; [|apply Hstep; auto].
  eexists. split; [done|]. cbn [scan_of s_match s_free s_zero]. split; [|split; by left]. intros m [= <-]. split.
  - constructor; [by exists b|by exists a|]. unfold entry_name. rewrite field_ok by (unfold ENTRY_SIZE in *; lia). by rewrite Hn.
  - exists 0%nat. split; lia.
Qed.

(** The first free entry stays. *)
Lemma scan_run_free v t n e s r f : scan_run v t n e s = Some r → s_free s = Some f → s_free (scan_of r) = Some f.
Proof.
  revert e s. induction n as [|n IH]; intros e s H Hf; cbn [scan_run] in H; [by simplify_eq|].
  apply bind_Some in H as (b & _ & H). destruct (b =? FAT_ENTRY_END); [apply (inj Some) in H as <-; by destruct (s_zero s)|].
  destruct (b =? FAT_ENTRY_FREE); [rewrite Hf in H; by eapply IH|]. apply bind_Some in H as (a & _ & H).
  destruct (hidden_attr a); [by eapply IH|]. destruct t as [t|]; [|by eapply IH]. destruct (s_match s); [by eapply IH|].
  apply bind_Some in H as (x & _ & H). case_bool_decide; [by apply (inj Some) in H as <-|by eapply IH].
Qed.

(** The slot [fatfs_dir_take_slot] picks without growing the directory. *)
Definition picked (s : fat_dir_scan) : option nat := match s_free s with Some m => Some m | None => s_zero s end.

(** An entry that is found at once. *)
Lemma scan_run_here v t n e s : entry_for v t e → s_match s = None → ∃ r, scan_run v (Some t) (S n) e s = Some r ∧ s_match (scan_of r) = Some e.
Proof.
  intros [(b & Hb & H0 & H5) (a & Ha & Hh) Hn] Hs. cbn [scan_run]. rewrite Hb. cbn [mbind option_bind].
  rewrite (proj2 (Z.eqb_neq _ _) H0), (proj2 (Z.eqb_neq _ _) H5), Ha. cbn [mbind option_bind]. rewrite Hh, Hs, Hn. cbn [mbind option_bind].
  rewrite bool_decide_eq_true_2 by done. by eexists.
Qed.

(** An entry in use that is not for [t]. *)
Definition passed (v : fatfs_volume) (t : list Z) (e : nat) : Prop :=
  (∃ b, base v !! e = Some b ∧ b ≠ FAT_ENTRY_END ∧ b ≠ FAT_ENTRY_FREE) ∧
  ∀ a, entry_attr v e = Some a → hidden_attr a = false → entry_name v e ≠ Some t.

Lemma scan_run_pass v v' t n e s :
  (e + ENTRY_SIZE ≤ length (base v))%nat → names_agree v v' e 1 → passed v t e → s_match s = None →
  scan_run v' (Some t) (S n) e s = scan_run v' (Some t) n (e + ENTRY_SIZE) s.
Proof.
  intros Hl Hag [(b & Hb & H0 & H5) Hnm] Hs. cbn [scan_run]. unfold entry_attr, entry_name in *.
  pose proof (names_agree_head _ _ _ _ 0 Hag ltac:(lia)) as E0. rewrite Nat.add_0_r in E0.
  rewrite E0, Hb, (names_agree_head _ _ _ _ 11 Hag) by lia. cbn [mbind option_bind].
  rewrite (field_agree (base v') (base v)) by (apply Hag || (intros j Hj; eapply names_agree_head; [exact Hag|lia])).
  rewrite (proj2 (Z.eqb_neq _ _) H0), (proj2 (Z.eqb_neq _ _) H5).
  destruct (lookup_lt_is_Some_2 (base v) (e + 11)%nat) as [a Ha]; [unfold ENTRY_SIZE in *; lia|]. rewrite Ha in *. cbn [mbind option_bind].
  destruct (hidden_attr a) eqn:Hh; [done|]. rewrite Hs. rewrite field_ok in * by (unfold ENTRY_SIZE in *; lia). cbn [mbind option_bind].
  case_bool_decide as Hx; [|done]. exfalso. apply (Hnm a eq_refl Hh). by rewrite Hx.
Qed.

(** After an entry for [t] was made in the slot, a scan for [t] finds it. *)
Lemma scan_run_new v v' t n e s r m s' :
  (e + n * ENTRY_SIZE ≤ length (base v))%nat → length (base v') = length (base v) →
  scan_run v (Some t) n e s = Some r → s_match s = None → s_free s = None → s_zero s = None →
  s_match (scan_of r) = None → picked (scan_of r) = Some m → entry_for v' t m → s_match s' = None →
  (∀ i, ¬ (m ≤ i < m + ENTRY_SIZE)%nat → base v' !! i = base v !! i) →
  ∃ r', scan_run v' (Some t) n e s' = Some r' ∧ s_match (scan_of r') = Some m.
Proof.
  intros Hl Hlen H Hs Hf Hz Hm Hp Hnew Hs' Hsame. revert e s s' Hl H Hs Hf Hz Hs'. induction n as [|n IH]; intros e s s' Hl H Hs Hf Hz Hs'.
  { cbn [scan_run] in H. apply (inj Some) in H as <-. unfold picked in Hp. cbn [scan_of] in Hp. by rewrite Hf, Hz in Hp. }
  assert (Hrest : scan_run v (Some t) n (e + ENTRY_SIZE) s = Some r → passed v t e →
    ∃ r', scan_run v' (Some t) (S n) e s' = Some r' ∧ s_match (scan_of r') = Some m).
  { intros Hr Hpass. destruct (scan_run_ok v t n (e + ENTRY_SIZE) s) as (r1 & Hr1 & _ & Hfr & Hze); [lia|done|].
    assert (r1 = r) as -> by congruence. assert (Hme : (e + ENTRY_SIZE ≤ m)%nat).
    { unfold picked in Hp. destruct (s_free (scan_of r)) as [f|].
      - apply (inj Some) in Hp as ->. destruct (Hfr m eq_refl) as [?|(k & _ & ->)]; [congruence|lia].
      - destruct (Hze m Hp) as [?|(k & _ & ->)]; [congruence|lia]. }
    rewrite (scan_run_pass v) by (done || lia || (split; [done|]; intros k j Hk Hj; apply Hsame; unfold at_entry, ENTRY_SIZE in *; lia)).
    apply (IH _ s); try done. lia. }
  cbn [scan_run] in H. apply bind_Some in H as (b & Hb & H). destruct (Z.eqb_spec b FAT_ENTRY_END) as [E|E].
  { rewrite Hz in H. apply (inj Some) in H as <-. unfold picked in Hp. cbn [scan_of s_free s_zero] in Hp. rewrite Hf in Hp.
    apply (inj Some) in Hp as ->. by apply scan_run_here. }
  destruct (Z.eqb_spec b FAT_ENTRY_FREE) as [E5|E5].
  { rewrite Hf in H. assert (Hfe := scan_run_free _ _ _ _ _ _ e H eq_refl). unfold picked in Hp. rewrite Hfe in Hp.
    apply (inj Some) in Hp as ->. by apply scan_run_here. }
  apply bind_Some in H as (a & Ha & H). destruct (hidden_attr a) eqn:Hh; [apply Hrest; [done|]; split; [by exists b|]; intros x Hx; congruence|].
  rewrite Hs in H. apply bind_Some in H as (x & Hx & H). case_bool_decide as Hn; [apply (inj Some) in H as <-; done|].
  apply Hrest; [done|]. split; [by exists b|]. intros ? _ _. congruence.
Qed.

(** ** Making an entry *)

Definition entry_byte (e : nat) (i : Z) : Prop := Z.of_nat e ≤ i < Z.of_nat e + 32.

Lemma placed_kept P v v' e : updates P v v' → placed v e → placed v' e.
Proof. intros U. destruct (updates_inv _ _ _ U) as [b ->]. done. Qed.

(** A store inside an entry. *)
Lemma poke_entry e (k : nat) bs v :
  geometry v → placed v e → bytes bs → (k + length bs ≤ 32)%nat →
  ∃ v', poke (e + k) bs v = Some v' ∧ updates (entry_byte e) v v' ∧
    (∀ j, (j < length bs)%nat → base v' !! (e + k + j)%nat = bs !! j) ∧
    (∀ i, ¬ (e + k ≤ i < e + k + length bs)%nat → base v' !! i = base v !! i).
Proof.
  intros Hg [_ Hp] Hb Hk. destruct (poke_at (e + k) bs v Hg Hb) as (v' & Hv & U & Hi); [lia|]. exists v'. split; [done|]. split; [|split].
  - eapply updates_mono; [exact U|]. unfold entry_byte. cbn. lia.
  - done.
  - intros i Hni. apply U. lia.
Qed.

Lemma new_entry_ok e n attr v :
  geometry v → placed v e → bytes n → length n = 11%nat → byte attr →
  ∃ v', new_entry e n attr v = Some v' ∧ updates (entry_byte e) v v' ∧ entry_name v' e = Some n ∧ entry_attr v' e = Some attr.
Proof.
  intros Hg Hp Hb Hn Ha. unfold new_entry, fatfs_clear_entry.
  destruct (poke_entry e 0 (replicate ENTRY_SIZE 0) v) as (v1 & H1 & U1 & _ & _);
    [done|done|by apply bytes_replicate|rewrite length_replicate; unfold ENTRY_SIZE; lia|].
  rewrite Nat.add_0_r in H1. rewrite H1. cbn [mbind option_bind]. pose proof (upd_geo _ _ _ U1) as Hg1.
  destruct (poke_entry e 0 n v1 Hg1) as (v2 & H2 & U2 & I2 & _); [by eapply placed_kept|done|lia|].
  rewrite Nat.add_0_r in H2, I2. rewrite H2. cbn [mbind option_bind]. pose proof (upd_geo _ _ _ U2) as Hg2.
  destruct (poke_entry e 11 [attr] v2 Hg2) as (v3 & H3 & U3 & I3 & S3);
    [eapply placed_kept; [exact U2|]; by eapply placed_kept|by constructor|cbn; lia|].
  exists v3. split; [done|]. split; [|split].
  - eapply updates_trans; [exact U1|]. by eapply updates_trans.
  - unfold entry_name. destruct Hp as [_ Hp]. pose proof (geo_image _ (upd_geo _ _ _ U3)) as Hl3.
    pose proof (layout_kept _ _ _ U1 size ltac:(done)) as E1. pose proof (layout_kept _ _ _ U2 size ltac:(done)) as E2.
    pose proof (layout_kept _ _ _ U3 size ltac:(done)) as E3. rewrite field_ok by lia. f_equal. apply list_eq. intros j.
    destruct (decide (j < 11)%nat) as [Hj|Hj]; [|by rewrite lookup_take_ge, lookup_ge_None_2 by lia].
    rewrite lookup_take_lt, lookup_drop by done. rewrite S3 by (cbn; lia). rewrite I2 by lia. done.
  - unfold entry_attr. specialize (I3 0%nat ltac:(cbn; lia)). by rewrite Nat.add_0_r in I3.
Qed.

(** A new entry keeps its name when the cluster and the size are set. *)
Lemma names_of_meta P v v' e : updates P v v' → (∀ i, Z.of_nat e ≤ i < Z.of_nat e + 12 → ¬ P i) → geometry v →
  entry_name v' e = entry_name v e ∧ entry_attr v' e = entry_attr v e ∧ base v' !! e = base v !! e.
Proof.
  intros U HP Hg. pose proof (geo_image _ Hg) as Hl. pose proof (geo_image _ (upd_geo _ _ _ U)) as Hl'.
  pose proof (layout_kept _ _ _ U size ltac:(done)) as Es. unfold entry_name, entry_attr.
  rewrite (field_agree (base v') (base v)) by (lia || (intros j Hj; apply U, HP; lia)). split; [done|]. split; apply U, HP; lia.
Qed.

Lemma meta_entry e i : meta_byte e i → entry_byte e i.
Proof. unfold meta_byte, entry_byte. lia. Qed.

(** The whole of a new file's entry. *)
Lemma make_entry_ok e n v :
  geometry v → placed v e → bytes n → length n = 11%nat →
  ∃ v', (v ← new_entry e n 0x20 v; v ← fatfs_set_first_cluster e 0 v; v ← set_file_size e 0 v; Some (Some e, v)) = Some (Some e, v') ∧
    updates (entry_byte e) v v' ∧ entry_name v' e = Some n ∧ entry_attr v' e = Some 0x20 ∧
    fatfs_first_cluster v' e = Some 0.
Proof.
  intros Hg Hp Hb Hn. destruct (new_entry_ok e n 0x20 v Hg Hp Hb Hn) as (v1 & -> & U1 & N1 & A1); [unfold byte; lia|].
  cbn [mbind option_bind]. pose proof (upd_geo _ _ _ U1) as Hg1.
  destruct (set_entry_ok e 0 0 v1 Hg1) as (v2 & H2 & U2 & C2 & _); [by eapply placed_kept|lia|lia|].
  destruct (fatfs_set_first_cluster e 0 v1) as [w|]; [|done]. cbn [mbind option_bind] in *. rewrite H2. cbn [mbind option_bind].
  destruct (names_of_meta _ _ _ e U2) as (E1 & E2 & _); [unfold meta_byte; lia|done|].
  exists v2. split; [done|]. split; [|split; [by rewrite E1|split; [by rewrite E2|done]]].
  eapply updates_trans; [exact U1|]. eapply updates_mono; [exact U2|]. apply meta_entry.
Qed.
End FatPath.
