(* ===== verification/FatRoot.v ===== *)
(** The root directory of a FAT16 volume, and [fatfs_write] and [fatfs_read] of a
    file in it. *)

From stdpp Require Import relations.
From S2P Require Import Prelude Arrays Bytes Block BlockProps Fat FatTable FatChain FatFile FatPath.

Module FatRoot.

Import Arrays Bytes Fat FatTable FatChain FatFile FatWrite FatNames FatPath.

(** ** The directory *)

Definition root_at (v : fatfs_volume) : nat := Z.to_nat (root_dir_sector v * bytes_per_sector v).
Definition root_count (v : fatfs_volume) : nat := Z.to_nat (root_entries v).

(** The entries of the root directory. *)
Definition root_entry (v : fatfs_volume) (e : nat) : Prop := in_run (root_at v) (root_count v) e.

Definition scan_start : fat_dir_scan := Scan None None None 0.

Section root.
Context (v : fatfs_volume) (Hg : geometry v) (H16 : is_fat16 v = true).

Lemma root_bounds : fat_end v ≤ Z.of_nat (root_at v) ∧ Z.of_nat (root_at v) + 32 * Z.of_nat (root_count v) ≤ data_start v ∧ data_start v < size v.
Proof using Hg H16.
  destruct (geo_root _ Hg H16) as (H1 & H2 & H3). pose proof (geo_fat_bounds v Hg). pose proof (geo_end _ Hg). pose proof (geo_clusters _ Hg).
  destruct (cluster_size_ok v Hg) as [_ Hp]. unfold root_at, root_count. split; [lia|]. split; [lia|]. nia.
Qed.

Lemma root_scan t : fatfs_dir_scan v 0 t = r ← scan_run v t (root_count v) (root_at v) scan_start; Some (0, scan_of r).
Proof using Hg H16.
  pose proof root_bounds as Hb. destruct (geo_root _ Hg H16) as (H1 & _). destruct (geo_sector _ Hg) as [Hs _]. pose proof (geo_fat_bounds v Hg).
  unfold fatfs_dir_scan. rewrite Z.eqb_refl, H16. cbn [andb].
  rewrite sector_ptr_ok by (done || (unfold root_at in Hb; nia)). change (2 <=? 0) with false. cbn iota.
  destruct (scan_run _ _ _ _ _) as [[]|]; done.
Qed.

Lemma root_entry_bounds e : root_entry v e → fat_end v ≤ Z.of_nat e ∧ Z.of_nat e + 32 ≤ data_start v.
Proof using Hg H16. intros (k & Hk & ->). pose proof root_bounds. unfold ENTRY_SIZE. lia. Qed.

Lemma root_entry_placed e : root_entry v e → placed v e.
Proof using Hg H16. intros He. pose proof (root_entry_bounds e He). pose proof root_bounds. unfold placed. lia. Qed.

Lemma root_entry_apart e c i : root_entry v e → in_volume v c → entry_byte e i → ¬ cluster_byte v c i.
Proof using Hg H16.
  intros He [Hc _]. pose proof (root_entry_bounds e He). destruct (cluster_size_ok v Hg) as [_ Hp]. unfold entry_byte, cluster_byte, cluster_at. nia.
Qed.

Lemma root_fits : (root_at v + root_count v * ENTRY_SIZE ≤ length (base v))%nat.
Proof using Hg H16. pose proof root_bounds. pose proof (geo_image _ Hg). unfold ENTRY_SIZE. lia. Qed.

(** Names survive updates of the tables, of clusters and of the numbers in an entry. *)
Lemma root_names_agree P v' e :
  updates P v v' → root_entry v e → (∀ i, P i → table_byte v i ∨ (∃ c, in_volume v c ∧ cluster_byte v c i) ∨ meta_byte e i) →
  names_agree v v' (root_at v) (root_count v).
Proof using Hg H16.
  intros U (k & Hk & ->) HP. split.
  - pose proof (geo_image _ Hg). pose proof (geo_image _ (upd_geo _ _ _ U)). pose proof (layout_kept _ _ _ U size ltac:(done)) as Es. lia.
  - intros k' j Hk' Hj. apply U. intros Hi. assert (He' : root_entry v (root_at v + k' * ENTRY_SIZE)) by by exists k'.
    pose proof (root_entry_bounds _ He') as Hb. unfold at_entry in *. unfold ENTRY_SIZE in *. destruct (HP _ Hi) as [Ht|[(c & Hc & Hcb)|Hm]].
    + unfold table_byte in Ht. lia.
    + apply (root_entry_apart _ c _ He' Hc) in Hcb; [done|]. unfold entry_byte. lia.
    + unfold meta_byte in Hm. lia.
Qed.

End root.

(** ** Looking a name up *)

(** A path that is a short name, stored as [n]. *)
Record root_name (path : cstring) (n : list Z) : Prop := {
  rn_path : last_slash path 0 None = None;
  rn_length : (length path < 64)%nat;
  rn_short : fatfs_prepare_short_name path = Some n
}.

(** The entry found for a path. *)
Definition finds (v : fatfs_volume) (path : cstring) (n : list Z) (e : nat) : Prop :=
  ∃ sc, lookup_path v path = Some (Some (0, path, n, sc)) ∧ s_match sc = Some e.

Lemma lookup_root v path n :
  is_fat16 v = true → root_name path n →
  lookup_path v path = '(rc, s) ← fatfs_dir_scan v 0 (Some n); Some (if rc <? 0 then None else Some (0, path, n, s)).
Proof.
  intros H16 [H1 H2 H3]. unfold lookup_path, fatfs_resolve_parent. rewrite H1. rewrite (proj2 (Nat.ltb_lt _ _) H2). cbn [mbind option_bind].
  rewrite H3. unfold root_of. by rewrite H16.
Qed.

Lemma root_name_stored path n : root_name path n → length n = 11%nat ∧ bytes n ∧ ∃ b, n !! 0%nat = Some b ∧ 45 ≤ b ≤ 126.
Proof.
  intros [_ _ H]. unfold fatfs_prepare_short_name in H. case_bool_decide; [done|]. destruct (negb _); [done|].
  destruct (make_short_name_parts _ _ H) as (b & x & Hp & -> & _). split; [by apply stored_name_length|]. split; [by apply stored_name_bytes|].
  destruct Hp as [Hne _ _ Hb _]. destruct b as [|c b]; [done|]. exists c. split; [done|]. inversion Hb. by destruct (valid_range c).
Qed.

Lemma finds_scan v path n r e :
  geometry v → is_fat16 v = true → root_name path n → scan_run v (Some n) (root_count v) (root_at v) scan_start = Some r →
  s_match (scan_of r) = Some e → finds v path n e.
Proof.
  intros Hg H16 Hn Hr Hm. exists (scan_of r). split; [|done]. by rewrite (lookup_root v path n H16 Hn), root_scan, Hr.
Qed.

(** A name that is found stays found. *)
Lemma finds_agree v v' path n e :
  geometry v → is_fat16 v = true → geometry v' → is_fat16 v' = true → root_at v' = root_at v → root_count v' = root_count v →
  names_agree v v' (root_at v) (root_count v) → root_name path n → finds v path n e → finds v' path n e.
Proof.
  intros Hg H16 Hg' H16' Ha Hc Hag Hn (sc & Hl & Hm). exists sc. split; [|done]. rewrite <- Hl.
  rewrite !(lookup_root _ path n) by done. rewrite !root_scan by done. by rewrite Ha, Hc, (scan_run_agree v v').
Qed.

(** ** The entry to write to *)

Lemma byte_poke_free e v :
  geometry v → placed v e → ∃ v', poke e [FAT_ENTRY_FREE] v = Some v' ∧ updates (entry_byte e) v v'.
Proof.
  intros Hg Hp. destruct (poke_entry e 0 [FAT_ENTRY_FREE] v Hg Hp) as (v' & H & U & _); [by repeat constructor|cbn; lia|].
  rewrite Nat.add_0_r in H. by exists v'.
Qed.

(** Taking the slot a scan picked. *)
Lemma take_slot_root v sc e :
  geometry v → placed v e → s_match sc = None → picked sc = Some e →
  ∃ v', fatfs_dir_take_slot 0 sc v = Some (Some e, v') ∧ updates (entry_byte e) v v'.
Proof.
  intros Hg Hp Hm Hpk. unfold fatfs_dir_take_slot. rewrite Hm. unfold picked in Hpk. destruct (s_free sc) as [f|].
  - apply (inj Some) in Hpk as ->. exists v. split; [done|]. by apply updates_refl.
  - rewrite Hpk. destruct (byte_poke_free e v Hg Hp) as (v' & -> & U). by exists v'.
Qed.

(** What [write_entry] returns for a name of the root directory. *)
Inductive entry_result (v : fatfs_volume) (path : cstring) (n : list Z) (sc : fat_dir_scan) : option nat → fatfs_volume → Prop :=
  | er_found e : s_match sc = Some e → root_entry v e → finds v path n e → entry_result v path n sc (Some e) v
  | er_made e v' : s_match sc = None → picked sc = Some e → root_entry v e → updates (entry_byte e) v v' → finds v' path n e →
      entry_attr v' e = Some 0x20 → fatfs_first_cluster v' e = Some 0 → entry_result v path n sc (Some e) v'
  | er_full : s_match sc = None → picked sc = None → entry_result v path n sc None v.

Lemma write_entry_root v path n :
  geometry v → is_fat16 v = true → root_name path n →
  ∃ sc o v', fatfs_dir_scan v 0 (Some n) = Some (0, sc) ∧ write_entry v path = Some (o, v') ∧ entry_result v path n sc o v'.
Proof.
  intros Hg H16 Hn. destruct (scan_run_ok v n (root_count v) (root_at v) scan_start) as (r & Hr & Hm & Hf & Hz);
    [by apply root_fits|done|]. exists (scan_of r).
  assert (Hs : fatfs_dir_scan v 0 (Some n) = Some (0, scan_of r)) by by rewrite root_scan, Hr.
  unfold write_entry. rewrite (lookup_root v path n H16 Hn), Hs. cbn [mbind option_bind]. change (0 <? 0) with false. cbn iota.
  destruct (s_match (scan_of r)) as [e|] eqn:Em.
  { exists (Some e), v. split; [done|]. split; [done|]. destruct (Hm e eq_refl) as [_ Hin]. apply er_found; [done|done|]. by eapply finds_scan. }
  destruct (picked (scan_of r)) as [e|] eqn:Ep.
  - assert (He : root_entry v e).
    { unfold picked in Ep. destruct (s_free (scan_of r)) as [f|].
      - apply (inj Some) in Ep as ->. by destruct (Hf e eq_refl).
      - by destruct (Hz e Ep). }
    pose proof (root_entry_placed v Hg H16 e He) as Hp. destruct (take_slot_root v (scan_of r) e Hg Hp Em Ep) as (v1 & -> & U1).
    cbn [mbind option_bind]. destruct (root_name_stored path n Hn) as (Hl & Hb & b0 & Hb0 & Hr0).
    destruct (make_entry_ok e n v1 (upd_geo _ _ _ U1)) as (v2 & -> & U2 & N2 & A2 & C2); [by eapply placed_kept|done|done|].
    assert (U : updates (entry_byte e) v v2) by by eapply updates_trans.
    pose proof (upd_geo _ _ _ U) as Hg2. destruct (updates_inv _ _ _ U) as [b E].
    exists (Some e), v2. split; [done|]. split; [done|]. apply (er_made v path n _ e v2); try done.
    destruct (scan_run_new v v2 n (root_count v) (root_at v) scan_start r e scan_start) as (r' & Hr' & Hm'); try done.
    + by apply root_fits.
    + pose proof (geo_image _ Hg). pose proof (geo_image _ Hg2). pose proof (layout_kept _ _ _ U size ltac:(done)). lia.
    + constructor; [|by exists 0x20|done]. exists b0. split; [|unfold FAT_ENTRY_END, FAT_ENTRY_FREE; lia].
      unfold entry_name in N2. apply field_Some in N2 as (_ & N2 & _). rewrite <- Hb0, N2. rewrite lookup_take_lt, lookup_drop, Nat.add_0_r by lia. done.
    + intros i Hi. apply U. unfold entry_byte, ENTRY_SIZE in *. lia.
    + apply (finds_scan v2 path n r'); [done|by rewrite E|done|by rewrite E in *|done].
  - exists None, v. split; [done|]. split; [|by apply er_full]. unfold fatfs_dir_take_slot. rewrite Em. unfold picked in Ep.
    destruct (s_free (scan_of r)); [done|]. rewrite Ep, H16. done.
Qed.

(** ** Writing back *)

Section write_read.
Context {W : Type} `{!Block.DiskOps W}.
Implicit Types (s : Block.blocks) (w : W).

(** The device a volume has already been matched with is a disk of the table. *)
Definition on_disk (s : Block.blocks) (v : fatfs_volume) : Prop :=
  ∀ i, device v = Some i → ∃ d, BlockProps.device s i d ∧ BlockProps.is_disk d.

(** Everything but where the volume is written back to. *)
Definition same_image (v v' : fatfs_volume) : Prop := ∃ d lba k c b, v' = set_backing d lba k c b v.

Lemma same_image_refl v : same_image v v.
Proof. exists (device v), (backing_lba v), (backing_sectors v), (backing_configured v), (dirty v). by destruct v. Qed.

Lemma same_image_backing d lba k c b v v' : same_image (set_backing d lba k c b v) v' → same_image v v'.
Proof. intros (d' & l' & k' & c' & b' & ->). by exists d', l', k', c', b'. Qed.

Lemma resolve_device_ok s v :
  BlockProps.wf s → on_disk s v →
  ∃ o v', fatfs_resolve_device s v = Some (o, v') ∧ same_image v v' ∧
    ∀ i, o = Some i → ∃ d, BlockProps.device s i d ∧ BlockProps.is_disk d.
Proof.
  intros Hs Hd. unfold fatfs_resolve_device. destruct (device v) as [i|] eqn:E.
  { exists (Some i), v. split; [done|]. split; [apply same_image_refl|]. intros ? [= <-]. by apply Hd. }
  rewrite cells_ok by (pose proof (BlockProps.wf_table _ Hs); pose proof (BlockProps.wf_count _ Hs); lia). cbn [mbind option_bind].
  eexists _, _. split; [done|]. split; [by eexists _, _, _, _, _|]. intros i Hi.
  apply first_index_Some in Hi as (d & Hi & Hb & _). exists d. assert (Hdev : BlockProps.device s i d) by by apply BlockProps.device_take.
  split; [done|]. apply (BlockProps.not_partition_disk s i d Hs Hdev). unfold backs in Hb. by destruct (Block.is_partition d).
Qed.

Lemma blockdev_write_disk s i d lba n buf w :
  BlockProps.device s i d → BlockProps.is_disk d → ∃ rc w', Block.blockdev_write s (Some i) lba n (Some buf) w = Some (rc, w').
Proof.
  intros [_ Hd] (id & r & wr & Ho). unfold Block.blockdev_write. cbn [Block.IO_FUEL Block.write_loop]. rewrite Hd. cbn [mbind option_bind]. rewrite Ho.
  destruct (negb wr); [by eauto|]. destruct (_ <? 0); [by eauto|]. destruct (Block.disk_write _ _ _ _ _). by eauto.
Qed.

(** The write back returns and leaves the image alone. *)
Lemma flush_returns s v w :
  BlockProps.wf s → on_disk s v → ∃ rc v' w', fatfs_flush s v w = Some (rc, v', w') ∧ same_image v v'.
Proof.
  intros Hs Hd. pose proof (same_image_refl v) as Hr. unfold fatfs_flush.
  destruct (negb (ready v)); [by eauto 10|]. destruct (negb (dirty v)); [by eauto 10|]. destruct (negb (backing_configured v)); [by eauto 10|].
  destruct (_ =? 0); [by eauto 10|]. cbn zeta. destruct (_ =? 0); [by eauto 10|]. destruct (_ =? 0); [by eauto 10|].
  destruct (resolve_device_ok s v Hs Hd) as (o & v1 & -> & Hv1 & Ho). cbn [mbind option_bind].
  destruct o as [i|]; [|by eauto 10]. destruct (Ho i eq_refl) as (d & Hi & Hdisk).
  edestruct (blockdev_write_disk s i d) as (rc & w' & ->); [done|done|]. cbn [mbind option_bind]. destruct (rc <? 0); [by eauto 10|].
  eexists _, _, _. split; [done|]. destruct Hv1 as (d' & l & k & c & b & ->). by eexists _, _, _, _, _.
Qed.

Lemma finish_returns s v w :
  BlockProps.wf s → on_disk s v → ∃ v' w', finish s v w = Some (0, v', w') ∧ same_image v v'.
Proof.
  intros Hs Hd. unfold finish, fatfs_flush_or_warn. assert (Hm : same_image v (fatfs_mark_dirty v)) by by eexists _, _, _, _, _.
  destruct (negb _); [by eauto 10|]. destruct (_ =? 0)%nat; [by eauto 10|].
  destruct (flush_returns s (fatfs_mark_dirty v) w Hs Hd) as (rc & v' & w' & -> & Hv'). cbn [mbind option_bind].
  exists v', w'. split; [done|]. by eapply same_image_backing.
Qed.

(** ** Reading back *)

Lemma same_image_geometry v v' : same_image v v' → geometry v → geometry v'.
Proof. intros (d & l & k & c & b & ->) []. by constructor. Qed.

(** A file that is found under a name is read. *)
Lemma read_found v path n e data l out max a :
  geometry v → ready v = true → finds v path n e → entry_attr v e = Some a → Z.land a FAT_ATTR_DIRECTORY = 0 →
  file_data v e data l → data ≠ [] → (length data < max ≤ length out)%nat →
  fatfs_read v path out max = Some (0, data ++ 0 :: drop (S (length data)) out, length data).
Proof.
  intros Hg Hr (sc & Hl & Hm) Ha Hdir Hfd Hne Hmax. pose proof Hfd as [Hfirst Hsize Hlink _ Hnn]. unfold fatfs_read, fatfs_ready.
  rewrite Hr, (proj2 (Nat.eqb_neq max 0)) by lia. cbn [negb orb]. rewrite Hl. cbn [mbind option_bind].
  destruct sc as [m f z la]. cbn [s_match] in Hm. subst m. rewrite Ha. cbn [mbind option_bind]. rewrite Hdir. cbn [Z.eqb negb].
  rewrite Hfirst, Hsize. cbn [mbind option_bind]. rewrite Nat2Z.id, Nat.min_l by lia.
  assert (length data ≠ 0%nat) by (by destruct data). rewrite (proj2 (Nat.eqb_neq (length data) 0)) by done. cbn [orb].
  specialize (Hnn Hne). destruct l as [|c l]; [done|]. destruct (proj2 Hlink 0%nat c eq_refl) as [[Hc _] _].
  rewrite (proj2 (Z.ltb_ge _ _)) by done. rewrite (file_data_load v e data (c :: l)) by (done || lia). cbn [mbind option_bind].
  rewrite (proj2 (Nat.ltb_lt _ _)) by lia. rewrite buf_store_ok by (rewrite length_app, length_drop; lia). cbn [mbind option_bind].
  rewrite insert_app_r_alt, Nat.sub_diag by lia. destruct (drop (length data) out) as [|x rest] eqn:Ed.
  { apply (f_equal length) in Ed. rewrite length_drop in Ed. cbn in Ed. lia. }
  do 4 f_equal. cbn. f_equal. replace (S (length data)) with (length data + 1)%nat by lia. by rewrite <- drop_drop, Ed.
Qed.

(** ** The round trip *)

Lemma free_clusters_mono v v' :
  total_clusters v' = total_clusters v → (∀ c, in_volume v c → fat v c = 0 → fat v' c = 0) →
  (length (free_clusters v) ≤ length (free_clusters v'))%nat.
Proof.
  intros Ht Hz. unfold free_clusters. rewrite Ht.
  assert (Hin : ∀ c, c ∈ seqZ 2 (total_clusters v) → in_volume v c) by (intros c Hc%elem_of_seqZ; unfold in_volume; lia).
  induction (seqZ 2 (total_clusters v)) as [|c l IH]; [done|]. specialize (IH ltac:(intros d Hd; apply Hin; by right)).
  rewrite !filter_cons. pose proof (Hz c (Hin c ltac:(by left))). repeat case_decide; cbn [length]; try tauto; lia.
Qed.

(** A volume in which the name is found at [e], with room for the data. *)
Lemma write_found v path n e data a :
  geometry v → is_fat16 v = true → root_name path n → root_entry v e → finds v path n e → entry_attr v e = Some a →
  bytes data → (length data ≤ length (free_clusters v) * Z.to_nat (cluster_bytes v))%nat →
  ∃ v' l, fatfs_write_replace e data v = Some (0, v') ∧ geometry v' ∧ is_fat16 v' = true ∧ ready v' = ready v ∧ device v' = device v ∧
    finds v' path n e ∧ entry_attr v' e = Some a ∧ file_data v' e data l.
Proof.
  intros Hg H16 Hn He Hf Ha Hb Hroom. pose proof (root_entry_placed v Hg H16 e He) as Hp.
  destruct (first_cluster_returns v e Hg Hp) as (first & Hfc & Hfb). cbn beta in Hfb.
  assert (Hfe : file_entry v e first).
  { constructor; [done|done|]. intros c i Hc _ Hm. apply (root_entry_apart v Hg H16 e c i He Hc). by apply meta_entry. }
  destruct (write_replace_ok v e first data Hg Hfe Hb) as (v1 & rc & v' & H1 & Hw & [U _ Hres]).
  destruct (free_chain_ok first v Hg ltac:(lia)) as (v1' & H1' & [U1 Hr1 Ho1 _]). assert (v1' = v1) as -> by congruence.
  assert (Hmono : (length (free_clusters v) ≤ length (free_clusters v1))%nat).
  { apply free_clusters_mono; [by apply (layout_kept _ _ _ U1)|]. intros c Hc Hz. destruct (decide (fat v1 c = 0)) as [|Hnz]; [done|].
    rewrite Ho1; [done|destruct Hc; lia|]. intros (? & ? & ?). by apply Hnz, Hr1. }
  destruct Hres as [(-> & _ & l & Hfd & _)|(_ & Hlt & _)]; [|nia].
  destruct (updates_inv _ _ _ U) as [b E]. pose proof (upd_geo _ _ _ U) as Hg'.
  assert (Hag : names_agree v v' (root_at v) (root_count v)).
  { apply (root_names_agree v Hg H16 _ _ e U He). intros i [?|[(c & ? & _ & ?)|?]]; [by left|right; left; by exists c|by right; right]. }
  exists v', l. split; [done|]. split; [done|]. split; [by rewrite E|]. split; [by rewrite E|]. split; [by rewrite E|]. split; [|split; [|done]].
  - apply (finds_agree v); try done; by rewrite E.
  - rewrite <- Ha. unfold entry_attr. destruct He as (k & Hk & ->). apply (proj2 Hag k 11%nat); [done|lia].
Qed.

(** A file written by name into the root directory of a FAT16 volume is read back:
    when the name is there as a file or the directory has a slot for it, and the free
    clusters can hold the data, [fatfs_write] succeeds and [fatfs_read] of the same
    path then returns the data, their length, and a terminator behind them, whether
    or not the volume could be written back to its disk. *)
Theorem fat_write_read s v w path n data out max sc :
  geometry v → ready v = true → is_fat16 v = true → BlockProps.wf s → on_disk s v → root_name path n →
  bytes data → data ≠ [] → (length data < max ≤ length out)%nat →
  fatfs_dir_scan v 0 (Some n) = Some (0, sc) →
  match s_match sc with
  | Some e => ∃ a, entry_attr v e = Some a ∧ Z.land a FAT_ATTR_DIRECTORY = 0
  | None => is_Some (picked sc)
  end →
  (length data ≤ length (free_clusters v) * Z.to_nat (cluster_bytes v))%nat →
  ∃ v' w', fatfs_write s path (Some data) (length data) WriteReplace v w = Some (0, v', w') ∧
    fatfs_read v' path out max = Some (0, data ++ 0 :: drop (S (length data)) out, length data).
Proof.
  intros Hg Hr H16 Hs Hd Hn Hb Hne Hmax Hsc Htarget Hroom.
  destruct (write_entry_root v path n Hg H16 Hn) as (sc' & o & v1 & Hsc' & Hwe & Her). assert (sc' = sc) as -> by congruence.
  assert (H1 : ∃ e a, o = Some e ∧ geometry v1 ∧ is_fat16 v1 = true ∧ root_entry v1 e ∧ finds v1 path n e ∧ entry_attr v1 e = Some a ∧
    Z.land a FAT_ATTR_DIRECTORY = 0 ∧ ready v1 = true ∧ device v1 = device v ∧
    (length data ≤ length (free_clusters v1) * Z.to_nat (cluster_bytes v1))%nat).
  { destruct Her as [e Hm He Hf|e v1 Hm Hp He U Hf Ha _|Hm Hp]; rewrite Hm in Htarget.
    - destruct Htarget as (a & Ha & Hdir). by exists e, a.
    - pose proof (upd_geo _ _ _ U) as Hg1. destruct (updates_inv _ _ _ U) as [b E]. exists e, 0x20.
      split; [done|]. split; [done|]. split; [by rewrite E|]. split; [by rewrite E|]. split; [done|]. split; [done|]. split; [done|].
      split; [by rewrite E|]. split; [by rewrite E|]. replace (cluster_bytes v1) with (cluster_bytes v) by by rewrite E.
      assert (length (free_clusters v) ≤ length (free_clusters v1))%nat; [|nia]. apply free_clusters_mono; [by rewrite E|].
      intros c Hc Hz. rewrite (fat_kept _ _ _ Hg U); [done| |destruct Hc; lia]. intros i Ht Hi.
      pose proof (root_entry_bounds v Hg H16 e He). unfold table_byte, entry_byte in *. lia.
    - rewrite Hp in Htarget. by destruct Htarget. }
  destruct H1 as (e & a & -> & Hg1 & H161 & He & Hf & Ha & Hdir & Hr1 & Hd1 & Hroom1).
  destruct (write_found v1 path n e data a Hg1 H161 Hn He Hf Ha Hb Hroom1) as (v2 & l & Hw & Hg2 & H162 & Hr2 & Hd2 & Hf2 & Ha2 & Hfd).
  destruct (finish_returns s v2 w Hs) as (v3 & w3 & Hfin & Him); [intros i Hi; apply Hd; congruence|].
  exists v3, w3. split.
  - unfold fatfs_write, fatfs_ready. rewrite Hr, Hwe. cbn [negb mbind option_bind]. rewrite Ha. cbn [mbind option_bind]. rewrite Hdir.
    cbn [Z.eqb negb]. rewrite bool_decide_eq_false_2 by done. cbn [andb from_option id]. rewrite field_all by done. cbn [mbind option_bind].
    rewrite Hw. cbn [mbind option_bind]. exact Hfin.
  - pose proof Him as (d & lba & k & c & b & E). pose proof (same_image_geometry _ _ Him Hg2) as Hg3.
    apply (read_found v3 path n e data l out max a); try done; rewrite ?E; try done.
    + cbn. congruence.
    + rewrite E in Hg3. by apply (finds_agree v2).
    + destruct Hfd. by constructor.
Qed.

End write_read.
End FatRoot.
