(* ===== verification/FatMount.v ===== *)
(** FAT volumes in the virtual file system (the adapters and [fatfs_mount] of
    kernel/fatfs.c, [fat16_mount_volume] of kernel/fat16.c): a volume that is mounted is
    reached through paths, and a file written through one is read back through it.

    A pointer to a volume is a number, given to the mount as its context; volume 0 is
    [g_fat_volume].  The class [HasFat] has the volumes, the block devices and the disks as
    parts of the world of the virtual file system. *)

From S2P Require Import Prelude Bytes VfsPath Vfs VfsSpec Fat FatRoot.
From S2P Require Block BlockProps FatTable FatChain FatPath.

Module FatMount.

Import Bytes VfsPath Vfs.

(** Parts of the world; the contents of the disks are the [D]. *)
Class HasFat (W Ctx D : Type) := {
  fat_of : W → nat → Fat.fatfs_volume;
  with_fat : nat → Fat.fatfs_volume → W → W;
  blocks_of : W → Block.Block.blocks;
  disks_of : W → D;
  with_disks : D → W → W;
  as_fat : Ctx → option nat;
  fat_ctx : nat → Ctx;
  fat_of_with k v w : fat_of (with_fat k v w) k = v;
  fat_of_disks d w k : fat_of (with_disks d w) k = fat_of w k;
  as_fat_ctx k : as_fat (fat_ctx k) = Some k
}.

Section fat.
Context {W Ctx D : Type} `{!Block.Block.DiskOps D, !HasFat W Ctx D}.
Implicit Types (w : W) (ctx : Ctx) (v : vfs W Ctx).

(** A writing operation on the volume that the context points at; NULL is refused. *)
Definition on_fat (f : Block.Block.blocks → Fat.fatfs_volume → D → option (Z * Fat.fatfs_volume * D)) w ctx : option (Z * W) :=
  match as_fat ctx with
  | None => Some (-1, w)
  | Some k => '(rc, x, d) ← f (blocks_of w) (fat_of w k) (disks_of w); Some (rc, with_fat k x (with_disks d w))
  end.

Definition fatfs_vfs_list w ctx (path : cstring) (buffer : list Z) : option (Z * list Z * W) :=
  match as_fat ctx with
  | None => Some (-1, buffer, w)
  | Some k => '(rc, buffer) ← Fat.fatfs_list (fat_of w k) path buffer (length buffer); Some (rc, buffer, w)
  end.

Definition fatfs_vfs_read w ctx (path : cstring) (buffer : list Z) : option (Z * list Z * W) :=
  match as_fat ctx with
  | None => Some (-1, buffer, w)
  | Some k =>
      '(rc, buffer, read) ← Fat.fatfs_read (fat_of w k) path buffer (length buffer);
      if rc <? 0 then Some (rc, buffer, w) else Some (s32 (Z.of_nat read), buffer, w)
  end.

Definition fat_mode (mode : vfs_write_mode) : Fat.write_mode := match mode with VFS_WRITE_REPLACE => Fat.WriteReplace | VFS_WRITE_APPEND => Fat.WriteAppend end.

Definition fatfs_vfs_write w ctx (path : cstring) (data : option (list Z)) (mode : vfs_write_mode) : option (Z * W) :=
  on_fat (λ s, Fat.fatfs_write s path data (length (default [] data)) (fat_mode mode)) w ctx.

Definition fatfs_vfs_remove w ctx (path : cstring) : option (Z * W) := on_fat (λ s, Fat.fatfs_remove s path) w ctx.
Definition fatfs_vfs_mkdir w ctx (path : cstring) : option (Z * W) := on_fat (λ s, Fat.fatfs_mkdir s path) w ctx.

Definition fatfs_ops : vfs_fs_ops W Ctx :=
  {| op_list := Some fatfs_vfs_list; op_read := Some fatfs_vfs_read; op_write := Some fatfs_vfs_write; op_remove := Some fatfs_vfs_remove; op_mkdir := Some fatfs_vfs_mkdir |}.

Definition set_mount_path (p : cstring) (x : Fat.fatfs_volume) : Fat.fatfs_volume :=
  Fat.Volume (Fat.base x) (Fat.size x) (Fat.ready x) (Fat.fat_type x) (Fat.bytes_per_sector x) (Fat.sectors_per_cluster x) (Fat.reserved_sectors x) (Fat.fat_count x) (Fat.sectors_per_fat x)
    (Fat.total_sectors x) (Fat.data_start_sector x) (Fat.total_clusters x) (Fat.root_dir_sector x) (Fat.root_dir_sectors x) (Fat.root_entries x) (Fat.root_cluster x) p
    (Fat.device x) (Fat.backing_lba x) (Fat.backing_sectors x) (Fat.backing_configured x) (Fat.dirty x).

Definition fat_label (name : option cstring) : cstring := match name with Some n => if char0 n =? 0 then lit "Disk0" else n | None => lit "Disk0" end.

(** Volume [k]; [None] for a NULL name. *)
Definition fatfs_mount (k : nat) (name : option cstring) v w : option (Z * vfs W Ctx * W) :=
  if negb (Fat.fatfs_ready (fat_of w k)) then Some (-1, v, w)
  else
    let label := fat_label name in
    if (VFS_MAX_PATH <=? 9 + length label)%nat then Some (-1, v, w)
    else
      let path := lit "/Volumes/" ++ label in
      let w := with_fat k (set_mount_path path (fat_of w k)) w in
      '(rc, w) ← vfs_mkdir v w (Some path);
      w ← (if rc <? 0 then '(_, w) ← vfs_write_file v w (Some path) None; Some w else Some w);
      let '(rc, v) := vfs_mount_ v (Some path) (Some fatfs_ops) (fat_ctx k) in
      Some (if rc <? 0 then -1 else 0, v, w).

(** ** The boot volume *)

(** [None] is -1; both strings are cut to the buffer. *)
Definition join_path (base leaf : cstring) (capacity : nat) : option cstring :=
  if (capacity =? 0)%nat then None
  else
    let out := take (capacity - 1) base in
    match (match last out with
           | Some c => if c =? slash then Some out else if (capacity <=? length out + 1)%nat then None else Some (out ++ [slash])
           | None => if (capacity <=? 1)%nat then None else Some [slash]
           end) with
    | None => None
    | Some out => let out := out ++ take (capacity - 1 - length out) leaf in if (capacity <=? length out)%nat then None else Some out
    end.

(** [probe] has the bytes of the array on the stack. *)
Definition ensure_directory (probe : list Z) (path : cstring) v w : option W :=
  if char0 path =? 0 then Some w
  else
    '(rc, w) ← vfs_mkdir v w (Some path);
    if rc =? 0 then Some w else '(_, _, w) ← vfs_list v w (Some path) (Some probe); Some w.

(** [g_ready] is [g_fat_ready]; the last part of the answer is what goes to the log. *)
Definition fat16_mount_volume (probe : list Z) (g_ready : bool) (name : option cstring) v w : option (Z * vfs W Ctx * W * list string) :=
  if negb (g_ready && Fat.fatfs_ready (fat_of w 0)) then Some (-1, v, w, [])
  else
    '(rc, v, w) ← fatfs_mount 0 name v w;
    if rc <? 0 then Some (-1, v, w, [])
    else if char0 (Fat.mount_path (fat_of w 0)) =? 0 then Some (0, v, w, [])
    else
      match join_path (Fat.mount_path (fat_of w 0)) (lit "Users") VFS_MAX_PATH with
      | None => Some (0, v, w, [])
      | Some users_path =>
          w ← ensure_directory probe users_path v w;
          w ← match join_path users_path (lit "pran") VFS_MAX_PATH with
              | None => Some w
              | Some pran_path =>
                  w ← ensure_directory probe pran_path v w;
                  match join_path pran_path (lit "Documents") VFS_MAX_PATH with
                  | None => Some w
                  | Some docs_path => ensure_directory probe docs_path v w
                  end
              end;
          let '(rc, v) := vfs_register_alias v (Some (lit "/Users")) (Some users_path) in
          Some (0, v, w, [if rc =? 0 then "fat: /Users aliased to persistent volume"%string else "fat: failed to alias /Users"%string])
      end.

End fat.

(** ** Theorems *)

Section theorems.
Context {W Ctx D : Type} `{!Block.Block.DiskOps D, !HasFat W Ctx D}.
Implicit Types (w u : W) (v : vfs W Ctx).

(** A successful mount adds one entry to the table, with the operations on the volume. *)
Lemma fatfs_mount_spec k name v w v' w' : VfsSpec.wf v → wf_cstr (default [] name) → fatfs_mount k name v w = Some (0, v', w') →
  ∃ slot m, VfsSpec.mounted (mount_table v') slot m ∧ m_ops m = Some fatfs_ops ∧ m_ctx m = fat_ctx k ∧ VfsSpec.wf v' ∧
    mount_point m = spell (walk (lit "/Volumes/" ++ fat_label name)).
Proof using.
  intros Hv Hn. unfold fatfs_mount. destruct (negb _); [done|]. set (label := fat_label name) in *. destruct (_ <=? _)%nat; [done|].
  assert (Hl : wf_cstr (lit "/Volumes/" ++ label)).
  { apply wf_cstr_app. split; [by_eval|]. unfold label, fat_label. destruct name as [n|]; [|by_eval]. destruct (char0 n =? 0); [by_eval|done]. }
  set (w1 := with_fat k _ w). destruct (vfs_mkdir v w1 _) as [[rc w2]|]; [|done]. cbn [mbind option_bind].
  destruct (if rc <? 0 then _ else _) as [w3|]; [|done]. cbn [mbind option_bind]. destruct (vfs_mount_ v _ _ _) as [rc' v2] eqn:E. intros Heq. injection Heq as Hr <- _.
  pose proof (VfsSpec.mount_wf v _ _ _ _ _ Hv Hl E) as Hwf.
  destruct (VfsSpec.vfs_mount_spec v _ _ _ _ _ Hv Hl E) as [[-> _]|(slot & old & m & -> & Hold & Hfree & Hu & Hp & Ho & Hc & _ & _ & ->)]; [done|].
  exists slot, m. split; [|by split; [|split; [|split]]]. apply (VfsSpec.mounted_insert _ _ _ _ _ _ Hold Hu Hfree). by left.
Qed.

Lemma fat_op {A} v (sel : vfs_fs_ops W Ctx → option A) f slot m path rel k {R} (fail : R) call : VfsSpec.mounted (mount_table v) slot m → m_ops m = Some fatfs_ops → m_ctx m = fat_ctx k → sel fatfs_ops = Some f →
  locate v path = Some (slot, rel) → dispatch v path sel fail call = call f (fat_ctx k) rel.
Proof using. intros [Hm _] Ho Hc Hs Hl. unfold dispatch, mount_op. rewrite Hl, Hm. cbn [mbind option_bind]. rewrite Ho. cbn [mbind option_bind]. rewrite Hs. cbn [mbind option_bind]. by rewrite Hc. Qed.

(** C7: After a FAT16 volume has been mounted in the virtual file system, a file written
    through a path that leads into its root directory is read back through the path: when the
    name is there as a file or the directory has room for it, and the free clusters can hold
    the data, [vfs_write_file] reports success, and [vfs_read_path] then returns the number
    of bytes and the bytes, with a terminator behind them. *)
Theorem fat_mounted_write_read k name v w v' w' : VfsSpec.wf v → wf_cstr (default [] name) → fatfs_mount k name v w = Some (0, v', w') →
  ∃ slot m, VfsSpec.mounted (mount_table v') slot m ∧
    mount_point m = spell (walk (lit "/Volumes/" ++ fat_label name)) ∧
    ∀ u path rel n data out sc, locate v' path = Some (slot, rel) → let x := fat_of u k in
      FatTable.FatTable.geometry x → Fat.ready x = true → Fat.is_fat16 x = true → BlockProps.BlockProps.wf (blocks_of u) → FatRoot.on_disk (blocks_of u) x → FatRoot.root_name rel n →
      bytes data → data ≠ [] → (length data < length out)%nat → Z.of_nat (length data) < 2 ^ 31 →
      Fat.fatfs_dir_scan x 0 (Some n) = Some (0, sc) →
      match Fat.s_match sc with Some e => ∃ a, Fat.entry_attr x e = Some a ∧ Z.land a Fat.FAT_ATTR_DIRECTORY = 0 | None => is_Some (FatPath.FatPath.picked sc) end →
      (length data ≤ length (FatChain.FatChain.free_clusters x) * Z.to_nat (FatTable.FatTable.cluster_bytes x))%nat →
      ∃ u', vfs_write_file v' u (Some path) (Some data) = Some (0, u') ∧
        vfs_read_path v' u' (Some path) (Some out) = Some (Z.of_nat (length data), data ++ 0 :: drop (S (length data)) out, u').
Proof using.
  intros Hv Hn Hm. destruct (fatfs_mount_spec k name v w v' w' Hv Hn Hm) as (slot & m & Hsl & Ho & Hc & _ & Hp). exists slot, m. split; [done|]. split; [done|].
  intros u path rel n data out sc Hl x Hg Hr H16 Hb Hd Hrn Hby Hne Hlen Hbig Hsc Ht Hroom.
  destruct (FatRoot.fat_write_read (blocks_of u) x (disks_of u) rel n data out (length out) sc Hg Hr H16 Hb Hd Hrn Hby Hne (conj Hlen (le_n _)) Hsc Ht Hroom) as (x' & d' & Ew & Er).
  exists (with_fat k x' (with_disks d' u)). unfold vfs_write_file, vfs_write_internal, vfs_read_path. split.
  - rewrite (fat_op v' op_write fatfs_vfs_write slot m path rel k _ _ Hsl Ho Hc eq_refl Hl). unfold fatfs_vfs_write, on_fat. rewrite as_fat_ctx. cbn [default fat_mode]. fold x. cbn. by rewrite Ew.
  - destruct (length out =? 0)%nat eqn:E0; [apply Nat.eqb_eq in E0; lia|]. rewrite (fat_op v' op_read fatfs_vfs_read slot m path rel k _ _ Hsl Ho Hc eq_refl Hl).
    unfold fatfs_vfs_read. rewrite as_fat_ctx, fat_of_with, Er. cbn [mbind option_bind]. change (0 <? 0) with false. by rewrite s32_small by lia.
Qed.

End theorems.

End FatMount.
