(* ===== verification/Input.v ===== *)
(** Interrupt lines with their event mailboxes (kernel/idt.c, kernel/interrupts.h) and
    the keyboard (kernel/keyboard.c).  A handler is a number, a mailbox is an index
    into the mailboxes its owners keep, and the commands to the interrupt controller
    are recorded in order.  The port reads of [keyboard_irq_handler] and [kb_poll]
    are arguments. *)

From S2P Require Import Prelude Arrays.

Module Input.

Import Arrays.

(** ** Interrupt lines *)

Definition IRQ_MAX_LINES : nat := 16.
Definition IRQ_MAX_SHARED_HANDLERS : nat := 4.
Definition IRQ_MAX_MAILBOX_SUBSCRIBERS : nat := 4.
Definition IRQ_MAILBOX_CAPACITY : nat := 32.

Record irq_event := Event { ev_irq : Z; ev_data : Z; ev_timestamp : Z }.

Record irq_mailbox := Mailbox { entries : list irq_event; mb_head : nat; mb_tail : nat; mb_count : nat }.

(** A handler with its context; the mailboxes that subscribed. *)
Record irq_dispatch_slot := Slot {
  primary : option Z;
  shared : list (option (Z * Z));
  mailboxes : list (option nat)
}.

Inductive pic_command := PicClearMask (irq : Z) | PicSetMask (irq : Z).

Record irqs := Irqs { irq_table : list irq_dispatch_slot; boxes : list irq_mailbox; pic : list pic_command }.

Definition set_slot (irq : nat) (x : irq_dispatch_slot) (s : irqs) : irqs := Irqs (<[irq := x]> (irq_table s)) (boxes s) (pic s).
Definition set_box (b : nat) (x : irq_mailbox) (s : irqs) : irqs := Irqs (irq_table s) (<[b := x]> (boxes s)) (pic s).
Definition command (c : pic_command) (s : irqs) : irqs := Irqs (irq_table s) (boxes s) (pic s ++ [c]).

(** A line number that is in range. *)
Definition line (irq : Z) : option nat := if (irq <? 0) || (Z.of_nat IRQ_MAX_LINES <=? irq) then None else Some (Z.to_nat irq).

Definition irq_install_handler (irq : Z) (handler : option Z) (s : irqs) : option irqs :=
  match line irq with
  | None => Some s
  | Some i =>
      slot ← irq_table s !! i;
      Some (command (PicClearMask irq) (set_slot i (Slot handler (shared slot) (mailboxes slot)) s))
  end.

Definition irq_uninstall_handler (irq : Z) (s : irqs) : option irqs :=
  match line irq with
  | None => Some s
  | Some i =>
      slot ← irq_table s !! i;
      Some (command (PicSetMask irq) (set_slot i (Slot None (shared slot) (mailboxes slot)) s))
  end.

Definition irq_register_shared_handler (irq : Z) (handler : option Z) (context : Z) (s : irqs) : option (Z * irqs) :=
  match line irq, handler with
  | Some i, Some h =>
      slot ← irq_table s !! i;
      match first_index (fun e => bool_decide (e = Some (h, context))) (shared slot) with
      | Some _ => Some (0, s)
      | None =>
          match first_index (fun e => bool_decide (e = None)) (shared slot) with
          | Some j => Some (0, command (PicClearMask irq) (set_slot i (Slot (primary slot) (<[j := Some (h, context)]> (shared slot)) (mailboxes slot)) s))
          | None => Some (-1, s)
          end
      end
  | _, _ => Some (-1, s)
  end.

Definition irq_unregister_shared_handler (irq : Z) (handler : option Z) (context : Z) (s : irqs) : option (Z * irqs) :=
  match line irq, handler with
  | Some i, Some h =>
      slot ← irq_table s !! i;
      match first_index (fun e => bool_decide (e = Some (h, context))) (shared slot) with
      | Some j => Some (0, set_slot i (Slot (primary slot) (<[j := None]> (shared slot)) (mailboxes slot)) s)
      | None => Some (-1, s)
      end
  | _, _ => Some (-1, s)
  end.

(** ** Mailboxes *)

Definition irq_mailbox_init (box : option nat) (s : irqs) : option irqs :=
  match box with
  | None => Some s
  | Some b => x ← boxes s !! b; Some (set_box b (Mailbox (entries x) 0 0 0) s)
  end.

Definition irq_mailbox_subscribe (irq : Z) (box : option nat) (s : irqs) : option (Z * irqs) :=
  match line irq, box with
  | Some i, Some b =>
      slot ← irq_table s !! i;
      match first_index (fun e => bool_decide (e = Some b)) (mailboxes slot) with
      | Some _ => Some (0, s)
      | None =>
          match first_index (fun e => bool_decide (e = None)) (mailboxes slot) with
          | Some j => Some (0, command (PicClearMask irq) (set_slot i (Slot (primary slot) (shared slot) (<[j := Some b]> (mailboxes slot))) s))
          | None => Some (-1, s)
          end
      end
  | _, _ => Some (-1, s)
  end.

Definition irq_mailbox_unsubscribe (irq : Z) (box : option nat) (s : irqs) : option (Z * irqs) :=
  match line irq, box with
  | Some i, Some b =>
      slot ← irq_table s !! i;
      match first_index (fun e => bool_decide (e = Some b)) (mailboxes slot) with
      | Some j => Some (0, set_slot i (Slot (primary slot) (shared slot) (<[j := None]> (mailboxes slot))) s)
      | None => Some (-1, s)
      end
  | _, _ => Some (-1, s)
  end.

Definition next_slot (i : nat) : nat := ((i + 1) mod IRQ_MAILBOX_CAPACITY)%nat.

(** A full mailbox loses its oldest event. *)
Definition mailbox_push (b : nat) (event : irq_event) (s : irqs) : option irqs :=
  x ← boxes s !! b;
  let x := if (IRQ_MAILBOX_CAPACITY <=? mb_count x)%nat then Mailbox (entries x) (next_slot (mb_head x)) (mb_tail x) (mb_count x - 1) else x in
  l ← buf_store (entries x) (mb_tail x) event;
  Some (set_box b (Mailbox l (mb_head x) (next_slot (mb_tail x)) (mb_count x + 1)) s).

(** The result and [*out]. *)
Definition irq_mailbox_receive (box : option nat) (s : irqs) : option (Z * option irq_event * irqs) :=
  match box with
  | None => Some (0, None, s)
  | Some b =>
      x ← boxes s !! b;
      if (0 <? mb_count x)%nat then
        e ← entries x !! mb_head x;
        Some (1, Some e, set_box b (Mailbox (entries x) (next_slot (mb_head x)) (mb_tail x) (mb_count x - 1)) s)
      else Some (0, None, s)
  end.

Definition irq_mailbox_peek (box : option nat) (s : irqs) : option Z :=
  match box with None => Some 0 | Some b => x ← boxes s !! b; Some (Z.of_nat (mb_count x)) end.

Definition irq_mailbox_flush (box : option nat) (s : irqs) : option irqs :=
  match box with None => Some s | Some b => x ← boxes s !! b; Some (set_box b (Mailbox (entries x) 0 0 0) s) end.

(** The events go to the mailboxes in the order of the slots. *)
Fixpoint push_all (targets : list (option nat)) (event : irq_event) (s : irqs) : option irqs :=
  match targets with
  | [] => Some s
  | None :: l => push_all l event s
  | Some b :: l => s ← mailbox_push b event s; push_all l event s
  end.

(** [now] is what [get_ticks] returns. *)
Definition irq_dispatch_event (irq data now : Z) (s : irqs) : option irqs :=
  match line irq with
  | None => Some s
  | Some i => slot ← irq_table s !! i; push_all (mailboxes slot) (Event irq data (u32 now)) s
  end.

(** ** The keyboard *)

Definition KB_BUFFER_SIZE : nat := 256.
Definition KB_IRQ_LINE : Z := 1.
Definition KB_EVENT_FLAG_RELEASE : Z := 0x100.
Definition KB_EVENT_FLAG_EXTENDED : Z := 0x200.
Definition KB_KEY_ARROW_UP : Z := 0x80.
Definition KB_KEY_ARROW_DOWN : Z := 0x81.
Definition KB_KEY_ARROW_LEFT : Z := 0x82.
Definition KB_KEY_ARROW_RIGHT : Z := 0x83.

Record keyboard := Keyboard { buffer : list Z; head : nat; tail : nat; shift_active : bool; extended_active : bool }.
Record input := In { kb : keyboard; irq : irqs }.

Definition backspace : Z := 8.
Definition tab : Z := 9.

(** The rows that are not zero. *)
Definition keymap : list Z :=
  [0; 27] ++ lit "1234567890-=" ++ [backspace; tab] ++ lit "qwertyuiop[]" ++ [newline; 0] ++ lit "asdfghjkl;'`" ++ [0] ++
  lit "\zxcvbnm,./" ++ [0] ++ lit "*" ++ [0] ++ lit " " ++ replicate 70 0.

Definition keymap_shift : list Z :=
  [0; 27] ++ lit "!@#$%^&*()_+" ++ [backspace; tab] ++ lit "QWERTYUIOP{}" ++ [newline; 0] ++ lit "ASDFGHJKL:" ++ [34] ++ lit "~" ++ [0] ++
  lit "|ZXCVBNM<>?" ++ [0] ++ lit "*" ++ [0] ++ lit " " ++ replicate 70 0.

Definition hex_digit (value : Z) : Z := let v := Z.land value 0x0F in if v <? 10 then 48 + v else 65 + (v - 10).

Definition display_char (c : Z) : Z :=
  if c =? 0 then 45 else if c =? newline then 78 else if c =? tab then 84 else if c =? backspace then 66
  else if (32 <=? c) && (c <? 127) then c else 63.

Definition set_kb (k : keyboard) (s : input) : input := In k (irq s).

(** A character that does not fit is dropped. *)
Definition buffer_push (c : Z) (s : input) : option input :=
  let k := kb s in
  let next := ((head k + 1) mod KB_BUFFER_SIZE)%nat in
  if (next =? tail k)%nat then Some s
  else b ← buf_store (buffer k) (head k) c; Some (set_kb (Keyboard b next (tail k) (shift_active k) (extended_active k)) s).

Definition dispatch_scancode (scancode : Z) (release extended : bool) (now : Z) (s : input) : option input :=
  let payload := scancode in
  let payload := if release then Z.lor payload KB_EVENT_FLAG_RELEASE else payload in
  let payload := if extended then Z.lor payload KB_EVENT_FLAG_EXTENDED else payload in
  i ← irq_dispatch_event KB_IRQ_LINE payload now (irq s); Some (In (kb s) i).

Definition translate_scancode (scancode : Z) (k : keyboard) : option Z :=
  if 128 <=? scancode then Some 0
  else if shift_active k then keymap_shift !! Z.to_nat scancode else keymap !! Z.to_nat scancode.

Definition set_shift (b : bool) (s : input) : input := set_kb (Keyboard (buffer (kb s)) (head (kb s)) (tail (kb s)) b (extended_active (kb s))) s.
Definition set_extended (b : bool) (s : input) : input := set_kb (Keyboard (buffer (kb s)) (head (kb s)) (tail (kb s)) (shift_active (kb s)) b) s.

(** The arrow keys. *)
Definition arrow (code : Z) : option Z :=
  if code =? 0x48 then Some KB_KEY_ARROW_UP else if code =? 0x50 then Some KB_KEY_ARROW_DOWN
  else if code =? 0x4B then Some KB_KEY_ARROW_LEFT else if code =? 0x4D then Some KB_KEY_ARROW_RIGHT else None.

Definition is_shift (code : Z) : bool := (code =? 0x2A) || (code =? 0x36).

Definition keyboard_handle_scancode (scancode now : Z) (s : input) : option input :=
  if scancode =? 0xE0 then Some (set_extended true s)
  else
    let release := negb (Z.land scancode 0x80 =? 0) in
    let code := Z.land scancode 0x7F in
    if extended_active (kb s) then
      s ← (if release then dispatch_scancode code true true now s
           else
             s ← match arrow code with Some c => buffer_push c s | None => Some s end;
             dispatch_scancode code false true now s);
      Some (set_extended false s)
    else if release then
      s ← dispatch_scancode code true false now s;
      Some (if is_shift code then set_shift false s else s)
    else if is_shift code then dispatch_scancode code false false now (set_shift true s)
    else if code =? 0x0E then s ← buffer_push backspace s; dispatch_scancode code false false now s
    else if code =? 0x1C then s ← buffer_push newline s; dispatch_scancode code false false now s
    else
      c ← translate_scancode code (kb s);
      if c =? 0 then Some s else s ← buffer_push c s; dispatch_scancode code false false now s.

(** The byte read from the data port. *)
Definition keyboard_irq_handler (data now : Z) (s : input) : option input := keyboard_handle_scancode data now s.

(** [handler] stands for [keyboard_irq_handler]. *)
Definition kb_init (handler : Z) (s : input) : option input :=
  i ← irq_install_handler 1 (Some handler) (irq s);
  Some (In (Keyboard (buffer (kb s)) 0 0 false false) i).

Definition kb_getchar (s : input) : option (Z * input) :=
  let k := kb s in
  if (head k =? tail k)%nat then Some (0, s)
  else
    c ← buffer k !! tail k;
    Some (c, set_kb (Keyboard (buffer k) (head k) ((tail k + 1) mod KB_BUFFER_SIZE)%nat (shift_active k) (extended_active k)) s).

Definition kb_poll (status data now : Z) (s : input) : option (Z * input) :=
  if Z.land status 1 =? 0 then Some (0, s) else s ← keyboard_handle_scancode data now s; Some (1, s).

(** One line of the layout. *)
Definition layout_line (scancode lower upper : Z) : list Z :=
  [48; 120; hex_digit (Z.shiftr scancode 4); hex_digit scancode; 58; 32; display_char lower; 32; display_char upper].

Fixpoint dump_loop (n : nat) (scancode : Z) (out : list Z) (pos max_len : nat) : option (list Z * nat) :=
  match n with
  | O => Some (out, pos)
  | S n' =>
      lower ← keymap !! Z.to_nat scancode; upper ← keymap_shift !! Z.to_nat scancode;
      if (lower =? 0) && (upper =? 0) then dump_loop n' (scancode + 1) out pos max_len
      else if (max_len <=? pos + 10)%nat then Some (out, pos)
      else
        out ← buf_copy out pos (layout_line scancode lower upper);
        let pos := (pos + 9)%nat in
        if (max_len <=? pos + 1)%nat then Some (out, pos)
        else out ← buf_store out pos newline; dump_loop n' (scancode + 1) out (pos + 1) max_len
  end.

(** The result and the buffer. *)
Definition kb_dump_layout (out : option (list Z)) (max_len : nat) : option (Z * list Z) :=
  match out with
  | None => Some (-1, [])
  | Some o =>
      if (max_len =? 0)%nat then Some (-1, o)
      else
        '(o, pos) ← dump_loop 128 0 o 0 max_len;
        let pos := if (max_len <=? pos)%nat then (max_len - 1)%nat else pos in
        o ← buf_store o pos 0; Some (Z.of_nat pos, o)
  end.

End Input.
