(* ===== verification/InputProps.v ===== *)
(** The keyboard and the event mailboxes as queues: every sequence of scancodes,
    reads, receives and subscriptions returns what the queues return. *)

From S2P Require Import Prelude Arrays Bytes Input.

Module InputProps.

Import Arrays Bytes Input.

(** ** The specification *)

(** A scancode in a state of the shift key and the prefix: the character it types,
    the event it raises, and the new state. *)
Record decoded := Decoded { d_char : option Z; d_event : option Z; d_shift : bool; d_ext : bool }.

Definition key (shift : bool) (code : Z) : Z := default 0 ((if shift then keymap_shift else keymap) !! Z.to_nat code).

Definition decode (shift ext : bool) (scancode : Z) : decoded :=
  let code := scancode mod 128 in
  if scancode =? 0xE0 then Decoded None None shift true
  else if 128 <=? scancode then
    Decoded None (Some (code + 0x100 + if ext then 0x200 else 0)) (shift && (ext || negb (is_shift code))) false
  else if ext then Decoded (arrow code) (Some (code + 0x200)) shift false
  else if is_shift code then Decoded None (Some code) true false
  else if key shift code =? 0 then Decoded None None shift false
  else Decoded (Some (key shift code)) (Some code) shift false.

(** Characters beyond 255 are dropped, a mailbox keeps the last 32 events. *)
Definition typed (c : Z) (q : list Z) : list Z := if (length q <? 255)%nat then q ++ [c] else q.
Definition posted (e : irq_event) (q : list irq_event) : list irq_event :=
  (if (IRQ_MAILBOX_CAPACITY <=? length q)%nat then drop 1 q else q) ++ [e].

Record board := Board {
  chars : list Z;
  shift : bool;
  ext : bool;
  queues : list (list irq_event);
  subs : list (gset nat)
}.

(** The event goes to the queues that subscribed to the line. *)
Definition deliver (l : gset nat) (e : irq_event) (qs : list (list irq_event)) : list (list irq_event) :=
  imap (λ b q, if decide (b ∈ l) then posted e q else q) qs.

Inductive op :=
| Scan (scancode now : Z)
| Getchar
| Receive (b : nat)
| Flush (b : nat)
| Subscribe (irq : Z) (b : nat)
| Unsubscribe (irq : Z) (b : nat).

Definition answer : Type := Z * option irq_event.

Definition board_step (a : board) (o : op) : answer * board :=
  match o with
  | Scan c now =>
      let d := decode (shift a) (ext a) c in
      (0, None, Board (match d_char d with Some x => typed x (chars a) | None => chars a end) (d_shift d) (d_ext d)
        (match d_event d with Some p => deliver (subs a !!! 1%nat) (Event 1 p (u32 now)) (queues a) | None => queues a end) (subs a))
  | Getchar =>
      match chars a with
      | [] => (0, None, a)
      | c :: q => (c, None, Board q (shift a) (ext a) (queues a) (subs a))
      end
  | Receive b =>
      match queues a !!! b with
      | [] => (0, None, a)
      | e :: q => (1, Some e, Board (chars a) (shift a) (ext a) (<[b := q]> (queues a)) (subs a))
      end
  | Flush b => (0, None, Board (chars a) (shift a) (ext a) (<[b := []]> (queues a)) (subs a))
  | Subscribe irq b =>
      match line irq with
      | None => (-1, None, a)
      | Some i =>
          let l := subs a !!! i in
          if decide (b ∈ l) then (0, None, a)
          else if (size l <? IRQ_MAX_MAILBOX_SUBSCRIBERS)%nat
            then (0, None, Board (chars a) (shift a) (ext a) (queues a) (<[i := {[b]} ∪ l]> (subs a)))
            else (-1, None, a)
      end
  | Unsubscribe irq b =>
      match line irq with
      | None => (-1, None, a)
      | Some i =>
          let l := subs a !!! i in
          if decide (b ∈ l) then (0, None, Board (chars a) (shift a) (ext a) (queues a) (<[i := l ∖ {[b]}]> (subs a)))
          else (-1, None, a)
      end
  end.

Definition input_step (s : input) (o : op) : option (answer * input) :=
  match o with
  | Scan c now => s ← keyboard_irq_handler c now s; Some (0, None, s)
  | Getchar => '(c, s) ← kb_getchar s; Some (c, None, s)
  | Receive b => '(r, e, i) ← irq_mailbox_receive (Some b) (irq s); Some (r, e, In (kb s) i)
  | Flush b => i ← irq_mailbox_flush (Some b) (irq s); Some (0, None, In (kb s) i)
  | Subscribe n b => '(r, i) ← irq_mailbox_subscribe n (Some b) (irq s); Some (r, None, In (kb s) i)
  | Unsubscribe n b => '(r, i) ← irq_mailbox_unsubscribe n (Some b) (irq s); Some (r, None, In (kb s) i)
  end.

(** ** The representation *)

Record box_is (x : irq_mailbox) (q : list irq_event) : Prop := {
  bi_cells : length (entries x) = IRQ_MAILBOX_CAPACITY;
  bi_head : (mb_head x < IRQ_MAILBOX_CAPACITY)%nat;
  bi_count : (mb_count x ≤ IRQ_MAILBOX_CAPACITY)%nat;
  bi_tail : mb_tail x = ((mb_head x + mb_count x) mod IRQ_MAILBOX_CAPACITY)%nat;
  bi_queue : ring (entries x) (mb_head x) (mb_count x) = q
}.

Record kb_is (k : keyboard) (q : list Z) (sh ex : bool) : Prop := {
  ki_cells : length (buffer k) = KB_BUFFER_SIZE;
  ki_tail : (tail k < KB_BUFFER_SIZE)%nat;
  ki_count : (length q ≤ 255)%nat;
  ki_head : head k = ((tail k + length q) mod KB_BUFFER_SIZE)%nat;
  ki_queue : ring (buffer k) (tail k) (length q) = q;
  ki_shift : shift_active k = sh;
  ki_ext : extended_active k = ex
}.

(** The mailboxes of a line, each once. *)
Record subs_are (n : nat) (slot : irq_dispatch_slot) (l : gset nat) : Prop := {
  su_slots : length (mailboxes slot) = IRQ_MAX_MAILBOX_SUBSCRIBERS;
  su_once : NoDup (omap id (mailboxes slot));
  su_valid : ∀ b, b ∈ l → (b < n)%nat;
  su_set : ∀ b, Some b ∈ mailboxes slot ↔ b ∈ l
}.

Record repr (s : input) (a : board) : Prop := {
  re_kb : kb_is (kb s) (chars a) (shift a) (ext a);
  re_boxes : Forall2 box_is (boxes (irq s)) (queues a);
  re_lines : length (subs a) = IRQ_MAX_LINES;
  re_subs : Forall2 (subs_are (length (queues a))) (irq_table (irq s)) (subs a)
}.

(** ** Mailboxes *)

Lemma next_lt i : (next_slot i < IRQ_MAILBOX_CAPACITY)%nat.
Proof. apply Nat.mod_upper_bound. done. Qed.

Lemma box_length x q : box_is x q → length q = mb_count x.
Proof. intros [H1 H2 H3 _ <-]. apply ring_length; lia. Qed.

Lemma box_drop x q : box_is x q → (0 < mb_count x)%nat →
  ∃ e, entries x !! mb_head x = Some e ∧ q = e :: drop 1 q ∧
    box_is (Mailbox (entries x) (next_slot (mb_head x)) (mb_tail x) (mb_count x - 1)) (drop 1 q).
Proof.
  intros [H1 H2 H3 H4 <-] Hc. destruct (ring_pop (entries x) (mb_head x) (mb_count x)) as (e & He & Hr); [lia|lia|].
  exists e. rewrite Hr. split; [done|]. split; [done|]. constructor; cbn [entries mb_head mb_tail mb_count drop].
  - done.
  - apply next_lt.
  - lia.
  - rewrite H4. unfold next_slot. rewrite Nat.Div0.add_mod_idemp_l. f_equal. lia.
  - by rewrite H1.
Qed.

Lemma box_room x q e : box_is x q → (mb_count x < IRQ_MAILBOX_CAPACITY)%nat →
  ∃ l, buf_store (entries x) (mb_tail x) e = Some l ∧ box_is (Mailbox l (mb_head x) (next_slot (mb_tail x)) (mb_count x + 1)) (q ++ [e]).
Proof.
  intros [H1 H2 H3 H4 <-] Hc. eexists. split.
  { apply buf_store_ok. rewrite H1, H4. by apply Nat.mod_upper_bound. }
  constructor; cbn [entries mb_head mb_tail mb_count].
  - by rewrite length_insert.
  - done.
  - lia.
  - rewrite H4. unfold next_slot. rewrite Nat.Div0.add_mod_idemp_l. f_equal. lia.
  - rewrite H4, <- H1, Nat.add_1_r. apply ring_push; lia.
Qed.

Lemma mailbox_push_kept b e s qs q :
  Forall2 box_is (boxes s) qs → qs !! b = Some q →
  ∃ s', mailbox_push b e s = Some s' ∧ irq_table s' = irq_table s ∧ Forall2 box_is (boxes s') (<[b := posted e q]> qs).
Proof.
  intros Hq Hb. destruct (Forall2_lookup_r _ _ _ _ _ Hq Hb) as (x & Hx & Hxq). unfold mailbox_push. rewrite Hx. cbn [mbind option_bind].
  unfold posted. rewrite (box_length _ _ Hxq). destruct (Nat.leb_spec IRQ_MAILBOX_CAPACITY (mb_count x)) as [Hf|Hf].
  - destruct (box_drop x q Hxq) as (_ & _ & _ & Hd); [unfold IRQ_MAILBOX_CAPACITY in *; lia|].
    destruct (box_room _ _ e Hd) as (l & -> & Hl); [cbn [mb_count]; pose proof (bi_count _ _ Hxq); unfold IRQ_MAILBOX_CAPACITY in *; lia|].
    cbn [mbind option_bind]. eexists. split; [done|]. split; [done|]. by apply Forall2_insert.
  - destruct (box_room x q e Hxq Hf) as (l & -> & Hl). cbn [mbind option_bind].
    eexists. split; [done|]. split; [done|]. by apply Forall2_insert.
Qed.

(** An event for several mailboxes, each once. *)
Lemma push_all_ok targets e s qs :
  Forall2 box_is (boxes s) qs → NoDup (omap id targets) → (∀ b, Some b ∈ targets → (b < length qs)%nat) →
  ∃ s', push_all targets e s = Some s' ∧ irq_table s' = irq_table s ∧
    Forall2 box_is (boxes s') (imap (λ b q, if decide (Some b ∈ targets) then posted e q else q) qs).
Proof.
  revert s qs. induction targets as [|[b|] l IH]; intros s qs Hq Hnd Hv; cbn [push_all].
  - exists s. split; [done|]. split; [done|]. replace (imap _ qs) with qs; [done|]. apply list_eq. intros j. rewrite list_lookup_imap.
    destruct (qs !! j); [|done]. cbn. rewrite decide_False by set_solver. done.
  - cbn [omap list_omap id] in Hnd. apply NoDup_cons in Hnd as [Hnb Hnd].
    destruct (lookup_lt_is_Some_2 qs b) as [q Hb]; [apply Hv; by left|].
    destruct (mailbox_push_kept b e s qs q Hq Hb) as (s1 & -> & Ht & H1). cbn [mbind option_bind].
    destruct (IH s1 (<[b := posted e q]> qs) H1 Hnd) as (s' & -> & Ht' & H'); [intros c Hc; rewrite length_insert; apply Hv; by right|].
    exists s'. split; [done|]. split; [congruence|]. replace (imap _ qs) with (imap (λ c q, if decide (Some c ∈ l) then posted e q else q) (<[b := posted e q]> qs)); [done|].
    apply list_eq. intros j. rewrite !list_lookup_imap. destruct (decide (j = b)) as [->|Hne].
    + rewrite list_lookup_insert_eq by (by eapply lookup_lt_Some). rewrite Hb. cbn. rewrite (decide_True (P := Some b ∈ Some b :: l)) by by left.
      rewrite decide_False; [done|]. intros Hin. apply Hnb. apply list_elem_of_omap. by exists (Some b).
    + rewrite list_lookup_insert_ne by done. destruct (qs !! j); [|done]. cbn. f_equal. repeat case_decide; set_solver.
  - destruct (IH s qs Hq Hnd) as (s' & -> & Ht & H'); [intros c Hc; apply Hv; by right|]. exists s'. split; [done|]. split; [done|].
    replace (imap _ qs) with (imap (λ c q, if decide (Some c ∈ l) then posted e q else q) qs); [done|].
    apply list_eq. intros j. rewrite !list_lookup_imap. destruct (qs !! j); [|done]. cbn. f_equal. repeat case_decide; set_solver.
Qed.

(** ** Lines *)

Lemma subs_at s a i :
  repr s a → (i < IRQ_MAX_LINES)%nat →
  ∃ slot, irq_table (irq s) !! i = Some slot ∧ subs_are (length (queues a)) slot (subs a !!! i).
Proof.
  intros [_ _ Hl Hs] Hi. destruct (lookup_lt_is_Some_2 (subs a) i) as [l El]; [lia|].
  destruct (Forall2_lookup_r _ _ _ _ _ Hs El) as (slot & Hslot & Hsl). exists slot. split; [done|]. by rewrite (list_lookup_total_correct _ _ _ El).
Qed.

Lemma dispatch_ok s a p now :
  repr s a →
  ∃ i, irq_dispatch_event KB_IRQ_LINE p now (irq s) = Some i ∧ irq_table i = irq_table (irq s) ∧
    Forall2 box_is (boxes i) (deliver (subs a !!! 1%nat) (Event 1 p (u32 now)) (queues a)).
Proof.
  intros Hr. destruct (subs_at s a 1 Hr) as (slot & Hslot & [_ Ho Hv Hset]); [unfold IRQ_MAX_LINES; lia|].
  unfold irq_dispatch_event. change (line KB_IRQ_LINE) with (Some 1%nat). cbn iota. rewrite Hslot. cbn [mbind option_bind].
  destruct (push_all_ok (mailboxes slot) (Event KB_IRQ_LINE p (u32 now)) (irq s) (queues a)) as (i & -> & Ht & Hb); [apply Hr|done| |].
  { intros b Hb. apply Hv. by apply Hset. }
  exists i. split; [done|]. split; [done|]. unfold deliver. replace (imap _ (queues a)) with
    (imap (λ b q, if decide (Some b ∈ mailboxes slot) then posted (Event KB_IRQ_LINE p (u32 now)) q else q) (queues a)); [done|].
  apply imap_ext. intros b q _. cbn. destruct (decide (b ∈ subs a !!! 1%nat)) as [Hin|Hin].
  - by rewrite decide_True by by apply Hset.
  - by rewrite decide_False by (intros Hx; by apply Hin, Hset).
Qed.

Lemma deliver_length l e qs : length (deliver l e qs) = length qs.
Proof. apply length_imap. Qed.

(** ** The character buffer *)

Lemma kb_is_flags k q sh ex sh' ex' :
  kb_is k q sh ex → kb_is (Keyboard (buffer k) (head k) (tail k) sh' ex') q sh' ex'.
Proof. intros []. by constructor. Qed.

Lemma buffer_push_ok c s q sh ex :
  kb_is (kb s) q sh ex → ∃ k, buffer_push c s = Some (In k (irq s)) ∧ kb_is k (typed c q) sh ex.
Proof.
  intros [H1 H2 H3 H4 H5 H6 H7]. unfold buffer_push, typed. rewrite H4, Nat.Div0.add_mod_idemp_l.
  replace (tail (kb s) + length q + 1)%nat with (tail (kb s) + (length q + 1))%nat by lia.
  destruct (Nat.ltb_spec (length q) 255) as [Hlt|Hge].
  - rewrite ring_index by (unfold KB_BUFFER_SIZE in *; lia).
    rewrite (proj2 (Nat.eqb_neq _ _)) by (case_decide; unfold KB_BUFFER_SIZE in *; lia).
    rewrite buf_store_ok by (rewrite H1; by apply Nat.mod_upper_bound). cbn [mbind option_bind]. eexists. split; [done|].
    constructor; cbn [buffer head tail shift_active extended_active]; try done.
    + by rewrite length_insert.
    + rewrite length_app. cbn [length]. lia.
    + rewrite length_app. cbn [length]. by rewrite ring_index by (unfold KB_BUFFER_SIZE in *; lia).
    + rewrite length_app. cbn [length]. rewrite Nat.add_1_r, <- H1, ring_push by (unfold KB_BUFFER_SIZE in *; lia). by rewrite H5.
  - assert (length q = 255%nat) as -> by lia. replace (tail (kb s) + (255 + 1))%nat with (tail (kb s) + 1 * KB_BUFFER_SIZE)%nat by (unfold KB_BUFFER_SIZE; lia).
    rewrite Nat.Div0.mod_add, Nat.mod_small, Nat.eqb_refl by done. exists (kb s). split; [by destruct s|].
    by constructor.
Qed.

(** ** Scancodes *)

Lemma scancode_bits x : 0 ≤ x < 256 → negb (Z.land x 0x80 =? 0) = (128 <=? x) ∧ Z.land x 0x7F = x mod 128.
Proof.
  intros Hx. split; [|change 0x7F with (Z.ones 7); by rewrite Z.land_ones].
  assert (H : Forall (λ x, negb (Z.land x 0x80 =? 0) = (128 <=? x)) (seqZ 0 256)) by by_eval.
  rewrite Forall_forall in H. apply H, elem_of_seqZ. lia.
Qed.

(** The flags of an event do not overlap the code. *)
Lemma payload_flags code (r x : bool) : 0 ≤ code < 128 →
  (let p := if r then Z.lor code KB_EVENT_FLAG_RELEASE else code in if x then Z.lor p KB_EVENT_FLAG_EXTENDED else p) =
  code + (if r then 0x100 else 0) + (if x then 0x200 else 0).
Proof.
  intros Hc. assert (H1 : Z.lor code KB_EVENT_FLAG_RELEASE = code + 0x100) by (apply (lor_shiftl code 1 8); lia).
  assert (H2 : ∀ a, 0 ≤ a < 512 → Z.lor a KB_EVENT_FLAG_EXTENDED = a + 0x200) by (intros a Ha; apply (lor_shiftl a 1 9); lia).
  cbv zeta. destruct r; rewrite ?H1; (destruct x; [rewrite H2 by lia|]); lia.
Qed.

Lemma key_lookup (sh : bool) code : 0 ≤ code < 128 → (if sh then keymap_shift else keymap) !! Z.to_nat code = Some (key sh code).
Proof.
  intros Hc. unfold key. destruct (lookup_lt_is_Some_2 (if sh then keymap_shift else keymap) (Z.to_nat code)) as [c ->]; [|done].
  replace (length (if sh then keymap_shift else keymap)) with 128%nat by by destruct sh. lia.
Qed.

Lemma repr_upd s a k i q sh ex qs :
  repr s a → kb_is k q sh ex → Forall2 box_is (boxes i) qs → irq_table i = irq_table (irq s) → length qs = length (queues a) →
  repr (In k i) (Board q sh ex qs (subs a)).
Proof. intros [_ _ Hl Hs] Hk Hb Ht Hq. constructor; cbn; [done|done|done|]. by rewrite Ht, Hq. Qed.

Lemma dispatch_step s a code r x now :
  repr s a → 0 ≤ code < 128 →
  ∃ s', dispatch_scancode code r x now s = Some s' ∧
    repr s' (Board (chars a) (shift a) (ext a)
      (deliver (subs a !!! 1%nat) (Event 1 (code + (if r then 0x100 else 0) + (if x then 0x200 else 0)) (u32 now)) (queues a)) (subs a)).
Proof.
  intros Hr Hc. unfold dispatch_scancode. pose proof (payload_flags code r x Hc) as Hp. cbv zeta in Hp |- *. rewrite Hp.
  destruct (dispatch_ok s a (code + (if r then 0x100 else 0) + (if x then 0x200 else 0)) now Hr) as (i & -> & Ht & Hb). cbn [mbind option_bind].
  eexists. split; [done|]. eapply repr_upd; [done|apply Hr|done|done|apply deliver_length].
Qed.

Lemma push_step s a c :
  repr s a → ∃ s', buffer_push c s = Some s' ∧ repr s' (Board (typed c (chars a)) (shift a) (ext a) (queues a) (subs a)).
Proof.
  intros Hr. destruct (buffer_push_ok c s _ _ _ (re_kb _ _ Hr)) as (k & -> & Hk). eexists. split; [done|].
  eapply repr_upd; [done|done|apply Hr|done|done].
Qed.

Lemma shift_step s a b : repr s a → repr (set_shift b s) (Board (chars a) b (ext a) (queues a) (subs a)).
Proof. intros Hr. eapply repr_upd; [done| |apply Hr|done|done]. destruct (re_kb _ _ Hr). by constructor. Qed.

Lemma ext_step s a b : repr s a → repr (set_extended b s) (Board (chars a) (shift a) b (queues a) (subs a)).
Proof. intros Hr. eapply repr_upd; [done| |apply Hr|done|done]. destruct (re_kb _ _ Hr). by constructor. Qed.

Lemma scan_ok s a c now :
  repr s a → 0 ≤ c < 256 → ∃ s', keyboard_handle_scancode c now s = Some s' ∧ repr s' (board_step a (Scan c now)).2.
Proof.
  intros Hr Hc. destruct (scancode_bits c Hc) as [Hrel Hcode]. unfold keyboard_handle_scancode. rewrite Hrel, Hcode. cbv zeta.
  rewrite (ki_ext _ _ _ _ (re_kb _ _ Hr)). cbn [board_step snd]. unfold decode. cbv zeta. pose proof (Z.mod_pos_bound c 128 ltac:(lia)) as Hm.
  set (code := c mod 128) in *. destruct (c =? 0xE0); [eexists; split; [done|]; by apply ext_step|].
  destruct (128 <=? c).
  - destruct (ext a) eqn:Ex; cbn [orb].
    + destruct (dispatch_step s a code true true now Hr Hm) as (s1 & -> & H1). cbn [mbind option_bind]. eexists. split; [done|].
      apply (ext_step _ _ false) in H1. cbn in *. by rewrite andb_true_r, <- Z.add_assoc in *.
    + destruct (dispatch_step s a code true false now Hr Hm) as (s1 & -> & H1). cbn [mbind option_bind]. eexists. split; [done|].
      cbn in H1 |- *. rewrite Ex in H1. destruct (is_shift code); cbn [negb]; rewrite ?andb_true_r, ?andb_false_r; [|done]. exact (shift_step _ _ false H1).
  - destruct (ext a) eqn:Ex.
    + assert (Hp : ∃ s1, match arrow code with Some x => buffer_push x s | None => Some s end = Some s1 ∧
        repr s1 (Board (match arrow code with Some x => typed x (chars a) | None => chars a end) (shift a) (ext a) (queues a) (subs a))).
      { destruct (arrow code); [by apply push_step|]. exists s. split; [done|]. by destruct a. }
      destruct Hp as (s1 & -> & H1). cbn [mbind option_bind]. destruct (dispatch_step s1 _ code false true now H1 Hm) as (s2 & -> & H2).
      cbn [mbind option_bind]. eexists. split; [done|]. apply (ext_step _ _ false) in H2. cbn in *. by rewrite Z.add_0_r in H2.
    + destruct (is_shift code) eqn:Esh.
      { pose proof (shift_step _ _ true Hr) as H1. destruct (dispatch_step _ _ code false false now H1 Hm) as (s2 & -> & H2).
        eexists. split; [done|]. cbn in *. by rewrite Ex, !Z.add_0_r in H2. }
      assert (Hgen : key (shift a) code ≠ 0 → ∃ s', (s ← buffer_push (key (shift a) code) s; dispatch_scancode code false false now s) = Some s' ∧
        repr s' (Board (typed (key (shift a) code) (chars a)) (shift a) false (deliver (subs a !!! 1%nat) (Event 1 code (u32 now)) (queues a)) (subs a))).
      { intros _. destruct (push_step s a (key (shift a) code) Hr) as (s1 & -> & H1). cbn [mbind option_bind].
        destruct (dispatch_step s1 _ code false false now H1 Hm) as (s2 & -> & H2). eexists. split; [done|]. cbn in *. by rewrite Ex, !Z.add_0_r in H2. }
      destruct (Z.eqb_spec code 0x0E) as [E|_].
      { rewrite E in *. replace (key (shift a) 0x0E) with backspace in * by by destruct (shift a). by apply Hgen. }
      destruct (Z.eqb_spec code 0x1C) as [E|_].
      { rewrite E in *. replace (key (shift a) 0x1C) with newline in * by by destruct (shift a). by apply Hgen. }
      unfold translate_scancode. rewrite (proj2 (Z.leb_gt _ _)) by lia. rewrite (ki_shift _ _ _ _ (re_kb _ _ Hr)).
      replace (if shift a then keymap_shift !! Z.to_nat code else keymap !! Z.to_nat code) with (Some (key (shift a) code))
        by (rewrite <- (key_lookup (shift a) code Hm); by destruct (shift a)). cbn [mbind option_bind].
      destruct (Z.eqb_spec (key (shift a) code) 0) as [E|E]; [|by apply Hgen]. exists s. split; [done|]. cbn. destruct a; cbn in *; by subst.
Qed.

(** ** The other operations *)

Lemma getchar_ok s a :
  repr s a → ∃ s', kb_getchar s = Some ((board_step a Getchar).1.1, s') ∧ repr s' (board_step a Getchar).2 ∧ (board_step a Getchar).1.2 = None.
Proof.
  intros Hr. pose proof (re_kb _ _ Hr) as [H1 H2 H3 H4 H5 H6 H7]. unfold kb_getchar. rewrite H4. cbn [board_step].
  destruct (chars a) as [|c q] eqn:Eq; cbn [length] in *.
  - rewrite Nat.add_0_r, Nat.mod_small, Nat.eqb_refl by done. exists s. done.
  - rewrite ring_index by (unfold KB_BUFFER_SIZE in *; lia).
    rewrite (proj2 (Nat.eqb_neq _ _)) by (case_decide; unfold KB_BUFFER_SIZE in *; lia).
    destruct (ring_pop (buffer (kb s)) (tail (kb s)) (S (length q))) as (x & Hx & Hp); [lia|unfold KB_BUFFER_SIZE in *; lia|].
    rewrite Hp in H5. apply (inj2 cons) in H5 as [-> H5]. rewrite Hx. cbn [mbind option_bind fst snd]. eexists. split; [done|]. split; [|done].
    eapply repr_upd; [done| |apply Hr|done|done]. constructor; cbn [buffer head tail shift_active extended_active]; try done.
    + by apply Nat.mod_upper_bound.
    + lia.
    + rewrite Nat.Div0.add_mod_idemp_l, <- ring_index by (unfold KB_BUFFER_SIZE in *; lia). f_equal. lia.
    + by rewrite H1, Nat.sub_succ, Nat.sub_0_r in H5.
Qed.

Lemma receive_ok s a b :
  repr s a → (b < length (queues a))%nat →
  ∃ i, irq_mailbox_receive (Some b) (irq s) = Some ((board_step a (Receive b)).1, i) ∧ repr (In (kb s) i) (board_step a (Receive b)).2.
Proof.
  intros Hr Hb. destruct (lookup_lt_is_Some_2 _ _ Hb) as [q Hq]. destruct (Forall2_lookup_r _ _ _ _ _ (re_boxes _ _ Hr) Hq) as (x & Hx & Hxq).
  unfold irq_mailbox_receive. rewrite Hx. cbn [mbind option_bind board_step]. rewrite (list_lookup_total_correct _ _ _ Hq).
  pose proof (box_length _ _ Hxq) as Hl. destruct (Nat.ltb_spec 0 (mb_count x)).
  - destruct (box_drop x q Hxq ltac:(lia)) as (e & He & Ee & Hd). rewrite He. cbn [mbind option_bind]. rewrite Ee. eexists. split; [done|].
    cbn [snd]. eapply repr_upd; [done|apply Hr| |done|by rewrite length_insert]. apply Forall2_insert; [apply Hr|]. by rewrite Ee in Hd.
  - destruct q; [|cbn in Hl; lia]. exists (irq s). split; [done|]. by destruct s.
Qed.

Lemma flush_ok s a b :
  repr s a → (b < length (queues a))%nat →
  ∃ i, irq_mailbox_flush (Some b) (irq s) = Some i ∧ repr (In (kb s) i) (board_step a (Flush b)).2.
Proof.
  intros Hr Hb. destruct (lookup_lt_is_Some_2 _ _ Hb) as [q Hq]. destruct (Forall2_lookup_r _ _ _ _ _ (re_boxes _ _ Hr) Hq) as (x & Hx & Hxq).
  unfold irq_mailbox_flush. rewrite Hx. cbn [mbind option_bind]. eexists. split; [done|]. cbn [board_step snd].
  eapply repr_upd; [done|apply Hr| |done|by rewrite length_insert]. apply Forall2_insert; [apply Hr|].
  destruct Hxq. constructor; cbn [entries mb_head mb_tail mb_count]; unfold IRQ_MAILBOX_CAPACITY in *; done || lia.
Qed.

(** ** Subscriptions *)

Lemma line_ok n i : line n = Some i → (i < IRQ_MAX_LINES)%nat.
Proof. unfold line. destruct (_ || _) eqn:E; [done|]. intros [= <-]. bool_prop. unfold IRQ_MAX_LINES in *. lia. Qed.

(** The subscribers are as many as the slots in use. *)
Lemma subs_size n slot l : subs_are n slot l → size l = length (omap id (mailboxes slot)).
Proof.
  intros [_ Ho _ Hset]. replace l with (list_to_set (C := gset nat) (omap id (mailboxes slot))); [by apply size_list_to_set|].
  apply set_eq. intros b. rewrite elem_of_list_to_set, list_elem_of_omap, <- Hset. split; [|intros Hb; by exists (Some b)].
  intros (o & Ho' & Eo). by rewrite <- Eo.
Qed.

Lemma omap_full (ms : list (option nat)) : (None ∉ ms ↔ length (omap id ms) = length ms) ∧ (length (omap id ms) ≤ length ms)%nat.
Proof.
  induction ms as [|[b|] ms [IH Hle]]; cbn [omap list_omap id length].
  - split; [|done]. split; [done|]. intros _. set_solver.
  - split; [|lia]. rewrite not_elem_of_cons, IH. split; [intros [_ ->]; done|]. intros [= E]. by split.
  - split; [|lia]. split; [set_solver|]. lia.
Qed.

(** Storing a subscriber in a free slot, and clearing a slot. *)
Lemma omap_insert ms j x :
  ms !! j = Some None → omap id (<[j := Some x]> ms) ≡ₚ x :: omap id (ms : list (option nat)).
Proof.
  revert j. induction ms as [|[b|] ms IH]; intros [|j] Hj; try done; cbn in Hj |- *.
  - etrans; [apply perm_skip, (IH j Hj)|]. apply Permutation_swap.
  - apply (IH j Hj).
Qed.

Lemma omap_clear ms j x : ms !! j = Some (Some x) → omap id (ms : list (option nat)) ≡ₚ x :: omap id (<[j := None]> ms).
Proof.
  revert j. induction ms as [|[b|] ms IH]; intros [|j] Hj; try done; cbn in Hj |- *.
  - by apply (inj Some) in Hj as [= ->].
  - etrans; [apply perm_skip, (IH j Hj)|]. apply Permutation_swap.
  - apply (IH j Hj).
Qed.

Lemma elem_omap (ms : list (option nat)) b : Some b ∈ ms ↔ b ∈ omap id ms.
Proof. rewrite list_elem_of_omap. split; [intros H; by exists (Some b)|]. intros (o & Ho & Eo). by rewrite <- Eo. Qed.

Lemma find_slot (p : option nat → bool) (ms : list (option nat)) o :
  (∀ e, p e = true ↔ e = o) → (∃ j, first_index p ms = Some j ∧ ms !! j = Some o) ∨ (first_index p ms = None ∧ o ∉ ms).
Proof.
  intros Hp. destruct (first_index p ms) as [j|] eqn:E.
  - apply first_index_Some in E as (x & Hx & Hb%Hp & _). left. exists j. by subst x.
  - right. split; [done|]. intros [i Hi]%list_elem_of_lookup. rewrite first_index_None in E. specialize (E i o Hi).
    assert (p o = true) by by apply Hp. congruence.
Qed.

Lemma subs_upd s a i slot l x :
  repr s a → (i < IRQ_MAX_LINES)%nat → subs_are (length (queues a)) slot l →
  boxes x = boxes (irq s) → irq_table x = <[i := slot]> (irq_table (irq s)) →
  repr (In (kb s) x) (Board (chars a) (shift a) (ext a) (queues a) (<[i := l]> (subs a))).
Proof.
  intros [Hk Hb Hl Hs] Hi Hsl Eb Et. constructor; cbn; [done|by rewrite Eb|by rewrite length_insert|]. rewrite Et. by apply Forall2_insert.
Qed.

Lemma subscribe_ok s a n b :
  repr s a → (b < length (queues a))%nat →
  ∃ i, irq_mailbox_subscribe n (Some b) (irq s) = Some ((board_step a (Subscribe n b)).1.1, i) ∧ repr (In (kb s) i) (board_step a (Subscribe n b)).2 ∧
    (board_step a (Subscribe n b)).1.2 = None.
Proof.
  intros Hr Hb. assert (Hsame : repr (In (kb s) (irq s)) a) by by destruct s. unfold irq_mailbox_subscribe. cbn [board_step].
  destruct (line n) as [i|] eqn:En; [|by exists (irq s)]. pose proof (line_ok _ _ En) as Hi.
  destruct (subs_at s a i Hr Hi) as (slot & Hslot & Hsu). pose proof (subs_size _ _ _ Hsu) as Hsz. pose proof Hsu as [S1 S2 S3 S4].
  rewrite Hslot. cbn [mbind option_bind]. destruct (find_slot (λ e, bool_decide (e = Some b)) (mailboxes slot) (Some b)
    ltac:(intros e; apply bool_decide_eq_true)) as [(j & -> & Hj)|[-> Hn]].
  { rewrite decide_True by (apply S4; by eapply list_elem_of_lookup_2). by exists (irq s). }
  rewrite decide_False by (intros Hx; by apply Hn, S4). destruct (omap_full (mailboxes slot)) as [Hf Hle]. rewrite S1 in Hf, Hle. rewrite Hsz.
  destruct (find_slot (λ e, bool_decide (e = None)) (mailboxes slot) None ltac:(intros e; apply bool_decide_eq_true)) as [(j & -> & Hj)|[-> Hn']].
  - rewrite (proj2 (Nat.ltb_lt _ _)).
    2: { destruct (decide (length (omap id (mailboxes slot)) = IRQ_MAX_MAILBOX_SUBSCRIBERS)) as [E|]; [|lia].
         apply Hf in E. destruct E. by eapply list_elem_of_lookup_2. }
    eexists. split; [done|]. split; [|done]. cbn [snd]. eapply (subs_upd s a i); [done|done| |done|done]. pose proof (omap_insert _ _ b Hj) as Hp.
    constructor; cbn [mailboxes]; [by rewrite length_insert|rewrite Hp; apply NoDup_cons; split; [by rewrite <- elem_omap|done]| |].
    + intros c [->%elem_of_singleton|Hc]%elem_of_union; [done|by apply S3].
    + intros c. rewrite elem_omap, Hp, elem_of_cons, <- elem_omap, S4. set_solver.
  - apply Hf in Hn'. rewrite (proj2 (Nat.ltb_ge _ _)) by lia. by exists (irq s).
Qed.

Lemma unsubscribe_ok s a n b :
  repr s a →
  ∃ i, irq_mailbox_unsubscribe n (Some b) (irq s) = Some ((board_step a (Unsubscribe n b)).1.1, i) ∧ repr (In (kb s) i) (board_step a (Unsubscribe n b)).2 ∧
    (board_step a (Unsubscribe n b)).1.2 = None.
Proof.
  intros Hr. assert (Hsame : repr (In (kb s) (irq s)) a) by by destruct s. unfold irq_mailbox_unsubscribe. cbn [board_step].
  destruct (line n) as [i|] eqn:En; [|by exists (irq s)]. pose proof (line_ok _ _ En) as Hi.
  destruct (subs_at s a i Hr Hi) as (slot & Hslot & [S1 S2 S3 S4]). rewrite Hslot. cbn [mbind option_bind].
  destruct (find_slot (λ e, bool_decide (e = Some b)) (mailboxes slot) (Some b)
    ltac:(intros e; apply bool_decide_eq_true)) as [(j & -> & Hj)|[-> Hn]].
  - rewrite decide_True by (apply S4; by eapply list_elem_of_lookup_2). eexists. split; [done|]. split; [|done]. cbn [snd].
    eapply (subs_upd s a i); [done|done| |done|done]. pose proof (omap_clear _ _ b Hj) as Hp. rewrite Hp in S2. apply NoDup_cons in S2 as [Hnb Hnd].
    constructor; cbn [mailboxes]; [by rewrite length_insert|done|set_solver|]. intros c. rewrite elem_omap. specialize (S4 c).
    rewrite elem_omap, Hp, elem_of_cons in S4. rewrite elem_of_difference, elem_of_singleton, <- S4. split; [|tauto].
    intros Hc. split; [by right|]. by intros ->.
  - rewrite decide_False by (intros Hx; by apply Hn, S4). by exists (irq s).
Qed.
(** ** Runs *)

(** Scancodes are bytes, and mailboxes exist. *)
Definition op_ok (n : nat) (o : op) : Prop :=
  match o with
  | Scan c _ => 0 ≤ c < 256
  | Receive b | Flush b | Subscribe _ b => (b < n)%nat
  | _ => True
  end.

Lemma step_ok s a o :
  repr s a → op_ok (length (queues a)) o →
  ∃ s', input_step s o = Some ((board_step a o).1, s') ∧ repr s' (board_step a o).2.
Proof.
  intros Hr Ho. destruct o as [c now| |b|b|n b|n b]; cbn [input_step op_ok] in *.
  - destruct (scan_ok s a c now Hr Ho) as (s' & H & Hs'). unfold keyboard_irq_handler. rewrite H. cbn [mbind option_bind]. by exists s'.
  - destruct (getchar_ok s a Hr) as (s' & -> & Hs' & Hn). cbn [mbind option_bind]. exists s'. split; [|done].
    by destruct (board_step a Getchar) as [[r e] a']; cbn in *; subst.
  - destruct (receive_ok s a b Hr Ho) as (i & -> & Hi). exists (In (kb s) i). split; [|done].
    by destruct (board_step a (Receive b)) as [[r e] a'].
  - destruct (flush_ok s a b Hr Ho) as (i & -> & Hi). cbn [mbind option_bind]. by exists (In (kb s) i).
  - destruct (subscribe_ok s a n b Hr Ho) as (i & -> & Hi & Hn). cbn [mbind option_bind]. exists (In (kb s) i). split; [|done].
    by destruct (board_step a (Subscribe n b)) as [[r e] a']; cbn in *; subst.
  - destruct (unsubscribe_ok s a n b Hr) as (i & -> & Hi & Hn). cbn [mbind option_bind]. exists (In (kb s) i). split; [|done].
    by destruct (board_step a (Unsubscribe n b)) as [[r e] a']; cbn in *; subst.
Qed.

Lemma board_step_queues a o : length (queues (board_step a o).2) = length (queues a).
Proof.
  destruct o as [c now| |b|b|n b|n b]; cbn [board_step].
  - cbn. destruct (d_event _); [apply deliver_length|done].
  - by destruct (chars a).
  - destruct (queues a !!! b); [done|]. apply length_insert.
  - apply length_insert.
  - destruct (line n); [|done]. case_decide; [done|]. by destruct (_ <? _)%nat.
  - destruct (line n); [|done]. by case_decide.
Qed.

(** The answers to a sequence of operations. *)
Fixpoint board_run (a : board) (ops : list op) : list answer * board :=
  match ops with
  | [] => ([], a)
  | o :: ops => let '(r, a) := board_step a o in let '(l, a) := board_run a ops in (r :: l, a)
  end.

Fixpoint input_run (s : input) (ops : list op) : option (list answer * input) :=
  match ops with
  | [] => Some ([], s)
  | o :: ops => '(r, s) ← input_step s o; '(l, s) ← input_run s ops; Some (r :: l, s)
  end.

Lemma input_run_kept s a ops :
  repr s a → Forall (op_ok (length (queues a))) ops →
  ∃ s', input_run s ops = Some ((board_run a ops).1, s') ∧ repr s' (board_run a ops).2.
Proof.
  intros Hr Ho. revert s a Hr Ho. induction ops as [|o ops IH]; intros s a Hr Ho; [by exists s|].
  apply Forall_cons in Ho as [Ho Hos]. destruct (step_ok s a o Hr Ho) as (s1 & H1 & Hr1). cbn [input_run board_run]. rewrite H1.
  pose proof (board_step_queues a o) as Hq. destruct (board_step a o) as [r a1]. cbn in Hr1, Hq |- *.
  destruct (IH s1 a1 Hr1) as (s2 & -> & Hr2); [by rewrite Hq|]. cbn [mbind option_bind]. exists s2. by destruct (board_run a1 ops).
Qed.

(** Before anything happened: no key, empty mailboxes, no subscriptions. *)
Definition empty_box : irq_mailbox := Mailbox (replicate IRQ_MAILBOX_CAPACITY (Event 0 0 0)) 0 0 0.
Definition empty_slot : irq_dispatch_slot := Slot None (replicate IRQ_MAX_SHARED_HANDLERS None) (replicate IRQ_MAX_MAILBOX_SUBSCRIBERS None).
Definition boot_input (n : nat) : input :=
  In (Keyboard (replicate KB_BUFFER_SIZE 0) 0 0 false false) (Irqs (replicate IRQ_MAX_LINES empty_slot) (replicate n empty_box) []).
Definition boot_board (n : nat) : board := Board [] false false (replicate n []) (replicate IRQ_MAX_LINES ∅).

Lemma boot_repr n h : ∃ s, kb_init h (boot_input n) = Some s ∧ repr s (boot_board n).
Proof.
  eexists. split; [reflexivity|]. constructor; cbn [kb irq chars shift ext queues subs boot_board boot_input].
  - constructor; cbn [buffer head tail shift_active extended_active length]; done || (unfold KB_BUFFER_SIZE; lia).
  - apply Forall2_replicate. constructor; cbn; unfold IRQ_MAILBOX_CAPACITY; done || lia.
  - done.
  - assert (He : ∀ p sh, subs_are (length (replicate n ([] : list irq_event))) (Slot p sh (replicate IRQ_MAX_MAILBOX_SUBSCRIBERS None)) ∅).
    { intros p sh. constructor; cbn; [done|constructor|set_solver|]. intros b. split; [|set_solver].
      intros Hb. rewrite !elem_of_cons in Hb. destruct Hb as [?|[?|[?|[?|Hb]]]]; try done. by apply elem_of_nil in Hb. }
    change (replicate IRQ_MAX_LINES (∅ : gset nat)) with (<[1%nat := ∅]> (replicate IRQ_MAX_LINES (∅ : gset nat))).
    apply Forall2_insert; [apply Forall2_replicate|]; apply He.
Qed.

(** C33: after [kb_init] every sequence of scancodes, [kb_getchar] calls, mailbox
    receives, flushes, subscriptions and unsubscriptions returns what the
    specification returns: scancodes are decoded by the layout tables with the shift
    key and the extended prefix, characters queue up to 255 and further ones are
    dropped, every key event reaches each subscribed mailbox once, and a mailbox
    keeps the last 32 events in order.  No access leaves its array. *)
Theorem keyboard_refines n h ops :
  Forall (op_ok n) ops →
  ∃ s s', kb_init h (boot_input n) = Some s ∧ input_run s ops = Some ((board_run (boot_board n) ops).1, s') ∧
    repr s' (board_run (boot_board n) ops).2.
Proof.
  intros Ho. destruct (boot_repr n h) as (s & Hs & Hr). exists s.
  destruct (input_run_kept s (boot_board n) ops Hr) as (s' & H & Hr'); [by cbn; rewrite length_replicate|]. by exists s'.
Qed.

(** Shift and A, then B in lower case, seen by the reader and by a mailbox. *)
Lemma keyboard_refines_witness :
  ∃ s s', kb_init 0 (boot_input 2) = Some s ∧
    input_run s [Subscribe 1 1; Scan 0x2A 5; Scan 0x1E 6; Scan 0xAA 7; Scan 0x30 8; Getchar; Getchar; Getchar; Receive 1; Receive 0] =
      Some ([(0, None); (0, None); (0, None); (0, None); (0, None); (65, None); (98, None); (0, None); (1, Some (Event 1 0x2A 5)); (0, None)], s').
Proof.
  destruct (keyboard_refines 2 0 [Subscribe 1 1; Scan 0x2A 5; Scan 0x1E 6; Scan 0xAA 7; Scan 0x30 8; Getchar; Getchar; Getchar; Receive 1; Receive 0])
    as (s & s' & H1 & H2 & _); [repeat constructor; cbn; lia|]. exists s, s'. split; [exact H1|]. exact H2.
Defined.

End InputProps.
