(* ===== verification/Klog.v ===== *)
(** The kernel log (kernel/klog.c) with what it publishes to: the log service and the
    log channel of the IPC layer, and the log files of the virtual file system.  The
    table of services (kernel/service.c) is here because the log asks it for the
    process of the log service; its operations are in Service.v.  The bytes of an
    event that the code leaves as they are on the stack are an argument. *)

From S2P Require Import Prelude Arrays Bytes Ipc Block.
From S2P Require Vfs.

Module Klog.

Import Arrays Bytes.

Definition CONFIG_KLOG_CAPACITY : nat := 128.
Definition CONFIG_KLOG_ENTRY_LEN : nat := 96.
Definition CONFIG_KLOG_DEFAULT_LEVEL : Z := 1.
Definition CONFIG_KLOG_MODULE_NAME_LEN : nat := 24.
Definition CONFIG_KLOG_MAX_MODULES : nat := 32.
Definition KLOG_DEBUG : Z := 0.
Definition KLOG_INFO : Z := 1.
Definition KLOG_WARN : Z := 2.
Definition KLOG_ERROR : Z := 3.
Definition KLOG_LEVEL_INHERIT : Z := -1.
Definition IPC_SERVICE_LOGGER : Z := 2.

(** ** Services *)

Definition SYSTEM_SERVICE_LOGD : Z := 3.
Definition SYSTEM_SERVICE_COUNT : nat := 4.

Record service_entry := ServiceEntry {
  sv_id : Z;
  sv_name : option cstring;
  sv_entry : option Z;
  sv_pid : Z;
  rights_default : Z;
  client_rights : list Z
}.

(** A service number that is in range. *)
Definition service_index (service : Z) : option nat :=
  if (service <? 0) || (Z.of_nat SYSTEM_SERVICE_COUNT <=? service) then None else Some (Z.to_nat service).

Definition service_pid (service : Z) (table : list service_entry) : option Z :=
  match service_index service with
  | None => Some (-1)
  | Some i => e ← table !! i; Some (sv_pid e)
  end.

(** ** The state *)

Record klog_entry := Entry { seq : Z; level : Z; module : cstring; text : cstring }.
Record klog_module_entry := ModuleEntry { me_used : bool; me_level : Z; me_name : cstring }.

Record klog := KlogState {
  klog_buffer : list klog_entry;
  klog_count : nat;
  klog_head : nat;
  klog_sequence : Z;
  klog_current_level : Z;
  klog_ready : bool;
  logger_channel_id : Z;
  module_table : list klog_module_entry;
  proc_sink_enabled : bool;
  proc_sink_guard : bool;
  logs_directory_ready : bool
}.

(** The log with the components it calls. *)
Record machine {W Ctx : Type} := Machine {
  log : klog;
  kern : Ipc.kernel;
  services : list service_entry;
  files : Vfs.Vfs.vfs W Ctx;
  world : W
}.
Arguments machine : clear implicits.

(** ** Strings *)

(** [string_copy] into an array of [cap] bytes. *)
Definition string_copy (cap : nat) (src : option cstring) : cstring := take (cap - 1) (default [] src).

Definition to_lower_ascii (c : Z) : Z := if (65 <=? c) && (c <=? 90) then c + 32 else c.
Definition to_upper (c : Z) : Z := if (97 <=? c) && (c <=? 122) then c - 32 else c.

Definition string_equals (a b : cstring) : bool := bool_decide (a = b).

Fixpoint string_equals_ignore_case (a b : cstring) : bool :=
  match a, b with
  | x :: a', y :: b' => if negb (to_lower_ascii x =? to_lower_ascii y) then false else string_equals_ignore_case a' b'
  | [], [] => true
  | _, _ => false
  end.

Fixpoint string_has_prefix_ignore_case (t prefix : cstring) : bool :=
  match prefix, t with
  | [], _ => true
  | _ :: _, [] => false
  | y :: prefix', x :: t' => if negb (to_lower_ascii x =? to_lower_ascii y) then false else string_has_prefix_ignore_case t' prefix'
  end.

(** ** Levels *)

Definition clamp_level (l : Z) : Z := if l <? KLOG_DEBUG then KLOG_DEBUG else if KLOG_ERROR <? l then KLOG_ERROR else l.

Definition klog_level_name (l : Z) : cstring :=
  if l =? KLOG_DEBUG then lit "DEBUG" else if l =? KLOG_INFO then lit "INFO" else if l =? KLOG_WARN then lit "WARN" else lit "ERROR".

Fixpoint skip_spaces (s : cstring) : cstring := match s with c :: s' => if c =? 32 then skip_spaces s' else s | [] => [] end.

(** At most [n] characters up to a blank, in upper case. *)
Fixpoint token (n : nat) (s : cstring) : cstring :=
  match n, s with
  | S n', c :: s' => if c =? 32 then [] else to_upper c :: token n' s'
  | _, _ => []
  end.

(** The digits of a token: the value, -1 when it is too large, none when there is
    another character. *)
Fixpoint numeric_value (s : cstring) (value : Z) : option Z :=
  match s with
  | [] => Some value
  | c :: s' =>
      if (48 <=? c) && (c <=? 57) then
        let value := value * 10 + (c - 48) in
        if KLOG_ERROR <? value then Some (-1) else numeric_value s' value
      else None
  end.

Definition klog_level_from_name (name : option cstring) : Z :=
  match name with
  | None => -1
  | Some s =>
      match skip_spaces s with
      | [] => -1
      | s =>
          let t := token 7 s in
          match t with
          | [] => -1
          | _ =>
              match numeric_value t 0 with
              | Some value => value
              | None =>
                  if bool_decide (t = lit "DEBUG") then KLOG_DEBUG
                  else if bool_decide (t = lit "INFO") then KLOG_INFO
                  else if bool_decide (t = lit "WARN") || bool_decide (t = lit "WARNING") then KLOG_WARN
                  else if bool_decide (t = lit "ERROR") || bool_decide (t = lit "ERR") then KLOG_ERROR
                  else -1
              end
          end
      end
  end.

(** ** Start *)

Definition blank_entry : klog_entry := Entry 0 KLOG_INFO [] [].
Definition blank_module : klog_module_entry := ModuleEntry false KLOG_LEVEL_INHERIT [].

Definition klog_reset_internal (s : klog) : klog :=
  KlogState ((fun _ => blank_entry) <$> klog_buffer s) 0 0 0 (klog_current_level s) (klog_ready s) (logger_channel_id s)
    ((fun _ => blank_module) <$> module_table s) (proc_sink_enabled s) (proc_sink_guard s) (logs_directory_ready s).

Definition set_level (l : Z) (s : klog) : klog :=
  KlogState (klog_buffer s) (klog_count s) (klog_head s) (klog_sequence s) l (klog_ready s) (logger_channel_id s) (module_table s)
    (proc_sink_enabled s) (proc_sink_guard s) (logs_directory_ready s).
Definition set_ready (s : klog) : klog :=
  KlogState (klog_buffer s) (klog_count s) (klog_head s) (klog_sequence s) (klog_current_level s) true (logger_channel_id s) (module_table s)
    (proc_sink_enabled s) (proc_sink_guard s) (logs_directory_ready s).
Definition set_modules (l : list klog_module_entry) (s : klog) : klog :=
  KlogState (klog_buffer s) (klog_count s) (klog_head s) (klog_sequence s) (klog_current_level s) (klog_ready s) (logger_channel_id s) l
    (proc_sink_enabled s) (proc_sink_guard s) (logs_directory_ready s).
Definition set_channel (c : Z) (s : klog) : klog :=
  KlogState (klog_buffer s) (klog_count s) (klog_head s) (klog_sequence s) (klog_current_level s) (klog_ready s) c (module_table s)
    (proc_sink_enabled s) (proc_sink_guard s) (logs_directory_ready s).
Definition set_sink (enabled guard dir : bool) (s : klog) : klog :=
  KlogState (klog_buffer s) (klog_count s) (klog_head s) (klog_sequence s) (klog_current_level s) (klog_ready s) (logger_channel_id s)
    (module_table s) enabled guard dir.

Definition klog_init (s : klog) : klog := set_ready (set_level (clamp_level CONFIG_KLOG_DEFAULT_LEVEL) (klog_reset_internal s)).
Definition ensure_ready (s : klog) : klog := if klog_ready s then s else klog_init s.

(** ** Modules *)

Definition sanitize_module (m : option cstring) : cstring := match m with None | Some [] => lit "kernel" | Some t => t end.

Definition module_is (tag : cstring) (e : klog_module_entry) : bool := me_used e && string_equals (me_name e) tag.

(** The entry of a module, allocated when [allocate] says so. *)
Definition find_module_entry (m : option cstring) (allocate : bool) (l : list klog_module_entry) : option nat * list klog_module_entry :=
  let tag := sanitize_module m in
  match first_index (module_is tag) l with
  | Some i => (Some i, l)
  | None =>
      if negb allocate then (None, l)
      else match first_index (fun e => negb (me_used e)) l with
      | None => (None, l)
      | Some i => (Some i, <[i := ModuleEntry true KLOG_LEVEL_INHERIT (string_copy CONFIG_KLOG_MODULE_NAME_LEN (Some tag))]> l)
      end
  end.

Definition module_level (m : option cstring) (s : klog) : Z :=
  match (find_module_entry m false (module_table s)).1 ≫= (module_table s !!.) with
  | Some e => me_level e
  | None => KLOG_LEVEL_INHERIT
  end.

Definition effective_threshold_for (m : option cstring) (s : klog) : Z :=
  let l := module_level m s in if l =? KLOG_LEVEL_INHERIT then klog_current_level s else l.

Definition klog_set_level (l : Z) (s : klog) : klog := set_level (clamp_level l) (ensure_ready s).
Definition klog_get_level (s : klog) : Z * klog := let s := ensure_ready s in (klog_current_level s, s).
Definition klog_module_get_level (m : option cstring) (s : klog) : Z * klog := let s := ensure_ready s in (module_level m s, s).

(** ** Entries *)

Definition klog_store_entry (m : cstring) (l : Z) (message : cstring) (seq_value : Z) (s : klog) : option klog :=
  b ← buf_store (klog_buffer s) (klog_head s)
        (Entry seq_value (u8 l) (string_copy CONFIG_KLOG_MODULE_NAME_LEN (Some m)) (take (CONFIG_KLOG_ENTRY_LEN - 1) message));
  Some (KlogState b (if (klog_count s <? CONFIG_KLOG_CAPACITY)%nat then S (klog_count s) else klog_count s)
    ((klog_head s + 1) mod CONFIG_KLOG_CAPACITY)%nat (klog_sequence s) (klog_current_level s) (klog_ready s) (logger_channel_id s)
    (module_table s) (proc_sink_enabled s) (proc_sink_guard s) (logs_directory_ready s)).

Definition next_sequence (s : klog) : klog :=
  KlogState (klog_buffer s) (klog_count s) (klog_head s) (klog_sequence s +32 1) (klog_current_level s) (klog_ready s) (logger_channel_id s)
    (module_table s) (proc_sink_enabled s) (proc_sink_guard s) (logs_directory_ready s).

(** [n] entries from index [i] on. *)
Fixpoint copy_entries (b : list klog_entry) (i n : nat) : option (list klog_entry) :=
  match n with
  | O => Some []
  | S n' => e ← b !! (i mod CONFIG_KLOG_CAPACITY)%nat; l ← copy_entries b (S i) n'; Some (e :: l)
  end.

(** The entries copied to [out]; [None] is a null pointer. *)
Definition klog_copy (out : bool) (max_entries : nat) (s : klog) : option (list klog_entry * klog) :=
  let s := ensure_ready s in
  if negb out || (max_entries =? 0)%nat then Some ([], s)
  else
    let available := if (max_entries <? klog_count s)%nat then max_entries else klog_count s in
    let start := ((klog_head s + CONFIG_KLOG_CAPACITY - klog_count s) mod CONFIG_KLOG_CAPACITY)%nat in
    l ← copy_entries (klog_buffer s) start available; Some (l, s).

(** ** Publishing *)

Inductive log_sink_kind := LOG_SINK_KERNEL | LOG_SINK_NET | LOG_SINK_IPC.

Definition log_sink_path (k : log_sink_kind) : cstring :=
  match k with
  | LOG_SINK_KERNEL => lit "/System/Logs/kernel.log"
  | LOG_SINK_NET => lit "/System/Logs/net.log"
  | LOG_SINK_IPC => lit "/System/Logs/ipc.log"
  end.

Definition classify_log_sink (m t : cstring) : log_sink_kind :=
  if string_has_prefix_ignore_case m (lit "net") then LOG_SINK_NET
  else if string_equals_ignore_case m (lit "netd") then LOG_SINK_NET
  else if string_has_prefix_ignore_case m (lit "ipc") then LOG_SINK_IPC
  else if string_equals_ignore_case m (lit "logd") then LOG_SINK_IPC
  else if string_has_prefix_ignore_case t (lit "net:") then LOG_SINK_NET
  else if string_has_prefix_ignore_case t (lit "ipc:") then LOG_SINK_IPC
  else LOG_SINK_KERNEL.

(** The functions that append to a line of [cap] bytes. *)
Definition append_text (cap : nat) (t line : cstring) : cstring := line ++ take (cap - 1 - length line) t.
Definition append_char (cap : nat) (c : Z) (line : cstring) : cstring := append_text cap [c] line.
Definition append_u32 (cap : nat) (value : Z) (line : cstring) : cstring := append_text cap (Block.decimal value) line.
Definition append_level_name (cap : nat) (l : Z) (line : cstring) : cstring := append_text cap (klog_level_name l) line.

Definition LINE_CAP : nat := CONFIG_KLOG_ENTRY_LEN + CONFIG_KLOG_MODULE_NAME_LEN + 48.

Definition log_line (e : klog_entry) : cstring :=
  let l := append_char LINE_CAP 91 [] in
  let l := append_u32 LINE_CAP (seq e) l in
  let l := append_char LINE_CAP 93 l in
  let l := append_char LINE_CAP 32 l in
  let l := append_level_name LINE_CAP (level e) l in
  let l := append_char LINE_CAP 32 l in
  let l := append_char LINE_CAP 40 l in
  let l := append_text LINE_CAP (module e) l in
  let l := append_char LINE_CAP 41 l in
  let l := append_char LINE_CAP 58 l in
  let l := append_char LINE_CAP 32 l in
  append_text LINE_CAP (text e) l.

Section machine.
Context {W Ctx : Type} (stack : list Z).
Implicit Types s : machine W Ctx.

Definition set_log (l : klog) s : machine W Ctx := Machine _ _ l (kern s) (services s) (files s) (world s).
Definition set_kern (k : Ipc.kernel) s : machine W Ctx := Machine _ _ (log s) k (services s) (files s) (world s).
Definition set_services (l : list service_entry) s : machine W Ctx := Machine _ _ (log s) (kern s) l (files s) (world s).
Definition set_world (w : W) s : machine W Ctx := Machine _ _ (log s) (kern s) (services s) (files s) w.

(** [struct klog_ipc_event]: the bytes behind the terminators are the stack's. *)
Definition klog_ipc_event (sq l : Z) (m t : cstring) : option (list Z) :=
  let m := string_copy CONFIG_KLOG_MODULE_NAME_LEN (Some m) in
  let t := take (CONFIG_KLOG_ENTRY_LEN - 1) t in
  b ← buf_copy stack 0 (le32 sq ++ [l; 0; 0; 0]);
  b ← buf_copy b 8 (m ++ [0]);
  buf_copy b (8 + CONFIG_KLOG_MODULE_NAME_LEN) (t ++ [0]).

Definition EVENT_SIZE : nat := 8 + CONFIG_KLOG_MODULE_NAME_LEN + CONFIG_KLOG_ENTRY_LEN.

Definition klog_publish_channel (sq l : Z) (m t : cstring) s : option (machine W Ctx) :=
  if negb (Ipc.ipc_is_initialized (kern s)) then Some s
  else
    payload ← klog_ipc_event sq l m t;
    logd_pid ← service_pid SYSTEM_SERVICE_LOGD (services s);
    '(sent, s) ← (if 0 <? logd_pid
                  then '(rc, k) ← Ipc.ipc_send logd_pid (Some payload) (Z.of_nat EVENT_SIZE) (kern s); Some (0 <=? rc, set_kern k s)
                  else Some (false, s));
    if (sent : bool) then Some s
    else
      s ← (if logger_channel_id (log s) <? 0
           then c ← Ipc.ipc_get_service_channel IPC_SERVICE_LOGGER (kern s); Some (set_log (set_channel c (log s)) s)
           else Some s);
      if 0 <=? logger_channel_id (log s)
      then '(_, k) ← Ipc.ipc_channel_send (logger_channel_id (log s)) 0 l 0 (Some payload) (Z.of_nat EVENT_SIZE) 0 (kern s); Some (set_kern k s)
      else Some s.

Definition ensure_logs_directory s : option (machine W Ctx) :=
  if logs_directory_ready (log s) then Some s
  else
    '(_, w) ← Vfs.Vfs.vfs_mkdir (files s) (world s) (Some (lit "/System"));
    '(_, w) ← Vfs.Vfs.vfs_mkdir (files s) w (Some (lit "/System/Logs"));
    Some (set_log (set_sink (proc_sink_enabled (log s)) (proc_sink_guard (log s)) true (log s)) (set_world w s)).

(** The log files are emptied. *)
Definition clear_sinks s : option (machine W Ctx) :=
  '(_, w) ← Vfs.Vfs.vfs_write_file (files s) (world s) (Some (log_sink_path LOG_SINK_KERNEL)) None;
  '(_, w) ← Vfs.Vfs.vfs_write_file (files s) w (Some (log_sink_path LOG_SINK_NET)) None;
  '(_, w) ← Vfs.Vfs.vfs_write_file (files s) w (Some (log_sink_path LOG_SINK_IPC)) None;
  Some (set_world w s).

Fixpoint append_lines (l : list klog_entry) s : option (machine W Ctx) :=
  match l with
  | [] => Some s
  | e :: l' =>
      let path := log_sink_path (classify_log_sink (module e) (text e)) in
      '(_, w) ← Vfs.Vfs.vfs_append (files s) (world s) (Some path) (Some (log_line e));
      '(_, w) ← Vfs.Vfs.vfs_append (files s) w (Some path) (Some [newline]);
      append_lines l' (set_world w s)
  end.

Definition set_guard (b : bool) s : machine W Ctx :=
  set_log (set_sink (proc_sink_enabled (log s)) b (logs_directory_ready (log s)) (log s)) s.

Definition klog_refresh_proc_sink s : option (machine W Ctx) :=
  if negb (proc_sink_enabled (log s)) then Some s
  else if proc_sink_guard (log s) then Some s
  else
    let s := set_guard true s in
    '(entries, l) ← klog_copy true CONFIG_KLOG_CAPACITY (log s);
    s ← ensure_logs_directory (set_log l s);
    s ← clear_sinks s;
    s ← append_lines entries s;
    Some (set_guard false s).

Definition klog_enable_proc_sink s : option (machine W Ctx) :=
  klog_refresh_proc_sink (set_log (set_sink true (proc_sink_guard (log s)) (logs_directory_ready (log s)) (log s)) s).

Definition klog_module_set_level (m : option cstring) (l : Z) s : option (Z * machine W Ctx) :=
  let s := set_log (ensure_ready (log s)) s in
  let tag := sanitize_module m in
  let l := if l =? KLOG_LEVEL_INHERIT then l else clamp_level l in
  let '(found, t) := find_module_entry (Some tag) true (module_table (log s)) in
  match found with
  | None => Some (-1, s)
  | Some i =>
      e ← t !! i;
      let s := set_log (set_modules (<[i := ModuleEntry (me_used e) l (me_name e)]> t) (log s)) s in
      s ← (if proc_sink_enabled (log s) then klog_refresh_proc_sink s else Some s);
      Some (0, s)
  end.

Definition klog_emit_tagged (m : option cstring) (l : Z) (message : option cstring) s : option (machine W Ctx) :=
  let s := set_log (ensure_ready (log s)) s in
  match message with
  | None => Some s
  | Some message =>
      let tag := sanitize_module m in
      if l <? effective_threshold_for (Some tag) (log s) then Some s
      else
        let l := clamp_level l in
        let sq := klog_sequence (log s) in
        lg ← klog_store_entry tag l message sq (next_sequence (log s));
        s ← klog_publish_channel sq (u8 l) (string_copy CONFIG_KLOG_MODULE_NAME_LEN (Some tag)) (take (CONFIG_KLOG_ENTRY_LEN - 1) message) (set_log lg s);
        if proc_sink_enabled (log s) then klog_refresh_proc_sink s else Some s
  end.

(** klog.c's own tag. *)
Definition klog_emit (l : Z) (message : option cstring) s : option (machine W Ctx) := klog_emit_tagged (Some (lit "klog")) l message s.

End machine.

End Klog.
