(* ===== verification/KlogRun.v ===== *)
(** What the kernel log promises: the abstract log (the messages accepted so far, the
    global level, the levels of modules) and the relation of the state of klog.c to it,
    preserved by every function of klog.c.  The log files are written through an
    interface, [FilesReturn], that says only that the file operations return.

    The log with the components it calls: every function of klog.c returns and does to
    the abstract log what the specification says, whatever happens to the messages it
    publishes.  The files are reached through [FilesReturn]; RAMFS mounts discharge it. *)

From S2P Require Import Prelude Sched Arrays Ipc IpcSpec IpcRun Bytes Block Klog.
From S2P Require Vfs VfsSpec VfsRamfs.

Module KlogSpec.

Import Arrays Bytes Klog.

(** ** The abstract log *)

Definition newest {A} (n : nat) (l : list A) : list A := drop (length l - n) l.

(** Every message accepted since the start, in order: the log keeps the newest 128. *)
Record alog := ALog { accepted : list klog_entry; a_level : Z; a_modules : gmap cstring Z }.

Definition a_start : alog := ALog [] KLOG_INFO ∅.

Definition a_threshold (tag : cstring) (a : alog) : Z :=
  match a_modules a !! tag with
  | Some l => if l =? KLOG_LEVEL_INHERIT then a_level a else l
  | None => a_level a
  end.

(** The entry a message becomes: messages are numbered from 0, modulo 2^32. *)
Definition a_entry (tag : cstring) (l : Z) (message : cstring) (a : alog) : klog_entry :=
  Entry (u32 (Z.of_nat (length (accepted a)))) (clamp_level l) (take 23 tag) (take 95 message).

Definition a_emit (m : option cstring) (l : Z) (message : cstring) (a : alog) : alog :=
  let tag := sanitize_module m in
  if l <? a_threshold tag a then a
  else ALog (accepted a ++ [a_entry tag l message a]) (a_level a) (a_modules a).

Definition a_module_set (m : option cstring) (l : Z) (a : alog) : Z * alog :=
  let tag := sanitize_module m in
  let l := if l =? KLOG_LEVEL_INHERIT then l else clamp_level l in
  if bool_decide (is_Some (a_modules a !! tag)) || (base.size (a_modules a) <? CONFIG_KLOG_MAX_MODULES)%nat
  then (0, ALog (accepted a) (a_level a) (<[tag := l]> (a_modules a)))
  else (-1, a).

(** ** The relation *)

Definition level_at (tag : cstring) (t : list klog_module_entry) : option Z :=
  i ← first_index (module_is tag) t; e ← t !! i; Some (me_level e).

Record modules_rel (t : list klog_module_entry) (m : gmap cstring Z) : Prop := {
  mr_length : length t = CONFIG_KLOG_MAX_MODULES;
  mr_level tag : level_at tag t = m !! tag;
  mr_size : length (filter (fun e => me_used e = true) t) = base.size m
}.

Record shape (s : klog) : Prop := {
  sh_buffer : length (klog_buffer s) = CONFIG_KLOG_CAPACITY;
  sh_modules : length (module_table s) = CONFIG_KLOG_MAX_MODULES
}.

(** The entries kept, oldest first. *)
Definition recorded (s : klog) : list klog_entry :=
  ring (klog_buffer s) ((klog_head s + CONFIG_KLOG_CAPACITY - klog_count s) mod CONFIG_KLOG_CAPACITY)%nat (klog_count s).

Record content_rel (s : klog) (a : alog) : Prop := {
  cr_count : (klog_count s ≤ CONFIG_KLOG_CAPACITY)%nat;
  cr_head : (klog_head s < CONFIG_KLOG_CAPACITY)%nat;
  cr_entries : recorded s = newest CONFIG_KLOG_CAPACITY (accepted a);
  cr_sequence : klog_sequence s = u32 (Z.of_nat (length (accepted a)));
  cr_level : klog_current_level s = a_level a;
  cr_modules : modules_rel (module_table s) (a_modules a)
}.

(** Before the first use the log is the empty one. *)
Definition log_rel (s : klog) (a : alog) : Prop := shape s ∧ if klog_ready s then content_rel s a else a = a_start.

(** ** Module levels *)

Section modules.
Implicit Types (t : list klog_module_entry) (e : klog_module_entry) (m : gmap cstring Z).

Lemma used_insert t i e e' :
  t !! i = Some e → me_used e = true → me_used e' = true →
  length (filter (fun e => me_used e = true) (<[i := e']> t)) = length (filter (fun e => me_used e = true) t).
Proof.
  intros Hi He He'. revert i Hi. induction t as [|x t IH]; intros [|i] Hi; simpl in *; [done..| |].
  - injection Hi as ->. rewrite !filter_cons. by rewrite !decide_True.
  - rewrite !filter_cons. case_decide; simpl; by rewrite (IH i).
Qed.

Lemma used_alloc t i e e' :
  t !! i = Some e → me_used e = false → me_used e' = true →
  length (filter (fun e => me_used e = true) (<[i := e']> t)) = S (length (filter (fun e => me_used e = true) t)).
Proof.
  intros Hi He He'. revert i Hi. induction t as [|x t IH]; intros [|i] Hi; simpl in *; [done..| |].
  - injection Hi as ->. rewrite !filter_cons. rewrite decide_True, decide_False by congruence. done.
  - rewrite !filter_cons. case_decide; simpl; by rewrite (IH i).
Qed.

Lemma module_is_true tag e : module_is tag e = true ↔ me_used e = true ∧ me_name e = tag.
Proof. unfold module_is, string_equals. rewrite andb_true_iff, bool_decide_eq_true. done. Qed.

Lemma level_at_Some tag t i : first_index (module_is tag) t = Some i → ∃ e, t !! i = Some e ∧ module_is tag e = true.
Proof. intros (e & He & Hp & _)%first_index_Some. eauto. Qed.

(** A new level at the entry of a module. *)
Lemma level_insert tag t i e l tag' :
  first_index (module_is tag) t = Some i → t !! i = Some e →
  level_at tag' (<[i := ModuleEntry (me_used e) l (me_name e)]> t) = (if decide (tag' = tag) then Some l else level_at tag' t).
Proof.
  intros Hi He. unfold level_at. rewrite (first_index_insert _ _ _ e) by done.
  destruct (level_at_Some _ _ _ Hi) as (e' & He' & [Hu Hn]%module_is_true). simplify_eq.
  case_decide as Ht.
  - rewrite Ht, Hi. cbn [mbind option_bind]. by rewrite list_lookup_insert_eq by (by eapply lookup_lt_Some).
  - destruct (first_index (module_is tag') t) as [j|] eqn:Hj; [|done]. cbn [mbind option_bind].
    destruct (level_at_Some _ _ _ Hj) as (f & Hf & [_ Hfn]%module_is_true).
    rewrite list_lookup_insert_ne; [done|]. intros <-. simplify_eq.
Qed.

(** An entry taken for a module that had none. *)
Lemma level_alloc tag t i l tag' :
  first_index (module_is tag) t = None → first_index (fun e => negb (me_used e)) t = Some i →
  level_at tag' (<[i := ModuleEntry true l tag]> t) = (if decide (tag' = tag) then Some l else level_at tag' t).
Proof.
  intros Hn Hi. apply first_index_Some in Hi as (e & He & Hu & _).
  assert (Hlt : (i < length t)%nat) by (by eapply lookup_lt_Some). unfold level_at. case_decide as Ht.
  - subst tag'. assert (Hfi : first_index (module_is tag) (<[i := ModuleEntry true l tag]> t) = Some i).
    { eapply first_index_unique; [by apply list_lookup_insert_eq|by apply module_is_true|].
      intros j f Hf Hp. destruct (decide (j = i)) as [|Hji]; [done|]. rewrite list_lookup_insert_ne in Hf by done.
      rewrite first_index_None in Hn. rewrite (Hn j f Hf) in Hp. done. }
    rewrite Hfi. cbn [mbind option_bind]. by rewrite list_lookup_insert_eq.
  - rewrite (first_index_insert _ _ _ e); [|done|].
    2:{ destruct (module_is tag' e) eqn:E; [apply module_is_true in E as [E _]; rewrite E in Hu; done|].
        apply not_true_is_false. rewrite module_is_true. simpl. intros [_ ->]. done. }
    destruct (first_index (module_is tag') t) as [j|] eqn:Hj; [|done]. cbn [mbind option_bind].
    destruct (level_at_Some _ _ _ Hj) as (f & Hf & [Hfu _]%module_is_true).
    rewrite list_lookup_insert_ne; [done|]. intros <-. simplify_eq. rewrite Hfu in Hu. done.
Qed.

Lemma modules_full t m : modules_rel t m → first_index (fun e => negb (me_used e)) t = None → base.size m = CONFIG_KLOG_MAX_MODULES.
Proof.
  intros [Hl _ Hs] Hn. rewrite <- Hs, <- Hl. f_equal. apply filter_all. apply Forall_lookup. intros i e He.
  rewrite first_index_None in Hn. specialize (Hn i e He). by destruct (me_used e).
Qed.

Lemma modules_room t m i : modules_rel t m → first_index (fun e => negb (me_used e)) t = Some i → (base.size m < CONFIG_KLOG_MAX_MODULES)%nat.
Proof.
  intros [Hl _ Hs] (e & He & Hu & _)%first_index_Some. rewrite <- Hs, <- Hl.
  apply negb_true_iff in Hu. pose proof (used_alloc t i e (ModuleEntry true 0 []) He Hu eq_refl) as H.
  pose proof (length_filter (fun e => me_used e = true) (<[i := ModuleEntry true 0 []]> t)) as H'.
  rewrite length_insert in H'. lia.
Qed.

Lemma sanitize_idem (o : option cstring) : sanitize_module (Some (sanitize_module o)) = sanitize_module o.
Proof. by destruct o as [[|? ?]|]. Qed.

Lemma module_level_rel (o : option cstring) s a :
  modules_rel (module_table s) (a_modules a) → module_level o s = default KLOG_LEVEL_INHERIT (a_modules a !! sanitize_module o).
Proof.
  intros [_ Hl _]. rewrite <- Hl. unfold module_level, find_module_entry, level_at.
  destruct (first_index _ _) as [i|]; [|done]. simpl. by destruct (_ !! i).
Qed.

Lemma threshold_rel tag s a :
  modules_rel (module_table s) (a_modules a) → klog_current_level s = a_level a →
  effective_threshold_for (Some (sanitize_module tag)) s = a_threshold (sanitize_module tag) a.
Proof.
  intros Hm Hl. unfold effective_threshold_for, a_threshold. rewrite (module_level_rel _ _ a), sanitize_idem, Hl by done.
  by destruct (a_modules a !! _).
Qed.

(** The search that may take a free entry, and the level then stored. *)
Lemma modules_set tag l t m :
  modules_rel t m → (length tag < CONFIG_KLOG_MODULE_NAME_LEN)%nat → tag ≠ [] →
  if bool_decide (is_Some (m !! tag)) || (base.size m <? CONFIG_KLOG_MAX_MODULES)%nat
  then ∃ i e t', find_module_entry (Some tag) true t = (Some i, t') ∧ t' !! i = Some e ∧
    modules_rel (<[i := ModuleEntry (me_used e) l (me_name e)]> t') (<[tag := l]> m)
  else find_module_entry (Some tag) true t = (None, t).
Proof.
  intros Hm Hlen Hne. assert (Hs : sanitize_module (Some tag) = tag) by (by destruct tag).
  unfold find_module_entry. rewrite Hs. destruct (first_index (module_is tag) t) as [i|] eqn:Hi.
  - destruct (level_at_Some _ _ _ Hi) as (e & He & Hp). pose proof (mr_level _ _ Hm tag) as Hl.
    unfold level_at in Hl. rewrite Hi in Hl. cbn [mbind option_bind] in Hl. rewrite He in Hl. rewrite <- Hl. simpl.
    exists i, e, t. split; [done|]. split; [done|]. apply module_is_true in Hp as [Hu _]. constructor.
    + rewrite length_insert. apply Hm.
    + intros tag'. rewrite (level_insert tag) by done. rewrite lookup_insert, (mr_level _ _ Hm).
      repeat case_decide; congruence.
    + rewrite (used_insert _ _ e), map_size_insert_Some by done. apply Hm.
  - pose proof (mr_level _ _ Hm tag) as Hl. unfold level_at in Hl. rewrite Hi in Hl. cbn in Hl. rewrite <- Hl. simpl.
    destruct (first_index (fun e => negb (me_used e)) t) as [i|] eqn:Hf.
    + pose proof (modules_room _ _ _ Hm Hf). rewrite (proj2 (Nat.ltb_lt _ _)) by done.
      assert (Hc : string_copy CONFIG_KLOG_MODULE_NAME_LEN (Some tag) = tag).
      { unfold string_copy, CONFIG_KLOG_MODULE_NAME_LEN in *. simpl. apply take_ge. lia. }
      rewrite Hc. exists i. eexists _, _. split; [done|]. apply first_index_Some in Hf as Hf'.
      destruct Hf' as (e & He & Hu & _). apply negb_true_iff in Hu. assert (Hlt : (i < length t)%nat) by (by eapply lookup_lt_Some).
      split; [by apply list_lookup_insert_eq|]. simpl. rewrite list_insert_insert_eq. constructor.
      * rewrite length_insert. apply Hm.
      * intros tag'. rewrite (level_alloc tag) by done. rewrite lookup_insert, (mr_level _ _ Hm). repeat case_decide; congruence.
      * rewrite (used_alloc _ _ e), map_size_insert_None by done. f_equal. apply Hm.
    + rewrite (modules_full _ _ Hm Hf). done.
Qed.

End modules.

(** ** The ring of entries *)

Lemma newest_snoc {A} n (l : list A) x : newest n (newest n l ++ [x]) = newest n (l ++ [x]).
Proof.
  unfold newest. rewrite !length_app, length_drop. simpl.
  destruct (decide (length l ≤ n)%nat); [replace (length l - n)%nat with 0%nat by lia; by rewrite Nat.sub_0_r|].
  rewrite !drop_app, drop_drop, length_drop. f_equal; f_equal; lia.
Qed.

Lemma newest_length {A} n (l : list A) : length (newest n l) = Nat.min n (length l).
Proof. unfold newest. rewrite length_drop. lia. Qed.

Lemma newest_start h n : (h < 128)%nat → (n ≤ 128)%nat → (((h + 128 - n) mod 128 + n) mod 128)%nat = h.
Proof.
  intros. rewrite Nat.Div0.add_mod_idemp_l. replace (h + 128 - n + n)%nat with (h + 1 * 128)%nat by lia.
  rewrite Nat.Div0.mod_add. by apply Nat.mod_small.
Qed.

(** What a store at the head does to the ring, for any number of kept entries. *)
Lemma ring_store (q : list klog_entry) h n x :
  length q = CONFIG_KLOG_CAPACITY → (h < CONFIG_KLOG_CAPACITY)%nat → (n ≤ CONFIG_KLOG_CAPACITY)%nat →
  let n' := if (n <? CONFIG_KLOG_CAPACITY)%nat then S n else n in
  ring (<[h := x]> q) (((h + 1) mod CONFIG_KLOG_CAPACITY + CONFIG_KLOG_CAPACITY - n') mod CONFIG_KLOG_CAPACITY)%nat n' =
  newest CONFIG_KLOG_CAPACITY (ring q ((h + CONFIG_KLOG_CAPACITY - n) mod CONFIG_KLOG_CAPACITY)%nat n ++ [x]).
Proof.
  unfold CONFIG_KLOG_CAPACITY. intros Hq Hh Hn.
  assert (Hs : ((h + 128 - n) mod 128 < 128)%nat) by (by apply Nat.mod_upper_bound).
  unfold newest. rewrite length_app, ring_length by lia. simpl length. case_match eqn:E; bool_prop; simpl.
  - replace (n + 1 - 128)%nat with 0%nat by lia. rewrite drop_0, <- ring_push by lia.
    rewrite Hq, newest_start by lia. f_equal.
    replace ((h + 1) mod 128 + 128 - S n)%nat with ((h + 1) mod 128 + (127 - n))%nat by lia.
    rewrite Nat.Div0.add_mod_idemp_l. f_equal. lia.
  - assert (n = 128%nat) as -> by lia. replace (h + 128 - 128)%nat with h by lia.
    rewrite (Nat.mod_small h) by lia. replace ((h + 1) mod 128 + 128 - 128)%nat with ((h + 1) mod 128)%nat by lia.
    rewrite Nat.Div0.mod_mod. pose proof (ring_overwrite q h x) as H. rewrite Hq in H. rewrite H by done.
    destruct (ring q h 128) as [|y r] eqn:Er; [apply (f_equal length) in Er; rewrite ring_length in Er; simpl in *; lia|done].
Qed.

Lemma store_rel tag l message s a :
  shape s → content_rel s a → KLOG_DEBUG ≤ l ≤ KLOG_ERROR →
  ∃ s', klog_store_entry tag l message (klog_sequence s) (next_sequence s) = Some s' ∧ shape s' ∧ klog_ready s' = klog_ready s ∧
    content_rel s' (ALog (accepted a ++ [a_entry tag l message a]) (a_level a) (a_modules a)).
Proof.
  intros [Hb Hm] [Hc Hh He Hs Hl Hmod] Hlv. unfold klog_store_entry.
  rewrite buf_store_ok by (simpl; lia). eexists. split; [done|]. split; [constructor; simpl; rewrite ?length_insert; done|].
  split; [done|]. constructor; simpl; try done.
  - case_match eqn:E; bool_prop; lia.
  - by apply Nat.mod_upper_bound.
  - unfold recorded. simpl klog_buffer. simpl klog_head. simpl klog_count.
    pose proof (ring_store (klog_buffer s) (klog_head s) (klog_count s)
      (Entry (klog_sequence s) (u8 l) (string_copy CONFIG_KLOG_MODULE_NAME_LEN (Some tag)) (take (CONFIG_KLOG_ENTRY_LEN - 1) message)) Hb Hh Hc) as H.
    simpl in H. unfold recorded in He. rewrite He, newest_snoc in H. etransitivity; [exact H|]. do 3 f_equal.
    unfold a_entry. rewrite Hs, u8_small by (unfold KLOG_DEBUG, KLOG_ERROR in *; lia). f_equal.
    unfold clamp_level. rewrite (proj2 (Z.ltb_ge _ _)), (proj2 (Z.ltb_ge _ _)) by lia. done.
  - rewrite length_app, Hs. unfold u32. simpl. rewrite Nat2Z.inj_add, Zplus_mod_idemp_l. done.
Qed.

Lemma copy_entries_ring b n i :
  length b = CONFIG_KLOG_CAPACITY → (n ≤ CONFIG_KLOG_CAPACITY)%nat →
  copy_entries b i n = Some (ring b (i mod CONFIG_KLOG_CAPACITY)%nat n).
Proof.
  unfold CONFIG_KLOG_CAPACITY. intros Hb. revert i. induction n as [|n IH]; intros i Hn; [done|]. cbn [copy_entries].
  assert (Hi : (i mod 128 < 128)%nat) by (by apply Nat.mod_upper_bound). unfold CONFIG_KLOG_CAPACITY.
  destruct (ring_pop b (i mod 128)%nat (S n)) as (x & Hx & ->); [lia..|]. rewrite Hx. cbn [mbind option_bind].
  rewrite (IH (S i)) by lia. cbn [mbind option_bind]. rewrite Hb, Nat.Div0.add_mod_idemp_l, Nat.add_1_r. simpl.
  by rewrite Nat.sub_0_r.
Qed.

Lemma copy_rel out n s a :
  log_rel s a → klog_ready s = true →
  klog_copy out n s = Some (if out then take n (newest CONFIG_KLOG_CAPACITY (accepted a)) else [], s).
Proof.
  intros [[Hb _] Hr] Hready. rewrite Hready in Hr. destruct Hr as [Hc Hh He _ _ _].
  unfold klog_copy, ensure_ready. rewrite Hready. destruct out; simpl; [|done].
  destruct (n =? 0)%nat eqn:E; bool_prop; [by subst|].
  set (k := if (n <? klog_count s)%nat then n else klog_count s).
  assert (k = Nat.min n (klog_count s)) as Hk. { subst k. case_match; bool_prop; lia. }
  rewrite copy_entries_ring by (subst; lia || done). cbn [mbind option_bind]. rewrite Nat.Div0.mod_mod.
  do 2 f_equal. rewrite <- He. unfold recorded, ring. rewrite take_take. f_equal. lia.
Qed.

(** ** Before the first use *)

Lemma modules_blank (t : list klog_module_entry) : length t = CONFIG_KLOG_MAX_MODULES → modules_rel ((fun _ => blank_module) <$> t) ∅.
Proof.
  intros Hl. constructor.
  - by rewrite length_fmap.
  - intros tag. rewrite lookup_empty. unfold level_at. destruct (first_index _ _) as [i|] eqn:E; [|done].
    apply level_at_Some in E as (e & He & Hp). apply list_lookup_fmap_Some in He as (? & -> & _). done.
  - rewrite map_size_empty. clear Hl. induction t as [|e t IH]; [done|]. rewrite fmap_cons, filter_cons. by rewrite decide_False.
Qed.

Lemma init_rel s : shape s → log_rel (klog_init s) a_start.
Proof.
  intros [Hb Hm]. split; [constructor; simpl; by rewrite length_fmap|]. simpl. constructor; simpl; try done.
  - unfold CONFIG_KLOG_CAPACITY. lia.
  - unfold CONFIG_KLOG_CAPACITY. lia.
  - by apply modules_blank.
Qed.

Lemma ensure_rel s a : log_rel s a → log_rel (ensure_ready s) a ∧ klog_ready (ensure_ready s) = true.
Proof.
  intros [Hs Hr]. unfold ensure_ready. destruct (klog_ready s) eqn:E.
  - split; [|done]. split; [done|]. by rewrite E.
  - subst a. split; [by apply init_rel|done].
Qed.

Lemma ensure_again s : ensure_ready (ensure_ready s) = ensure_ready s.
Proof. unfold ensure_ready. destruct (klog_ready s) eqn:E; [by rewrite E|done]. Qed.

Lemma ready_content s a : log_rel s a → klog_ready s = true → shape s ∧ content_rel s a.
Proof. intros [Hs Hr] E. rewrite E in Hr. done. Qed.

End KlogSpec.

Module KlogRun.

Import Arrays Bytes IpcSpec Klog KlogSpec.

(** ** The interface to the files *)

(** An append whose length does not make a 32-bit size test wrap. *)
Definition small (o : VfsRamfs.VfsRamfs.file_op) : Prop :=
  match o with VfsRamfs.VfsRamfs.FAppend d => Z.of_nat (length (default [] d)) < 4294967296 - 1024 | _ => True end.

(** The files and directories the kernel writes. *)
Definition system_paths : list cstring :=
  [lit "/System"; lit "/System/Logs"; log_sink_path LOG_SINK_KERNEL; log_sink_path LOG_SINK_NET; log_sink_path LOG_SINK_IPC;
   lit "/System/tasks"].

Class FilesReturn {W Ctx : Type} (v : Vfs.Vfs.vfs W Ctx) := {
  files_inv : W → Prop;
  files_do w path o :
    files_inv w → path ∈ system_paths → small o →
    ∃ r w', VfsRamfs.VfsRamfs.vfs_do v w path o = Some (r, w') ∧ files_inv w'
}.

Lemma buf_copy_returns src dst off :
  (off + length src ≤ length dst)%nat → ∃ b, buf_copy dst off src = Some b ∧ length b = length dst.
Proof. intros H. rewrite buf_copy_ok by done. eexists. split; [done|]. rewrite !length_app, length_take, length_drop. lia. Qed.

Lemma append_text_length cap t line : (length line < cap)%nat → (length (append_text cap t line) < cap)%nat.
Proof. intros. unfold append_text. rewrite length_app, length_take. lia. Qed.

Lemma log_line_length e : (length (log_line e) < LINE_CAP)%nat.
Proof. unfold log_line, append_char, append_u32, append_level_name. repeat apply append_text_length. by apply Nat.ltb_lt. Qed.

Lemma line_small e : small (VfsRamfs.VfsRamfs.FAppend (Some (log_line e))).
Proof. unfold small, default. pose proof (log_line_length e) as H. assert (LINE_CAP = 168%nat) as Hc by done. rewrite Hc in H. unfold id. lia. Qed.

Lemma sink_path_in k : log_sink_path k ∈ system_paths.
Proof. destruct k; by_eval. Qed.

Lemma clamp_level_range l : KLOG_DEBUG ≤ clamp_level l ≤ KLOG_ERROR.
Proof. unfold clamp_level, KLOG_DEBUG, KLOG_ERROR. cases; lia. Qed.

Lemma clamp_idem l : clamp_level (clamp_level l) = clamp_level l.
Proof. unfold clamp_level, KLOG_DEBUG, KLOG_ERROR. cases; lia. Qed.

Lemma service_pid_returns service (t : list service_entry) : length t = SYSTEM_SERVICE_COUNT → ∃ p, service_pid service t = Some p.
Proof.
  intros Ht. unfold service_pid, service_index. case_match eqn:E; [|by eexists].
  case_match; simplify_eq. destruct (lookup_lt_is_Some_2 t (Z.to_nat service)) as [e He].
  { bool_prop. rewrite Ht. unfold SYSTEM_SERVICE_COUNT in *. lia. }
  rewrite He. by eexists.
Qed.

Lemma service_channel_returns service k : kernel_ok k → ∃ c, Ipc.ipc_get_service_channel service k = Some c.
Proof.
  intros Hk. unfold Ipc.ipc_get_service_channel. case_match eqn:E; [by eexists|].
  apply lookup_lt_is_Some_2. rewrite (io_services _ (ko_ipc _ Hk)). bool_prop. unfold Ipc.IPC_SERVICE_COUNT in *. lia.
Qed.

Section run.
Context {W Ctx : Type} (v : Vfs.Vfs.vfs W Ctx) `{!FilesReturn v} (t : list service_entry) (stack : list Z).
Context (Hstack : length stack = EVENT_SIZE).
Implicit Types s : machine W Ctx.

Record machine_ok (s : machine W Ctx) : Prop := {
  mo_kernel : kernel_ok (kern s);
  mo_services : services s = t;
  mo_length : length t = SYSTEM_SERVICE_COUNT;
  mo_files : files s = v;
  mo_world : files_inv (world s)
}.

Definition sim (s : machine W Ctx) (a : alog) : Prop := machine_ok s ∧ log_rel (log s) a.

Lemma sim_log s a a' l : sim s a → log_rel l a' → sim (set_log l s) a'.
Proof. intros [[? ? ? ? ?] _] H. split; [by constructor|done]. Qed.

Lemma sim_kern s a k : sim s a → kernel_ok k → sim (set_kern k s) a.
Proof. intros [[? ? ? ? ?] H] Hk. split; [by constructor|done]. Qed.

Lemma sim_world s a w : sim s a → files_inv w → sim (set_world w s) a.
Proof. intros [[? ? ? ? ?] H] Hw. split; [by constructor|done]. Qed.

Lemma rel_sink b g d l a : log_rel l a → log_rel (set_sink b g d l) a.
Proof. intros [[? ?] H]. split; [by constructor|]. simpl. destruct (klog_ready l); [|done]. destruct H. by constructor. Qed.

Lemma rel_channel c l a : log_rel l a → log_rel (set_channel c l) a.
Proof. intros [[? ?] H]. split; [by constructor|]. simpl. destruct (klog_ready l); [|done]. destruct H. by constructor. Qed.

Lemma sim_ready s a : sim s a → sim (set_log (ensure_ready (log s)) s) a ∧ klog_ready (ensure_ready (log s)) = true.
Proof. intros H. destruct (ensure_rel (log s) a) as [Hr He]; [apply H|]. split; [by eapply sim_log|done]. Qed.

(** ** Publishing *)

Lemma event_ok sq l m txt : ∃ b, klog_ipc_event stack sq l m txt = Some b ∧ length b = EVENT_SIZE.
Proof.
  unfold klog_ipc_event.
  assert (Hcap : EVENT_SIZE = 128%nat) by done. rewrite Hcap in *.
  set (m' := string_copy _ _). set (t' := take _ txt).
  assert (Hm : (length m' ≤ 23)%nat) by (unfold m', string_copy, CONFIG_KLOG_MODULE_NAME_LEN; rewrite length_take; lia).
  assert (Ht : (length t' ≤ 95)%nat) by (unfold t', CONFIG_KLOG_ENTRY_LEN; rewrite length_take; lia).
  destruct (buf_copy_returns (le32 sq ++ [l; 0; 0; 0]) stack 0) as (b1 & -> & L1); [rewrite length_app; simpl; lia|]. cbn [mbind option_bind].
  destruct (buf_copy_returns (m' ++ [0]) b1 8) as (b2 & -> & L2); [rewrite length_app; simpl; lia|]. cbn [mbind option_bind].
  destruct (buf_copy_returns (t' ++ [0]) b2 (8 + CONFIG_KLOG_MODULE_NAME_LEN)) as (b3 & -> & L3).
  { rewrite length_app. unfold CONFIG_KLOG_MODULE_NAME_LEN. simpl. lia. }
  exists b3. split; [done|lia].
Qed.

Lemma publish_sim sq l m txt s a : sim s a → ∃ s', klog_publish_channel stack sq l m txt s = Some s' ∧ sim s' a.
Proof.
  intros Hs. unfold klog_publish_channel. destruct (negb _); [by exists s|].
  destruct (event_ok sq l m txt) as (b & -> & Hb). cbn [mbind option_bind].
  destruct (service_pid_returns SYSTEM_SERVICE_LOGD (services s)) as [p ->]; [rewrite (mo_services _ (proj1 Hs)); apply Hs|]. cbn [mbind option_bind].
  assert (Hsend : ∃ sent s1, (if 0 <? p then '(rc, k) ← Ipc.ipc_send p (Some b) (Z.of_nat EVENT_SIZE) (kern s); Some (0 <=? rc, set_kern k s)
                  else Some (false, s)) = Some (sent, s1) ∧ sim s1 a).
  { destruct (0 <? p); [|by exists false, s].
    destruct (IpcRun.send_step p (Some b) (Z.of_nat EVENT_SIZE) (kern s)) as (rc & k & -> & Hk); [apply Hs| |].
    { split; [lia|]. intros ? [= <-]. lia. }
    eexists _, _. split; [done|]. by apply sim_kern. }
  destruct Hsend as (sent & s1 & -> & Hs1). cbn [mbind option_bind]. destruct sent; [by exists s1|].
  assert (Hch : ∃ s2, (if logger_channel_id (log s1) <? 0
           then c ← Ipc.ipc_get_service_channel IPC_SERVICE_LOGGER (kern s1); Some (set_log (set_channel c (log s1)) s1)
           else Some s1) = Some s2 ∧ sim s2 a).
  { destruct (_ <? 0); [|by exists s1].
    destruct (service_channel_returns IPC_SERVICE_LOGGER (kern s1)) as [c ->]; [apply Hs1|]. eexists. split; [done|].
    eapply sim_log; [done|]. apply rel_channel, Hs1. }
  destruct Hch as (s2 & -> & Hs2). cbn [mbind option_bind]. destruct (0 <=? _); [|by exists s2].
  destruct (IpcRun.channel_send_step (logger_channel_id (log s2)) 0 l 0 (Some b) (Z.of_nat EVENT_SIZE) 0 (kern s2)) as (rc & k & -> & Hk);
    [apply Hs2|simpl; lia|].
  eexists. split; [done|]. by apply sim_kern.
Qed.

(** ** The log files *)

(** One call of a file operation, from a state that has the files. *)
Lemma file_step s a path o :
  sim s a → path ∈ system_paths → small o →
  ∃ r w, VfsRamfs.VfsRamfs.vfs_do (files s) (world s) path o = Some (r, w) ∧ sim (set_world w s) a.
Proof.
  intros Hs Hp Ho. destruct Hs as [Hm Hl]. rewrite (mo_files _ Hm).
  destruct (files_do (world s) path o (mo_world _ Hm) Hp Ho) as (r & w & E & Hw). exists r, w. split; [done|].
  by apply sim_world.
Qed.

Lemma ensure_logs_sim s a : sim s a → ∃ s', ensure_logs_directory s = Some s' ∧ sim s' a.
Proof.
  intros Hs. unfold ensure_logs_directory. destruct (logs_directory_ready _); [by exists s|].
  destruct (file_step s a (lit "/System") VfsRamfs.VfsRamfs.FMkdir Hs) as (r & w & E & H1); [by_eval|done|].
  cbn [VfsRamfs.VfsRamfs.vfs_do] in E. rewrite E. cbn [mbind option_bind].
  destruct (file_step _ a (lit "/System/Logs") VfsRamfs.VfsRamfs.FMkdir H1) as (r2 & w2 & E2 & H2); [by_eval|done|].
  cbn [VfsRamfs.VfsRamfs.vfs_do files world set_world] in E2. rewrite E2. cbn [mbind option_bind]. eexists. split; [done|]. eapply (sim_log (set_world w2 s)); [exact H2|].
  apply rel_sink, Hs.
Qed.

Lemma clear_sinks_sim s a : sim s a → ∃ s', clear_sinks s = Some s' ∧ sim s' a.
Proof.
  intros Hs. unfold clear_sinks.
  destruct (file_step s a _ (VfsRamfs.VfsRamfs.FWrite None) Hs (sink_path_in LOG_SINK_KERNEL) I) as (r & w & E & H1).
  cbn [VfsRamfs.VfsRamfs.vfs_do] in E. rewrite E. cbn [mbind option_bind].
  destruct (file_step _ a _ (VfsRamfs.VfsRamfs.FWrite None) H1 (sink_path_in LOG_SINK_NET) I) as (r2 & w2 & E2 & H2).
  cbn [VfsRamfs.VfsRamfs.vfs_do files world set_world] in E2. rewrite E2. cbn [mbind option_bind].
  destruct (file_step _ a _ (VfsRamfs.VfsRamfs.FWrite None) H2 (sink_path_in LOG_SINK_IPC) I) as (r3 & w3 & E3 & H3).
  cbn [VfsRamfs.VfsRamfs.vfs_do files world set_world] in E3. rewrite E3. cbn [mbind option_bind].
  eexists. split; [done|exact H3].
Qed.

Lemma append_lines_sim l s a : sim s a → ∃ s', append_lines l s = Some s' ∧ sim s' a.
Proof.
  revert s. induction l as [|e l IH]; intros s Hs; [by exists s|]. cbn [append_lines].
  destruct (file_step s a _ _ Hs (sink_path_in (classify_log_sink (module e) (text e))) (line_small e)) as (r & w & E & H1).
  cbn [VfsRamfs.VfsRamfs.vfs_do] in E. rewrite E. cbn [mbind option_bind].
  destruct (file_step _ a _ (VfsRamfs.VfsRamfs.FAppend (Some [newline])) H1 (sink_path_in (classify_log_sink (module e) (text e)))) as (r2 & w2 & E2 & H2);
    [by compute|].
  cbn [VfsRamfs.VfsRamfs.vfs_do files world set_world] in E2. rewrite E2. cbn [mbind option_bind]. apply IH. exact H2.
Qed.

Lemma guard_sim b s a : sim s a → sim (set_guard b s) a.
Proof. intros Hs. eapply sim_log; [done|]. apply rel_sink, Hs. Qed.

Lemma refresh_sim s a : sim s a → ∃ s', klog_refresh_proc_sink s = Some s' ∧ sim s' a.
Proof.
  intros Hs. unfold klog_refresh_proc_sink. destruct (negb _); [by exists s|]. destruct (proc_sink_guard _); [by exists s|].
  apply (guard_sim true) in Hs. set (s1 := set_guard true s) in *. clearbody s1.
  destruct (sim_ready s1 a Hs) as [H1 Hr].
  pose proof (copy_rel true CONFIG_KLOG_CAPACITY (ensure_ready (log s1)) a (proj2 H1) Hr) as Hc.
  unfold klog_copy in *. rewrite ensure_again in Hc. rewrite Hc. cbn [mbind option_bind].
  destruct (ensure_logs_sim _ _ H1) as (s2 & -> & H2). cbn [mbind option_bind].
  destruct (clear_sinks_sim _ _ H2) as (s3 & -> & H3). cbn [mbind option_bind].
  destruct (append_lines_sim (take CONFIG_KLOG_CAPACITY (newest CONFIG_KLOG_CAPACITY (accepted a))) _ _ H3) as (s4 & -> & H4).
  cbn [mbind option_bind]. eexists. split; [done|]. by apply guard_sim.
Qed.

Lemma refresh_if_sim b s a : sim s a → ∃ s', (if b : bool then klog_refresh_proc_sink s else Some s) = Some s' ∧ sim s' a.
Proof. intros Hs. destruct b; [by apply refresh_sim|by exists s]. Qed.

(** ** The functions of the log *)

Lemma emit_sim m l message s a :
  sim s a → ∃ s', klog_emit_tagged stack m l (Some message) s = Some s' ∧ sim s' (a_emit m l message a).
Proof.
  intros Hs. destruct (sim_ready s a Hs) as [H1 Hr]. unfold klog_emit_tagged, a_emit.
  set (s1 := set_log _ s) in *. destruct (ready_content (log s1) a) as [Hsh Hc]; [apply H1|done|].
  rewrite (threshold_rel m (log s1) a) by apply Hc. destruct (l <? _); [by exists s1|].
  destruct (store_rel (sanitize_module m) (clamp_level l) message (log s1) a Hsh Hc (clamp_level_range l)) as (lg & -> & Hsh' & Hr' & Hc').
  cbn [mbind option_bind]. unfold a_entry in Hc'. rewrite clamp_idem in Hc'.
  assert (H2 : sim (set_log lg s1) (ALog (accepted a ++ [a_entry (sanitize_module m) l message a]) (a_level a) (a_modules a))).
  { eapply sim_log; [done|]. split; [done|]. assert (Hr1 : klog_ready (log s1) = true) by exact Hr. rewrite Hr', Hr1. exact Hc'. }
  destruct (publish_sim (klog_sequence (log s1)) (u8 (clamp_level l)) (string_copy CONFIG_KLOG_MODULE_NAME_LEN (Some (sanitize_module m)))
    (take (CONFIG_KLOG_ENTRY_LEN - 1) message) _ _ H2) as (s3 & -> & H3).
  cbn [mbind option_bind]. by apply refresh_if_sim.
Qed.

Lemma set_level_rel l (lg : klog) a : log_rel lg a → log_rel (klog_set_level l lg) (ALog (accepted a) (clamp_level l) (a_modules a)).
Proof.
  intros H. destruct (ensure_rel lg a H) as [[[? ?] Hc] Hr]. unfold klog_set_level. split; [by constructor|].
  simpl. rewrite Hr in *. destruct Hc. by constructor.
Qed.

Lemma module_set_sim m l s a :
  sim s a → (length (sanitize_module m) < CONFIG_KLOG_MODULE_NAME_LEN)%nat →
  ∃ s', klog_module_set_level m l s = Some ((a_module_set m l a).1, s') ∧ sim s' (a_module_set m l a).2.
Proof.
  intros Hs Hlen. destruct (sim_ready s a Hs) as [H1 Hr]. unfold klog_module_set_level, a_module_set.
  set (s1 := set_log _ s) in *. destruct (ready_content (log s1) a) as [Hsh Hc]; [apply H1|done|].
  set (l' := if l =? KLOG_LEVEL_INHERIT then l else clamp_level l).
  pose proof (modules_set (sanitize_module m) l' _ _ (cr_modules _ _ Hc) Hlen) as Hm.
  assert (sanitize_module m ≠ []) as Hne by (by destruct m as [[|? ?]|]). specialize (Hm Hne).
  destruct (_ || _).
  - destruct Hm as (i & e & tb & -> & He & Hm). rewrite He. cbn [mbind option_bind].
    edestruct refresh_if_sim as (s3 & E & H3); [|rewrite E; eexists; split; [done|exact H3]].
    eapply sim_log; [done|]. split; [constructor; [apply Hsh|apply Hm]|]. simpl. rewrite Hr. destruct Hc. by constructor.
  - rewrite Hm. by exists s1.
Qed.

(** ** Runs *)

Inductive log_op :=
| LInit
| LSetLevel (l : Z)
| LGetLevel
| LModuleSet (m : option cstring) (l : Z)
| LModuleGet (m : option cstring)
| LEmit (m : option cstring) (l : Z) (message : option cstring)
| LCopy (out : bool) (n : nat)
| LEnableSink
| LRefresh.

(** What a call returns: nothing, an integer or the entries copied. *)
Inductive log_result := RNone | RInt (z : Z) | REntries (l : list klog_entry).

Definition on_log {A} (f : klog → A * klog) (r : A → log_result) s : option (log_result * machine W Ctx) :=
  let '(x, l) := f (log s) in Some (r x, set_log l s).

Definition exec (o : log_op) s : option (log_result * machine W Ctx) :=
  match o with
  | LInit => Some (RNone, set_log (klog_init (log s)) s)
  | LSetLevel l => Some (RNone, set_log (klog_set_level l (log s)) s)
  | LGetLevel => on_log klog_get_level RInt s
  | LModuleSet m l => '(r, s) ← klog_module_set_level m l s; Some (RInt r, s)
  | LModuleGet m => on_log (klog_module_get_level m) RInt s
  | LEmit m l message => s ← klog_emit_tagged stack m l message s; Some (RNone, s)
  | LCopy out n => '(l, lg) ← klog_copy out n (log s); Some (REntries l, set_log lg s)
  | LEnableSink => s ← klog_enable_proc_sink s; Some (RNone, s)
  | LRefresh => s ← klog_refresh_proc_sink s; Some (RNone, s)
  end.

Definition a_exec (o : log_op) (a : alog) : log_result * alog :=
  match o with
  | LInit => (RNone, a_start)
  | LSetLevel l => (RNone, ALog (accepted a) (clamp_level l) (a_modules a))
  | LGetLevel => (RInt (a_level a), a)
  | LModuleSet m l => let '(r, a) := a_module_set m l a in (RInt r, a)
  | LModuleGet m => (RInt (default KLOG_LEVEL_INHERIT (a_modules a !! sanitize_module m)), a)
  | LEmit m l message => (RNone, from_option (fun t => a_emit m l t a) a message)
  | LCopy out n => (REntries (if out then take n (newest CONFIG_KLOG_CAPACITY (accepted a)) else []), a)
  | LEnableSink | LRefresh => (RNone, a)
  end.

(** A module's level is set under a name that fits its entry. *)
Definition op_ok (o : log_op) : Prop :=
  match o with LModuleSet m _ => (length (sanitize_module m) < CONFIG_KLOG_MODULE_NAME_LEN)%nat | _ => True end.

Fixpoint run (os : list log_op) s : option (list log_result * machine W Ctx) :=
  match os with
  | [] => Some ([], s)
  | o :: os' => '(r, s) ← exec o s; '(rs, s) ← run os' s; Some (r :: rs, s)
  end.

Fixpoint a_run (os : list log_op) (a : alog) : list log_result * alog :=
  match os with
  | [] => ([], a)
  | o :: os' => let '(r, a) := a_exec o a in let '(rs, a) := a_run os' a in (r :: rs, a)
  end.

Lemma exec_sim o s a : sim s a → op_ok o → ∃ s', exec o s = Some ((a_exec o a).1, s') ∧ sim s' (a_exec o a).2.
Proof.
  intros Hs Ho. destruct (sim_ready s a Hs) as [H1 Hr].
  destruct (ready_content _ _ (proj2 H1) Hr) as [Hsh Hc].
  destruct o as [|l| |m l|m|m l [txt|]|out n| |]; cbn [exec a_exec fst snd from_option].
  - eexists. split; [done|]. eapply sim_log; [done|]. apply init_rel, Hs.
  - eexists. split; [done|]. eapply sim_log; [done|]. apply set_level_rel, Hs.
  - eexists. split; [|exact H1]. unfold on_log. simpl. f_equal. f_equal. f_equal. apply Hc.
  - destruct (module_set_sim m l s a Hs Ho) as (s' & -> & H'). cbn [mbind option_bind].
    destruct (a_module_set m l a). eexists. split; [done|done].
  - eexists. split; [|exact H1]. unfold on_log. simpl. f_equal. f_equal. f_equal. apply (module_level_rel _ _ a), Hc.
  - destruct (emit_sim m l txt s a Hs) as (s' & -> & H'). by exists s'.
  - by eexists.
  - pose proof (copy_rel out n _ a (proj2 H1) Hr) as E. cbn [set_log log] in E. unfold klog_copy in *.
    rewrite ensure_again in E. rewrite E. cbn [mbind option_bind]. by eexists.
  - unfold klog_enable_proc_sink. edestruct refresh_sim as (s' & E & H'); [|rewrite E; eexists; split; [done|exact H']].
    eapply sim_log; [done|]. apply rel_sink, Hs.
  - destruct (refresh_sim s a Hs) as (s' & -> & H'). by exists s'.
Qed.

Lemma run_sim os s a : sim s a → Forall op_ok os → ∃ s', run os s = Some ((a_run os a).1, s') ∧ sim s' (a_run os a).2.
Proof.
  intros Hs Ho. revert s a Hs. induction Ho as [|o os Ho _ IH]; intros s a Hs; [by exists s|]. cbn [run a_run].
  destruct (exec_sim o s a Hs Ho) as (s1 & -> & H1). cbn [mbind option_bind]. destruct (a_exec o a) as [r a1]. cbn [fst snd] in *.
  destruct (IH s1 a1 H1) as (s2 & -> & H2). cbn [mbind option_bind]. destruct (a_run os a1) as [rs a2]. by exists s2.
Qed.

End run.

End KlogRun.
