(* ===== verification/KlogFiles.v ===== *)
(** The log files.  The tree the kernel boots with serves the paths of the log from its
    RAMFS volume for [/System], which discharges [FilesReturn]; and what the files
    hold after a refresh. *)

From S2P Require Import Prelude Arrays Bytes Sched Ipc IpcSpec IpcRun Block Klog KlogRun.
From S2P Require Import VfsPath Ramfs RamfsSpec Vfs VfsSpec VfsRamfs.

Module KlogFiles.

Import Klog KlogSpec KlogRun.

#[export] Instance sink_eq_dec : EqDecision log_sink_kind.
Proof. solve_decision. Defined.

Section boot.
Context {W Ctx : Type} {HR : Vfs.HasRamfs W Ctx} (devicefs_ops : Vfs.vfs_fs_ops W Ctx).

Definition boot_tree : Vfs.vfs W Ctx := VfsRamfs.boot_vfs (VfsRamfs.boot_mounts devicefs_ops) (Some 0%nat) true.

Definition system_mount : Vfs.vfs_mount W Ctx := VfsRamfs.mounted_slot (lit "/System") Vfs.ramfs_ops (Vfs.volume_ctx Vfs.SystemVolume).

Definition system_rel : list cstring :=
  [[]; lit "Logs"; lit "Logs/kernel.log"; lit "Logs/net.log"; lit "Logs/ipc.log"; lit "tasks"].

Lemma system_locate : Forall2 (fun p r => Vfs.locate boot_tree p = Some (1%nat, r)) system_paths system_rel.
Proof.
  unfold boot_tree, VfsRamfs.boot_mounts. generalize (Vfs.ramfs_ops : Vfs.vfs_fs_ops W Ctx) as ops. intros ops.
  repeat (apply Forall2_cons; split; [vm_compute; reflexivity|]). constructor.
Qed.

Lemma rel_wf r : r ∈ system_rel → wf_cstr r.
Proof. assert (Forall wf_cstr system_rel) as Hf by by_eval. rewrite Forall_forall in Hf. auto. Qed.

(** One operation on a path of the log is one operation of the abstract file system. *)
Lemma system_do w p r o :
  Vfs.locate boot_tree p = Some (1%nat, r) → r ∈ system_rel → RamfsSpec.wf (Vfs.get_volume w Vfs.SystemVolume) → small o →
  ∃ rc w', VfsRamfs.vfs_do boot_tree w p o = Some (rc, w') ∧ RamfsSpec.wf (Vfs.get_volume w' Vfs.SystemVolume) ∧
    RamfsSpec.spec_exec (RamfsSpec.abs (Vfs.get_volume w Vfs.SystemVolume)) (VfsRamfs.abstract_op o r) =
      (rc, RamfsSpec.abs (Vfs.get_volume w' Vfs.SystemVolume)) ∧
    ∀ j, j ≠ Vfs.SystemVolume → Vfs.get_volume w' j = Vfs.get_volume w j.
Proof.
  intros Hl Hr Hw Ho. rewrite (VfsRamfs.vfs_do_call boot_tree w p o 1 r system_mount Vfs.ramfs_ops) by done.
  apply (VfsRamfs.ramfs_call_refines Vfs.SystemVolume); [done|]. pose proof (rel_wf r Hr). by destruct o.
Qed.

#[export] Program Instance boot_files : FilesReturn boot_tree := {
  files_inv w := RamfsSpec.wf (Vfs.get_volume w Vfs.SystemVolume)
}.
Next Obligation.
  intros w path o Hw Hp Ho. apply list_elem_of_lookup in Hp as [i Hi].
  destruct (Forall2_lookup_l _ _ _ _ _ system_locate Hi) as (r & Hr & Hl).
  destruct (system_do w path r o Hl) as (rc & w' & E & Hw' & _); [by eapply list_elem_of_lookup_2|done..|]. eauto.
Qed.

(** An operation of a RAMFS mount changes nothing but RAMFS volumes. *)
Lemma on_volume_frame f (w : W) ctx r w' : Vfs.on_volume f w ctx = Some (r, w') → w' = w ∨ ∃ x, w' = Vfs.with_ramfs x w.
Proof.
  unfold Vfs.on_volume. destruct (Vfs.as_volume ctx); [|intros [= _ <-]; by left]. intros ([rc vol] & _ & E)%bind_Some.
  injection E as _ <-. right. by eexists.
Qed.

Lemma ramfs_frame ctx (w : W) rel o r w' : VfsRamfs.call_op Vfs.ramfs_ops ctx w rel o = Some (r, w') → w' = w ∨ ∃ x, w' = Vfs.with_ramfs x w.
Proof.
  destruct o; cbn [VfsRamfs.call_op Vfs.ramfs_ops Vfs.op_write Vfs.op_remove Vfs.op_mkdir from_option];
    unfold Vfs.ramfs_write_adapter, Vfs.ramfs_remove_adapter, Vfs.ramfs_mkdir_adapter; (case_match; [intros [= _ <-]; by left|]); apply on_volume_frame.
Qed.

(** ** What the files hold *)

Definition sink_rel (k : log_sink_kind) : cstring :=
  match k with
  | LOG_SINK_KERNEL => lit "Logs/kernel.log"
  | LOG_SINK_NET => lit "Logs/net.log"
  | LOG_SINK_IPC => lit "Logs/ipc.log"
  end.

Lemma sink_locate k : Vfs.locate boot_tree (log_sink_path k) = Some (1%nat, sink_rel k).
Proof. pose proof system_locate as H. unfold system_paths, system_rel in H. destruct k; by decompose_Forall_hyps. Qed.

Lemma dir_locate : Vfs.locate boot_tree (lit "/System") = Some (1%nat, []) ∧ Vfs.locate boot_tree (lit "/System/Logs") = Some (1%nat, lit "Logs").
Proof. pose proof system_locate as H. unfold system_paths, system_rel in H. by decompose_Forall_hyps. Qed.

Lemma sink_rel_in k : sink_rel k ∈ system_rel.
Proof. destruct k; by_eval. Qed.

(** A file takes an append only when it stays below 1024 bytes. *)
Definition fit (c b : list Z) : list Z := if (1024 <=? length c + length b)%nat then c else c ++ b.

(** A line and its end are appended one after the other. *)
Definition sink_text (k : log_sink_kind) (l : list klog_entry) : list Z :=
  foldl (fun c e => if bool_decide (classify_log_sink (module e) (text e) = k) then fit (fit c (log_line e)) [newline] else c) [] l.

Implicit Types (f g : RamfsSpec.fs) (s : machine W Ctx).

Lemma append_file f p c b :
  Ramfs.path_is_valid p = true → f !! p = Some (RamfsSpec.File c) → b ≠ [] →
  (RamfsSpec.spec_append f p b).2 = <[p := RamfsSpec.File (fit c b)]> f.
Proof.
  intros Hp Hf Hb. unfold RamfsSpec.spec_append, RamfsSpec.spec_create, fit. rewrite Hp, Hf. destruct b as [|x b]; [done|].
  cbn [negb length]. rewrite (proj2 (Nat.eqb_neq _ 0)) by lia. rewrite Hf. case_match; [|done]. simpl. by rewrite insert_id.
Qed.

Lemma clear_file f p :
  Ramfs.path_is_valid p = true → RamfsSpec.parent_ok f p = true → (base.size f < 32)%nat → f !! p ≠ Some RamfsSpec.Dir →
  (RamfsSpec.spec_write f p None).2 = <[p := RamfsSpec.File []]> f.
Proof.
  intros Hp Hpar Hs Hf. unfold RamfsSpec.spec_write, RamfsSpec.spec_create. rewrite Hp. cbn [negb].
  destruct (f !! p) as [[|c]|] eqn:E; [done|done|]. rewrite Hpar, bool_decide_true by done. simpl. by rewrite insert_insert_eq.
Qed.

(** The files of a state: the boot tree with [f] on the [/System] volume, and the other
    volumes as in [w0]. *)
Record holds (w0 : W) s f : Prop := {
  ho_tree : files s = boot_tree;
  ho_wf : RamfsSpec.wf (Vfs.get_volume (world s) Vfs.SystemVolume);
  ho_abs : RamfsSpec.abs (Vfs.get_volume (world s) Vfs.SystemVolume) = f;
  ho_rest j : j ≠ Vfs.SystemVolume → Vfs.get_volume (world s) j = Vfs.get_volume w0 j
}.

Lemma holds_log w0 s f l : holds w0 s f → holds w0 (set_log l s) f.
Proof. intros []. by constructor. Qed.

Lemma holds_step w0 s f p r o :
  holds w0 s f → Vfs.locate boot_tree p = Some (1%nat, r) → r ∈ system_rel → small o →
  ∃ rc w, VfsRamfs.vfs_do (files s) (world s) p o = Some (rc, w) ∧
    holds w0 (set_world w s) (RamfsSpec.spec_exec f (VfsRamfs.abstract_op o r)).2.
Proof.
  intros [Ht Hw Ha Hr] Hl Hin Ho. rewrite Ht. destruct (system_do (world s) p r o Hl Hin Hw Ho) as (rc & w & E & Hw' & Hx & Hj).
  exists rc, w. split; [done|]. rewrite Ha in Hx. constructor; simpl; [done|done|by rewrite Hx|].
  intros j Hne. rewrite Hj by done. by apply Hr.
Qed.

(** Every path but those of the log. *)
Definition log_paths : list cstring := lit "Logs" :: (sink_rel <$> [LOG_SINK_KERNEL; LOG_SINK_NET; LOG_SINK_IPC]).
Definition same_elsewhere f g : Prop := ∀ q, q ∉ log_paths → g !! q = f !! q.

Definition sinks_hold g (c : log_sink_kind → list Z) : Prop := ∀ k, g !! sink_rel k = Some (RamfsSpec.File (c k)).

Lemma sink_rel_inj k k' : sink_rel k = sink_rel k' → k = k'.
Proof. by destruct k, k'. Qed.

Lemma sink_in_paths k : sink_rel k ∈ log_paths.
Proof. destruct k; by_eval. Qed.

Lemma sinks_insert g c k t :
  sinks_hold g c → sinks_hold (<[sink_rel k := RamfsSpec.File t]> g) (fun k' => if decide (k' = k) then t else c k').
Proof.
  intros H' k'. rewrite lookup_insert. destruct (decide (k' = k)) as [->|Hne]; [by rewrite decide_True|].
  rewrite decide_False by (intros E; by apply sink_rel_inj in E). apply H'.
Qed.

Lemma elsewhere_insert f g k n : same_elsewhere f g → same_elsewhere f (<[sink_rel k := n]> g).
Proof. intros H' q Hq. rewrite lookup_insert_ne; [by apply H'|]. intros E. apply Hq. rewrite <- E. apply sink_in_paths. Qed.

Lemma sink_valid k : Ramfs.path_is_valid (sink_rel k) = true.
Proof. by destruct k. Qed.

Lemma log_line_nonempty e : log_line e ≠ [].
Proof.
  assert (Hh : ∀ cap t l, l ≠ [] → append_text cap t l ≠ []) by (intros cap t [|x l] Hl; [done|unfold append_text; done]).
  unfold log_line, append_char, append_u32, append_level_name. do 11 apply Hh. vm_compute. done.
Qed.

Lemma append_lines_holds l w0 s g c :
  holds w0 s g → sinks_hold g c →
  ∃ s' g', append_lines l s = Some s' ∧ holds w0 s' g' ∧ log s' = log s ∧ same_elsewhere g g' ∧ g' !! lit "Logs" = g !! lit "Logs" ∧
    sinks_hold g' (fun k => foldl (fun c e => if bool_decide (classify_log_sink (module e) (text e) = k)
                                              then fit (fit c (log_line e)) [newline] else c) (c k) l).
Proof.
  revert s g c. induction l as [|e l IH]; intros s g c Hs Hc; [by exists s, g|]. cbn [append_lines].
  set (k := classify_log_sink (module e) (text e)).
  destruct (holds_step w0 s g (log_sink_path k) (sink_rel k) (VfsRamfs.FAppend (Some (log_line e))) Hs (sink_locate k) (sink_rel_in k) (line_small e))
    as (rc & w & E & H1).
  cbn [VfsRamfs.vfs_do] in E. rewrite E. cbn [mbind option_bind].
  cbn [VfsRamfs.abstract_op RamfsSpec.spec_exec] in H1. rewrite (append_file g _ (c k)) in H1; [|apply sink_valid|apply Hc|apply log_line_nonempty].
  pose proof (sinks_insert g c k (fit (c k) (log_line e)) Hc) as Hc1.
  destruct (holds_step w0 _ _ (log_sink_path k) (sink_rel k) (VfsRamfs.FAppend (Some [newline])) H1 (sink_locate k) (sink_rel_in k))
    as (rc2 & w2 & E2 & H2); [by compute|].
  cbn [VfsRamfs.vfs_do files world set_world] in E2. rewrite E2. cbn [mbind option_bind].
  cbn [VfsRamfs.abstract_op RamfsSpec.spec_exec] in H2.
  rewrite (append_file _ _ (fit (c k) (log_line e))) in H2; [|apply sink_valid|by rewrite lookup_insert_eq|done].
  pose proof (sinks_insert _ _ k (fit (fit (c k) (log_line e)) [newline]) Hc1) as Hc2.
  destruct (IH _ _ _ H2 Hc2) as (s' & g' & E' & H' & Hlog & Hse & Hlg & Hsk). exists s', g'. split; [done|]. split; [done|].
  split; [done|]. split.
  { intros q Hq. rewrite Hse by done. exact (elsewhere_insert g _ k _ (elsewhere_insert g g k _ (fun _ _ => eq_refl)) q Hq). }
  split; [by rewrite Hlg, !lookup_insert_ne by (by destruct (classify_log_sink _ _))|]. intros k'. rewrite Hsk. simpl. fold k. do 2 f_equal.
  destruct (decide (k' = k)) as [->|Hne]; [by rewrite bool_decide_true|]. by rewrite bool_decide_false.
Qed.

Lemma size_insert_le g p n : (base.size (<[p := n]> g) ≤ S (base.size g))%nat.
Proof. rewrite map_size_insert. case_match; simpl; lia. Qed.

Lemma sink_parent g k : g !! lit "Logs" = Some RamfsSpec.Dir → RamfsSpec.parent_ok g (sink_rel k) = true.
Proof.
  intros Hg. unfold RamfsSpec.parent_ok. assert (Ramfs.last_slash_from (sink_rel k) 0 None = Some 4%nat) as -> by (by destruct k).
  assert (take 4 (sink_rel k) = lit "Logs") as -> by (by destruct k). by rewrite Hg.
Qed.

Lemma clear_step w0 s g k :
  holds w0 s g → g !! lit "Logs" = Some RamfsSpec.Dir → (base.size g < 32)%nat → g !! sink_rel k ≠ Some RamfsSpec.Dir →
  ∃ rc w, Vfs.vfs_write_file (files s) (world s) (Some (log_sink_path k)) None = Some (rc, w) ∧
    holds w0 (set_world w s) (<[sink_rel k := RamfsSpec.File []]> g).
Proof.
  intros Hs Hl Hsz Hd.
  destruct (holds_step w0 s g (log_sink_path k) (sink_rel k) (VfsRamfs.FWrite None) Hs (sink_locate k) (sink_rel_in k) I) as (rc & w & E & H1).
  exists rc, w. split; [exact E|]. cbn [VfsRamfs.abstract_op RamfsSpec.spec_exec] in H1.
  rewrite clear_file in H1; [done|apply sink_valid|by apply sink_parent|done..].
Qed.

(** The directory is there, and there is room for the three files. *)
Record sinks_room g : Prop := {
  rm_dir : g !! lit "Logs" = Some RamfsSpec.Dir;
  rm_size : (base.size g ≤ 29)%nat;
  rm_files k : g !! sink_rel k ≠ Some RamfsSpec.Dir
}.

Lemma room_insert g k : g !! lit "Logs" = Some RamfsSpec.Dir → <[sink_rel k := RamfsSpec.File []]> g !! lit "Logs" = Some RamfsSpec.Dir.
Proof. intros Hg. rewrite lookup_insert_ne by (by destruct k). done. Qed.

Lemma files_insert g k : (∀ k', g !! sink_rel k' ≠ Some RamfsSpec.Dir) → ∀ k', <[sink_rel k := RamfsSpec.File []]> g !! sink_rel k' ≠ Some RamfsSpec.Dir.
Proof. intros Hg k'. rewrite lookup_insert. by case_decide. Qed.

Lemma clear_sinks_holds w0 s g :
  holds w0 s g → sinks_room g →
  ∃ s' g', clear_sinks s = Some s' ∧ holds w0 s' g' ∧ log s' = log s ∧ same_elsewhere g g' ∧ g' !! lit "Logs" = g !! lit "Logs" ∧
    sinks_hold g' (fun _ => []).
Proof.
  intros Hs [Hd Hsz Hf]. unfold clear_sinks. set (F := RamfsSpec.File []).
  set (g1 := <[sink_rel LOG_SINK_KERNEL := F]> g). set (g2 := <[sink_rel LOG_SINK_NET := F]> g1). set (g3 := <[sink_rel LOG_SINK_IPC := F]> g2).
  pose proof (size_insert_le g (sink_rel LOG_SINK_KERNEL) F). pose proof (size_insert_le g1 (sink_rel LOG_SINK_NET) F).
  destruct (clear_step w0 s g LOG_SINK_KERNEL) as (r1 & w1 & -> & H1); [done..|lia|apply Hf|]. cbn [mbind option_bind].
  pose proof (room_insert g LOG_SINK_KERNEL Hd) as Hd1. pose proof (files_insert g LOG_SINK_KERNEL Hf) as Hf1. fold F g1 in Hd1, Hf1.
  pose proof (room_insert g1 LOG_SINK_NET Hd1) as Hd2. pose proof (files_insert g1 LOG_SINK_NET Hf1) as Hf2. fold F g2 in Hd2, Hf2.
  destruct (clear_step w0 _ g1 LOG_SINK_NET H1) as (r2 & w2 & E2 & H2); [done|unfold g1; lia|apply Hf1|].
  cbn [files world set_world] in E2. rewrite E2. cbn [mbind option_bind].
  destruct (clear_step w0 _ g2 LOG_SINK_IPC H2) as (r3 & w3 & E3 & H3); [done|unfold g2, g1 in *; lia|apply Hf2|].
  cbn [files world set_world] in E3. rewrite E3. cbn [mbind option_bind].
  eexists _, g3. split; [done|]. split; [exact H3|]. split; [done|]. split.
  { do 3 apply elsewhere_insert. by intros ? ?. }
  split; [rewrite Hd; exact (room_insert g2 LOG_SINK_IPC Hd2)|].
  intros []; unfold g3, g2, g1; [by rewrite lookup_insert_ne, lookup_insert_ne, lookup_insert_eq by done| |by rewrite lookup_insert_eq].
  by rewrite lookup_insert_ne, lookup_insert_eq by done.
Qed.

Definition make_dir g : RamfsSpec.fs := match g !! lit "Logs" with None => <[lit "Logs" := RamfsSpec.Dir]> g | Some _ => g end.

Lemma mkdir_logs g : (base.size g < 32)%nat → (RamfsSpec.spec_mkdir g (lit "Logs")).2 = make_dir g.
Proof.
  intros Hs. unfold RamfsSpec.spec_mkdir, RamfsSpec.spec_create, make_dir. change (Ramfs.path_is_valid (lit "Logs")) with true. cbn [negb].
  destruct (g !! lit "Logs") as [[|c]|]; [done..|]. change (RamfsSpec.parent_ok g (lit "Logs")) with true. by rewrite bool_decide_true.
Qed.

(** The directory made when the log has not made it yet. *)
Lemma ensure_logs_holds w0 s g :
  holds w0 s g → (base.size g < 32)%nat →
  ∃ s', ensure_logs_directory s = Some s' ∧ holds w0 s' (if logs_directory_ready (log s) then g else make_dir g).
Proof.
  intros Hs Hsz. unfold ensure_logs_directory. destruct (logs_directory_ready _); [by exists s|].
  destruct (holds_step w0 s g (lit "/System") [] VfsRamfs.FMkdir Hs) as (r1 & w1 & E1 & H1); [apply dir_locate|by_eval|done|].
  cbn [VfsRamfs.vfs_do] in E1. rewrite E1. cbn [mbind option_bind].
  destruct (holds_step w0 _ _ (lit "/System/Logs") (lit "Logs") VfsRamfs.FMkdir H1) as (r2 & w2 & E2 & H2); [apply dir_locate|by_eval|done|].
  cbn [VfsRamfs.vfs_do files world set_world] in E2. rewrite E2. cbn [mbind option_bind].
  eexists. split; [done|]. apply holds_log. cbn [VfsRamfs.abstract_op RamfsSpec.spec_exec] in H2. by rewrite mkdir_logs in H2.
Qed.

(** What the refresh needs of the volume: the directory or a way to make it, and room. *)
Definition can_refresh (ready : bool) g : Prop := sinks_room (if ready then g else make_dir g) ∧ (base.size g < 32)%nat.

Lemma make_dir_elsewhere g : same_elsewhere g (make_dir g).
Proof.
  intros q Hq. unfold make_dir. case_match; [done|]. rewrite lookup_insert_ne; [done|]. intros E. apply Hq. rewrite <- E. by_eval.
Qed.

Lemma refresh_holds w0 s g a :
  holds w0 s g → log_rel (log s) a → proc_sink_enabled (log s) = true → proc_sink_guard (log s) = false →
  can_refresh (logs_directory_ready (log s)) g →
  ∃ s' g', klog_refresh_proc_sink s = Some s' ∧ holds w0 s' g' ∧ same_elsewhere g g' ∧
    sinks_hold g' (fun k => sink_text k (newest CONFIG_KLOG_CAPACITY (accepted a))).
Proof.
  intros Hs Hr He Hg [Hroom Hsz]. unfold klog_refresh_proc_sink. rewrite He, Hg. cbn [negb].
  destruct (ensure_rel _ _ (rel_sink true true (logs_directory_ready (log s)) _ _ Hr)) as [Hr1 Hready].
  pose proof (copy_rel true CONFIG_KLOG_CAPACITY _ a Hr1 Hready) as Hc. unfold klog_copy in Hc. rewrite ensure_again in Hc.
  unfold klog_copy, set_guard. cbn [log set_log]. rewrite He. rewrite Hc. cbn [mbind option_bind].
  set (s1 := set_log (ensure_ready _) _).
  assert (Hs1 : holds w0 s1 g) by (by apply holds_log, holds_log).
  destruct (ensure_logs_holds w0 s1 g Hs1 Hsz) as (s2 & -> & H2). cbn [mbind option_bind].
  replace (logs_directory_ready (log s1)) with (logs_directory_ready (log s)) in H2
    by (unfold s1, ensure_ready; simpl; by destruct (klog_ready (log s))).
  set (g1 := if logs_directory_ready (log s) then g else make_dir g) in *.
  assert (Hg1 : same_elsewhere g g1) by (unfold g1; destruct (logs_directory_ready _); [done|apply make_dir_elsewhere]).
  destruct (clear_sinks_holds w0 s2 g1 H2 Hroom) as (s3 & g2 & -> & H3 & _ & Hg2 & _ & Hk). cbn [mbind option_bind].
  rewrite take_ge by (rewrite newest_length; lia).
  destruct (append_lines_holds (newest CONFIG_KLOG_CAPACITY (accepted a)) w0 s3 g2 _ H3 Hk) as (s4 & g3 & -> & H4 & _ & Hg3 & _ & Hk').
  cbn [mbind option_bind]. eexists _, g3. split; [done|]. split; [by apply holds_log|]. split; [|exact Hk'].
  intros q Hq. by rewrite Hg3, Hg2, Hg1.
Qed.

End boot.
End KlogFiles.
