(* ===== verification/KlogProps.v ===== *)
(** The theorems about the kernel log: it implements the abstract log, and its files
    hold the log's lines as far as a file has room. *)

From S2P Require Import Prelude Arrays Bytes Sched SchedRun Ipc IpcSpec IpcRun IpcExamples Block Klog KlogRun KlogFiles.
From S2P Require Import VfsPath Ramfs RamfsSpec Vfs VfsSpec VfsRamfs.

Module KlogProps.

Import VfsRamfs Klog KlogSpec KlogRun KlogFiles.

(** C12: the kernel log is the abstract log.  From any state that represents it, the log
    not yet started included, any sequence of the functions of klog.c (messages of any
    module and level, level changes under names of at most 23 bytes, copies, refreshes
    of the files) completes, whatever becomes of the messages it sends to the log
    service and to the log channel and of the files it writes; every function returns what
    the abstract log says: a message below the level of its module, or below the global
    level where the module has none, is dropped, the others are numbered in order and
    the newest 128 are kept, copies get the oldest of those first, at most 32 modules have a level. *)
Theorem klog_refines {W Ctx} (v : Vfs.vfs W Ctx) `{!FilesReturn v} t stack os s a :
  length stack = EVENT_SIZE → sim v t s a → Forall op_ok os →
  ∃ s', run stack os s = Some ((a_run os a).1, s') ∧ sim v t s' (a_run os a).2.
Proof. intros Hst Hs Ho. by apply run_sim. Qed.

(** C34: the log files mirror the log.  On the tree the kernel boots with, with the sink
    on, a refresh completes and leaves in the three files under [/System/Logs] the
    lines of the kept entries that belong there, oldest first, each line and each
    line end dropped when the file would reach 1024 bytes; it makes the directory when
    it has not been made, and changes no other node of the volume and no other
    volume. *)
Theorem log_files_mirror {W Ctx} `{!Vfs.HasRamfs W Ctx} devicefs_ops (s : machine W Ctx) a :
  files s = boot_tree devicefs_ops → RamfsSpec.wf (Vfs.get_volume (world s) Vfs.SystemVolume) →
  log_rel (log s) a → proc_sink_enabled (log s) = true → proc_sink_guard (log s) = false →
  let f := RamfsSpec.abs (Vfs.get_volume (world s) Vfs.SystemVolume) in
  can_refresh (logs_directory_ready (log s)) f →
  ∃ s', klog_refresh_proc_sink s = Some s' ∧
    let g := RamfsSpec.abs (Vfs.get_volume (world s') Vfs.SystemVolume) in
    (∀ k, g !! sink_rel k = Some (RamfsSpec.File (sink_text k (newest CONFIG_KLOG_CAPACITY (accepted a))))) ∧
    (∀ q, q ∉ log_paths → g !! q = f !! q) ∧
    ∀ j, j ≠ Vfs.SystemVolume → Vfs.get_volume (world s') j = Vfs.get_volume (world s) j.
Proof.
  intros Ht Hw Hr He Hg f Hcan.
  destruct (refresh_holds devicefs_ops (world s) s f a) as (s' & g & E & Hh & Hq & Hk); [by constructor|done..|].
  exists s'. split; [done|]. destruct Hh as [_ _ Ha Hj]. simpl. rewrite Ha. split; [exact Hk|]. split; [exact Hq|exact Hj].
Qed.

(** A name of 24 bytes or more is stored cut to 23, so the entry never answers for it:
    the call reports success, the level of the module stays what it was, and every
    such call takes another entry. *)
Theorem long_module_name {W Ctx} (s : machine W Ctx) tag l i :
  klog_ready (log s) = true → proc_sink_enabled (log s) = false → (24 ≤ length tag)%nat →
  Forall (fun e => length (me_name e) < 24)%nat (module_table (log s)) →
  first_index (fun e => negb (me_used e)) (module_table (log s)) = Some i →
  ∃ s' e, klog_module_set_level (Some tag) l s = Some (0, s') ∧ (klog_module_get_level (Some tag) (log s')).1 = KLOG_LEVEL_INHERIT ∧
    module_table (log s') !! i = Some e ∧ me_used e = true.
Proof.
  intros Hr Hp Hl Ht Hi. assert (Hs : sanitize_module (Some tag) = tag) by (destruct tag; simpl in *; [lia|done]).
  assert (Hnone : ∀ t, Forall (fun e => length (me_name e) < 24)%nat t → first_index (module_is tag) t = None).
  { intros t Hf. apply first_index_None. intros j e He. apply not_true_is_false. rewrite module_is_true. intros [_ <-].
    pose proof (Forall_lookup_1 _ _ _ _ Hf He) as Hx. simpl in Hx. lia. }
  apply first_index_Some in Hi as Hi'. destruct Hi' as (e & He & _). assert (Hlt := lookup_lt_Some _ _ _ He).
  unfold klog_module_set_level, find_module_entry, ensure_ready. rewrite Hr. cbn [log set_log]. rewrite !Hs, Hnone, Hi by done. cbn [negb].
  rewrite list_lookup_insert_eq by done. cbn [mbind option_bind me_used me_name log set_log set_modules proc_sink_enabled].
  rewrite Hp. cbn [mbind option_bind]. rewrite list_insert_insert_eq. eexists _, _. split; [done|].
  cbn [log set_log set_modules module_table]. split; [|split; [by apply list_lookup_insert_eq|done]].
  unfold klog_module_get_level, ensure_ready. cbn [set_modules klog_ready]. rewrite Hr. simpl. unfold module_level, find_module_entry.
  rewrite Hs. cbn [set_modules module_table]. rewrite Hnone; [done|]. apply Forall_insert; [done|]. simpl.
  unfold string_copy, CONFIG_KLOG_MODULE_NAME_LEN. simpl. rewrite length_take. lia.
Qed.

(** ** A concrete machine *)

Definition zero_log : klog :=
  KlogState (replicate CONFIG_KLOG_CAPACITY (Entry 0 0 [] [])) 0 0 0 KLOG_INFO false (-1)
    (replicate CONFIG_KLOG_MAX_MODULES (ModuleEntry false 0 [])) false false false.

Definition demo_tree : Vfs.vfs Vfs.ramfs_world (option Vfs.volume_id) := boot_tree VfsRamfs.no_devices.

Definition no_service (i : nat) : service_entry := ServiceEntry (Z.of_nat i) None None (-1) 0 (replicate 32 0).

Definition no_services : list service_entry := no_service <$> [0; 1; 2; 3]%nat.

Definition demo_machine (l : klog) : machine Vfs.ramfs_world (option Vfs.volume_id) :=
  Machine _ _ l IpcExamples.booted no_services demo_tree VfsRamfs.demo_world.

Lemma demo_sim : sim demo_tree no_services (demo_machine zero_log) a_start.
Proof.
  split; [|split; [by constructor|done]]. constructor; [apply IpcExamples.booted_ok|done|done|done|].
  apply (VfsRamfs.demo_volume_wf Vfs.SystemVolume).
Qed.

Definition demo_ops : list log_op :=
  [LSetLevel 0; LEmit (Some (lit "net")) 1 (Some (lit "link up")); LEmit None 9 (Some (lit "panic"));
   LModuleSet (Some (lit "net")) 3; LEmit (Some (lit "net")) 2 (Some (lit "lost")); LModuleGet (Some (lit "net")); LCopy true 5].

Lemma klog_refines_witness :
  ∃ s', run (replicate 128 0) demo_ops (demo_machine zero_log) =
    Some ([RNone; RNone; RNone; RInt 0; RNone; RInt 3;
           REntries [Entry 0 1 (lit "net") (lit "link up"); Entry 1 3 (lit "kernel") (lit "panic")]], s') ∧
    length (accepted (a_run demo_ops a_start).2) = 2%nat.
Proof.
  destruct (klog_refines demo_tree no_services (replicate 128 0) demo_ops (demo_machine zero_log) a_start) as (s' & E & _).
  - reflexivity.
  - exact demo_sim.
  - unfold demo_ops. repeat (apply Forall_cons; split; [vm_compute; lia || exact I|]). constructor.
  - exists s'. split; [|vm_compute; reflexivity]. etransitivity; [exact E|].
    assert (Hr : (a_run demo_ops a_start).1 = [RNone; RNone; RNone; RInt 0; RNone; RInt 3;
      REntries [Entry 0 1 (lit "net") (lit "link up"); Entry 1 3 (lit "kernel") (lit "panic")]]) by (vm_compute; reflexivity).
    rewrite Hr. reflexivity.
Defined.

(** One message in the log, and the sink on. *)
Definition one_message : alog := ALog [Entry 0 1 (lit "net") (lit "link up")] KLOG_INFO ∅.
Definition one_log : klog :=
  set_sink true false false (default zero_log (klog_store_entry (lit "net") 1 (lit "link up") 0 (next_sequence (klog_init zero_log)))).

Lemma one_log_rel : log_rel one_log one_message.
Proof.
  apply rel_sink. assert (Hi : log_rel (klog_init zero_log) a_start) by (apply init_rel; by constructor).
  destruct (ready_content _ _ Hi eq_refl) as [Hs Hc].
  destruct (store_rel (lit "net") 1 (lit "link up") _ _ Hs Hc) as (s' & E & Hs' & Hr & Hc'); [done|].
  change 0 with (klog_sequence (klog_init zero_log)) at 1. rewrite E. split; [done|]. simpl. rewrite Hr. exact Hc'.
Qed.

Lemma log_files_mirror_witness :
  ∃ s', klog_refresh_proc_sink (demo_machine one_log) = Some s' ∧
    RamfsSpec.abs (Vfs.get_volume (world s') Vfs.SystemVolume) !! lit "Logs/net.log" =
      Some (RamfsSpec.File (lit "[0] INFO (net): link up" ++ [newline])) ∧
    RamfsSpec.abs (Vfs.get_volume (world s') Vfs.SystemVolume) !! lit "Logs/kernel.log" = Some (RamfsSpec.File []).
Proof.
  assert (Hf : RamfsSpec.abs (Vfs.get_volume VfsRamfs.demo_world Vfs.SystemVolume) = ∅)
    by (apply RamfsSpec.init_wf; [reflexivity|by apply Forall_replicate]).
  destruct (log_files_mirror VfsRamfs.no_devices (demo_machine one_log) one_message) as (s' & E & Hk & _).
  - reflexivity.
  - apply (VfsRamfs.demo_volume_wf Vfs.SystemVolume).
  - exact one_log_rel.
  - reflexivity.
  - reflexivity.
  - cbn [world demo_machine]. rewrite Hf. split; [constructor|]; [reflexivity|vm_compute; lia|by intros []|vm_compute; lia].
  - exists s'. split; [exact E|]. split; [exact (Hk LOG_SINK_NET)|exact (Hk LOG_SINK_KERNEL)].
Defined.

End KlogProps.
