(* ===== verification/Service.v ===== *)
(** Services (kernel/service.c) on the whole machine: starting one creates a process,
    which attaches its IPC endpoint, logs, tells the scheduler's channel and publishes
    the task list (kernel/debug.c), and logs once more.  The table itself is in
    Klog.v.  The reports of debug.c on tasks and memory are here too. *)

From S2P Require Import Prelude Arrays Bytes Memory Sched Ipc Block Klog.
From S2P Require Vfs.

Module Service.

Import Bytes Klog.

(** ** Reports *)

Definition hex_digit (n : Z) : Z := if n <? 10 then 48 + n else 55 + n.
Definition hex32 (value : Z) : cstring :=
  lit "0x" ++ ((fun shift => hex_digit (Z.land (Z.shiftr value shift) 15)) <$> [28; 24; 20; 16; 12; 8; 4; 0]).

(** The appending functions of debug.c, of which [append_text] and [append_char] are as
    in klog.c; [append_hex32] appends digit by digit, which is the same. *)
Definition append_decimal (cap : nat) (value : Z) (line : cstring) : cstring := append_text cap (Block.decimal value) line.
Definition append_hex32 (cap : nat) (value : Z) (line : cstring) : cstring := append_text cap (hex32 value) line.

Definition state_name (st : Sched.proc_state_t) : cstring :=
  match st with
  | Sched.PROC_READY => lit "READY"
  | Sched.PROC_RUNNING => lit "RUNNING"
  | Sched.PROC_WAITING => lit "WAITING"
  | Sched.PROC_ZOMBIE => lit "ZOMBIE"
  | Sched.PROC_UNUSED => lit "UNUSED"
  end.

Definition task_header : cstring := lit "PID STATE    KIND PRI(base/dyn) REM TICKS WAKE STACK ESP" ++ [newline].

Definition TASK_CAP : nat := 160.

Definition task_line (p : Sched.process_info) : cstring :=
  let sp := append_char TASK_CAP 32 in
  let l := append_decimal TASK_CAP (u32 (Sched.i_pid p)) [] in
  let l := append_text TASK_CAP (state_name (Sched.i_state p)) (sp l) in
  let l := append_char TASK_CAP (match Sched.i_kind p with Sched.THREAD_KIND_USER => 85 | Sched.THREAD_KIND_KERNEL => 75 end) (sp l) in
  let l := append_decimal TASK_CAP (Sched.i_base_priority p) (sp l) in
  let l := append_decimal TASK_CAP (Sched.i_dynamic_priority p) (append_char TASK_CAP 47 l) in
  let l := append_decimal TASK_CAP (Sched.i_time_slice_remaining p) (sp l) in
  let l := append_decimal TASK_CAP (Sched.i_time_slice_ticks p) (sp l) in
  let l := append_decimal TASK_CAP (u32 (Sched.i_wake_deadline p)) (sp l) in
  let l := append_hex32 TASK_CAP (u32 (Sched.i_stack_pointer p + Sched.i_stack_size p)) (sp l) in
  let l := append_hex32 TASK_CAP (u32 (Sched.i_stack_pointer p)) (sp l) in
  append_char TASK_CAP newline l.

(** The lines of [debug_publish_memory_info], cut to the buffer. *)
Definition memory_info (h : Memory.heap) : cstring :=
  let kilobytes n := lit " (" ++ Block.decimal (n / 1024) ++ lit " KB)" ++ [newline] in
  let used := u32 (Memory.memory_used_bytes h) in
  take 255
    (lit "Memory Statistics" ++ [newline] ++
     lit "total_bytes: " ++ Block.decimal Memory.memory_total_bytes ++ kilobytes Memory.memory_total_bytes ++
     lit "used_bytes:  " ++ Block.decimal used ++ kilobytes used ++
     lit "free_bytes:  " ++ Block.decimal (u32 (Memory.memory_free_bytes h)) ++ kilobytes (u32 (Memory.memory_free_bytes h)) ++
     lit "heap_base:   " ++ hex32 Memory.memory_heap_base ++ [newline] ++
     lit "heap_cursor: " ++ hex32 (Memory.memory_heap_base +32 used) ++ [newline] ++
     lit "heap_limit:  " ++ hex32 Memory.memory_heap_limit ++ [newline]).

Section service.
Context {W Ctx : Type} (place : Sched.placement) (stack : list Z).
Implicit Types s : machine W Ctx.

Definition debug_publish_memory_info (h : Memory.heap) s : option (machine W Ctx) :=
  '(_, w) ← Vfs.Vfs.vfs_write_file (files s) (world s) (Some (lit "/System/meminfo")) (Some (memory_info h));
  Some (set_world w s).

Fixpoint append_tasks (l : list cstring) s : option (machine W Ctx) :=
  match l with
  | [] => Some s
  | line :: l' =>
      '(_, w) ← Vfs.Vfs.vfs_append (files s) (world s) (Some (lit "/System/tasks")) (Some line);
      append_tasks l' (set_world w s)
  end.

Definition debug_publish_task_list s : option (machine W Ctx) :=
  let info := Sched.process_snapshot (Some Sched.MAX_PROCS) (Ipc.sys (kern s)) in
  '(_, w) ← Vfs.Vfs.vfs_write_file (files s) (world s) (Some (lit "/System/tasks")) None;
  append_tasks (append_text TASK_CAP task_header [] :: (task_line <$> info)) (set_world w s).

(** ** Creating a process *)

Definition IPC_SERVICE_SCHEDULER : Z := 3.

Definition state_code (st : Sched.proc_state_t) : Z :=
  match st with
  | Sched.PROC_UNUSED => 0 | Sched.PROC_READY => 1 | Sched.PROC_RUNNING => 2 | Sched.PROC_WAITING => 3 | Sched.PROC_ZOMBIE => 4
  end.

(** [struct scheduler_event]. *)
Definition scheduler_event (action pid value : Z) (st : Sched.proc_state_t) : list Z :=
  [action; state_code st; 0; 0] ++ le32 (u32 pid) ++ le32 (u32 value).

(** What the scheduler asks of the other components while it creates a thread, in its
    order; all of it but the endpoint comes after the thread is on its queue. *)
Definition create_effect (e : Sched.effect) s : option (machine W Ctx) :=
  match e with
  | Sched.EIpcAttach i => k ← Ipc.ipc_alloc_slot i (kern s); Some (set_kern k s)
  | Sched.ELog message => klog_emit_tagged stack (Some (lit "kernel")) KLOG_DEBUG (Some message) s
  | Sched.ESend channel action pid value st =>
      '(_, k) ← Ipc.ipc_channel_send channel 0 action 0 (Some (scheduler_event action pid value st)) 12 0 (kern s); Some (set_kern k s)
  | Sched.EPublishTasks => debug_publish_task_list s
  | Sched.EIpcCleanup _ | Sched.EServiceExit _ => None
  end.

Fixpoint create_effects (es : list Sched.effect) s : option (machine W Ctx) :=
  match es with [] => Some s | e :: es' => s ← create_effect e s; create_effects es' s end.

(** The scheduler's view of the IPC system. *)
Definition ask_ipc (k : Ipc.kernel) : option Z :=
  if Ipc.ipc_is_initialized k then Ipc.ipc_get_service_channel IPC_SERVICE_SCHEDULER k else None.

Definition with_service (c : option Z) (p : Sched.sched) : Sched.sched :=
  Sched.Sched (Sched.processes p) (Sched.ready_queues p) (Sched.ready_bitmap p) (Sched.current_process p) (Sched.idle_process p)
    (Sched.sleep_list p) (Sched.next_pid p) (Sched.scheduler_active p) (Sched.scheduler_channel_id p) c [] (Sched.fault p).

(** [process_create] with all it does to the machine. *)
Definition process_create (entry : option Z) (stack_size : Z) s : option (Z * machine W Ctx) :=
  let '(pid, p) := Sched.process_create place entry stack_size (with_service (ask_ipc (kern s)) (Ipc.sys (kern s))) in
  s ← create_effects (Sched.effects p) (set_kern (Ipc.with_sys (fun _ => p) (kern s)) s);
  Some (pid, s).

(** ** Services *)

Definition zero_service_entry (e : service_entry) : service_entry :=
  ServiceEntry (sv_id e) (sv_name e) None (-1) 0 ((fun _ => 0) <$> client_rights e).

Definition service_tag (e : service_entry) : cstring := default (lit "service") (sv_name e).

Definition service_system_init (t : list service_entry) : list service_entry :=
  imap (fun i e => zero_service_entry (ServiceEntry (Z.of_nat i) None (sv_entry e) (sv_pid e) (rights_default e) (client_rights e))) t.

Definition set_pid (pid : Z) (e : service_entry) : service_entry :=
  ServiceEntry (sv_id e) (sv_name e) (sv_entry e) pid (rights_default e) (client_rights e).

Definition service_register (service : Z) (name : option cstring) (entry : option Z) (default_rights : Z) (t : list service_entry)
    : option (Z * list service_entry) :=
  match service_index service, entry with
  | None, _ | _, None => Some (-1, t)
  | Some i, Some entry =>
      e ← t !! i;
      Some (0, <[i := ServiceEntry (sv_id e) name (Some entry) (-1) default_rights ((fun _ => 0) <$> client_rights e)]> t)
  end.

Definition service_start (service : Z) s : option (Z * machine W Ctx) :=
  match service_index service with
  | None => Some (-1, s)
  | Some i =>
      slot ← services s !! i;
      match sv_entry slot with
      | None => Some (-1, s)
      | Some entry =>
          if 0 <? sv_pid slot then Some (sv_pid slot, s)
          else
            '(pid, s) ← process_create (Some entry) Sched.PROC_STACK_SIZE s;
            slot ← services s !! i;
            s ← (if 0 <? pid
                 then klog_emit_tagged stack (Some (service_tag slot)) KLOG_INFO (Some (lit "service started"))
                        (set_services (<[i := set_pid pid slot]> (services s)) s)
                 else klog_emit_tagged stack (Some (service_tag slot)) KLOG_ERROR (Some (lit "service spawn failed")) s);
            Some (pid, s)
      end
  end.

Definition set_client_rights (i : nat) (rights : Z) (e : service_entry) : option service_entry :=
  c ← buf_store (client_rights e) i rights;
  Some (ServiceEntry (sv_id e) (sv_name e) (sv_entry e) (sv_pid e) (rights_default e) c).

(** The process of a service, started when it does not run: -1 when that fails. *)
Definition running_pid (service : Z) (svc_pid : Z) s : option (Z * machine W Ctx) :=
  if svc_pid <=? 0 then
    '(r, s) ← service_start service s;
    if r <=? 0 then Some (-1, s)
    else pid ← service_pid service (services s); Some (pid, s)
  else Some (svc_pid, s).

Definition service_grant_capabilities (requester service rights : Z) s : option (Z * machine W Ctx) :=
  match service_index service with
  | None => Some (-1, s)
  | Some i =>
      if requester <=? 0 then Some (-1, s)
      else
        slot ← services s !! i;
        let effective := Z.lor (rights_default slot) rights in
        '(svc_pid, s) ← running_pid service (sv_pid slot) s;
        if svc_pid <=? 0 then Some (-1, s)
        else
          '(r, k) ← Ipc.ipc_cap_grant requester svc_pid effective (kern s);
          let s := set_kern k s in
          if r <? 0 then Some (-1, s)
          else
            '(r, k) ← Ipc.ipc_cap_grant svc_pid requester effective (kern s);
            let s := set_kern k s in
            if r <? 0 then Some (-1, s)
            else if requester <=? Z.of_nat Sched.MAX_PROCS then
              slot ← services s !! i;
              slot ← set_client_rights (Z.to_nat (requester - 1)) effective slot;
              Some (0, set_services (<[i := slot]> (services s)) s)
            else Some (0, s)
  end.

Definition service_handle_exit (pid : Z) (t : list service_entry) : list service_entry :=
  if pid <=? 0 then t
  else match first_index (fun e => sv_pid e =? pid) t with
  | None => t
  | Some i => match t !! i with Some e => <[i := set_pid (-1) e]> t | None => t end
  end.

Fixpoint start_all (l : list Z) s : option (machine W Ctx) :=
  match l with [] => Some s | service :: l' => '(_, s) ← service_start service s; start_all l' s end.

Definition service_bootstrap s : option (machine W Ctx) := start_all [0; 1; 2; 3] s.

End service.

End Service.
