(* ===== verification/ServiceSpec.v ===== *)
(** Lemmas about services on the machine: what creating a process asks of the other
    components, that all of it completes, and what each function of service.c does to
    the table of services and to the log. *)

From S2P Require Import Prelude Arrays Bytes Memory Sched SchedLists SchedSpec SchedRun Ipc IpcSpec IpcCaps IpcRun Block.
From S2P Require Import Klog KlogRun Service.
From S2P Require Vfs VfsSpec VfsRamfs.

Module ServiceSpec.

Import IpcSpec Klog KlogSpec KlogRun Service.

(** ** Creating a process *)

Section create.
Context (place : Sched.placement).
Implicit Types s : Sched.sched.

Lemma enqueue_effects i s : Sched.effects (Sched.scheduler_enqueue_ready i s) = Sched.effects s.
Proof.
  unfold Sched.scheduler_enqueue_ready, Sched.append_queue, Sched.set_bit, Sched.put_queue, Sched.upd.
  repeat (case_match || case_decide || done || simpl).
Qed.

(** The slot a new thread takes, its pid, and what is asked meanwhile. *)
Definition new_pid s : Z := if Sched.next_pid s <=? 0 then 1 else Sched.next_pid s.

Lemma new_pid_pos s : 0 < new_pid s.
Proof. unfold new_pid. case_match; bool_prop; lia. Qed.

Lemma create_fst e size kind priority s :
  fst (Sched.scheduler_create_thread place (Some e) size kind priority true false s) = first_index Sched.free_slot (Sched.processes s).
Proof.
  unfold Sched.scheduler_create_thread, Sched.alloc_process_slot. destruct (first_index _ _) as [i|]; [|done].
  destruct (Sched.acquire_pid _). done.
Qed.

Lemma enqueue_procs i a : SchedSpec.a_procs (SchedSpec.a_enqueue i a) = SchedSpec.a_procs a.
Proof. unfold SchedSpec.a_enqueue. by repeat case_match. Qed.

Lemma create_pid e size s i :
  sched_ok s → SchedRun.frame_fits size → first_index Sched.free_slot (Sched.processes s) = Some i →
  fst (Sched.process_create place (Some e) size s) = new_pid s.
Proof.
  intros (a & HR & Hinv) Hsz Hi. unfold Sched.process_create.
  destruct (SchedRun.create_ok place s a Sched.THREAD_KIND_USER Sched.scheduler_default_user_priority (Some e) size HR Hinv Hsz) as [HR' _].
  pose proof (create_fst e size Sched.THREAD_KIND_USER Sched.scheduler_default_user_priority s) as Hf. rewrite Hi in Hf.
  destruct (Sched.scheduler_create_thread _ _ _ _ _ _ _ s) as [o s1]. simpl in Hf. subst o.
  assert (Hp : SchedLists.cores s1 = SchedSpec.a_procs (SchedRun.a_create place Sched.THREAD_KIND_USER Sched.scheduler_default_user_priority (Some e) size a)).
  { destruct HR' as (_ & -> & _). simpl. by case_match. }
  unfold SchedRun.a_create in Hp. rewrite <- (SchedRun.first_free_R s a HR), Hi in Hp.
  rewrite enqueue_procs in Hp. cbn [SchedSpec.a_procs SchedSpec.a_upd SchedRun.a_put_pid] in Hp.
  destruct (SchedRun.free_slot_off a i Hinv) as (p & Hpa & _); [by rewrite <- (SchedRun.first_free_R s a HR)|].
  apply (f_equal (.!! i)) in Hp. rewrite list_lookup_alter, decide_True, Hpa in Hp by done. unfold SchedLists.cores in Hp.
  rewrite list_lookup_fmap in Hp. simpl in Hp. apply fmap_Some in Hp as (q & Hq & Hc). unfold Sched.created. cbn [mbind option_bind].
  rewrite Hq. simpl. apply (f_equal Sched.pid) in Hc. unfold new_pid. destruct HR as (_ & _ & _ & _ & <- & _). etransitivity; [|symmetry; exact Hc]. done.
Qed.

Lemma create_pid_none e size s :
  first_index Sched.free_slot (Sched.processes s) = None → Sched.process_create place (Some e) size s = (-1, s).
Proof. intros Hi. unfold Sched.process_create, Sched.scheduler_create_thread, Sched.alloc_process_slot. by rewrite Hi. Qed.

Lemma upd_effects i f s : Sched.effects (Sched.upd i f s) = Sched.effects s.
Proof. unfold Sched.upd. by case_match. Qed.

Lemma push_words_effects i sp ws s : Sched.effects (Sched.push_words place i sp ws s).2 = Sched.effects s.
Proof.
  revert sp s. induction ws as [|w ws IH]; intros sp s; [done|]. cbn [Sched.push_words]. rewrite IH.
  unfold Sched.store_word. case_match; [apply upd_effects|done].
Qed.

Lemma push_frame_effects i size s : Sched.effects (Sched.push_frame place i size s) = Sched.effects s.
Proof.
  unfold Sched.push_frame. pose proof (push_words_effects i (Sched.stack_align (Sched.stack_addr place i +32 size)) (Sched.initial_frame (Sched.thread_bootstrap place)) s) as H.
  destruct (Sched.push_words _ _ _ _ _) as [sp s1]. cbn [snd] in H. rewrite <- H. apply upd_effects.
Qed.

(** What a creation asks for: nothing that ends a process. *)
Definition creation (e : Sched.effect) : Prop :=
  match e with
  | Sched.EIpcAttach i => (i < Sched.MAX_PROCS)%nat
  | Sched.ELog _ | Sched.ESend _ _ _ _ _ | Sched.EPublishTasks => True
  | Sched.EIpcCleanup _ | Sched.EServiceExit _ => False
  end.

Lemma emit_creation e s : Forall creation (Sched.effects s) → creation e → Forall creation (Sched.effects (Sched.emit e s)).
Proof. intros. simpl. apply Forall_app. split; [done|by constructor]. Qed.

Lemma create_asks e size s :
  length (Sched.processes s) = Sched.MAX_PROCS → Sched.effects s = [] →
  Forall creation (Sched.effects (snd (Sched.process_create place (Some e) size s))).
Proof.
  intros Hl He. unfold Sched.process_create, Sched.scheduler_create_thread, Sched.alloc_process_slot.
  destruct (first_index _ _) as [i|] eqn:Hi; [|simpl; by rewrite He].
  apply first_index_lt in Hi as Hlt. rewrite Hl in Hlt. destruct (Sched.acquire_pid _) as [n s1] eqn:E1.
  assert (He1 : Forall creation (Sched.effects s1)).
  { unfold Sched.acquire_pid in E1. injection E1 as _ <-. destruct (_ <=? 0); cbn [Sched.effects Sched.put_next_pid];
      (apply emit_creation; [|done]); unfold Sched.upd; case_match; cbn; by rewrite He. }
  set (s2 := Sched.scheduler_enqueue_ready i _).
  assert (He2 : Forall creation (Sched.effects s2)).
  { unfold s2. rewrite enqueue_effects. set (s3 := Sched.push_frame _ _ _ _).
    assert (E3 : Sched.effects s3 = Sched.effects s1) by (unfold s3; rewrite push_frame_effects; apply upd_effects).
    unfold Sched.scheduler_arm_timeslice. rewrite upd_effects, E3. done. }
  unfold Sched.created. set (s3 := if _ && _ then _ else _).
  assert (He3 : Forall creation (Sched.effects s3)).
  { unfold s3. destruct (true && _); [|done]. unfold Sched.scheduler_send_event, Sched.log_process_event.
    repeat (case_match || apply emit_creation || done). }
  clearbody s3. cbn [snd]. match goal with |- context [if ?b then Sched.emit _ _ else _] => destruct b end; [by apply emit_creation|done].
Qed.

End create.
(** ** Capabilities *)

(** A process may do at least this to another. *)
Definition holds_cap (owner target rights : Z) (k : Ipc.kernel) : Prop :=
  ∃ j p, Sched.process_lookup owner (Ipc.sys k) = Some j ∧ Ipc.proc_at k j = Some p ∧ Z.land (Ipc.granted target p) rights = rights.

Lemma land_lor_same g r : Z.land (Z.lor g r) r = r.
Proof. apply Z.bits_inj'. intros n _. rewrite Z.land_spec, Z.lor_spec. by destruct (Z.testbit g n), (Z.testbit r n). Qed.

Lemma land_lor_keep g r r' : Z.land g r = r → Z.land (Z.lor g r') r = r.
Proof.
  intros H. apply Z.bits_inj'. intros n _. rewrite Z.land_spec, Z.lor_spec. apply (f_equal (fun x => Z.testbit x n)) in H.
  rewrite Z.land_spec in H. by destruct (Z.testbit g n), (Z.testbit r n), (Z.testbit r' n).
Qed.

Lemma recapped_keeps k k' i p target rights o t' r :
  IpcCaps.recapped k k' i target (Z.lor (Ipc.granted target p) rights) → Ipc.proc_at k i = Some p →
  holds_cap o t' r k → kernel_ok k → holds_cap o t' r k'.
Proof.
  intros Hr Hp (j & q & Hl & Hq & Hg) Hk. destruct (decide (j = i)) as [->|Hne].
  - simplify_eq. assert ((i < Sched.MAX_PROCS)%nat) as Hi by (by eapply lookup_lt_procs; [apply Hk|]).
    destruct (proc_at_ok k' i (IpcCaps.rd_ok _ _ _ _ _ Hr) Hi) as (p' & Hp' & _).
    destruct (IpcCaps.rd_rights _ _ _ _ _ Hr p p' Hp Hp') as [Ht Ho].
    exists i, p'. rewrite (IpcCaps.rd_sys _ _ _ _ _ Hr). split; [done|]. split; [done|].
    destruct (decide (t' = target)) as [->|Hnt]; [|by rewrite Ho]. rewrite Ht. by apply land_lor_keep.
  - exists j, q. rewrite (IpcCaps.rd_sys _ _ _ _ _ Hr), (IpcCaps.rd_others _ _ _ _ _ Hr) by done. done.
Qed.

Lemma grant_full owner target rights k :
  kernel_ok k → 0 ≤ rights < 4294967296 →
  ∃ r k', Ipc.ipc_cap_grant owner target rights k = Some (r, k') ∧ kernel_ok k' ∧
    (r = -1 ∧ k' = k ∨ r = 0 ∧ holds_cap owner target rights k' ∧ ∀ o t' x, holds_cap o t' x k → holds_cap o t' x k').
Proof.
  intros Hk Hr. destruct (Ipc.ipc_initialized (Ipc.ipc_of k)) eqn:Ei; [|exists (-1), k; split; [unfold Ipc.ipc_cap_grant; by rewrite Ei|auto]].
  destruct ((owner <=? 0) || (target <=? 0) || (rights =? 0)) eqn:Eg;
    [exists (-1), k; split; [unfold Ipc.ipc_cap_grant; by rewrite Ei, Eg|auto]|].
  destruct (Sched.process_lookup owner (Ipc.sys k)) as [i|] eqn:El; [|exists (-1), k; split; [unfold Ipc.ipc_cap_grant; by rewrite Ei, Eg, El|auto]].
  assert (Hi : (i < Sched.MAX_PROCS)%nat) by (by eapply lookup_lt_procs; [apply Hk|]).
  destruct (proc_at_ok k i Hk Hi) as (p & Hp & _). bool_prop.
  destruct (IpcCaps.grant_ok k owner i p target rights) as (r & k' & Hg & [[-> Hre]|(-> & -> & _)]); try done; try lia.
  - pose proof (IpcCaps.rd_ok _ _ _ _ _ Hre) as Hk'. exists 0, k'. split; [done|]. split; [done|]. right. split; [done|]. split.
    + destruct (proc_at_ok k' i Hk' Hi) as (p' & Hp' & _). exists i, p'. rewrite (IpcCaps.rd_sys _ _ _ _ _ Hre). split; [done|].
      split; [done|]. destruct (IpcCaps.rd_rights _ _ _ _ _ Hre p p' Hp Hp') as [-> _]. apply land_lor_same.
    + intros o t' x Hh. by eapply recapped_keeps.
  - exists (-1), k. auto.
Qed.

(** ** The machine *)

Section machine.
Context {W Ctx : Type} (v : Vfs.Vfs.vfs W Ctx) `{!FilesReturn v} (place : Sched.placement) (stack : list Z).
Context (Hstack : length stack = EVENT_SIZE).
Implicit Types (s : machine W Ctx) (t : list service_entry) (a : alog).

Lemma task_line_small p : small (VfsRamfs.VfsRamfs.FAppend (Some (task_line p))).
Proof.
  clear Hstack. assert (H : (length (task_line p) < TASK_CAP)%nat).
  { unfold task_line, append_char, append_decimal, append_hex32. repeat apply append_text_length. by apply Nat.ltb_lt. }
  assert (Hc : TASK_CAP = 160%nat) by done. rewrite Hc in H. unfold small, default, id. lia.
Qed.

Lemma header_small : small (VfsRamfs.VfsRamfs.FAppend (Some (append_text TASK_CAP task_header []))).
Proof. by vm_compute. Qed.

Lemma tasks_in : lit "/System/tasks" ∈ system_paths.
Proof. by_eval. Qed.

Lemma append_tasks_sim l t s a :
  Forall (fun line => small (VfsRamfs.VfsRamfs.FAppend (Some line))) l → sim v t s a → ∃ s', append_tasks l s = Some s' ∧ sim v t s' a.
Proof.
  intros Hl. revert s. induction Hl as [|line l Hline _ IH]; intros s Hs; [by exists s|]. cbn [append_tasks].
  destruct (file_step v t s a _ _ Hs tasks_in Hline) as (r & w & E & H1). cbn [VfsRamfs.VfsRamfs.vfs_do] in E. rewrite E.
  cbn [mbind option_bind]. by apply IH.
Qed.

Lemma task_list_sim t s a : sim v t s a → ∃ s', debug_publish_task_list s = Some s' ∧ sim v t s' a.
Proof.
  intros Hs. unfold debug_publish_task_list.
  destruct (file_step v t s a _ (VfsRamfs.VfsRamfs.FWrite None) Hs tasks_in I) as (r & w & E & H1). cbn [VfsRamfs.VfsRamfs.vfs_do] in E. rewrite E.
  cbn [mbind option_bind]. apply append_tasks_sim; [|done]. constructor; [apply header_small|].
  apply Forall_fmap, Forall_forall. intros p _. apply task_line_small.
Qed.

(** What a request does to the log. *)
Definition a_effect (a : alog) (e : Sched.effect) : alog :=
  match e with Sched.ELog message => a_emit (Some (lit "kernel")) KLOG_DEBUG message a | _ => a end.

Lemma effect_sim e t s a : creation e → sim v t s a → ∃ s', create_effect stack e s = Some s' ∧ sim v t s' (a_effect a e).
Proof.
  intros He Hs. destruct e as [i|i|pid|m|c action pid value st|]; cbn [create_effect a_effect]; try done.
  - destruct (IpcRun.alloc_ok i (kern s)) as (k & -> & Hk & _); [apply Hs|done|]. eexists. split; [done|]. by apply sim_kern.
  - by apply emit_sim.
  - destruct (IpcRun.channel_send_step c 0 action 0 (Some (scheduler_event action pid value st)) 12 0 (kern s)) as (r & k & -> & Hk);
      [apply Hs|by vm_compute|]. eexists. split; [done|]. by apply sim_kern.
  - by apply task_list_sim.
Qed.

Lemma effects_sim es t s a :
  Forall creation es → sim v t s a → ∃ s', create_effects stack es s = Some s' ∧ sim v t s' (foldl a_effect a es).
Proof.
  intros He. revert s a. induction He as [|e es He _ IH]; intros s a Hs; [by exists s|]. cbn [create_effects foldl].
  destruct (effect_sim e t s a He Hs) as (s1 & -> & H1). cbn [mbind option_bind]. by apply IH.
Qed.

Lemma with_service_ok c p : sched_ok p → sched_ok (with_service c p).
Proof. intros (b & (Hs & Hr) & Hi). exists b. split; [|done]. split; [destruct Hs; by constructor|exact Hr]. Qed.

(** The pid a creation gives: -1 when every slot is taken. *)
Definition next_process s : Z :=
  match first_index Sched.free_slot (Sched.processes (Ipc.sys (kern s))) with None => -1 | Some _ => new_pid (Ipc.sys (kern s)) end.

(** What a creation writes to the log. *)
Definition a_create (entry size : Z) s a : alog :=
  foldl a_effect a (Sched.effects (snd (Sched.process_create place (Some entry) size
                                          (with_service (ask_ipc (kern s)) (Ipc.sys (kern s)))))).

Lemma create_sim entry size t s a :
  sim v t s a → SchedRun.frame_fits size →
  ∃ s', process_create place stack (Some entry) size s = Some (next_process s, s') ∧ sim v t s' (a_create entry size s a).
Proof.
  intros Hs Hsz. assert (Hk : kernel_ok (kern s)) by apply Hs. unfold process_create, a_create.
  set (p := with_service (ask_ipc (kern s)) (Ipc.sys (kern s))).
  assert (Hp : sched_ok p) by (by apply with_service_ok, Hk).
  pose proof (sched_ok_exec place p (SchedRun.OCreate false (Some entry) size) Hp Hsz) as Hp'.
  pose proof (create_asks place entry size p (sched_ok_procs p Hp) eq_refl) as He. cbn [SchedRun.exec] in Hp'.
  assert (Hpid : fst (Sched.process_create place (Some entry) size p) = next_process s).
  { unfold next_process. destruct (first_index _ _) as [i|] eqn:Ei; [by apply (create_pid place _ _ p i)|].
    by rewrite (create_pid_none place _ _ p). }
  destruct (Sched.process_create _ _ _ p) as [pid p']. cbn [fst snd] in *. subst pid.
  destruct (effects_sim (Sched.effects p') t (set_kern (Ipc.with_sys (fun _ => p') (kern s)) s) a He) as (s1 & -> & H1).
  { apply sim_kern; [done|]. by apply kernel_ok_with_sys. }
  by exists s1.
Qed.

(** ** The functions of service.c *)

Record entry_ok (e : service_entry) : Prop := {
  en_rights : length (client_rights e) = Sched.MAX_PROCS;
  en_default : 0 ≤ rights_default e < 4294967296;
  en_pid : sv_pid e = -1 ∨ 0 < sv_pid e
}.

Definition services_ok t : Prop := length t = SYSTEM_SERVICE_COUNT ∧ Forall entry_ok t.

Lemma entry_at service t i : services_ok t → service_index service = Some i → ∃ e, t !! i = Some e ∧ entry_ok e.
Proof.
  intros [Hl Hf] Hi. unfold service_index in Hi. case_match eqn:E; [done|]. injection Hi as <-.
  destruct (lookup_lt_is_Some_2 t (Z.to_nat service)) as [e He].
  { bool_prop. rewrite Hl. unfold SYSTEM_SERVICE_COUNT in *. lia. }
  exists e. split; [done|]. by eapply Forall_lookup_1.
Qed.

Lemma services_insert t i e : services_ok t → entry_ok e → services_ok (<[i := e]> t).
Proof. intros [Hl Hf] He. split; [by rewrite length_insert|by apply Forall_insert]. Qed.

Lemma set_pid_ok pid e : entry_ok e → pid = -1 ∨ 0 < pid → entry_ok (set_pid pid e).
Proof. intros [] ?. by constructor. Qed.

Lemma service_register_ok service name entry rights t :
  services_ok t → 0 ≤ rights < 4294967296 →
  ∃ r t', service_register service name entry rights t = Some (r, t') ∧ services_ok t'.
Proof.
  intros Ht Hr. unfold service_register. destruct (service_index service) as [i|] eqn:Ei; [|by eexists _, _].
  destruct entry as [entry|]; [|by eexists _, _]. destruct (entry_at service t i Ht Ei) as (e & -> & He). cbn [mbind option_bind].
  eexists _, _. split; [done|]. apply services_insert; [done|]. constructor; simpl; [rewrite length_fmap; apply He|done|by left].
Qed.

Lemma handle_exit_ok pid t : services_ok t → services_ok (service_handle_exit pid t).
Proof.
  intros Ht. unfold service_handle_exit. destruct (pid <=? 0); [done|]. destruct (first_index _ _) as [i|]; [|done].
  destruct (t !! i) as [e|] eqn:Ei; [|done]. apply services_insert; [done|]. apply set_pid_ok; [|by left].
  by eapply Forall_lookup_1; [apply Ht|].
Qed.

Lemma sim_services t t' s a : sim v t s a → length t' = SYSTEM_SERVICE_COUNT → sim v t' (set_services t' s) a.
Proof. intros [[? ? ? ? ?] H] Ht. split; [by constructor|done]. Qed.

(** Starting a service that is registered and does not run. *)
Lemma start_new service i e entry t s a :
  sim v t s a → services_ok t → service_index service = Some i → t !! i = Some e → sv_entry e = Some entry → sv_pid e ≤ 0 →
  let r := next_process s in
  ∃ s', service_start place stack service s = Some (r, s') ∧
    if 0 <? r
    then sim v (<[i := set_pid r e]> t) s' (a_emit (Some (service_tag e)) KLOG_INFO (lit "service started") (a_create entry Sched.PROC_STACK_SIZE s a))
    else sim v t s' (a_emit (Some (service_tag e)) KLOG_ERROR (lit "service spawn failed") (a_create entry Sched.PROC_STACK_SIZE s a)).
Proof.
  intros Hs Ht Hi He Hen Hp r. unfold service_start. rewrite Hi, (mo_services _ _ _ (proj1 Hs)), He. cbn [mbind option_bind].
  rewrite Hen, (proj2 (Z.ltb_ge 0 (sv_pid e))) by lia.
  destruct (create_sim entry Sched.PROC_STACK_SIZE t s a Hs SchedRun.whole_stack_fits) as (s1 & -> & H1). cbn [mbind option_bind]. rewrite (mo_services _ _ _ (proj1 H1)), He.
  cbn [mbind option_bind]. fold r. destruct (0 <? r).
  - assert (H2 : sim v (<[i := set_pid r e]> t) (set_services (<[i := set_pid r e]> t) s1) (a_create entry Sched.PROC_STACK_SIZE s a)).
    { eapply sim_services; [done|]. rewrite length_insert. apply Ht. }
    destruct (emit_sim v _ stack Hstack (Some (service_tag e)) KLOG_INFO (lit "service started") _ _ H2) as (s2 & -> & H3). by exists s2.
  - destruct (emit_sim v _ stack Hstack (Some (service_tag e)) KLOG_ERROR (lit "service spawn failed") _ _ H1) as (s2 & -> & H3). by exists s2.
Qed.

End machine.
End ServiceSpec.


(** ** The slots of the process table *)

(** What a slot holds for those who look for a free one, and that nothing but a creation
    changes it while the log is written or a process is created. *)
Module Slots.

Import IpcSpec Klog Service.

Record slot := Slot { slot_pid : Z; slot_free : bool; slot_listed : bool }.

Definition slot_view (p : Sched.process) : slot := Slot (Sched.pid p) (Sched.free_slot p) (Sched.listed p).
Definition slots (s : Sched.sched) : list slot := slot_view <$> Sched.processes s.

(** [process_count] of process.c. *)
Definition listed_count (l : list slot) : nat := length (filter (fun v => slot_listed v = true) l).

Lemma process_count_slots s : Sched.process_count s = listed_count (slots s).
Proof.
  unfold Sched.process_count, listed_count, slots. induction (Sched.processes s) as [|p l IH]; [done|]. cbn [fmap list_fmap].
  rewrite !filter_cons. cbn [slot_view slot_listed]. case_decide; cbn [length]; by rewrite IH.
Qed.

(** [n] processes take the first free slot, one after the other. *)
Inductive creations : nat → list slot → list slot → Prop :=
| creations_none l : creations 0 l l
| creations_more n l i pid l' : first_index slot_free l = Some i → 0 < pid → creations n (<[i := Slot pid false true]> l) l' → creations (S n) l l'.

Implicit Types (p : Sched.process).

Lemma slots_upd i f s : (∀ p, Sched.processes s !! i = Some p → slot_view (f p) = slot_view p) → slots (Sched.upd i f s) = slots s.
Proof.
  intros Hf. unfold Sched.upd. destruct (Sched.processes s !! i) as [p|] eqn:E; [|done]. unfold slots. cbn [Sched.processes Sched.put_processes].
  apply list_eq. intros j. rewrite !list_lookup_fmap, list_lookup_alter. destruct (decide (i = j)) as [<-|]; [|done].
  rewrite E. cbn. by rewrite Hf.
Qed.

Lemma slots_sleep_loop n prev iter target s : slots (Sched.sleep_remove_loop n prev iter target s) = slots s.
Proof.
  revert prev iter. induction n as [|n IH]; intros prev iter; [done|]. cbn [Sched.sleep_remove_loop]. destruct iter as [i|]; [|done].
  destruct (Sched.processes s !! i); [|done]. case_match; [|apply IH]. by rewrite !slots_upd.
Qed.

Lemma slots_unsleep i s : slots (Sched.scheduler_remove_from_sleep i s) = slots s.
Proof.
  unfold Sched.scheduler_remove_from_sleep. repeat (case_match; try done); [|apply slots_sleep_loop]. by rewrite slots_upd.
Qed.

Lemma slots_put_queue priority q s : slots (Sched.put_queue priority q s) = slots s.
Proof. unfold Sched.put_queue. by case_match. Qed.

Lemma slots_append priority i s : slots (Sched.append_queue priority i s) = slots s.
Proof. unfold Sched.append_queue. repeat (case_match; try done); rewrite slots_put_queue; try done. by rewrite slots_upd. Qed.

Lemma slots_enqueue i s : slots (Sched.scheduler_enqueue_ready i s) = slots s.
Proof.
  unfold Sched.scheduler_enqueue_ready. case_decide; [done|]. destruct (Sched.processes s !! i); [|done]. case_match; [done|].
  rewrite slots_upd by done. etransitivity; [apply slots_append|]. by rewrite slots_upd.
Qed.

Lemma slots_wake i s : slots (Sched.process_wake i s) = slots s.
Proof.
  unfold Sched.process_wake. destruct (Sched.processes s !! i) as [p|] eqn:E; [|done].
  case_match eqn:Hw; [done|]. apply negb_false_iff, bool_decide_eq_true in Hw. rewrite slots_enqueue.
  set (s1 := Sched.scheduler_boost_priority i _).
  assert (H1 : slots s1 = slots s) by (unfold s1, Sched.scheduler_boost_priority; rewrite slots_upd by done; apply slots_unsleep).
  rewrite slots_upd; [done|]. intros q Hq. apply (f_equal (.!! i)) in H1. unfold slots in H1. rewrite !list_lookup_fmap, Hq, E in H1.
  injection H1 as Hpid Hfree Hlisted. unfold slot_view. rewrite Hfree, Hlisted. unfold Sched.free_slot, Sched.listed.
  cbn [Sched.pid Sched.state Sched.set_state]. by rewrite Hw, Hpid.
Qed.

Lemma slots_wake_pid pid s : slots (Ipc.wake_pid pid s) = slots s.
Proof. unfold Ipc.wake_pid. repeat (case_match; try done). apply slots_wake. Qed.

(** A bind that returns: what its first part returned. *)
Local Ltac invert_bind E :=
  let x := fresh "x" in let Hx := fresh "Hx" in apply bind_Some in E; destruct E as (x & Hx & E).

Local Ltac inverted E := cbv zeta in E; repeat (first [invert_bind E | case_match]; try (injection E as <- <-; done); try (injection E as <-; done)); try done.

(** *** Messages between processes *)

Definition kernel_slots (k : Ipc.kernel) : list slot := slots (Ipc.sys k).

Lemma slots_mailbox target sender data size flags k r k' :
  Ipc.mailbox_enqueue target sender data size flags k = Some (r, k') → kernel_slots k' = kernel_slots k.
Proof. unfold Ipc.mailbox_enqueue. intros E. inverted E; injection E as <- <-; apply slots_wake_pid. Qed.

Lemma slots_send target msg size k r k' : Ipc.ipc_send target msg size k = Some (r, k') → kernel_slots k' = kernel_slots k.
Proof.
  unfold Ipc.ipc_send. intros E. repeat (case_match; [by injection E as <- <-|]). case_match; [|by injection E as <- <-].
  invert_bind E. case_match; [by injection E as <- <-|]. do 2 invert_bind E. by apply slots_mailbox in E.
Qed.

Lemma slots_channel_send id sender header type data size flags k r k' :
  Ipc.ipc_channel_send id sender header type data size flags k = Some (r, k') → kernel_slots k' = kernel_slots k.
Proof. unfold Ipc.ipc_channel_send. intros E. inverted E; injection E as <- <-; apply slots_wake. Qed.

Lemma slots_alloc i k k' : Ipc.ipc_alloc_slot i k = Some k' → kernel_slots k' = kernel_slots k.
Proof. unfold Ipc.ipc_alloc_slot, Ipc.ipc_attach_process. intros E. by inverted E. Qed.

(** *** The log *)

Section machine.
Context {W Ctx : Type} (place : Sched.placement) (event : list Z).
Implicit Types s : machine W Ctx.

Definition machine_slots s : list slot := kernel_slots (kern s).

Lemma append_lines_kern l s s' : append_lines l s = Some s' → kern s' = kern s.
Proof. revert s. induction l as [|e l IH]; intros s E; cbn [append_lines] in E; [by injection E as <-|]. inverted E. by apply IH in E. Qed.

Lemma refresh_kern s s' : klog_refresh_proc_sink s = Some s' → kern s' = kern s.
Proof.
  unfold klog_refresh_proc_sink. intros E. inverted E. injection E as <-. apply append_lines_kern in Hx2. cbn. rewrite Hx2.
  unfold clear_sinks in Hx1. inverted Hx1. injection Hx1 as <-. unfold ensure_logs_directory in Hx0. inverted Hx0; injection Hx0 as <-; done.
Qed.

Lemma publish_slots sq l m t s s' : klog_publish_channel event sq l m t s = Some s' → machine_slots s' = machine_slots s.
Proof.
  unfold klog_publish_channel. intros E. case_match; [by injection E as <-|]. do 2 invert_bind E. apply bind_Some in E as ([sent s1] & H1 & E).
  assert (E1 : machine_slots s1 = machine_slots s).
  { clear E. case_match; [|by injection H1 as <- <-]. apply bind_Some in H1 as ([rc k] & Hs & H1). injection H1 as <- <-. by apply slots_send in Hs. }
  destruct sent; [by injection E as <-|]. apply bind_Some in E as (s2 & H2 & E).
  assert (E2 : machine_slots s2 = machine_slots s1) by (clear E; case_match; [invert_bind H2|]; by injection H2 as <-).
  rewrite <- E1, <- E2. case_match; [|by injection E as <-]. apply bind_Some in E as ([rc k] & Hs & E). injection E as <-.
  by apply slots_channel_send in Hs.
Qed.

Lemma emit_slots m l message s s' : klog_emit_tagged event m l message s = Some s' → machine_slots s' = machine_slots s.
Proof.
  unfold klog_emit_tagged. intros E. destruct message as [message|]; [|by injection E as <-]. cbv zeta in E. case_match; [by injection E as <-|].
  invert_bind E. apply bind_Some in E as (s1 & H1 & E). apply publish_slots in H1.
  assert (E1 : machine_slots s' = machine_slots s1) by (case_match; [unfold machine_slots; by rewrite (refresh_kern _ _ E)|by injection E as <-]).
  by rewrite E1, H1.
Qed.

Lemma module_set_slots m l s r s' : klog_module_set_level m l s = Some (r, s') → machine_slots s' = machine_slots s.
Proof.
  unfold klog_module_set_level. cbv zeta. intros E. destruct (find_module_entry _ _ _) as [[i|] t]; [|by injection E as <- <-].
  invert_bind E. apply bind_Some in E as (s1 & H1 & E). injection E as <- <-. unfold machine_slots.
  case_match; [by rewrite (refresh_kern _ _ H1)|by injection H1 as <-].
Qed.

(** *** Creating a process *)

Lemma append_tasks_kern l s s' : append_tasks l s = Some s' → kern s' = kern s.
Proof.
  revert s. induction l as [|x l IH]; intros s E; cbn [append_tasks] in E; [by injection E as <-|].
  apply bind_Some in E as ([r w] & _ & E). by apply IH in E.
Qed.

Lemma tasks_kern s s' : debug_publish_task_list s = Some s' → kern s' = kern s.
Proof. unfold debug_publish_task_list. cbv zeta. intros E. apply bind_Some in E as ([r w] & _ & E). by apply append_tasks_kern in E. Qed.

Lemma effects_slots es s s' : create_effects event es s = Some s' → machine_slots s' = machine_slots s.
Proof.
  revert s. induction es as [|e es IH]; intros s E; cbn [create_effects] in E; [by injection E as <-|].
  apply bind_Some in E as (s1 & H1 & E). rewrite (IH _ E). unfold create_effect in H1. destruct e as [i|i|pid|m|c action pid value st|]; try done.
  - invert_bind H1. injection H1 as <-. by apply slots_alloc in Hx.
  - by apply emit_slots in H1.
  - apply bind_Some in H1 as ([rc k] & Hs & H1). injection H1 as <-. by apply slots_channel_send in Hs.
  - unfold machine_slots. by rewrite (tasks_kern _ _ H1).
Qed.

End machine.

Section create.
Context (place : Sched.placement).

Lemma slots_set i f v s : (∀ p, Sched.processes s !! i = Some p → slot_view (f p) = v) → slots (Sched.upd i f s) = <[i := v]> (slots s).
Proof.
  intros Hf. unfold Sched.upd. destruct (Sched.processes s !! i) as [p|] eqn:E; cycle 1.
  { rewrite list_insert_ge; [done|]. unfold slots. rewrite length_fmap. by apply lookup_ge_None. }
  unfold slots. cbn [Sched.processes Sched.put_processes]. apply list_eq. intros j. rewrite list_lookup_fmap, list_lookup_alter.
  destruct (decide (i = j)) as [<-|Hne]; [|by rewrite list_lookup_insert_ne, list_lookup_fmap].
  rewrite E. cbn. rewrite (Hf _ eq_refl), list_lookup_insert_eq; [done|]. rewrite length_fmap. by eapply lookup_lt_Some.
Qed.

Lemma slots_push_words i sp ws s : slots (Sched.push_words place i sp ws s).2 = slots s.
Proof.
  revert sp s. induction ws as [|w ws IH]; intros sp s; [done|]. cbn [Sched.push_words]. rewrite IH.
  unfold Sched.store_word. case_match; [by apply slots_upd|done].
Qed.

Lemma slots_frame i size s : slots (Sched.push_frame place i size s) = slots s.
Proof.
  unfold Sched.push_frame. pose proof (slots_push_words i (Sched.stack_align (Sched.stack_addr place i +32 size)) (Sched.initial_frame (Sched.thread_bootstrap place)) s) as H.
  destruct (Sched.push_words _ _ _ _ _) as [sp s1]. cbn [snd] in H. rewrite <- H. by apply slots_upd.
Qed.

(** A new process takes the first free slot, and no other changes. *)
Lemma slots_create e size s i :
  first_index Sched.free_slot (Sched.processes s) = Some i →
  slots (snd (Sched.process_create place (Some e) size s)) = <[i := Slot (ServiceSpec.new_pid s) false true]> (slots s).
Proof.
  intros Hi. unfold Sched.process_create, Sched.scheduler_create_thread, Sched.alloc_process_slot. rewrite Hi.
  set (s0 := Sched.emit _ _). assert (E0 : slots s0 = <[i := Slot (-1) true false]> (slots s)) by (by apply slots_set).
  assert (Ep : (Sched.acquire_pid s0).1 = ServiceSpec.new_pid s).
  { unfold Sched.acquire_pid, ServiceSpec.new_pid, s0, Sched.upd. destruct (Sched.processes s !! i); cbn; by case_match. }
  destruct (Sched.acquire_pid s0) as [pid s1] eqn:E1. cbn [fst] in Ep. subst pid.
  assert (Es1 : slots s1 = slots s0) by (unfold Sched.acquire_pid in E1; injection E1 as _ <-; by case_match).
  set (s2 := Sched.scheduler_enqueue_ready i _).
  assert (E2 : slots s2 = <[i := Slot (ServiceSpec.new_pid s) false true]> (slots s)).
  { unfold s2. rewrite slots_enqueue. unfold Sched.scheduler_arm_timeslice. rewrite slots_upd, slots_frame by done.
    rewrite (slots_set i _ (Slot (ServiceSpec.new_pid s) false true)).
    2:{ intros p _. unfold slot_view, Sched.free_slot, Sched.listed. cbn. by rewrite (proj2 (Z.ltb_lt _ _) (ServiceSpec.new_pid_pos s)). }
    by rewrite Es1, E0, list_insert_insert_eq. }
  unfold Sched.created. cbn [snd]. set (s3 := if _ && _ then _ else _).
  assert (E3 : slots s3 = slots s2).
  { unfold s3. destruct (true && _); [|done]. unfold Sched.scheduler_send_event, Sched.log_process_event. by repeat case_match. }
  rewrite <- E2, <- E3. match goal with |- context [if ?b then Sched.emit _ _ else _] => by destruct b end.
Qed.

Lemma first_free s : first_index Sched.free_slot (Sched.processes s) = first_index slot_free (slots s).
Proof. unfold slots. induction (Sched.processes s) as [|p l IH]; [done|]. cbn [first_index fmap list_fmap]. by rewrite IH. Qed.

(** A process is created exactly when a slot is free, and takes it. *)
Lemma create_slots {W Ctx} event e size (s : machine W Ctx) pid s' :
  Service.process_create place event (Some e) size s = Some (pid, s') →
  machine_slots s' = match first_index slot_free (machine_slots s) with
                     | Some i => <[i := Slot (ServiceSpec.new_pid (Ipc.sys (kern s))) false true]> (machine_slots s)
                     | None => machine_slots s
                     end.
Proof.
  unfold Service.process_create. set (p := with_service _ _). intros E. destruct (Sched.process_create place (Some e) size p) as [q p'] eqn:Ec.
  apply bind_Some in E as (s1 & H1 & E). injection E as _ <-. apply effects_slots in H1. rewrite H1.
  change (machine_slots (set_kern _ s)) with (slots p'). change (machine_slots s) with (slots p). rewrite <- first_free.
  destruct (first_index _ _) as [i|] eqn:Ei.
  - pose proof (slots_create e size p i Ei) as H. by rewrite Ec in H.
  - rewrite (ServiceSpec.create_pid_none place e size p Ei) in Ec. by injection Ec as _ <-.
Qed.

End create.
End Slots.
