(* ===== verification/ServiceProps.v ===== *)
(** The theorems about services, against the files as the log sees them. *)

From S2P Require Import Prelude Arrays Bytes Memory Sched SchedRun Ipc IpcSpec IpcCaps IpcRun IpcExamples Block.
From S2P Require Import Klog KlogRun KlogFiles KlogProps Service ServiceSpec.
From S2P Require Import VfsPath Ramfs RamfsSpec Vfs VfsSpec VfsRamfs.

Module ServiceProps.

Import VfsRamfs IpcSpec Klog KlogSpec KlogRun KlogFiles KlogProps Service ServiceSpec.

Section service.
Context {W Ctx : Type} (v : Vfs.vfs W Ctx) `{!FilesReturn v} (place : Sched.placement) (stack : list Z).
Implicit Types (s : machine W Ctx) (t : list service_entry) (a : alog).

(** What [service_start] returns for an entry of the table, and what it leaves there. *)
Definition start_result (e : service_entry) s : Z :=
  match sv_entry e with None => -1 | Some _ => if 0 <? sv_pid e then sv_pid e else next_process s end.

Definition start_table (i : nat) (e : service_entry) s t : list service_entry :=
  if 0 <? start_result e s then <[i := set_pid (start_result e s) e]> t else t.

Definition start_log (e : service_entry) s a : alog :=
  match sv_entry e with
  | None => a
  | Some entry =>
      if 0 <? sv_pid e then a
      else if 0 <? next_process s then a_emit (Some (service_tag e)) KLOG_INFO (lit "service started") (a_create place entry Sched.PROC_STACK_SIZE s a)
      else a_emit (Some (service_tag e)) KLOG_ERROR (lit "service spawn failed") (a_create place entry Sched.PROC_STACK_SIZE s a)
  end.

Lemma start_ok (Hstack : length stack = EVENT_SIZE) service i e t s a :
  sim v t s a → services_ok t → service_index service = Some i → t !! i = Some e →
  ∃ s', service_start place stack service s = Some (start_result e s, s') ∧ sim v (start_table i e s t) s' (start_log e s a) ∧
    services_ok (start_table i e s t).
Proof.
  intros Hs Ht Hi He. assert (Heo : entry_ok e) by (by eapply Forall_lookup_1; [apply Ht|]).
  unfold start_table, start_log, start_result. destruct (sv_entry e) as [entry|] eqn:Hen.
  - destruct (0 <? sv_pid e) eqn:Ep.
    + rewrite Ep. exists s. unfold service_start. rewrite Hi, (mo_services _ _ _ (proj1 Hs)), He. cbn [mbind option_bind].
      rewrite Hen, Ep. replace (set_pid (sv_pid e) e) with e by (by destruct e). by rewrite list_insert_id.
    + bool_prop. destruct (start_new v place stack Hstack service i e entry t s a Hs Ht Hi He Hen Ep) as (s' & E & H').
      exists s'. split; [done|]. destruct (0 <? next_process s) eqn:En; [|done]. split; [done|].
      apply services_insert; [done|]. apply set_pid_ok; [done|]. bool_prop. by right.
  - exists s. unfold service_start. rewrite Hi, (mo_services _ _ _ (proj1 Hs)), He. cbn [mbind option_bind]. by rewrite Hen.
Qed.

(** C26: starting a service.  For every entry of a table of services the call completes
    with all it causes (the new process with its endpoint, the messages to the log, the
    scheduler's channel and the log service, the list of tasks): it returns -1 for a
    service that is not registered, the pid of a service that runs, the pid of a new
    process when there is a free slot for it and -1 when there is none; the table has the
    new pid and nothing else has changed in it; the log has the message that says which;
    and once the service runs, starting it again returns the same pid and changes nothing. *)
Theorem service_start_correct service i e t s a :
  length stack = EVENT_SIZE → sim v t s a → services_ok t → service_index service = Some i → t !! i = Some e →
  ∃ s', service_start place stack service s = Some (start_result e s, s') ∧
    sim v (start_table i e s t) s' (start_log e s a) ∧ services_ok (start_table i e s t) ∧
    (0 < start_result e s → service_start place stack service s' = Some (start_result e s, s')).
Proof.
  intros Hst Hs Ht Hi He. destruct (start_ok Hst service i e t s a Hs Ht Hi He) as (s' & E & H' & Ht').
  exists s'. split; [done|]. split; [done|]. split; [done|]. intros Hr.
  unfold service_start at 1. rewrite Hi, (mo_services _ _ _ (proj1 H')). unfold start_table. rewrite (proj2 (Z.ltb_lt _ _)) by done.
  rewrite list_lookup_insert_eq by (by eapply lookup_lt_Some). cbn [mbind option_bind set_pid sv_entry sv_pid].
  destruct (sv_entry e) eqn:Hen; [by rewrite (proj2 (Z.ltb_lt _ _))|]. unfold start_result in Hr. rewrite Hen in Hr. lia.
Qed.

Lemma running_pid_ok (Hstack : length stack = EVENT_SIZE) service i e t s a :
  sim v t s a → services_ok t → service_index service = Some i → t !! i = Some e →
  ∃ p s' t' a', running_pid place stack service (sv_pid e) s = Some (p, s') ∧ sim v t' s' a' ∧ services_ok t' ∧
    (0 < p → ∃ e', t' !! i = Some e' ∧ sv_pid e' = p ∧ rights_default e' = rights_default e ∧ entry_ok e').
Proof.
  intros Hs Ht Hi He. unfold running_pid. assert (Heo : entry_ok e) by (by eapply Forall_lookup_1; [apply Ht|]).
  destruct (sv_pid e <=? 0) eqn:Ep; bool_prop; [|exists (sv_pid e), s, t, a; split; [done|]; eauto 10].
  destruct (start_ok Hstack service i e t s a Hs Ht Hi He) as (s' & -> & H' & Ht'). cbn [mbind option_bind].
  destruct (start_result e s <=? 0) eqn:Er; bool_prop; [exists (-1), s'; eexists _, _; split; [done|]; split; [exact H'|]; split; [done|lia]|].
  unfold service_pid. rewrite Hi, (mo_services _ _ _ (proj1 H')). unfold start_table in *. rewrite (proj2 (Z.ltb_lt _ _)) in * by done.
  rewrite list_lookup_insert_eq by (by eapply lookup_lt_Some). cbn [mbind option_bind].
  eexists _, s', _, _. split; [done|]. split; [exact H'|]. split; [done|]. intros _. eexists.
  rewrite list_lookup_insert_eq by (by eapply lookup_lt_Some). split; [done|]. split; [done|]. split; [done|]. apply set_pid_ok; [done|by right].
Qed.

Lemma grant_capabilities_ok requester service rights i e t s a :
  length stack = EVENT_SIZE → sim v t s a → services_ok t → service_index service = Some i → t !! i = Some e → 0 ≤ rights < 4294967296 →
  let effective := Z.lor (rights_default e) rights in
  ∃ r s' t' a', service_grant_capabilities place stack requester service rights s = Some (r, s') ∧
    sim v t' s' a' ∧ services_ok t' ∧ (r = 0 ∨ r = -1) ∧
    (r = 0 → ∃ e', t' !! i = Some e' ∧ 0 < sv_pid e' ∧
       holds_cap requester (sv_pid e') effective (kern s') ∧ holds_cap (sv_pid e') requester effective (kern s') ∧
       (requester ≤ 32 → client_rights e' !! Z.to_nat (requester - 1) = Some effective)).
Proof.
  intros Hst Hs Ht Hi He Hr effective. assert (Heo : entry_ok e) by (by eapply Forall_lookup_1; [apply Ht|]).
  assert (Heff : 0 ≤ effective < 4294967296) by (apply IpcCaps.lor_range; [apply Heo|done]).
  unfold service_grant_capabilities. rewrite Hi.
  destruct (requester <=? 0) eqn:Eq; [exists (-1), s, t, a; split_and!; auto; lia|]. bool_prop.
  rewrite (mo_services _ _ _ (proj1 Hs)), He. cbn [mbind option_bind]. fold effective.
  destruct (running_pid_ok Hst service i e t s a Hs Ht Hi He) as (p & s1 & t1 & a1 & -> & H1 & Ht1 & Hp). cbn [mbind option_bind].
  destruct (p <=? 0) eqn:Ep; [exists (-1), s1, t1, a1; split_and!; auto; lia|]. bool_prop.
  destruct (Hp ltac:(lia)) as (e1 & He1 & Hpid & _ & Heo1).
  destruct (grant_full requester p effective (kern s1)) as (r2 & k2 & -> & Hk2 & Hg2); [apply H1|done|]. cbn [mbind option_bind].
  assert (H2 : sim v t1 (set_kern k2 s1) a1) by (by apply sim_kern).
  destruct Hg2 as [[-> ->]|(-> & Hc2 & _)]; [exists (-1), (set_kern (kern s1) s1), t1, a1; split_and!; auto; lia|]. simpl (0 <? 0).
  destruct (grant_full p requester effective (kern (set_kern k2 s1))) as (r3 & k3 & -> & Hk3 & Hg3); [done|done|]. cbn [mbind option_bind].
  assert (H3 : sim v t1 (set_kern k3 (set_kern k2 s1)) a1) by (by apply sim_kern).
  destruct Hg3 as [[-> ->]|(-> & Hc3 & Hkeep)]; [eexists (-1), _, t1, a1; split; [done|]; split_and!; auto; lia|]. simpl (0 <? 0).
  set (s3 := set_kern k3 _) in *. destruct (requester <=? _) eqn:E32; bool_prop.
  - rewrite (mo_services _ _ _ (proj1 H3)), He1. cbn [mbind option_bind]. unfold set_client_rights.
    rewrite buf_store_ok by (rewrite (en_rights _ Heo1); unfold Sched.MAX_PROCS in *; lia). cbn [mbind option_bind].
    set (e' := ServiceEntry _ _ _ _ _ _). eexists 0, _, (<[i := e']> t1), a1. split; [done|].
    split; [eapply sim_services; [done|]; rewrite length_insert; apply Ht1|]. split.
    { apply services_insert; [done|]. destruct Heo1. constructor; simpl; [by rewrite length_insert|done..]. }
    split; [by left|]. intros _. exists e'. rewrite list_lookup_insert_eq by (by eapply lookup_lt_Some). split; [done|].
    unfold e'. cbn [sv_pid client_rights]. rewrite Hpid. split; [lia|]. split; [by apply Hkeep|]. split; [done|]. intros _.
    apply list_lookup_insert_eq. rewrite (en_rights _ Heo1). unfold Sched.MAX_PROCS in *. lia.
  - eexists 0, s3, t1, a1. split; [done|]. split; [done|]. split; [done|]. split; [by left|]. intros _. exists e1.
    rewrite Hpid. split; [done|]. split; [lia|]. split; [by apply Hkeep|]. split; [done|]. unfold Sched.MAX_PROCS in *. lia.
Qed.

(** Granting access to a service.  Whoever asks, for every entry of the table, the
    call completes and returns 0 or -1, starting the service when it does not run; when
    it returns 0 the service runs, the requester holds towards it, and it towards the
    requester, at least its default rights together with those asked for, and the table
    records them for a requester whose pid has a place in it. *)
Theorem service_grant_correct requester service rights i e t s a :
  length stack = EVENT_SIZE → sim v t s a → services_ok t → service_index service = Some i → t !! i = Some e → 0 ≤ rights < 4294967296 →
  let effective := Z.lor (rights_default e) rights in
  ∃ r s' t' a', service_grant_capabilities place stack requester service rights s = Some (r, s') ∧
    sim v t' s' a' ∧ services_ok t' ∧ (r = 0 ∨ r = -1) ∧
    (r = 0 → ∃ e', t' !! i = Some e' ∧ 0 < sv_pid e' ∧
       holds_cap requester (sv_pid e') effective (kern s') ∧ holds_cap (sv_pid e') requester effective (kern s') ∧
       (requester ≤ 32 → client_rights e' !! Z.to_nat (requester - 1) = Some effective)).
Proof. apply grant_capabilities_ok. Qed.

End service.
(** ** A concrete machine: two processes, and a log service to start *)

Definition logd : service_entry := ServiceEntry 3 (Some (lit "logd")) (Some 8192) (-1) 3 (replicate 32 0).
Definition service_table : list service_entry := <[3%nat := logd]> no_services.
Definition service_machine : machine Vfs.ramfs_world (option Vfs.volume_id) :=
  Machine _ _ zero_log IpcExamples.two_processes service_table demo_tree VfsRamfs.demo_world.

Lemma service_sim : sim demo_tree service_table service_machine a_start.
Proof.
  destruct demo_sim as [[_ _ _ Hf Hw] Hl]. split; [|exact Hl]. constructor; [apply IpcExamples.two_processes_ok|done|done|done|exact Hw].
Qed.

Lemma service_table_ok : services_ok service_table.
Proof. split; [done|]. repeat (apply Forall_cons; split; [constructor; vm_compute; (done || by left)|]). constructor. Qed.

Lemma service_start_correct_witness :
  start_result logd service_machine = 3 ∧
  ∃ s', service_start SchedRun.stacks (replicate 128 0) 3 service_machine = Some (3, s') ∧
    service_start SchedRun.stacks (replicate 128 0) 3 s' = Some (3, s').
Proof.
  assert (Hr : start_result logd service_machine = 3) by (vm_compute; reflexivity). split; [exact Hr|].
  destruct (service_start_correct demo_tree SchedRun.stacks (replicate 128 0) 3 3 logd service_table service_machine a_start)
    as (s' & E & _ & _ & Hagain).
  - reflexivity.
  - exact service_sim.
  - exact service_table_ok.
  - reflexivity.
  - reflexivity.
  - rewrite Hr in E, Hagain. exists s'. split; [exact E|]. apply Hagain. lia.
Defined.

Lemma service_grant_correct_witness :
  ∃ s' e', service_grant_capabilities SchedRun.stacks (replicate 128 0) 1 3 4 service_machine = Some (0, s') ∧
    holds_cap 1 (sv_pid e') 7 (kern s') ∧ holds_cap (sv_pid e') 1 7 (kern s') ∧ client_rights e' !! 0%nat = Some 7.
Proof.
  destruct (service_grant_correct demo_tree SchedRun.stacks (replicate 128 0) 1 3 4 3 logd service_table service_machine a_start)
    as (r & s' & t' & a' & E & _ & _ & _ & Hc).
  - reflexivity.
  - exact service_sim.
  - exact service_table_ok.
  - reflexivity.
  - reflexivity.
  - lia.
  - assert (Hr : r = 0).
    { assert (Hv : fst <$> service_grant_capabilities SchedRun.stacks (replicate 128 0) 1 3 4 service_machine = Some 0) by (vm_compute; reflexivity).
      rewrite E in Hv. by apply (inj Some) in Hv. }
    destruct (Hc Hr) as (e' & _ & _ & H1 & H2 & H3). exists s', e'. rewrite Hr in E. split; [exact E|]. split; [exact H1|]. split; [exact H2|].
    apply H3. lia.
Defined.

End ServiceProps.
