(* ===== verification/Syscall.v ===== *)
(** System calls (kernel/syscall.c): the checks of pointers that come from a process,
    the handlers, the table of handlers and the entry point.

    The memory is flat, as it is without paging: a byte for every address.  The tables of
    the kernel are the records of the other files, beside this memory; on the machine
    they lie at addresses of it, below the limit that the checks of pointers know, so the
    model is that of the code for calls whose envelopes and buffers keep off those
    addresses ([call_sound] of SyscallSpec.v, with any set of addresses).  A handler
    that gives up the processor stops there; what it still has to do when its process
    runs again is a value of [pending], and [syscall_resume] does it.  The bytes of
    arrays on the stack that the code has not written are an argument, and so is what
    handlers registered by others do. *)

From S2P Require Import Prelude Arrays Bytes Memory Sched SchedRun Ipc Sync Block Klog Service.
From S2P Require Vfs.

Module Syscall.

Import Bytes.

Definition CONFIG_USER_SPACE_LIMIT : Z := Ipc.CONFIG_USER_SPACE_LIMIT.
Definition CONFIG_MSG_DATA_MAX : Z := 256.
Definition CONFIG_IPC_CHANNEL_NAME_MAX : Z := 32.
Definition SYSCALL_MAX_ARGS : Z := 4.
Definition SYSCALL_TABLE_SIZE : nat := 64.
Definition ENVELOPE_SIZE : Z := 32.
Definition IPC_MESSAGE_SIZE : Z := 20.

(** ** Memory *)

Abbreviation memory := (gmap Z Z).

Definition byte_at (m : memory) (a : Z) : Z := u8 (default 0 (m !! a)).

(** [n] bytes from an address on. *)
Fixpoint load (m : memory) (a : Z) (n : nat) : list Z :=
  match n with O => [] | S n' => byte_at m a :: load m (a +32 1) n' end.

Fixpoint store (m : memory) (a : Z) (l : list Z) : memory :=
  match l with [] => m | x :: l' => store (<[a := x]> m) (a +32 1) l' end.

Definition word (l : list Z) (i : nat) : Z :=
  let b j := default 0 (l !! (i + j)%nat) in b 0%nat + 256 * b 1%nat + 65536 * b 2%nat + 16777216 * b 3%nat.

Definition load32 (m : memory) (a : Z) : Z := word (load m a 4) 0.
Definition store32 (m : memory) (a v : Z) : memory := store m a (le32 (u32 v)).

Definition copy_from_user (m : memory) (src : Z) (len : Z) : list Z := load m src (Z.to_nat len).

(** The store of a copy; it may go to any address that the check of the caller lets through. *)
Definition copy_to_user (m : memory) (dst : Z) (bytes : list Z) : memory := store m dst bytes.

Definition syscall_validate_user_pointer (addr : Z) : bool :=
  if addr =? 0 then false else if CONFIG_USER_SPACE_LIMIT <=? addr then false else true.

Definition syscall_validate_user_buffer (addr length' : Z) : bool :=
  if length' =? 0 then true
  else if negb (syscall_validate_user_pointer addr) then false
  else if addr +32 length' <? addr then false
  else if CONFIG_USER_SPACE_LIMIT <=? addr +32 length' then false
  else true.

(** ** The system *)

Inductive handler :=
| HWrite | HYield | HSpawn | HSend | HRecv | HExit | HChanCreate | HChanJoin | HChanLeave | HChanPeek
| HServiceChannel | HSleep | HIpcSend | HIpcRecv | HIpcShare | HServiceConnect | HSchedSet
| HMutexCreate | HMutexLock | HMutexUnlock | HSemCreate | HSemWait | HSemPost
| HOther (address : Z).
#[export] Instance handler_eq_dec : EqDecision handler.
Proof. solve_decision. Defined.

Record syscall_entry := Entry { e_handler : option handler; e_name : cstring }.

(** [console] has the characters given to [vga_write_char]. *)
Record system {W Ctx : Type} := System {
  mach : Klog.machine W Ctx;
  locks : Sync.sync;
  mem : memory;
  syscall_table : list syscall_entry;
  console : list Z
}.
Arguments system : clear implicits.

(** What a call still has to do when its process runs again. *)
Inductive pending :=
| PReturn (r : Z)
| PRecv (i : nat) (source buffer max : Z)
| PChannel (i c : nat) (channel_id user_message user_buffer user_capacity flags : Z)
| PLock (id : Z)
| PWait (id : Z)
| PNever.

Inductive outcome {W Ctx : Type} :=
| Returns (r : Z) (s : system W Ctx)
| Suspends (p : pending) (s : system W Ctx).
Arguments outcome : clear implicits.

Section syscall.
Context {W Ctx : Type} (place : Sched.placement) (stack data_buf : list Z).
Context (other : Z → Z → system W Ctx → option (outcome W Ctx)).
(** The tick counts the scheduler reads during the call. *)
Context (now now' : Z).
Implicit Types s : system W Ctx.

Definition set_mach (x : Klog.machine W Ctx) s : system W Ctx := System _ _ x (locks s) (mem s) (syscall_table s) (console s).
Definition set_locks (x : Sync.sync) s : system W Ctx := System _ _ (mach s) x (mem s) (syscall_table s) (console s).
Definition set_mem (x : memory) s : system W Ctx := System _ _ (mach s) (locks s) x (syscall_table s) (console s).
Definition set_table (x : list syscall_entry) s : system W Ctx := System _ _ (mach s) (locks s) (mem s) x (console s).
Definition set_console (x : list Z) s : system W Ctx := System _ _ (mach s) (locks s) (mem s) (syscall_table s) x.

Definition kern s : Ipc.kernel := Klog.kern (mach s).
Definition set_kern (k : Ipc.kernel) s : system W Ctx := set_mach (Klog.set_kern k (mach s)) s.
Definition sys s : Sched.sched := Ipc.sys (kern s).
Definition set_sys (p : Sched.sched) s : system W Ctx := set_kern (Ipc.with_sys (fun _ => p) (kern s)) s.

(** The fields of the envelope at an address. *)
Definition msg_number s (msg : Z) : Z := load32 (mem s) msg.
Definition msg_argc s (msg : Z) : Z := load32 (mem s) (msg +32 4).
Definition msg_arg s (msg : Z) (i : Z) : Z := load32 (mem s) (msg +32 (8 + 4 * i)).

Definition ret (r : Z) s : option (outcome W Ctx) := Some (Returns r s).

(** [-1] when the call has fewer than [n] arguments. *)
Definition with_args (n : Z) (msg : Z) s (f : option (outcome W Ctx)) : option (outcome W Ctx) :=
  if msg_argc s msg <? n then ret (-1) s else f.

Definition of_kernel (r : option (Z * Ipc.kernel)) s : option (outcome W Ctx) := '(r, k) ← r; ret r (set_kern k s).

(** ** The scheduler *)

Definition sys_write_handler (msg : Z) s : option (outcome W Ctx) :=
  with_args 2 msg s (
    let buf := msg_arg s msg 0 in
    let len := msg_arg s msg 1 in
    if len =? 0 then ret 0 s
    else if negb (syscall_validate_user_buffer buf len) then ret (-1) s
    else ret (s32 len) (set_console (console s ++ copy_from_user (mem s) buf len) s)).

(** A thread that is not the idle thread goes on when it is scheduled again. *)
Definition gives_up s (s' : system W Ctx) (p : pending) : option (outcome W Ctx) :=
  match Sched.running_thread (sys s) with None => ret 0 s' | Some _ => Some (Suspends p s') end.

Definition sys_yield_handler (msg : Z) s : option (outcome W Ctx) :=
  gives_up s (set_sys (Sched.process_yield now (sys s)) s) (PReturn 0).

Definition sys_spawn_handler (msg : Z) s : option (outcome W Ctx) :=
  with_args 2 msg s (
    let entry := msg_arg s msg 0 in
    let stack_size := msg_arg s msg 1 in
    if negb (syscall_validate_user_pointer entry) then ret (-1) s
    else '(pid, m) ← Service.process_create place stack (Some entry) stack_size (mach s); ret pid (set_mach m s)).

Definition sys_sleep_handler (msg : Z) s : option (outcome W Ctx) :=
  with_args 1 msg s (
    let ticks := msg_arg s msg 0 in
    gives_up s (set_sys (Sched.process_sleep ticks now now' (sys s)) s) (PReturn 0)).

(** [process_exit] returns only when there is no current process.  It first empties the
    endpoint of the process and takes it out of the table of services; the log lines,
    events and task lists of what follows are in the trace of the scheduler. *)
Definition process_exit (code : Z) s : option (outcome W Ctx) :=
  match Sched.process_current (sys s) with
  | None => ret 0 s
  | Some i =>
      p ← Sched.processes (sys s) !! i;
      k ← Ipc.ipc_process_cleanup i (kern s);
      let s := set_kern k s in
      let s := set_mach (Klog.set_services (Service.service_handle_exit (Sched.pid p) (Klog.services (mach s))) (mach s)) s in
      Some (Suspends PNever (set_sys (Sched.process_exit code now (sys s)) s))
  end.

Definition sys_exit_handler (msg : Z) s : option (outcome W Ctx) :=
  with_args 1 msg s (process_exit (s32 (msg_arg s msg 0)) s).

Definition sys_sched_set_handler (msg : Z) s : option (outcome W Ctx) :=
  with_args 4 msg s (
    let '(r, p) := Sched.process_set_scheduler (s32 (msg_arg s msg 0)) (u8 (msg_arg s msg 1)) (msg_arg s msg 2) (msg_arg s msg 3) now (sys s) in
    ret r (set_sys p s)).

(** ** Messages *)

Definition sys_ipc_send_handler (msg : Z) s : option (outcome W Ctx) :=
  with_args 3 msg s (
    let target := s32 (msg_arg s msg 0) in
    let buffer := msg_arg s msg 1 in
    let size := msg_arg s msg 2 in
    if CONFIG_MSG_DATA_MAX <? size then ret (-1) s
    else if (0 <? size) && negb (syscall_validate_user_buffer buffer size) then ret (-1) s
    else of_kernel (Ipc.ipc_send target (if 0 <? size then Some (copy_from_user (mem s) buffer size) else None) size (kern s)) s).

(** What [sys_ipc_recv_handler] does with the result of [ipc_recv]. *)
Definition recv_finish (buffer max rc : Z) (received : option (list Z)) s : option (outcome W Ctx) :=
  if rc <=? 0 then ret rc s
  else
    let scratch_cap := if CONFIG_MSG_DATA_MAX <? max then CONFIG_MSG_DATA_MAX else max in
    match received with
    | Some bytes =>
        if negb (buffer =? 0) && (0 <? max) then
          let copy_len := if max <? rc then max else rc in
          let copy_len := if scratch_cap <? copy_len then scratch_cap else copy_len in
          ret rc (set_mem (copy_to_user (mem s) buffer (take (Z.to_nat copy_len) bytes)) s)
        else ret rc s
    | None => ret rc s
    end.

Definition recv_outcome (buffer max source : Z) (r : Ipc.recv_result) s : option (outcome W Ctx) :=
  match r with
  | Ipc.RReturn rc received k => recv_finish buffer max rc received (set_kern k s)
  | Ipc.RWait k =>
      match Sched.process_current (Ipc.sys k) with
      | None => None
      | Some i => k ← Ipc.ipc_recv_block i now k; Some (Suspends (PRecv i source buffer max) (set_kern k s))
      end
  end.

(** [scratch], when there is room for anything. *)
Definition recv_buffer (max : Z) : option (list Z) * Z :=
  let scratch_cap := if CONFIG_MSG_DATA_MAX <? max then CONFIG_MSG_DATA_MAX else max in
  (if 0 <? scratch_cap then Some data_buf else None, scratch_cap).

Definition sys_ipc_recv_handler (msg : Z) s : option (outcome W Ctx) :=
  with_args 3 msg s (
    let source := s32 (msg_arg s msg 0) in
    let buffer := msg_arg s msg 1 in
    let max := msg_arg s msg 2 in
    if (0 <? max) && negb (syscall_validate_user_buffer buffer max) then ret (-1) s
    else
      let '(recv_buf, scratch_cap) := recv_buffer max in
      r ← Ipc.ipc_recv_begin source recv_buf scratch_cap (kern s);
      recv_outcome buffer max source r s).

Definition sys_ipc_share_handler (msg : Z) s : option (outcome W Ctx) :=
  with_args 3 msg s (
    let target := s32 (msg_arg s msg 0) in
    let addr := msg_arg s msg 1 in
    let pages := msg_arg s msg 2 in
    if pages =? 0 then ret (-1) s
    else if negb (syscall_validate_user_pointer addr) then ret (-1) s
    else
      let end_addr := addr +32 u32 (pages * Ipc.CONFIG_IPC_PAGE_SIZE) in
      if end_addr <? addr then ret (-1) s
      else if CONFIG_USER_SPACE_LIMIT <=? end_addr then ret (-1) s
      else of_kernel (Ipc.ipc_share target addr pages (kern s)) s).

(** The pid of the current process. *)
Definition current_pid s : option Z := i ← Sched.process_current (sys s); p ← Sched.processes (sys s) !! i; Some (Sched.pid p).

Definition sys_service_connect_handler (msg : Z) s : option (outcome W Ctx) :=
  with_args 2 msg s (
    let service := msg_arg s msg 0 in
    let rights := msg_arg s msg 1 in
    match current_pid s with
    | None => ret (-1) s
    | Some pid =>
        if pid <=? 0 then ret (-1) s
        else
          '(r, m) ← Service.service_grant_capabilities place stack pid service rights (mach s);
          let s := set_mach m s in
          if r <? 0 then ret (-1) s
          else r ← Klog.service_pid service (Klog.services (mach s)); ret r s
    end).

(** ** Channels *)

(** [struct ipc_message] as it lies in memory. *)
Definition sys_send_handler (msg : Z) s : option (outcome W Ctx) :=
  with_args 3 msg s (
    let channel_id := s32 (msg_arg s msg 0) in
    let user_message := msg_arg s msg 1 in
    let flags := msg_arg s msg 2 in
    if negb (syscall_validate_user_buffer user_message IPC_MESSAGE_SIZE) then ret (-1) s
    else
      let local := copy_from_user (mem s) user_message IPC_MESSAGE_SIZE in
      let size := word local 12 in
      let data := word local 16 in
      if CONFIG_MSG_DATA_MAX <? size then ret (-1) s
      else if (0 <? size) && negb (syscall_validate_user_buffer data size) then ret (-1) s
      else
        match current_pid s with
        | None => ret (-1) s
        | Some pid =>
            of_kernel (Ipc.ipc_channel_send channel_id pid (word local 0) (word local 8)
              (if 0 <? size then Some (copy_from_user (mem s) data size) else None) size flags (kern s)) s
        end).

(** What [sys_recv_handler] does with the result of [ipc_channel_receive]. *)
Definition channel_finish (user_message user_buffer user_capacity rc : Z) (out : option Ipc.ipc_message) (buffer : option (list Z)) s :
    option (outcome W Ctx) :=
  if rc <=? 0 then ret rc s
  else
    delivery ← out;
    let copy_len := if CONFIG_MSG_DATA_MAX <? Ipc.size delivery then CONFIG_MSG_DATA_MAX else Ipc.size delivery in
    let wants := negb (user_buffer =? 0) && (0 <? user_capacity) in
    let to_copy := if copy_len <? user_capacity then copy_len else user_capacity in
    let m := if wants && (0 <? to_copy) then copy_to_user (mem s) user_buffer (take (Z.to_nat to_copy) (default [] buffer)) else mem s in
    let header := if wants && (user_capacity <? copy_len) then Z.lor (Ipc.header delivery) Ipc.IPC_MESSAGE_TRUNCATED else Ipc.header delivery in
    let '(size, data) := if wants then (u32 to_copy, user_buffer) else (0, 0) in
    ret 1 (set_mem (copy_to_user m user_message
      (le32 header ++ le32 (u32 (Ipc.sender_pid delivery)) ++ le32 (Ipc.type delivery) ++ le32 size ++ le32 data)) s).

(** The buffer [ipc_channel_receive] is given, and its length. *)
Definition channel_buffer (user_buffer user_capacity : Z) : option (list Z) * Z :=
  if negb (user_buffer =? 0) && (0 <? user_capacity) then (Some data_buf, CONFIG_MSG_DATA_MAX) else (None, 0).

Definition channel_outcome (i c : nat) (channel_id user_message user_buffer user_capacity flags : Z) (r : Ipc.channel_result) s :
    option (outcome W Ctx) :=
  match r with
  | Ipc.CReturn rc out buffer k => channel_finish user_message user_buffer user_capacity rc out buffer (set_kern k s)
  | Ipc.CWait k =>
      Some (Suspends (PChannel i c channel_id user_message user_buffer user_capacity flags)
              (set_kern (Ipc.with_sys (Sched.process_block_current now) k) s))
  end.

Definition sys_recv_handler (msg : Z) s : option (outcome W Ctx) :=
  with_args 3 msg s (
    let channel_id := s32 (msg_arg s msg 0) in
    let user_message := msg_arg s msg 1 in
    let flags := msg_arg s msg 2 in
    if negb (syscall_validate_user_buffer user_message IPC_MESSAGE_SIZE) then ret (-1) s
    else
      let request := copy_from_user (mem s) user_message IPC_MESSAGE_SIZE in
      let user_buffer := word request 16 in
      let user_capacity := word request 12 in
      if negb (user_buffer =? 0) && (0 <? user_capacity) && negb (syscall_validate_user_buffer user_buffer user_capacity) then ret (-1) s
      else
        match Sched.process_current (sys s) with
        | None => ret (-1) s
        | Some i =>
            let '(buffer, len) := channel_buffer user_buffer user_capacity in
            r ← Ipc.ipc_channel_receive_begin i channel_id true buffer len flags (kern s);
            channel_outcome i (default 0%nat (Ipc.find_channel channel_id (kern s))) channel_id user_message user_buffer user_capacity flags r s
        end).

Definition sys_chan_create_handler (msg : Z) s : option (outcome W Ctx) :=
  with_args 2 msg s (
    let name := msg_arg s msg 0 in
    let name_len := msg_arg s msg 1 in
    let flags := if 3 <=? msg_argc s msg then msg_arg s msg 2 else 0 in
    if negb (name =? 0) && (0 <? name_len) then
      if negb (syscall_validate_user_buffer name name_len) then ret (-1) s
      else
        let copy_len := if name_len <? CONFIG_IPC_CHANNEL_NAME_MAX - 1 then name_len else CONFIG_IPC_CHANNEL_NAME_MAX - 1 in
        of_kernel (Ipc.ipc_channel_create (Some (copy_from_user (mem s) name copy_len ++ [0])) (Z.to_nat copy_len) flags (kern s)) s
    else of_kernel (Ipc.ipc_channel_create None 0 flags (kern s)) s).

Definition with_process (f : nat → option (outcome W Ctx)) s : option (outcome W Ctx) :=
  match Sched.process_current (sys s) with None => ret (-1) s | Some i => f i end.

Definition sys_chan_join_handler (msg : Z) s : option (outcome W Ctx) :=
  with_args 1 msg s (with_process (fun i => of_kernel (Ipc.ipc_channel_join i (s32 (msg_arg s msg 0)) (kern s)) s) s).

Definition sys_chan_leave_handler (msg : Z) s : option (outcome W Ctx) :=
  with_args 1 msg s (with_process (fun i => of_kernel (Ipc.ipc_channel_leave i (s32 (msg_arg s msg 0)) (kern s)) s) s).

Definition sys_chan_peek_handler (msg : Z) s : option (outcome W Ctx) :=
  with_args 1 msg s (r ← Ipc.ipc_channel_peek (s32 (msg_arg s msg 0)) (kern s); ret r s).

Definition sys_service_channel_handler (msg : Z) s : option (outcome W Ctx) :=
  with_args 1 msg s (r ← Ipc.ipc_get_service_channel (s32 (msg_arg s msg 0)) (kern s); ret r s).

(** ** Mutexes and semaphores *)

Definition of_sync (r : option (Z * Sched.sched * Sync.sync)) s : option (outcome W Ctx) :=
  '(r, p, y) ← r; ret r (set_locks y (set_sys p s)).

Definition sync_outcome (p : pending) (r : option Sync.outcome) s : option (outcome W Ctx) :=
  r ← r;
  Some (match r with
        | Sync.Returned r p' y => Returns r (set_locks y (set_sys p' s))
        | Sync.Asleep p' y => Suspends p (set_locks y (set_sys p' s))
        end).

Definition sys_mutex_create_handler (msg : Z) s : option (outcome W Ctx) :=
  let '(r, y) := Sync.sync_mutex_create (locks s) in ret r (set_locks y s).

Definition sys_mutex_lock_handler (msg : Z) s : option (outcome W Ctx) :=
  with_args 1 msg s (let id := s32 (msg_arg s msg 0) in sync_outcome (PLock id) (Sync.sync_mutex_lock id now (sys s) (locks s)) s).

Definition sys_mutex_unlock_handler (msg : Z) s : option (outcome W Ctx) :=
  with_args 1 msg s (of_sync (Sync.sync_mutex_unlock (s32 (msg_arg s msg 0)) (sys s) (locks s)) s).

Definition sys_sem_create_handler (msg : Z) s : option (outcome W Ctx) :=
  with_args 1 msg s (let '(r, y) := Sync.sync_semaphore_create (s32 (msg_arg s msg 0)) (locks s) in ret r (set_locks y s)).

Definition sys_sem_wait_handler (msg : Z) s : option (outcome W Ctx) :=
  with_args 1 msg s (let id := s32 (msg_arg s msg 0) in sync_outcome (PWait id) (Sync.sync_semaphore_wait id now (sys s) (locks s)) s).

Definition sys_sem_post_handler (msg : Z) s : option (outcome W Ctx) :=
  with_args 1 msg s (of_sync (Sync.sync_semaphore_post (s32 (msg_arg s msg 0)) (sys s) (locks s)) s).

(** ** Dispatch *)

Definition call_handler (h : handler) (msg : Z) s : option (outcome W Ctx) :=
  match h with
  | HWrite => sys_write_handler msg s
  | HYield => sys_yield_handler msg s
  | HSpawn => sys_spawn_handler msg s
  | HSend => sys_send_handler msg s
  | HRecv => sys_recv_handler msg s
  | HExit => sys_exit_handler msg s
  | HChanCreate => sys_chan_create_handler msg s
  | HChanJoin => sys_chan_join_handler msg s
  | HChanLeave => sys_chan_leave_handler msg s
  | HChanPeek => sys_chan_peek_handler msg s
  | HServiceChannel => sys_service_channel_handler msg s
  | HSleep => sys_sleep_handler msg s
  | HIpcSend => sys_ipc_send_handler msg s
  | HIpcRecv => sys_ipc_recv_handler msg s
  | HIpcShare => sys_ipc_share_handler msg s
  | HServiceConnect => sys_service_connect_handler msg s
  | HSchedSet => sys_sched_set_handler msg s
  | HMutexCreate => sys_mutex_create_handler msg s
  | HMutexLock => sys_mutex_lock_handler msg s
  | HMutexUnlock => sys_mutex_unlock_handler msg s
  | HSemCreate => sys_sem_create_handler msg s
  | HSemWait => sys_sem_wait_handler msg s
  | HSemPost => sys_sem_post_handler msg s
  | HOther address => other address msg s
  end.

Definition syscall_invoke (msg : Z) s : option (outcome W Ctx) :=
  let number := msg_number s msg in
  if Z.of_nat SYSCALL_TABLE_SIZE <=? number then ret (-1) s
  else
    e ← syscall_table s !! Z.to_nat number;
    match e_handler e with None => ret (-1) s | Some h => call_handler h msg s end.

(** [message->result = r; message->status = ...;] *)
Definition set_result (msg r : Z) s : system W Ctx :=
  set_mem (store32 (store32 (mem s) (msg +32 24) r) (msg +32 28) (if r <? 0 then 1 else 0)) s.

(** The end of [syscall_handler], when the handler has returned. *)
Definition syscall_finish (msg : Z) (o : outcome W Ctx) : outcome W Ctx :=
  match o with
  | Returns r s => Returns (u32 r) (set_result msg r s)
  | Suspends p s => Suspends p s
  end.

(** [frame->eax] comes in and goes out. *)
Definition syscall_handler (eax : Z) s : option (outcome W Ctx) :=
  if negb (syscall_validate_user_buffer eax ENVELOPE_SIZE) then ret (u32 (-1)) s
  else if SYSCALL_MAX_ARGS <? msg_argc s eax then
    ret (u32 (-1)) (set_mem (store32 (store32 (mem s) (eax +32 28) 1) (eax +32 24) (-1)) s)
  else o ← syscall_invoke eax s; Some (syscall_finish eax o).

(** The rest of a handler whose process runs again. *)
Definition syscall_continue (p : pending) s : option (outcome W Ctx) :=
  match p with
  | PReturn r => ret r s
  | PRecv i source buffer max =>
      let '(recv_buf, scratch_cap) := recv_buffer max in
      r ← Ipc.ipc_recv_resume i source recv_buf scratch_cap (kern s);
      recv_outcome buffer max source r s
  | PChannel i c channel_id user_message user_buffer user_capacity flags =>
      let '(buffer, len) := channel_buffer user_buffer user_capacity in
      r ← Ipc.channel_receive_round i c channel_id true buffer len flags (kern s);
      channel_outcome i c channel_id user_message user_buffer user_capacity flags r s
  | PLock id => sync_outcome (PLock id) (Sync.sync_mutex_lock id now (sys s) (locks s)) s
  | PWait id => sync_outcome (PWait id) (Sync.sync_semaphore_wait id now (sys s) (locks s)) s
  | PNever => None
  end.

Definition syscall_resume (msg : Z) (p : pending) s : option (outcome W Ctx) :=
  o ← syscall_continue p s; Some (syscall_finish msg o).

End syscall.

(** ** The table *)

Definition syscall_register_handler (number : Z) (h : option handler) (name : cstring) (t : list syscall_entry) : option (Z * list syscall_entry) :=
  match h with
  | None => Some (-1, t)
  | Some h =>
      if Z.of_nat SYSCALL_TABLE_SIZE <=? number then Some (-1, t)
      else
        e ← t !! Z.to_nat number;
        match e_handler e with
        | Some h' => if negb (bool_decide (h' = h)) then Some (-1, t) else Some (0, <[Z.to_nat number := Entry (Some h) name]> t)
        | None => Some (0, <[Z.to_nat number := Entry (Some h) name]> t)
        end
  end.

Definition syscall_unregister_handler (number : Z) (t : list syscall_entry) : Z * list syscall_entry :=
  if Z.of_nat SYSCALL_TABLE_SIZE <=? number then (-1, t) else (0, <[Z.to_nat number := Entry None []]> t).

Definition builtin : list (Z * handler * cstring) :=
  [(0, HWrite, lit "sys_write"); (1, HYield, lit "sys_yield"); (2, HSpawn, lit "sys_spawn"); (3, HSend, lit "sys_send");
   (4, HRecv, lit "sys_recv"); (5, HExit, lit "sys_exit"); (6, HChanCreate, lit "sys_chan_create"); (7, HChanJoin, lit "sys_chan_join");
   (8, HChanLeave, lit "sys_chan_leave"); (9, HChanPeek, lit "sys_chan_peek"); (10, HServiceChannel, lit "sys_get_service_channel");
   (11, HSleep, lit "sys_sleep"); (12, HIpcSend, lit "sys_ipc_send"); (13, HIpcRecv, lit "sys_ipc_recv"); (14, HIpcShare, lit "sys_ipc_share");
   (15, HServiceConnect, lit "sys_service_connect"); (16, HSchedSet, lit "sys_sched_set"); (17, HMutexCreate, lit "sys_mutex_create");
   (18, HMutexLock, lit "sys_mutex_lock"); (19, HMutexUnlock, lit "sys_mutex_unlock"); (20, HSemCreate, lit "sys_sem_create");
   (21, HSemWait, lit "sys_sem_wait"); (22, HSemPost, lit "sys_sem_post")].

Fixpoint register_all (l : list (Z * handler * cstring)) (t : list syscall_entry) : option (list syscall_entry) :=
  match l with
  | [] => Some t
  | (number, h, name) :: l' => '(_, t) ← syscall_register_handler number (Some h) name t; register_all l' t
  end.

Definition syscall_init (t : list syscall_entry) : option (list syscall_entry) :=
  register_all builtin ((fun _ => Entry None []) <$> t).

End Syscall.
