(* ===== verification/SyscallRead.v ===== *)
(** Lemmas about system calls: memory and the checks of pointers.

    System calls read no memory outside the range of processes: from two systems whose
    memories agree on that range they do the same. *)

From S2P Require Import Prelude Memory Sched SchedRun Arrays Ipc Sync Bytes Block Klog Service Syscall.

Module SyscallMem.

Import Bytes Syscall.

(** Addresses a process may use: from 1 up to the limit. *)
Definition user_address (a : Z) : Prop := 0 < a < CONFIG_USER_SPACE_LIMIT.

(** A block of bytes that lies in that range. *)
Definition user_block (a n : Z) : Prop := 0 < a ∧ a + n < CONFIG_USER_SPACE_LIMIT.

(** Values of a 32-bit register. *)
Definition reg (a : Z) : Prop := 0 ≤ a < 4294967296.

Lemma limit_value : CONFIG_USER_SPACE_LIMIT = 2147483648.
Proof. done. Qed.

(** The checks, with their sums at 32 bits, accept exactly the blocks below the limit. *)
Lemma validate_pointer_spec a : reg a → syscall_validate_user_pointer a = true ↔ user_address a.
Proof.
  unfold reg, user_address, syscall_validate_user_pointer. rewrite limit_value. intros H. cases; split; intros; (done || lia).
Qed.

Lemma validate_buffer_spec a n : reg a → reg n → syscall_validate_user_buffer a n = true ↔ n = 0 ∨ user_block a n.
Proof.
  unfold reg, user_block, syscall_validate_user_buffer, syscall_validate_user_pointer. rewrite limit_value. intros Ha Hn.
  destruct (n =? 0) eqn:En; bool_prop; [tauto|].
  destruct (a =? 0) eqn:E0; bool_prop; simpl; [split; [done|lia]|].
  destruct (2147483648 <=? a) eqn:E1; bool_prop; simpl; [split; [done|lia]|].
  assert (Hs : u32 (a + n) = a + n ∨ (4294967296 ≤ a + n ∧ u32 (a + n) < a)).
  { destruct (decide (a + n < 4294967296)); [left; apply u32_small; lia|right]. split; [lia|].
    unfold u32. rewrite <- (Z_mod_plus_full (a + n) (-1)), Z.mod_small; lia. }
  destruct (u32 (a + n) <? a) eqn:E2; bool_prop.
  - split; [done|]. destruct Hs; lia.
  - destruct Hs as [->|[? ?]]; [|lia]. destruct (2147483648 <=? a + n) eqn:E3; bool_prop; split; intros; (done || lia).
Qed.

(** ** Loads and stores *)

Lemma load_length m a n : length (load m a n) = n.
Proof. revert a. induction n; intros a; simpl; auto. Qed.

Lemma load_bytes m a n : bytes (load m a n).
Proof. revert a. induction n as [|n IH]; intros a; [by constructor|]. apply Forall_cons. split; [apply u8_range|apply IH]. Qed.

Lemma word_range l i : bytes l → reg (word l i).
Proof.
  intros Hl. unfold word, reg.
  assert (Hb : ∀ j, 0 ≤ default 0 (l !! j) < 256).
  { intros j. destruct (l !! j) as [x|] eqn:E; simpl; [|lia]. exact (Forall_lookup_1 _ _ _ _ Hl E). }
  pose proof (Hb (i + 0)%nat). pose proof (Hb (i + 1)%nat). pose proof (Hb (i + 2)%nat). pose proof (Hb (i + 3)%nat). lia.
Qed.

Lemma load32_range m a : reg (load32 m a).
Proof. apply word_range, load_bytes. Qed.

Lemma next_address a n : 0 ≤ a → a + Z.of_nat (S n) < CONFIG_USER_SPACE_LIMIT → a +32 1 = a + 1.
Proof. rewrite limit_value. intros. apply u32_small. lia. Qed.

(** A store changes only the bytes it covers. *)
Lemma store_frame m a l x :
  0 ≤ a → a + Z.of_nat (length l) < CONFIG_USER_SPACE_LIMIT → ¬ (a ≤ x < a + Z.of_nat (length l)) → store m a l !! x = m !! x.
Proof.
  revert m a. induction l as [|y l IH]; intros m a Ha Hb Hx; [done|]. cbn [store length] in *.
  rewrite (next_address a (length l)) by lia. rewrite IH by lia. apply lookup_insert_ne. lia.
Qed.

(** Memory outside the range of processes is as it was. *)
Definition outside (m m' : memory) : Prop := ∀ x, ¬ user_address x → m' !! x = m !! x.

Lemma outside_refl m : outside m m.
Proof. done. Qed.

Lemma outside_trans m1 m2 m3 : outside m1 m2 → outside m2 m3 → outside m1 m3.
Proof. intros H1 H2 x Hx. rewrite H2 by done. by apply H1. Qed.

Lemma store_outside m a l : user_block a (Z.of_nat (length l)) → outside m (store m a l).
Proof.
  intros [Ha Hb] x Hx. apply store_frame; [lia|done|]. unfold user_address in Hx. lia.
Qed.

Lemma block_shrink a n n' : user_block a n → n' ≤ n → user_block a n'.
Proof. unfold user_block. lia. Qed.

(** The part of a block from an offset on. *)
Lemma block_offset a n d : user_block a n → 0 ≤ d ≤ n → a +32 d = a + d ∧ user_block (a +32 d) (n - d).
Proof.
  unfold user_block. rewrite limit_value. intros [? ?] ?. assert (E : u32 (a + d) = a + d) by (apply u32_small; lia). rewrite E. lia.
Qed.

Lemma store32_outside m a v : user_block a 4 → outside m (store32 m a v).
Proof. intros H. apply store_outside. exact H. Qed.

(** What is stored is what is loaded. *)
Lemma load_ext m m' a n :
  0 ≤ a → a + Z.of_nat n < CONFIG_USER_SPACE_LIMIT → (∀ x, a ≤ x < a + Z.of_nat n → m' !! x = m !! x) → load m' a n = load m a n.
Proof.
  revert a. induction n as [|n IH]; intros a Ha Hb Hx; [done|]. cbn [load]. rewrite (next_address a n) by lia.
  f_equal; [unfold byte_at; by rewrite Hx by lia|]. apply IH; [lia..|]. intros x ?. apply Hx. lia.
Qed.

Lemma load_store_frame m a l b n :
  user_block a (Z.of_nat (length l)) → user_block b (Z.of_nat n) → (b + Z.of_nat n ≤ a ∨ a + Z.of_nat (length l) ≤ b) →
  load (store m a l) b n = load m b n.
Proof. intros [? ?] [? ?] Hd. apply load_ext; [lia..|]. intros x ?. apply store_frame; lia. Qed.

Lemma load_store m a l : bytes l → user_block a (Z.of_nat (length l)) → load (store m a l) a (length l) = l.
Proof.
  intros Hl [Ha Hb]. revert m a Ha Hb. induction Hl as [|x l Hx Hl IH]; intros m a Ha Hb; [done|]. cbn [length load store] in *.
  rewrite (next_address a (length l)) by lia. f_equal; [|apply IH; lia].
  unfold byte_at. rewrite store_frame by lia. rewrite lookup_insert_eq. simpl. unfold byte in Hx. by rewrite u8_small by lia.
Qed.

Lemma word_le32 v : reg v → word (le32 v) 0 = v.
Proof. intros Hv. unfold word. simpl. pose proof (le32_value v Hv). lia. Qed.

Lemma u32_reg v : reg (u32 v).
Proof. apply Z.mod_pos_bound. lia. Qed.

Lemma load32_store32 m a v : user_block a 4 → load32 (store32 m a v) a = u32 v.
Proof.
  intros Ha. unfold load32, store32. change 4%nat with (length (le32 (u32 v))). rewrite load_store; [apply word_le32, u32_reg|apply le32_bytes|done].
Qed.

Lemma load32_store32_ne m a b v : user_block a 4 → user_block b 4 → b + 4 ≤ a ∨ a + 4 ≤ b → load32 (store32 m a v) b = load32 m b.
Proof. intros Ha Hb Hd. unfold load32, store32. by rewrite load_store_frame. Qed.

(** Blocks that have been checked. *)
Lemma checked_block a n : reg a → reg n → (0 <? n) && negb (syscall_validate_user_buffer a n) = false → 0 < n → user_block a n.
Proof.
  intros Ha Hn E H0. rewrite (proj2 (Z.ltb_lt 0 n) H0) in E. simpl in E. apply negb_false_iff in E.
  apply validate_buffer_spec in E as [->|E]; [lia|done|done|done].
Qed.

Lemma checked_message a : reg a → negb (syscall_validate_user_buffer a IPC_MESSAGE_SIZE) = false → user_block a IPC_MESSAGE_SIZE.
Proof. intros Ha E%negb_false_iff. by apply validate_buffer_spec in E as [?|?]. Qed.

Lemma checked_envelope eax : reg eax → negb (syscall_validate_user_buffer eax ENVELOPE_SIZE) = false → user_block eax ENVELOPE_SIZE.
Proof. intros Ha E%negb_false_iff. by apply validate_buffer_spec in E as [?|?]. Qed.

Lemma fields_block msg : user_block msg ENVELOPE_SIZE → user_block (msg +32 24) 4 ∧ user_block (msg +32 28) 4.
Proof.
  intros Hm. destruct (block_offset msg ENVELOPE_SIZE 24 Hm) as [_ H1]; [unfold ENVELOPE_SIZE; lia|].
  destruct (block_offset msg ENVELOPE_SIZE 28 Hm) as [_ H2]; [unfold ENVELOPE_SIZE; lia|].
  split; (eapply block_shrink; [eassumption|unfold ENVELOPE_SIZE; lia]).
Qed.

(** Loads from memories that agree on the range of processes. *)
Definition agree (m m' : memory) : Prop := ∀ x, user_address x → m' !! x = m !! x.

Lemma load_agree m m' a n : agree m m' → user_block a (Z.of_nat n) → load m' a n = load m a n.
Proof.
  intros H [Ha Hb]. revert a Ha Hb. induction n as [|n IH]; intros a Ha Hb; [done|]. cbn [load].
  rewrite (next_address a n) by lia. f_equal; [unfold byte_at; by rewrite H by (unfold user_address; lia)|]. apply IH; lia.
Qed.

Lemma store_agree m m' a l : agree m m' → agree (store m a l) (store m' a l).
Proof.
  revert m m' a. induction l as [|y l IH]; intros m m' a H; [done|]. cbn [store]. apply IH.
  intros x Hx. destruct (decide (a = x)) as [->|Hne]; [by rewrite !lookup_insert_eq|]. rewrite !lookup_insert_ne by done. by apply H.
Qed.

End SyscallMem.

Module SyscallRead.

Import Bytes Syscall SyscallMem.

Section read.
Context {W Ctx : Type} (place : Sched.placement) (stack data_buf : list Z).
Context (other : Z → Z → system W Ctx → option (outcome W Ctx)) (now now' : Z).
Implicit Types (s : system W Ctx) (f : option (outcome W Ctx)).

(** Systems that a process cannot tell apart. *)
Record same s1 s2 : Prop := {
  same_mach : mach s2 = mach s1;
  same_locks : locks s2 = locks s1;
  same_mem : agree (mem s1) (mem s2);
  same_table : syscall_table s2 = syscall_table s1;
  same_console : console s2 = console s1
}.

(** Calls with the same end, in systems that a process cannot tell apart. *)
Definition alike (o1 o2 : outcome W Ctx) : Prop :=
  match o1, o2 with
  | Returns r1 s1, Returns r2 s2 => r1 = r2 ∧ same s1 s2
  | Suspends p1 s1, Suspends p2 s2 => p1 = p2 ∧ same s1 s2
  | _, _ => False
  end.

Definition likewise f1 f2 : Prop :=
  match f1, f2 with
  | Some o1, Some o2 => alike o1 o2
  | None, None => True
  | _, _ => False
  end.

Lemma same_set_mach s1 s2 x : same s1 s2 → same (set_mach x s1) (set_mach x s2).
Proof. intros []. by constructor. Qed.

Lemma same_set_locks s1 s2 x : same s1 s2 → same (set_locks x s1) (set_locks x s2).
Proof. intros []. by constructor. Qed.

Lemma same_set_console s1 s2 x : same s1 s2 → same (set_console x s1) (set_console x s2).
Proof. intros []. by constructor. Qed.

Lemma same_set_mem s1 s2 m1 m2 : same s1 s2 → agree m1 m2 → same (set_mem m1 s1) (set_mem m2 s2).
Proof. intros []. by constructor. Qed.

Lemma same_kern s1 s2 : same s1 s2 → kern s2 = kern s1.
Proof. intros []. unfold kern. congruence. Qed.

Lemma same_sys s1 s2 : same s1 s2 → sys s2 = sys s1.
Proof. intros H. unfold sys. by rewrite (same_kern _ _ H). Qed.

Lemma same_set_kern s1 s2 k : same s1 s2 → same (set_kern k s1) (set_kern k s2).
Proof. intros H. unfold set_kern. rewrite (same_mach _ _ H). by apply same_set_mach. Qed.

Lemma same_set_sys s1 s2 p : same s1 s2 → same (set_sys p s1) (set_sys p s2).
Proof. intros H. unfold set_sys. rewrite (same_kern _ _ H). by apply same_set_kern. Qed.

Lemma ret_alike r s1 s2 : same s1 s2 → likewise (ret r s1) (ret r s2).
Proof. by intros H. Qed.

Lemma suspend_alike p s1 s2 : same s1 s2 → likewise (Some (Suspends p s1)) (Some (Suspends p s2)).
Proof. by intros H. Qed.

Create HintDb alike.
#[local] Hint Resolve same_set_mach same_set_locks same_set_console same_set_mem same_set_kern same_set_sys ret_alike suspend_alike store_agree same_mem : alike.

Lemma of_kernel_alike r s1 s2 : same s1 s2 → likewise (of_kernel r s1) (of_kernel r s2).
Proof. intros H. destruct r as [[x k]|]; cbn [of_kernel mbind option_bind]; [auto with alike|done]. Qed.

Lemma of_sync_alike r s1 s2 : same s1 s2 → likewise (of_sync r s1) (of_sync r s2).
Proof. intros H. destruct r as [[[x p] y]|]; cbn [of_sync mbind option_bind]; [auto with alike|done]. Qed.

Lemma sync_outcome_alike p r s1 s2 : same s1 s2 → likewise (sync_outcome p r s1) (sync_outcome p r s2).
Proof. intros H. destruct r as [[x q y|q y]|]; cbn [sync_outcome mbind option_bind]; [apply ret_alike|apply suspend_alike|done]; auto with alike. Qed.

#[local] Hint Resolve of_kernel_alike of_sync_alike sync_outcome_alike : alike.

(** ** The envelope *)

Lemma load32_agree m1 m2 a : agree m1 m2 → user_block a 4 → load32 m2 a = load32 m1 a.
Proof. intros H Ha. unfold load32. by rewrite (load_agree m1 m2). Qed.

Lemma user_field_agree s1 s2 msg d : same s1 s2 → user_block msg ENVELOPE_SIZE → 0 ≤ d ≤ 28 → load32 (mem s2) (msg +32 d) = load32 (mem s1) (msg +32 d).
Proof.
  intros H Hm Hd. apply load32_agree; [apply H|]. destruct (block_offset msg ENVELOPE_SIZE d Hm) as [_ Hb]; [unfold ENVELOPE_SIZE; lia|].
  eapply block_shrink; [exact Hb|unfold ENVELOPE_SIZE; lia].
Qed.

Lemma argc_agree s1 s2 msg : same s1 s2 → user_block msg ENVELOPE_SIZE → msg_argc s2 msg = msg_argc s1 msg.
Proof. intros H Hm. apply user_field_agree; [done..|lia]. Qed.

Lemma arg_agree s1 s2 msg i : same s1 s2 → user_block msg ENVELOPE_SIZE → 0 ≤ i ≤ 3 → msg_arg s2 msg i = msg_arg s1 msg i.
Proof. intros H Hm Hi. apply user_field_agree; [done..|lia]. Qed.

Lemma number_agree s1 s2 msg : same s1 s2 → user_block msg ENVELOPE_SIZE → msg_number s2 msg = msg_number s1 msg.
Proof. intros H Hm. apply load32_agree; [apply H|]. eapply block_shrink; [exact Hm|done]. Qed.

Lemma copy_agree s1 s2 a n : same s1 s2 → reg a → reg n → syscall_validate_user_buffer a n = true →
  copy_from_user (mem s2) a n = copy_from_user (mem s1) a n.
Proof.
  intros H Ha Hn E. apply validate_buffer_spec in E as [->|Hb]; [done| |done..]. unfold copy_from_user.
  apply load_agree; [apply H|]. by rewrite Z2Nat.id by apply Hn.
Qed.

Lemma with_args_alike n msg s1 s2 f1 f2 :
  same s1 s2 → user_block msg ENVELOPE_SIZE → likewise f1 f2 → likewise (with_args n msg s1 f1) (with_args n msg s2 f2).
Proof. intros H Hm Hf. unfold with_args. rewrite (argc_agree s1 s2) by done. case_match; auto with alike. Qed.

(** ** The handlers *)

Section handlers.
Context (s1 s2 : system W Ctx) (msg : Z) (H : same s1 s2) (Hm : user_block msg ENVELOPE_SIZE).

Lemma args_reg i : reg (msg_arg s1 msg i).
Proof. apply load32_range. Qed.

#[local] Hint Resolve H args_reg : alike.

Ltac same_arguments :=
  apply with_args_alike; [exact H|exact Hm|]; cbn zeta;
  rewrite ?(arg_agree s1 s2 msg) by (exact H || exact Hm || lia); rewrite ?(same_sys _ _ H), ?(same_kern _ _ H), ?(same_mach _ _ H), ?(same_locks _ _ H).

Lemma write_alike : likewise (sys_write_handler msg s1) (sys_write_handler msg s2).
Proof.
  same_arguments. case_match; [auto with alike|]. destruct (negb _) eqn:E; [auto with alike|]. apply negb_false_iff in E.
  rewrite (copy_agree s1 s2) by auto with alike. rewrite (same_console _ _ H). auto with alike.
Qed.

Lemma gives_up_alike p q : likewise (gives_up s1 (set_sys q s1) p) (gives_up s2 (set_sys q s2) p).
Proof. unfold gives_up. rewrite (same_sys _ _ H). case_match; auto with alike. Qed.

Lemma yield_alike : likewise (sys_yield_handler now msg s1) (sys_yield_handler now msg s2).
Proof. unfold sys_yield_handler. rewrite (same_sys _ _ H). apply gives_up_alike. Qed.

Lemma spawn_alike : likewise (sys_spawn_handler place stack msg s1) (sys_spawn_handler place stack msg s2).
Proof.
  same_arguments. case_match; [auto with alike|]. destruct (Service.process_create _ _ _ _ _) as [[pid m]|]; cbn; [|done]. split; [done|]. auto with alike.
Qed.

Lemma sleep_alike : likewise (sys_sleep_handler now now' msg s1) (sys_sleep_handler now now' msg s2).
Proof. same_arguments. apply gives_up_alike. Qed.

Lemma exit_alike : likewise (sys_exit_handler now msg s1) (sys_exit_handler now msg s2).
Proof.
  same_arguments. unfold process_exit. rewrite (same_sys _ _ H), (same_kern _ _ H). case_match; [|auto with alike].
  destruct (Sched.processes (sys s1) !! _) as [p|]; cbn [mbind option_bind]; [|done].
  destruct (Ipc.ipc_process_cleanup _ _) as [k|]; cbn [mbind option_bind]; [|done].
  cbn [mach set_kern set_mach]. rewrite (same_mach _ _ H). auto with alike.
Qed.

Lemma sched_set_alike : likewise (sys_sched_set_handler now msg s1) (sys_sched_set_handler now msg s2).
Proof. same_arguments. destruct (Sched.process_set_scheduler _ _ _ _ _ _). auto with alike. Qed.

Lemma ipc_send_alike : likewise (sys_ipc_send_handler msg s1) (sys_ipc_send_handler msg s2).
Proof.
  same_arguments. case_match; [auto with alike|]. destruct (_ && _) eqn:E; [auto with alike|].
  replace (if 0 <? msg_arg s1 msg 2 then Some (copy_from_user (mem s2) (msg_arg s1 msg 1) (msg_arg s1 msg 2)) else None)
    with (if 0 <? msg_arg s1 msg 2 then Some (copy_from_user (mem s1) (msg_arg s1 msg 1) (msg_arg s1 msg 2)) else None); [auto with alike|].
  destruct (0 <? _); [|done]. cbn [andb] in E. apply negb_false_iff in E. by rewrite (copy_agree s1 s2) by auto with alike.
Qed.

Lemma share_alike : likewise (sys_ipc_share_handler msg s1) (sys_ipc_share_handler msg s2).
Proof. same_arguments. repeat (case_match; [by auto with alike|]). auto with alike. Qed.

Lemma current_alike : current_pid s2 = current_pid s1.
Proof. unfold current_pid. by rewrite (same_sys _ _ H). Qed.

Lemma connect_alike : likewise (sys_service_connect_handler place stack msg s1) (sys_service_connect_handler place stack msg s2).
Proof.
  same_arguments. rewrite current_alike. case_match; [|auto with alike]. case_match; [auto with alike|].
  destruct (Service.service_grant_capabilities _ _ _ _ _ _) as [[r m]|]; cbn [mbind option_bind]; [|done]. case_match; [auto with alike|].
  cbn [mach set_mach]. destruct (Klog.service_pid _ _); cbn; [split; [done|]; auto with alike|done].
Qed.

(** The message structure a process points to. *)
Lemma message_agree : syscall_validate_user_buffer (msg_arg s1 msg 1) IPC_MESSAGE_SIZE = true →
  copy_from_user (mem s2) (msg_arg s1 msg 1) IPC_MESSAGE_SIZE = copy_from_user (mem s1) (msg_arg s1 msg 1) IPC_MESSAGE_SIZE.
Proof. intros E. apply copy_agree; [exact H|apply args_reg|done|done]. Qed.

Lemma send_alike : likewise (sys_send_handler msg s1) (sys_send_handler msg s2).
Proof.
  same_arguments. destruct (negb _) eqn:E0; [auto with alike|]. apply negb_false_iff in E0. rewrite (message_agree E0), current_alike.
  set (local := copy_from_user (mem s1) (msg_arg s1 msg 1) IPC_MESSAGE_SIZE).
  assert (Hw : ∀ j, reg (word local j)) by (intros j; apply word_range, load_bytes).
  case_match; [auto with alike|]. destruct ((0 <? word local 12) && _) eqn:E; [auto with alike|]. case_match; [|auto with alike].
  destruct (0 <? word local 12); [|auto with alike]. cbn [andb] in E. apply negb_false_iff in E.
  rewrite (copy_agree s1 s2) by auto with alike. auto with alike.
Qed.

Lemma chan_create_alike : likewise (sys_chan_create_handler msg s1) (sys_chan_create_handler msg s2).
Proof.
  same_arguments. rewrite (argc_agree s1 s2) by auto. destruct (negb _ && _) eqn:E0; [|auto with alike]. apply andb_true_iff in E0 as [_ E0%Z.ltb_lt].
  destruct (negb _) eqn:E; [auto with alike|]. apply negb_false_iff in E. apply validate_buffer_spec in E as [?|Hb]; [lia| |apply args_reg..].
  set (n := if _ <? _ then _ else _).
  assert (Hn : 0 < n ≤ msg_arg s1 msg 1).
  { unfold n, CONFIG_IPC_CHANNEL_NAME_MAX. destruct (Z.ltb_spec (msg_arg s1 msg 1) (32 - 1)); lia. }
  unfold copy_from_user. rewrite (load_agree (mem s1) (mem s2)); [auto with alike|apply H|]. eapply block_shrink; [exact Hb|lia].
Qed.

Lemma with_process_alike (f1 f2 : nat → option (outcome W Ctx)) : (∀ i, likewise (f1 i) (f2 i)) → likewise (with_process f1 s1) (with_process f2 s2).
Proof. intros Hf. unfold with_process. rewrite (same_sys _ _ H). case_match; auto with alike. Qed.

Lemma chan_join_alike : likewise (sys_chan_join_handler msg s1) (sys_chan_join_handler msg s2).
Proof. same_arguments. apply with_process_alike. auto with alike. Qed.

Lemma chan_leave_alike : likewise (sys_chan_leave_handler msg s1) (sys_chan_leave_handler msg s2).
Proof. same_arguments. apply with_process_alike. auto with alike. Qed.

Lemma chan_peek_alike : likewise (sys_chan_peek_handler msg s1) (sys_chan_peek_handler msg s2).
Proof. same_arguments. destruct (Ipc.ipc_channel_peek _ _); cbn; auto with alike. Qed.

Lemma service_channel_alike : likewise (sys_service_channel_handler msg s1) (sys_service_channel_handler msg s2).
Proof. same_arguments. destruct (Ipc.ipc_get_service_channel _ _); cbn; auto with alike. Qed.

Lemma sync_alike :
  likewise (sys_mutex_create_handler msg s1) (sys_mutex_create_handler msg s2) ∧ likewise (sys_mutex_lock_handler now msg s1) (sys_mutex_lock_handler now msg s2) ∧
  likewise (sys_mutex_unlock_handler msg s1) (sys_mutex_unlock_handler msg s2) ∧ likewise (sys_sem_create_handler msg s1) (sys_sem_create_handler msg s2) ∧
  likewise (sys_sem_wait_handler now msg s1) (sys_sem_wait_handler now msg s2) ∧ likewise (sys_sem_post_handler msg s1) (sys_sem_post_handler msg s2).
Proof.
  split_and!.
  - unfold sys_mutex_create_handler. rewrite (same_locks _ _ H). destruct (Sync.sync_mutex_create _). auto with alike.
  - same_arguments. auto with alike.
  - same_arguments. auto with alike.
  - same_arguments. destruct (Sync.sync_semaphore_create _ _). auto with alike.
  - same_arguments. auto with alike.
  - same_arguments. auto with alike.
Qed.
End handlers.

(** ** Receiving *)

Lemma recv_finish_alike buffer max rc received s1 s2 :
  same s1 s2 → likewise (recv_finish buffer max rc received s1) (recv_finish buffer max rc received s2).
Proof.
  intros H. unfold recv_finish. case_match; [auto with alike|]. destruct received; [|auto with alike]. case_match; auto with alike.
Qed.

Lemma recv_outcome_alike buffer max source r s1 s2 :
  same s1 s2 → likewise (recv_outcome now buffer max source r s1) (recv_outcome now buffer max source r s2).
Proof.
  intros H. destruct r as [rc received k|k]; cbn [recv_outcome]; [apply recv_finish_alike; auto with alike|].
  case_match; [|done]. destruct (Ipc.ipc_recv_block _ _ _); cbn [mbind option_bind]; [auto with alike|done].
Qed.

Lemma channel_finish_alike um ub uc rc out buffer s1 s2 :
  same s1 s2 → likewise (channel_finish um ub uc rc out buffer s1) (channel_finish um ub uc rc out buffer s2).
Proof.
  intros H. unfold channel_finish. case_match; [auto with alike|]. destruct out as [delivery|]; [|done]. cbn [mbind option_bind]. cbn zeta.
  destruct (negb (ub =? 0) && (0 <? uc)); cbn [andb]; apply ret_alike, same_set_mem; try done; apply store_agree; [|apply H].
  case_match; [apply store_agree|]; apply H.
Qed.

Lemma channel_outcome_alike i c id um ub uc flags r s1 s2 :
  same s1 s2 → likewise (channel_outcome now i c id um ub uc flags r s1) (channel_outcome now i c id um ub uc flags r s2).
Proof. intros H. destruct r as [rc out buffer k|k]; cbn [channel_outcome]; [apply channel_finish_alike|]; auto with alike. Qed.

Lemma ipc_recv_alike msg s1 s2 :
  same s1 s2 → user_block msg ENVELOPE_SIZE → likewise (sys_ipc_recv_handler data_buf now msg s1) (sys_ipc_recv_handler data_buf now msg s2).
Proof.
  intros H Hm. apply with_args_alike; [done..|]. cbn zeta. rewrite !(arg_agree s1 s2 msg), (same_kern _ _ H) by (done || lia).
  case_match; [auto with alike|]. destruct (recv_buffer _ _) as [b cap].
  destruct (Ipc.ipc_recv_begin _ _ _ _) as [r|]; cbn [mbind option_bind]; [|done]. by apply recv_outcome_alike.
Qed.

Lemma recv_alike msg s1 s2 :
  same s1 s2 → user_block msg ENVELOPE_SIZE → likewise (sys_recv_handler data_buf now msg s1) (sys_recv_handler data_buf now msg s2).
Proof.
  intros H Hm. apply with_args_alike; [done..|]. cbn zeta. rewrite !(arg_agree s1 s2 msg), (same_kern _ _ H), (same_sys _ _ H) by (done || lia).
  destruct (negb _) eqn:E0; [auto with alike|]. apply negb_false_iff in E0. rewrite (message_agree s1 s2 msg H E0).
  case_match; [auto with alike|]. case_match; [|auto with alike]. destruct (channel_buffer _ _ _) as [b len].
  destruct (Ipc.ipc_channel_receive_begin _ _ _ _ _ _ _) as [r|]; cbn [mbind option_bind]; [|done]. by apply channel_outcome_alike.
Qed.

(** ** Dispatch *)

Lemma call_handler_alike h msg s1 s2 :
  same s1 s2 → user_block msg ENVELOPE_SIZE → (∀ address, h ≠ HOther address) →
  likewise (call_handler place stack data_buf other now now' h msg s1) (call_handler place stack data_buf other now now' h msg s2).
Proof.
  intros H Hm Hh. destruct (sync_alike s1 s2 msg H Hm) as (? & ? & ? & ? & ? & ?). destruct h; cbn [call_handler]; try done.
  1: by apply write_alike. 1: by apply yield_alike. 1: by apply spawn_alike. 1: by apply send_alike. 1: by apply recv_alike.
  1: by apply exit_alike. 1: by apply chan_create_alike. 1: by apply chan_join_alike. 1: by apply chan_leave_alike. 1: by apply chan_peek_alike.
  1: by apply service_channel_alike. 1: by apply sleep_alike. 1: by apply ipc_send_alike. 1: by apply ipc_recv_alike. 1: by apply share_alike.
  1: by apply connect_alike. 1: by apply sched_set_alike. by destruct (Hh address).
Qed.

Lemma store32_agree m1 m2 a z : agree m1 m2 → agree (store32 m1 a z) (store32 m2 a z).
Proof. apply store_agree. Qed.

Lemma finish_alike msg o1 o2 : alike o1 o2 → alike (syscall_finish msg o1) (syscall_finish msg o2).
Proof.
  destruct o1 as [r1 s1|p1 s1], o2 as [r2 s2|p2 s2]; try done. intros [<- H]. split; [done|]. apply same_set_mem; [done|].
  by apply store32_agree, store32_agree, H.
Qed.

Lemma bind_finish_alike msg f1 f2 :
  likewise f1 f2 → likewise (o ← f1; Some (syscall_finish msg o)) (o ← f2; Some (syscall_finish msg o)).
Proof. destruct f1, f2; try done. apply finish_alike. Qed.

Lemma handler_alike eax s1 s2 :
  same s1 s2 → reg eax →
  (∀ e address, syscall_table s1 !! Z.to_nat (msg_number s1 eax) = Some e → e_handler e ≠ Some (HOther address)) →
  likewise (syscall_handler place stack data_buf other now now' eax s1) (syscall_handler place stack data_buf other now now' eax s2).
Proof.
  intros H He Ho. unfold syscall_handler. destruct (negb _) eqn:Ev; [auto with alike|]. apply checked_envelope in Ev; [|done].
  rewrite (argc_agree s1 s2) by done. destruct (_ <? _).
  - apply ret_alike, same_set_mem; [done|]. by apply store32_agree, store32_agree, H.
  - apply bind_finish_alike. unfold syscall_invoke. cbn zeta. rewrite (number_agree s1 s2), (same_table _ _ H) by done.
    case_match; [auto with alike|]. destruct (syscall_table s1 !! _) as [e|] eqn:Hl; cbn [mbind option_bind]; [|done].
    destruct (e_handler e) as [h|] eqn:Eh; [|auto with alike]. apply call_handler_alike; [done..|]. intros address ->. by destruct (Ho e address eq_refl).
Qed.

Lemma resume_alike msg p s1 s2 : same s1 s2 → likewise (syscall_resume data_buf now msg p s1) (syscall_resume data_buf now msg p s2).
Proof.
  intros H. apply bind_finish_alike. destruct p as [r|i source buffer max|i c id um ub uc flags|id|id|]; cbn [syscall_continue].
  - auto with alike.
  - destruct (recv_buffer _ _) as [b cap]. rewrite (same_kern _ _ H).
    destruct (Ipc.ipc_recv_resume _ _ _ _ _) as [r|]; cbn [mbind option_bind]; [|done]. by apply recv_outcome_alike.
  - destruct (channel_buffer _ _ _) as [b len]. rewrite (same_kern _ _ H).
    destruct (Ipc.channel_receive_round _ _ _ _ _ _ _ _) as [r|]; cbn [mbind option_bind]; [|done]. by apply channel_outcome_alike.
  - rewrite (same_sys _ _ H), (same_locks _ _ H). auto with alike.
  - rewrite (same_sys _ _ H), (same_locks _ _ H). auto with alike.
  - done.
Qed.

End read.
End SyscallRead.
