(* ===== verification/SyscallSpec.v ===== *)
(** Lemmas about system calls: every handler completes from a sound system, leaves it
    sound and writes only where processes may. *)

From S2P Require Import Prelude Arrays Bytes Memory Sched SchedLists SchedSpec SchedRun Ipc IpcSpec IpcMail IpcCaps IpcChannels IpcRun Sync SyncProps Block.
From S2P Require Import Klog KlogRun Service ServiceSpec Syscall SyscallRead.
From S2P Require Vfs VfsSpec VfsRamfs KlogFiles KlogProps ServiceProps.

Module SyscallSpec.

Import Bytes IpcSpec SyncProps ServiceSpec Syscall SyscallMem.

Create HintDb syscall.

Section spec.
Context {W Ctx : Type} (v : Vfs.Vfs.vfs W Ctx) {HF : KlogRun.FilesReturn v} (kernel_data : Z → Prop).
Context (place : Sched.placement) (stack data_buf : list Z) (now now' : Z).
Context (Hstack : length stack = Klog.EVENT_SIZE) (Hbuf : length data_buf = 256%nat).
Implicit Types (s : system W Ctx) (p : pending) (o : outcome W Ctx) (f : option (outcome W Ctx)).

(** ** Sound systems *)

Record system_ok s : Prop := {
  so_machine : ∃ t a, KlogRun.sim v t (mach s) a ∧ services_ok t;
  so_locks : sync_ok (locks s);
  so_table : length (syscall_table s) = SYSCALL_TABLE_SIZE
}.

(** ** Blocks the kernel may write *)

(** Addresses at which the kernel itself keeps something: the tables that the records
    stand for lie in the same address space, and the checks of pointers do not know them. *)
Definition clear (a n : Z) : Prop := ∀ x, a ≤ x < a + n → ¬ kernel_data x.

Definition free_block (a n : Z) : Prop := user_block a n ∧ clear a n.

(** Memory outside the range of processes and the memory of the kernel are as they were. *)
Definition spared (m m' : memory) : Prop := ∀ x, ¬ user_address x ∨ kernel_data x → m' !! x = m !! x.

Lemma spared_refl m : spared m m.
Proof. done. Qed.

Lemma spared_trans m1 m2 m3 : spared m1 m2 → spared m2 m3 → spared m1 m3.
Proof. intros H1 H2 x Hx. rewrite H2 by done. by apply H1. Qed.

Lemma store_spared m a l : free_block a (Z.of_nat (length l)) → spared m (store m a l).
Proof.
  intros [Hb Hc] x [Hx|Hx]; [by apply store_outside|]. destruct Hb as [Ha Hb]. apply store_frame; [lia|done|]. intros Hin. by apply (Hc x).
Qed.

Lemma store32_spared m a v' : free_block a 4 → spared m (store32 m a v').
Proof. intros H. apply store_spared. exact H. Qed.

Lemma free_shrink a n n' : free_block a n → n' ≤ n → free_block a n'.
Proof. intros [Hb Hc] Hn. split; [by eapply block_shrink|]. intros x Hx. apply Hc. lia. Qed.

Lemma free_fields msg : free_block msg ENVELOPE_SIZE → free_block (msg +32 24) 4 ∧ free_block (msg +32 28) 4.
Proof.
  intros [Hb Hc]. destruct (fields_block msg Hb) as [H1 H2]. unfold ENVELOPE_SIZE in *.
  destruct (block_offset msg 32 24 Hb) as [E1 _]; [lia|]. destruct (block_offset msg 32 28 Hb) as [E2 _]; [lia|]. rewrite E1, E2 in *.
  split; (split; [done|]); intros x Hx; apply Hc; lia.
Qed.

(** What a suspended call needs when it goes on. *)
Definition pending_ok p : Prop :=
  match p with
  | PRecv i _ buffer max => (i < Sched.MAX_PROCS)%nat ∧ reg max ∧ (0 < max → free_block buffer max)
  | PChannel i c _ user_message user_buffer user_capacity _ =>
      (i < Sched.MAX_PROCS)%nat ∧ (c < Ipc.CONFIG_IPC_MAX_CHANNELS)%nat ∧ free_block user_message IPC_MESSAGE_SIZE ∧ reg user_capacity ∧
      (user_buffer ≠ 0 → 0 < user_capacity → free_block user_buffer user_capacity)
  | PReturn _ | PLock _ | PWait _ | PNever => True
  end.

Definition good s0 o : Prop :=
  match o with
  | Returns _ s => system_ok s ∧ spared (mem s0) (mem s)
  | Suspends p s => system_ok s ∧ spared (mem s0) (mem s) ∧ pending_ok p
  end.

(** A call that completes, from a system, and ends well. *)
Definition completes s0 f : Prop := ∃ o, f = Some o ∧ good s0 o.

Lemma ok_kern s : system_ok s → kernel_ok (kern s).
Proof. intros [(t & a & H & _) _ _]. apply H. Qed.

Lemma ok_sched s : system_ok s → sched_ok (sys s).
Proof. intros H. apply ok_kern, H. Qed.

Lemma ok_set_kern s k : system_ok s → kernel_ok k → system_ok (set_kern k s).
Proof. intros [(t & a & H & Ht) Hl Hn] Hk. constructor; [|done..]. exists t, a. split; [by apply KlogRun.sim_kern|done]. Qed.

Lemma ok_set_sys s x : system_ok s → sched_ok x → system_ok (set_sys x s).
Proof. intros H Hx. apply ok_set_kern; [done|]. apply kernel_ok_with_sys; [by apply ok_kern|done]. Qed.

Lemma ok_set_locks s y : system_ok s → sync_ok y → system_ok (set_locks y s).
Proof. intros [? ? ?] Hy. by constructor. Qed.

Lemma ok_set_mem s m : system_ok s → system_ok (set_mem m s).
Proof. intros [? ? ?]. by constructor. Qed.

Lemma ok_set_console s c : system_ok s → system_ok (set_console c s).
Proof. intros [? ? ?]. by constructor. Qed.

Lemma ok_set_mach s x t a : system_ok s → KlogRun.sim v t x a → services_ok t → system_ok (set_mach x s).
Proof. intros [_ ? ?] Hx Ht. constructor; [|done..]. by exists t, a. Qed.

Lemma ret_ok s0 s r : system_ok s → spared (mem s0) (mem s) → completes s0 (ret r s).
Proof. intros Hs Hm. by exists (Returns r s). Qed.

Lemma suspend_ok s0 s p : system_ok s → spared (mem s0) (mem s) → pending_ok p → completes s0 (Some (Suspends p s)).
Proof. intros Hs Hm Hp. by exists (Suspends p s). Qed.

#[local] Hint Resolve ok_kern ok_sched ok_set_kern ok_set_sys ok_set_locks ok_set_mem ok_set_console ret_ok suspend_ok spared_refl : syscall.

Lemma of_kernel_ok s r : system_ok s → (∃ x k, r = Some (x, k) ∧ kernel_ok k) → completes s (of_kernel r s).
Proof. intros Hs (x & k & -> & Hk). cbn. auto with syscall. Qed.

Lemma with_args_ok n msg s f : system_ok s → completes s f → completes s (with_args n msg s f).
Proof. intros Hs Hf. unfold with_args. case_match; auto with syscall. Qed.

Lemma arg_range s msg i : reg (msg_arg s msg i).
Proof. apply load32_range. Qed.

(** ** The scheduler *)

Lemma write_ok msg s : system_ok s → completes s (sys_write_handler msg s).
Proof.
  intros Hs. apply with_args_ok; [done|]. cbn zeta. case_match; [auto with syscall|]. case_match; auto with syscall.
Qed.

Lemma gives_up_ok s x : system_ok s → sched_ok x → completes s (gives_up s (set_sys x s) (PReturn 0)).
Proof. intros Hs Hx. unfold gives_up. case_match; auto with syscall. apply suspend_ok; auto with syscall. done. Qed.

Lemma sys_yield_ok msg s : system_ok s → completes s (sys_yield_handler now msg s).
Proof. intros Hs. apply gives_up_ok; [done|]. apply (sched_ok_exec place _ (SchedRun.OYield now)); auto with syscall. done. Qed.

Lemma sys_sleep_ok msg s : system_ok s → completes s (sys_sleep_handler now now' msg s).
Proof.
  intros Hs. apply with_args_ok; [done|]. apply gives_up_ok; [done|].
  apply (sched_ok_exec place _ (SchedRun.OSleep _ now now')); auto with syscall. done.
Qed.

Lemma ok_exit_services s pid :
  system_ok s → system_ok (set_mach (Klog.set_services (Service.service_handle_exit pid (Klog.services (mach s))) (mach s)) s).
Proof.
  intros Hs. destruct (so_machine s Hs) as (t & a & Hm & Ht). pose proof (handle_exit_ok pid t Ht) as Ht'.
  rewrite (KlogRun.mo_services _ _ _ (proj1 Hm)). eapply ok_set_mach; [done| |exact Ht']. eapply sim_services; [done|apply Ht'].
Qed.

Lemma sys_exit_ok msg s : system_ok s → Sched.running_thread (sys s) ≠ None → completes s (sys_exit_handler now msg s).
Proof.
  intros Hs Hr. apply with_args_ok; [done|]. unfold process_exit. destruct (Sched.process_current (sys s)) as [i|] eqn:Ei; [|auto with syscall].
  assert (Hi : (i < Sched.MAX_PROCS)%nat) by (eapply sched_ok_current; [|exact Ei]; auto with syscall).
  destruct (table_at_ok (kern s) i (ok_kern s Hs) Hi) as [p Hp]. change (Sched.processes (sys s) !! i = Some p) in Hp. rewrite Hp. cbn [mbind option_bind].
  destruct (IpcRun.cleanup_ok i (kern s) (ok_kern s Hs) Hi) as (k & -> & Hk & Hsame). cbn [mbind option_bind].
  set (s1 := set_mach _ (set_kern k s)). assert (H1 : system_ok s1) by (apply ok_exit_services; auto with syscall).
  assert (Hsys : sys s1 = sys s) by exact Hsame. apply suspend_ok; [|done|done]. apply ok_set_sys; [done|].
  apply (sched_ok_exec place (sys s1) (SchedRun.OExit _ now)); [auto with syscall|]. rewrite Hsys. simpl. intros E. apply Hr.
  unfold Sched.running_thread. rewrite E. destruct (Sched.idle_process (sys s)); [by rewrite decide_True|done].
Qed.

Lemma sched_set_ok msg s : system_ok s → completes s (sys_sched_set_handler now msg s).
Proof.
  intros Hs. apply with_args_ok; [done|].
  pose proof (sched_ok_exec place (sys s) (SchedRun.OSetScheduler (s32 (msg_arg s msg 0)) (u8 (msg_arg s msg 1)) (msg_arg s msg 2) (msg_arg s msg 3) now)
    (ok_sched s Hs) I) as Hx. simpl in Hx. destruct (Sched.process_set_scheduler _ _ _ _ _ _) as [r x]. auto with syscall.
Qed.

Lemma spawn_ok msg s : system_ok s → SchedRun.frame_fits (msg_arg s msg 1) → completes s (sys_spawn_handler place stack msg s).
Proof.
  intros Hs Hf. apply with_args_ok; [done|]. cbn zeta. case_match; [auto with syscall|]. destruct (so_machine s Hs) as (t & a & Hm & Ht).
  destruct (create_sim v place stack Hstack (msg_arg s msg 0) (msg_arg s msg 1) t (mach s) a Hm Hf) as (m & -> & Hm'). cbn.
  apply ret_ok; [by eapply ok_set_mach|done].
Qed.

(** ** Messages *)

Lemma load_holds m a n : reg n → IpcRun.holds (if 0 <? n then Some (copy_from_user m a n) else None) n.
Proof.
  intros [H0 _]. split; [done|]. intros b Hb. destruct (0 <? n); [|done]. injection Hb as <-. unfold copy_from_user. rewrite load_length. lia.
Qed.

Lemma ipc_send_ok msg s : system_ok s → completes s (sys_ipc_send_handler msg s).
Proof.
  intros Hs. apply with_args_ok; [done|]. cbn zeta. case_match; [auto with syscall|]. case_match; [auto with syscall|].
  apply of_kernel_ok; [done|]. apply IpcRun.send_step; auto with syscall. apply load_holds, arg_range.
Qed.

Lemma share_call_ok msg s : system_ok s → completes s (sys_ipc_share_handler msg s).
Proof.
  intros Hs. apply with_args_ok; [done|]. cbn zeta. repeat (case_match; [auto with syscall|]).
  apply of_kernel_ok; [done|]. destruct (IpcRun.share_ok (s32 (msg_arg s msg 0)) (msg_arg s msg 1) (msg_arg s msg 2) (kern s)) as (r & k & -> & Hk & _);
    [auto with syscall|]. eauto.
Qed.

Lemma recv_finish_ok s0 s buffer max rc received :
  system_ok s → spared (mem s0) (mem s) → reg max → (0 < max → free_block buffer max) → completes s0 (recv_finish buffer max rc received s).
Proof.
  intros Hs Hm [H0 _] Hb. unfold recv_finish. case_match; [auto with syscall|]. destruct received as [bytes|]; [|auto with syscall].
  destruct (negb (buffer =? 0) && (0 <? max)) eqn:E; [|auto with syscall]. apply andb_true_iff in E as [_ E%Z.ltb_lt].
  apply ret_ok; [auto with syscall|]. eapply spared_trans; [exact Hm|]. apply store_spared. eapply free_shrink; [by apply Hb|].
  rewrite length_take. repeat case_match; bool_prop; lia.
Qed.

Lemma recv_loop_current fuel i source buffer max k k' :
  Ipc.recv_loop fuel i source buffer max k = Some (Ipc.RWait k') → Sched.current_process (Ipc.sys k') = Sched.current_process (Ipc.sys k).
Proof.
  revert k. induction fuel as [|fuel IH]; intros k E; [done|]. cbn [Ipc.recv_loop] in E.
  apply bind_Some in E as (t & _ & E). apply bind_Some in E as (p & _ & E). apply bind_Some in E as ([message m] & _ & E).
  destruct message as [message|].
  - apply bind_Some in E as (ok & _ & E). destruct (negb ok); [apply IH in E; exact E|].
    apply bind_Some in E as (b & _ & E). apply bind_Some in E as (q & _ & E). done.
  - destruct (bool_decide _); [done|]. apply bind_Some in E as ([enq m'] & _ & E). destruct (negb enq); [done|]. by injection E as <-.
Qed.

Lemma recv_outcome_ok s buffer max source r :
  system_ok s → reg max → (0 < max → free_block buffer max) → kernel_ok (IpcRun.recv_kernel r) →
  (∀ k, r = Ipc.RWait k → Sched.process_current (Ipc.sys k) ≠ None) → completes s (recv_outcome now buffer max source r s).
Proof.
  intros Hs Hmax Hb Hk Hw. destruct r as [rc received k|k]; simpl in *; [apply recv_finish_ok; auto with syscall|].
  destruct (Sched.process_current (Ipc.sys k)) as [i|] eqn:Ei; [|by destruct (Hw k eq_refl)].
  assert (Hi : (i < Sched.MAX_PROCS)%nat) by (eapply sched_ok_current; [apply Hk|exact Ei]).
  unfold Ipc.ipc_recv_block. destruct (proc_at_ok k i Hk Hi) as (p & -> & Hp). cbn.
  apply suspend_ok; [|done|done]. apply ok_set_kern; [done|]. apply kernel_ok_with_sys; [auto with kernel|]. apply sched_ok_block, Hk.
Qed.

Lemma recv_buffer_holds max : reg max → IpcRun.holds (recv_buffer data_buf max).1 (recv_buffer data_buf max).2.
Proof.
  intros [H0 _]. unfold recv_buffer, CONFIG_MSG_DATA_MAX. simpl. split; [case_match; lia|]. intros b Hb. repeat case_match; simplify_eq; bool_prop; lia.
Qed.

Lemma recv_begin_ok source b max k :
  kernel_ok k → IpcRun.holds b max →
  ∃ r, Ipc.ipc_recv_begin source b max k = Some r ∧ kernel_ok (IpcRun.recv_kernel r) ∧
       (∀ k', r = Ipc.RWait k' → Sched.process_current (Ipc.sys k') ≠ None).
Proof.
  intros Hk Hb. unfold Ipc.ipc_recv_begin. destruct (negb _); [by eexists|].
  destruct (Sched.process_current (Ipc.sys k)) as [i|] eqn:Ei; [|by eexists]. destruct (_ && _); [by eexists|].
  destruct (IpcRun.recv_loop_step i source b max k) as (out & E & Hout); [done|by eapply sched_ok_current; [apply Hk|]|done|].
  exists out. split_and!; [done..|]. intros k' ->. apply recv_loop_current in E. unfold Sched.process_current in *. by rewrite E, Ei.
Qed.

Lemma ipc_recv_ok msg s : system_ok s → clear (msg_arg s msg 1) (msg_arg s msg 2) → completes s (sys_ipc_recv_handler data_buf now msg s).
Proof.
  intros Hs Hcl. apply with_args_ok; [done|]. cbn zeta. case_match eqn:E; [auto with syscall|].
  pose proof (recv_buffer_holds (msg_arg s msg 2) (arg_range s msg 2)) as Hh. destruct (recv_buffer _ _) as [b cap]. cbn [fst snd] in Hh.
  destruct (recv_begin_ok (s32 (msg_arg s msg 0)) b cap (kern s)) as (r & -> & Hk & Hw); [auto with syscall|done|].
  cbn. apply recv_outcome_ok; [done|apply arg_range| |done|done].
  intros H0. split; [|done]. revert H0. apply checked_block; [apply arg_range..|]. unfold syscall_validate_user_buffer in *. done.
Qed.

Lemma recv_continue_ok i source buffer max s :
  system_ok s → (i < Sched.MAX_PROCS)%nat → reg max → (0 < max → free_block buffer max) → Sched.process_current (sys s) ≠ None →
  completes s (syscall_continue data_buf now (PRecv i source buffer max) s).
Proof.
  intros Hs Hi Hmax Hb Hc. cbn [syscall_continue]. pose proof (recv_buffer_holds max Hmax) as Hh. destruct (recv_buffer _ _) as [b cap]. cbn [fst snd] in Hh.
  unfold Ipc.ipc_recv_resume. destruct (proc_at_ok (kern s) i) as (p & Hp & Hpo); [auto with syscall|done|]. rewrite Hp. cbn [mbind option_bind].
  destruct (IpcRun.recv_loop_step i source b cap (Ipc.put_proc i (Ipc.set_waiting false p) (kern s))) as (out & E & Hk); [|done|done|].
  { assert (kernel_ok (kern s)) by auto with syscall. auto with kernel. }
  rewrite E. cbn. apply recv_outcome_ok; [done..|]. intros k ->. apply recv_loop_current in E. unfold Sched.process_current in *. rewrite E. exact Hc.
Qed.

Lemma connect_ok msg s : system_ok s → completes s (sys_service_connect_handler place stack msg s).
Proof.
  intros Hs. apply with_args_ok; [done|]. cbn zeta. case_match; [|auto with syscall]. case_match; [auto with syscall|].
  destruct (so_machine s Hs) as (t & a & Hm & Ht).
  assert (Hg : ∃ r m t' a', Service.service_grant_capabilities place stack z (msg_arg s msg 0) (msg_arg s msg 1) (mach s) = Some (r, m) ∧
    KlogRun.sim v t' m a' ∧ services_ok t').
  { destruct (Klog.service_index (msg_arg s msg 0)) as [i|] eqn:Ei.
    - destruct (entry_at stack Hstack (msg_arg s msg 0) t i Ht Ei) as (e & He & _).
      destruct (ServiceProps.ServiceProps.grant_capabilities_ok v place stack z (msg_arg s msg 0) (msg_arg s msg 1) i e t (mach s) a)
        as (r & m & t' & a' & E & H1 & H2 & _); [done..|apply arg_range|]. by exists r, m, t', a'.
    - exists (-1), (mach s), t, a. unfold Service.service_grant_capabilities. by rewrite Ei. }
  destruct Hg as (r & m & t' & a' & -> & Hm' & Ht'). cbn [mbind option_bind].
  assert (Hs' : system_ok (set_mach m s)) by (by eapply ok_set_mach). case_match; [auto with syscall|].
  destruct (KlogRun.service_pid_returns (msg_arg s msg 0) (Klog.services (mach (set_mach m s)))) as [q ->].
  { cbn. rewrite (KlogRun.mo_services _ _ _ (proj1 Hm')). apply Ht'. }
  cbn. auto with syscall.
Qed.

(** ** Channels *)

Lemma send_handler_ok msg s : system_ok s → completes s (sys_send_handler msg s).
Proof.
  intros Hs. apply with_args_ok; [done|]. cbn zeta. do 3 (case_match; [auto with syscall|]). case_match; [|auto with syscall].
  apply of_kernel_ok; [done|]. apply IpcRun.channel_send_step; [auto with syscall|].
  set (local := copy_from_user (mem s) (msg_arg s msg 1) IPC_MESSAGE_SIZE).
  assert (Hpos : reg (word local 12)) by apply word_range, load_bytes. destruct Hpos as [Hpos _].
  destruct (Z.ltb_spec 0 (word local 12)); simpl; [|lia]. unfold copy_from_user. rewrite load_length. lia.
Qed.

Definition message_ok (r : Ipc.channel_result) : Prop :=
  match r with Ipc.CReturn rc out _ _ => rc ≤ 0 ∨ is_Some out | Ipc.CWait _ => True end.

Lemma round_message i c id buffer len flags k r : Ipc.channel_receive_round i c id true buffer len flags k = Some r → message_ok r.
Proof.
  unfold Ipc.channel_receive_round. intros E. apply bind_Some in E as (ch & _ & E). apply bind_Some in E as (p & _ & E).
  destruct (0 <? _)%nat.
  - apply bind_Some in E as (slot & _ & E). apply bind_Some in E as (b & _ & E). injection E as <-. right. by eexists.
  - destruct (negb _); [injection E as <-; by left|]. apply bind_Some in E as (ws & _ & E).
    destruct (first_index _ ws); [by injection E as <-|]. destruct (_ <=? _)%nat; [injection E as <-; left; lia|].
    apply bind_Some in E as (ws' & _ & E). by injection E as <-.
Qed.

Lemma begin_message i id buffer len flags k r : Ipc.ipc_channel_receive_begin i id true buffer len flags k = Some r → message_ok r.
Proof.
  unfold Ipc.ipc_channel_receive_begin. intros E. destruct (Ipc.find_channel id k); [|injection E as <-; left; lia].
  apply bind_Some in E as (ch & _ & E). apply bind_Some in E as (p & _ & E). apply bind_Some in E as (al & _ & E).
  destruct (negb al); [injection E as <-; left; lia|]. by eapply round_message.
Qed.

Lemma channel_buffer_holds b n : IpcRun.holds (channel_buffer data_buf b n).1 (channel_buffer data_buf b n).2.
Proof.
  unfold channel_buffer, CONFIG_MSG_DATA_MAX. case_match; simpl; split; try lia; intros ? [=]; subst. lia.
Qed.

Lemma channel_finish_ok s0 s um ub uc rc out buffer :
  system_ok s → spared (mem s0) (mem s) → free_block um IPC_MESSAGE_SIZE → (ub ≠ 0 → 0 < uc → free_block ub uc) → rc ≤ 0 ∨ is_Some out →
  completes s0 (channel_finish um ub uc rc out buffer s).
Proof.
  intros Hs Hm Hum Hub Hr. unfold channel_finish. destruct (Z.leb_spec rc 0); [auto with syscall|]. destruct Hr as [?|[delivery ->]]; [lia|].
  cbn [mbind option_bind]. cbn zeta. destruct (negb (ub =? 0) && (0 <? uc)) eqn:Ew.
  - apply andb_true_iff in Ew as [E1%negb_true_iff%Z.eqb_neq E2%Z.ltb_lt]. specialize (Hub E1 E2). cbn [andb].
    apply ret_ok; [auto with syscall|]. eapply spared_trans; [|apply store_spared; exact Hum]. case_match; [|done].
    eapply spared_trans; [exact Hm|]. apply store_spared. eapply free_shrink; [exact Hub|]. rewrite length_take. case_match; bool_prop; lia.
  - cbn [andb]. apply ret_ok; [auto with syscall|]. eapply spared_trans; [exact Hm|apply store_spared; exact Hum].
Qed.

Lemma channel_outcome_ok i c id um ub uc flags r s :
  system_ok s → pending_ok (PChannel i c id um ub uc flags) → kernel_ok (IpcRun.channel_kernel r) → message_ok r →
  completes s (channel_outcome now i c id um ub uc flags r s).
Proof.
  intros Hs Hp Hk Hr. destruct r as [rc out buffer k|k]; simpl in *; [destruct Hp as (_ & _ & ? & _ & ?); apply channel_finish_ok; auto with syscall|].
  apply suspend_ok; [|done|done]. apply ok_set_kern; [done|]. apply kernel_ok_with_sys; [done|]. apply sched_ok_block, Hk.
Qed.

Lemma channel_index k id : kernel_ok k → (default 0 (Ipc.find_channel id k) < Ipc.CONFIG_IPC_MAX_CHANNELS)%nat.
Proof.
  intros Hk. destruct (Ipc.find_channel id k) as [c|] eqn:E; [|unfold Ipc.CONFIG_IPC_MAX_CHANNELS; simpl; lia].
  apply IpcChannels.find_channel_at in E as (ch & Hch & _). simpl. rewrite <- (io_channels _ (ko_ipc _ Hk)). by apply lookup_lt_Some in Hch.
Qed.

(** The blocks of a channel receive: the message, and the buffer that it names. *)
Definition recv_clear (msg : Z) s : Prop :=
  let request := copy_from_user (mem s) (msg_arg s msg 1) IPC_MESSAGE_SIZE in
  clear (msg_arg s msg 1) IPC_MESSAGE_SIZE ∧ (word request 16 ≠ 0 → clear (word request 16) (word request 12)).

Lemma recv_handler_ok msg s : system_ok s → recv_clear msg s → completes s (sys_recv_handler data_buf now msg s).
Proof.
  intros Hs [Hc1 Hc2]. apply with_args_ok; [done|]. cbn zeta. case_match eqn:E1; [auto with syscall|]. apply checked_message in E1; [|apply arg_range].
  set (request := copy_from_user (mem s) (msg_arg s msg 1) IPC_MESSAGE_SIZE). case_match eqn:E2; [auto with syscall|].
  destruct (Sched.process_current (sys s)) as [i|] eqn:Ei; [|auto with syscall].
  assert (Hi : (i < Sched.MAX_PROCS)%nat) by (eapply sched_ok_current; [|exact Ei]; auto with syscall).
  pose proof (channel_buffer_holds (word request 16) (word request 12)) as Hh. destruct (channel_buffer _ _ _) as [b len]. cbn [fst snd] in Hh.
  destruct (IpcRun.channel_recv_step i (s32 (msg_arg s msg 0)) true b len (msg_arg s msg 2) (kern s)) as (r & Er & Hk); [auto with syscall|done..|].
  rewrite Er. cbn [mbind option_bind]. apply channel_outcome_ok; [done| |done|by eapply begin_message].
  assert (Hw : ∀ j, reg (word request j)) by (intros j; apply word_range, load_bytes).
  split_and!; [done|apply channel_index; auto with syscall|by split|apply Hw..|]. intros H1 H2. split; [|by apply Hc2]. apply Z.eqb_neq in H1.
  rewrite H1, (proj2 (Z.ltb_lt _ _) H2) in E2. cbn [negb andb] in E2.
  apply checked_block; [apply Hw..| |done]. by rewrite (proj2 (Z.ltb_lt _ _) H2).
Qed.

Lemma channel_continue_ok i c id um ub uc flags s :
  system_ok s → pending_ok (PChannel i c id um ub uc flags) → completes s (syscall_continue data_buf now (PChannel i c id um ub uc flags) s).
Proof.
  intros Hs Hp. cbn [syscall_continue]. pose proof (channel_buffer_holds ub uc) as Hh. destruct (channel_buffer _ _ _) as [b len]. cbn [fst snd] in Hh.
  destruct Hp as (Hi & Hc & Hr). assert (Hk : kernel_ok (kern s)) by auto with syscall. destruct Hh as [H0 Hb].
  destruct (proc_at_ok (kern s) i Hk Hi) as (p & Hp & _).
  destruct (lookup_lt_is_Some_2 (Ipc.channel_table (Ipc.ipc_of (kern s))) c) as [ch Hch]; [by rewrite (io_channels _ (ko_ipc _ Hk))|].
  destruct (IpcChannels.receive_round_ok (kern s) i p c ch id true b len flags) as (r & Er & Hpost); try done.
  rewrite Er. cbn [mbind option_bind]. apply channel_outcome_ok; [done..|by apply IpcRun.channel_post_ok in Hpost|by eapply round_message].
Qed.

Lemma from_step k (f : option (Z * Ipc.kernel)) : (∃ r k', f = Some (r, k') ∧ IpcRun.ipc_step k k') → ∃ r k', f = Some (r, k') ∧ kernel_ok k'.
Proof. intros (r & k' & -> & Hk & _). eauto. Qed.

Lemma chan_create_ok msg s : system_ok s → completes s (sys_chan_create_handler msg s).
Proof.
  intros Hs. apply with_args_ok; [done|]. cbn zeta. destruct (negb _ && _) eqn:E.
  - case_match; [auto with syscall|]. apply andb_true_iff in E as [_ E%Z.ltb_lt].
    apply of_kernel_ok; [done|]. apply (from_step (kern s)), IpcRun.channel_create_ok; [auto with syscall|]. unfold IpcRun.name_readable.
    set (n := if _ <? _ then _ else _). assert (Hn : 0 < n) by (unfold n, CONFIG_IPC_CHANNEL_NAME_MAX; case_match; lia).
    rewrite (proj2 (Nat.eqb_neq _ _)) by lia. unfold copy_from_user. rewrite length_app, load_length. cbn [length]. lia.
  - apply of_kernel_ok; [done|]. apply (from_step (kern s)), IpcRun.channel_create_ok; [auto with syscall|done].
Qed.

Lemma with_process_ok h s : system_ok s → (∀ i, (i < Sched.MAX_PROCS)%nat → completes s (h i)) → completes s (with_process h s).
Proof.
  intros Hs Hh. unfold with_process. destruct (Sched.process_current (sys s)) as [i|] eqn:E; [|auto with syscall].
  apply Hh. eapply sched_ok_current; [|exact E]. auto with syscall.
Qed.

Lemma chan_join_ok msg s : system_ok s → completes s (sys_chan_join_handler msg s).
Proof.
  intros Hs. apply with_args_ok, with_process_ok; [done..|]. intros i Hi.
  apply of_kernel_ok; [done|]. apply (from_step (kern s)), IpcRun.join_ok; auto with syscall.
Qed.

Lemma chan_leave_ok msg s : system_ok s → completes s (sys_chan_leave_handler msg s).
Proof.
  intros Hs. apply with_args_ok, with_process_ok; [done..|]. intros i Hi.
  apply of_kernel_ok; [done|]. apply (from_step (kern s)), IpcRun.leave_ok; auto with syscall.
Qed.

Lemma chan_peek_ok msg s : system_ok s → completes s (sys_chan_peek_handler msg s).
Proof.
  intros Hs. apply with_args_ok; [done|]. unfold Ipc.ipc_channel_peek. destruct (Ipc.find_channel _ (kern s)) as [c|] eqn:E; cbn; [|auto with syscall].
  apply IpcChannels.find_channel_at in E as (ch & -> & _). cbn. auto with syscall.
Qed.

Lemma service_channel_ok msg s : system_ok s → completes s (sys_service_channel_handler msg s).
Proof.
  intros Hs. apply with_args_ok; [done|]. destruct (KlogRun.service_channel_returns (s32 (msg_arg s msg 0)) (kern s)) as [c ->]; [auto with syscall|].
  cbn. auto with syscall.
Qed.

(** ** Mutexes and semaphores *)

Definition round_ok (r : Sync.round) : Prop := match r with Sync.Done _ y | Sync.Block y => sync_ok y end.

Lemma blocking_ok p id size (f : nat → Z → Sync.sync → option Sync.round) s :
  system_ok s → pending_ok p → (∀ j self, (j < size)%nat → ∃ r, f j self (locks s) = Some r ∧ round_ok r) →
  completes s (sync_outcome p (Sync.blocking_call id size f now (sys s) (locks s)) s).
Proof.
  intros Hs Hp Hf. unfold Sync.blocking_call.
  assert (Hret : ∀ r y, sync_ok y → completes s (sync_outcome p (Some (Sync.Returned r (sys s) y)) s)).
  { intros r y Hy. cbn. apply ret_ok; auto with syscall. }
  destruct (negb (Sync.in_table id size)) eqn:E; [apply Hret, so_locks, Hs|]. apply negb_false_iff, in_table_nat in E.
  destruct (Sync.self_pid (sys s)) as [self|]; [|apply Hret, so_locks, Hs].
  destruct (Hf _ self E) as (r & -> & Hr). cbn [mbind option_bind]. destruct r as [r y|y]; [by apply Hret|]. cbn.
  apply suspend_ok; [|done|done]. apply ok_set_locks; [|done]. apply ok_set_sys; [done|]. apply sched_ok_block. auto with syscall.
Qed.

Lemma lock_round_sync y j self : sync_ok y → (j < Sync.CONFIG_SYNC_MAX_MUTEXES)%nat → ∃ r, Sync.mutex_lock_round j self y = Some r ∧ round_ok r.
Proof.
  intros Hy Hj. destruct (mutex_at y j Hy Hj) as (m & Hm & Hw). destruct (lock_round_ok j self y m Hm Hw) as (r & -> & Hr).
  exists r. split; [done|]. unfold lock_post in Hr. destruct (negb (Sync.m_used m)); [by subst r|].
  destruct (negb (Sync.m_locked m)); [subst r; simpl; auto with kernel|]. destruct (_ =? self); [by subst r|].
  destruct Hr as (w & -> & Hw' & _). simpl. auto with kernel.
Qed.

Lemma wait_round_sync y j self : sync_ok y → (j < Sync.CONFIG_SYNC_MAX_SEMAPHORES)%nat → ∃ r, Sync.semaphore_wait_round j self y = Some r ∧ round_ok r.
Proof.
  intros Hy Hj. destruct (semaphore_at y j Hy Hj) as (m & Hm & Hw). destruct (wait_round_ok j self y m Hm Hw) as (r & -> & Hr).
  exists r. split; [done|]. unfold wait_post in Hr. destruct (negb (Sync.s_used m)); [by subst r|].
  destruct (0 <? _); [subst r; simpl; auto with kernel|]. destruct Hr as (w & -> & Hw' & _). simpl. auto with kernel.
Qed.

Lemma mutex_lock_ok id s : system_ok s → completes s (sync_outcome (PLock id) (Sync.sync_mutex_lock id now (sys s) (locks s)) s).
Proof. intros Hs. apply blocking_ok; [done..|]. intros j self Hj. apply lock_round_sync; [apply so_locks, Hs|done]. Qed.

Lemma sem_wait_ok id s : system_ok s → completes s (sync_outcome (PWait id) (Sync.sync_semaphore_wait id now (sys s) (locks s)) s).
Proof. intros Hs. apply blocking_ok; [done..|]. intros j self Hj. apply wait_round_sync; [apply so_locks, Hs|done]. Qed.

Lemma of_sync_ok s r : system_ok s → (∃ x q y, r = Some (x, q, y) ∧ sched_ok q ∧ sync_ok y) → completes s (of_sync r s).
Proof. intros Hs (x & q & y & -> & Hp & Hy). cbn. apply ret_ok; auto with syscall. Qed.

Lemma mutex_unlock_ok id s : system_ok s → completes s (of_sync (Sync.sync_mutex_unlock id (sys s) (locks s)) s).
Proof.
  intros Hs. pose proof (ok_sched s Hs) as Hp. pose proof (so_locks s Hs) as Hy. apply of_sync_ok; [done|]. unfold Sync.sync_mutex_unlock.
  destruct (negb _) eqn:E; [by eexists _, _, _|]. apply negb_false_iff, in_table_nat in E.
  destruct (Sync.self_pid (sys s)) as [self|]; [|by eexists _, _, _]. destruct (mutex_at _ _ Hy E) as (m & Hm & Hw).
  destruct (unlock_step_ok (Z.to_nat id) self (locks s) m Hm Hw) as ([[r w] y] & -> & Hr). cbn [mbind option_bind].
  eexists _, _, _. split; [done|]. split; [by apply sched_ok_wake_pid|]. unfold unlock_post in Hr. destruct (_ && _ && _); [|by simplify_eq].
  destruct (waiting (Sync.m_waiters m)); [simplify_eq; auto with kernel|]. destruct Hr as (w' & ? & Hw' & _). simplify_eq. auto with kernel.
Qed.

Lemma sem_post_ok id s : system_ok s → completes s (of_sync (Sync.sync_semaphore_post id (sys s) (locks s)) s).
Proof.
  intros Hs. pose proof (ok_sched s Hs) as Hp. pose proof (so_locks s Hs) as Hy. apply of_sync_ok; [done|]. unfold Sync.sync_semaphore_post.
  destruct (negb _) eqn:E; [by eexists _, _, _|]. apply negb_false_iff, in_table_nat in E. destruct (semaphore_at _ _ Hy E) as (m & Hm & Hw).
  destruct (post_step_ok (Z.to_nat id) (locks s) m Hm Hw) as ([[r w] y] & -> & Hr). cbn [mbind option_bind].
  eexists _, _, _. split; [done|]. split; [by apply sched_ok_wake_pid|]. unfold post_post in Hr. destruct (Sync.s_used m); [|by simplify_eq].
  destruct (waiting (Sync.s_waiters m)); [simplify_eq; auto with kernel|]. destruct Hr as (w' & ? & Hw' & _). simplify_eq. auto with kernel.
Qed.

Lemma waiters_reset w : waiters_ok w → waiters_ok {| Sync.w_list := Sync.w_list w; Sync.w_count := 0 |}.
Proof. intros []. split; simpl; [done|lia]. Qed.

Lemma mutex_create_ok msg s : system_ok s → completes s (sys_mutex_create_handler msg s).
Proof.
  intros Hs. pose proof (so_locks s Hs) as Hy. unfold sys_mutex_create_handler, Sync.sync_mutex_create. destruct (first_index _ _) as [i|]; [|auto with syscall].
  destruct (Sync.mutexes (locks s) !! i) as [m|] eqn:Em; [|auto with syscall]. apply ret_ok; [|done]. apply ok_set_locks; [done|].
  apply sync_ok_put_mutex; [done|]. simpl. apply waiters_reset. exact (Forall_lookup_1 _ _ _ _ (yo_mwait _ Hy) Em).
Qed.

Lemma sem_create_ok msg s : system_ok s → completes s (sys_sem_create_handler msg s).
Proof.
  intros Hs. apply with_args_ok; [done|]. pose proof (so_locks s Hs) as Hy. unfold Sync.sync_semaphore_create.
  destruct (_ <? 0); [auto with syscall|]. destruct (first_index _ _) as [i|]; [|auto with syscall].
  destruct (Sync.semaphores (locks s) !! i) as [m|] eqn:Em; [|auto with syscall]. apply ret_ok; [|done]. apply ok_set_locks; [done|].
  apply sync_ok_put_semaphore; [done|]. simpl. apply waiters_reset. exact (Forall_lookup_1 _ _ _ _ (yo_swait _ Hy) Em).
Qed.

(** ** Dispatch *)

Context (other : Z → Z → system W Ctx → option (outcome W Ctx)).

(** The call's number has no handler but those of the file. *)
Definition own_call (msg : Z) s : Prop :=
  ∀ e address, syscall_table s !! Z.to_nat (msg_number s msg) = Some e → e_handler e ≠ Some (HOther address).

(** What a call of the file's own handlers must not do: name memory of the kernel as a
    place to write to, or ask for a stack without room for the first frame. *)
Definition handler_sound (h : handler) (msg : Z) s : Prop :=
  match h with
  | HOther _ => False
  | HSpawn => SchedRun.frame_fits (msg_arg s msg 1)
  | HIpcRecv => clear (msg_arg s msg 1) (msg_arg s msg 2)
  | HRecv => recv_clear msg s
  | _ => True
  end.

Definition call_sound (msg : Z) s : Prop :=
  user_block msg ENVELOPE_SIZE →
  clear msg ENVELOPE_SIZE ∧
  ∀ e h, syscall_table s !! Z.to_nat (msg_number s msg) = Some e → e_handler e = Some h → handler_sound h msg s.

Lemma call_handler_ok h msg s :
  system_ok s → Sched.running_thread (sys s) ≠ None → handler_sound h msg s →
  completes s (call_handler place stack data_buf other now now' h msg s).
Proof.
  intros Hs Hr Hh. destruct h; cbn [call_handler].
  1: by apply write_ok. 1: by apply sys_yield_ok. 1: by apply spawn_ok. 1: by apply send_handler_ok. 1: by apply recv_handler_ok.
  1: by apply sys_exit_ok. 1: by apply chan_create_ok. 1: by apply chan_join_ok. 1: by apply chan_leave_ok. 1: by apply chan_peek_ok.
  1: by apply service_channel_ok. 1: by apply sys_sleep_ok. 1: by apply ipc_send_ok. 1: by apply ipc_recv_ok. 1: by apply share_call_ok.
  1: by apply connect_ok. 1: by apply sched_set_ok. 1: by apply mutex_create_ok.
  1: by apply with_args_ok, mutex_lock_ok. 1: by apply with_args_ok, mutex_unlock_ok. 1: by apply sem_create_ok.
  1: by apply with_args_ok, sem_wait_ok. 1: by apply with_args_ok, sem_post_ok. done.
Qed.

Lemma invoke_ok msg s :
  system_ok s → Sched.running_thread (sys s) ≠ None →
  (∀ e h, syscall_table s !! Z.to_nat (msg_number s msg) = Some e → e_handler e = Some h → handler_sound h msg s) →
  completes s (syscall_invoke place stack data_buf other now now' msg s).
Proof.
  intros Hs Hr Ho. unfold syscall_invoke. cbn zeta. pose proof (load32_range (mem s) msg) as [H0 _].
  destruct (Z.leb_spec (Z.of_nat SYSCALL_TABLE_SIZE) (msg_number s msg)); [auto with syscall|].
  destruct (lookup_lt_is_Some_2 (syscall_table s) (Z.to_nat (msg_number s msg))) as [e He].
  { rewrite (so_table s Hs). unfold msg_number in *. lia. }
  rewrite He. cbn [mbind option_bind]. destruct (e_handler e) as [h|] eqn:Eh; [|auto with syscall].
  apply call_handler_ok; [done..|]. by eapply Ho.
Qed.

Lemma finish_ok s0 msg o : free_block msg ENVELOPE_SIZE → good s0 o → good s0 (syscall_finish msg o).
Proof.
  intros Hm Ho. destruct o as [r s|p s]; [|done]. destruct Ho as [Hs Hout]. destruct (free_fields msg Hm) as [H1 H2].
  split; [by apply ok_set_mem|]. cbn. eapply spared_trans; [exact Hout|]. eapply spared_trans; by apply store32_spared.
Qed.

Lemma syscall_handler_ok eax s :
  system_ok s → Sched.running_thread (sys s) ≠ None → reg eax → call_sound eax s →
  completes s (syscall_handler place stack data_buf other now now' eax s).
Proof.
  intros Hs Hr He Ho. unfold syscall_handler. destruct (negb _) eqn:Ev; [auto with syscall|]. apply checked_envelope in Ev; [|done].
  destruct (Ho Ev) as [Hcl Hh]. assert (He' : free_block eax ENVELOPE_SIZE) by done.
  destruct (free_fields eax He') as [H1 H2]. destruct (_ <? _).
  - apply ret_ok; [by apply ok_set_mem|]. eapply spared_trans; by apply store32_spared.
  - destruct (invoke_ok eax s Hs Hr Hh) as (o & -> & Hg). cbn [mbind option_bind]. eexists. split; [done|]. by apply finish_ok.
Qed.

Lemma syscall_resume_ok msg p s :
  system_ok s → Sched.running_thread (sys s) ≠ None → free_block msg ENVELOPE_SIZE → pending_ok p → p ≠ PNever →
  completes s (syscall_resume data_buf now msg p s).
Proof.
  intros Hs Hr Hm Hp Hn. assert (Hc : completes s (syscall_continue data_buf now p s)).
  { destruct p as [r|i source buffer max|i c id um ub uc flags|id|id|]; [cbn; auto with syscall| |by apply channel_continue_ok
      |by apply mutex_lock_ok|by apply sem_wait_ok|done].
    destruct Hp as (Hi & Hmax & Hb). apply recv_continue_ok; [done..|]. unfold Sched.process_current. intros E. apply Hr. unfold Sched.running_thread. by rewrite E. }
  unfold syscall_resume. destruct Hc as (o & -> & Hg). cbn [mbind option_bind]. eexists. split; [done|]. by apply finish_ok.
Qed.

End spec.
End SyscallSpec.
