(* ===== verification/SyscallProps.v ===== *)
(** Properties of system calls, with witnesses: they complete and write only where
    processes may, refuse bad requests without effect, read only where processes may,
    and carry messages from one process to another. *)

From S2P Require Import Prelude Arrays Bytes Memory Sched SchedLists SchedSpec SchedRun Ipc IpcSpec IpcMail IpcRun Sync SyncProps Block.
From S2P Require Import Klog KlogRun Service ServiceSpec Syscall SyscallRead SyscallSpec.
From S2P Require Vfs VfsRamfs KlogProps ServiceProps IpcExamples.

Module SyscallProps.

Import Bytes IpcSpec SyncProps ServiceSpec Syscall SyscallMem SyscallRead SyscallSpec.

Section props.
Context {W Ctx : Type} (v : Vfs.Vfs.vfs W Ctx) {HF : KlogRun.FilesReturn v}.
Context (place : Sched.placement) (kernel_data : Z → Prop).
Implicit Types (s : system W Ctx) (w : list (Z * pending)) (other : Z → Z → system W Ctx → option (outcome W Ctx)).

(** ** Runs *)

(** A system and the calls that are suspended in it.  Between calls the processes write
    their own memory, which is that in their range where the kernel keeps nothing, and the kernel does anything [IpcRun.kstep] describes: ticks,
    wake-ups, sends and receives of the kernel's own threads. *)
Inductive runs : system W Ctx → list (Z * pending) → system W Ctx → list (Z * pending) → Prop :=
| runs_refl s w : runs s w s w
| runs_user s0 w0 s w m : runs s0 w0 s w → spared kernel_data (mem s) m → runs s0 w0 (set_mem m s) w
| runs_kernel s0 w0 s w o k : runs s0 w0 s w → IpcRun.kop_ok (kern s) o → IpcRun.kstep place (kern s) o = Some k →
    runs s0 w0 (set_kern k s) w
| runs_call s0 w0 s w stack data_buf other now now' eax r s' : runs s0 w0 s w → length stack = Klog.EVENT_SIZE → length data_buf = 256%nat →
    Sched.running_thread (sys s) ≠ None → reg eax → call_sound kernel_data eax s →
    syscall_handler place stack data_buf other now now' eax s = Some (Returns r s') → runs s0 w0 s' w
| runs_suspend s0 w0 s w stack data_buf other now now' eax p s' : runs s0 w0 s w → length stack = Klog.EVENT_SIZE → length data_buf = 256%nat →
    Sched.running_thread (sys s) ≠ None → reg eax → call_sound kernel_data eax s →
    syscall_handler place stack data_buf other now now' eax s = Some (Suspends p s') → runs s0 w0 s' ((eax, p) :: w)
| runs_resume s0 w0 s w1 msg p w2 data_buf now o : runs s0 w0 s (w1 ++ (msg, p) :: w2) → length data_buf = 256%nat →
    Sched.running_thread (sys s) ≠ None → p ≠ PNever → syscall_resume data_buf now msg p s = Some o →
    runs s0 w0 (match o with Returns _ s' | Suspends _ s' => s' end) (match o with Returns _ _ => w1 ++ w2 | Suspends p' _ => w1 ++ (msg, p') :: w2 end).

Definition suspended_ok (x : Z * pending) : Prop := free_block kernel_data x.1 ENVELOPE_SIZE ∧ pending_ok kernel_data x.2.

Definition runs_inv s0 s w : Prop := system_ok v s ∧ spared kernel_data (mem s0) (mem s) ∧ Forall suspended_ok w.

Lemma suspends_checked stack data_buf other now now' eax s p s' :
  reg eax → call_sound kernel_data eax s → syscall_handler place stack data_buf other now now' eax s = Some (Suspends p s') → free_block kernel_data eax ENVELOPE_SIZE.
Proof.
  intros He Hc. unfold syscall_handler. destruct (negb _) eqn:Ev; [done|]. intros _. apply checked_envelope in Ev; [|done]. split; [done|]. by apply Hc.
Qed.

Lemma runs_keep s0 w0 s w : runs s0 w0 s w → system_ok v s0 → Forall suspended_ok w0 → runs_inv s0 s w.
Proof.
  intros Hr Hs0 Hw0. induction Hr as [s w|s0 w0 s w m Hr IH Hm|s0 w0 s w o k Hr IH Ho E|s0 w0 s w stack data_buf other now now' eax r s' Hr IH Hst Hd Ht He Hc E
    |s0 w0 s w stack data_buf other now now' eax p s' Hr IH Hst Hd Ht He Hc E|s0 w0 s w1 msg p w2 data_buf now o Hr IH Hd Ht Hp E]; [by split_and!|..];
    destruct (IH Hs0 Hw0) as (Hs & Hout & Hw); clear IH.
  - split_and!; [by apply ok_set_mem|by eapply spared_trans|done].
  - destruct (IpcRun.kstep_ok place (kern s) o) as (k' & E' & Hk); [by eapply ok_kern|done|]. rewrite E in E'. injection E' as <-.
    split_and!; [by apply ok_set_kern|done|done].
  - destruct (syscall_handler_ok v kernel_data place stack data_buf now now' Hst Hd other eax s) as (o & E' & Hg); [done..|].
    rewrite E in E'. injection E' as <-. destruct Hg as [? ?]. split_and!; [done|by eapply spared_trans|done].
  - destruct (syscall_handler_ok v kernel_data place stack data_buf now now' Hst Hd other eax s) as (o & E' & Hg); [done..|].
    rewrite E in E'. injection E' as <-. destruct Hg as (? & ? & ?). split_and!; [done|by eapply spared_trans|].
    constructor; [|done]. split; [by eapply suspends_checked|done].
  - apply Forall_app in Hw as [Hw1 [[Hm Hpo] Hw2]%Forall_cons].
    destruct (syscall_resume_ok v kernel_data (replicate Klog.EVENT_SIZE 0) data_buf now (length_replicate _ _) Hd msg p s) as (o' & E' & Hg); [done..|].
    rewrite E in E'. injection E' as <-. destruct o as [r s'|p' s']; simpl in Hg |- *.
    + destruct Hg as [? ?]. split_and!; [done|by eapply spared_trans|by apply Forall_app].
    + destruct Hg as (? & ? & ?). split_and!; [done|by eapply spared_trans|]. apply Forall_app. split; [done|]. by constructor.
Qed.

(** C4: whatever system calls processes make of the handlers of the file, with any register
    contents and any bytes in their memory, and however calls that wait are suspended and
    go on, the kernel stays sound, and neither memory outside the range of processes nor
    the memory in it that the kernel keeps its own data in ([kernel_data], any set of
    addresses) is ever written by a call; and in every system reached, a call of the
    running thread completes (it returns or waits), and so does every suspended call that
    is scheduled again.  The calls must be sound ([call_sound]): envelopes and receive
    buffers do not overlap the data of the kernel, which the checks of pointers do not
    see to, and a stack that is asked for is of the default size or of at least 51 bytes,
    so that the first frame fits into it. *)
Theorem syscall_safe s0 s w :
  system_ok v s0 → runs s0 [] s w →
  spared kernel_data (mem s0) (mem s) ∧
  ∀ stack data_buf other now now', length stack = Klog.EVENT_SIZE → length data_buf = 256%nat → Sched.running_thread (sys s) ≠ None →
    (∀ eax, reg eax → call_sound kernel_data eax s → completes v kernel_data s (syscall_handler place stack data_buf other now now' eax s)) ∧
    (∀ msg p, (msg, p) ∈ w → p ≠ PNever → completes v kernel_data s (syscall_resume data_buf now msg p s)).
Proof.
  intros Hs0 Hr. destruct (runs_keep s0 [] s w Hr Hs0) as (Hs & Hout & Hw); [by constructor|]. split; [done|].
  intros stack data_buf other now now' Hst Hd Ht. split.
  - intros eax He Hc. by apply syscall_handler_ok.
  - intros msg p Hin Hp. rewrite Forall_forall in Hw. destruct (Hw _ Hin) as [Hm Hpo]. by eapply syscall_resume_ok.
Qed.

(** ** Refusals *)

(** The arguments a handler asks for. *)
Definition min_args (h : handler) : Z :=
  match h with
  | HYield | HMutexCreate | HOther _ => 0
  | HExit | HChanJoin | HChanLeave | HChanPeek | HServiceChannel | HSleep | HMutexLock | HMutexUnlock | HSemCreate | HSemWait | HSemPost => 1
  | HWrite | HSpawn | HChanCreate | HServiceConnect => 2
  | HSend | HRecv | HIpcSend | HIpcRecv | HIpcShare => 3
  | HSchedSet => 4
  end.

(** Arguments that point outside the range of processes, or sizes over the limits. *)
Definition bad_request (h : handler) (msg : Z) s : Prop :=
  let arg := msg_arg s msg in
  let outside_block a n := 0 < n ∧ ¬ user_block a n in
  let field := word (copy_from_user (mem s) (arg 1) IPC_MESSAGE_SIZE) in
  match h with
  | HWrite => outside_block (arg 0) (arg 1)
  | HSpawn => ¬ user_address (arg 0)
  | HIpcSend => CONFIG_MSG_DATA_MAX < arg 2 ∨ outside_block (arg 1) (arg 2)
  | HIpcRecv => outside_block (arg 1) (arg 2)
  | HIpcShare => arg 2 = 0 ∨ ¬ user_address (arg 1)
  | HSend => ¬ user_block (arg 1) IPC_MESSAGE_SIZE ∨ CONFIG_MSG_DATA_MAX < field 12%nat ∨ outside_block (field 16%nat) (field 12%nat)
  | HRecv => ¬ user_block (arg 1) IPC_MESSAGE_SIZE ∨ field 16%nat ≠ 0 ∧ outside_block (field 16%nat) (field 12%nat)
  | HChanCreate => arg 0 ≠ 0 ∧ outside_block (arg 0) (arg 1)
  | _ => False
  end.

Lemma block_refused a n : reg a → reg n → 0 < n → ¬ user_block a n → syscall_validate_user_buffer a n = false.
Proof. intros Ha Hn H0 Hb. apply not_true_iff_false. intros [?|?]%validate_buffer_spec; [lia|done|done|done]. Qed.

Lemma pointer_refused a : reg a → ¬ user_address a → syscall_validate_user_pointer a = false.
Proof. intros Ha Hb. apply not_true_iff_false. intros ?%validate_pointer_spec; done. Qed.

Lemma positive_tests n : 0 < n → (0 <? n) = true ∧ (n =? 0) = false.
Proof. lia. Qed.

Lemma bad_request_refused stack data_buf other now now' h msg s :
  min_args h ≤ msg_argc s msg → bad_request h msg s → call_handler place stack data_buf other now now' h msg s = ret (-1) s.
Proof.
  intros Ha Hb. assert (Hreg : ∀ i, reg (msg_arg s msg i)) by (intros; apply load32_range).
  assert (Hw : ∀ a n i, reg (word (copy_from_user (mem s) a n) i)) by (intros; apply word_range, load_bytes).
  assert (Hargs : ∀ f, with_args (min_args h) msg s f = f) by (intros f; unfold with_args; rewrite (proj2 (Z.ltb_ge _ _) Ha); done).
  destruct h; try done; cbn [call_handler bad_request min_args] in *;
    unfold sys_write_handler, sys_spawn_handler, sys_send_handler, sys_recv_handler, sys_chan_create_handler, sys_ipc_send_handler,
      sys_ipc_recv_handler, sys_ipc_share_handler; rewrite Hargs; cbn zeta.
  - destruct Hb as [H0 Hb]. destruct (positive_tests _ H0) as [_ ->]. by rewrite block_refused.
  - by rewrite pointer_refused.
  - destruct Hb as [Hb|[Hb|[H0 Hb]]]; [by rewrite (block_refused _ IPC_MESSAGE_SIZE)|..]; (case_match; [done|]).
    + by rewrite (proj2 (Z.ltb_lt _ _) Hb).
    + destruct (CONFIG_MSG_DATA_MAX <? _); [done|]. destruct (positive_tests _ H0) as [-> _]. by rewrite block_refused.
  - destruct Hb as [Hb|(Hn%Z.eqb_neq & H0 & Hb)]; [by rewrite (block_refused _ IPC_MESSAGE_SIZE)|]. case_match; [done|].
    destruct (positive_tests _ H0) as [-> _]. by rewrite Hn, block_refused.
  - destruct Hb as (Hn%Z.eqb_neq & H0 & Hb). destruct (positive_tests _ H0) as [-> _]. by rewrite Hn, block_refused.
  - destruct Hb as [Hb|[H0 Hb]]; [by rewrite (proj2 (Z.ltb_lt _ _) Hb)|]. case_match; [done|].
    destruct (positive_tests _ H0) as [-> _]. by rewrite block_refused.
  - destruct Hb as [H0 Hb]. destruct (positive_tests _ H0) as [-> _]. by rewrite block_refused.
  - destruct Hb as [->|Hb]; [done|]. case_match; [done|]. by rewrite pointer_refused.
Qed.

Lemma few_args_refused stack data_buf other now now' h msg s :
  msg_argc s msg < min_args h → call_handler place stack data_buf other now now' h msg s = ret (-1) s.
Proof.
  intros Ha. pose proof (load32_range (mem s) (msg +32 4)) as [H0 _]. unfold msg_argc in Ha.
  assert (Hargs : ∀ f, with_args (min_args h) msg s f = ret (-1) s) by (intros f; unfold with_args, msg_argc; by rewrite (proj2 (Z.ltb_lt _ _) Ha)).
  destruct h; cbn [call_handler min_args] in *; try lia; apply Hargs.
Qed.

(** The requests that are refused. *)
Inductive refused (eax : Z) s : Prop :=
| refused_envelope : ¬ user_block eax ENVELOPE_SIZE → refused eax s
| refused_argc : SYSCALL_MAX_ARGS < msg_argc s eax → refused eax s
| refused_number : Z.of_nat SYSCALL_TABLE_SIZE ≤ msg_number s eax → refused eax s
| refused_empty e : syscall_table s !! Z.to_nat (msg_number s eax) = Some e → e_handler e = None → refused eax s
| refused_few e h : syscall_table s !! Z.to_nat (msg_number s eax) = Some e → e_handler e = Some h → msg_argc s eax < min_args h → refused eax s
| refused_bad e h : syscall_table s !! Z.to_nat (msg_number s eax) = Some e → e_handler e = Some h → min_args h ≤ msg_argc s eax →
    bad_request h eax s → refused eax s.

Lemma invoke_refused stack data_buf other now now' eax s :
  refused eax s → user_block eax ENVELOPE_SIZE → msg_argc s eax ≤ SYSCALL_MAX_ARGS →
  syscall_invoke place stack data_buf other now now' eax s = ret (-1) s.
Proof.
  intros Hr He Ha. unfold syscall_invoke. cbn zeta. destruct (Z.leb_spec (Z.of_nat SYSCALL_TABLE_SIZE) (msg_number s eax)); [done|].
  destruct Hr as [?|?|?|e Hl Hh|e h Hl Hh Hf|e h Hl Hh Hf Hb]; [done|lia|lia|..]; rewrite Hl; cbn [mbind option_bind]; rewrite Hh; [done|..].
  - by apply few_args_refused.
  - by apply bad_request_refused.
Qed.

(** The two words at the end of the envelope. *)
Definition marked (eax : Z) (m m' : memory) : Prop :=
  load32 m' (eax +32 24) = 4294967295 ∧ load32 m' (eax +32 28) = 1 ∧ ∀ x, ¬ (eax + 24 ≤ x < eax + 32) → m' !! x = m !! x.

Lemma store32_frame m a x z : user_block a 4 → ¬ (a ≤ x < a + 4) → store32 m a z !! x = m !! x.
Proof. intros [? ?] Hx. apply store_frame; simpl; lia. Qed.

Lemma marked_stores eax m r1 r2 :
  user_block eax ENVELOPE_SIZE → u32 r1 = 4294967295 → u32 r2 = 1 →
  marked eax m (store32 (store32 m (eax +32 24) r1) (eax +32 28) r2) ∧ marked eax m (store32 (store32 m (eax +32 28) r2) (eax +32 24) r1).
Proof.
  intros He H1 H2. destruct (fields_block eax He) as [B1 B2]. destruct (block_offset eax ENVELOPE_SIZE 24 He) as [E1 _]; [unfold ENVELOPE_SIZE; lia|].
  destruct (block_offset eax ENVELOPE_SIZE 28 He) as [E2 _]; [unfold ENVELOPE_SIZE; lia|]. rewrite E1, E2 in *.
  split; unfold marked; rewrite E1, E2; split_and!; try (intros x Hx; rewrite !store32_frame by (done || lia); done).
  - rewrite load32_store32_ne, load32_store32 by (done || lia). done.
  - by rewrite load32_store32.
  - by rewrite load32_store32.
  - rewrite load32_store32_ne, load32_store32 by (done || lia). done.
Qed.

(** C35: a request with an envelope outside the range of processes, too many or too few
    arguments, a number without a handler, a pointer outside that range or a size over
    its limit is refused: the call returns -1, nothing in the system changes but the
    result and status words of an envelope that lies in the range, and those say so. *)
Theorem syscall_refuses stack data_buf other now now' eax s :
  reg eax → refused eax s →
  ∃ m, syscall_handler place stack data_buf other now now' eax s = Some (Returns 4294967295 (set_mem m s)) ∧
       (¬ user_block eax ENVELOPE_SIZE → m = mem s) ∧ (user_block eax ENVELOPE_SIZE → marked eax (mem s) m).
Proof.
  intros He Hr. unfold syscall_handler. destruct (negb _) eqn:Ev.
  - exists (mem s). split; [by destruct s|]. split; [done|]. intros Hb. rewrite negb_true_iff, <- not_true_iff_false in Ev.
    destruct Ev. apply validate_buffer_spec; [done|done|by right].
  - apply checked_envelope in Ev; [|done]. destruct (Z.ltb_spec SYSCALL_MAX_ARGS (msg_argc s eax)).
    + exists (store32 (store32 (mem s) (eax +32 28) 1) (eax +32 24) (-1)). split; [done|]. split; [done|]. intros _.
      exact (proj2 (marked_stores eax (mem s) (-1) 1 Ev eq_refl eq_refl)).
    + rewrite invoke_refused by done. exists (store32 (store32 (mem s) (eax +32 24) (-1)) (eax +32 28) 1).
      split; [done|]. split; [done|]. intros _. exact (proj1 (marked_stores eax (mem s) (-1) 1 Ev eq_refl eq_refl)).
Qed.

(** ** Checks and reads *)

(** The check of a buffer, with its sums at 32 bits, accepts a non-empty block
    exactly when every address from its start to its end lies in the range of
    processes: no length wraps around it, and nothing at or over the limit passes. *)
Theorem buffer_check_exact a n :
  reg a → reg n → 0 < n →
  (syscall_validate_user_buffer a n = true ↔ ∀ d, 0 ≤ d ≤ n → user_address (a + d)).
Proof.
  intros Ha Hn H0. rewrite validate_buffer_spec by done. unfold user_block, user_address. split.
  - intros [?|[? ?]] d Hd; lia.
  - intros Hd. right. pose proof (Hd 0 ltac:(lia)). pose proof (Hd n ltac:(lia)). lia.
Qed.


(** ** A message from one process to another *)

Lemma send_inbox s msg s1 i :
  let size := msg_arg s msg 2 in
  system_ok v s → 3 ≤ msg_argc s msg → 0 < size → sys_ipc_send_handler msg s = Some (Returns size s1) →
  Sched.process_lookup (s32 (msg_arg s msg 0)) (sys s) = Some i → IpcMail.inbox (kern s) i = [] →
  size ≤ 256 ∧ user_block (msg_arg s msg 1) size ∧
  IpcMail.inbox (kern s1) i = [(IpcMail.caller_pid (kern s), load (mem s) (msg_arg s msg 1) (Z.to_nat size))].
Proof.
  intros size Hs Ha H0 E Hl Hin. unfold sys_ipc_send_handler, with_args in E. rewrite (proj2 (Z.ltb_ge _ _) Ha) in E. cbn zeta in E.
  fold size in E. destruct (positive_tests _ H0) as [Hp _]. rewrite Hp in E. destruct (Z.ltb_spec CONFIG_MSG_DATA_MAX size) as [|Hsz]; [injection E; lia|].
  destruct (true && _) eqn:Ec; [injection E; lia|].
  assert (Hb : user_block (msg_arg s msg 1) size) by (apply checked_block; [apply load32_range..|by rewrite Hp|done]).
  set (b := copy_from_user (mem s) (msg_arg s msg 1) size) in E.
  assert (Hlen : length b = Z.to_nat size) by (unfold b, copy_from_user; apply load_length).
  destruct (IpcMail.send_ok (kern s) (s32 (msg_arg s msg 0)) (Some b) size) as (r & k & Es & _ & Hpost); [by eapply ok_kern|lia|intros ? [= <-]; lia|].
  rewrite Es in E. cbn in E. injection E as Er <-. unfold IpcMail.send_target in Hpost. destruct (_ && _ && _ && _ && _); [|lia].
  change (Ipc.sys (kern s)) with (sys s) in Hpost. rewrite Hl in Hpost. unfold IpcMail.delivered in Hpost. rewrite Hin in Hpost.
  rewrite decide_True in Hpost by (unfold Ipc.CONFIG_MSG_QUEUE_LEN; simpl; lia). destruct Hpost as (_ & Hin' & _).
  split; [exact Hsz|]. split; [done|]. cbn [kern mach set_kern set_mach Klog.kern Klog.set_kern]. rewrite Hin'. simpl.
  rewrite <- Hlen at 1. by rewrite firstn_all.
Qed.

Lemma recv_message s msg data_buf now i t p source b :
  let max := msg_arg s msg 2 in
  system_ok v s → length data_buf = 256%nat → 3 ≤ msg_argc s msg → s32 (msg_arg s msg 0) = source → user_block (msg_arg s msg 1) max →
  Ipc.ipc_initialized (Ipc.ipc_of (kern s)) = true → Sched.process_current (sys s) = Some i →
  Sched.processes (sys s) !! i = Some t → Ipc.proc_at (kern s) i = Some p →
  (source = Ipc.IPC_ANY_PROCESS ∨ source = b.1) → holds_right t p b.1 Ipc.IPC_RIGHT_RECV = true →
  IpcMail.inbox (kern s) i = [b] → bytes b.2 → 0 < Z.of_nat (length b.2) ≤ 256 → Z.of_nat (length b.2) ≤ max →
  ∃ s', sys_ipc_recv_handler data_buf now msg s = Some (Returns (Z.of_nat (length b.2)) s') ∧
        load (mem s') (msg_arg s msg 1) (length b.2) = b.2 ∧ IpcMail.inbox (kern s') i = [].
Proof.
  intros max Hs Hd Ha Hsrc Hb Hini Hc Ht Hp Hfrom Hright Hin Hbytes Hlen Hmax.
  unfold sys_ipc_recv_handler, with_args. rewrite (proj2 (Z.ltb_ge _ _) Ha). cbn zeta. fold max.
  assert (Hv : syscall_validate_user_buffer (msg_arg s msg 1) max = true) by (apply validate_buffer_spec; [apply load32_range..|by right]).
  rewrite Hv, andb_false_r, Hsrc. unfold recv_buffer. set (cap := if CONFIG_MSG_DATA_MAX <? max then _ else _).
  assert (Hcap : Z.of_nat (length b.2) ≤ cap ≤ 256 ∧ cap ≤ max).
  { unfold cap, CONFIG_MSG_DATA_MAX. destruct (Z.ltb_spec 256 max); lia. }
  rewrite (proj2 (Z.ltb_lt 0 cap)) by lia.
  destruct (IpcMail.recv_begin_receives (kern s) i t p source (Some data_buf) cap) as (out & -> & Hpost);
    [by eapply ok_kern|done..|lia|by eexists|intros ? [= <-]; lia|].
  rewrite Hin in Hpost. cbn [IpcMail.receive] in Hpost.
  assert (Hm : matches source b = true).
  { unfold matches. destruct Hfrom as [->| ->]; [done|]. rewrite Z.eqb_refl. apply orb_true_r. }
  rewrite Hm, Hright in Hpost. unfold IpcMail.recv_post in Hpost. destruct b as [from b]. cbn [fst snd] in *.
  destruct out as [r buffer k|k]; [|done]. destruct Hpost as (-> & -> & Hrec). cbn [mbind option_bind recv_outcome]. unfold recv_finish.
  rewrite (proj2 (Z.leb_gt _ 0)) by lia. cbn zeta. fold cap. unfold IpcMail.fill. cbn [fmap option_fmap option_map].
  rewrite (proj2 (Z.eqb_neq (msg_arg s msg 1) 0)) by (destruct Hb; lia). rewrite (proj2 (Z.ltb_lt 0 max)) by lia. cbn [negb andb].
  rewrite (proj2 (Z.ltb_ge max _)), (proj2 (Z.ltb_ge cap _)), Nat.min_l, firstn_all, Nat2Z.id, take_app_length by lia.
  eexists. split; [done|]. split; [|apply Hrec]. apply load_store; [done|]. eapply block_shrink; [exact Hb|lia].
Qed.

(** C6: a message that one process sends with a system call arrives in the memory of the
    process that receives it: when the send has returned the size, and the receiver,
    whose mailbox was empty, later asks for it with a buffer of at least that size and
    the right to hear from the sender, the receive returns the size, the buffer then
    holds the bytes the sender's buffer held when it sent, and the mailbox is empty. *)
Theorem message_calls_deliver s msg s1 i s2 msg2 data_buf now t p :
  let size := msg_arg s msg 2 in
  let source := s32 (msg_arg s2 msg2 0) in
  system_ok v s → 3 ≤ msg_argc s msg → 0 < size → sys_ipc_send_handler msg s = Some (Returns size s1) →
  Sched.process_lookup (s32 (msg_arg s msg 0)) (sys s) = Some i → IpcMail.inbox (kern s) i = [] →
  system_ok v s2 → Ipc.ipc_of (kern s2) = Ipc.ipc_of (kern s1) → Ipc.ipc_initialized (Ipc.ipc_of (kern s2)) = true →
  Sched.process_current (sys s2) = Some i → Sched.processes (sys s2) !! i = Some t → Ipc.proc_at (kern s2) i = Some p →
  length data_buf = 256%nat → 3 ≤ msg_argc s2 msg2 → user_block (msg_arg s2 msg2 1) (msg_arg s2 msg2 2) → size ≤ msg_arg s2 msg2 2 →
  (source = Ipc.IPC_ANY_PROCESS ∨ source = IpcMail.caller_pid (kern s)) →
  holds_right t p (IpcMail.caller_pid (kern s)) Ipc.IPC_RIGHT_RECV = true →
  ∃ s3, sys_ipc_recv_handler data_buf now msg2 s2 = Some (Returns size s3) ∧
        load (mem s3) (msg_arg s2 msg2 1) (Z.to_nat size) = load (mem s) (msg_arg s msg 1) (Z.to_nat size) ∧
        IpcMail.inbox (kern s3) i = [].
Proof.
  intros size source Hs Ha H0 E Hl Hin Hs2 Hipc Hini Hc Ht Hp Hd Ha2 Hb Hmax Hsrc Hright.
  destruct (send_inbox s msg s1 i Hs Ha H0 E Hl Hin) as (Hsz & _ & Hin1).
  set (b := load (mem s) (msg_arg s msg 1) (Z.to_nat size)). assert (Hlen : length b = Z.to_nat size) by apply load_length.
  destruct (recv_message s2 msg2 data_buf now i t p source (IpcMail.caller_pid (kern s), b)) as (s3 & E3 & Hload & Hin3);
    [done..| |apply load_bytes|cbn [snd]; rewrite Hlen; unfold size in *; lia|cbn [snd]; rewrite Hlen; unfold size in *; lia|].
  { unfold IpcMail.inbox, Ipc.proc_at in *. by rewrite Hipc. }
  cbn [snd] in E3, Hload. rewrite Hlen in E3, Hload. rewrite Z2Nat.id in E3 by (unfold size; lia). by exists s3.
Qed.

End props.
End SyscallProps.
