(* ===== verification/Devmgr.v ===== *)
(** The device manager (kernel/devmgr.c) on the machine of the log: the table of devices,
    the files it publishes them in (with the list of devices of kernel/debug.c), the
    events it sends and what it logs.  The table is a part of the world the file
    systems act on, since the device file system reads it.  What the start functions
    of drivers answer is an argument, and so are the bytes of an event that the code
    leaves as they are on the stack.  An operation is [None] when it would not end. *)

From S2P Require Import Prelude Arrays Bytes Ipc Block Klog Service.
From S2P Require Vfs.

Module Devmgr.

Import Bytes Klog Service.

Definition DEVMGR_MAX_DEVICES : nat := 32.
Definition DEVMGR_NAME_MAX : nat := 32.
Definition DEVMGR_TYPE_MAX : nat := 32.
Definition VFS_NODE_NAME_MAX : nat := 32.
Definition VFS_INLINE_CAP : nat := Z.to_nat 8192.
Definition DEVICE_FLAG_PUBLISH : Z := 1.
Definition DEVICE_FLAG_INTERNAL : Z := 2.
Definition IPC_SERVICE_DEVMGR : Z := 0.
Definition DEVMGR_EVENT_REGISTER : Z := 1.
Definition DEVMGR_EVENT_UNREGISTER : Z := 2.

(** The operations of a device: those of the null device, or a driver's. *)
Inductive device_ops := null_device_ops | DriverOps (address : Z).

Record device_descriptor := Descriptor {
  d_name : option cstring;
  d_type : option cstring;
  d_parent : option cstring;
  d_ops : option device_ops;
  d_flags : Z;
  d_driver_data : Z
}.

(** The parent is the index of its entry. *)
Record device_node := Node {
  id : Z;
  name : cstring;
  type : cstring;
  flags : Z;
  parent : option nat;
  driver_data : Z;
  ops : option device_ops
}.

Record device_entry := Entry { used : bool; node : device_node }.

Record devmgr := Devices {
  device_table : list device_entry;
  device_count : nat;
  next_device_id : Z;
  root_device : option nat;
  devmgr_channel_id : Z
}.

Definition set_table (t : list device_entry) (d : devmgr) : devmgr :=
  Devices t (device_count d) (next_device_id d) (root_device d) (devmgr_channel_id d).
Definition set_count (n : nat) (d : devmgr) : devmgr :=
  Devices (device_table d) n (next_device_id d) (root_device d) (devmgr_channel_id d).
Definition set_next_id (n : Z) (d : devmgr) : devmgr :=
  Devices (device_table d) (device_count d) n (root_device d) (devmgr_channel_id d).
Definition set_root (r : option nat) (d : devmgr) : devmgr :=
  Devices (device_table d) (device_count d) (next_device_id d) r (devmgr_channel_id d).
Definition set_channel_id (c : Z) (d : devmgr) : devmgr :=
  Devices (device_table d) (device_count d) (next_device_id d) (root_device d) c.
Definition set_parent (p : option nat) (n : device_node) : device_node :=
  Node (id n) (name n) (type n) (flags n) p (driver_data n) (ops n).

(** ** The table *)

Definition str_copy (cap : nat) (src : option cstring) : cstring := take (cap - 1) (default [] src).

Definition find_device_by_name (n : cstring) (d : devmgr) : option nat :=
  first_index (fun e => used e && bool_decide (name (node e) = n)) (device_table d).

Definition blank_node : device_node := Node 0 [] [] 0 None 0 None.

(** The index of the slot. *)
Definition allocate_slot (d : devmgr) : option (nat * devmgr) :=
  i ← first_index (fun e => negb (used e)) (device_table d);
  e ← device_table d !! i;
  Some (i, set_count (S (device_count d)) (set_table (<[i := Entry true (node e)]> (device_table d)) d)).

Definition release_slot (i : nat) (d : devmgr) : devmgr :=
  match device_table d !! i with
  | Some e =>
      if negb (used e) then d
      else set_count (device_count d - 1) (set_table (<[i := Entry false blank_node]> (device_table d)) d)
  | None => d
  end.

Definition detach_children (old_parent : nat) (new_parent : option nat) (d : devmgr) : devmgr :=
  set_table ((fun e => if used e && bool_decide (parent (node e) = Some old_parent) then Entry true (set_parent new_parent (node e)) else e)
    <$> device_table d) d.

Definition node_at (d : devmgr) (i : nat) : option device_node := node <$> device_table d !! i.

(** The loop of [device_depth]; [None] when it goes round more often than there are devices. *)
Fixpoint device_depth_loop (fuel : nat) (i : option nat) (depth : nat) (d : devmgr) : option nat :=
  match i with
  | None => Some depth
  | Some j =>
      if bool_decide (root_device d = Some j) then Some depth
      else match fuel with
      | O => None
      | S fuel' => n ← node_at d j; device_depth_loop fuel' (parent n) (S depth) d
      end
  end.

Definition device_depth (i : nat) (d : devmgr) : option nat := device_depth_loop DEVMGR_MAX_DEVICES (Some i) 0 d.

Definition create_internal_device (n t : cstring) (p : option nat) (d : devmgr) : devmgr :=
  match allocate_slot d with
  | None => d
  | Some (i, d) =>
      let nd := Node (next_device_id d) (str_copy DEVMGR_NAME_MAX (Some n)) (str_copy DEVMGR_TYPE_MAX (Some t)) DEVICE_FLAG_INTERNAL
        (match p with Some p => Some p | None => root_device d end) 0 None in
      set_next_id (next_device_id d +32 1) (set_table (<[i := Entry true nd]> (device_table d)) d)
  end.

Definition enumerate (d : devmgr) : list device_node := node <$> filter (fun e => used e = true) (device_table d).

Definition devmgr_enumerate (out : bool) (max : nat) (d : devmgr) : list device_node :=
  if negb out || (max =? 0)%nat then [] else take max (enumerate d).

(** ** What it publishes *)

(** [VFS_NODE_NAME_MAX] bytes hold the path with its terminator. *)
Definition device_path (n : cstring) : option cstring :=
  if (VFS_NODE_NAME_MAX <? 9 + length n + 1)%nat then None else Some (lit "/Devices/" ++ n).

Definition parent_name (none : cstring) (nd : device_node) (d : devmgr) : option cstring :=
  match parent nd with None => Some none | Some p => name <$> node_at d p end.

Definition device_payload (nd : device_node) (d : devmgr) : option cstring :=
  let add := append_text 128 in
  let w := add (lit "id: ") (add [newline] (add (type nd) (add (lit "type: ") (add [newline] (add (name nd) (add (lit "name: ") [])))))) in
  let w := add [newline] (add (Block.decimal (id nd)) w) in
  p ← parent_name (lit "root") nd d;
  Some (if (length w + 8 + 2 <? 128)%nat then add [newline] (add p (add (lit "parent: ") w)) else w).

Fixpoint indent (depth : nat) (line : cstring) : cstring :=
  match depth with
  | O => line
  | S depth' => if (length line + 2 <? VFS_INLINE_CAP)%nat then indent depth' (line ++ [32; 32]) else line
  end.

Definition tree_line (nd : device_node) (depth : nat) (line : cstring) : cstring :=
  let add := append_text VFS_INLINE_CAP in
  let line := indent depth line in
  let line := if (length line + 2 <? VFS_INLINE_CAP)%nat then line ++ lit "- " else line in
  add [newline] (add [41] (add (type nd) (add (lit " (") (add (name nd) line)))).

(** The entries from [i] on. *)
Fixpoint tree_lines (i : nat) (l : list device_entry) (line : cstring) (d : devmgr) : option cstring :=
  match l with
  | [] => Some line
  | e :: l' =>
      if negb (used e) || bool_decide (root_device d = Some i) then tree_lines (S i) l' line d
      else depth ← device_depth i d; tree_lines (S i) l' (tree_line (node e) depth line) d
  end.

Definition device_tree (d : devmgr) : option cstring :=
  tree_lines 0 (device_table d) (append_text VFS_INLINE_CAP (lit "Device Tree" ++ [newline]) []) d.

Definition DEVICE_CAP : nat := 192.

Definition append_flags (f : Z) (line : cstring) : cstring :=
  let line := append_char DEVICE_CAP 91 line in
  let line := if negb (Z.land f DEVICE_FLAG_PUBLISH =? 0) then append_char DEVICE_CAP 80 line else line in
  let line := if negb (Z.land f DEVICE_FLAG_INTERNAL =? 0) then append_char DEVICE_CAP 73 line else line in
  append_char DEVICE_CAP 93 line.

Definition device_line (nd : device_node) (d : devmgr) : option cstring :=
  p ← parent_name (lit "-") nd d;
  let sp := append_char DEVICE_CAP 32 in
  let l := append_decimal DEVICE_CAP (id nd) [] in
  let l := append_text DEVICE_CAP (name nd) (sp l) in
  let l := append_text DEVICE_CAP (type nd) (sp l) in
  let l := append_text DEVICE_CAP p (sp (append_flags (flags nd) (sp l))) in
  Some (append_char DEVICE_CAP newline l).

Definition device_header : cstring := append_text DEVICE_CAP (lit "ID NAME TYPE FLAGS PARENT" ++ [newline]) [].

(** A [char[cap]] that [str_copy] has written, over the bytes [old]. *)
Definition char_array (cap : nat) (n : cstring) (old : list Z) : list Z :=
  let n := str_copy cap (Some n) in n ++ 0 :: drop (S (length n)) (take cap old).

(** [struct devmgr_event], [junk] being what was on the stack. *)
Definition devmgr_event (action : Z) (nd : device_node) (junk : list Z) : list Z :=
  [action; 0; 0; 0] ++ le32 (id nd) ++ char_array 32 (name nd) junk ++ char_array 32 (type nd) (drop 32 junk).

(** The table as a part of the world. *)
Class HasDevices (W : Type) := {
  devices_of : W → devmgr;
  with_devices : devmgr → W → W;
  devices_of_with d w : devices_of (with_devices d w) = d
}.

Section devmgr.
Context {W Ctx : Type} {HD : HasDevices W} (stack junk : list Z) (start : Z → option Z).
Implicit Types s : machine W Ctx.

Definition devs s : devmgr := devices_of (world s).
Definition set_devs (d : devmgr) s : machine W Ctx := set_world (with_devices d (world s)) s.

Definition klog_warn (t : cstring) s : option (machine W Ctx) := klog_emit_tagged stack (Some (lit "kernel")) KLOG_WARN (Some t) s.
Definition klog_info (t : cstring) s : option (machine W Ctx) := klog_emit_tagged stack (Some (lit "kernel")) KLOG_INFO (Some t) s.

Definition devmgr_send_event (action : Z) (nd : device_node) s : option (machine W Ctx) :=
  if negb (Ipc.ipc_is_initialized (kern s)) then Some s
  else
    s ← (if devmgr_channel_id (devs s) <? 0
         then c ← Ipc.ipc_get_service_channel IPC_SERVICE_DEVMGR (kern s); Some (set_devs (set_channel_id c (devs s)) s)
         else Some s);
    if devmgr_channel_id (devs s) <? 0 then Some s
    else
      let payload := devmgr_event action nd junk in
      '(_, k) ← Ipc.ipc_channel_send (devmgr_channel_id (devs s)) 0 action 0 (Some payload) 72 0 (kern s);
      Some (set_kern k s).

Definition published (nd : device_node) : bool :=
  negb (Z.land (flags nd) DEVICE_FLAG_PUBLISH =? 0) && (Z.land (flags nd) DEVICE_FLAG_INTERNAL =? 0).

Definition publish_device (nd : device_node) s : option (machine W Ctx) :=
  if negb (published nd) then Some s
  else match device_path (name nd) with
  | None => klog_warn (lit "devmgr: device name too long for /Devices") s
  | Some path =>
      payload ← device_payload nd (devs s);
      '(rc, w) ← Vfs.Vfs.vfs_write_file (files s) (world s) (Some path) (Some payload);
      let s := set_world w s in
      if rc <? 0 then klog_warn (lit "devmgr: failed to publish device node") s else Some s
  end.

Definition unpublish_device (nd : device_node) s : option (machine W Ctx) :=
  if negb (published nd) then Some s
  else match device_path (name nd) with
  | None => Some s
  | Some path => '(_, w) ← Vfs.Vfs.vfs_remove (files s) (world s) (Some path); Some (set_world w s)
  end.

Fixpoint append_devices (l : list cstring) s : option (machine W Ctx) :=
  match l with
  | [] => Some s
  | line :: l' =>
      '(_, w) ← Vfs.Vfs.vfs_append (files s) (world s) (Some (lit "/System/devices")) (Some line);
      append_devices l' (set_world w s)
  end.

Definition debug_publish_device_list s : option (machine W Ctx) :=
  let nodes := devmgr_enumerate true DEVMGR_MAX_DEVICES (devs s) in
  '(_, w) ← Vfs.Vfs.vfs_write_file (files s) (world s) (Some (lit "/System/devices")) None;
  lines ← mapM (fun nd => device_line nd (devs s)) nodes;
  append_devices (device_header :: lines) (set_world w s).

Definition devmgr_refresh_ramfs s : option (machine W Ctx) :=
  listing ← device_tree (devs s);
  '(rc, w) ← Vfs.Vfs.vfs_write_file (files s) (world s) (Some (lit "/System/devices")) (Some listing);
  let s := set_world w s in
  s ← (if rc <? 0 then klog_warn (lit "devmgr: failed to publish device tree") s else Some s);
  debug_publish_device_list s.

(** ** Registering *)

(** What the start function of the device returns; none when there is no function. *)
Definition start_result (o : option device_ops) : option Z :=
  match o with Some (DriverOps a) => start a | _ => None end.

Definition fill_slot (i : nat) (desc : device_descriptor) (n t : cstring) (d : devmgr) : devmgr :=
  let nd p := Node (next_device_id d) (str_copy DEVMGR_NAME_MAX (Some n)) (str_copy DEVMGR_TYPE_MAX (Some t)) (d_flags desc) p
    (d_driver_data desc) (d_ops desc) in
  let named := set_next_id (next_device_id d +32 1) (set_table (<[i := Entry true (nd None)]> (device_table d)) d) in
  let p := match d_parent desc with
           | Some q => match find_device_by_name q named with Some j => Some j | None => root_device named end
           | None => root_device named
           end in
  set_table (<[i := Entry true (nd p)]> (device_table named)) named.

(** With the index of the device when there is one. *)
Definition devmgr_register_device (desc : device_descriptor) s : option (Z * option nat * machine W Ctx) :=
  match d_name desc, d_type desc with
  | Some n, Some t =>
      match find_device_by_name n (devs s) with
      | Some _ => Some (-1, None, s)
      | None =>
          match allocate_slot (devs s) with
          | None => Some (-1, None, s)
          | Some (i, d) =>
              let d := fill_slot i desc n t d in
              let failed := match start_result (d_ops desc) with Some rc => rc <? 0 | None => false end in
              if failed then Some (-1, None, set_devs (release_slot i d) s)
              else
                let s := set_devs d s in
                nd ← node_at (devs s) i;
                s ← publish_device nd s;
                s ← devmgr_refresh_ramfs s;
                s ← klog_info (lit "devmgr: device registered") s;
                s ← devmgr_send_event DEVMGR_EVENT_REGISTER nd s;
                Some (0, Some i, s)
          end
      end
  | _, _ => Some (-1, None, s)
  end.

Definition devmgr_unregister_device (n : option cstring) s : option (Z * machine W Ctx) :=
  match n ≫= fun n => find_device_by_name n (devs s) with
  | None => Some (-1, s)
  | Some i =>
      if bool_decide (root_device (devs s) = Some i) then Some (-1, s)
      else
        nd ← node_at (devs s) i;
        s ← unpublish_device nd s;
        let s := set_devs (detach_children i (match parent nd with Some p => Some p | None => root_device (devs s) end) (devs s)) s in
        nd ← node_at (devs s) i;
        s ← devmgr_send_event DEVMGR_EVENT_UNREGISTER nd s;
        let s := set_devs (release_slot i (devs s)) s in
        s ← devmgr_refresh_ramfs s;
        s ← klog_info (lit "devmgr: device unregistered") s;
        Some (0, s)
  end.

Definition devmgr_find (n : option cstring) s : option nat := n ≫= fun n => find_device_by_name n (devs s).

(** ** Start-up *)

Definition clear_entry (e : device_entry) : device_entry := Entry false blank_node.

Definition null_desc : device_descriptor :=
  Descriptor (Some (lit "null0")) (Some (lit "device.null")) (Some (lit "platform0")) (Some null_device_ops) DEVICE_FLAG_PUBLISH 0.

(** The table up to the two buses, and whether there is a root. *)
Definition first_devices (d : devmgr) : bool * devmgr :=
  let d := set_next_id 1 (set_count 0 (set_table (clear_entry <$> device_table d) d)) in
  match allocate_slot d with
  | None => (false, set_root None d)
  | Some (i, d) =>
      let nd := Node 0 (lit "root") (lit "root") DEVICE_FLAG_INTERNAL None 0 None in
      let d := set_root (Some i) (set_table (<[i := Entry true nd]> (device_table d)) d) in
      (true, create_internal_device (lit "storage0") (lit "bus.storage") (Some i)
               (create_internal_device (lit "platform0") (lit "bus.platform") (Some i) d))
  end.

Definition devmgr_init s : option (machine W Ctx) :=
  let '(rooted, d) := first_devices (devs s) in
  let s := set_devs d s in
  if negb rooted then Some s
  else
    '(rc, _, s) ← devmgr_register_device null_desc s;
    s ← (if rc <? 0 then klog_warn (lit "devmgr: failed to register null device") s else Some s);
    devmgr_refresh_ramfs s.

End devmgr.

End Devmgr.
