(* ===== verification/DevmgrSpec.v ===== *)
(** The table of devices: its invariant, the devices as a map from names, and what
    registering and unregistering do to it. *)

From S2P Require Import Prelude Arrays Bytes Ipc Block Klog Service Devmgr.

Module DevmgrSpec.

Import Bytes Tables Devmgr.

Implicit Types (d : devmgr) (nd : device_node) (n : cstring).

(** The device in a slot. *)
Definition dev d (i : nat) : option device_node := e ← device_table d !! i; if used e then Some (node e) else None.

(** A root and a forest under it, with names that fit and are all different. *)
Record devmgr_ok d : Prop := {
  do_length : length (device_table d) = DEVMGR_MAX_DEVICES;
  do_root : ∃ r nd, root_device d = Some r ∧ dev d r = Some nd ∧ parent nd = None ∧ name nd = lit "root";
  do_parent i nd : dev d i = Some nd → root_device d ≠ Some i → ∃ j pd, parent nd = Some j ∧ dev d j = Some pd;
  do_rank : ∃ rank : nat → nat, ∀ i nd j, dev d i = Some nd → parent nd = Some j → (rank j < rank i)%nat;
  do_names i j nd nd' : dev d i = Some nd → dev d j = Some nd' → name nd = name nd' → i = j;
  do_short i nd : dev d i = Some nd → (length (name nd) < DEVMGR_NAME_MAX)%nat ∧ wf_cstr (name nd)
}.

Lemma dev_entry d i nd : dev d i = Some nd ↔ device_table d !! i = Some (Entry true nd).
Proof.
  unfold dev. split.
  - intros H. apply bind_Some in H as (e & He & H). destruct e as [[] n]; [|done]. by simplify_eq/=.
  - by intros ->.
Qed.

Lemma dev_lt d i nd : dev d i = Some nd → (i < length (device_table d))%nat.
Proof. intros H%dev_entry. by eapply lookup_lt_Some. Qed.

Lemma node_at_dev d i nd : dev d i = Some nd → node_at d i = Some nd.
Proof. intros H%dev_entry. unfold node_at. by rewrite H. Qed.

Lemma find_device_Some d n i : find_device_by_name n d = Some i → ∃ nd, dev d i = Some nd ∧ name nd = n.
Proof.
  intros (e & He & Hp & _)%first_index_Some. apply andb_true_iff in Hp as [Hu Hn%bool_decide_eq_true].
  exists (node e). split; [|done]. apply dev_entry. destruct e as [u nd]. by simplify_eq/=.
Qed.

Lemma find_device_None d n : find_device_by_name n d = None ↔ ∀ i nd, dev d i = Some nd → name nd ≠ n.
Proof.
  unfold find_device_by_name. rewrite first_index_None. split.
  - intros H i nd Hd%dev_entry Hn. specialize (H i _ Hd). simpl in H. by rewrite bool_decide_true in H.
  - intros H i [[] nd] He; [|done]. simpl. apply bool_decide_false, (H i). by apply dev_entry.
Qed.

Lemma find_device_ok d n i nd : devmgr_ok d → dev d i = Some nd → name nd = n → find_device_by_name n d = Some i.
Proof.
  intros Hd Hi Hn. destruct (find_device_by_name n d) as [j|] eqn:E.
  - apply find_device_Some in E as (nd' & Hj & Hn'). f_equal. eapply do_names; [done..|congruence].
  - rewrite find_device_None in E. by destruct (E i nd).
Qed.

Lemma elem_enumerate d nd : nd ∈ enumerate d ↔ ∃ i, dev d i = Some nd.
Proof.
  unfold enumerate. rewrite list_elem_of_fmap. split.
  - intros ([u nd'] & -> & [Hu He]%list_elem_of_filter). apply list_elem_of_lookup in He as [i Hi]. exists i. apply dev_entry. by simplify_eq/=.
  - intros [i Hi%dev_entry]. exists (Entry true nd). split; [done|]. apply list_elem_of_filter. split; [done|]. by eapply list_elem_of_lookup_2.
Qed.

(** ** The devices as a map *)

Record adev := ADev { a_id : Z; a_type : cstring; a_flags : Z; a_parent : option cstring; a_data : Z; a_ops : option device_ops }.

Definition view d nd : adev := ADev (id nd) (type nd) (flags nd) (p ← parent nd; name <$> dev d p) (driver_data nd) (ops nd).

Definition abs d : gmap cstring adev := table_map used (name ∘ node) (view d ∘ node) (device_table d).

Lemma names_unique d : devmgr_ok d → unique used (name ∘ node) (device_table d).
Proof.
  intros Hd i j [u nd] [u' nd'] Hi Hj Hu Hu' Hn. simpl in *. subst u u'. by eapply (do_names d Hd i j nd nd'); [apply dev_entry..|].
Qed.

Lemma device_abs_lookup d n x : devmgr_ok d → abs d !! n = Some x ↔ ∃ i nd, dev d i = Some nd ∧ name nd = n ∧ view d nd = x.
Proof.
  intros Hd. unfold abs. rewrite table_lookup by by apply names_unique. split.
  - intros (i & [u nd] & Hi & Hu & Hn & Hx). simpl in *. subst u. exists i, nd. by rewrite dev_entry.
  - intros (i & nd & Hi%dev_entry & Hn & Hx). by exists i, (Entry true nd).
Qed.

Lemma abs_find d n : devmgr_ok d → abs d !! n = (i ← find_device_by_name n d; nd ← dev d i; Some (view d nd)).
Proof.
  intros Hd. unfold abs. rewrite table_find by by apply names_unique.
  change (first_index _ (device_table d)) with (find_device_by_name n d).
  destruct (find_device_by_name n d) as [i|] eqn:E; cbn [mbind option_bind]; [|done].
  apply find_device_Some in E as (nd & Hi & _). pose proof Hi as He%dev_entry. by rewrite Hi, He.
Qed.

Lemma allocate_slot_spec d : devmgr_ok d →
  match allocate_slot d with
  | None => size (abs d) = DEVMGR_MAX_DEVICES
  | Some (i, d') => (size (abs d) < DEVMGR_MAX_DEVICES)%nat ∧ ∃ e, device_table d !! i = Some e ∧ used e = false ∧
      d' = set_count (S (device_count d)) (set_table (<[i := Entry true (node e)]> (device_table d)) d)
  end.
Proof.
  intros Hd. pose proof (table_free used (name ∘ node) (view d ∘ node) (device_table d) (names_unique d Hd)) as H. rewrite (do_length d Hd) in H.
  unfold allocate_slot. destruct (first_index _ _) as [i|]; cbn [mbind option_bind]; [|exact H].
  destruct H as (Hs & e & He & Hu). rewrite He. cbn [mbind option_bind]. split; [done|]. by exists e.
Qed.

(** ** Depth *)

Section depth.
Context (d : devmgr) (Hd : devmgr_ok d) (rank : nat → nat).
Context (Hrank : ∀ i nd j, dev d i = Some nd → parent nd = Some j → (rank j < rank i)%nat).

(** The slots of devices with no more than a rank. *)
Definition below (i : nat) : list nat := filter (fun j => (rank j ≤ rank i)%nat) (seq 0 DEVMGR_MAX_DEVICES).

Lemma below_parent i nd j : dev d i = Some nd → parent nd = Some j → (length (below j) < length (below i))%nat.
Proof.
  intros Hi Hp. pose proof (Hrank i nd j Hi Hp) as Hr. assert (Hn : NoDup (i :: below j)).
  { constructor; [|apply NoDup_filter, NoDup_seq]. intros [H _]%list_elem_of_filter. lia. }
  enough (H : i :: below j ⊆+ below i) by (apply submseteq_length in H; exact H). apply NoDup_submseteq; [done|].
  intros x [->|Hx]%elem_of_cons; unfold below in *; apply list_elem_of_filter.
  - split; [lia|]. apply elem_of_seq. pose proof (dev_lt _ _ _ Hi) as Hl. rewrite (do_length d Hd) in Hl. lia.
  - apply list_elem_of_filter in Hx as [? ?]. split; [lia|done].
Qed.

Lemma depth_loop_ends fuel i nd depth : dev d i = Some nd → (length (below i) ≤ fuel)%nat →
  ∃ k, device_depth_loop fuel (Some i) depth d = Some k.
Proof.
  revert i nd depth. induction fuel as [|fuel IH]; intros i nd depth Hi Hf; cbn [device_depth_loop];
    (case_bool_decide as Hroot; [by eexists|]).
  - destruct (do_parent d Hd i nd Hi Hroot) as (j & pd & Hp & _). pose proof (below_parent i nd j Hi Hp). lia.
  - rewrite (node_at_dev _ _ _ Hi). cbn [mbind option_bind]. destruct (do_parent d Hd i nd Hi Hroot) as (j & pd & Hp & Hj). rewrite Hp.
    pose proof (below_parent i nd j Hi Hp). eapply IH; [exact Hj|lia].
Qed.
End depth.

Lemma device_depth_ends d i nd : devmgr_ok d → dev d i = Some nd → ∃ k, device_depth i d = Some k.
Proof.
  intros Hd Hi. destruct (do_rank d Hd) as [rank Hrank]. eapply (depth_loop_ends d Hd rank Hrank); [exact Hi|].
  unfold below. rewrite length_filter. by rewrite length_seq.
Qed.

(** ** Registering *)

(** A device in a slot that was free. *)
Record added d (i : nat) nd d' : Prop := {
  ad_table : device_table d' = <[i := Entry true nd]> (device_table d);
  ad_root : root_device d' = root_device d;
  ad_free : dev d i = None;
  ad_slot : (i < length (device_table d))%nat
}.

Lemma added_dev d i nd d' j : added d i nd d' → dev d' j = if decide (j = i) then Some nd else dev d j.
Proof.
  intros [Ht _ _ Hi]. unfold dev. rewrite Ht. destruct (decide (j = i)) as [->|Hne]; [by rewrite list_lookup_insert_eq|by rewrite list_lookup_insert_ne].
Qed.

Lemma added_old d i nd d' j nd' : added d i nd d' → dev d j = Some nd' → dev d' j = Some nd'.
Proof. intros Ha Hj. rewrite (added_dev _ _ _ _ j Ha). destruct (decide (j = i)) as [->|]; [|done]. by rewrite (ad_free _ _ _ _ Ha) in Hj. Qed.

Lemma added_ok d i nd d' j pd :
  devmgr_ok d → added d i nd d' → parent nd = Some j → dev d j = Some pd → (∀ k nd', dev d k = Some nd' → name nd' ≠ name nd) →
  (length (name nd) < DEVMGR_NAME_MAX)%nat ∧ wf_cstr (name nd) → devmgr_ok d'.
Proof.
  intros Hd Ha Hp Hj Hfresh Hshort. pose proof (added_dev d i nd d') as Hdev.
  assert (Hji : j ≠ i) by (intros ->; by rewrite (ad_free _ _ _ _ Ha) in Hj). constructor.
  - rewrite (ad_table _ _ _ _ Ha), length_insert. apply Hd.
  - destruct (do_root d Hd) as (r & nr & Hr & Hrd & Hn). exists r, nr. rewrite (ad_root _ _ _ _ Ha). split; [done|]. split; [by eapply added_old|done].
  - intros k ndk Hk Hroot. rewrite (Hdev k Ha) in Hk. destruct (decide (k = i)) as [->|Hne]; simplify_eq.
    + exists j, pd. split; [done|]. by eapply added_old.
    + rewrite (ad_root _ _ _ _ Ha) in Hroot. destruct (do_parent d Hd k ndk Hk Hroot) as (q & qd & ? & ?). exists q, qd. split; [done|]. by eapply added_old.
  - destruct (do_rank d Hd) as [rank Hrank]. exists (fun k => if decide (k = i) then S (rank j) else rank k).
    intros k ndk q Hk Hq. rewrite (Hdev k Ha) in Hk. destruct (decide (k = i)) as [->|Hne]; simplify_eq; [rewrite decide_False by done; lia|].
    destruct (decide (q = i)) as [->|]; [|by eapply Hrank]. destruct (decide (root_device d = Some k)) as [Hrk|Hrk].
    + destruct (do_root d Hd) as (r & nr & Hr & Hrd & Hnone & _). rewrite Hr in Hrk. injection Hrk as ->. congruence.
    + destruct (do_parent d Hd k ndk Hk Hrk) as (q' & qd & Hq' & Hqd). rewrite Hq in Hq'. injection Hq' as <-. by rewrite (ad_free _ _ _ _ Ha) in Hqd.
  - intros k k' n1 n2 H1 H2 Hn. rewrite (Hdev k Ha) in H1. rewrite (Hdev k' Ha) in H2.
    destruct (decide (k = i)) as [->|], (decide (k' = i)) as [->|]; simplify_eq; [done|by destruct (Hfresh k' n2)|by destruct (Hfresh k n1)|by eapply do_names].
  - intros k ndk Hk. rewrite (Hdev k Ha) in Hk. destruct (decide (k = i)); simplify_eq; [done|]. by eapply do_short.
Qed.

(** The parent of a device, when it has one, is in the table. *)
Lemma parent_dev d k nd q : devmgr_ok d → dev d k = Some nd → parent nd = Some q → ∃ pd, dev d q = Some pd.
Proof.
  intros Hd Hk Hq. destruct (decide (root_device d = Some k)) as [Hr|Hr].
  - destruct (do_root d Hd) as (r & nr & Hr' & Hrd & Hnone & _). rewrite Hr in Hr'. injection Hr' as ->. congruence.
  - destruct (do_parent d Hd k nd Hk Hr) as (q' & pd & Hq' & Hpd). rewrite Hq in Hq'. injection Hq' as <-. eauto.
Qed.

Lemma added_view d i nd d' k nd' : devmgr_ok d → added d i nd d' → dev d k = Some nd' → view d' nd' = view d nd'.
Proof.
  intros Hd Ha Hk. unfold view. destruct (parent nd') as [q|] eqn:Hq; [|done]. cbn [mbind option_bind].
  destruct (parent_dev d k nd' q Hd Hk Hq) as [pd Hpd]. by rewrite Hpd, (added_old _ _ _ _ _ _ Ha Hpd).
Qed.

Lemma added_abs d i nd d' : devmgr_ok d → devmgr_ok d' → added d i nd d' → abs d' = <[name nd := view d' nd]> (abs d).
Proof.
  intros Hd Hd' Ha. apply map_eq. intros n. apply option_eq. intros x. rewrite device_abs_lookup by done.
  pose proof (added_dev d i nd d' i Ha) as Hi. rewrite decide_True in Hi by done.
  destruct (decide (name nd = n)) as [<-|Hne].
  - rewrite lookup_insert_eq. split.
    + intros (k & nd' & Hk & Hn & <-). assert (k = i) as -> by (eapply (do_names d' Hd'); [done..|done]). congruence.
    + intros [= <-]. by exists i, nd.
  - rewrite lookup_insert_ne, device_abs_lookup by done. split.
    + intros (k & nd' & Hk & Hn & <-). rewrite (added_dev d i nd d' k Ha) in Hk. destruct (decide (k = i)); simplify_eq.
      exists k, nd'. split_and!; [done..|]. symmetry. by eapply added_view.
    + intros (k & nd' & Hk & Hn & <-). exists k, nd'. split_and!; [by eapply added_old|done|by eapply added_view].
Qed.

(** The parent a descriptor asks for, or the root. *)
Definition parent_for (desc : device_descriptor) d : option nat :=
  match d_parent desc with
  | Some q => match find_device_by_name q d with Some j => Some j | None => root_device d end
  | None => root_device d
  end.

Definition new_node (desc : device_descriptor) (n t : cstring) d : device_node :=
  Node (next_device_id d) (str_copy DEVMGR_NAME_MAX (Some n)) (str_copy DEVMGR_TYPE_MAX (Some t)) (d_flags desc) (parent_for desc d)
    (d_driver_data desc) (d_ops desc).

Definition short n : Prop := (length n < DEVMGR_NAME_MAX)%nat ∧ wf_cstr n.

Lemma str_copy_short n : short n → str_copy DEVMGR_NAME_MAX (Some n) = n.
Proof. intros [H _]. unfold str_copy. simpl. apply take_ge. unfold DEVMGR_NAME_MAX in *. lia. Qed.

Lemma fill_slot_added d i d1 desc n t :
  devmgr_ok d → allocate_slot d = Some (i, d1) → d_parent desc ≠ Some (str_copy DEVMGR_NAME_MAX (Some n)) →
  added d i (new_node desc n t d) (fill_slot i desc n t d1) ∧
  next_device_id (fill_slot i desc n t d1) = next_device_id d +32 1 ∧ devmgr_channel_id (fill_slot i desc n t d1) = devmgr_channel_id d.
Proof.
  intros Hd Ha Hq. pose proof (allocate_slot_spec d Hd) as Hs. rewrite Ha in Hs. destruct Hs as (_ & e & He & Hu & ->).
  split; [|done]. constructor; [|done|unfold dev; by rewrite He; simpl; rewrite Hu|by eapply lookup_lt_Some].
  unfold fill_slot, new_node. cbn [device_table set_table set_count set_next_id next_device_id root_device].
  rewrite !list_insert_insert_eq. do 3 f_equal. unfold parent_for. destruct (d_parent desc) as [q|]; [|done].
  unfold find_device_by_name. cbn [device_table set_table set_next_id].
  rewrite (first_index_insert _ _ _ _ _ He); [done|]. rewrite Hu. simpl. apply bool_decide_false. congruence.
Qed.

(** ** Unregistering *)

Definition reparent (i : nat) (p : option nat) nd : device_node := if bool_decide (parent nd = Some i) then set_parent p nd else nd.

Lemma detach_dev d i p j : dev (detach_children i p d) j = reparent i p <$> dev d j.
Proof.
  unfold dev, detach_children. cbn [device_table set_table]. rewrite list_lookup_fmap. destruct (device_table d !! j) as [[u nd]|]; [|done]. simpl.
  unfold reparent. destruct u; simpl; [|done]. by case_bool_decide.
Qed.

Lemma release_dev d i j : dev (release_slot i d) j = if decide (j = i) then None else dev d j.
Proof.
  unfold release_slot, dev. destruct (decide (j = i)) as [->|Hne].
  - destruct (device_table d !! i) as [[u nd]|] eqn:E; [|by rewrite E]. destruct u; simpl; [|by rewrite E].
    rewrite list_lookup_insert_eq by (by eapply lookup_lt_Some). done.
  - destruct (device_table d !! i) as [[u nd]|] eqn:E; [|done]. destruct u; simpl; [|done]. by rewrite list_lookup_insert_ne.
Qed.

(** The table without a device, whose children go to its parent. *)
Definition removed (i : nat) (p : nat) d : devmgr := release_slot i (detach_children i (Some p) d).

Lemma removed_dev i p d j : dev (removed i p d) j = if decide (j = i) then None else reparent i (Some p) <$> dev d j.
Proof. unfold removed. by rewrite release_dev, detach_dev. Qed.

Lemma removed_root i p d : root_device (removed i p d) = root_device d ∧ next_device_id (removed i p d) = next_device_id d.
Proof. unfold removed, release_slot. by repeat case_match. Qed.

Lemma removed_length i p d : length (device_table (removed i p d)) = length (device_table d).
Proof. unfold removed, release_slot. repeat case_match; cbn; rewrite ?length_insert; by rewrite length_fmap. Qed.

Lemma reparent_name i p nd : name (reparent i p nd) = name nd.
Proof. unfold reparent. by case_bool_decide. Qed.

Lemma removed_Some i p d j nd : dev (removed i p d) j = Some nd → j ≠ i ∧ ∃ nd0, dev d j = Some nd0 ∧ nd = reparent i (Some p) nd0.
Proof.
  rewrite removed_dev. destruct (decide (j = i)); [done|]. intros (nd0 & -> & H)%fmap_Some. eauto.
Qed.

Lemma removed_keep i p d j nd : j ≠ i → dev d j = Some nd → dev (removed i p d) j = Some (reparent i (Some p) nd).
Proof. intros Hne Hj. by rewrite removed_dev, decide_False, Hj by done. Qed.

Lemma removed_ok d i nd p : devmgr_ok d → dev d i = Some nd → root_device d ≠ Some i → parent nd = Some p → devmgr_ok (removed i p d).
Proof.
  intros Hd Hi Hroot Hp. destruct (removed_root i p d) as [Hr _]. destruct (do_rank d Hd) as [rank Hrank].
  assert (Hpi : p ≠ i) by (intros ->; pose proof (Hrank i nd i Hi Hp); lia). destruct (parent_dev d i nd p Hd Hi Hp) as [pd Hpd]. constructor.
  - rewrite removed_length. apply Hd.
  - destruct (do_root d Hd) as (r & nr & Hr' & Hrd & Hnone & Hname). exists r, (reparent i (Some p) nr). rewrite Hr. split; [done|].
    split; [apply removed_keep; [congruence|done]|]. unfold reparent. by rewrite Hnone, bool_decide_false.
  - intros j nj (Hne & n0 & Hj & ->)%removed_Some Hjr. rewrite Hr in Hjr. destruct (do_parent d Hd j n0 Hj Hjr) as (q & qd & Hq & Hqd).
    unfold reparent. rewrite Hq. case_bool_decide as E; simplify_eq.
    + exists p. eexists. split; [done|]. by apply removed_keep.
    + exists q. eexists. split; [done|]. apply removed_keep; [congruence|done].
  - exists rank. intros j nj q (Hne & n0 & Hj & ->)%removed_Some. unfold reparent. case_bool_decide as E; [|by apply Hrank].
    intros [= <-]. pose proof (Hrank j n0 i Hj E). pose proof (Hrank i nd p Hi Hp). lia.
  - intros j k nj nk (_ & n0 & Hj & ->)%removed_Some (_ & n1 & Hk & ->)%removed_Some. rewrite !reparent_name. by eapply do_names.
  - intros j nj (_ & n0 & Hj & ->)%removed_Some. rewrite reparent_name. by eapply do_short.
Qed.

(** The map without a name, whose children go to its parent. *)
Definition a_reparent (n : cstring) (p : option cstring) (x : adev) : adev :=
  if bool_decide (a_parent x = Some n) then ADev (a_id x) (a_type x) (a_flags x) p (a_data x) (a_ops x) else x.

Lemma removed_view d i nd p j nj :
  devmgr_ok d → dev d i = Some nd → parent nd = Some p → p ≠ i → dev d j = Some nj →
  view (removed i p d) (reparent i (Some p) nj) = a_reparent (name nd) (name <$> dev d p) (view d nj).
Proof.
  intros Hd Hi Hp Hpi Hj. destruct (parent_dev d i nd p Hd Hi Hp) as [pd Hpd]. unfold reparent, a_reparent, view. cbn [a_parent].
  destruct (parent nj) as [q|] eqn:Hq; cbn [mbind option_bind]; [|by rewrite !bool_decide_false, Hq by done].
  destruct (parent_dev d j nj q Hd Hj Hq) as [qd Hqd]. rewrite Hqd. cbn [fmap option_fmap option_map]. destruct (decide (q = i)) as [->|Hqi].
  - rewrite Hi in Hqd. injection Hqd as <-. rewrite !bool_decide_true by done. cbn [parent set_parent mbind option_bind id type flags driver_data ops a_id a_type a_flags a_data a_ops].
    by rewrite (removed_keep i p d p pd Hpi Hpd), Hpd; cbn; rewrite reparent_name.
  - rewrite (bool_decide_false (Some q = Some i)) by congruence. rewrite Hq. cbn [mbind option_bind].
    rewrite (removed_keep i p d q qd Hqi Hqd). cbn. rewrite reparent_name. rewrite bool_decide_false; [done|].
    intros [= E]. apply Hqi. by eapply do_names.
Qed.

Lemma removed_abs d i nd p :
  devmgr_ok d → dev d i = Some nd → root_device d ≠ Some i → parent nd = Some p →
  abs (removed i p d) = a_reparent (name nd) (name <$> dev d p) <$> delete (name nd) (abs d).
Proof.
  intros Hd Hi Hroot Hp. pose proof (removed_ok d i nd p Hd Hi Hroot Hp) as Hd'.
  assert (Hpi : p ≠ i) by (destruct (do_rank d Hd) as [rank Hrank]; intros ->; pose proof (Hrank i nd i Hi Hp); lia).
  apply map_eq. intros n. apply option_eq. intros x. rewrite device_abs_lookup, lookup_fmap by done. split.
  - intros (j & nj & (Hne & n0 & Hj & ->)%removed_Some & <- & <-). rewrite reparent_name.
    rewrite lookup_delete_ne by (intros E; apply Hne; symmetry; by eapply (do_names d Hd i j nd n0)). rewrite (removed_view d i nd p j n0) by done.
    assert (E : abs d !! name n0 = Some (view d n0)) by (apply device_abs_lookup; [done|by exists j, n0]). by rewrite E.
  - intros (y & Hy & ->)%fmap_Some. apply lookup_delete_Some in Hy as [Hne Hy]. apply device_abs_lookup in Hy as (j & nj & Hj & Hn & <-); [|done].
    exists j, (reparent i (Some p) nj). split; [apply removed_keep; [congruence|done]|]. split; [by rewrite reparent_name|]. by eapply removed_view.
Qed.

End DevmgrSpec.
