(* ===== verification/DevmgrRun.v ===== *)
(** The device manager on the machine: every operation completes, publishing included,
    and does to the table what its abstract operation does to the map of devices. *)

From S2P Require Import Prelude Arrays Bytes Ipc IpcSpec IpcRun Block Klog KlogRun Service ServiceSpec Devmgr DevmgrSpec.
From S2P Require Vfs VfsRamfs.

Module DevmgrRun.

Import Bytes IpcSpec Klog KlogSpec KlogRun Devmgr DevmgrSpec.

(** What the device manager asks of the tree of files: operations on any path return,
    keep the tree sound and leave the table of devices alone. *)
Class DeviceTree {W Ctx : Type} `{!HasDevices W} (v : Vfs.Vfs.vfs W Ctx) := {
  tree_inv : W → Prop;
  tree_with d w : tree_inv w → tree_inv (with_devices d w);
  tree_do w path o :
    tree_inv w → wf_cstr path → small o →
    ∃ r w', VfsRamfs.VfsRamfs.vfs_do v w path o = Some (r, w') ∧ tree_inv w' ∧ devices_of w' = devices_of w
}.

Section run.
Context {W Ctx : Type} {HD : HasDevices W} (v : Vfs.Vfs.vfs W Ctx) {HT : DeviceTree v}.
Context (stack junk : list Z) (start : Z → option Z).
Context (Hstack : length stack = EVENT_SIZE) (Hjunk : length junk = 64%nat).
Implicit Types (s : machine W Ctx) (d : devmgr) (nd : device_node).

(** The files the log needs, in a tree whose table of devices is [d]. *)
#[local] Program Instance files_at d : FilesReturn v := { files_inv w := tree_inv w ∧ devices_of w = d }.
Next Obligation.
  intros d w path o [Hw <-] Hp Ho. assert (Hpath : wf_cstr path).
  { assert (Hall : Forall wf_cstr system_paths) by by_eval. rewrite Forall_forall in Hall. by apply Hall. }
  destruct (tree_do w path o Hw Hpath Ho) as (r & w' & E & Hw' & Hd). eauto 6.
Qed.

(** A sound machine with the table [d]. *)
Definition machine_with d s : Prop := ∃ t a, @sim W Ctx v (files_at d) t s a.

Lemma machine_devs d s : machine_with d s → devs s = d.
Proof. intros (t & a & [Hm _]). by destruct (mo_world _ _ _ Hm). Qed.

Lemma machine_files d s : machine_with d s → files s = v.
Proof. intros (t & a & [Hm _]). apply Hm. Qed.

Lemma machine_kernel d s : machine_with d s → kernel_ok (kern s).
Proof. intros (t & a & [Hm _]). apply Hm. Qed.

Lemma machine_set_devs d d' s : machine_with d s → machine_with d' (set_devs d' s).
Proof.
  intros (t & a & [[? ? ? ? [Hw _]] Hl]). exists t, a. split; [|exact Hl].
  constructor; [done..|]. split; [by apply tree_with|apply devices_of_with].
Qed.

Lemma machine_set_kern d s k : machine_with d s → kernel_ok k → machine_with d (set_kern k s).
Proof. intros (t & a & Hs) Hk. exists t, a. by apply sim_kern. Qed.

(** One operation of the VFS. *)
Lemma machine_file d s path o :
  machine_with d s → wf_cstr path → small o →
  ∃ r w, VfsRamfs.VfsRamfs.vfs_do (files s) (world s) path o = Some (r, w) ∧ machine_with d (set_world w s).
Proof.
  intros (t & a & Hs) Hp Ho. pose proof (proj1 Hs) as Hm. rewrite (mo_files _ _ _ Hm). destruct (mo_world _ _ _ Hm) as [Hw Hd].
  destruct (tree_do (world s) path o Hw Hp Ho) as (r & w & E & Hw' & Hd'). exists r, w. split; [done|]. exists t, a.
  apply sim_world; [done|]. split; [done|congruence].
Qed.

Lemma machine_emit d s l t0 : machine_with d s → ∃ s', klog_emit_tagged stack (Some (lit "kernel")) l (Some t0) s = Some s' ∧ machine_with d s'.
Proof.
  intros (t & a & Hs). destruct (emit_sim v t stack Hstack (Some (lit "kernel")) l t0 s a Hs) as (s' & E & Hs'). exists s'. split; [done|]. by eexists _, _.
Qed.

(** ** Publishing *)

Lemma parent_name_returns none nd d i : devmgr_ok d → dev d i = Some nd → ∃ p, parent_name none nd d = Some p.
Proof.
  intros Hd Hi. unfold parent_name. destruct (parent nd) as [q|] eqn:Hq; [|by eexists].
  destruct (parent_dev d i nd q Hd Hi Hq) as [pd Hpd]. rewrite (node_at_dev _ _ _ Hpd). by eexists.
Qed.

Lemma device_path_wf n path : wf_cstr n → device_path n = Some path → wf_cstr path.
Proof. intros Hn. unfold device_path. case_match; [done|]. intros E. apply (inj Some) in E as <-. rewrite wf_cstr_app. split; [by_eval|done]. Qed.

Lemma publish_machine d s nd p :
  machine_with d s → wf_cstr (name nd) → parent_name (lit "root") nd d = Some p → ∃ s', publish_device stack nd s = Some s' ∧ machine_with d s'.
Proof.
  intros Hs Hn Hp. unfold publish_device. destruct (negb _); [by exists s|]. destruct (device_path (name nd)) as [path|] eqn:Ep; [|by apply machine_emit].
  pose proof (device_path_wf _ _ Hn Ep) as Hpath. rewrite (machine_devs d s Hs). unfold device_payload. rewrite Hp. cbn [mbind option_bind].
  match goal with |- context [Vfs.Vfs.vfs_write_file _ _ _ (Some ?b)] => set (payload := b) end.
  destruct (machine_file d s path (VfsRamfs.VfsRamfs.FWrite (Some payload)) Hs Hpath I) as (r & w & E & Hw). cbn [VfsRamfs.VfsRamfs.vfs_do] in E.
  rewrite E. cbn [mbind option_bind]. destruct (r <? 0); [by apply machine_emit|by eexists].
Qed.

Lemma publish_returns d s i nd : machine_with d s → devmgr_ok d → dev d i = Some nd → ∃ s', publish_device stack nd s = Some s' ∧ machine_with d s'.
Proof.
  intros Hs Hd Hi. destruct (parent_name_returns (lit "root") nd d i Hd Hi) as [p Hp]. eapply publish_machine; [done|by eapply do_short|done].
Qed.

Lemma unpublish_returns d s nd : machine_with d s → wf_cstr (name nd) → ∃ s', unpublish_device nd s = Some s' ∧ machine_with d s'.
Proof.
  intros Hs Hn. unfold unpublish_device. destruct (negb _); [by exists s|]. destruct (device_path (name nd)) as [path|] eqn:Ep; [|by exists s].
  pose proof (device_path_wf _ _ Hn Ep) as Hpath.
  destruct (machine_file d s path VfsRamfs.VfsRamfs.FRemove Hs Hpath I) as (r & w & E & Hw). cbn [VfsRamfs.VfsRamfs.vfs_do] in E.
  rewrite E. cbn [mbind option_bind]. by eexists.
Qed.

Lemma tree_lines_returns d j l line : devmgr_ok d → device_table d = take j (device_table d) ++ l → length (take j (device_table d)) = j →
  ∃ text, tree_lines j l line d = Some text.
Proof.
  intros Hd. revert j line. induction l as [|e l IH]; intros j line Hl Hj; [by eexists|]. cbn [tree_lines].
  assert (He : device_table d !! j = Some e) by (rewrite Hl, lookup_app_r by lia; by rewrite Hj, Nat.sub_diag).
  assert (Hnext : device_table d = take (S j) (device_table d) ++ l ∧ length (take (S j) (device_table d)) = S j).
  { rewrite (take_S_r _ _ _ He), <- app_assoc. split; [exact Hl|]. rewrite length_app, Hj. simpl. lia. }
  destruct Hnext as [Hl' Hj']. destruct (negb (used e) || _) eqn:E; [by apply IH|].
  apply orb_false_iff in E as [E%negb_false_iff _].
  destruct (device_depth_ends d j (node e)) as [k ->]; [done|apply dev_entry; destruct e as [u x]; simpl in *; by subst|]. by apply IH.
Qed.

Lemma device_tree_returns d : devmgr_ok d → ∃ text, device_tree d = Some text.
Proof. intros Hd. unfold device_tree. by apply tree_lines_returns. Qed.

Lemma append_devices_returns d l s : machine_with d s → Forall (fun x => (length x < DEVICE_CAP)%nat) l → ∃ s', append_devices l s = Some s' ∧ machine_with d s'.
Proof.
  intros Hs Hl. revert s Hs. induction Hl as [|line l Hx Hl IH]; intros s Hs; [by exists s|]. cbn [append_devices].
  destruct (machine_file d s (lit "/System/devices") (VfsRamfs.VfsRamfs.FAppend (Some line)) Hs ltac:(by_eval)) as (r & w & E & Hw).
  { unfold small, DEVICE_CAP in *. simpl. lia. }
  cbn [VfsRamfs.VfsRamfs.vfs_do] in E. rewrite E. cbn [mbind option_bind]. by apply IH.
Qed.

Lemma append_text_cap cap t line : (length line < cap)%nat → (length (append_text cap t line) < cap)%nat.
Proof. apply append_text_length. Qed.

Lemma device_line_returns d i nd : devmgr_ok d → dev d i = Some nd → ∃ l, device_line nd d = Some l ∧ (length l < DEVICE_CAP)%nat.
Proof.
  intros Hd Hi. unfold device_line. destruct (parent_name_returns (lit "-") nd d i Hd Hi) as [p ->]. cbn [mbind option_bind]. eexists. split; [done|].
  unfold append_flags, append_char, Service.append_decimal.
  repeat first [apply append_text_cap | case_match]; unfold DEVICE_CAP; simpl; lia.
Qed.

Lemma device_list_returns d s : machine_with d s → devmgr_ok d → ∃ s', debug_publish_device_list s = Some s' ∧ machine_with d s'.
Proof.
  intros Hs Hd. unfold debug_publish_device_list. rewrite (machine_devs d s Hs). cbn zeta.
  destruct (machine_file d s (lit "/System/devices") (VfsRamfs.VfsRamfs.FWrite None) Hs ltac:(by_eval) I) as (r & w & E & Hw). cbn [VfsRamfs.VfsRamfs.vfs_do] in E.
  rewrite E. cbn [mbind option_bind].
  assert (Hl : ∀ l, (∀ nd, nd ∈ l → ∃ i, dev d i = Some nd) → ∃ ls, mapM (fun nd => device_line nd d) l = Some ls ∧ Forall (fun x => (length x < DEVICE_CAP)%nat) ls).
  { induction l as [|nd l IH]; intros H; [by exists []|]. destruct (H nd) as [i Hi]; [by left|]. cbn.
    destruct (device_line_returns d i nd Hd Hi) as (x & -> & Hx). cbn. destruct IH as (ls & -> & Hls); [intros; apply H; by right|]. cbn. exists (x :: ls). by split; [|constructor]. }
  destruct (Hl (devmgr_enumerate true DEVMGR_MAX_DEVICES d)) as (ls & -> & Hls).
  { intros nd Hnd. apply elem_enumerate. unfold devmgr_enumerate in Hnd. simpl in Hnd. by apply subseteq_take in Hnd. }
  cbn [mbind option_bind]. apply append_devices_returns; [done|]. constructor; [|done]. apply append_text_cap. unfold DEVICE_CAP. simpl. lia.
Qed.

Lemma refresh_returns d s : machine_with d s → devmgr_ok d → ∃ s', devmgr_refresh_ramfs stack s = Some s' ∧ machine_with d s'.
Proof.
  intros Hs Hd. unfold devmgr_refresh_ramfs. rewrite (machine_devs d s Hs). destruct (device_tree_returns d Hd) as [text ->]. cbn [mbind option_bind].
  destruct (machine_file d s (lit "/System/devices") (VfsRamfs.VfsRamfs.FWrite (Some text)) Hs ltac:(by_eval) I) as (r & w & E & Hw). cbn [VfsRamfs.VfsRamfs.vfs_do] in E.
  rewrite E. cbn [mbind option_bind]. destruct (r <? 0).
  - destruct (machine_emit d (set_world w s) KLOG_WARN (lit "devmgr: failed to publish device tree") Hw) as (s1 & E1 & H1). unfold klog_warn. rewrite E1.
    cbn [mbind option_bind]. by apply device_list_returns.
  - cbn [mbind option_bind]. by apply device_list_returns.
Qed.

(** ** Events *)

Lemma char_array_length n old : (32 ≤ length old)%nat → length (char_array 32 n old) = 32%nat.
Proof.
  intros H. unfold char_array, str_copy. change (default [] (Some n)) with n. rewrite length_app. cbn [length]. rewrite length_drop, !length_take. lia.
Qed.

Lemma event_length action nd : length (devmgr_event action nd junk) = 72%nat.
Proof. unfold devmgr_event. rewrite !length_app, !char_array_length by (rewrite ?length_drop; lia). done. Qed.

Lemma ok_channel d c : devmgr_ok d → devmgr_ok (set_channel_id c d).
Proof. intros []. by constructor. Qed.

Lemma event_returns d s action nd :
  machine_with d s → ∃ c s', devmgr_send_event junk action nd s = Some s' ∧ machine_with (set_channel_id c d) s'.
Proof.
  intros Hs. assert (Hkeep : machine_with (set_channel_id (devmgr_channel_id d) d) s) by (by destruct d).
  unfold devmgr_send_event. destruct (negb _); [by eexists _, s|].
  assert (Hstep : ∃ c s1, (if devmgr_channel_id (devs s) <? 0
         then c ← Ipc.ipc_get_service_channel IPC_SERVICE_DEVMGR (kern s); Some (set_devs (set_channel_id c (devs s)) s)
         else Some s) = Some s1 ∧ machine_with (set_channel_id c d) s1).
  { rewrite (machine_devs d s Hs). destruct (_ <? 0); [|by eexists _, s].
    destruct (service_channel_returns IPC_SERVICE_DEVMGR (kern s) (machine_kernel d s Hs)) as [c ->]. cbn [mbind option_bind].
    eexists _, _. split; [done|]. by eapply machine_set_devs. }
  destruct Hstep as (c & s1 & -> & H1). cbn [mbind option_bind]. exists c. rewrite (machine_devs _ s1 H1). destruct (_ <? 0); [by eexists|].
  destruct (IpcRun.channel_send_step (devmgr_channel_id (set_channel_id c d)) 0 action 0 (Some (devmgr_event action nd junk)) 72 0 (kern s1)) as (r & k & -> & Hk);
    [by eapply machine_kernel|change (0 ≤ 72 ≤ Z.of_nat (length (devmgr_event action nd junk))); rewrite event_length; lia|].
  cbn [mbind option_bind]. eexists. split; [done|]. by apply machine_set_kern.
Qed.

(** ** The abstract operations *)

Definition start_fails (o : option device_ops) : bool := match start_result start o with Some rc => rc <? 0 | None => false end.

(** The devices by name and the next number. *)
Definition a_register (desc : device_descriptor) (m : gmap cstring adev) (next : Z) : Z * gmap cstring adev * Z :=
  match d_name desc, d_type desc with
  | Some n, Some t =>
      if decide (is_Some (m !! n)) then (-1, m, next)
      else if decide (size m < DEVMGR_MAX_DEVICES)%nat then
        if start_fails (d_ops desc) then (-1, m, next +32 1)
        else
          let p := match d_parent desc with Some q => if decide (is_Some (m !! q)) then q else lit "root" | None => lit "root" end in
          (0, <[n := ADev next (str_copy DEVMGR_TYPE_MAX (Some t)) (d_flags desc) (Some p) (d_driver_data desc) (d_ops desc)]> m, next +32 1)
      else (-1, m, next)
  | _, _ => (-1, m, next)
  end.

Definition a_unregister (n : option cstring) (m : gmap cstring adev) : Z * gmap cstring adev :=
  match n with
  | Some n =>
      if decide (n = lit "root") then (-1, m)
      else match m !! n with
      | None => (-1, m)
      | Some x => (0, a_reparent n (a_parent x) <$> delete n m)
      end
  | None => (-1, m)
  end.

(** A name that fits, of a device that is not its own parent. *)
Definition request_ok (desc : device_descriptor) : Prop := ∀ n, d_name desc = Some n → short n ∧ d_parent desc ≠ Some n.

(** ** Registering *)

Lemma parent_for_dev d desc : devmgr_ok d → ∃ j pd, parent_for desc d = Some j ∧ dev d j = Some pd ∧
  name pd = match d_parent desc with Some q => if decide (is_Some (abs d !! q)) then q else lit "root" | None => lit "root" end.
Proof.
  intros Hd. destruct (do_root d Hd) as (r & nr & Hr & Hrd & _ & Hname). unfold parent_for. destruct (d_parent desc) as [q|]; [|by exists r, nr].
  rewrite abs_find by done. destruct (find_device_by_name q d) as [j|] eqn:E.
  - apply find_device_Some in E as (pd & Hj & Hn). exists j, pd. split_and!; [done..|]. rewrite decide_True; [done|]. cbn. rewrite Hj. by eexists.
  - exists r, nr. split_and!; [done..|]. rewrite decide_False; [done|]. by intros [? ?].
Qed.

Lemma released_again d i nd d' : added d i nd d' → devmgr_ok d → ∀ j, dev (release_slot i d') j = dev d j.
Proof.
  intros Ha Hd j. rewrite release_dev, (added_dev _ _ _ _ j Ha). destruct (decide (j = i)) as [->|]; [|done]. symmetry. apply Ha.
Qed.

(** The table is determined by its devices. *)
Lemma same_devices d d' : devmgr_ok d → (∀ j, dev d' j = dev d j) → root_device d' = root_device d → length (device_table d') = length (device_table d) →
  devmgr_ok d' ∧ abs d' = abs d.
Proof.
  intros Hd Hdev Hr Hl. assert (Hd' : devmgr_ok d').
  { destruct Hd as [H1 (r & nr & H2) H3 (rank & H4) H5 H6]. constructor.
    - by rewrite Hl.
    - exists r, nr. by rewrite Hr, Hdev.
    - intros i nd Hi Hi'. rewrite Hdev in Hi. rewrite Hr in Hi'. destruct (H3 i nd Hi Hi') as (j & pd & ? & ?). exists j, pd. by rewrite Hdev.
    - exists rank. intros i nd j Hi. rewrite Hdev in Hi. by apply H4.
    - intros i j nd nd' Hi Hj. rewrite Hdev in Hi, Hj. by eapply H5.
    - intros i nd Hi. rewrite Hdev in Hi. by eapply H6. }
  split; [done|]. apply map_eq. intros n. apply option_eq. intros x. rewrite !device_abs_lookup by done.
  assert (Hv : ∀ nd, view d' nd = view d nd) by (intros nd; unfold view; f_equal; by destruct (parent nd); cbn; rewrite ?Hdev).
  split; intros (i & nd & Hi & Hn & Hx); exists i, nd; rewrite ?Hv in *; rewrite ?Hdev in *; done.
Qed.

Lemma release_frame i d : root_device (release_slot i d) = root_device d ∧ next_device_id (release_slot i d) = next_device_id d ∧
  length (device_table (release_slot i d)) = length (device_table d).
Proof. unfold release_slot. repeat case_match; cbn; by rewrite ?length_insert. Qed.

(** What an operation leaves: a sound machine whose devices are the map [m]. *)
Definition devices_are (m : gmap cstring adev) (next : Z) s : Prop :=
  ∃ d, machine_with d s ∧ devmgr_ok d ∧ abs d = m ∧ next_device_id d = next.

Lemma devices_channel d c s : machine_with (set_channel_id c d) s → devmgr_ok d → devices_are (abs d) (next_device_id d) s.
Proof. intros Hs Hd. exists (set_channel_id c d). split_and!; [done|by apply ok_channel|done|done]. Qed.

Lemma announce_returns d s nd i :
  machine_with d s → devmgr_ok d → dev d i = Some nd →
  ∃ s', (s ← publish_device stack nd s; s ← devmgr_refresh_ramfs stack s; s ← klog_info stack (lit "devmgr: device registered") s;
         s ← devmgr_send_event junk DEVMGR_EVENT_REGISTER nd s; Some (0, Some i, s)) = Some (0, Some i, s') ∧
        devices_are (abs d) (next_device_id d) s'.
Proof.
  intros Hs Hd Hi. destruct (publish_returns d s i nd Hs Hd Hi) as (s1 & -> & H1). cbn [mbind option_bind].
  destruct (refresh_returns d s1 H1 Hd) as (s2 & -> & H2). cbn [mbind option_bind].
  destruct (machine_emit d s2 KLOG_INFO (lit "devmgr: device registered") H2) as (s3 & E3 & H3). unfold klog_info. rewrite E3. cbn [mbind option_bind].
  destruct (event_returns d s3 DEVMGR_EVENT_REGISTER nd H3) as (c & s4 & -> & H4). cbn [mbind option_bind].
  exists s4. split; [done|]. by eapply devices_channel.
Qed.

Lemma register_refines d s desc :
  machine_with d s → devmgr_ok d → request_ok desc →
  let '(r, m, next) := a_register desc (abs d) (next_device_id d) in
  ∃ o s', devmgr_register_device stack junk start desc s = Some (r, o, s') ∧ devices_are m next s'.
Proof.
  intros Hs Hd Hreq. assert (Hsame : devices_are (abs d) (next_device_id d) s) by (by exists d).
  unfold a_register, devmgr_register_device. destruct (d_name desc) as [n|] eqn:En; [|by eexists _, s]. destruct (d_type desc) as [t|]; [|by eexists _, s].
  destruct (Hreq n En) as [Hshort Hself]. rewrite (machine_devs d s Hs), abs_find by done.
  destruct (find_device_by_name n d) as [j|] eqn:Ef.
  { apply find_device_Some in Ef as (nd & Hj & _). cbn [mbind option_bind]. rewrite Hj. rewrite decide_True by by eexists. by eexists _, s. }
  rewrite decide_False by by intros [? ?]. pose proof (allocate_slot_spec d Hd) as Hsl. destruct (allocate_slot d) as [[i d1]|] eqn:Ea.
  2:{ rewrite decide_False by lia. by eexists _, s. }
  rewrite decide_True by apply Hsl. unfold start_fails.
  destruct (fill_slot_added d i d1 desc n t Hd Ea) as (Hadd & Hnext & _); [by rewrite str_copy_short|].
  set (d2 := fill_slot i desc n t d1) in *. destruct (match start_result start (d_ops desc) with Some rc => rc <? 0 | None => false end).
  - destruct (release_frame i d2) as (Hr & Hn & Hl). destruct (same_devices d (release_slot i d2) Hd) as [Hok Habs].
    + by eapply released_again.
    + rewrite Hr. apply Hadd.
    + by rewrite Hl, (ad_table _ _ _ _ Hadd), length_insert.
    + eexists _, _. split; [done|]. exists (release_slot i d2). split_and!; [by eapply machine_set_devs|done|done|by rewrite Hn].
  - destruct (parent_for_dev d desc Hd) as (j & pd & Hp & Hj & Hpn). set (nd := new_node desc n t d) in *.
    assert (Hname : name nd = n) by (by apply str_copy_short). rewrite find_device_None in Ef.
    assert (Hd2 : devmgr_ok d2) by (eapply added_ok; [done|exact Hadd|exact Hp|exact Hj|by rewrite Hname|by rewrite Hname]).
    assert (Hi : dev d2 i = Some nd) by (rewrite (added_dev _ _ _ _ i Hadd); by rewrite decide_True).
    pose proof (machine_set_devs d d2 s Hs) as Hs2. rewrite (machine_devs d2 _ Hs2), (node_at_dev _ _ _ Hi). cbn [mbind option_bind].
    destruct (announce_returns d2 (set_devs d2 s) nd i Hs2 Hd2 Hi) as (s' & E & Hs'). eexists _, s'. split; [exact E|].
    rewrite (added_abs d i nd d2 Hd Hd2 Hadd), Hname, Hnext in Hs'.
    assert (Hview : view d2 nd = ADev (next_device_id d) (str_copy DEVMGR_TYPE_MAX (Some t)) (d_flags desc) (Some (name pd)) (d_driver_data desc) (d_ops desc)).
    { unfold view. change (parent nd) with (parent_for desc d). rewrite Hp. cbn [mbind option_bind]. by rewrite (added_old _ _ _ _ _ _ Hadd Hj). }
    by rewrite Hview, Hpn in Hs'.
Qed.

(** ** Unregistering *)

Lemma retire_returns d s : machine_with d s → devmgr_ok d →
  ∃ s', (s ← devmgr_refresh_ramfs stack s; s ← klog_info stack (lit "devmgr: device unregistered") s; Some (0, s)) = Some (0, s') ∧ machine_with d s'.
Proof.
  intros Hs Hd. destruct (refresh_returns d s Hs Hd) as (s1 & -> & H1). cbn [mbind option_bind].
  destruct (machine_emit d s1 KLOG_INFO (lit "devmgr: device unregistered") H1) as (s2 & E & H2). unfold klog_info. rewrite E. cbn [mbind option_bind]. eauto.
Qed.

Lemma root_find d : devmgr_ok d → find_device_by_name (lit "root") d = root_device d.
Proof. intros Hd. destruct (do_root d Hd) as (r & nr & -> & Hr & _ & Hn). by eapply find_device_ok. Qed.

Lemma unregister_refines d s n :
  machine_with d s → devmgr_ok d →
  let '(r, m) := a_unregister n (abs d) in
  ∃ s', devmgr_unregister_device stack junk n s = Some (r, s') ∧ devices_are m (next_device_id d) s'.
Proof.
  intros Hs Hd. assert (Hsame : devices_are (abs d) (next_device_id d) s) by (by exists d).
  unfold a_unregister, devmgr_unregister_device. rewrite (machine_devs d s Hs). destruct n as [n|]; [|by exists s]. cbn [mbind option_bind].
  destruct (decide (n = lit "root")) as [->|Hne].
  { rewrite root_find by done. destruct (do_root d Hd) as (r & nr & Hr & _). rewrite Hr. rewrite bool_decide_true by done. by exists s. }
  rewrite abs_find by done. destruct (find_device_by_name n d) as [i|] eqn:Ef; cbn [mbind option_bind]; [|by exists s].
  pose proof Ef as (nd & Hi & Hn)%find_device_Some. rewrite Hi. cbn [mbind option_bind].
  assert (Hroot : root_device d ≠ Some i).
  { intros Hr. apply Hne. destruct (do_root d Hd) as (r & nr & Hr' & Hrd & _ & Hname). congruence. }
  rewrite bool_decide_false, (node_at_dev _ _ _ Hi) by done. cbn [mbind option_bind].
  destruct (do_parent d Hd i nd Hi Hroot) as (p & pd & Hp & Hpd).
  destruct (unpublish_returns d s nd Hs (proj2 (do_short d Hd i nd Hi))) as (s1 & -> & H1). cbn [mbind option_bind]. rewrite (machine_devs d s1 H1), Hp.
  set (d1 := detach_children i (Some p) d). pose proof (machine_set_devs d d1 s1 H1) as H2. rewrite (machine_devs d1 _ H2).
  assert (Hi1 : dev d1 i = Some (reparent i (Some p) nd)) by (unfold d1; by rewrite detach_dev, Hi).
  rewrite (node_at_dev _ _ _ Hi1). cbn [mbind option_bind].
  destruct (event_returns d1 _ DEVMGR_EVENT_UNREGISTER (reparent i (Some p) nd) H2) as (c & s3 & -> & H3). cbn [mbind option_bind].
  rewrite (machine_devs _ s3 H3). set (d3 := release_slot i (set_channel_id c d1)).
  assert (Hd3 : d3 = set_channel_id c (removed i p d)) by (unfold d3, removed, release_slot; cbn [device_table set_channel_id]; fold d1; destruct (device_table d1 !! i) as [e|]; [by destruct (negb (used e))|done]).
  assert (Hok : devmgr_ok d3) by (rewrite Hd3; by eapply ok_channel, removed_ok).
  destruct (retire_returns d3 (set_devs d3 s3)) as (s4 & E & H4); [by eapply machine_set_devs|done|]. exists s4. split; [exact E|].
  exists d3. split_and!; [done|done| |rewrite Hd3; apply removed_root].
  change (abs d3) with (abs d3). rewrite Hd3. change (abs (set_channel_id c (removed i p d))) with (abs (removed i p d)).
  rewrite (removed_abs d i nd p Hd Hi Hroot Hp), Hn. unfold view. cbn [a_parent]. by rewrite Hp.
Qed.

End run.
End DevmgrRun.
