(* ===== verification/DevmgrProps.v ===== *)
(** Properties of the device manager: it implements a map of named devices under a root,
    starts with four of them, and does not return from registering a device that
    names itself as its parent. *)

From S2P Require Import Prelude Arrays Bytes Ipc IpcSpec IpcRun Block Klog KlogRun Service ServiceSpec Devmgr DevmgrSpec DevmgrRun.
From S2P Require Vfs VfsRamfs.

Module DevmgrProps.

Import Bytes IpcSpec Klog KlogSpec KlogRun Tables Devmgr DevmgrSpec DevmgrRun.

(** ** Runs *)

Inductive device_op := DRegister (desc : device_descriptor) | DUnregister (n : option cstring) | DFind (n : option cstring).
Inductive device_result := RStatus (r : Z) | RFound (x : option adev).

Definition device_op_ok (o : device_op) : Prop := match o with DRegister desc => request_ok desc | _ => True end.

(** ** Start-up *)

Definition bus (i : Z) (n t : cstring) : device_node := Node i n t DEVICE_FLAG_INTERNAL (Some 0%nat) 0 None.

Definition first_table : list device_entry :=
  [Entry true (Node 0 (lit "root") (lit "root") DEVICE_FLAG_INTERNAL None 0 None); Entry true (bus 1 (lit "platform0") (lit "bus.platform"));
   Entry true (bus 2 (lit "storage0") (lit "bus.storage"))] ++ replicate 29 (Entry false blank_node).

Lemma first_devices_table (d : devmgr) : length (device_table d) = DEVMGR_MAX_DEVICES →
  first_devices d = (true, Devices first_table 3 3 (Some 0%nat) (devmgr_channel_id d)).
Proof.
  intros Hl. unfold first_devices.
  assert (E : clear_entry <$> device_table d = replicate DEVMGR_MAX_DEVICES (Entry false blank_node)).
  { rewrite <- Hl. apply list_eq. intros i. rewrite list_lookup_fmap. destruct (device_table d !! i) eqn:Ei; cbn.
    - symmetry. apply lookup_replicate_2. by eapply lookup_lt_Some.
    - symmetry. apply lookup_replicate_None. by apply lookup_ge_None. }
  rewrite E. reflexivity.
Qed.

Lemma first_table_dev c i nd :
  dev (Devices first_table 3 3 (Some 0%nat) c) i = Some nd →
  (i, nd) ∈ [(0%nat, Node 0 (lit "root") (lit "root") DEVICE_FLAG_INTERNAL None 0 None); (1%nat, bus 1 (lit "platform0") (lit "bus.platform"));
             (2%nat, bus 2 (lit "storage0") (lit "bus.storage"))].
Proof.
  intros H%dev_entry. cbn [device_table] in H. unfold first_table in H. do 3 (destruct i as [|i]; [injection H as <-; set_solver|]).
  change (replicate 29 (Entry false blank_node) !! i = Some (Entry true nd)) in H. by apply lookup_replicate in H as [H _].
Qed.

Lemma first_table_ok c : devmgr_ok (Devices first_table 3 3 (Some 0%nat) c).
Proof.
  constructor.
  - reflexivity.
  - by eexists 0%nat, _.
  - intros i nd H%first_table_dev Hr. exists 0%nat. eexists. split; [|reflexivity].
    repeat (apply elem_of_cons in H as [[= -> ->]|H]; [done|]). by apply elem_of_nil in H.
  - exists (fun i => i). intros i nd j H%first_table_dev Hp.
    repeat (apply elem_of_cons in H as [[= -> ->]|H]; [simpl in Hp; simplify_eq; try lia|]). by apply elem_of_nil in H.
  - intros i j nd nd' H%first_table_dev H'%first_table_dev Hn.
    repeat (apply elem_of_cons in H as [[= -> ->]|H]; [repeat (apply elem_of_cons in H' as [[= -> ->]|H']; [done|]); by apply elem_of_nil in H'|]). by apply elem_of_nil in H.
  - intros i nd H%first_table_dev. repeat (apply elem_of_cons in H as [[= -> ->]|H]; [split; [vm_compute; lia|by_eval]|]). by apply elem_of_nil in H.
Qed.

Definition first_map : gmap cstring adev :=
  {[lit "root" := ADev 0 (lit "root") DEVICE_FLAG_INTERNAL None 0 None;
    lit "platform0" := ADev 1 (lit "bus.platform") DEVICE_FLAG_INTERNAL (Some (lit "root")) 0 None;
    lit "storage0" := ADev 2 (lit "bus.storage") DEVICE_FLAG_INTERNAL (Some (lit "root")) 0 None]}.

Definition boot_map : gmap cstring adev :=
  <[lit "null0" := ADev 3 (lit "device.null") DEVICE_FLAG_PUBLISH (Some (lit "platform0")) 0 (Some null_device_ops)]> first_map.

(** ** A device that is its own parent *)

Lemma self_parent_loop fuel i depth (d : devmgr) nd : node_at d i = Some nd → parent nd = Some i → root_device d ≠ Some i →
  device_depth_loop fuel (Some i) depth d = None.
Proof.
  intros Hi Hp Hr. revert depth. induction fuel as [|fuel IH]; intros depth; cbn [device_depth_loop]; rewrite bool_decide_false by done; [done|].
  rewrite Hi. cbn [mbind option_bind]. rewrite Hp. apply IH.
Qed.

Lemma tree_lines_stuck i j l line (d : devmgr) e :
  (j ≤ i)%nat → l !! (i - j)%nat = Some e → used e = true → root_device d ≠ Some i → device_depth i d = None → tree_lines j l line d = None.
Proof.
  intros Hj He Hu Hr Hdep. revert j line Hj He. induction l as [|x l IH]; intros j line Hj He; [done|]. cbn [tree_lines].
  destruct (decide (i = j)) as [<-|Hne].
  - rewrite Nat.sub_diag in He. injection He as ->. rewrite Hu, bool_decide_false by done. cbn [negb orb]. by rewrite Hdep.
  - replace (i - j)%nat with (S (i - S j)) in He by lia. cbn in He. destruct (negb (used x) || _); [apply IH; [lia|done]|].
    destruct (device_depth j d); cbn [mbind option_bind]; [apply IH; [lia|done]|done].
Qed.

(** ** Properties *)

Section props.
Context {W Ctx : Type} {HD : HasDevices W} (v : Vfs.Vfs.vfs W Ctx) {HT : DeviceTree v}.
Context (stack junk : list Z) (start : Z → option Z).
Implicit Types (s : machine W Ctx) (d : devmgr) (m : gmap cstring adev).

Definition device_exec (o : device_op) s : option (device_result * machine W Ctx) :=
  match o with
  | DRegister desc => '(r, _, s) ← devmgr_register_device stack junk start desc s; Some (RStatus r, s)
  | DUnregister n => '(r, s) ← devmgr_unregister_device stack junk n s; Some (RStatus r, s)
  | DFind n => Some (RFound (i ← devmgr_find n s; view (devs s) <$> dev (devs s) i), s)
  end.

Fixpoint device_run (ops : list device_op) s : option (list device_result * machine W Ctx) :=
  match ops with
  | [] => Some ([], s)
  | o :: ops' => '(r, s) ← device_exec o s; '(rs, s) ← device_run ops' s; Some (r :: rs, s)
  end.

(** The same on the map. *)
Definition a_exec (o : device_op) (x : gmap cstring adev * Z) : device_result * (gmap cstring adev * Z) :=
  let '(m, next) := x in
  match o with
  | DRegister desc => let '(r, m, next) := a_register start desc m next in (RStatus r, (m, next))
  | DUnregister n => let '(r, m) := a_unregister n m in (RStatus r, (m, next))
  | DFind n => (RFound (n ← n; m !! n), (m, next))
  end.

Fixpoint a_run (ops : list device_op) (x : gmap cstring adev * Z) : list device_result * (gmap cstring adev * Z) :=
  match ops with
  | [] => ([], x)
  | o :: ops' => let '(r, x) := a_exec o x in let '(rs, x) := a_run ops' x in (r :: rs, x)
  end.

Context (Hstack : length stack = EVENT_SIZE) (Hjunk : length junk = 64%nat).

Lemma device_exec_refines o m next s : devices_are v m next s → device_op_ok o →
  ∃ s', device_exec o s = Some ((a_exec o (m, next)).1, s') ∧ devices_are v (a_exec o (m, next)).2.1 (a_exec o (m, next)).2.2 s'.
Proof.
  intros (d & Hs & Hd & <- & <-) Ho. destruct o as [desc|n|n]; cbn [device_exec a_exec].
  - pose proof (register_refines v stack junk start Hstack Hjunk d s desc Hs Hd Ho) as H. destruct (a_register _ _ _ _) as [[r m] next].
    destruct H as (i & s' & -> & Hs'). cbn. by exists s'.
  - pose proof (unregister_refines v stack junk Hstack Hjunk d s n Hs Hd) as H. destruct (a_unregister _ _) as [r m].
    destruct H as (s' & -> & Hs'). cbn. by exists s'.
  - exists s. split; [|by exists d]. cbn [fst]. do 3 f_equal. unfold devmgr_find. rewrite (machine_devs v d s Hs). destruct n as [n|]; [|done]. cbn [mbind option_bind].
    rewrite abs_find by done. destruct (find_device_by_name n d); cbn [mbind option_bind]; [|done]. by destruct (dev d _).
Qed.

(** C13: the device manager implements a map of named devices.  Any sequence of
    registrations, unregistrations and searches, with names of at most 31 characters
    and no device named as its own parent, completes (files, log lines and events
    included), returns what the map of at most 32 devices returns and leaves the
    devices of the map: a device goes under the parent asked for or the root, keeps
    its number, and when it goes its children go to its parent. *)
Theorem devices_refine ops m next s :
  devices_are v m next s → Forall device_op_ok ops →
  ∃ s', device_run ops s = Some ((a_run ops (m, next)).1, s') ∧ devices_are v (a_run ops (m, next)).2.1 (a_run ops (m, next)).2.2 s'.
Proof.
  intros Hs Ho. revert m next s Hs. induction Ho as [|o ops Ho _ IH]; intros m next s Hs; [by exists s|]. cbn [device_run a_run].
  destruct (device_exec_refines o m next s Hs Ho) as (s1 & -> & H1). cbn [mbind option_bind]. destruct (a_exec o (m, next)) as [r [m1 next1]]. cbn [fst snd] in *.
  destruct (IH m1 next1 s1 H1) as (s2 & -> & H2). cbn [mbind option_bind]. destruct (a_run ops (m1, next1)) as [rs [m2 next2]]. by exists s2.
Qed.

(** Whatever the table held, [devmgr_init] completes and leaves exactly four devices:
    the root, the two buses under it and the published null device on the platform
    bus, numbered from 0, with 4 the next number. *)
Theorem devmgr_init_correct d s :
  machine_with v d s → length (device_table d) = DEVMGR_MAX_DEVICES →
  ∃ s', devmgr_init stack junk start s = Some s' ∧ devices_are v boot_map 4 s'.
Proof.
  intros Hs Hl. unfold devmgr_init. rewrite (machine_devs v d s Hs), (first_devices_table d Hl). cbn [negb].
  set (d1 := Devices first_table 3 3 (Some 0%nat) (devmgr_channel_id d)). pose proof (machine_set_devs v d d1 s Hs) as H1.
  assert (Ha : abs d1 = first_map) by (vm_compute; reflexivity).
  pose proof (register_refines v stack junk start Hstack Hjunk d1 _ null_desc H1 (first_table_ok _)) as H.
  rewrite Ha in H. replace (a_register start null_desc first_map (next_device_id d1)) with (0, boot_map, 4) in H by (vm_compute; reflexivity).
  destruct H as (i & s2 & -> & d2 & H2 & Hd2 & Ha2 & Hn2); [intros n [= <-]; split; [split; [vm_compute; lia|by_eval]|done]|].
  cbn [mbind option_bind]. change (0 <? 0) with false. cbn iota. cbn [mbind option_bind].
  destruct (refresh_returns v stack junk Hstack Hjunk d2 s2 H2 Hd2) as (s3 & -> & H3). exists s3. split; [done|]. by exists d2.
Qed.

(** A device registered with its own name as the name of its parent is found as its
    own parent, because its entry is named before the parent is looked up; the loop
    of [device_depth] then goes round for ever, for every number of rounds, from the
    refresh at the end of the registration. *)
Theorem self_parent_never_ends d s desc n t :
  machine_with v d s → devmgr_ok d → d_name desc = Some n → d_type desc = Some t → d_parent desc = Some n → short n →
  abs d !! n = None → (size (abs d) < DEVMGR_MAX_DEVICES)%nat → start_fails start (d_ops desc) = false →
  ∃ i d1, allocate_slot d = Some (i, d1) ∧
    (∀ fuel, device_depth_loop fuel (Some i) 0 (fill_slot i desc n t d1) = None) ∧
    devmgr_register_device stack junk start desc s = None.
Proof.
  intros Hs Hd En Et Eq Hshort Hfresh Hroom Hstart. pose proof (allocate_slot_spec d Hd) as Ha.
  destruct (allocate_slot d) as [[i d1]|] eqn:Ea; [|lia]. destruct Ha as (_ & e & He & Hu & ->). set (d1 := set_count _ _) in *. exists i, d1. split; [done|].
  assert (Hfind : find_device_by_name n d = None).
  { destruct (find_device_by_name n d) as [j|] eqn:E; [|done]. rewrite abs_find, E in Hfresh by done. apply find_device_Some in E as (nd & Hj & _).
    cbn in Hfresh. by rewrite Hj in Hfresh. }
  assert (Hlt : (i < length (device_table d))%nat) by by eapply lookup_lt_Some.
  set (d2 := fill_slot i desc n t d1). assert (Hnode : ∃ nd, node_at d2 i = Some nd ∧ parent nd = Some i ∧ name nd = n ∧ d_flags desc = flags nd).
  { unfold d2, fill_slot, node_at, d1. rewrite Eq. cbn [device_table set_table set_next_id set_count]. rewrite !list_insert_insert_eq, list_lookup_insert_eq by done.
    eexists. split; [done|]. cbn [parent name flags]. rewrite str_copy_short by done. split; [|done].
    unfold find_device_by_name. cbn [device_table set_table set_next_id].
    rewrite (first_index_unique _ _ i (Entry true (Node (next_device_id d) n (str_copy DEVMGR_TYPE_MAX (Some t)) (d_flags desc) None (d_driver_data desc) (d_ops desc))));
      [done|by rewrite list_lookup_insert_eq|simpl; by rewrite bool_decide_true|].
    intros j y Hj Hp. apply list_lookup_insert_Some in Hj as [(<- & _)|[_ Hj]]; [done|]. unfold find_device_by_name in Hfind. rewrite first_index_None in Hfind.
    by rewrite (Hfind j y Hj) in Hp. }
  destruct Hnode as (nd & Hnd & Hp & Hname & Hflags). assert (Hroot : root_device d2 ≠ Some i).
  { change (root_device d2) with (root_device d). destruct (do_root d Hd) as (r & nr & -> & Hr & _). intros [= ->]. apply dev_entry in Hr. rewrite He in Hr. by simplify_eq/=. }
  split; [intros fuel; by eapply self_parent_loop|].
  unfold devmgr_register_device. rewrite En, Et, (machine_devs v d s Hs), Hfind, Ea. unfold start_fails in Hstart. rewrite Hstart. fold d2.
  pose proof (machine_set_devs v d d2 s Hs) as Hs2. rewrite (machine_devs v d2 _ Hs2), Hnd. cbn [mbind option_bind].
  destruct (publish_machine v stack Hstack d2 (set_devs d2 s) nd n Hs2) as (s3 & -> & Hs3);
    [rewrite Hname; apply Hshort|unfold parent_name; rewrite Hp, Hnd; cbn; by rewrite Hname|]. cbn [mbind option_bind].
  unfold devmgr_refresh_ramfs. rewrite (machine_devs v d2 s3 Hs3). unfold node_at in Hnd. apply fmap_Some in Hnd as (e2 & He2 & ->).
  unfold device_tree. rewrite (tree_lines_stuck i 0 _ _ d2 e2); [done|lia|by rewrite Nat.sub_0_r| |done|].
  - revert He2. unfold d2, fill_slot, d1. cbn [device_table set_table set_next_id set_count]. rewrite !list_insert_insert_eq, list_lookup_insert_eq by done. by intros [= <-].
  - unfold device_depth. eapply self_parent_loop; [unfold node_at; by rewrite He2|done|done].
Qed.

End props.
End DevmgrProps.
