(* ===== verification/Devicefs.v ===== *)
(** The device file system (kernel/devicefs.c), mounted at [/Devices]: four names that
    stand for devices, and up to 32 entries of data that others write.  It is a file
    system of Vfs.v on a world that has its entries, the table of devices, the block
    devices and the volumes.  What the read functions of drivers do is an argument. *)

From S2P Require Import Prelude Arrays Bytes Block Klog Service Devmgr.
From S2P Require Vfs.

Module Devicefs.

Import Arrays Bytes Devmgr.

Definition DEVICEFS_MAX_DATA : nat := 32.
Definition DEVICEFS_DATA_CAP : nat := 512.

Inductive devicefs_kind := DEVICEFS_KEYBOARD | DEVICEFS_MOUSE | DEVICEFS_DISK0 | DEVICEFS_NULL.

Definition alias_table : list (cstring * devicefs_kind) :=
  [(lit "Keyboard", DEVICEFS_KEYBOARD); (lit "Mouse", DEVICEFS_MOUSE); (lit "Disk0", DEVICEFS_DISK0); (lit "Null", DEVICEFS_NULL)].

Record devicefs_data_entry := DataEntry { de_used : bool; de_name : cstring; de_size : nat; de_data : list Z }.

Definition names_equal (a b : cstring) : bool := bool_decide (a = b).
Definition copy_name (cap : nat) (src : cstring) : cstring := take (cap - 1) src.

Definition find_alias (n : cstring) : option devicefs_kind :=
  i ← first_index (fun a => names_equal a.1 n) alias_table; a ← alias_table !! i; Some a.2.

Definition find_data_entry (n : cstring) (l : list devicefs_data_entry) : option nat :=
  first_index (fun e => de_used e && names_equal (de_name e) n) l.

(** [data[0] = '\0'] *)
Definition clear_data (data : list Z) : option (list Z) := buf_store data 0 0.

Definition allocate_data_entry (n : cstring) (l : list devicefs_data_entry) : option (option nat * list devicefs_data_entry) :=
  match first_index (fun e => negb (de_used e)) l with
  | None => Some (None, l)
  | Some i =>
      e ← l !! i; data ← clear_data (de_data e);
      Some (Some i, <[i := DataEntry true (copy_name VFS_NODE_NAME_MAX n) 0 data]> l)
  end.

Definition reset_entry (e : devicefs_data_entry) : devicefs_data_entry := DataEntry false [] 0 (<[0%nat := 0]> (de_data e)).

(** ** Text *)

(** [append_text] on the text in a buffer of [size] bytes: whether all of it went in. *)
Definition append_text (size : nat) (t text : cstring) : bool * cstring :=
  ((length t <=? size - 1 - length text)%nat, text ++ take (size - 1 - length text) t).

(** A sequence of appends, up to the first that fails. *)
Fixpoint append_all (size : nat) (ts : list cstring) (text : cstring) : bool * cstring :=
  match ts with
  | [] => (true, text)
  | t :: ts' => let '(ok, text) := append_text size t text in if negb ok then (false, text) else append_all size ts' text
  end.

Definition number_to_text (value : Z) (cap : nat) : cstring := take (cap - 1) (Block.decimal (u32 value)).

Definition volume_lines (r : Block.volume_record) : list cstring :=
  [lit "  "; Block.v_name r; lit " -> "; Block.v_mount_path r; [newline]].

(** What goes to the buffer, in pieces. *)
Definition disk_pieces (b : Block.blocks) (v : Block.volmgr) : option (list cstring) :=
  dev ← Block.blockdev_find (Some (lit "disk0")) b;
  match dev with
  | None => Some [lit "disk0 unavailable"]
  | Some i =>
      dv ← Block.device_table b !! i;
      Some ([lit "Name: disk0"; [newline]; lit "Block Size: "; number_to_text (Block.block_size dv) 32; [newline];
             lit "Block Count: "; number_to_text (Block.block_count dv) 32; [newline]; lit "Volumes:"; [newline]] ++
            concat (volume_lines <$> filter (fun r => Block.v_used r = true) (Block.volume_table v)))
  end.

(** A text over the start of a buffer, with and without its terminator. *)
Definition over (text : cstring) (buffer : list Z) : list Z := text ++ drop (length text) buffer.

Definition fill_disk_info (b : Block.blocks) (v : Block.volmgr) (buffer : list Z) : option (Z * list Z) :=
  if (length buffer =? 0)%nat then Some (-1, buffer)
  else
    pieces ← disk_pieces b v;
    let '(ok, text) := append_all (length buffer) pieces [] in
    if negb ok then Some (-1, over text buffer) else Some (Z.of_nat (length text), over (text ++ [0]) buffer).

(** ** The world *)

Class HasDevicefs (W : Type) := {
  hd_devices :: HasDevices W;
  data_of : W → list devicefs_data_entry;
  with_data : list devicefs_data_entry → W → W;
  blocks_of : W → Block.blocks;
  volumes_of : W → Block.volmgr;
  data_of_with l w : data_of (with_data l w) = l;
  data_of_devices d w : data_of (with_devices d w) = data_of w;
  devices_of_data l w : devices_of (with_data l w) = devices_of w;
  blocks_of_data l w : blocks_of (with_data l w) = blocks_of w;
  blocks_of_devices d w : blocks_of (with_devices d w) = blocks_of w;
  volumes_of_data l w : volumes_of (with_data l w) = volumes_of w;
  volumes_of_devices d w : volumes_of (with_devices d w) = volumes_of w
}.

Section devicefs.
(** The read function of a driver, when it has one: status, bytes read, buffer, world. *)
Context {W Ctx : Type} {HW : HasDevicefs W} (driver_read : Z → option (W → list Z → Z * Z * list Z * W)).
Implicit Types (w : W) (ctx : Ctx) (buffer : list Z).

Definition null_device_read w buffer : Z * Z * list Z * W := (0, 0, buffer, w).

(** [node->ops->read] of the device with a name. *)
Definition reader (n : cstring) w : option (W → list Z → Z * Z * list Z * W) :=
  i ← find_device_by_name n (devices_of w);
  nd ← node_at (devices_of w) i;
  o ← ops nd;
  match o with null_device_ops => Some null_device_read | DriverOps a => driver_read a end.

(** [if (out < buffer_size) buffer[out] = '\0'; return (int)out;] *)
Definition end_read (out : Z) buffer : Z * list Z :=
  (s32 out, if out <? Z.of_nat (length buffer) then <[Z.to_nat out := 0]> buffer else buffer).

Definition mouse_fallback : cstring := lit "mouse: no data" ++ [newline].

Definition read_alias (kind : devicefs_kind) w buffer : option (Z * list Z * W) :=
  if (length buffer =? 0)%nat then Some (-1, buffer, w)
  else match kind with
  | DEVICEFS_KEYBOARD =>
      match reader (lit "ps2kbd0") w with
      | None => Some (0, buffer, w)
      | Some f =>
          let '(rc, out, buffer, w) := f w buffer in
          if rc <? 0 then Some (-1, buffer, w) else let '(r, buffer) := end_read out buffer in Some (r, buffer, w)
      end
  | DEVICEFS_MOUSE =>
      let '(data, buffer, w) :=
        match reader (lit "ps2mouse0") w with
        | None => (None, buffer, w)
        | Some f => let '(rc, out, buffer, w) := f w buffer in (if rc =? 0 then Some out else None, buffer, w)
        end in
      match data with
      | Some out => let '(r, buffer) := end_read out buffer in Some (r, buffer, w)
      | None =>
          let text := take (length buffer - 1) mouse_fallback in
          Some (Z.of_nat (length text), over (text ++ [0]) buffer, w)
      end
  | DEVICEFS_DISK0 => '(r, buffer) ← fill_disk_info (blocks_of w) (volumes_of w) buffer; Some (r, buffer, w)
  | DEVICEFS_NULL => b ← buf_store buffer 0 0; Some (0, b, w)
  end.

Definition write_alias (kind : devicefs_kind) (n : Z) : Z := match kind with DEVICEFS_NULL => s32 n | _ => -1 end.

(** ** The operations *)

(** A loop over names, up to the first that does not fit. *)
Fixpoint list_names (size : nat) (l : list cstring) (text : cstring) : cstring :=
  match l with
  | [] => text
  | n :: l' => if (size - length text <=? length n + 1)%nat then text else list_names size l' (text ++ n ++ [newline])
  end.

Definition used_names (l : list devicefs_data_entry) : list cstring := de_name <$> filter (fun e => de_used e = true) l.

Definition devicefs_list w ctx (path : cstring) buffer : option (Z * list Z * W) :=
  if (length buffer =? 0)%nat then Some (-1, buffer, w)
  else if negb (bool_decide (path = [])) then Some (-1, buffer, w)
  else
    let text := list_names (length buffer) (used_names (data_of w)) (list_names (length buffer) alias_table.*1 []) in
    Some (match text with
          | [] => (0, over [0] buffer, w)
          | _ => (Z.of_nat (length text - 1), over (take (length text - 1) text ++ [0]) buffer, w)
          end).

Definition devicefs_read w ctx (path : cstring) buffer : option (Z * list Z * W) :=
  if bool_decide (path = []) || (length buffer =? 0)%nat then Some (-1, buffer, w)
  else match find_alias path with
  | Some kind => read_alias kind w buffer
  | None =>
      match find_data_entry path (data_of w) with
      | None => Some (-1, buffer, w)
      | Some i =>
          e ← data_of w !! i;
          let to_copy := if (length buffer <=? de_size e)%nat then (length buffer - 1)%nat else de_size e in
          bytes ← cells (de_data e) to_copy;
          Some (Z.of_nat to_copy, over (bytes ++ [0]) buffer, w)
      end
  end.

(** [entry->data[entry->size++] = data[i]] and the terminator. *)
Definition fill_entry (e : devicefs_data_entry) (bytes : list Z) : option devicefs_data_entry :=
  data ← buf_copy (de_data e) (de_size e) (bytes ++ [0]);
  Some (DataEntry (de_used e) (de_name e) (de_size e + length bytes) data).

Definition write_entry (e : devicefs_data_entry) (data : option (list Z)) (mode : Vfs.Vfs.vfs_write_mode) : option (Z * devicefs_data_entry) :=
  e ← match mode with
      | Vfs.Vfs.VFS_WRITE_REPLACE => data ← clear_data (de_data e); Some (DataEntry (de_used e) (de_name e) 0 data)
      | Vfs.Vfs.VFS_WRITE_APPEND => Some e
      end;
  match data with
  | None | Some [] => e ← fill_entry e []; Some (0, e)
  | Some data =>
      let capacity := (DEVICEFS_DATA_CAP - 1)%nat in
      let e := if (capacity <? de_size e)%nat then DataEntry (de_used e) (de_name e) capacity (de_data e) else e in
      let to_copy := Nat.min (length data) (capacity - de_size e) in
      e ← fill_entry e (take to_copy data); Some (Z.of_nat to_copy, e)
  end.

Definition devicefs_write w ctx (path : cstring) (data : option (list Z)) (mode : Vfs.Vfs.vfs_write_mode) : option (Z * W) :=
  if bool_decide (path = []) then Some (-1, w)
  else match find_alias path with
  | Some kind => Some (write_alias kind (Z.of_nat (length (default [] data))), w)
  | None =>
      '(i, l) ← match find_data_entry path (data_of w) with
                | Some i => Some (Some i, data_of w)
                | None => allocate_data_entry path (data_of w)
                end;
      match i with
      | None => Some (-1, w)
      | Some i => e ← l !! i; '(r, e) ← write_entry e data mode; Some (r, with_data (<[i := e]> l) w)
      end
  end.

Definition devicefs_remove w ctx (path : cstring) : option (Z * W) :=
  if bool_decide (path = []) then Some (-1, w)
  else match find_alias path with
  | Some _ => Some (-1, w)
  | None =>
      match find_data_entry path (data_of w) with
      | None => Some (-1, w)
      | Some i =>
          e ← data_of w !! i; data ← clear_data (de_data e);
          Some (0, with_data (<[i := DataEntry false [] 0 data]> (data_of w)) w)
      end
  end.

Definition devicefs_mkdir w ctx (path : cstring) : option (Z * W) := Some (-1, w).

Definition devicefs_ops : Vfs.Vfs.vfs_fs_ops W Ctx :=
  {| Vfs.Vfs.op_list := Some devicefs_list; Vfs.Vfs.op_read := Some devicefs_read; Vfs.Vfs.op_write := Some devicefs_write;
     Vfs.Vfs.op_remove := Some devicefs_remove; Vfs.Vfs.op_mkdir := Some devicefs_mkdir |}.

Definition reset_data_entries w : W := with_data (reset_entry <$> data_of w) w.

End devicefs.

End Devicefs.
