(* ===== verification/DevicefsSpec.v ===== *)
(** The device file system: its entries stay inside their arrays whatever is written, and
    for names that fit they are a map from names to at most 511 bytes, with room for
    32 names. *)

From S2P Require Import Prelude Arrays Bytes Block Klog Service Devmgr Devicefs.
From S2P Require Vfs VfsRamfs.

Module DevicefsSpec.

Import Arrays Bytes Tables Devmgr Devicefs VfsRamfs.VfsRamfs.

(** ** Entries *)

Definition contents (e : devicefs_data_entry) : list Z := take (de_size e) (de_data e).

Record entry_ok (e : devicefs_data_entry) : Prop := {
  eo_data : length (de_data e) = DEVICEFS_DATA_CAP;
  eo_size : (de_size e < DEVICEFS_DATA_CAP)%nat
}.

Definition entries_ok (l : list devicefs_data_entry) : Prop := length l = DEVICEFS_MAX_DATA ∧ Forall entry_ok l.

(** What a write leaves of the contents, and returns. *)
Definition put (data : option (list Z)) (mode : Vfs.Vfs.vfs_write_mode) (c : list Z) : Z * list Z :=
  let c := match mode with Vfs.Vfs.VFS_WRITE_REPLACE => [] | Vfs.Vfs.VFS_WRITE_APPEND => c end in
  let d := take (DEVICEFS_DATA_CAP - 1 - length c) (default [] data) in
  (Z.of_nat (length d), c ++ d).

Lemma clear_data_ok (b : list Z) : length b = DEVICEFS_DATA_CAP → clear_data b = Some (<[0%nat := 0]> b).
Proof. intros H. apply buf_store_ok. rewrite H. unfold DEVICEFS_DATA_CAP. lia. Qed.

Lemma node_contents_length e : entry_ok e → length (contents e) = de_size e.
Proof. intros [H1 H2]. unfold contents. rewrite length_take. lia. Qed.

Lemma fill_entry_ok e bs : entry_ok e → (de_size e + length bs < DEVICEFS_DATA_CAP)%nat →
  ∃ e', fill_entry e bs = Some e' ∧ entry_ok e' ∧ de_used e' = de_used e ∧ de_name e' = de_name e ∧ contents e' = contents e ++ bs.
Proof.
  intros He Hb. pose proof He as [H1 H2]. unfold fill_entry. rewrite buf_copy_ok by (rewrite length_app; simpl; lia). cbn [mbind option_bind].
  eexists. split; [done|]. split; [|split; [done|split; [done|]]].
  - constructor; cbn [de_data de_size]; [|lia]. rewrite !length_app, length_take, length_drop, ?length_app. simpl. lia.
  - unfold contents. cbn [de_data de_size]. rewrite <- app_assoc. rewrite take_app, length_take, Nat.min_l by lia.
    rewrite (take_ge (take _ _)) by (rewrite length_take; lia). f_equal. replace (de_size e + length bs - de_size e)%nat with (length bs) by lia.
    by rewrite take_app_length.
Qed.

Lemma write_entry_ok e data mode : entry_ok e →
  ∃ e', write_entry e data mode = Some ((put data mode (contents e)).1, e') ∧ entry_ok e' ∧ de_used e' = de_used e ∧ de_name e' = de_name e ∧
        contents e' = (put data mode (contents e)).2.
Proof.
  intros He. unfold write_entry.
  set (c := match mode with Vfs.Vfs.VFS_WRITE_REPLACE => [] | Vfs.Vfs.VFS_WRITE_APPEND => contents e end).
  assert (H : ∃ e0, match mode with
      | Vfs.Vfs.VFS_WRITE_REPLACE => data ← clear_data (de_data e); Some (DataEntry (de_used e) (de_name e) 0 data)
      | Vfs.Vfs.VFS_WRITE_APPEND => Some e
      end = Some e0 ∧ entry_ok e0 ∧ de_used e0 = de_used e ∧ de_name e0 = de_name e ∧ contents e0 = c).
  { destruct mode; [by exists e|]. rewrite clear_data_ok by apply He. cbn [mbind option_bind]. eexists. split; [done|]. split; [|done].
    constructor; cbn; [rewrite length_insert; apply He|unfold DEVICEFS_DATA_CAP; lia]. }
  destruct H as (e0 & -> & H0 & Hu & Hn & Hc). cbn [mbind option_bind]. unfold put. fold c.
  pose proof (node_contents_length e0 H0) as Hlen. rewrite Hc in Hlen. pose proof (eo_size e0 H0) as Hsz.
  destruct data as [[|x d]|]; cbn [default].
  - destruct (fill_entry_ok e0 [] H0) as (e' & -> & H1 & U1 & N1 & C1); [simpl; lia|]. cbn [mbind option_bind]. exists e'. cbn [fst snd from_option Datatypes.id].
    rewrite take_nil, C1, Hc. split_and!; [done..|congruence|congruence|done].
  - cbn zeta. rewrite (proj2 (Nat.ltb_ge _ _)) by lia. set (k := Nat.min (length (x :: d)) _).
    assert (Hk : take k (x :: d) = take (DEVICEFS_DATA_CAP - 1 - length c) (x :: d)).
    { unfold k. rewrite Hlen. destruct (decide (length (x :: d) ≤ DEVICEFS_DATA_CAP - 1 - de_size e0)%nat); [rewrite Nat.min_l, !take_ge by lia; done|by rewrite Nat.min_r by lia]. }
    assert (Hkl : length (take k (x :: d)) = k) by (rewrite length_take; unfold k; lia).
    destruct (fill_entry_ok e0 (take k (x :: d)) H0) as (e' & -> & H1 & U1 & N1 & C1); [rewrite Hkl; unfold k; lia|]. cbn [mbind option_bind].
    exists e'. cbn [fst snd from_option Datatypes.id]. rewrite <- Hk, Hkl, C1, Hc. split_and!; [done..|congruence|congruence|done].
  - destruct (fill_entry_ok e0 [] H0) as (e' & -> & H1 & U1 & N1 & C1); [simpl; lia|]. cbn [mbind option_bind]. exists e'. cbn [fst snd from_option Datatypes.id].
    rewrite take_nil, C1, Hc. split_and!; [done..|congruence|congruence|done].
Qed.

(** ** Finding a place *)

Definition place (n : cstring) (l : list devicefs_data_entry) : option (option nat * list devicefs_data_entry) :=
  match find_data_entry n l with Some i => Some (Some i, l) | None => allocate_data_entry n l end.

(** An entry found, or one made of a free entry. *)
Definition placed (n : cstring) (l : list devicefs_data_entry) (i : nat) (e0 e : devicefs_data_entry) : Prop :=
  l !! i = Some e0 ∧ entry_ok e ∧ de_used e = true ∧
  (find_data_entry n l = Some i ∧ e = e0 ∧ de_name e = n ∨
   find_data_entry n l = None ∧ de_used e0 = false ∧ de_name e = copy_name VFS_NODE_NAME_MAX n ∧ contents e = []).

Lemma place_ok n l : entries_ok l →
  (place n l = Some (None, l) ∧ find_data_entry n l = None ∧ first_index (fun e => negb (de_used e)) l = None) ∨
  (∃ i e0 e, place n l = Some (Some i, <[i := e]> l) ∧ placed n l i e0 e).
Proof.
  intros [Hlen Hl]. unfold place. destruct (find_data_entry n l) as [i|] eqn:Ef.
  - right. pose proof Ef as (e & He & Hp & _)%first_index_Some. apply andb_true_iff in Hp as [Hu Hn%bool_decide_eq_true].
    exists i, e, e. rewrite list_insert_id by done. split; [done|]. split; [done|]. split; [exact (Forall_lookup_1 _ _ _ _ Hl He)|]. split; [done|]. by left.
  - unfold allocate_data_entry. destruct (first_index _ l) as [i|] eqn:Ei; [|by left]. right.
    pose proof Ei as (e & He & Hu%negb_true_iff & _)%first_index_Some. pose proof (Forall_lookup_1 _ _ _ _ Hl He) as [H1 H2]. rewrite He. cbn [mbind option_bind].
    rewrite clear_data_ok by done. cbn [mbind option_bind]. eexists i, e, _. split; [done|]. split; [done|].
    split; [constructor; cbn; [by rewrite length_insert|unfold DEVICEFS_DATA_CAP; lia]|]. split; [done|]. by right.
Qed.

Lemma entries_ok_insert l i e : entries_ok l → entry_ok e → entries_ok (<[i := e]> l).
Proof. intros [H1 H2] He. split; [by rewrite length_insert|by apply Forall_insert]. Qed.

Section fs.
Context {W Ctx : Type} {HW : HasDevicefs W} (driver_read : Z → option (W → list Z → Z * Z * list Z * W)).
Implicit Types (w : W) (ctx : Ctx).

(** ** The abstract file system *)

Definition files w : gmap cstring (list Z) := table_map de_used de_name contents (data_of w).

Definition files_ok w : Prop := entries_ok (data_of w) ∧ unique de_used de_name (data_of w).

Definition a_put (rel : cstring) (data : option (list Z)) (mode : Vfs.Vfs.vfs_write_mode) (m : gmap cstring (list Z)) : Z * gmap cstring (list Z) :=
  if bool_decide (m !! rel = None) && (DEVICEFS_MAX_DATA <=? size m)%nat then (-1, m)
  else let '(r, c) := put data mode (default [] (m !! rel)) in (r, <[rel := c]> m).

Definition a_call (rel : cstring) (o : file_op) (m : gmap cstring (list Z)) : Z * gmap cstring (list Z) :=
  if bool_decide (rel = []) then (-1, m)
  else match find_alias rel, o with
  | Some kind, (FWrite d | FAppend d) => (write_alias kind (Z.of_nat (length (default [] d))), m)
  | Some _, _ | None, FMkdir => (-1, m)
  | None, FWrite d => a_put rel d Vfs.Vfs.VFS_WRITE_REPLACE m
  | None, FAppend d => a_put rel d Vfs.Vfs.VFS_WRITE_APPEND m
  | None, FRemove => if decide (is_Some (m !! rel)) then (0, delete rel m) else (-1, m)
  end.

(** ** Writing *)

Lemma write_cases w ctx rel data mode :
  entries_ok (data_of w) →
  let n := Z.of_nat (length (default [] data)) in
  (∃ r, devicefs_write w ctx rel data mode = Some (r, w) ∧
     (rel = [] ∧ r = -1 ∨ (∃ kind, find_alias rel = Some kind ∧ r = write_alias kind n) ∨
      find_alias rel = None ∧ r = -1 ∧ find_data_entry rel (data_of w) = None ∧ first_index (fun e => negb (de_used e)) (data_of w) = None)) ∨
  (∃ i e0 e e', devicefs_write w ctx rel data mode = Some ((put data mode (contents e)).1, with_data (<[i := e']> (data_of w)) w) ∧
     rel ≠ [] ∧ find_alias rel = None ∧ placed rel (data_of w) i e0 e ∧
     entry_ok e' ∧ de_used e' = true ∧ de_name e' = de_name e ∧ contents e' = (put data mode (contents e)).2).
Proof.
  intros Hl n. unfold devicefs_write. case_bool_decide as Hr; [left; eexists; split; [done|by left]|].
  destruct (find_alias rel) as [kind|] eqn:Ea; [left; eexists; split; [done|right; left; by exists kind]|]. fold (place rel (data_of w)).
  destruct (place_ok rel (data_of w) Hl) as [(-> & Hf & Hn)|(i & e0 & e & -> & Hp)]; cbn [mbind option_bind].
  - left. exists (-1). split; [done|]. right. by right.
  - right. pose proof Hp as (He0 & Heo & Hu & _). rewrite list_lookup_insert_eq by by eapply lookup_lt_Some. cbn [mbind option_bind].
    destruct (write_entry_ok e data mode Heo) as (e' & -> & Heo' & Hu' & Hn' & Hc'). cbn [mbind option_bind]. exists i, e0, e, e'.
    rewrite list_insert_insert_eq. split_and!; [done..|congruence|done|done].
Qed.

Lemma call_ok w ctx rel o : entries_ok (data_of w) →
  ∃ r w', call_op (devicefs_ops driver_read) ctx w rel o = Some (r, w') ∧ entries_ok (data_of w') ∧ (w' = w ∨ ∃ l, w' = with_data l w).
Proof.
  intros Hl.
  assert (Hwrite : ∀ d mode, ∃ r w', devicefs_write w ctx rel d mode = Some (r, w') ∧ entries_ok (data_of w') ∧ (w' = w ∨ ∃ l, w' = with_data l w)).
  { intros d mode. destruct (write_cases w ctx rel d mode Hl) as [(r & -> & _)|(i & e0 & e & e' & -> & _ & _ & _ & He' & _)]; [by eexists _, w; split; [|split; [|left]]|].
    eexists _, _. split; [done|]. rewrite data_of_with. split; [by apply entries_ok_insert|right; by eexists]. }
  destruct o as [d|d| |]; cbn [call_op devicefs_ops Vfs.Vfs.op_write Vfs.Vfs.op_remove Vfs.Vfs.op_mkdir from_option]; [apply Hwrite|apply Hwrite| |].
  - unfold devicefs_remove. case_bool_decide; [by eexists _, w; split; [|split; [|left]]|]. destruct (find_alias rel); [by eexists _, w; split; [|split; [|left]]|].
    destruct (find_data_entry rel (data_of w)) as [i|] eqn:Ef; [|by eexists _, w; split; [|split; [|left]]].
    apply first_index_Some in Ef as (e & He & _). rewrite He. cbn [mbind option_bind]. pose proof (Forall_lookup_1 _ _ _ _ (proj2 Hl) He) as [H1 H2].
    rewrite clear_data_ok by done. cbn [mbind option_bind]. eexists _, _. split; [done|]. rewrite data_of_with. split; [|right; by eexists].
    apply entries_ok_insert; [done|]. constructor; cbn; [by rewrite length_insert|unfold DEVICEFS_DATA_CAP; lia].
  - by eexists _, w; split; [|split; [|left]].
Qed.

(** ** Refinement *)

(** A name that fits an entry. *)
Definition fits (rel : cstring) : Prop := (length rel < VFS_NODE_NAME_MAX)%nat.

Lemma copy_fits rel : fits rel → copy_name VFS_NODE_NAME_MAX rel = rel.
Proof. intros H. unfold copy_name. apply take_ge. unfold fits, VFS_NODE_NAME_MAX in *. lia. Qed.

Lemma files_find w rel : files_ok w → files w !! rel = (i ← find_data_entry rel (data_of w); contents <$> data_of w !! i).
Proof. intros [_ Hu]. unfold files. by rewrite table_find. Qed.

Lemma placed_takes w rel i e0 e e' :
  files_ok w → fits rel → placed rel (data_of w) i e0 e → de_used e' = true → de_name e' = de_name e →
  takes de_used de_name contents (data_of w) i e0 e' ∧ de_name e' = rel ∧ contents e = default [] (files w !! rel) ∧
  bool_decide (files w !! rel = None) && (DEVICEFS_MAX_DATA <=? size (files w))%nat = false.
Proof.
  intros Hw Hfit (He0 & Heo & Hu & H) Hu' Hn'. pose proof Hw as [[Hlen _] Huniq]. pose proof (files_find w rel Hw) as Hf.
  destruct H as [(Ef & -> & Hn)|(Ef & Hu0 & Hn & Hc)]; rewrite Ef in Hf; cbn [mbind option_bind] in Hf.
  - rewrite He0 in Hf. cbn in Hf. rewrite Hf. cbn [default from_option Datatypes.id].
    split; [split; [done|]; split; [done|]; left; split; [done|congruence]|]. split; [congruence|]. done.
  - rewrite copy_fits in Hn by done. split; [split; [done|]; split; [done|]; right; split; [done|]; rewrite Hn', Hn; exact Hf|].
    split; [congruence|]. rewrite Hf. split; [done|]. rewrite bool_decide_true by done. cbn [andb]. apply Nat.leb_gt. rewrite <- Hlen.
    pose proof (table_free de_used de_name contents (data_of w) Huniq) as Hfree.
    destruct (first_index (fun e => negb (de_used e)) (data_of w)) eqn:Ei; [apply Hfree|]. rewrite first_index_None in Ei.
    specialize (Ei i e0 He0). by rewrite Hu0 in Ei.
Qed.

Lemma node_write_refines w ctx rel data mode :
  files_ok w → fits rel → rel ≠ [] → find_alias rel = None →
  ∃ w', devicefs_write w ctx rel data mode = Some ((a_put rel data mode (files w)).1, w') ∧ files_ok w' ∧ (a_put rel data mode (files w)).2 = files w'.
Proof.
  intros Hw Hfit Hne Ha. unfold a_put.
  destruct (write_cases w ctx rel data mode (proj1 Hw)) as [(r & E & [[? _]|[(k & Hk & _)|(_ & -> & Hf & Hn)]])|(i & e0 & e & e' & E & _ & _ & Hp & Heo & Hu & Hn & Hc)].
  - done.
  - congruence.
  - exists w. rewrite E. pose proof (files_find w rel Hw) as Hz. rewrite Hf in Hz. cbn in Hz. rewrite Hz, bool_decide_true by done. cbn [andb].
    pose proof (table_free de_used de_name contents (data_of w) (proj2 Hw)) as Hfree. rewrite Hn in Hfree. fold (files w) in Hfree.
    rewrite Hfree, (proj1 (proj1 Hw)), Nat.leb_refl. done.
  - destruct (placed_takes w rel i e0 e e' Hw Hfit Hp Hu Hn) as (Ht & Hname & Hcont & ->). rewrite <- Hcont. destruct (put data mode (contents e)) as [r c].
    cbn [fst snd] in *. eexists. split; [exact E|]. split.
    + split; rewrite data_of_with; [by apply entries_ok_insert, Heo; apply Hw|]. eapply takes_unique; [apply Hw|exact Ht].
    + unfold files. rewrite data_of_with, (takes_map _ _ _ _ _ _ _ (proj2 Hw) Ht). by rewrite Hname, Hc.
Qed.

Lemma node_remove_refines w ctx rel :
  files_ok w → rel ≠ [] → find_alias rel = None →
  let a := if decide (is_Some (files w !! rel)) then (0, delete rel (files w)) else (-1, files w) in
  ∃ w', devicefs_remove w ctx rel = Some (a.1, w') ∧ files_ok w' ∧ a.2 = files w'.
Proof.
  intros Hw Hne Ha a. unfold devicefs_remove. rewrite bool_decide_false, Ha by done. pose proof (files_find w rel Hw) as Hf. unfold a.
  destruct (find_data_entry rel (data_of w)) as [i|] eqn:Ef; cbn [mbind option_bind] in Hf.
  - pose proof Ef as (e & He & Hp & _)%first_index_Some. apply andb_true_iff in Hp as [Hu Hn%bool_decide_eq_true]. rewrite He in Hf |- *. cbn in Hf.
    rewrite decide_True by (rewrite Hf; by eexists). cbn [mbind option_bind fst snd]. pose proof (Forall_lookup_1 _ _ _ _ (proj2 (proj1 Hw)) He) as [H1 H2].
    rewrite clear_data_ok by done. cbn [mbind option_bind]. eexists. split; [done|]. split.
    + split; rewrite data_of_with; [|by apply drop_unique; [apply Hw|]]. apply entries_ok_insert; [apply Hw|]. constructor; cbn; [by rewrite length_insert|unfold DEVICEFS_DATA_CAP; lia].
    + unfold files. rewrite data_of_with, (drop_map _ _ _ _ _ e) by (apply Hw || done). by rewrite Hn.
  - rewrite decide_False by (rewrite Hf; by intros [? ?]). by exists w.
Qed.

Lemma call_refines w ctx rel o : files_ok w → fits rel →
  ∃ w', call_op (devicefs_ops driver_read) ctx w rel o = Some ((a_call rel o (files w)).1, w') ∧ files_ok w' ∧ (a_call rel o (files w)).2 = files w'.
Proof.
  intros Hw Hfit. unfold a_call. destruct (decide (rel = [])) as [->|Hne].
  { rewrite bool_decide_true by done. exists w. by destruct o. }
  rewrite bool_decide_false by done. destruct (find_alias rel) as [kind|] eqn:Ea.
  - exists w. destruct o as [d|d| |]; cbn [call_op devicefs_ops Vfs.Vfs.op_write Vfs.Vfs.op_remove Vfs.Vfs.op_mkdir from_option];
      unfold devicefs_write, devicefs_remove; rewrite ?bool_decide_false, ?Ea by done; done.
  - destruct o as [d|d| |]; cbn [call_op devicefs_ops Vfs.Vfs.op_write Vfs.Vfs.op_remove Vfs.Vfs.op_mkdir from_option];
      [by apply node_write_refines|by apply node_write_refines|by apply node_remove_refines|by exists w].
Qed.

Lemma read_refines w ctx rel buffer : files_ok w → rel ≠ [] → find_alias rel = None → (0 < length buffer)%nat →
  devicefs_read driver_read w ctx rel buffer =
    Some (match files w !! rel with Some c => read_result c buffer | None => (-1, buffer) end, w).
Proof.
  intros Hw Hne Ha Hb. unfold devicefs_read. rewrite bool_decide_false, Ha by done. rewrite (proj2 (Nat.eqb_neq _ _)) by lia. cbn [orb].
  rewrite files_find by done. destruct (find_data_entry rel (data_of w)) as [i|] eqn:Ef; cbn [mbind option_bind]; [|done].
  apply first_index_Some in Ef as (e & He & _). rewrite He. cbn [fmap option_fmap option_map mbind option_bind].
  pose proof (Forall_lookup_1 _ _ _ _ (proj2 (proj1 Hw)) He) as Heo. pose proof Heo as [H1 H2]. unfold read_result. rewrite (node_contents_length e Heo).
  set (n := if (length buffer <=? de_size e)%nat then _ else _).
  assert (Hn : n = Nat.min (de_size e) (length buffer - 1)) by (unfold n; destruct (Nat.leb_spec (length buffer) (de_size e)); lia).
  rewrite cells_ok by lia. cbn [mbind option_bind]. rewrite <- Hn. unfold over, contents. rewrite take_take, Nat.min_l by lia.
  rewrite length_app, length_take. cbn [length]. rewrite Nat.min_l by lia. by rewrite <- app_assoc, Nat.add_1_r.
Qed.

End fs.

End DevicefsSpec.
