(* ===== verification/DevicefsProps.v ===== *)
(** Properties of the device file system, and the tree the kernel boots with, in which it
    is mounted at [/Devices]: an operation on any path returns, which is what the device
    manager asks of it. *)

From S2P Require Import Prelude Arrays Bytes Block Klog Service Devmgr Devicefs DevicefsSpec.
From S2P Require Import KlogRun DevmgrSpec DevmgrRun VfsPath Ramfs RamfsSpec Vfs VfsSpec VfsRamfs.
From S2P Require KlogFiles.

Module DevicefsProps.

Import Devmgr Devicefs DevicefsSpec.

Section props.
Context {W Ctx : Type} {HW : HasDevicefs W} (driver_read : Z → option (W → list Z → Z * Z * list Z * W)).
Implicit Types (w : W) (ctx : Ctx).

Fixpoint call_all ctx (ops : list (cstring * VfsRamfs.file_op)) w : option (list Z * W) :=
  match ops with
  | [] => Some ([], w)
  | (rel, o) :: ops' =>
      '(r, w) ← VfsRamfs.call_op (devicefs_ops driver_read) ctx w rel o; '(rs, w) ← call_all ctx ops' w; Some (r :: rs, w)
  end.

Fixpoint a_calls (ops : list (cstring * VfsRamfs.file_op)) (m : gmap cstring (list Z)) : list Z * gmap cstring (list Z) :=
  match ops with
  | [] => ([], m)
  | (rel, o) :: ops' => let '(r, m) := a_call rel o m in let '(rs, m) := a_calls ops' m in (r :: rs, m)
  end.

(** C14: for names of at most 31 characters the device file system is a map from at most
    32 names to at most 511 bytes.  Any sequence of writes, appends, removals and
    directory creations returns what the map returns and leaves the files of the map;
    writes that do not fit are cut and return what was taken, the names of devices
    take no data but the null device swallows it; and a read then returns the bytes
    of the file, cut to the buffer. *)
Theorem devicefs_refines ctx ops w :
  files_ok w → Forall (fun x => fits x.1) ops →
  ∃ w', call_all ctx ops w = Some ((a_calls ops (files w)).1, w') ∧ files_ok w' ∧ files w' = (a_calls ops (files w)).2 ∧
    ∀ rel buffer, rel ≠ [] → find_alias rel = None → (0 < length buffer)%nat →
      devicefs_read driver_read w' ctx rel buffer =
        Some (match files w' !! rel with Some c => VfsRamfs.read_result c buffer | None => (-1, buffer) end, w').
Proof.
  intros Hw Ho. revert w Hw. induction Ho as [|[rel o] ops Ho _ IH]; intros w Hw.
  - exists w. split_and!; [done..|]. intros. by apply read_refines.
  - cbn [call_all a_calls]. destruct (call_refines driver_read w ctx rel o Hw Ho) as (w1 & -> & Hw1 & Hf1). cbn [mbind option_bind].
    destruct (a_call rel o (files w)) as [r m]. cbn [fst snd] in *. subst m.
    destruct (IH w1 Hw1) as (w2 & -> & H2). cbn [mbind option_bind]. destruct (a_calls ops (files w1)) as [rs m]. by exists w2.
Qed.

Lemma alias_fits rel : find_alias rel ≠ None → fits rel.
Proof.
  unfold find_alias. destruct (first_index _ alias_table) as [i|] eqn:E; [|done]. intros _.
  apply first_index_Some in E as (a & Ha & Hn%bool_decide_eq_true & _). subst rel. unfold fits, VFS_NODE_NAME_MAX.
  do 4 (destruct i as [|i]; [injection Ha as <-; cbn; lia|]). done.
Qed.

(** A name of 32 characters or more is lost: a write to it takes a free entry and
    succeeds, but stores the data under the first 31 characters, so that a read or a
    removal of the name that was written finds nothing. *)
Theorem long_names_lost ctx rel d mode w :
  files_ok w → ¬ fits rel → (size (files w) < DEVICEFS_MAX_DATA)%nat → files w !! take 31 rel = None →
  files w !! rel = None →
  ∃ r w', devicefs_write w ctx rel (Some d) mode = Some (r, w') ∧ 0 ≤ r ∧
    files w' = <[take 31 rel := take (DEVICEFS_DATA_CAP - 1) d]> (files w) ∧
    (∀ buffer, (0 < length buffer)%nat → devicefs_read driver_read w' ctx rel buffer = Some (-1, buffer, w')) ∧
    devicefs_remove w' ctx rel = Some (-1, w').
Proof.
  intros Hw Hlong Hroom Hfree Hnone. assert (Ha : find_alias rel = None) by (destruct (find_alias rel) eqn:E; [|done]; destruct Hlong; apply alias_fits; by rewrite E).
  assert (Hne : rel ≠ []) by (intros ->; apply Hlong; unfold fits, VFS_NODE_NAME_MAX; simpl; lia).
  destruct (write_cases w ctx rel (Some d) mode (proj1 Hw)) as [(r & E & [[? _]|[(k & Hk & _)|(_ & _ & _ & Hfull)]])|(i & e0 & e & e' & E & _ & _ & Hp & Heo & Hu & Hn & Hc)]; [done|congruence| |].
  { pose proof (Tables.table_free de_used de_name contents (data_of w) (proj2 Hw)) as Hz. rewrite Hfull, (proj1 (proj1 Hw)) in Hz. unfold files in Hroom. lia. }
  pose proof (files_find w rel Hw) as Hf. rewrite Hnone in Hf.
  destruct Hp as (He0 & _ & _ & [(Ef & -> & Hname)|(Ef & Hu0 & Hname & Hcont)]); [rewrite Ef in Hf; cbn in Hf; by rewrite He0 in Hf|].
  assert (Ht : Tables.takes de_used de_name contents (data_of w) i e0 e') by (split; [done|]; split; [done|]; right; split; [done|]; by rewrite Hn, Hname).
  eexists _, _. split; [exact E|]. rewrite Hcont in *. split; [unfold put; cbn; lia|]. set (w' := with_data _ w).
  assert (Hfiles : files w' = <[take 31 rel := take (DEVICEFS_DATA_CAP - 1) d]> (files w)).
  { unfold files, w'. rewrite data_of_with, (Tables.takes_map _ _ _ _ _ _ _ (proj2 Hw) Ht), Hn, Hname, Hc. unfold put. by destruct mode. }
  assert (Hw' : files_ok w') by (split; unfold w'; rewrite data_of_with; [apply entries_ok_insert; [apply Hw|done]|by eapply Tables.takes_unique; [apply Hw|]]).
  assert (Hlost : files w' !! rel = None).
  { rewrite Hfiles, lookup_insert_ne; [done|]. intros El. apply Hlong. unfold fits, VFS_NODE_NAME_MAX. rewrite <- El, length_take. lia. }
  split; [done|]. split; [intros buffer Hb; by rewrite read_refines, Hlost|].
  destruct (node_remove_refines w' ctx rel Hw' Hne Ha) as (w2 & E2 & _). rewrite decide_False in E2 by (rewrite Hlost; by intros [? ?]).
  unfold devicefs_remove in *. rewrite bool_decide_false, Ha in * by done. pose proof (files_find w' rel Hw') as Hz. rewrite Hlost in Hz.
  destruct (find_data_entry rel (data_of w')) as [j|] eqn:Ej; [|done]. apply first_index_Some in Ej as (x & Hx & _). cbn in Hz. by rewrite Hx in Hz.
Qed.

End props.
End DevicefsProps.

Module DevicefsTree.

Import KlogRun Devmgr DevmgrRun Devicefs DevicefsSpec.

(** A world with the RAMFS volumes and what the device file system needs, apart from
    each other. *)
Class DeviceWorld (W Ctx : Type) := {
  dw_ramfs :: Vfs.HasRamfs W Ctx;
  dw_devicefs :: HasDevicefs W;
  devices_of_ramfs r (w : W) : devices_of (Vfs.with_ramfs r w) = devices_of w;
  data_of_ramfs r (w : W) : data_of (Vfs.with_ramfs r w) = data_of w;
  ramfs_of_data l (w : W) : Vfs.ramfs_of (with_data l w) = Vfs.ramfs_of w;
  ramfs_of_devices d (w : W) : Vfs.ramfs_of (with_devices d w) = Vfs.ramfs_of w
}.

Section tree.
Context {W Ctx : Type} {DW : DeviceWorld W Ctx} (driver_read : Z → option (W → list Z → Z * Z * list Z * W)).
Implicit Types (w : W).

Definition device_boot_tree : Vfs.vfs W Ctx := KlogFiles.KlogFiles.boot_tree (devicefs_ops driver_read).

Definition world_ok w : Prop := (∀ id, RamfsSpec.wf (Vfs.get_volume w id)) ∧ entries_ok (data_of w).

Lemma tree_wf : VfsSpec.wf device_boot_tree.
Proof. apply VfsRamfs.boot_vfs_wf. Qed.

Lemma locate_wf path i rel : wf_cstr path → Vfs.locate device_boot_tree path = Some (i, rel) →
  wf_cstr rel ∧ ∃ m, VfsSpec.mounted (Vfs.mount_table device_boot_tree) i m.
Proof.
  intros Hp Hl. destruct (VfsSpec.locate_routes _ path i rel tree_wf Hp Hl) as (m & rs & (Hm & Hd & _) & _ & -> & _). split; [|by exists m].
  apply VfsSpec.join_wf. pose proof (VfsSpec.walk_wf _ (VfsSpec.apply_alias_wf _ path VfsPath.VFS_MAX_PATH tree_wf Hp)) as Hw.
  change (Forall wf_cstr (VfsSpec.destination device_boot_tree path)) in Hw. rewrite Hd in Hw. by apply Forall_app in Hw as [_ ?].
Qed.

Lemma boot_mount i m : VfsSpec.mounted (Vfs.mount_table device_boot_tree) i m →
  (∃ id, Vfs.m_ops m = Some Vfs.ramfs_ops ∧ Vfs.m_ctx m = Vfs.volume_ctx id) ∨ Vfs.m_ops m = Some (devicefs_ops driver_read).
Proof.
  intros [Hi Hu]. cbn [device_boot_tree KlogFiles.KlogFiles.boot_tree VfsRamfs.boot_vfs Vfs.mount_table] in Hi.
  do 6 (destruct i as [|i]; [injection Hi as <-; left; by eexists|]). destruct i as [|i]; [injection Hi as <-; by right|].
  destruct i as [|i]; [by injection Hi as <-|done].
Qed.

Lemma ramfs_frame_world w w' : w' = w ∨ (∃ x, w' = Vfs.with_ramfs x w) → data_of w' = data_of w ∧ devices_of w' = devices_of w.
Proof. intros [->|[x ->]]; [done|]. by rewrite data_of_ramfs, devices_of_ramfs. Qed.

Lemma data_frame_world w w' : w' = w ∨ (∃ l, w' = with_data l w) → devices_of w' = devices_of w ∧ Vfs.ramfs_of w' = Vfs.ramfs_of w.
Proof. intros [->|[x ->]]; [done|]. by rewrite devices_of_data, ramfs_of_data. Qed.

Lemma any_path w path o : world_ok w → wf_cstr path → small o →
  ∃ r w', VfsRamfs.vfs_do device_boot_tree w path o = Some (r, w') ∧ world_ok w' ∧ devices_of w' = devices_of w.
Proof.
  intros [Hv He] Hp Ho. destruct (Vfs.locate device_boot_tree path) as [[i rel]|] eqn:El.
  - destruct (locate_wf path i rel Hp El) as (Hrel & m & Hm). destruct (boot_mount i m Hm) as [(id & Hops & Hctx)|Hops].
    + rewrite (VfsRamfs.vfs_do_call _ w path o i rel m Vfs.ramfs_ops), Hctx by done.
      destruct (VfsRamfs.ramfs_call_refines id w rel o (Hv id)) as (r & w' & E & Hw' & _ & Hj); [by destruct o|].
      destruct (ramfs_frame_world w w' (KlogFiles.KlogFiles.ramfs_frame _ _ _ _ _ _ E)) as [Hd Hdev]. exists r, w'. split; [done|]. split; [|done]. split; [|by rewrite Hd].
      intros j. destruct (Vfs.volume_id_eq_dec j id) as [->|Hne]; [done|]. by rewrite Hj.
    + rewrite (VfsRamfs.vfs_do_call _ w path o i rel m (devicefs_ops driver_read)) by done.
      destruct (call_ok driver_read w (Vfs.m_ctx m) rel o He) as (r & w' & E & Hw' & Hf). destruct (data_frame_world w w' Hf) as [Hdev Hr].
      exists r, w'. split; [done|]. split; [|done]. split; [|done]. intros j. unfold Vfs.get_volume. rewrite Hr. apply Hv.
  - exists (-1), w. split; [|done]. destruct o; cbn [VfsRamfs.vfs_do];
      unfold Vfs.vfs_write_file, Vfs.vfs_append, Vfs.vfs_write_internal, Vfs.vfs_remove, Vfs.vfs_mkdir, Vfs.dispatch; by rewrite El.
Qed.

#[export] Program Instance device_boot_files : DeviceTree device_boot_tree := { tree_inv := world_ok }.
Next Obligation. intros d w [Hv He]. split; [intros id; unfold Vfs.get_volume; rewrite ramfs_of_devices; apply Hv|by rewrite data_of_devices]. Qed.
Next Obligation. intros w path o Hw Hp Ho. by apply any_path. Qed.

End tree.
End DevicefsTree.
