(* ===== verification/Parts.v ===== *)
(** A component as a part of the machine: its state is a part of the world, the machine
    has its log, its kernel and its files beside it.  The lemmas carry the soundness of
    the machine through what a component does to the others: lines for the log, messages
    on channels, changes of its own state. *)

From S2P Require Import Prelude Arrays Bytes Ipc IpcSpec IpcRun Block Klog KlogRun.
From S2P Require Import VfsPath Ramfs RamfsSpec Vfs VfsSpec VfsRamfs KlogFiles.

Module Parts.

Import IpcSpec Klog KlogSpec KlogRun.

(** The state [P] of a component in the world [W]. *)
Class HasPart (W P : Type) := {
  part_of : W → P;
  with_part : P → W → W;
  part_of_with p w : part_of (with_part p w) = p
}.

(** The files of the log return, and leave the part alone. *)
Class PartFiles {W Ctx : Type} (P : Type) {HP : HasPart W P} (v : Vfs.vfs W Ctx) := {
  part_inv : W → Prop;
  part_inv_with (p : P) w : part_inv w → part_inv (with_part p w);
  part_do w path o :
    part_inv w → path ∈ system_paths → small o →
    ∃ r w', VfsRamfs.vfs_do v w path o = Some (r, w') ∧ part_inv w' ∧ part_of w' = part_of w
}.

Section parts.
Context {W Ctx P : Type} {HP : HasPart W P} (v : Vfs.vfs W Ctx) {HF : PartFiles P v} (stack : list Z) (Hstack : length stack = EVENT_SIZE).
Implicit Types (s : machine W Ctx) (p : P).

Definition part s : P := part_of (world s).
Definition set_part p s : machine W Ctx := set_world (with_part p (world s)) s.

(** The files in a world whose part is [p]. *)
#[local] Program Instance files_with p : FilesReturn v := { files_inv w := part_inv w ∧ part_of w = p }.
Next Obligation.
  intros p w path o [Hw <-] Hp Ho. destruct (part_do w path o Hw Hp Ho) as (r & w' & E & Hw' & Hd). eauto 6.
Qed.

(** A sound machine with the part [p]. *)
Definition holds p s : Prop := ∃ t a, @sim W Ctx v (files_with p) t s a.

Lemma holds_part p s : holds p s → part s = p.
Proof. intros (t & a & [Hm _]). by destruct (mo_world _ _ _ Hm). Qed.

Lemma holds_kernel p s : holds p s → kernel_ok (kern s).
Proof. intros (t & a & [Hm _]). apply Hm. Qed.

Lemma holds_set p p' s : holds p s → holds p' (set_part p' s).
Proof.
  intros (t & a & [[? ? ? ? [Hw _]] Hl]). exists t, a. split; [|exact Hl].
  constructor; [done..|]. split; [by apply part_inv_with|apply part_of_with].
Qed.

Lemma part_set p s : part (set_part p s) = p.
Proof. apply part_of_with. Qed.

Lemma holds_set_kern p s k : holds p s → kernel_ok k → holds p (set_kern k s).
Proof. intros (t & a & Hs) Hk. exists t, a. by apply sim_kern. Qed.

Lemma holds_emit p s m l t0 : holds p s → ∃ s', klog_emit_tagged stack m l (Some t0) s = Some s' ∧ holds p s'.
Proof.
  intros (t & a & Hs). destruct (emit_sim v t stack Hstack m l t0 s a Hs) as (s' & E & Hs'). exists s'. split; [done|]. by eexists _, _.
Qed.

End parts.

(** ** The tree at start-up *)

(** A part that lies apart from the RAMFS volumes. *)
Class ApartRamfs (W Ctx P : Type) {HR : Vfs.HasRamfs W Ctx} {HP : HasPart W P} := {
  part_of_ramfs r (w : W) : part_of (Vfs.with_ramfs r w) = part_of w;
  ramfs_of_part (p : P) (w : W) : Vfs.ramfs_of (with_part p w) = Vfs.ramfs_of w
}.

Section boot.
Context {W Ctx P : Type} {HR : Vfs.HasRamfs W Ctx} {HP : HasPart W P} {HA : ApartRamfs W Ctx P} (devicefs_ops : Vfs.vfs_fs_ops W Ctx).

#[export] Program Instance boot_part_files : PartFiles P (KlogFiles.boot_tree devicefs_ops) := {
  part_inv w := RamfsSpec.wf (Vfs.get_volume w Vfs.SystemVolume)
}.
Next Obligation. intros p w Hw. unfold Vfs.get_volume in *. by rewrite ramfs_of_part. Qed.
Next Obligation.
  intros w path o Hw Hp Ho. apply list_elem_of_lookup in Hp as [i Hi].
  destruct (Forall2_lookup_l _ _ _ _ _ (KlogFiles.system_locate devicefs_ops) Hi) as (r & Hr & Hl).
  destruct (KlogFiles.system_do devicefs_ops w path r o Hl) as (rc & w' & E & Hw' & _); [by eapply list_elem_of_lookup_2|done..|].
  exists rc, w'. split; [done|]. split; [done|].
  rewrite (VfsRamfs.vfs_do_call (KlogFiles.boot_tree devicefs_ops) w path o 1 r KlogFiles.system_mount Vfs.ramfs_ops) in E by done.
  destruct (KlogFiles.ramfs_frame _ _ _ _ _ _ E) as [->|[x ->]]; [done|]. apply part_of_ramfs.
Qed.

End boot.

End Parts.
