(* ===== verification/Loader.v ===== *)
(** The module loader (kernel/module.c, module_symbols.c, elf.h): relocatable objects of
    the ELF format are laid out in a block of the heap, linked against the table of
    kernel symbols and entered in the table of modules.

    The image is the list of its bytes, the block of a module the list of its bytes with
    its address.  Every field is read where the code reads it; a read outside the image
    or the block, or a store outside the block, is [None] (the code tests two addresses
    in the image for NULL, which an address inside the image is not).  [run_init] and [run_exit]
    stand for the code of the modules: they get the address of the function and the
    machine.  [address] gives the addresses the linker chose for the kernel's functions,
    [builtin_images] the images the build links into the kernel. *)

From S2P Require Import Prelude Arrays Bytes Ipc Klog Parts.
From S2P Require Vfs Memory.

Module Loader.

Import Bytes Klog Parts.

Definition MODULE_MAX_COUNT : nat := 16.
Definition MODULE_MAX_SYMBOLS : nat := 256.
Definition MODULE_MAX_SECTIONS : nat := 128.
Definition MODULE_NAME_MAX : nat := 32.
Definition MODULE_VERSION_MAX : nat := 32.
Definition MODULE_FLAG_AUTOSTART : Z := 1.
Definition MODULE_EVENT_LOADED : Z := 1.
Definition MODULE_EVENT_UNLOADED : Z := 2.
Definition MODULE_EVENT_INIT_FAILED : Z := 3.
Definition IPC_SERVICE_MODULE_LOADER : Z := 1.
Definition ET_REL : Z := 1.
Definition EM_386 : Z := 3.
Definition EV_CURRENT : Z := 1.
Definition SHT_SYMTAB : Z := 2.
Definition SHT_NOBITS : Z := 8.
Definition SHT_REL : Z := 9.
Definition SHF_ALLOC : Z := 2.
Definition SHN_UNDEF : Z := 0.
Definition R_386_32 : Z := 1.
Definition R_386_PC32 : Z := 2.

(** ** State *)

Record kernel_symbol := Symbol { sy_name : cstring; sy_address : Z }.

(** A module: its description, and the addresses of its functions, 0 when it has none. *)
Record module_handle := Handle {
  h_name : cstring;
  h_version : cstring;
  h_flags : Z;
  h_base : Z;
  h_size : Z;
  h_active : bool;
  h_initialized : bool;
  h_autostart : bool;
  h_builtin : bool;
  h_init : Z;
  h_exit : Z
}.

Definition zero_handle : module_handle := Handle [] [] 0 0 0 false false false false 0 0.

(** With the heap and the blocks taken from it, by address. *)
Record modules := Modules {
  module_table : list module_handle;
  module_count : nat;
  symbol_table : list kernel_symbol;
  module_channel_id : Z;
  heap : Memory.Memory.heap;
  blocks : gmap Z (list Z)
}.

Definition set_handles (l : list module_handle) (n : nat) (m : modules) : modules :=
  Modules l n (symbol_table m) (module_channel_id m) (heap m) (blocks m).
Definition set_symbols (l : list kernel_symbol) (m : modules) : modules :=
  Modules (module_table m) (module_count m) l (module_channel_id m) (heap m) (blocks m).
Definition set_module_channel (c : Z) (m : modules) : modules :=
  Modules (module_table m) (module_count m) (symbol_table m) c (heap m) (blocks m).
Definition set_heap (h : Memory.Memory.heap) (m : modules) : modules :=
  Modules (module_table m) (module_count m) (symbol_table m) (module_channel_id m) h (blocks m).
Definition set_block (base : Z) (mem : list Z) (m : modules) : modules :=
  Modules (module_table m) (module_count m) (symbol_table m) (module_channel_id m) (heap m) (<[base := mem]> (blocks m)).

(** ** Strings and numbers *)

Definition align_up (value alignment : Z) : Z :=
  if alignment <=? 1 then value
  else let mask := alignment -32 1 in Z.land (value +32 mask) (not32 mask).

Definition str_copy (cap : nat) (src : cstring) : cstring := take (cap - 1) src.

(** The bytes from an offset on. *)
Definition from (l : list Z) (off : Z) : list Z := if off <? Z.of_nat (length l) then drop (Z.to_nat off) l else [].

Definition load16 (l : list Z) (off : Z) : option Z := read_le16 (from l off) 0.
Definition load32 (l : list Z) (off : Z) : option Z := read_le32 (from l off) 0.

(** A string in memory, up to its terminator. *)
Fixpoint text (l : list Z) : option cstring :=
  match l with
  | [] => None
  | c :: l' => if c =? 0 then Some [] else cons c <$> text l'
  end.

(** [str_equals] of a string in memory and another string: it reads up to the first
    difference. *)
Fixpoint str_equals (l : list Z) (b : cstring) : option bool :=
  match l, b with
  | [], _ => None
  | c :: l', [] => Some (c =? 0)
  | c :: l', d :: b' => if c =? 0 then Some false else if negb (c =? d) then Some false else str_equals l' b'
  end.

(** At most [n] characters of a string in memory. *)
Fixpoint text_prefix (n : nat) (l : list Z) : option cstring :=
  match l with
  | [] => None
  | c :: l' => if c =? 0 then Some [] else match n with O => Some [] | S n' => cons c <$> text_prefix n' l' end
  end.

(** ** Kernel symbols *)

Fixpoint find_symbol (l : list kernel_symbol) (n : cstring) : option nat :=
  match l with
  | [] => None
  | e :: l' => if bool_decide (sy_name e = n) then Some 0%nat else S <$> find_symbol l' n
  end.

Definition module_register_kernel_symbol (n : option cstring) (addr : Z) (l : list kernel_symbol) : list kernel_symbol :=
  match n with
  | None => l
  | Some n =>
      if addr =? 0 then l
      else match find_symbol l n with
      | Some i => <[i := Symbol n addr]> l
      | None => if (MODULE_MAX_SYMBOLS <=? length l)%nat then l else l ++ [Symbol n addr]
      end
  end.

Definition module_register_kernel_symbols (syms : list kernel_symbol) (l : list kernel_symbol) : list kernel_symbol :=
  fold_left (fun l y => module_register_kernel_symbol (Some (sy_name y)) (sy_address y) l) syms l.

(** The address, 0 for none. *)
Definition module_lookup_kernel_symbol (n : option cstring) (l : list kernel_symbol) : Z :=
  match n with
  | None => 0
  | Some n => match find_symbol l n ≫= (l !!.) with Some e => sy_address e | None => 0 end
  end.

(** The same for a name that is still in memory. *)
Fixpoint lookup_in_memory (name : list Z) (l : list kernel_symbol) : option Z :=
  match l with
  | [] => Some 0
  | e :: l' => same ← str_equals name (sy_name e); if (same : bool) then Some (sy_address e) else lookup_in_memory name l'
  end.

Definition builtin_symbols : list cstring := lit <$> [
  "klog_emit"; "klog_emit_tagged"; "ramfs_write"; "ramfs_read"; "ramfs_write_file"; "ramfs_remove"; "vfs_write"; "vfs_write_file";
  "vfs_read"; "vfs_list"; "vfs_remove"; "vfs_mkdir"; "ipc_send"; "ipc_recv"; "ipc_share"; "ipc_cap_grant"; "ipc_cap_revoke";
  "ipc_cap_query"; "ipc_attach_process"; "ipc_detach_process"; "service_register"; "service_start"; "service_pid";
  "service_grant_capabilities"; "ipc_channel_create"; "ipc_channel_join"; "ipc_channel_leave"; "ipc_channel_send";
  "ipc_channel_receive"; "ipc_get_service_channel"; "process_create"; "process_create_kernel"; "get_ticks"; "pit_init";
  "fat16_ready"; "fat16_type"; "fat16_ls"; "fat16_write_file"; "fat16_append_file"; "fat16_remove"; "fat16_mkdir"; "kb_init";
  "kb_getchar"; "kb_dump_layout"; "process_yield"; "process_sleep"; "vbe_try_load_font_from_fat"; "devmgr_register_device";
  "devmgr_unregister_device"; "devmgr_enumerate"; "devmgr_find"; "devmgr_refresh_ramfs"; "irq_register_shared_handler";
  "irq_unregister_shared_handler"; "irq_mailbox_init"; "irq_mailbox_subscribe"; "irq_mailbox_unsubscribe"; "irq_mailbox_receive";
  "irq_mailbox_peek"; "irq_mailbox_flush"; "syscall_register_handler"; "syscall_unregister_handler"; "syscall_validate_user_buffer";
  "syscall_validate_user_pointer"; "blockdev_register"; "blockdev_read"; "blockdev_write"; "blockdev_find"; "blockdev_enumerate";
  "blockdev_log_devices"; "partition_scan_device"; "partition_autoscan"; "volmgr_volume_count"; "volmgr_volume_at"; "volmgr_rescan";
  "bios_fallback_available"; "bios_fallback_read"; "bios_fallback_write"; "bios_fallback_boot_drive"]%string.

Definition module_register_builtin_symbols (address : cstring → Z) (l : list kernel_symbol) : list kernel_symbol :=
  module_register_kernel_symbols ((fun n => Symbol n (address n)) <$> builtin_symbols) l.

(** ** Objects *)

Section object.
Context (image : list Z).

Definition e_type : option Z := load16 image 16.
Definition e_machine : option Z := load16 image 18.
Definition e_version : option Z := load32 image 20.
Definition e_shoff : option Z := load32 image 32.
Definition e_shnum : option Z := load16 image 48.

Definition check_magic : option bool :=
  a ← image !! 0%nat; b ← image !! 1%nat; c ← image !! 2%nat; d ← image !! 3%nat;
  Some ((a =? 127) && (b =? 69) && (c =? 76) && (d =? 70)).

Definition check_header : option bool :=
  magic ← check_magic; t ← e_type; m ← e_machine; v ← e_version; n ← e_shnum;
  Some (magic && (t =? ET_REL) && (m =? EM_386) && (v =? EV_CURRENT) && negb (n =? 0) && (n <=? Z.of_nat MODULE_MAX_SECTIONS)).

(** Section [i] of the table at [shoff]. *)
Definition section_field (shoff i off : Z) : option Z := load32 image (shoff +32 (i * 40) +32 off).
Definition sh_type (shoff i : Z) : option Z := section_field shoff i 4.
Definition sh_flags (shoff i : Z) : option Z := section_field shoff i 8.
Definition sh_offset (shoff i : Z) : option Z := section_field shoff i 16.
Definition sh_size (shoff i : Z) : option Z := section_field shoff i 20.
Definition sh_link (shoff i : Z) : option Z := section_field shoff i 24.
Definition sh_info (shoff i : Z) : option Z := section_field shoff i 28.
Definition sh_addralign (shoff i : Z) : option Z := section_field shoff i 32.

Definition allocated (shoff i : Z) : option bool := f ← sh_flags shoff i; Some (negb (Z.land f SHF_ALLOC =? 0)).

(** Symbol [i] of the table at [symtab], entry [i] of the relocations at [rels]. *)
Definition st_name (symtab i : Z) : option Z := load32 image (symtab +32 (i * 16)).
Definition st_value (symtab i : Z) : option Z := load32 image (symtab +32 (i * 16) +32 4).
Definition st_shndx (symtab i : Z) : option Z := load16 image (symtab +32 (i * 16) +32 14).
Definition r_offset (rels i : Z) : option Z := load32 image (rels +32 (i * 8)).
Definition r_info (rels i : Z) : option Z := load32 image (rels +32 (i * 8) +32 4).

(** ** Layout *)

(** The offsets of sections [i] on, [n] of them, from [total] on. *)
Fixpoint place_sections (shoff : Z) (n : nat) (i : Z) (offsets : list Z) (total : Z) : option (list Z * Z) :=
  match n with
  | O => Some (offsets, total)
  | S n' =>
      alloc ← allocated shoff i;
      if negb alloc then place_sections shoff n' (i + 1) offsets total
      else
        a ← sh_addralign shoff i;
        let total := align_up total (if a =? 0 then 4 else a) in
        offsets ← buf_store offsets (Z.to_nat i) total;
        size ← sh_size shoff i;
        place_sections shoff n' (i + 1) offsets (total +32 size)
  end.

(** [memcpy] and [memset] into the block; nothing is touched when there is nothing to
    store. *)
Definition store_bytes (mem : list Z) (off size : Z) (data : list Z) : option (list Z) :=
  if size =? 0 then Some mem
  else if Z.of_nat (length mem) <? off + size then None
  else buf_copy mem (Z.to_nat off) data.

Definition image_bytes (off size : Z) : option (list Z) :=
  if size =? 0 then Some []
  else if Z.of_nat (length image) <? off + size then None
  else field image (Z.to_nat off) (Z.to_nat size).

Definition zeros (size : Z) (mem : list Z) : list Z := if Z.of_nat (length mem) <? size then [] else replicate (Z.to_nat size) 0.

(** Whether every section fits, and the block. *)
Fixpoint copy_sections (shoff : Z) (offsets : list Z) (n : nat) (i : Z) (mem : list Z) : option (bool * list Z) :=
  match n with
  | O => Some (true, mem)
  | S n' =>
      alloc ← allocated shoff i;
      if negb alloc then copy_sections shoff offsets n' (i + 1) mem
      else
        dest ← offsets !! Z.to_nat i;
        type ← sh_type shoff i;
        size ← sh_size shoff i;
        if type =? SHT_NOBITS then mem ← store_bytes mem dest size (zeros size mem); copy_sections shoff offsets n' (i + 1) mem
        else
          off ← sh_offset shoff i;
          if Z.of_nat (length image) <? off +32 size then Some (false, mem)
          else
            data ← image_bytes off size;
            mem ← store_bytes mem dest size data;
            copy_sections shoff offsets n' (i + 1) mem
  end.

(** ** Linking *)

Context (base : Z) (offsets : list Z).

Definition offset_of_section (i : Z) : option Z := if Z.of_nat (length offsets) <=? i then None else offsets !! Z.to_nat i.

Definition resolve_symbol_value (symtab i : Z) : option Z :=
  index ← st_shndx symtab i;
  if index =? SHN_UNDEF then Some 0
  else base_offset ← offset_of_section index; value ← st_value symtab i; Some (base +32 base_offset +32 value).

(** Why an object is not linked: it is malformed, a name (as far as it is logged) is not
    known, a relocation is not supported. *)
Inductive link_error := Malformed | Unresolved (name : cstring) | Unsupported.

Definition UNRESOLVED_PREFIX : cstring := lit "module: unresolved symbol ".

(** The address of a symbol, or the name that is not known. *)
Definition symbol_address (symbols : list kernel_symbol) (symtab strtab i : Z) : option (cstring + Z) :=
  index ← st_shndx symtab i;
  if index =? SHN_UNDEF then
    name ← st_name symtab i;
    addr ← lookup_in_memory (from image (strtab +32 name)) symbols;
    if addr =? 0 then n ← text_prefix (63 - length UNRESOLVED_PREFIX) (from image (strtab +32 name)); Some (inl n)
    else Some (inr addr)
  else inr <$> resolve_symbol_value symtab i.

Definition relocate_entry (symbols : list kernel_symbol) (symtab strtab sym_count rels target r : Z) (mem : list Z) : option (option link_error * list Z) :=
  info ← r_info rels r;
  let sym_index := Z.shiftr info 8 in
  let type := u8 info in
  if sym_count <=? sym_index then Some (Some Malformed, mem)
  else
    a ← symbol_address symbols symtab strtab sym_index;
    match a with
    | inl name => Some (Some (Unresolved name), mem)
    | inr sym_addr =>
        off ← r_offset rels r;
        let target_off := target +32 off in
        addend ← load32 mem target_off;
        if type =? R_386_32 then mem ← store_bytes mem target_off 4 (le32 (sym_addr +32 addend)); Some (None, mem)
        else if type =? R_386_PC32 then
          mem ← store_bytes mem target_off 4 (le32 (sym_addr +32 addend -32 (base +32 target_off))); Some (None, mem)
        else Some (Some Unsupported, mem)
    end.

Fixpoint relocate_entries (symbols : list kernel_symbol) (symtab strtab sym_count rels target : Z) (n : nat) (r : Z) (mem : list Z)
    : option (option link_error * list Z) :=
  match n with
  | O => Some (None, mem)
  | S n' =>
      '(e, mem) ← relocate_entry symbols symtab strtab sym_count rels target r mem;
      match e with
      | Some e => Some (Some e, mem)
      | None => relocate_entries symbols symtab strtab sym_count rels target n' (r + 1) mem
      end
  end.

(** The relocations of section [i]. *)
Definition relocate_section (symbols : list kernel_symbol) (shoff count i : Z) (mem : list Z) : option (option link_error * list Z) :=
  info ← sh_info shoff i;
  link ← sh_link shoff i;
  if (count <=? info) || (count <=? link) then Some (Some Malformed, mem)
  else
    type ← sh_type shoff link;
    if negb (type =? SHT_SYMTAB) then Some (Some Malformed, mem)
    else
      symtab ← sh_offset shoff link;
      symtab_size ← sh_size shoff link;
      strings ← sh_link shoff link;
      if count <=? strings then Some (Some Malformed, mem)
      else
        strtab ← sh_offset shoff strings;
        size ← sh_size shoff i;
        rels ← sh_offset shoff i;
        target ← offset_of_section info;
        alloc ← (if target =? 0 then allocated shoff info else Some true);
        if negb alloc then Some (Some Malformed, mem)
        else relocate_entries symbols symtab strtab (symtab_size / 16) rels target (Z.to_nat (size / 8)) 0 mem.

Fixpoint relocate_sections (symbols : list kernel_symbol) (shoff count : Z) (n : nat) (i : Z) (mem : list Z) : option (option link_error * list Z) :=
  match n with
  | O => Some (None, mem)
  | S n' =>
      type ← sh_type shoff i;
      if negb (type =? SHT_REL) then relocate_sections symbols shoff count n' (i + 1) mem
      else
        '(e, mem) ← relocate_section symbols shoff count i mem;
        match e with
        | Some e => Some (Some e, mem)
        | None => relocate_sections symbols shoff count n' (i + 1) mem
        end
  end.

(** ** The description of a module *)

(** The first symbol table: its offset, its number of symbols and the offset of its
    strings; none without a table or strings. *)
Fixpoint find_symtab (shoff count : Z) (n : nat) (i : Z) : option (option (Z * Z * Z)) :=
  match n with
  | O => Some None
  | S n' =>
      type ← sh_type shoff i;
      if negb (type =? SHT_SYMTAB) then find_symtab shoff count n' (i + 1)
      else
        symtab ← sh_offset shoff i;
        size ← sh_size shoff i;
        link ← sh_link shoff i;
        if count <=? link then Some None else strtab ← sh_offset shoff link; Some (Some (symtab, size / 16, strtab))
  end.

(** The value of the first symbol with the name, 0 without one. *)
Fixpoint find_named (wanted : cstring) (symtab strtab : Z) (n : nat) (i : Z) : option Z :=
  match n with
  | O => Some 0
  | S n' =>
      name ← st_name symtab i;
      same ← str_equals (from image (strtab +32 name)) wanted;
      if (same : bool) then resolve_symbol_value symtab i else find_named wanted symtab strtab n' (i + 1)
  end.

Definition find_module_info (symtab strtab : Z) (sym_count : Z) : option Z := find_named (lit "__module_info") symtab strtab (Z.to_nat sym_count) 0.
Definition find_module_init (symtab strtab : Z) (sym_count : Z) : option Z := find_named (lit "module_init") symtab strtab (Z.to_nat sym_count) 0.
Definition find_module_exit (symtab strtab : Z) (sym_count : Z) : option Z := find_named (lit "module_exit") symtab strtab (Z.to_nat sym_count) 0.

End object.

(** ** Loading *)

(** [kalloc_zero]: the zeroes have to fit into the heap. *)
Definition kalloc_zero (size : Z) (h : Memory.Memory.heap) : option (option (Z * list Z) * Memory.Memory.heap) :=
  match Memory.Memory.kalloc h size with
  | (None, h) => Some (None, h)
  | (Some p, h) => if Memory.Memory.heap_end <? p + size then None else Some (Some (p, replicate (Z.to_nat size) 0), h)
  end.

(** The fields of [struct module_info] at an address of the block. *)
Definition info_name (base : Z) (mem : list Z) (addr : Z) : option cstring := text (from mem (addr -32 base)).
Definition info_version (base : Z) (mem : list Z) (addr : Z) : option cstring := text (from mem (addr +32 32 -32 base)).
Definition info_flags (base : Z) (mem : list Z) (addr : Z) : option Z := load32 mem (addr +32 64 -32 base).

(** A handle after its name, and then the rest, have been filled in. *)
Definition named_handle (n : cstring) : module_handle := Handle (str_copy MODULE_NAME_MAX n) [] 0 0 0 false false false false 0 0.

Definition filled_handle (info : cstring * cstring * Z) (base size : Z) (builtin : bool) (init exit : Z) : module_handle :=
  let '(n, v, f) := info in
  Handle (str_copy MODULE_NAME_MAX n) (str_copy MODULE_VERSION_MAX v) f base size false false
    (negb (Z.land f MODULE_FLAG_AUTOSTART =? 0)) builtin init exit.

Definition set_running (active initialized : bool) (h : module_handle) : module_handle :=
  Handle (h_name h) (h_version h) (h_flags h) (h_base h) (h_size h) active initialized (h_autostart h) (h_builtin h) (h_init h) (h_exit h).

Definition loaded (m : modules) : list module_handle := take (module_count m) (module_table m).

Definition module_name_in_use (n : cstring) (m : modules) : bool := existsb (fun h => bool_decide (h_name h = n)) (loaded m).

Definition find_handle (n : cstring) (m : modules) : option nat := first_index (fun h => bool_decide (h_name h = n)) (loaded m).

(** [memmove] of the [n] handles behind handle [i] over it. *)
Definition move_down (i n : nat) (t : list module_handle) : list module_handle :=
  take i t ++ take n (drop (S i) t) ++ drop (i + n) t.

(** [struct module_event], [junk] being what was on the stack. *)
Definition char_array (cap : nat) (n : cstring) (old : list Z) : list Z :=
  let n := str_copy cap n in n ++ 0 :: drop (S (length n)) (take cap old).

Definition module_event (action : Z) (h : module_handle) (result : Z) (junk : list Z) : list Z :=
  [action; u8 (h_flags h); 0; 0] ++ le32 (u32 result) ++ char_array 32 (h_name h) junk ++ char_array 32 (h_version h) (drop 32 junk).

Section loader.
Context {W Ctx : Type} {HM : HasPart W modules} (stack junk offsets0 : list Z).
Context (run_init : Z → machine W Ctx → option (Z * machine W Ctx)) (run_exit : Z → machine W Ctx → option (machine W Ctx)).
Implicit Types s : machine W Ctx.

Definition mods s : modules := part s.
Definition set_mods (m : modules) s : machine W Ctx := set_part m s.

Definition emit_log (l : Z) (prefix name : cstring) s : option (machine W Ctx) :=
  klog_emit stack l (Some (append_text 64 name (append_text 64 prefix []))) s.

Definition module_send_event (action : Z) (h : module_handle) (result : Z) s : option (machine W Ctx) :=
  if negb (Ipc.ipc_is_initialized (kern s)) then Some s
  else
    s ← (if module_channel_id (mods s) <? 0
         then c ← Ipc.ipc_get_service_channel IPC_SERVICE_MODULE_LOADER (kern s); Some (set_mods (set_module_channel c (mods s)) s)
         else Some s);
    if module_channel_id (mods s) <? 0 then Some s
    else
      '(_, k) ← Ipc.ipc_channel_send (module_channel_id (mods s)) 0 action 0 (Some (module_event action h result junk)) 72 0 (kern s);
      Some (set_kern k s).

Definition apply_relocations (image : list Z) (base : Z) (mem offsets : list Z) (shoff count : Z) s : option (Z * list Z * machine W Ctx) :=
  '(e, mem) ← relocate_sections image base offsets (symbol_table (mods s)) shoff count (Z.to_nat count) 0 mem;
  match e with
  | None => Some (0, mem, s)
  | Some Malformed => Some (-1, mem, s)
  | Some (Unresolved name) => s ← emit_log KLOG_ERROR UNRESOLVED_PREFIX name s; Some (-1, mem, s)
  | Some Unsupported =>
      s ← klog_emit_tagged stack (Some (lit "kernel")) KLOG_ERROR (Some (lit "module: unsupported relocation type")) s; Some (-1, mem, s)
  end.

Definition set_handle (i : nat) (h : module_handle) s : option (machine W Ctx) :=
  t ← buf_store (module_table (mods s)) i h; Some (set_mods (set_handles t (module_count (mods s)) (mods s)) s).

(** The start function of the module at index [i]. *)
Definition start_module (i : nat) s : option (machine W Ctx) :=
  h ← module_table (mods s) !! i;
  if negb (h_autostart h && negb (h_init h =? 0)) then Some s
  else
    '(rc, s) ← run_init (h_init h) s;
    h ← module_table (mods s) !! i;
    if rc =? 0 then set_handle i (set_running true true h) s
    else
      s ← emit_log KLOG_ERROR (lit "module: init failed ") (h_name h) s;
      module_send_event MODULE_EVENT_INIT_FAILED h rc s.

(** The entry for a linked object. *)
Definition enter_module (image : list Z) (base total : Z) (mem offsets : list Z) (shoff count : Z) (builtin : bool) s : option (Z * machine W Ctx) :=
  found ← find_symtab image shoff count (Z.to_nat count) 0;
  match found with
  | None => Some (-1, s)
  | Some (symtab, sym_count, strtab) =>
      addr ← find_module_info image base offsets symtab strtab sym_count;
      if addr =? 0 then Some (-1, s)
      else
        n ← info_name base mem addr;
        let i := module_count (mods s) in
        s ← set_handle i (named_handle n) s;
        if module_name_in_use (str_copy MODULE_NAME_MAX n) (mods s) then
          s ← emit_log KLOG_WARN (lit "module: already loaded ") (str_copy MODULE_NAME_MAX n) s;
          s ← set_handle i zero_handle s;
          Some (-1, s)
        else
          version ← info_version base mem addr;
          flags ← info_flags base mem addr;
          init ← find_module_init image base offsets symtab strtab sym_count;
          exit ← find_module_exit image base offsets symtab strtab sym_count;
          let h := filled_handle (n, version, flags) base total builtin init exit in
          s ← set_handle i h s;
          let s := set_mods (set_handles (module_table (mods s)) (S i) (mods s)) s in
          s ← emit_log KLOG_INFO (lit "module: loaded ") (h_name h) s;
          s ← module_send_event MODULE_EVENT_LOADED h 0 s;
          s ← start_module i s;
          Some (0, s)
  end.

Definition load_module_internal (image : option (list Z)) (builtin : bool) s : option (Z * machine W Ctx) :=
  match image with
  | None => Some (-1, s)
  | Some image =>
      if (length image <? 52)%nat then Some (-1, s)
      else if (MODULE_MAX_COUNT <=? module_count (mods s))%nat then Some (-1, s)
      else
        good ← check_header image;
        if negb good then Some (-1, s)
        else
          shoff ← e_shoff image;
          count ← e_shnum image;
          let n := Z.to_nat count in
          '(offsets, total) ← place_sections image shoff n 0 (replicate n 0 ++ drop n offsets0) 0;
          if total =? 0 then Some (-1, s)
          else
            '(p, h) ← kalloc_zero total (heap (mods s));
            let s := set_mods (set_heap h (mods s)) s in
            match p with
            | None => Some (-1, s)
            | Some (base, mem) =>
                '(fits, mem) ← copy_sections image shoff offsets n 0 mem;
                let s := set_mods (set_block base mem (mods s)) s in
                if negb fits then Some (-1, s)
                else
                  '(rc, mem, s) ← apply_relocations image base mem offsets shoff count s;
                  let s := set_mods (set_block base mem (mods s)) s in
                  if negb (rc =? 0) then Some (-1, s)
                  else enter_module image base total mem offsets shoff count builtin s
            end
  end.

Definition module_load_image (image : option (list Z)) (builtin : bool) s : option (Z * machine W Ctx) := load_module_internal image builtin s.

(** ** Unloading, searching, start-up *)

Definition module_unload (n : option cstring) s : option (Z * machine W Ctx) :=
  match n ≫= fun n => find_handle n (mods s) with
  | None => Some (-1, s)
  | Some i =>
      h ← module_table (mods s) !! i;
      if h_builtin h then Some (-1, s)
      else
        s ← (if negb (h_exit h =? 0) && h_active h then run_exit (h_exit h) s else Some s);
        h ← module_table (mods s) !! i;
        let h := set_running false false h in
        s ← set_handle i h s;
        s ← emit_log KLOG_INFO (lit "module: unloaded ") (h_name h) s;
        s ← module_send_event MODULE_EVENT_UNLOADED h 0 s;
        let m := mods s in
        if (module_count m <=? i)%nat then None
        else
          t ← buf_store (move_down i (module_count m - i - 1) (module_table m)) (module_count m - 1) zero_handle;
          Some (0, set_mods (set_handles t (module_count m - 1) m) s)
  end.

(** The index of a module in the table. *)
Definition module_find (n : option cstring) s : option nat := n ≫= fun n => find_handle n (mods s).

Definition module_enumerate (out : bool) (max_count : nat) s : list nat :=
  if negb out || (max_count =? 0)%nat then [] else List.seq 0 (module_count (mods s) `min` max_count).

(** The images of the build, in the order of the code. *)
Fixpoint load_builtin_modules (images : list (list Z)) s : option (machine W Ctx) :=
  match images with
  | [] => Some s
  | image :: images' =>
      if (length image =? 0)%nat then load_builtin_modules images' s
      else '(_, s) ← module_load_image (Some image) true s; load_builtin_modules images' s
  end.

Definition module_system_init (address : cstring → Z) (images : list (list Z)) s : option (machine W Ctx) :=
  let m := mods s in
  let s := set_mods (set_symbols [] (set_handles (module_table m) 0 m)) s in
  s ← (if Ipc.ipc_is_initialized (kern s)
       then c ← Ipc.ipc_get_service_channel IPC_SERVICE_MODULE_LOADER (kern s); Some (set_mods (set_module_channel c (mods s)) s)
       else Some s);
  let s := set_mods (set_symbols (module_register_builtin_symbols address (symbol_table (mods s))) (mods s)) s in
  load_builtin_modules images s.

End loader.

End Loader.
