(* ===== verification/LoaderSpec.v ===== *)
(** What loading a module is to do: a reference linker on the parsed object, with
    unbounded arithmetic and with every test of a bound.  The lemmas show that the
    loader does what the reference linker does, whenever that one accepts the object.

    The loader against the reference linker: symbols, relocations, the description of the
    module. *)

From S2P Require Import Prelude Arrays Bytes Klog Loader.
From S2P Require Memory.

Module LoaderSpec.

Import Bytes Loader.

(** ** Parsed objects *)

Record sect := Sect { s_type : Z; s_flags : Z; s_off : Z; s_size : Z; s_link : Z; s_info : Z; s_align : Z }.
Record sym := Sym { y_name : cstring; y_value : Z; y_shndx : Z }.

(** A word to be changed: its offset in the block, whether it is relative, the address of
    its symbol. *)
Record patch := Patch { p_off : Z; p_relative : bool; p_address : Z }.

Record linked := Linked { l_block : list Z; l_name : cstring; l_version : cstring; l_flags : Z; l_init : Z; l_exit : Z }.

Definition parse_section (image : list Z) (shoff i : Z) : option sect :=
  t ← sh_type image shoff i; f ← sh_flags image shoff i; o ← sh_offset image shoff i; z ← sh_size image shoff i;
  l ← sh_link image shoff i; n ← sh_info image shoff i; a ← sh_addralign image shoff i;
  Some (Sect t f o z l n a).

Definition sections_of (image : list Z) : option (list sect) :=
  shoff ← e_shoff image; count ← e_shnum image; mapM (parse_section image shoff) (seqZ 0 count).

Definition parse_symbol (image : list Z) (symtab strtab i : Z) : option sym :=
  n ← st_name image symtab i; t ← text (from image (strtab +32 n)); v ← st_value image symtab i; x ← st_shndx image symtab i;
  Some (Sym t v x).

(** The symbols of section [k]. *)
Definition symbols_at (image : list Z) (secs : list sect) (k : nat) : option (list sym) :=
  sec ← secs !! k; str ← secs !! Z.to_nat (s_link sec);
  if s_type sec =? SHT_SYMTAB then mapM (parse_symbol image (s_off sec) (s_off str)) (seqZ 0 (s_size sec / 16)) else None.

(** ** Layout *)

Definition s_alloc (sec : sect) : bool := negb (Z.land (s_flags sec) SHF_ALLOC =? 0).
Definition alignment (sec : sect) : Z := if s_align sec =? 0 then 4 else s_align sec.
Definition round_up (x a : Z) : Z := (x + a - 1) / a * a.

(** The offsets of the sections from [total] on, 0 for those that take no memory, and the
    end. *)
Fixpoint layout (secs : list sect) (total : Z) : list Z * Z :=
  match secs with
  | [] => ([], total)
  | sec :: l =>
      if s_alloc sec then
        let off := round_up total (alignment sec) in
        let '(offs, e) := layout l (off + s_size sec) in (off :: offs, e)
      else let '(offs, e) := layout l total in (0 :: offs, e)
  end.

(** The contents of a section. *)
Definition contents (image : list Z) (sec : sect) : list Z :=
  if s_type sec =? SHT_NOBITS then replicate (Z.to_nat (s_size sec)) 0
  else take (Z.to_nat (s_size sec)) (drop (Z.to_nat (s_off sec)) image).

(** The sections in memory, with zeroes between them. *)
Fixpoint placed (image : list Z) (secs : list sect) (total : Z) : list Z :=
  match secs with
  | [] => []
  | sec :: l =>
      if s_alloc sec then
        let off := round_up total (alignment sec) in
        replicate (Z.to_nat (off - total)) 0 ++ contents image sec ++ placed image l (off + s_size sec)
      else placed image l total
  end.

(** Alignments are powers of two, contents are in the image. *)
Definition sect_ok (image : list Z) (sec : sect) : bool :=
  negb (s_alloc sec) ||
  ((alignment sec =? 2 ^ Z.log2 (alignment sec)) && (alignment sec <=? 65536) && (s_size sec <=? Memory.Memory.HEAP_SIZE_BYTES) &&
   ((s_type sec =? SHT_NOBITS) || (s_off sec + s_size sec <=? Z.of_nat (length image)))).

(** ** Relocation *)

(** The address of a symbol: in its section, or in the kernel. *)
Definition sym_address (symbols : list kernel_symbol) (base : Z) (offs : list Z) (y : sym) : option Z :=
  if y_shndx y =? SHN_UNDEF then
    let a := module_lookup_kernel_symbol (Some (y_name y)) symbols in if a =? 0 then None else Some a
  else off ← offs !! Z.to_nat (y_shndx y); Some (u32 (base + off + y_value y)).

(** Entry [r] of the relocations at [rels], for a section at [target] of [size] bytes. *)
Definition patch_at (image : list Z) (symbols : list kernel_symbol) (base : Z) (offs : list Z) (syms : list sym) (target size rels r : Z) : option patch :=
  info ← r_info image rels r;
  off ← r_offset image rels r;
  y ← syms !! Z.to_nat (Z.shiftr info 8);
  a ← sym_address symbols base offs y;
  if (off + 4 <=? size) && ((u8 info =? R_386_32) || (u8 info =? R_386_PC32)) then Some (Patch (target + off) (u8 info =? R_386_PC32) a) else None.

Definition patches_at (image : list Z) (symbols : list kernel_symbol) (base : Z) (offs : list Z) (secs : list sect) (sec : sect) : option (list patch) :=
  if negb (s_type sec =? SHT_REL) then Some []
  else
    syms ← symbols_at image secs (Z.to_nat (s_link sec));
    tsec ← secs !! Z.to_nat (s_info sec);
    target ← offs !! Z.to_nat (s_info sec);
    if negb (s_alloc tsec) then None
    else mapM (patch_at image symbols base offs syms target (s_size tsec) (s_off sec)) (seqZ 0 (s_size sec / 8)).

Definition patches (image : list Z) (symbols : list kernel_symbol) (base : Z) (offs : list Z) (secs : list sect) : option (list patch) :=
  @concat patch <$> mapM (patches_at image symbols base offs secs) secs.

Definition word_at (mem : list Z) (off : Z) : Z := default 0 (load32 mem off).

Definition patch_value (base : Z) (p : patch) (addend : Z) : Z :=
  if p_relative p then u32 (p_address p + addend - (base + p_off p)) else u32 (p_address p + addend).

Definition write_word (mem : list Z) (off v : Z) : list Z := take (Z.to_nat off) mem ++ le32 v ++ drop (Z.to_nat off + 4) mem.

Definition apply_patch (base : Z) (mem : list Z) (p : patch) : list Z := write_word mem (p_off p) (patch_value base p (word_at mem (p_off p))).

Definition patched (base : Z) (ps : list patch) (mem : list Z) : list Z := fold_left (apply_patch base) ps mem.

(** ** The reference linker *)

Definition read_module_info (base : Z) (mem : list Z) (addr : Z) : option (cstring * cstring * Z) :=
  n ← info_name base mem addr; v ← info_version base mem addr; f ← info_flags base mem addr; Some (n, v, f).

Definition symtab_index (secs : list sect) : option nat := first_index (fun sec => s_type sec =? SHT_SYMTAB) secs.

(** The address of a symbol by name: that of the first one, 0 without one. *)
Definition address_of (base : Z) (offs : list Z) (syms : list sym) (n : cstring) : option Z :=
  match first_index (fun y => bool_decide (y_name y = n)) syms with
  | None => Some 0
  | Some i => y ← syms !! i; if y_shndx y =? SHN_UNDEF then Some 0 else off ← offs !! Z.to_nat (y_shndx y); Some (u32 (base + off + y_value y))
  end.

Definition link (image : list Z) (symbols : list kernel_symbol) (base : Z) : option linked :=
  good ← check_header image;
  secs ← sections_of image;
  let '(offs, total) := layout secs 0 in
  if negb (good && (52 <=? length image)%nat && forallb (sect_ok image) secs && (0 <? total) && (total <=? Memory.Memory.HEAP_SIZE_BYTES)) then None
  else
    ps ← patches image symbols base offs secs;
    let block := patched base ps (placed image secs 0) in
    k ← symtab_index secs;
    syms ← symbols_at image secs k;
    info ← address_of base offs syms (lit "__module_info");
    init ← address_of base offs syms (lit "module_init");
    exit ← address_of base offs syms (lit "module_exit");
    '(n, v, f) ← read_module_info base block info;
    if info =? 0 then None else Some (Linked block n v f init exit).

(** ** Reading *)

Section reading.
Context (image : list Z) (Himage : bytes image).

Lemma from_bytes l off : bytes l → bytes (from l off).
Proof. intros. unfold from. case_match; [by apply bytes_drop|constructor]. Qed.

Lemma le32_range l off v : bytes l → read_le32 l off = Some v → 0 ≤ v < 4294967296.
Proof.
  intros Hl H. assert (Hn : (off + 3 < length l)%nat).
  { unfold read_le32 in H. do 3 (apply bind_Some in H as (? & _ & H)). apply bind_Some in H as (? & H & _). by apply lookup_lt_Some in H. }
  exact (returns_eq _ _ _ (returns_le32 l off Hl Hn) H).
Qed.

Lemma le16_range l off v : bytes l → read_le16 l off = Some v → 0 ≤ v < 65536.
Proof.
  intros Hl H. assert (Hn : (off + 1 < length l)%nat).
  { unfold read_le16 in H. apply bind_Some in H as (? & _ & H). apply bind_Some in H as (? & H & _). by apply lookup_lt_Some in H. }
  exact (returns_eq _ _ _ (returns_le16 l off Hl Hn) H).
Qed.

Lemma image_load32_range l off v : bytes l → load32 l off = Some v → 0 ≤ v < 4294967296.
Proof. intros Hl. apply le32_range. by apply from_bytes. Qed.

Lemma image_load16_range l off v : bytes l → load16 l off = Some v → 0 ≤ v < 65536.
Proof. intros Hl. apply le16_range. by apply from_bytes. Qed.

Lemma parse_section_Some shoff i sec :
  parse_section image shoff i = Some sec →
  sh_type image shoff i = Some (s_type sec) ∧ sh_flags image shoff i = Some (s_flags sec) ∧ sh_offset image shoff i = Some (s_off sec) ∧
  sh_size image shoff i = Some (s_size sec) ∧ sh_link image shoff i = Some (s_link sec) ∧ sh_info image shoff i = Some (s_info sec) ∧
  sh_addralign image shoff i = Some (s_align sec).
Proof. unfold parse_section. intros H. repeat (apply bind_Some in H as (? & ? & H)). by injection H as <-. Qed.

(** Its numbers are words. *)
Definition words (sec : sect) : Prop :=
  0 ≤ s_off sec < 4294967296 ∧ 0 ≤ s_size sec < 4294967296 ∧ 0 ≤ s_link sec < 4294967296 ∧ 0 ≤ s_info sec < 4294967296 ∧ 0 ≤ s_align sec < 4294967296.

Lemma parse_section_words shoff i sec : parse_section image shoff i = Some sec → words sec.
Proof. intros (_ & _ & ? & ? & ? & ? & ?)%parse_section_Some. repeat split; by eapply image_load32_range. Qed.

(** The table at [shoff] holds these sections. *)
Definition reads (shoff : Z) (secs : list sect) : Prop := ∀ i sec, secs !! i = Some sec → parse_section image shoff (Z.of_nat i) = Some sec.

Lemma mapM_seqZ {A} (f : Z → option A) n l :
  mapM f (seqZ 0 n) = Some l → length l = Z.to_nat n ∧ ∀ i x, l !! i = Some x → f (Z.of_nat i) = Some x.
Proof.
  intros H%mapM_Some. split; [apply Forall2_length in H; by rewrite <- H, length_seqZ|].
  intros i x Hx. destruct (Forall2_lookup_r _ _ _ _ _ H Hx) as (z & Hz & Hf). apply lookup_seqZ in Hz as [-> _]. by rewrite Z.add_0_l in Hf.
Qed.

Lemma sections_of_reads secs :
  sections_of image = Some secs →
  ∃ shoff count, e_shoff image = Some shoff ∧ e_shnum image = Some count ∧ length secs = Z.to_nat count ∧ reads shoff secs.
Proof.
  unfold sections_of. intros H. apply bind_Some in H as (shoff & ? & H). apply bind_Some in H as (count & ? & [? ?]%mapM_seqZ).
  by exists shoff, count.
Qed.

Lemma reads_alloc shoff secs i sec : reads shoff secs → secs !! i = Some sec → allocated image shoff (Z.of_nat i) = Some (s_alloc sec).
Proof. intros H Hi. apply H, parse_section_Some in Hi as (_ & Hf & _). unfold allocated. by rewrite Hf. Qed.

End reading.

(** ** Layout *)

Lemma round_up_bounds x a : 0 < a → x ≤ round_up x a < x + a.
Proof. intros Ha. unfold round_up. pose proof (Z.div_mod (x + a - 1) a ltac:(lia)). pose proof (Z.mod_pos_bound (x + a - 1) a Ha). lia. Qed.

Lemma align_up_round x a : a = 2 ^ Z.log2 a → a ≤ 65536 → 0 < a → 0 ≤ x ≤ 2097152 → align_up x a = round_up x a.
Proof.
  intros Hp Ha Ha0 Hx. unfold align_up, round_up. destruct (a <=? 1) eqn:E; bool_prop.
  - replace a with 1 by lia. rewrite Z.div_1_r. lia.
  - assert (Hk : 0 ≤ Z.log2 a ≤ 32) by (split; [apply Z.log2_nonneg|]; apply Z.lt_succ_r, Z.log2_lt_pow2; simpl; lia).
    rewrite (u32_small (a - 1)), u32_small by lia. rewrite Hp at 2. rewrite land_not32_mask by lia. rewrite <- Hp.
    pose proof (Z.div_mod (x + (a - 1)) a ltac:(lia)). replace (x + a - 1) with (x + (a - 1)) by lia. lia.
Qed.

Lemma alignment_ok image sec : sect_ok image sec = true → s_alloc sec = true →
  alignment sec = 2 ^ Z.log2 (alignment sec) ∧ 0 < alignment sec ≤ 65536 ∧ s_size sec ≤ Memory.Memory.HEAP_SIZE_BYTES ∧
  (s_type sec = SHT_NOBITS ∨ s_off sec + s_size sec ≤ Z.of_nat (length image)).
Proof.
  unfold sect_ok. intros H Ha. rewrite Ha in H. cbn [negb orb] in H. apply andb_true_iff in H as [H Hd]. apply andb_true_iff in H as [H Hs].
  apply andb_true_iff in H as [H Hl]. bool_prop. repeat split; [done| |lia|lia|destruct Hd; bool_prop; auto with lia].
  rewrite H. apply Z.pow_pos_nonneg; [lia|apply Z.log2_nonneg].
Qed.

Lemma layout_end image l total : forallb (sect_ok image) l = true → Forall words l → total ≤ (layout l total).2.
Proof.
  intros Hok Hw. revert total Hok. induction Hw as [|sec l Hs _ IH]; intros total Hok; cbn [layout]; [done|]. cbn [forallb] in Hok. apply andb_true_iff in Hok as [Ho Hok].
  destruct (s_alloc sec) eqn:Ea.
  - destruct (alignment_ok image sec Ho Ea) as (_ & Ha & _). pose proof (round_up_bounds total (alignment sec) ltac:(lia)).
    specialize (IH (round_up total (alignment sec) + s_size sec) Hok). destruct (layout l _) as [offs e]. cbn [snd] in *. destruct Hs as (_ & ? & _). lia.
  - specialize (IH total Hok). by destruct (layout l total).
Qed.

Lemma layout_length l total : length (layout l total).1 = length l.
Proof.
  revert total. induction l as [|sec l IH]; intros total; [done|]. cbn [layout].
  destruct (s_alloc sec); [specialize (IH (round_up total (alignment sec) + s_size sec))|specialize (IH total)]; destruct (layout l _); simpl in *; by f_equal.
Qed.

Section placing.
Context (image : list Z) (shoff : Z) (secs : list sect).
Context (Himage : bytes image) (Hreads : reads image shoff secs) (Hok : forallb (sect_ok image) secs = true).

Lemma secs_words : Forall words secs.
Proof. apply Forall_lookup. intros i sec Hi. eapply parse_section_words; [done|]. by apply Hreads. Qed.

(** The sections from one of them on. *)
Lemma suffix_facts pre sec l :
  secs = pre ++ sec :: l →
  secs !! length pre = Some sec ∧ words sec ∧ sect_ok image sec = true ∧ forallb (sect_ok image) l = true ∧ Forall words l ∧
  secs = (pre ++ [sec]) ++ l ∧ Z.of_nat (length pre) + 1 = Z.of_nat (length (pre ++ [sec])).
Proof using Himage Hreads Hok.
  intros E. pose proof secs_words as Hw. rewrite E in Hw, Hok. rewrite forallb_app in Hok. cbn [forallb] in Hok. apply andb_true_iff in Hok as [_ Hol]. apply andb_true_iff in Hol as [Ho Hl].
  apply Forall_app in Hw as [_ Hw']. apply Forall_cons in Hw' as [Hw Hwl]. rewrite E. split; [by apply list_lookup_middle|].
  do 4 (split; [done|]). rewrite <- app_assoc. split; [done|]. rewrite length_app. simpl. lia.
Qed.

Lemma place_sections_layout pre l A J total :
  secs = pre ++ l → length A = length pre → 0 ≤ total → (layout l total).2 ≤ Memory.Memory.HEAP_SIZE_BYTES →
  place_sections image shoff (length l) (Z.of_nat (length pre)) (A ++ replicate (length l) 0 ++ J) total =
    Some (A ++ (layout l total).1 ++ J, (layout l total).2).
Proof using Himage Hreads Hok.
  unfold Memory.Memory.HEAP_SIZE_BYTES. revert pre A total. induction l as [|sec l IH]; intros pre A total E HA Ht Hend; [done|].
  destruct (suffix_facts pre sec l E) as (Hi & Hw & Ho & Hol & Hwl & E' & Hnext). cbn [place_sections length layout] in *.
  rewrite (reads_alloc _ _ _ _ _ Hreads Hi). cbn [mbind option_bind]. destruct (s_alloc sec) eqn:Ea; cbn [negb].
  - destruct (alignment_ok image sec Ho Ea) as (Hp & Ha & Hs & _). pose proof (Hreads _ _ Hi) as Hr. apply parse_section_Some in Hr as (_ & _ & _ & Hsz & _ & _ & Hal).
    rewrite Hal, Hsz. cbn [mbind option_bind]. fold (alignment sec). pose proof (round_up_bounds total (alignment sec) ltac:(lia)) as Hb.
    pose proof (layout_end image l (round_up total (alignment sec) + s_size sec) Hol Hwl) as He. destruct Hw as (_ & Hw & _).
    destruct (layout l (round_up total (alignment sec) + s_size sec)) as [offs e] eqn:El. cbn [fst snd] in *.
    rewrite align_up_round by lia. set (off := round_up total (alignment sec)) in *.
    rewrite Nat2Z.id. cbn [replicate app]. rewrite buf_store_ok by (rewrite length_app; simpl; lia). cbn [mbind option_bind].
    rewrite insert_app_r_alt, HA, Nat.sub_diag by lia. cbn [list_insert insert]. rewrite Hnext, u32_small by lia.
    replace (A ++ off :: replicate (length l) 0 ++ J) with ((A ++ [off]) ++ replicate (length l) 0 ++ J) by (by rewrite <- app_assoc).
    rewrite (IH (pre ++ [sec])), El; [cbn [fst snd]; by rewrite <- app_assoc|done|rewrite !length_app; simpl; lia|lia|by rewrite El].
  - rewrite Hnext. cbn [replicate app]. replace (A ++ 0 :: replicate (length l) 0 ++ J) with ((A ++ [0]) ++ replicate (length l) 0 ++ J) by (by rewrite <- app_assoc).
    destruct (layout l total) as [offs e] eqn:El. cbn [fst snd] in *.
    rewrite (IH (pre ++ [sec])), El; [cbn [fst snd]; by rewrite <- app_assoc|done|rewrite !length_app; simpl; lia|lia|by rewrite El].
Qed.

Lemma contents_size sec : words sec → sect_ok image sec = true → s_alloc sec = true → length (contents image sec) = Z.to_nat (s_size sec).
Proof using.
  intros (Ho & Hs & _) Hk Ha. destruct (alignment_ok image sec Hk Ha) as (_ & _ & _ & Hd). unfold contents. destruct (s_type sec =? SHT_NOBITS) eqn:E; [apply length_replicate|].
  bool_prop. destruct Hd as [?|Hd]; [done|]. rewrite length_take, length_drop. lia.
Qed.

Lemma placed_length l total : forallb (sect_ok image) l = true → Forall words l → length (placed image l total) = Z.to_nat ((layout l total).2 - total).
Proof using.
  intros Hk Hw. revert total Hk. induction Hw as [|sec l Hs Hw IH]; intros total Hk; cbn [placed layout]; [simpl; lia|]. cbn [forallb] in Hk. apply andb_true_iff in Hk as [Ho Hk].
  destruct (s_alloc sec) eqn:Ea.
  - destruct (alignment_ok image sec Ho Ea) as (_ & Ha & _). pose proof (round_up_bounds total (alignment sec) ltac:(lia)) as Hb. set (off := round_up total (alignment sec)) in *.
    pose proof (layout_end image l (off + s_size sec) Hk Hw) as He. specialize (IH (off + s_size sec) Hk). destruct (layout l (off + s_size sec)) as [offs e]. cbn [snd] in *.
    rewrite !length_app, length_replicate, contents_size, IH by done. destruct Hs as (_ & ? & _). lia.
  - specialize (IH total Hk). destruct (layout l total). exact IH.
Qed.

(** Storing the contents of a section into zeroes. *)
Lemma store_section P sec total k :
  words sec → sect_ok image sec = true → s_alloc sec = true → length P = Z.to_nat total → 0 ≤ total → s_size sec ≤ k →
  let off := round_up total (alignment sec) in
  store_bytes (P ++ replicate (Z.to_nat (off - total + k)) 0) off (s_size sec) (contents image sec) =
    Some ((P ++ replicate (Z.to_nat (off - total)) 0 ++ contents image sec) ++ replicate (Z.to_nat (k - s_size sec)) 0).
Proof using.
  intros Hw Ho Ha HP Ht Hk off. pose proof (contents_size sec Hw Ho Ha) as Hc. destruct Hw as (_ & Hs & _).
  destruct (alignment_ok image sec Ho Ha) as (_ & Hal & _). pose proof (round_up_bounds total (alignment sec) ltac:(lia)) as Hb. fold off in Hb.
  unfold store_bytes. destruct (s_size sec =? 0) eqn:E; bool_prop.
  - rewrite E in Hc |- *. destruct (contents image sec); [|done]. rewrite app_nil_r, <- app_assoc, <- replicate_add. do 4 f_equal. lia.
  - rewrite length_app, length_replicate, HP. rewrite (proj2 (Z.ltb_ge _ _)) by lia.
    rewrite buf_copy_ok by (rewrite length_app, length_replicate; lia). rewrite Hc, <- !app_assoc. f_equal.
    rewrite take_app_ge, drop_app_ge, HP by lia. rewrite take_replicate, drop_replicate, <- app_assoc. do 2 f_equal; [f_equal; lia|]. do 2 f_equal. lia.
Qed.

Lemma copy_sections_placed pre l P J total :
  secs = pre ++ l → length P = Z.to_nat total → 0 ≤ total → (layout l total).2 ≤ Memory.Memory.HEAP_SIZE_BYTES →
  (∀ A, length A = length pre →
   copy_sections image shoff (A ++ (layout l total).1 ++ J) (length l) (Z.of_nat (length pre)) (P ++ replicate (Z.to_nat ((layout l total).2 - total)) 0) =
    Some (true, P ++ placed image l total)).
Proof using Himage Hreads Hok.
  unfold Memory.Memory.HEAP_SIZE_BYTES. revert pre P total. induction l as [|sec l IH]; intros pre P total E HP Ht Hend A HA.
  { cbn. by rewrite Z.sub_diag. }
  destruct (suffix_facts pre sec l E) as (Hi & Hw & Ho & Hol & Hwl & E' & Hnext). cbn [copy_sections length layout placed] in *.
  rewrite (reads_alloc _ _ _ _ _ Hreads Hi). cbn [mbind option_bind]. destruct (s_alloc sec) eqn:Ea; cbn [negb].
  - pose proof (Hreads _ _ Hi) as Hr. apply parse_section_Some in Hr as (Hty & _ & Hof & Hsz & _).
    destruct (alignment_ok image sec Ho Ea) as (_ & Hal & Hs & Hd). pose proof (round_up_bounds total (alignment sec) ltac:(lia)) as Hb.
    pose proof (store_section P sec total) as Hstore. cbn zeta in Hstore. set (off := round_up total (alignment sec)) in *.
    pose proof (layout_end image l (off + s_size sec) Hol Hwl) as He. pose proof (IH (pre ++ [sec])) as IH'. specialize (IH' (P ++ replicate (Z.to_nat (off - total)) 0 ++ contents image sec) (off + s_size sec) E').
    destruct (layout l (off + s_size sec)) as [offs e] eqn:El. cbn [fst snd] in *. pose proof Hw as (Hwo & Hws & _).
    rewrite Hty, Hsz. rewrite Nat2Z.id, lookup_app_r, HA, Nat.sub_diag by lia. cbn [app lookup list_lookup mbind option_bind].
    specialize (Hstore (e - off) Hw Ho Ea HP Ht ltac:(lia)). replace (off - total + (e - off)) with (e - total) in Hstore by lia.
    assert (Hrest : copy_sections image shoff (A ++ (off :: offs) ++ J) (length l) (Z.of_nat (length pre) + 1) ((P ++ replicate (Z.to_nat (off - total)) 0 ++ contents image sec) ++ replicate (Z.to_nat (e - off - s_size sec)) 0)
      = Some (true, P ++ replicate (Z.to_nat (off - total)) 0 ++ contents image sec ++ placed image l (off + s_size sec))).
    { rewrite Hnext. replace (A ++ (off :: offs) ++ J) with ((A ++ [off]) ++ offs ++ J) by (by rewrite <- app_assoc).
      replace (e - off - s_size sec) with (e - (off + s_size sec)) by lia. rewrite IH'; [by rewrite <- !app_assoc| |lia|lia|rewrite !length_app; simpl; lia].
      rewrite !length_app, length_replicate, contents_size by done. lia. }
    unfold contents in Hstore at 1. destruct (s_type sec =? SHT_NOBITS) eqn:Et.
    + unfold zeros. rewrite length_app, length_replicate, (proj2 (Z.ltb_ge _ _)) by lia. rewrite Hstore. cbn [mbind option_bind]. exact Hrest.
    + bool_prop. destruct Hd as [?|Hd]; [done|]. rewrite Hof. cbn [mbind option_bind].
      destruct (Z.of_nat (length image) <? s_off sec +32 s_size sec) eqn:Ew; [exfalso; bool_prop; pose proof (Z.mod_le (s_off sec + s_size sec) 4294967296 ltac:(lia) ltac:(lia)); unfold u32 in *; lia|].
      assert (Hdata : image_bytes image (s_off sec) (s_size sec) = Some (contents image sec)).
      { unfold image_bytes. pose proof (contents_size sec Hw Ho Ea) as Hc. destruct (s_size sec =? 0) eqn:Ez; bool_prop.
        - rewrite Ez in Hc. by destruct (contents image sec).
        - rewrite (proj2 (Z.ltb_ge _ _)), field_ok by lia. unfold contents. by rewrite (proj2 (Z.eqb_neq _ _)). }
      rewrite Hdata. cbn [mbind option_bind]. unfold contents at 1. rewrite (proj2 (Z.eqb_neq _ _)) by done. rewrite Hstore. cbn [mbind option_bind]. exact Hrest.
  - destruct (layout l total) as [offs e] eqn:El. cbn [fst snd] in *. rewrite Hnext.
    replace (A ++ (0 :: offs) ++ J) with ((A ++ [0]) ++ offs ++ J) by (by rewrite <- app_assoc).
    specialize (IH (pre ++ [sec]) P total E' HP Ht). rewrite El in IH. apply IH; [done|]. rewrite !length_app. simpl. lia.
Qed.

End placing.

(** ** Words *)

Lemma from_small l off : 0 ≤ off ≤ Z.of_nat (length l) → from l off = drop (Z.to_nat off) l.
Proof. intros. unfold from. case_match; bool_prop; [done|]. by rewrite drop_ge by lia. Qed.

Lemma load32_drop l off : 0 ≤ off ≤ Z.of_nat (length l) → load32 l off = read_le32 l (Z.to_nat off).
Proof. intros. unfold load32, read_le32. rewrite from_small, !lookup_drop by done. by rewrite Nat.add_0_r. Qed.

Lemma load32_word mem off : bytes mem → 0 ≤ off → off + 4 ≤ Z.of_nat (length mem) → load32 mem off = Some (word_at mem off).
Proof.
  intros Hb H0 H4. unfold word_at. rewrite load32_drop by lia. destruct (returns_le32 mem (Z.to_nat off) Hb ltac:(lia)) as (v & -> & _). done.
Qed.

Lemma store_word mem off v : 0 ≤ off → off + 4 ≤ Z.of_nat (length mem) → store_bytes mem off 4 (le32 v) = Some (write_word mem off v).
Proof. intros H0 H4. unfold store_bytes, write_word. cbn [Z.eqb]. rewrite (proj2 (Z.ltb_ge _ _)), buf_copy_ok by (simpl; lia). done. Qed.

Lemma write_word_length mem off v : 0 ≤ off → off + 4 ≤ Z.of_nat (length mem) → length (write_word mem off v) = length mem.
Proof. intros H0 H4. unfold write_word. rewrite !length_app, length_take, length_drop. simpl. lia. Qed.

Lemma write_word_bytes mem off v : bytes mem → bytes (write_word mem off v).
Proof. intros. unfold write_word. rewrite !bytes_app. split_and!; [by apply bytes_take|apply le32_bytes|by apply bytes_drop]. Qed.

Lemma write_word_read mem off v : 0 ≤ off → off + 4 ≤ Z.of_nat (length mem) → 0 ≤ v < 4294967296 → load32 (write_word mem off v) off = Some v.
Proof.
  intros H0 H4 Hv. rewrite load32_drop by (rewrite write_word_length; lia). unfold write_word.
  replace (Z.to_nat off) with (length (take (Z.to_nat off) mem)) at 3 by (rewrite length_take; lia). by apply read_le32_app.
Qed.

Lemma write_word_other mem off v j : 0 ≤ off → off + 4 ≤ Z.of_nat (length mem) → ¬ (off ≤ Z.of_nat j < off + 4) → write_word mem off v !! j = mem !! j.
Proof.
  intros H0 H4 Hj. unfold write_word. destruct (decide (j < Z.to_nat off)%nat).
  - rewrite lookup_app_l by (rewrite length_take; lia). by apply lookup_take_lt.
  - rewrite lookup_app_r, length_take by (rewrite length_take; lia). rewrite lookup_app_r by (simpl; lia). rewrite lookup_drop. f_equal. simpl. lia.
Qed.

Lemma write_word_load mem off v off' : 0 ≤ off → off + 4 ≤ Z.of_nat (length mem) → 0 ≤ off' → off' + 4 ≤ Z.of_nat (length mem) →
  off + 4 ≤ off' ∨ off' + 4 ≤ off → load32 (write_word mem off v) off' = load32 mem off'.
Proof.
  intros H0 H4 H0' H4' Hd. rewrite !load32_drop by (rewrite ?write_word_length; lia). unfold read_le32. by rewrite !write_word_other by lia.
Qed.

(** ** Patches *)

(** The word lies in the block. *)
Definition in_block (mem : list Z) (p : patch) : Prop := 0 ≤ p_off p ∧ p_off p + 4 ≤ Z.of_nat (length mem).

Definition apart (p q : patch) : Prop := p_off p + 4 ≤ p_off q ∨ p_off q + 4 ≤ p_off p.

Lemma patch_value_word base p a : 0 ≤ patch_value base p a < 4294967296.
Proof. unfold patch_value. case_match; apply u32_range. Qed.

Lemma apply_patch_length base mem p : in_block mem p → length (apply_patch base mem p) = length mem.
Proof. intros []. by apply write_word_length. Qed.

Lemma patched_length base ps mem : Forall (in_block mem) ps → length (patched base ps mem) = length mem.
Proof.
  revert mem. induction ps as [|p ps IH]; intros mem H; [done|]. apply Forall_cons in H as [Hp H]. unfold patched in *. cbn [fold_left].
  pose proof (apply_patch_length base mem p Hp) as Hl. rewrite IH; [done|]. eapply Forall_impl; [exact H|]. unfold in_block. by rewrite Hl.
Qed.

Lemma patched_bytes base ps mem : bytes mem → bytes (patched base ps mem).
Proof. revert mem. induction ps as [|p ps IH]; intros mem H; [done|]. apply IH. by apply write_word_bytes. Qed.

Lemma patched_app base ps qs mem : patched base (ps ++ qs) mem = patched base qs (patched base ps mem).
Proof. apply fold_left_app. Qed.

(** Bytes outside the patches stay, and so do words apart from them. *)
Lemma patched_other base ps mem j : Forall (in_block mem) ps → Forall (fun p => ¬ (p_off p ≤ Z.of_nat j < p_off p + 4)) ps → patched base ps mem !! j = mem !! j.
Proof.
  revert mem. induction ps as [|p ps IH]; intros mem H Hj; [done|]. apply Forall_cons in H as [Hp H]. apply Forall_cons in Hj as [Hjp Hj]. unfold patched in *. cbn [fold_left].
  pose proof (apply_patch_length base mem p Hp) as Hl. rewrite IH; [|eapply Forall_impl; [exact H|]; unfold in_block; by rewrite Hl|done].
  destruct Hp. by apply write_word_other.
Qed.

Lemma patched_apart base ps mem q : Forall (in_block mem) ps → in_block mem q → Forall (apart q) ps → load32 (patched base ps mem) (p_off q) = load32 mem (p_off q).
Proof.
  revert mem. induction ps as [|p ps IH]; intros mem H Hq Ha; [done|]. apply Forall_cons in H as [Hp H]. apply Forall_cons in Ha as [Hap Ha]. unfold patched in *. cbn [fold_left].
  pose proof (apply_patch_length base mem p Hp) as Hl.
  rewrite IH; [|eapply Forall_impl; [exact H|]; unfold in_block; by rewrite Hl|unfold in_block; by rewrite Hl|done].
  destruct Hp, Hq. apply write_word_load; [done..|]. unfold apart in Hap. lia.
Qed.

(** Patches that are apart from each other can be read as one change: each word gets the
    value computed from what the block held at first. *)
Lemma patched_exact base ps mem i p :
  bytes mem → Forall (in_block mem) ps → (∀ i j p q, ps !! i = Some p → ps !! j = Some q → i ≠ j → apart p q) → ps !! i = Some p →
  load32 (patched base ps mem) (p_off p) = Some (patch_value base p (word_at mem (p_off p))).
Proof.
  intros Hb Hin Hap Hi. rewrite <- (take_drop_middle _ _ _ Hi) in Hin |- *. apply Forall_app in Hin as [H1 H2]. apply Forall_cons in H2 as [Hp H2].
  rewrite patched_app. set (mem1 := patched base (take i ps) mem). assert (Hl : length mem1 = length mem) by by apply patched_length.
  assert (Ha1 : Forall (apart p) (take i ps)).
  { apply Forall_lookup. intros j q Hj. apply lookup_take_Some in Hj as [Hj ?]. eapply Hap; [done..|lia]. }
  assert (Ha2 : Forall (apart p) (drop (S i) ps)).
  { apply Forall_lookup. intros j q Hj. rewrite lookup_drop in Hj. eapply Hap; [done..|lia]. }
  assert (Hw : load32 mem1 (p_off p) = load32 mem (p_off p)) by by apply patched_apart. unfold patched at 1. cbn [fold_left]. fold (patched base (drop (S i) ps) (apply_patch base mem1 p)).
  assert (Hp1 : in_block mem1 p) by (unfold in_block; by rewrite Hl). pose proof (apply_patch_length base mem1 p Hp1) as Hl2.
  rewrite patched_apart; [|eapply Forall_impl; [exact H2|]; unfold in_block; by rewrite Hl2, Hl|unfold in_block; by rewrite Hl2, Hl|done].
  unfold apply_patch. destruct Hp1. rewrite write_word_read; [|done..|apply patch_value_word]. unfold word_at. by rewrite Hw.
Qed.

End LoaderSpec.

Module LoaderLink.

Import Bytes Loader LoaderSpec.

(** ** Names *)

Lemma str_equals_text l t b : text l = Some t → wf_cstr b → str_equals l b = Some (bool_decide (t = b)).
Proof.
  revert t b. induction l as [|c l IH]; intros t b H Hb; [done|]. cbn [text] in H. destruct (c =? 0) eqn:E; bool_prop.
  - injection H as <-. subst c. by destruct b.
  - apply fmap_Some in H as (t' & H & ->). destruct b as [|d b]; cbn [str_equals].
    + by rewrite (proj2 (Z.eqb_neq _ _)) by done.
    + apply Forall_cons in Hb as [Hd Hb]. rewrite (proj2 (Z.eqb_neq c 0)) by done. destruct (c =? d) eqn:Ed; cbn [negb]; bool_prop.
      * rewrite (IH t' b) by done. subst d. f_equal. apply bool_decide_ext. naive_solver.
      * rewrite bool_decide_false; [done|]. congruence.
Qed.

Definition symbols_ok (symbols : list kernel_symbol) : Prop := Forall (fun y => wf_cstr (sy_name y)) symbols.

Lemma lookup_in_memory_text l t symbols : text l = Some t → symbols_ok symbols → lookup_in_memory l symbols = Some (module_lookup_kernel_symbol (Some t) symbols).
Proof.
  intros Ht. induction symbols as [|e symbols IH]; intros H; [done|]. apply Forall_cons in H as [He H]. cbn [lookup_in_memory].
  rewrite (str_equals_text l t) by done. cbn [mbind option_bind module_lookup_kernel_symbol find_symbol]. destruct (decide (t = sy_name e)) as [->|Hne].
  - by rewrite !bool_decide_true.
  - rewrite !bool_decide_false by congruence. rewrite (IH H). cbn [module_lookup_kernel_symbol]. by destruct (find_symbol symbols t).
Qed.

Lemma parse_symbol_Some image symtab strtab i y :
  parse_symbol image symtab strtab i = Some y →
  ∃ n, st_name image symtab i = Some n ∧ text (from image (strtab +32 n)) = Some (y_name y) ∧ st_value image symtab i = Some (y_value y) ∧
    st_shndx image symtab i = Some (y_shndx y).
Proof. unfold parse_symbol. intros H. repeat (apply bind_Some in H as (? & ? & H)). injection H as <-. eauto 6. Qed.

Lemma layout_fits image secs total k sec off :
  forallb (sect_ok image) secs = true → Forall words secs → secs !! k = Some sec → s_alloc sec = true → (layout secs total).1 !! k = Some off →
  total ≤ off ∧ off + s_size sec ≤ (layout secs total).2.
Proof.
  intros Hok Hw. revert total k Hok. induction Hw as [|x l Hx Hw IH]; intros total k Hok Hk Ha Ho; [done|]. cbn [forallb layout] in *. apply andb_true_iff in Hok as [Hxo Hok].
  destruct (s_alloc x) eqn:Ea.
  - destruct (alignment_ok image x Hxo Ea) as (_ & Hal & _). pose proof (round_up_bounds total (alignment x) ltac:(lia)) as Hb. set (o := round_up total (alignment x)) in *.
    pose proof (layout_end image l (o + s_size x) Hok Hw) as He. specialize (IH (o + s_size x)). destruct (layout l (o + s_size x)) as [offs e]. cbn [fst snd] in *.
    destruct Hx as (_ & ? & _). destruct k as [|k]; [cbn in Hk, Ho; simplify_eq; lia|]. specialize (IH k Hok Hk Ha Ho). lia.
  - specialize (IH total). destruct (layout l total) as [offs e]. cbn [fst snd] in *. destruct k as [|k]; [cbn in Hk; congruence|]. by apply (IH k).
Qed.

(** ** Relocation *)

Section linking.
Context (image : list Z) (shoff count base : Z) (secs : list sect) (symbols : list kernel_symbol) (J : list Z).
Context (Himage : bytes image) (Hreads : reads image shoff secs) (Hlen : length secs = Z.to_nat count) (Hok : forallb (sect_ok image) secs = true).
Context (Hsymbols : symbols_ok symbols) (Htotal : (layout secs 0).2 ≤ Memory.Memory.HEAP_SIZE_BYTES).

Abbreviation offs := ((layout secs 0).1).

Lemma offset_lookup (i : Z) off : 0 ≤ i → offs !! Z.to_nat i = Some off → offset_of_section (offs ++ J) i = Some off.
Proof.
  intros Hi H. pose proof (lookup_lt_Some _ _ _ H) as Hlt. unfold offset_of_section. rewrite length_app. rewrite (proj2 (Z.leb_gt _ _)) by lia. by rewrite lookup_app_l by done.
Qed.

Lemma resolve_ok symtab strtab i y off :
  parse_symbol image symtab strtab i = Some y → y_shndx y ≠ SHN_UNDEF → offs !! Z.to_nat (y_shndx y) = Some off →
  resolve_symbol_value image base (offs ++ J) symtab i = Some (u32 (base + off + y_value y)).
Proof.
  intros (n & _ & _ & Hv & Hx)%parse_symbol_Some Hne Ho. unfold resolve_symbol_value. rewrite Hx. cbn [mbind option_bind]. rewrite (proj2 (Z.eqb_neq _ _)) by done.
  rewrite (offset_lookup _ off), Hv by (done || eapply image_load16_range; done). cbn [mbind option_bind]. f_equal. unfold u32. by rewrite Zplus_mod_idemp_l.
Qed.

Lemma symbol_address_ok symtab strtab i y a :
  parse_symbol image symtab strtab i = Some y → sym_address symbols base offs y = Some a →
  symbol_address image base (offs ++ J) symbols symtab strtab i = Some (inr a).
Proof.
  intros Hy Ha. pose proof (parse_symbol_Some _ _ _ _ _ Hy) as (n & Hn & Ht & _ & Hx). unfold symbol_address, sym_address in *. rewrite Hx. cbn [mbind option_bind].
  destruct (y_shndx y =? SHN_UNDEF) eqn:E; bool_prop.
  - rewrite Hn. cbn [mbind option_bind]. rewrite (lookup_in_memory_text _ _ _ Ht Hsymbols). cbn [mbind option_bind]. cbn zeta in Ha. by case_match; simplify_eq.
  - apply bind_Some in Ha as (off & Ho & [= <-]). by rewrite (resolve_ok _ _ _ _ _ Hy E Ho).
Qed.

Definition symbols_read (symtab strtab : Z) (syms : list sym) : Prop := ∀ i y, syms !! i = Some y → parse_symbol image symtab strtab (Z.of_nat i) = Some y.

Lemma relocate_entry_ok symtab strtab n syms target size rels r mem p :
  symbols_read symtab strtab syms → length syms = Z.to_nat n → patch_at image symbols base offs syms target size rels r = Some p →
  bytes mem → 0 ≤ target → target + size ≤ Z.of_nat (length mem) → Z.of_nat (length mem) ≤ Memory.Memory.HEAP_SIZE_BYTES →
  relocate_entry image base (offs ++ J) symbols symtab strtab n rels target r mem = Some (None, apply_patch base mem p) ∧ in_block mem p.
Proof.
  unfold Memory.Memory.HEAP_SIZE_BYTES. intros Hsyms Hn Hp Hb Ht Hfit Hheap. unfold patch_at in Hp. apply bind_Some in Hp as (info & Hinfo & Hp). apply bind_Some in Hp as (off & Hoff & Hp).
  apply bind_Some in Hp as (y & Hy & Hp). apply bind_Some in Hp as (a & Ha & Hp). destruct (_ && _) eqn:E; [|done]. injection Hp as <-. apply andb_true_iff in E as [E Ety]. bool_prop.
  pose proof (image_load32_range _ _ _ Himage Hinfo) as Hri. pose proof (image_load32_range _ _ _ Himage Hoff) as Hro. pose proof (lookup_lt_Some _ _ _ Hy) as Hlt.
  assert (Hsh : 0 ≤ Z.shiftr info 8) by (apply Z.shiftr_nonneg; lia). unfold relocate_entry. rewrite Hinfo. cbn [mbind option_bind].
  rewrite (proj2 (Z.leb_gt _ _)) by lia. pose proof (Hsyms _ _ Hy) as Hparse. rewrite Z2Nat.id in Hparse by done.
  rewrite (symbol_address_ok _ _ _ _ _ Hparse Ha), Hoff. cbn [mbind option_bind]. rewrite u32_small by lia.
  assert (Hin : in_block mem (Patch (target + off) (u8 info =? R_386_PC32) a)) by (unfold in_block; cbn; lia). destruct Hin as [Hin0 Hin4]. cbn [p_off] in *.
  split; [|done]. rewrite load32_word by (done || lia). cbn [mbind option_bind]. unfold apply_patch, patch_value. cbn [p_off p_relative p_address].
  destruct (u8 info =? R_386_32) eqn:E1; bool_prop.
  - rewrite store_word by lia. cbn [mbind option_bind]. rewrite E1. done.
  - destruct Ety as [?|E2]; [by bool_prop|]. rewrite E2, store_word by lia. cbn [mbind option_bind]. do 3 f_equal. unfold u32. rewrite Zminus_mod_idemp_l, Zminus_mod_idemp_r. done.
Qed.

Lemma relocate_entries_ok symtab strtab n syms target size rels mem ps r :
  symbols_read symtab strtab syms → length syms = Z.to_nat n → (∀ k p, ps !! k = Some p → patch_at image symbols base offs syms target size rels (r + Z.of_nat k) = Some p) →
  bytes mem → 0 ≤ target → target + size ≤ Z.of_nat (length mem) → Z.of_nat (length mem) ≤ Memory.Memory.HEAP_SIZE_BYTES →
  relocate_entries image base (offs ++ J) symbols symtab strtab n rels target (length ps) r mem = Some (None, patched base ps mem) ∧ Forall (in_block mem) ps.
Proof.
  intros Hsyms Hn Hps Hb Ht Hfit Hheap. revert mem r Hps Hb Hfit Hheap. induction ps as [|p ps IH]; intros mem r Hps Hb Hfit Hheap; [done|]. cbn [relocate_entries length].
  pose proof (Hps 0%nat p eq_refl) as Hp. rewrite Z.add_0_r in Hp.
  destruct (relocate_entry_ok symtab strtab n syms target size rels r mem p) as [-> Hin]; [done..|]. cbn [mbind option_bind].
  pose proof (apply_patch_length base mem p Hin) as Hl. destruct (IH (apply_patch base mem p) (r + 1)) as [-> Hall]; [|by apply write_word_bytes|by rewrite Hl..|].
  - intros k q Hk. specialize (Hps (S k) q Hk). by replace (r + 1 + Z.of_nat k) with (r + Z.of_nat (S k)) by lia.
  - split; [done|]. constructor; [done|]. eapply Forall_impl; [exact Hall|]. unfold in_block. by rewrite Hl.
Qed.

Lemma symbols_at_read k syms : symbols_at image secs k = Some syms →
  ∃ sec str, secs !! k = Some sec ∧ secs !! Z.to_nat (s_link sec) = Some str ∧ s_type sec = SHT_SYMTAB ∧ length syms = Z.to_nat (s_size sec / 16) ∧
    symbols_read (s_off sec) (s_off str) syms.
Proof.
  unfold symbols_at. intros H. apply bind_Some in H as (sec & Hsec & H). apply bind_Some in H as (str & Hstr & H). case_match; bool_prop; [|done].
  apply mapM_seqZ in H as [? ?]. by exists sec, str.
Qed.

(** A section read at an index of 32 bits. *)
Lemma read_at (k : Z) sec : 0 ≤ k → secs !! Z.to_nat k = Some sec →
  k < count ∧ sh_type image shoff k = Some (s_type sec) ∧ sh_offset image shoff k = Some (s_off sec) ∧ sh_size image shoff k = Some (s_size sec) ∧
  sh_link image shoff k = Some (s_link sec) ∧ sh_info image shoff k = Some (s_info sec) ∧ allocated image shoff k = Some (s_alloc sec).
Proof.
  intros Hk H. pose proof (lookup_lt_Some _ _ _ H). pose proof (reads_alloc _ _ _ _ _ Hreads H) as Ha. apply Hreads in H. rewrite Z2Nat.id in * by done.
  apply parse_section_Some in H as (? & ? & ? & ? & ? & ? & ?). split; [lia|]. done.
Qed.

Lemma relocate_section_ok i sec ps mem :
  secs !! i = Some sec → s_type sec = SHT_REL → patches_at image symbols base offs secs sec = Some ps →
  bytes mem → length mem = Z.to_nat (layout secs 0).2 →
  relocate_section image base (offs ++ J) symbols shoff count (Z.of_nat i) mem = Some (None, patched base ps mem) ∧ Forall (in_block mem) ps.
Proof.
  intros Hi Hty Hps Hb Hl. unfold patches_at in Hps. rewrite Hty in Hps. cbn [Z.eqb negb] in Hps. change (negb (SHT_REL =? SHT_REL)) with false in Hps. cbn iota in Hps.
  apply bind_Some in Hps as (syms & Hsyms & Hps). apply bind_Some in Hps as (tsec & Htsec & Hps). apply bind_Some in Hps as (target & Htarget & Hps).
  destruct (s_alloc tsec) eqn:Ea; [|done]. cbn [negb] in Hps. apply mapM_seqZ in Hps as [Hn Hps].
  pose proof (secs_words image shoff secs Himage Hreads) as Hw. pose proof (Forall_lookup_1 _ _ _ _ Hw Hi) as (_ & Hws & Hwl & Hwi & _).
  destruct (symbols_at_read _ _ Hsyms) as (sec' & str & Hs' & Hstr & Hty' & Hsn & Hread). pose proof (Forall_lookup_1 _ _ _ _ Hw Hs') as (_ & _ & Hwl' & _).
  destruct (layout_fits image secs 0 _ _ _ Hok Hw Htsec Ea Htarget) as [Ht Hfit]. pose proof (Forall_lookup_1 _ _ _ _ Hw Htsec) as (_ & Hwt & _).
  destruct (read_at (Z.of_nat i) sec ltac:(lia) ltac:(by rewrite Nat2Z.id)) as (_ & _ & Hof & Hsz & Hlk & Hin & _).
  destruct (read_at (s_link sec) sec' ltac:(lia) Hs') as (Hlt & Hty2 & Hof2 & Hsz2 & Hlk2 & _).
  destruct (read_at (s_link sec') str ltac:(lia) Hstr) as (Hlt3 & _ & Hof3 & _).
  destruct (read_at (s_info sec) tsec ltac:(lia) Htsec) as (Hlt4 & _ & _ & _ & _ & _ & Hal). rewrite Ea in Hal.
  unfold relocate_section. rewrite Hin, Hlk. cbn [mbind option_bind]. rewrite !(proj2 (Z.leb_gt _ _)) by lia. cbn [orb]. rewrite Hty2, Hty'. cbn [mbind option_bind].
  change (negb (SHT_SYMTAB =? SHT_SYMTAB)) with false. cbn iota. rewrite Hof2, Hsz2, Hlk2. cbn [mbind option_bind]. rewrite (proj2 (Z.leb_gt _ _)) by lia.
  rewrite Hof3, Hsz, Hof, (offset_lookup _ target), Hal by (done || lia). cbn [mbind option_bind].
  replace (if target =? 0 then Some true else Some true) with (Some true) by (by case_match). cbn [mbind option_bind negb]. rewrite <- Hn.
  eapply (relocate_entries_ok _ _ _ syms); [done|done|intros k p Hk; by rewrite Z.add_0_l; apply Hps|done|done|lia|lia].
Qed.

Lemma relocate_sections_ok pre l pss mem :
  secs = pre ++ l → mapM (patches_at image symbols base offs secs) l = Some pss → bytes mem → length mem = Z.to_nat (layout secs 0).2 →
  relocate_sections image base (offs ++ J) symbols shoff count (length l) (Z.of_nat (length pre)) mem = Some (None, patched base (concat pss) mem) ∧
  Forall (in_block mem) (concat pss).
Proof.
  revert pre pss mem. induction l as [|sec l IH]; intros pre pss mem E Hps Hb Hl; [cbn in Hps; by injection Hps as <-|].
  cbn [mapM] in Hps. apply bind_Some in Hps as (ps & Hp & Hps). apply bind_Some in Hps as (pss' & Hps & Hs). injection Hs as <-.
  assert (Hi : secs !! length pre = Some sec) by (rewrite E; by apply list_lookup_middle). assert (E' : secs = (pre ++ [sec]) ++ l) by (by rewrite <- app_assoc).
  assert (Hnext : Z.of_nat (length pre) + 1 = Z.of_nat (length (pre ++ [sec]))) by (rewrite length_app; simpl; lia).
  cbn [relocate_sections length concat]. destruct (read_at (Z.of_nat (length pre)) sec ltac:(lia) ltac:(by rewrite Nat2Z.id)) as (_ & Hty & _). rewrite Hty, Hnext. cbn [mbind option_bind].
  destruct (s_type sec =? SHT_REL) eqn:Et; cbn [negb]; bool_prop.
  - destruct (relocate_section_ok _ sec ps mem Hi Et Hp Hb Hl) as [-> Hin]. cbn [mbind option_bind]. pose proof (patched_length base ps mem Hin) as Hl'.
    destruct (IH (pre ++ [sec]) pss' (patched base ps mem) E' Hps ltac:(by apply patched_bytes) ltac:(congruence)) as [-> Hin'].
    rewrite patched_app. split; [done|]. apply Forall_app. split; [done|]. eapply Forall_impl; [exact Hin'|]. unfold in_block. by rewrite Hl'.
  - unfold patches_at in Hp. rewrite (proj2 (Z.eqb_neq _ _)) in Hp by done. injection Hp as <-. by apply IH.
Qed.

(** ** Named symbols *)

Lemma find_symtab_ok pre l k syms sec str :
  secs = pre ++ l → first_index (fun sec => s_type sec =? SHT_SYMTAB) l = Some k → l !! k = Some sec →
  secs !! Z.to_nat (s_link sec) = Some str → s_type sec = SHT_SYMTAB → symbols_read (s_off sec) (s_off str) syms →
  find_symtab image shoff count (length l) (Z.of_nat (length pre)) = Some (Some (s_off sec, s_size sec / 16, s_off str)).
Proof.
  intros E Hk Hl Hstr Hty Hread. revert pre k E Hk Hl. induction l as [|x l IH]; intros pre k E Hk Hl; [done|].
  assert (Hi : secs !! length pre = Some x) by (rewrite E; by apply list_lookup_middle). assert (E' : secs = (pre ++ [x]) ++ l) by (by rewrite <- app_assoc).
  assert (Hnext : Z.of_nat (length pre) + 1 = Z.of_nat (length (pre ++ [x]))) by (rewrite length_app; simpl; lia).
  destruct (read_at (Z.of_nat (length pre)) x ltac:(lia) ltac:(by rewrite Nat2Z.id)) as (_ & Hx & Hof & Hsz & Hlk & _).
  cbn [find_symtab length first_index] in *. rewrite Hx, Hnext. cbn [mbind option_bind]. destruct (s_type x =? SHT_SYMTAB) eqn:Et; cbn [negb].
  - injection Hk as <-. cbn in Hl. injection Hl as ->. pose proof (secs_words image shoff secs Himage Hreads) as Hw. pose proof (Forall_lookup_1 _ _ _ _ Hw Hi) as (_ & _ & Hwl & _).
    destruct (read_at (s_link sec) str ltac:(lia) Hstr) as (Hlt & _ & Hos & _). rewrite Hof, Hsz, Hlk. cbn [mbind option_bind]. rewrite (proj2 (Z.leb_gt _ _)) by lia. by rewrite Hos.
  - apply fmap_Some in Hk as (k' & Hk & ->). by apply (IH (pre ++ [x]) k').
Qed.

Lemma find_named_ok wanted symtab strtab syms a i l :
  wf_cstr wanted → symbols_read symtab strtab syms → drop i syms = l → address_of base offs l wanted = Some a →
  find_named image base (offs ++ J) wanted symtab strtab (length l) (Z.of_nat i) = Some a.
Proof.
  intros Hwf Hread. revert i. induction l as [|y l IH]; intros i Hd Ha; [by injection Ha as <-|].
  assert (Hy : syms !! i = Some y) by (by rewrite <- (Nat.add_0_r i), <- lookup_drop, Hd). pose proof (Hread _ _ Hy) as Hp.
  destruct (parse_symbol_Some _ _ _ _ _ Hp) as (n & Hn & Ht & _ & Hx). cbn [find_named length]. rewrite Hn. cbn [mbind option_bind].
  rewrite (str_equals_text _ _ _ Ht Hwf). cbn [mbind option_bind]. unfold address_of in Ha. cbn [first_index] in Ha. destruct (bool_decide (y_name y = wanted)) eqn:Eb.
  - cbn in Ha. destruct (y_shndx y =? SHN_UNDEF) eqn:Ex.
    + unfold resolve_symbol_value. rewrite Hx. cbn [mbind option_bind]. by rewrite Ex.
    + bool_prop. apply bind_Some in Ha as (off & Ho & [= <-]). by eapply resolve_ok.
  - replace (Z.of_nat i + 1) with (Z.of_nat (S i)) by lia. apply IH; [by rewrite <- skipn_skipn with (x := 1%nat), Hd|]. unfold address_of.
    by destruct (first_index _ l).
Qed.

End linking.

(** ** What an accepted object becomes *)

(** The steps of the loader up to the entry in the table. *)
Record loads (image offsets0 : list Z) (symbols : list kernel_symbol) (base : Z) (L : linked) (shoff count total symtab sym_count strtab info : Z)
    (offsets mem : list Z) : Prop := {
  ld_size : (52 ≤ length image)%nat;
  ld_header : check_header image = Some true;
  ld_shoff : e_shoff image = Some shoff;
  ld_shnum : e_shnum image = Some count;
  ld_total : 0 < total ≤ Memory.Memory.HEAP_SIZE_BYTES;
  ld_place : place_sections image shoff (Z.to_nat count) 0 (replicate (Z.to_nat count) 0 ++ drop (Z.to_nat count) offsets0) 0 = Some (offsets, total);
  ld_copy : copy_sections image shoff offsets (Z.to_nat count) 0 (replicate (Z.to_nat total) 0) = Some (true, mem);
  ld_relocate : relocate_sections image base offsets symbols shoff count (Z.to_nat count) 0 mem = Some (None, l_block L);
  ld_length : Z.of_nat (length (l_block L)) = total;
  ld_symtab : find_symtab image shoff count (Z.to_nat count) 0 = Some (Some (symtab, sym_count, strtab));
  ld_info : find_module_info image base offsets symtab strtab sym_count = Some info;
  ld_found : info ≠ 0;
  ld_read : read_module_info base (l_block L) info = Some (l_name L, l_version L, l_flags L);
  ld_init : find_module_init image base offsets symtab strtab sym_count = Some (l_init L);
  ld_exit : find_module_exit image base offsets symtab strtab sym_count = Some (l_exit L)
}.

Lemma placed_bytes image secs total : bytes image → bytes (placed image secs total).
Proof.
  intros Hi. revert total. induction secs as [|sec l IH]; intros total; cbn [placed]; [constructor|]. destruct (s_alloc sec); [|apply IH]. rewrite !bytes_app.
  split_and!; [apply bytes_replicate; unfold byte; lia| |apply IH]. unfold contents. case_match; [apply bytes_replicate; unfold byte; lia|]. by apply bytes_take, bytes_drop.
Qed.

Lemma link_loads image offsets0 symbols base L :
  bytes image → symbols_ok symbols → link image symbols base = Some L →
  ∃ shoff count total symtab sym_count strtab info offsets mem, loads image offsets0 symbols base L shoff count total symtab sym_count strtab info offsets mem.
Proof.
  intros Hi Hsy H. unfold link in H. apply bind_Some in H as (good & Hgood & H). apply bind_Some in H as (secs & Hsecs & H).
  destruct (sections_of_reads image secs Hsecs) as (shoff & count & Hshoff & Hcount & Hlen & Hreads). pose proof (secs_words image shoff secs Hi Hreads) as Hw.
  destruct (layout secs 0) as [offs total] eqn:El. destruct (negb _) eqn:Eg; [done|]. apply negb_false_iff in Eg. do 4 (apply andb_true_iff in Eg as [Eg ?]). bool_prop. subst good.
  apply bind_Some in H as (ps & Hps & H). apply bind_Some in H as (k & Hk & H). apply bind_Some in H as (syms & Hsyms & H). apply bind_Some in H as (info & Hinfo & H).
  apply bind_Some in H as (init & Hinit & H). apply bind_Some in H as (exit & Hexit & H). apply bind_Some in H as ([[n v] f] & Hread & H). destruct (info =? 0) eqn:E0; bool_prop; [done|].
  injection H as <-. apply fmap_Some in Hps as (pss & Hps & ->). destruct (symbols_at_read image secs k syms Hsyms) as (sec & str & Hsec & Hstr & Hty & Hn & Hsr).
  set (J := drop (Z.to_nat count) offsets0). assert (Ht : (layout secs 0).2 = total) by by rewrite El. assert (Ho : (layout secs 0).1 = offs) by by rewrite El.
  assert (Hpl : length (placed image secs 0) = Z.to_nat total) by (rewrite placed_length, Ht by done; f_equal; lia).
  destruct (relocate_sections_ok image shoff count base secs symbols J Hi Hreads Hlen ltac:(done) Hsy ltac:(by rewrite Ht) [] secs pss (placed image secs 0) eq_refl)
    as [Hrel Hin]; [by rewrite Ho|by apply placed_bytes|by rewrite Ht|].
  pose proof (find_symtab_ok image shoff count secs Hi Hreads Hlen [] secs k syms sec str eq_refl Hk Hsec Hstr Hty Hsr) as Hst.
  assert (Hfind : ∀ w a, wf_cstr w → address_of base offs syms w = Some a → find_named image base (offs ++ J) w (s_off sec) (s_off str) (Z.to_nat (s_size sec / 16)) 0 = Some a).
  { intros w a Hwf Ha. rewrite <- Hn, <- Ho. apply (find_named_ok image count base secs J Hi Hlen w (s_off sec) (s_off str) syms a 0); [done|done|done|by rewrite Ho]. }
  exists shoff, count, total, (s_off sec), (s_size sec / 16), (s_off str), info, (offs ++ J), (placed image secs 0). rewrite Hlen in *. constructor; try done; try (by apply Hfind; [by_eval|]).
  - pose proof (place_sections_layout image shoff secs Hi Hreads ltac:(done) [] secs [] J 0 eq_refl eq_refl ltac:(lia) ltac:(by rewrite Ht)) as Hp. rewrite Hlen, El in Hp. exact Hp.
  - pose proof (copy_sections_placed image shoff secs Hi Hreads ltac:(done) [] secs [] J 0 eq_refl eq_refl ltac:(lia) ltac:(by rewrite Ht) [] eq_refl) as Hp.
    rewrite Hlen, El in Hp. cbn [fst snd app] in Hp. by rewrite Z.sub_0_r in Hp.
  - rewrite Ho in Hrel. exact Hrel.
  - cbn [l_block]. rewrite patched_length, Hpl by done. lia.
Qed.

(** The block of an accepted object. *)
Lemma link_patches image symbols base L :
  bytes image → symbols_ok symbols → link image symbols base = Some L →
  ∃ secs ps, sections_of image = Some secs ∧ patches image symbols base (layout secs 0).1 secs = Some ps ∧
    l_block L = patched base ps (placed image secs 0) ∧ Forall (in_block (placed image secs 0)) ps.
Proof.
  intros Hi Hsy H. unfold link in H. apply bind_Some in H as (good & _ & H). apply bind_Some in H as (secs & Hsecs & H).
  destruct (sections_of_reads image secs Hsecs) as (shoff & count & _ & _ & Hlen & Hreads). pose proof (secs_words image shoff secs Hi Hreads) as Hw.
  destruct (layout secs 0) as [offs total] eqn:El. destruct (negb _) eqn:Eg; [done|]. apply negb_false_iff in Eg. do 4 (apply andb_true_iff in Eg as [Eg ?]). bool_prop.
  apply bind_Some in H as (ps & Hps & H). do 5 (apply bind_Some in H as (? & _ & H)). apply bind_Some in H as ([[n w] f] & _ & H). destruct (_ =? 0); [done|]. injection H as <-.
  exists secs, ps. rewrite El. split; [done|]. split; [done|]. split; [done|]. apply fmap_Some in Hps as (pss & Hps & ->).
  assert (Ht : (layout secs 0).2 = total) by by rewrite El. assert (Ho : (layout secs 0).1 = offs) by by rewrite El.
  apply (relocate_sections_ok image shoff count base secs symbols [] Hi Hreads Hlen ltac:(done) Hsy ltac:(by rewrite Ht) [] secs pss (placed image secs 0) eq_refl);
    [by rewrite Ho|by apply placed_bytes|rewrite placed_length, Ht by done; f_equal; lia].
Qed.

End LoaderLink.
