(* ===== verification/LoaderRun.v ===== *)
(** The loader on the machine: loading an object that the reference linker accepts,
    unloading and searching, as operations on the list of modules and the heap. *)

From S2P Require Import Prelude Arrays Bytes Ipc IpcSpec IpcRun Block Klog KlogRun Parts Service ServiceSpec Loader LoaderSpec.
From S2P Require Import Vfs.
From S2P Require Memory.

Module LoaderRun.

Import Bytes IpcSpec Klog KlogSpec KlogRun Parts Loader LoaderSpec LoaderLink.

(** ** The state *)

Definition names (l : list module_handle) : list cstring := h_name <$> l.

Record loader_ok (m : modules) : Prop := {
  lo_table : length (module_table m) = MODULE_MAX_COUNT;
  lo_count : (module_count m ≤ MODULE_MAX_COUNT)%nat;
  lo_names : NoDup (names (loaded m));
  lo_heap : Memory.Memory.wf_heap (heap m);
  lo_symbols : symbols_ok (symbol_table m)
}.

Definition set_blocks (b : gmap Z (list Z)) (m : modules) : modules :=
  Modules (module_table m) (module_count m) (symbol_table m) (module_channel_id m) (heap m) b.

(** The modules, the heap pointer and the kernel's symbols. *)
Definition shows (l : list module_handle) (ptr : Z) (symbols : list kernel_symbol) (m : modules) : Prop :=
  loader_ok m ∧ loaded m = l ∧ Memory.Memory.heap_ptr (heap m) = ptr ∧ symbol_table m = symbols.

Lemma loaded_length m : loader_ok m → length (loaded m) = module_count m.
Proof. intros [Ht Hc _ _ _]. unfold loaded. rewrite length_take. lia. Qed.

Lemma first_index_take {A} (p : A → bool) n (l : list A) i x : first_index p (take n l) = Some i → l !! i = Some x → (i < n)%nat ∧ p x = true.
Proof. intros (y & Hy & Hp & _)%first_index_Some Hx. apply lookup_take_Some in Hy as [Hy Hlt]. split; [done|]. congruence. Qed.

Lemma in_use_spec n m : module_name_in_use n m = bool_decide (n ∈ names (loaded m)).
Proof.
  unfold module_name_in_use. apply eq_bool_prop_intro. rewrite bool_decide_spec. unfold names. rewrite list_elem_of_fmap. rewrite Is_true_true, existsb_exists. split.
  - intros (h & Hh & E%bool_decide_eq_true). exists h. split; [done|]. by apply list_elem_of_In.
  - intros (h & -> & Hh). exists h. split; [by apply list_elem_of_In|]. by apply bool_decide_eq_true.
Qed.

(** ** Changes of the table *)

(** The slot behind the last module. *)
Lemma loaded_next m h : loader_ok m → (module_count m < MODULE_MAX_COUNT)%nat → loaded (set_handles (<[module_count m := h]> (module_table m)) (module_count m) m) = loaded m.
Proof. intros [] Hc. unfold loaded. cbn [module_count module_table set_handles]. by rewrite take_insert_ge by lia. Qed.

Lemma loaded_push m h : loader_ok m → (module_count m < MODULE_MAX_COUNT)%nat →
  loaded (set_handles (<[module_count m := h]> (module_table m)) (S (module_count m)) m) = loaded m ++ [h].
Proof.
  intros [Ht _ _ _ _] Hc. unfold loaded. cbn [module_count module_table set_handles].
  rewrite (take_S_r _ _ h) by (rewrite list_lookup_insert_eq; [done|lia]). by rewrite take_insert_ge by lia.
Qed.

Lemma move_down_length i n t : (i + n < length t)%nat → length (move_down i n t) = length t.
Proof. intros. unfold move_down. rewrite !length_app, !length_take, !length_drop. lia. Qed.

Lemma loaded_delete m i : loader_ok m → (i < module_count m)%nat →
  take (module_count m - 1) (<[(module_count m - 1)%nat := zero_handle]> (move_down i (module_count m - i - 1) (module_table m))) = delete i (loaded m).
Proof.
  intros [Ht Hc _ _ _] Hi. rewrite take_insert_ge by lia. unfold move_down, loaded. rewrite delete_take_drop, take_take, skipn_firstn_comm, Nat.min_l by lia.
  replace (module_count m - 1)%nat with (length (take i (module_table m) ++ take (module_count m - i - 1) (drop (S i) (module_table m))))
    by (rewrite length_app, !length_take, length_drop; lia).
  rewrite app_assoc, take_app_length. do 2 f_equal. lia.
Qed.

(** ** The heap *)

Lemma kalloc_zero_spec size h :
  Memory.Memory.wf_heap h → 0 < size ≤ Memory.Memory.HEAP_SIZE_BYTES →
  kalloc_zero size h =
    if Memory.Memory.heap_end <? Memory.Memory.heap_ptr h + round_up size 16 then Some (None, h)
    else Some (Some (Memory.Memory.heap_ptr h, replicate (Z.to_nat size) 0), Memory.Memory.Heap (Memory.Memory.heap_ptr h + round_up size 16)).
Proof.
  intros [Hb _] Hs. unfold kalloc_zero, Memory.Memory.kalloc. unfold Memory.Memory.heap_end, Memory.Memory.HEAP_START_ADDR, Memory.Memory.HEAP_SIZE_BYTES in *.
  rewrite (proj2 (Z.eqb_neq size 0)) by lia. assert (E : Memory.Memory.align_up size 16 = round_up size 16) by (apply (align_up_round size 16); (reflexivity || lia)).
  rewrite E. pose proof (round_up_bounds size 16 ltac:(lia)). rewrite u32_small by lia. destruct (_ <? _) eqn:El; [done|]. bool_prop.
  by rewrite (proj2 (Z.ltb_ge _ _)) by lia.
Qed.

Lemma round_up_heap h size : Memory.Memory.wf_heap h → 0 < size → (Memory.Memory.heap_end <? Memory.Memory.heap_ptr h + round_up size 16) = false →
  Memory.Memory.wf_heap (Memory.Memory.Heap (Memory.Memory.heap_ptr h + round_up size 16)).
Proof.
  intros [Hb Hm] Hs El. bool_prop. pose proof (round_up_bounds size 16 ltac:(lia)). split; cbn [Memory.Memory.heap_ptr]; [lia|].
  unfold round_up. by rewrite Z_mod_plus_full.
Qed.

(** ** Events and log lines *)

Section run.
Context {W Ctx : Type} {HM : HasPart W modules} (v : Vfs.vfs W Ctx) {HF : PartFiles modules v}.
Context (stack junk offsets0 : list Z) (Hstack : length stack = EVENT_SIZE) (Hjunk : length junk = 64%nat).
Implicit Types (s : machine W Ctx) (m : modules) (h : module_handle).

Lemma emit_returns m s l prefix n : holds v m s → ∃ s', emit_log stack l prefix n s = Some s' ∧ holds v m s'.
Proof. intros Hs. unfold emit_log, klog_emit. by apply (holds_emit v stack Hstack). Qed.

Lemma event_array_length n old : (32 ≤ length old)%nat → length (char_array 32 n old) = 32%nat.
Proof. intros. unfold char_array, str_copy. rewrite length_app. cbn [length]. rewrite length_drop, !length_take. lia. Qed.

Lemma module_event_length action h rc : length (module_event action h rc junk) = 72%nat.
Proof. unfold module_event. rewrite !length_app, !event_array_length by (rewrite ?length_drop; lia). done. Qed.

Lemma module_event_returns m s action h rc :
  holds v m s → ∃ c s', module_send_event junk action h rc s = Some s' ∧ holds v (set_module_channel c m) s'.
Proof.
  intros Hs. assert (Hkeep : holds v (set_module_channel (module_channel_id m) m) s) by (by destruct m).
  unfold module_send_event. destruct (negb _); [by eexists _, s|]. unfold mods.
  assert (Hstep : ∃ c s1, (if module_channel_id (part s) <? 0
         then c ← Ipc.ipc_get_service_channel IPC_SERVICE_MODULE_LOADER (kern s); Some (set_mods (set_module_channel c (part s)) s)
         else Some s) = Some s1 ∧ holds v (set_module_channel c m) s1).
  { rewrite (holds_part v m s Hs). destruct (_ <? 0); [|by eexists _, s].
    destruct (service_channel_returns IPC_SERVICE_MODULE_LOADER (kern s) (holds_kernel v m s Hs)) as [c ->]. cbn [mbind option_bind].
    eexists _, _. split; [done|]. by eapply holds_set. }
  destruct Hstep as (c & s1 & -> & H1). cbn [mbind option_bind]. exists c. rewrite (holds_part v _ s1 H1). destruct (_ <? 0); [by eexists|].
  destruct (IpcRun.channel_send_step (module_channel_id (set_module_channel c m)) 0 action 0 (Some (module_event action h rc junk)) 72 0 (kern s1)) as (r & k & -> & Hk);
    [by eapply holds_kernel|change (0 ≤ 72 ≤ Z.of_nat (length (module_event action h rc junk))); rewrite module_event_length; lia|].
  cbn [mbind option_bind]. eexists. split; [done|]. by apply holds_set_kern.
Qed.

Lemma set_handle_returns m s i h : holds v m s → loader_ok m → (i < MODULE_MAX_COUNT)%nat →
  ∃ s', set_handle i h s = Some s' ∧ holds v (set_handles (<[i := h]> (module_table m)) (module_count m) m) s'.
Proof.
  intros Hs Hm Hi. unfold set_handle, mods. rewrite (holds_part v m s Hs). destruct Hm as [Ht _ _ _ _]. rewrite buf_store_ok by lia. cbn [mbind option_bind].
  eexists. split; [done|]. by eapply holds_set.
Qed.

(** ** Loading *)

Context (run_init : Z → machine W Ctx → option (Z * machine W Ctx)) (run_exit : Z → machine W Ctx → option (machine W Ctx)).

(** The heap has no room for the block. *)
Definition full (m : modules) (L : linked) : bool :=
  Memory.Memory.heap_end <? Memory.Memory.heap_ptr (heap m) + round_up (Z.of_nat (length (l_block L))) 16.

(** The heap and the blocks after the block has been taken and filled. *)
Definition with_block (L : linked) (m : modules) : modules :=
  set_block (Memory.Memory.heap_ptr (heap m)) (l_block L)
    (set_heap (Memory.Memory.Heap (Memory.Memory.heap_ptr (heap m) + round_up (Z.of_nat (length (l_block L))) 16)) m).

Lemma set_block_twice b x y m : set_block b y (set_block b x m) = set_block b y m.
Proof. unfold set_block. cbn [module_table module_count symbol_table module_channel_id heap blocks]. by rewrite insert_insert_eq. Qed.

(** Loading up to the entry in the table. *)
Lemma load_links_block image builtin m s L :
  holds v m s → loader_ok m → bytes image → link image (symbol_table m) (Memory.Memory.heap_ptr (heap m)) = Some L →
  (module_count m < MODULE_MAX_COUNT)%nat →
  ∃ shoff count total symtab sym_count strtab info offsets mem,
    loads image offsets0 (symbol_table m) (Memory.Memory.heap_ptr (heap m)) L shoff count total symtab sym_count strtab info offsets mem ∧
    if full m L then ∃ s', load_module_internal stack junk offsets0 run_init (Some image) builtin s = Some (-1, s') ∧ holds v m s'
    else ∃ s1, holds v (with_block L m) s1 ∧
      load_module_internal stack junk offsets0 run_init (Some image) builtin s =
        enter_module stack junk run_init image (Memory.Memory.heap_ptr (heap m)) total (l_block L) offsets shoff count builtin s1.
Proof.
  intros Hs Hm Hi HL Hc. destruct (link_loads image offsets0 _ _ L Hi (lo_symbols m Hm) HL) as (shoff & count & total & symtab & sym_count & strtab & info & offsets & mem & H).
  exists shoff, count, total, symtab, sym_count, strtab, info, offsets, mem. split; [done|]. destruct H. set (base := Memory.Memory.heap_ptr (heap m)) in *.
  pose proof (holds_part v m s Hs) as Hpart. unfold load_module_internal, mods. rewrite Hpart. rewrite (proj2 (Nat.ltb_ge _ _)), (proj2 (Nat.leb_gt _ _)) by lia.
  rewrite ld_header0. cbn [mbind option_bind negb]. rewrite ld_shoff0, ld_shnum0. cbn [mbind option_bind]. rewrite ld_place0. cbn [mbind option_bind].
  rewrite (proj2 (Z.eqb_neq _ _)) by lia. rewrite kalloc_zero_spec by (apply Hm || done). unfold full, with_block. rewrite ld_length0. fold base. destruct (_ <? _) eqn:Ef; cbn [mbind option_bind].
  { eexists. split; [done|]. replace (set_heap (heap m) m) with m by (by destruct m). by eapply holds_set. }
  set (h1 := Memory.Memory.Heap _). rewrite ld_copy0. cbn [mbind option_bind negb].
  pose proof (holds_set v m (set_heap h1 m) s Hs) as H1. unfold set_mods. rewrite (holds_part v _ _ H1).
  pose proof (holds_set v _ (set_block base mem (set_heap h1 m)) _ H1) as H2. unfold apply_relocations, mods. rewrite (holds_part v _ _ H2).
  change (symbol_table (set_block base mem (set_heap h1 m))) with (symbol_table m). rewrite ld_relocate0. cbn [mbind option_bind]. rewrite (holds_part v _ _ H2). cbn [Z.eqb negb].
  eexists. split; [|done]. rewrite <- (set_block_twice base mem). by eapply holds_set.
Qed.

(** The handle of a linked object. *)
Definition handle_of (L : linked) (base : Z) (builtin : bool) : module_handle :=
  filled_handle (l_name L, l_version L, l_flags L) base (Z.of_nat (length (l_block L))) builtin (l_init L) (l_exit L).

Lemma enter_linked image builtin m s L base symbols shoff count total symtab sym_count strtab info offsets mem :
  holds v m s → loader_ok m → (module_count m < MODULE_MAX_COUNT)%nat →
  loads image offsets0 symbols base L shoff count total symtab sym_count strtab info offsets mem →
  if bool_decide (take 31 (l_name L) ∈ names (loaded m))
  then ∃ s' t, enter_module stack junk run_init image base total (l_block L) offsets shoff count builtin s = Some (-1, s') ∧ holds v (set_handles t (module_count m) m) s' ∧
    loaded (set_handles t (module_count m) m) = loaded m ∧ length t = MODULE_MAX_COUNT
  else ∃ c s1, holds v (set_module_channel c (set_handles (<[module_count m := handle_of L base builtin]> (module_table m)) (S (module_count m)) m)) s1 ∧
    enter_module stack junk run_init image base total (l_block L) offsets shoff count builtin s = (s' ← start_module stack junk run_init (module_count m) s1; Some (0, s')).
Proof.
  intros Hs Hm Hc []. unfold enter_module. rewrite ld_symtab0. cbn [mbind option_bind]. rewrite ld_info0. cbn [mbind option_bind]. rewrite (proj2 (Z.eqb_neq _ _)) by done.
  unfold read_module_info in ld_read0. apply bind_Some in ld_read0 as (n0 & Hname & Hread). apply bind_Some in Hread as (v0 & Hver & Hread). apply bind_Some in Hread as (f0 & Hfl & [= -> -> ->]).
  rewrite Hname. cbn [mbind option_bind]. unfold mods. rewrite (holds_part v m s Hs). cbn zeta.
  destruct (set_handle_returns m s (module_count m) (named_handle (l_name L)) Hs Hm Hc) as (s1 & -> & H1). cbn [mbind option_bind].
  set (m1 := set_handles _ _ m) in H1. assert (Hl1 : loaded m1 = loaded m) by by apply loaded_next.
  assert (Hm1 : loader_ok m1). { destruct Hm. constructor; try done; [by cbn; rewrite length_insert|by rewrite Hl1]. }
  rewrite (holds_part v m1 s1 H1), in_use_spec, Hl1. change (str_copy MODULE_NAME_MAX (l_name L)) with (take 31 (l_name L)). case_bool_decide as Hin.
  - destruct (emit_returns m1 s1 KLOG_WARN (lit "module: already loaded ") (take 31 (l_name L)) H1) as (s2 & -> & H2). cbn [mbind option_bind].
    destruct (set_handle_returns m1 s2 (module_count m) zero_handle H2 Hm1 Hc) as (s3 & -> & H3). cbn [mbind option_bind]. eexists s3, _. split; [done|]. split; [exact H3|].
    split; [by rewrite <- Hl1; apply (loaded_next m1)|]. cbn. rewrite !length_insert. apply Hm.
  - rewrite Hver, Hfl. cbn [mbind option_bind]. rewrite ld_init0. cbn [mbind option_bind]. rewrite ld_exit0. cbn [mbind option_bind]. rewrite <- ld_length0. fold (handle_of L base builtin). set (hd := handle_of L base builtin).
    destruct (set_handle_returns m1 s1 (module_count m) hd H1 Hm1 Hc) as (s2 & -> & H2). cbn [mbind option_bind]. rewrite (holds_part v _ s2 H2). set (m2 := set_handles _ _ m1) in H2 |- *.
    pose proof (holds_set v m2 (set_handles (module_table m2) (S (module_count m)) m2) s2 H2) as H3. unfold set_mods.
    destruct (emit_returns _ _ KLOG_INFO (lit "module: loaded ") (h_name hd) H3) as (s3 & -> & H4). cbn [mbind option_bind].
    destruct (module_event_returns _ _ MODULE_EVENT_LOADED hd 0 H4) as (c & s4 & -> & H5). cbn [mbind option_bind]. exists c, s4. split; [|done].
    replace (set_handles (<[module_count m:=hd]> (module_table m)) (S (module_count m)) m) with (set_handles (module_table m2) (S (module_count m)) m2); [done|].
    unfold m2, m1. cbn [set_handles module_table module_count symbol_table module_channel_id heap blocks]. unfold set_handles. cbn. by rewrite list_insert_insert_eq.
Qed.

End run.

End LoaderRun.
