(* ===== verification/LoaderProps.v ===== *)
(** Properties of the module loader: an object that the reference linker accepts is linked
    and entered, the table of modules is a list, a table of sections behind the image is
    read all the same, and which names modules can refer to. *)

From S2P Require Import Prelude Arrays Bytes Ipc IpcSpec IpcRun Block Klog KlogRun Parts Service ServiceSpec Loader LoaderSpec LoaderRun.
From S2P Require Import Vfs.
From S2P Require Memory.

Module LoaderProps.

Import Bytes Klog Parts Loader LoaderSpec LoaderLink LoaderRun.

(** ** Runs *)

Inductive module_op := MLoad (image : option (list Z)) (builtin : bool) | MUnload (n : option cstring) | MFind (n : option cstring).
Inductive module_result := RDone (rc : Z) | RHandle (h : option module_handle).

Definition module_op_ok (o : module_op) : Prop := match o with MLoad (Some image) _ => bytes image | _ => True end.

Section props.
Context {W Ctx : Type} {HM : HasPart W modules} (v : Vfs.vfs W Ctx) {HF : PartFiles modules v} (stack junk offsets0 : list Z).
Context (run_init : Z → machine W Ctx → option (Z * machine W Ctx)) (run_exit : Z → machine W Ctx → option (machine W Ctx)).
Implicit Types (s : machine W Ctx) (m : modules) (h : module_handle) (l : list module_handle).

(** The code of modules: it returns, may take memory from the heap and change the blocks,
    and leaves the table of modules and the symbols alone. *)
Class ModuleCode := {
  init_result : Z → Z;
  init_heap : Z → Z → Z;
  exit_heap : Z → Z → Z;
  code_heap a p : Memory.Memory.wf_heap (Memory.Memory.Heap p) →
    Memory.Memory.wf_heap (Memory.Memory.Heap (init_heap a p)) ∧ Memory.Memory.wf_heap (Memory.Memory.Heap (exit_heap a p));
  init_does a m s : holds v m s →
    ∃ b s', run_init a s = Some (init_result a, s') ∧
      holds v (set_blocks b (set_heap (Memory.Memory.Heap (init_heap a (Memory.Memory.heap_ptr (heap m)))) m)) s';
  exit_does a m s : holds v m s →
    ∃ b s', run_exit a s = Some s' ∧ holds v (set_blocks b (set_heap (Memory.Memory.Heap (exit_heap a (Memory.Memory.heap_ptr (heap m)))) m)) s'
}.

Definition module_exec (o : module_op) s : option (module_result * machine W Ctx) :=
  match o with
  | MLoad image builtin => '(rc, s) ← module_load_image stack junk offsets0 run_init image builtin s; Some (RDone rc, s)
  | MUnload n => '(rc, s) ← module_unload stack junk run_exit n s; Some (RDone rc, s)
  | MFind n => Some (RHandle (i ← module_find n s; module_table (mods s) !! i), s)
  end.

Fixpoint module_run (ops : list module_op) s : option (list module_result * machine W Ctx) :=
  match ops with
  | [] => Some ([], s)
  | o :: ops' => '(r, s) ← module_exec o s; '(rs, s) ← module_run ops' s; Some (r :: rs, s)
  end.

(** ** The abstract loader: a list of modules and the end of the used heap *)

Section abstract.
Context {HC : ModuleCode} (symbols : list kernel_symbol).

Definition a_start h (ptr : Z) : module_handle * Z :=
  if h_autostart h && negb (h_init h =? 0)
  then (if init_result (h_init h) =? 0 then set_running true true h else h, init_heap (h_init h) ptr)
  else (h, ptr).

(** None for an object that the reference linker refuses. *)
Definition a_load (image : option (list Z)) (builtin : bool) l (ptr : Z) : option (Z * (list module_handle * Z)) :=
  match image with
  | None => Some (-1, (l, ptr))
  | Some image =>
      if (MODULE_MAX_COUNT <=? length l)%nat then Some (-1, (l, ptr))
      else
        L ← link image symbols ptr;
        let ptr' := ptr + round_up (Z.of_nat (length (l_block L))) 16 in
        if Memory.Memory.heap_end <? ptr' then Some (-1, (l, ptr))
        else if bool_decide (take 31 (l_name L) ∈ names l) then Some (-1, (l, ptr'))
        else let '(h, ptr'') := a_start (handle_of L ptr builtin) ptr' in Some (0, (l ++ [h], ptr''))
  end.

Definition a_find (n : option cstring) l : option nat := n ← n; first_index (fun h => bool_decide (h_name h = n)) l.

Definition a_unload (n : option cstring) l (ptr : Z) : Z * (list module_handle * Z) :=
  match a_find n l with
  | None => (-1, (l, ptr))
  | Some i =>
      match l !! i with
      | None => (-1, (l, ptr))
      | Some h =>
          if h_builtin h then (-1, (l, ptr))
          else (0, (delete i l, if negb (h_exit h =? 0) && h_active h then exit_heap (h_exit h) ptr else ptr))
      end
  end.

Definition a_exec (o : module_op) (x : list module_handle * Z) : option (module_result * (list module_handle * Z)) :=
  match o with
  | MLoad image builtin => '(rc, x) ← a_load image builtin x.1 x.2; Some (RDone rc, x)
  | MUnload n => let '(rc, x) := a_unload n x.1 x.2 in Some (RDone rc, x)
  | MFind n => Some (RHandle (i ← a_find n x.1; x.1 !! i), x)
  end.

Fixpoint a_run (ops : list module_op) (x : list module_handle * Z) : option (list module_result * (list module_handle * Z)) :=
  match ops with
  | [] => Some ([], x)
  | o :: ops' => '(r, x) ← a_exec o x; '(rs, x) ← a_run ops' x; Some (r :: rs, x)
  end.

(** A sound machine with these modules, this heap and these symbols. *)
Definition modules_are l (ptr : Z) s : Prop := ∃ m, holds v m s ∧ shows l ptr symbols m.

End abstract.

(** ** A table outside the image *)

(** The offset of the table of sections is not tested.  An object with a good header
    whose table of sections lies behind its last byte is not refused: the loader reads
    outside the image, before any other test of the contents. *)
Theorem section_table_unchecked image builtin shoff s :
  bytes image → (52 ≤ length image)%nat → (module_count (mods s) < MODULE_MAX_COUNT)%nat → check_header image = Some true → e_shoff image = Some shoff →
  Z.of_nat (length image) ≤ shoff + 8 < 4294967296 → 0 ≤ shoff → module_load_image stack junk offsets0 run_init (Some image) builtin s = None.
Proof.
  intros Hb Hl Hc Hh Hs Hout Hpos. unfold module_load_image, load_module_internal. rewrite (proj2 (Nat.ltb_ge _ _)), (proj2 (Nat.leb_gt _ _)) by done. rewrite Hh. cbn [mbind option_bind negb].
  unfold check_header in Hh. apply bind_Some in Hh as (? & _ & Hh). do 3 (apply bind_Some in Hh as (? & _ & Hh)). apply bind_Some in Hh as (n & Hn & Hh). injection Hh as Hh.
  apply andb_true_iff in Hh as [Hh _]. apply andb_true_iff in Hh as [_ Hn0]. bool_prop. rewrite Hs, Hn. cbn [mbind option_bind].
  pose proof (image_load16_range _ _ _ Hb Hn) as Hr. destruct (Z.to_nat n) as [|k] eqn:Ek; [lia|]. cbn [place_sections]. unfold allocated, sh_flags, section_field.
  rewrite Z.mul_0_l, Z.add_0_r, (u32_small shoff), (u32_small (shoff + 8)) by lia. unfold load32, from. by rewrite (proj2 (Z.ltb_ge _ _)) by lia.
Qed.

(** ** The operations *)

Context {HC : ModuleCode} (Hstack : length stack = EVENT_SIZE) (Hjunk : length junk = 64%nat).

Lemma heap_pointer m : loader_ok m → Memory.Memory.wf_heap (Memory.Memory.Heap (Memory.Memory.heap_ptr (heap m))).
Proof. intros Hm. destruct (lo_heap m Hm) as [? ?]. by split. Qed.

Lemma code_kept m a (f : Z → Z → Z) b :
  let m' := set_blocks b (set_heap (Memory.Memory.Heap (f a (Memory.Memory.heap_ptr (heap m)))) m) in
  loader_ok m → Memory.Memory.wf_heap (Memory.Memory.Heap (f a (Memory.Memory.heap_ptr (heap m)))) → loader_ok m'.
Proof. intros m' [] Hh. by constructor. Qed.

Lemma handle_replaced m i h h' c :
  loader_ok m → module_table m !! i = Some h → h_name h' = h_name h →
  let m' := set_module_channel c (set_handles (<[i := h']> (module_table m)) (module_count m) m) in
  loader_ok m' ∧ loaded m' = <[i := h']> (loaded m).
Proof.
  intros [Ht Hc Hn Hh Hs] Hi Hname m'. assert (Hl : loaded m' = <[i := h']> (loaded m)).
  { unfold m', loaded. cbn [set_module_channel set_handles module_count module_table]. destruct (decide (i < module_count m)%nat).
    - by rewrite take_insert_lt.
    - rewrite take_insert_ge by lia. rewrite list_insert_ge; [done|]. rewrite length_take. lia. }
  split; [|done]. constructor; [by cbn; rewrite length_insert|done| |done|done]. rewrite Hl. unfold names. rewrite list_fmap_insert, Hname.
  destruct (loaded m !! i) as [x|] eqn:Ex.
  - assert (x = h) as ->. { unfold loaded in Ex. apply lookup_take_Some in Ex as [Ex _]. congruence. } rewrite list_insert_id; [done|]. by rewrite list_lookup_fmap, Ex.
  - rewrite list_insert_ge; [done|]. rewrite length_fmap. by apply lookup_ge_None.
Qed.

Lemma start_refines m s i h :
  holds v m s → loader_ok m → module_table m !! i = Some h →
  ∃ s' m', start_module stack junk run_init i s = Some s' ∧ holds v m' s' ∧
    shows (<[i := (a_start h (Memory.Memory.heap_ptr (heap m))).1]> (loaded m)) (a_start h (Memory.Memory.heap_ptr (heap m))).2 (symbol_table m) m'.
Proof.
  intros Hs Hm Hi. assert (Hlt : (i < MODULE_MAX_COUNT)%nat) by (rewrite <- (lo_table m Hm); by eapply lookup_lt_Some).
  assert (Hsame : <[i := h]> (loaded m) = loaded m).
  { destruct (loaded m !! i) as [x|] eqn:Ex; [|apply list_insert_ge; by apply lookup_ge_None]. apply list_insert_id. unfold loaded in *. apply lookup_take_Some in Ex as [Ex ?]. rewrite lookup_take_lt; congruence. }
  unfold start_module, a_start, mods. rewrite (holds_part v m s Hs), Hi. cbn [mbind option_bind]. destruct (_ && _); cbn [negb fst snd].
  2:{ exists s, m. split; [done|]. split; [done|]. by rewrite Hsame. }
  destruct (init_does (h_init h) m s Hs) as (b & s1 & -> & H1). cbn [mbind option_bind]. pose proof (proj1 (code_heap (h_init h) _ (heap_pointer m Hm))) as Hh.
  pose proof (code_kept m (h_init h) init_heap b Hm Hh) as Hm1. cbn zeta in Hm1. set (m1 := set_blocks _ _) in *. rewrite (holds_part v m1 s1 H1). change (module_table m1) with (module_table m). rewrite Hi. cbn [mbind option_bind].
  destruct (init_result (h_init h) =? 0).
  - destruct (set_handle_returns v stack junk Hstack Hjunk m1 s1 i (set_running true true h) H1 Hm1 Hlt) as (s2 & -> & H2). eexists s2, _. split; [done|]. split; [exact H2|].
    destruct (handle_replaced m1 i h (set_running true true h) (module_channel_id m1) Hm1 Hi eq_refl) as [Hok Hl]. unfold shows. done.
  - destruct (emit_returns v stack Hstack m1 s1 KLOG_ERROR (lit "module: init failed ") (h_name h) H1) as (s2 & -> & H2). cbn [mbind option_bind].
    destruct (module_event_returns v stack junk Hstack Hjunk m1 s2 MODULE_EVENT_INIT_FAILED h (init_result (h_init h)) H2) as (c & s3 & -> & H3). eexists s3, _. split; [done|]. split; [exact H3|].
    rewrite Hsame. destruct Hm1. by split; [constructor|].
Qed.

Lemma load_refines symbols image builtin l ptr s rc l' ptr' :
  modules_are symbols l ptr s → match image with Some image => bytes image | None => True end → a_load symbols image builtin l ptr = Some (rc, (l', ptr')) →
  ∃ s', module_load_image stack junk offsets0 run_init image builtin s = Some (rc, s') ∧ modules_are symbols l' ptr' s'.
Proof.
  intros (m & Hs & Hm & <- & <- & <-) Hi Ha. unfold module_load_image. destruct image as [image|]; cbn [a_load] in Ha; [|injection Ha as <- <- <-; exists s; split; [done|]; by exists m].
  rewrite loaded_length in Ha by done. destruct (MODULE_MAX_COUNT <=? module_count m)%nat eqn:Ec.
  { injection Ha as <- <- <-. exists s. split; [|by exists m]. unfold load_module_internal, mods. rewrite (holds_part v m s Hs), Ec. by case_match. }
  bool_prop. apply bind_Some in Ha as (L & HL & Ha). cbn zeta in Ha.
  destruct (load_links_block v stack junk offsets0 Hstack Hjunk run_init image builtin m s L Hs Hm Hi HL Ec) as (shoff & count & total & symtab & sym_count & strtab & info & offsets & mem & Hld & Hload).
  unfold full in Hload. destruct (Memory.Memory.heap_end <? _) eqn:Ef.
  { injection Ha as <- <- <-. destruct Hload as (s' & -> & Hs'). exists s'. split; [done|]. by exists m. }
  destruct Hload as (s1 & H1 & ->). pose proof (ld_length _ _ _ _ _ _ _ _ _ _ _ _ _ _ Hld) as Htotal. pose proof (ld_total _ _ _ _ _ _ _ _ _ _ _ _ _ _ Hld) as Hpos.
  assert (Hm1 : loader_ok (with_block L m)).
  { destruct Hm. constructor; try done. apply round_up_heap; [done|lia|done]. }
  pose proof (enter_linked v stack junk offsets0 Hstack Hjunk run_init image builtin _ s1 L _ _ _ _ _ _ _ _ _ _ _ H1 Hm1 Ec Hld) as He. change (loaded (with_block L m)) with (loaded m) in He.
  destruct (bool_decide _) eqn:Eb.
  - injection Ha as <- <- <-. destruct He as (s' & t & -> & Hs' & Hl & Ht). exists s'. split; [done|]. eexists. split; [exact Hs'|]. destruct Hm1. split; [|done]. constructor; try done. by rewrite Hl.
  - destruct He as (c & s2 & H2 & ->). set (hd := handle_of L _ builtin) in *. change (module_count (with_block L m)) with (module_count m) in *. change (module_table (with_block L m)) with (module_table m) in *.
    set (m2 := set_module_channel c _) in H2. assert (Hl2 : loaded m2 = loaded m ++ [hd]) by exact (loaded_push (with_block L m) hd Hm1 Ec).
    assert (Hm2 : loader_ok m2).
    { destruct Hm1. constructor; [by cbn; rewrite length_insert|cbn; lia| |done|done]. rewrite Hl2. unfold names. rewrite fmap_app. apply NoDup_app. split; [done|].
      split; [|by apply NoDup_singleton]. intros x Hx Hx'%list_elem_of_singleton. subst x. by apply bool_decide_eq_false in Eb. }
    assert (Hi2 : module_table m2 !! module_count m = Some hd) by (cbn; apply list_lookup_insert_eq; rewrite (lo_table m Hm); lia).
    destruct (start_refines m2 s2 (module_count m) hd H2 Hm2 Hi2) as (s3 & m3 & -> & H3 & Hshow). cbn [mbind option_bind].
    change (Memory.Memory.heap_ptr (heap m2)) with (Memory.Memory.heap_ptr (heap m) + round_up (Z.of_nat (length (l_block L))) 16) in Hshow.
    destruct (a_start hd _) as [h3 p3]. injection Ha as <- <- <-. exists s3. split; [done|]. exists m3. split; [done|]. cbn [fst snd] in Hshow.
    rewrite Hl2, <- (loaded_length m Hm), insert_app_r_alt, Nat.sub_diag in Hshow by done. exact Hshow.
Qed.

Lemma find_loaded n m i : first_index (fun h => bool_decide (h_name h = n)) (loaded m) = Some i →
  (i < module_count m)%nat ∧ ∃ h, loaded m !! i = Some h ∧ module_table m !! i = Some h ∧ h_name h = n.
Proof.
  intros (h & Hh & Hn%bool_decide_eq_true & _)%first_index_Some. pose proof Hh as Hh'. unfold loaded in Hh'. apply lookup_take_Some in Hh' as [Ht Hlt]. split; [done|]. by exists h.
Qed.

(** What is left after the module at [i] has been taken out. *)
Lemma unloaded_ok m i h c :
  loader_ok m → (i < module_count m)%nat → module_table m !! i = Some h →
  let t := <[i := set_running false false h]> (module_table m) in
  let m' := set_handles (<[(module_count m - 1)%nat := zero_handle]> (move_down i (module_count m - i - 1) t)) (module_count m - 1) (set_module_channel c m) in
  loader_ok m' ∧ loaded m' = delete i (loaded m).
Proof.
  intros Hm Hi Ht t m'. destruct (handle_replaced m i h (set_running false false h) c Hm Ht eq_refl) as [Hm1 Hl1]. fold t in Hm1, Hl1.
  set (m1 := set_module_channel c (set_handles t (module_count m) m)) in *.
  assert (Hl : loaded m' = delete i (loaded m)).
  { unfold m', loaded at 1. cbn [set_handles module_count module_table set_module_channel]. pose proof (loaded_delete m1 i Hm1 Hi) as Hd.
    change (module_count m1) with (module_count m) in Hd. change (module_table m1) with t in Hd. rewrite Hd, Hl1.
    by rewrite !delete_take_drop, take_insert_ge, drop_insert_lt by lia. }
  split; [|done]. destruct Hm as [Hlen Hc Hn Hh Hs]. constructor; [|cbn; lia| |done|done].
  - cbn [set_handles module_table m']. rewrite length_insert, move_down_length by (unfold t; rewrite length_insert; lia). unfold t. by rewrite length_insert.
  - rewrite Hl. eapply sublist_NoDup; [exact Hn|]. apply fmap_sublist, sublist_delete.
Qed.

Lemma unload_refines symbols n l ptr s :
  modules_are symbols l ptr s →
  ∃ s', module_unload stack junk run_exit n s = Some ((a_unload n l ptr).1, s') ∧ modules_are symbols (a_unload n l ptr).2.1 (a_unload n l ptr).2.2 s'.
Proof.
  intros (m & Hs & Hm & <- & <- & <-). unfold module_unload, a_unload, a_find, mods. rewrite (holds_part v m s Hs). unfold find_handle.
  destruct n as [n|]; cbn [mbind option_bind]; [|exists s; split; [done|]; by exists m]. destruct (first_index _ (loaded m)) as [i|] eqn:Ei; [|exists s; split; [done|]; by exists m].
  destruct (find_loaded n m i Ei) as (Hi & h & Hl & Ht & Hn). rewrite Hl, Ht. cbn [mbind option_bind]. destruct (h_builtin h); [exists s; split; [done|]; by exists m|].
  assert (Hexit : ∃ b p s1, (if negb (h_exit h =? 0) && h_active h then run_exit (h_exit h) s else Some s) = Some s1 ∧ holds v (set_blocks b (set_heap (Memory.Memory.Heap p) m)) s1 ∧
    Memory.Memory.wf_heap (Memory.Memory.Heap p) ∧ p = if negb (h_exit h =? 0) && h_active h then exit_heap (h_exit h) (Memory.Memory.heap_ptr (heap m)) else Memory.Memory.heap_ptr (heap m)).
  { destruct (negb (h_exit h =? 0) && h_active h).
    - destruct (exit_does (h_exit h) m s Hs) as (b & s1 & E & H1). eexists b, _, s1. split; [exact E|]. split; [exact H1|]. split; [|done]. apply code_heap. by apply heap_pointer.
    - exists (blocks m), (Memory.Memory.heap_ptr (heap m)), s. split; [done|]. split; [|split; [by apply heap_pointer|done]]. by destruct m as [? ? ? ? [?] ?]. }
  destruct Hexit as (b & p & s1 & -> & H1 & Hh & Hp). cbn [mbind option_bind]. set (m1 := set_blocks b (set_heap (Memory.Memory.Heap p) m)) in *.
  assert (Hm1 : loader_ok m1) by (destruct Hm; by constructor). rewrite (holds_part v m1 s1 H1). change (module_table m1) with (module_table m). rewrite Ht. cbn [mbind option_bind].
  assert (Hlt : (i < MODULE_MAX_COUNT)%nat) by (rewrite <- (lo_table m Hm); by eapply lookup_lt_Some).
  destruct (set_handle_returns v stack junk Hstack Hjunk m1 s1 i (set_running false false h) H1 Hm1 Hlt) as (s2 & -> & H2). cbn [mbind option_bind].
  destruct (emit_returns v stack Hstack _ s2 KLOG_INFO (lit "module: unloaded ") (h_name (set_running false false h)) H2) as (s3 & -> & H3). cbn [mbind option_bind].
  destruct (module_event_returns v stack junk Hstack Hjunk _ s3 MODULE_EVENT_UNLOADED (set_running false false h) 0 H3) as (c & s4 & -> & H4). cbn [mbind option_bind].
  rewrite (holds_part v _ s4 H4). set (m2 := set_module_channel c _) in *. change (module_count m2) with (module_count m). rewrite (proj2 (Nat.leb_gt _ _)) by done.
  assert (Hlen : length (module_table m2) = MODULE_MAX_COUNT) by (cbn; rewrite length_insert; apply Hm). pose proof (lo_count m Hm) as Hcnt.
  rewrite buf_store_ok by (rewrite move_down_length by lia; lia). cbn [mbind option_bind fst snd]. eexists. split; [done|].
  rewrite <- Hp. eexists. split; [by eapply holds_set|]. destruct (unloaded_ok m1 i h c Hm1 Hi Ht) as [Hok Hl']. split; [exact Hok|]. split; [exact Hl'|done].
Qed.

Lemma module_exec_refines symbols o x s r x' :
  modules_are symbols x.1 x.2 s → module_op_ok o → a_exec symbols o x = Some (r, x') → ∃ s', module_exec o s = Some (r, s') ∧ modules_are symbols x'.1 x'.2 s'.
Proof.
  destruct x as [l ptr]. cbn [fst snd]. intros Hs Ho Ha. destruct o as [image builtin|n|n]; cbn [a_exec module_exec fst snd] in *.
  - apply bind_Some in Ha as ([rc [l' ptr']] & Hl & [= <- <-]). destruct (load_refines symbols image builtin l ptr s rc l' ptr' Hs ltac:(by destruct image) Hl) as (s' & -> & Hs').
    by exists s'.
  - destruct (unload_refines symbols n l ptr s Hs) as (s' & -> & Hs'). destruct (a_unload n l ptr) as [rc y]. injection Ha as <- <-. by exists s'.
  - injection Ha as <- <-. exists s. split; [|done]. destruct Hs as (m & Hs & Hm & <- & <- & _). do 3 f_equal. unfold module_find, a_find, find_handle, mods. rewrite (holds_part v m s Hs).
    destruct n as [n|]; [|done]. cbn [mbind option_bind]. destruct (first_index _ _) as [i|] eqn:Ei; [|done]. destruct (find_loaded n m i Ei) as (_ & h & Hl & Ht & _). cbn [mbind option_bind]. by rewrite Ht, Hl.
Qed.

(** C21: the loader implements a list of at most 16 modules with different names.  Any
    sequence of loading objects that the reference linker accepts, unloading and
    searching completes, whatever the code of the modules does within the interface
    [ModuleCode] (it returns, its result and what it takes from the heap are functions of
    its address and of the heap, and it leaves the table of modules and the symbols alone),
    and returns what the list returns: a module goes to the end unless the
    list or the heap is full or its name is taken, its start function runs when it asks
    for that, and a module that is not built in is taken out from where it is.  The heap
    pointer moves on also when the name is taken. *)
Theorem modules_refine symbols ops x s rs x' :
  modules_are symbols x.1 x.2 s → Forall module_op_ok ops → a_run symbols ops x = Some (rs, x') →
  ∃ s', module_run ops s = Some (rs, s') ∧ modules_are symbols x'.1 x'.2 s'.
Proof.
  intros Hs Ho. revert x s rs Hs. induction Ho as [|o ops Ho _ IH]; intros x s rs Hs Ha; cbn [a_run module_run] in *; [injection Ha as <- <-; by exists s|].
  apply bind_Some in Ha as ([r x1] & Ha1 & Ha). apply bind_Some in Ha as ([rs' x2] & Ha2 & [= <- <-]).
  destruct (module_exec_refines symbols o x s r x1 Hs Ho Ha1) as (s1 & -> & H1). cbn [mbind option_bind]. destruct (IH x1 s1 rs' H1 Ha2) as (s2 & -> & H2). by exists s2.
Qed.

(** C15: an object is linked as the ELF format says.  When the reference linker accepts the
    object at the heap pointer, the table and the heap have room and the name is free,
    loading gets as far as the start function of the module, with the module at the end
    of the table, the heap advanced by the size of the block and the block in memory.
    The block holds the sections one after the other at their alignments, where no
    relocation applies, and, when no two relocations overlap, each relocated word is the
    address of its symbol plus the word stored in the section, less its own address if
    it is relative. *)
Theorem module_links image builtin m s L :
  holds v m s → loader_ok m → bytes image → (module_count m < MODULE_MAX_COUNT)%nat →
  link image (symbol_table m) (Memory.Memory.heap_ptr (heap m)) = Some L → full m L = false → take 31 (l_name L) ∉ names (loaded m) →
  (∃ s1, module_load_image stack junk offsets0 run_init (Some image) builtin s = (s' ← start_module stack junk run_init (module_count m) s1; Some (0, s')) ∧
    loaded (mods s1) = loaded m ++ [handle_of L (Memory.Memory.heap_ptr (heap m)) builtin] ∧
    Memory.Memory.heap_ptr (heap (mods s1)) = Memory.Memory.heap_ptr (heap m) + round_up (Z.of_nat (length (l_block L))) 16 ∧
    blocks (mods s1) = <[Memory.Memory.heap_ptr (heap m) := l_block L]> (blocks m)) ∧
  ∃ secs ps, sections_of image = Some secs ∧ patches image (symbol_table m) (Memory.Memory.heap_ptr (heap m)) (layout secs 0).1 secs = Some ps ∧
    (∀ j, Forall (fun p => ¬ (p_off p ≤ Z.of_nat j < p_off p + 4)) ps → l_block L !! j = placed image secs 0 !! j) ∧
    ((∀ i j p q, ps !! i = Some p → ps !! j = Some q → i ≠ j → apart p q) → ∀ i p, ps !! i = Some p →
     load32 (l_block L) (p_off p) = Some (patch_value (Memory.Memory.heap_ptr (heap m)) p (word_at (placed image secs 0) (p_off p)))).
Proof.
  intros Hs Hm Hi Hc HL Hroom Hfresh. split.
  - destruct (load_links_block v stack junk offsets0 Hstack Hjunk run_init image builtin m s L Hs Hm Hi HL Hc) as (shoff & count & total & symtab & sym_count & strtab & info & offsets & mem & Hld & Hload).
    rewrite Hroom in Hload. destruct Hload as (s1 & H1 & E). pose proof (ld_length _ _ _ _ _ _ _ _ _ _ _ _ _ _ Hld) as Htotal. pose proof (ld_total _ _ _ _ _ _ _ _ _ _ _ _ _ _ Hld) as Hpos.
    assert (Hm1 : loader_ok (with_block L m)). { destruct Hm. constructor; try done. apply round_up_heap; [done|lia|done]. }
    pose proof (enter_linked v stack junk offsets0 Hstack Hjunk run_init image builtin _ s1 L _ _ _ _ _ _ _ _ _ _ _ H1 Hm1 Hc Hld) as He. rewrite bool_decide_false in He by done.
    destruct He as (c & s2 & H2 & E2). exists s2. unfold module_load_image, mods. rewrite E, E2, (holds_part v _ s2 H2). split; [done|]. split; [|done]. exact (loaded_push (with_block L m) _ Hm1 Hc).
  - destruct (link_patches image _ _ L Hi (lo_symbols m Hm) HL) as (secs & ps & Hsecs & Hps & -> & Hin). exists secs, ps. split; [done|]. split; [done|]. split.
    + intros j Hj. by apply patched_other.
    + intros Hap i p Hp. apply (patched_exact _ ps _ i p); [by apply placed_bytes|done..].
Qed.

End props.

(** ** Kernel symbols *)

Definition lookup_symbol (n : cstring) (l : list kernel_symbol) : Z := module_lookup_kernel_symbol (Some n) l.

Lemma find_symbol_cons e l n : find_symbol (e :: l) n = if bool_decide (sy_name e = n) then Some 0%nat else S <$> find_symbol l n.
Proof. done. Qed.

Lemma find_symbol_Some l n i : find_symbol l n = Some i → ∃ e, l !! i = Some e ∧ sy_name e = n.
Proof.
  revert i. induction l as [|e l IH]; intros i H; [done|]. cbn [find_symbol] in H. case_bool_decide; [injection H as <-; by exists e|].
  apply fmap_Some in H as (j & Hj & ->). by apply IH.
Qed.

Lemma lookup_symbol_cons e l n : lookup_symbol n (e :: l) = if bool_decide (sy_name e = n) then sy_address e else lookup_symbol n l.
Proof. unfold lookup_symbol, module_lookup_kernel_symbol. rewrite find_symbol_cons. case_bool_decide; [done|]. by destruct (find_symbol l n). Qed.

Lemma lookup_symbol_app l e n : find_symbol l (sy_name e) = None → lookup_symbol n (l ++ [e]) = if bool_decide (sy_name e = n) then sy_address e else lookup_symbol n l.
Proof.
  induction l as [|x l IH]; intros H; [exact (lookup_symbol_cons e [] n)|]. rewrite find_symbol_cons in H. case_bool_decide as Hx; [done|]. apply fmap_None in H.
  cbn [app]. rewrite !lookup_symbol_cons, (IH H). repeat case_bool_decide; congruence.
Qed.

Lemma lookup_symbol_insert l n i a n' : find_symbol l n = Some i → lookup_symbol n' (<[i := Symbol n a]> l) = if bool_decide (n = n') then a else lookup_symbol n' l.
Proof.
  revert i. induction l as [|x l IH]; intros i H; [done|]. rewrite find_symbol_cons in H. case_bool_decide as Hx.
  - injection H as <-. cbn [insert list_insert]. rewrite !lookup_symbol_cons. cbn [sy_name sy_address]. repeat case_bool_decide; congruence.
  - apply fmap_Some in H as (j & Hj & ->). change (<[S j := Symbol n a]> (x :: l)) with (x :: <[j := Symbol n a]> l). rewrite !lookup_symbol_cons, (IH j Hj). repeat case_bool_decide; congruence.
Qed.

(** Registering a name, as an update of the function from names to addresses. *)
Lemma register_lookup n a l n' :
  (length l < MODULE_MAX_SYMBOLS)%nat → a ≠ 0 →
  lookup_symbol n' (module_register_kernel_symbol (Some n) a l) = if bool_decide (n = n') then a else lookup_symbol n' l.
Proof.
  intros Hl Ha. unfold module_register_kernel_symbol. rewrite (proj2 (Z.eqb_neq _ _)) by done. destruct (find_symbol l n) as [i|] eqn:E.
  - by apply lookup_symbol_insert.
  - rewrite (proj2 (Nat.leb_gt _ _)) by done. by apply (lookup_symbol_app l (Symbol n a)).
Qed.

Lemma register_length n a l : (length (module_register_kernel_symbol n a l) ≤ S (length l))%nat.
Proof. unfold module_register_kernel_symbol. repeat case_match; rewrite ?length_insert, ?length_app; simpl; lia. Qed.

Lemma register_all address names l n :
  (length l + length names ≤ MODULE_MAX_SYMBOLS)%nat → Forall (fun y => address y ≠ 0) names →
  lookup_symbol n (module_register_kernel_symbols ((fun n => Symbol n (address n)) <$> names) l) = if bool_decide (n ∈ names) then address n else lookup_symbol n l.
Proof.
  revert l. induction names as [|y names IH]; intros l Hl Ha; [done|]. apply Forall_cons in Ha as [Hy Ha]. cbn [fmap list_fmap module_register_kernel_symbols fold_left sy_name sy_address length] in *.
  pose proof (register_length (Some y) (address y) l) as Hr. fold (module_register_kernel_symbols ((fun n => Symbol n (address n)) <$> names) (module_register_kernel_symbol (Some y) (address y) l)).
  rewrite IH by (done || lia). rewrite register_lookup by (done || lia). repeat case_bool_decide; set_solver.
Qed.

(** The names a module can refer to.  After start-up, whatever addresses the linker
    chose, a name has an address if and only if it is one of the 79 names of
    module_symbols.c, and then its own; [vfs_append] and [memset], which fs_module.c and
    ata_module.c call, are not among them. *)
Theorem exports_exact address n :
  Forall (fun y => address y ≠ 0) builtin_symbols →
  module_lookup_kernel_symbol (Some n) (module_register_builtin_symbols address []) = (if bool_decide (n ∈ builtin_symbols) then address n else 0) ∧
  (lit "vfs_append" ∉ builtin_symbols) ∧ (lit "memset" ∉ builtin_symbols).
Proof.
  intros Ha. split; [|split; by_eval]. apply (register_all address builtin_symbols [] n); [vm_compute; lia|done].
Qed.

End LoaderProps.
