(* ===== verification/Fonts.v ===== *)
(** Fonts (the parsers of kernel/vbe.c): the PSF2 and BDF formats, read into a table of
    glyphs.

    A buffer is the list of its bytes; a read behind its end, or a store outside the block
    the BDF parser takes from the heap, is [None].  [Some None] is a PSF parser that returns 0.
    Signed overflow of [int] is taken to wrap. *)

From S2P Require Import Prelude Arrays Bytes.
From S2P Require Memory Loader.

Module Fonts.

Import Bytes.

(** ** Parsed fonts *)

(** The glyphs are the bytes from [glyph_base] on. *)
Record parsed_font := Font {
  glyph_base : list Z;
  stride : Z;
  height : Z;
  width : Z;
  first_char : Z;
  glyph_count : Z;
  lsb_left : bool
}.

(** ** PSF2 *)

Definition PSF2_MAGIC : Z := 2253043058.
Definition PSF2_HEADER_SIZE : Z := 32.

(** [lsb] is the order of bits of the font in use. *)
Definition parse_psf_font (buffer : list Z) (lsb : bool) : option (option parsed_font) :=
  let size := Z.of_nat (length buffer) in
  if size <? PSF2_HEADER_SIZE then Some None
  else
    magic ← read_le32 buffer 0;
    header_size ← read_le32 buffer 8;
    count ← read_le32 buffer 16;
    glyph_size ← read_le32 buffer 20;
    h ← read_le32 buffer 24;
    w ← read_le32 buffer 28;
    if negb (magic =? PSF2_MAGIC) then Some None
    else if (header_size <? PSF2_HEADER_SIZE) || (size <? header_size) then Some None
    else
      let glyph_bytes := count *32 glyph_size in
      if (count =? 0) || (glyph_size =? 0) then Some None
      else if (h =? 0) || (w =? 0) then Some None
      else if size <? header_size +32 glyph_bytes then Some None
      else if negb (glyph_size mod h =? 0) then Some None
      else
        let row_bytes := glyph_size / h in
        if row_bytes =? 0 then Some None
        else if row_bytes *32 8 <? w then Some None
        else Some (Some (Font (drop (Z.to_nat header_size) buffer) glyph_size h w 0 count lsb)).

(** ** Characters *)

Definition hex_value (c : Z) : Z :=
  if (48 <=? c) && (c <=? 57) then c - 48
  else if (65 <=? c) && (c <=? 70) then 10 + (c - 65)
  else if (97 <=? c) && (c <=? 102) then 10 + (c - 97)
  else -1.

Definition blank (c : Z) : bool := (c =? 32) || (c =? 9).

Fixpoint skip_blanks (l : list Z) : list Z := match l with c :: l' => if blank c then skip_blanks l' else l | [] => [] end.

(** The line without blanks and returns at its end. *)
Fixpoint trim_end (l : list Z) : list Z :=
  match l with
  | [] => []
  | c :: l' => match trim_end l' with [] => if blank c || (c =? 13) then [] else [c] | r => c :: r end
  end.

Definition trim_spaces (l : list Z) : list Z := trim_end (skip_blanks l).

Definition digit (c : Z) : bool := (48 <=? c) && (c <=? 57).

(** The digits at the start: their value, and what is behind them. *)
Fixpoint digits_value (l : list Z) (value : Z) : Z * list Z :=
  match l with
  | c :: l' => if digit c then digits_value l' (s32 (value * 10 + (c - 48))) else (value, l)
  | [] => (value, [])
  end.

(** A number at the start of the rest of a line. *)
Definition parse_int_token (l : list Z) : option (Z * list Z) :=
  let s := skip_blanks l in
  let '(sign, s) := match s with c :: s' => if c =? 45 then (-1, s') else if c =? 43 then (1, s') else (1, s) | [] => (1, s) end in
  match s with
  | c :: _ => if digit c then let '(value, rest) := digits_value s 0 in Some (s32 (value * sign), rest) else None
  | [] => None
  end.

(** [memcmp] with the [n] first bytes behind a position: it stops at a difference. *)
Fixpoint same_bytes (text l : list Z) : option bool :=
  match text, l with
  | [], _ => Some true
  | _ :: _, [] => None
  | t :: text', c :: l' => if c =? t then same_bytes text' l' else Some false
  end.

(** ** BDF *)

Definition GLYPH_CAPACITY : Z := 256.

Record bdf := Bdf {
  heap : Memory.Memory.heap;
  bbox_width : Z;
  bbox_height : Z;
  have_bbox : bool;
  row_bytes : Z;
  glyph_stride : Z;
  glyph_data : list Z;
  max_encoding : Z;
  max_dwidth : Z;
  in_glyph : bool;
  glyph_height : Z;
  bitmap_active : bool;
  bitmap_row : Z;
  glyph_target : option Z
}.

Definition start_bdf (h : Memory.Memory.heap) : bdf := Bdf h 0 0 false 0 0 [] (-1) 0 false 0 false 0 None.

Definition set_box (h : Memory.Memory.heap) (w ht rb st : Z) (data : list Z) (b : bdf) : bdf :=
  Bdf h w ht true rb st data (max_encoding b) (max_dwidth b) (in_glyph b) (glyph_height b) (bitmap_active b) (bitmap_row b) (glyph_target b).
Definition set_glyph (inside : bool) (ht : Z) (active : bool) (row : Z) (target : option Z) (b : bdf) : bdf :=
  Bdf (heap b) (bbox_width b) (bbox_height b) (have_bbox b) (row_bytes b) (glyph_stride b) (glyph_data b) (max_encoding b) (max_dwidth b)
    inside ht active row target.
Definition set_data (data : list Z) (m : Z) (b : bdf) : bdf :=
  Bdf (heap b) (bbox_width b) (bbox_height b) (have_bbox b) (row_bytes b) (glyph_stride b) data m (max_dwidth b)
    (in_glyph b) (glyph_height b) (bitmap_active b) (bitmap_row b) (glyph_target b).
Definition set_dwidth (d : Z) (b : bdf) : bdf :=
  Bdf (heap b) (bbox_width b) (bbox_height b) (have_bbox b) (row_bytes b) (glyph_stride b) (glyph_data b) (max_encoding b) d
    (in_glyph b) (glyph_height b) (bitmap_active b) (bitmap_row b) (glyph_target b).

(** The parser goes on, or returns 0. *)
Definition go (b : bdf) : option (bool * bdf) := Some (true, b).
Definition stop (b : bdf) : option (bool * bdf) := Some (false, b).

(** The four numbers of a box. *)
Definition parse_box (l : list Z) : option (Z * Z) :=
  '(w, l) ← parse_int_token l; '(h, l) ← parse_int_token l; '(_, l) ← parse_int_token l; '(_, _) ← parse_int_token l; Some (w, h).

(** A line that may declare the box: the rest of the buffer from its first character on,
    and the line. *)
Definition bounding_box (rest line : list Z) (b : bdf) : option (bool * bdf) :=
  let prefix := lit "FONTBOUNDINGBOX" in
  if (length line <? length prefix)%nat then go b
  else
    same ← same_bytes prefix rest;
    if negb same then go b
    else match parse_box (drop (length prefix) line) with
    | None => stop b
    | Some (w, h) =>
        if (w <=? 0) || (h <=? 0) then stop b
        else
          let rb := (w +32 7) / 8 in
          let st := rb *32 h in
          if st =? 0 then stop b
          else
            '(p, hp) ← Loader.Loader.kalloc_zero (st *32 GLYPH_CAPACITY) (heap b);
            match p with
            | None => stop b
            | Some (_, data) => go (set_box hp w h rb st data b)
            end
    end.

Definition encoding (line : list Z) (b : bdf) : option (bool * bdf) :=
  match parse_int_token (drop 8 line) with
  | None => go b
  | Some (value, _) =>
      if (0 <=? value) && (value <? GLYPH_CAPACITY) then
        let target := value *32 glyph_stride b in
        data ← Loader.Loader.store_bytes (glyph_data b) target (glyph_stride b) (Loader.Loader.zeros (glyph_stride b) (glyph_data b));
        go (set_glyph (in_glyph b) (glyph_height b) (bitmap_active b) (bitmap_row b) (Some target)
                      (set_data data (if max_encoding b <? value then value else max_encoding b) b))
      else go (set_glyph (in_glyph b) (glyph_height b) (bitmap_active b) (bitmap_row b) None b)
  end.

(** The bytes of pairs of hexadecimal digits, up to the first pair that is not one. *)
Fixpoint hex_bytes (l : list Z) : list Z :=
  match l with
  | hi :: lo :: l' => if (hex_value hi <? 0) || (hex_value lo <? 0) then [] else u8 (Z.lor (Z.shiftl (hex_value hi) 4) (hex_value lo)) :: hex_bytes l'
  | _ => []
  end.

(** Exactly [n] bytes: cut, or filled up with zeroes. *)
Definition row_buffer (n : nat) (l : list Z) : list Z := take n (hex_bytes l) ++ replicate (n - length (hex_bytes l)) 0.

Definition bitmap_line (line : list Z) (target : Z) (b : bdf) : option (bool * bdf) :=
  if 128 <? row_bytes b then stop b
  else
    data ← (if (bitmap_row b <? glyph_height b) && (bitmap_row b <? bbox_height b)
            then Loader.Loader.store_bytes (glyph_data b) (target +32 (bitmap_row b *32 row_bytes b)) (row_bytes b) (row_buffer (Z.to_nat (row_bytes b)) line)
            else Some (glyph_data b));
    let row := bitmap_row b +32 1 in
    go (set_glyph (in_glyph b) (glyph_height b) (if glyph_height b <=? row then false else bitmap_active b) row (Some target)
                  (set_data data (max_encoding b) b)).

(** Whether a line of at least [n] characters starts with the keyword. *)
Definition keyword (n : nat) (k : cstring) (rest line : list Z) : option bool := if (length line <? n)%nat then Some false else same_bytes k rest.
Definition inner_keyword (n : nat) (k : cstring) (rest line : list Z) (b : bdf) : option bool := if in_glyph b then keyword n k rest line else Some false.

(** A line behind the box. *)
Definition glyph_line (rest line : list Z) (b : bdf) : option (bool * bdf) :=
  starts ← keyword 8 (lit "STARTCHAR") rest line;
  if (starts : bool) then go (set_glyph true (bbox_height b) false 0 None b)
  else
    ends ← inner_keyword 8 (lit "ENDCHAR") rest line b;
    if (ends : bool) then go (set_glyph false (glyph_height b) false (bitmap_row b) None b)
    else
      enc ← inner_keyword 8 (lit "ENCODING") rest line b;
      if (enc : bool) then encoding line b
      else
        dw ← inner_keyword 6 (lit "DWIDTH") rest line b;
        if (dw : bool) then
          match parse_int_token (drop 6 line) with
          | Some (value, _) => go (if (0 <? value) && (max_dwidth b <? value) then set_dwidth value b else b)
          | None => go b
          end
        else
          box ← inner_keyword 3 (lit "BBX") rest line b;
          if (box : bool) then
            match parse_box (drop 3 line) with
            | None => stop b
            | Some (_, h) => go (set_glyph (in_glyph b) (if 0 <? h then h else glyph_height b) (bitmap_active b) (bitmap_row b) (glyph_target b) b)
            end
          else
            bits ← inner_keyword 6 (lit "BITMAP") rest line b;
            if (bits : bool) then go (set_glyph (in_glyph b) (glyph_height b) true 0 (glyph_target b) b)
            else match glyph_target b with
            | Some target => if bitmap_active b && (0 <? row_bytes b) then bitmap_line line target b else go b
            | None => go b
            end.

(** Everything up to the next newline. *)
Fixpoint line_of (l : list Z) : list Z := match l with [] => [] | c :: l' => if c =? 10 then [] else c :: line_of l' end.

(** The rest of the buffer at the start of each line. *)
Fixpoint line_starts (l : list Z) (at_start : bool) : list (list Z) :=
  match l with
  | [] => []
  | c :: l' => if at_start then l :: line_starts l' (c =? 10) else line_starts l' (c =? 10)
  end.

(** [rest] is the buffer from the start of the line on. *)
Definition bdf_line (rest : list Z) (b : bdf) : option (bool * bdf) :=
  let line := trim_spaces (line_of rest) in
  let rest := drop (length (line_of rest) - length (skip_blanks (line_of rest))) rest in
  match line with
  | [] => go b
  | _ => if have_bbox b then glyph_line rest line b else bounding_box rest line b
  end.

Fixpoint bdf_lines (l : list (list Z)) (b : bdf) : option (bool * bdf) :=
  match l with
  | [] => go b
  | rest :: l' => '(more, b) ← bdf_line rest b; if (more : bool) then bdf_lines l' b else stop b
  end.

Definition bdf_font (b : bdf) : parsed_font :=
  let max_width := row_bytes b *32 8 in
  let w := if 0 <? max_dwidth b then (if max_dwidth b <? max_width then max_dwidth b else max_width) else bbox_width b in
  let w := if w =? 0 then (if bbox_width b =? 0 then 1 else bbox_width b) else w in
  let w := if max_width <? w then max_width else w in
  let count := if 0 <=? max_encoding b then max_encoding b + 1 else GLYPH_CAPACITY in
  Font (glyph_data b) (glyph_stride b) (bbox_height b) w 0 (if GLYPH_CAPACITY <? count then GLYPH_CAPACITY else count) false.

(** The font, if there is one, and the heap. *)
Definition parse_bdf_font (buffer : list Z) (h : Memory.Memory.heap) : option (option parsed_font * Memory.Memory.heap) :=
  '(more, b) ← bdf_lines (line_starts buffer true) (start_bdf h);
  Some (if more && have_bbox b then Some (bdf_font b) else None, heap b).

End Fonts.
