(* ===== verification/FontProps.v ===== *)
(** The BDF format: a font written as a BDF file is the font the parser reads. *)

From S2P Require Import Prelude Arrays Bytes Fonts.
From S2P Require Memory Block BlockVolumes Loader LoaderRun.

Module FontProps.

Import Bytes Fonts.

Abbreviation decimal := Block.Block.decimal.
Abbreviation undigits := BlockVolumes.BlockVolumes.undigits.

(** ** Numbers *)

Lemma digits_digits n v : Forall (fun c => digit c = true) (Block.Block.digits n v).
Proof.
  revert v. induction n as [|n IH]; intros v; cbn [Block.Block.digits]; [constructor|]. destruct (v <=? 0); [constructor|]. apply Forall_app. split; [apply IH|]. constructor; [|constructor].
  unfold digit. pose proof (Z.mod_pos_bound v 10). lia.
Qed.

Lemma decimal_digits v : Forall (fun c => digit c = true) (decimal v).
Proof. unfold Block.Block.decimal. destruct (v =? 0); [by repeat constructor|apply digits_digits]. Qed.

Lemma decimal_value v : 0 ≤ v < 2 ^ 32 → undigits (decimal v) = v.
Proof. intros Hv. unfold Block.Block.decimal. destruct (Z.eqb_spec v 0) as [->|]; [done|]. apply BlockVolumes.BlockVolumes.undigits_digits. cbn. lia. Qed.

(** The last digit, and at least one. *)
Lemma decimal_snoc v : 0 ≤ v → ∃ l c, decimal v = l ++ [c] ∧ digit c = true.
Proof.
  intros Hv. pose proof (decimal_digits v) as Hd. destruct (decide (decimal v = [])) as [E|Hne].
  - exfalso. revert E. unfold Block.Block.decimal. destruct (Z.eqb_spec v 0); [done|]. cbn [Block.Block.digits]. destruct (Z.leb_spec v 0); [lia|]. intros E. by apply app_nil in E as [_ E].
  - destruct (exists_last Hne) as (l & c & E). exists l, c. split; [done|]. rewrite E in Hd. apply Forall_app in Hd as [_ Hd]. by apply Forall_inv in Hd.
Qed.

Lemma decimal_cons v : 0 ≤ v → ∃ c l, decimal v = c :: l ∧ digit c = true.
Proof.
  intros Hv. destruct (decimal_snoc v Hv) as (l & c & E & Hc). pose proof (decimal_digits v) as Hd. rewrite E in *. destruct l as [|d l]; [by exists c, []|]. exists d, (l ++ [c]). split; [done|]. by apply Forall_inv in Hd.
Qed.

Lemma value_grows l a : Forall (fun c => digit c = true) l → 0 ≤ a → a ≤ foldl (fun a c => a * 10 + (c - 48)) a l.
Proof. intros Hl. revert a. induction Hl as [|c l Hc _ IH]; intros a Ha; cbn; [lia|]. unfold digit in Hc. specialize (IH (a * 10 + (c - 48)) ltac:(lia)). lia. Qed.

Lemma digits_value_ok l a rest :
  Forall (fun c => digit c = true) l → 0 ≤ a → foldl (fun a c => a * 10 + (c - 48)) a l < 2147483648 → match rest with c :: _ => digit c = false | [] => True end →
  digits_value (l ++ rest) a = (foldl (fun a c => a * 10 + (c - 48)) a l, rest).
Proof.
  intros Hl. revert a. induction Hl as [|c l Hc Hl IH]; intros a Ha Hs Hr; cbn [app digits_value foldl].
  - destruct rest as [|c rest]; [done|]. cbn. by rewrite Hr.
  - rewrite Hc. unfold digit in Hc. cbn in Hs. pose proof (value_grows l (a * 10 + (c - 48)) Hl ltac:(lia)). rewrite s32_small by lia. apply IH; [lia|done|done].
Qed.

(** A number behind one blank. *)
Lemma parse_decimal v rest : 0 ≤ v < 2147483648 → match rest with c :: _ => digit c = false | [] => True end → parse_int_token (32 :: decimal v ++ rest) = Some (v, rest).
Proof.
  intros Hv Hr. unfold parse_int_token. cbn [skip_blanks]. change (blank 32) with true. cbn iota. destruct (decimal_cons v ltac:(lia)) as (c & l & E & Hc).
  assert (Hsk : skip_blanks (decimal v ++ rest) = decimal v ++ rest). { rewrite E. cbn. unfold digit in Hc. unfold blank. by rewrite !(proj2 (Z.eqb_neq _ _)) by lia. }
  rewrite Hsk. pose proof (digits_value_ok (decimal v) 0 rest (decimal_digits v) ltac:(lia)) as Hd. fold (undigits (decimal v)) in Hd. rewrite decimal_value in Hd by lia. specialize (Hd ltac:(lia) Hr).
  rewrite E in *. cbn [app] in *. pose proof Hc as Hc'. unfold digit in Hc'. rewrite (proj2 (Z.eqb_neq c 45)), (proj2 (Z.eqb_neq c 43)) by lia. rewrite Hc, Hd. rewrite s32_small by lia. do 2 f_equal. lia.
Qed.

(** ** Lines *)

(** A line that is what is left when it is trimmed. *)
Record clean (l : list Z) : Prop := {
  cl_line : Forall (fun c => c ≠ 10) l;
  cl_head : ∃ c l', l = c :: l' ∧ blank c = false;
  cl_last : ∃ l' c, l = l' ++ [c] ∧ blank c = false ∧ c ≠ 13
}.

(** A check for fixed lines. *)
Definition is_clean (l : list Z) : bool :=
  forallb (fun c => negb (c =? 10)) l && match l with c :: _ => negb (blank c) | [] => false end && match reverse l with c :: _ => negb (blank c || (c =? 13)) | [] => false end.

Lemma is_clean_ok l : is_clean l = true → clean l.
Proof.
  unfold is_clean. intros H. apply andb_true_iff in H as [H H3]. apply andb_true_iff in H as [H1 H2]. constructor.
  - apply Forall_forall. intros c Hc. rewrite forallb_forall in H1. specialize (H1 c ltac:(by apply list_elem_of_In)). apply negb_true_iff, Z.eqb_neq in H1. done.
  - destruct l as [|c l]; [done|]. exists c, l. split; [done|]. by apply negb_true_iff.
  - destruct (reverse l) as [|c l'] eqn:E; [done|]. exists (reverse l'), c. apply negb_true_iff, orb_false_iff in H3 as [Hb Hc]. split; [|split; [done|by apply Z.eqb_neq]].
    by rewrite <- (reverse_involutive l), E, reverse_cons.
Qed.

Definition print (lines : list (list Z)) : list Z := concat ((fun l => l ++ [10]) <$> lines).

Lemma line_of_clean l rest : clean l → line_of (l ++ 10 :: rest) = l.
Proof. intros [Hl _ _]. induction Hl as [|c l Hc _ IH]; [done|]. cbn. rewrite (proj2 (Z.eqb_neq c 10)) by done. by rewrite IH. Qed.

Lemma trim_end_snoc l c : blank c = false → c ≠ 13 → trim_end (l ++ [c]) = l ++ [c].
Proof.
  intros Hb Hc. induction l as [|d l IH]; cbn.
  - rewrite Hb, (proj2 (Z.eqb_neq c 13)) by done. done.
  - rewrite IH. by destruct (l ++ [c]) eqn:E; [apply app_nil in E as [_ ?]|].
Qed.

Lemma skip_clean l : clean l → skip_blanks l = l.
Proof. intros [_ (c & l' & -> & Hc) _]. cbn. by rewrite Hc. Qed.

Lemma trim_clean l : clean l → trim_spaces l = l.
Proof. intros Hl. unfold trim_spaces. rewrite (skip_clean l Hl). destruct Hl as [_ _ (l' & c & -> & Hb & Hc)]. by apply trim_end_snoc. Qed.

Lemma starts_inside l rest : Forall (fun c => c ≠ 10) l → line_starts (l ++ 10 :: rest) false = line_starts rest true.
Proof. induction 1 as [|c l Hc _ IH]; [done|]. cbn. rewrite (proj2 (Z.eqb_neq c 10)) by done. done. Qed.

Lemma starts_clean l rest : clean l → line_starts (l ++ 10 :: rest) true = (l ++ 10 :: rest) :: line_starts rest true.
Proof.
  intros [Hl (c & l' & -> & _) _]. cbn [app line_starts]. f_equal. apply Forall_cons in Hl as [Hc Hl]. rewrite (proj2 (Z.eqb_neq c 10)) by done. by apply starts_inside.
Qed.

Lemma bdf_line_clean l rest b : clean l → bdf_line (l ++ 10 :: rest) b = if have_bbox b then glyph_line (l ++ 10 :: rest) l b else bounding_box (l ++ 10 :: rest) l b.
Proof.
  intros Hl. unfold bdf_line. rewrite (line_of_clean l rest Hl), (trim_clean l Hl), (skip_clean l Hl), Nat.sub_diag, drop_0. destruct Hl as [_ (c & l' & -> & _) _]. done.
Qed.

(** The parser on lines. *)
Definition parse_lines (lines : list (list Z)) (b : bdf) : option (bool * bdf) := bdf_lines (line_starts (print lines) true) b.

Lemma parse_next l lines b b' :
  clean l → (∀ rest, (if have_bbox b then glyph_line (l ++ 10 :: rest) l b else bounding_box (l ++ 10 :: rest) l b) = go b') → parse_lines (l :: lines) b = parse_lines lines b'.
Proof.
  intros Hl Hb. unfold parse_lines, print. cbn [fmap list_fmap concat]. rewrite <- app_assoc. cbn [app]. rewrite starts_clean by done. cbn [bdf_lines]. rewrite bdf_line_clean, Hb by done. done.
Qed.

(** ** Files *)

Record glyph := Glyph { code : Z; grows : list (list Z) }.

Definition hex_digit (n : Z) : Z := if n <? 10 then 48 + n else 55 + n.
Definition print_row (row : list Z) : list Z := concat ((fun b => [hex_digit (b / 16); hex_digit (b mod 16)]) <$> row).

Lemma digit_clean c : digit c = true → blank c = false ∧ c ≠ 13 ∧ c ≠ 10.
Proof. unfold digit, blank. intros H. rewrite !(proj2 (Z.eqb_neq _ _)) by lia. lia. Qed.

Lemma digits_line l : Forall (fun c => digit c = true) l → Forall (fun c => c ≠ 10) l.
Proof. intros Hl. eapply Forall_impl; [exact Hl|]. intros c Hc. by apply digit_clean. Qed.

(** Hexadecimal digits. *)
Definition hexed (c : Z) : Prop := (48 ≤ c ≤ 57) ∨ (65 ≤ c ≤ 70).

Lemma hex_digit_hexed n : 0 ≤ n < 16 → hexed (hex_digit n) ∧ hex_value (hex_digit n) = n.
Proof.
  intros Hn. unfold hex_digit, hex_value, hexed. destruct (Z.ltb_spec n 10).
  - rewrite (proj2 (andb_true_iff (48 <=? 48 + n) _)) by lia. lia.
  - rewrite (proj2 (andb_false_iff (48 <=? 55 + n) (55 + n <=? 57))) by lia. rewrite (proj2 (andb_true_iff (65 <=? 55 + n) _)) by lia. lia.
Qed.

Lemma byte_nibbles b : byte b → 0 ≤ b / 16 < 16 ∧ 0 ≤ b mod 16 < 16 ∧ u8 (Z.lor (Z.shiftl (b / 16) 4) (b mod 16)) = b.
Proof.
  intros Hb. unfold byte in Hb. pose proof (Z.mod_pos_bound b 16 ltac:(lia)). assert (0 ≤ b / 16 < 16) by (split; [apply Z.div_pos; lia|apply Z.div_lt_upper_bound; lia]). split; [done|]. split; [done|].
  rewrite Z.lor_comm, lor_shiftl by lia. pose proof (Z.div_mod b 16 ltac:(lia)). change (2 ^ 4) with 16. replace (b mod 16 + b / 16 * 16) with b by lia. apply u8_small. lia.
Qed.

(** Rows of bytes. *)
Lemma print_row_hexed row : bytes row → Forall hexed (print_row row).
Proof.
  unfold print_row. induction 1 as [|b row Hb _ IH]; [constructor|]. cbn. destruct (byte_nibbles b Hb) as (H1 & H2 & _). constructor; [by apply hex_digit_hexed|]. constructor; [by apply hex_digit_hexed|done].
Qed.

Lemma hex_bytes_row row : bytes row → hex_bytes (print_row row) = row.
Proof.
  unfold print_row. induction 1 as [|b row Hb _ IH]; [done|]. cbn [fmap list_fmap concat app hex_bytes]. destruct (byte_nibbles b Hb) as (H1 & H2 & H3). destruct (hex_digit_hexed _ H1) as [_ ->]. destruct (hex_digit_hexed _ H2) as [_ ->].
  rewrite !(proj2 (Z.ltb_ge _ 0)) by lia. cbn [orb]. rewrite H3. f_equal. exact IH.
Qed.

Lemma row_clean row : bytes row → row ≠ [] → clean (print_row row).
Proof.
  intros Hr Hne. pose proof (print_row_hexed row Hr) as Hx. assert (Hh : ∀ c, hexed c → blank c = false ∧ c ≠ 13 ∧ c ≠ 10) by (intros c Hc; unfold hexed, blank in *; rewrite !(proj2 (Z.eqb_neq _ _)) by lia; lia).
  assert (Hn : print_row row ≠ []) by (by destruct row). constructor.
  - eapply Forall_impl; [exact Hx|]. intros c Hc. by apply Hh.
  - destruct (print_row row) as [|c l]; [done|]. exists c, l. split; [done|]. apply Forall_inv in Hx. by apply Hh.
  - destruct (exists_last Hn) as (l & c & E). exists l, c. split; [done|]. rewrite E in Hx. apply Forall_app in Hx as [_ Hx]. apply Forall_inv in Hx. destruct (Hh c Hx) as (? & ? & _). done.
Qed.

(** No keyword starts with hexadecimal digits only. *)
Lemma no_keyword n k l rest : same_bytes k (l ++ 10 :: rest) = Some false ∨ (length l < n)%nat → keyword n k (l ++ 10 :: rest) l = Some false.
Proof. intros H. unfold keyword. destruct (Nat.ltb_spec (length l) n); [done|]. destruct H; [done|lia]. Qed.

Ltac eval_lit := match goal with |- context [lit ?s] => let k := eval vm_compute in (lit s) in change (lit s) with k end.

Lemma hexed_keywords c1 c2 l rest :
  hexed c1 → hexed c2 → Forall hexed l → let line := c1 :: c2 :: l in let rest := line ++ 10 :: rest in
  keyword 8 (lit "STARTCHAR") rest line = Some false ∧ keyword 8 (lit "ENDCHAR") rest line = Some false ∧ keyword 8 (lit "ENCODING") rest line = Some false ∧
  keyword 6 (lit "DWIDTH") rest line = Some false ∧ keyword 3 (lit "BBX") rest line = Some false ∧ keyword 6 (lit "BITMAP") rest line = Some false.
Proof.
  unfold hexed. intros H1 H2 Hl. cbn zeta. repeat split; apply no_keyword.
  - left. eval_lit. cbn. by rewrite (proj2 (Z.eqb_neq c1 83)) by lia.
  - left. eval_lit. cbn. destruct (c1 =? 69); [|done]. by rewrite (proj2 (Z.eqb_neq c2 78)) by lia.
  - left. eval_lit. cbn. destruct (c1 =? 69); [|done]. by rewrite (proj2 (Z.eqb_neq c2 78)) by lia.
  - left. eval_lit. cbn. destruct (c1 =? 68); [|done]. by rewrite (proj2 (Z.eqb_neq c2 87)) by lia.
  - destruct l as [|c3 l]; [right; cbn; lia|left]. apply Forall_cons in Hl as [H3 _]. eval_lit. cbn. destruct (c1 =? 66); [|done]. destruct (c2 =? 66); [|done]. by rewrite (proj2 (Z.eqb_neq c3 88)) by lia.
  - left. eval_lit. cbn. destruct (c1 =? 66); [|done]. by rewrite (proj2 (Z.eqb_neq c2 73)) by lia.
Qed.

Lemma row_keywords l rest b :
  Forall hexed l → (2 ≤ length l)%nat → in_glyph b = true →
  glyph_line (l ++ 10 :: rest) l b = match glyph_target b with Some target => if bitmap_active b && (0 <? row_bytes b) then bitmap_line l target b else go b | None => go b end.
Proof.
  intros Hl Hn Hin. destruct l as [|c1 [|c2 l]]; [cbn in Hn; lia|cbn in Hn; lia|]. apply Forall_cons in Hl as [H1 Hl]. apply Forall_cons in Hl as [H2 Hl].
  destruct (hexed_keywords c1 c2 l rest H1 H2 Hl) as (K1 & K2 & K3 & K4 & K5 & K6). unfold glyph_line, inner_keyword. rewrite Hin, K1. cbn [mbind option_bind]. rewrite K2. cbn [mbind option_bind]. rewrite K3. cbn [mbind option_bind].
  rewrite K4. cbn [mbind option_bind]. rewrite K5. cbn [mbind option_bind]. rewrite K6. done.
Qed.

Section file.
Context (w h : Z).

Definition print_box (k : cstring) : list Z := k ++ 32 :: decimal w ++ 32 :: decimal h ++ lit " 0 0".
Definition encoding_line (g : glyph) : list Z := lit "ENCODING" ++ 32 :: decimal (code g).
Definition dwidth_line : list Z := lit "DWIDTH" ++ 32 :: decimal w ++ lit " 0".

Definition glyph_lines (g : glyph) : list (list Z) :=
  [lit "STARTCHAR glyph"; encoding_line g; dwidth_line; print_box (lit "BBX"); lit "BITMAP"] ++ (print_row <$> grows g) ++ [lit "ENDCHAR"].

Definition font_lines (glyphs : list glyph) : list (list Z) :=
  [lit "STARTFONT 2.1"; print_box (lit "FONTBOUNDINGBOX")] ++ concat (glyph_lines <$> glyphs) ++ [lit "ENDFONT"].

Definition rb : Z := (w + 7) / 8.
Definition st : Z := rb * h.

Record glyph_ok (g : glyph) : Prop := {
  go_code : 0 ≤ code g < 256;
  go_rows : Z.of_nat (length (grows g)) = h;
  go_row : Forall (fun row => Z.of_nat (length row) = rb ∧ bytes row) (grows g)
}.

Context (Hw : 0 < w ≤ 1024) (Hh : 0 < h) (Hst : rb * h * 256 < 2147483648).

Lemma rb_range : 1 ≤ rb ≤ 128 ∧ w ≤ rb * 8.
Proof using Hw.
  unfold rb. split; [split; [apply Z.div_le_lower_bound; lia|apply Z.lt_succ_r, Z.div_lt_upper_bound; lia]|]. pose proof (Z.mod_pos_bound (w + 7) 8). pose proof (Z.div_mod (w + 7) 8). lia.
Qed.

Lemma h_small : h < 2147483648 ∧ 0 < st ∧ st * 256 < 2147483648.
Proof using Hw Hh Hst. pose proof rb_range. unfold st. nia. Qed.

(** *** The lines are clean *)

Lemma box_clean c k : c ≠ 10 → blank c = false → Forall (fun c => c ≠ 10) k → clean (print_box (c :: k)).
Proof.
  intros Hc Hb Hk. constructor.
  - unfold print_box. cbn [app]. constructor; [done|]. apply Forall_app. split; [done|]. constructor; [lia|]. apply Forall_app. split; [apply digits_line, decimal_digits|]. constructor; [lia|].
    apply Forall_app. split; [apply digits_line, decimal_digits|]. by repeat constructor.
  - exists c. eexists. split; [done|done].
  - exists (c :: k ++ 32 :: decimal w ++ 32 :: decimal h ++ lit " 0 "), 48. split; [|done]. unfold print_box. cbn [app]. rewrite <- !app_assoc. cbn [app]. rewrite <- !app_assoc. cbn [app]. rewrite <- !app_assoc. done.
Qed.

Lemma encoding_clean g : 0 ≤ code g → clean (encoding_line g).
Proof.
  intros Hg. constructor.
  - unfold encoding_line. apply Forall_app. split; [by repeat constructor|]. constructor; [lia|]. apply digits_line, decimal_digits.
  - by repeat eexists.
  - destruct (decimal_snoc (code g) Hg) as (l & c & E & Hc). exists (lit "ENCODING" ++ 32 :: l), c. unfold encoding_line. rewrite E. split; [by rewrite <- app_assoc|]. destruct (digit_clean c Hc) as (? & ? & _). done.
Qed.

Lemma dwidth_clean : clean dwidth_line.
Proof.
  constructor.
  - unfold dwidth_line. apply Forall_app. split; [by repeat constructor|]. constructor; [lia|]. apply Forall_app. split; [apply digits_line, decimal_digits|]. by repeat constructor.
  - by repeat eexists.
  - exists (lit "DWIDTH" ++ 32 :: decimal w ++ lit " "), 48. unfold dwidth_line. split; [|done]. rewrite <- !app_assoc. cbn [app]. rewrite <- !app_assoc. done.
Qed.

(** *** What each line does *)

Definition state (hp : Memory.Memory.heap) (data : list Z) (m dw : Z) (inside : bool) (gh : Z) (active : bool) (row : Z) (target : option Z) : bdf :=
  Bdf hp w h true rb st data m dw inside gh active row target.

Lemma start_line hp data m dw i gh a r t rest :
  glyph_line (lit "STARTCHAR glyph" ++ 10 :: rest) (lit "STARTCHAR glyph") (state hp data m dw i gh a r t) = go (state hp data m dw true h false 0 None).
Proof. reflexivity. Qed.

Lemma end_line hp data m dw i gh r t rest :
  glyph_line (lit "ENDCHAR" ++ 10 :: rest) (lit "ENDCHAR") (state hp data m dw i gh false r t) = go (state hp data m dw i gh false r t).
Proof. by destruct i, t. Qed.

Lemma endfont_line hp data m dw i gh r t rest :
  glyph_line (lit "ENDFONT" ++ 10 :: rest) (lit "ENDFONT") (state hp data m dw i gh false r t) = go (state hp data m dw i gh false r t).
Proof. by destruct i, t. Qed.

Lemma bitmap_keyword hp data m dw gh a r t rest :
  glyph_line (lit "BITMAP" ++ 10 :: rest) (lit "BITMAP") (state hp data m dw true gh a r t) = go (state hp data m dw true gh true 0 t).
Proof. reflexivity. Qed.

Definition cleared (g : glyph) (data : list Z) : list Z :=
  take (Z.to_nat (code g * st)) data ++ replicate (Z.to_nat st) 0 ++ drop (Z.to_nat (code g * st) + Z.to_nat st) data.

Lemma slot_small g : glyph_ok g → 0 ≤ code g * st ∧ code g * st + st ≤ st * 256.
Proof using Hw Hh Hst. intros [Hc _ _]. pose proof h_small. nia. Qed.

Lemma encoding_keyword g hp data m dw gh a r t rest :
  glyph_ok g → Z.of_nat (length data) = st * 256 →
  glyph_line (encoding_line g ++ 10 :: rest) (encoding_line g) (state hp data m dw true gh a r t) =
    go (state hp (cleared g data) (if m <? code g then code g else m) dw true gh a r (Some (code g * st))).
Proof using Hw Hh Hst.
  intros Hg Hl. pose proof (slot_small g Hg) as Hs. pose proof h_small as (_ & Hpos & Hsmall). pose proof (go_code g Hg) as Hc.
  change (encoding (encoding_line g) (state hp data m dw true gh a r t) = go (state hp (cleared g data) (if m <? code g then code g else m) dw true gh a r (Some (code g * st)))). unfold encoding.
  change (drop 8 (encoding_line g)) with (32 :: decimal (code g)). rewrite <- (app_nil_r (decimal (code g))), parse_decimal by (done || lia). unfold GLYPH_CAPACITY. rewrite (proj2 (andb_true_iff (0 <=? code g) _)) by lia.
  cbn [glyph_stride state glyph_data]. rewrite u32_small by lia. unfold Loader.Loader.store_bytes, Loader.Loader.zeros.
  rewrite (proj2 (Z.eqb_neq st 0)), (proj2 (Z.ltb_ge (Z.of_nat (length data)) (code g * st + st))), (proj2 (Z.ltb_ge (Z.of_nat (length data)) st)) by lia.
  rewrite buf_copy_ok by (rewrite length_replicate; lia). rewrite length_replicate. done.
Qed.

Lemma dwidth_keyword hp data m dw gh a r t rest :
  glyph_line (dwidth_line ++ 10 :: rest) dwidth_line (state hp data m dw true gh a r t) = go (state hp data m (if dw <? w then w else dw) true gh a r t).
Proof using Hw.
  set (l := dwidth_line). set (b := state hp data m dw true gh a r t). unfold glyph_line, inner_keyword. cbn [in_glyph b state].
  rewrite (no_keyword 8 (lit "STARTCHAR") l rest) by (left; reflexivity). cbn [mbind option_bind]. rewrite (no_keyword 8 (lit "ENDCHAR") l rest) by (left; reflexivity). cbn [mbind option_bind].
  rewrite (no_keyword 8 (lit "ENCODING") l rest) by (left; reflexivity). cbn [mbind option_bind]. change (keyword 6 (lit "DWIDTH") (l ++ 10 :: rest) l) with (Some true). cbn [mbind option_bind].
  change (drop 6 l) with (32 :: decimal w ++ lit " 0"). rewrite parse_decimal by (done || lia). cbn [max_dwidth b state]. rewrite (proj2 (Z.ltb_lt 0 w)) by lia. cbn [andb]. by destruct (dw <? w).
Qed.

Lemma parse_printed_box : parse_box (32 :: decimal w ++ 32 :: decimal h ++ lit " 0 0") = Some (w, h).
Proof using Hw Hh Hst. pose proof h_small. unfold parse_box. rewrite parse_decimal by (done || lia). cbn [mbind option_bind]. rewrite parse_decimal by (done || lia). cbn [mbind option_bind]. reflexivity. Qed.

Lemma bbx_keyword hp data m dw gh a r t rest :
  glyph_line (print_box (lit "BBX") ++ 10 :: rest) (print_box (lit "BBX")) (state hp data m dw true gh a r t) = go (state hp data m dw true h a r t).
Proof using Hw Hh Hst.
  set (l := print_box (lit "BBX")). unfold glyph_line, inner_keyword. cbn [in_glyph state].
  rewrite (no_keyword 8 (lit "STARTCHAR") l rest) by (left; reflexivity). cbn [mbind option_bind]. rewrite (no_keyword 8 (lit "ENDCHAR") l rest) by (left; reflexivity). cbn [mbind option_bind].
  rewrite (no_keyword 8 (lit "ENCODING") l rest) by (left; reflexivity). cbn [mbind option_bind]. rewrite (no_keyword 6 (lit "DWIDTH") l rest) by (left; reflexivity). cbn [mbind option_bind].
  change (keyword 3 (lit "BBX") (l ++ 10 :: rest) l) with (Some true). cbn [mbind option_bind]. change (drop 3 l) with (32 :: decimal w ++ 32 :: decimal h ++ lit " 0 0"). rewrite parse_printed_box, (proj2 (Z.ltb_lt 0 h)) by done. reflexivity.
Qed.

(** One row, stored. *)
Lemma row_line row rest hp A X B m dw i T :
  Z.of_nat (length row) = rb → bytes row → 0 ≤ i < h → 0 ≤ T → T + st ≤ st * 256 → Z.of_nat (length A) = T + i * rb → rb ≤ Z.of_nat (length X) →
  glyph_line (print_row row ++ 10 :: rest) (print_row row) (state hp (A ++ X ++ B) m dw true h true i (Some T)) =
    go (state hp (A ++ row ++ drop (Z.to_nat rb) X ++ B) m dw true h (i + 1 <? h) (i + 1) (Some T)).
Proof using Hw Hh Hst.
  intros Hl Hb Hi HT0 HT HA HX. pose proof rb_range as [Hrb _]. pose proof h_small as (Hhs & Hpos & Hsmall). assert (Hirb : 0 ≤ i * rb ∧ i * rb + rb ≤ st) by (unfold st; nia).
  assert (Hlen : (2 ≤ length (print_row row))%nat) by (destruct row as [|b row]; [cbn in Hl; lia|unfold print_row; cbn; lia]).
  rewrite row_keywords by (try done; by apply print_row_hexed). cbn [glyph_target state bitmap_active row_bytes andb]. rewrite (proj2 (Z.ltb_lt 0 rb)) by lia. unfold bitmap_line. cbn [state row_bytes bitmap_row glyph_height bbox_height glyph_data in_glyph bitmap_active max_encoding].
  rewrite (proj2 (Z.ltb_ge 128 rb)), !(proj2 (Z.ltb_lt i h)) by lia. cbn [andb]. rewrite (u32_small (i * rb)), (u32_small (T + _)), (u32_small (i + 1)) by lia.
  unfold Loader.Loader.store_bytes, row_buffer. rewrite (proj2 (Z.eqb_neq rb 0)) by lia. rewrite !length_app. rewrite (proj2 (Z.ltb_ge _ (T + i * rb + rb))) by lia. rewrite hex_bytes_row by done. rewrite take_ge by lia. replace (Z.to_nat rb - length row)%nat with 0%nat by lia.
  cbn [replicate]. rewrite app_nil_r, buf_copy_ok by (rewrite !length_app; lia). cbn [mbind option_bind]. replace (Z.to_nat (T + i * rb)) with (length A) by lia. rewrite take_app_length. rewrite drop_app_add. rewrite drop_app_le by lia.
  replace (length row) with (Z.to_nat rb) at 1 by lia. unfold go, state, set_glyph, set_data. cbn. do 3 f_equal. destruct (Z.leb_spec h (i + 1)), (Z.ltb_spec (i + 1) h); (done || lia).
Qed.

Lemma rows_lines rs more hp A X B m dw i T :
  Forall (fun row => Z.of_nat (length row) = rb ∧ bytes row) rs → 0 ≤ i → i + Z.of_nat (length rs) = h → 0 ≤ T → T + st ≤ st * 256 →
  Z.of_nat (length A) = T + i * rb → Z.of_nat (length X) = Z.of_nat (length rs) * rb →
  parse_lines ((print_row <$> rs) ++ more) (state hp (A ++ X ++ B) m dw true h (i <? h) i (Some T)) = parse_lines more (state hp (A ++ concat rs ++ B) m dw true h false h (Some T)).
Proof using Hw Hh Hst.
  intros Hrs. pose proof rb_range as [Hrb _]. revert i A X. induction Hrs as [|row rs [Hl Hb] _ IH]; intros i A X Hi Hn HT0 HT HA HX.
  - cbn in Hn, HX. replace i with h by lia. rewrite (proj2 (Z.ltb_ge h h)) by lia. destruct X; [done|cbn in HX; lia].
  - cbn [length] in Hn, HX. cbn [fmap list_fmap app]. rewrite (proj2 (Z.ltb_lt i h)) by lia.
    rewrite (parse_next _ _ _ (state hp (A ++ row ++ drop (Z.to_nat rb) X ++ B) m dw true h (i + 1 <? h) (i + 1) (Some T))).
    + replace (A ++ row ++ drop (Z.to_nat rb) X ++ B) with ((A ++ row) ++ drop (Z.to_nat rb) X ++ B) by (by rewrite <- app_assoc). rewrite IH by (rewrite ?length_app, ?length_drop; lia). cbn [concat]. by rewrite <- !app_assoc.
    + apply row_clean; [done|]. destruct row; [cbn in Hl; lia|done].
    + intros rest. cbn [have_bbox state]. apply row_line; (done || lia).
Qed.

(** *** Glyphs and files *)

(** The table with the rows of a glyph at its place. *)
Definition with_glyph (data : list Z) (g : glyph) : list Z :=
  take (Z.to_nat (code g * st)) data ++ concat (grows g) ++ drop (Z.to_nat (code g * st) + Z.to_nat st) data.

Definition higher (m : Z) (g : glyph) : Z := if m <? code g then code g else m.

Lemma rows_length rs : Forall (fun row => Z.of_nat (length row) = rb ∧ bytes row) rs → Z.of_nat (length (concat rs)) = Z.of_nat (length rs) * rb.
Proof using. induction 1 as [|row rs [Hl _] _ IH]; [done|]. cbn [concat length]. rewrite length_app. lia. Qed.

Lemma with_glyph_length data g : glyph_ok g → Z.of_nat (length data) = st * 256 → Z.of_nat (length (with_glyph data g)) = st * 256.
Proof using Hw Hh Hst.
  intros Hg Hl. pose proof (slot_small g Hg). pose proof h_small. unfold with_glyph. rewrite !length_app, length_take, length_drop. pose proof (rows_length _ (go_row g Hg)) as Hr. rewrite (go_rows g Hg) in Hr. unfold st in *. lia.
Qed.

Lemma glyph_parse g more hp data m dw i gh r t :
  glyph_ok g → Z.of_nat (length data) = st * 256 → dw = 0 ∨ dw = w →
  parse_lines (glyph_lines g ++ more) (state hp data m dw i gh false r t) = parse_lines more (state hp (with_glyph data g) (higher m g) w true h false h (Some (code g * st))).
Proof using Hw Hh Hst.
  intros Hg Hl Hdw. pose proof (slot_small g Hg) as [Hs1 Hs2]. pose proof h_small as (_ & Hpos & _). unfold glyph_lines. rewrite <- !app_assoc. cbn [app].
  rewrite (parse_next _ _ _ (state hp data m dw true h false 0 None)) by (by apply is_clean_ok || (intros; apply start_line)).
  rewrite (parse_next _ _ _ (state hp (cleared g data) (higher m g) dw true h false 0 (Some (code g * st)))); [|apply encoding_clean; by apply go_code|intros; by apply encoding_keyword].
  rewrite (parse_next _ _ _ (state hp (cleared g data) (higher m g) w true h false 0 (Some (code g * st)))); [|exact dwidth_clean|].
  2: { intros. cbn [have_bbox state]. rewrite dwidth_keyword. do 2 f_equal. destruct (Z.ltb_spec dw w); [done|lia]. }
  rewrite (parse_next _ _ _ (state hp (cleared g data) (higher m g) w true h false 0 (Some (code g * st)))); [|apply (box_clean 66 (lit "BX")); [lia|done|by repeat constructor]|intros; apply bbx_keyword].
  rewrite (parse_next _ _ _ (state hp (cleared g data) (higher m g) w true h (0 <? h) 0 (Some (code g * st)))).
  2: { by apply is_clean_ok. }
  2: { intros. rewrite (proj2 (Z.ltb_lt 0 h)) by done. apply bitmap_keyword. }
  unfold cleared. rewrite rows_lines; [|exact (go_row g Hg)|lia|rewrite (go_rows g Hg); lia|lia|lia|rewrite length_take; lia|rewrite length_replicate, (go_rows g Hg), Z2Nat.id by lia; unfold st; lia].
  apply parse_next; [by apply is_clean_ok|]. intros. apply end_line.
Qed.

Lemma glyphs_parse gs more hp data m dw i gh r t :
  Forall glyph_ok gs → Z.of_nat (length data) = st * 256 → dw = 0 ∨ dw = w →
  ∃ i' gh' r' t' dw', parse_lines (concat (glyph_lines <$> gs) ++ more) (state hp data m dw i gh false r t) =
      parse_lines more (state hp (foldl with_glyph data gs) (foldl higher m gs) dw' i' gh' false r' t') ∧ (dw' = dw ∨ dw' = w) ∧ (gs ≠ [] → dw' = w).
Proof using Hw Hh Hst.
  intros Hgs. revert data m dw i gh r t. induction Hgs as [|g gs Hg _ IH]; intros data m dw i gh r t Hl Hdw; [exists i, gh, r, t, dw; split; [done|]; split; [by left|done]|]. cbn [fmap list_fmap concat foldl]. rewrite <- app_assoc, glyph_parse by done.
  destruct (IH (with_glyph data g) (higher m g) w true h h (Some (code g * st))) as (i' & gh' & r' & t' & dw' & E & Hdw' & _); [by apply with_glyph_length|by right|].
  exists i', gh', r', t', dw'. split; [exact E|]. destruct Hdw' as [->| ->]; auto.
Qed.

Lemma box_line hp p hp' rest :
  Loader.Loader.kalloc_zero (st * 256) hp = Some (Some (p, replicate (Z.to_nat (st * 256)) 0), hp') →
  bounding_box (print_box (lit "FONTBOUNDINGBOX") ++ 10 :: rest) (print_box (lit "FONTBOUNDINGBOX")) (start_bdf hp) = go (state hp' (replicate (Z.to_nat (st * 256)) 0) (-1) 0 false 0 false 0 None).
Proof using Hw Hh Hst.
  intros Hk. pose proof h_small as (_ & Hpos & Hsmall). pose proof rb_range. set (l := print_box (lit "FONTBOUNDINGBOX")). unfold bounding_box. change (length l <? length (lit "FONTBOUNDINGBOX"))%nat with false. cbn iota.
  change (same_bytes (lit "FONTBOUNDINGBOX") (l ++ 10 :: rest)) with (Some true). cbn [mbind option_bind negb]. change (drop (length (lit "FONTBOUNDINGBOX")) l) with (32 :: decimal w ++ 32 :: decimal h ++ lit " 0 0").
  rewrite parse_printed_box, !(proj2 (Z.leb_gt _ 0)) by lia. cbn [orb]. rewrite (u32_small (w + 7)) by lia. fold rb. rewrite (u32_small (rb * h)) by (fold st; lia). fold st. rewrite (proj2 (Z.eqb_neq st 0)) by lia.
  unfold GLYPH_CAPACITY. rewrite u32_small by lia. cbn [heap start_bdf]. rewrite Hk. reflexivity.
Qed.

(** The font of the glyphs. *)
Definition font_of (gs : list glyph) : parsed_font :=
  Font (foldl with_glyph (replicate (Z.to_nat (st * 256)) 0) gs) st h w 0 (if 0 <=? foldl higher (-1) gs then foldl higher (-1) gs + 1 else 256) false.

Lemma higher_range gs m : Forall glyph_ok gs → m < 256 → foldl higher m gs < 256.
Proof using. intros Hgs. revert m. induction Hgs as [|g gs Hg _ IH]; intros m Hm; [done|]. cbn. apply IH. unfold higher. pose proof (go_code g Hg). case_match; lia. Qed.

(** Whether a glyph declares it or not, the width is that of the box. *)
Lemma resolved_width dw : dw = 0 ∨ dw = w →
  (let w1 := if 0 <? dw then (if dw <? rb * 8 then dw else rb * 8) else w in let w2 := if w1 =? 0 then (if w =? 0 then 1 else w) else w1 in if rb * 8 <? w2 then rb * 8 else w2) = w.
Proof using Hw.
  intros Hdw. pose proof rb_range as [_ Hr]. cbn zeta. assert (E : (if 0 <? dw then (if dw <? rb * 8 then dw else rb * 8) else w) = w) by (destruct (Z.ltb_spec 0 dw); [destruct (Z.ltb_spec dw (rb * 8))|]; lia).
  rewrite E, (proj2 (Z.eqb_neq w 0)), (proj2 (Z.ltb_ge _ w)) by lia. done.
Qed.

(** C25: A font written as a BDF file, a bounding box of any width up to 1024 pixels whose bytes
    times 256 stay below 2^31, and any number of glyphs that fill the box, with encodings
    below 256, widths and rows in hexadecimal, is read back by the parser exactly when there
    is memory for its table: the table has the rows of every glyph at its place and zeroes
    elsewhere (the last glyph wins when an encoding is repeated), the height and the width
    are those of the file, and the count is the highest encoding plus one, or 256 without
    a glyph. *)
Theorem bdf_roundtrip hp p hp' gs :
  Forall glyph_ok gs → Loader.Loader.kalloc_zero (st * 256) hp = Some (Some (p, replicate (Z.to_nat (st * 256)) 0), hp') →
  parse_bdf_font (print (font_lines gs)) hp = Some (Some (font_of gs), hp').
Proof using Hw Hh Hst.
  intros Hgs Hk. pose proof h_small as (_ & Hpos & Hsmall). pose proof rb_range as [Hrb Hwr]. unfold parse_bdf_font. change (bdf_lines (line_starts (print (font_lines gs)) true) (start_bdf hp)) with (parse_lines (font_lines gs) (start_bdf hp)).
  unfold font_lines. cbn [app]. rewrite (parse_next _ _ _ (start_bdf hp)) by (by apply is_clean_ok || done).
  rewrite (parse_next _ _ _ (state hp' (replicate (Z.to_nat (st * 256)) 0) (-1) 0 false 0 false 0 None)); [|apply (box_clean 70 (lit "ONTBOUNDINGBOX")); [lia|done|by repeat constructor]|intros; by apply (box_line hp p)].
  destruct (glyphs_parse gs [lit "ENDFONT"] hp' (replicate (Z.to_nat (st * 256)) 0) (-1) 0 false 0 0 None Hgs) as (i & gh & r & t & dw & -> & Hdw & _); [rewrite length_replicate; lia|by left|].
  rewrite (parse_next _ _ _ (state hp' (foldl with_glyph (replicate (Z.to_nat (st * 256)) 0) gs) (foldl higher (-1) gs) dw i gh false r t)); [|by apply is_clean_ok|intros; apply endfont_line].
  change (parse_lines [] ?b) with (go b). cbn [go mbind option_bind andb have_bbox state heap]. do 2 f_equal. unfold font_of, bdf_font. cbn [state row_bytes max_dwidth bbox_width glyph_data glyph_stride bbox_height max_encoding].
  rewrite (u32_small (rb * 8)) by lia. pose proof (higher_range gs (-1) Hgs ltac:(lia)). unfold GLYPH_CAPACITY.
  pose proof (resolved_width dw ltac:(destruct Hdw; auto)) as E. cbn zeta in E |- *. rewrite E. do 2 f_equal. destruct (0 <=? foldl higher (-1) gs); by rewrite (proj2 (Z.ltb_ge 256 _)) by lia.
Qed.

End file.

(** Two glyphs of 10 by 2 pixels. *)
Definition two_glyphs : list glyph := [Glyph 65 [[255; 192]; [128; 64]]; Glyph 63 [[0; 0]; [171; 128]]].

Lemma bdf_roundtrip_witness :
  parse_bdf_font (print (font_lines 10 2 two_glyphs)) Memory.Memory.memory_init = Some (Some (font_of 10 2 two_glyphs), Memory.Memory.Heap (Memory.Memory.HEAP_START_ADDR + 1024)).
Proof.
  apply (bdf_roundtrip 10 2 ltac:(lia) ltac:(lia) ltac:(vm_compute; reflexivity) Memory.Memory.memory_init Memory.Memory.HEAP_START_ADDR).
  - repeat constructor; unfold byte; cbn; lia.
  - vm_compute. reflexivity.
Defined.

End FontProps.
