(* ===== verification/Display.v ===== *)
(** The display (kernel/vbe.c and vga.c): drawing in the frame buffer, the console on it,
    and the text screen that shadows it.

    The frame buffer is the list of its pixels, the text memory the list of its cells, the
    characters and attributes of the console an array of rows of pairs.  A store outside
    one of them, or a read outside the bytes of the font, is [None].  The memory the boot
    loader describes, the embedded font and the files of the FAT volume are arguments. *)

From S2P Require Import Prelude Arrays Bytes Fonts.
From S2P Require Memory.

Module Display.

Import Bytes Fonts.

Definition CONSOLE_COLUMNS : Z := 160.
Definition CONSOLE_ROWS : Z := 64.
Definition DEFAULT_FONT_WIDTH : Z := 8.
Definition BOOT_INFO_MAGIC : Z := 1397707344.

(** ** State *)

Record font := FontState {
  font_base : list Z;
  font_stride : Z;
  font_height_px : Z;
  font_width_px : Z;
  font_row_bytes : Z;
  font_first_char : Z;
  font_char_count : Z;
  font_lsb_left : bool
}.

Record frame := Frame { pixels : list Z; fb_pitch_pixels : Z; fb_w : Z; fb_h : Z }.

Record console := Console {
  console_fg : Z;
  console_bg : Z;
  console_row : Z;
  console_col : Z;
  console_cols : Z;
  console_rows : Z;
  cells : list (list (Z * Z))
}.

Record vbe := Vbe {
  fr : frame;
  vbe_ready : bool;
  fnt : font;
  font_external_blob : bool;
  con : console;
  heap : Memory.Memory.heap
}.

Definition set_frame (f : frame) (v : vbe) : vbe := Vbe f (vbe_ready v) (fnt v) (font_external_blob v) (con v) (heap v).
Definition set_ready (r : bool) (v : vbe) : vbe := Vbe (fr v) r (fnt v) (font_external_blob v) (con v) (heap v).
Definition set_font (f : font) (blob : bool) (v : vbe) : vbe := Vbe (fr v) (vbe_ready v) f blob (con v) (heap v).
Definition set_con (c : console) (v : vbe) : vbe := Vbe (fr v) (vbe_ready v) (fnt v) (font_external_blob v) c (heap v).
Definition set_heap (h : Memory.Memory.heap) (v : vbe) : vbe := Vbe (fr v) (vbe_ready v) (fnt v) (font_external_blob v) (con v) h.
Definition set_pixels (p : list Z) (f : frame) : frame := Frame p (fb_pitch_pixels f) (fb_w f) (fb_h f).
Definition set_cursor (row col : Z) (c : console) : console :=
  Console (console_fg c) (console_bg c) row col (console_cols c) (console_rows c) (cells c).
Definition set_cells (l : list (list (Z * Z))) (c : console) : console :=
  Console (console_fg c) (console_bg c) (console_row c) (console_col c) (console_cols c) (console_rows c) l.
Definition set_geometry (cols rows : Z) (c : console) : console :=
  Console (console_fg c) (console_bg c) (console_row c) (console_col c) cols rows (cells c).
Definition set_colors (fg bg : Z) (c : console) : console :=
  Console fg bg (console_row c) (console_col c) (console_cols c) (console_rows c) (cells c).
Definition set_base (b : list Z) (f : font) : font :=
  FontState b (font_stride f) (font_height_px f) (font_width_px f) (font_row_bytes f) (font_first_char f) (font_char_count f) (font_lsb_left f).

(** ** Fonts in use *)

(** The built-in font: 96 glyphs of 8 rows. *)
Definition font8x8_basic : list Z := [
   0; 0; 0; 0; 0; 0; 0; 0; 24; 60; 60; 24; 24; 0; 24; 0; 54; 54; 36; 0; 0; 0; 0; 0; 54; 54; 127; 54; 127; 54; 54; 0; 12; 62; 3; 30; 48; 31; 12; 0; 0; 99; 51; 24; 12; 102; 99; 0;
   28; 54; 28; 110; 59; 51; 110; 0; 6; 6; 3; 0; 0; 0; 0; 0; 24; 12; 6; 6; 6; 12; 24; 0; 6; 12; 24; 24; 24; 12; 6; 0; 0; 102; 60; 255; 60; 102; 0; 0; 0; 12; 12; 63; 12; 12; 0; 0;
   0; 0; 0; 0; 0; 12; 12; 6; 0; 0; 0; 63; 0; 0; 0; 0; 0; 0; 0; 0; 0; 12; 12; 0; 96; 48; 24; 12; 6; 3; 1; 0; 62; 99; 115; 123; 111; 103; 62; 0; 12; 14; 15; 12; 12; 12; 63; 0;
   30; 51; 48; 28; 6; 51; 63; 0; 30; 51; 48; 28; 48; 51; 30; 0; 56; 60; 54; 51; 127; 48; 120; 0; 63; 3; 31; 48; 48; 51; 30; 0; 28; 6; 3; 31; 51; 51; 30; 0; 63; 51; 48; 24; 12; 12; 12; 0;
   30; 51; 51; 30; 51; 51; 30; 0; 30; 51; 51; 62; 48; 24; 14; 0; 0; 12; 12; 0; 0; 12; 12; 0; 0; 12; 12; 0; 0; 12; 12; 6; 24; 12; 6; 3; 6; 12; 24; 0; 0; 0; 63; 0; 63; 0; 0; 0;
   6; 12; 24; 48; 24; 12; 6; 0; 30; 51; 48; 24; 12; 0; 12; 0; 62; 99; 123; 123; 123; 3; 30; 0; 12; 30; 51; 51; 63; 51; 51; 0; 63; 102; 102; 62; 102; 102; 63; 0; 60; 102; 3; 3; 3; 102; 60; 0;
   31; 54; 102; 102; 102; 54; 31; 0; 127; 70; 22; 30; 22; 70; 127; 0; 127; 70; 22; 30; 22; 6; 15; 0; 60; 102; 3; 3; 115; 102; 124; 0; 51; 51; 51; 63; 51; 51; 51; 0; 30; 12; 12; 12; 12; 12; 30; 0;
   120; 48; 48; 48; 51; 51; 30; 0; 103; 102; 54; 30; 54; 102; 103; 0; 15; 6; 6; 6; 70; 102; 127; 0; 99; 119; 127; 127; 107; 99; 99; 0; 99; 103; 111; 123; 115; 99; 99; 0; 28; 54; 99; 99; 99; 54; 28; 0;
   63; 102; 102; 62; 6; 6; 15; 0; 30; 51; 51; 51; 59; 30; 56; 0; 63; 102; 102; 62; 54; 102; 103; 0; 30; 51; 7; 14; 56; 51; 30; 0; 63; 45; 12; 12; 12; 12; 30; 0; 51; 51; 51; 51; 51; 51; 63; 0;
   99; 99; 99; 99; 99; 54; 28; 0; 99; 99; 99; 107; 127; 119; 99; 0; 99; 99; 54; 28; 28; 54; 99; 0; 51; 51; 51; 30; 12; 12; 30; 0; 127; 99; 49; 24; 12; 70; 127; 0; 30; 6; 6; 6; 6; 6; 30; 0;
   3; 6; 12; 24; 48; 96; 64; 0; 30; 24; 24; 24; 24; 24; 30; 0; 8; 28; 54; 99; 0; 0; 0; 0; 0; 0; 0; 0; 0; 0; 0; 255; 12; 12; 6; 0; 0; 0; 0; 0; 0; 0; 30; 48; 62; 51; 110; 0;
   7; 6; 6; 62; 102; 102; 59; 0; 0; 0; 30; 51; 3; 51; 30; 0; 56; 48; 48; 62; 51; 51; 110; 0; 0; 0; 30; 51; 63; 3; 30; 0; 28; 54; 6; 15; 6; 6; 15; 0; 0; 0; 110; 51; 51; 62; 48; 31;
   7; 6; 54; 110; 102; 102; 103; 0; 12; 0; 14; 12; 12; 12; 30; 0; 48; 0; 56; 48; 48; 51; 51; 30; 7; 6; 102; 54; 30; 54; 103; 0; 14; 12; 12; 12; 12; 12; 30; 0; 0; 0; 51; 127; 127; 107; 99; 0;
   0; 0; 27; 55; 51; 51; 51; 0; 0; 0; 30; 51; 51; 51; 30; 0; 0; 0; 59; 102; 102; 62; 6; 15; 0; 0; 110; 51; 51; 62; 48; 120; 0; 0; 27; 54; 54; 14; 6; 0; 0; 0; 62; 3; 30; 48; 31; 0;
   8; 12; 62; 12; 12; 44; 24; 0; 0; 0; 51; 51; 51; 51; 110; 0; 0; 0; 51; 51; 51; 30; 12; 0; 0; 0; 99; 107; 127; 127; 54; 0; 0; 0; 99; 54; 28; 54; 99; 0; 0; 0; 51; 51; 51; 62; 48; 31;
   0; 0; 63; 25; 12; 38; 63; 0; 56; 12; 12; 7; 12; 12; 56; 0; 24; 24; 24; 0; 24; 24; 24; 0; 14; 24; 24; 112; 24; 24; 14; 0; 110; 59; 0; 0; 0; 0; 0; 0; 0; 0; 0; 0; 0; 0; 0; 0].

(** The metrics, unless they make no sense. *)
Definition configure_font_metrics (height stride width_hint first_char count : Z) (lsb_left : bool) (f : font) : option font :=
  if (height =? 0) || (stride =? 0) then None
  else if negb (stride mod height =? 0) then None
  else
    let row_bytes := stride / height in
    if row_bytes =? 0 then None
    else
      let w := if negb (width_hint =? 0) then width_hint else row_bytes *32 8 in
      let max_width := row_bytes *32 8 in
      let w := if (w =? 0) || (max_width <? w) then max_width else w in
      let w := if w =? 0 then DEFAULT_FONT_WIDTH else w in
      Some (FontState (font_base f) stride height w row_bytes first_char (if negb (count =? 0) then count else 256) lsb_left).

Definition update_console_geometry (v : vbe) : vbe :=
  let f := fnt v in
  let cols := if negb (fb_w (fr v) =? 0) && negb (font_width_px f =? 0) then
                let possible := fb_w (fr v) / font_width_px f in
                let possible := if possible =? 0 then 1 else possible in
                if possible <? CONSOLE_COLUMNS then possible else CONSOLE_COLUMNS
              else CONSOLE_COLUMNS in
  let rows := if negb (fb_h (fr v) =? 0) && negb (font_height_px f =? 0) then
                let possible := fb_h (fr v) / font_height_px f in
                let possible := if possible =? 0 then 1 else possible in
                if possible <? CONSOLE_ROWS then possible else CONSOLE_ROWS
              else CONSOLE_ROWS in
  let c := set_geometry cols rows (con v) in
  let row := if rows <=? console_row c then rows - 1 else console_row c in
  let col := if cols <=? console_col c then cols - 1 else console_col c in
  set_con (set_cursor row col c) v.

Definition vga_palette : list Z :=
  [0; 170; 43520; 43690; 11141120; 11141290; 11162880; 11184810; 5592405; 5592575; 5635925; 5636095; 16733525; 16733695; 16777045; 16777215].

Definition attr_to_color (attr : Z) : option Z := vga_palette !! Z.to_nat (Z.land attr 15).

(** The offset of the glyph of a character in the font. *)
Definition glyph_for_char (uc : Z) (f : font) : option Z :=
  let at_char c := u32 (u32 (c - font_first_char f) * font_stride f) in
  let inside c := (font_first_char f <=? c) && (c <? font_first_char f +32 font_char_count f) in
  if font_stride f =? 0 then None
  else if inside uc then Some (at_char uc)
  else if (font_first_char f =? 0) && (uc <? font_char_count f) then Some (uc *32 font_stride f)
  else if inside 63 then Some (at_char 63)
  else None.

(** ** Drawing *)

Definition byte_at (l : list Z) (off : Z) : option Z := if off <? Z.of_nat (length l) then l !! Z.to_nat off else None.

Definition store_pixel (l : list Z) (i color : Z) : option (list Z) := if i <? Z.of_nat (length l) then buf_store l (Z.to_nat i) color else None.

(** Whether a pixel of a glyph is set. *)
Definition glyph_bit (f : font) (glyph y x : Z) : option bool :=
  row_byte ← byte_at (font_base f) (glyph +32 (y *32 font_row_bytes f) +32 (x / 8));
  let mask := if font_lsb_left f then u8 (Z.shiftl 1 (Z.land x 7)) else u8 (Z.shiftr 128 (Z.land x 7)) in
  Some (negb (Z.land row_byte mask =? 0)).

Fixpoint draw_row (f : font) (w glyph y row px fg bg : Z) (n : nat) (x : Z) (l : list Z) : option (list Z) :=
  match n with
  | O => Some l
  | S n' =>
      let dst_x := s32 (px + x) in
      if (dst_x <? 0) || (w <=? dst_x) then draw_row f w glyph y row px fg bg n' (x + 1) l
      else
        bit ← glyph_bit f glyph y x;
        l ← store_pixel l (row + dst_x) (if (bit : bool) then fg else bg);
        draw_row f w glyph y row px fg bg n' (x + 1) l
  end.

Fixpoint draw_rows (f : font) (fm : frame) (glyph px py fg bg : Z) (n : nat) (y : Z) (l : list Z) : option (list Z) :=
  match n with
  | O => Some l
  | S n' =>
      let dst_y := s32 (py + y) in
      if (dst_y <? 0) || (fb_h fm <=? dst_y) then draw_rows f fm glyph px py fg bg n' (y + 1) l
      else
        l ← draw_row f (fb_w fm) glyph y (dst_y *32 fb_pitch_pixels fm) px fg bg (Z.to_nat (font_width_px f)) 0 l;
        draw_rows f fm glyph px py fg bg n' (y + 1) l
  end.

Definition draw_glyph (px py c fg bg : Z) (v : vbe) : option vbe :=
  if negb (vbe_ready v) then Some v
  else match glyph_for_char c (fnt v) with
  | None => Some v
  | Some glyph =>
      l ← draw_rows (fnt v) (fr v) glyph px py fg bg (Z.to_nat (font_height_px (fnt v))) 0 (pixels (fr v));
      Some (set_frame (set_pixels l (fr v)) v)
  end.

Definition vbe_clear (color : Z) (v : vbe) : option vbe :=
  if negb (vbe_ready v) then Some v
  else
    let total := fb_pitch_pixels (fr v) *32 fb_h (fr v) in
    if Z.of_nat (length (pixels (fr v))) <? total then None
    else Some (set_frame (set_pixels (replicate (Z.to_nat total) color ++ drop (Z.to_nat total) (pixels (fr v))) (fr v)) v).

Definition vbe_draw_pixel (x y color : Z) (v : vbe) : option vbe :=
  if negb (vbe_ready v) then Some v
  else if (x <? 0) || (y <? 0) then Some v
  else if (fb_w (fr v) <=? x) || (fb_h (fr v) <=? y) then Some v
  else l ← store_pixel (pixels (fr v)) (y *32 fb_pitch_pixels (fr v) +32 x) color; Some (set_frame (set_pixels l (fr v)) v).

Fixpoint fill_row (w row x color : Z) (n : nat) (col : Z) (l : list Z) : option (list Z) :=
  match n with
  | O => Some l
  | S n' =>
      let dst_x := s32 (x + col) in
      if (dst_x <? 0) || (w <=? dst_x) then fill_row w row x color n' (col + 1) l
      else l ← store_pixel l (row + dst_x) color; fill_row w row x color n' (col + 1) l
  end.

Fixpoint fill_rows (fm : frame) (x y w color : Z) (n : nat) (row : Z) (l : list Z) : option (list Z) :=
  match n with
  | O => Some l
  | S n' =>
      let dst_y := s32 (y + row) in
      if (dst_y <? 0) || (fb_h fm <=? dst_y) then fill_rows fm x y w color n' (row + 1) l
      else l ← fill_row (fb_w fm) (dst_y *32 fb_pitch_pixels fm) x color (Z.to_nat w) 0 l; fill_rows fm x y w color n' (row + 1) l
  end.

Definition vbe_fill_rect (x y w h color : Z) (v : vbe) : option vbe :=
  if negb (vbe_ready v) then Some v
  else l ← fill_rows (fr v) x y w color (Z.to_nat h) 0 (pixels (fr v)); Some (set_frame (set_pixels l (fr v)) v).

Definition vbe_draw_char (x y c fg bg : Z) (v : vbe) : option vbe := draw_glyph x y c fg bg v.

Fixpoint vbe_draw_text (x y : Z) (text : cstring) (fg bg : Z) (v : vbe) : option vbe :=
  match text with
  | [] => Some v
  | c :: text' => v ← vbe_draw_char x y c fg bg v; vbe_draw_text (s32 (x + font_width_px (fnt v))) y text' fg bg v
  end.

(** ** The console *)

Definition cell_at (l : list (list (Z * Z))) (y x : Z) : option (Z * Z) := row ← l !! Z.to_nat y; row !! Z.to_nat x.

Definition set_cell (y x : Z) (cell : Z * Z) (c : console) : option console :=
  row ← cells c !! Z.to_nat y;
  row ← buf_store row (Z.to_nat x) cell;
  l ← buf_store (cells c) (Z.to_nat y) row;
  Some (set_cells l c).

(** One cell of the console, drawn at its place. *)
Definition draw_cell (y x : Z) (v : vbe) : option vbe :=
  '(ch, attr) ← cell_at (cells (con v)) y x;
  fg ← attr_to_color (Z.land attr 15);
  bg ← attr_to_color (Z.land (Z.shiftr attr 4) 15);
  draw_glyph (s32 (u32 (x * font_width_px (fnt v)))) (s32 (u32 (y * font_height_px (fnt v)))) ch fg bg v.

Fixpoint redraw_row (y : Z) (n : nat) (x : Z) (v : vbe) : option vbe :=
  match n with O => Some v | S n' => v ← draw_cell y x v; redraw_row y n' (x + 1) v end.

Fixpoint redraw_rows (n : nat) (y : Z) (v : vbe) : option vbe :=
  match n with O => Some v | S n' => v ← redraw_row y (Z.to_nat (console_cols (con v))) 0 v; redraw_rows n' (y + 1) v end.

Definition console_redraw (v : vbe) : option vbe := if negb (vbe_ready v) then Some v else redraw_rows (Z.to_nat (console_rows (con v))) 0 v.

Definition blank_attr (fg bg : Z) : Z := u8 (Z.lor (Z.shiftl (Z.land bg 15) 4) (Z.land fg 15)).

Definition console_clear_buffers (fg bg : Z) (c : console) : console :=
  set_cursor 0 0 (set_cells (map (map (fun _ => (32, blank_attr fg bg))) (cells c)) c).

(** The first [n] cells of row [y] over those of row [y - 1], from row [y] on. *)
Fixpoint scroll_rows (cols : nat) (n : nat) (y : nat) (l : list (list (Z * Z))) : option (list (list (Z * Z))) :=
  match n with
  | O => Some l
  | S n' =>
      src ← l !! y;
      dst ← l !! (y - 1)%nat;
      if (length src <? cols)%nat || (length dst <? cols)%nat then None
      else l ← buf_store l (y - 1) (take cols src ++ drop cols dst); scroll_rows cols n' (S y) l
  end.

Definition clear_row (y cols : nat) (cell : Z * Z) (l : list (list (Z * Z))) : option (list (list (Z * Z))) :=
  row ← l !! y;
  if (length row <? cols)%nat then None else buf_store l y (replicate cols cell ++ drop cols row).

Definition console_newline (v : vbe) : option vbe :=
  let c := con v in
  if console_row c + 1 <? console_rows c then Some (set_con (set_cursor (console_row c + 1) 0 c) v)
  else
    let cols := Z.to_nat (console_cols c) in
    l ← scroll_rows cols (Z.to_nat (console_rows c) - 1) 1 (cells c);
    let target_row := if 0 <? console_rows c then console_rows c - 1 else 0 in
    l ← clear_row (Z.to_nat target_row) cols (32, blank_attr (console_fg c) (console_bg c)) l;
    console_redraw (set_con (set_cursor target_row 0 (set_cells l c)) v).

Definition vbe_console_set_colors (fg_attr bg_attr : Z) (v : vbe) : vbe := set_con (set_colors (Z.land fg_attr 15) (Z.land bg_attr 15) (con v)) v.

Definition vbe_console_clear (attr : Z) (v : vbe) : option vbe :=
  let v := set_con (set_colors (Z.land attr 15) (Z.land (Z.shiftr attr 4) 15) (con v)) v in
  if negb (vbe_ready v) then Some v
  else
    bg ← attr_to_color (console_bg (con v));
    v ← vbe_clear bg v;
    Some (set_con (console_clear_buffers (console_fg (con v)) (console_bg (con v)) (con v)) v).

(** A character stored at the cursor, and drawn. *)
Definition put_cell (ch attr : Z) (v : vbe) : option vbe :=
  let c := con v in
  c' ← set_cell (console_row c) (console_col c) (ch, attr) c;
  fg ← attr_to_color (console_fg c);
  bg ← attr_to_color (console_bg c);
  draw_glyph (s32 (console_col c * font_width_px (fnt v))) (s32 (u32 (console_row c * font_height_px (fnt v)))) ch fg bg (set_con c' v).

Definition vbe_console_putc (ch : Z) (v : vbe) : option vbe :=
  if negb (vbe_ready v) then Some v
  else
    let c := con v in
    if ch =? 10 then console_newline v
    else if ch =? 13 then Some (set_con (set_cursor (console_row c) 0 c) v)
    else if ch =? 8 then
      let '(row, col) := if 0 <? console_col c then (console_row c, console_col c - 1)
                         else if 0 <? console_row c then (console_row c - 1, if 0 <? console_cols c then console_cols c - 1 else 0)
                         else (console_row c, console_col c) in
      put_cell 32 (u8 (Z.lor (Z.shiftl (console_bg c) 4) (console_fg c))) (set_con (set_cursor row col c) v)
    else
      v ← put_cell ch (blank_attr (console_fg c) (console_bg c)) v;
      let v := set_con (set_cursor (console_row (con v)) (console_col (con v) + 1) (con v)) v in
      if console_cols (con v) <=? console_col (con v) then console_newline v else Some v.

(** ** Changing the font *)

Definition adopt_font_candidate (candidate : parsed_font) (owned_blob redraw : bool) (v : vbe) : option (bool * vbe) :=
  match configure_font_metrics (height candidate) (stride candidate) (width candidate) (first_char candidate) (glyph_count candidate) (lsb_left candidate) (fnt v) with
  | None => Some (false, v)
  | Some f =>
      let v := update_console_geometry (set_font (set_base (glyph_base candidate) f) owned_blob v) in
      v ← (if redraw then console_redraw v else Some v);
      Some (true, v)
  end.

(** A font in the BDF format that has been parsed. *)
Definition adopt_bdf (buffer : list Z) (v : vbe) : option (bool * vbe) :=
  '(candidate, h) ← parse_bdf_font buffer (heap v);
  let v := set_heap h v in
  match candidate with None => Some (false, v) | Some c => adopt_font_candidate c true true v end.

(** [embedded] is empty in a build without an embedded font. *)
Definition try_use_embedded_font (embedded : list Z) (v : vbe) : option (bool * vbe) :=
  if (length embedded =? 0)%nat then Some (false, v) else adopt_bdf embedded v.

(** The files of the FAT volume: their sizes, and what reading them gives. *)
Record font_files := FontFiles {
  fat16_ready : bool;
  fat16_file_size : cstring → option Z;
  fat16_read_file : cstring → Z → option (list Z)
}.

Definition FONT_FILE_NAME : cstring := lit "font.psf".
Definition FONT_BDF_FILE_NAME : cstring := lit "font.bdf".

(** A file read completely into memory from the heap. *)
Definition read_font_file (files : font_files) (name : cstring) (v : vbe) : option (list Z) * vbe :=
  match fat16_file_size files name with
  | None => (None, v)
  | Some size =>
      if size =? 0 then (None, v)
      else
        let '(p, h) := Memory.Memory.kalloc (heap v) size in
        let v := set_heap h v in
        match p, fat16_read_file files name size with
        | Some _, Some data => (if Z.of_nat (length data) =? size then Some data else None, v)
        | _, _ => (None, v)
        end
  end.

Definition vbe_try_load_font_from_fat (files : font_files) (v : vbe) : option (bool * vbe) :=
  if negb (vbe_ready v) || font_external_blob v then Some (false, v)
  else if negb (fat16_ready files) then Some (false, v)
  else
    let '(bdf, v) := read_font_file files FONT_BDF_FILE_NAME v in
    '(done, v) ← (match bdf with Some buffer => adopt_bdf buffer v | None => Some (false, v) end);
    if (done : bool) then Some (true, v)
    else
      let '(psf, v) := read_font_file files FONT_FILE_NAME v in
      match psf with
      | None => Some (false, v)
      | Some buffer =>
          candidate ← parse_psf_font buffer (font_lsb_left (fnt v));
          match candidate with None => Some (false, v) | Some c => adopt_font_candidate c true true v end
      end.

(** ** Start-up *)

(** What the boot loader left, with the bytes of the frame buffer and of its font. *)
Record boot_info := BootInfo {
  magic : Z;
  bi_fb : option (list Z);
  bi_pitch : Z;
  bi_width : Z;
  bi_height : Z;
  bi_bpp : Z;
  bi_font : option (list Z);
  bi_font_height : Z;
  bi_font_bytes : Z;
  bi_font_count : Z;
  bi_font_flags : Z
}.

Definition no_frame : frame := Frame [] 0 0 0.

(** The frame buffer, when the boot loader describes one that can be used. *)
Definition boot_frame (b : boot_info) : option frame :=
  match bi_fb b with
  | None => None
  | Some l =>
      if (bi_pitch b =? 0) || (bi_pitch b / 4 =? 0) || (bi_width b =? 0) || (bi_height b =? 0) then None
      else Some (Frame l (bi_pitch b / 4) (bi_width b) (bi_height b))
  end.

Definition boot_font (b : boot_info) (v : vbe) : vbe :=
  match bi_font b with
  | None => v
  | Some bytes =>
      if (8 <=? bi_font_height b) && (bi_font_height b <=? bi_font_bytes b) then
        let count := if bi_font_count b =? 0 then 256 else bi_font_count b in
        match configure_font_metrics (bi_font_height b) (bi_font_bytes b) DEFAULT_FONT_WIDTH 0 count (negb (Z.land (bi_font_flags b) 1 =? 0)) (fnt v) with
        | None => v
        | Some f => update_console_geometry (set_font (set_base bytes f) (font_external_blob v) v)
        end
      else v
  end.

Definition vbe_init (b : boot_info) (embedded : list Z) (v : vbe) : option (bool * vbe) :=
  match configure_font_metrics 8 8 DEFAULT_FONT_WIDTH 32 96 true (set_base font8x8_basic (fnt v)) with
  | None => Some (false, set_font (set_base font8x8_basic (fnt v)) false v)
  | Some f =>
      let v := set_font f false v in
      if negb (magic b =? BOOT_INFO_MAGIC) || negb (bi_bpp b =? 32) then Some (false, set_ready false v)
      else match boot_frame b with
      | None => Some (false, set_ready false (set_frame no_frame v))
      | Some fm =>
          let v := boot_font b (update_console_geometry (set_ready true (set_frame fm v))) in
          '(_, v) ← try_use_embedded_font embedded v;
          v ← vbe_clear 0 v;
          v ← console_redraw (set_con (console_clear_buffers (console_fg (con v)) (console_bg (con v)) (con v)) v);
          Some (true, v)
      end
  end.

Definition vbe_available (v : vbe) : bool := vbe_ready v.
Definition vbe_width (v : vbe) : Z := fb_w (fr v).
Definition vbe_height (v : vbe) : Z := fb_h (fr v).
Definition vbe_font_char_count (v : vbe) : Z := if font_char_count (fnt v) =? 0 then 96 else font_char_count (fnt v).

(** ** The text screen *)

Definition VGA_WIDTH : nat := 80.
Definition VGA_HEIGHT : nat := 25.

Record vga := Vga { vga_memory : list Z; cursor_row : nat; cursor_col : nat; current_color : Z; use_vbe_console : bool }.

Record display := Screens { text_screen : vga; graphics : vbe }.

Definition set_vga (g : vga) (d : display) : display := Screens g (graphics d).
Definition set_vbe (v : vbe) (d : display) : display := Screens (text_screen d) v.
Definition at_cursor (row col : nat) (g : vga) : vga := Vga (vga_memory g) row col (current_color g) (use_vbe_console g).
Definition with_memory (l : list Z) (g : vga) : vga := Vga l (cursor_row g) (cursor_col g) (current_color g) (use_vbe_console g).
Definition with_color (c : Z) (g : vga) : vga := Vga (vga_memory g) (cursor_row g) (cursor_col g) c (use_vbe_console g).
Definition with_vbe (b : bool) (g : vga) : vga := Vga (vga_memory g) (cursor_row g) (cursor_col g) (current_color g) b.

(** [char] is signed. *)
Definition vga_entry (c color : Z) : Z := Z.lor (u16 (if c <? 128 then c else c - 256)) (u16 (Z.shiftl color 8)).

(** Cell [i + VGA_WIDTH] over cell [i], from cell [i] on. *)
Fixpoint scroll_cells (n i : nat) (l : list Z) : option (list Z) :=
  match n with
  | O => Some l
  | S n' => x ← l !! (i + VGA_WIDTH)%nat; l ← buf_store l i x; scroll_cells n' (S i) l
  end.

Fixpoint fill_cells (n i : nat) (x : Z) (l : list Z) : option (list Z) :=
  match n with O => Some l | S n' => l ← buf_store l i x; fill_cells n' (S i) x l end.

Definition vga_scroll (g : vga) : option vga :=
  if (cursor_row g <? VGA_HEIGHT)%nat then Some g
  else
    l ← scroll_cells ((VGA_HEIGHT - 1) * VGA_WIDTH) 0 (vga_memory g);
    l ← fill_cells VGA_WIDTH ((VGA_HEIGHT - 1) * VGA_WIDTH) (vga_entry 32 (current_color g)) l;
    Some (at_cursor (VGA_HEIGHT - 1) (cursor_col g) (with_memory l g)).

Definition vga_clear (d : display) : option display :=
  let g := text_screen d in
  d ← (if use_vbe_console g then v ← vbe_console_clear (current_color g) (graphics d); Some (set_vbe v d) else Some d);
  l ← fill_cells (VGA_HEIGHT * VGA_WIDTH) 0 (vga_entry 32 (current_color g)) (vga_memory g);
  Some (set_vga (at_cursor 0 0 (with_memory l g)) d).

Definition vga_init (d : display) : option display :=
  let g := with_vbe (vbe_available (graphics d)) (with_color 7 (text_screen d)) in
  let d := set_vga g d in
  let d := if use_vbe_console g
           then set_vbe (vbe_console_set_colors (Z.land (current_color g) 15) (Z.land (Z.shiftr (current_color g) 4) 15) (graphics d)) d else d in
  vga_clear d.

Definition vga_set_color (fg bg : Z) (d : display) : display :=
  let d := set_vga (with_color (u8 (Z.lor fg (Z.shiftl bg 4))) (text_screen d)) d in
  if use_vbe_console (text_screen d) then set_vbe (vbe_console_set_colors fg bg (graphics d)) d else d.

(** The character on the text screen. *)
Definition vga_put (c : Z) (g : vga) : option vga :=
  if c =? 10 then vga_scroll (at_cursor (S (cursor_row g)) 0 g)
  else if c =? 13 then Some (at_cursor (cursor_row g) 0 g)
  else
    l ← buf_store (vga_memory g) (cursor_row g * VGA_WIDTH + cursor_col g) (vga_entry c (current_color g));
    let g := at_cursor (cursor_row g) (S (cursor_col g)) (with_memory l g) in
    if (VGA_WIDTH <=? cursor_col g)%nat then vga_scroll (at_cursor (S (cursor_row g)) 0 g) else Some g.

Definition vga_write_char (c : Z) (d : display) : option display :=
  d ← (if use_vbe_console (text_screen d) then v ← vbe_console_putc c (graphics d); Some (set_vbe v d) else Some d);
  g ← vga_put c (text_screen d);
  Some (set_vga g d).

Fixpoint vga_write (text : cstring) (d : display) : option display :=
  match text with [] => Some d | c :: text' => d ← vga_write_char c d; vga_write text' d end.

Definition vga_write_line (text : cstring) (d : display) : option display := d ← vga_write text d; vga_write_char 10 d.

(** The cell before the cursor of the text screen. *)
Definition vga_back (g : vga) : option vga :=
  if (cursor_col g =? 0)%nat && (cursor_row g =? 0)%nat then Some g
  else
    let '(row, col) := if (cursor_col g =? 0)%nat then ((cursor_row g - 1)%nat, (VGA_WIDTH - 1)%nat) else (cursor_row g, (cursor_col g - 1)%nat) in
    l ← buf_store (vga_memory g) (row * VGA_WIDTH + col) (vga_entry 32 (current_color g));
    Some (at_cursor row col (with_memory l g)).

Definition vga_backspace (d : display) : option display :=
  d ← (if use_vbe_console (text_screen d) then v ← vbe_console_putc 8 (graphics d); Some (set_vbe v d) else Some d);
  g ← vga_back (text_screen d);
  Some (set_vga g d).

(** ** Calls *)

(** The calls of vga.c that change what is shown. *)
Inductive command :=
| PutChar (c : Z)
| Text (text : cstring)
| Line (text : cstring)
| Backspace
| Clear
| Color (fg bg : Z).

Definition run (cmd : command) (d : display) : option display :=
  match cmd with
  | PutChar c => vga_write_char c d
  | Text text => vga_write text d
  | Line text => vga_write_line text d
  | Backspace => vga_backspace d
  | Clear => vga_clear d
  | Color fg bg => Some (vga_set_color fg bg d)
  end.

Fixpoint run_all (cmds : list command) (d : display) : option display :=
  match cmds with [] => Some d | cmd :: cmds' => d ← run cmd d; run_all cmds' d end.

End Display.
