(* ===== verification/DisplaySpec.v ===== *)
(** What the screens show: an unbounded page of rows, of which a screen shows the last ones.
    The text screen and the console both keep such a window, and the pixels of the frame
    buffer are those of the characters of the console.

    Drawing: the pixels a glyph sets, and the console with every one of its characters drawn
    at its place in the frame buffer. *)

From S2P Require Import Prelude Arrays Bytes Fonts Display.

Module DisplaySpec.

Import Bytes Fonts Display.

(** ** Pages *)

Section pages.
Context {A : Type} (cols rows : nat).
Implicit Types (x blank : A) (l : list (list A)).

(** The rows written so far, none of them lost, and the cursor. *)
Record page := Page { grid : list (list A); prow : nat; pcol : nat }.
Implicit Types p : page.

Definition top p : nat := length (grid p) - rows.
Definition window p : list (list A) := drop (top p) (grid p).

Definition p_newline blank p : page :=
  if (S (prow p) <? length (grid p))%nat then Page (grid p) (S (prow p)) 0
  else Page (grid p ++ [replicate cols blank]) (S (prow p)) 0.

Definition p_return p : page := Page (grid p) (prow p) 0.

Definition p_store x p : page := Page (alter (fun row => <[pcol p := x]> row) (prow p) (grid p)) (prow p) (pcol p).

Definition p_put blank x p : page :=
  let p := p_store x p in
  if (S (pcol p) <? cols)%nat then Page (grid p) (prow p) (S (pcol p)) else p_newline blank p.

(** The cell before the cursor, within the window. *)
Definition p_back p : page :=
  if (0 <? pcol p)%nat then Page (grid p) (prow p) (pcol p - 1)
  else if (top p <? prow p)%nat then Page (grid p) (prow p - 1) (cols - 1)
  else p.

(** A new page: blank rows. *)
Definition p_clear blank : page := Page (replicate rows (replicate cols blank)) 0 0.

Record page_ok p : Prop := {
  po_rows : (rows ≤ length (grid p))%nat;
  po_cols : Forall (fun row => length row = cols) (grid p);
  po_row : (top p ≤ prow p < length (grid p))%nat;
  po_col : (pcol p < cols)%nat
}.

(** ** Windows *)

Lemma window_length p : page_ok p → length (window p) = rows.
Proof. intros [Hr _ _ _]. unfold window, top. rewrite length_drop. lia. Qed.

Lemma window_cols p : page_ok p → Forall (fun row => length row = cols) (window p).
Proof. intros [_ Hc _ _]. by apply Forall_drop. Qed.

Lemma window_return p : window (p_return p) = window p.
Proof. done. Qed.

Lemma window_back p : window (p_back p) = window p.
Proof. unfold p_back. by repeat case_match. Qed.

Lemma window_store x p : page_ok p → window (p_store x p) = alter (fun row => <[pcol p := x]> row) (prow p - top p)%nat (window p).
Proof.
  intros [Hr _ Hp _]. unfold window, p_store. cbn [grid]. unfold top at 1. cbn [grid]. rewrite length_alter. fold (top p).
  apply list_eq. intros i. rewrite lookup_drop. destruct (decide (i = prow p - top p)%nat) as [->|Hne].
  - rewrite list_lookup_alter_eq, lookup_drop. replace (top p + (prow p - top p))%nat with (prow p) by lia. by rewrite list_lookup_alter_eq.
  - by rewrite !list_lookup_alter_ne, lookup_drop by lia.
Qed.

(** The cursor in the window. *)
Definition at_row p : nat := prow p - top p.

Lemma window_newline blank p : page_ok p →
  if (S (at_row p) <? rows)%nat
  then window (p_newline blank p) = window p ∧ at_row (p_newline blank p) = S (at_row p)
  else window (p_newline blank p) = drop 1 (window p) ++ [replicate cols blank] ∧ at_row (p_newline blank p) = (rows - 1)%nat.
Proof.
  intros [Hr _ Hp _]. unfold at_row, p_newline, window, top in *. destruct (Nat.ltb_spec (S (prow p - (length (grid p) - rows))) rows).
  - rewrite (proj2 (Nat.ltb_lt _ _)) by lia. cbn. split; [done|lia].
  - rewrite (proj2 (Nat.ltb_ge _ _)) by lia. cbn [grid prow]. rewrite length_app. cbn [length]. split; [|lia].
    rewrite drop_drop. replace (length (grid p) + 1 - rows)%nat with (length (grid p) - rows + 1)%nat by lia. rewrite drop_app_le; [done|lia].
Qed.

Lemma newline_col blank p : pcol (p_newline blank p) = 0%nat.
Proof. unfold p_newline. by destruct (S (prow p) <? length (grid p))%nat. Qed.

Lemma at_row_lt p : page_ok p → (at_row p < rows)%nat.
Proof. intros [Hr _ Hp _]. unfold at_row, top in *. lia. Qed.

(** ** The operations keep pages sound *)

Context (Hcols : (0 < cols)%nat) (Hrows : (0 < rows)%nat).

Lemma alter_rows f i l : (∀ row, length (f row) = length row) → Forall (fun row => length row = cols) l → Forall (fun row => length row = cols) (alter f i l).
Proof.
  intros Hf Hl. apply Forall_lookup. intros j row Hj. destruct (decide (i = j)) as [->|Hne].
  - rewrite list_lookup_alter_eq in Hj. apply fmap_Some in Hj as (r & Hr & ->). rewrite Hf. exact (Forall_lookup_1 _ _ _ _ Hl Hr).
  - rewrite list_lookup_alter_ne in Hj by done. exact (Forall_lookup_1 _ _ _ _ Hl Hj).
Qed.

Lemma clear_ok blank : page_ok (p_clear blank).
Proof.
  constructor; cbn; [by rewrite length_replicate|apply Forall_replicate, length_replicate| |lia]. unfold top. cbn. rewrite length_replicate. lia.
Qed.

Lemma newline_ok blank p : page_ok p → page_ok (p_newline blank p).
Proof.
  intros [Hr Hc Hp Hx]. unfold p_newline, top in *. destruct (Nat.ltb_spec (S (prow p)) (length (grid p))); constructor; unfold top; cbn; try done; try lia;
    rewrite ?length_app; cbn; try lia. apply Forall_app. split; [done|]. constructor; [apply length_replicate|constructor].
Qed.

Lemma return_ok p : page_ok p → page_ok (p_return p).
Proof. intros [Hr Hc Hp Hx]. constructor; unfold top in *; cbn; (done || lia). Qed.

Lemma store_ok x p : page_ok p → page_ok (p_store x p).
Proof.
  intros [Hr Hc Hp Hx]. constructor; unfold top in *; cbn; rewrite ?length_alter; try done. apply alter_rows; [|done]. intros. apply length_insert.
Qed.

Lemma put_ok blank x p : page_ok p → page_ok (p_put blank x p).
Proof.
  intros Hp. unfold p_put. pose proof (store_ok x p Hp) as Hs. destruct (Nat.ltb_spec (S (pcol (p_store x p))) cols); [|by apply newline_ok].
  destruct Hs as [? ? ? ?]. constructor; unfold top in *; cbn in *; (done || lia).
Qed.

Lemma back_ok p : page_ok p → page_ok (p_back p).
Proof.
  intros [Hr Hc Hp Hx]. unfold p_back. destruct (Nat.ltb_spec 0 (pcol p)); [constructor; unfold top in *; cbn; (done || lia)|].
  destruct (Nat.ltb_spec (top p) (prow p)); constructor; unfold top in *; cbn; (done || lia).
Qed.

End pages.

Arguments page : clear implicits.
Arguments Page {A} _ _ _.

(** ** The text screen *)

Section text.
Implicit Types (g : vga) (p : page Z).

Lemma vga_width_pos : (0 < VGA_WIDTH)%nat.
Proof. unfold VGA_WIDTH. lia. Qed.

Lemma vga_height_pos : (0 < VGA_HEIGHT)%nat.
Proof. unfold VGA_HEIGHT. lia. Qed.

#[local] Hint Resolve vga_width_pos vga_height_pos : core.

Definition vga_is p g : Prop :=
  page_ok VGA_WIDTH VGA_HEIGHT p ∧ vga_memory g = concat (window VGA_HEIGHT p) ∧ cursor_row g = at_row VGA_HEIGHT p ∧ cursor_col g = pcol p.

Lemma concat_length {A} c (l : list (list A)) : Forall (fun row => length row = c) l → length (concat l) = (length l * c)%nat.
Proof. induction 1 as [|row l Hr _ IH]; [done|]. cbn. rewrite length_app, IH, Hr. lia. Qed.

(** One cell of rows side by side. *)
Lemma concat_insert {A} c (l : list (list A)) i j x :
  Forall (fun row => length row = c) l → (j < c)%nat → concat (alter (fun row => <[j := x]> row) i l) = <[(i * c + j)%nat := x]> (concat l).
Proof.
  intros Hl Hj. revert i. induction Hl as [|row l Hr _ IH]; intros i; [done|]. destruct i as [|i].
  - cbn. rewrite insert_app_l; [done|lia].
  - change (alter (λ row0, <[j:=x]> row0) (S i) (row :: l)) with (row :: alter (λ row0, <[j:=x]> row0) i l). cbn [concat]. rewrite IH.
    rewrite insert_app_r_alt by lia. do 2 f_equal. lia.
Qed.

Lemma concat_drop {A} c (l : list (list A)) n : Forall (fun row => length row = c) l → drop (n * c) (concat l) = concat (drop n l).
Proof.
  intros Hl. revert n. induction Hl as [|row l Hr _ IH]; intros n; [by destruct (n * c)%nat, n|]. destruct n as [|n]; [done|]. cbn. rewrite drop_app_ge by lia.
  rewrite <- IH. f_equal. lia.
Qed.

Lemma scroll_cells_ok n i l : (i + n + VGA_WIDTH ≤ length l)%nat →
  scroll_cells n i l = Some (take i l ++ take n (drop (i + VGA_WIDTH) l) ++ drop (i + n) l).
Proof.
  revert i l. induction n as [|n IH]; intros i l H.
  - cbn [scroll_cells]. rewrite take_0, Nat.add_0_r. cbn [app]. by rewrite take_drop.
  - cbn [scroll_cells]. destruct (lookup_lt_is_Some_2 l (i + VGA_WIDTH)%nat ltac:(lia)) as [x Hx]. rewrite Hx. cbn [mbind option_bind]. rewrite buf_store_ok by lia. cbn [mbind option_bind].
    rewrite IH by (rewrite length_insert; lia). f_equal. rewrite (take_S_r _ _ x) by (rewrite list_lookup_insert_eq; [done|lia]). rewrite take_insert_ge by lia. rewrite <- app_assoc. f_equal. cbn [app].
    rewrite (drop_insert_lt _ (S i + VGA_WIDTH)), (drop_insert_lt _ (S i + n)) by lia. rewrite (drop_S l x (i + VGA_WIDTH)) by done. cbn [firstn app]. do 3 f_equal. lia.
Qed.

Lemma fill_cells_ok n i x l : (i + n ≤ length l)%nat → fill_cells n i x l = Some (take i l ++ replicate n x ++ drop (i + n) l).
Proof.
  revert i l. induction n as [|n IH]; intros i l H.
  - cbn [fill_cells replicate app]. by rewrite Nat.add_0_r, take_drop.
  - cbn [fill_cells]. rewrite buf_store_ok by lia. cbn [mbind option_bind]. rewrite IH by (rewrite length_insert; lia). f_equal.
    rewrite (take_S_r _ _ x) by (rewrite list_lookup_insert_eq; [done|lia]). rewrite take_insert_ge by lia. rewrite <- app_assoc. f_equal. cbn [app replicate]. f_equal. f_equal.
    rewrite drop_insert_lt by lia. f_equal. lia.
Qed.

(** The memory one row further. *)
Lemma vga_scroll_ok g p : vga_is p g → (S (at_row VGA_HEIGHT p) = VGA_HEIGHT)%nat →
  vga_scroll (at_cursor VGA_HEIGHT 0 g) =
    Some (at_cursor (VGA_HEIGHT - 1) 0 (with_memory (concat (drop 1 (window VGA_HEIGHT p) ++ [replicate VGA_WIDTH (vga_entry 32 (current_color g))])) g)).
Proof.
  intros (Hp & Hm & _ & _) Hr. unfold vga_scroll. cbn [cursor_row at_cursor]. change (VGA_HEIGHT <? VGA_HEIGHT)%nat with false. cbn iota. cbn [vga_memory at_cursor current_color].
  pose proof (window_cols VGA_WIDTH VGA_HEIGHT p Hp) as Hc. pose proof (window_length VGA_WIDTH VGA_HEIGHT p Hp) as Hl. pose proof (concat_length VGA_WIDTH _ Hc) as Hlen. rewrite Hl, <- Hm in Hlen.
  assert (Hlen' : length (vga_memory g) = 2000%nat) by exact Hlen. rewrite scroll_cells_ok by (rewrite Hlen'; vm_compute; lia). cbn [mbind option_bind]. rewrite take_0. cbn [app Nat.add].
  set (n := ((VGA_HEIGHT - 1) * VGA_WIDTH)%nat). assert (Hfirst : length (take n (drop VGA_WIDTH (vga_memory g))) = n) by (rewrite length_take, length_drop, Hlen'; vm_compute; reflexivity).
  rewrite fill_cells_ok by (rewrite length_app, Hfirst, length_drop, Hlen'; vm_compute; lia). cbn [mbind option_bind]. rewrite take_app_le, (take_ge (take _ _)) by lia.
  rewrite (drop_ge (_ ++ _)) by (rewrite length_app, Hfirst, length_drop, Hlen'; vm_compute; lia). rewrite app_nil_r.
  rewrite (take_ge (drop VGA_WIDTH (vga_memory g))) by (rewrite length_drop, Hlen'; vm_compute; lia). rewrite Hm. change VGA_WIDTH with (1 * VGA_WIDTH)%nat at 1. rewrite (concat_drop VGA_WIDTH) by done.
  rewrite concat_app. cbn [concat]. by rewrite app_nil_r.
Qed.

Lemma vga_newline_ok g p : vga_is p g →
  ∃ g', vga_scroll (at_cursor (S (cursor_row g)) 0 g) = Some g' ∧ vga_is (p_newline VGA_WIDTH (vga_entry 32 (current_color g)) p) g' ∧
    current_color g' = current_color g ∧ use_vbe_console g' = use_vbe_console g.
Proof.
  intros Hg. pose proof Hg as (Hp & Hm & Hr & Hc). pose proof (newline_ok VGA_WIDTH VGA_HEIGHT vga_width_pos vga_height_pos (vga_entry 32 (current_color g)) p Hp) as Hok.
  pose proof (window_newline VGA_WIDTH VGA_HEIGHT (vga_entry 32 (current_color g)) p Hp) as Hw. pose proof (at_row_lt VGA_WIDTH VGA_HEIGHT p Hp) as Hlt.
  assert (Hcol : pcol (p_newline VGA_WIDTH (vga_entry 32 (current_color g)) p) = 0%nat) by apply newline_col. rewrite Hr.
  destruct (Nat.ltb_spec (S (at_row VGA_HEIGHT p)) VGA_HEIGHT) as [Hin|Hout].
  - destruct Hw as [Hw1 Hw2]. unfold vga_scroll. cbn [cursor_row at_cursor]. rewrite (proj2 (Nat.ltb_lt _ _)) by done. eexists. split; [done|]. split; [|done].
    unfold vga_is. cbn [vga_memory cursor_row cursor_col at_cursor]. by rewrite Hw1, Hw2, Hcol.
  - destruct Hw as [Hw1 Hw2]. replace (S (at_row VGA_HEIGHT p)) with VGA_HEIGHT by lia. rewrite (vga_scroll_ok g p Hg) by lia. eexists. split; [done|]. split; [|done].
    unfold vga_is. cbn [vga_memory cursor_row cursor_col at_cursor with_memory]. by rewrite Hw1, Hw2, Hcol.
Qed.

Definition vga_page_put (color c : Z) p : page Z :=
  if c =? 10 then p_newline VGA_WIDTH (vga_entry 32 color) p
  else if c =? 13 then p_return p
  else p_put VGA_WIDTH (vga_entry 32 color) (vga_entry c color) p.

Lemma vga_store_ok g p x : vga_is p g →
  buf_store (vga_memory g) (cursor_row g * VGA_WIDTH + cursor_col g) x = Some (concat (window VGA_HEIGHT (p_store x p))).
Proof.
  intros (Hp & Hm & Hr & Hc). pose proof (window_cols VGA_WIDTH VGA_HEIGHT p Hp) as Hwc. pose proof (window_length VGA_WIDTH VGA_HEIGHT p Hp) as Hl.
  pose proof (at_row_lt VGA_WIDTH VGA_HEIGHT p Hp) as Hlt. pose proof (po_col _ _ _ Hp) as Hcol.
  rewrite (window_store VGA_WIDTH VGA_HEIGHT x p Hp), Hm, Hr, Hc, (concat_insert VGA_WIDTH) by done. apply buf_store_ok. rewrite (concat_length VGA_WIDTH), Hl by done. pose proof (Nat.mul_le_mono_r _ _ VGA_WIDTH Hlt). unfold at_row in *. lia.
Qed.

Lemma vga_put_ok g p c : vga_is p g →
  ∃ g', vga_put c g = Some g' ∧ vga_is (vga_page_put (current_color g) c p) g' ∧ current_color g' = current_color g ∧ use_vbe_console g' = use_vbe_console g.
Proof.
  intros Hg. unfold vga_put, vga_page_put. destruct (c =? 10); [by apply vga_newline_ok|]. destruct (c =? 13).
  { destruct Hg as (Hp & Hm & Hr & _). eexists. split; [done|]. split; [|done]. split; [by apply return_ok|]. done. }
  rewrite (vga_store_ok g p _ Hg). cbn [mbind option_bind]. pose proof Hg as (Hp & Hm & Hr & Hc). unfold p_put. set (q := p_store (vga_entry c (current_color g)) p).
  assert (Hq : page_ok VGA_WIDTH VGA_HEIGHT q) by by apply store_ok.
  assert (Hg1 : vga_is q (with_memory (concat (window VGA_HEIGHT q)) g)).
  { split; [done|]. split; [done|]. split; [|done]. cbn. rewrite Hr. unfold at_row, top, q. cbn. by rewrite length_alter. }
  cbn [cursor_col at_cursor cursor_row with_memory]. rewrite Hc. change (pcol q) with (pcol p). destruct (Nat.leb_spec VGA_WIDTH (S (pcol p))).
  - rewrite (proj2 (Nat.ltb_ge _ _)) by lia. exact (vga_newline_ok _ q Hg1).
  - rewrite (proj2 (Nat.ltb_lt _ _)) by lia. eexists. split; [done|]. split; [|done]. destruct Hg1 as (_ & _ & Hr1 & _). split; [|done].
    destruct Hq. constructor; unfold top in *; cbn in *; (done || lia).
Qed.

(** At the start of the screen nothing happens. *)
Definition vga_page_back (color : Z) p : page Z :=
  if (pcol p =? 0)%nat && (at_row VGA_HEIGHT p =? 0)%nat then p else p_store (vga_entry 32 color) (p_back VGA_WIDTH VGA_HEIGHT p).

Lemma vga_back_ok g p : vga_is p g →
  ∃ g', vga_back g = Some g' ∧ vga_is (vga_page_back (current_color g) p) g' ∧ current_color g' = current_color g ∧ use_vbe_console g' = use_vbe_console g.
Proof.
  intros Hg. pose proof Hg as (Hp & Hm & Hr & Hc). unfold vga_back, vga_page_back. rewrite Hr, Hc. destruct ((pcol p =? 0)%nat && (at_row VGA_HEIGHT p =? 0)%nat) eqn:E; [by exists g|].
  set (q := p_back VGA_WIDTH VGA_HEIGHT p). assert (Hq : page_ok VGA_WIDTH VGA_HEIGHT q) by (apply back_ok; [exact vga_width_pos|exact vga_height_pos|done]).
  assert (Hcur : (if (pcol p =? 0)%nat then ((at_row VGA_HEIGHT p - 1)%nat, (VGA_WIDTH - 1)%nat) else (at_row VGA_HEIGHT p, (pcol p - 1)%nat)) = (at_row VGA_HEIGHT q, pcol q)).
  { unfold q, p_back, at_row in *. destruct Hp as [_ _ Hp _]. destruct (Nat.ltb_spec 0 (pcol p)).
    - rewrite (proj2 (Nat.eqb_neq _ _)) by lia. done.
    - replace (pcol p) with 0%nat in * by lia. cbn in E |- *. destruct (Nat.ltb_spec (top VGA_HEIGHT p) (prow p)); [cbn; unfold top; cbn; f_equal; lia|].
      apply Nat.eqb_neq in E. unfold top in *. lia. }
  rewrite Hcur. assert (Hgq : vga_is q (at_cursor (at_row VGA_HEIGHT q) (pcol q) g)).
  { split; [done|]. split; [|done]. cbn. unfold q. by rewrite window_back. }
  pose proof (vga_store_ok _ q (vga_entry 32 (current_color g)) Hgq) as Hs. cbn [vga_memory cursor_row cursor_col at_cursor] in Hs. rewrite Hs. cbn [mbind option_bind].
  eexists. split; [done|]. split; [|done]. split; [by apply store_ok|]. split; [done|]. split; [|done]. cbn. unfold at_row, top. cbn. by rewrite length_alter.
Qed.

End text.

End DisplaySpec.

Module DisplayDraw.

Import Bytes Fonts Display DisplaySpec.

(** ** Rows of a glyph *)

(** A pixel of another row is in no part of this one. *)
Lemma other_row P Y R X a n : 0 ≤ X < P → 0 ≤ a → a + n ≤ P → Y ≠ R → ¬ (R * P + a + 0 ≤ Y * P + X < R * P + a + 0 + n).
Proof.
  intros HX Ha Hn Hne H. assert (Y < R ∨ R < Y) as [Hlt|Hlt] by lia.
  - pose proof (Z.mul_le_mono_nonneg_r (Y + 1) R P ltac:(lia) ltac:(lia)). lia.
  - pose proof (Z.mul_le_mono_nonneg_r (R + 1) Y P ltac:(lia) ltac:(lia)). lia.
Qed.

Lemma same_slot w a b d : 0 ≤ d < w → b * w ≤ a * w + d < b * w + w → a = b.
Proof.
  intros Hd H. assert (a < b ∨ a = b ∨ b < a) as [Hlt|[->|Hlt]] by lia; [|done|].
  - pose proof (Z.mul_le_mono_nonneg_r (a + 1) b w ltac:(lia) ltac:(lia)). lia.
  - pose proof (Z.mul_le_mono_nonneg_r (b + 1) a w ltac:(lia) ltac:(lia)). lia.
Qed.

(** A slot of a row of [n] slots. *)
Lemma slot_range w n a d m : 0 ≤ a < n → 0 ≤ d < w → n * w ≤ m → 0 ≤ a * w ∧ a * w + w ≤ m ∧ 0 ≤ a * w + d < m.
Proof. intros Ha Hd Hm. pose proof (Z.mul_le_mono_nonneg_r (a + 1) n w ltac:(lia) ltac:(lia)). pose proof (Z.mul_nonneg_nonneg a w ltac:(lia) ltac:(lia)). lia. Qed.

Section rows.
Context (f : font) (w g fg bg px : Z) (ink : Z → Z → bool).
Context (Hpx : 0 ≤ px) (Hw : px + font_width_px f ≤ w) (Hsmall : w < 2147483648) (Hwidth : 0 ≤ font_width_px f).

Definition shade (y x : Z) : Z := if ink y x then fg else bg.

Lemma draw_row_ok y R n x l :
  (∀ x, 0 ≤ x < font_width_px f → glyph_bit f g y x = Some (ink y x)) → 0 ≤ R → R + w ≤ Z.of_nat (length l) → 0 ≤ x → x + Z.of_nat n ≤ font_width_px f →
  ∃ l', draw_row f w g y R px fg bg n x l = Some l' ∧ length l' = length l ∧
    ∀ i, l' !! i = if decide (R + px + x ≤ Z.of_nat i < R + px + x + Z.of_nat n) then Some (shade y (Z.of_nat i - R - px)) else l !! i.
Proof using Hpx Hw Hsmall.
  intros Hbit HR Hl. revert x l Hl. induction n as [|n IH]; intros x l Hl Hx Hn.
  - exists l. split; [done|]. split; [done|]. intros i. rewrite decide_False by lia. done.
  - cbn [draw_row]. rewrite s32_small by lia. rewrite (proj2 (Z.ltb_ge _ _)), (proj2 (Z.leb_gt _ _)) by lia. cbn [orb].
    rewrite Hbit by lia. cbn [mbind option_bind]. unfold store_pixel. rewrite (proj2 (Z.ltb_lt _ _)), buf_store_ok by lia. cbn [mbind option_bind]. fold (shade y x).
    set (i0 := Z.to_nat (R + (px + x))). destruct (IH (x + 1) (<[i0 := shade y x]> l)) as (l' & E & Hlen & Hl'); [rewrite length_insert; lia|lia|lia|].
    exists l'. split; [done|]. split; [by rewrite Hlen, length_insert|]. intros i. rewrite Hl'. destruct (decide (i = i0)) as [->|Hne].
    + rewrite decide_False by lia. rewrite list_lookup_insert_eq by lia. rewrite decide_True by lia. do 2 f_equal. lia.
    + rewrite list_lookup_insert_ne by done. destruct (decide (R + px + (x + 1) ≤ Z.of_nat i < R + px + (x + 1) + Z.of_nat n)).
      * by rewrite decide_True by lia.
      * rewrite decide_False; [done|lia].
Qed.

Context (fm : frame) (py : Z).
Context (Hfw : fb_w fm = w) (Hpitch : fb_w fm ≤ fb_pitch_pixels fm) (Hmem : fb_pitch_pixels fm * fb_h fm < 2147483648).
Context (Hpy : 0 ≤ py) (Hh : py + font_height_px f ≤ fb_h fm).
Context (Hbits : ∀ y x, 0 ≤ y < font_height_px f → 0 ≤ x < font_width_px f → glyph_bit f g y x = Some (ink y x)).

(** The pixel at column [X] of row [Y]. *)
Definition at_pixel (l : list Z) (X Y : Z) : option Z := l !! Z.to_nat (Y * fb_pitch_pixels fm + X).

Lemma draw_rows_ok n y l :
  0 < w → fb_pitch_pixels fm * fb_h fm ≤ Z.of_nat (length l) → 0 ≤ y → y + Z.of_nat n ≤ font_height_px f →
  ∃ l', draw_rows f fm g px py fg bg n y l = Some l' ∧ length l' = length l ∧
    ∀ X Y, 0 ≤ X < fb_pitch_pixels fm → 0 ≤ Y →
      at_pixel l' X Y = if decide ((py + y ≤ Y < py + y + Z.of_nat n) ∧ (px ≤ X < px + font_width_px f)) then Some (shade (Y - py) (X - px)) else at_pixel l X Y.
Proof using All.
  intros Hw0. set (P := fb_pitch_pixels fm) in *. revert y l. induction n as [|n IH]; intros y l Hl Hy Hn.
  - exists l. split; [done|]. split; [done|]. intros X Y _ _. rewrite decide_False by lia. done.
  - cbn [draw_rows]. assert (Hb : (py + y) * P + P ≤ P * fb_h fm) by nia. assert (HP : fb_h fm < 2147483648) by nia. rewrite s32_small by lia.
    rewrite (proj2 (Z.ltb_ge _ _)), (proj2 (Z.leb_gt _ _)) by lia. cbn [orb]. fold P. rewrite u32_small by nia. rewrite Hfw.
    destruct (draw_row_ok y ((py + y) * P) (Z.to_nat (font_width_px f)) 0 l) as (l1 & -> & Hl1 & Hi1); [intros; apply Hbits; lia|nia|lia|lia|lia|].
    cbn [mbind option_bind]. destruct (IH (y + 1) l1) as (l2 & -> & Hl2 & Hi2); [lia|lia|lia|]. exists l2. split; [done|]. split; [congruence|].
    intros X Y HX HY. rewrite Hi2 by done. unfold at_pixel at 1. fold P. rewrite Hi1. fold (at_pixel l X Y). rewrite Z2Nat.id by nia. destruct (decide (Y = py + y)) as [->|Hne].
    + rewrite decide_False by lia. destruct (decide (px ≤ X < px + font_width_px f)).
      * rewrite decide_True by lia. rewrite decide_True by lia. do 2 f_equal; lia.
      * rewrite decide_False by lia. rewrite decide_False by lia. done.
    + rewrite (decide_False (P := _ ≤ _ < _)) by (apply (other_row P); lia). destruct (decide (_ ∧ _)); [rewrite decide_True by lia|rewrite decide_False by lia]; done.
Qed.

End rows.

(** ** The console drawn *)

Definition with_pixels (l : list Z) (v : vbe) : vbe := set_frame (set_pixels l (fr v)) v.

Definition ink (f : font) (ch y x : Z) : bool := match glyph_for_char ch f with Some g => default false (glyph_bit f g y x) | None => false end.
Definition palette (a : Z) : Z := default 0 (attr_to_color a).

Definition pixel (v : vbe) (X Y : Z) : option Z := at_pixel (fr v) (pixels (fr v)) X Y.

(** Every character has a glyph, whose bits are in the font. *)
Record font_ok (f : font) : Prop := {
  fo_width : 0 < font_width_px f;
  fo_height : 0 < font_height_px f;
  fo_glyph ch : 0 ≤ ch < 256 → ∃ g, glyph_for_char ch f = Some g ∧
    ∀ y x, 0 ≤ y < font_height_px f → 0 ≤ x < font_width_px f → glyph_bit f g y x = Some (ink f ch y x)
}.

Definition blank_space (f : font) : Prop := ∀ y x, 0 ≤ y < font_height_px f → 0 ≤ x < font_width_px f → ink f 32 y x = false.

Definition cell_ok (c : Z * Z) : Prop := 0 ≤ c.1 < 256.

(** The console fits into the frame buffer, the frame buffer into its memory. *)
Record screen_ok (v : vbe) : Prop := {
  so_ready : vbe_ready v = true;
  so_font : font_ok (fnt v);
  so_pitch : 0 < fb_w (fr v) ≤ fb_pitch_pixels (fr v);
  so_small : fb_pitch_pixels (fr v) * fb_h (fr v) < 2147483648;
  so_memory : fb_pitch_pixels (fr v) * fb_h (fr v) ≤ Z.of_nat (length (pixels (fr v)));
  so_cols : 1 ≤ console_cols (con v) ≤ CONSOLE_COLUMNS;
  so_rows : 1 ≤ console_rows (con v) ≤ CONSOLE_ROWS;
  so_width : console_cols (con v) * font_width_px (fnt v) ≤ fb_w (fr v);
  so_height : console_rows (con v) * font_height_px (fnt v) ≤ fb_h (fr v);
  so_array : length (cells (con v)) = Z.to_nat CONSOLE_ROWS;
  so_lines : Forall (fun row => length row = Z.to_nat CONSOLE_COLUMNS) (cells (con v));
  so_cells : Forall (Forall cell_ok) (cells (con v));
  so_colors : 0 ≤ console_fg (con v) < 16 ∧ 0 ≤ console_bg (con v) < 16
}.

(** The cell at row [y] and column [x] is on the screen as it is in the console. *)
Definition shown (v : vbe) (y x : Z) : Prop :=
  ∀ ch attr, cell_at (cells (con v)) y x = Some (ch, attr) →
  ∀ dy dx, 0 ≤ dy < font_height_px (fnt v) → 0 ≤ dx < font_width_px (fnt v) →
    pixel v (x * font_width_px (fnt v) + dx) (y * font_height_px (fnt v) + dy) =
      Some (palette (if ink (fnt v) ch dy dx then Z.land attr 15 else Z.land (Z.shiftr attr 4) 15)).

Definition in_console (v : vbe) (y x : Z) : Prop := 0 ≤ y < console_rows (con v) ∧ 0 ≤ x < console_cols (con v).

Definition drawn (v : vbe) : Prop := ∀ y x, in_console v y x → shown v y x.

Lemma attr_color a : attr_to_color (Z.land a 15) = Some (palette (Z.land a 15)).
Proof.
  unfold palette, attr_to_color. set (b := Z.land (Z.land a 15) 15). assert (Hb : 0 ≤ b < 16) by (unfold b; change 15 with (Z.ones 4); rewrite Z.land_ones by lia; apply Z.mod_pos_bound; lia).
  destruct (lookup_lt_is_Some_2 vga_palette (Z.to_nat b)) as [x ->]; [simpl; lia|done].
Qed.

Lemma with_pixels_ok l v : screen_ok v → length l = length (pixels (fr v)) → screen_ok (with_pixels l v).
Proof. intros [] Hl. constructor; try done. cbn. by rewrite Hl. Qed.

(** A glyph drawn at the place of a cell. *)
Lemma glyph_painted v y x ch fg bg :
  screen_ok v → in_console v y x → 0 ≤ ch < 256 →
  ∃ l, draw_glyph (x * font_width_px (fnt v)) (y * font_height_px (fnt v)) ch fg bg v = Some (with_pixels l v) ∧ length l = length (pixels (fr v)) ∧
    (∀ dy dx, 0 ≤ dy < font_height_px (fnt v) → 0 ≤ dx < font_width_px (fnt v) →
      pixel (with_pixels l v) (x * font_width_px (fnt v) + dx) (y * font_height_px (fnt v) + dy) = Some (if ink (fnt v) ch dy dx then fg else bg)) ∧
    (∀ y' x', (y', x') ≠ (y, x) → in_console v y' x' → ∀ dy dx, 0 ≤ dy < font_height_px (fnt v) → 0 ≤ dx < font_width_px (fnt v) →
      pixel (with_pixels l v) (x' * font_width_px (fnt v) + dx) (y' * font_height_px (fnt v) + dy) = pixel v (x' * font_width_px (fnt v) + dx) (y' * font_height_px (fnt v) + dy)).
Proof.
  intros Hv [Hy Hx] Hch. destruct (fo_glyph _ (so_font v Hv) ch Hch) as (g & Hg & Hbits). unfold draw_glyph. rewrite (so_ready v Hv). cbn [negb]. rewrite Hg.
  pose proof (fo_width _ (so_font v Hv)) as Hfw. pose proof (fo_height _ (so_font v Hv)) as Hfh. set (fw := font_width_px (fnt v)) in *. set (fh := font_height_px (fnt v)) in *.
  pose proof (so_width v Hv) as Hcw. pose proof (so_height v Hv) as Hch'. fold fw in Hcw. fold fh in Hch'. pose proof (so_pitch v Hv) as Hp. pose proof (so_small v Hv) as Hs.
  assert (Hxw : 0 ≤ x * fw ∧ x * fw + fw ≤ fb_w (fr v)) by nia. assert (Hyh : 0 ≤ y * fh ∧ y * fh + fh ≤ fb_h (fr v)) by nia.
  destruct (draw_rows_ok (fnt v) (fb_w (fr v)) g fg bg (x * fw) (ink (fnt v) ch) ltac:(lia) ltac:(fold fw; lia) ltac:(nia) ltac:(fold fw; lia) (fr v) (y * fh) eq_refl ltac:(lia) Hs ltac:(lia)
    ltac:(fold fh; lia) Hbits (Z.to_nat fh) 0 (pixels (fr v)) ltac:(lia) (so_memory v Hv) ltac:(lia) ltac:(fold fh; lia)) as (l & E & Hl & Hpix). fold fw in Hpix.
  exists l. rewrite E. split; [done|]. split; [done|]. split.
  - intros dy dx Hdy Hdx. unfold pixel. cbn [fr with_pixels set_frame set_pixels pixels]. change (at_pixel (set_pixels l (fr v))) with (at_pixel (fr v)). rewrite Hpix by nia.
    rewrite decide_True by lia. unfold shade. replace (y * fh + dy - y * fh) with dy by lia. replace (x * fw + dx - x * fw) with dx by lia. done.
  - intros y' x' Hne [Hy' Hx'] dy dx Hdy Hdx. unfold pixel. cbn [fr with_pixels set_frame set_pixels pixels]. change (at_pixel (set_pixels l (fr v))) with (at_pixel (fr v)). rewrite Hpix by nia.
    rewrite decide_False; [done|]. intros [H1 H2]. apply Hne. f_equal; [apply (same_slot fh _ _ dy)|apply (same_slot fw _ _ dx)]; lia.
Qed.

(** Drawing one cell shows it, and leaves the others. *)
Lemma cell_painted v y x ch attr fg bg :
  screen_ok v → in_console v y x → cell_at (cells (con v)) y x = Some (ch, attr) → 0 ≤ ch < 256 →
  fg = palette (Z.land attr 15) → bg = palette (Z.land (Z.shiftr attr 4) 15) →
  ∃ l, draw_glyph (x * font_width_px (fnt v)) (y * font_height_px (fnt v)) ch fg bg v = Some (with_pixels l v) ∧ screen_ok (with_pixels l v) ∧
    shown (with_pixels l v) y x ∧ ∀ y' x', (y', x') ≠ (y, x) → in_console v y' x' → shown v y' x' → shown (with_pixels l v) y' x'.
Proof.
  intros Hv Hin Hcell Hch -> ->. destruct (glyph_painted v y x ch (palette (Z.land attr 15)) (palette (Z.land (Z.shiftr attr 4) 15)) Hv Hin Hch) as (l & E & Hl & Hself & Hother).
  exists l. split; [done|]. split; [by apply with_pixels_ok|]. split.
  - intros ch' attr' Hc dy dx Hdy Hdx. assert (Hc' : cell_at (cells (con v)) y x = Some (ch', attr')) by exact Hc. rewrite Hcell in Hc'. injection Hc' as <- <-.
    etransitivity; [exact (Hself dy dx Hdy Hdx)|]. change (fnt (with_pixels l v)) with (fnt v). by destruct (ink (fnt v) ch dy dx).
  - intros y' x' Hne Hin' Hs ch' attr' Hc dy dx Hdy Hdx. etransitivity; [exact (Hother y' x' Hne Hin' dy dx Hdy Hdx)|]. exact (Hs ch' attr' Hc dy dx Hdy Hdx).
Qed.

Lemma cell_exists v y x : screen_ok v → in_console v y x → ∃ ch attr, cell_at (cells (con v)) y x = Some (ch, attr) ∧ 0 ≤ ch < 256.
Proof.
  intros Hv [Hy Hx]. pose proof (so_cols v Hv). pose proof (so_rows v Hv). pose proof (so_array v Hv). unfold CONSOLE_COLUMNS, CONSOLE_ROWS in *.
  destruct (lookup_lt_is_Some_2 (cells (con v)) (Z.to_nat y) ltac:(lia)) as [row Hrow]. pose proof (Forall_lookup_1 _ _ _ _ (so_lines v Hv) Hrow) as Hlen. cbn beta in Hlen.
  unfold CONSOLE_COLUMNS in Hlen. destruct (lookup_lt_is_Some_2 row (Z.to_nat x) ltac:(lia)) as [[ch attr] Hc]. exists ch, attr. unfold cell_at. rewrite Hrow. cbn [mbind option_bind]. split; [done|].
  exact (Forall_lookup_1 _ _ _ _ (Forall_lookup_1 _ _ _ _ (so_cells v Hv) Hrow) Hc).
Qed.

(** Where a cell is drawn: the products stay in range. *)
Lemma place_small v y x : screen_ok v → in_console v y x →
  s32 (u32 (x * font_width_px (fnt v))) = x * font_width_px (fnt v) ∧ s32 (u32 (y * font_height_px (fnt v))) = y * font_height_px (fnt v) ∧
  s32 (x * font_width_px (fnt v)) = x * font_width_px (fnt v).
Proof.
  intros Hv [Hy Hx]. pose proof (fo_width _ (so_font v Hv)). pose proof (fo_height _ (so_font v Hv)). pose proof (so_width v Hv). pose proof (so_height v Hv).
  pose proof (so_pitch v Hv). pose proof (so_small v Hv). assert (0 ≤ x * font_width_px (fnt v) < fb_w (fr v)) by nia. assert (0 ≤ y * font_height_px (fnt v) < fb_h (fr v)) by nia.
  assert (fb_w (fr v) < 2147483648 ∧ fb_h (fr v) < 2147483648) by nia. rewrite !u32_small, !s32_small by lia. done.
Qed.

Lemma draw_cell_ok v y x :
  screen_ok v → in_console v y x →
  ∃ l, draw_cell y x v = Some (with_pixels l v) ∧ screen_ok (with_pixels l v) ∧ shown (with_pixels l v) y x ∧
    ∀ y' x', (y', x') ≠ (y, x) → in_console v y' x' → shown v y' x' → shown (with_pixels l v) y' x'.
Proof.
  intros Hv Hin. destruct (cell_exists v y x Hv Hin) as (ch & attr & Hc & Hch). unfold draw_cell. rewrite Hc. cbn [mbind option_bind]. rewrite !attr_color. cbn [mbind option_bind].
  destruct (place_small v y x Hv Hin) as (-> & -> & _). by apply (cell_painted v y x ch attr).
Qed.

(** ** Redrawing *)

Definition keeps_shown (v v' : vbe) : Prop := ∀ y x, in_console v y x → shown v y x → shown v' y x.

Lemma draw_cell_shown v y x :
  screen_ok v → in_console v y x →
  ∃ l, draw_cell y x v = Some (with_pixels l v) ∧ screen_ok (with_pixels l v) ∧ shown (with_pixels l v) y x ∧ keeps_shown v (with_pixels l v).
Proof.
  intros Hv Hin. destruct (draw_cell_ok v y x Hv Hin) as (l & E & Hv' & Hs & Ho). exists l. split; [done|]. split; [done|]. split; [done|].
  intros y' x' Hin' Hs'. destruct (decide ((y', x') = (y, x))) as [[= -> ->]|Hne]; [done|by apply Ho].
Qed.

Lemma redraw_row_ok y n x v :
  screen_ok v → 0 ≤ y < console_rows (con v) → 0 ≤ x → x + Z.of_nat n ≤ console_cols (con v) →
  ∃ l, redraw_row y n x v = Some (with_pixels l v) ∧ screen_ok (with_pixels l v) ∧ (∀ x', x ≤ x' < x + Z.of_nat n → shown (with_pixels l v) y x') ∧ keeps_shown v (with_pixels l v).
Proof.
  revert x v. induction n as [|n IH]; intros x v Hv Hy Hx Hn.
  - exists (pixels (fr v)). assert (E : with_pixels (pixels (fr v)) v = v) by (by destruct v as [[] ? ? ? ? ?]). rewrite E. split; [done|]. split; [done|]. split; [lia|]. by intros ? ? ? ?.
  - cbn [redraw_row]. destruct (draw_cell_shown v y x Hv) as (l1 & -> & Hv1 & Hs1 & Hk1); [split; lia|]. cbn [mbind option_bind].
    destruct (IH (x + 1) (with_pixels l1 v) Hv1) as (l2 & -> & Hv2 & Hs2 & Hk2); [done|lia|cbn; lia|]. exists l2. split; [done|]. split; [done|]. split.
    + intros x' Hx'. destruct (decide (x' = x)) as [->|Hne]; [|apply Hs2; lia]. apply Hk2; [split; cbn; lia|done].
    + intros y' x' Hin Hs. apply Hk2; [done|]. by apply Hk1.
Qed.

Lemma redraw_rows_ok n y v :
  screen_ok v → 0 ≤ y → y + Z.of_nat n ≤ console_rows (con v) →
  ∃ l, redraw_rows n y v = Some (with_pixels l v) ∧ screen_ok (with_pixels l v) ∧
    (∀ y' x, y ≤ y' < y + Z.of_nat n → 0 ≤ x < console_cols (con v) → shown (with_pixels l v) y' x) ∧ keeps_shown v (with_pixels l v).
Proof.
  revert y v. induction n as [|n IH]; intros y v Hv Hy Hn.
  - exists (pixels (fr v)). assert (E : with_pixels (pixels (fr v)) v = v) by (by destruct v as [[] ? ? ? ? ?]). rewrite E. split; [done|]. split; [done|]. split; [lia|]. by intros ? ? ? ?.
  - cbn [redraw_rows]. pose proof (so_cols v Hv) as Hc. destruct (redraw_row_ok y (Z.to_nat (console_cols (con v))) 0 v Hv) as (l1 & -> & Hv1 & Hs1 & Hk1); [lia|lia|lia|]. cbn [mbind option_bind].
    destruct (IH (y + 1) (with_pixels l1 v) Hv1) as (l2 & -> & Hv2 & Hs2 & Hk2); [lia|cbn; lia|]. exists l2. split; [done|]. split; [done|]. split.
    + intros y' x Hy' Hx. destruct (decide (y' = y)) as [->|Hne]; [|apply Hs2; [lia|done]]. apply Hk2; [split; cbn; lia|]. apply Hs1. lia.
    + intros y' x' Hin Hs. apply Hk2; [done|]. by apply Hk1.
Qed.

Lemma console_redraw_ok v : screen_ok v → ∃ l, console_redraw v = Some (with_pixels l v) ∧ screen_ok (with_pixels l v) ∧ drawn (with_pixels l v).
Proof.
  intros Hv. unfold console_redraw. rewrite (so_ready v Hv). cbn [negb]. pose proof (so_rows v Hv). destruct (redraw_rows_ok (Z.to_nat (console_rows (con v))) 0 v Hv) as (l & E & Hl & Hs & _); [lia|lia|].
  exists l. split; [done|]. split; [done|]. intros y x [Hy Hx]. apply Hs; [cbn in Hy; lia|exact Hx].
Qed.

(** ** The cells in use *)

Section cells.
Context (cols rows : nat).
Implicit Types l : list (list (Z * Z)).

(** The part of the array the geometry of the console uses. *)
Definition in_use l : list (list (Z * Z)) := take rows (take cols <$> l).

Definition full l : Prop := length l = Z.to_nat CONSOLE_ROWS ∧ Forall (fun row => length row = Z.to_nat CONSOLE_COLUMNS) l.

Lemma in_use_lookup l i : in_use l !! i = if decide (i < rows)%nat then take cols <$> l !! i else None.
Proof. unfold in_use. destruct (decide (i < rows)%nat); [rewrite lookup_take_lt by done; apply list_lookup_fmap|rewrite lookup_take_ge; [done|lia]]. Qed.

Lemma full_row l i : full l → (i < Z.to_nat CONSOLE_ROWS)%nat → ∃ row, l !! i = Some row ∧ length row = Z.to_nat CONSOLE_COLUMNS.
Proof. intros [H1 H2] Hi. destruct (lookup_lt_is_Some_2 l i ltac:(lia)) as [row E]. exists row. split; [done|]. exact (Forall_lookup_1 _ _ _ _ H2 E). Qed.

Lemma full_insert l i row : full l → length row = Z.to_nat CONSOLE_COLUMNS → full (<[i := row]> l).
Proof. intros [H1 H2] Hrow. split; [by rewrite length_insert|]. by apply Forall_insert. Qed.

Context (Hc : (cols ≤ Z.to_nat CONSOLE_COLUMNS)%nat).

Lemma scroll_rows_ok n y l :
  full l → (1 ≤ y)%nat → (y + n ≤ Z.to_nat CONSOLE_ROWS)%nat → Forall (Forall cell_ok) l →
  ∃ l', scroll_rows cols n y l = Some l' ∧ full l' ∧ Forall (Forall cell_ok) l' ∧
    ∀ i, take cols <$> l' !! i = if decide (y - 1 ≤ i < y - 1 + n)%nat then take cols <$> l !! S i else take cols <$> l !! i.
Proof using Hc.
  revert y l. induction n as [|n IH]; intros y l Hl Hy Hn Hok.
  - exists l. split; [done|]. split; [done|]. split; [done|]. intros i. by rewrite decide_False by lia.
  - cbn [scroll_rows]. destruct (full_row l y Hl ltac:(lia)) as (src & Hs & Hsl). destruct (full_row l (y - 1) Hl ltac:(lia)) as (dst & Hd & Hdl). rewrite Hs, Hd. cbn [mbind option_bind].
    rewrite Hsl, Hdl, (proj2 (Nat.ltb_ge _ _)) by lia. cbn [orb]. rewrite buf_store_ok by (destruct Hl; lia). cbn [mbind option_bind].
    assert (Hlen : length (take cols src ++ drop cols dst) = Z.to_nat CONSOLE_COLUMNS) by (rewrite length_app, length_take, length_drop; lia).
    destruct (IH (S y) (<[(y - 1)%nat := take cols src ++ drop cols dst]> l)) as (l' & -> & Hl' & Hok' & Hi); [by apply full_insert|lia|lia| |].
    + apply Forall_insert; [done|]. pose proof (Forall_lookup_1 _ _ _ _ Hok Hs). pose proof (Forall_lookup_1 _ _ _ _ Hok Hd). apply Forall_app. split; [by apply Forall_take|by apply Forall_drop].
    + exists l'. split; [done|]. split; [done|]. split; [done|]. intros i. rewrite Hi. destruct (decide (i = y - 1)%nat) as [->|Hne].
      * rewrite decide_False by lia. rewrite decide_True by lia. rewrite list_lookup_insert_eq by (destruct Hl; lia). replace (S (y - 1)) with y by lia. rewrite Hs. cbn. rewrite take_app_le, take_idemp by (rewrite length_take; lia). done.
      * destruct (decide (S y - 1 ≤ i < S y - 1 + n)%nat); rewrite list_lookup_insert_ne by lia; [by rewrite decide_True by lia|by rewrite decide_False by lia].
Qed.

(** The last row in use blank, the others one row up. *)
Lemma scrolled_ok l cell :
  full l → Forall (Forall cell_ok) l → cell_ok cell → (1 ≤ rows ≤ Z.to_nat CONSOLE_ROWS)%nat →
  ∃ l1 l2, scroll_rows cols (rows - 1) 1 l = Some l1 ∧ clear_row (rows - 1) cols cell l1 = Some l2 ∧ full l2 ∧ Forall (Forall cell_ok) l2 ∧
    in_use l2 = drop 1 (in_use l) ++ [replicate cols cell].
Proof using Hc.
  intros Hl Hok Hcell Hrows. destruct (scroll_rows_ok (rows - 1) 1 l Hl ltac:(lia) ltac:(lia) Hok) as (l1 & E1 & Hl1 & Hok1 & Hi). destruct (full_row l1 (rows - 1) Hl1 ltac:(lia)) as (row & Hrow & Hlen).
  exists l1, (<[(rows - 1)%nat := replicate cols cell ++ drop cols row]> l1). split; [done|]. split.
  { unfold clear_row. rewrite Hrow. cbn [mbind option_bind]. rewrite Hlen, (proj2 (Nat.ltb_ge _ _)) by lia. apply buf_store_ok. destruct Hl1. lia. }
  split. { apply full_insert; [done|]. rewrite length_app, length_replicate, length_drop. lia. }
  split. { apply Forall_insert; [done|]. apply Forall_app. split; [by apply Forall_replicate|]. apply Forall_drop. exact (Forall_lookup_1 _ _ _ _ Hok1 Hrow). }
  assert (Hul : length (in_use l) = rows) by (unfold in_use; rewrite length_take, length_fmap; destruct Hl; lia). apply list_eq. intros i. rewrite in_use_lookup.
  destruct (decide (i < rows)%nat); [|symmetry; apply lookup_ge_None_2; rewrite length_app, length_drop, Hul; cbn; lia]. destruct (decide (i = rows - 1)%nat) as [->|Hne].
  - rewrite list_lookup_insert_eq by (destruct Hl1; lia). rewrite lookup_app_r by (rewrite length_drop; lia). rewrite length_drop, Hul, Nat.sub_diag. cbn.
    rewrite take_app_le, take_ge by (rewrite length_replicate; lia). done.
  - rewrite list_lookup_insert_ne by lia. rewrite Hi, decide_True by lia. rewrite lookup_app_l, lookup_drop, in_use_lookup by (rewrite length_drop; lia). rewrite decide_True by lia. done.
Qed.

(** One cell of the part in use. *)
Lemma set_cell_ok c y x cell :
  full (cells c) → Forall (Forall cell_ok) (cells c) → cell_ok cell → 0 ≤ y < CONSOLE_ROWS → 0 ≤ x < CONSOLE_COLUMNS →
  ∃ l, set_cell y x cell c = Some (set_cells l c) ∧ full l ∧ Forall (Forall cell_ok) l ∧
    (Z.to_nat x < cols → in_use l = alter (fun row => <[Z.to_nat x := cell]> row) (Z.to_nat y) (in_use (cells c)))%nat ∧
    cell_at l y x = Some cell ∧ ∀ y' x', 0 ≤ y' → 0 ≤ x' → (y', x') ≠ (y, x) → cell_at l y' x' = cell_at (cells c) y' x'.
Proof using Hc.
  intros Hl Hok Hcell Hy Hx. destruct (full_row (cells c) (Z.to_nat y) Hl ltac:(lia)) as (row & Hrow & Hlen). pose proof (Forall_lookup_1 _ _ _ _ Hok Hrow) as Hokr. pose proof (proj1 Hl) as Hn.
  exists (<[Z.to_nat y := <[Z.to_nat x := cell]> row]> (cells c)). split. { unfold set_cell. rewrite Hrow. cbn [mbind option_bind]. rewrite buf_store_ok by lia. cbn [mbind option_bind]. rewrite buf_store_ok by lia. done. }
  split; [apply full_insert; [done|]; by rewrite length_insert|]. split; [apply Forall_insert; [done|]; by apply Forall_insert|]. split; [|split].
  - intros Hxc. apply list_eq. intros i. rewrite in_use_lookup. destruct (decide (i = Z.to_nat y)) as [->|Hne].
    + rewrite list_lookup_alter_eq, in_use_lookup, list_lookup_insert_eq, Hrow by lia. destruct (decide _); [|done]. cbn. by rewrite take_insert_lt by lia.
    + rewrite list_lookup_alter_ne, in_use_lookup, list_lookup_insert_ne by done. done.
  - unfold cell_at. rewrite list_lookup_insert_eq by lia. cbn. rewrite list_lookup_insert_eq by lia. done.
  - intros y' x' Hy' Hx' Hne. unfold cell_at. destruct (decide (y' = y)) as [->|Hney].
    + rewrite list_lookup_insert_eq, Hrow by lia. cbn. rewrite list_lookup_insert_ne; [done|]. intros H. apply Hne. f_equal. lia.
    + rewrite list_lookup_insert_ne by lia. done.
Qed.

End cells.

(** ** The console as a page *)

Section console.
Implicit Types (v : vbe) (q : page (Z * Z)).

Definition ccols v : nat := Z.to_nat (console_cols (con v)).
Definition crows v : nat := Z.to_nat (console_rows (con v)).

(** The console shows the end of a page, on the screen. *)
Record displays q v : Prop := {
  di_screen : screen_ok v;
  di_page : page_ok (ccols v) (crows v) q;
  di_cells : in_use (ccols v) (crows v) (cells (con v)) = window (crows v) q;
  di_row : console_row (con v) = Z.of_nat (at_row (crows v) q);
  di_col : console_col (con v) = Z.of_nat (pcol q);
  di_drawn : drawn v
}.

(** Nothing but the pixels, the cells and the cursor differ. *)
Definition same_setup v v' : Prop :=
  fnt v' = fnt v ∧ console_fg (con v') = console_fg (con v) ∧ console_bg (con v') = console_bg (con v) ∧
  console_cols (con v') = console_cols (con v) ∧ console_rows (con v') = console_rows (con v).

Lemma same_setup_refl v : same_setup v v.
Proof. done. Qed.

Lemma same_setup_trans v1 v2 v3 : same_setup v1 v2 → same_setup v2 v3 → same_setup v1 v3.
Proof. unfold same_setup. intuition congruence. Qed.

Lemma attr_parts fg bg : 0 ≤ fg < 16 → 0 ≤ bg < 16 →
  Z.land (blank_attr fg bg) 15 = fg ∧ Z.land (Z.shiftr (blank_attr fg bg) 4) 15 = bg ∧ u8 (Z.lor (Z.shiftl bg 4) fg) = blank_attr fg bg.
Proof.
  intros Hf Hb. assert (Hall : forallb (fun f => forallb (fun b => let f := Z.of_nat f in let b := Z.of_nat b in
    (Z.land (blank_attr f b) 15 =? f) && (Z.land (Z.shiftr (blank_attr f b) 4) 15 =? b) && (u8 (Z.lor (Z.shiftl b 4) f) =? blank_attr f b)) (List.seq 0 16)) (List.seq 0 16) = true) by (vm_compute; reflexivity).
  rewrite forallb_forall in Hall. specialize (Hall (Z.to_nat fg)). rewrite forallb_forall in Hall. specialize (Hall ltac:(apply in_seq; lia) (Z.to_nat bg) ltac:(apply in_seq; lia)).
  cbn zeta in Hall. rewrite !Z2Nat.id in Hall by lia. apply andb_true_iff in Hall as [Hall H3]. apply andb_true_iff in Hall as [H1 H2]. apply Z.eqb_eq in H1, H2, H3. done.
Qed.

Lemma cursor_screen_ok row col v : screen_ok v → screen_ok (set_con (set_cursor row col (con v)) v).
Proof. intros []. by constructor. Qed.

Lemma cells_screen_ok l v : screen_ok v → full l → Forall (Forall cell_ok) l → screen_ok (set_con (set_cells l (con v)) v).
Proof. intros [] [? ?] ?. by constructor. Qed.

Lemma screen_full v : screen_ok v → full (cells (con v)).
Proof. intros []. by split. Qed.

Lemma screen_cols v : screen_ok v → (0 < ccols v ≤ Z.to_nat CONSOLE_COLUMNS)%nat ∧ (0 < crows v ≤ Z.to_nat CONSOLE_ROWS)%nat.
Proof. intros []. unfold ccols, crows. lia. Qed.

Definition blank_cell v : Z * Z := (32, blank_attr (console_fg (con v)) (console_bg (con v))).

Lemma console_newline_ok q v : displays q v →
  ∃ v', console_newline v = Some v' ∧ displays (p_newline (ccols v) (blank_cell v) q) v' ∧ same_setup v v'.
Proof.
  intros [Hv Hp Hc Hr Hx Hd]. destruct (screen_cols v Hv) as [Hcols Hrows]. pose proof (window_newline (ccols v) (crows v) (blank_cell v) q Hp) as Hw.
  pose proof (newline_ok (ccols v) (crows v) ltac:(lia) ltac:(lia) (blank_cell v) q Hp) as Hok. pose proof (newline_col (ccols v) (blank_cell v) q) as Hcol. pose proof (at_row_lt _ _ q Hp) as Hlt.
  unfold console_newline. rewrite Hr. assert (Hrz : console_rows (con v) = Z.of_nat (crows v)) by (unfold crows in *; lia).
  destruct (Nat.ltb_spec (S (at_row (crows v) q)) (crows v)) as [Hin|Hout]; destruct Hw as [Hw1 Hw2].
  - rewrite (proj2 (Z.ltb_lt _ _)) by lia. eexists. split; [done|]. split; [|done]. constructor; [by apply cursor_screen_ok|done| | | |exact Hd].
    + etransitivity; [exact Hc|]. symmetry. exact Hw1.
    + cbn. change (crows _) with (crows v). rewrite Hw2. lia.
    + cbn. rewrite Hcol. done.
  - rewrite (proj2 (Z.ltb_ge _ _)) by lia. fold (ccols v) (crows v).
    destruct (scrolled_ok (ccols v) (crows v) ltac:(lia) (cells (con v)) (blank_cell v) (screen_full v Hv) (so_cells v Hv) ltac:(split; cbn; lia) ltac:(lia)) as (l1 & l2 & -> & E2 & Hl2 & Hok2 & Hu).
    cbn [mbind option_bind]. rewrite (proj2 (Z.ltb_lt _ _)) by lia. replace (Z.to_nat (console_rows (con v) - 1)) with (crows v - 1)%nat by lia. fold (blank_cell v). rewrite E2. cbn [mbind option_bind].
    set (v1 := set_con (set_cursor (console_rows (con v) - 1) 0 (set_cells l2 (con v))) v).
    assert (Hv1 : screen_ok v1) by exact (cursor_screen_ok _ _ _ (cells_screen_ok l2 v Hv Hl2 Hok2)). destruct (console_redraw_ok v1 Hv1) as (l & -> & Hs & Hdr). eexists. split; [done|]. split; [|done].
    constructor; [done|done| | | |exact Hdr].
    + etransitivity; [exact Hu|]. rewrite Hc. symmetry. exact Hw1.
    + cbn. change (crows _) with (crows v). rewrite Hw2. lia.
    + cbn. rewrite Hcol. done.
Qed.

(** The cells that are not stored to stay on the screen. *)
Lemma shown_other v l y x :
  in_console v y x → cell_at l y x = cell_at (cells (con v)) y x → shown v y x → shown (set_con (set_cells l (con v)) v) y x.
Proof. intros _ E Hs ch attr Hc. apply Hs. rewrite <- E. exact Hc. Qed.

Lemma put_cell_ok q v ch :
  displays q v → 0 ≤ ch < 256 →
  ∃ v', put_cell ch (blank_attr (console_fg (con v)) (console_bg (con v))) v = Some v' ∧
    displays (p_store (ch, blank_attr (console_fg (con v)) (console_bg (con v))) q) v' ∧ same_setup v v'.
Proof.
  intros [Hv Hp Hc Hr Hx Hd] Hch. destruct (screen_cols v Hv) as [Hcols Hrows]. pose proof (at_row_lt _ _ q Hp) as Hlt. pose proof (po_col _ _ _ Hp) as Hpc.
  set (attr := blank_attr (console_fg (con v)) (console_bg (con v))). destruct (attr_parts _ _ (proj1 (so_colors v Hv)) (proj2 (so_colors v Hv))) as (Hfg & Hbg & _). fold attr in Hfg, Hbg.
  assert (Hin : in_console v (console_row (con v)) (console_col (con v))) by (unfold ccols, crows in *; split; lia).
  destruct (set_cell_ok (ccols v) (crows v) ltac:(lia) (con v) (console_row (con v)) (console_col (con v)) (ch, attr) (screen_full v Hv) (so_cells v Hv) Hch) as (l & E & Hl & Hok & Hu & Hat & Hother); [lia|lia|].
  unfold put_cell. rewrite E. cbn [mbind option_bind]. pose proof (attr_color attr) as Ef. pose proof (attr_color (Z.shiftr attr 4)) as Eb. rewrite Hfg in Ef. rewrite Hbg in Eb. rewrite Ef, Eb. cbn [mbind option_bind].
  destruct (place_small v _ _ Hv Hin) as (_ & -> & ->). set (v1 := set_con (set_cells l (con v)) v). assert (Hv1 : screen_ok v1) by by apply cells_screen_ok.
  destruct (cell_painted v1 (console_row (con v)) (console_col (con v)) ch attr (palette (console_fg (con v))) (palette (console_bg (con v))) Hv1 Hin Hat Hch) as (l' & E' & Hs & Hself & Hrest); [by rewrite Hfg|by rewrite Hbg|].
  change (fnt v1) with (fnt v) in E'. rewrite E'. eexists. split; [done|]. split; [|done]. constructor; [done|by apply store_ok| | |exact Hx|].
  - etransitivity; [exact (Hu ltac:(lia))|]. change (crows (with_pixels l' v1)) with (crows v). rewrite (window_store (ccols v) (crows v) _ q Hp), Hc. f_equal; [|unfold at_row in Hr; lia]. by rewrite Hx, Nat2Z.id.
  - etransitivity; [exact Hr|]. change (crows (with_pixels l' v1)) with (crows v). unfold at_row, top, p_store. cbn. by rewrite length_alter.
  - intros y x Hyx. destruct (decide ((y, x) = (console_row (con v), console_col (con v)))) as [[= -> ->]|Hne]; [exact Hself|]. apply Hrest; [done|exact Hyx|].
    apply shown_other; [exact Hyx| |exact (Hd y x Hyx)]. destruct Hyx as [Hy' Hx']. apply Hother; [exact (proj1 Hy')|exact (proj1 Hx')|done].
Qed.

(** What a character does to the page of the console. *)
Definition console_page_put (cols rows : nat) (fg bg c : Z) q : page (Z * Z) :=
  let attr := blank_attr fg bg in
  if c =? 10 then p_newline cols (32, attr) q
  else if c =? 13 then p_return q
  else if c =? 8 then p_store (32, attr) (p_back cols rows q)
  else p_put cols (32, attr) (c, attr) q.

Lemma cursor_displays q q' v :
  displays q v → page_ok (ccols v) (crows v) q' → window (crows v) q' = window (crows v) q →
  displays q' (set_con (set_cursor (Z.of_nat (at_row (crows v) q')) (Z.of_nat (pcol q')) (con v)) v).
Proof. intros [Hv Hp Hc Hr Hx Hd] Hp' Hw. constructor; [by apply cursor_screen_ok|done|etransitivity; [exact Hc|done]|done|done|exact Hd]. Qed.

(** Where the cursor goes back to. *)
Lemma back_cursor q v : displays q v →
  (if 0 <? console_col (con v) then (console_row (con v), console_col (con v) - 1)
   else if 0 <? console_row (con v) then (console_row (con v) - 1, if 0 <? console_cols (con v) then console_cols (con v) - 1 else 0)
   else (console_row (con v), console_col (con v))) =
  (Z.of_nat (at_row (crows v) (p_back (ccols v) (crows v) q)), Z.of_nat (pcol (p_back (ccols v) (crows v) q))).
Proof.
  intros [Hv Hp Hc Hr Hx Hd]. destruct (screen_cols v Hv) as [Hcols Hrows]. destruct Hp as [_ _ Hp _]. rewrite Hr, Hx. unfold p_back, at_row in *. destruct (Nat.ltb_spec 0 (pcol q)).
  - rewrite (proj2 (Z.ltb_lt _ _)) by lia. cbn [prow pcol]. change (top (crows v) (Page (grid q) (prow q) (pcol q - 1))) with (top (crows v) q). f_equal. lia.
  - rewrite (proj2 (Z.ltb_ge _ _)) by lia. destruct (Nat.ltb_spec (top (crows v) q) (prow q)).
    + rewrite !(proj2 (Z.ltb_lt _ _)) by (unfold ccols in *; lia). cbn [prow pcol]. change (top (crows v) (Page (grid q) (prow q - 1) (ccols v - 1))) with (top (crows v) q). unfold ccols in *. f_equal; lia.
    + rewrite (proj2 (Z.ltb_ge _ _)) by lia. done.
Qed.

Lemma vbe_console_putc_ok q v c :
  displays q v → 0 ≤ c < 256 →
  ∃ v', vbe_console_putc c v = Some v' ∧ displays (console_page_put (ccols v) (crows v) (console_fg (con v)) (console_bg (con v)) c q) v' ∧ same_setup v v'.
Proof.
  intros Hq Hc. pose proof (di_screen _ _ Hq) as Hv. destruct (screen_cols v Hv) as [Hcols Hrows]. unfold vbe_console_putc, console_page_put. rewrite (so_ready v Hv). cbn [negb].
  destruct (c =? 10); [exact (console_newline_ok q v Hq)|]. destruct (c =? 13).
  { eexists. split; [done|]. split; [|done]. pose proof (cursor_displays q (p_return q) v Hq (return_ok (ccols v) (crows v) ltac:(lia) q (di_page _ _ Hq)) eq_refl) as H. rewrite (di_row _ _ Hq). exact H. }
  destruct (c =? 8).
  { rewrite (back_cursor q v Hq). set (q' := p_back (ccols v) (crows v) q). rewrite (proj2 (proj2 (attr_parts _ _ (proj1 (so_colors v Hv)) (proj2 (so_colors v Hv))))).
    pose proof (cursor_displays q q' v Hq ltac:(apply back_ok; [lia|lia|exact (di_page _ _ Hq)]) ltac:(apply window_back)) as H. exact (put_cell_ok q' _ 32 H ltac:(lia)). }
  set (attr := blank_attr (console_fg (con v)) (console_bg (con v))). destruct (put_cell_ok q v c Hq Hc) as (v1 & E & Hv1 & Hsame). fold attr in E, Hv1. rewrite E. cbn [mbind option_bind].
  destruct Hsame as (Hfn & Hfg & Hbg & Hcc & Hrr). assert (Hc1 : ccols v1 = ccols v) by (unfold ccols; by rewrite Hcc). assert (Hr1 : crows v1 = crows v) by (unfold crows; by rewrite Hrr).
  unfold p_put. set (q1 := p_store (c, attr) q) in *. cbn [con set_con set_cursor console_col console_row console_cols]. rewrite (di_col _ _ Hv1), Hcc.
  replace (console_cols (con v)) with (Z.of_nat (ccols v)) by (unfold ccols in *; lia). destruct (Nat.ltb_spec (S (pcol q1)) (ccols v)) as [Hin|Hout].
  - rewrite (proj2 (Z.leb_gt _ _)) by lia. eexists. split; [done|]. split; [|done]. replace (Z.of_nat (pcol q1) + 1) with (Z.of_nat (pcol (Page (grid q1) (prow q1) (S (pcol q1))))) by (cbn; lia). rewrite (di_row _ _ Hv1).
    apply (cursor_displays q1 (Page (grid q1) (prow q1) (S (pcol q1))) v1 Hv1); [|done]. rewrite Hc1, Hr1. pose proof (di_page _ _ Hv1) as Hpg. rewrite Hc1, Hr1 in Hpg. destruct Hpg. constructor; [done|done|done|exact Hin].
  - rewrite (proj2 (Z.leb_le _ _)) by lia. match goal with |- context [console_newline ?v2] => change (console_newline v2) with (console_newline v1) end.
    destruct (console_newline_ok q1 v1 Hv1) as (v2 & -> & Hv2 & Hsame2). exists v2. split; [done|]. split; [|by apply (same_setup_trans v v1 v2)]. unfold blank_cell in Hv2. by rewrite Hc1, Hfg, Hbg in Hv2.
Qed.

End console.

End DisplayDraw.
