(* ===== verification/DisplayProps.v ===== *)
(** What the displays show: any sequence of writes, backspaces, clears and changes of colour
    leaves the end of an unbounded page on the text screen and on the console, every
    character of the console drawn in the frame buffer; fonts that are loaded are drawn from
    their own bytes. *)

From S2P Require Import Prelude Arrays Bytes Fonts Display DisplaySpec.
From S2P Require Memory FontProps.

Module DisplayProps.

Import Bytes Fonts Display DisplaySpec DisplayDraw.

(** ** Fonts that can be drawn *)

(** The glyphs are one behind the other, and all of them there. *)
Record table_ok (f : font) : Prop := {
  to_height : 0 < font_height_px f;
  to_rows : 0 < font_row_bytes f;
  to_stride : font_stride f = font_height_px f * font_row_bytes f;
  to_width : 0 < font_width_px f ≤ font_row_bytes f * 8;
  to_first : 0 ≤ font_first_char f ≤ 63;
  to_count : 63 < font_first_char f + font_char_count f < 4294967296;
  to_bytes : font_char_count f * font_stride f ≤ Z.of_nat (length (font_base f));
  to_small : font_char_count f * font_stride f < 4294967296
}.

Lemma glyph_in_table f ch : table_ok f → 0 ≤ ch < 256 → ∃ k, glyph_for_char ch f = Some (k * font_stride f) ∧ 0 ≤ k < font_char_count f.
Proof.
  intros [] Hch. assert (Hs : 0 < font_stride f) by nia. unfold glyph_for_char. rewrite (proj2 (Z.eqb_neq _ _)) by lia.
  assert (Hat : ∀ c, font_first_char f ≤ c < font_first_char f + font_char_count f → u32 (u32 (c - font_first_char f) * font_stride f) = (c - font_first_char f) * font_stride f).
  { intros c Hc. pose proof (Z.mul_le_mono_nonneg_r (c - font_first_char f) (font_char_count f) (font_stride f) ltac:(lia) ltac:(lia)). rewrite (u32_small (c - _)) by lia. apply u32_small. nia. }
  rewrite (u32_small (font_first_char f + _)) by lia. destruct ((font_first_char f <=? ch) && (ch <? font_first_char f + font_char_count f)) eqn:E.
  - exists (ch - font_first_char f). rewrite Hat by lia. split; [done|lia].
  - rewrite (proj2 (andb_false_iff (font_first_char f =? 0) (ch <? font_char_count f))) by lia. rewrite (proj2 (andb_true_iff (font_first_char f <=? 63) _)) by lia. exists (63 - font_first_char f). rewrite Hat by lia. split; [done|lia].
Qed.

Lemma table_drawable f : table_ok f → font_ok f.
Proof.
  intros Hf. pose proof Hf as []. constructor; [lia|done|]. intros ch Hch. destruct (glyph_in_table f ch Hf Hch) as (k & Hg & Hk). exists (k * font_stride f). split; [done|]. intros y x Hy Hx.
  assert (Hin : 0 ≤ k * font_stride f ∧ k * font_stride f + font_stride f ≤ font_char_count f * font_stride f) by (assert (0 < font_stride f) by nia; destruct (slot_range (font_stride f) (font_char_count f) k 0 (font_char_count f * font_stride f)); lia).
  assert (Hx8 : 0 ≤ x / 8 < font_row_bytes f) by (split; [apply Z.div_pos; lia|apply Z.div_lt_upper_bound; lia]).
  destruct (slot_range (font_row_bytes f) (font_height_px f) y (x / 8) (font_stride f) Hy Hx8 ltac:(lia)) as (Hy0 & _ & Hoff). unfold ink. rewrite Hg. unfold glyph_bit.
  rewrite (u32_small (y * _)), (u32_small (_ + y * _)), u32_small by lia. unfold byte_at. rewrite (proj2 (Z.ltb_lt _ _)) by lia.
  destruct (lookup_lt_is_Some_2 (font_base f) (Z.to_nat (k * font_stride f + y * font_row_bytes f + x / 8)) ltac:(lia)) as [b ->]. done.
Qed.

(** The built-in font. *)
Definition basic : font := FontState font8x8_basic 8 8 8 1 32 96 true.

Lemma basic_table : table_ok basic.
Proof. constructor; cbn; lia. Qed.

Lemma basic_blank : blank_space basic.
Proof.
  intros y x Hy Hx. assert (Hall : forallb (fun y => forallb (fun x => negb (ink basic 32 (Z.of_nat y) (Z.of_nat x))) (List.seq 0 8)) (List.seq 0 8) = true) by (vm_compute; reflexivity).
  cbn in Hy, Hx. rewrite forallb_forall in Hall. specialize (Hall (Z.to_nat y) ltac:(apply in_seq; lia)). rewrite forallb_forall in Hall. specialize (Hall (Z.to_nat x) ltac:(apply in_seq; lia)).
  rewrite !Z2Nat.id in Hall by lia. by apply negb_true_iff.
Qed.

(** ** Clearing *)

(** The colours of the console changed. *)
Lemma nibble a : 0 ≤ Z.land a 15 < 16.
Proof. change 15 with (Z.ones 4). rewrite Z.land_ones by lia. apply Z.mod_pos_bound. lia. Qed.

Lemma colors_screen v fg bg : screen_ok v → screen_ok (vbe_console_set_colors fg bg v).
Proof. intros []. constructor; try done. split; apply nibble. Qed.

Lemma colors_displays q v fg bg : displays q v → displays q (vbe_console_set_colors fg bg v).
Proof. intros []. constructor; [by apply colors_screen|done..]. Qed.

Lemma vbe_clear_ok color v :
  screen_ok v → ∃ l, vbe_clear color v = Some (with_pixels l v) ∧ screen_ok (with_pixels l v) ∧
    ∀ X Y, 0 ≤ X < fb_pitch_pixels (fr v) → 0 ≤ Y < fb_h (fr v) → pixel (with_pixels l v) X Y = Some color.
Proof.
  intros Hv. unfold vbe_clear. rewrite (so_ready v Hv). cbn [negb]. pose proof (so_memory v Hv) as Hm. pose proof (so_small v Hv) as Hs. pose proof (so_pitch v Hv) as Hp.
  assert (Hh : 0 ≤ fb_h (fr v)) by (pose proof (so_height v Hv); pose proof (so_rows v Hv); pose proof (fo_height _ (so_font v Hv)); nia). rewrite u32_small by nia. rewrite (proj2 (Z.ltb_ge _ _)) by lia.
  set (total := fb_pitch_pixels (fr v) * fb_h (fr v)) in *. eexists. split; [done|]. split.
  - apply with_pixels_ok; [done|]. rewrite length_app, length_replicate, length_drop. lia.
  - intros X Y HX HY. unfold pixel, at_pixel. cbn. assert (0 ≤ Y * fb_pitch_pixels (fr v) + X < total) by (unfold total; pose proof (Z.mul_le_mono_nonneg_r (Y + 1) (fb_h (fr v)) (fb_pitch_pixels (fr v)) ltac:(lia) ltac:(lia)); nia).
    rewrite lookup_app_l by (rewrite length_replicate; lia). apply lookup_replicate_2. lia.
Qed.

Lemma blank_row {A B} (y : B) (r : list A) : map (fun _ => y) r = replicate (length r) y.
Proof. induction r as [|? r IH]; [done|]. cbn. by rewrite IH. Qed.

(** The cells of the console, blank. *)
Lemma blank_cells c : full (cells c) → cell_ok (32, blank_attr (console_fg c) (console_bg c)) →
  let l := cells (console_clear_buffers (console_fg c) (console_bg c) c) in
  (∀ i row, l !! i = Some row → row = replicate (Z.to_nat CONSOLE_COLUMNS) (32, blank_attr (console_fg c) (console_bg c))) ∧ full l ∧ Forall (Forall cell_ok) l.
Proof.
  intros [Hl Hlines] Hok l. assert (Hrow : ∀ i row, l !! i = Some row → row = replicate (Z.to_nat CONSOLE_COLUMNS) (32, blank_attr (console_fg c) (console_bg c))).
  { intros i row Hi. apply list_lookup_fmap_Some in Hi as (r & -> & Hr). rewrite <- (Forall_lookup_1 _ _ _ _ Hlines Hr). apply blank_row. }
  split; [done|]. split; [split; [unfold l; cbn; by rewrite length_map|]|]; apply Forall_lookup; intros i row Hi; rewrite (Hrow i row Hi); [apply length_replicate|by apply Forall_replicate].
Qed.

Lemma space_ok a : cell_ok (32, a).
Proof. unfold cell_ok. cbn. lia. Qed.

Lemma blank_screen v : screen_ok v → screen_ok (set_con (console_clear_buffers (console_fg (con v)) (console_bg (con v)) (con v)) v).
Proof. intros Hv. destruct (blank_cells (con v) (screen_full v Hv) (space_ok _)) as (_ & Hf & Hok). exact (cursor_screen_ok 0 0 _ (cells_screen_ok _ v Hv Hf Hok)). Qed.

(** Blank cells on a screen of the colour of the background. *)
Lemma blank_displays v :
  screen_ok v → blank_space (fnt v) →
  (∀ X Y, 0 ≤ X < fb_pitch_pixels (fr v) → 0 ≤ Y < fb_h (fr v) → pixel v X Y = Some (palette (console_bg (con v)))) →
  displays (p_clear (ccols v) (crows v) (blank_cell v)) (set_con (console_clear_buffers (console_fg (con v)) (console_bg (con v)) (con v)) v).
Proof.
  intros Hv Hsp Hpix. destruct (screen_cols v Hv) as [Hcols Hrows]. destruct (blank_cells (con v) (screen_full v Hv) (space_ok _)) as (Hrow & Hfull & Hok). set (l := cells (console_clear_buffers _ _ _)) in *. constructor.
  - by apply blank_screen.
  - apply clear_ok; lia.
  - change (ccols _) with (ccols v). change (crows _) with (crows v). unfold window, top, p_clear. cbn [grid]. rewrite length_replicate, Nat.sub_diag, drop_0. apply list_eq. intros i. rewrite in_use_lookup. change (cells _) with l.
    destruct (decide (i < crows v)%nat) as [Hi|]; [|symmetry; apply lookup_ge_None_2; rewrite length_replicate; lia]. destruct (full_row l i Hfull ltac:(lia)) as (row & Hr & _). rewrite Hr, (Hrow _ _ Hr). cbn. rewrite take_replicate, Nat.min_l by lia. symmetry. by apply lookup_replicate_2.
  - cbn. unfold at_row. cbn. lia.
  - done.
  - intros y x [Hy Hx] ch attr Hc dy dx Hdy Hdx. unfold cell_at in Hc. change (cells _) with l in Hc. destruct (l !! Z.to_nat y) as [row|] eqn:Hr; [|done]. cbn in Hc. rewrite (Hrow _ _ Hr) in Hc. apply lookup_replicate in Hc as [Hc _]. injection Hc as -> ->.
    assert (Hi : ink (fnt v) 32 dy dx = false) by exact (Hsp dy dx Hdy Hdx). change (fnt (set_con _ v)) with (fnt v). rewrite Hi. rewrite (proj1 (proj2 (attr_parts _ _ (proj1 (so_colors v Hv)) (proj2 (so_colors v Hv))))). pose proof (so_pitch v Hv).
    destruct (slot_range (font_width_px (fnt v)) (console_cols (con v)) x dx (fb_w (fr v)) Hx Hdx (so_width v Hv)) as (_ & _ & ?). destruct (slot_range (font_height_px (fnt v)) (console_rows (con v)) y dy (fb_h (fr v)) Hy Hdy (so_height v Hv)) as (_ & _ & ?). apply Hpix; lia.
Qed.

Lemma console_clear_ok attr v :
  screen_ok v → blank_space (fnt v) →
  ∃ v', vbe_console_clear attr v = Some v' ∧ displays (p_clear (ccols v) (crows v) (blank_cell v')) v' ∧ same_setup (vbe_console_set_colors attr (Z.shiftr attr 4) v) v'.
Proof.
  intros Hv Hsp. unfold vbe_console_clear. set (v1 := set_con (set_colors _ _ _) v). change v1 with (vbe_console_set_colors attr (Z.shiftr attr 4) v) in *. clear v1. set (v1 := vbe_console_set_colors _ _ v).
  assert (Hv1 : screen_ok v1) by by apply colors_screen. change (vbe_ready v1) with (vbe_ready v). rewrite (so_ready v Hv). cbn [negb].
  change (console_bg (con v1)) with (Z.land (Z.shiftr attr 4) 15). rewrite attr_color. cbn [mbind option_bind]. destruct (vbe_clear_ok (palette (Z.land (Z.shiftr attr 4) 15)) v1 Hv1) as (l & -> & Hv2 & Hpix). cbn [mbind option_bind].
  eexists. split; [done|]. split; [|done]. exact (blank_displays (with_pixels l v1) Hv2 Hsp Hpix).
Qed.

(** ** Both displays *)

Definition command_ok (cmd : command) : Prop :=
  match cmd with
  | PutChar c => byte c
  | Text text | Line text => bytes text
  | Backspace | Clear => True
  | Color fg bg => byte fg ∧ byte bg
  end.

(** The pages behind the two displays, and the colours for what is written next. *)
Record pages := Pages { text_page : page Z; color : Z; con_page : page (Z * Z); pen_fg : Z; pen_bg : Z }.

Definition text_cells : nat := VGA_HEIGHT * VGA_WIDTH.

Lemma concat_replicate {A} n m (x : A) : concat (replicate n (replicate m x)) = replicate (n * m) x.
Proof. induction n as [|n IH]; [done|]. cbn. by rewrite IH, replicate_add. Qed.

Lemma text_cleared g x : length (vga_memory g) = text_cells →
  ∃ l, fill_cells (VGA_HEIGHT * VGA_WIDTH) 0 x (vga_memory g) = Some l ∧ vga_is (p_clear VGA_WIDTH VGA_HEIGHT x) (at_cursor 0 0 (with_memory l g)).
Proof.
  intros Hl. rewrite fill_cells_ok by (rewrite Hl; unfold text_cells; lia). eexists. split; [done|]. split; [apply clear_ok; [exact vga_width_pos|exact vga_height_pos]|]. split; [|done].
  cbn [vga_memory at_cursor with_memory]. rewrite drop_ge by (rewrite Hl; unfold text_cells; lia). rewrite take_0, app_nil_r. cbn [app]. unfold window, top, p_clear. cbn [grid]. rewrite length_replicate, Nat.sub_diag, drop_0, concat_replicate. done.
Qed.

Lemma text_length p g : vga_is p g → length (vga_memory g) = text_cells.
Proof. intros (Hp & -> & _). rewrite (concat_length VGA_WIDTH), (window_length VGA_WIDTH VGA_HEIGHT) by (done || by apply window_cols). done. Qed.

Section commands.
Context (vbe_in_use : bool) (cols rows : nat).

Definition page_char (c : Z) (s : pages) : pages :=
  Pages (vga_page_put (color s) c (text_page s)) (color s)
        (if vbe_in_use then console_page_put cols rows (pen_fg s) (pen_bg s) c (con_page s) else con_page s) (pen_fg s) (pen_bg s).

Definition page_text (text : cstring) (s : pages) : pages := foldl (fun s c => page_char c s) s text.

Definition page_command (s : pages) (cmd : command) : pages :=
  match cmd with
  | PutChar c => page_char c s
  | Text text => page_text text s
  | Line text => page_char 10 (page_text text s)
  | Backspace =>
      Pages (vga_page_back (color s) (text_page s)) (color s)
            (if vbe_in_use then console_page_put cols rows (pen_fg s) (pen_bg s) 8 (con_page s) else con_page s) (pen_fg s) (pen_bg s)
  | Clear =>
      let fg := if vbe_in_use then Z.land (color s) 15 else pen_fg s in
      let bg := if vbe_in_use then Z.land (Z.shiftr (color s) 4) 15 else pen_bg s in
      Pages (p_clear VGA_WIDTH VGA_HEIGHT (vga_entry 32 (color s))) (color s)
            (if vbe_in_use then p_clear cols rows (32, blank_attr fg bg) else con_page s) fg bg
  | Color fg bg =>
      Pages (text_page s) (u8 (Z.lor fg (Z.shiftl bg 4))) (con_page s)
            (if vbe_in_use then Z.land fg 15 else pen_fg s) (if vbe_in_use then Z.land bg 15 else pen_bg s)
  end.

(** The displays show the ends of the pages. *)
Record shows (s : pages) (d : display) : Prop := {
  sh_text : vga_is (text_page s) (text_screen d);
  sh_color : current_color (text_screen d) = color s;
  sh_use : use_vbe_console (text_screen d) = vbe_in_use;
  sh_console : vbe_in_use = true →
    displays (con_page s) (graphics d) ∧ blank_space (fnt (graphics d)) ∧ ccols (graphics d) = cols ∧ crows (graphics d) = rows ∧
    console_fg (con (graphics d)) = pen_fg s ∧ console_bg (con (graphics d)) = pen_bg s
}.

(** One character on the console. *)
Lemma console_char c s d : shows s d → byte c →
  ∃ v, (if use_vbe_console (text_screen d) then v ← vbe_console_putc c (graphics d); Some (set_vbe v d) else Some d) = Some (set_vbe v d) ∧
    (vbe_in_use = true → displays (console_page_put cols rows (pen_fg s) (pen_bg s) c (con_page s)) v ∧ blank_space (fnt v) ∧ ccols v = cols ∧ crows v = rows ∧
       console_fg (con v) = pen_fg s ∧ console_bg (con v) = pen_bg s).
Proof.
  intros [Ht Hcl Hu Hcon] Hc. rewrite Hu. destruct vbe_in_use; [|by exists (graphics d); destruct d]. destruct (Hcon eq_refl) as (Hd & Hb & Hcc & Hrr & Hfg & Hbg).
  destruct (vbe_console_putc_ok _ _ c Hd Hc) as (v & -> & Hv & Hsf & Hs1 & Hs2 & Hs3 & Hs4). exists v. split; [done|]. intros _. rewrite Hcc, Hrr, Hfg, Hbg in Hv. rewrite Hsf, Hs1, Hs2. unfold ccols, crows in *. rewrite Hs3, Hs4. done.
Qed.

Lemma write_char_shows c s d : shows s d → byte c → ∃ d', vga_write_char c d = Some d' ∧ shows (page_char c s) d'.
Proof.
  intros Hs Hc. unfold vga_write_char. destruct (console_char c s d Hs Hc) as (v & -> & Hv). cbn [mbind option_bind text_screen set_vbe]. destruct Hs as [Ht Hcl Hu Hcon].
  destruct (vga_put_ok _ _ c Ht) as (g & -> & Hg & Hgc & Hgu). cbn [mbind option_bind]. rewrite Hcl in Hg. eexists. split; [done|]. constructor; cbn; [done|congruence|congruence|]. intros Hin. rewrite Hin. by apply Hv.
Qed.

Lemma write_shows text s d : shows s d → bytes text → ∃ d', vga_write text d = Some d' ∧ shows (page_text text s) d'.
Proof.
  intros Hs Ht. revert s d Hs. induction Ht as [|c text Hc _ IH]; intros s d Hs; [by exists d|]. cbn [vga_write]. destruct (write_char_shows c s d Hs Hc) as (d1 & -> & H1). cbn [mbind option_bind]. by apply IH.
Qed.

Lemma backspace_shows s d : shows s d → ∃ d', vga_backspace d = Some d' ∧ shows (page_command s Backspace) d'.
Proof.
  intros Hs. unfold vga_backspace. destruct (console_char 8 s d Hs ltac:(unfold byte; lia)) as (v & -> & Hv). cbn [mbind option_bind text_screen set_vbe]. destruct Hs as [Ht Hcl Hu Hcon].
  destruct (vga_back_ok _ _ Ht) as (g & -> & Hg & Hgc & Hgu). cbn [mbind option_bind]. rewrite Hcl in Hg. eexists. split; [done|]. constructor; cbn; [done|congruence|congruence|]. intros Hin. rewrite Hin. by apply Hv.
Qed.

(** Both displays blank, in the colour of the text screen. *)
Lemma clear_shows s d :
  length (vga_memory (text_screen d)) = text_cells → use_vbe_console (text_screen d) = vbe_in_use → current_color (text_screen d) = color s →
  (vbe_in_use = true → screen_ok (graphics d) ∧ blank_space (fnt (graphics d)) ∧ ccols (graphics d) = cols ∧ crows (graphics d) = rows) →
  ∃ d', vga_clear d = Some d' ∧ shows (page_command s Clear) d'.
Proof.
  intros Hl Hu Hcl Hcon. unfold vga_clear. rewrite Hu. destruct (text_cleared (text_screen d) (vga_entry 32 (current_color (text_screen d))) Hl) as (l & E & Hg). destruct vbe_in_use eqn:Hin.
  - destruct (Hcon eq_refl) as (Hv & Hb & Hcc & Hrr). destruct (console_clear_ok (current_color (text_screen d)) (graphics d) Hv Hb) as (v & -> & Hd & Hsf & Hs1 & Hs2 & Hs3 & Hs4). cbn [mbind option_bind].
    rewrite E. cbn [mbind option_bind]. eexists. split; [done|]. cbn in Hsf, Hs1, Hs2, Hs3, Hs4. constructor; cbn; rewrite ?Hin; [by rewrite <- Hcl|done|congruence|]. intros _. unfold blank_cell in Hd. rewrite <- Hcl. rewrite Hs1, Hs2, Hcc, Hrr in Hd. rewrite Hsf.
    unfold ccols, crows in *. by rewrite Hs3, Hs4.
  - cbn [mbind option_bind]. rewrite E. cbn [mbind option_bind]. eexists. split; [done|]. constructor; cbn; rewrite ?Hin; [by rewrite <- Hcl|done|congruence|congruence].
Qed.

Lemma color_shows fg bg s d : shows s d → shows (page_command s (Color fg bg)) (vga_set_color fg bg d).
Proof.
  intros [Ht Hcl Hu Hcon]. unfold vga_set_color. cbn [text_screen set_vga use_vbe_console with_color]. rewrite Hu. destruct vbe_in_use eqn:Hin; constructor; cbn; rewrite ?Hin; try done; try congruence. intros _.
  destruct (Hcon eq_refl) as (Hd & Hb & Hcc & Hrr & _). cbn. split; [by apply colors_displays|]. done.
Qed.

Lemma command_shows cmd s d : shows s d → command_ok cmd → ∃ d', run cmd d = Some d' ∧ shows (page_command s cmd) d'.
Proof.
  intros Hs Hok. destruct cmd as [c|text|text| | |fg bg]; cbn [run command_ok] in *.
  - by apply write_char_shows.
  - by apply write_shows.
  - unfold vga_write_line. destruct (write_shows text s d Hs Hok) as (d1 & -> & H1). cbn [mbind option_bind]. apply write_char_shows; [done|unfold byte; lia].
  - by apply backspace_shows.
  - destruct Hs as [Ht Hcl Hu Hcon]. apply clear_shows; [by apply (text_length (text_page s))|done|done|]. intros Hin. destruct (Hcon Hin) as (Hd & Hb & Hcc & Hrr & _). split; [apply (di_screen _ _ Hd)|done].
  - eexists. split; [done|]. by apply color_shows.
Qed.

Lemma commands_show cmds s d : shows s d → Forall command_ok cmds → ∃ d', run_all cmds d = Some d' ∧ shows (foldl page_command s cmds) d'.
Proof.
  intros Hs Ht. revert s d Hs. induction Ht as [|cmd cmds Hc _ IH]; intros s d Hs; [by exists d|]. cbn [run_all]. destruct (command_shows cmd s d Hs Hc) as (d1 & -> & H1). cbn [mbind option_bind]. by apply IH.
Qed.

End commands.

(** ** Start-up *)

(** The boot loader describes a frame buffer with room for a character of the font [f]. *)
Record usable (b : boot_info) (f : font) (l : list Z) : Prop := {
  us_magic : magic b = BOOT_INFO_MAGIC;
  us_bpp : bi_bpp b = 32;
  us_frame : bi_fb b = Some l;
  us_width : font_width_px f ≤ bi_width b ≤ bi_pitch b / 4;
  us_height : font_height_px f ≤ bi_height b;
  us_small : bi_pitch b / 4 * bi_height b < 2147483648;
  us_memory : bi_pitch b / 4 * bi_height b ≤ Z.of_nat (length l)
}.

(** The font of the boot loader, or the built-in one when there is none or its measures
    make no sense. *)
Definition loader_font (b : boot_info) : font :=
  match bi_font b with
  | None => basic
  | Some bytes =>
      if (8 <=? bi_font_height b) && (bi_font_height b <=? bi_font_bytes b) then
        let count := if bi_font_count b =? 0 then 256 else bi_font_count b in
        match configure_font_metrics (bi_font_height b) (bi_font_bytes b) DEFAULT_FONT_WIDTH 0 count (negb (Z.land (bi_font_flags b) 1 =? 0)) basic with
        | None => basic
        | Some f => set_base bytes f
        end
      else basic
  end.

(** The font the display starts with: the embedded one when it can be parsed and its
    measures make sense, or that of the boot loader. *)
Inductive starts_with (b : boot_info) (embedded : list Z) (h : Memory.Memory.heap) : font → Prop :=
| no_embedded_font : embedded = [] → starts_with b embedded h (loader_font b)
| bad_embedded_font h' : embedded ≠ [] → parse_bdf_font embedded h = Some (None, h') → starts_with b embedded h (loader_font b)
| odd_embedded_font c h' : embedded ≠ [] → parse_bdf_font embedded h = Some (Some c, h') →
    configure_font_metrics (height c) (stride c) (width c) (first_char c) (glyph_count c) (lsb_left c) (loader_font b) = None →
    starts_with b embedded h (loader_font b)
| embedded_font c h' f : embedded ≠ [] → parse_bdf_font embedded h = Some (Some c, h') →
    configure_font_metrics (height c) (stride c) (width c) (first_char c) (glyph_count c) (lsb_left c) (loader_font b) = Some f →
    starts_with b embedded h (set_base (glyph_base c) f).

(** The console as the program starts with it. *)
Record console_start (c : console) : Prop := {
  cs_full : full (cells c);
  cs_cells : Forall (Forall cell_ok) (cells c);
  cs_colors : 0 ≤ console_fg c < 16 ∧ 0 ≤ console_bg c < 16
}.

Definition boot_cols (b : boot_info) (f : font) : nat := Z.to_nat (Z.min (bi_width b / font_width_px f) CONSOLE_COLUMNS).
Definition boot_rows (b : boot_info) (f : font) : nat := Z.to_nat (Z.min (bi_height b / font_height_px f) CONSOLE_ROWS).

(** A display laid out for its font on the frame buffer of the boot loader. *)
Definition laid_out (b : boot_info) (l : list Z) v : Prop :=
  ∃ w, v = update_console_geometry w ∧ console_start (con w) ∧ fr w = Frame l (bi_pitch b / 4) (bi_width b) (bi_height b) ∧ vbe_ready w = true.

Lemma geometry_ok v l b :
  usable b (fnt v) l → table_ok (fnt v) → laid_out b l v → screen_ok v ∧ ccols v = boot_cols b (fnt v) ∧ crows v = boot_rows b (fnt v).
Proof.
  intros [_ _ _ Hw Hh Hs Hm] Hf (w & -> & [[Hc1 Hc2] Hc3 Hc4] & Efr & Hr). change (fnt (update_console_geometry w)) with (fnt w) in *.
  pose proof (to_width _ Hf) as Hfw. pose proof (to_height _ Hf) as Hfh. unfold ccols, crows, boot_cols, boot_rows, update_console_geometry.
  rewrite Efr. cbn [fb_w fb_h]. set (fw := font_width_px (fnt w)) in *. set (fh := font_height_px (fnt w)) in *.
  rewrite (proj2 (Z.eqb_neq (bi_width b) 0)), (proj2 (Z.eqb_neq (bi_height b) 0)), (proj2 (Z.eqb_neq fw 0)), (proj2 (Z.eqb_neq fh 0)) by lia. cbn [negb andb].
  assert (1 ≤ bi_width b / fw) by (apply Z.div_le_lower_bound; lia). assert (1 ≤ bi_height b / fh) by (apply Z.div_le_lower_bound; lia).
  rewrite (proj2 (Z.eqb_neq (bi_width b / fw) 0)), (proj2 (Z.eqb_neq (bi_height b / fh) 0)) by lia.
  pose proof (Z.mul_div_le (bi_width b) fw ltac:(lia)). pose proof (Z.mul_div_le (bi_height b) fh ltac:(lia)).
  replace (if bi_width b / fw <? CONSOLE_COLUMNS then bi_width b / fw else CONSOLE_COLUMNS) with (Z.min (bi_width b / fw) CONSOLE_COLUMNS) by (destruct (Z.ltb_spec (bi_width b / fw) CONSOLE_COLUMNS); lia).
  replace (if bi_height b / fh <? CONSOLE_ROWS then bi_height b / fh else CONSOLE_ROWS) with (Z.min (bi_height b / fh) CONSOLE_ROWS) by (destruct (Z.ltb_spec (bi_height b / fh) CONSOLE_ROWS); lia).
  split; [|done]. constructor; cbn [fr set_con con set_cursor set_geometry vbe_ready fnt console_cols console_rows cells console_fg console_bg]; rewrite ?Efr; cbn [fb_w fb_h fb_pitch_pixels pixels];
    try done; try lia; try (unfold CONSOLE_COLUMNS, CONSOLE_ROWS; lia); [by apply table_drawable| |]; fold fw fh; nia.
Qed.

Lemma laid_out_again b l v f blob : laid_out b l v → laid_out b l (update_console_geometry (set_font f blob v)).
Proof. intros (w & -> & [[? ?] ? ?] & ? & ?). exists (set_font f blob (update_console_geometry w)). split; [done|]. by split; [constructor|]. Qed.

Lemma laid_out_heap b l v h : laid_out b l v → laid_out b l (set_heap h v).
Proof. intros (w & -> & ? & ? & ?). by exists (set_heap h w). Qed.

Lemma boot_font_ok b l v : laid_out b l v → fnt v = basic → laid_out b l (boot_font b v) ∧ fnt (boot_font b v) = loader_font b ∧ heap (boot_font b v) = heap v.
Proof.
  intros Hv Hf. unfold boot_font, loader_font. rewrite Hf. destruct (bi_font b) as [bytes|]; [|done]. destruct (_ && _); [|done].
  destruct (configure_font_metrics _ _ _ _ _ _ _) as [f|]; [|done]. split; [by apply laid_out_again|done].
Qed.

(** The embedded font, when there is one that can be used. *)
Lemma embedded_ok b l v embedded f :
  laid_out b l v → fnt v = loader_font b → starts_with b embedded (heap v) f → table_ok f → usable b f l →
  ∃ adopted v', try_use_embedded_font embedded v = Some (adopted, v') ∧ screen_ok v' ∧ fnt v' = f ∧ ccols v' = boot_cols b f ∧ crows v' = boot_rows b f.
Proof.
  intros Hv Hl Hst Hf Hu. assert (Hkeep : ∀ h, f = loader_font b → screen_ok (set_heap h v) ∧ fnt (set_heap h v) = f ∧ ccols v = boot_cols b f ∧ crows v = boot_rows b f).
  { intros h ->. destruct (geometry_ok (set_heap h v) l b) as (? & ? & ?); [by rewrite <- Hl in Hu|by rewrite <- Hl in Hf|by apply laid_out_heap|]. cbn [fnt set_heap] in *. rewrite Hl in *. done. }
  unfold try_use_embedded_font, adopt_bdf, adopt_font_candidate. destruct Hst as [->|h' Hne E|c h' Hne E Em|c h' f Hne E Em].
  - exists false, v. split; [done|]. destruct (Hkeep (heap v) eq_refl) as (H & ? & ? & ?). by destruct v.
  - destruct (Nat.eqb_spec (length embedded) 0) as [Hz|_]; [by destruct embedded|]. rewrite E. cbn [mbind option_bind]. exists false, (set_heap h' v). by destruct (Hkeep h' eq_refl) as (? & ? & ? & ?).
  - destruct (Nat.eqb_spec (length embedded) 0) as [Hz|_]; [by destruct embedded|]. rewrite E. cbn [mbind option_bind fnt set_heap]. rewrite Hl, Em.
    exists false, (set_heap h' v). by destruct (Hkeep h' eq_refl) as (? & ? & ? & ?).
  - destruct (Nat.eqb_spec (length embedded) 0) as [Hz|_]; [by destruct embedded|]. rewrite E. cbn [mbind option_bind fnt set_heap]. rewrite Hl, Em.
    set (v1 := update_console_geometry _). assert (Hv1 : laid_out b l v1) by (by apply laid_out_again, laid_out_heap).
    destruct (geometry_ok v1 l b Hu Hf Hv1) as (Hs & Hc & Hr). destruct (console_redraw_ok v1 Hs) as (l' & -> & Hs' & _). cbn [mbind option_bind].
    by exists true, (with_pixels l' v1).
Qed.

(** The font of the start on the frame buffer of the boot loader. *)
Lemma vbe_init_ok b l embedded v f :
  starts_with b embedded (heap v) f → table_ok f → usable b f l → console_start (con v) →
  ∃ v', vbe_init b embedded v = Some (true, v') ∧ screen_ok v' ∧ fnt v' = f ∧ ccols v' = boot_cols b f ∧ crows v' = boot_rows b f.
Proof.
  intros Hst Hf Hb Hc. pose proof Hb as []. pose proof (to_width f Hf). pose proof (to_height f Hf). unfold vbe_init.
  change (configure_font_metrics 8 8 DEFAULT_FONT_WIDTH 32 96 true (set_base font8x8_basic (fnt v))) with (Some basic). cbn iota. rewrite us_magic0, us_bpp0. change (negb (BOOT_INFO_MAGIC =? BOOT_INFO_MAGIC) || negb (32 =? 32)) with false. cbn iota.
  unfold boot_frame. rewrite us_frame0. assert (1 ≤ bi_pitch b) by (pose proof (Z.mul_div_le (bi_pitch b) 4 ltac:(lia)); lia).
  rewrite !(proj2 (Z.eqb_neq _ 0)) by lia. cbn [orb]. set (v0 := set_ready true _).
  assert (Hlay : laid_out b l (update_console_geometry v0)) by (by exists v0). destruct (boot_font_ok b l _ Hlay eq_refl) as (Hlay1 & Hf1 & Hh1).
  change (heap v) with (heap (update_console_geometry v0)) in Hst. rewrite <- Hh1 in Hst. destruct (embedded_ok b l _ embedded f Hlay1 Hf1 Hst Hf Hb) as (adopted & v1 & -> & Hs & Hf2 & Hcc & Hrr). cbn [mbind option_bind].
  destruct (vbe_clear_ok 0 _ Hs) as (l1 & -> & Hs1 & Hpix). cbn [mbind option_bind]. set (v2 := with_pixels l1 _) in *.
  assert (Hs2 : screen_ok (set_con (console_clear_buffers (console_fg (con v2)) (console_bg (con v2)) (con v2)) v2)) by (apply blank_screen; exact Hs1).
  destruct (console_redraw_ok _ Hs2) as (l2 & -> & Hs3 & _). eexists. split; [done|]. split; [done|]. done.
Qed.

(** The pages of two blank displays. *)
Definition fresh_pages (cols rows : nat) : pages :=
  Pages (p_clear VGA_WIDTH VGA_HEIGHT (vga_entry 32 7)) 7 (p_clear cols rows (32, blank_attr 7 0)) 7 0.

Lemma vga_init_ok cols rows g v :
  length (vga_memory g) = text_cells → vbe_ready v = true → screen_ok v → blank_space (fnt v) → ccols v = cols → crows v = rows →
  ∃ d, vga_init (Screens g v) = Some d ∧ shows true cols rows (fresh_pages cols rows) d.
Proof.
  intros Hl Hr Hs Hb Hc Hrr. unfold vga_init, vbe_available. cbn [graphics text_screen]. rewrite Hr. cbn [use_vbe_console with_vbe].
  match goal with |- context [vga_clear ?d0] => destruct (clear_shows true cols rows (Pages (text_page (fresh_pages cols rows)) 7 (con_page (fresh_pages cols rows)) 7 0) d0) as (d & -> & Hd); [exact Hl|done|done| |] end.
  - intros _. split; [by apply colors_screen|]. done.
  - exists d. done.
Qed.

(** C22: From the start of the program on a machine with a frame buffer, any sequence of
    characters, strings, lines, backspaces, clears and changes of colour runs without a store
    or a read out of bounds, and leaves on the text screen the last 25 rows of an unbounded
    page and on the console the last rows of another, with the cursor at its place and every
    character of the console drawn, in its colours, in the pixels of the frame buffer.  The
    font [f] is the one the display starts with: the embedded font, that of the boot loader,
    or the built-in one; it must have the glyphs up to the question mark, with all their
    bytes, a blank space, and a character that fits on the frame buffer. *)
Theorem displays_show_pages b embedded l g v f cmds :
  starts_with b embedded (heap v) f → table_ok f → blank_space f → usable b f l →
  console_start (con v) → length (vga_memory g) = text_cells → Forall command_ok cmds →
  ∃ v1 d0 d, vbe_init b embedded v = Some (true, v1) ∧ fnt v1 = f ∧ vga_init (Screens g v1) = Some d0 ∧ run_all cmds d0 = Some d ∧
    shows true (boot_cols b f) (boot_rows b f) (foldl (page_command true (boot_cols b f) (boot_rows b f)) (fresh_pages (boot_cols b f) (boot_rows b f)) cmds) d.
Proof.
  intros Hst Hf Hsp Hb Hc Hl Hcmds. destruct (vbe_init_ok b l embedded v f Hst Hf Hb Hc) as (v1 & E1 & Hs & Ef & Hcc & Hrr).
  destruct (vga_init_ok (boot_cols b f) (boot_rows b f) g v1 Hl (so_ready v1 Hs) Hs) as (d0 & E0 & Hd0); [by rewrite Ef|done|done|].
  destruct (commands_show true (boot_cols b f) (boot_rows b f) cmds _ d0 Hd0 Hcmds) as (d & E & Hd). by exists v1, d0, d.
Qed.

(** ** Loading a font *)

(** What the PSF parser accepts, when the size it computes does not wrap. *)
Lemma psf_accepted data lsb c :
  bytes data → parse_psf_font data lsb = Some (Some c) → Z.of_nat (length data) + glyph_count c * stride c < 4294967296 →
  0 < height c ∧ 0 < stride c ∧ 0 < glyph_count c ∧ stride c mod height c = 0 ∧ 0 < stride c / height c ∧ 0 < width c ≤ u32 (stride c / height c * 8) ∧ first_char c = 0 ∧
  glyph_count c * stride c ≤ Z.of_nat (length (glyph_base c)).
Proof.
  intros Hd. unfold parse_psf_font. destruct (Z.ltb_spec (Z.of_nat (length data)) PSF2_HEADER_SIZE) as [|Hlen]; [done|]. unfold PSF2_HEADER_SIZE in *.
  destruct (returns_le32 data 0 Hd ltac:(lia)) as (m & -> & _). destruct (returns_le32 data 8 Hd ltac:(lia)) as (hs & -> & Hhs). destruct (returns_le32 data 16 Hd ltac:(lia)) as (n & -> & Hn).
  destruct (returns_le32 data 20 Hd ltac:(lia)) as (st & -> & Hst). destruct (returns_le32 data 24 Hd ltac:(lia)) as (h & -> & Hh). destruct (returns_le32 data 28 Hd ltac:(lia)) as (w & -> & Hw). cbn [mbind option_bind].
  destruct (negb (m =? PSF2_MAGIC)); [done|]. destruct ((hs <? 32) || (Z.of_nat (length data) <? hs)) eqn:E1; [done|]. destruct ((n =? 0) || (st =? 0)) eqn:E2; [done|]. destruct ((h =? 0) || (w =? 0)) eqn:E3; [done|].
  destruct (Z.of_nat (length data) <? hs +32 (n *32 st)) eqn:E4; [done|]. destruct (negb (st mod h =? 0)) eqn:E5; [done|]. destruct (st / h =? 0) eqn:E6; [done|]. destruct (st / h *32 8 <? w) eqn:E7; [done|].
  intros [= <-]. cbn [height stride width first_char glyph_count glyph_base]. intros Hsmall. rewrite (u32_small (n * st)) in E4 by nia. rewrite u32_small in E4 by nia. rewrite length_drop.
  assert (0 ≤ st / h) by (apply Z.div_pos; lia). repeat split; lia.
Qed.

(** The metrics of such a font. *)
Lemma psf_table data lsb c f :
  bytes data → parse_psf_font data lsb = Some (Some c) → Z.of_nat (length data) + glyph_count c * stride c < 4294967296 → 64 ≤ glyph_count c →
  ∃ f', configure_font_metrics (height c) (stride c) (width c) (first_char c) (glyph_count c) (lsb_left c) f = Some f' ∧ table_ok (set_base (glyph_base c) f') ∧
    font_width_px f' = width c ∧ font_height_px f' = height c.
Proof.
  intros Hd Hp Hsmall Hc. destruct (psf_accepted data lsb c Hd Hp Hsmall) as (Hh & Hs & Hn & Hm & Hr & Hw & Hf & Hb). unfold configure_font_metrics.
  rewrite (proj2 (Z.eqb_neq (height c) 0)), (proj2 (Z.eqb_neq (stride c) 0)) by lia. cbn [orb]. rewrite (proj2 (Z.eqb_eq (stride c mod height c) 0)) by lia. cbn [negb].
  rewrite (proj2 (Z.eqb_neq (stride c / height c) 0)), (proj2 (Z.eqb_neq (width c) 0)) by lia. cbn [negb]. rewrite (proj2 (Z.eqb_neq (width c) 0)) by lia. cbn [orb].
  rewrite (proj2 (Z.ltb_ge _ (width c))) by lia. rewrite (proj2 (Z.eqb_neq (width c) 0)), (proj2 (Z.eqb_neq (glyph_count c) 0)) by lia. cbn [negb].
  eexists. split; [done|]. split; [|done]. assert (Hdiv : stride c = height c * (stride c / height c)) by (pose proof (Z.div_mod (stride c) (height c) ltac:(lia)); lia).
  assert (u32 (stride c / height c * 8) ≤ stride c / height c * 8) by (unfold u32; apply Z.mod_le; lia). constructor; cbn; lia || nia.
Qed.

(** A font that fits on the screen: the geometry of the console with it. *)
Lemma font_screen v f blob :
  screen_ok v → font_ok f → font_width_px f ≤ fb_w (fr v) → font_height_px f ≤ fb_h (fr v) →
  screen_ok (update_console_geometry (set_font f blob v)) ∧ cells (con (update_console_geometry (set_font f blob v))) = cells (con v) ∧ fnt (update_console_geometry (set_font f blob v)) = f.
Proof.
  intros Hv Hf Hw Hh. pose proof (fo_width f Hf) as Hfw. pose proof (fo_height f Hf) as Hfh. split; [|done]. pose proof Hv as []. unfold update_console_geometry. cbn [fnt set_font fr].
  rewrite (proj2 (Z.eqb_neq (fb_w (fr v)) 0)), (proj2 (Z.eqb_neq (fb_h (fr v)) 0)), (proj2 (Z.eqb_neq (font_width_px f) 0)), (proj2 (Z.eqb_neq (font_height_px f) 0)) by lia. cbn [negb andb].
  assert (1 ≤ fb_w (fr v) / font_width_px f) by (apply Z.div_le_lower_bound; lia). assert (1 ≤ fb_h (fr v) / font_height_px f) by (apply Z.div_le_lower_bound; lia).
  rewrite (proj2 (Z.eqb_neq (fb_w (fr v) / _) 0)), (proj2 (Z.eqb_neq (fb_h (fr v) / _) 0)) by lia. pose proof (Z.mul_div_le (fb_w (fr v)) (font_width_px f) ltac:(lia)). pose proof (Z.mul_div_le (fb_h (fr v)) (font_height_px f) ltac:(lia)).
  constructor; cbn; try done; [destruct (Z.ltb_spec (fb_w (fr v) / font_width_px f) CONSOLE_COLUMNS); unfold CONSOLE_COLUMNS in *; lia|destruct (Z.ltb_spec (fb_h (fr v) / font_height_px f) CONSOLE_ROWS); unfold CONSOLE_ROWS in *; lia| |].
  - destruct (Z.ltb_spec (fb_w (fr v) / font_width_px f) CONSOLE_COLUMNS); [lia|]. pose proof (Z.mul_le_mono_nonneg_r CONSOLE_COLUMNS (fb_w (fr v) / font_width_px f) (font_width_px f) ltac:(lia) ltac:(lia)). lia.
  - destruct (Z.ltb_spec (fb_h (fr v) / font_height_px f) CONSOLE_ROWS); [lia|]. pose proof (Z.mul_le_mono_nonneg_r CONSOLE_ROWS (fb_h (fr v) / font_height_px f) (font_height_px f) ltac:(lia) ltac:(lia)). lia.
Qed.

(** A volume with the bytes of a PSF font that have been read into memory. *)
Record psf_on_disk (files : font_files) (data : list Z) (h : Memory.Memory.heap) : Prop := {
  pd_ready : fat16_ready files = true;
  pd_bdf : fat16_file_size files FONT_BDF_FILE_NAME = None;
  pd_size : fat16_file_size files FONT_FILE_NAME = Some (Z.of_nat (length data));
  pd_read : fat16_read_file files FONT_FILE_NAME (Z.of_nat (length data)) = Some data;
  pd_memory : is_Some (Memory.Memory.kalloc h (Z.of_nat (length data))).1
}.

(** A PSF font with at least 64 glyphs that the parser accepts, whose size does not wrap
    and whose glyphs fit on the screen, is loaded from the volume; the console then keeps
    its characters and shows every one of them, drawn with the bits of the new font, of
    which none is read outside the file. *)
Theorem psf_font_drawn files data v c :
  screen_ok v → font_external_blob v = false → psf_on_disk files data (heap v) → bytes data →
  parse_psf_font data (font_lsb_left (fnt v)) = Some (Some c) → Z.of_nat (length data) + glyph_count c * stride c < 4294967296 → 64 ≤ glyph_count c →
  width c ≤ fb_w (fr v) → height c ≤ fb_h (fr v) →
  ∃ v', vbe_try_load_font_from_fat files v = Some (true, v') ∧ screen_ok v' ∧ drawn v' ∧ cells (con v') = cells (con v) ∧
    font_base (fnt v') = glyph_base c ∧ font_width_px (fnt v') = width c ∧ font_height_px (fnt v') = height c.
Proof.
  intros Hv Hblob [Hr Hb Hs Hrd Hm] Hd Hp Hsmall Hcount Hw Hh. unfold vbe_try_load_font_from_fat. rewrite (so_ready v Hv), Hblob, Hr. cbn [negb orb]. unfold read_font_file. rewrite Hb, Hs, Hrd. cbn [mbind option_bind].
  assert (Hlen : 32 ≤ Z.of_nat (length data)) by (unfold parse_psf_font in Hp; destruct (Z.ltb_spec (Z.of_nat (length data)) PSF2_HEADER_SIZE); [done|unfold PSF2_HEADER_SIZE in *; lia]).
  rewrite (proj2 (Z.eqb_neq (Z.of_nat (length data)) 0)) by lia. destruct (Memory.Memory.kalloc (heap v) (Z.of_nat (length data))) as [[p|] h] eqn:E; [|by destruct Hm]. rewrite Z.eqb_refl.
  change (font_lsb_left (fnt (set_heap h v))) with (font_lsb_left (fnt v)). rewrite Hp. cbn [mbind option_bind].
  destruct (psf_table data _ c (fnt (set_heap h v)) Hd Hp Hsmall Hcount) as (f & Ef & Htab & Hfw & Hfh). unfold adopt_font_candidate. rewrite Ef.
  assert (Hv1 : screen_ok (set_heap h v)) by (destruct Hv; by constructor).
  destruct (font_screen (set_heap h v) (set_base (glyph_base c) f) true Hv1 (table_drawable _ Htab)) as (Hs1 & Hcells & Hf1); [cbn; lia|cbn; lia|].
  destruct (console_redraw_ok _ Hs1) as (l & -> & Hs2 & Hd2). eexists. split; [done|]. split; [exact Hs2|]. split; [exact Hd2|]. split; [exact Hcells|]. done.
Qed.

(** A character from 128 on loses its colour on the text screen: the attribute is always
    the brightest foreground on the brightest background. *)
Theorem high_chars_lose_color c a : 128 ≤ c < 256 → byte a → Z.shiftr (vga_entry c a) 8 = 255.
Proof.
  intros Hc Ha. unfold byte in Ha. assert (Hall : forallb (fun c => forallb (fun a => Z.shiftr (vga_entry (128 + Z.of_nat c) (Z.of_nat a)) 8 =? 255) (List.seq 0 256)) (List.seq 0 128) = true) by (vm_compute; reflexivity).
  rewrite forallb_forall in Hall. specialize (Hall (Z.to_nat (c - 128)) ltac:(apply in_seq; lia)). rewrite forallb_forall in Hall. specialize (Hall (Z.to_nat a) ltac:(apply in_seq; lia)).
  rewrite !Z2Nat.id in Hall by lia. replace (128 + (c - 128)) with c in Hall by lia. by apply Z.eqb_eq.
Qed.

(** ** Examples *)

(** A frame buffer of 32 by 16 pixels; the boot loader has a font of 256 glyphs of 16 rows,
    and two glyphs of 10 by 2 pixels are embedded. *)
Definition small_boot : boot_info := BootInfo BOOT_INFO_MAGIC (Some (replicate 512 0)) 128 32 16 32 (Some (replicate 4096 0)) 16 16 256 0.
Definition start_console : console := Console 15 0 0 0 160 64 (replicate 64 (replicate 160 (0, 0))).
Definition start_vbe : vbe := Vbe no_frame false basic false start_console Memory.Memory.memory_init.
Definition start_vga : vga := Vga (replicate 2000 0) 0 0 7 false.
Definition small_embedded : list Z := FontProps.FontProps.print (FontProps.FontProps.font_lines 10 2 FontProps.FontProps.two_glyphs).
Definition small_font : parsed_font := FontProps.FontProps.font_of 10 2 FontProps.FontProps.two_glyphs.
Definition small_start : font := FontState (glyph_base small_font) 4 2 10 2 0 66 false.

Lemma small_starts : starts_with small_boot small_embedded (heap start_vbe) small_start.
Proof.
  assert (E : parse_bdf_font small_embedded (heap start_vbe) = Some (Some small_font, Memory.Memory.Heap (Memory.Memory.HEAP_START_ADDR + 1024))) by (vm_compute; reflexivity).
  exact (embedded_font small_boot small_embedded (heap start_vbe) small_font _ (FontState (font_base (loader_font small_boot)) 4 2 10 2 0 66 false) ltac:(done) E ltac:(vm_compute; reflexivity)).
Qed.

Lemma small_table : table_ok small_start.
Proof. constructor; vm_compute; try done; by split. Qed.

Lemma small_blank : blank_space small_start.
Proof.
  assert (Hall : forallb (fun y => forallb (fun x => negb (ink small_start 32 (Z.of_nat y) (Z.of_nat x))) (List.seq 0 10)) (List.seq 0 2) = true) by (vm_compute; reflexivity).
  intros y x Hy Hx. cbn in Hy, Hx. rewrite forallb_forall in Hall. specialize (Hall (Z.to_nat y) ltac:(apply in_seq; lia)).
  rewrite forallb_forall in Hall. specialize (Hall (Z.to_nat x) ltac:(apply in_seq; lia)). rewrite !Z2Nat.id in Hall by lia. by apply negb_true_iff.
Qed.

Lemma small_usable : usable small_boot small_start (replicate 512 0).
Proof. by constructor. Qed.

Lemma start_console_ok : console_start start_console.
Proof.
  constructor; [split|..]; cbn [cells start_console]; [apply length_replicate|apply Forall_replicate, length_replicate| |cbn; lia]. apply Forall_replicate, Forall_replicate. unfold cell_ok. cbn. lia.
Qed.

Lemma displays_show_pages_witness :
  ∃ v1 d0 d, vbe_init small_boot small_embedded start_vbe = Some (true, v1) ∧ fnt v1 = small_start ∧ vga_init (Screens start_vga v1) = Some d0 ∧
    run_all [Text (lit "ab"); Backspace; Color 4 1; Line (lit "x"); Clear] d0 = Some d ∧
    shows true 3 8 (foldl (page_command true 3 8) (fresh_pages 3 8) [Text (lit "ab"); Backspace; Color 4 1; Line (lit "x"); Clear]) d.
Proof.
  apply (displays_show_pages small_boot small_embedded (replicate 512 0) start_vga start_vbe small_start).
  - exact small_starts.
  - exact small_table.
  - exact small_blank.
  - exact small_usable.
  - exact start_console_ok.
  - reflexivity.
  - repeat constructor; unfold byte; cbn; lia.
Defined.

(** The display with the built-in font, and a volume with one font. *)
Definition small_vbe : vbe := Vbe (Frame (replicate 256 0) 16 16 16) true basic false (Console 15 0 0 0 2 2 (replicate 64 (replicate 160 (65, 15)))) Memory.Memory.memory_init.

Lemma small_screen : screen_ok small_vbe.
Proof.
  constructor; try done; try (cbn -[replicate length]; rewrite ?length_replicate; cbn; unfold CONSOLE_COLUMNS, CONSOLE_ROWS; lia); try (apply Forall_replicate).
  - apply table_drawable, basic_table.
  - apply length_replicate.
  - apply Forall_replicate. unfold cell_ok. cbn. lia.
Qed.

Definition one_font (data : list Z) : font_files :=
  FontFiles true (fun name => if bool_decide (name = FONT_FILE_NAME) then Some (Z.of_nat (length data)) else None) (fun _ _ => Some data).

(** A header with [count] glyphs of [size] bytes, all in one row of 8 pixels. *)
Definition psf_header (count size : Z) : list Z := le32 PSF2_MAGIC ++ le32 0 ++ le32 32 ++ le32 0 ++ le32 count ++ le32 size ++ le32 1 ++ le32 8.

Definition line_font : list Z := psf_header 64 1 ++ replicate 64 255.

Lemma psf_font_drawn_witness :
  ∃ v', vbe_try_load_font_from_fat (one_font line_font) small_vbe = Some (true, v') ∧ screen_ok v' ∧ drawn v' ∧ cells (con v') = cells (con small_vbe) ∧
    font_base (fnt v') = replicate 64 255 ∧ font_width_px (fnt v') = 8 ∧ font_height_px (fnt v') = 1.
Proof.
  apply (psf_font_drawn (one_font line_font) line_font small_vbe (Font (replicate 64 255) 1 1 8 0 64 true)).
  - exact small_screen.
  - reflexivity.
  - constructor; try (vm_compute; reflexivity). vm_compute. eexists. reflexivity.
  - apply Forall_app. split; [|apply Forall_replicate; unfold byte; lia]. repeat constructor; unfold byte; vm_compute; intuition discriminate.
  - vm_compute. reflexivity.
  - vm_compute. reflexivity.
  - vm_compute. discriminate.
  - vm_compute. discriminate.
  - vm_compute. discriminate.
Defined.

(** The product of the number of glyphs and their size wraps in the PSF parser: a file of
    32 bytes, nothing but a header, is accepted as a font of 65536 glyphs of 65536 bytes,
    and loading it makes the console read outside the file. *)
Theorem psf_size_wraps :
  length (psf_header 65536 65536) = 32%nat ∧
  (∃ c, parse_psf_font (psf_header 65536 65536) true = Some (Some c) ∧ glyph_count c = 65536 ∧ stride c = 65536 ∧ glyph_base c = []) ∧
  vbe_try_load_font_from_fat (one_font (psf_header 65536 65536)) small_vbe = None.
Proof. split; [reflexivity|]. split; [eexists; split; [vm_compute; reflexivity|done]|]. vm_compute. reflexivity. Qed.

End DisplayProps.
