(* ===== verification/ShellText.v ===== *)
(** The text functions of the shell (kernel/shell.c): comparison and trimming, paths,
    numbers and addresses as text, lines put together in buffers.

    A string that a function writes into a buffer is the list of its characters; where the
    capacity of the buffer cuts it, the capacity is an argument.  An option is [None] where
    the function returns 0, -1 or NULL. *)

From S2P Require Import Prelude VfsPath.

Module ShellText.

Import VfsPath.

Definition space : Z := 32.

(** ** Strings *)

Fixpoint shell_str_equals (a b : cstring) : bool :=
  match a, b with
  | x :: a', y :: b' => if x =? y then shell_str_equals a' b' else false
  | _, _ => char0 a =? char0 b
  end.

Fixpoint shell_str_starts_with (str prefix : cstring) : bool :=
  match prefix with
  | [] => true
  | p :: prefix' => if char0 str =? p then shell_str_starts_with (tail str) prefix' else false
  end.

Fixpoint skip_spaces (str : cstring) : cstring :=
  match str with c :: str' => if c =? space then skip_spaces str' else str | [] => [] end.

(** The spaces at the end go, from the last one on. *)
Fixpoint trim_trailing_spaces (str : cstring) : cstring :=
  match str with
  | [] => []
  | c :: str' => match trim_trailing_spaces str' with [] => if c =? space then [] else [c] | r => c :: r end
  end.

Definition buffer_append (max : nat) (text dst : cstring) : cstring := dst ++ take (max - 1 - length dst) text.

(** [buffer_append] of one text after the other. *)
Definition buffer_line (max : nat) (texts : list cstring) : cstring := foldl (fun dst text => buffer_append max text dst) [] texts.

Fixpoint segment_equals (segment text : cstring) : bool :=
  match segment, text with
  | x :: segment', y :: text' => if x =? y then segment_equals segment' text' else false
  | [], [] => true
  | _, _ => false
  end.

(** The characters up to a space, and what is behind them. *)
Fixpoint scan_token (input : cstring) : cstring * cstring :=
  match input with
  | c :: rest => if c =? space then ([], input) else let '(t, r) := scan_token rest in (c :: t, r)
  | [] => ([], [])
  end.

Definition shell_copy_token (input : cstring) (capacity : nat) : option cstring :=
  let '(t, _) := scan_token input in if (length t + 1 <=? capacity)%nat then Some t else None.

(** The one argument of a command, and whether anything is behind it. *)
Definition one_argument (args : cstring) (capacity : nat) : option (cstring * bool) :=
  let '(t, r) := scan_token args in
  if (length t + 1 <=? capacity)%nat then Some (t, negb (char0 (skip_spaces r) =? 0)) else None.

(** ** Modules *)

Definition is_kmd (ext : cstring) : bool :=
  (char_at ext 0 =? dot) && ((char_at ext 1 =? 107) || (char_at ext 1 =? 75)) && ((char_at ext 2 =? 109) || (char_at ext 2 =? 77)) && ((char_at ext 3 =? 100) || (char_at ext 3 =? 68)).

Definition strip_kmd_extension (name : cstring) : cstring :=
  if (4 <=? length name)%nat && is_kmd (drop (length name - 4) name) then take (length name - 4) name else name.

(** What is behind the last slash. *)
Fixpoint last_part (path part : cstring) : cstring :=
  match path with
  | [] => part
  | c :: path' => if c =? slash then last_part path' [] else last_part path' (part ++ [c])
  end.

Definition append_kmd_extension (path : cstring) (capacity : nat) : option cstring :=
  if (capacity =? 0)%nat then None
  else if (0 <? length path)%nat && (capacity <=? length path)%nat then None
  else if existsb (Z.eqb dot) (last_part path []) then Some path
  else if (capacity <=? length path + 4)%nat then None
  else Some (path ++ lit ".kmd").

Definition module_filename_from_path (path : cstring) (capacity : nat) : option cstring :=
  if (capacity =? 0)%nat then None
  else
    let name := last_part path [] in
    if (length name + 1 <=? capacity)%nat then (if (0 <? length name)%nat then Some name else None) else None.

(** ** Paths *)

(** What has been written, and whether all of it fits. *)
Fixpoint write_segments (segs : list cstring) (out : cstring) (capacity : nat) : bool * cstring :=
  match segs with
  | [] => (true, out)
  | seg :: segs' => if (capacity <=? length out + length seg + 1)%nat then (false, out) else write_segments segs' (out ++ slash :: seg) capacity
  end.

(** The same scan as that of [normalize_path] of vfs.c. *)
Definition shell_normalize_absolute (input : cstring) (capacity : nat) : bool * cstring :=
  if (capacity <? 2)%nat then (false, [])
  else if negb (char0 input =? slash) then (false, [])
  else
    match collect_segments (S (length input)) input [] with
    | None => (false, [])
    | Some [] => (true, [slash])
    | Some segs => write_segments segs [] capacity
    end.

Definition normalized (input : cstring) (capacity : nat) : option cstring :=
  match shell_normalize_absolute input capacity with (true, out) => Some out | (false, _) => None end.

(** A directory and a name behind it, in a buffer of [VFS_MAX_PATH] bytes. *)
Definition prepend (dir name : cstring) : option cstring :=
  if (length dir =? 0)%nat then None
  else
    dir ← (if (length dir =? 1)%nat && (char0 dir =? slash) then Some [slash]
           else if (VFS_MAX_PATH <=? length dir)%nat then None
           else Some (if (char_at dir (length dir - 1) =? slash) then dir else if (length dir + 1 <? VFS_MAX_PATH)%nat then dir ++ [slash] else dir));
    if (VFS_MAX_PATH <=? length dir + length name)%nat then None else Some (dir ++ name).

Definition resolve_absolute_path (shell_cwd : cstring) (input : option cstring) (scratch_size : nat) : option cstring :=
  if (scratch_size <? 2)%nat then None
  else match input with
  | None | Some [] => normalized shell_cwd scratch_size
  | Some input => if char0 input =? slash then normalized input scratch_size else candidate ← prepend shell_cwd input; normalized candidate scratch_size
  end.

Definition shell_join_paths (parent name : cstring) (capacity : nat) : option cstring :=
  if (capacity <? 2)%nat then None
  else if (length parent =? 0)%nat then None
  else
    dir ← (if (length parent =? 1)%nat && (char0 parent =? slash) then Some [slash]
           else if (VFS_MAX_PATH <=? length parent)%nat then None
           else if char_at parent (length parent - 1) =? slash then Some parent
           else if (VFS_MAX_PATH <=? length parent + 1)%nat then None
           else Some (parent ++ [slash]));
    if (VFS_MAX_PATH <=? length dir + length name)%nat then None else normalized (dir ++ name) capacity.

(** What is behind a segment, as a path of its own in a buffer. *)
Definition relative_of (rest : cstring) (relative_cap : nat) : cstring :=
  let rest := if char0 rest =? slash then tail rest else rest in
  if (1 <? relative_cap)%nat then slash :: take (relative_cap - 2) rest else [].

(** The volume and the path on it; both buffers are at least one byte. *)
Definition shell_describe_location (shell_cwd : cstring) (volume_cap relative_cap : nat) : cstring * cstring :=
  let root := if (1 <? relative_cap)%nat then [slash] else [] in
  if char0 shell_cwd =? 0 then ([], [])
  else if shell_str_equals shell_cwd [slash] then (take (volume_cap - 1) (lit "Root"), root)
  else
    let '(first, after_first) := scan_segment (if char0 shell_cwd =? slash then tail shell_cwd else shell_cwd) in
    if (length first =? 0)%nat then ([], [])
    else if segment_equals first (lit "Volumes") then
      let after_first := if char0 after_first =? slash then tail after_first else after_first in
      if char0 after_first =? 0 then (take (volume_cap - 1) (lit "Volumes"), root)
      else let '(second, rest) := scan_segment after_first in (take (volume_cap - 1) second, relative_of rest relative_cap)
    else (take (volume_cap - 1) first, relative_of after_first relative_cap).

(** ** Numbers *)

Definition INT_MAX : Z := 2147483647.

Definition digit (c : Z) : bool := (48 <=? c) && (c <=? 57).

Fixpoint positive_int (text : cstring) (value : Z) : option Z :=
  match text with
  | [] => Some value
  | c :: text' =>
      if negb (digit c) then None
      else if (INT_MAX - (c - 48)) / 10 <? value then None
      else positive_int text' (value * 10 + (c - 48))
  end.

Definition parse_positive_int (text : cstring) : option Z :=
  if char0 text =? 0 then None
  else value ← positive_int text 0; if value <=? 0 then None else Some value.

Definition hex_digit_value (c : Z) : option Z :=
  if digit c then Some (c - 48)
  else if (97 <=? c) && (c <=? 102) then Some (10 + (c - 97))
  else if (65 <=? c) && (c <=? 70) then Some (10 + (c - 65))
  else None.

Fixpoint hex_token (text : cstring) (value : Z) : option Z :=
  match text with
  | [] => Some value
  | c :: text' => d ← hex_digit_value c; hex_token text' (Z.lor (u32 (Z.shiftl value 4)) d)
  end.

Fixpoint decimal_token (text : cstring) (value : Z) : option Z :=
  match text with
  | [] => Some value
  | c :: text' =>
      if negb (digit c) then None
      else let next := u32 (value * 10 + (c - 48)) in if next <? value then None else decimal_token text' next
  end.

Definition parse_u32_token (text : cstring) : option Z :=
  if char0 text =? 0 then None
  else if (char_at text 0 =? 48) && ((char_at text 1 =? 120) || (char_at text 1 =? 88)) then
    let text := drop 2 text in
    if char0 text =? 0 then None else hex_token text 0
  else decimal_token text 0.

(** One bit of the quotient after the other, from the highest. *)
Fixpoint divmod_loop (bits : nat) (value divisor quotient rem : Z) : Z * Z :=
  match bits with
  | O => (quotient, rem)
  | S bit =>
      let rem := Z.lor (u64 (Z.shiftl rem 1)) (Z.land (Z.shiftr value (Z.of_nat bit)) 1) in
      if divisor <=? rem then divmod_loop bit value divisor (Z.lor quotient (Z.shiftl 1 (Z.of_nat bit))) (rem - divisor)
      else divmod_loop bit value divisor quotient rem
  end.

Definition u64_divmod (value divisor : Z) : Z * Z := let '(q, r) := divmod_loop 64 value divisor 0 0 in (q, u32 r).

(** The digits from the last to the first, at most [n] of them. *)
Fixpoint u64_digits (n : nat) (value : Z) : cstring :=
  match n with
  | O => []
  | S n' => if value <=? 0 then [] else let '(value, remainder) := u64_divmod value 10 in (48 + remainder) :: u64_digits n' value
  end.

Definition write_u64 (value : Z) : cstring := if value =? 0 then [48] else reverse (u64_digits 32 value).

(** [digits\[nibble\]] *)
Definition hex_char (nibble : Z) : Z := if nibble <? 10 then 48 + nibble else 55 + nibble.
Definition nibble_at (value : Z) (shift : nat) : Z := Z.land (Z.shiftr value (Z.of_nat shift)) 15.

Definition write_hex32 (value : Z) : cstring := lit "0x" ++ map (fun i => hex_char (nibble_at value ((7 - i) * 4))) (List.seq 0 8).
Definition write_hex_ptr (value : Z) : cstring := lit "0x" ++ map (fun i => hex_char (nibble_at value ((8 - 1 - i) * 4))) (List.seq 0 8).
Definition write_byte_hex (value : Z) : cstring := [hex_char (nibble_at value 4); hex_char (nibble_at value 0)].

(** ** Addresses *)

Fixpoint mac_bytes (mac : list Z) (i : nat) (capacity : nat) (out : cstring) : cstring :=
  match mac with
  | [] => out
  | b :: mac' =>
      if (length out + 2 <? capacity)%nat then
        let out := out ++ write_byte_hex b in
        mac_bytes mac' (S i) capacity (if (i <? 5)%nat && (length out <? capacity - 1)%nat then out ++ [58] else out)
      else out
  end.

(** [mac] has six bytes; nothing is written into an empty buffer. *)
Definition format_mac_address (mac : list Z) (capacity : nat) : cstring := take (capacity - 1) (mac_bytes mac 0 capacity []).

(** The digits of a byte, at most three. *)
Fixpoint octet_digits (n : nat) (value : Z) : cstring :=
  match n with O => [] | S n' => if value <=? 0 then [] else octet_digits n' (value / 10) ++ [48 + value mod 10] end.

Fixpoint ipv4_octets (ipv4 : list Z) (i : nat) (capacity : nat) (out : cstring) : cstring :=
  match ipv4 with
  | [] => out
  | value :: ipv4' =>
      let out := out ++ take (capacity - 1 - length out) (if value =? 0 then [48] else octet_digits 3 value) in
      ipv4_octets ipv4' (S i) capacity (if (i <? 3)%nat && (length out <? capacity - 1)%nat then out ++ [dot] else out)
  end.

Definition format_ipv4_address (ipv4 : list Z) (capacity : nat) : cstring := ipv4_octets ipv4 0 capacity [].

(** [out] has the segments that are complete. *)
Fixpoint ipv4_loop (text : cstring) (value : Z) (digits : nat) (out : list Z) : option (list Z) :=
  match text with
  | [] => if negb (length out =? 3)%nat || (digits =? 0)%nat || (255 <? value) then None else Some (out ++ [u8 value])
  | c :: text' =>
      if c =? dot then
        if (3 <=? length out)%nat || (digits =? 0)%nat || (255 <? value) then None else ipv4_loop text' 0 0 (out ++ [u8 value])
      else if negb (digit c) then None
      else let value := u32 (value * 10 + (c - 48)) in if 255 <? value then None else ipv4_loop text' value (S digits) out
  end.

Definition parse_ipv4_address (text : cstring) : option (list Z) := ipv4_loop text 0 0 [].

(** ** Lines of reports *)

Definition ptr_line (label : cstring) (value : Z) : cstring := buffer_line 64 [lit "  "; label; lit ": "; write_hex_ptr value].

Definition size_line (label : cstring) (bytes : Z) : cstring :=
  let kib := bytes / 1024 in
  let mib := bytes / (1024 * 1024) in
  buffer_line 128 ([lit "  "; label; lit ": "; write_u64 bytes; lit " bytes"] ++
    (if 0 <? kib then [lit " ("; write_u64 kib; lit " KiB"] ++ (if 0 <? mib then [lit ", "; write_u64 mib; lit " MiB"] else []) ++ [lit ")"] else [])).

(** A line of the directory tree, in 160 bytes. *)
Fixpoint tree_bars (depth : nat) (line : cstring) : cstring :=
  match depth with O => line | S d => if (160 <=? length line + 2)%nat then line else tree_bars d (line ++ lit "| ") end.

Definition tree_line (depth : nat) (name : cstring) (is_dir : bool) : cstring :=
  let line := tree_bars depth [] in
  let line := if (length line + 3 <? 160)%nat then line ++ lit "+- " else line in
  let line := line ++ take (159 - length line) name in
  if is_dir && (length line + 1 <? 160)%nat then line ++ [slash] else line.

(** The file a name of the command [logs] stands for. *)
Definition logs_resolve_path (name : cstring) : option cstring :=
  if shell_str_equals name (lit "kernel") then Some (lit "/System/Logs/kernel.log")
  else if shell_str_equals name (lit "net") then Some (lit "/System/Logs/net.log")
  else if shell_str_equals name (lit "ipc") then Some (lit "/System/Logs/ipc.log")
  else None.

End ShellText.
