(* ===== verification/Shell.v ===== *)
(** The shell (kernel/shell.c): its history and line editor, its working directory, the
    commands on files, and the loop that reads a line and carries it out.

    What the shell shows is the list of its calls of vga.c, in order, which Display.v
    carries out.  Files are those of Vfs.v with any drivers.  What an array on the stack
    holds before it is written is an argument, [stack], and so are the commands that are
    not about files.  The keys are the characters that [kb_getchar] delivers. *)

From S2P Require Import Prelude Arrays Bytes VfsPath Vfs Fonts Display Input ShellText.
From S2P Require Loader.

Module Shell.

Import VfsPath Vfs ShellText.
Import (notations) Display.
Abbreviation command := Display.command.
Abbreviation PutChar := Display.PutChar.
Abbreviation Text := Display.Text.
Abbreviation Line := Display.Line.
Abbreviation Backspace := Display.Backspace.
Abbreviation Clear := Display.Clear.
Abbreviation Color := Display.Color.

Definition INPUT_MAX : nat := 256.
Definition SHELL_HISTORY_CAPACITY : nat := 32.
Definition SHELL_TREE_MAX_DEPTH : nat := 8.
Definition VFS_NODE_NAME_MAX : nat := 32.
Definition VFS_INLINE_CAP : nat := 8192.

(** ** History *)

(** The text of every slot. *)
Record history := History { shell_history : list cstring; shell_history_count : nat; shell_history_next : nat }.

Definition no_history : history := History (replicate SHELL_HISTORY_CAPACITY []) 0 0.

Definition history_get_latest (offset : nat) (h : history) : option cstring :=
  if (shell_history_count h <=? offset)%nat then None
  else shell_history h !! ((shell_history_next h + SHELL_HISTORY_CAPACITY - 1 - offset) mod SHELL_HISTORY_CAPACITY)%nat.

Definition history_store (line : cstring) (h : history) : option history :=
  if char0 line =? 0 then Some h
  else
    last ← (if (0 <? shell_history_count h)%nat
            then e ← shell_history h !! ((shell_history_next h + SHELL_HISTORY_CAPACITY - 1) mod SHELL_HISTORY_CAPACITY)%nat; Some (Some e)
            else Some None);
    if match last with Some e => shell_str_equals e line | None => false end then Some h
    else
      l ← buf_store (shell_history h) (shell_history_next h) (take (INPUT_MAX - 1) line);
      Some (History l (if (shell_history_count h <? SHELL_HISTORY_CAPACITY)%nat then S (shell_history_count h) else shell_history_count h)
                    ((shell_history_next h + 1) mod SHELL_HISTORY_CAPACITY)%nat).

(** ** The line editor *)

(** The characters of the buffer up to its end, the place in the history, the calls. *)
Record editor := Editor { input : cstring; history_pos : Z; shown : list command }.

Definition shell_replace_input (max_len : nat) (text : cstring) (e : editor) : editor :=
  let copy := take (max_len - 1) text in
  Editor copy (history_pos e) (shown e ++ replicate (length (input e)) Backspace ++ map PutChar copy).

Definition arrow_up (h : history) (max_len : nat) (e : editor) : editor :=
  if (0 <? shell_history_count h)%nat then
    let e := if history_pos e + 1 <? Z.of_nat (shell_history_count h) then Editor (input e) (history_pos e + 1) (shown e) else e in
    match history_get_latest (Z.to_nat (history_pos e)) h with Some entry => shell_replace_input max_len entry e | None => e end
  else e.

Definition arrow_down (h : history) (max_len : nat) (e : editor) : editor :=
  if (0 <? shell_history_count h)%nat && (0 <=? history_pos e) then
    if 0 <? history_pos e then
      let e := Editor (input e) (history_pos e - 1) (shown e) in
      match history_get_latest (Z.to_nat (history_pos e)) h with Some entry => shell_replace_input max_len entry e | None => e end
    else shell_replace_input max_len [] (Editor (input e) (-1) (shown e))
  else e.

(** One key other than the end of the line. *)
Definition edit_key (h : history) (max_len : nat) (c : Z) (e : editor) : editor :=
  if c =? Input.KB_KEY_ARROW_UP then arrow_up h max_len e
  else if c =? Input.KB_KEY_ARROW_DOWN then arrow_down h max_len e
  else if (c =? Input.KB_KEY_ARROW_LEFT) || (c =? Input.KB_KEY_ARROW_RIGHT) then e
  else if c =? 8 then
    if (0 <? length (input e))%nat then Editor (take (length (input e) - 1) (input e)) (-1) (shown e ++ [Backspace]) else Editor (input e) (-1) (shown e)
  else
    let c := if c =? 9 then space else c in
    if (length (input e) + 1 <? max_len)%nat then Editor (input e ++ [c]) (-1) (shown e ++ [PutChar c]) else e.

(** The line, the calls, and the keys behind the line; [None] while the line has no end. *)
Fixpoint read_keys (h : history) (max_len : nat) (keys : list Z) (e : editor) : option (cstring * list command * list Z) :=
  match keys with
  | [] => None
  | c :: keys' => if c =? 10 then Some (input e, shown e ++ [PutChar 10], keys') else read_keys h max_len keys' (edit_key h max_len c e)
  end.

Definition shell_read_line (h : history) (max_len : nat) (keys : list Z) : option (cstring * list command * list Z) :=
  read_keys h max_len keys (Editor [] (-1) []).

(** ** The machine *)

Section shell.
Context {W Ctx : Type} (stack : nat → list Z) (other : cstring → cstring → list command * W → vfs W Ctx → option (list command * W * vfs W Ctx)).

(** [cwd] has the bytes of the buffer. *)
Record shell := Machine { hist : history; cwd : list Z; files : vfs W Ctx; world : W; calls : list command }.

Definition set_hist (h : history) (m : shell) : shell := Machine h (cwd m) (files m) (world m) (calls m).
Definition set_cwd (b : list Z) (m : shell) : shell := Machine (hist m) b (files m) (world m) (calls m).
Definition set_files (v : vfs W Ctx) (m : shell) : shell := Machine (hist m) (cwd m) v (world m) (calls m).
Definition set_world (w : W) (m : shell) : shell := Machine (hist m) (cwd m) (files m) w (calls m).
Definition emit (cs : list command) (m : shell) : shell := Machine (hist m) (cwd m) (files m) (world m) (calls m ++ cs).

Definition say (text : string) (m : shell) : shell := emit [Line (lit text)] m.

Definition shell_cwd (m : shell) : option cstring := Loader.Loader.text (cwd m).

Definition resolve (input : option cstring) (size : nat) (m : shell) : option (option cstring) := c ← shell_cwd m; Some (resolve_absolute_path c input size).

(** The characters that fit are stored even when the path as a whole does not fit. *)
Definition shell_set_cwd (path : cstring) (m : shell) : option shell :=
  let '(ok, out) := shell_normalize_absolute path VFS_MAX_PATH in
  b ← buf_copy (cwd m) 0 (if (ok : bool) then out ++ [0] else out);
  Some (set_cwd b m).

(** ** Calls of the file system *)

Definition list_files (path : cstring) (size : nat) (m : shell) : option (Z * list Z * shell) :=
  '(r, buffer, w) ← vfs_list (files m) (world m) (Some path) (Some (stack size));
  Some (r, buffer, set_world w m).

Definition open_file (path : cstring) (m : shell) : Z * shell := let '(fd, v) := vfs_open (files m) (Some path) in (fd, set_files v m).
Definition close_file (fd : Z) (m : shell) : shell := let '(_, v) := vfs_close (files m) fd in set_files v m.

(** ** Commands *)

Definition help_lines : list string := [
  "Available commands:"; "  help   - show this help"; "  clear  - clear the screen"; "  echo   - echo text or redirect"; "  mem    - memory + uptime info";
  "  memdump <addr> [len] - hex dump memory"; "  reboot - reset the machine"; "  ls [path] - list directory contents"; "  tree [path] - display directory tree";
  "  cd [path] - change working directory"; "  whereami - show current volume/path"; "  cat <file> - print file contents"; "  mkdir <path> - create directory";
  "  touch <path> - create empty file"; "  rm <path> - remove file or directory"; "  volumes - list detected volumes"; "  mount - list active mounts";
  "  mod    - module control (list/load/unload .kmd)"; "  net    - networking utilities"; "  gfx    - draw compositor demo"; "  kdlg   - show kernel log";
  "  logs <name> - view logs (kernel|net|ipc)"; "  kdlvl [lvl] - adjust log verbosity"; "  tasks  - list processes"; "  proc_count - show active process count";
  "  spawn <n> - stress process creation"; "  devs   - list devices"; "  shutdown - power off the system"]%string.

Definition command_help (m : shell) : shell := emit (map (fun s => Line (lit s)) help_lines) m.

Definition command_clear (m : shell) : shell := emit [Clear] m.

(** What is before the first [>], and what is behind it. *)
Fixpoint find_redirect (args : cstring) : cstring * option cstring :=
  match args with
  | [] => ([], None)
  | c :: args' => if c =? 62 then ([], Some args') else let '(before, after) := find_redirect args' in (c :: before, after)
  end.

Definition command_echo (args : cstring) (m : shell) : option shell :=
  let args := skip_spaces args in
  if char0 args =? 0 then Some (say "" m)
  else match find_redirect args with
  | (args, None) => Some (emit [Line args] m)
  | (args, Some redirect) =>
      let args := trim_trailing_spaces args in
      let filename := trim_trailing_spaces (skip_spaces redirect) in
      if char0 filename =? 0 then Some (say "No file specified." m)
      else if (INPUT_MAX <=? length args + 2)%nat then Some (say "Input too long." m)
      else
        target ← resolve (Some filename) VFS_MAX_PATH m;
        match target with
        | None => Some (say "Invalid path." m)
        | Some target =>
            '(r, w) ← vfs_append (files m) (world m) (Some target) (Some (args ++ [newline]));
            let m := set_world w m in
            Some (if r <? 0 then say "Write failed." m else say "OK" m)
        end
  end.

(** The lines of a listing; the text ends at its terminator. *)
Fixpoint listing_lines (text line : cstring) : list cstring :=
  match text with
  | [] => match line with [] => [] | _ => [line] end
  | c :: text' => if c =? newline then line :: listing_lines text' [] else listing_lines text' (line ++ [c])
  end.

Definition command_ls (args : cstring) (m : shell) : option shell :=
  let trimmed := skip_spaces args in
  target ← (if char0 trimmed =? 0 then c ← shell_cwd m; Some (inr c)
            else match one_argument trimmed VFS_MAX_PATH with
                 | None => Some (inl "ls: path too long"%string)
                 | Some (path, more) =>
                     if (more : bool) then Some (inl "ls: too many arguments"%string)
                     else resolved ← resolve (Some path) VFS_MAX_PATH m; Some (match resolved with None => inl "ls: invalid path"%string | Some p => inr p end)
                 end);
  match target with
  | inl message => Some (say message m)
  | inr target =>
      '(len, buffer, m) ← list_files target 512 m;
      if len <? 0 then Some (say "ls: path not found" m)
      else if len =? 0 then Some (say "(empty)" m)
      else text ← Loader.Loader.text buffer; Some (emit (map Line (listing_lines text [])) m)
  end.

(** An entry of a listing: its name, and whether it is a directory. *)
Definition entry_of (entry : cstring) : cstring * bool :=
  if (0 <? length entry)%nat && (char_at entry (length entry - 1) =? slash) then (take (length entry - 1) entry, true) else (entry, false).

(** [n] levels may follow. *)
Fixpoint shell_tree_walk (n : nat) (path : cstring) (depth : nat) (m : shell) : option shell :=
  '(listed, buffer, m) ← list_files path VFS_INLINE_CAP m;
  if listed <=? 0 then Some m
  else
    text ← Loader.Loader.text buffer;
    foldl (fun m entry =>
      m ← m;
      let '(name, is_dir) := entry_of entry in
      if (length name =? 0)%nat then Some m
      else match shell_join_paths path name VFS_MAX_PATH with
      | None => Some m
      | Some absolute =>
          let m := emit [Line (tree_line depth name is_dir)] m in
          if negb is_dir then Some m
          else match n with
          | O => Some (emit [Line (tree_line (S depth) (lit "...") false)] m)
          | S n' => shell_tree_walk n' absolute (S depth) m
          end
      end) (Some m) (listing_lines text []).

(** The answer for a path that cannot be listed. *)
Definition not_listed (path : cstring) (directory missing : string) (m : shell) : shell :=
  let '(fd, m) := open_file path m in
  if 0 <=? fd then say directory (close_file fd m) else say missing m.

Definition command_tree (args : cstring) (m : shell) : option shell :=
  let trimmed := skip_spaces args in
  here ← resolve None VFS_MAX_PATH m;
  match here with
  | None => Some (say "tree: unable to resolve current directory" m)
  | Some here =>
      target ← (if char0 trimmed =? 0 then Some (inr here)
                else match one_argument trimmed VFS_MAX_PATH with
                     | None => Some (inl "tree: path too long"%string)
                     | Some (path, more) =>
                         if (more : bool) then Some (inl "Usage: tree [path]"%string)
                         else resolved ← resolve (Some path) VFS_MAX_PATH m; Some (match resolved with None => inl "tree: invalid path"%string | Some p => inr p end)
                     end);
      match target with
      | inl message => Some (say message m)
      | inr target =>
          '(listed, _, m) ← list_files target 64 m;
          if listed <? 0 then Some (not_listed target "tree: not a directory" "tree: path not found" m)
          else
            let m := emit [Line target] m in
            if 0 <? listed then shell_tree_walk (SHELL_TREE_MAX_DEPTH - 1) target 0 m else Some m
      end
  end.

(** A name that is too long is cut. *)
Definition command_cat (arg : cstring) (m : shell) : option shell :=
  let name_ptr := skip_spaces arg in
  if char0 name_ptr =? 0 then Some (say "Usage: cat <file>" m)
  else
    let name := take (VFS_NODE_NAME_MAX - 1) (fst (scan_token name_ptr)) in
    target ← resolve (Some name) VFS_MAX_PATH m;
    match target with
    | None => Some (say "Invalid path." m)
    | Some target =>
        let '(fd, m) := open_file target m in
        if fd <? 0 then Some (say "File not found." m)
        else
          '(read, data, w) ← vfs_read (files m) (world m) fd (Some (take (VFS_INLINE_CAP - 1) (stack VFS_INLINE_CAP)));
          let m := close_file fd (set_world w m) in
          if read <? 0 then Some (say "File not readable." m)
          else
            let read := if Z.of_nat VFS_INLINE_CAP <=? read then Z.of_nat VFS_INLINE_CAP - 1 else read in
            data ← buf_store (data ++ drop (VFS_INLINE_CAP - 1) (stack VFS_INLINE_CAP)) (Z.to_nat read) 0;
            text ← Loader.Loader.text data;
            Some (emit [Line text] m)
    end.

Definition command_cd (args : cstring) (m : shell) : option shell :=
  let token := skip_spaces args in
  if char0 token =? 0 then c ← shell_cwd m; Some (emit [Line c] m)
  else match one_argument token VFS_MAX_PATH with
  | None => Some (say "cd: path too long" m)
  | Some (target, more) =>
      if (more : bool) then Some (say "cd: too many arguments" m)
      else
        resolved ← resolve (Some target) VFS_MAX_PATH m;
        match resolved with
        | None => Some (say "cd: invalid path" m)
        | Some resolved =>
            '(listed, _, m) ← list_files resolved 64 m;
            if listed <? 0 then Some (not_listed resolved "cd: not a directory" "cd: no such path" m)
            else shell_set_cwd resolved m
        end
  end.

Definition command_whereami (m : shell) : option shell :=
  c ← shell_cwd m;
  let '(volume, rel) := shell_describe_location c 32 VFS_MAX_PATH in
  let volume := if char0 volume =? 0 then lit "Root" else volume in
  let path_display := if char0 rel =? 0 then (if char0 c =? 0 then [slash] else c) else rel in
  Some (emit [Line (buffer_line 160 [lit "Volume: "; volume; lit " Path: "; path_display])] m).

(** A command with the path of one file: its messages, and what it does. *)
Definition on_path (name : string) (act : cstring → shell → option shell) (args : cstring) (m : shell) : option shell :=
  let token := skip_spaces args in
  if char0 token =? 0 then Some (say ("Usage: " ++ name ++ " <path>") m)
  else match shell_copy_token token VFS_MAX_PATH with
  | None => Some (say (name ++ ": path too long") m)
  | Some target =>
      if negb (char0 (skip_spaces (drop (length target) token)) =? 0) then Some (say (name ++ ": too many arguments") m)
      else
        resolved ← resolve (Some target) VFS_MAX_PATH m;
        match resolved with None => Some (say (name ++ ": invalid path") m) | Some resolved => act resolved m end
  end.

Definition command_mkdir (args : cstring) (m : shell) : option shell :=
  on_path "mkdir" (fun path m =>
    '(r, w) ← vfs_mkdir (files m) (world m) (Some path);
    Some (say (if r =? 0 then "Directory created." else "mkdir: failed") (set_world w m))) args m.

Definition command_touch (args : cstring) (m : shell) : option shell :=
  on_path "touch" (fun path m =>
    let '(fd, m) := open_file path m in
    if 0 <=? fd then Some (say "File updated." (close_file fd m))
    else
      '(listed, _, m) ← list_files path 16 m;
      if 0 <=? listed then Some (say "touch: path is a directory" m)
      else
        '(r, w) ← vfs_write_file (files m) (world m) (Some path) None;
        Some (say (if r <? 0 then "touch: failed" else "File created.") (set_world w m))) args m.

Definition command_rm (args : cstring) (m : shell) : option shell :=
  on_path "rm" (fun path m =>
    '(r, w) ← vfs_remove (files m) (world m) (Some path);
    Some (say (if r =? 0 then "Removed." else "rm: failed") (set_world w m))) args m.

Fixpoint mount_lines (n i : nat) (m : shell) : option (list cstring) :=
  match n with
  | O => Some []
  | S n' =>
      '(r, path) ← vfs_mount_path_at (files m) i (Some (stack VFS_MAX_PATH));
      lines ← mount_lines n' (S i) m;
      if r <? 0 then Some lines
      else path ← Loader.Loader.text path; Some (buffer_line 192 [write_u64 (Z.of_nat i + 1); lit ": "; path] :: lines)
  end.

Definition command_mount (args : cstring) (m : shell) : option shell :=
  if negb (char0 (skip_spaces args) =? 0) then Some (say "Usage: mount" m)
  else
    let count := vfs_mount_count (files m) in
    if (count =? 0)%nat then Some (say "No mounts active." m)
    else lines ← mount_lines count 0 m; Some (emit (map Line lines) m).

Definition shell_render_prompt (m : shell) : option shell :=
  c ← shell_cwd m;
  Some (emit [Color 11 0; Text (lit "proOS "); Text (if char0 c =? 0 then [slash] else c); Text (lit " >> "); Color 7 0] m).

(** ** Lines *)

Definition other_command (name : string) (args : cstring) (m : shell) : option shell :=
  '(cs, w, v) ← other (lit name) args (calls m, world m) (files m);
  Some (Machine (hist m) (cwd m) v w cs).

Definition shell_execute (line : cstring) (m : shell) : option shell :=
  let cursor := trim_trailing_spaces (skip_spaces line) in
  let equals name := shell_str_equals cursor (lit name) in
  let starts name := shell_str_starts_with cursor (lit name ++ [space]) in
  let has name := equals name || starts name in
  if char0 (skip_spaces line) =? 0 then Some m
  else if equals "help" then Some (command_help m)
  else if equals "clear" then Some (command_clear m)
  else if equals "mem" then other_command "mem" [] m
  else if equals "reboot" then other_command "reboot" [] m
  else if equals "ls" then command_ls [] m
  else if starts "ls" then command_ls (drop 2 cursor) m
  else if equals "tree" then command_tree [] m
  else if starts "tree" then command_tree (drop 4 cursor) m
  else if equals "cd" then command_cd [] m
  else if starts "cd" then command_cd (drop 2 cursor) m
  else if equals "whereami" then command_whereami m
  else if has "cat" then command_cat (drop 3 cursor) m
  else if has "mkdir" then command_mkdir (drop 5 cursor) m
  else if has "touch" then command_touch (drop 5 cursor) m
  else if has "rm" then command_rm (drop 2 cursor) m
  else if equals "volumes" then other_command "volumes" [] m
  else if has "mount" then command_mount (drop 5 cursor) m
  else if equals "tasks" || equals "proc_list" then other_command "tasks" [] m
  else if has "mod" then other_command "mod" (drop 3 cursor) m
  else if has "net" then other_command "net" (drop 3 cursor) m
  else if equals "gfx" then other_command "gfx" [] m
  else if equals "kdlg" then other_command "kdlg" [] m
  else if has "logs" then other_command "logs" (drop 4 cursor) m
  else if has "kdlvl" then other_command "kdlvl" (drop 5 cursor) m
  else if equals "proc_count" then other_command "proc_count" [] m
  else if has "spawn" then other_command "spawn" (drop 5 cursor) m
  else if equals "devs" then other_command "devs" [] m
  else if equals "shutdown" then other_command "shutdown" [] m
  else if has "memdump" then other_command "memdump" (drop 7 cursor) m
  else if has "echo" then command_echo (drop 4 cursor) m
  else Some (say "Unknown command. Type 'help'." m).

(** The start of [shell_run]. *)
Definition shell_start (m : shell) : option shell := b ← buf_copy (cwd m) 0 [slash; 0]; Some (set_cwd b m).

(** One round of the loop: the keys up to the end of a line, and those behind it. *)
Definition shell_round (keys : list Z) (m : shell) : option (option (list Z * shell)) :=
  m ← shell_render_prompt m;
  match shell_read_line (hist m) INPUT_MAX keys with
  | None => Some None
  | Some (line, cs, keys) =>
      let m := emit cs m in
      h ← (if (0 <? length line)%nat then history_store line (hist m) else Some (hist m));
      m ← shell_execute line (set_hist h m);
      Some (Some (keys, m))
  end.

(** The loop, for as many lines as the keys complete; [n] rounds. *)
Fixpoint shell_loop (n : nat) (keys : list Z) (m : shell) : option (list Z * shell) :=
  match n with
  | O => None
  | S n' =>
      r ← shell_round keys m;
      match r with None => Some (keys, m) | Some (keys, m) => shell_loop n' keys m end
  end.

Definition shell_run (keys : list Z) (m : shell) : option (list Z * shell) := m ← shell_start m; shell_loop (S (length keys)) keys m.

End shell.

End Shell.
