(* ===== verification/ShellProps.v ===== *)
(** Properties of the shell: numbers and paths as text, the history, the line editor, the
    working directory, and files that are written by one command and shown by another. *)

From S2P Require Import Prelude Arrays Bytes VfsPath Vfs Fonts Display Input ShellText Shell.
From S2P Require Import RamfsSpec VfsSpec VfsRamfs DisplayProps.
From S2P Require Block BlockVolumes FontProps Loader.

Module ShellProps.

Import Bytes VfsPath ShellText.

(** ** Division *)

Lemma bit_step value b : 0 ≤ value → value / 2 ^ Z.of_nat b = 2 * (value / 2 ^ Z.of_nat (S b)) + Z.land (Z.shiftr value (Z.of_nat b)) 1.
Proof.
  intros Hv. rewrite Z.shiftr_div_pow2 by lia. change 1 with (Z.ones 1). rewrite Z.land_ones by lia. change (2 ^ 1) with 2.
  rewrite Nat2Z.inj_succ, Z.pow_succ_r by lia. rewrite (Z.mul_comm 2 (2 ^ _)), <- Z.div_div by lia. apply Z.div_mod. lia.
Qed.

(** One more bit of the dividend. *)
Lemma divmod_bit v d bit : 0 < d → bit = 0 ∨ bit = 1 →
  (2 * v + bit) / d = (if d <=? 2 * (v mod d) + bit then 2 * (v / d) + 1 else 2 * (v / d)) ∧
  (2 * v + bit) mod d = (if d <=? 2 * (v mod d) + bit then 2 * (v mod d) + bit - d else 2 * (v mod d) + bit).
Proof.
  intros Hd Hbit. pose proof (Z.div_mod v d ltac:(lia)) as E. pose proof (Z.mod_pos_bound v d Hd) as Hm. set (q := v / d) in *. set (r := v mod d) in *. destruct (Z.leb_spec d (2 * r + bit)).
  - split; [symmetry; apply Z.div_unique_pos with (2 * r + bit - d)|symmetry; apply Z.mod_unique_pos with (2 * q + 1)]; lia.
  - split; [symmetry; apply Z.div_unique_pos with (2 * r + bit)|symmetry; apply Z.mod_unique_pos with (2 * q)]; lia.
Qed.

Lemma lor_one_even a : 0 ≤ a → Z.lor (2 * a) 0 = 2 * a ∧ Z.lor (2 * a) 1 = 2 * a + 1.
Proof.
  intros Ha. split; [apply Z.lor_0_r|]. pose proof (lor_shiftl 1 a 1 ltac:(lia) ltac:(cbn; lia) Ha) as H. rewrite Z.shiftl_mul_pow2 in H by lia. change (2 ^ 1) with 2 in H. rewrite Z.lor_comm, (Z.mul_comm 2 a), H. lia.
Qed.

Lemma lor_high q b : 0 ≤ q → Z.lor (q * 2 ^ Z.of_nat (S b)) (Z.shiftl 1 (Z.of_nat b)) = (2 * q + 1) * 2 ^ Z.of_nat b.
Proof.
  intros Hq. replace (q * 2 ^ Z.of_nat (S b)) with (Z.shiftl q (Z.of_nat (S b))) by (rewrite Z.shiftl_mul_pow2; lia). rewrite Z.lor_comm, lor_shiftl.
  - rewrite Z.shiftl_mul_pow2 by lia. rewrite Nat2Z.inj_succ, Z.pow_succ_r by lia. lia.
  - lia.
  - rewrite Z.shiftl_1_l. split; [lia|]. apply Z.pow_lt_mono_r; lia.
  - lia.
Qed.

Lemma divmod_loop_ok b value d : 0 ≤ value → 0 < d ≤ 4294967296 →
  divmod_loop b value d (value / 2 ^ Z.of_nat b / d * 2 ^ Z.of_nat b) (value / 2 ^ Z.of_nat b mod d) = (value / d, value mod d).
Proof.
  intros Hv Hd. induction b as [|b IH].
  - cbn [divmod_loop]. rewrite Z.pow_0_r, Z.div_1_r, Z.mul_1_r. done.
  - cbn [divmod_loop]. pose proof (bit_step value b Hv) as Hbit. set (v := value / 2 ^ Z.of_nat (S b)) in *. set (bit := Z.land (Z.shiftr value (Z.of_nat b)) 1) in *.
    assert (Hb : bit = 0 ∨ bit = 1) by (pose proof (Z.land_ones (Z.shiftr value (Z.of_nat b)) 1 ltac:(lia)) as E1; change (Z.land (Z.shiftr value (Z.of_nat b)) (Z.ones 1)) with bit in E1; change (2 ^ 1) with 2 in E1; pose proof (Z.mod_pos_bound (Z.shiftr value (Z.of_nat b)) 2 ltac:(lia)); lia).
    pose proof (Z.mod_pos_bound v d ltac:(lia)) as Hm. assert (Hv0 : 0 ≤ v) by (apply Z.div_pos; lia). rewrite Z.shiftl_mul_pow2 by lia. change (2 ^ 1) with 2. rewrite u64_small by lia.
    assert (Hlor : Z.lor (v mod d * 2) bit = 2 * (v mod d) + bit) by (rewrite Z.mul_comm; destruct (lor_one_even (v mod d) ltac:(lia)) as [H0 H1]; destruct Hb as [-> | ->]; lia). rewrite Hlor.
    destruct (divmod_bit v d bit ltac:(lia) Hb) as [Hq Hr]. rewrite <- Hbit in Hq, Hr. destruct (d <=? 2 * (v mod d) + bit).
    + rewrite lor_high by (apply Z.div_pos; lia). rewrite <- Hq, <- Hr. exact IH.
    + replace (v / d * 2 ^ Z.of_nat (S b)) with (2 * (v / d) * 2 ^ Z.of_nat b) by (rewrite Nat2Z.inj_succ, Z.pow_succ_r; lia). rewrite <- Hq, <- Hr. exact IH.
Qed.

(** The division of 64 bits by 32 bits that the shell carries out bit by bit is division. *)
Theorem u64_divmod_correct value d : 0 ≤ value < 2 ^ 64 → 0 < d < 4294967296 → u64_divmod value d = (value / d, value mod d).
Proof.
  intros Hv Hd. unfold u64_divmod. pose proof (divmod_loop_ok 64 value d ltac:(lia) ltac:(lia)) as H. rewrite (Z.div_small value (2 ^ Z.of_nat 64)) in H by (cbn; lia). rewrite Z.div_0_l, Z.mod_0_l, Z.mul_0_l in H by lia. rewrite H.
  pose proof (Z.mod_pos_bound value d). by rewrite u32_small by lia.
Qed.

(** ** Numbers *)

Lemma u64_digits_ok n v : 0 ≤ v < 2 ^ 64 → reverse (u64_digits n v) = Block.Block.digits n v.
Proof.
  revert v. induction n as [|n IH]; intros v Hv; [done|]. cbn [u64_digits Block.Block.digits]. destruct (Z.leb_spec v 0); [done|]. rewrite u64_divmod_correct by lia. rewrite reverse_cons, IH; [done|].
  split; [apply Z.div_pos; lia|]. apply Z.div_lt_upper_bound; lia.
Qed.

Lemma digits_more n k v : v < 10 ^ Z.of_nat n → Block.Block.digits (n + k) v = Block.Block.digits n v.
Proof.
  revert v. induction n as [|n IH]; intros v Hv; cbn [Nat.add Block.Block.digits].
  - destruct k; [done|]. cbn. rewrite (proj2 (Z.leb_le _ _)); [done|cbn in Hv; lia].
  - destruct (v <=? 0); [done|]. rewrite IH; [done|]. apply Z.div_lt_upper_bound; [lia|]. rewrite Nat2Z.inj_succ, Z.pow_succ_r in Hv by lia. lia.
Qed.

Lemma write_u64_decimal v : 0 ≤ v < 4294967296 → write_u64 v = Block.Block.decimal v.
Proof. intros Hv. unfold write_u64, Block.Block.decimal. destruct (v =? 0); [done|]. rewrite u64_digits_ok by lia. apply (digits_more 12 20). cbn. lia. Qed.

Lemma digit_same c : digit c = Fonts.digit c.
Proof. done. Qed.

Lemma decimal_token_ok l a : Forall (fun c => digit c = true) l → 0 ≤ a → foldl (fun a c => a * 10 + (c - 48)) a l < 4294967296 → decimal_token l a = Some (foldl (fun a c => a * 10 + (c - 48)) a l).
Proof.
  intros Hl. revert a. induction Hl as [|c l Hc Hl IH]; intros a Ha Hs; [done|]. cbn [decimal_token foldl] in *. rewrite Hc. cbn [negb]. unfold digit in Hc. pose proof (FontProps.FontProps.value_grows l (a * 10 + (c - 48)) Hl ltac:(lia)).
  rewrite u32_small by lia. rewrite (proj2 (Z.ltb_ge _ a)) by lia. apply IH; lia.
Qed.

Lemma positive_int_ok l a : Forall (fun c => digit c = true) l → 0 ≤ a → foldl (fun a c => a * 10 + (c - 48)) a l ≤ INT_MAX → positive_int l a = Some (foldl (fun a c => a * 10 + (c - 48)) a l).
Proof.
  intros Hl. revert a. induction Hl as [|c l Hc Hl IH]; intros a Ha Hs; [done|]. cbn [positive_int foldl] in *. rewrite Hc. cbn [negb]. unfold digit in Hc. pose proof (FontProps.FontProps.value_grows l (a * 10 + (c - 48)) Hl ltac:(lia)).
  rewrite (proj2 (Z.ltb_ge _ a)); [apply IH; lia|]. apply Z.div_le_lower_bound; lia.
Qed.

Lemma decimal_chars v : 0 ≤ v → ∃ c l, Block.Block.decimal v = c :: l ∧ digit c = true ∧ Forall (fun c => digit c = true) l.
Proof.
  intros Hv. destruct (FontProps.FontProps.decimal_cons v Hv) as (c & l & E & Hc). exists c, l. split; [done|]. split; [done|]. pose proof (FontProps.FontProps.decimal_digits v) as Hd. rewrite E in Hd. by apply Forall_cons in Hd as [_ Hd].
Qed.

Lemma parse_u32_decimal v : 0 ≤ v < 4294967296 → parse_u32_token (write_u64 v) = Some v.
Proof.
  intros Hv. rewrite write_u64_decimal by done. destruct (decimal_chars v ltac:(lia)) as (c & l & E & Hc & Hl). pose proof (FontProps.FontProps.decimal_value v ltac:(lia)) as Hval. unfold BlockVolumes.BlockVolumes.undigits in Hval.
  unfold parse_u32_token. rewrite E in *. cbn [char0]. unfold digit in Hc. rewrite (proj2 (Z.eqb_neq c 0)) by lia.
  assert (H1 : (char_at (c :: l) 1 =? 120) || (char_at (c :: l) 1 =? 88) = false).
  { destruct l as [|c1 l]; [done|]. apply Forall_cons in Hl as [Hc1 _]. unfold digit in Hc1. cbn. rewrite !(proj2 (Z.eqb_neq c1 _)) by lia. done. }
  rewrite H1, andb_false_r. rewrite decimal_token_ok; [by rewrite Hval|by constructor|lia|rewrite Hval; lia].
Qed.

Lemma parse_positive_decimal v : 0 < v ≤ INT_MAX → parse_positive_int (write_u64 v) = Some v.
Proof.
  intros Hv. unfold INT_MAX in Hv. rewrite write_u64_decimal by lia. destruct (decimal_chars v ltac:(lia)) as (c & l & E & Hc & Hl). pose proof (FontProps.FontProps.decimal_value v ltac:(lia)) as Hval. unfold BlockVolumes.BlockVolumes.undigits in Hval.
  unfold parse_positive_int. rewrite E in *. cbn [char0]. pose proof Hc as Hc'. unfold digit in Hc'. rewrite (proj2 (Z.eqb_neq c 0)) by lia.
  rewrite positive_int_ok; [rewrite Hval; cbn [mbind option_bind]; by rewrite (proj2 (Z.leb_gt v 0)) by lia|by constructor|lia|rewrite Hval; unfold INT_MAX; lia].
Qed.

Lemma hex_char_value n : 0 ≤ n < 16 → hex_digit_value (hex_char n) = Some n.
Proof.
  intros Hn. unfold hex_char, hex_digit_value, digit. destruct (Z.ltb_spec n 10).
  - rewrite (proj2 (andb_true_iff (48 <=? 48 + n) _)) by lia. f_equal. lia.
  - rewrite (proj2 (andb_false_iff (48 <=? 55 + n) (55 + n <=? 57))) by lia. rewrite (proj2 (andb_false_iff (97 <=? 55 + n) _)) by lia. rewrite (proj2 (andb_true_iff (65 <=? 55 + n) _)) by lia. f_equal. lia.
Qed.

Lemma nibble_range v k : 0 ≤ nibble_at v k < 16.
Proof. unfold nibble_at. change 15 with (Z.ones 4). rewrite Z.land_ones by lia. apply Z.mod_pos_bound. lia. Qed.

Lemma nibble_step v k : 0 ≤ v → v / 2 ^ Z.of_nat (k * 4) = 16 * (v / 2 ^ Z.of_nat (S k * 4)) + nibble_at v (k * 4).
Proof.
  intros Hv. unfold nibble_at. rewrite Z.shiftr_div_pow2 by lia. change 15 with (Z.ones 4). rewrite Z.land_ones by lia. change (2 ^ 4) with 16.
  replace (2 ^ Z.of_nat (S k * 4)) with (2 ^ Z.of_nat (k * 4) * 16) by (replace (Z.of_nat (S k * 4)) with (Z.of_nat (k * 4) + 4) by lia; rewrite Z.pow_add_r by lia; done).
  rewrite <- Z.div_div by lia. apply Z.div_mod. lia.
Qed.

Lemma hex_token_ok v k : 0 ≤ v < 4294967296 → (k ≤ 8)%nat → hex_token (map (fun i => hex_char (nibble_at v ((7 - i) * 4))) (List.seq (8 - k) k)) (v / 2 ^ Z.of_nat (k * 4)) = Some v.
Proof.
  intros Hv. induction k as [|k IH]; intros Hk; [cbn; by rewrite Z.div_1_r|]. replace (8 - S k)%nat with (7 - k)%nat by lia. cbn [List.seq map hex_token]. replace (7 - (7 - k))%nat with k by lia. rewrite hex_char_value by apply nibble_range. cbn [mbind option_bind].
  replace (S (7 - k)) with (8 - k)%nat by lia. assert (Hhigh : 0 ≤ v / 2 ^ Z.of_nat (S k * 4) < 268435456).
  { split; [apply Z.div_pos; lia|]. apply Z.div_lt_upper_bound; [lia|]. assert (16 ≤ 2 ^ Z.of_nat (S k * 4)) by (change 16 with (2 ^ 4); apply Z.pow_le_mono_r; lia). nia. }
  rewrite Z.shiftl_mul_pow2 by lia. change (2 ^ 4) with 16. rewrite u32_small by lia. pose proof (nibble_range v (k * 4)). replace (v / 2 ^ Z.of_nat (S k * 4) * 16) with (Z.shiftl (v / 2 ^ Z.of_nat (S k * 4)) 4) by (rewrite Z.shiftl_mul_pow2; lia).
  rewrite Z.lor_comm, lor_shiftl by lia. replace (nibble_at v (k * 4) + v / 2 ^ Z.of_nat (S k * 4) * 2 ^ 4) with (v / 2 ^ Z.of_nat (k * 4)) by (rewrite (nibble_step v k); lia). apply IH. lia.
Qed.

Lemma parse_u32_hex v : 0 ≤ v < 4294967296 → parse_u32_token (write_hex32 v) = Some v.
Proof.
  intros Hv. pose proof (hex_token_ok v 8 Hv ltac:(lia)) as H. rewrite (Z.div_small v (2 ^ Z.of_nat (8 * 4))) in H by (cbn; lia). unfold parse_u32_token, write_hex32. change (char0 (lit "0x" ++ ?l)) with 48. change (48 =? 0) with false. cbn iota.
  change (char_at (lit "0x" ++ ?l) 0) with 48. change (char_at (lit "0x" ++ ?l) 1) with 120. cbn [Z.eqb Pos.eqb orb andb]. change (drop 2 (lit "0x" ++ ?l)) with l. destruct (char0 _ =? 0) eqn:E; [|exact H].
  exfalso. apply Z.eqb_eq in E. cbn in E. pose proof (nibble_range v 28). unfold hex_char in E. destruct (_ <? 10); lia.
Qed.

(** ** Addresses *)

Lemma ipv4_digits l rest a n out :
  Forall (fun c => digit c = true) l → 0 ≤ a → foldl (fun a c => a * 10 + (c - 48)) a l ≤ 255 →
  ipv4_loop (l ++ rest) a n out = ipv4_loop rest (foldl (fun a c => a * 10 + (c - 48)) a l) (n + length l) out.
Proof.
  intros Hl. revert a n. induction Hl as [|c l Hc Hl IH]; intros a n Ha Hs; [cbn; by rewrite Nat.add_0_r|]. cbn [app ipv4_loop foldl length] in *. pose proof Hc as Hc'. unfold digit in Hc'. unfold dot. rewrite (proj2 (Z.eqb_neq c 46)) by lia. rewrite Hc. cbn [negb].
  pose proof (FontProps.FontProps.value_grows l (a * 10 + (c - 48)) Hl ltac:(lia)). rewrite u32_small by lia. rewrite (proj2 (Z.ltb_ge 255 _)) by lia. rewrite IH by lia. f_equal. lia.
Qed.

Definition octet (v : Z) : cstring := if v =? 0 then [48] else octet_digits 3 v.

Lemma octet_decimal v : 0 ≤ v < 256 → octet v = Block.Block.decimal v.
Proof.
  intros Hv. unfold octet, Block.Block.decimal. destruct (v =? 0); [done|]. assert (H : ∀ n v, octet_digits n v = Block.Block.digits n v) by (intros n; induction n as [|n IH]; intros x; [done|]; cbn; destruct (x <=? 0); [done|]; by rewrite IH).
  rewrite H. symmetry. apply (digits_more 3 9). cbn. lia.
Qed.

Lemma octet_length v : 0 ≤ v < 256 → (1 ≤ length (octet v) ≤ 3)%nat.
Proof.
  intros Hv. rewrite octet_decimal by done. destruct (decimal_chars v ltac:(lia)) as (c & l & E & _). split; [rewrite E; cbn; lia|]. unfold Block.Block.decimal. destruct (v =? 0); [cbn; lia|]. apply BlockVolumes.BlockVolumes.digits_length. cbn. lia.
Qed.

Lemma parse_octet v rest out : 0 ≤ v < 256 → ∃ n, ipv4_loop (octet v ++ rest) 0 0 out = ipv4_loop rest v (S n) out.
Proof.
  intros Hv. pose proof (octet_length v Hv) as Hlen. rewrite octet_decimal in * by done. pose proof (FontProps.FontProps.decimal_value v ltac:(lia)) as Hval. unfold BlockVolumes.BlockVolumes.undigits in Hval.
  rewrite ipv4_digits by (try apply FontProps.FontProps.decimal_digits; lia). rewrite Hval. exists (length (Block.Block.decimal v) - 1)%nat. f_equal. lia.
Qed.

Lemma format_ipv4_octets a b c d cap : 0 ≤ a < 256 → 0 ≤ b < 256 → 0 ≤ c < 256 → 0 ≤ d < 256 → (16 ≤ cap)%nat →
  format_ipv4_address [a; b; c; d] cap = octet a ++ dot :: octet b ++ dot :: octet c ++ dot :: octet d.
Proof.
  intros Ha Hb Hc Hd Hcap. pose proof (octet_length a Ha). pose proof (octet_length b Hb). pose proof (octet_length c Hc). pose proof (octet_length d Hd). unfold format_ipv4_address. cbn [ipv4_octets]. fold (octet a) (octet b) (octet c) (octet d).
  cbn [app]. rewrite (take_ge (octet a)) by (cbn [length]; lia). change (0 <? 3)%nat with true. cbn [andb]. rewrite (proj2 (Nat.ltb_lt (length (octet a)) _)) by lia.
  rewrite (take_ge (octet b)) by (rewrite length_app; cbn [length]; lia). change (1 <? 3)%nat with true. cbn [andb]. rewrite (proj2 (Nat.ltb_lt (length ((octet a ++ [dot]) ++ octet b)) _)) by (rewrite !length_app; cbn [length]; lia).
  rewrite (take_ge (octet c)) by (rewrite !length_app; cbn [length]; lia). change (2 <? 3)%nat with true. cbn [andb]. rewrite (proj2 (Nat.ltb_lt (length ((((octet a ++ [dot]) ++ octet b) ++ [dot]) ++ octet c)) _)) by (rewrite !length_app; cbn [length]; lia).
  rewrite (take_ge (octet d)) by (rewrite !length_app; cbn [length]; lia). change (3 <? 3)%nat with false. cbn [andb]. rewrite <- !app_assoc. done.
Qed.

(** What the shell prints it also reads: a number of 32 bits printed in decimal or in
    hexadecimal is parsed as that number, a positive [int] printed in decimal is parsed as a
    count, and the four bytes of an IPv4 address printed with dots are parsed as those
    bytes. *)
Theorem shell_numbers_roundtrip v a b c d cap :
  0 ≤ v < 4294967296 → 0 ≤ a < 256 → 0 ≤ b < 256 → 0 ≤ c < 256 → 0 ≤ d < 256 → (16 ≤ cap)%nat →
  parse_u32_token (write_u64 v) = Some v ∧ parse_u32_token (write_hex32 v) = Some v ∧
  (0 < v ≤ INT_MAX → parse_positive_int (write_u64 v) = Some v) ∧
  parse_ipv4_address (format_ipv4_address [a; b; c; d] cap) = Some [a; b; c; d].
Proof.
  intros Hv Ha Hb Hc Hd Hcap. split; [by apply parse_u32_decimal|]. split; [by apply parse_u32_hex|]. split; [apply parse_positive_decimal|]. rewrite format_ipv4_octets by done. unfold parse_ipv4_address.
  assert (Hdot : ∀ v n out rest, 0 ≤ v < 256 → (length out < 3)%nat → ipv4_loop (dot :: rest) v (S n) out = ipv4_loop rest 0 0 (out ++ [v])).
  { intros x n out rest Hx Hout. cbn [ipv4_loop]. rewrite Z.eqb_refl, (proj2 (Nat.leb_gt 3 _)), (proj2 (Z.ltb_ge 255 x)) by lia. cbn [orb Nat.eqb]. by rewrite u8_small. }
  destruct (parse_octet a (dot :: octet b ++ dot :: octet c ++ dot :: octet d) [] Ha) as [n1 ->]. rewrite Hdot by (cbn; lia). destruct (parse_octet b (dot :: octet c ++ dot :: octet d) ([] ++ [a]) Hb) as [n2 ->]. rewrite Hdot by (cbn; lia).
  destruct (parse_octet c (dot :: octet d) (([] ++ [a]) ++ [b]) Hc) as [n3 ->]. rewrite Hdot by (cbn; lia). rewrite <- (app_nil_r (octet d)). destruct (parse_octet d [] ((([] ++ [a]) ++ [b]) ++ [c]) Hd) as [n4 ->].
  cbn [ipv4_loop length app Nat.eqb negb orb]. rewrite (proj2 (Z.ltb_ge 255 d)) by lia. by rewrite u8_small.
Qed.

Lemma shell_numbers_roundtrip_witness :
  parse_u32_token (write_u64 305419896) = Some 305419896 ∧ parse_u32_token (write_hex32 305419896) = Some 305419896 ∧
  (0 < 305419896 ≤ INT_MAX → parse_positive_int (write_u64 305419896) = Some 305419896) ∧ parse_ipv4_address (format_ipv4_address [10; 0; 2; 15] 32) = Some [10; 0; 2; 15].
Proof. apply (shell_numbers_roundtrip 305419896 10 0 2 15 32); lia. Defined.

(** The test for overflow lets numbers through that do not fit: they wrap. *)
Theorem parse_u32_wraps :
  parse_u32_token (lit "9999999999") = Some 1410065407 ∧ parse_u32_token (lit "0x123456789") = Some 591751049 ∧ parse_u32_token (lit "4294967296") = None.
Proof. vm_compute. done. Qed.

(** ** Paths *)

Lemma write_segments_emit segs out capacity :
  emit_segments segs out capacity = match write_segments segs out capacity with (true, r) => Some r | (false, _) => None end.
Proof. revert out. induction segs as [|s segs IH]; intros out; [done|]. cbn. by destruct (_ <=? _)%nat. Qed.

(** The shell's normalisation is that of the virtual file system. *)
Lemma normalized_vfs p capacity : normalized p capacity = normalize_path (Some p) capacity.
Proof.
  unfold normalized, shell_normalize_absolute, normalize_path. destruct (capacity <? 2)%nat; [done|]. destruct (char0 p =? slash) eqn:E; cbn [negb].
  - apply Z.eqb_eq in E. rewrite E. change (slash =? 0) with false. cbn iota. destruct (collect_segments _ _ _) as [[|s segs]|]; [done| |done]. by rewrite write_segments_emit.
  - by destruct (char0 p =? 0).
Qed.

Lemma split_slash_nonempty p : ∃ s ss, split_slash p = s :: ss.
Proof. destruct p as [|c p]; [by eexists _, _|]. cbn. destruct (c =? slash); [by eexists _, _|]. destruct (split_slash p); by eexists _, _. Qed.

Lemma split_slash_app a b : split_slash (a ++ slash :: b) = split_slash a ++ split_slash b.
Proof.
  induction a as [|c a IH]; [done|]. cbn [app split_slash]. rewrite IH. destruct (c =? slash); [done|].
  destruct (split_slash_nonempty a) as (s & ss & E). by rewrite E.
Qed.

(** The directory that a path given to the shell leads to, step by step. *)
Definition origin (segs : list cstring) (p : cstring) : list cstring := if char0 p =? slash then [] else segs.
Definition reached (segs : list cstring) (p : cstring) : list cstring := foldl follow (origin segs p) (split_slash p).
Definition within (segs : list cstring) (p : cstring) : Prop := ∀ k, (length (foldl follow (origin segs p) (take k (split_slash p))) ≤ MAX_SEGMENTS)%nat.

(** The room a relative path needs behind the working directory and a slash. *)
Definition fits (segs : list cstring) (p : cstring) : Prop :=
  p = [] ∨ char0 p = slash ∨ (length (concat ((fun s => slash :: s) <$> segs)) + 1 + length p < VFS_MAX_PATH)%nat.

Lemma candidate_walk segs p : Forall plain segs → (length segs ≤ MAX_SEGMENTS)%nat → char0 p ≠ slash →
  let q := concat ((fun s => slash :: s) <$> segs) ++ slash :: p in walk q = reached segs p ∧ (shallow q ↔ within segs p).
Proof.
  intros Hpl Hlen Hrel q. assert (Hsplit : split_slash q = ([] :: segs) ++ split_slash p) by (unfold q; by rewrite split_slash_app, split_slash_spell).
  assert (Hpre : foldl follow [] ([] :: segs) = segs) by (cbn [foldl]; rewrite follow_nil, follow_plains by done; done).
  unfold reached, within, origin. rewrite (proj2 (Z.eqb_neq _ _)) by done. split; [unfold walk; by rewrite Hsplit, foldl_app, Hpre|]. unfold shallow. rewrite Hsplit. split; intros H k.
  - specialize (H (length ([] :: segs) + k)%nat). rewrite take_app_ge in H by lia. replace (length ([] :: segs) + k - length ([] :: segs))%nat with k in H by lia. by rewrite foldl_app, Hpre in H.
  - destruct (decide (k ≤ length ([] :: segs))%nat) as [Hk|Hk].
    + rewrite take_app_le by done. destruct k as [|k]; [cbn; lia|]. cbn [take foldl]. rewrite follow_nil, follow_plains by (by apply Forall_take). cbn [app]. rewrite length_take. lia.
    + rewrite take_app_ge by lia. rewrite foldl_app, Hpre. apply H.
Qed.

Lemma char_at_last (a : cstring) x : char_at (a ++ [x]) (length (a ++ [x]) - 1) = x.
Proof. unfold char_at. rewrite length_app, Nat.add_sub, lookup_app_r, Nat.sub_diag by done. done. Qed.

(** The candidate that the shell builds from the working directory and a relative path. *)
Lemma prepend_spec segs p : Forall plain segs → p ≠ [] → char0 p ≠ slash →
  prepend (spell segs) p = if decide (fits segs p) then Some (concat ((fun s => slash :: s) <$> segs) ++ slash :: p) else None.
Proof.
  intros Hpl Hp Hrel. assert (Hfits : fits segs p ↔ (length (concat ((fun s => slash :: s) <$> segs)) + 1 + length p < VFS_MAX_PATH)%nat) by (unfold fits; naive_solver).
  destruct segs as [|s segs].
  - change (prepend (spell []) p) with (if (VFS_MAX_PATH <=? 1 + length p)%nat then None else Some (slash :: p)). cbn [concat fmap list_fmap app].
    case_decide as H; rewrite Hfits in H; cbn [concat fmap list_fmap length Nat.add] in H; destruct (Nat.leb_spec VFS_MAX_PATH (1 + length p)); try done; lia.
  - unfold prepend. rewrite spell_concat by done. set (d := concat _) in *. assert (Hlast : char_at d (length d - 1) ≠ slash ∧ (1 < length d)%nat).
    { destruct (exists_last (l := s :: segs)) as (l & x & E); [done|]. unfold d. rewrite E in *. rewrite fmap_app, concat_app. cbn [fmap list_fmap concat]. rewrite app_nil_r. apply Forall_app in Hpl as [_ Hx]. apply Forall_inv in Hx as (Hx & _ & _ & Hns).
      destruct (exists_last Hx) as (y & z & ->). rewrite app_comm_cons, app_assoc, char_at_last. split; [intros ->; apply Hns; set_solver|]. rewrite !length_app. cbn. lia. }
    destruct Hlast as [Hlast Hd]. rewrite (proj2 (Nat.eqb_neq (length d) 0)), (proj2 (Nat.eqb_neq (length d) 1)) by lia. cbn [andb]. rewrite (proj2 (Z.eqb_neq _ _) Hlast).
    assert (0 < length p)%nat by (destruct p; [done|cbn; lia]). destruct (Nat.leb_spec VFS_MAX_PATH (length d)); cbn [mbind option_bind]; [rewrite decide_False by (rewrite Hfits; lia); done|].
    destruct (Nat.ltb_spec (length d + 1) VFS_MAX_PATH); cbn [mbind option_bind].
    + rewrite length_app. cbn [length]. case_decide as Hf; rewrite Hfits in Hf; destruct (Nat.leb_spec VFS_MAX_PATH (length d + 1 + length p)); try lia; [|done]. by rewrite <- app_assoc.
    + rewrite decide_False by (rewrite Hfits; lia). by rewrite (proj2 (Nat.leb_le _ _)) by lia.
Qed.

(** A path given to the shell leads where it says.  With a working directory in
    canonical spelling, [resolve_absolute_path] accepts a path exactly when it never goes
    deeper than 32 directories, a relative path fits behind the working directory in 128
    bytes, and the result fits the buffer; the result is the canonical spelling of the
    directory reached by following the segments from the root or from the working
    directory, and no path is the working directory itself. *)
Theorem resolve_path_correct segs p size r :
  Forall plain segs → (length segs ≤ MAX_SEGMENTS)%nat →
  (resolve_absolute_path (spell segs) (Some p) size = Some r ↔
   (2 ≤ size)%nat ∧ within segs p ∧ fits segs p ∧ r = spell (reached segs p) ∧ (length r < size)%nat) ∧
  resolve_absolute_path (spell segs) None size = resolve_absolute_path (spell segs) (Some []) size.
Proof.
  intros Hpl Hlen. split; [|done]. unfold resolve_absolute_path. destruct (Nat.ltb_spec size 2); [naive_solver lia|]. destruct (decide (p = [])) as [->|Hp].
  - rewrite normalized_vfs, normalize_spec, walk_spell by done. assert (Hw : within segs []) by (intros [|[|k]]; exact Hlen). pose proof (shallow_spell segs Hpl Hlen). pose proof (char0_spell segs). change (reached segs []) with segs. assert (fits segs []) by by left. naive_solver.
  - destruct p as [|c p']; [done|]. set (p := c :: p') in *. destruct (Z.eqb_spec (char0 p) slash) as [E|E].
    + rewrite normalized_vfs, normalize_spec. assert (Ho : origin segs p = []) by (unfold origin; by rewrite E). unfold within, reached. rewrite Ho. fold (walk p) (shallow p). assert (fits segs p) by (right; by left). naive_solver.
    + rewrite prepend_spec by done. destruct (candidate_walk segs p Hpl Hlen E) as [Hw Hs]. case_decide as Hf; cbn [mbind option_bind]; [|naive_solver]. rewrite normalized_vfs, normalize_spec, Hw, Hs.
      assert (char0 (concat ((fun s => slash :: s) <$> segs) ++ slash :: p) = slash) by (by destruct segs). naive_solver.
Qed.

Lemma resolve_path_correct_witness :
  resolve_absolute_path (spell [lit "Users"; lit "ada"]) (Some (lit "../bob/./notes.txt")) VFS_MAX_PATH = Some (lit "/Users/bob/notes.txt").
Proof.
  apply (proj1 (resolve_path_correct [lit "Users"; lit "ada"] (lit "../bob/./notes.txt") VFS_MAX_PATH (lit "/Users/bob/notes.txt") ltac:(repeat constructor; try done; by_eval) ltac:(vm_compute; lia))).
  split; [unfold VFS_MAX_PATH; lia|]. split; [intros [|[|[|[|k]]]]; [vm_compute; lia..|rewrite take_ge by (vm_compute; lia); vm_compute; lia]|]. split; [right; right; vm_compute; lia|]. split; [vm_compute; done|vm_compute; lia].
Defined.

(** ** History *)

Import Shell DisplayProps.

(** The lines the history keeps, newest first. *)
Definition remember (lines : list cstring) (line : cstring) : list cstring :=
  if decide (line = [] ∨ head lines = Some line) then lines else take SHELL_HISTORY_CAPACITY (take (INPUT_MAX - 1) line :: lines).

Record keeps (h : history) (lines : list cstring) : Prop := {
  keeps_slots : length (shell_history h) = SHELL_HISTORY_CAPACITY;
  keeps_count : shell_history_count h = length lines;
  keeps_bound : (length lines ≤ SHELL_HISTORY_CAPACITY)%nat;
  keeps_next : (shell_history_next h < SHELL_HISTORY_CAPACITY)%nat;
  keeps_text : Forall wf_cstr lines;
  keeps_lines i : (i < length lines)%nat → shell_history h !! ((shell_history_next h + SHELL_HISTORY_CAPACITY - 1 - i) mod SHELL_HISTORY_CAPACITY)%nat = lines !! i
}.

Lemma str_equals_eq a b : wf_cstr a → wf_cstr b → shell_str_equals a b = bool_decide (a = b).
Proof.
  revert b. induction a as [|x a IH]; intros [|y b] Ha Hb; try done.
  - apply Forall_inv in Hb. cbn. rewrite (proj2 (Z.eqb_neq 0 y)) by lia. done.
  - apply Forall_inv in Ha. cbn. rewrite (proj2 (Z.eqb_neq x 0)) by lia. done.
  - apply Forall_cons in Ha as [_ Ha], Hb as [_ Hb]. cbn [shell_str_equals]. rewrite IH by done. destruct (Z.eqb_spec x y) as [->|]; [by apply bool_decide_ext; naive_solver|by rewrite bool_decide_eq_false_2 by congruence].
Qed.

Lemma keeps_get h lines i : keeps h lines → history_get_latest i h = lines !! i.
Proof.
  intros K. unfold history_get_latest. rewrite (keeps_count _ _ K). destruct (Nat.leb_spec (length lines) i); [by rewrite lookup_ge_None_2|by apply keeps_lines].
Qed.

Lemma keeps_empty : keeps no_history [].
Proof. split; try done; [vm_compute; lia..|cbn; lia]. Qed.

(** The slot before the next one has the newest line. *)
Lemma slot_before n i : (n < 32)%nat → (i < 31)%nat → (((n + 1) mod 32 + 32 - 1 - S i) mod 32)%nat = ((n + 32 - 1 - i) mod 32)%nat ∧ (((n + 1) mod 32 + 32 - 1 - S i) mod 32)%nat ≠ n.
Proof.
  intros Hn Hi. destruct (decide (n = 31)%nat) as [->|].
  - change ((31 + 1) mod 32)%nat with 0%nat. split; [|rewrite Nat.mod_small by lia; lia]. replace (31 + 32 - 1 - i)%nat with (0 + 32 - 1 - S i + 1 * 32)%nat by lia. by rewrite Nat.Div0.mod_add.
  - rewrite (Nat.mod_small (n + 1)) by lia. split; [f_equal; lia|]. destruct (decide (i < n)%nat).
    + replace (n + 1 + 32 - 1 - S i)%nat with (n - 1 - i + 1 * 32)%nat by lia. rewrite Nat.Div0.mod_add, Nat.mod_small by lia. lia.
    + rewrite Nat.mod_small by lia. lia.
Qed.

Lemma slot_newest n : (n < 32)%nat → (((n + 1) mod 32 + 32 - 1 - 0) mod 32)%nat = n.
Proof.
  intros Hn. destruct (decide (n = 31)%nat) as [->|]; [done|]. rewrite (Nat.mod_small (n + 1)) by lia. replace (n + 1 + 32 - 1 - 0)%nat with (n + 1 * 32)%nat by lia. by rewrite Nat.Div0.mod_add, Nat.mod_small.
Qed.

Lemma history_store_ok h lines line : keeps h lines → wf_cstr line → ∃ h', history_store line h = Some h' ∧ keeps h' (remember lines line).
Proof.
  intros K Hline. unfold history_store, remember. destruct (decide (line = [])) as [->|Hne]; [exists h; cbn; by rewrite decide_True by auto|].
  assert (Hc : (char0 line =? 0) = false) by (destruct line as [|c l]; [done|]; apply Forall_inv in Hline; cbn [char0]; apply Z.eqb_neq; lia). rewrite Hc, (keeps_count _ _ K).
  assert (Hlast : (if (0 <? length lines)%nat then e ← shell_history h !! ((shell_history_next h + SHELL_HISTORY_CAPACITY - 1) mod SHELL_HISTORY_CAPACITY)%nat; Some (Some e) else Some None) = Some (head lines)).
  { destruct lines as [|l lines]; [done|]. cbn [length Nat.ltb Nat.leb head]. pose proof (keeps_lines _ _ K 0 ltac:(cbn; lia)) as E. rewrite Nat.sub_0_r in E. by rewrite E. }
  rewrite Hlast. cbn [mbind option_bind]. assert (Hsame : match head lines with Some e => shell_str_equals e line | None => false end = bool_decide (head lines = Some line)).
  { pose proof (keeps_text _ _ K) as Ht. destruct lines as [|l lines]; [done|]. apply Forall_inv in Ht. cbn. rewrite str_equals_eq by done. apply bool_decide_ext. naive_solver. }
  rewrite Hsame. case_bool_decide as Hh; [exists h; by rewrite decide_True by auto|]. rewrite decide_False by naive_solver. rewrite buf_store_ok by (rewrite (keeps_slots _ _ K); apply K). cbn [mbind option_bind]. eexists. split; [done|].
  destruct K as [K1 K2 K3 K4 K5 K6]. unfold SHELL_HISTORY_CAPACITY in *. split; cbn [shell_history shell_history_count shell_history_next]; unfold SHELL_HISTORY_CAPACITY.
  - by rewrite length_insert.
  - rewrite length_take. cbn [length]. destruct (Nat.ltb_spec (length lines) 32); lia.
  - rewrite length_take. lia.
  - apply Nat.mod_upper_bound. lia.
  - apply Forall_take. constructor; [by apply Forall_take|done].
  - intros [|i] Hi.
    + rewrite slot_newest by done. rewrite list_lookup_insert_eq by lia. by rewrite lookup_take_lt by lia.
    + rewrite length_take in Hi. cbn [length] in Hi. destruct (slot_before (shell_history_next h) i ltac:(lia) ltac:(lia)) as [E Hn]. rewrite list_lookup_insert_ne by done. rewrite E, K6, lookup_take_lt by lia. done.
Qed.

(** ** The line editor *)

Lemma chars_ok l : wf_cstr l → Forall command_ok (map PutChar l).
Proof. intros H. induction H as [|c l Hc H IH]; [constructor|]. constructor; [cbn; unfold byte; lia|done]. Qed.

Section editor.
Context (lines : list cstring) (max_len : nat) (max_pos : (0 < max_len)%nat).

(** What a key means: the line, and the line of the history it was taken from. *)
Definition recall (k : nat) (st : cstring * option nat) : cstring * option nat :=
  match lines !! k with Some line => (take (max_len - 1) line, Some k) | None => st end.

Definition press (st : cstring * option nat) (c : Z) : cstring * option nat :=
  if decide (c = Input.Input.KB_KEY_ARROW_UP) then recall (match st.2 with None => 0 | Some k => Nat.min (S k) (length lines - 1) end) st
  else if decide (c = Input.Input.KB_KEY_ARROW_DOWN) then match st.2 with None => st | Some O => ([], None) | Some (S k) => recall k st end
  else if decide (c = Input.Input.KB_KEY_ARROW_LEFT ∨ c = Input.Input.KB_KEY_ARROW_RIGHT) then st
  else if decide (c = 8) then (removelast st.1, None)
  else if decide (S (length st.1) < max_len)%nat then (st.1 ++ [if decide (c = 9) then space else c], None) else st.

(** What stands on the screen behind the prompt; nothing before it is erased. *)
Definition show (text : option cstring) (c : command) : option cstring :=
  text ← text;
  match c with
  | Display.Display.PutChar c => Some (text ++ [c])
  | Display.Display.Backspace => if decide (text = []) then None else Some (removelast text)
  | _ => None
  end.

Record edits (e : editor) (st : cstring * option nat) : Prop := {
  edits_line : input e = st.1;
  edits_room : (length (input e) < max_len)%nat;
  edits_pos : history_pos e = match st.2 with None => -1 | Some k => Z.of_nat k end;
  edits_from : match st.2 with None => True | Some k => (k < length lines)%nat end;
  edits_screen : foldl show (Some []) (shown e) = Some (input e);
  edits_text : wf_cstr (input e);
  edits_calls : Forall command_ok (shown e)
}.

Lemma show_chars text l : foldl show (Some text) (map PutChar l) = Some (text ++ l).
Proof. revert text. induction l as [|c l IH]; intros text; cbn [map foldl]; [by rewrite app_nil_r|]. cbn [show mbind option_bind]. by rewrite IH, <- app_assoc. Qed.

Lemma show_erase text : foldl show (Some text) (replicate (length text) Backspace) = Some [].
Proof.
  induction text as [|c text IH] using rev_ind; [done|]. rewrite length_app, Nat.add_1_r. cbn [replicate foldl show mbind option_bind]. rewrite decide_False by (by destruct text). by rewrite removelast_last.
Qed.

Lemma replace_edits e st text sel : edits e st → wf_cstr text → match sel with None => True | Some k => (k < length lines)%nat end →
  edits (shell_replace_input max_len text (Editor (input e) (match sel with None => -1 | Some k => Z.of_nat k end) (shown e))) (take (max_len - 1) text, sel).
Proof using max_pos.
  intros [E1 E2 E3 E4 E5 E6 E7] Ht Hs. unfold shell_replace_input. cbn [input history_pos shown]. split; cbn [input history_pos shown fst snd]; try done.
  - rewrite length_take. lia.
  - by rewrite !foldl_app, E5, show_erase, show_chars.
  - by apply Forall_take.
  - rewrite !Forall_app. split; [done|]. split; [by apply Forall_replicate|]. by apply chars_ok, Forall_take.
Qed.

Context (h : history) (K : keeps h lines).

(** The entry at a place of the history replaces the line. *)
Lemma recall_edits e st k : edits e st → (k < length lines)%nat →
  edits (match history_get_latest k h with
         | Some entry => shell_replace_input max_len entry (Editor (input e) (Z.of_nat k) (shown e))
         | None => Editor (input e) (Z.of_nat k) (shown e) end) (recall k st).
Proof using max_pos K.
  intros He Hk. rewrite (keeps_get h lines k K). unfold recall. destruct (lookup_lt_is_Some_2 lines k Hk) as [line E]. rewrite E. apply (replace_edits e st line (Some k)); [done| |done].
  pose proof (keeps_text _ _ K) as Ht. by eapply Forall_lookup_1 in Ht.
Qed.

Lemma editor_eta e : Editor (input e) (history_pos e) (shown e) = e.
Proof. by destruct e. Qed.

Lemma arrow_up_edits e st : edits e st → edits (arrow_up h max_len e) (recall (match st.2 with None => 0 | Some k => Nat.min (S k) (length lines - 1) end) st).
Proof using max_pos K.
  intros He. unfold arrow_up. rewrite (keeps_count _ _ K). destruct (Nat.ltb_spec 0 (length lines)) as [Hl|Hl].
  - set (k := match st.2 with None => 0%nat | Some k => Nat.min (S k) (length lines - 1) end). assert (Hk : (k < length lines)%nat) by (unfold k; destruct (st.2); lia).
    assert (Ek : (if history_pos e + 1 <? Z.of_nat (length lines) then Editor (input e) (history_pos e + 1) (shown e) else e) = Editor (input e) (Z.of_nat k) (shown e)).
    { pose proof (edits_pos _ _ He) as E. pose proof (edits_from _ _ He) as Ef. unfold k. destruct (st.2) as [j|]; rewrite E.
      - destruct (Z.ltb_spec (Z.of_nat j + 1) (Z.of_nat (length lines))); [f_equal; lia|]. rewrite <- (editor_eta e) at 1. rewrite E. f_equal. lia.
      - by rewrite (proj2 (Z.ltb_lt _ _)) by lia. }
    rewrite Ek. cbn [history_pos]. rewrite Nat2Z.id. by apply recall_edits.
  - assert (Hn : lines = []) by (destruct lines; [done|cbn in Hl; lia]). unfold recall. by rewrite lookup_ge_None_2 by (rewrite Hn; cbn; lia).
Qed.

Lemma arrow_down_edits e st : edits e st → edits (arrow_down h max_len e) match st.2 with None => st | Some O => ([], None) | Some (S k) => recall k st end.
Proof using max_pos K.
  intros He. unfold arrow_down. rewrite (keeps_count _ _ K). pose proof (edits_pos _ _ He) as E. pose proof (edits_from _ _ He) as Ef. destruct (st.2) as [[|k]|] eqn:Es; rewrite E.
  - rewrite (proj2 (Nat.ltb_lt 0 _)) by lia. change (Z.of_nat 0) with 0. rewrite Z.leb_refl, Z.ltb_irrefl. cbn [andb]. replace ([] : cstring, None : option nat) with (take (max_len - 1) ([] : cstring), None : option nat) by (by rewrite take_nil). apply (replace_edits e st [] None); [done|constructor|done].
  - rewrite (proj2 (Nat.ltb_lt 0 _)), (proj2 (Z.leb_le 0 _)), (proj2 (Z.ltb_lt 0 _)) by lia. cbn [andb history_pos]. replace (Z.of_nat (S k) - 1) with (Z.of_nat k) by lia. rewrite Nat2Z.id. apply recall_edits; [done|lia].
  - by rewrite andb_false_r.
Qed.

Lemma type_edits e st c : edits e st → 0 < c < 256 →
  edits (if (length (input e) + 1 <? max_len)%nat then Editor (input e ++ [c]) (-1) (shown e ++ [PutChar c]) else e) (if decide (S (length st.1) < max_len)%nat then (st.1 ++ [c], None) else st).
Proof using max_pos.
  intros He Hc. rewrite (edits_line _ _ He), Nat.add_1_r. destruct (Nat.ltb_spec (S (length st.1)) max_len); [rewrite decide_True by done|by rewrite decide_False by lia].
  destruct He as [E1 E2 E3 E4 E5 E6 E7]. split; cbn [input history_pos shown fst snd]; try done.
  - rewrite length_app. cbn. lia.
  - rewrite foldl_app, E5, E1. done.
  - apply Forall_app. rewrite <- E1. split; [done|constructor; [done|constructor]].
  - apply Forall_app. split; [done|]. repeat constructor; cbn; unfold byte; lia.
Qed.

Lemma erase_edits e st : edits e st →
  edits (if (0 <? length (input e))%nat then Editor (take (length (input e) - 1) (input e)) (-1) (shown e ++ [Backspace]) else Editor (input e) (-1) (shown e)) (removelast st.1, None).
Proof using max_pos.
  intros [E1 E2 E3 E4 E5 E6 E7]. rewrite <- E1, removelast_firstn_len, <- Nat.sub_1_r. destruct (Nat.ltb_spec 0 (length (input e))) as [Hl|Hl]; split; cbn [input history_pos shown fst snd]; try done.
  - rewrite length_take. lia.
  - rewrite foldl_app, E5. cbn. rewrite decide_False by (by destruct (input e); [cbn in Hl; lia|]). by rewrite removelast_firstn_len, <- Nat.sub_1_r.
  - by apply Forall_take.
  - apply Forall_app. split; [done|]. by repeat constructor.
  - destruct (input e); [done|cbn in Hl; lia].
Qed.

Lemma edit_key_edits e st c : edits e st → 0 < c < 256 → edits (edit_key h max_len c e) (press st c).
Proof using max_pos K.
  intros He Hc. unfold edit_key, press. destruct (Z.eqb_spec c Input.Input.KB_KEY_ARROW_UP); [rewrite decide_True by done; by apply arrow_up_edits|]. rewrite decide_False by done.
  destruct (Z.eqb_spec c Input.Input.KB_KEY_ARROW_DOWN); [rewrite decide_True by done; by apply arrow_down_edits|]. rewrite decide_False by done.
  destruct (Z.eqb_spec c Input.Input.KB_KEY_ARROW_LEFT); [by rewrite decide_True by auto|]. destruct (Z.eqb_spec c Input.Input.KB_KEY_ARROW_RIGHT); [by rewrite decide_True by auto|]. rewrite decide_False by naive_solver. cbn [orb].
  destruct (Z.eqb_spec c 8); [rewrite decide_True by done; by apply erase_edits|]. rewrite decide_False by done. destruct (Z.eqb_spec c 9); [rewrite (decide_True (P := c = 9)) by done|rewrite (decide_False (P := c = 9)) by done]; by apply type_edits.
Qed.

Lemma read_keys_edits keys rest e st : edits e st → Forall (fun c => 0 < c < 256 ∧ c ≠ 10) keys →
  ∃ e', read_keys h max_len (keys ++ 10 :: rest) e = Some (input e', shown e' ++ [PutChar 10], rest) ∧ edits e' (foldl press st keys).
Proof using max_pos K.
  intros He Hk. revert e st He. induction Hk as [|c keys [Hc Hn] Hk IH]; intros e st He; cbn [app read_keys foldl]; [exists e; done|]. rewrite (proj2 (Z.eqb_neq c 10)) by done. apply IH. by apply edit_key_edits.
Qed.

End editor.

Lemma history_keeps stored h lines : keeps h lines → Forall wf_cstr stored → ∃ h', foldl (fun h line => h ← h; history_store line h) (Some h) stored = Some h' ∧ keeps h' (foldl remember lines stored).
Proof.
  intros K Hs. revert h lines K. induction Hs as [|line stored Hl Hs IH]; intros h lines K; [eauto|]. cbn [foldl mbind option_bind]. destruct (history_store_ok h lines line K Hl) as (h' & -> & K'). by apply IH.
Qed.

(** C18: The shell reads the line that its keys say and shows it.  After any lines have been
    stored, the history holds the last 32 of those that were taken in, newest first, where an
    empty line and a line equal to the one stored just before are not taken in and a line is
    cut to 255 characters; and the keys up to the end of a line give the line that they mean,
    where the arrows walk that history, backspace takes the last character away, a tab is a
    space, and a key for which there is no room does nothing.  The line has at most 255
    characters and no terminator; the calls of the display leave exactly that line behind
    the prompt, and never erase what stands before it. *)
Theorem shell_line_refines stored keys rest :
  Forall wf_cstr stored → Forall (fun c => 0 < c < 256 ∧ c ≠ 10) keys →
  let lines := foldl remember [] stored in
  let line := (foldl (press lines INPUT_MAX) ([], None) keys).1 in
  ∃ h cs, foldl (fun h line => h ← h; history_store line h) (Some no_history) stored = Some h ∧
    (∀ i, history_get_latest i h = lines !! i) ∧
    shell_read_line h INPUT_MAX (keys ++ 10 :: rest) = Some (line, cs ++ [PutChar 10], rest) ∧
    foldl show (Some []) cs = Some line ∧ Forall command_ok cs ∧ (length line < INPUT_MAX)%nat ∧ wf_cstr line.
Proof.
  intros Hs Hk lines line. destruct (history_keeps stored no_history [] keeps_empty Hs) as (h & Eh & K). destruct (read_keys_edits lines INPUT_MAX ltac:(unfold INPUT_MAX; lia) h K keys rest (Editor [] (-1) []) ([], None)) as (e & Er & He); [|done|].
  - split; cbn; try done; [unfold INPUT_MAX; lia|constructor..].
  - destruct He as [E1 E2 E3 E4 E5 E6 E7]. fold line in E1. rewrite E1 in *. exists h, (shown e). split; [done|]. split; [intros i; by apply keeps_get|]. done.
Qed.

Lemma shell_line_refines_witness :
  ∃ h cs, foldl (fun h line => h ← h; history_store line h) (Some no_history) [lit "ls"; lit "cd Users"; lit "cd Users"] = Some h ∧
    shell_read_line h INPUT_MAX ([Input.Input.KB_KEY_ARROW_UP; Input.Input.KB_KEY_ARROW_UP; 97; 8; 9; 47] ++ [10; 120]) = Some (lit "ls /", cs, [120]).
Proof.
  destruct (shell_line_refines [lit "ls"; lit "cd Users"; lit "cd Users"] [Input.Input.KB_KEY_ARROW_UP; Input.Input.KB_KEY_ARROW_UP; 97; 8; 9; 47] [120]) as (h & cs & Eh & _ & Er & _); [by_eval|repeat constructor; by_eval|].
  exists h, (cs ++ [PutChar 10]). split; [exact Eh|]. exact Er.
Defined.

End ShellProps.
