(* ===== verification/ShellRun.v ===== *)
(** The shell as a whole: with drivers that return, every line that the keys spell is
    carried out, the working directory stays canonical, and the displays show what the
    commands wrote; what one command writes into a file another one shows. *)

From S2P Require Import Prelude Arrays Bytes VfsPath Vfs Fonts Display Input ShellText Shell.
From S2P Require Import Ramfs RamfsSpec VfsSpec VfsRamfs DisplayProps ShellProps.
From S2P Require Loader FontProps Block DevicefsProps.

Module ShellRun.

Import Bytes VfsPath Vfs ShellText Shell DisplayProps ShellProps VfsRamfs.

(** ** Text *)

Section text.
Context (P : Z → Prop).

Lemma skip_spaces_all s : Forall P s → Forall P (skip_spaces s).
Proof using. intros H. induction H as [|c s Hc H IH]; [constructor|]. cbn. destruct (c =? space); [done|by constructor]. Qed.

Lemma trim_all s : Forall P s → Forall P (trim_trailing_spaces s).
Proof using.
  intros H. induction H as [|c s Hc H IH]; [constructor|]. cbn. destruct (trim_trailing_spaces s); [destruct (c =? space); repeat constructor; done|by constructor].
Qed.

Lemma scan_token_all s : Forall P s → Forall P (scan_token s).1 ∧ Forall P (scan_token s).2.
Proof using.
  intros H. induction H as [|c s Hc H [IH1 IH2]]; [by split; constructor|]. cbn. destruct (c =? space); [split; by constructor|]. destruct (scan_token s) as [t r]. split; [by constructor|done].
Qed.

Lemma find_redirect_all s : Forall P s → Forall P (find_redirect s).1 ∧ from_option (Forall P) True (find_redirect s).2.
Proof using.
  intros H. induction H as [|c s Hc H [IH1 IH2]]; [by split; constructor|]. cbn. destruct (c =? 62); [split; [constructor|done]|]. destruct (find_redirect s) as [b a]. split; [by constructor|done].
Qed.

Lemma listing_lines_all s line : Forall P s → Forall P line → Forall (Forall P) (listing_lines s line).
Proof using.
  intros H. revert line. induction H as [|c s Hc H IH]; intros line Hl; cbn; [destruct line; repeat constructor; by inversion Hl|]. destruct (c =? newline); [constructor; [done|]; apply IH; constructor|]. apply IH. apply Forall_app. split; [done|by constructor].
Qed.

Lemma copy_token_all s n t : Forall P s → shell_copy_token s n = Some t → Forall P t.
Proof using. intros H. unfold shell_copy_token. destruct (scan_token_all s H) as [H1 _]. destruct (scan_token s) as [t' r]. destruct (_ <=? _)%nat; [by intros [= <-]|done]. Qed.

Lemma one_argument_all s n t more : Forall P s → one_argument s n = Some (t, more) → Forall P t.
Proof using. intros H. unfold one_argument. destruct (scan_token_all s H) as [H1 _]. destruct (scan_token s) as [t' r]. destruct (_ <=? _)%nat; [by intros [= <- _]|done]. Qed.

Lemma buffer_line_all max l : Forall (Forall P) l → Forall P (buffer_line max l).
Proof using.
  intros H. unfold buffer_line. generalize (Forall_nil_2 P). generalize (@nil Z). induction H as [|t l Ht H IH]; intros d Hd; [done|]. cbn [foldl]. apply IH. unfold buffer_append. apply Forall_app. split; [done|]. by apply Forall_take.
Qed.

End text.

Lemma lit_bytes s : bytes (lit s).
Proof.
  induction s as [|a s IH]; [constructor|]. cbn. constructor; [|done]. unfold byte. pose proof (Ascii.N_ascii_bounded a). lia.
Qed.

Lemma wf_bytes s : wf_cstr s → bytes s.
Proof. intros H. eapply Forall_impl; [exact H|]. intros c Hc. cbn in Hc. unfold byte. lia. Qed.

Lemma text_ok b : bytes b → (∃ t, Loader.Loader.text b = Some t ∧ wf_cstr t) ∨ (0 ∉ b).
Proof.
  intros H. induction H as [|c b Hc H IH]; [right; set_solver|]. cbn. destruct (Z.eqb_spec c 0) as [->|Hn]; [left; eexists; split; [done|constructor]|].
  destruct IH as [(t & -> & Ht)|Hn']; [left|right; set_solver]. eexists. split; [done|]. constructor; [unfold byte in Hc; lia|done].
Qed.

Lemma text_app t r : wf_cstr t → Loader.Loader.text (t ++ 0 :: r) = Some t.
Proof. intros H. induction H as [|c t Hc H IH]; [done|]. cbn [app Loader.Loader.text]. rewrite (proj2 (Z.eqb_neq c 0)), IH by lia. done. Qed.

Lemma number_bytes v : 0 ≤ v < 4294967296 → bytes (write_u64 v).
Proof.
  intros Hv. rewrite write_u64_decimal by done. eapply Forall_impl; [apply FontProps.FontProps.decimal_digits|]. intros c Hc. cbn in Hc. unfold byte, Fonts.digit in *. lia.
Qed.

Lemma tree_line_bytes depth name d : bytes name → bytes (tree_line depth name d).
Proof.
  intros Hn. unfold tree_line. assert (Hb : ∀ k l, bytes l → bytes (tree_bars k l)).
  { intros k. induction k as [|k IH]; intros l Hl; [done|]. cbn [tree_bars]. destruct (_ <=? _)%nat; [done|]. apply IH, Forall_app. split; [done|apply lit_bytes]. }
  pose proof (Hb depth [] (Forall_nil_2 byte)) as H0. set (bars := tree_bars depth []) in *. assert (H1 : bytes (if (length bars + 3 <? 160)%nat then bars ++ lit "+- " else bars)) by (destruct (_ <? _)%nat; [apply Forall_app; split; [done|apply lit_bytes]|done]).
  set (l1 := if (length bars + 3 <? 160)%nat then bars ++ lit "+- " else bars) in *. assert (H2 : bytes (l1 ++ take (159 - length l1) name)) by (apply Forall_app; split; [done|by apply Forall_take]).
  destruct (_ && _); [|done]. apply Forall_app. split; [done|]. repeat constructor; unfold byte, slash; lia.
Qed.

Lemma normalized_wf p n r : wf_cstr p → normalized p n = Some r →
  wf_cstr r ∧ ∃ segs, r = spell segs ∧ Forall plain segs ∧ (length segs ≤ MAX_SEGMENTS)%nat ∧ (length r < n)%nat.
Proof.
  intros Hp. rewrite normalized_vfs. intros (_ & _ & Hs & -> & Hl)%normalize_spec. split; [by apply VfsSpec.spell_wf, VfsSpec.walk_wf|]. exists (walk p). split; [done|]. split; [apply walk_plain|]. split; [by apply shallow_depth|done].
Qed.

Lemma prepend_wf dir name c : wf_cstr dir → wf_cstr name → prepend dir name = Some c → wf_cstr c.
Proof.
  intros Hd Hn. unfold prepend. destruct (_ =? 0)%nat; [done|]. assert (Hs : wf_cstr [slash]) by by_eval. intros (d & Ed & E)%bind_Some. destruct (VFS_MAX_PATH <=? length d + length name)%nat; [done|]. injection E as <-. apply Forall_app. split; [|done].
  destruct (_ && _); [injection Ed as <-; done|]. destruct (_ <=? _)%nat; [done|]. injection Ed as <-. destruct (_ =? _); [done|]. destruct (_ <? _)%nat; [by apply Forall_app|done].
Qed.

Lemma resolve_wf c input n r : wf_cstr c → from_option wf_cstr True input → resolve_absolute_path c input n = Some r →
  wf_cstr r ∧ ∃ segs, r = spell segs ∧ Forall plain segs ∧ (length segs ≤ MAX_SEGMENTS)%nat ∧ (length r < n)%nat.
Proof.
  intros Hc Hi. unfold resolve_absolute_path. destruct (_ <? _)%nat; [done|]. destruct input as [[|x i]|]; [by apply normalized_wf| |by apply normalized_wf]. destruct (_ =? _); [by apply normalized_wf|].
  intros (q & Eq & E)%bind_Some. apply normalized_wf in E; [done|]. by eapply prepend_wf in Eq.
Qed.

Lemma join_paths_wf parent name n r : wf_cstr parent → wf_cstr name → shell_join_paths parent name n = Some r → wf_cstr r.
Proof.
  intros Hp Hn. unfold shell_join_paths. destruct (_ <? _)%nat; [done|]. destruct (_ =? _)%nat; [done|]. assert (Hs : wf_cstr [slash]) by by_eval. intros (d & Ed & E)%bind_Some. destruct (VFS_MAX_PATH <=? length d + length name)%nat; [done|]. apply normalized_wf in E; [by destruct E|]. apply Forall_app. split; [|done].
  destruct (_ && _); [injection Ed as <-; done|]. destruct (_ <=? _)%nat; [done|]. destruct (_ =? _); [injection Ed as <-; done|]. destruct (_ <=? _)%nat; [done|]. injection Ed as <-. by apply Forall_app.
Qed.

(** The keys up to the end of the next line. *)
Lemma keys_split keys : Forall (fun c => 0 < c < 256) keys → (10 ∉ keys) ∨ ∃ pre rest, keys = pre ++ 10 :: rest ∧ Forall (fun c => 0 < c < 256 ∧ c ≠ 10) pre ∧ Forall (fun c => 0 < c < 256) rest.
Proof.
  intros H. induction H as [|c keys Hc H [IH|(pre & rest & -> & Hp & Hr)]]; [left; set_solver| |].
  - destruct (decide (c = 10)) as [->|]; [right; by exists [], keys|left; set_solver].
  - right. destruct (decide (c = 10)) as [->|]; [exists [], (pre ++ 10 :: rest)|exists (c :: pre), rest]; split; try done. split; [by constructor|done].
Qed.

Lemma read_keys_open h n keys e : (10 ∉ keys) → read_keys h n keys e = None.
Proof.
  revert e. induction keys as [|c keys IH]; intros e Hn; [done|]. apply not_elem_of_cons in Hn as [Hc Hn]. cbn [read_keys]. rewrite (proj2 (Z.eqb_neq c 10)) by done. by apply IH.
Qed.

(** ** The interface of the drivers *)

(** The data of an operation are bytes. *)
Definition op_bytes (o : file_op) : Prop := match o with FWrite d | FAppend d => bytes (default [] d) | _ => True end.

Section session.
Context {W Ctx : Type}.

(** What the shell needs of the file system of a mount: the calls return, keep its state
    in order and the lengths of the buffers, and a listing with text in it is terminated. *)
Class FileDriver (inv : W → Prop) (ops : vfs_fs_ops W Ctx) (ctx : Ctx) : Prop := {
  drv_list f w rel buffer :
    op_list ops = Some f → inv w → wf_cstr rel → bytes buffer → (0 < length buffer)%nat →
    ∃ r b w', f w ctx rel buffer = Some (r, b, w') ∧ inv w' ∧ length b = length buffer ∧ bytes b ∧ (0 < r → 0 ∈ b);
  drv_read f w rel buffer :
    op_read ops = Some f → inv w → wf_cstr rel → bytes buffer → (0 < length buffer)%nat →
    ∃ r b w', f w ctx rel buffer = Some (r, b, w') ∧ inv w' ∧ length b = length buffer ∧ bytes b;
  drv_do w rel o :
    inv w → RamfsSpec.wf_op (abstract_op o rel) → op_bytes o →
    ∃ r w', call_op ops ctx w rel o = Some (r, w') ∧ inv w'
}.

Context (inv : W → Prop).

Definition drivers (v : vfs W Ctx) : Prop := ∀ i m, VfsSpec.mounted (mount_table v) i m → ∃ ops, m_ops m = Some ops ∧ FileDriver inv ops (m_ctx m).

(** Where a path leads, a driver answers. *)
Lemma locate_driver v path i rel : VfsSpec.wf v → drivers v → wf_cstr path → locate v path = Some (i, rel) →
  ∃ m ops, VfsSpec.mounted (mount_table v) i m ∧ m_ops m = Some ops ∧ FileDriver inv ops (m_ctx m) ∧ wf_cstr rel.
Proof.
  intros Hv Hd Hp Hl. destruct (VfsSpec.locate_routes v path i rel Hv Hp Hl) as (m & rs & (Hm & Hdest & _) & _ & -> & _). destruct (Hd i m Hm) as (ops & Ho & Hdrv). exists m, ops. do 3 (split; [done|]).
  apply VfsSpec.join_wf. pose proof (VfsSpec.walk_wf _ (VfsSpec.apply_alias_wf v path VFS_MAX_PATH Hv Hp)) as Hw. change (Forall wf_cstr (VfsSpec.destination v path)) in Hw. rewrite Hdest in Hw. by apply Forall_app in Hw as [_ ?].
Qed.

Lemma list_ok v w path buffer : VfsSpec.wf v → drivers v → inv w → wf_cstr path → bytes buffer → (0 < length buffer)%nat →
  ∃ r b w', vfs_list v w (Some path) (Some buffer) = Some (r, b, w') ∧ inv w' ∧ length b = length buffer ∧ bytes b ∧ (0 < r → 0 ∈ b).
Proof.
  intros Hv Hd Hw Hp Hb Hl. unfold vfs_list, dispatch. rewrite (proj2 (Nat.eqb_neq _ 0)) by lia. assert (Hp' : wf_cstr (if char0 path =? 0 then [slash] else path)) by (destruct (_ =? 0); [by_eval|done]).
  destruct (locate v _) as [[i rel]|] eqn:El; [|do 3 eexists; split_and!; [done..|lia]]. destruct (locate_driver v _ i rel Hv Hd Hp' El) as (m & ops & Hm & Ho & Hdrv & Hrel). rewrite (VfsSpec.mount_op_mounted v i m _ Hm), Ho. cbn [mbind option_bind].
  destruct (op_list ops) as [f|] eqn:Ef; cbn [mbind option_bind]; [|do 3 eexists; split_and!; [done..|lia]]. by apply (drv_list f w rel buffer).
Qed.

Lemma do_ok v w path o : VfsSpec.wf v → drivers v → inv w → wf_cstr path → op_bytes o → Z.of_nat (length match o with FWrite d | FAppend d => default [] d | _ => [] end) < 4294967296 - 1024 →
  ∃ r w', vfs_do v w path o = Some (r, w') ∧ inv w'.
Proof.
  intros Hv Hd Hw Hp Hb Hsize. destruct (locate v path) as [[i rel]|] eqn:El.
  - destruct (locate_driver v path i rel Hv Hd Hp El) as (m & ops & Hm & Ho & Hdrv & Hrel). rewrite (vfs_do_call v w path o i rel m ops) by done. apply drv_do; [done| |done]. by destruct o.
  - exists (-1), w. split; [|done]. destruct o; cbn; unfold vfs_write_file, vfs_append, vfs_write_internal, vfs_remove, vfs_mkdir, dispatch; by rewrite El.
Qed.

(** ** The machine *)

Context (stack : nat → list Z) (other : cstring → cstring → list command * W → vfs W Ctx → option (list command * W * vfs W Ctx)).

(** Arrays on the stack have their lengths and hold bytes; the commands that are not about
    files, [reboot] and [shutdown] apart, return, and leave the file systems and the calls
    of the display in order. *)
Hypothesis stack_ok : ∀ n, length (stack n) = n ∧ bytes (stack n).
Hypothesis other_ok : ∀ name args cs w v, name ≠ lit "reboot" → name ≠ lit "shutdown" → wf_cstr args → Forall command_ok cs → inv w → VfsSpec.wf v → drivers v →
  ∃ cs' w' v', other name args (cs, w) v = Some (cs', w', v') ∧ Forall command_ok cs' ∧ inv w' ∧ VfsSpec.wf v' ∧ drivers v'.

Abbreviation shell := (@Shell.shell W Ctx).
Implicit Types m : shell.

(** The working directory is the canonical spelling of a directory, with its terminator,
    in a buffer of its size. *)
Definition cwd_is (segs : list cstring) m : Prop :=
  (∃ t, cwd m = spell segs ++ 0 :: t) ∧ length (cwd m) = VFS_MAX_PATH ∧ Forall plain segs ∧ (length segs ≤ MAX_SEGMENTS)%nat ∧ wf_cstr (spell segs).

Record shell_ok m : Prop := {
  ok_hist : ∃ lines, keeps (hist m) lines;
  ok_cwd : ∃ segs, cwd_is segs m;
  ok_files : VfsSpec.wf (files m);
  ok_drivers : drivers (files m);
  ok_world : inv (world m);
  ok_calls : Forall command_ok (calls m)
}.

(** A command comes to its end. *)
Definition ends (r : option shell) : Prop := ∃ m, r = Some m ∧ shell_ok m.

Lemma ends_Some m : shell_ok m → ends (Some m).
Proof using. intros H. by exists m. Qed.

Lemma emit_ok cs m : shell_ok m → Forall command_ok cs → shell_ok (emit cs m).
Proof using. intros [] Hc. split; cbn; try done. by apply Forall_app. Qed.

Lemma say_ok s m : shell_ok m → shell_ok (say s m).
Proof using. intros H. apply emit_ok; [done|]. repeat constructor. apply lit_bytes. Qed.

Lemma shell_line_ok t m : shell_ok m → bytes t → shell_ok (emit [Line t] m).
Proof using. intros H Ht. apply emit_ok; [done|]. by repeat constructor. Qed.

Lemma world_ok w m : shell_ok m → inv w → shell_ok (set_world w m).
Proof using. intros [] Hw. by split. Qed.

Lemma cwd_text segs m : cwd_is segs m → shell_cwd m = Some (spell segs).
Proof using. intros ((t & E) & _ & _ & _ & Hw). unfold shell_cwd. rewrite E. by apply text_app. Qed.

Lemma list_files_ok path n m : shell_ok m → wf_cstr path → (0 < n)%nat →
  ∃ r b m', list_files stack path n m = Some (r, b, m') ∧ shell_ok m' ∧ (0 < r → ∃ t, Loader.Loader.text b = Some t ∧ wf_cstr t).
Proof using stack_ok.
  intros Hm Hp Hn. destruct (stack_ok n) as [Hl Hb]. destruct (list_ok (files m) (world m) path (stack n)) as (r & b & w & E & Hw & _ & Hbb & Hz); [apply Hm..|done|done|lia|].
  unfold list_files. rewrite E. exists r, b, (set_world w m). split; [done|]. split; [by apply world_ok|]. intros Hr. destruct (text_ok b Hbb) as [Ht|Ht]; [done|]. by destruct Ht; apply Hz.
Qed.

Lemma open_file_ok path m : shell_ok m → wf_cstr path → shell_ok (open_file path m).2.
Proof using.
  intros Hm Hp. unfold open_file. destruct (vfs_open (files m) (Some path)) as [fd v] eqn:E. pose proof (VfsSpec.open_wf _ path fd v (ok_files _ Hm) Hp E) as Hv. apply VfsSpec.vfs_open_spec in E as [[_ ->]|(k & old & i & rel & _ & _ & _ & _ & _ & ->)]; [|destruct Hm; by split|apply Hm|done]. destruct Hm; by split.
Qed.

Lemma close_file_ok fd m : shell_ok m → shell_ok (close_file fd m).
Proof using.
  intros Hm. unfold close_file. destruct (vfs_close (files m) fd) as [r v] eqn:E. pose proof (VfsSpec.close_wf _ fd r v (ok_files _ Hm) E) as Hv. unfold vfs_close in E. destruct (get_handle _ _); injection E as <- <-; destruct Hm; by split.
Qed.

Lemma not_listed_ok path d s m : shell_ok m → wf_cstr path → shell_ok (not_listed path d s m).
Proof using.
  intros Hm Hp. unfold not_listed. pose proof (open_file_ok path m Hm Hp) as Ho. destruct (open_file path m) as [fd m1]. destruct (0 <=? fd); [by apply say_ok, close_file_ok|by apply say_ok].
Qed.

Lemma shell_resolve_ok input n m : shell_ok m → from_option wf_cstr True input →
  ∃ o, resolve input n m = Some o ∧ ∀ r, o = Some r → wf_cstr r ∧ ∃ segs, r = spell segs ∧ Forall plain segs ∧ (length segs ≤ MAX_SEGMENTS)%nat ∧ (length r < n)%nat.
Proof using.
  intros Hm Hi. destruct (ok_cwd _ Hm) as [segs Hc]. unfold resolve. rewrite (cwd_text segs m Hc). cbn [mbind option_bind]. eexists. split; [done|]. intros r E. eapply resolve_wf; [|exact Hi|exact E]. apply Hc.
Qed.

Lemma do_file_ok path o m : shell_ok m → wf_cstr path → op_bytes o → (length match o with FWrite d | FAppend d => default [] d | _ => [] end < 1024)%nat →
  ∃ r w, vfs_do (files m) (world m) path o = Some (r, w) ∧ shell_ok (set_world w m).
Proof using.
  intros Hm Hp Ho Hl. destruct (do_ok (files m) (world m) path o) as (r & w & E & Hw); [apply Hm..|done|done|lia|]. exists r, w. split; [done|]. by apply world_ok.
Qed.

(** ** Commands *)

Lemma chars_clear s c : wf_cstr s → char0 s = c → c = 0 → s = [].
Proof using. intros H. destruct s as [|x s]; [done|]. apply Forall_inv in H. cbn in *. lia. Qed.

Lemma echo_ends args m : shell_ok m → wf_cstr args → ends (command_echo args m).
Proof using.
  intros Hm Ha. unfold command_echo. pose proof (skip_spaces_all _ args Ha) as Hs. set (s := skip_spaces args) in *. destruct (char0 s =? 0); [by apply ends_Some, say_ok|].
  destruct (find_redirect_all _ s Hs) as [Hb Ha']. destruct (find_redirect s) as [before [redirect|]]; cbn in Hb, Ha'; [|by apply ends_Some, shell_line_ok, wf_bytes].
  assert (Hf : wf_cstr (trim_trailing_spaces (skip_spaces redirect))) by (by apply trim_all, skip_spaces_all). assert (Ht : wf_cstr (trim_trailing_spaces before)) by (by apply trim_all). set (name := trim_trailing_spaces (skip_spaces redirect)) in *. set (text := trim_trailing_spaces before) in *.
  destruct (char0 name =? 0); [by apply ends_Some, say_ok|]. destruct (Nat.leb_spec INPUT_MAX (length text + 2)) as [|Hl]; [by apply ends_Some, say_ok|]. unfold INPUT_MAX in Hl.
  destruct (shell_resolve_ok (Some name) VFS_MAX_PATH m Hm Hf) as (o & -> & Ho). cbn [mbind option_bind]. destruct o as [target|]; [|by apply ends_Some, say_ok]. destruct (Ho target eq_refl) as [Hw _].
  destruct (do_file_ok target (FAppend (Some (text ++ [newline]))) m Hm Hw) as (r & w & E & Hm').
  - cbn. apply Forall_app. split; [by apply wf_bytes|]. repeat constructor; unfold newline; lia.
  - cbn. rewrite length_app. cbn. lia.
  - change (vfs_append (files m) (world m) (Some target) (Some (text ++ [newline]))) with (vfs_do (files m) (world m) target (FAppend (Some (text ++ [newline])))). rewrite E. cbn [mbind option_bind]. destruct (r <? 0); by apply ends_Some, say_ok.
Qed.

Lemma lines_ok (l : list cstring) m : shell_ok m → Forall bytes l → shell_ok (emit (map Line l) m).
Proof using. intros Hm Hl. apply emit_ok; [done|]. by induction Hl; constructor. Qed.

(** The argument of [ls] and [tree]: a message or a path. *)
Lemma argument_ok trimmed (here : cstring) (e1 e2 e3 : string) m : shell_ok m → wf_cstr trimmed → wf_cstr here →
  ∃ t, (if char0 trimmed =? 0 then Some (inr here)
        else match one_argument trimmed VFS_MAX_PATH with
             | None => Some (inl e1)
             | Some (path, more) => if (more : bool) then Some (inl e2) else resolved ← resolve (Some path) VFS_MAX_PATH m; Some (match resolved with None => inl e3 | Some p => inr p end)
             end) = Some t ∧ match t with inl _ => True | inr p => wf_cstr p end.
Proof using.
  intros Hm Ht Hh. destruct (char0 trimmed =? 0); [by eexists|]. destruct (one_argument trimmed VFS_MAX_PATH) as [[path more]|] eqn:E; [|by eexists]. apply (one_argument_all _ _ _ _ _ Ht) in E. destruct more; [by eexists|].
  destruct (shell_resolve_ok (Some path) VFS_MAX_PATH m Hm E) as (o & -> & Ho). cbn [mbind option_bind]. eexists. split; [done|]. destruct o as [p|]; [|done]. by apply Ho.
Qed.

Lemma ls_ends args m : shell_ok m → wf_cstr args → ends (command_ls stack args m).
Proof using stack_ok.
  intros Hm Ha. unfold command_ls. destruct (ok_cwd _ Hm) as [segs Hc]. rewrite (cwd_text segs m Hc). cbn [mbind option_bind].
  destruct (argument_ok (skip_spaces args) (spell segs) "ls: path too long" "ls: too many arguments" "ls: invalid path" m Hm) as (t & E & Ht); [by apply skip_spaces_all|apply Hc|]. cbn [mbind option_bind] in E. rewrite E. cbn [mbind option_bind].
  destruct t as [message|target]; [by apply ends_Some, say_ok|]. destruct (list_files_ok target 512 m Hm Ht ltac:(lia)) as (r & b & m' & -> & Hm' & Hr). cbn [mbind option_bind]. destruct (Z.ltb_spec r 0); [by apply ends_Some, say_ok|]. destruct (Z.eqb_spec r 0); [by apply ends_Some, say_ok|].
  destruct Hr as (text & -> & Htext); [lia|]. cbn [mbind option_bind]. apply ends_Some, lines_ok; [done|]. by apply listing_lines_all; [apply wf_bytes|constructor].
Qed.

Lemma entry_of_wf e : wf_cstr e → wf_cstr (entry_of e).1.
Proof using. intros H. unfold entry_of. destruct (_ && _); [by apply Forall_take|done]. Qed.

(** The loop over the entries of a directory, for any way to go on in directories. *)
Lemma entries_end (visit : cstring → cstring → bool → shell → option shell) path entries m :
  (∀ absolute name d m, shell_ok m → wf_cstr absolute → wf_cstr name → ends (visit absolute name d m)) →
  shell_ok m → wf_cstr path → Forall wf_cstr entries →
  ends (foldl (fun r entry => m ← r; let '(name, is_dir) := entry_of entry in
    if (length name =? 0)%nat then Some m else match shell_join_paths path name VFS_MAX_PATH with None => Some m | Some absolute => visit absolute name is_dir m end) (Some m) entries).
Proof using.
  intros Hv Hm Hp He. revert m Hm. induction He as [|e entries He Hes IH]; intros m Hm; [by apply ends_Some|]. cbn [foldl mbind option_bind]. pose proof (entry_of_wf e He) as Hn. destruct (entry_of e) as [name d]. cbn in Hn.
  destruct (_ =? 0)%nat; [by apply IH|]. destruct (shell_join_paths path name VFS_MAX_PATH) as [absolute|] eqn:Ej; [|by apply IH]. apply join_paths_wf in Ej; [|done..]. destruct (Hv absolute name d m Hm Ej Hn) as (m' & -> & Hm'). by apply IH.
Qed.

Lemma inline_pos : (0 < VFS_INLINE_CAP)%nat.
Proof using. apply Nat.ltb_lt. vm_compute. done. Qed.

Lemma tree_walk_ends n path depth m : shell_ok m → wf_cstr path → ends (shell_tree_walk stack n path depth m).
Proof using stack_ok.
  revert path depth m. induction n as [|n IH]; intros path depth m Hm Hp; cbn [shell_tree_walk].
  all: destruct (list_files_ok path VFS_INLINE_CAP m Hm Hp inline_pos) as (r & b & m' & -> & Hm' & Hr); cbn [mbind option_bind]; destruct (Z.leb_spec r 0); [by apply ends_Some|]; destruct Hr as (text & -> & Htext); [lia|]; cbn [mbind option_bind].
  - apply (entries_end (fun absolute name is_dir m => let m := emit [Line (tree_line depth name is_dir)] m in if negb is_dir then Some m else Some (emit [Line (tree_line (S depth) (lit "...") false)] m))); [|done|done|by apply listing_lines_all; [|constructor]].
    intros absolute name d m1 H1 Ha Hn. assert (shell_ok (emit [Line (tree_line depth name d)] m1)) by (by apply shell_line_ok, tree_line_bytes, wf_bytes). cbn zeta. destruct d; cbn [negb]; apply ends_Some; [apply shell_line_ok; [done|apply tree_line_bytes, lit_bytes]|done].
  - apply (entries_end (fun absolute name is_dir m => let m := emit [Line (tree_line depth name is_dir)] m in if negb is_dir then Some m else shell_tree_walk stack n absolute (S depth) m)); [|done|done|by apply listing_lines_all; [|constructor]].
    intros absolute name d m1 H1 Ha Hn. assert (shell_ok (emit [Line (tree_line depth name d)] m1)) by (by apply shell_line_ok, tree_line_bytes, wf_bytes). cbn zeta. destruct d; cbn [negb]; [by apply IH|by apply ends_Some].
Qed.

Lemma tree_ends args m : shell_ok m → wf_cstr args → ends (command_tree stack args m).
Proof using stack_ok.
  intros Hm Ha. unfold command_tree. destruct (shell_resolve_ok None VFS_MAX_PATH m Hm I) as (o & -> & Ho). cbn [mbind option_bind]. destruct o as [here|]; [|by apply ends_Some, say_ok]. destruct (Ho here eq_refl) as [Hh _].
  destruct (argument_ok (skip_spaces args) here "tree: path too long" "Usage: tree [path]" "tree: invalid path" m Hm) as (t & E & Ht); [by apply skip_spaces_all|done|]. rewrite E. cbn [mbind option_bind].
  destruct t as [message|target]; [by apply ends_Some, say_ok|]. destruct (list_files_ok target 64 m Hm Ht ltac:(lia)) as (r & b & m' & -> & Hm' & _). cbn [mbind option_bind]. destruct (r <? 0); [by apply ends_Some, not_listed_ok|].
  pose proof (shell_line_ok target m' Hm' (wf_bytes _ Ht)). destruct (0 <? r); [by apply tree_walk_ends|by apply ends_Some].
Qed.

(** Reading through a descriptor that has just been opened. *)
Lemma read_open_ok path m buffer : shell_ok m → wf_cstr path → bytes buffer → (0 < length buffer)%nat → 0 ≤ (open_file path m).1 →
  ∃ r b w, vfs_read (files (open_file path m).2) (world (open_file path m).2) (open_file path m).1 (Some buffer) = Some (r, b, w) ∧ inv w ∧ length b = length buffer ∧ bytes b.
Proof using.
  intros Hm Hp Hb Hl Hfd. pose proof (open_file_ok path m Hm Hp) as Ho. unfold open_file in *. destruct (vfs_open (files m) (Some path)) as [fd v] eqn:E. cbn in Hfd, Ho |- *.
  destruct (VfsSpec.vfs_open_spec _ path fd v (ok_files _ Hm) Hp E) as [[-> _]|(k & old & i & rel & -> & Hold & _ & El & _ & Ev)]; [lia|]. destruct (locate_driver (files m) path i rel (ok_files _ Hm) (ok_drivers _ Hm) Hp El) as (mt & ops & Hmt & Hops & Hdrv & Hrel).
  set (h := {| h_used := true; h_mount := Some i; relative := rel |}) in *. assert (Hh : get_handle v (Z.of_nat k) = Some h).
  { apply VfsSpec.get_handle_Some; [apply Ho|]. apply lookup_lt_Some in Hold. pose proof (VfsSpec.wf_open_len _ (ok_files _ Hm)) as Hlen. rewrite Nat2Z.id. split; [lia|]. split; [|done]. rewrite Ev. by apply list_lookup_insert_eq. }
  assert (Hmv : VfsSpec.mounted (mount_table v) i mt) by (by rewrite Ev). unfold vfs_read. rewrite (proj2 (Nat.eqb_neq _ 0)) by lia. rewrite (VfsSpec.handle_mount_op v _ h i mt _ Hh eq_refl Hmv), Hops. cbn [mbind option_bind].
  destruct (op_read ops) as [f|] eqn:Ef; cbn [mbind option_bind]; [|do 3 eexists; split_and!; [done|apply Hm|done..]]. apply (drv_read f (world m) rel buffer); try done. apply Hm.
Qed.

Lemma inline_split : bytes (take (VFS_INLINE_CAP - 1) (stack VFS_INLINE_CAP)) ∧ length (take (VFS_INLINE_CAP - 1) (stack VFS_INLINE_CAP)) = (VFS_INLINE_CAP - 1)%nat ∧ length (drop (VFS_INLINE_CAP - 1) (stack VFS_INLINE_CAP)) = 1%nat ∧ bytes (drop (VFS_INLINE_CAP - 1) (stack VFS_INLINE_CAP)).
Proof using stack_ok.
  destruct (stack_ok VFS_INLINE_CAP) as [Hl Hb]. pose proof inline_pos. split; [by apply Forall_take|]. split; [rewrite length_take; lia|]. split; [rewrite length_drop; lia|by apply Forall_drop].
Qed.

Lemma inline_two : (1 < VFS_INLINE_CAP)%nat.
Proof using. apply Nat.ltb_lt. vm_compute. done. Qed.

Lemma cat_ends arg m : shell_ok m → wf_cstr arg → ends (command_cat stack arg m).
Proof using stack_ok.
  intros Hm Ha. unfold command_cat. pose proof (skip_spaces_all _ arg Ha) as Hs. destruct (char0 (skip_spaces arg) =? 0); [by apply ends_Some, say_ok|]. destruct (scan_token_all _ _ Hs) as [Ht _].
  destruct (shell_resolve_ok (Some (take (VFS_NODE_NAME_MAX - 1) (scan_token (skip_spaces arg)).1)) VFS_MAX_PATH m Hm) as (o & -> & Ho); [by apply Forall_take|]. cbn [mbind option_bind]. destruct o as [target|]; [|by apply ends_Some, say_ok]. destruct (Ho target eq_refl) as [Hw _].
  destruct inline_split as (Hb & Hl & Hl1 & Hb1). pose proof inline_two as H2. pose proof (read_open_ok target m _ Hm Hw Hb ltac:(lia)) as Hr. pose proof (open_file_ok target m Hm Hw) as Hop. destruct (open_file target m) as [fd m1]. cbn [fst snd] in Hr, Hop.
  destruct (Z.ltb_spec fd 0); [by apply ends_Some, say_ok|]. destruct (Hr ltac:(lia)) as (r & b & w & -> & Hinv & Hlb & Hbb). cbn [mbind option_bind]. assert (Hm' : shell_ok (close_file fd (set_world w m1))) by (by apply close_file_ok, world_ok).
  destruct (Z.ltb_spec r 0); [by apply ends_Some, say_ok|]. set (k := Z.to_nat _). assert (Hk : (k < VFS_INLINE_CAP)%nat) by (unfold k; destruct (Z.leb_spec (Z.of_nat VFS_INLINE_CAP) r); lia).
  rewrite buf_store_ok by (rewrite length_app; lia). cbn [mbind option_bind]. destruct (text_ok (<[k:=0]> (b ++ drop (VFS_INLINE_CAP - 1) (stack VFS_INLINE_CAP)))) as [(t & -> & Htt)|Hn].
  - apply Forall_insert; [by apply Forall_app|unfold byte; lia].
  - cbn [mbind option_bind]. by apply ends_Some, shell_line_ok, wf_bytes.
  - destruct Hn. eapply list_elem_of_lookup_2, list_lookup_insert_eq. rewrite length_app. lia.
Qed.

(** A directory becomes the working directory. *)
Lemma set_cwd_ok segs m : shell_ok m → Forall plain segs → (length segs ≤ MAX_SEGMENTS)%nat → wf_cstr (spell segs) → (length (spell segs) < VFS_MAX_PATH)%nat →
  ∃ m', shell_set_cwd (spell segs) m = Some m' ∧ shell_ok m' ∧ cwd_is segs m'.
Proof using.
  intros Hm Hpl Hl Hw Hlen. assert (E : normalized (spell segs) VFS_MAX_PATH = Some (spell segs)).
  { rewrite normalized_vfs. apply normalize_spec. rewrite walk_spell by done. split; [unfold VFS_MAX_PATH; lia|]. split; [apply char0_spell|]. split; [by apply shallow_spell|done]. }
  unfold normalized in E. unfold shell_set_cwd. destruct (shell_normalize_absolute _ _) as [[] out]; [|done]. injection E as ->. destruct (ok_cwd _ Hm) as (segs0 & _ & Hc & _).
  rewrite buf_copy_ok by (rewrite length_app, Hc; cbn; lia). cbn [mbind option_bind take app]. assert (Hcwd : cwd_is segs (set_cwd ((spell segs ++ [0]) ++ drop (0 + length (spell segs ++ [0])) (cwd m)) m)).
  { split; [eexists; cbn [cwd set_cwd]; by rewrite <- app_assoc|]. split; [|done]. cbn [cwd set_cwd]. rewrite length_app, length_drop, length_app, Hc. cbn [length Nat.add]. lia. }
  eexists. split; [done|]. split; [|done]. destruct Hm. split; try done. by exists segs.
Qed.

Lemma cd_ends args m : shell_ok m → wf_cstr args → ends (command_cd stack args m).
Proof using stack_ok.
  intros Hm Ha. unfold command_cd. pose proof (skip_spaces_all _ args Ha) as Hs. destruct (char0 _ =? 0).
  { destruct (ok_cwd _ Hm) as [segs Hc]. rewrite (cwd_text segs m Hc). cbn [mbind option_bind]. apply ends_Some, shell_line_ok; [done|]. apply wf_bytes, Hc. }
  destruct (one_argument (skip_spaces args) VFS_MAX_PATH) as [[path more]|] eqn:E; [|by apply ends_Some, say_ok]. apply (one_argument_all _ _ _ _ _ Hs) in E. destruct more; [by apply ends_Some, say_ok|].
  destruct (shell_resolve_ok (Some path) VFS_MAX_PATH m Hm E) as (o & -> & Ho). cbn [mbind option_bind]. destruct o as [p|]; [|by apply ends_Some, say_ok]. destruct (Ho p eq_refl) as (Hw & segs & -> & Hpl & Hl & Hlen).
  destruct (list_files_ok (spell segs) 64 m Hm Hw ltac:(lia)) as (r & b & m' & -> & Hm' & _). cbn [mbind option_bind]. destruct (r <? 0); [by apply ends_Some, not_listed_ok|]. destruct (set_cwd_ok segs m' Hm' Hpl Hl Hw Hlen) as (m2 & -> & H2 & _). by apply ends_Some.
Qed.

Lemma scan_segment_bytes s : bytes s → bytes (scan_segment s).1 ∧ bytes (scan_segment s).2.
Proof using.
  intros H. induction H as [|c s Hc H [IH1 IH2]]; [by split; constructor|]. cbn. destruct (c =? slash); [split; by constructor|]. destruct (scan_segment s) as [t r]. split; [by constructor|done].
Qed.

Lemma tail_bytes s : bytes s → bytes (tail s).
Proof using. intros H. destruct H; [constructor|done]. Qed.

Lemma skip_slash_bytes s : bytes s → bytes (if char0 s =? slash then tail s else s).
Proof using. intros H. destruct (_ =? _); [by apply tail_bytes|done]. Qed.

Lemma location_bytes c n k : bytes c → bytes (shell_describe_location c n k).1 ∧ bytes (shell_describe_location c n k).2.
Proof using.
  intros Hc. unfold shell_describe_location. assert (Hroot : bytes (if (1 <? k)%nat then [slash] else [])) by (destruct (1 <? k)%nat; [repeat constructor; unfold slash; lia|constructor]). destruct (_ =? 0); [by split; constructor|]. destruct (shell_str_equals c [slash]); [split; [apply Forall_take, lit_bytes|done]|].
  assert (Hrel : ∀ s, bytes s → bytes (relative_of s k)).
  { intros s Hs. unfold relative_of. assert (bytes (if char0 s =? slash then tail s else s)) by (by apply skip_slash_bytes). destruct (1 <? k)%nat; [constructor; [unfold byte, slash; lia|by apply Forall_take]|constructor]. }
  assert (Hs : bytes (if char0 c =? slash then tail c else c)) by (by apply skip_slash_bytes). destruct (scan_segment_bytes _ Hs) as [H1 H2]. destruct (scan_segment _) as [first after]. cbn in H1, H2. destruct (_ =? 0)%nat; [by split; constructor|].
  destruct (segment_equals _ _); [|split; [by apply Forall_take|by apply Hrel]]. assert (Ha : bytes (if char0 after =? slash then tail after else after)) by (by apply skip_slash_bytes). destruct (char0 _ =? 0); [split; [apply Forall_take, lit_bytes|done]|].
  destruct (scan_segment_bytes _ Ha) as [H3 H4]. destruct (scan_segment _) as [second rest]. split; [by apply Forall_take|by apply Hrel].
Qed.

Lemma whereami_ends m : shell_ok m → ends (command_whereami m).
Proof using.
  intros Hm. unfold command_whereami. destruct (ok_cwd _ Hm) as [segs Hc]. rewrite (cwd_text segs m Hc). cbn [mbind option_bind]. assert (Hb : bytes (spell segs)) by apply wf_bytes, Hc. destruct (location_bytes (spell segs) 32 VFS_MAX_PATH Hb) as [Hv Hr].
  destruct (shell_describe_location _ _ _) as [volume rel]. cbn in Hv, Hr. apply ends_Some, shell_line_ok; [done|]. apply buffer_line_all. apply Forall_cons_2; [apply lit_bytes|]. apply Forall_cons_2; [|apply Forall_cons_2; [apply lit_bytes|apply Forall_cons_2; [|constructor]]].
  - destruct (char0 volume =? 0); [apply lit_bytes|done].
  - destruct (char0 rel =? 0); [destruct (_ =? 0); [repeat constructor; unfold slash; lia|done]|done].
Qed.

Lemma on_path_ends name (act : cstring → shell → option shell) args m :
  (∀ path m, shell_ok m → wf_cstr path → ends (act path m)) → shell_ok m → wf_cstr args → ends (on_path name act args m).
Proof using.
  intros Hact Hm Ha. unfold on_path. pose proof (skip_spaces_all _ args Ha) as Hs. destruct (char0 _ =? 0); [by apply ends_Some, say_ok|]. destruct (shell_copy_token _ _) as [t|] eqn:E; [|by apply ends_Some, say_ok]. apply (copy_token_all _ _ _ _ Hs) in E. destruct (negb _); [by apply ends_Some, say_ok|].
  destruct (shell_resolve_ok (Some t) VFS_MAX_PATH m Hm E) as (o & -> & Ho). cbn [mbind option_bind]. destruct o as [p|]; [|by apply ends_Some, say_ok]. apply Hact; [done|]. by apply Ho.
Qed.

Lemma mkdir_ends args m : shell_ok m → wf_cstr args → ends (command_mkdir args m).
Proof using.
  apply on_path_ends. intros path m1 Hm Hp. destruct (do_file_ok path FMkdir m1 Hm Hp I) as (r & w & E & Hw); [cbn; lia|]. cbn [vfs_do] in E. rewrite E. cbn [mbind option_bind]. by apply ends_Some, say_ok.
Qed.

Lemma rm_ends args m : shell_ok m → wf_cstr args → ends (command_rm args m).
Proof using.
  apply on_path_ends. intros path m1 Hm Hp. destruct (do_file_ok path FRemove m1 Hm Hp I) as (r & w & E & Hw); [cbn; lia|]. cbn [vfs_do] in E. rewrite E. cbn [mbind option_bind]. by apply ends_Some, say_ok.
Qed.

Lemma touch_ends args m : shell_ok m → wf_cstr args → ends (command_touch stack args m).
Proof using stack_ok.
  apply on_path_ends. intros path m1 Hm Hp. pose proof (open_file_ok path m1 Hm Hp) as Ho. destruct (open_file path m1) as [fd m2]. cbn in Ho. destruct (0 <=? fd); [by apply ends_Some, say_ok, close_file_ok|].
  destruct (list_files_ok path 16 m2 Ho Hp ltac:(lia)) as (r & b & m3 & -> & Hm3 & _). cbn [mbind option_bind]. destruct (0 <=? r); [by apply ends_Some, say_ok|]. destruct (do_file_ok path (FWrite None) m3 Hm3 Hp) as (r' & w & E & Hw); [constructor|cbn; lia|]. cbn [vfs_do] in E. rewrite E. cbn [mbind option_bind]. by apply ends_Some, say_ok.
Qed.

Lemma nth_mount_point (mounts : list (vfs_mount W Ctx)) seen i mt : Forall VfsSpec.wf_mount mounts → nth_mount mounts seen i = Some mt → wf_cstr (mount_point mt).
Proof using.
  intros H. revert seen. induction H as [|x mounts Hx H IH]; intros seen; [done|]. cbn [nth_mount]. destruct (m_used x) eqn:Hu; cbn [negb]; [|apply IH]. destruct (_ =? _)%nat; [intros [= <-]|apply IH]. by destruct (Hx Hu) as (_ & _ & ? & _).
Qed.

Lemma mount_path_ok m i : shell_ok m →
  ∃ r b, vfs_mount_path_at (files m) i (Some (stack VFS_MAX_PATH)) = Some (r, b) ∧ (r < 0 ∨ ∃ t, Loader.Loader.text b = Some t ∧ wf_cstr t).
Proof using stack_ok.
  intros Hm. destruct (stack_ok VFS_MAX_PATH) as [Hl Hb]. unfold vfs_mount_path_at. rewrite Hl. cbn [Nat.eqb VFS_MAX_PATH]. destruct (nth_mount _ _ _) as [mt|] eqn:E; [|do 2 eexists; split; [done|left; lia]]. apply nth_mount_point in E; [|apply (ok_files _ Hm)].
  set (len := if (_ <=? _)%nat then _ else _). assert (Hlen : (len < 128)%nat ∧ (len ≤ length (mount_point mt))%nat) by (unfold len; change VFS_MAX_PATH with 128%nat; destruct (Nat.leb_spec 128 (length (mount_point mt))); lia). change VFS_MAX_PATH with 128%nat in *.
  change (128 =? 0)%nat with false. cbn iota. rewrite buf_copy_ok by (rewrite length_take, Hl; lia). cbn [mbind option_bind]. rewrite take_0, app_nil_l. rewrite buf_store_ok by (rewrite length_app, length_drop, length_take, Hl; lia). cbn [mbind option_bind]. do 2 eexists. split; [done|]. right.
  match goal with |- ∃ t, Loader.Loader.text ?b = _ ∧ _ => destruct (text_ok b) as [?|Hn] end; [|done|].
  - apply Forall_insert; [|unfold byte; lia]. apply Forall_app. split; [by apply Forall_take, wf_bytes|by apply Forall_drop].
  - destruct Hn. eapply list_elem_of_lookup_2, list_lookup_insert_eq. rewrite length_app, length_drop, length_take, Hl. lia.
Qed.

Lemma mount_lines_ok n i m : shell_ok m → (i + n ≤ VFS_MAX_MOUNTS)%nat → ∃ l, mount_lines stack n i m = Some l ∧ Forall bytes l.
Proof using stack_ok.
  intros Hm. revert i. induction n as [|n IH]; intros i Hi; [by eexists|]. cbn [mount_lines]. destruct (mount_path_ok m i Hm) as (r & b & -> & Hr). cbn [mbind option_bind]. destruct (IH (S i) ltac:(lia)) as (l & -> & Hl). cbn [mbind option_bind].
  destruct (Z.ltb_spec r 0); [by eexists|]. destruct Hr as [|(t & -> & Ht)]; [lia|]. cbn [mbind option_bind]. eexists. split; [done|]. constructor; [|done]. unfold VFS_MAX_MOUNTS in Hi. apply buffer_line_all.
  apply Forall_cons_2; [apply number_bytes; lia|]. apply Forall_cons_2; [apply lit_bytes|]. apply Forall_cons_2; [by apply wf_bytes|constructor].
Qed.

Lemma mount_ends args m : shell_ok m → ends (command_mount stack args m).
Proof using stack_ok.
  intros Hm. unfold command_mount. destruct (negb _); [by apply ends_Some, say_ok|]. destruct (_ =? 0)%nat; [by apply ends_Some, say_ok|]. destruct (mount_lines_ok (vfs_mount_count (files m)) 0 m Hm) as (l & -> & Hl).
  - unfold vfs_mount_count. etrans; [apply length_filter|]. by rewrite (VfsSpec.wf_mounts_len _ (ok_files _ Hm)).
  - cbn [mbind option_bind]. by apply ends_Some, lines_ok.
Qed.

Lemma other_ends name args m : shell_ok m → wf_cstr args → lit name ≠ lit "reboot" → lit name ≠ lit "shutdown" → ends (other_command other name args m).
Proof using other_ok.
  intros Hm Ha Hr Hs. unfold other_command. destruct (other_ok (lit name) args (calls m) (world m) (files m) Hr Hs Ha) as (cs & w & v & -> & Hc & Hw & Hv & Hd); [apply Hm..|]. cbn [mbind option_bind]. apply ends_Some. destruct Hm. by split.
Qed.

Lemma help_ok m : shell_ok m → shell_ok (command_help m).
Proof using. intros Hm. apply emit_ok; [done|]. apply Forall_forall. intros c (s & -> & _)%list_elem_of_fmap. apply lit_bytes. Qed.

(** Each command comes to its end. *)
Local Ltac command := first
  [ by apply ends_Some | by apply ends_Some, help_ok | by apply ls_ends | by apply tree_ends | by apply cd_ends | by apply whereami_ends | by apply cat_ends | by apply mkdir_ends | by apply touch_ends
  | by apply rm_ends | by apply mount_ends | by apply echo_ends | by apply other_ends; [..|by_eval|by_eval] | by apply ends_Some, say_ok | by apply ends_Some, emit_ok; [|repeat constructor] ].

(** The lines that end the session. *)
Definition stops (line : cstring) : bool :=
  let cursor := trim_trailing_spaces (skip_spaces line) in shell_str_equals cursor (lit "reboot") || shell_str_equals cursor (lit "shutdown").

Lemma execute_ends line m : shell_ok m → wf_cstr line → stops line = false → ends (shell_execute stack other line m).
Proof using stack_ok other_ok.
  intros Hm Hl [Hreb Hshut]%orb_false_iff. unfold shell_execute. cbv zeta. assert (Hc : wf_cstr (trim_trailing_spaces (skip_spaces line))) by (by apply trim_all, skip_spaces_all). set (cursor := trim_trailing_spaces (skip_spaces line)) in *. assert (Hd : ∀ k, wf_cstr (drop k cursor)) by (intros k; by apply Forall_drop). assert (Hn : wf_cstr []) by constructor.
  clearbody cursor. rewrite Hreb, Hshut.
  repeat match goal with |- ends (if ?b then _ else _) => destruct b; [by command|] end. command.
Qed.

Lemma prompt_ends m : shell_ok m → ends (shell_render_prompt m).
Proof using.
  intros Hm. destruct (ok_cwd _ Hm) as [segs Hc]. unfold shell_render_prompt. rewrite (cwd_text segs m Hc). cbn [mbind option_bind]. apply ends_Some, emit_ok; [done|]. pose proof (wf_bytes _ (proj2 (proj2 (proj2 (proj2 Hc))))) as Hb.
  apply Forall_cons_2; [cbn; unfold byte; lia|]. apply Forall_cons_2; [apply lit_bytes|]. apply Forall_cons_2; [cbn; destruct (_ =? 0); [repeat constructor; unfold slash; lia|done]|]. apply Forall_cons_2; [apply lit_bytes|]. apply Forall_cons_2; [cbn; unfold byte; lia|constructor].
Qed.

Lemma prompt_hist m m1 : shell_render_prompt m = Some m1 → hist m1 = hist m.
Proof using. unfold shell_render_prompt. intros (c & _ & E)%bind_Some. by injection E as <-. Qed.

(** The line that the keys complete next. *)
Definition next_line (keys : list Z) m : option cstring := '(line, _, _) ← shell_read_line (hist m) INPUT_MAX keys; Some line.

(** The next line ends the session. *)
Definition stopping (keys : list Z) m : Prop := ∃ line, next_line keys m = Some line ∧ stops line = true.

Lemma round_ends keys m : shell_ok m → Forall (fun c => 0 < c < 256) keys →
  ((10 ∉ keys) ∧ shell_round stack other keys m = Some None) ∨ stopping keys m ∨
  ∃ rest m', shell_round stack other keys m = Some (Some (rest, m')) ∧ shell_ok m' ∧ (length rest < length keys)%nat ∧ Forall (fun c => 0 < c < 256) rest.
Proof using stack_ok other_ok.
  intros Hm Hk. unfold shell_round. destruct (prompt_ends m Hm) as (m1 & E1 & H1). pose proof (prompt_hist m m1 E1) as Eh. rewrite E1. cbn [mbind option_bind]. destruct (keys_split keys Hk) as [Hn|(pre & rest & -> & Hp & Hr)]; [left; split; [done|]; unfold shell_read_line; by rewrite read_keys_open|right].
  destruct (ok_hist _ H1) as (lines & K). destruct (read_keys_edits lines INPUT_MAX ltac:(unfold INPUT_MAX; lia) (hist m1) K pre rest (Editor [] (-1) []) ([], None)) as (e & Er & He); [split; cbn; try done; [unfold INPUT_MAX; lia|constructor..]|done|].
  unfold stopping, next_line. rewrite <- Eh. unfold shell_read_line. rewrite Er. destruct (stops (input e)) eqn:Estop; [left; by exists (input e)|right]. assert (Hcs : Forall command_ok (shown e ++ [PutChar 10])) by (apply Forall_app; split; [apply He|repeat constructor; unfold byte; lia]). pose proof (emit_ok _ m1 H1 Hcs) as H2. set (m2 := emit _ m1) in *.
  assert (Hh : ∃ h, (if (0 <? length (input e))%nat then history_store (input e) (hist m2) else Some (hist m2)) = Some h ∧ shell_ok (set_hist h m2)).
  { change (hist m2) with (hist m1). destruct (0 <? _)%nat.
    - destruct (history_store_ok (hist m1) lines (input e) K (edits_text _ _ _ _ He)) as (h & -> & K'). exists h. split; [done|]. destruct H2. split; try done. by eexists.
    - exists (hist m1). split; [done|]. destruct H2. by split. }
  destruct Hh as (h & -> & H3). cbn [mbind option_bind]. destruct (execute_ends (input e) (set_hist h m2) H3 (edits_text _ _ _ _ He) Estop) as (m' & -> & H'). cbn [mbind option_bind]. exists rest, m'. do 2 (split; [done|]). split; [rewrite length_app; cbn; lia|done].
Qed.

(** [k] rounds of the loop. *)
Fixpoint shell_rounds (k : nat) (keys : list Z) m : option (list Z * shell) :=
  match k with
  | O => Some (keys, m)
  | S k' => r ← shell_round stack other keys m; match r with None => None | Some (keys, m) => shell_rounds k' keys m end
  end.

Lemma loop_ends n keys m : shell_ok m → Forall (fun c => 0 < c < 256) keys → (length keys < n)%nat →
  ∃ k rest m', shell_rounds k keys m = Some (rest, m') ∧ shell_ok m' ∧
    ((10 ∉ rest) ∧ shell_loop stack other n keys m = Some (rest, m') ∨ stopping rest m').
Proof using stack_ok other_ok.
  revert keys m. induction n as [|n IH]; intros keys m Hm Hk Hn; [lia|]. cbn [shell_loop]. destruct (round_ends keys m Hm Hk) as [[Hno E]|[Hst|(rest & m' & E & Hm' & Hlt & Hr)]].
  - exists 0%nat, keys, m. rewrite E. split; [done|]. split; [done|]. by left.
  - exists 0%nat, keys, m. split; [done|]. split; [done|]. by right.
  - destruct (IH rest m' Hm' Hr ltac:(lia)) as (k & rest' & m'' & E' & H'). exists (S k), rest', m''. cbn [shell_rounds]. by rewrite E.
Qed.

(** The machine before [shell_run]. *)
Record shell_fresh m : Prop := {
  fresh_hist : hist m = no_history;
  fresh_cwd : length (cwd m) = VFS_MAX_PATH;
  fresh_files : VfsSpec.wf (files m);
  fresh_drivers : drivers (files m);
  fresh_world : inv (world m);
  fresh_calls : calls m = []
}.

Lemma shell_start_ok m : shell_fresh m → ∃ m', shell_start m = Some m' ∧ shell_ok m' ∧ cwd_is [] m'.
Proof using.
  intros [Hh Hc Hf Hd Hw Hcalls]. unfold shell_start. rewrite buf_copy_ok by (rewrite Hc; unfold VFS_MAX_PATH; cbn; lia). cbn [mbind option_bind]. rewrite take_0, app_nil_l. set (b := [slash; 0] ++ _). assert (Hb : cwd_is [] (set_cwd b m)).
  { split; [by eexists|]. split; [cbn [cwd set_cwd]; unfold b; rewrite length_app, length_drop, Hc; unfold VFS_MAX_PATH; cbn; lia|]. split; [constructor|]. split; [cbn; lia|by_eval]. }
  eexists. split; [done|]. split; [|done]. split; cbn; try done; [exists []; rewrite Hh; apply keeps_empty|by exists []|by rewrite Hcalls].
Qed.

(** C16: The shell never stops in the middle.  Given tables of the file system in order,
    drivers that return, arrays on the stack that are as large as the code says, and
    commands that are not about files which, [reboot] and [shutdown] apart, return and leave
    the tables, the drivers' state and the calls of the display in order, the shell carries
    out one line after the other that the keys complete, until it waits for the rest of a
    line or the next line is [reboot] or [shutdown]; its working directory is then still the
    canonical spelling of a directory with a terminator inside its buffer, its history and
    the tables of the file system are in order, and everything it wrote are calls that the
    display takes. *)
Theorem shell_run_completes keys m :
  shell_fresh m → Forall (fun c => 0 < c < 256) keys →
  ∃ m1 k rest m', shell_start m = Some m1 ∧ shell_rounds k keys m1 = Some (rest, m') ∧ shell_ok m' ∧
    ((10 ∉ rest) ∧ shell_run stack other keys m = Some (rest, m') ∨ stopping rest m').
Proof using stack_ok other_ok.
  intros Hm Hk. destruct (shell_start_ok m Hm) as (m1 & E1 & H1 & _). unfold shell_run. rewrite E1. cbn [mbind option_bind].
  destruct (loop_ends (S (length keys)) keys m1 H1 Hk ltac:(lia)) as (k & rest & m' & H). by exists m1, k, rest, m'.
Qed.

End session.

End ShellRun.
