(* ===== verification/ShellFiles.v ===== *)
(** The shell on the RAM file systems: the drivers of the volumes are of the kind the
    shell needs, so that it runs on the tree the kernel boots with; what [echo] appends to
    a file [cat] shows; and what [touch] does. *)

From S2P Require Import Prelude Arrays Bytes VfsPath Vfs Fonts Display Input ShellText Shell.
From S2P Require Import Ramfs RamfsSpec VfsSpec VfsRamfs DisplayProps ShellProps ShellRun.
From S2P Require Loader Block.

Module ShellFiles.

Import Bytes VfsPath Ramfs Vfs ShellText Shell DisplayProps ShellProps ShellRun VfsRamfs.

(** ** The volumes *)

(** The contents of files are bytes. *)
Definition node_bytes (n : RamfsSpec.node) : Prop := match n with RamfsSpec.File c => bytes c | RamfsSpec.Dir => True end.
Definition fs_bytes (m : RamfsSpec.fs) : Prop := map_Forall (fun _ => node_bytes) m.

Lemma create_bytes m p n m' : fs_bytes m → node_bytes n → RamfsSpec.spec_create m p n = Some m' → fs_bytes m'.
Proof.
  intros Hm Hn. unfold RamfsSpec.spec_create. repeat case_match; try done; intros [= <-]; try done; by apply map_Forall_insert_2.
Qed.

Lemma exec_bytes m p o r m' : fs_bytes m → op_bytes o → RamfsSpec.spec_exec m (abstract_op o p) = (r, m') → fs_bytes m'.
Proof.
  intros Hm Ho. assert (Hnil : node_bytes (RamfsSpec.File [])) by constructor. destruct o as [d|d| |]; cbn.
  - unfold RamfsSpec.spec_write. destruct (RamfsSpec.spec_create _ _ _) as [m1|] eqn:E; [|by intros [= _ <-]]. intros [= _ <-]. apply map_Forall_insert_2; [by apply Forall_take|by eapply create_bytes].
  - destruct d as [d|]; [|by intros [= _ <-]]. unfold RamfsSpec.spec_append. destruct (_ =? 0)%nat; [by intros [= _ <-]|]. destruct (RamfsSpec.spec_create _ _ _) as [m1|] eqn:E; [|by intros [= _ <-]]. pose proof (create_bytes _ _ _ _ Hm Hnil E) as H1.
    destruct (m1 !! p) as [[|c]|] eqn:Ec; [by intros [= _ <-]| |by intros [= _ <-]]. destruct (_ <=? _)%nat; [by intros [= _ <-]|]. intros [= _ <-]. apply map_Forall_insert_2; [|done]. apply Forall_app. split; [exact (map_Forall_lookup_1 _ _ _ _ H1 Ec)|done].
  - unfold RamfsSpec.spec_remove. destruct (negb _); [by intros [= _ <-]|]. destruct (m !! p) as [[|c]|]; [|intros [= _ <-]|by intros [= _ <-]].
    + intros [= _ <-]. intros k n [Hk _]%map_lookup_filter_Some. exact (map_Forall_lookup_1 _ _ _ _ Hm Hk).
    + by apply map_Forall_delete.
  - unfold RamfsSpec.spec_mkdir. destruct (RamfsSpec.spec_create _ _ _) as [m1|] eqn:E; intros [= _ <-]; [|done]. eapply create_bytes; [exact Hm| |exact E]; done.
Qed.

Lemma children_bytes v dir s : RamfsSpec.wf v → s ∈ RamfsSpec.children v (str_len dir =? 0)%nat dir → wf_cstr dir → bytes s.
Proof.
  intros Hv Hs Hd. apply RamfsSpec.children_spec in Hs as (c & n & -> & _ & (i & e & He & Hn & _)%RamfsSpec.abs_lookup); [|done..]. destruct (RamfsSpec.used_wf v i e Hv He) as [_ Hw]. rewrite Hn in Hw. apply Forall_app. split.
  - unfold RamfsSpec.child_path in Hw. destruct dir; [by apply wf_bytes|]. apply Forall_app in Hw as [_ Hw]. apply Forall_inv_tail in Hw. by apply wf_bytes.
  - destruct n; [repeat constructor; unfold slash; lia|constructor].
Qed.

Lemma volume_list_ok v dir buffer : RamfsSpec.wf v → wf_cstr dir → bytes buffer → (0 < length buffer)%nat →
  ∃ r b, ramfs_volume_list v (Some dir) (Some buffer) = Some (r, b) ∧ length b = length buffer ∧ bytes b ∧ (0 < r → 0 ∈ b).
Proof.
  intros Hv Hd Hb Hl. unfold ramfs_volume_list. rewrite (proj2 (Nat.eqb_neq _ 0)) by lia. cbn [default from_option id]. destruct (negb _); [do 2 eexists; split_and!; [done..|lia]|].
  destruct (RamfsSpec.list_loop_spec v (str_len dir =? 0)%nat dir buffer 0 Hl) as (k & -> & Hlen & _). cbn [mbind option_bind]. rewrite take_0, app_nil_l, Nat.add_0_l in *. set (out := RamfsSpec.render _) in *. set (n := if (0 <? length out)%nat then (length out - 1)%nat else length out).
  assert (Hn : (n < length (out ++ drop (length out) buffer))%nat) by (rewrite length_app, length_drop; unfold n; destruct (0 <? _)%nat; lia). rewrite buf_store_ok by done. cbn [mbind option_bind]. do 2 eexists. split; [done|]. split; [rewrite length_insert, length_app, length_drop; lia|]. split.
  - apply Forall_insert; [|unfold byte; lia]. apply Forall_app. split; [|by apply Forall_drop]. unfold out, RamfsSpec.render. apply Forall_concat, Forall_fmap, Forall_forall. intros s Hs. apply Forall_app. split; [|repeat constructor; unfold newline; lia].
    eapply children_bytes; [done| |done]. by apply elem_of_take in Hs as (j & Hs & _); eapply list_elem_of_lookup_2.
  - intros _. eapply list_elem_of_lookup_2. by apply list_lookup_insert_eq.
Qed.

Section ramfs.
Context {W Ctx : Type} `{!HasRamfs W Ctx}.
Implicit Types w : W.

Definition volumes_ok w : Prop := ∀ id, RamfsSpec.wf (get_volume w id) ∧ fs_bytes (RamfsSpec.abs (get_volume w id)).

(** The adapters of the RAM file systems are drivers of the kind the shell needs. *)
#[export] Instance ramfs_driver (id : volume_id) : FileDriver volumes_ok (ramfs_ops (W := W) (Ctx := Ctx)) (volume_ctx id).
Proof.
  split.
  - intros f w rel buffer [= <-] Hw Hrel Hb Hl. unfold ramfs_list_adapter. rewrite as_volume_ctx. destruct (volume_list_ok (get_volume w id) rel buffer) as (r & b & -> & H1 & H2 & H3); [apply Hw|done..|]. cbn [mbind option_bind]. by exists r, b, w.
  - intros f w rel buffer [= <-] Hw Hrel Hb Hl. unfold ramfs_read_adapter. rewrite as_volume_ctx. destruct (char0 rel =? 0); [by do 3 eexists|]. rewrite RamfsSpec.read_spec by (done || apply Hw). cbn [mbind option_bind].
    destruct (RamfsSpec.abs (get_volume w id) !! rel) as [[|c]|] eqn:E; cbn [mbind option_bind]; do 3 eexists; (split; [done|]); (split; [done|]); try done. pose proof (map_Forall_lookup_1 _ _ _ _ (proj2 (Hw id)) E) as Hc. cbn in Hc. split; [rewrite length_app, length_take; cbn [length]; rewrite length_drop; lia|].
    apply Forall_app. split; [by apply Forall_take|]. constructor; [unfold byte; lia|by apply Forall_drop].
  - intros w rel o Hw Ho Hb. destruct (ramfs_call_refines id w rel o (proj1 (Hw id)) Ho) as (r & w' & E & Hw' & Hs & Hj). exists r, w'. split; [done|]. intros j. destruct (decide (j = id)) as [->|Hne]; [|rewrite Hj by done; apply Hw]. split; [done|]. eapply exec_bytes; [apply (Hw id)|exact Hb|exact Hs].
Qed.

(** A mount without operations answers every call. *)
Lemma no_ops_driver (ctx : Ctx) : FileDriver volumes_ok {| op_list := None; op_read := None; op_write := None; op_remove := None; op_mkdir := None |} ctx.
Proof. split; [done..|]. intros w rel o Hw _ _. exists (-1), w. by destruct o. Qed.

End ramfs.

(** ** Writing and showing a file *)

(** Text that a line carries as it is. *)
Definition trimmed (s : cstring) : Prop := s ≠ [] ∧ head s ≠ Some space ∧ last s ≠ Some space.

Lemma skip_id s : head s ≠ Some space → skip_spaces s = s.
Proof. destruct s as [|c s]; [done|]. intros H. cbn in *. by rewrite (proj2 (Z.eqb_neq c space)) by congruence. Qed.

Lemma trim_step s c : trim_trailing_spaces (s ++ [c]) = if c =? space then trim_trailing_spaces s else s ++ [c].
Proof.
  induction s as [|x s IH]; [done|]. cbn [app trim_trailing_spaces]. rewrite IH. destruct (c =? space); [done|]. by destruct s.
Qed.

Lemma trim_id s : last s ≠ Some space → trim_trailing_spaces s = s.
Proof.
  destruct s as [|c s _] using rev_ind; [done|]. rewrite last_snoc, trim_step. intros H. by rewrite (proj2 (Z.eqb_neq c space)) by congruence.
Qed.

Lemma find_redirect_at before after : (62 ∉ before) → find_redirect (before ++ 62 :: after) = (before, Some after).
Proof.
  induction before as [|c before IH]; intros Hn; [done|]. apply not_elem_of_cons in Hn as [Hc Hn]. cbn [app find_redirect]. by rewrite (proj2 (Z.eqb_neq c 62)), IH by done.
Qed.

Lemma scan_token_id s : (space ∉ s) → scan_token s = (s, []).
Proof.
  induction s as [|c s IH]; intros Hn; [done|]. apply not_elem_of_cons in Hn as [Hc Hn]. cbn [scan_token]. by rewrite (proj2 (Z.eqb_neq c space)), IH by done.
Qed.

Lemma char0_not_nil s : wf_cstr s → s ≠ [] → (char0 s =? 0) = false.
Proof. intros H Hn. destruct s as [|c s]; [done|]. apply Forall_inv in H. apply Z.eqb_neq. cbn. lia. Qed.

(** What a file holds; a file that does not exist holds nothing. *)
Definition content (m : RamfsSpec.fs) (p : cstring) : list Z := match m !! p with Some (RamfsSpec.File c) => c | _ => [] end.

Lemma append_content m p b r m' : RamfsSpec.spec_append m p b = (r, m') → 0 ≤ r → m' !! p = Some (RamfsSpec.File (content m p ++ b)) ∧ (length (content m p ++ b) < 1024)%nat.
Proof.
  unfold RamfsSpec.spec_append. destruct (_ =? 0)%nat; [intros [= <- _]; lia|]. destruct (RamfsSpec.spec_create m p (RamfsSpec.File [])) as [m1|] eqn:E; [|intros [= <- _]; lia]. assert (Hc : content m1 p = content m p).
  { unfold RamfsSpec.spec_create in E. destruct (negb _); [done|]. unfold content. destruct (m !! p) as [[|c]|] eqn:Em; [done|by injection E as <-; rewrite Em|]. destruct (_ && _); [|done]. injection E as <-. by rewrite lookup_insert_eq. }
  unfold content at 1 in Hc. destruct (m1 !! p) as [[|c]|] eqn:Ec; [intros [= <- _]; lia| |intros [= <- _]; lia]. destruct (Nat.leb_spec 1024 (length c + length b)); [intros [= <- _]; lia|]. intros [= _ <-] _. rewrite lookup_insert_eq, <- Hc. split; [done|]. rewrite length_app. lia.
Qed.

Section commands.
Context {W Ctx : Type} (stack : nat → list Z) (other : cstring → cstring → list command * W → vfs W Ctx → option (list command * W * vfs W Ctx)).
Hypothesis stack_ok : ∀ n, length (stack n) = n ∧ bytes (stack n).
Abbreviation shell := (@Shell.shell W Ctx).
Implicit Types m : shell.

(** The line [echo text > name]. *)
Lemma execute_echo text name m : wf_cstr text → wf_cstr name → trimmed text → trimmed name → (62 ∉ text) →
  shell_execute stack other (lit "echo " ++ text ++ lit " > " ++ name) m = command_echo (space :: text ++ space :: 62 :: space :: name) m.
Proof.
  intros Ht Hn Htt Hnn Hg. unfold shell_execute. cbv zeta. rewrite (skip_id (lit "echo " ++ _)) by done. rewrite trim_id; [done|]. change (lit " > ") with [space; 62; space]. rewrite !last_app. destruct Hnn as (Hne & _ & Hl). destruct (last name) eqn:E; [congruence|]. by destruct name using rev_ind; [|rewrite last_snoc in E].
Qed.

Lemma execute_cat name m : trimmed name → shell_execute stack other (lit "cat " ++ name) m = command_cat stack (space :: name) m.
Proof.
  intros (Hne & _ & Hl). unfold shell_execute. cbv zeta. rewrite (skip_id (lit "cat " ++ _)) by done. rewrite trim_id; [done|]. rewrite last_app. destruct (last name) eqn:E; [congruence|]. by destruct name using rev_ind; [|rewrite last_snoc in E].
Qed.

Lemma echo_appends text name target segs m : wf_cstr text → wf_cstr name → trimmed text → trimmed name → (62 ∉ text) → (length text + 2 < INPUT_MAX)%nat → cwd_is segs m →
  resolve_absolute_path (spell segs) (Some name) VFS_MAX_PATH = Some target →
  command_echo (space :: text ++ space :: 62 :: space :: name) m =
    '(r, w) ← vfs_do (files m) (world m) target (FAppend (Some (text ++ [newline]))); Some (if r <? 0 then say "Write failed." (set_world w m) else say "OK" (set_world w m)).
Proof.
  intros Ht Hn Htt Hnn Hg Hlen Hc Hres. unfold command_echo. change (skip_spaces (space :: ?s)) with (skip_spaces s). destruct Htt as (Ht1 & Ht2 & Ht3), Hnn as (Hn1 & Hn2 & Hn3). rewrite skip_id by (by destruct text). rewrite char0_not_nil; [|apply Forall_app; split; [done|]; repeat (constructor; [unfold space; lia|]); done|by destruct text].
  replace (text ++ space :: 62 :: space :: name) with ((text ++ [space]) ++ 62 :: space :: name) by (by rewrite <- app_assoc). rewrite find_redirect_at by (rewrite elem_of_app, list_elem_of_singleton; unfold space; naive_solver lia).
  change (skip_spaces (space :: name)) with (skip_spaces name). rewrite (skip_id name), (trim_id name), trim_step, Z.eqb_refl, (trim_id text), char0_not_nil by done. rewrite (proj2 (Nat.leb_gt _ _)) by lia.
  unfold resolve. rewrite (cwd_text segs m Hc). cbn [mbind option_bind]. rewrite Hres. done.
Qed.

Lemma open_free (v : vfs W Ctx) path i rel mt ops : VfsSpec.wf v → wf_cstr path → locate v path = Some (i, rel) → VfsSpec.mounted (mount_table v) i mt → m_ops mt = Some ops → is_Some (op_read ops) →
  Exists (fun h => h_used h = false) (open_table v) →
  ∃ k, vfs_open v (Some path) = (Z.of_nat k, set_open (<[k := {| h_used := true; h_mount := Some i; relative := rel |}]> (open_table v)) v) ∧ (k < length (open_table v))%nat.
Proof using.
  intros Hv Hp Hl [Hm Hu] Ho Hr Hfree. destruct (VfsSpec.locate_routes v path i rel Hv Hp Hl) as (_ & _ & _ & _ & _ & Hlen). unfold vfs_open. rewrite Hl, Hm. cbn [mbind option_bind]. rewrite Ho, bool_decide_eq_true_2 by done. cbn [negb andb].
  destruct (first_index (fun h => negb (h_used h)) (open_table v)) as [k|] eqn:Ef.
  - rewrite (proj2 (Nat.leb_gt _ _)) by done. exists k. split; [done|]. apply first_index_Some in Ef as (h & Hh & _). by eapply lookup_lt_Some.
  - exfalso. rewrite Exists_exists in Hfree. destruct Hfree as (h & Hin & Hh). apply list_elem_of_lookup in Hin as [j Hj]. pose proof (proj1 (first_index_None _ _) Ef j h Hj) as Hn. cbn in Hn. by rewrite Hh in Hn.
Qed.

(** [cat] of a file that is there, on a file system that implements the abstract one. *)
Lemma cat_shows m segs name target i rel mt ops c `{!AbstractFs ops (m_ctx mt)} :
  VfsSpec.wf (files m) → cwd_is segs m → wf_cstr name → trimmed name → (space ∉ name) → (length name < VFS_NODE_NAME_MAX)%nat →
  resolve_absolute_path (spell segs) (Some name) VFS_MAX_PATH = Some target → wf_cstr target →
  locate (files m) target = Some (i, rel) → VfsSpec.mounted (mount_table (files m)) i mt → m_ops mt = Some ops → wf_cstr rel →
  Exists (fun h => h_used h = false) (open_table (files m)) →
  fs_inv (world m) → fs_abs (world m) !! rel = Some (RamfsSpec.File c) → wf_cstr c → (length c < 1024)%nat →
  ∃ m', command_cat stack (space :: name) m = Some m' ∧ calls m' = calls m ++ [Line c].
Proof using stack_ok.
  intros Hv Hc Hn (Hn1 & Hn2 & Hn3) Hsp Hlen Hres Ht Hl Hm Ho Hrel Hfree Hinv Hfile Hcw Hcl. unfold command_cat. change (skip_spaces (space :: ?s)) with (skip_spaces s). rewrite skip_id, char0_not_nil by done. rewrite scan_token_id by done. cbn [fst]. rewrite (take_ge name) by lia.
  unfold resolve. rewrite (cwd_text segs m Hc). cbn [mbind option_bind]. rewrite Hres. cbn [mbind option_bind]. destruct (inline_split stack stack_ok) as (_ & Hlb & Hl1 & _). assert (Hbig : (1024 < VFS_INLINE_CAP)%nat) by (apply Nat.ltb_lt; vm_compute; done).
  set (buffer := take (VFS_INLINE_CAP - 1) (stack VFS_INLINE_CAP)) in *. destruct (fs_get (world m) rel buffer Hinv Hrel ltac:(lia)) as (f & Hf & Hget). destruct (open_free (files m) target i rel mt ops Hv Ht Hl Hm Ho (ltac:(by eexists)) Hfree) as (k & Eo & Hk).
  set (h := {| h_used := true; h_mount := Some i; relative := rel |}) in *. set (v := set_open _ _) in Eo. pose proof (VfsSpec.open_wf (files m) target _ _ Hv Ht Eo) as Hv'. pose proof (VfsSpec.wf_open_len _ Hv) as Holen. unfold open_file. rewrite Eo. rewrite (proj2 (Z.ltb_ge (Z.of_nat k) 0)) by lia. cbn [files world set_files].
  assert (Hh : get_handle v (Z.of_nat k) = Some h) by (apply VfsSpec.get_handle_Some; [done|]; rewrite Nat2Z.id; split; [lia|]; split; [by apply list_lookup_insert_eq|done]).
  unfold vfs_read. rewrite (proj2 (Nat.eqb_neq (length buffer) 0)) by lia. rewrite (VfsSpec.handle_mount_op v _ h i mt op_read Hh eq_refl Hm), Ho. cbn [mbind option_bind]. rewrite Hf. cbn [mbind option_bind relative h]. rewrite Hget, Hfile. unfold read_result. rewrite Nat.min_l by lia. cbn [mbind option_bind].
  rewrite (proj2 (Z.ltb_ge (Z.of_nat (length c)) 0)), (proj2 (Z.leb_gt (Z.of_nat VFS_INLINE_CAP) _)) by lia. rewrite Nat2Z.id, firstn_all, buf_store_ok by (rewrite !length_app; cbn [length]; rewrite length_drop; lia). cbn [mbind option_bind].
  rewrite <- app_assoc. cbn [app]. rewrite (insert_app_r_alt c) by lia. rewrite Nat.sub_diag. change (<[0%nat := 0]> (0 :: ?l)) with (0 :: l). rewrite text_app by done. cbn [mbind option_bind]. unfold close_file. destruct (vfs_close _ _) as [r' v']. by eexists.
Qed.

(** C17: What [echo] appends to a file [cat] shows.  On a path that leads to a mount whose
    driver implements the abstract file system, with a free descriptor, a text without [>] and
    without spaces at its ends that leaves room in a line, and a name of at most 31
    characters without spaces, the line [echo text > name] comes
    to its end and answers [OK] or [Write failed.]; after [OK] the line [cat name] shows what
    the file held before, the text, and the end of its line. *)
Theorem echo_then_cat m segs text name target i rel mt ops `{!AbstractFs ops (m_ctx mt)} :
  VfsSpec.wf (files m) → cwd_is segs m → wf_cstr text → wf_cstr name → trimmed text → trimmed name → (62 ∉ text) → (space ∉ name) →
  (length text + 2 < INPUT_MAX)%nat → (length name < VFS_NODE_NAME_MAX)%nat →
  resolve_absolute_path (spell segs) (Some name) VFS_MAX_PATH = Some target → wf_cstr target →
  locate (files m) target = Some (i, rel) → VfsSpec.mounted (mount_table (files m)) i mt → m_ops mt = Some ops → wf_cstr rel →
  Exists (fun h => h_used h = false) (open_table (files m)) →
  fs_inv (world m) → wf_cstr (content (fs_abs (world m)) rel) →
  ∃ m1, shell_execute stack other (lit "echo " ++ text ++ lit " > " ++ name) m = Some m1 ∧
    (calls m1 = calls m ++ [Line (lit "Write failed.")] ∨
     calls m1 = calls m ++ [Line (lit "OK")] ∧
     ∃ m2, shell_execute stack other (lit "cat " ++ name) m1 = Some m2 ∧ calls m2 = calls m1 ++ [Line (content (fs_abs (world m)) rel ++ text ++ [newline])]).
Proof using stack_ok.
  intros Hv Hc Ht Hn Htt Hnn Hg Hsp Hlen Hnl Hres Hw Hl Hm Ho Hrel Hfree Hinv Hcw. rewrite execute_echo by done. rewrite (echo_appends text name target segs m) by done. unfold INPUT_MAX in Hlen. rewrite (vfs_do_call (files m) (world m) target _ i rel mt ops) by done. destruct (fs_do (world m) rel (FAppend (Some (text ++ [newline]))) Hinv) as (r & w & -> & Hinv' & Hs).
  { split; [done|]. cbn [default from_option id]. rewrite length_app. cbn [length]. lia. }
  cbn [mbind option_bind]. cbn in Hs. destruct (Z.ltb_spec r 0) as [|Hr]; eexists; (split; [done|]); [by left|right]. split; [done|]. rewrite execute_cat by done. destruct (append_content _ _ _ _ _ Hs Hr) as [Hfile Hclen].
  apply (cat_shows (say "OK" (set_world w m)) segs name target i rel mt ops (content (fs_abs (world m)) rel ++ text ++ [newline])); try done. apply Forall_app. split; [done|]. apply Forall_app. split; [done|]. repeat constructor; unfold newline; lia.
Qed.

(** [touch] of a path on a file system that can be read only opens and closes it, whether a
    file is there or not: it says that the file is updated, and creates none. *)
Theorem touch_creates_nothing m segs name target i rel mt ops :
  VfsSpec.wf (files m) → cwd_is segs m → wf_cstr name → trimmed name → (space ∉ name) → (length name < VFS_MAX_PATH)%nat →
  resolve_absolute_path (spell segs) (Some name) VFS_MAX_PATH = Some target → wf_cstr target →
  locate (files m) target = Some (i, rel) → VfsSpec.mounted (mount_table (files m)) i mt → m_ops mt = Some ops → is_Some (op_read ops) →
  Exists (fun h => h_used h = false) (open_table (files m)) →
  ∃ m', shell_execute stack other (lit "touch " ++ name) m = Some m' ∧ world m' = world m ∧ calls m' = calls m ++ [Line (lit "File updated.")].
Proof using.
  intros Hv Hc Hn (Hn1 & Hn2 & Hn3) Hsp Hlen Hres Hw Hl Hm Ho Hread Hfree. assert (E : shell_execute stack other (lit "touch " ++ name) m = command_touch stack (space :: name) m).
  { unfold shell_execute. cbv zeta. rewrite (skip_id (lit "touch " ++ _)) by done. rewrite trim_id; [done|]. rewrite last_app. destruct (last name) eqn:E; [congruence|]. by destruct name using rev_ind; [|rewrite last_snoc in E]. }
  rewrite E. unfold command_touch, on_path. change (skip_spaces (space :: ?s)) with (skip_spaces s). rewrite skip_id, char0_not_nil by done. unfold shell_copy_token. rewrite scan_token_id, (proj2 (Nat.leb_le _ _)) by (done || lia). rewrite drop_all. cbn [skip_spaces char0 Z.eqb negb].
  unfold resolve. rewrite (cwd_text segs m Hc). cbn [mbind option_bind]. rewrite Hres. cbn [mbind option_bind]. destruct (open_free (files m) target i rel mt ops Hv Hw Hl Hm Ho Hread Hfree) as (k & Eo & _). unfold open_file. rewrite Eo. rewrite (proj2 (Z.leb_le 0 (Z.of_nat k))) by lia.
  eexists. split; [done|]. unfold close_file. by destruct (vfs_close _ _).
Qed.

End commands.

(** ** The tree the kernel boots with *)

(** A machine with its working directory in [/Users], on the volumes as they are set up. *)
Definition demo_machine : @Shell.shell ramfs_world (option volume_id) := Machine no_history (lit "/Users" ++ replicate 122 0) VfsRamfs.demo VfsRamfs.demo_world [].
Definition demo_stack (n : nat) : list Z := replicate n 0.
Definition no_other (name args : cstring) (s : list command * ramfs_world) (v : vfs ramfs_world (option volume_id)) : option (list command * ramfs_world * vfs ramfs_world (option volume_id)) := Some (s, v).

Lemma demo_stack_ok n : length (demo_stack n) = n ∧ bytes (demo_stack n).
Proof. split; [apply length_replicate|]. apply Forall_replicate. unfold byte. lia. Qed.

Lemma demo_volumes_ok : volumes_ok VfsRamfs.demo_world.
Proof.
  intros id. destruct (RamfsSpec.init_wf boot_volume) as [Hw Ha]; [reflexivity|by apply Forall_replicate|]. split; [done|]. change (get_volume VfsRamfs.demo_world id) with (ramfs_volume_init boot_volume). rewrite Ha. apply map_Forall_empty.
Qed.

Lemma demo_drivers : drivers volumes_ok VfsRamfs.demo.
Proof.
  assert (Hr : ∀ id, FileDriver volumes_ok ramfs_ops (Some id)) by (intros id; exact (ramfs_driver (W := ramfs_world) (Ctx := option volume_id) id)).
  intros i m [Hi Hu]. do 6 (destruct i as [|i]; [injection Hi as <-; eexists; split; [done|]; apply Hr|]). destruct i as [|i]; [injection Hi as <-; eexists; split; [done|]; apply no_ops_driver|]. destruct i as [|i]; [injection Hi as <-; done|done].
Qed.

Lemma demo_fresh : shell_fresh volumes_ok demo_machine.
Proof.
  split; [done|vm_compute; done|exact (VfsRamfs.boot_vfs_wf VfsRamfs.no_devices true)|exact demo_drivers|exact demo_volumes_ok|done].
Qed.

Lemma echo_then_cat_witness :
  ∃ m1 m2, shell_execute demo_stack no_other (lit "echo hello > motd") demo_machine = Some m1 ∧ shell_execute demo_stack no_other (lit "cat motd") m1 = Some m2 ∧
    calls m2 = [Line (lit "OK"); Line (lit "hello" ++ [newline])].
Proof.
  assert (Ha : content (RamfsSpec.abs (get_volume VfsRamfs.demo_world UsersVolume)) (lit "motd") = []).
  { destruct (RamfsSpec.init_wf boot_volume) as [_ Ha]; [reflexivity|by apply Forall_replicate|]. unfold content. change (get_volume VfsRamfs.demo_world UsersVolume) with (ramfs_volume_init boot_volume). by rewrite Ha. }
  destruct (echo_then_cat (AbstractFs0 := VfsRamfs.users_fs) demo_stack no_other demo_stack_ok demo_machine [lit "Users"] (lit "hello") (lit "motd") (lit "/Users/motd") 3 (lit "motd") VfsRamfs.users_mount ramfs_ops) as (m1 & E & H); try by_eval; try done.
  - exact (VfsRamfs.boot_vfs_wf VfsRamfs.no_devices true).
  - split; [by exists (replicate 121 0)|]. split; [vm_compute; done|]. split; [repeat constructor; by_eval|]. split; [vm_compute; lia|by_eval].
  - exact (VfsRamfs.demo_volume_wf UsersVolume).
  - destruct H as [H|(H & m2 & E2 & H2)].
    + exfalso. assert (Hok : calls <$> shell_execute demo_stack no_other (lit "echo hello > motd") demo_machine = Some [Line (lit "OK")]) by (vm_compute; done). change (lit "echo " ++ lit "hello" ++ lit " > " ++ lit "motd") with (lit "echo hello > motd") in E. rewrite E in Hok. cbn in Hok. injection Hok as Hok. rewrite Hok in H. done.
    + exists m1, m2. do 2 (split; [done|]). rewrite H2, H. change (fs_abs (world demo_machine)) with (RamfsSpec.abs (get_volume VfsRamfs.demo_world UsersVolume)). rewrite Ha. done.
Defined.

End ShellFiles.
