(* ===== verification/ShellTools.v ===== *)
(** The commands of the shell (kernel/shell.c) that are not about files: memory, the log,
    processes, devices, volumes, modules and the network.

    As in Shell.v, what a command shows is the list of its calls of vga.c.  The commands
    on the log, processes, devices and modules act on the machine of the log, those of the
    network on the network stack.  The byte at an address, the clock and what an array on
    the stack holds before it is written are arguments.

    [PingProps]: every command of the network ends with a well-formed stack
    ([net_command_completes]), and what ping reports is what happened ([ping_report]).
    [ShellToolsProps]: a dump gives the bytes of memory ([memdump_shows_memory]), and the
    commands on the log do what the abstract log says ([log_tools_refine]). *)

From S2P Require Import Prelude Arrays Bytes VfsPath Memory Sched Ipc Block Fat Klog KlogRun Parts Service ServiceSpec Devmgr Net NetSpec NetProps NetRun.
From S2P Require Import ShellText Shell ShellProps ShellFiles.
From S2P Require Vfs VfsRamfs Loader Display DisplayProps ShellRun KlogProps KlogFiles SchedRun.

Module ShellTools.

Import VfsPath ShellText.
Abbreviation command := Display.Display.command.
Abbreviation Text := Display.Display.Text.
Abbreviation Line := Display.Display.Line.

(** The first word of a text in an array of [capacity] bytes, cut when it is longer, and
    what is behind it. *)
Definition cut_token (input : cstring) (capacity : nat) : cstring * cstring :=
  let t := take (capacity - 1) (scan_token input).1 in (t, skip_spaces (drop (length t) input)).

Definition show (text : string) : list command := [Line (lit text)].

(** ** Memory *)

Section memdump.
Variable byte : Z → Z.

(** The loops over the sixteen bytes of a line; the line has 96 bytes. *)
Fixpoint hex_columns (n : nat) (address offset length' i : Z) (line : cstring) : cstring :=
  match n with
  | O => line
  | S n' =>
      if (96 <=? length line + 2)%nat then line
      else
        let line := line ++ (if offset + i <? length' then write_byte_hex (byte (u32 (address + (offset + i)))) else [space; space]) in
        hex_columns n' address offset length' (i + 1) (if (length line <? 95)%nat then line ++ [space] else line)
  end.

Definition printable (c : Z) : Z := if (c <? 32) || (126 <? c) then dot else c.

Fixpoint text_columns (n : nat) (address offset length' i : Z) (line : cstring) : cstring :=
  match n with
  | O => line
  | S n' =>
      if (95 <=? length line)%nat then line
      else text_columns n' address offset length' (i + 1)
             (line ++ [if length' <=? offset + i then space else printable (byte (u32 (address + (offset + i))))])
  end.

Definition memdump_line (address offset length' : Z) : cstring :=
  let line := take 95 (write_hex32 (u32 (address + offset))) ++ [58; space] in
  let line := hex_columns 16 address offset length' 0 line ++ [space; 124] in
  let line := text_columns 16 address offset length' 0 line in
  if (length line <? 95)%nat then line ++ [124] else line.

(** [None] when the loop goes round more than [n] times. *)
Fixpoint memdump_lines (n : nat) (address offset length' : Z) : option (list cstring) :=
  if length' <=? offset then Some []
  else match n with
  | O => None
  | S n' => lines ← memdump_lines n' address (offset + 16) length'; Some (memdump_line address offset length' :: lines)
  end.

(** The number of bytes to show: 128 when it is not given. *)
Definition memdump_length (len_ptr : cstring) : option Z :=
  if char0 len_ptr =? 0 then Some 128
  else length' ← parse_u32_token (cut_token len_ptr 16).1; if length' =? 0 then None else Some length'.

Definition command_memdump (args : cstring) : option (list command) :=
  let cursor := skip_spaces args in
  if char0 cursor =? 0 then Some (show "Usage: memdump <addr> [len]")
  else
    let '(address_token, len_ptr) := cut_token cursor 32 in
    match parse_u32_token address_token with
    | None => Some (show "memdump: invalid address")
    | Some address =>
        match memdump_length len_ptr with
        | None => Some (show "memdump: invalid length")
        | Some length' => lines ← memdump_lines 32 address 0 (if 512 <? length' then 512 else length'); Some (map Line lines)
        end
    end.
End memdump.

(** The fields of [struct boot_info] that the command [mem] reads. *)
Record boot_assets := BootAssets {
  ba_magic : Z; ba_fb_width : Z; ba_fb_height : Z; ba_fb_bpp : Z; ba_fb_size : Z; ba_fat_ptr : Z; ba_fat_size : Z
}.

Definition BOOT_INFO_MAGIC : Z := 0x534F5250.

(** Hundredths of a second as seconds, with two digits behind the point. *)
Definition uptime_parts (ticks : Z) : cstring * cstring :=
  let '(seconds, centis) := u64_divmod ticks 100 in (write_u64 seconds, [48 + centis / 10; 48 + centis mod 10]).

Definition boot_lines (info : boot_assets) : list cstring :=
  lit "Boot assets:" ::
  (if negb (ba_fat_ptr info =? 0) && negb (ba_fat_size info =? 0)
   then [ptr_line (lit "fat16 ptr") (ba_fat_ptr info); size_line (lit "fat16 size") (ba_fat_size info)]
   else [lit "  fat16 image: unavailable"]) ++
  (if (ba_magic info =? BOOT_INFO_MAGIC) && negb (ba_fb_width info =? 0) && negb (ba_fb_height info =? 0) && negb (ba_fb_bpp info =? 0)
   then buffer_line 96 [lit "  framebuffer: "; write_u64 (ba_fb_width info); lit "x"; write_u64 (ba_fb_height info); lit "x";
                        write_u64 (ba_fb_bpp info); lit "bpp"]
        :: (if ba_fb_size info =? 0 then [] else [size_line (lit "framebuffer size") (ba_fb_size info)])
   else [lit "  framebuffer: text mode"]).

Definition mem_lines (h : Memory.heap) (ticks : Z) (info : option boot_assets) : list cstring :=
  let '(seconds, centis) := uptime_parts ticks in
  [lit "Memory info:"; ptr_line (lit "heap base") Memory.memory_heap_base; ptr_line (lit "heap limit") Memory.memory_heap_limit;
   size_line (lit "heap total") Memory.memory_total_bytes; size_line (lit "heap used") (Memory.memory_used_bytes h);
   size_line (lit "heap free") (Memory.memory_free_bytes h);
   buffer_line 64 [lit "  uptime: "; seconds; lit "."; centis; lit "s"]] ++
  match info with None => [] | Some info => boot_lines info end.

Definition shutdown_shows (h : Memory.heap) (ticks : Z) : list command :=
  let total := Memory.memory_total_bytes in
  let used := Memory.memory_used_bytes h in
  let free := Memory.memory_free_bytes h in
  let base := u32 Memory.memory_heap_base in
  let amount (label : string) n := [Text (lit label); Text (write_u64 n); Text (lit " bytes ("); Text (write_u64 (n / 1024)); Line (lit " KB)")] in
  let '(seconds, centis) := uptime_parts ticks in
  show "Memory statistics:" ++ amount "  Total: "%string total ++ amount "  Used : "%string used ++ amount "  Free : "%string free ++
  [Text (lit "  Heap base   = "); Line (write_hex32 base); Text (lit "  Heap cursor = "); Line (write_hex32 (base +32 u32 used));
   Text (lit "  Heap limit  = "); Line (write_hex32 (u32 Memory.memory_heap_limit));
   Text (lit "  Uptime: "); Text seconds; Text (lit "."); Text centis; Line (lit "s")] ++ show "Powering off...".

(** ** Volumes *)

Definition volume_line (r : Block.volume_record) : cstring :=
  buffer_line 160 [if char0 (Block.v_name r) =? 0 then lit "(unnamed)" else Block.v_name r; lit " -> ";
                   if char0 (Block.v_mount_path r) =? 0 then lit "(unmounted)" else Block.v_mount_path r].

Definition command_volumes (v : Block.volmgr) : list command :=
  let count := Block.volmgr_volume_count v in
  if (count =? 0)%nat then show "No volumes detected."
  else map (fun r => Line (volume_line r)) (omap (fun i => Block.volmgr_volume_at i v) (List.seq 0 count)).

(** ** The log, processes and devices *)

Definition kdlg_line (e : Klog.klog_entry) : cstring :=
  let add := buffer_append Klog.LINE_CAP in
  let module := if char0 (Klog.module e) =? 0 then lit "kernel" else Klog.module e in
  let line := add [space] (add [93] (add (write_u64 (Klog.seq e)) [91])) in
  let line := add [space] (add (Klog.klog_level_name (Klog.level e)) line) ++ [40] in
  let line := add [41] (add module line) in
  let line := if (length line <? Klog.LINE_CAP - 1)%nat then line ++ [58; space] else line in
  add (Klog.text e) line.

(** The word [inherit], by its first three letters. *)
Definition is_inherit (t : cstring) : bool :=
  ((char_at t 0 =? 105) || (char_at t 0 =? 73)) && ((char_at t 1 =? 110) || (char_at t 1 =? 78)) && ((char_at t 2 =? 104) || (char_at t 2 =? 72)).

Definition pad (n : nat) (line : cstring) : cstring := line ++ replicate (n - length line) space.

Definition format_device_flags (flags : Z) : cstring :=
  [91] ++ (if negb (Z.land flags Devmgr.DEVICE_FLAG_PUBLISH =? 0) then [80] else [])
       ++ (if negb (Z.land flags Devmgr.DEVICE_FLAG_INTERNAL =? 0) then [73] else []) ++ [93].

Definition devlist_line (nd : Devmgr.device_node) (d : Devmgr.devmgr) : option cstring :=
  parent ← Devmgr.parent_name (lit "-") nd d;
  let add := buffer_append 128 in
  let line := pad 4 (add (write_u64 (Devmgr.id nd)) []) ++ [space] in
  let line := pad 18 (add (Devmgr.name nd) line) in
  let line := pad 36 (add (Devmgr.type nd) line) in
  Some (add parent (add (format_device_flags (Devmgr.flags nd)) line ++ [space])).

(** A line of [process_debug_list] of process.c, in 80 bytes. *)
Definition process_line (p : Sched.process_info) : cstring :=
  let line := pad 4 (Sched.int_to_string (Sched.i_pid p)) ++ [space] in
  let line := pad 12 (buffer_append 80 (Service.state_name (Sched.i_state p)) line) ++ [space] in
  line ++ [match Sched.i_kind p with Sched.THREAD_KIND_USER => 85 | Sched.THREAD_KIND_KERNEL => 75 end; space; space] ++
    Sched.int_to_string (Sched.i_base_priority p) ++ [slash] ++ Sched.int_to_string (Sched.i_dynamic_priority p) ++ [space; space] ++
    Sched.int_to_string (s32 (Sched.i_time_slice_remaining p)) ++ [space; space] ++ Sched.int_to_string (s32 (Sched.i_time_slice_ticks p)).

Definition process_debug_list (s : Sched.sched) : list command :=
  map Line (lit "PID  STATE    KIND  PRI(base/dyn)  REM  TICKS" :: (process_line <$> Sched.process_snapshot (Some Sched.MAX_PROCS) s)).

(** ** Commands on the machine *)

Section machine.
Context {W Ctx : Type} (place : Sched.placement) (event : list Z) (stack : nat → list Z).
Implicit Types s : Klog.machine W Ctx.

Definition command_kdlg s : option (list command * Klog.machine W Ctx) :=
  '(entries, l) ← Klog.klog_copy true Klog.CONFIG_KLOG_CAPACITY (Klog.log s);
  let s := Klog.set_log l s in
  Some (match entries with [] => show "kdlg: no entries" | _ => map (fun e => Line (kdlg_line e)) entries end, s).

Definition kdlvl_usage : list command := show "Usage: kdlvl [level|<module> <level|inherit>]".

Definition command_kdlvl (args : cstring) s : option (list command * Klog.machine W Ctx) :=
  let token := skip_spaces args in
  if char0 token =? 0 then
    let '(level, l) := Klog.klog_get_level (Klog.log s) in
    Some ([Text (lit "kdlvl: "); Line (Klog.klog_level_name level)], Klog.set_log l s)
  else
    let '(first_token, rest) := cut_token token Klog.CONFIG_KLOG_MODULE_NAME_LEN in
    if char0 rest =? 0 then
      let level := Klog.klog_level_from_name (Some first_token) in
      if level <? 0 then Some (kdlvl_usage, s)
      else
        let name := Klog.klog_level_name level in
        s ← Klog.klog_emit event level (Some (buffer_line 64 [lit "kdlvl: global level "; name]))
              (Klog.set_log (Klog.klog_set_level level (Klog.log s)) s);
        Some ([Text (lit "Global klog level set to "); Line name], s)
    else
      let module_name := take (Klog.CONFIG_KLOG_MODULE_NAME_LEN - 1) first_token in
      let level_token := (cut_token rest 16).1 in
      let level := Klog.klog_level_from_name (Some level_token) in
      if (level <? 0) && negb (is_inherit level_token) then Some (kdlvl_usage, s)
      else
        let level := if level <? 0 then Klog.KLOG_LEVEL_INHERIT else level in
        '(r, s) ← Klog.klog_module_set_level (Some module_name) level s;
        Some (if r <? 0 then show "kdlvl: failed to update module level"
              else if level =? Klog.KLOG_LEVEL_INHERIT
              then [Text (lit "Module "); Text module_name; Line (lit " level reset to inherit")]
              else [Text (lit "Module "); Text module_name; Text (lit " level set to "); Line (Klog.klog_level_name level)], s).

(** A log file, read into [VFS_INLINE_CAP] bytes; one that cannot be read is made first. *)
Definition read_log (path : cstring) s : option (Z * list Z * Klog.machine W Ctx) :=
  '(length', buffer, w) ← Vfs.Vfs.vfs_read_path (Klog.files s) (Klog.world s) (Some path) (Some (stack Shell.VFS_INLINE_CAP));
  let s := Klog.set_world w s in
  if length' <? 0 then
    '(r, w) ← Vfs.Vfs.vfs_write_file (Klog.files s) (Klog.world s) (Some path) None;
    let s := Klog.set_world w s in
    if r =? 0 then
      '(length', buffer, w) ← Vfs.Vfs.vfs_read_path (Klog.files s) (Klog.world s) (Some path) (Some buffer);
      Some (length', buffer, Klog.set_world w s)
    else Some (length', buffer, s)
  else Some (length', buffer, s).

Definition command_logs (args : cstring) s : option (list command * Klog.machine W Ctx) :=
  let trimmed := skip_spaces args in
  if char0 trimmed =? 0 then Some (show "Usage: logs <kernel|net|ipc>", s)
  else match one_argument trimmed 16 with
  | None => Some (show "logs: name too long", s)
  | Some (name, more) =>
      if (more : bool) then Some (show "Usage: logs <kernel|net|ipc>", s)
      else match logs_resolve_path name with
      | None => Some ([Text (lit "logs: unknown log '"); Text name; Line (lit "'")], s)
      | Some path =>
          s ← Klog.klog_enable_proc_sink s;
          s ← Klog.klog_refresh_proc_sink s;
          '(length', buffer, s) ← read_log path s;
          if length' <? 0 then Some ([Text (lit "logs: unable to read "); Line name], s)
          else
            let max_output := (Shell.VFS_INLINE_CAP - 1)%nat in
            let length' := (Z.to_nat length' `min` max_output)%nat in
            buffer ← buf_store buffer length' 0;
            if (length' =? 0)%nat then Some ([Text name; Line (lit " log empty.")], s)
            else
              text ← Loader.Loader.text buffer;
              Some ([Text (lit "logs["); Text name; Line (lit "]:"); Line text] ++
                    (if (length' =? max_output)%nat then show "logs: output truncated (buffer limit)" else []), s)
      end
  end.

Definition command_proc_count s : list command :=
  [Text (lit "Processes active: "); Line (write_u64 (Z.of_nat (Sched.process_count (Ipc.sys (Klog.kern s)))))].

(** [process_create] up to [n] times, until it fails; [stress_worker] is the address of the
    function. *)
Fixpoint spawn_loop (stress_worker : Z) (n : nat) (spawned : Z) s : option (Z * Klog.machine W Ctx) :=
  match n with
  | O => Some (spawned, s)
  | S n' =>
      '(pid, s) ← Service.process_create place event (Some stress_worker) Sched.PROC_STACK_SIZE s;
      if pid <? 0 then Some (spawned, s) else spawn_loop stress_worker n' (spawned + 1) s
  end.

Definition command_spawn (stress_worker : Z) (args : cstring) s : option (list command * Klog.machine W Ctx) :=
  let token := skip_spaces args in
  if char0 token =? 0 then Some (show "Usage: spawn <count>", s)
  else match parse_positive_int (cut_token token 16).1 with
  | None => Some (show "spawn: invalid count", s)
  | Some requested =>
      let available := Z.of_nat Sched.MAX_PROCS - Z.of_nat (Sched.process_count (Ipc.sys (Klog.kern s))) in
      if available <=? 0 then Some (show "spawn: no slots available", s)
      else
        let to_create := if requested <? available then requested else available in
        '(spawned, s) ← spawn_loop stress_worker (Z.to_nat to_create) 0 s;
        s ← Klog.klog_emit_tagged event (Some (lit "kernel")) Klog.KLOG_INFO
              (Some (buffer_line 80 [lit "spawn: requested "; write_u64 requested; lit ", created "; write_u64 spawned])) s;
        Some ([Text (lit "spawn: created "); Text (write_u64 spawned); Text (lit " of "); Text (write_u64 requested); Line (lit " requested")] ++
              (if spawned <? requested then show "spawn: limited by process capacity" else []), s)
  end.

Definition command_proc_list s : option (list command * Klog.machine W Ctx) :=
  s ← Service.debug_publish_task_list s; Some (process_debug_list (Ipc.sys (Klog.kern s)), s).

Definition command_mem (h : Memory.heap) (ticks : Z) (info : option boot_assets) s : option (list command * Klog.machine W Ctx) :=
  s ← Service.debug_publish_memory_info h s; Some (map Line (mem_lines h ticks info), s).

(** The machine when it is switched off. *)
Definition command_shutdown (h : Memory.heap) (ticks : Z) s : option (list command * Klog.machine W Ctx) :=
  s ← Service.debug_publish_memory_info h s;
  s ← Klog.klog_emit_tagged event (Some (lit "kernel")) Klog.KLOG_INFO (Some (lit "shell: invoking power shutdown")) s;
  Some (shutdown_shows h ticks, s).

Definition command_devlist `{!Devmgr.HasDevices W} s : option (list command * Klog.machine W Ctx) :=
  s ← Devmgr.debug_publish_device_list s;
  let nodes := Devmgr.devmgr_enumerate true Devmgr.DEVMGR_MAX_DEVICES (Devmgr.devs s) in
  match nodes with
  | [] => Some (show "(no devices)", s)
  | _ =>
      lines ← mapM (fun nd => devlist_line nd (Devmgr.devs s)) nodes;
      Some (map Line (lit "ID  NAME         TYPE                FLAGS PARENT" :: lines), s)
  end.

End machine.

(** ** Modules *)

Section modules.
Context {W Ctx : Type} {HM : Parts.HasPart W Loader.Loader.modules} (event junk offsets0 : list Z) (fresh : nat → list Z).
Context (run_init : Z → Klog.machine W Ctx → option (Z * Klog.machine W Ctx)) (run_exit : Z → Klog.machine W Ctx → option (Klog.machine W Ctx)).
Context (g : Fat.fat16) (cwd : cstring).
Implicit Types s : Klog.machine W Ctx.

Definition set_files (v : Vfs.Vfs.vfs W Ctx) s : Klog.machine W Ctx :=
  Klog.Machine _ _ (Klog.log s) (Klog.kern s) (Klog.services s) v (Klog.world s).

Definition module_line (i : nat) (h : Loader.Loader.module_handle) : cstring :=
  buffer_line 128 ([write_u64 (Z.of_nat i + 1); lit ". "; Loader.Loader.h_name h; lit " v"; Loader.Loader.h_version h; lit " (";
    if Loader.Loader.h_active h then lit "active" else lit "inactive"] ++
    (if Loader.Loader.h_autostart h then [lit ",autostart"] else []) ++ (if Loader.Loader.h_builtin h then [lit ",builtin"] else []) ++ [lit ")"]).

Definition command_mod_list s : option (list command) :=
  match Loader.Loader.module_enumerate true 32 s with
  | [] => Some (show "mod: no modules loaded")
  | handles =>
      lines ← mapM (fun i => h ← Loader.Loader.module_table (Loader.Loader.mods s) !! i; Some (module_line i h)) handles;
      Some (map Line lines)
  end.

Definition volume_prefix : cstring := lit "/Volumes/Disk0/".

(** Memory from the heap: whether there is enough. *)
Definition take_memory (size : Z) s : bool * Klog.machine W Ctx :=
  let m := Loader.Loader.mods s in
  let '(p, h) := Memory.kalloc (Loader.Loader.heap m) size in
  (bool_decide (is_Some p), Loader.Loader.set_mods (Loader.Loader.set_heap h m) s).

(** The bytes of a module, or the status: -1 when it cannot be read, -2 without the boot
    volume, -3 without memory. *)
Definition load_from_disk (name : cstring) s : option ((Z + list Z) * Klog.machine W Ctx) :=
  if negb (Fat.fat16_ready g) then Some (inl (-2), s)
  else if (char0 name =? 0) || existsb (Z.eqb slash) name || (48 <=? length name)%nat then Some (inl (-1), s)
  else
    '(rc, file_size) ← Fat.fat16_file_size g name;
    if (rc <? 0) || (file_size =? 0) then Some (inl (-1), s)
    else
      let '(got, s) := take_memory file_size s in
      if negb got then Some (inl (-3), s)
      else
        '(rc, buffer, read_size) ← Fat.fat16_read_file g name (fresh (Z.to_nat file_size)) (Z.to_nat file_size);
        if (rc <? 0) || negb (Z.of_nat read_size =? file_size) then Some (inl (-1), s) else Some (inr buffer, s).

Definition load_module_image_from_absolute (absolute : cstring) s : option ((Z + list Z) * Klog.machine W Ctx) :=
  if shell_str_starts_with absolute volume_prefix then load_from_disk (drop (length volume_prefix) absolute) s
  else
    let '(got, s) := take_memory (Z.of_nat Shell.VFS_INLINE_CAP) s in
    if negb got then Some (inl (-3), s)
    else
      let '(fd, v) := Vfs.Vfs.vfs_open (Klog.files s) (Some absolute) in
      let s := set_files v s in
      if fd <? 0 then Some (inl (-1), s)
      else
        '(read, buffer, w) ← Vfs.Vfs.vfs_read (Klog.files s) (Klog.world s) fd (Some (fresh Shell.VFS_INLINE_CAP));
        let s := set_files (Vfs.Vfs.vfs_close (Klog.files s) fd).2 (Klog.set_world w s) in
        if read <=? 0 then Some (inl (-1), s) else Some (inr (take (Z.to_nat read) buffer), s).

(** A module that is not found under its path is looked for on the boot volume, when it was
    given by its name alone. *)
Definition load_image (has_separator : bool) (resolved module_filename : cstring) s : option ((Z + list Z) * cstring * Klog.machine W Ctx) :=
  '(r, s) ← load_module_image_from_absolute resolved s;
  match r with
  | inr image => Some (inr image, resolved, s)
  | inl status =>
      if has_separator || (status =? -3) then Some (inl status, resolved, s)
      else if (status =? -2) || negb (Fat.fat16_ready g) then Some (inl (-2), resolved, s)
      else if (length volume_prefix + length module_filename <? VFS_MAX_PATH)%nat then
        let fallback_path := volume_prefix ++ module_filename in
        '(r, s) ← load_module_image_from_absolute fallback_path s;
        Some (r, match r with inr _ => fallback_path | inl _ => resolved end, s)
      else Some (inl status, resolved, s)
  end.

Definition load_resolved (has_separator : bool) (resolved module_filename : cstring) s : option (list command * Klog.machine W Ctx) :=
  '(r, resolved, s) ← load_image has_separator resolved module_filename s;
  match r with
  | inl status =>
      Some (show (if status =? -3 then "mod: out of memory" else if status =? -2 then "mod: FAT volume unavailable" else "mod: failed to read module image"), s)
  | inr image =>
      match module_filename_from_path resolved Loader.Loader.MODULE_NAME_MAX with
      | None => Some (show "mod: invalid module name", s)
      | Some module_filename =>
          let module_name := strip_kmd_extension module_filename in
          '(rc, s) ← Loader.Loader.module_load_image event junk offsets0 run_init (Some image) false s;
          Some (if rc =? 0 then [Text (lit "mod: loaded "); Line (if char0 module_name =? 0 then module_filename else module_name)]
                else show "mod: load failed", s)
      end
  end.

(** The path of a module in the argument, and whether it has a slash. *)
Definition module_argument (usage : string) (args : cstring) : string + cstring * bool :=
  let token := skip_spaces args in
  if char0 token =? 0 then inl usage
  else match one_argument token VFS_MAX_PATH with
  | None => inl "mod: path too long"%string
  | Some (requested, more) => if (more : bool) then inl "mod: too many arguments"%string else inr (requested, existsb (Z.eqb slash) requested)
  end.

Definition command_mod_load (args : cstring) s : option (list command * Klog.machine W Ctx) :=
  match module_argument "Usage: mod load <module>" args with
  | inl message => Some (show message, s)
  | inr (requested, has_separator) =>
      match append_kmd_extension requested VFS_MAX_PATH with
      | None => Some (show "mod: invalid module path", s)
      | Some requested =>
          match module_filename_from_path requested Loader.Loader.MODULE_NAME_MAX with
          | None => Some (show "mod: invalid module name", s)
          | Some module_filename =>
              let module_name := strip_kmd_extension module_filename in
              if negb (char0 module_name =? 0) && bool_decide (is_Some (Loader.Loader.module_find (Some module_name) s))
              then Some (show "mod: module already loaded", s)
              else match resolve_absolute_path cwd (Some requested) VFS_MAX_PATH with
              | None => Some (show "mod: invalid path", s)
              | Some resolved => load_resolved has_separator resolved module_filename s
              end
          end
      end
  end.

(** The name of the module to unload: the last part of a path, or the name itself. *)
Definition unload_name (requested : cstring) (has_separator : bool) : string + cstring :=
  if has_separator then
    match append_kmd_extension requested VFS_MAX_PATH with
    | None => inl "mod: invalid module path"%string
    | Some requested =>
        match module_filename_from_path requested Loader.Loader.MODULE_NAME_MAX with
        | None => inl "mod: invalid module name"%string
        | Some module_filename => inr module_filename
        end
    end
  else if (Loader.Loader.MODULE_NAME_MAX <=? length requested)%nat then inl "mod: module name too long"%string
  else inr requested.

Definition command_mod_unload (args : cstring) s : option (list command * Klog.machine W Ctx) :=
  match module_argument "Usage: mod unload <module>" args with
  | inl message => Some (show message, s)
  | inr (requested, has_separator) =>
      match unload_name requested has_separator with
      | inl message => Some (show message, s)
      | inr module_name =>
          let module_name := strip_kmd_extension module_name in
          if char0 module_name =? 0 then Some (show "mod: invalid module name", s)
          else match Loader.Loader.module_find (Some module_name) s with
          | None => Some (show "mod: module not loaded", s)
          | Some i =>
              handle ← Loader.Loader.module_table (Loader.Loader.mods s) !! i;
              if Loader.Loader.h_builtin handle then Some (show "mod: cannot unload builtin module", s)
              else
                '(rc, s) ← Loader.Loader.module_unload event junk run_exit (Some module_name) s;
                Some (if rc =? 0 then [Text (lit "mod: unloaded "); Line module_name] else show "mod: unload failed", s)
          end
      end
  end.

Definition command_mod (args : cstring) s : option (list command * Klog.machine W Ctx) :=
  let sub := skip_spaces args in
  let listing := cmds ← command_mod_list s; Some (cmds, s) in
  if char0 sub =? 0 then listing
  else
    let '(token, rest) := cut_token sub 8 in
    if shell_str_equals token (lit "list") then listing
    else if shell_str_equals token (lit "load") then command_mod_load rest s
    else if shell_str_equals token (lit "unload") then command_mod_unload rest s
    else Some (show "Usage: mod [list|load <name>|unload <name>]", s).

End modules.

(** ** The network *)

Definition SHELL_PING_DEFAULT_COUNT : Z := 4.
Definition SHELL_PING_MAX_COUNT : Z := 100.
Definition SHELL_PING_TIMEOUT_TICKS : Z := 250.
Definition SHELL_PING_INTERVAL_TICKS : Z := 75.
Definition SHELL_PING_ARP_WAIT_TICKS : Z := 250.
Definition UINT32_MAX : Z := 4294967295.
Definition shell_ping_identifier : Z := 0x1234.

(** The rounds a loop of [net ping] may make: more than the ticks it waits for. *)
Definition WAIT_ROUNDS : nat := 252.

Definition net_help_lines : list string := [
  "Usage: net <command>"; "  net list        - show network interfaces"; "  net poll [n|watch] - service network devices";
  "  net arp <ipv4>  - resolve/display ARP entry"; "  net ping <ipv4> - send ICMP echo request"; "  net ip [ipv4]   - show or set local IPv4"]%string.

Definition command_net_help : list command := map (fun l => Line (lit l)) net_help_lines.

(** How a wait for an answer ends. *)
Inductive answer := Replied (rtt_ms : Z) (src : list Z) | TimedOut | PollFailed.

Record statistics := Statistics { st_sent : Z; st_received : Z; min_rtt : Z; max_rtt : Z; total_rtt_ms : Z }.

Definition no_statistics : statistics := Statistics 0 0 UINT32_MAX 0 0.

Definition count_sent (t : statistics) : statistics :=
  Statistics (st_sent t + 1) (st_received t) (min_rtt t) (max_rtt t) (total_rtt_ms t).

Definition count_reply (rtt : Z) (t : statistics) : statistics :=
  Statistics (st_sent t) (st_received t + 1) (if rtt <? min_rtt t then rtt else min_rtt t) (if max_rtt t <? rtt then rtt else max_rtt t)
    (if UINT32_MAX - total_rtt_ms t <? rtt then UINT32_MAX else total_rtt_ms t + rtt).

Definition statistics_shown (ip_text : cstring) (t : statistics) : list command :=
  let lost := if st_sent t - st_received t <? 0 then 0 else st_sent t - st_received t in
  let loss_percent := if 0 <? st_sent t then (lost *32 100) / st_sent t else 0 in
  [Text (lit "net: Ping statistics for "); Text ip_text; Line [];
   Text (lit "net:     Packets: Sent = "); Text (write_u64 (st_sent t)); Text (lit ", Received = "); Text (write_u64 (st_received t));
   Text (lit ", Lost = "); Text (write_u64 lost); Text (lit " ("); Text (write_u64 loss_percent); Line (lit "% loss)")] ++
  (if 0 <? st_received t
   then [Text (lit "net:     RTT min/avg/max = "); Text (write_u64 (min_rtt t)); Text (lit "/");
         Text (write_u64 (total_rtt_ms t / st_received t)); Text (lit "/"); Text (write_u64 (max_rtt t)); Line (lit " ms")]
   else []).

(** [pass] is what happens to the stack while the shell sleeps for a tick, or only yields. *)
Section net.
Context (driver : nat → list (nat * list Z) → list Z → Z) (poll : nat → Net.net → option (Z * Net.net)) (pass : bool → Net.net → option Net.net).
Context (device_name : nat → cstring).
Implicit Types s : Net.net.

Definition shell_default_net_device s : option (option nat) :=
  if (Net.net_device_count s =? 0)%nat then Some None else Net.net_get_device 0 s.

Definition poll_devices s : option (Z * Net.net) := Net.net_poll_devices poll s.

Definition reply_shown (r : Net.icmp_echo_reply) : list command :=
  [Text (lit "net: echo reply from "); Text (format_ipv4_address (Net.r_src r) 32); Text (lit " seq="); Text (write_u64 (Net.r_sequence r));
   Text (lit " id="); Line (write_hex32 (Net.r_identifier r))].

(** [n] replies at most. *)
Fixpoint flush_loop (n : nat) s : option (list command * Net.net) :=
  match n with
  | O => None
  | S n' =>
      '(r, s) ← Net.icmp_take_any_echo_reply s;
      match r with
      | None => Some ([], s)
      | Some r => '(shown, s) ← flush_loop n' s; Some (reply_shown r ++ shown, s)
      end
  end.

Definition shell_flush_icmp_notifications s : option (list command * Net.net) := flush_loop (S Net.ICMP_REPLY_CAPACITY) s.

Definition command_net_list s : option (list command) :=
  let count := Net.net_device_count s in
  if (count =? 0)%nat then Some (show "net: no interfaces registered")
  else
    lines ← mapM (fun i =>
      dev ← Net.net_get_device i s;
      match dev with
      | None => Some []
      | Some d =>
          nd ← Net.dev_store s !! d;
          let line := pad 12 (buffer_line 64 [lit "  "; device_name d]) in
          let line := if (length line <? 63)%nat then line ++ [space] else line in
          Some [Line (buffer_append 64 (format_mac_address (Net.mac nd) 32) line)]
      end) (List.seq 0 count);
    Some (show "Name       MAC" ++ concat lines).

(** ** Polling *)

(** The polls made, the events, and what was shown; none when a poll failed. *)
Fixpoint watch_loop (n : nat) (performed total_events : Z) (shown : list command) s : option (option (Z * Z) * list command * Net.net) :=
  match n with
  | O => Some (Some (performed, total_events), shown, s)
  | S n' =>
      '(rc, s) ← poll_devices s;
      if rc <? 0 then Some (None, shown ++ show "net: poll failed", s)
      else if rc =? 0 then Some (Some (performed + 1, u64 (total_events + rc)), shown, s)
      else
        '(cs, s) ← shell_flush_icmp_notifications s;
        watch_loop n' (performed + 1) (u64 (total_events + rc)) (shown ++ cs) s
  end.

Fixpoint count_loop (n : nat) (performed total_events : Z) (shown : list command) s : option (option (Z * Z) * list command * Net.net) :=
  match n with
  | O => Some (Some (performed, total_events), shown, s)
  | S n' =>
      '(rc, s) ← poll_devices s;
      if rc <? 0 then Some (None, shown ++ show "net: poll failed", s)
      else
        '(cs, s) ← shell_flush_icmp_notifications s;
        if rc =? 0 then Some (Some (performed + 1, u64 (total_events + rc)), shown ++ cs, s)
        else count_loop n' (performed + 1) (u64 (total_events + rc)) (shown ++ cs) s
  end.

Definition watch_devices s : option (option (Z * Z) * list command * Net.net) :=
  '(r, shown, s) ← watch_loop 64 0 0 [] s;
  Some (r, match r with Some (performed, _) => if 64 <=? performed then shown ++ show "net: watch limit reached" else shown | None => shown end, s).

(** The argument: [watch], or a number of polls. *)
Definition poll_argument (token : cstring) : string + option Z :=
  if char0 token =? 0 then inr (Some 1)
  else match one_argument token 16 with
  | None => inl "net: argument too long"%string
  | Some (word, more) =>
      if (more : bool) then inl "Usage: net poll [n|watch]"%string
      else if shell_str_equals word (lit "watch") then inr None
      else match parse_positive_int word with None => inl "net: invalid iteration count"%string | Some n => inr (Some n) end
  end.

Definition command_net_poll (args : cstring) s : option (list command * Net.net) :=
  if (Net.net_device_count s =? 0)%nat then Some (show "net: no interfaces registered", s)
  else match poll_argument (skip_spaces args) with
  | inl message => Some (show message, s)
  | inr iterations =>
      '(r, shown, s) ← match iterations with None => watch_devices s | Some n => count_loop (Z.to_nat n) 0 0 [] s end;
      match r with
      | None => Some (shown, s)
      | Some (performed, total_events) =>
          '(cs, s) ← shell_flush_icmp_notifications s;
          Some (shown ++ cs ++
                [Line (buffer_line 96 [lit "net: polled "; write_u64 performed; lit " time(s), events="; write_u64 total_events])], s)
      end
  end.

(** ** Addresses *)

(** An address as the only argument. *)
Definition address_argument (usage : string) (token : cstring) : string + list Z :=
  match one_argument token 32 with
  | None => inl "net: address too long"%string
  | Some (ip_text, more) =>
      if (more : bool) then inl usage
      else match parse_ipv4_address ip_text with None => inl "net: invalid IPv4 address"%string | Some a => inr a end
  end.

Definition arp_shown (d : nat) (target m : list Z) : list command :=
  [Line (buffer_line 96 [lit "net: "; device_name d; lit " -> "; format_ipv4_address target 32; lit " is at "; format_mac_address m 32])].

Definition command_net_arp (args : cstring) s : option (list command * Net.net) :=
  dev ← shell_default_net_device s;
  match dev with
  | None => Some (show "net: no interfaces registered", s)
  | Some d =>
      let token := skip_spaces args in
      if char0 token =? 0 then Some (show "Usage: net arp <ipv4>", s)
      else match address_argument "Usage: net arp <ipv4>" token with
      | inl message => Some (show message, s)
      | inr target =>
          match Net.arp_cache_lookup d target s with
          | Some m => Some (arp_shown d target m, s)
          | None =>
              '(rc, m, s) ← Net.arp_resolve driver dev (Some target) s;
              Some (if rc <? 0 then show "net: failed to send ARP request"
                    else if rc =? 0 then arp_shown d target m
                    else Line (buffer_line 112 [lit "net: ARP request sent for "; format_ipv4_address target 32; lit " on "; device_name d])
                         :: show "net: run 'net poll' to service responses", s)
          end
      end
  end.

Definition command_net_ip (args : cstring) s : option (list command * Net.net) :=
  current ← Net.ipv4_get_address s;
  let token := skip_spaces args in
  if char0 token =? 0 then
    Some ([Line (buffer_line 96 ([lit "net: local IPv4 "; format_ipv4_address current 32] ++
             (if existsb (fun b => negb (b =? 0)) current then [] else [lit " (unset)"])))], s)
  else match address_argument "Usage: net ip [ipv4]" token with
  | inl message => Some (show message, s)
  | inr addr =>
      s ← Net.ipv4_set_address (Some addr) s;
      Some ([Line (buffer_line 96 [lit "net: local IPv4 set to "; format_ipv4_address addr 32])], s)
  end.

(** ** Ping *)

Definition knows (d : nat) (target : list Z) s : bool := bool_decide (is_Some (Net.arp_cache_lookup d target s)).

(** 1 when the address is known, 0 when the time is over, -1 when a poll fails; [None] after
    more than [n] rounds, here and below. *)
Fixpoint shell_ping_wait_for_arp (n : nat) (d : nat) (target : list Z) (deadline : Z) s : option (Z * Net.net) :=
  match n with
  | O => None
  | S n' =>
      if knows d target s then Some (1, s)
      else if deadline <=? Net.ticks s then Some (if knows d target s then 1 else 0, s)
      else
        '(events, s) ← poll_devices s;
        if events <? 0 then Some (-1, s)
        else if knows d target s then Some (1, s)
        else s ← pass (events =? 0) s; shell_ping_wait_for_arp n' d target deadline s
  end.

(** With the time of the transmission. *)
Fixpoint shell_ping_transmit (n : nat) (d : nat) (target : list Z) (identifier sequence deadline : Z) s : option (Z * Z * Net.net) :=
  match n with
  | O => None
  | S n' =>
      '(rc, s) ← Net.icmp_send_echo_request driver (Some d) (Some target) identifier sequence s;
      if rc =? 0 then Some (1, Net.ticks s, s)
      else if rc <? 0 then Some (-1, 0, s)
      else
        '(arp_status, s) ← shell_ping_wait_for_arp WAIT_ROUNDS d target deadline s;
        if arp_status <=? 0 then Some (arp_status, 0, s) else shell_ping_transmit n' d target identifier sequence deadline s
  end.

(** The milliseconds since the transmission, at 10 to the tick. *)
Definition round_trip (send_tick now : Z) : Z := u32 (u64 (((if now <? send_tick then send_tick else now) - send_tick) * 10)).

Fixpoint shell_ping_wait_for_reply (n : nat) (identifier sequence send_tick deadline : Z) s : option (answer * Net.net) :=
  match n with
  | O => None
  | S n' =>
      '(r, s) ← Net.icmp_take_echo_reply identifier sequence s;
      match r with
      | Some r => Some (Replied (round_trip send_tick (Net.ticks s)) (Net.r_src r), s)
      | None =>
          if deadline <=? Net.ticks s then Some (TimedOut, s)
          else
            '(events, s) ← poll_devices s;
            if events <? 0 then Some (PollFailed, s)
            else
              '(r, s) ← Net.icmp_take_echo_reply identifier sequence s;
              match r with
              | Some r => Some (Replied (round_trip send_tick (Net.ticks s)) (Net.r_src r), s)
              | None => s ← pass (events =? 0) s; shell_ping_wait_for_reply n' identifier sequence send_tick deadline s
              end
      end
  end.

(** The wait between two requests; false when a poll fails. *)
Fixpoint interval_loop (n : nat) (target_tick : Z) s : option (bool * Net.net) :=
  match n with
  | O => None
  | S n' =>
      if target_tick <=? Net.ticks s then Some (true, s)
      else
        '(events, s) ← poll_devices s;
        if events <? 0 then Some (false, s)
        else s ← pass (events =? 0) s; interval_loop n' target_tick s
  end.

Definition answer_shown (sequence rtt_ms : Z) (src : list Z) : list command :=
  [Text (lit "net: reply from "); Text (format_ipv4_address src 32); Text (lit " seq="); Text (write_u64 sequence);
   Text (lit " time="); Text (write_u64 rtt_ms); Line (lit "ms")].

(** One request: what is shown, the statistics, and whether to go on. *)
Definition ping_once (d : nat) (target : list Z) (sequence : Z) (t : statistics) s : option (bool * list command * statistics * Net.net) :=
  let t := count_sent t in
  let arp_deadline := Net.ticks s +64 SHELL_PING_ARP_WAIT_TICKS in
  '(tx_status, send_tick, s) ← shell_ping_transmit 2 d target shell_ping_identifier sequence arp_deadline s;
  if tx_status <? 0 then Some (false, show "net: ping transmit failed", t, s)
  else if tx_status =? 0 then Some (true, show "net: ARP resolution timed out", t, s)
  else
    '(a, s) ← shell_ping_wait_for_reply WAIT_ROUNDS shell_ping_identifier sequence send_tick (send_tick +64 SHELL_PING_TIMEOUT_TICKS) s;
    match a with
    | PollFailed => Some (false, show "net: poll failed during ping", t, s)
    | TimedOut => Some (true, show "net: request timed out", t, s)
    | Replied rtt_ms src => Some (true, answer_shown sequence rtt_ms src, count_reply rtt_ms t, s)
    end.

(** [n] requests are left; [sequence] is [shell_ping_sequence]. *)
Fixpoint ping_loop (n : nat) (d : nat) (target : list Z) (sequence : Z) (t : statistics) s : option (list command * statistics * Z * Net.net) :=
  match n with
  | O => Some ([], t, sequence, s)
  | S n' =>
      let sequence := u16 (sequence + 1) in
      '(go_on, shown, t, s) ← ping_once d target sequence t s;
      if negb go_on then Some (shown, t, sequence, s)
      else if (n' =? 0)%nat then Some (shown, t, sequence, s)
      else
        '(go_on, s) ← interval_loop WAIT_ROUNDS (Net.ticks s +64 SHELL_PING_INTERVAL_TICKS) s;
        if negb (go_on : bool) then Some (shown ++ show "net: poll failed during interval", t, sequence, s)
        else '(more, t, sequence, s) ← ping_loop n' d target sequence t s; Some (shown ++ more, t, sequence, s)
  end.

(** The number of requests behind the address. *)
Definition ping_count (rest : cstring) : string + Z :=
  if char0 rest =? 0 then inr SHELL_PING_DEFAULT_COUNT
  else match one_argument rest 16 with
  | None => inl "net: argument too long"%string
  | Some (count_text, more) =>
      if (more : bool) then inl "Usage: net ping <ipv4> [count]"%string
      else match parse_positive_int count_text with
      | None => inl "net: invalid count"%string
      | Some count => if SHELL_PING_MAX_COUNT <? count then inl "net: count too large"%string else inr count
      end
  end.

Definition ping_arguments (token : cstring) : string + cstring * list Z * Z :=
  if char0 token =? 0 then inl "Usage: net ping <ipv4> [count]"%string
  else match shell_copy_token token 32 with
  | None => inl "net: address too long"%string
  | Some ip_text =>
      match ping_count (skip_spaces (drop (length ip_text) token)) with
      | inl message => inl message
      | inr count => match parse_ipv4_address ip_text with None => inl "net: invalid IPv4 address"%string | Some target => inr (ip_text, target, count) end
      end
  end.

Definition command_net_ping (args : cstring) (sequence : Z) s : option (list command * Z * Net.net) :=
  dev ← shell_default_net_device s;
  match dev with
  | None => Some (show "net: no interfaces registered", sequence, s)
  | Some d =>
      match ping_arguments (skip_spaces args) with
      | inl message => Some (show message, sequence, s)
      | inr (ip_text, target, count) =>
          '(shown, t, sequence, s) ← ping_loop (Z.to_nat count) d target sequence no_statistics (Net.icmp_clear_echo_replies s);
          Some ([Text (lit "net: pinging "); Text ip_text; Line (lit " with 32 bytes of data")] ++ shown ++ statistics_shown ip_text t, sequence, s)
      end
  end.

(** ** The command net *)

Definition keep (sequence : Z) (r : option (list command * Net.net)) : option (list command * Z * Net.net) :=
  '(cs, s) ← r; Some (cs, sequence, s).

Definition command_net (args : cstring) (sequence : Z) s : option (list command * Z * Net.net) :=
  let sub := skip_spaces args in
  if char0 sub =? 0 then Some (command_net_help, sequence, s)
  else match shell_copy_token sub 8 with
  | None => Some (show "net: command too long", sequence, s)
  | Some token =>
      let rest := skip_spaces (drop (length token) sub) in
      if shell_str_equals token (lit "help") then
        Some (if char0 rest =? 0 then command_net_help else show "Usage: net help", sequence, s)
      else if shell_str_equals token (lit "list") then
        if char0 rest =? 0 then cs ← command_net_list s; Some (cs, sequence, s) else Some (show "Usage: net list", sequence, s)
      else if shell_str_equals token (lit "poll") then keep sequence (command_net_poll rest s)
      else if shell_str_equals token (lit "arp") then keep sequence (command_net_arp rest s)
      else if shell_str_equals token (lit "ping") then command_net_ping rest sequence s
      else if shell_str_equals token (lit "ip") then keep sequence (command_net_ip rest s)
      else Some (show "net: unknown command" ++ command_net_help, sequence, s)
  end.

End net.

End ShellTools.

Module PingProps.

Import Arrays Bytes VfsPath ShellText ShellTools.
Import NetSpec.

(** Devices stay, and time does not go back. *)
Definition later (s s' : Net.net) : Prop :=
  wf s' ∧ (Net.dev_store s' = Net.dev_store s ∧ Net.g_devices s' = Net.g_devices s ∧ Net.g_device_count s' = Net.g_device_count s) ∧
  Net.ticks s ≤ Net.ticks s'.

Lemma later_refl s : wf s → later s s.
Proof. intros. split; [done|]. split; [done|lia]. Qed.

Lemma later_trans s t u : later s t → later t u → later s u.
Proof. intros (_ & (? & ? & ?) & ?) (? & (? & ? & ?) & ?). split; [done|]. split; [|lia]. split_and!; congruence. Qed.

(** A bind that returns: what its first part returned. *)
Local Ltac invert_bind E :=
  let x := fresh "x" in let Hx := fresh "Hx" in apply bind_Some in E; destruct E as (x & Hx & E).

(** ** Outcomes *)

(** How a request ends: with a message, or with an answer. *)
Inductive outcome := NoAnswer (message : string) | Answer (rtt_ms : Z) (src : list Z).

Definition outcome_shown (sequence : Z) (o : outcome) : list command :=
  match o with NoAnswer message => show message | Answer rtt_ms src => answer_shown sequence rtt_ms src end.

(** The requests are numbered one after the other, with 16 bits. *)
Fixpoint outcomes_shown (sequence : Z) (os : list outcome) : list command :=
  match os with [] => [] | o :: os' => outcome_shown (u16 (sequence + 1)) o ++ outcomes_shown (u16 (sequence + 1)) os' end.

Definition count_outcome (t : statistics) (o : outcome) : statistics :=
  match o with NoAnswer _ => count_sent t | Answer rtt_ms _ => count_reply rtt_ms (count_sent t) end.

Definition outcome_ok (o : outcome) : Prop := match o with NoAnswer _ => True | Answer rtt_ms _ => 0 ≤ rtt_ms ≤ UINT32_MAX end.

(** The times of the answers. *)
Definition rtts (os : list outcome) : list Z := omap (fun o => match o with NoAnswer _ => None | Answer rtt_ms _ => Some rtt_ms end) os.

Definition sum (l : list Z) : Z := foldr Z.add 0 l.

(** Statistics that tell what happened; the sum of the times stops at the largest number. *)
Record tells (os : list outcome) (t : statistics) : Prop := {
  tl_sent : st_sent t = Z.of_nat (length os);
  tl_received : st_received t = Z.of_nat (length (rtts os));
  tl_min : ∀ r, r ∈ rtts os → min_rtt t ≤ r;
  tl_max : ∀ r, r ∈ rtts os → r ≤ max_rtt t;
  tl_reached : rtts os ≠ [] → min_rtt t ∈ rtts os ∧ max_rtt t ∈ rtts os;
  tl_total : total_rtt_ms t = Z.min (sum (rtts os)) UINT32_MAX
}.

Lemma sum_app l k : sum (l ++ k) = sum l + sum k.
Proof. induction l as [|x l IH]; [done|]. cbn. unfold sum in *. lia. Qed.

Lemma rtts_app a b : rtts (a ++ b) = rtts a ++ rtts b.
Proof. apply omap_app. Qed.

Lemma rtts_range os : Forall outcome_ok os → Forall (fun r => 0 ≤ r ≤ UINT32_MAX) (rtts os).
Proof. induction 1 as [|o os Ho _ IH]; [constructor|]. destruct o; [exact IH|by constructor]. Qed.

Lemma sum_range l : Forall (fun r => 0 ≤ r ≤ UINT32_MAX) l → 0 ≤ sum l.
Proof. induction 1; cbn; [lia|]. unfold sum in *. lia. Qed.

(** Nothing has been heard, or the statistics tell it. *)
Lemma tells_fold os : Forall outcome_ok os → tells os (foldl count_outcome no_statistics os) ∧ (rtts os = [] → foldl count_outcome no_statistics os = Statistics (Z.of_nat (length os)) 0 UINT32_MAX 0 0).
Proof.
  induction os as [|o os IH] using rev_ind; intros Ho.
  { split; [|done]. constructor; cbn; [done|done|set_solver|set_solver|done|done]. }
  apply Forall_app in Ho as [Hos Ho]. apply Forall_inv in Ho. destruct (IH Hos) as [[H1 H2 H3 H4 H5 H6] Hnil]. clear IH.
  pose proof (sum_range _ (rtts_range _ Hos)) as Hsum. rewrite foldl_app. cbn [foldl]. set (t := foldl _ _ os) in *. rewrite !rtts_app.
  destruct o as [m|r src]; cbn [count_outcome].
  - change (rtts [NoAnswer m]) with (@nil Z). rewrite app_nil_r. split.
    + constructor; cbn [count_sent st_sent st_received min_rtt max_rtt total_rtt_ms]; try done; rewrite ?length_app, ?rtts_app; change (rtts [NoAnswer m]) with (@nil Z); rewrite ?app_nil_r; try done.
      rewrite H1. cbn. lia.
    + intros Hn. rewrite (Hnil Hn), length_app. unfold count_sent. cbn. f_equal. lia.
  - change (rtts [Answer r src]) with [r]. split; [|intros E; by apply app_eq_nil in E as [_ ?]].
    assert (Hcase : rtts os = [] ∨ rtts os ≠ []) by (destruct (rtts os); [by left|by right]).
    assert (Hmin0 : rtts os = [] → min_rtt t = UINT32_MAX ∧ max_rtt t = 0) by (intros Hn; by rewrite (Hnil Hn)).
    cbn [outcome_ok] in Ho.
    constructor; cbn [count_reply count_sent st_sent st_received min_rtt max_rtt total_rtt_ms]; rewrite ?rtts_app; change (rtts [Answer r src]) with [r].
    + rewrite H1, length_app. cbn. lia.
    + rewrite H2, length_app. cbn. lia.
    + intros x [Hx|Hx]%elem_of_app; [apply H3 in Hx|apply list_elem_of_singleton in Hx as ->]; case_match; lia.
    + intros x [Hx|Hx]%elem_of_app; [apply H4 in Hx|apply list_elem_of_singleton in Hx as ->]; case_match; lia.
    + intros _. destruct Hcase as [Hn|Hn].
      * destruct (Hmin0 Hn) as [-> ->]. rewrite Hn. cbn [app]. rewrite !list_elem_of_singleton. destruct (Z.ltb_spec r UINT32_MAX), (Z.ltb_spec 0 r); lia.
      * destruct (H5 Hn). split; case_match; apply elem_of_app; (by left) || (right; by apply list_elem_of_singleton).
    + rewrite H6, sum_app. change (sum [r]) with (r + 0). case_match; lia.
Qed.

Lemma average_between l a b : l ≠ [] → (∀ r, r ∈ l → a ≤ r) → (∀ r, r ∈ l → r ≤ b) → a ≤ sum l / Z.of_nat (length l) ≤ b.
Proof.
  intros Hn Ha Hb. assert (Hl : a * Z.of_nat (length l) ≤ sum l ≤ b * Z.of_nat (length l)).
  { clear Hn. induction l as [|r l IH]; [cbn; lia|]. cbn [length sum foldr]. fold (sum l).
    specialize (Ha r ltac:(set_solver)) as Har. specialize (Hb r ltac:(set_solver)) as Hbr. destruct IH; [set_solver|set_solver|]. lia. }
  assert (0 < Z.of_nat (length l)) by (destruct l; [done|cbn; lia]). split; [apply Z.div_le_lower_bound; lia|].
  apply Z.lt_succ_r, Z.div_lt_upper_bound; lia.
Qed.

(** The report on a ping: requests, answers, losses in percent; the shortest, mean and longest
    time when there was an answer. *)
Definition packets_shown (ip_text : cstring) (sent received : Z) : list command :=
  [Text (lit "net: Ping statistics for "); Text ip_text; Line [];
   Text (lit "net:     Packets: Sent = "); Text (write_u64 sent); Text (lit ", Received = "); Text (write_u64 received);
   Text (lit ", Lost = "); Text (write_u64 (sent - received)); Text (lit " ("); Text (write_u64 ((sent - received) * 100 / sent)); Line (lit "% loss)")].

Definition times_shown (shortest mean longest : Z) : list command :=
  [Text (lit "net:     RTT min/avg/max = "); Text (write_u64 shortest); Text (lit "/"); Text (write_u64 mean); Text (lit "/"); Text (write_u64 longest);
   Line (lit " ms")].

Lemma rtts_length os : (length (rtts os) ≤ length os)%nat.
Proof.
  induction os as [|[m|r src] os IH]; [done|change (rtts (NoAnswer m :: os)) with (rtts os)|change (rtts (Answer r src :: os)) with (r :: rtts os)]; cbn [length]; lia.
Qed.

Lemma statistics_report ip_text os t :
  tells os t → (1 ≤ length os ≤ 100)%nat →
  statistics_shown ip_text t = packets_shown ip_text (Z.of_nat (length os)) (Z.of_nat (length (rtts os))) ++
    match rtts os with
    | [] => []
    | _ => times_shown (min_rtt t) (Z.min (sum (rtts os)) UINT32_MAX / Z.of_nat (length (rtts os))) (max_rtt t)
    end.
Proof.
  intros [H1 H2 _ _ _ H6] Hl. pose proof (rtts_length os) as Hr. unfold statistics_shown. rewrite H1, H2, H6.
  rewrite (proj2 (Z.ltb_ge (Z.of_nat (length os) - Z.of_nat (length (rtts os))) 0)), (proj2 (Z.ltb_lt 0 (Z.of_nat (length os)))) by lia.
  rewrite u32_small by lia. by destruct (rtts os).
Qed.

Lemma ipv4_loop_length text value n out r : ipv4_loop text value n out = Some r → bytes out → length r = 4%nat ∧ bytes r.
Proof.
  assert (Hu : ∀ v, bytes out → bytes (out ++ [u8 v])).
  { intros v Hb. apply bytes_app. split; [done|]. constructor; [apply Z.mod_pos_bound; lia|constructor]. }
  revert value n out Hu. induction text as [|c text IH]; intros value n out Hu E Hb; cbn [ipv4_loop] in E.
  - destruct (Nat.eqb_spec (length out) 3) as [Hl|]; [|done]. cbn [negb orb] in E. case_match; [done|]. injection E as <-.
    split; [rewrite length_app, Hl; done|]. by apply Hu.
  - assert (Hu2 : ∀ v w, bytes out → bytes ((out ++ [u8 v]) ++ [u8 w])).
    { intros v w ?. apply bytes_app. split; [by apply Hu|]. constructor; [apply Z.mod_pos_bound; lia|constructor]. }
    repeat case_match; try done; (eapply IH; [|exact E|]); auto.
Qed.

Lemma ping_arguments_ok token ip_text target count :
  ping_arguments token = inr (ip_text, target, count) → length target = 4%nat ∧ bytes target ∧ 1 ≤ count ≤ 100.
Proof.
  unfold ping_arguments. intros E. case_match; [done|]. destruct (shell_copy_token token 32) as [ip|]; [|done].
  destruct (ping_count _) as [|n] eqn:En; [done|]. destruct (parse_ipv4_address ip) as [a|] eqn:Ea; [|done]. injection E as <- <- <-.
  apply ipv4_loop_length in Ea as [Hl Hb]; [|constructor]. split; [done|]. split; [done|].
  unfold ping_count in En. case_match; [injection En as <-; unfold SHELL_PING_DEFAULT_COUNT; lia|]. destruct (one_argument _ _) as [[w more]|]; [|done].
  destruct more; [done|]. destruct (parse_positive_int w) as [k|] eqn:Ek; [|done]. unfold SHELL_PING_MAX_COUNT in En.
  destruct (Z.ltb_spec 100 k); [done|]. injection En as <-. split; [|lia].
  unfold parse_positive_int in Ek. case_match; [done|]. destruct (positive_int _ _) as [v|]; [|done]. cbn in Ek. destruct (Z.leb_spec v 0); [done|]. injection Ek as <-. lia.
Qed.

Section ping.
Context (driver : nat → list (nat * list Z) → list Z → Z) (poll : nat → Net.net → option (Z * Net.net)) (pass : bool → Net.net → option Net.net).
Implicit Types s : Net.net.

(** What the ping asks of the world around it: a driver answers 0 or less to a frame, a poll
    returns and leaves the stack well-formed, and while the shell sleeps or yields, time
    passes. *)
Class Surroundings := {
  driver_result d l f : driver d l f ≤ 0;
  poll_returns d s : wf s → ∃ rc s', poll d s = Some (rc, s') ∧ later s s';
  pass_returns b s : wf s → ∃ s', pass b s = Some s' ∧ later s s' ∧ (Net.ticks s + 1 < 2 ^ 64 → Net.ticks s < Net.ticks s')
}.
Context `{!Surroundings}.

(** ** What happens while the shell pings *)

(** A poll that does not fail, or a rest. *)
Inductive wait s : Net.net → Prop :=
| WaitPoll rc s' : poll_devices poll s = Some (rc, s') → 0 ≤ rc → wait s s'
| WaitRest idle s' : pass idle s = Some s' → wait s s'.

Definition waits : Net.net → Net.net → Prop := rtc wait.

Definition poll_fails s s' : Prop := ∃ rc, poll_devices poll s = Some (rc, s') ∧ rc < 0.

(** The oldest recorded reply with this identifier and number is taken; there is none. *)
Definition takes (identifier sequence : Z) s (r : Net.icmp_echo_reply) s' : Prop :=
  Net.r_identifier r = identifier ∧ Net.r_sequence r = sequence ∧
  ∃ i, NetLayers.replies s !! i = Some r ∧ (∀ j r', (j < i)%nat → NetLayers.replies s !! j = Some r' → Net.reply_is identifier sequence r' = false) ∧
    NetLayers.replies s' = remove_at i (NetLayers.replies s).

Definition unanswered (identifier sequence : Z) s : Prop := ∀ r, r ∈ NetLayers.replies s → Net.reply_is identifier sequence r = false.

Section request.
Context (d : nat) (target : list Z) (identifier sequence : Z).

(** The echo request is given to the stack, which answers with [rc]. *)
Definition sends (rc : Z) s s' : Prop := Net.icmp_send_echo_request driver (Some d) (Some target) identifier sequence s = Some (rc, s').

(** The wait for the address, until [deadline]. *)
Inductive arp_wait (deadline : Z) s : Z → Net.net → Prop :=
| ArpKnown s' : waits s s' → knows d target s' = true → arp_wait deadline s 1 s'
| ArpUnknown s' : waits s s' → knows d target s' = false → deadline ≤ Net.ticks s' → arp_wait deadline s 0 s'
| ArpFails s1 s' : waits s s1 → poll_fails s1 s' → arp_wait deadline s (-1) s'.

(** The transmission: at once, or when the address is known, which the first attempt asks for. *)
Inductive transmission (deadline : Z) s : Z → Net.net → Prop :=
| TxRefused rc s' : sends rc s s' → rc < 0 → transmission deadline s (-1) s'
| TxSent s' : sends 0 s s' → transmission deadline s 1 s'
| TxUnknown rc s1 r s' : sends rc s s1 → 0 < rc → arp_wait deadline s1 r s' → r ≤ 0 → transmission deadline s r s'
| TxAgain rc s1 s2 r s' : sends rc s s1 → 0 < rc → arp_wait deadline s1 1 s2 → transmission deadline s2 r s' → transmission deadline s r s'.

(** The wait for a reply to what was sent at [send_tick], until [deadline]. *)
Inductive reply_wait (send_tick deadline : Z) s : answer → Net.net → Prop :=
| ReplyTaken s1 r s' : waits s s1 → takes identifier sequence s1 r s' →
    reply_wait send_tick deadline s (Replied (round_trip send_tick (Net.ticks s')) (Net.r_src r)) s'
| ReplyLate s' : waits s s' → unanswered identifier sequence s' → deadline ≤ Net.ticks s' → reply_wait send_tick deadline s TimedOut s'
| ReplyFails s1 s' : waits s s1 → poll_fails s1 s' → reply_wait send_tick deadline s PollFailed s'.

(** How a request ends, and whether the ping goes on. *)
Inductive request s : outcome → bool → Net.net → Prop :=
| NotSent r s' : transmission (Net.ticks s +64 SHELL_PING_ARP_WAIT_TICKS) s r s' → r < 0 →
    request s (NoAnswer "net: ping transmit failed") false s'
| NoAddress s' : transmission (Net.ticks s +64 SHELL_PING_ARP_WAIT_TICKS) s 0 s' → request s (NoAnswer "net: ARP resolution timed out") true s'
| Answered s1 rtt src s' : transmission (Net.ticks s +64 SHELL_PING_ARP_WAIT_TICKS) s 1 s1 →
    reply_wait (Net.ticks s1) (Net.ticks s1 +64 SHELL_PING_TIMEOUT_TICKS) s1 (Replied rtt src) s' → request s (Answer rtt src) true s'
| Late s1 s' : transmission (Net.ticks s +64 SHELL_PING_ARP_WAIT_TICKS) s 1 s1 →
    reply_wait (Net.ticks s1) (Net.ticks s1 +64 SHELL_PING_TIMEOUT_TICKS) s1 TimedOut s' → request s (NoAnswer "net: request timed out") true s'
| Broken s1 s' : transmission (Net.ticks s +64 SHELL_PING_ARP_WAIT_TICKS) s 1 s1 →
    reply_wait (Net.ticks s1) (Net.ticks s1 +64 SHELL_PING_TIMEOUT_TICKS) s1 PollFailed s' →
    request s (NoAnswer "net: poll failed during ping") false s'.

End request.

(** The requests of a ping, at most [n]: how they ended, and what is shown behind the last. *)
Inductive requests (d : nat) (target : list Z) : nat → Z → Net.net → list outcome → list command → Net.net → Prop :=
| AllSent sequence s o go s' : request d target shell_ping_identifier (u16 (sequence + 1)) s o go s' → requests d target 1 sequence s [o] [] s'
| Stopped n sequence s o s' : request d target shell_ping_identifier (u16 (sequence + 1)) s o false s' → requests d target (S n) sequence s [o] [] s'
| Interrupted n sequence s o s1 s2 s' : request d target shell_ping_identifier (u16 (sequence + 1)) s o true s1 → waits s1 s2 → poll_fails s2 s' →
    requests d target (S (S n)) sequence s [o] (show "net: poll failed during interval") s'
| NextRequest n sequence s o s1 s2 os rest s' : request d target shell_ping_identifier (u16 (sequence + 1)) s o true s1 →
    waits s1 s2 → (Net.ticks s1 +64 SHELL_PING_INTERVAL_TICKS) ≤ Net.ticks s2 → requests d target n (u16 (sequence + 1)) s2 os rest s' →
    requests d target (S n) sequence s (o :: os) rest s'.

Lemma poll_loop_ok n i polled s :
  wf s → (Net.g_device_count s ≤ i + n)%nat → ∃ rc s', Net.poll_loop poll n i polled s = Some (rc, s') ∧ later s s'.
Proof.
  revert i polled s. induction n as [|n IH]; intros i polled s Hs Hn; cbn [Net.poll_loop];
    (destruct (Nat.leb_spec (Net.g_device_count s) i) as [Hle|Hlt]; [eexists _, s; split; [done|by apply later_refl]|]); [lia|].
  destruct (wf_registered _ Hs i Hlt) as (d & nd & -> & Hnd & _). cbn [mbind option_bind]. rewrite Hnd. cbn [mbind option_bind].
  destruct (negb _); [apply IH; [done|lia]|]. destruct (poll_returns d s Hs) as (rc & s1 & -> & H1). cbn [mbind option_bind].
  destruct (IH (S i) (if 0 <? rc then s32 (polled + rc) else polled) s1) as (rc' & s2 & -> & H2); [apply H1|destruct H1 as (_ & (_ & _ & ->) & _); lia|].
  eexists _, s2. split; [done|]. by eapply later_trans.
Qed.

Lemma poll_devices_ok s : wf s → ∃ rc s', poll_devices poll s = Some (rc, s') ∧ later s s'.
Proof. intros Hs. apply poll_loop_ok; [done|]. pose proof (wf_device_count _ Hs). lia. Qed.

(** ** Sending *)

Lemma ethernet_time dev dm ty p len s r s' :
  Net.ethernet_send_frame driver dev dm ty p len s = Some (r, s') → r ≤ 0 ∧ Net.ticks s' = Net.ticks s.
Proof.
  unfold Net.ethernet_send_frame. intros E. repeat (invert_bind E || (case_match; try (simplify_eq; split; [lia|done]))).
  unfold Net.transmit in E. simplify_eq. split; [apply driver_result|done].
Qed.

Lemma resolve_time dev ip s r m s' : Net.arp_resolve driver dev ip s = Some (r, m, s') → Net.ticks s' = Net.ticks s.
Proof.
  unfold Net.arp_resolve. intros E. destruct dev as [d|]; [|by simplify_eq]. destruct ip as [ip|]; [|by simplify_eq].
  destruct (Net.arp_cache_lookup d ip s); [by simplify_eq|]. repeat invert_bind E. destruct (_ : Z * Net.net) as [r' s1] in *.
  match goal with H : Net.ethernet_send_frame _ _ _ _ _ _ _ = _ |- _ => apply ethernet_time in H as [_ <-] end. by simplify_eq.
Qed.

Lemma knows_true d target s : knows d target s = true ↔ is_Some (Net.arp_cache_lookup d target s).
Proof. unfold knows. by rewrite bool_decide_eq_true. Qed.

Lemma ipv4_send_time d target protocol p len s r s' :
  Net.ipv4_send driver (Some d) (Some target) protocol p len s = Some (r, s') →
  Net.ticks s' = Net.ticks s ∧ (knows d target s = true → r ≤ 0).
Proof.
  unfold Net.ipv4_send. intros E. case_match; [simplify_eq; split; [done|lia]|]. case_match; [simplify_eq; split; [done|lia]|].
  invert_bind E. destruct x as [[resolve dmac] s1]. cbn iota in E.
  assert (Hk : knows d target s = true → resolve = 0).
  { intros [m Hm]%knows_true. unfold Net.arp_resolve in Hx. rewrite Hm in Hx. by simplify_eq. }
  apply resolve_time in Hx. destruct (Z.ltb_spec resolve 0); [simplify_eq; split; [done|lia]|].
  destruct (Z.ltb_spec 0 resolve); [simplify_eq; split; [done|]; intros ?%Hk; lia|].
  repeat invert_bind E. apply ethernet_time in E as [Hr Ht]. split; [|done]. by rewrite Ht.
Qed.

Lemma send_echo_ok s d target identifier sequence :
  wf s → (d < length (Net.dev_store s))%nat → length target = 4%nat → bytes target →
  ∃ r s', Net.icmp_send_echo_request driver (Some d) (Some target) identifier sequence s = Some (r, s') ∧ later s s' ∧
    (knows d target s = true → r ≤ 0).
Proof.
  intros Hs Hd Hl Hb. destruct (NetRun.ping_safe driver s (Some d) (Some target) identifier sequence Hs) as ([r s'] & E & Hs' & Hk).
  { split; [by intros ? [= <-]|by intros ? [= <-]]. }
  exists r, s'. split; [exact E|]. unfold Net.icmp_send_echo_request in E. do 2 invert_bind E. apply ipv4_send_time in E as [Ht Hr].
  split; [|exact Hr]. split; [done|]. split; [split_and!; apply Hk|lia].
Qed.

(** ** Waiting *)

Lemma take_ok identifier sequence s :
  wf s → ∃ r s', Net.icmp_take_echo_reply identifier sequence s = Some (r, s') ∧ later s s' ∧
    match r with Some r => takes identifier sequence s r s' | None => s' = s ∧ unanswered identifier sequence s end.
Proof.
  intros Hs. unfold Net.icmp_take_echo_reply. pose proof (wf_replies _ Hs). pose proof (wf_reply_count _ Hs).
  rewrite cells_ok by lia. cbn [mbind option_bind]. fold (NetLayers.replies s). destruct (first_index _ _) as [i|] eqn:Ei; cycle 1.
  { eexists None, s. split; [done|]. split; [by apply later_refl|]. split; [done|]. intros r [i Hi]%list_elem_of_lookup.
    by apply (proj1 (first_index_None _ _) Ei i). }
  destruct (NetRun.take_reply_ok i s Hs) as ([r s'] & E & Hs' & Hk & Hr & Hrest). exists r, s'. split; [exact E|].
  split; [split; [done|]; split; [split_and!; apply Hk|]|].
  - unfold Net.icmp_take_reply_at_locked in E. case_match; [by simplify_eq|]. repeat invert_bind E. by simplify_eq.
  - apply first_index_Some in Ei as (x & Hx & [Hi%Z.eqb_eq Hq%Z.eqb_eq]%andb_true_iff & Hold). rewrite Hr, Hx.
    split; [done|]. split; [done|]. by exists i.
Qed.

Lemma waits_trans s1 s2 s3 : waits s1 s2 → waits s2 s3 → waits s1 s3.
Proof. apply rtc_trans. Qed.

Lemma arp_wait_from d target deadline s s1 r s' : waits s s1 → arp_wait d target deadline s1 r s' → arp_wait d target deadline s r s'.
Proof. intros Hw []; [eapply ArpKnown|eapply ArpUnknown|eapply ArpFails]; first [by eapply waits_trans|done]. Qed.

Lemma reply_wait_from identifier sequence send_tick deadline s s1 a s' :
  waits s s1 → reply_wait identifier sequence send_tick deadline s1 a s' → reply_wait identifier sequence send_tick deadline s a s'.
Proof. intros Hw []; [eapply ReplyTaken|eapply ReplyLate|eapply ReplyFails]; first [by eapply waits_trans|done]. Qed.

(** While the deadline is ahead, a rest brings it nearer. *)
Lemma rest_ok b deadline s s1 n :
  wf s → deadline < 2 ^ 64 → Net.ticks s < deadline → deadline - Net.ticks s < Z.of_nat (S n) → later s s1 →
  ∃ s2, pass b s1 = Some s2 ∧ later s s2 ∧ 0 < Z.of_nat n ∧ deadline - Net.ticks s2 < Z.of_nat n.
Proof.
  intros Hs Hdl Hlt Hn H1. destruct (pass_returns b s1) as (s2 & E & H2 & Ht); [apply H1|]. exists s2. split; [done|].
  split; [by eapply later_trans|]. destruct H1 as (_ & _ & H1), H2 as (_ & _ & H2). split; [lia|].
  destruct (Z.lt_ge_cases (Net.ticks s1 + 1) (2 ^ 64)); [specialize (Ht ltac:(done)); lia|lia].
Qed.

Lemma wait_for_arp_ok n d target deadline s :
  wf s → deadline < 2 ^ 64 → 0 < Z.of_nat n → deadline - Net.ticks s < Z.of_nat n →
  ∃ r s', shell_ping_wait_for_arp poll pass n d target deadline s = Some (r, s') ∧ later s s' ∧ arp_wait d target deadline s r s'.
Proof.
  revert s. induction n as [|n IH]; intros s Hs Hdl Hpos Hn; [lia|]. cbn [shell_ping_wait_for_arp].
  destruct (knows d target s) eqn:Ek; [exists 1, s; split; [done|]; split; [by apply later_refl|by constructor]|].
  destruct (Z.leb_spec deadline (Net.ticks s)) as [Hend|Hend]; [exists 0, s; split; [done|]; split; [by apply later_refl|by constructor]|].
  destruct (poll_devices_ok s Hs) as (rc & s1 & E & H1). rewrite E. cbn [mbind option_bind].
  destruct (Z.ltb_spec rc 0) as [Hneg|Hneg]; [exists (-1), s1; split; [done|]; split; [done|]; by eapply ArpFails; [constructor|eexists]|].
  pose proof (WaitPoll _ _ _ E ltac:(lia)) as Hw1.
  destruct (knows d target s1) eqn:Ek1; [exists 1, s1; split; [done|]; split; [done|]; constructor; [by apply rtc_once|done]|].
  destruct (rest_ok (rc =? 0) deadline s s1 n) as (s2 & E2 & H2 & Hp & Ht); [done..|]. rewrite E2. cbn [mbind option_bind].
  destruct (IH s2) as (r & s3 & -> & H3 & Hr); [apply H2|done..|]. exists r, s3. split; [done|]. split; [by eapply later_trans|].
  apply (arp_wait_from _ _ _ s s2); [|done]. eapply rtc_l; [exact Hw1|]. eapply rtc_once, WaitRest, E2.
Qed.

Lemma wait_for_reply_ok n identifier sequence send_tick deadline s :
  wf s → deadline < 2 ^ 64 → 0 < Z.of_nat n → deadline - Net.ticks s < Z.of_nat n →
  ∃ a s', shell_ping_wait_for_reply poll pass n identifier sequence send_tick deadline s = Some (a, s') ∧ later s s' ∧
    reply_wait identifier sequence send_tick deadline s a s'.
Proof.
  revert s. induction n as [|n IH]; intros s Hs Hdl Hpos Hn; [lia|]. cbn [shell_ping_wait_for_reply].
  destruct (take_ok identifier sequence s Hs) as (r & s1 & -> & H1 & Hr). cbn [mbind option_bind].
  destruct r as [r|]; [eexists _, s1; split; [done|]; split; [done|]; by eapply ReplyTaken; [constructor|]|]. destruct Hr as [-> Hr].
  destruct (Z.leb_spec deadline (Net.ticks s)) as [Hend|Hend]; [eexists _, s; split; [done|]; split; [done|]; by constructor|].
  destruct (poll_devices_ok s Hs) as (rc & s2 & E & H2). rewrite E. cbn [mbind option_bind].
  destruct (Z.ltb_spec rc 0) as [Hneg|Hneg]; [eexists _, s2; split; [done|]; split; [done|]; by eapply ReplyFails; [constructor|eexists]|].
  pose proof (WaitPoll _ _ _ E ltac:(lia)) as Hw2.
  destruct (take_ok identifier sequence s2 ltac:(apply H2)) as (r & s3 & -> & H3 & Hr3). cbn [mbind option_bind].
  destruct r as [r|]; [eexists _, s3; split; [done|]; split; [by eapply later_trans|]; by eapply ReplyTaken; [apply rtc_once|]|]. destruct Hr3 as [-> _].
  destruct (rest_ok (rc =? 0) deadline s s2 n) as (s4 & E4 & H4 & Hp & Ht); [done..|]. rewrite E4. cbn [mbind option_bind].
  destruct (IH s4) as (a & s5 & -> & H5 & Ha); [apply H4|done..|]. exists a, s5. split; [done|]. split; [by eapply later_trans|].
  apply (reply_wait_from _ _ _ _ s s4); [|done]. eapply rtc_l; [exact Hw2|]. eapply rtc_once, WaitRest, E4.
Qed.

Lemma reply_wait_time identifier sequence send_tick deadline s rtt src s' :
  reply_wait identifier sequence send_tick deadline s (Replied rtt src) s' → 0 ≤ rtt ≤ UINT32_MAX.
Proof.
  intros Hr. inversion Hr; subst. unfold round_trip, u32, UINT32_MAX.
  match goal with |- _ ≤ ?x mod _ ≤ _ => pose proof (Z.mod_pos_bound x 4294967296) end. lia.
Qed.

Lemma interval_ok n target_tick s :
  wf s → target_tick < 2 ^ 64 → 0 < Z.of_nat n → target_tick - Net.ticks s < Z.of_nat n →
  ∃ (r : bool) s', interval_loop poll pass n target_tick s = Some (r, s') ∧ later s s' ∧
    if r then waits s s' ∧ target_tick ≤ Net.ticks s' else ∃ s1, waits s s1 ∧ poll_fails s1 s'.
Proof.
  revert s. induction n as [|n IH]; intros s Hs Hdl Hpos Hn; [lia|]. cbn [interval_loop].
  destruct (Z.leb_spec target_tick (Net.ticks s)) as [Hend|Hend]; [exists true, s; split; [done|]; split; [by apply later_refl|by split; [constructor|]]|].
  destruct (poll_devices_ok s Hs) as (rc & s1 & E & H1). rewrite E. cbn [mbind option_bind].
  destruct (Z.ltb_spec rc 0) as [Hneg|Hneg]; [exists false, s1; split; [done|]; split; [done|]; exists s; by split; [constructor|eexists]|].
  destruct (rest_ok (rc =? 0) target_tick s s1 n) as (s2 & E2 & H2 & Hp & Ht); [done..|]. rewrite E2. cbn [mbind option_bind].
  assert (Hw : waits s s2). { eapply rtc_l; [by eapply WaitPoll|]. eapply rtc_once, WaitRest, E2. }
  destruct (IH s2) as (r & s3 & -> & H3 & Hr); [apply H2|done..|]. exists r, s3. split; [done|]. split; [by eapply later_trans|].
  destruct r; [destruct Hr|destruct Hr as (s4 & ? & ?); exists s4]; (split; [by eapply waits_trans|done]).
Qed.

(** A second transmission follows only when the address is known. *)
Lemma shell_transmit_ok d target identifier sequence deadline s :
  wf s → (d < length (Net.dev_store s))%nat → length target = 4%nat → bytes target → deadline < 2 ^ 64 → deadline - Net.ticks s < 252 →
  ∃ r tick s', shell_ping_transmit driver poll pass 2 d target identifier sequence deadline s = Some (r, tick, s') ∧ later s s' ∧
    (r = 1 → tick = Net.ticks s') ∧ r ≤ 1 ∧ transmission d target identifier sequence deadline s r s'.
Proof.
  intros Hs Hd Hl Hb Hdl Hdt. cbn [shell_ping_transmit].
  destruct (send_echo_ok s d target identifier sequence Hs Hd Hl Hb) as (rc & s1 & E & H1 & _). rewrite E. cbn [mbind option_bind].
  destruct (Z.eqb_spec rc 0) as [->|Hrc]; [eexists _, _, s1; split_and!; try done; by constructor|].
  destruct (Z.ltb_spec rc 0) as [Hneg|Hneg]; [eexists _, _, s1; split_and!; try done; by eapply TxRefused|].
  destruct (wait_for_arp_ok WAIT_ROUNDS d target deadline s1) as (r & s2 & -> & H2 & Hk); [apply H1|done|done|destruct H1 as (_ & _ & ?); unfold WAIT_ROUNDS; lia|].
  cbn [mbind option_bind]. assert (H12 : later s s2) by (by eapply later_trans).
  destruct (Z.leb_spec r 0) as [Hr0|Hr0]; [eexists _, _, s2; split; [done|]; split_and!; [done|lia|lia|]; eapply TxUnknown; [exact E|lia|done..]|].
  assert (Hknown : r = 1 ∧ knows d target s2 = true) by (inversion Hk; subst; done || lia). destruct Hknown as [-> Hknown].
  destruct (send_echo_ok s2 d target identifier sequence) as (rc2 & s3 & E2 & H3 & Hr2); [apply H2|destruct H12 as (_ & (-> & _) & _); done|done..|].
  rewrite E2. cbn [mbind option_bind]. specialize (Hr2 Hknown). assert (H13 : later s s3) by (by eapply later_trans).
  assert (Hagain : ∀ r, transmission d target identifier sequence deadline s2 r s3 → transmission d target identifier sequence deadline s r s3).
  { intros r Hr. eapply TxAgain; [exact E|lia|exact Hk|exact Hr]. }
  destruct (Z.eqb_spec rc2 0) as [->|]; [eexists _, _, s3; split_and!; try done; by apply Hagain; constructor|].
  rewrite (proj2 (Z.ltb_lt rc2 0)) by lia. eexists _, _, s3. split_and!; try done. apply Hagain. eapply TxRefused; [exact E2|lia].
Qed.

(** ** Requests *)

Lemma deadline_ok s k : wf s → 0 ≤ k < 252 → (Net.ticks s +64 k) < 2 ^ 64 ∧ (Net.ticks s +64 k) - Net.ticks s < 252.
Proof.
  intros Hs Hk. pose proof (wf_ticks _ Hs). unfold u64. change (2 ^ 64) with 18446744073709551616 in *.
  pose proof (Z.mod_pos_bound (Net.ticks s + k) 18446744073709551616). pose proof (Z.mod_le (Net.ticks s + k) 18446744073709551616). lia.
Qed.

Lemma ping_once_ok d target sequence t s :
  wf s → (d < length (Net.dev_store s))%nat → length target = 4%nat → bytes target →
  ∃ go o s', ping_once driver poll pass d target sequence t s = Some (go, outcome_shown sequence o, count_outcome t o, s') ∧ later s s' ∧ outcome_ok o ∧
    request d target shell_ping_identifier sequence s o go s'.
Proof.
  intros Hs Hd Hl Hb. unfold ping_once. unfold SHELL_PING_ARP_WAIT_TICKS. destruct (deadline_ok s 250 Hs) as [Hd1 Hd2]; [lia|].
  destruct (shell_transmit_ok d target shell_ping_identifier sequence _ s Hs Hd Hl Hb Hd1 Hd2) as (tx & tick & s1 & -> & H1 & Htick & Hle & Htx). cbn [mbind option_bind].
  destruct (Z.ltb_spec tx 0); [eexists false, (NoAnswer _), s1; split_and!; try done; by eapply NotSent|].
  destruct (Z.eqb_spec tx 0) as [->|]; [eexists true, (NoAnswer _), s1; split_and!; try done; by eapply NoAddress|].
  assert (tx = 1) as -> by lia. rewrite (Htick eq_refl). unfold SHELL_PING_TIMEOUT_TICKS. destruct (deadline_ok s1 250) as [Hr1 Hr2]; [apply H1|lia|].
  destruct (wait_for_reply_ok WAIT_ROUNDS shell_ping_identifier sequence (Net.ticks s1) (Net.ticks s1 +64 250) s1) as (a & s2 & -> & H2 & Ha); [apply H1|exact Hr1|done|exact Hr2|].
  cbn [mbind option_bind]. assert (H12 : later s s2) by (by eapply later_trans).
  destruct a as [rtt src| |]; [eexists true, (Answer rtt src), s2|eexists true, (NoAnswer _), s2|eexists false, (NoAnswer _), s2];
    (split; [done|]; split; [done|]; split; [first [eapply reply_wait_time, Ha|exact I]|]).
  - by eapply Answered.
  - by eapply Late.
  - by eapply Broken.
Qed.

Lemma ping_loop_ok n d target sequence t s :
  wf s → (d < length (Net.dev_store s))%nat → length target = 4%nat → bytes target → (0 < n)%nat →
  ∃ os rest sequence' s', ping_loop driver poll pass n d target sequence t s =
      Some (outcomes_shown sequence os ++ rest, foldl count_outcome t os, sequence', s') ∧
    later s s' ∧ Forall outcome_ok os ∧ requests d target n sequence s os rest s'.
Proof.
  revert sequence t s. induction n as [|n IH]; intros sequence t s Hs Hd Hl Hb Hn; [lia|]. cbn [ping_loop].
  destruct (ping_once_ok d target (u16 (sequence + 1)) t s Hs Hd Hl Hb) as (go & o & s1 & -> & H1 & Ho & Hreq). cbn [mbind option_bind].
  assert (Hend : ∀ rest s', later s s' → requests d target (S n) sequence s [o] rest s' →
    ∃ os rest' sequence' s'', Some (outcome_shown (u16 (sequence + 1)) o ++ rest, count_outcome t o, u16 (sequence + 1), s') =
      Some (outcomes_shown sequence os ++ rest', foldl count_outcome t os, sequence', s'') ∧
    later s s'' ∧ Forall outcome_ok os ∧ requests d target (S n) sequence s os rest' s'').
  { intros rest s' Hs' Hr. exists [o], rest, (u16 (sequence + 1)), s'. cbn [outcomes_shown foldl length]. rewrite app_nil_r.
    split; [done|]. split; [done|]. split; [by constructor|done]. }
  pose proof (Hend [] s1 H1) as Hend1. rewrite app_nil_r in Hend1.
  destruct go; cbn [negb]; [|apply Hend1; by constructor].
  destruct (Nat.eqb_spec n 0) as [->|]; [apply Hend1; by eapply AllSent|]. destruct n as [|n]; [done|]. unfold SHELL_PING_INTERVAL_TICKS.
  destruct (deadline_ok s1 75) as [Hi1 Hi2]; [apply H1|lia|].
  destruct (interval_ok WAIT_ROUNDS _ s1 ltac:(apply H1) Hi1 ltac:(done) Hi2) as (r & s2 & -> & H2 & Hw). cbn [mbind option_bind].
  assert (H12 : later s s2) by (by eapply later_trans).
  destruct r; cbn [negb]; [|destruct Hw as (sw & ? & ?); apply Hend; [done|by eapply Interrupted]]. destruct Hw as [Hw Hw2].
  destruct (IH (u16 (sequence + 1)) (count_outcome t o) s2) as (os & rest & sq & s3 & -> & H3 & Hos & Hrs);
    [apply H2|destruct H12 as (_ & (-> & _) & _); done|done|done|lia|]. cbn [mbind option_bind].
  exists (o :: os), rest, sq, s3. cbn [outcomes_shown foldl length]. rewrite <- app_assoc. split; [done|]. split; [by eapply later_trans|].
  split; [by constructor|]. by eapply NextRequest.
Qed.

Lemma requests_length d target n sequence s os rest s' : requests d target n sequence s os rest s' → (1 ≤ length os ≤ n)%nat.
Proof. induction 1; cbn [length]; lia. Qed.

(** ** The command *)

Lemma default_device_ok s d : wf s → shell_default_net_device s = Some (Some d) → (d < length (Net.dev_store s))%nat.
Proof.
  intros Hs. unfold shell_default_net_device, Net.net_device_count, Net.net_get_device. destruct (Nat.eqb_spec (Net.g_device_count s) 0); [done|].
  case_match; [done|]. destruct (wf_registered _ Hs 0%nat) as (d' & nd & -> & Hnd & _); [lia|]. intros [= <-]. by eapply lookup_lt_Some.
Qed.

(** ** The other commands *)

Lemma take_any_ok s :
  wf s → ∃ r s', Net.icmp_take_any_echo_reply s = Some (r, s') ∧ later s s' ∧ (is_Some r → Net.g_reply_count s' < Net.g_reply_count s)%nat.
Proof.
  intros Hs. unfold Net.icmp_take_any_echo_reply. destruct (Nat.ltb_spec 0 (Net.g_reply_count s)) as [Hc|Hc]; cycle 1.
  { eexists None, s. split; [done|]. split; [by apply later_refl|]. by intros [? ?]. }
  destruct (NetRun.take_safe 0 s Hs) as ([r s'] & E & Hs' & Hk). exists r, s'. split; [exact E|]. unfold Net.icmp_take_reply_at_locked in E.
  rewrite (proj2 (Nat.leb_gt _ _)) in E by lia. repeat invert_bind E. simplify_eq. split; [|cbn; lia]. split; [done|]. split; [done|cbn; lia].
Qed.

Lemma flush_loop_ok n s : wf s → (Net.g_reply_count s < n)%nat → ∃ cs s', flush_loop n s = Some (cs, s') ∧ later s s'.
Proof.
  revert s. induction n as [|n IH]; intros s Hs Hn; [lia|]. cbn [flush_loop].
  destruct (take_any_ok s Hs) as (r & s1 & -> & H1 & Hr). cbn [mbind option_bind]. destruct r as [r|]; [|eexists _, s1; done].
  destruct (IH s1) as (cs & s2 & -> & H2); [apply H1|specialize (Hr ltac:(done)); lia|]. eexists _, s2. split; [done|]. by eapply later_trans.
Qed.

Lemma flush_replies_ok s : wf s → ∃ cs s', shell_flush_icmp_notifications s = Some (cs, s') ∧ later s s'.
Proof. intros Hs. apply flush_loop_ok; [done|]. pose proof (wf_reply_count _ Hs). lia. Qed.

Lemma watch_loop_ok n p e shown s : wf s → ∃ r cs s', watch_loop poll n p e shown s = Some (r, cs, s') ∧ later s s'.
Proof.
  revert p e shown s. induction n as [|n IH]; intros p e shown s Hs; cbn [watch_loop]; [eexists _, _, s; split; [done|by apply later_refl]|].
  destruct (poll_devices_ok s Hs) as (rc & s1 & -> & H1). cbn [mbind option_bind].
  destruct (rc <? 0); [by eexists _, _, s1|]. destruct (rc =? 0); [by eexists _, _, s1|].
  destruct (flush_replies_ok s1 ltac:(apply H1)) as (cs & s2 & -> & H2). cbn [mbind option_bind].
  destruct (IH (p + 1) (u64 (e + rc)) (shown ++ cs) s2 ltac:(apply H2)) as (r & cs2 & s3 & -> & H3). eexists _, _, s3. split; [done|].
  eapply later_trans; [exact H1|]. by eapply later_trans.
Qed.

Lemma count_loop_ok n p e shown s : wf s → ∃ r cs s', count_loop poll n p e shown s = Some (r, cs, s') ∧ later s s'.
Proof.
  revert p e shown s. induction n as [|n IH]; intros p e shown s Hs; cbn [count_loop]; [eexists _, _, s; split; [done|by apply later_refl]|].
  destruct (poll_devices_ok s Hs) as (rc & s1 & -> & H1). cbn [mbind option_bind]. destruct (rc <? 0); [by eexists _, _, s1|].
  destruct (flush_replies_ok s1 ltac:(apply H1)) as (cs & s2 & -> & H2). cbn [mbind option_bind].
  assert (H12 : later s s2) by (by eapply later_trans). destruct (rc =? 0); [by eexists _, _, s2|].
  destruct (IH (p + 1) (u64 (e + rc)) (shown ++ cs) s2 ltac:(apply H2)) as (r & cs2 & s3 & -> & H3). eexists _, _, s3. split; [done|].
  by eapply later_trans.
Qed.

Lemma net_poll_ok args s : wf s → ∃ cs s', command_net_poll poll args s = Some (cs, s') ∧ later s s'.
Proof.
  intros Hs. pose proof (later_refl s Hs) as H0. unfold command_net_poll. destruct (_ =? 0)%nat; [by eexists _, s|].
  destruct (poll_argument _) as [|iterations]; [by eexists _, s|].
  assert (Hrun : ∃ r cs s', match iterations with None => watch_devices poll s | Some n => count_loop poll (Z.to_nat n) 0 0 [] s end = Some (r, cs, s') ∧ later s s').
  { destruct iterations as [n|]; [by apply count_loop_ok|]. unfold watch_devices.
    destruct (watch_loop_ok 64 0 0 [] s Hs) as (r & cs & s1 & -> & H1). cbn [mbind option_bind]. by eexists _, _, s1. }
  destruct Hrun as (r & cs & s1 & -> & H1). cbn [mbind option_bind]. destruct r as [[p e]|]; [|by eexists _, s1].
  destruct (flush_replies_ok s1 ltac:(apply H1)) as (cs2 & s2 & -> & H2). cbn [mbind option_bind]. eexists _, s2. split; [done|]. by eapply later_trans.
Qed.

Lemma default_device_at s : wf s → ∃ dev, shell_default_net_device s = Some dev ∧ ∀ d, dev = Some d → (d < length (Net.dev_store s))%nat.
Proof.
  intros Hs. destruct (shell_default_net_device s) as [dev|] eqn:E.
  - exists dev. split; [done|]. intros d ->. by apply default_device_ok.
  - exfalso. revert E. unfold shell_default_net_device, Net.net_device_count, Net.net_get_device. destruct (Nat.eqb_spec (Net.g_device_count s) 0); [done|].
    rewrite (proj2 (Nat.leb_gt _ _)) by lia. destruct (wf_registered _ Hs 0%nat) as (d & nd & -> & _); [lia|done].
Qed.

Context (device_name : nat → cstring).

Lemma net_list_ok s : wf s → ∃ cs, command_net_list device_name s = Some cs.
Proof.
  intros Hs. unfold command_net_list. destruct (_ =? 0)%nat; [by eexists|].
  assert (Hlines : ∀ l, Forall (fun i => (i < Net.g_device_count s)%nat) l → is_Some (mapM (fun i =>
      dev ← Net.net_get_device i s;
      match dev with
      | None => Some []
      | Some d =>
          nd ← Net.dev_store s !! d;
          let line := pad 12 (buffer_line 64 [lit "  "; device_name d]) in
          let line := if (length line <? 63)%nat then line ++ [space] else line in
          Some [Line (buffer_append 64 (format_mac_address (Net.mac nd) 32) line)]
      end) l)).
  { intros l Hl. apply mapM_is_Some_2. eapply Forall_impl; [exact Hl|]. intros i Hi. cbv beta in Hi. unfold compose, Net.net_get_device. rewrite (proj2 (Nat.leb_gt _ _)) by exact Hi.
    destruct (wf_registered _ Hs i Hi) as (d & nd & -> & Hnd & _). cbn [mbind option_bind]. rewrite Hnd. by eexists. }
  cbv zeta in Hlines |- *. destruct (Hlines (List.seq 0 (Net.net_device_count s))) as [lines ->]; [|by eexists].
  apply Forall_forall. intros i Hi. apply elem_of_seq in Hi. unfold Net.net_device_count in Hi. lia.
Qed.

Lemma address_ok usage token target : address_argument usage token = inr target → length target = 4%nat ∧ bytes target.
Proof.
  unfold address_argument. destruct (one_argument token 32) as [[ip more]|]; [|done]. destruct more; [done|].
  destruct (parse_ipv4_address ip) as [a|] eqn:E; [|done]. intros [= <-]. apply ipv4_loop_length in E; [done|constructor].
Qed.

Lemma net_arp_ok args s : wf s → ∃ cs s', command_net_arp driver device_name args s = Some (cs, s') ∧ later s s'.
Proof.
  intros Hs. pose proof (later_refl s Hs) as H0. unfold command_net_arp. destruct (default_device_at s Hs) as (dev & -> & Hd). cbn [mbind option_bind].
  destruct dev as [d|]; [|by eexists _, s]. destruct (char0 _ =? 0); [by eexists _, s|].
  destruct (address_argument _ _) as [|target] eqn:Ea; [by eexists _, s|]. apply address_ok in Ea as [Hl Hb].
  destruct (Net.arp_cache_lookup d target s); [by eexists _, s|].
  destruct (NetLayers.arp_resolve_safe driver s (Some d) (Some target) Hs) as ([[r m] s'] & E & Hs' & Hk & _); [exact Hd|intros ? [= <-]; split; [lia|done]|].
  rewrite E. cbn [mbind option_bind]. apply resolve_time in E. eexists _, s'. split; [done|]. split; [done|]. split; [split_and!; apply Hk|lia].
Qed.

Lemma net_ip_ok args s : wf s → ∃ cs s', command_net_ip args s = Some (cs, s') ∧ later s s'.
Proof.
  intros Hs. destruct (wf_address _ Hs) as [Ha Hba]. unfold command_net_ip, Net.ipv4_get_address. rewrite field_all by done. cbn [mbind option_bind].
  destruct (char0 _ =? 0); [eexists _, s; split; [done|by apply later_refl]|].
  destruct (address_argument _ _) as [|a] eqn:Ea; [eexists _, s; split; [done|by apply later_refl]|]. apply address_ok in Ea as [Hl Hb].
  unfold Net.ipv4_set_address. rewrite (field_all a) by done. cbn [mbind option_bind]. rewrite buf_copy_ok by lia. cbn [mbind option_bind take app Nat.add].
  rewrite drop_ge, app_nil_r by lia. eexists _, _. split; [done|]. split; [|split; [done|cbn; lia]]. apply wf_set_ipv4; try done. apply (wf_ident _ Hs).
Qed.

Lemma net_ping_ok args sequence s : wf s → ∃ cs sequence' s', command_net_ping driver poll pass args sequence s = Some (cs, sequence', s') ∧ wf s'.
Proof.
  intros Hs. unfold command_net_ping. destruct (default_device_at s Hs) as (dev & -> & Hd). cbn [mbind option_bind].
  destruct dev as [d|]; [|by eexists _, _, s]. destruct (ping_arguments _) as [|[[ip target] count]] eqn:Ea; [by eexists _, _, s|].
  destruct (ping_arguments_ok _ _ _ _ Ea) as (Hl & Hb & Hc).
  destruct (ping_loop_ok (Z.to_nat count) d target sequence no_statistics (Net.icmp_clear_echo_replies s)) as (os & rest & sq & s' & -> & H1 & _);
    [apply wf_set_replies; [done|apply (wf_replies _ Hs)|lia]|by apply Hd|done|done|lia|]. cbn [mbind option_bind]. eexists _, _, s'. split; [done|apply H1].
Qed.

End ping.

(** Whatever is behind the word [net], the command ends and leaves the stack well-formed. *)
Theorem net_command_completes driver poll pass `{!Surroundings driver poll pass} device_name args sequence s :
  wf s → ∃ cs sequence' s', command_net driver poll pass device_name args sequence s = Some (cs, sequence', s') ∧ wf s'.
Proof.
  intros Hs. unfold command_net, keep. destruct (_ =? 0); [by eexists _, _, s|]. destruct (shell_copy_token _ _) as [token|]; [|by eexists _, _, s].
  destruct (shell_str_equals token (lit "help")); [by eexists _, _, s|].
  destruct (shell_str_equals token (lit "list")).
  { destruct (_ =? 0); [|by eexists _, _, s]. destruct (net_list_ok device_name s Hs) as [cs ->]. by eexists _, _, s. }
  destruct (shell_str_equals token (lit "poll")).
  { edestruct (net_poll_ok driver poll pass) as (cs & s' & E & Hl); [exact Hs|]. rewrite E. eexists _, _, s'. split; [reflexivity|apply Hl]. }
  destruct (shell_str_equals token (lit "arp")).
  { edestruct (net_arp_ok driver poll pass device_name) as (cs & s' & E & Hl); [exact Hs|]. rewrite E. eexists _, _, s'. split; [reflexivity|apply Hl]. }
  destruct (shell_str_equals token (lit "ping")); [by apply (net_ping_ok driver poll pass)|].
  destruct (shell_str_equals token (lit "ip")); [|by eexists _, _, s].
  edestruct net_ip_ok as (cs & s' & E & Hl); [exact Hs|]. rewrite E. eexists _, _, s'. split; [reflexivity|apply Hl].
Qed.

(** C19: with a device and good arguments, drivers that answer 0 or less, polls that return and
    a clock that goes on whenever the shell sleeps or yields, [net ping] ends, keeps the stack
    well-formed and shows a true report.  The replies recorded before are forgotten.  A request
    counts as answered when the oldest recorded reply with its identifier and number was taken
    behind its transmission, and what is shown are that reply's sender and the
    milliseconds since the transmission; it is late when no such reply is recorded 250 ticks after
    the transmission, without an address when the address is not known 250 ticks after its start,
    and it ends the ping when the stack refuses it or a poll fails.  The next one starts 75 ticks
    or more behind the end of the last, unless a poll fails in between.  The statistics count the
    requests and the answers and give the smallest, average and greatest time, the average
    between the two others. *)
Theorem ping_report driver poll pass `{!Surroundings driver poll pass} args sequence s d ip_text target count :
  wf s → shell_default_net_device s = Some (Some d) → ping_arguments (skip_spaces args) = inr (ip_text, target, count) →
  ∃ os rest sequence' s' t,
    command_net_ping driver poll pass args sequence s =
      Some ([Text (lit "net: pinging "); Text ip_text; Line (lit " with 32 bytes of data")] ++ (outcomes_shown sequence os ++ rest) ++
            packets_shown ip_text (Z.of_nat (length os)) (Z.of_nat (length (rtts os))) ++
            match rtts os with
            | [] => []
            | _ => times_shown (min_rtt t) (Z.min (sum (rtts os)) UINT32_MAX / Z.of_nat (length (rtts os))) (max_rtt t)
            end, sequence', s') ∧
    wf s' ∧ requests driver poll pass d target (Z.to_nat count) sequence (Net.icmp_clear_echo_replies s) os rest s' ∧
    1 ≤ Z.of_nat (length os) ≤ count ∧ tells os t ∧
    (rtts os ≠ [] → min_rtt t ≤ sum (rtts os) / Z.of_nat (length (rtts os)) ≤ max_rtt t).
Proof.
  intros Hs Hd Ha. destruct (ping_arguments_ok _ _ _ _ Ha) as (Hl & Hb & Hc). pose proof (default_device_ok s d Hs Hd) as Hdl.
  unfold command_net_ping. rewrite Hd. cbn [mbind option_bind]. rewrite Ha.
  destruct (ping_loop_ok driver poll pass (Z.to_nat count) d target sequence no_statistics (Net.icmp_clear_echo_replies s)) as (os & rest & sq & s' & -> & H1 & Hos & Hrs); [|done|done|done|lia|].
  { apply wf_set_replies; [done|apply (wf_replies _ Hs)|lia]. }
  cbn [mbind option_bind]. destruct (tells_fold os Hos) as [Ht _]. pose proof (requests_length _ _ _ _ _ _ _ _ _ _ _ Hrs).
  exists os, rest, sq, s', (foldl count_outcome no_statistics os). rewrite (statistics_report ip_text os) by (done || lia).
  split; [done|]. split; [apply H1|]. split; [done|]. split; [lia|]. split; [done|]. intros Hne. apply average_between; [done|apply Ht|apply Ht].
Qed.

End PingProps.

Module ShellToolsProps.

Import VfsPath ShellText ShellProps ShellFiles ShellTools.
Import KlogSpec KlogRun ServiceSpec Slots.

(** ** Memory as text *)

(** The bytes that [n] columns of two digits stand for. *)
Fixpoint hex_bytes (n : nat) (l : cstring) : list Z :=
  match n, l with
  | S n', a :: b :: _ :: l' =>
      match hex_digit_value a, hex_digit_value b with Some x, Some y => (16 * x + y) :: hex_bytes n' l' | _, _ => [] end
  | _, _ => []
  end.

(** The bytes a line of [memdump] shows. *)
Definition read_dump (line : cstring) : list Z := hex_bytes 16 (drop 12 line).

Section memdump.
Variable byte : Z → Z.
Hypothesis byte_range : ∀ a, 0 ≤ byte a < 256.

Definition column (address offset len i : Z) : cstring :=
  (if offset + i <? len then write_byte_hex (byte (u32 (address + (offset + i)))) else [space; space]) ++ [space].

Lemma column_length address offset len i : length (column address offset len i) = 3%nat.
Proof. unfold column. by case_match. Qed.

Lemma hex_columns_app n address offset len i line :
  (length line + 3 * n < 96)%nat →
  hex_columns byte n address offset len i line = line ++ concat (map (fun k => column address offset len (i + Z.of_nat k)) (List.seq 0 n)).
Proof.
  revert i line. induction n as [|n IH]; intros i line H; [by rewrite app_nil_r|].
  cbn [hex_columns]. rewrite (proj2 (Nat.leb_gt _ _)) by lia.
  assert (Hl : ∀ x, length x = 2%nat → (length (line ++ x) <? 95)%nat = true) by (intros x Hx; apply Nat.ltb_lt; rewrite length_app; lia).
  rewrite Hl by (by case_match). rewrite IH.
  - cbn [List.seq map concat]. rewrite <- !app_assoc. f_equal. unfold column at 2. rewrite Z.add_0_r, <- app_assoc. do 2 f_equal.
    rewrite <- seq_shift, map_map. f_equal. apply map_ext. intros k. f_equal. lia.
  - rewrite !length_app. case_match; simpl; lia.
Qed.

Lemma text_columns_length n address offset len i line :
  (length line + n ≤ 95)%nat → length (text_columns byte n address offset len i line) = (length line + n)%nat.
Proof.
  revert i line. induction n as [|n IH]; intros i line H; [simpl; lia|].
  cbn [text_columns]. rewrite (proj2 (Nat.leb_gt _ _)) by lia. rewrite IH; rewrite length_app; simpl; lia.
Qed.

Lemma text_columns_app n address offset len i line : ∃ rest, text_columns byte n address offset len i line = line ++ rest.
Proof.
  revert i line. induction n as [|n IH]; intros i line; cbn [text_columns]; [exists []; by rewrite app_nil_r|].
  case_match; [exists []; by rewrite app_nil_r|]. edestruct IH as [rest ->]. rewrite <- app_assoc. by eexists.
Qed.

Lemma byte_digits v : 0 ≤ v < 256 → ∃ a b x y, write_byte_hex v = [a; b] ∧ hex_digit_value a = Some x ∧ hex_digit_value b = Some y ∧ 16 * x + y = v.
Proof.
  intros Hv. exists (hex_char (nibble_at v 4)), (hex_char (nibble_at v 0)), (nibble_at v 4), (nibble_at v 0).
  split; [done|]. split; [apply hex_char_value, nibble_range|]. split; [apply hex_char_value, nibble_range|].
  unfold nibble_at. rewrite !Z.shiftr_div_pow2 by lia. change 15 with (Z.ones 4). rewrite !Z.land_ones by lia.
  change (2 ^ Z.of_nat 4) with 16. change (2 ^ Z.of_nat 0) with 1. change (2 ^ 4) with 16. rewrite Z.div_1_r.
  rewrite (Z.mod_small (v / 16)) by (split; [apply Z.div_pos; lia|apply Z.div_lt_upper_bound; lia]).
  pose proof (Z.div_mod v 16). lia.
Qed.

Definition shown_bytes (address from count : Z) : list Z := (fun i => byte (u32 (address + i))) <$> seqZ from count.

Lemma shown_cons address from count : 0 < count → shown_bytes address from count = byte (u32 (address + from)) :: shown_bytes address (from + 1) (count - 1).
Proof. intros. unfold shown_bytes. rewrite seqZ_cons by lia. done. Qed.

Lemma shown_none address from count : count ≤ 0 → shown_bytes address from count = [].
Proof. intros. unfold shown_bytes. by rewrite seqZ_nil. Qed.

Lemma shown_app address from a b : 0 ≤ a → 0 ≤ b → shown_bytes address from (a + b) = shown_bytes address from a ++ shown_bytes address (from + a) b.
Proof. intros. unfold shown_bytes. rewrite <- fmap_app, seqZ_app by lia. done. Qed.

Lemma hex_bytes_columns n address offset len i rest :
  hex_bytes n (concat (map (fun k => column address offset len (i + Z.of_nat k)) (List.seq 0 n)) ++ rest) =
    shown_bytes address (offset + i) (Z.min (Z.of_nat n) (len - offset - i)).
Proof.
  revert i. induction n as [|n IH]; intros i; [by rewrite shown_none by lia|].
  cbn [List.seq map concat]. rewrite Z.add_0_r. unfold column at 1. destruct (Z.ltb_spec (offset + i) len) as [H|H].
  - destruct (byte_digits (byte (u32 (address + (offset + i)))) (byte_range _)) as (a & b & x & y & E & Hx & Hy & Hv).
    rewrite E. cbn [app hex_bytes]. rewrite Hx, Hy, Hv.
    rewrite shown_cons by lia. f_equal.
    rewrite <- seq_shift, map_map. rewrite (map_ext _ (fun k => column address offset len (i + 1 + Z.of_nat k))) by (intros k; f_equal; lia).
    rewrite IH. f_equal; lia.
  - rewrite shown_none by lia. done.
Qed.

Lemma hex32_length v : length (write_hex32 v) = 10%nat.
Proof. done. Qed.

Lemma columns_length l address offset len i : length (concat (map (fun k => column address offset len (i + Z.of_nat k)) l)) = (3 * length l)%nat.
Proof. induction l as [|k l IH]; [done|]. cbn [map concat length]. rewrite length_app, column_length, IH. lia. Qed.

Lemma memdump_line_ok address offset len :
  let line := memdump_line byte address offset len in
  length line = 79%nat ∧ take 10 line = write_hex32 (u32 (address + offset)) ∧
  read_dump line = shown_bytes address offset (Z.min 16 (len - offset)).
Proof.
  intros line. unfold line, memdump_line. clear line. rewrite take_ge by (rewrite hex32_length; lia).
  set (w := write_hex32 _). assert (Hw : length w = 10%nat) by done. clearbody w.
  rewrite hex_columns_app by (rewrite length_app; simpl; lia).
  set (cs := concat _). assert (Hcs : length cs = 48%nat) by (etransitivity; [apply columns_length|done]).
  set (head := ((w ++ [58; space]) ++ cs) ++ [space; 124]). assert (Hh : length head = 62%nat) by (unfold head; rewrite !length_app; simpl; lia).
  rewrite text_columns_length by lia. rewrite Hh. change (62 + 16 <? 95)%nat with true. cbn iota.
  split; [rewrite length_app, text_columns_length by lia; simpl; lia|].
  destruct (text_columns_app 16 address offset len 0 head) as [rest ->]. unfold head.
  split; [rewrite <- !app_assoc; by rewrite take_app_length'|].
  unfold read_dump. rewrite <- !(app_assoc (w ++ [58; space])), <- !app_assoc, (app_assoc w), drop_app_length' by (rewrite length_app, Hw; done).
  unfold cs. rewrite hex_bytes_columns by done. f_equal; lia.
Qed.

Lemma memdump_lines_ok n address offset len :
  0 ≤ offset → len - offset ≤ 16 * Z.of_nat n →
  ∃ lines, memdump_lines byte n address offset len = Some lines ∧ concat (map read_dump lines) = shown_bytes address offset (len - offset) ∧
    ∀ k line, lines !! k = Some line → length line = 79%nat ∧ take 10 line = write_hex32 (u32 (address + (offset + 16 * Z.of_nat k))).
Proof.
  revert offset. induction n as [|n IH]; intros offset Ho Hn; cbn [memdump_lines]; (destruct (Z.leb_spec len offset) as [Hle|Hlt]; [exists []; by rewrite shown_none by lia|]).
  - lia.
  - destruct (IH (offset + 16)) as (lines & -> & Hc & Hk); [lia..|]. cbn [mbind option_bind].
    destruct (memdump_line_ok address offset len) as (H1 & H2 & H3). revert H1 H2 H3. generalize (memdump_line byte address offset len). intros first H1 H2 H3.
    eexists. split; [done|]. cbn [map concat]. rewrite H3, Hc. split.
    + destruct (decide (len - offset ≤ 16)).
      * rewrite (shown_none address (offset + 16)), app_nil_r by lia. f_equal. lia.
      * rewrite Z.min_l, <- shown_app by lia. f_equal. lia.
    + intros [|k] line; [intros [= <-]; split; [exact H1|]; rewrite Z.mul_0_r, Z.add_0_r; exact H2|]. intros Hl. destruct (Hk k line Hl) as [? ->].
      split; [assumption|]. do 3 f_equal. lia.
Qed.

End memdump.

(** ** Words *)

(** A word: not empty, without spaces and terminators. *)
Definition word (t : cstring) : Prop := t ≠ [] ∧ wf_cstr t ∧ (space ∉ t).

Lemma word_scan t rest : (space ∉ t) → scan_token (t ++ space :: rest) = (t, space :: rest).
Proof.
  induction t as [|c t IH]; [done|]. rewrite not_elem_of_cons. intros [Hc Ht]. cbn [app scan_token].
  rewrite (proj2 (Z.eqb_neq c space)) by done. by rewrite IH.
Qed.

(** Whatever the arguments, what [memdump] shows is text that a display takes. *)
Section shown.
Context (mem : Z → Z) (mem_range : ∀ a, 0 ≤ mem a < 256).

Lemma hex_char_byte v i : Bytes.byte (hex_char (nibble_at v i)).
Proof using.
  unfold hex_char, nibble_at, Bytes.byte. change 15 with (Z.ones 4). rewrite Z.land_ones by lia.
  pose proof (Z.mod_pos_bound (Z.shiftr v (Z.of_nat i)) (2 ^ 4)). case_match; lia.
Qed.

Lemma hex_columns_bytes n address offset len i line : Bytes.bytes line → Bytes.bytes (hex_columns mem n address offset len i line).
Proof using.
  revert i line. induction n as [|n IH]; intros i line Hl; cbn [hex_columns]; [done|]. case_match; [done|]. apply IH. cbv zeta.
  set (line1 := line ++ _). assert (H1 : Bytes.bytes line1).
  { apply Bytes.bytes_app. split; [done|]. case_match; repeat constructor; (apply hex_char_byte || (unfold Bytes.byte, space; lia)). }
  case_match; [apply Bytes.bytes_app; split; [done|repeat constructor; unfold Bytes.byte, space; lia]|done].
Qed.

Lemma text_columns_bytes n address offset len i line : Bytes.bytes line → Bytes.bytes (text_columns mem n address offset len i line).
Proof using mem_range.
  revert i line. induction n as [|n IH]; intros i line Hl; cbn [text_columns]; [done|]. case_match; [done|]. apply IH, Bytes.bytes_app. split; [done|].
  constructor; [|constructor]. unfold printable, Bytes.byte, dot, space. pose proof (mem_range (u32 (address + (offset + i)))). repeat case_match; lia.
Qed.

Lemma memdump_line_bytes address offset len : Bytes.bytes (memdump_line mem address offset len).
Proof using mem_range.
  unfold memdump_line. cbv zeta. set (l0 := take 95 _ ++ _). assert (H0 : Bytes.bytes l0).
  { apply Bytes.bytes_app. split; [|repeat constructor; unfold Bytes.byte, space; lia]. apply Forall_take. apply Bytes.bytes_app. split; [by_eval|].
    apply List.Forall_map, Forall_forall. intros i _. apply hex_char_byte. }
  assert (H2 : Bytes.bytes (text_columns mem 16 address offset len 0 (hex_columns mem 16 address offset len 0 l0 ++ [space; 124]))).
  { apply text_columns_bytes, Bytes.bytes_app. split; [by apply hex_columns_bytes|repeat constructor; unfold Bytes.byte, space; lia]. }
  case_match; [apply Bytes.bytes_app; split; [done|repeat constructor; unfold Bytes.byte; lia]|done].
Qed.

Lemma memdump_lines_bytes n address offset len lines : memdump_lines mem n address offset len = Some lines → Forall Bytes.bytes lines.
Proof using mem_range.
  revert offset lines. induction n as [|n IH]; intros offset lines E; cbn [memdump_lines] in E; (case_match; [injection E as <-; constructor|]); [done|].
  apply bind_Some in E as (more & Em & E). injection E as <-. constructor; [apply memdump_line_bytes|by eapply IH].
Qed.

Lemma show_ok text : Forall DisplayProps.DisplayProps.command_ok (show text).
Proof using. repeat constructor. apply ShellRun.ShellRun.lit_bytes. Qed.

Lemma memdump_shown args : ∃ cs, command_memdump mem args = Some cs ∧ Forall DisplayProps.DisplayProps.command_ok cs.
Proof using mem_range.
  unfold command_memdump. case_match; [eexists; split; [done|apply show_ok]|]. destruct (cut_token _ 32) as [t rest].
  destruct (parse_u32_token t) as [address|]; [|eexists; split; [done|apply show_ok]].
  destruct (memdump_length rest) as [len|]; [|eexists; split; [done|apply show_ok]].
  destruct (memdump_lines_ok mem mem_range 32 address 0 (if 512 <? len then 512 else len)) as (lines & E & _); [lia|case_match; lia|].
  rewrite E. cbn [mbind option_bind]. eexists. split; [done|]. apply List.Forall_map. by eapply memdump_lines_bytes.
Qed.

End shown.

Lemma cut_word t rest cap : (space ∉ t) → (length t < cap)%nat → cut_token (t ++ space :: rest) cap = (t, skip_spaces rest).
Proof.
  intros Ht Hl. unfold cut_token. rewrite word_scan by done. cbn [fst]. rewrite take_ge by lia. by rewrite drop_app_length.
Qed.

Lemma cut_last t cap : (space ∉ t) → (length t < cap)%nat → cut_token t cap = (t, []).
Proof. intros Ht Hl. unfold cut_token. rewrite ShellFiles.scan_token_id by done. cbn [fst]. rewrite take_ge by lia. by rewrite drop_all. Qed.

Lemma skip_word t rest : word t → skip_spaces (t ++ rest) = t ++ rest.
Proof.
  intros (Hn & _ & Hs). destruct t as [|c t]; [done|]. apply not_elem_of_cons in Hs as [Hc _]. cbn [app skip_spaces].
  by rewrite (proj2 (Z.eqb_neq c space)).
Qed.

Lemma word_char0 t rest : word t → (char0 (t ++ rest) =? 0) = false.
Proof. intros (Hn & Hw & _). destruct t as [|c t]; [done|]. apply Forall_cons in Hw as [Hc _]. cbn. apply Z.eqb_neq. lia. Qed.

(** [memdump] shows memory as it is: the bytes read back from the columns of its lines are those of memory. *)
Theorem memdump_shows_memory byte address_token length_token address len :
  (∀ a, 0 ≤ byte a < 256) → word address_token → word length_token → (length address_token < 32)%nat → (length length_token < 16)%nat →
  parse_u32_token address_token = Some address → parse_u32_token length_token = Some len → 0 < len →
  ∃ lines, command_memdump byte (space :: address_token ++ space :: length_token) = Some (map Line lines) ∧
    concat (map read_dump lines) = (fun i => byte (u32 (address + i))) <$> seqZ 0 (Z.min len 512) ∧
    ∀ k line, lines !! k = Some line → length line = 79%nat ∧ take 10 line = write_hex32 (u32 (address + 16 * Z.of_nat k)).
Proof.
  intros Hb Ha Hl Hal Hll Hpa Hpl Hlen. unfold command_memdump. cbn [skip_spaces]. change (space =? space) with true. cbn iota.
  rewrite skip_word, word_char0 by done. rewrite cut_word by (done || apply Ha). rewrite Hpa.
  pose proof (skip_word length_token [] Hl) as Hs. pose proof (word_char0 length_token [] Hl) as Hc. rewrite app_nil_r in Hs, Hc.
  unfold memdump_length. rewrite Hs, Hc, cut_last by (done || apply Hl). cbn [fst]. rewrite Hpl. cbn [mbind option_bind].
  rewrite (proj2 (Z.eqb_neq len 0)) by lia.
  destruct (memdump_lines_ok byte Hb 32 address 0 (if 512 <? len then 512 else len)) as (lines & -> & Hd & Hk); [lia|case_match; lia|].
  exists lines. split; [done|]. split; [|exact Hk]. rewrite Hd. unfold shown_bytes. f_equal. f_equal. case_match; lia.
Qed.

(** ** The log *)

(** The words of a text. *)
Fixpoint words_from (w : cstring) (s : cstring) : list cstring :=
  match s with
  | [] => match w with [] => [] | _ => [w] end
  | c :: s' => if c =? space then match w with [] => words_from [] s' | _ => w :: words_from [] s' end else words_from (w ++ [c]) s'
  end.

Definition words (s : cstring) : list cstring := words_from [] s.

Lemma words_skip s : words (skip_spaces s) = words s.
Proof. unfold words. induction s as [|c s IH]; [done|]. cbn [skip_spaces words_from]. by destruct (c =? space) eqn:E; [|cbn [words_from]; rewrite E]. Qed.

Lemma words_from_scan w s : w ≠ [] → words_from w s = (w ++ (scan_token s).1) :: words (scan_token s).2.
Proof.
  revert w. induction s as [|c s IH]; intros w Hw; cbn [words_from scan_token]; [rewrite app_nil_r; by destruct w|].
  destruct (c =? space) eqn:E.
  - cbn [fst snd]. rewrite app_nil_r. unfold words. cbn [words_from]. rewrite E. by destruct w.
  - rewrite IH by (by destruct w). destruct (scan_token s). cbn [fst snd]. by rewrite <- app_assoc.
Qed.

Lemma words_scan s : words s = match skip_spaces s with [] => [] | s' => (scan_token s').1 :: words (scan_token s').2 end.
Proof.
  rewrite <- words_skip. destruct (skip_spaces s) as [|c s'] eqn:E; [done|].
  assert (Hc : (c =? space) = false).
  { revert E. induction s as [|x s IH]; [done|]. cbn [skip_spaces]. destruct (x =? space) eqn:Ex; [exact IH|]. by intros [= <- _]. }
  unfold words at 1. cbn [words_from scan_token app]. rewrite Hc, words_from_scan by done. by destruct (scan_token s').
Qed.

Lemma words_nil s : skip_spaces s = [] → words s = [].
Proof. intros H. by rewrite words_scan, H. Qed.

Lemma words_cons s : skip_spaces s ≠ [] → words s = (scan_token (skip_spaces s)).1 :: words (scan_token (skip_spaces s)).2.
Proof. rewrite words_scan. by destruct (skip_spaces s). Qed.

Lemma skip_wf s : wf_cstr s → wf_cstr (skip_spaces s).
Proof. induction 1 as [|c s Hc Hs IH]; [constructor|]. cbn [skip_spaces]. case_match; [done|by constructor]. Qed.

Lemma scan_app s : (scan_token s).1 ++ (scan_token s).2 = s.
Proof. induction s as [|c s IH]; [done|]. cbn [scan_token]. case_match; [done|]. destruct (scan_token s). cbn in *. by rewrite IH. Qed.

(** A word that fits its array is cut nowhere. *)
Lemma cut_scan s cap : (length (scan_token s).1 < cap)%nat → cut_token s cap = ((scan_token s).1, skip_spaces (scan_token s).2).
Proof.
  intros H. unfold cut_token. rewrite take_ge by lia. pose proof (scan_app s) as E. destruct (scan_token s) as [t r]. cbn [fst snd] in *.
  by rewrite <- E, drop_app_length.
Qed.

Definition short (cap : nat) (t : cstring) : Prop := (length t < cap)%nat.

(** The arguments of [kdlvl]: a module and a level that fit their arrays. *)
Definition kdlvl_args_ok (args : cstring) : Prop :=
  wf_cstr args ∧ match words args with [] => True | [w] => short 24 w | m :: w :: _ => short 24 m ∧ short 16 w end.

Definition entry_ok (e : Klog.klog_entry) : Prop :=
  0 ≤ Klog.seq e < 4294967296 ∧ char0 (Klog.module e) ≠ 0 ∧ (length (Klog.module e) < 24)%nat.

Lemma add_bound cap t line : (length (buffer_append cap t line) ≤ length line + length t)%nat.
Proof. unfold buffer_append. rewrite length_app, length_take. lia. Qed.

Lemma add_fits cap t line : (length line + length t < cap)%nat → buffer_append cap t line = line ++ t.
Proof. intros. unfold buffer_append. rewrite take_ge by lia. done. Qed.

Lemma level_name_bound l : (length (Klog.klog_level_name l) ≤ 5)%nat.
Proof. unfold Klog.klog_level_name. repeat case_match; cbn; lia. Qed.

Lemma decimal_bound v : (length (Block.decimal v) ≤ 12)%nat.
Proof.
  unfold Block.decimal. case_match; [cbn; lia|]. assert (Hn : ∀ n v, (length (Block.digits n v) ≤ n)%nat); [|apply Hn].
  clear. induction n as [|n IH]; intros v; cbn [Block.digits]; [done|]. case_match; [cbn; lia|]. rewrite length_app. specialize (IH (v / 10)). cbn. lia.
Qed.

Lemma foldl_fits cap ts line : (length line + length (concat ts) < cap)%nat → foldl (fun l t => buffer_append cap t l) line ts = line ++ concat ts.
Proof.
  revert line. induction ts as [|t ts IH]; intros line H; cbn [foldl concat] in *; [by rewrite app_nil_r|].
  rewrite length_app in H. rewrite IH; rewrite add_fits by lia; [by rewrite <- app_assoc|]. rewrite length_app. lia.
Qed.

(** [kdlg] shows an entry as the log files have it. *)
Lemma kdlg_line_log e : entry_ok e → kdlg_line e = Klog.log_line e.
Proof.
  intros (Hs & Hm & Hl). unfold kdlg_line, Klog.log_line, Klog.append_char, Klog.append_u32, Klog.append_level_name.
  rewrite (proj2 (Z.eqb_neq _ 0)) by done. rewrite write_u64_decimal by done.
  change (Klog.append_text Klog.LINE_CAP [91] []) with [91].
  change (@Klog.append_text) with buffer_append.
  pose proof (decimal_bound (Klog.seq e)) as Hd. pose proof (level_name_bound (Klog.level e)) as Hn.
  set (l1 := buffer_append Klog.LINE_CAP (Block.decimal (Klog.seq e)) [91]).
  assert (H1 : (length l1 ≤ 13)%nat) by (pose proof (add_bound Klog.LINE_CAP (Block.decimal (Klog.seq e)) [91]) as H; change (length [91]) with 1%nat in H; unfold l1; lia).
  clearbody l1. assert (Hcap : Klog.LINE_CAP = 168%nat) by done. rewrite Hcap.
  apply (f_equal (buffer_append 168 (Klog.text e))).
  unfold space.
  pose proof (foldl_fits 168 [[93]; [32]; Klog.klog_level_name (Klog.level e); [32]] l1) as E1. cbn [foldl] in E1.
  rewrite E1 by (cbn [concat]; rewrite !length_app; cbn [length]; lia). clear E1. set (l2 := l1 ++ _).
  assert (H2 : (length l2 ≤ 21)%nat) by (unfold l2; cbn [concat]; rewrite !length_app; cbn [length]; lia). clearbody l2.
  pose proof (foldl_fits 168 [Klog.module e; [41]] (l2 ++ [40])) as E1. cbn [foldl] in E1.
  pose proof (foldl_fits 168 [[40]; Klog.module e; [41]; [58]; [32]] l2) as E2. cbn [foldl] in E2.
  rewrite E1, E2 by (cbn [concat]; rewrite !length_app; cbn [length]; lia). cbn [concat].
  rewrite (proj2 (Nat.ltb_lt _ _)) by (rewrite !length_app; cbn [length]; lia). by rewrite <- !app_assoc.
Qed.

(** *** The commands of the log against the abstract log *)

Definition a_level_set (level : Z) (a : alog) : alog := ALog (accepted a) (Klog.clamp_level level) (a_modules a).

Definition a_kdlvl (args : cstring) (a : alog) : list command * alog :=
  match words args with
  | [] => ([Text (lit "kdlvl: "); Line (Klog.klog_level_name (a_level a))], a)
  | [w] =>
      let level := Klog.klog_level_from_name (Some w) in
      if level <? 0 then (kdlvl_usage, a)
      else ([Text (lit "Global klog level set to "); Line (Klog.klog_level_name level)],
            a_emit (Some (lit "klog")) level (lit "kdlvl: global level " ++ Klog.klog_level_name level) (a_level_set level a))
  | m :: w :: _ =>
      let level := Klog.klog_level_from_name (Some w) in
      if (level <? 0) && negb (is_inherit w) then (kdlvl_usage, a)
      else
        let level := if level <? 0 then Klog.KLOG_LEVEL_INHERIT else level in
        let '(r, a) := a_module_set (Some m) level a in
        (if r <? 0 then show "kdlvl: failed to update module level"
         else if level =? Klog.KLOG_LEVEL_INHERIT then [Text (lit "Module "); Text m; Line (lit " level reset to inherit")]
         else [Text (lit "Module "); Text m; Text (lit " level set to "); Line (Klog.klog_level_name level)], a)
  end.

Definition a_kdlg (a : alog) : list command :=
  match newest Klog.CONFIG_KLOG_CAPACITY (accepted a) with
  | [] => show "kdlg: no entries"
  | entries => map (fun e => Line (Klog.log_line e)) entries
  end.

Lemma level_text_fits l : buffer_line 64 [lit "kdlvl: global level "; Klog.klog_level_name l] = lit "kdlvl: global level " ++ Klog.klog_level_name l.
Proof. unfold Klog.klog_level_name. by repeat case_match. Qed.

Section log.
Context {W Ctx : Type} (v : Vfs.Vfs.vfs W Ctx) `{!FilesReturn v} (t : list Klog.service_entry) (event : list Z).
Context (Hstack : length event = Klog.EVENT_SIZE).
Implicit Types (s : Klog.machine W Ctx) (a : alog).

Lemma kdlg_sim s a : sim v t s a → Forall entry_ok (accepted a) → ∃ s', command_kdlg s = Some (a_kdlg a, s') ∧ sim v t s' a.
Proof.
  intros Hs Ha. destruct (sim_ready v t s a Hs) as [H1 Hr]. unfold command_kdlg, a_kdlg.
  pose proof (copy_rel true Klog.CONFIG_KLOG_CAPACITY _ a (proj2 H1) Hr) as E. cbn [Klog.set_log Klog.log] in E.
  unfold Klog.klog_copy in *. rewrite ensure_again in E. rewrite E. cbn [mbind option_bind]. eexists. split; [|exact H1]. f_equal. f_equal.
  rewrite take_ge by (rewrite newest_length; lia).
  assert (Hn : Forall entry_ok (newest Klog.CONFIG_KLOG_CAPACITY (accepted a))) by (by apply Forall_drop).
  destruct Hn as [|e l He Hl]; [done|]. cbn [map]. rewrite kdlg_line_log by done. f_equal. apply map_ext_Forall.
  eapply Forall_impl; [exact Hl|]. intros x Hx. by rewrite kdlg_line_log.
Qed.

Lemma sanitize_short m : (length m < 24)%nat → (length (Klog.sanitize_module (Some m)) < Klog.CONFIG_KLOG_MODULE_NAME_LEN)%nat.
Proof. unfold Klog.CONFIG_KLOG_MODULE_NAME_LEN. destruct m; cbn; lia. Qed.

Lemma kdlvl_sim args s a :
  sim v t s a → kdlvl_args_ok args → ∃ s', command_kdlvl event args s = Some ((a_kdlvl args a).1, s') ∧ sim v t s' (a_kdlvl args a).2.
Proof.
  intros Hs [Hw Hok]. unfold command_kdlvl, a_kdlvl. apply skip_wf in Hw.
  destruct (decide (skip_spaces args = [])) as [E|E].
  { rewrite words_nil, E by done. destruct (sim_ready v t s a Hs) as [H1 Hr]. destruct (ready_content _ _ (proj2 H1) Hr) as [_ Hc].
    eexists. split; [|exact H1]. cbn. do 5 f_equal. f_equal. apply Hc. }
  rewrite (char0_not_nil _ Hw) by done. rewrite words_cons in * by done. set (token := skip_spaces args) in *.
  assert (Hw2 : wf_cstr (skip_spaces (scan_token token).2)).
  { apply skip_wf. rewrite <- (scan_app token) in Hw. by apply Forall_app in Hw as [_ Hw]. }
  destruct (decide (skip_spaces (scan_token token).2 = [])) as [Er|Er].
  - rewrite words_nil in * by done. rewrite cut_scan by exact Hok. rewrite Er. cbn [char0].
    cbn [Z.eqb]. destruct (Klog.klog_level_from_name _ <? 0); [by exists s|]. rewrite level_text_fits. unfold Klog.klog_emit.
    set (level := Klog.klog_level_from_name _).
    destruct (emit_sim v t event Hstack (Some (lit "klog")) level (lit "kdlvl: global level " ++ Klog.klog_level_name level)
      (Klog.set_log (Klog.klog_set_level level (Klog.log s)) s) (a_level_set level a)) as (s' & E1 & Hs').
    { eapply sim_log; [done|]. apply set_level_rel, Hs. }
    rewrite E1. cbn [mbind option_bind]. by exists s'.
  - rewrite words_cons in * by done. destruct Hok as [H24 H16]. rewrite cut_scan by exact H24. rewrite (char0_not_nil _ Hw2) by done.
    rewrite take_ge by (unfold short, Klog.CONFIG_KLOG_MODULE_NAME_LEN in *; lia). rewrite cut_scan by exact H16. cbn [fst].
    destruct (_ && _); [by exists s|]. set (level := if _ <? 0 then _ else _).
    destruct (module_set_sim v t (Some (scan_token token).1) level s a Hs) as (s' & E1 & Hs'); [by apply sanitize_short|].
    rewrite E1. cbn [mbind option_bind]. destruct (a_module_set _ level a) as [r' a']. exists s'. split; [done|exact Hs'].
Qed.

(** *** Processes *)

(** Messages of the kernel, written while it creates threads. *)
Definition kernel_messages : alog → alog → Prop := rtc (fun a a' => ∃ m, a' = a_emit (Some (lit "kernel")) Klog.KLOG_DEBUG m a).

Lemma effects_messages es a : kernel_messages a (foldl a_effect a es).
Proof.
  revert a. induction es as [|e es IH]; intros a; [by apply rtc_refl|]. cbn [foldl]. destruct e; cbn [a_effect]; try apply IH.
  eapply rtc_l; [by eexists|apply IH].
Qed.

Definition log_ok a : Prop := Forall entry_ok (accepted a).

Lemma emit_log_ok m l message a : char0 (Klog.sanitize_module m) ≠ 0 → log_ok a → log_ok (a_emit m l message a).
Proof.
  intros Hm Ha. unfold a_emit. case_match; [done|]. apply Forall_app. split; [done|]. apply Forall_singleton.
  split; [apply Z.mod_pos_bound; lia|]. cbn [a_entry Klog.module]. split; [by destruct (Klog.sanitize_module m)|]. rewrite length_take. lia.
Qed.

Lemma messages_log_ok a a' : kernel_messages a a' → log_ok a → log_ok a'.
Proof. unfold kernel_messages. induction 1 as [|a a1 a2 (m & ->) _ IH]; [done|]. intros Ha. apply IH. by apply emit_log_ok. Qed.

(** No slot for another process. *)
Definition table_full (l : list slot) : Prop := first_index slot_free l = None.

Context (place : Sched.placement).

Lemma next_process_slot s :
  match first_index slot_free (machine_slots s) with
  | Some _ => next_process s = new_pid (Ipc.sys (Klog.kern s))
  | None => next_process s = -1
  end.
Proof. unfold next_process, machine_slots, kernel_slots. rewrite <- first_free. by case_match. Qed.

Lemma spawn_loop_ok worker n k s a :
  sim v t s a →
  ∃ j s' a', spawn_loop place event worker n k s = Some (k + Z.of_nat j, s') ∧ sim v t s' a' ∧ kernel_messages a a' ∧
    creations j (machine_slots s) (machine_slots s') ∧ (j = n ∨ (j < n)%nat ∧ table_full (machine_slots s')).
Proof.
  revert k s a. induction n as [|n IH]; intros k s a Hs; cbn [spawn_loop].
  { exists 0%nat, s, a. rewrite Z.add_0_r. split; [done|]. split; [done|]. split; [by apply rtc_refl|]. split; [constructor|by left]. }
  destruct (create_sim v place event Hstack worker Sched.PROC_STACK_SIZE t s a Hs SchedRun.SchedRun.whole_stack_fits) as (s1 & E & H1).
  pose proof (create_slots place event worker Sched.PROC_STACK_SIZE s _ _ E) as Hsl. pose proof (next_process_slot s) as Hnext.
  rewrite E. cbn [mbind option_bind]. destruct (first_index slot_free (machine_slots s)) as [i|] eqn:Ei; rewrite Hnext; cycle 1.
  - cbn. eexists 0%nat, s1, _. rewrite Z.add_0_r. split; [done|]. split; [exact H1|]. split; [apply effects_messages|]. rewrite Hsl.
    split; [constructor|]. right. split; [lia|exact Ei].
  - pose proof (new_pid_pos (Ipc.sys (Klog.kern s))) as Hpos. rewrite (proj2 (Z.ltb_ge _ 0)) by lia.
    destruct (IH (k + 1) s1 _ H1) as (j & s2 & a2 & -> & H2 & Hm & Hc & Hj). exists (S j), s2, a2.
    split; [do 2 f_equal; lia|]. split; [exact H2|]. split; [etransitivity; [apply effects_messages|exact Hm]|].
    rewrite Hsl in Hc. split; [by eapply creations_more|]. destruct Hj as [->|[? ?]]; [by left|right; split; [lia|done]].
Qed.

(** The commands on the log leave the processes alone. *)
Lemma kdlg_slots s cs s' : command_kdlg s = Some (cs, s') → machine_slots s' = machine_slots s.
Proof. unfold command_kdlg. intros E. apply bind_Some in E as ([entries lg] & _ & E). by injection E as _ <-. Qed.

Lemma kdlvl_slots args s cs s' : command_kdlvl event args s = Some (cs, s') → machine_slots s' = machine_slots s.
Proof.
  unfold command_kdlvl. intros E. destruct (char0 (skip_spaces args) =? 0); [by injection E as _ <-|].
  destruct (cut_token _ _) as [w rest]. destruct (char0 rest =? 0).
  - case_match; [by injection E as _ <-|]. apply bind_Some in E as (s1 & H1 & E). injection E as _ <-. unfold Klog.klog_emit in H1. by apply emit_slots in H1.
  - case_match; [by injection E as _ <-|]. apply bind_Some in E as ([r s1] & H1 & E). injection E as _ <-. by apply module_set_slots in H1.
Qed.

(** *** Runs *)

(** A message of any component, or a command with its arguments. *)
Inductive tool := TMessage (m : option cstring) (l : Z) (message : cstring) | TKdlg | TKdlvl (args : cstring) | TSpawn (worker : Z) (args : cstring).

Definition tool_ok (o : tool) : Prop :=
  match o with
  | TMessage m _ _ => char0 (Klog.sanitize_module m) ≠ 0
  | TKdlvl args => kdlvl_args_ok args ∧ match words args with m :: _ => char0 m ≠ 0 | [] => True end
  | TKdlg | TSpawn _ _ => True
  end.

Definition tool_exec (o : tool) s : option (list command * Klog.machine W Ctx) :=
  match o with
  | TMessage m l message => s ← Klog.klog_emit_tagged event m l (Some message) s; Some ([], s)
  | TKdlg => command_kdlg s
  | TKdlvl args => command_kdlvl event args s
  | TSpawn worker args => command_spawn place event worker args s
  end.

Fixpoint tools_run (os : list tool) s : option (list (list command) * Klog.machine W Ctx) :=
  match os with
  | [] => Some ([], s)
  | o :: os' => '(shown, s) ← tool_exec o s; '(more, s) ← tools_run os' s; Some (shown :: more, s)
  end.

Definition spawn_message (requested k : Z) : cstring :=
  buffer_line 80 [lit "spawn: requested "; write_u64 requested; lit ", created "; write_u64 k].

Definition spawn_shown (requested k : Z) : list command :=
  [Text (lit "spawn: created "); Text (write_u64 k); Text (lit " of "); Text (write_u64 requested); Line (lit " requested")] ++
  (if k <? requested then show "spawn: limited by process capacity" else []).

(** What a command shows, and what it makes of the slots of the process table and of the
    abstract log. *)
Inductive tool_step : tool → list slot → alog → list command → list slot → alog → Prop :=
| step_message m l message ps a : tool_step (TMessage m l message) ps a [] ps (a_emit m l message a)
| step_kdlg ps a : tool_step TKdlg ps a (a_kdlg a) ps a
| step_kdlvl args ps a : tool_step (TKdlvl args) ps a (a_kdlvl args a).1 ps (a_kdlvl args a).2
| step_usage worker args ps a : char0 (skip_spaces args) = 0 → tool_step (TSpawn worker args) ps a (show "Usage: spawn <count>") ps a
| step_invalid worker args ps a :
    char0 (skip_spaces args) ≠ 0 → parse_positive_int (cut_token (skip_spaces args) 16).1 = None →
    tool_step (TSpawn worker args) ps a (show "spawn: invalid count") ps a
| step_no_slots worker args ps a requested :
    parse_positive_int (cut_token (skip_spaces args) 16).1 = Some requested → (Sched.MAX_PROCS ≤ listed_count ps)%nat →
    tool_step (TSpawn worker args) ps a (show "spawn: no slots available") ps a
| step_spawn worker args ps a requested k ps' a' :
    parse_positive_int (cut_token (skip_spaces args) 16).1 = Some requested → (listed_count ps < Sched.MAX_PROCS)%nat →
    creations k ps ps' →
    (let wanted := Z.min requested (Z.of_nat (Sched.MAX_PROCS - listed_count ps)) in
     Z.of_nat k = wanted ∨ Z.of_nat k < wanted ∧ table_full ps') →
    kernel_messages a a' →
    tool_step (TSpawn worker args) ps a (spawn_shown requested (Z.of_nat k))
      ps' (a_emit (Some (lit "kernel")) Klog.KLOG_INFO (spawn_message requested (Z.of_nat k)) a').

Inductive tool_steps : list tool → list slot → alog → list (list command) → list slot → alog → Prop :=
| steps_nil ps a : tool_steps [] ps a [] ps a
| steps_cons o os ps a shown ps1 a1 more ps2 a2 :
    tool_step o ps a shown ps1 a1 → tool_steps os ps1 a1 more ps2 a2 → tool_steps (o :: os) ps a (shown :: more) ps2 a2.

Lemma spawn_sim worker args s a :
  sim v t s a → ∃ shown s' a', command_spawn place event worker args s = Some (shown, s') ∧ sim v t s' a' ∧
    tool_step (TSpawn worker args) (machine_slots s) a shown (machine_slots s') a'.
Proof.
  intros Hs. unfold command_spawn. rewrite process_count_slots. change (slots (Ipc.sys (Klog.kern s))) with (machine_slots s).
  destruct (Z.eqb_spec (char0 (skip_spaces args)) 0) as [E0|E0]; [eexists _, s, a; split; [done|]; split; [done|]; by apply step_usage|].
  destruct (parse_positive_int _) as [requested|] eqn:Ep; [|eexists _, s, a; split; [done|]; split; [done|]; by apply step_invalid].
  destruct (Z.leb_spec (Z.of_nat Sched.MAX_PROCS - Z.of_nat (listed_count (machine_slots s))) 0) as [Hle|Hlt];
    [eexists _, s, a; split; [done|]; split; [done|]; eapply step_no_slots; [done|lia]|].
  set (available := _ - _) in *. assert (Hr : 0 < requested).
  { revert Ep. unfold parse_positive_int. case_match; [done|]. destruct (positive_int _ _); [|done]. cbn. case_match eqn:E; [done|]. intros [= <-]. lia. }
  destruct (spawn_loop_ok worker (Z.to_nat (if requested <? available then requested else available)) 0 s a Hs) as (k & s1 & a1 & E & H1 & Hm & Hc & Hk).
  rewrite E. cbn [mbind option_bind]. rewrite Z.add_0_l.
  destruct (emit_sim v t event Hstack (Some (lit "kernel")) Klog.KLOG_INFO (spawn_message requested (Z.of_nat k)) s1 a1 H1) as (s2 & E2 & H2).
  unfold spawn_message in E2 at 1. rewrite E2. cbn [mbind option_bind]. eexists _, s2, _. split; [done|]. split; [exact H2|].
  rewrite (emit_slots _ _ _ _ _ _ E2). eapply step_spawn; [done|lia|done| |done]. cbv zeta.
  destruct (Z.ltb_spec requested available), Hk as [->|[? ?]]; [left; lia|right; split; [lia|done]|left; lia|right; split; [lia|done]].
Qed.

Lemma set_log_ok m l a : log_ok a → log_ok (a_module_set m l a).2.
Proof. intros Ha. unfold a_module_set. by case_match. Qed.

Lemma step_log_ok o ps a shown ps' a' : tool_ok o → tool_step o ps a shown ps' a' → log_ok a → log_ok a'.
Proof.
  intros Ho Hst Ha. destruct Hst as [m l message ps a|ps a|args ps a|worker args ps a _|worker args ps a _ _|worker args ps a requested _ _|worker args ps a requested k ps' a' _ _ _ _ Hm]; try done.
  - by apply emit_log_ok.
  - unfold a_kdlvl. destruct (words args) as [|m [|w ws]]; [done| |]; (destruct (_ <? 0) eqn:E; cbn [andb]).
    + done.
    + by apply emit_log_ok.
    + destruct (is_inherit w); [|done]. cbn [negb]. destruct (a_module_set _ _ a) as [r a'] eqn:Es. cbn [snd].
      pose proof (set_log_ok (Some m) Klog.KLOG_LEVEL_INHERIT a Ha) as H. by rewrite Es in H.
    + destruct (a_module_set _ _ a) as [r a'] eqn:Es. cbn [snd].
      pose proof (set_log_ok (Some m) (Klog.klog_level_from_name (Some w)) a Ha) as H. by rewrite Es in H.
  - apply emit_log_ok; [done|]. by eapply messages_log_ok.
Qed.

Lemma tool_sim o s a :
  sim v t s a → log_ok a → tool_ok o → ∃ shown s' a', tool_exec o s = Some (shown, s') ∧ sim v t s' a' ∧
    tool_step o (machine_slots s) a shown (machine_slots s') a'.
Proof.
  intros Hs Ha Ho. destruct o as [m l message| |args|worker args]; cbn [tool_exec].
  - destruct (emit_sim v t event Hstack m l message s a Hs) as (s' & E & H'). rewrite E. cbn [mbind option_bind]. eexists _, s', _. split; [done|]. split; [done|].
    rewrite (emit_slots _ _ _ _ _ _ E). constructor.
  - destruct (kdlg_sim s a Hs Ha) as (s' & E & H'). eexists _, s', _. split; [exact E|]. split; [done|]. rewrite (kdlg_slots _ _ _ E). constructor.
  - destruct (kdlvl_sim args s a Hs (proj1 Ho)) as (s' & E & H'). eexists _, s', _. split; [exact E|]. split; [done|].
    rewrite (kdlvl_slots _ _ _ _ E). constructor.
  - by apply spawn_sim.
Qed.

End log.

(** C20: any sequence of messages with a module's name, [kdlg], [kdlvl] with a module of at most 23
    and a level of at most 15 characters, and [spawn] completes and does what the abstract log and
    the process table say: the lines of a listing are the entries that are kept, a level is that of
    the log or of a module, and the processes stay as they are until a spawn.  A spawn without a
    count, with a bad one or with every slot counted as used says so and does nothing else; any
    other creates the number asked for, or the number of uncounted slots when that is less, each
    process in the first free slot with a positive pid, ends earlier only with no slot free, and
    shows and logs the number of processes it created. *)
Theorem log_tools_refine {W Ctx} (v : Vfs.Vfs.vfs W Ctx) `{!FilesReturn v} t event place os s a :
  length event = Klog.EVENT_SIZE → sim v t s a → log_ok a → Forall tool_ok os →
  ∃ shown s' a', tools_run event place os s = Some (shown, s') ∧ sim v t s' a' ∧
    tool_steps os (machine_slots s) a shown (machine_slots s') a'.
Proof.
  intros Hst Hs Ha Ho. revert s a Hs Ha. induction Ho as [|o os Ho _ IH]; intros s a Hs Ha; [exists [], s, a; repeat split; [apply Hs..|constructor]|].
  destruct (tool_sim v t event Hst place o s a Hs Ha Ho) as (shown & s1 & a1 & E & H1 & Hstep). cbn [tools_run]. rewrite E. cbn [mbind option_bind].
  destruct (IH s1 a1 H1) as (more & s2 & a2 & -> & H2 & Hsteps); [by eapply step_log_ok|]. cbn [mbind option_bind].
  eexists _, s2, a2. split; [done|]. split; [done|]. by econstructor.
Qed.

End ShellToolsProps.

(** ** Concrete runs *)

Module ShellToolsExamples.

Import Arrays Bytes VfsPath ShellText ShellTools PingProps ShellToolsProps ServiceSpec.Slots.
Import KlogFiles.KlogFiles.

(** Memory whose bytes count up. *)
Definition counting (a : Z) : Z := a mod 256.

Lemma memdump_shows_memory_witness :
  ∃ lines, command_memdump counting (lit " 0x1000 20") = Some (map Line lines) ∧ concat (map read_dump lines) = seqZ 0 20.
Proof.
  destruct (memdump_shows_memory counting (lit "0x1000") (lit "20") 4096 20) as (lines & E & H & _).
  - intros a. apply Z.mod_pos_bound. lia.
  - split; [done|]. split; by_eval.
  - split; [done|]. split; by_eval.
  - cbn. lia.
  - cbn. lia.
  - reflexivity.
  - reflexivity.
  - lia.
  - exists lines. split; [exact E|]. rewrite H. reflexivity.
Defined.

(** *** A session *)

(** Commands that are not about files, on a machine whose memory counts up and which has
    one volume: [memdump] and [volumes]; the others do nothing. *)
Definition demo_volumes : Block.volmgr := Block.VolState [Block.VolumeRecord true (lit "disk0p1") (lit "/Volumes/Disk0") (Some 0%nat) 0] 1 [].

Definition some_commands (name args : cstring) (s : list command * Vfs.Vfs.ramfs_world) (v : Vfs.Vfs.vfs Vfs.Vfs.ramfs_world (option Vfs.Vfs.volume_id)) :
    option (list command * Vfs.Vfs.ramfs_world * Vfs.Vfs.vfs Vfs.Vfs.ramfs_world (option Vfs.Vfs.volume_id)) :=
  let shows cs := Some (s.1 ++ cs, s.2, v) in
  if decide (name = lit "memdump") then cs ← command_memdump counting args; shows cs
  else if decide (name = lit "volumes") then shows (command_volumes demo_volumes)
  else Some (s, v).

#[local] Existing Instance VfsRamfs.VfsRamfs.ramfs_only.

Lemma shell_run_completes_witness :
  ∃ m1 k rest m', Shell.shell_start ShellFiles.ShellFiles.demo_machine = Some m1 ∧
    ShellRun.ShellRun.shell_rounds ShellFiles.ShellFiles.demo_stack some_commands k (lit "mkdir /Users/ada" ++ [10] ++ lit "memdump 0x20 4" ++ [10] ++ lit "reboot" ++ [10]) m1 = Some (rest, m') ∧
    ShellRun.ShellRun.shell_ok ShellFiles.ShellFiles.volumes_ok m'.
Proof.
  destruct (ShellRun.ShellRun.shell_run_completes ShellFiles.ShellFiles.volumes_ok ShellFiles.ShellFiles.demo_stack some_commands ShellFiles.ShellFiles.demo_stack_ok) with
    (keys := lit "mkdir /Users/ada" ++ [10] ++ lit "memdump 0x20 4" ++ [10] ++ lit "reboot" ++ [10]) (m := ShellFiles.ShellFiles.demo_machine)
    as (m1 & k & rest & m' & E1 & E & H & _).
  - intros name args cs w v _ _ Ha Hc Hw Hv Hd. unfold some_commands. cbv zeta. cbn [fst snd]. destruct (decide (name = lit "memdump")).
    { destruct (memdump_shown counting ltac:(intros a; apply Z.mod_pos_bound; lia) args) as (shown & -> & Hs). cbn [mbind option_bind].
      eexists _, w, v. split; [done|]. split; [by apply Forall_app|]. done. }
    destruct (decide (name = lit "volumes")); [|by exists cs, w, v].
    eexists _, w, v. split; [done|]. split; [apply Forall_app; split; [done|]; constructor; [by_eval|constructor]|]. done.
  - exact ShellFiles.ShellFiles.demo_fresh.
  - by_eval.
  - by exists m1, k, rest, m'.
Defined.

Definition demo_tools : list tool :=
  [TKdlvl (lit " 0"); TMessage (Some (lit "net")) 1 (lit "link up"); TKdlg; TKdlvl (lit " net inherit"); TSpawn 4096 (lit " 2")].

Lemma log_tools_refine_witness :
  ∃ shown s', tools_run (replicate 128 0) SchedRun.SchedRun.stacks demo_tools (KlogProps.KlogProps.demo_machine KlogProps.KlogProps.zero_log) = Some (shown, s') ∧
    shown !! 2%nat = Some (map Line [lit "[0] DEBUG (klog): kdlvl: global level DEBUG"; lit "[1] INFO (net): link up"]).
Proof.
  destruct (log_tools_refine KlogProps.KlogProps.demo_tree KlogProps.KlogProps.no_services (replicate 128 0) SchedRun.SchedRun.stacks demo_tools
    (KlogProps.KlogProps.demo_machine KlogProps.KlogProps.zero_log) KlogRun.KlogSpec.a_start) as (shown & s' & a' & E & _ & H).
  - reflexivity.
  - exact KlogProps.KlogProps.demo_sim.
  - constructor.
  - unfold demo_tools. repeat (apply Forall_cons; split).
    all: try exact I.
    all: try (split; [split|]; vm_compute).
    all: try (repeat (constructor; try lia)).
    all: try done.
  - exists shown, s'. split; [exact E|]. unfold demo_tools in H.
    clear E. revert H. generalize (machine_slots s') as ps'. generalize (machine_slots (KlogProps.KlogProps.demo_machine KlogProps.KlogProps.zero_log)) as ps. intros ps ps' H.
    inversion H as [|? ? ? ? ? ? ? ? ? ? H1 T1]; subst. inversion T1 as [|? ? ? ? ? ? ? ? ? ? H2 T2]; subst. inversion T2 as [|? ? ? ? ? ? ? ? ? ? H3 T3]; subst.
    inversion H1; subst. inversion H2; subst. inversion H3; subst. vm_compute. reflexivity.
Defined.

Example spawn_demo :
  (fun r => (List.last r.1 [], length (filter (fun v => slot_free v = false) (machine_slots r.2)))) <$>
    tools_run (replicate 128 0) SchedRun.SchedRun.stacks demo_tools (KlogProps.KlogProps.demo_machine KlogProps.KlogProps.zero_log) =
  Some (spawn_shown 2 2, 3%nat).
Proof. vm_compute. reflexivity. Qed.

(** A card whose poll hands over the answer to the first request, and a clock that counts the
    rests of the shell. *)
Definition peer : list Z := [10; 0; 0; 2].

Definition answering (d : nat) (s : Net.net) : option (Z * Net.net) :=
  if (Net.g_reply_count s <? Net.ICMP_REPLY_CAPACITY)%nat
  then Some (1, Net.set_replies (<[Net.g_reply_count s := Net.EchoReply shell_ping_identifier 1 peer]> (Net.g_replies s)) (S (Net.g_reply_count s)) s)
  else Some (0, s).

Definition tick (b : bool) (s : Net.net) : option Net.net :=
  Some (if Net.ticks s + 1 <? 2 ^ 64 then Net.set_ticks (Net.ticks s + 1) s else s).

Definition accept (d : nat) (sent : list (nat * list Z)) (frame : list Z) : Z := 0.

#[export] Instance answering_ok : Surroundings accept answering tick.
Proof.
  constructor; [done| |].
  - intros d s Hs. unfold answering. pose proof (NetSpec.NetSpec.wf_replies _ Hs) as Hl.
    destruct (Nat.ltb_spec (Net.g_reply_count s) Net.ICMP_REPLY_CAPACITY); eexists _, _; (split; [done|]); [|by apply later_refl].
    split; [|split; [done|cbn; lia]]. apply NetSpec.NetSpec.wf_set_replies; [done|by rewrite length_insert|lia].
  - intros b s Hs. eexists. split; [done|]. pose proof (NetSpec.NetSpec.wf_ticks _ Hs).
    destruct (Z.ltb_spec (Net.ticks s + 1) (2 ^ 64)); (split; [|cbn; lia]); [|by apply later_refl].
    split; [apply NetSpec.NetSpec.wf_set_ticks; [done|lia]|]. split; [done|cbn; lia].
Qed.

(** A host with one card, which knows the address of its peer. *)
Definition station : Net.net :=
  let s := NetProps.NetProps.boot_net [Net.NetDevice [2; 0; 0; 0; 0; 1] true true] in
  let s := Net.set_devices (<[0%nat := Some 0%nat]> (Net.g_devices s)) 1 s in
  Net.set_cache (<[0%nat := Net.ArpEntry (Some 0%nat) peer [2; 0; 0; 0; 0; 2] 0]> (Net.g_cache s)) s.

Lemma station_wf : NetSpec.NetSpec.wf station.
Proof.
  assert (Hb : NetSpec.NetSpec.wf (NetProps.NetProps.boot_net [Net.NetDevice [2; 0; 0; 0; 0; 1] true true])).
  { apply NetProps.NetProps.boot_net_wf. constructor; [|constructor]. split; [done|by_eval]. }
  unfold station. cbv zeta. set (s := NetProps.NetProps.boot_net _) in *. set (s1 := Net.set_devices _ _ s).
  assert (H1 : NetSpec.NetSpec.wf s1).
  { destruct Hb. constructor; try done; [unfold Net.MAX_NET_DEVICES; cbn; lia|]. intros i Hi. assert (i = 0%nat) as -> by (cbn in Hi; lia).
    exists 0%nat, (Net.NetDevice [2; 0; 0; 0; 0; 1] true true). done. }
  apply (NetSpec.NetSpec.insert_entry s1 0 NetProps.NetProps.boot_entry (Net.ArpEntry (Some 0%nat) peer [2; 0; 0; 0; 0; 2] 0) 0); try done.
  - unfold NetSpec.NetSpec.wf_entry; cbn. repeat split; try done; try lia; try by_eval. intros d [= <-]. lia.
  - intros j ej Hj Hd. change (Net.g_cache s1) with (replicate Net.ARP_CACHE_CAPACITY NetProps.NetProps.boot_entry) in Hj.
    apply lookup_replicate in Hj as [-> _]. done.
Qed.

Definition demo_ping : option (list command * Z * Net.net) := command_net_ping accept answering tick (lit " 10.0.0.2 1") 0 station.

Example ping_demo : (fun r => drop 3 r.1.1) <$> demo_ping =
  Some (answer_shown 1 0 peer ++ packets_shown (lit "10.0.0.2") 1 1 ++ times_shown 0 0 0).
Proof. vm_compute. reflexivity. Qed.

Lemma ping_report_witness :
  ∃ os rest sequence' s' t, demo_ping = Some ([Text (lit "net: pinging "); Text (lit "10.0.0.2"); Line (lit " with 32 bytes of data")] ++
      (outcomes_shown 0 os ++ rest) ++ packets_shown (lit "10.0.0.2") (Z.of_nat (length os)) (Z.of_nat (length (rtts os))) ++
      match rtts os with
      | [] => []
      | _ => times_shown (min_rtt t) (Z.min (sum (rtts os)) UINT32_MAX / Z.of_nat (length (rtts os))) (max_rtt t)
      end, sequence', s') ∧ requests accept answering tick 0 peer 1 0 (Net.icmp_clear_echo_replies station) os rest s' ∧
    Z.of_nat (length os) = 1 ∧ tells os t.
Proof.
  destruct (ping_report accept answering tick (lit " 10.0.0.2 1") 0 station 0 (lit "10.0.0.2") peer 1) as (os & rest & sq & s' & t & E & _ & Hrs & Hl & Ht & _).
  - exact station_wf.
  - reflexivity.
  - reflexivity.
  - exists os, rest, sq, s', t. split; [exact E|]. split; [exact Hrs|]. split; [lia|exact Ht].
Defined.

End ShellToolsExamples.
