(* ===== verification/E1000.v ===== *)
(** The driver of the network card (kernel/e1000.c) and the bus it is found on
    (kernel/pci.c).

    Ports and the registers of the card belong to the class [Hardware]; its arguments are
    what the processor gives to [in] and [out] and to loads and stores at the addresses of
    the card.  Descriptors and buffers lie in memory that the card shares; the arrays are in
    the record of the driver.  What the stack does with a frame, the registration with the
    stack and with the device manager are arguments.  [None] is an access outside an array.

    The rings of descriptors that the driver of the network card shares with the card:
    every frame that the driver accepts is sent once and in order, every frame that arrives
    is handed to the stack once and in order, as long as the ring for sending is not filled
    up; and what happens when it is. *)

From S2P Require Import Prelude Bytes.
From S2P Require Memory.

Module E1000.

Import Bytes.

Class Hardware (H : Type) := {
  inl : Z → H → Z * H;
  outl : Z → Z → H → H;
  load : Z → H → Z * H;
  store : Z → Z → H → H
}.

(** ** The bus *)

Definition PCI_CONFIG_ADDRESS_PORT : Z := 0xCF8.
Definition PCI_CONFIG_DATA_PORT : Z := 0xCFC.
Definition PCI_CONFIG_ENABLE : Z := 0x80000000.
Definition PCI_COMMAND_MEMORY_SPACE : Z := 2.
Definition PCI_COMMAND_BUS_MASTER : Z := 4.

Record pci_device_info := PciInfo {
  bus : Z; slot : Z; function : Z; vendor_id : Z; device_id : Z; class_code : Z; subclass : Z; prog_if : Z; revision : Z; header_type : Z; interrupt_line : Z; bar : list Z
}.

Definition no_info : pci_device_info := PciInfo 0 0 0 0 0 0 0 0 0 0 0 (replicate 6 0).

Definition pci_config_address (bus slot function offset : Z) : Z :=
  Z.lor (Z.lor (Z.lor (Z.lor PCI_CONFIG_ENABLE (u32 (Z.shiftl bus 16))) (u32 (Z.shiftl slot 11))) (u32 (Z.shiftl function 8))) (Z.land offset 0xFC).

Section pci.
Context {H : Type} `{!Hardware H}.

Definition pci_config_read32 (bus slot function offset : Z) (h : H) : Z * H :=
  inl PCI_CONFIG_DATA_PORT (outl PCI_CONFIG_ADDRESS_PORT (pci_config_address bus slot function offset) h).

Definition pci_config_write32 (bus slot function offset value : Z) (h : H) : H :=
  outl PCI_CONFIG_DATA_PORT value (outl PCI_CONFIG_ADDRESS_PORT (pci_config_address bus slot function offset) h).

Definition half_shift (offset : Z) : Z := Z.land offset 2 * 8.

Definition pci_config_read16 (bus slot function offset : Z) (h : H) : Z * H :=
  let '(value, h) := pci_config_read32 bus slot function offset h in
  (Z.land (Z.shiftr value (half_shift offset)) 0xFFFF, h).

Definition pci_config_write16 (bus slot function offset data : Z) (h : H) : H :=
  let '(value, h) := pci_config_read32 bus slot function offset h in
  let mask := u32 (Z.shiftl 0xFFFF (half_shift offset)) in
  pci_config_write32 bus slot function offset (Z.lor (Z.land value (not32 mask)) (u32 (Z.shiftl data (half_shift offset)))) h.

Fixpoint read_bars (n : nat) (bar : Z) (b s f : Z) (h : H) : list Z * H :=
  match n with
  | O => ([], h)
  | S n' =>
      let '(v, h) := pci_config_read32 b s f (u8 (0x10 + bar * 4)) h in
      let '(l, h) := read_bars n' (bar + 1) b s f h in (v :: l, h)
  end.

Definition pci_fill_device_info (b s f : Z) (h : H) : pci_device_info * H :=
  let '(vendor, h) := pci_config_read16 b s f 0 h in
  let '(device, h) := pci_config_read16 b s f 2 h in
  let '(class_reg, h) := pci_config_read32 b s f 8 h in
  let '(header_reg, h) := pci_config_read32 b s f 0xC h in
  let '(bars, h) := read_bars 6 0 b s f h in
  let '(interrupt_reg, h) := pci_config_read32 b s f 0x3C h in
  (PciInfo b s f vendor device (u8 (Z.shiftr class_reg 24)) (u8 (Z.shiftr class_reg 16)) (u8 (Z.shiftr class_reg 8)) (u8 class_reg) (u8 (Z.shiftr header_reg 16)) (u8 interrupt_reg) bars, h).

(** The functions of a slot, [n] of them from [function] on. *)
Fixpoint find_function (n : nat) (b s function vendor device : Z) (h : H) : option pci_device_info * H :=
  match n with
  | O => (None, h)
  | S n' =>
      let '(v, h) := pci_config_read16 b s function 0 h in
      if v =? 0xFFFF then find_function n' b s (function + 1) vendor device h
      else
        let '(d, h) := pci_config_read16 b s function 2 h in
        if (v =? vendor) && (d =? device) then let '(i, h) := pci_fill_device_info b s function h in (Some i, h)
        else find_function n' b s (function + 1) vendor device h
  end.

Definition find_slot (b s vendor device : Z) (h : H) : option pci_device_info * H :=
  let '(first_vendor, h) := pci_config_read16 b s 0 0 h in
  if first_vendor =? 0xFFFF then (None, h)
  else
    let '(header_reg, h) := pci_config_read32 b s 0 0xC h in
    let header := Z.land (Z.shiftr header_reg 16) 0xFF in
    find_function (if negb (Z.land header 0x80 =? 0) then 8 else 1) b s 0 vendor device h.

(** [n] slots, of bus [i / 32] slot [i mod 32] from [i] on. *)
Fixpoint find_slots (n : nat) (i vendor device : Z) (h : H) : option pci_device_info * H :=
  match n with
  | O => (None, h)
  | S n' =>
      let '(r, h) := find_slot (i / 32) (i mod 32) vendor device h in
      match r with Some info => (Some info, h) | None => find_slots n' (i + 1) vendor device h end
  end.

Definition pci_find_device (vendor device : Z) (h : H) : option pci_device_info * H := find_slots (256 * 32) 0 vendor device h.

Definition pci_enable_device (info : pci_device_info) (command_flags : Z) (h : H) : H :=
  let '(command, h) := pci_config_read16 (bus info) (slot info) (function info) 4 h in
  pci_config_write16 (bus info) (slot info) (function info) 4 (Z.lor command command_flags) h.

End pci.

(** ** The card *)

Definition E1000_VENDOR_ID : Z := 0x8086.

Definition e1000_device_ids : list Z := [
  0x1000; 0x1001; 0x1004; 0x1008; 0x1009; 0x100C; 0x100D; 0x100E; 0x100F; 0x1010; 0x1011; 0x1012; 0x1013; 0x1014; 0x1015;
  0x1016; 0x1017; 0x1018; 0x1019; 0x101A; 0x101D; 0x101E; 0x1026; 0x1027; 0x1028; 0x10D3; 0x10F5].

Definition RING : nat := 32.
Definition BUF_SIZE : nat := 2048.

Definition E1000_REG_CTRL : Z := 0x0000.
Definition E1000_REG_STATUS : Z := 0x0008.
Definition E1000_REG_IMC : Z := 0x00D8.
Definition E1000_REG_RCTL : Z := 0x0100.
Definition E1000_REG_TCTL : Z := 0x0400.
Definition E1000_REG_TIPG : Z := 0x0410.
Definition E1000_REG_RDBAL : Z := 0x2800.
Definition E1000_REG_RDBAH : Z := 0x2804.
Definition E1000_REG_RDLEN : Z := 0x2808.
Definition E1000_REG_RDH : Z := 0x2810.
Definition E1000_REG_RDT : Z := 0x2818.
Definition E1000_REG_TDBAL : Z := 0x3800.
Definition E1000_REG_TDBAH : Z := 0x3804.
Definition E1000_REG_TDLEN : Z := 0x3808.
Definition E1000_REG_TDH : Z := 0x3810.
Definition E1000_REG_TDT : Z := 0x3818.
Definition E1000_REG_RAL0 : Z := 0x5400.
Definition E1000_REG_RAH0 : Z := 0x5404.

Definition E1000_CTRL_RST : Z := Z.shiftl 1 26.
Definition E1000_CTRL_SLU : Z := Z.shiftl 1 6.
Definition E1000_CTRL_ASDE : Z := Z.shiftl 1 5.
Definition E1000_STATUS_LU : Z := Z.shiftl 1 1.
Definition E1000_RCTL : Z := Z.lor (Z.lor (Z.shiftl 1 1) (Z.shiftl 1 15)) (Z.shiftl 1 26).
Definition E1000_TCTL : Z := Z.lor (Z.lor (Z.lor (Z.shiftl 1 1) (Z.shiftl 1 3)) (Z.shiftl 0x0F 4)) (Z.shiftl 0x40 12).
Definition E1000_TXD_CMD : Z := Z.lor (Z.lor 1 2) 8.
Definition STAT_DD : Z := 1.
Definition RXD_STAT_EOP : Z := 2.

Record e1000_rx_desc := RxDesc { r_addr : Z; r_length : Z; r_checksum : Z; r_status : Z; r_errors : Z }.
Record e1000_tx_desc := TxDesc { t_addr : Z; t_length : Z; t_cmd : Z; t_status : Z }.

(** [rx_descs] and [tx_descs] are the arrays that the pointers of the source point to. *)
Record e1000_device := Device {
  present : bool; initialized : bool; pci : pci_device_info; mmio_base : Z;
  rx_descs : list e1000_rx_desc; tx_descs : list e1000_tx_desc; rx_buffers : list Z; tx_buffers : list Z;
  rx_tail : nat; rx_head : nat; tx_tail : nat; tx_head : nat; mac : list Z
}.

Definition no_device : e1000_device := Device false false no_info 0 [] [] [] [] 0 0 0 0 (replicate 6 0).

(** ** The driver *)

Section driver.
Context {H N : Type} `{!Hardware H}.

(** The variables of the driver, the card, the heap, the network stack and the log. *)
Record machine := Machine { dev : e1000_device; hw : H; heap : Memory.Memory.heap; net : N; log : list cstring }.

Context (net_receive_frame : list Z → machine → option (Z * machine)) (net_register_device devmgr_register_device : machine → option (Z * machine)).

Definition set_dev (d : e1000_device) (m : machine) : machine := Machine d (hw m) (heap m) (net m) (log m).
Definition set_hw (h : H) (m : machine) : machine := Machine (dev m) h (heap m) (net m) (log m).
Definition set_heap (h : Memory.Memory.heap) (m : machine) : machine := Machine (dev m) (hw m) h (net m) (log m).
Definition klog (text : string) (m : machine) : machine := Machine (dev m) (hw m) (heap m) (net m) (log m ++ [lit text]).

Definition set_tx (descs : list e1000_tx_desc) (buffers : list Z) (tail head : nat) (d : e1000_device) : e1000_device :=
  Device (present d) (initialized d) (pci d) (mmio_base d) (rx_descs d) descs (rx_buffers d) buffers (rx_tail d) (rx_head d) tail head (mac d).
Definition set_rx (descs : list e1000_rx_desc) (buffers : list Z) (tail head : nat) (d : e1000_device) : e1000_device :=
  Device (present d) (initialized d) (pci d) (mmio_base d) descs (tx_descs d) buffers (tx_buffers d) tail head (tx_tail d) (tx_head d) (mac d).
Definition set_mac (l : list Z) (d : e1000_device) : e1000_device :=
  Device (present d) (initialized d) (pci d) (mmio_base d) (rx_descs d) (tx_descs d) (rx_buffers d) (tx_buffers d) (rx_tail d) (rx_head d) (tx_tail d) (tx_head d) l.
Definition set_found (info : pci_device_info) (base : Z) (d : e1000_device) : e1000_device :=
  Device true (initialized d) info base (rx_descs d) (tx_descs d) (rx_buffers d) (tx_buffers d) (rx_tail d) (rx_head d) (tx_tail d) (tx_head d) (mac d).
Definition set_initialized (d : e1000_device) : e1000_device :=
  Device (present d) true (pci d) (mmio_base d) (rx_descs d) (tx_descs d) (rx_buffers d) (tx_buffers d) (rx_tail d) (rx_head d) (tx_tail d) (tx_head d) (mac d).

Definition e1000_reg_read (offset : Z) (m : machine) : Z * machine :=
  let '(v, h) := load (u32 (mmio_base (dev m) + offset)) (hw m) in (v, set_hw h m).

Definition e1000_reg_write (offset value : Z) (m : machine) : machine :=
  (e1000_reg_read offset (set_hw (store (u32 (mmio_base (dev m) + offset)) value (hw m)) m)).2.

(** *** Sending and receiving *)

Definition e1000_net_transmit (data : option (list Z)) (m : machine) : option (Z * machine) :=
  match data with
  | None | Some [] => Some (-1, m)
  | Some data =>
      let d := dev m in
      if negb (initialized d) then Some (-1, m)
      else if (BUF_SIZE <? length data)%nat then Some (-1, klog "e1000: tx frame too large" m)
      else
        desc ← tx_descs d !! tx_tail d;
        if Z.land (t_status desc) STAT_DD =? 0 then Some (-1, klog "e1000: tx ring full" m)
        else
          b ← buf_copy (tx_buffers d) (tx_tail d * BUF_SIZE) data;
          let desc := TxDesc (t_addr desc) (u16 (Z.of_nat (length data))) E1000_TXD_CMD (Z.land (t_status desc) (255 - STAT_DD)) in
          let tail := ((tx_tail d + 1) mod RING)%nat in
          let m := set_dev (set_tx (<[tx_tail d := desc]> (tx_descs d)) b tail (tx_head d) d) m in
          Some (0, e1000_reg_write E1000_REG_TDT (Z.of_nat tail) m)
  end.

(** Descriptors that the card is done with. *)
Fixpoint reclaim (n : nat) (reclaimed : Z) (m : machine) : option (Z * machine) :=
  let d := dev m in
  if (tx_head d =? tx_tail d)%nat then Some (reclaimed, m)
  else
    match n with
    | O => None
    | S n' =>
        desc ← tx_descs d !! tx_head d;
        if Z.land (t_status desc) STAT_DD =? 0 then Some (reclaimed, m)
        else reclaim n' (reclaimed + 1) (set_dev (set_tx (tx_descs d) (tx_buffers d) (tx_tail d) ((tx_head d + 1) mod RING) d) m)
    end.

Definition e1000_poll_tx (m : machine) : option (Z * machine) := reclaim RING 0 m.

(** One frame, or [Some None] when there is none. *)
Definition receive_one (m : machine) : option (option machine) :=
  let d := dev m in
  let head := rx_head d in
  desc ← rx_descs d !! head;
  if Z.land (r_status desc) STAT_DD =? 0 then Some None
  else
    m ← (if (Z.land (r_status desc) RXD_STAT_EOP =? 0) || negb (r_errors desc =? 0) then Some (klog "e1000: dropping rx frame" m)
         else if (0 <? r_length desc) && (r_length desc <=? Z.of_nat BUF_SIZE) then
           frame ← field (rx_buffers d) (head * BUF_SIZE) (Z.to_nat (r_length desc));
           '(r, m) ← net_receive_frame frame m;
           Some (if r <? 0 then klog "e1000: frame rejected by stack" m else m)
         else Some m);
    let d := dev m in
    desc ← rx_descs d !! head;
    let desc := RxDesc (r_addr desc) (r_length desc) 0 0 0 in
    let m := set_dev (set_rx (<[head := desc]> (rx_descs d)) (rx_buffers d) (rx_head d) (rx_head d) d) m in
    let m := e1000_reg_write E1000_REG_RDT (Z.of_nat (rx_tail (dev m))) m in
    let d := dev m in
    Some (Some (set_dev (set_rx (rx_descs d) (rx_buffers d) (rx_tail d) ((rx_head d + 1) mod RING) d) m)).

Fixpoint receive_all (n : nat) (processed : Z) (m : machine) : option (Z * machine) :=
  r ← receive_one m;
  match r, n with
  | None, _ => Some (processed, m)
  | Some _, O => None
  | Some m, S n' => receive_all n' (processed + 1) m
  end.

Definition e1000_poll_rx (m : machine) : option (Z * machine) := receive_all RING 0 m.

Definition e1000_net_poll (m : machine) : option (Z * machine) :=
  if negb (initialized (dev m)) then Some (0, m)
  else
    '(t, m) ← e1000_poll_tx m;
    '(r, m) ← e1000_poll_rx m;
    Some (t + r, m).

(** *** Start-up *)

Fixpoint e1000_select_mmio_bar (bars : list Z) : option Z :=
  match bars with
  | [] => None
  | b :: bars' => if b =? 0 then e1000_select_mmio_bar bars' else if negb (Z.land b 1 =? 0) then e1000_select_mmio_bar bars' else Some (Z.land b 0xFFFFFFF0)
  end.

Definition e1000_read_mac (m : machine) : machine :=
  let '(ral, m) := e1000_reg_read E1000_REG_RAL0 m in
  let '(rah, m) := e1000_reg_read E1000_REG_RAH0 m in
  set_dev (set_mac [u8 ral; u8 (Z.shiftr ral 8); u8 (Z.shiftr ral 16); u8 (Z.shiftr ral 24); u8 rah; u8 (Z.shiftr rah 8)] (dev m)) m.

Definition hex (n : Z) : Z := if n <? 10 then 48 + n else 55 + n.

Fixpoint mac_text (l : list Z) : cstring :=
  match l with
  | [] => []
  | [b] => [hex (Z.land (Z.shiftr b 4) 15); hex (Z.land b 15)]
  | b :: l' => hex (Z.land (Z.shiftr b 4) 15) :: hex (Z.land b 15) :: 58 :: mac_text l'
  end.

Definition e1000_log_mac (m : machine) : machine := Machine (dev m) (hw m) (heap m) (net m) (log m ++ [lit "e1000: " ++ mac_text (mac (dev m))]).

Fixpoint wait_reset (n : nat) (m : machine) : bool * machine :=
  match n with
  | O => (false, klog "e1000: reset timeout" m)
  | S n' => let '(v, m) := e1000_reg_read E1000_REG_CTRL m in if Z.land v E1000_CTRL_RST =? 0 then (true, m) else wait_reset n' m
  end.

Definition e1000_reset (m : machine) : bool * machine :=
  let m := e1000_reg_write E1000_REG_IMC 0xFFFFFFFF m in
  let '(v, m) := e1000_reg_read E1000_REG_CTRL m in
  let m := e1000_reg_write E1000_REG_CTRL (Z.lor v E1000_CTRL_RST) m in
  wait_reset (Z.to_nat 100000) m.

Definition ring_bytes : Z := 16 * Z.of_nat RING.
Definition buffer_bytes : Z := Z.of_nat (RING * BUF_SIZE).

(** Two blocks of the heap: the address of each that there is. *)
Definition two_blocks (m : machine) : option Z * option Z * machine :=
  let '(p, h) := Memory.Memory.kalloc (heap m) ring_bytes in
  let '(q, h) := Memory.Memory.kalloc h buffer_bytes in (p, q, set_heap h m).

Definition e1000_setup_rx (m : machine) : bool * machine :=
  let m := e1000_reg_write E1000_REG_RCTL 0 m in
  match two_blocks m with
  | (Some descs, Some buffers, m) =>
      let l := map (fun i => RxDesc (u32 (buffers + Z.of_nat (i * BUF_SIZE))) 0 0 0 0) (List.seq 0 RING) in
      let m := set_dev (set_rx l (replicate (RING * BUF_SIZE) 0) (RING - 1) 0 (dev m)) m in
      let m := e1000_reg_write E1000_REG_RDBAL descs m in
      let m := e1000_reg_write E1000_REG_RDBAH 0 m in
      let m := e1000_reg_write E1000_REG_RDLEN ring_bytes m in
      let m := e1000_reg_write E1000_REG_RDH 0 m in
      let m := e1000_reg_write E1000_REG_RDT (Z.of_nat (rx_tail (dev m))) m in
      (true, e1000_reg_write E1000_REG_RCTL E1000_RCTL m)
  | (_, _, m) => (false, m)
  end.

Definition e1000_setup_tx (m : machine) : bool * machine :=
  match two_blocks m with
  | (Some descs, Some buffers, m) =>
      let l := map (fun i => TxDesc (u32 (buffers + Z.of_nat (i * BUF_SIZE))) 0 0 STAT_DD) (List.seq 0 RING) in
      let m := set_dev (set_tx l (replicate (RING * BUF_SIZE) 0) 0 0 (dev m)) m in
      let m := e1000_reg_write E1000_REG_TDBAL descs m in
      let m := e1000_reg_write E1000_REG_TDBAH 0 m in
      let m := e1000_reg_write E1000_REG_TDLEN ring_bytes m in
      let m := e1000_reg_write E1000_REG_TDH 0 m in
      let m := e1000_reg_write E1000_REG_TDT 0 m in
      let m := e1000_reg_write E1000_REG_TCTL E1000_TCTL m in
      (true, e1000_reg_write E1000_REG_TIPG 0x0060200A m)
  | (_, _, m) => (false, m)
  end.

Definition e1000_hw_init (m : machine) : bool * machine :=
  let '(ok, m) := e1000_reset m in
  if negb ok then (false, m)
  else
    let '(ctrl, m) := e1000_reg_read E1000_REG_CTRL m in
    let m := e1000_reg_write E1000_REG_CTRL (Z.lor ctrl (Z.lor E1000_CTRL_ASDE E1000_CTRL_SLU)) m in
    let m := e1000_reg_write E1000_REG_IMC 0xFFFFFFFF m in
    let '(ok, m) := e1000_setup_rx m in
    if negb ok then (false, m)
    else
      let '(ok, m) := e1000_setup_tx m in
      if negb ok then (false, m)
      else
        let m := e1000_log_mac (e1000_read_mac m) in
        let '(status, m) := e1000_reg_read E1000_REG_STATUS m in
        let m := klog (if negb (Z.land status E1000_STATUS_LU =? 0) then "e1000: link up" else "e1000: link down") m in
        (true, set_dev (set_initialized (dev m)) m).

Fixpoint e1000_probe (ids : list Z) (m : machine) : bool * machine :=
  match ids with
  | [] => (false, m)
  | id :: ids' =>
      let '(r, h) := pci_find_device E1000_VENDOR_ID id (hw m) in
      let m := set_hw h m in
      match r with
      | None => e1000_probe ids' m
      | Some info =>
          match e1000_select_mmio_bar (bar info) with
          | None => (false, klog "e1000: device lacks usable MMIO BAR" m)
          | Some mmio =>
              let m := set_hw (pci_enable_device info (Z.lor PCI_COMMAND_MEMORY_SPACE PCI_COMMAND_BUS_MASTER) (hw m)) m in
              (true, set_dev (set_found info mmio (dev m)) m)
          end
      end
  end.

Definition e1000_driver_init (m : machine) : option (Z * machine) :=
  let '(ok, m) := e1000_probe e1000_device_ids (set_dev no_device m) in
  if negb ok then Some (-1, klog "e1000: controller not detected" m)
  else
    let '(ok, m) := e1000_hw_init m in
    if negb ok then Some (-1, klog "e1000: hardware initialization failed" m)
    else
      '(r, m) ← net_register_device m;
      if r <? 0 then Some (-1, klog "e1000: failed to register netdev" m)
      else
        '(r, m) ← devmgr_register_device m;
        if r <? 0 then Some (-1, klog "e1000: failed to register device" m)
        else Some (0, klog "e1000: controller initialized" m).

Definition e1000_present (m : machine) : bool := present (dev m) && initialized (dev m).

End driver.

End E1000.

Module E1000Props.

Import Bytes E1000.

(** ** Rings *)

Definition pos (h k : nat) : nat := ((h + k) mod RING)%nat.

Lemma pos_lt h k : (pos h k < RING)%nat.
Proof. unfold pos, RING. apply Nat.mod_upper_bound. lia. Qed.

Lemma pos_0 h : (h < RING)%nat → pos h 0 = h.
Proof. intros H. unfold pos. rewrite Nat.add_0_r. by apply Nat.mod_small. Qed.

Lemma pos_pos h j k : pos (pos h j) k = pos h (j + k).
Proof. unfold pos, RING. rewrite Nat.Div0.add_mod_idemp_l. f_equal. lia. Qed.

Lemma pos_inj h j k : (h < RING)%nat → (j < RING)%nat → (k < RING)%nat → pos h j = pos h k → j = k.
Proof.
  unfold pos, RING. intros Hh Hj Hk E. destruct (decide (h + j < 32)%nat) as [H1|H1], (decide (h + k < 32)%nat) as [H2|H2].
  - rewrite !Nat.mod_small in E by done. lia.
  - rewrite (Nat.mod_small (h + j)) in E by done. replace (h + k)%nat with (h + k - 32 + 1 * 32)%nat in E by lia. rewrite Nat.Div0.mod_add, Nat.mod_small in E by lia. lia.
  - replace (h + j)%nat with (h + j - 32 + 1 * 32)%nat in E by lia. rewrite Nat.Div0.mod_add, !Nat.mod_small in E by lia. lia.
  - replace (h + j)%nat with (h + j - 32 + 1 * 32)%nat in E by lia. replace (h + k)%nat with (h + k - 32 + 1 * 32)%nat in E by lia. rewrite !Nat.Div0.mod_add, !Nat.mod_small in E by lia. lia.
Qed.

Lemma pos_wrap h : (h < RING)%nat → pos h RING = h.
Proof. intros H. unfold pos. replace (h + RING)%nat with (h + 1 * RING)%nat by lia. rewrite Nat.Div0.mod_add. by apply Nat.mod_small. Qed.

(** The slots from [h] on hold a queue, and the others nothing. *)
Definition ring {A} (slot : nat → option A) (h : nat) (q : list A) : Prop := ∀ k, (k < RING)%nat → slot (pos h k) = q !! k.

Section ring.
Context {A : Type}.
Implicit Types (slot : nat → option A) (q : list A).

Lemma ring_ext slot slot' h q : (∀ i, (i < RING)%nat → slot' i = slot i) → ring slot h q → ring slot' h q.
Proof using. intros E R k Hk. rewrite E by apply pos_lt. by apply R. Qed.

Lemma slots_push slot slot' h q x : (h < RING)%nat → (length q < RING)%nat → ring slot h q →
  slot' (pos h (length q)) = Some x → (∀ i, (i < RING)%nat → i ≠ pos h (length q) → slot' i = slot i) → ring slot' h (q ++ [x]).
Proof using.
  intros Hh Hq R Hx Ho k Hk. destruct (decide (k = length q)) as [->|Hne].
  - rewrite Hx, lookup_app_r, Nat.sub_diag by done. done.
  - rewrite Ho; [|apply pos_lt|intros E; by apply pos_inj in E]. rewrite R by done. destruct (decide (k < length q)%nat); [by rewrite lookup_app_l|]. rewrite !lookup_ge_None_2; [done|rewrite length_app; cbn; lia|lia].
Qed.

Lemma slots_pop slot slot' h q x : (h < RING)%nat → (length (x :: q) ≤ RING)%nat → ring slot h (x :: q) →
  slot' h = None → (∀ i, (i < RING)%nat → i ≠ h → slot' i = slot i) → ring slot' (pos h 1) q.
Proof using.
  intros Hh Hq R Hx Ho k Hk. rewrite pos_pos. destruct (decide (k = 31)%nat) as [->|Hne].
  - change (1 + 31)%nat with RING. rewrite pos_wrap, Hx by done. rewrite lookup_ge_None_2; [done|]. cbn [length] in Hq. unfold RING in Hq. lia.
  - unfold RING in Hk. rewrite Ho; [|apply pos_lt|]. 2:{ intros E. rewrite <- (pos_0 h Hh) in E at 2. apply pos_inj in E; [lia|done|unfold RING; lia|unfold RING; lia]. }
    rewrite R by (unfold RING; lia). done.
Qed.

Lemma ring_head slot h q x : (h < RING)%nat → ring slot h (x :: q) → slot h = Some x.
Proof using. intros Hh R. rewrite <- (pos_0 h Hh). by rewrite R by (unfold RING; lia). Qed.

Lemma ring_nil slot h : (h < RING)%nat → ring slot h [] → ∀ i, (i < RING)%nat → slot i = None.
Proof using.
  intros Hh R i Hi. destruct (decide (h ≤ i)%nat).
  - replace i with (pos h (i - h)); [by rewrite R by lia|]. unfold pos. replace (h + (i - h))%nat with i by lia. by apply Nat.mod_small.
  - replace i with (pos h (RING - h + i)); [by rewrite R by lia|]. unfold pos. replace (h + (RING - h + i))%nat with (i + 1 * RING)%nat by lia. rewrite Nat.Div0.mod_add. by apply Nat.mod_small.
Qed.

End ring.

(** ** Buffers *)

Definition slot_bytes (b : list Z) (i n : nat) : option (list Z) := field b (i * BUF_SIZE) n.

Lemma slot_copy b i f : length b = (RING * BUF_SIZE)%nat → (i < RING)%nat → (length f ≤ BUF_SIZE)%nat →
  ∃ b', buf_copy b (i * BUF_SIZE) f = Some b' ∧ length b' = length b ∧ slot_bytes b' i (length f) = Some f ∧
    ∀ j n, (j < RING)%nat → j ≠ i → (n ≤ BUF_SIZE)%nat → slot_bytes b' j n = slot_bytes b j n.
Proof.
  intros Hb Hi Hf. assert (Hroom : (i * BUF_SIZE + length f ≤ length b)%nat) by (rewrite Hb; nia). rewrite buf_copy_ok by done. eexists. split; [done|]. split; [rewrite !length_app, length_take, length_drop; lia|].
  assert (Hl : length (take (i * BUF_SIZE) b) = (i * BUF_SIZE)%nat) by (rewrite length_take; lia). unfold slot_bytes. split.
  - rewrite field_app_r by lia. rewrite Hl, Nat.sub_diag. apply field_exact.
  - intros j n Hj Hne Hn. destruct (decide (j < i)%nat) as [Hlt|Hlt].
    + assert ((j * BUF_SIZE + n ≤ i * BUF_SIZE)%nat) by nia. rewrite field_app_l by lia. rewrite !field_ok by lia. f_equal. rewrite skipn_firstn_comm, take_take. f_equal. lia.
    + assert ((i * BUF_SIZE + length f ≤ j * BUF_SIZE)%nat) by nia. assert ((j * BUF_SIZE + n ≤ length b)%nat) by (rewrite Hb; nia). rewrite field_app_r by lia. rewrite Hl, field_app_r by lia. rewrite !field_ok by (rewrite ?length_drop; lia). rewrite drop_drop. do 3 f_equal. lia.
Qed.

(** ** What the card keeps *)

(** The two registers with which the driver hands descriptors over.  A store to one sets
    it; no other access changes it, but for a store to the control register, which may reset
    the card. *)
Class CardRegs (H : Type) `{!Hardware H} := {
  tdt : Z → H → Z;
  rdt : Z → H → Z;
  tdt_load base a h : tdt base (load a h).2 = tdt base h;
  rdt_load base a h : rdt base (load a h).2 = rdt base h;
  tdt_store base v h : tdt base (store (u32 (base + E1000_REG_TDT)) v h) = v;
  rdt_store base v h : rdt base (store (u32 (base + E1000_REG_RDT)) v h) = v;
  tdt_other base a v h : a ≠ u32 (base + E1000_REG_TDT) → a ≠ u32 (base + E1000_REG_CTRL) → tdt base (store a v h) = tdt base h;
  rdt_other base a v h : a ≠ u32 (base + E1000_REG_RDT) → a ≠ u32 (base + E1000_REG_CTRL) → rdt base (store a v h) = rdt base h
}.

Lemma register_inj base a b : 0 ≤ a < 4294967296 → 0 ≤ b < 4294967296 → a ≠ b → u32 (base + a) ≠ u32 (base + b).
Proof.
  intros Ha Hb Hne E. apply Hne. unfold u32 in E. rewrite <- (Z.mod_small a 4294967296), <- (Z.mod_small b 4294967296) by done.
  replace a with (base + a - base) by lia. replace b with (base + b - base) by lia. rewrite (Zminus_mod (base + a)), (Zminus_mod (base + b)), E. done.
Qed.

Lemma dd_set status : Z.land (Z.lor status STAT_DD) STAT_DD ≠ 0.
Proof. unfold STAT_DD. rewrite Z.land_lor_distr_l. change (Z.land 1 1) with 1. intros E. apply Z.lor_eq_0_iff in E as [_ E]. done. Qed.

Lemma dd_cleared status : Z.land (Z.land status (255 - STAT_DD)) STAT_DD = 0.
Proof. rewrite <- Z.land_assoc. change (Z.land (255 - STAT_DD) STAT_DD) with 0. apply Z.land_0_r. Qed.

Section rings.
Context {H N : Type} `{HH : !Hardware H} `{!CardRegs H}.
Abbreviation machine := (@machine H N).
Implicit Types (m : machine) (d : e1000_device).

Definition tx_slot d (i : nat) : option (list Z) :=
  desc ← tx_descs d !! i; if Z.land (t_status desc) STAT_DD =? 0 then slot_bytes (tx_buffers d) i (Z.to_nat (t_length desc)) else None.

(** Whether the stack gets the frame of a descriptor. *)
Definition good (desc : e1000_rx_desc) : bool := negb ((Z.land (r_status desc) RXD_STAT_EOP =? 0) || negb (r_errors desc =? 0)) && (0 <? r_length desc).

Definition rx_slot d (i : nat) : option (list Z * bool) :=
  desc ← rx_descs d !! i; if Z.land (r_status desc) STAT_DD =? 0 then None else f ← slot_bytes (rx_buffers d) i (Z.to_nat (r_length desc)); Some (f, good desc).

Record arrays_ok d : Prop := {
  ao_tx : length (tx_descs d) = RING;
  ao_rx : length (rx_descs d) = RING;
  ao_txb : length (tx_buffers d) = (RING * BUF_SIZE)%nat;
  ao_rxb : length (rx_buffers d) = (RING * BUF_SIZE)%nat;
  ao_txl : Forall (fun desc => 0 ≤ t_length desc ≤ Z.of_nat BUF_SIZE) (tx_descs d);
  ao_rxl : Forall (fun desc => 0 ≤ r_length desc ≤ Z.of_nat BUF_SIZE) (rx_descs d);
  ao_head : (tx_head d < RING)%nat
}.

(** The frames [q] wait in the ring for sending, the first at [tdh]. *)
Record tx_ok m (tdh : nat) (q : list (list Z)) : Prop := {
  tx_init : initialized (dev m) = true;
  tx_arrays : arrays_ok (dev m);
  tx_first : (tdh < RING)%nat;
  tx_room : (length q ≤ RING)%nat;
  tx_last : tx_tail (dev m) = pos tdh (length q);
  tx_reg : tdt (mmio_base (dev m)) (hw m) = Z.of_nat (pos tdh (length q));
  tx_ring : ring (tx_slot (dev m)) tdh q
}.

(** The frames [p] wait in the ring for receiving; the card is at [rdh]. *)
Record rx_ok m (rdh : nat) (p : list (list Z * bool)) : Prop := {
  rx_arrays : arrays_ok (dev m);
  rx_first : (rx_head (dev m) < RING)%nat;
  rx_room : (length p < RING)%nat;
  rx_card : rdh = pos (rx_head (dev m)) (length p);
  rx_reg : rdt (mmio_base (dev m)) (hw m) = Z.of_nat (pos (rx_head (dev m)) (RING - 1));
  rx_ring : ring (rx_slot (dev m)) (rx_head (dev m)) p
}.

Lemma tx_ok_same m m' tdh q : dev m' = dev m → hw m' = hw m → tx_ok m tdh q → tx_ok m' tdh q.
Proof using. intros Ed Eh []. by split; rewrite ?Ed, ?Eh. Qed.

Lemma rx_ok_same m m' rdh p : dev m' = dev m → hw m' = hw m → rx_ok m rdh p → rx_ok m' rdh p.
Proof using. intros Ed Eh []. by split; rewrite ?Ed, ?Eh. Qed.

Lemma reg_write_dev off v m : dev (e1000_reg_write off v m) = dev m.
Proof using. unfold e1000_reg_write, e1000_reg_read. by destruct (load _ _). Qed.

Lemma reg_write_net off v m : net (e1000_reg_write off v m) = net m.
Proof using. unfold e1000_reg_write, e1000_reg_read. by destruct (load _ _). Qed.

Lemma reg_write_hw off v m : hw (e1000_reg_write off v m) = (load (u32 (mmio_base (dev m) + off)) (store (u32 (mmio_base (dev m) + off)) v (hw m))).2.
Proof using. unfold e1000_reg_write, e1000_reg_read. cbn [hw dev set_hw]. by destruct (load _ _). Qed.

Lemma write_tdt v m : let m' := e1000_reg_write E1000_REG_TDT v m in tdt (mmio_base (dev m)) (hw m') = v ∧ rdt (mmio_base (dev m)) (hw m') = rdt (mmio_base (dev m)) (hw m).
Proof using.
  intros m'. unfold m'. rewrite reg_write_hw, tdt_load, rdt_load, tdt_store, rdt_other; [done| |]; apply register_inj; unfold E1000_REG_TDT, E1000_REG_RDT, E1000_REG_CTRL; lia.
Qed.

Lemma write_rdt v m : let m' := e1000_reg_write E1000_REG_RDT v m in rdt (mmio_base (dev m)) (hw m') = v ∧ tdt (mmio_base (dev m)) (hw m') = tdt (mmio_base (dev m)) (hw m).
Proof using.
  intros m'. unfold m'. rewrite reg_write_hw, tdt_load, rdt_load, rdt_store, tdt_other; [done| |]; apply register_inj; unfold E1000_REG_TDT, E1000_REG_RDT, E1000_REG_CTRL; lia.
Qed.

(** A free slot has a descriptor that the card is done with, and only a free one. *)
Lemma tx_slot_free d i desc : arrays_ok d → (i < RING)%nat → tx_descs d !! i = Some desc → (tx_slot d i = None ↔ Z.land (t_status desc) STAT_DD ≠ 0).
Proof using.
  intros [] Hi E. unfold tx_slot. rewrite E. cbn [mbind option_bind]. destruct (Z.eqb_spec (Z.land (t_status desc) STAT_DD) 0) as [Hz|Hz]; [|split; intros _; [exact Hz|reflexivity]]. split; [|intros Hn; by destruct Hn].
  pose proof (Forall_lookup_1 _ _ _ _ ao_txl0 E) as Hl. cbn in Hl. unfold slot_bytes. rewrite field_ok; [intros [=]|]. rewrite ao_txb0. nia.
Qed.

Lemma transmit_ok m tdh q f : tx_ok m tdh q →
  ∃ r m', e1000_net_transmit (Some f) m = Some (r, m') ∧ net m' = net m ∧
    ((r = -1 ∧ dev m' = dev m ∧ hw m' = hw m ∧ (f = [] ∨ (BUF_SIZE < length f)%nat ∨ length q = RING)) ∨
     (r = 0 ∧ (length q < RING)%nat ∧ tx_ok m' tdh (q ++ [f]) ∧ ∀ rdh p, rx_ok m rdh p → rx_ok m' rdh p)).
Proof using.
  intros [Hin Ha Hf Hr Ht Hreg Hring]. unfold e1000_net_transmit. destruct f as [|c f0]; [exists (-1), m; split; [done|]; split; [done|]; left; split_and!; [done..|by left]|]. set (f := c :: f0). rewrite Hin. cbn [negb]. destruct (Nat.ltb_spec BUF_SIZE (length f)) as [Hbig|Hfit]; [eexists (-1), (klog _ m); split; [done|]; split; [done|]; left; do 3 (split; [done|]); right; left; exact Hbig|].
  assert (Hp : (pos tdh (length q) < RING)%nat) by apply pos_lt. rewrite Ht. destruct (lookup_lt_is_Some_2 (tx_descs (dev m)) (pos tdh (length q))) as [desc Ed]; [by rewrite (ao_tx _ Ha)|]. rewrite Ed. cbn [mbind option_bind]. pose proof (tx_slot_free (dev m) _ desc Ha Hp Ed) as Hfree.
  destruct (Z.eqb_spec (Z.land (t_status desc) STAT_DD) 0) as [Hz|Hz].
  - do 2 eexists. split; [done|]. split; [done|]. left. do 3 (split; [done|]). right. right. destruct (decide (length q < RING)%nat) as [Hlt|]; [|lia]. rewrite (Hring _ Hlt), lookup_ge_None_2 in Hfree by lia. by destruct (proj1 Hfree eq_refl).
  - destruct (slot_copy (tx_buffers (dev m)) (pos tdh (length q)) f (ao_txb _ Ha) Hp ltac:(lia)) as (b & -> & Hlb & Hsame & Hother). cbn [mbind option_bind]. do 2 eexists. split; [done|]. rewrite reg_write_net. split; [done|]. right. split; [done|]. assert (Hlt : (length q < RING)%nat).
    { destruct (decide (length q < RING)%nat); [done|]. assert (Hq : length q = RING) by lia. rewrite Hq, pos_wrap in * by done. destruct q as [|x q]; [done|]. rewrite (ring_head _ _ _ _ Hf Hring) in Hfree. by pose proof (proj2 Hfree Hz). }
    split; [done|]. set (d' := set_tx _ _ _ _ _). assert (Ha' : arrays_ok d').
    { destruct Ha. split; cbn [tx_descs rx_descs tx_buffers rx_buffers tx_head d' set_tx]; try assumption; [by rewrite length_insert|by rewrite Hlb|]. apply Forall_insert; [assumption|]. cbn [t_length]. rewrite u16_small; unfold BUF_SIZE in *; lia. }
    set (m1 := set_dev d' m). destruct (write_tdt (Z.of_nat ((pos tdh (length q) + 1) mod RING)) m1) as [E1 E2]. cbn [mmio_base dev m1 set_dev d' set_tx] in E1, E2. assert (Hnext : ((pos tdh (length q) + 1) mod RING)%nat = pos tdh (length (q ++ [f]))) by (rewrite length_app; cbn [length]; apply pos_pos).
    split.
    + split; rewrite ?reg_write_dev; try done; [rewrite length_app; cbn; lia|by rewrite <- Hnext|].
      apply (slots_push (tx_slot (dev m))); [done|done|done| |].
      * cbn [dev m1 set_dev]. unfold tx_slot. cbn [tx_descs tx_buffers d' set_tx]. rewrite list_lookup_insert_eq by (by rewrite (ao_tx _ Ha)). cbn [mbind option_bind t_status t_length]. rewrite dd_cleared. cbn [Z.eqb]. rewrite u16_small by (unfold BUF_SIZE in *; lia). by rewrite Nat2Z.id.
      * intros i Hi Hne. cbn [dev m1 set_dev]. unfold tx_slot. cbn [tx_descs tx_buffers d' set_tx]. rewrite list_lookup_insert_ne by done. destruct (tx_descs (dev m) !! i) as [di|] eqn:Ei; cbn [mbind option_bind]; [|done]. destruct (_ =? 0); [|done]. apply Hother; [done|done|]. pose proof (Forall_lookup_1 _ _ _ _ (ao_txl _ Ha) Ei) as Hl. cbn in Hl. lia.
    + intros rdh p [R1 R2 R3 R4 R5 R6]. split; rewrite ?reg_write_dev; try done. cbn [mmio_base dev m1 set_dev d' set_tx]. by rewrite E2.
Qed.

(** Giving back descriptors changes nothing but [tx_head]. *)
Lemma reclaim_ok n k c m tdh q : (k ≤ n)%nat → (k < RING)%nat → tx_ok m tdh q → tx_tail (dev m) = pos (tx_head (dev m)) k →
  ∃ r m', reclaim n c m = Some (r, m') ∧ tx_ok m' tdh q ∧ net m' = net m ∧ (∀ rdh p, rx_ok m rdh p → rx_ok m' rdh p).
Proof using.
  revert k c m. induction n as [|n IH]; intros k c m Hk Hk32 Hm Ht; pose proof (ao_head _ (tx_arrays _ _ _ Hm)) as Hh; cbn [reclaim]; destruct (Nat.eqb_spec (tx_head (dev m)) (tx_tail (dev m))) as [E|E]; [by exists c, m| |by exists c, m|].
  - exfalso. apply E. rewrite Ht. replace k with 0%nat by lia. by rewrite pos_0.
  - destruct (lookup_lt_is_Some_2 (tx_descs (dev m)) (tx_head (dev m))) as [desc Ed]; [by rewrite (ao_tx _ (tx_arrays _ _ _ Hm))|]. rewrite Ed. cbn [mbind option_bind]. destruct (_ =? 0); [by exists c, m|].
    destruct k as [|k]; [by rewrite Ht, pos_0 in E|]. set (d' := set_tx _ _ _ _ _). set (m1 := set_dev d' m). assert (Ha' : arrays_ok d').
    { destruct (tx_arrays _ _ _ Hm). split; cbn [tx_descs rx_descs tx_buffers rx_buffers tx_head d' set_tx]; try assumption. apply (pos_lt (tx_head (dev m)) 1). }
    destruct (IH k (c + 1) m1 ltac:(lia) ltac:(lia)) as (r & m' & -> & H1 & H2 & H3).
    + destruct Hm. by split.
    + cbn [dev m1 set_dev tx_tail tx_head d' set_tx]. rewrite Ht. change ((tx_head (dev m) + 1) mod RING)%nat with (pos (tx_head (dev m)) 1). by rewrite pos_pos.
    + exists r, m'. split; [done|]. split; [done|]. split; [done|]. intros rdh p Hrx. apply H3. destruct Hrx. by split.
Qed.

Lemma poll_tx_ok m tdh q : tx_ok m tdh q →
  ∃ r m', e1000_poll_tx m = Some (r, m') ∧ tx_ok m' tdh q ∧ net m' = net m ∧ (∀ rdh p, rx_ok m rdh p → rx_ok m' rdh p).
Proof using.
  intros Hm. pose proof (ao_head _ (tx_arrays _ _ _ Hm)) as Hh. pose proof (tx_last _ _ _ Hm) as Ht. assert (Htl : (tx_tail (dev m) < RING)%nat) by (rewrite Ht; apply pos_lt). unfold e1000_poll_tx. destruct (decide (tx_head (dev m) ≤ tx_tail (dev m))%nat) as [Hle|Hle].
  - apply (reclaim_ok RING (tx_tail (dev m) - tx_head (dev m)) 0 m tdh q); [lia|lia|done|]. unfold pos. replace (tx_head (dev m) + (tx_tail (dev m) - tx_head (dev m)))%nat with (tx_tail (dev m)) by lia. by rewrite Nat.mod_small.
  - apply (reclaim_ok RING (RING - tx_head (dev m) + tx_tail (dev m)) 0 m tdh q); [lia|lia|done|]. unfold pos. replace (tx_head (dev m) + (RING - tx_head (dev m) + tx_tail (dev m)))%nat with (tx_tail (dev m) + 1 * RING)%nat by lia. rewrite Nat.Div0.mod_add. by rewrite Nat.mod_small.
Qed.

(** ** The stack *)

(** Frames that are handed to the driver one after the other, with those it accepts. *)
Inductive transmits : machine → list (list Z) → machine → Prop :=
| tr_done m : transmits m [] m
| tr_sent m f m1 l m2 : e1000_net_transmit (Some f) m = Some (0, m1) → transmits m1 l m2 → transmits m (f :: l) m2
| tr_refused m f r m1 l m2 : e1000_net_transmit (Some f) m = Some (r, m1) → r ≠ 0 → transmits m1 l m2 → transmits m l m2
| tr_other m m1 l m2 : dev m1 = dev m → hw m1 = hw m → transmits m1 l m2 → transmits m l m2.

Lemma transmits_ok m l m' tdh q : transmits m l m' → tx_ok m tdh q → tx_ok m' tdh (q ++ l) ∧ ∀ rdh p, rx_ok m rdh p → rx_ok m' rdh p.
Proof using.
  intros T. revert q. induction T as [m|m f m1 l m2 Ht T IH|m f r m1 l m2 Ht Hr T IH|m m1 l m2 Ed Eh T IH]; intros q Hm.
  - by rewrite app_nil_r.
  - destruct (transmit_ok m tdh q f Hm) as (r & m1' & E & _ & [(-> & _)|(_ & _ & H1 & H2)]); rewrite Ht in E; injection E as E1 E2; [lia|subst m1']. destruct (IH _ H1) as [H3 H4]. rewrite <- app_assoc in H3. split; [done|]. eauto.
  - destruct (transmit_ok m tdh q f Hm) as (r' & m1' & E & _ & [(_ & Ed & Eh & _)|(E0 & _)]); rewrite Ht in E; injection E as E1 E2; [subst m1'|congruence]. destruct (IH q) as [H3 H4]; [by eapply tx_ok_same|]. split; [done|]. intros rdh p Hrx. apply H4. by eapply rx_ok_same.
  - destruct (IH q) as [H3 H4]; [by eapply tx_ok_same|]. split; [done|]. intros rdh p Hrx. apply H4. by eapply rx_ok_same.
Qed.

Lemma transmits_rx m l m' : transmits m l m' → ∀ tdh q, tx_ok m tdh q → rx_head (dev m') = rx_head (dev m) ∧ rx_descs (dev m') = rx_descs (dev m) ∧ rx_buffers (dev m') = rx_buffers (dev m).
Proof using.
  intros T. assert (Ht : ∀ m f r m1, e1000_net_transmit (Some f) m = Some (r, m1) → rx_head (dev m1) = rx_head (dev m) ∧ rx_descs (dev m1) = rx_descs (dev m) ∧ rx_buffers (dev m1) = rx_buffers (dev m)).
  { clear. intros m f r m1 E. unfold e1000_net_transmit in E. destruct f as [|c f]; [by injection E as <- <-|]. destruct (negb _); [by injection E as <- <-|]. destruct (_ <? _)%nat; [by injection E as <- <-|]. destruct (_ !! _); [|done]. cbn [mbind option_bind] in E. destruct (_ =? 0); [by injection E as <- <-|].
    destruct (buf_copy _ _ _); [|done]. cbn [mbind option_bind] in E. injection E as <- <-. by rewrite reg_write_dev. }
  induction T as [m|m f m1 l m2 E T IH|m f r m1 l m2 E Hr T IH|m m1 l m2 Ed Eh T IH]; intros tdh q Hm; [done| | |].
  - destruct (Ht _ _ _ _ E) as (E1 & E2 & E3). destruct (transmit_ok m tdh q f Hm) as (r & m1' & E' & _ & [(-> & _)|(_ & _ & H1 & _)]); rewrite E in E'; injection E' as F1 F2; [lia|subst m1']. destruct (IH _ _ H1) as (-> & -> & ->). done.
  - destruct (Ht _ _ _ _ E) as (E1 & E2 & E3). destruct (transmit_ok m tdh q f Hm) as (r' & m1' & E' & _ & [(_ & F3 & F4 & _)|(-> & _)]); rewrite E in E'; injection E' as F1 F2; [subst m1'|congruence]. destruct (IH tdh q) as (-> & -> & ->); [by eapply tx_ok_same|]. done.
  - destruct (IH tdh q) as (-> & -> & ->); [by eapply tx_ok_same|]. by rewrite Ed.
Qed.

Context (net_receive_frame : list Z → machine → option (Z * machine)) (received replied : N → list (list Z)).

(** The stack takes a frame and comes back; it may send, and it touches nothing else of the
    driver and the card.  It remembers what it got and what it sent. *)
Hypothesis stack_takes : ∀ f m tdh q rdh p, tx_ok m tdh q → rx_ok m rdh p →
  ∃ r m' l, net_receive_frame f m = Some (r, m') ∧ transmits m l m' ∧ received (net m') = received (net m) ++ [f] ∧ replied (net m') = replied (net m) ++ l.

Lemma transmits_end m l m1 m2 : transmits m l m1 → dev m2 = dev m1 → hw m2 = hw m1 → transmits m l m2.
Proof using.
  intros T Ed Eh. induction T as [m|m f m1 l m3 E T IH|m f r m1 l m3 E Hr T IH|m m1 l m3 Fd Fh T IH]; [by eapply tr_other; [..|apply tr_done]| | |].
  - by eapply tr_sent; [|apply IH].
  - by eapply tr_refused; [| |apply IH].
  - by eapply tr_other; [| |apply IH].
Qed.

Lemma rx_slot_free d i desc : arrays_ok d → (i < RING)%nat → rx_descs d !! i = Some desc → Z.land (r_status desc) STAT_DD ≠ 0 → ∃ f, slot_bytes (rx_buffers d) i (Z.to_nat (r_length desc)) = Some f ∧ rx_slot d i = Some (f, good desc) ∧ length f = Z.to_nat (r_length desc).
Proof using.
  intros [] Hi E Hz. unfold rx_slot. rewrite E. cbn [mbind option_bind]. rewrite (proj2 (Z.eqb_neq _ 0) Hz). pose proof (Forall_lookup_1 _ _ _ _ ao_rxl0 E) as Hl. cbn in Hl. destruct (slot_bytes (rx_buffers d) i (Z.to_nat (r_length desc))) as [f|] eqn:Ef.
  - exists f. split; [done|]. split; [done|]. apply field_Some in Ef. tauto.
  - exfalso. unfold slot_bytes in Ef. rewrite field_ok in Ef; [done|]. rewrite ao_rxb0. nia.
Qed.

(** What happens to a frame that is there. *)
Lemma hand_over m tdh q rdh p desc f : tx_ok m tdh q → rx_ok m rdh p → slot_bytes (rx_buffers (dev m)) (rx_head (dev m)) (Z.to_nat (r_length desc)) = Some f → 0 ≤ r_length desc ≤ Z.of_nat BUF_SIZE →
  ∃ m1 l, (if (Z.land (r_status desc) RXD_STAT_EOP =? 0) || negb (r_errors desc =? 0) then Some (klog "e1000: dropping rx frame" m)
     else if (0 <? r_length desc) && (r_length desc <=? Z.of_nat BUF_SIZE) then
       frame ← field (rx_buffers (dev m)) (rx_head (dev m) * BUF_SIZE) (Z.to_nat (r_length desc));
       '(r, m) ← net_receive_frame frame m;
       Some (if r <? 0 then klog "e1000: frame rejected by stack" m else m)
     else Some m) = Some m1 ∧ transmits m l m1 ∧ received (net m1) = received (net m) ++ (if good desc then [f] else []) ∧ replied (net m1) = replied (net m) ++ l.
Proof using stack_takes.
  intros Htx Hrx Hf Hl. unfold good. destruct (_ || _); [exists (klog "e1000: dropping rx frame" m), []; split; [done|]; split; [by eapply transmits_end; [apply tr_done|..]|]; cbn; by rewrite !app_nil_r|]. cbn [negb andb]. destruct (Z.ltb_spec 0 (r_length desc)) as [Hpos|Hpos]; cbn [andb]; [|exists m, []; split; [done|]; split; [apply tr_done|]; by rewrite !app_nil_r].
  rewrite (proj2 (Z.leb_le _ _)) by lia. unfold slot_bytes in Hf. rewrite Hf. cbn [mbind option_bind]. destruct (stack_takes f m tdh q rdh p Htx Hrx) as (r & m1 & l & -> & T & R). cbn [mbind option_bind]. destruct (r <? 0); do 2 eexists; (split; [done|]); [split; [by eapply transmits_end|done]|done].
Qed.

(** The frame at the head of the ring goes to the stack, and its descriptor to the card. *)
Lemma receive_one_ok m tdh q rdh p : tx_ok m tdh q → rx_ok m rdh p →
  match p with
  | [] => receive_one net_receive_frame m = Some None
  | (f, g) :: p' => ∃ m' l, receive_one net_receive_frame m = Some (Some m') ∧ tx_ok m' tdh (q ++ l) ∧ rx_ok m' rdh p' ∧ received (net m') = received (net m) ++ (if g : bool then [f] else []) ∧ replied (net m') = replied (net m) ++ l
  end.
Proof using stack_takes.
  intros Htx Hrx. destruct (Hrx) as [Ra Rf Rr Rc Rreg Rring]. unfold receive_one. destruct (lookup_lt_is_Some_2 (rx_descs (dev m)) (rx_head (dev m))) as [desc Ed]; [by rewrite (ao_rx _ Ra)|]. rewrite Ed. cbn [mbind option_bind].
  pose proof (Rring 0%nat ltac:(unfold RING; lia)) as Hh. rewrite pos_0 in Hh by done. destruct (Z.eqb_spec (Z.land (r_status desc) STAT_DD) 0) as [Hz|Hz].
  { unfold rx_slot in Hh. rewrite Ed in Hh. cbn [mbind option_bind] in Hh. rewrite (proj2 (Z.eqb_eq _ 0) Hz) in Hh. by destruct p. }
  destruct (rx_slot_free (dev m) _ desc Ra Rf Ed Hz) as (f & Hf & Hs & _). rewrite Hs in Hh. destruct p as [|[f' g] p']; [done|]. cbn in Hh. injection Hh as <- <-. pose proof (Forall_lookup_1 _ _ _ _ (ao_rxl _ Ra) Ed) as Hlen. cbn beta in Hlen.
  destruct (hand_over m tdh q rdh _ desc f Htx Hrx Hf Hlen) as (m1 & l & -> & T & R). cbn [mbind option_bind]. destruct (transmits_ok m l m1 tdh q T Htx) as [Htx1 Hrx1]. specialize (Hrx1 rdh _ Hrx). destruct (transmits_rx m l m1 T tdh q Htx) as (F1 & F2 & F3). rewrite F2, Ed. cbn [mbind option_bind]. rewrite F1. set (h := rx_head (dev m)) in *.
  set (d1 := set_rx _ _ _ _ (dev m1)). set (m2 := set_dev d1 m1). destruct (write_rdt (Z.of_nat h) m2) as [E1 E2]. change (rx_tail (dev m2)) with h. set (m3 := e1000_reg_write E1000_REG_RDT (Z.of_nat h) m2) in *. assert (Ed3 : dev m3 = d1) by apply reg_write_dev.
  do 2 eexists. split; [done|]. rewrite Ed3. cbn [rx_descs rx_buffers rx_tail rx_head d1 set_rx]. set (d2 := set_rx _ _ _ _ d1). assert (Ha2 : arrays_ok d2).
  { destruct (tx_arrays _ _ _ Htx1). split; cbn [tx_descs rx_descs tx_buffers rx_buffers tx_head d2 d1 set_rx]; try assumption; [by rewrite length_insert, <- F2|]. rewrite <- F2. by apply Forall_insert. }
  cbn [mmio_base dev m2 set_dev d1 set_rx] in E1, E2. split; [|split].
  - destruct Htx1 as [T1 T2 T3 T4 T5 T6 T7]. split; try done. cbn [mmio_base dev hw set_dev d2 d1 set_rx]. rewrite E2. exact T6.
  - destruct Hrx1 as [R1 R2 R3 R4 R5 R6]. rewrite F1 in R4, R6. split; [exact Ha2|apply pos_lt|cbn [length] in R3; lia| | |]; cbn [mmio_base dev hw set_dev d2 d1 set_rx rx_head]; change ((h + 1) mod RING)%nat with (pos h 1).
    + rewrite pos_pos. exact R4.
    + rewrite E1, pos_pos. change (1 + (RING - 1))%nat with RING. by rewrite pos_wrap.
    + apply (slots_pop (rx_slot (dev m1)) _ _ _ (f, good desc)); [done|lia|done| |].
      * unfold rx_slot. cbn [rx_descs set_rx d2 d1]. by rewrite list_lookup_insert_eq by (by rewrite (ao_rx _ Ra)).
      * intros i Hi Hne. unfold rx_slot. cbn [rx_descs rx_buffers set_rx d2 d1]. by rewrite list_lookup_insert_ne, F2 by done.
  - cbn [net set_dev]. unfold m3. by rewrite reg_write_net.
Qed.

(** A poll comes to its end and hands over everything that waits. *)
Lemma receive_all_ok n c m tdh q rdh p : (length p ≤ n)%nat → tx_ok m tdh q → rx_ok m rdh p →
  ∃ m' l, receive_all net_receive_frame n c m = Some (c + Z.of_nat (length p), m') ∧ tx_ok m' tdh (q ++ l) ∧ rx_ok m' rdh [] ∧ received (net m') = received (net m) ++ map fst (filter (fun x => x.2 = true) p).
Proof using stack_takes.
  revert c m q p. induction n as [|n IH]; intros c m q p Hp Htx Hrx; pose proof (receive_one_ok m tdh q rdh p Htx Hrx) as Hone; cbn [receive_all]; destruct p as [|[f g] p]; try (cbn in Hp; lia).
  1,2: rewrite Hone; cbn [mbind option_bind]; exists m, []; rewrite Z.add_0_r, !app_nil_r; done.
  destruct Hone as (m1 & l & -> & H1 & H2 & H3 & _). cbn [mbind option_bind]. destruct (IH (c + 1) m1 (q ++ l) p ltac:(cbn in Hp; lia) H1 H2) as (m' & l' & -> & H4 & H5 & H6). exists m', (l ++ l'). rewrite app_assoc. split; [do 2 f_equal; cbn [length]; lia|]. split; [done|]. split; [done|].
  rewrite H6, H3, <- app_assoc. f_equal. destruct g; [by rewrite filter_cons_True|by rewrite filter_cons_False].
Qed.

Lemma poll_ok m tdh q rdh p : tx_ok m tdh q → rx_ok m rdh p →
  ∃ r m' l, e1000_net_poll net_receive_frame m = Some (r, m') ∧ tx_ok m' tdh (q ++ l) ∧ rx_ok m' rdh [] ∧ received (net m') = received (net m) ++ map fst (filter (fun x => x.2 = true) p).
Proof using stack_takes.
  intros Htx Hrx. unfold e1000_net_poll. rewrite (tx_init _ _ _ Htx). cbn [negb]. destruct (poll_tx_ok m tdh q Htx) as (r & m1 & -> & H1 & Hn & H2). cbn [mbind option_bind]. specialize (H2 rdh p Hrx). pose proof (rx_room _ _ _ H2) as Hroom.
  destruct (receive_all_ok RING 0 m1 tdh q rdh p ltac:(lia) H1 H2) as (m' & l & E & H3 & H4 & H5). unfold e1000_poll_rx. rewrite E. cbn [mbind option_bind]. rewrite Hn in H5. by eexists _, m', l.
Qed.

(** ** The driver and the card together *)

(** The card's own registers, and the frames so far: those the driver accepted, those that
    went out, and those that came in. *)
Record system := System { mach : machine; tdh : nat; rdh : nat; accepted : list (list Z); wire : list (list Z); arrived : list (list Z * bool) }.
Implicit Types s : system.

Definition base m : Z := mmio_base (dev m).

(** The card sends the frame at [tdh] unless it has reached the tail, and marks it. *)
Definition card_send s : option system :=
  let d := dev (mach s) in
  if tdt (base (mach s)) (hw (mach s)) =? Z.of_nat (tdh s) then None
  else
    desc ← tx_descs d !! tdh s;
    f ← slot_bytes (tx_buffers d) (tdh s) (Z.to_nat (t_length desc));
    let desc := TxDesc (t_addr desc) (t_length desc) (t_cmd desc) (Z.lor (t_status desc) STAT_DD) in
    Some (System (set_dev (set_tx (<[tdh s := desc]> (tx_descs d)) (tx_buffers d) (tx_tail d) (tx_head d) d) (mach s)) (pos (tdh s) 1) (rdh s) (accepted s) (wire s ++ [f]) (arrived s)).

(** The card stores a frame that comes in, unless it has reached the tail. *)
Definition card_receive (f : list Z) (eop : bool) (errors checksum : Z) s : option system :=
  let d := dev (mach s) in
  if rdt (base (mach s)) (hw (mach s)) =? Z.of_nat (rdh s) then None
  else if (BUF_SIZE <? length f)%nat then None
  else
    desc ← rx_descs d !! rdh s;
    b ← buf_copy (rx_buffers d) (rdh s * BUF_SIZE) f;
    let desc := RxDesc (r_addr desc) (Z.of_nat (length f)) checksum (if eop then 3 else 1) errors in
    Some (System (set_dev (set_rx (<[rdh s := desc]> (rx_descs d)) b (rx_tail d) (rx_head d) d) (mach s)) (tdh s) (pos (rdh s) 1) (accepted s) (wire s) (arrived s ++ [(f, good desc)])).

(** Fewer frames than the ring has slots wait to go out. *)
Definition room s : Prop := (length (accepted s) < length (wire s) + RING)%nat.

(** Calls of the driver and actions of the card, in any order.  The frames that the stack
    sends while it takes one are those it remembers. *)
Inductive step : system → system → Prop :=
| st_transmit s f r m' : e1000_net_transmit (Some f) (mach s) = Some (r, m') →
    let s' := System m' (tdh s) (rdh s) (if r =? 0 then accepted s ++ [f] else accepted s) (wire s) (arrived s) in room s' → step s s'
| st_reclaim s r m' : e1000_poll_tx (mach s) = Some (r, m') → step s (System m' (tdh s) (rdh s) (accepted s) (wire s) (arrived s))
| st_receive s m' : receive_one net_receive_frame (mach s) = Some (Some m') →
    let s' := System m' (tdh s) (rdh s) (accepted s ++ drop (length (replied (net (mach s)))) (replied (net m'))) (wire s) (arrived s) in room s' → step s s'
| st_send s s' : card_send s = Some s' → step s s'
| st_arrive s f eop errors checksum s' : card_receive f eop errors checksum s = Some s' → step s s'.

Inductive steps : system → system → Prop :=
| steps_refl s : steps s s
| steps_step s1 s2 s3 : steps s1 s2 → step s2 s3 → steps s1 s3.

(** The queues [q] and [p] are in the rings, and everything else has gone through. *)
Record system_ok (r0 : list (list Z)) s (q : list (list Z)) (p : list (list Z * bool)) : Prop := {
  so_tx : tx_ok (mach s) (tdh s) q;
  so_rx : rx_ok (mach s) (rdh s) p;
  so_room : (length q < RING)%nat;
  so_sent : accepted s = wire s ++ q;
  so_handed : ∃ handed, arrived s = handed ++ p ∧ received (net (mach s)) = r0 ++ map fst (filter (fun x => x.2 = true) handed)
}.

Lemma card_send_ok s q : tx_ok (mach s) (tdh s) q → (length q < RING)%nat →
  match q with
  | [] => card_send s = None
  | f :: q' => ∃ s', card_send s = Some s' ∧ tx_ok (mach s') (tdh s') q' ∧ (∀ p, rx_ok (mach s) (rdh s) p → rx_ok (mach s') (rdh s') p) ∧ net (mach s') = net (mach s) ∧ accepted s' = accepted s ∧ wire s' = wire s ++ [f] ∧ arrived s' = arrived s
  end.
Proof using.
  intros [T1 T2 T3 T4 T5 T6 T7] Hq. unfold card_send, base. rewrite T6. destruct q as [|f q]; [by rewrite pos_0, Z.eqb_refl|]. destruct (Z.eqb_spec (Z.of_nat (pos (tdh s) (length (f :: q)))) (Z.of_nat (tdh s))) as [E|E].
  { exfalso. apply Nat2Z.inj in E. rewrite <- (pos_0 (tdh s) T3) in E at 2. apply pos_inj in E; [done|done|done|unfold RING; lia]. }
  pose proof (ring_head _ _ _ _ T3 T7) as Hs. unfold tx_slot in Hs. destruct (tx_descs (dev (mach s)) !! tdh s) as [desc|] eqn:Ed; [|done]. cbn [mbind option_bind] in Hs |- *. destruct (_ =? 0); [|done]. rewrite Hs. cbn [mbind option_bind]. eexists. split; [done|]. cbn [mach tdh rdh accepted wire arrived]. set (d' := set_tx _ _ _ _ _).
  pose proof (Forall_lookup_1 _ _ _ _ (ao_txl _ T2) Ed) as Hl. cbn beta in Hl. assert (Ha' : arrays_ok d') by (destruct T2; split; cbn [tx_descs rx_descs tx_buffers rx_buffers tx_head d' set_tx]; try assumption; [by rewrite length_insert|by apply Forall_insert]).
  split; [|split; [|done]].
  - split; try done; [apply pos_lt|cbn [length] in T4; lia| | |]; cbn [base mmio_base dev hw set_dev d' set_tx tx_tail]; rewrite ?pos_pos; [exact T5|exact T6|]. apply (slots_pop (tx_slot (dev (mach s))) _ _ _ f); [done|done|done| |].
    + unfold tx_slot. cbn [tx_descs d' set_tx]. rewrite list_lookup_insert_eq by (by rewrite (ao_tx _ T2)). cbn [mbind option_bind t_status]. by rewrite (proj2 (Z.eqb_neq _ 0) (dd_set _)).
    + intros i Hi Hne. unfold tx_slot. cbn [tx_descs tx_buffers d' set_tx]. by rewrite list_lookup_insert_ne by done.
  - intros p Hrx. destruct Hrx. by split.
Qed.

Lemma arrive_ok s f eop errors checksum s' p : rx_ok (mach s) (rdh s) p → card_receive f eop errors checksum s = Some s' →
  ∃ g, rx_ok (mach s') (rdh s') (p ++ [(f, g)]) ∧ (∀ q, tx_ok (mach s) (tdh s) q → tx_ok (mach s') (tdh s') q) ∧ net (mach s') = net (mach s) ∧ accepted s' = accepted s ∧ wire s' = wire s ∧ arrived s' = arrived s ++ [(f, g)].
Proof using.
  intros [R1 R2 R3 R4 R5 R6]. unfold card_receive, base. rewrite R5. destruct (Z.eqb_spec (Z.of_nat (pos (rx_head (dev (mach s))) (RING - 1))) (Z.of_nat (rdh s))) as [E|E]; [done|]. destruct (Nat.ltb_spec BUF_SIZE (length f)) as [|Hfit]; [done|].
  assert (Hroom : (length p < RING - 1)%nat) by (destruct (decide (length p = RING - 1)%nat) as [Hp|]; [rewrite R4, Hp in E; done|lia]). assert (Hpos : (rdh s < RING)%nat) by (rewrite R4; apply pos_lt).
  destruct (lookup_lt_is_Some_2 (rx_descs (dev (mach s))) (rdh s)) as [desc Ed]; [by rewrite (ao_rx _ R1)|]. rewrite Ed. cbn [mbind option_bind]. destruct (slot_copy (rx_buffers (dev (mach s))) (rdh s) f (ao_rxb _ R1) Hpos Hfit) as (b & -> & Hlb & Hsame & Hother). cbn [mbind option_bind]. set (desc' := RxDesc _ _ _ _ _). set (d' := set_rx _ _ _ _ _). intros [= <-]. exists (good desc').
  assert (Ha' : arrays_ok d'). { destruct R1. split; cbn [tx_descs rx_descs tx_buffers rx_buffers tx_head d' set_rx]; try assumption; [by rewrite length_insert|by rewrite Hlb|]. apply Forall_insert; [assumption|]. cbn [r_length desc']. lia. }
  cbn [mach tdh rdh accepted wire arrived]. split; [|split; [intros q Htx; destruct Htx; by split|done]]. split; cbn [base mmio_base dev hw set_dev d' set_rx rx_head]; try done.
  - rewrite length_app. cbn [length]. lia.
  - rewrite length_app, R4. cbn [length]. by rewrite pos_pos.
  - apply (slots_push (rx_slot (dev (mach s)))); [done|lia|done| |].
    + rewrite <- R4. unfold rx_slot. cbn [rx_descs rx_buffers d' set_rx]. rewrite list_lookup_insert_eq by (by rewrite (ao_rx _ R1)). cbn [mbind option_bind r_status r_length desc']. rewrite Nat2Z.id, Hsame. by destruct eop.
    + rewrite <- R4. intros i Hi Hne. unfold rx_slot. cbn [rx_descs rx_buffers d' set_rx]. rewrite list_lookup_insert_ne by done. destruct (rx_descs (dev (mach s)) !! i) as [di|] eqn:Ei; cbn [mbind option_bind]; [|done]. destruct (_ =? 0); [done|]. pose proof (Forall_lookup_1 _ _ _ _ (ao_rxl _ R1) Ei) as Hl. cbn beta in Hl. by rewrite Hother by (done || lia).
Qed.

Lemma receive_one_none m : receive_one net_receive_frame m = Some None → ∀ m', receive_one net_receive_frame m ≠ Some (Some m').
Proof using. congruence. Qed.

Lemma card_step_ok r0 s s' q p : system_ok r0 s q p → step s s' → ∃ q' p', system_ok r0 s' q' p'.
Proof using stack_takes.
  intros [Htx Hrx Hq Hs (handed & Ha & Hr)] St. destruct St as [s f r m' E s' Hroom|s r m' E|s m' E s' Hroom|s s' E|s f eop errors checksum s' E].
  - destruct (transmit_ok _ _ q f Htx) as (r1 & m1 & E1 & En & Hc). rewrite E in E1. injection E1 as <- <-. destruct Hc as [(-> & Ed & Eh & _)|(-> & Hl & H1 & H2)].
    + exists q, p. split; try done; [by eapply tx_ok_same|by eapply rx_ok_same|]. cbn [arrived mach s']. rewrite En. by exists handed.
    + exists (q ++ [f]), p. split; cbn [mach tdh rdh accepted wire arrived s']; [done|by apply H2| |cbn; by rewrite Hs, app_assoc|rewrite En; by exists handed]. unfold room, s' in Hroom. cbn [accepted wire] in Hroom. rewrite Z.eqb_refl, Hs, !length_app in Hroom. rewrite length_app. cbn [length] in *. lia.
  - destruct (poll_tx_ok _ _ q Htx) as (r1 & m1 & E1 & H1 & En & H2). rewrite E in E1. injection E1 as <- <-. exists q, p. split; try done; [by apply H2|]. cbn [arrived mach]. rewrite En. by exists handed.
  - pose proof (receive_one_ok _ _ q _ p Htx Hrx) as Hone. destruct p as [|[f g] p']; [congruence|]. destruct Hone as (m1 & l & E1 & H1 & H2 & H3 & H4). rewrite E in E1. injection E1 as <-. exists (q ++ l), p'. assert (Hd : drop (length (replied (net (mach s)))) (replied (net m')) = l) by (by rewrite H4, drop_app_length).
    split; cbn [mach tdh rdh accepted wire arrived s']; try done; [|rewrite Hd, Hs, app_assoc; done|].
    + unfold room, s' in Hroom. cbn [accepted wire] in Hroom. rewrite Hd, Hs, !length_app in Hroom. rewrite length_app. lia.
    + exists (handed ++ [(f, g)]). rewrite Ha, <- app_assoc. split; [done|]. rewrite H3, Hr, filter_app, map_app, <- app_assoc. do 2 f_equal. destruct g; [by rewrite filter_cons_True|by rewrite filter_cons_False].
  - pose proof (card_send_ok s q Htx Hq) as Hone. destruct q as [|f q']; [congruence|]. destruct Hone as (s1 & E1 & H1 & H2 & H3 & H4 & H5 & H6). rewrite E in E1. injection E1 as <-. exists q', p. split; [done|by apply H2|cbn [length] in Hq; lia|by rewrite H4, H5, Hs, <- app_assoc|]. rewrite H3, H6. by exists handed.
  - destruct (arrive_ok s f eop errors checksum s' p Hrx E) as (g & H1 & H2 & H3 & H4 & H5 & H6). exists q, (p ++ [(f, g)]). split; [by apply H2|done|done|by rewrite H4, H5|]. rewrite H3, H6, Ha. exists handed. by rewrite <- app_assoc.
Qed.

Lemma steps_ok r0 s s' q p : steps s s' → system_ok r0 s q p → ∃ q' p', system_ok r0 s' q' p'.
Proof using stack_takes.
  intros S Hs. induction S as [s|s1 s2 s3 S IH St]; [by exists q, p|]. destruct (IH Hs) as (q2 & p2 & H2). by eapply card_step_ok.
Qed.

(** *** Start-up *)

Lemma reg_read_same off m v m' : e1000_reg_read off m = (v, m') → dev m' = dev m ∧ net m' = net m ∧ ∀ b, tdt b (hw m') = tdt b (hw m) ∧ rdt b (hw m') = rdt b (hw m).
Proof using.
  unfold e1000_reg_read. destruct (load _ _) as [x h] eqn:E. intros [= _ <-]. split; [done|]. split; [done|]. intros b. cbn [hw set_hw]. change h with ((x, h).2). rewrite <- E. split; [apply tdt_load|apply rdt_load].
Qed.

Definition regs m (t r : Z) : Prop := tdt (base m) (hw m) = t ∧ rdt (base m) (hw m) = r.

Lemma write_regs off v m t r : 0 ≤ off < 4294967296 → off ≠ E1000_REG_TDT → off ≠ E1000_REG_RDT → off ≠ E1000_REG_CTRL → regs m t r → regs (e1000_reg_write off v m) t r.
Proof using.
  intros Ho Ht Hr Hc [<- <-]. unfold regs, base. rewrite reg_write_dev, reg_write_hw, tdt_load, rdt_load, tdt_other, rdt_other; [done| | | |]; apply register_inj; try done; unfold E1000_REG_TDT, E1000_REG_RDT, E1000_REG_CTRL; lia.
Qed.

Lemma no_frame {A} (slot : nat → option A) h : (∀ i, (i < RING)%nat → slot i = None) → ring slot h [].
Proof using. intros Hn k Hk. rewrite Hn by apply pos_lt. done. Qed.

Lemma lookup_ring {A} (f : nat → A) i : (i < RING)%nat → map f (List.seq 0 RING) !! i = Some (f i).
Proof using. intros Hi. change (map f) with (fmap (M := list) f). rewrite list_lookup_fmap, lookup_seq_lt by done. done. Qed.

Local Ltac plain := first [unfold E1000_REG_RCTL, E1000_REG_RDBAL, E1000_REG_RDBAH, E1000_REG_RDLEN, E1000_REG_RDH, E1000_REG_TDBAL, E1000_REG_TDBAH, E1000_REG_TDLEN, E1000_REG_TDH, E1000_REG_TCTL, E1000_REG_TIPG, E1000_REG_IMC, E1000_REG_TDT, E1000_REG_RDT, E1000_REG_CTRL; lia].

Lemma two_blocks_same m p q m' : two_blocks m = (p, q, m') → dev m' = dev m ∧ hw m' = hw m ∧ net m' = net m.
Proof using. unfold two_blocks. destruct (Memory.Memory.kalloc (heap m) ring_bytes) as [a h1]. destruct (Memory.Memory.kalloc h1 buffer_bytes) as [b h2]. by intros [= _ _ <-]. Qed.

Lemma setup_rx_ok m m1 t r : e1000_setup_rx m = (true, m1) → regs m t r → net m1 = net m ∧ regs m1 t 31 ∧
  ∃ l, (∀ i, (i < RING)%nat → ∃ a, l !! i = Some (RxDesc a 0 0 0 0)) ∧ length l = RING ∧ dev m1 = set_rx l (replicate (RING * BUF_SIZE) 0) (RING - 1) 0 (dev m).
Proof using.
  intros E Hr. unfold e1000_setup_rx in E. set (m0 := e1000_reg_write E1000_REG_RCTL 0 m) in *. assert (H0 : regs m0 t r) by (apply write_regs; [plain..|done]). assert (E0 : dev m0 = dev m ∧ net m0 = net m) by (split; [apply reg_write_dev|apply reg_write_net]). clearbody m0.
  destruct (two_blocks m0) as [[[descs|] [buffers|]] mb] eqn:Eb; [|done..]. apply two_blocks_same in Eb as (B1 & B2 & B3). set (l := map _ _) in E. set (ma := set_dev _ mb) in E. assert (Ha : regs ma t r) by (unfold regs, base in *; cbn [ma dev set_dev mmio_base set_rx hw]; by rewrite B1, B2).
  change (rx_tail (dev (e1000_reg_write E1000_REG_RDH 0 _))) with (rx_tail (dev (e1000_reg_write E1000_REG_RDH 0 (e1000_reg_write E1000_REG_RDLEN ring_bytes (e1000_reg_write E1000_REG_RDBAH 0 (e1000_reg_write E1000_REG_RDBAL descs ma)))))) in E. rewrite !reg_write_dev in E. injection E as <-.
  set (mc := e1000_reg_write E1000_REG_RDH 0 _). assert (Hc : regs mc t r) by (unfold mc; repeat (apply write_regs; [plain..|]); exact Ha). assert (Dc : dev mc = dev ma ∧ net mc = net ma) by (unfold mc; by rewrite !reg_write_dev, !reg_write_net). clearbody mc. destruct Dc as [Dc Nc].
  split; [rewrite !reg_write_net, Nc; cbn [ma net set_dev]; by rewrite B3, (proj2 E0)|]. split.
  - apply write_regs; [plain..|]. match goal with |- regs (e1000_reg_write _ ?v _) _ _ => destruct (write_rdt v mc) as [W1 W2] end. unfold regs, base in *. rewrite reg_write_dev. rewrite W1, W2. split; [apply Hc|done].
  - exists l. split; [intros i Hi; unfold l; rewrite lookup_ring by done; by eexists|]. split; [unfold l; by rewrite length_map, length_seq|]. rewrite !reg_write_dev, Dc. cbn [ma dev set_dev]. by rewrite B1, (proj1 E0).
Qed.

Lemma setup_tx_ok m m1 t r : e1000_setup_tx m = (true, m1) → regs m t r → net m1 = net m ∧ regs m1 0 r ∧
  ∃ l, (∀ i, (i < RING)%nat → ∃ a, l !! i = Some (TxDesc a 0 0 STAT_DD)) ∧ length l = RING ∧ dev m1 = set_tx l (replicate (RING * BUF_SIZE) 0) 0 0 (dev m).
Proof using.
  intros E Hr. unfold e1000_setup_tx in E. destruct (two_blocks m) as [[[descs|] [buffers|]] mb] eqn:Eb; [|done..]. apply two_blocks_same in Eb as (B1 & B2 & B3). set (l := map _ _) in E. set (ma := set_dev _ mb) in E. assert (Ha : regs ma t r) by (unfold regs, base in *; cbn [ma dev set_dev mmio_base set_tx hw]; by rewrite B1, B2).
  injection E as <-. set (mc := e1000_reg_write E1000_REG_TDH 0 _). assert (Hc : regs mc t r) by (unfold mc; repeat (apply write_regs; [plain..|]); exact Ha). assert (Dc : dev mc = dev ma ∧ net mc = net ma) by (unfold mc; by rewrite !reg_write_dev, !reg_write_net). clearbody mc. destruct Dc as [Dc Nc].
  split; [rewrite !reg_write_net, Nc; cbn [ma net set_dev]; by rewrite B3|]. split.
  - do 2 (apply write_regs; [plain..|]). destruct (write_tdt 0 mc) as [W1 W2]. unfold regs, base in *. rewrite reg_write_dev. rewrite W1, W2. split; [done|apply Hc].
  - exists l. split; [intros i Hi; unfold l; rewrite lookup_ring by done; by eexists|]. split; [unfold l; by rewrite length_map, length_seq|]. rewrite !reg_write_dev, Dc. cbn [ma dev set_dev]. by rewrite B1.
Qed.

Lemma Forall_ring {A} (P : A → Prop) (l : list A) : length l = RING → (∀ i, (i < RING)%nat → ∃ x, l !! i = Some x ∧ P x) → Forall P l.
Proof using. intros Hl Hp. apply Forall_lookup_2. intros i x Hx. destruct (Hp i) as (y & Hy & Py); [rewrite <- Hl; by eapply lookup_lt_Some|]. congruence. Qed.

Lemma wait_reset_net n m ok m' : wait_reset n m = (ok, m') → net m' = net m.
Proof using CardRegs0.
  revert m. induction n as [|n IH]; intros m; cbn [wait_reset]; [by intros [= _ <-]|]. destruct (e1000_reg_read E1000_REG_CTRL m) as [v m1] eqn:E. destruct (reg_read_same _ _ _ _ E) as (_ & En & _). destruct (_ =? 0); [intros [= _ <-]; done|]. intros Hw. rewrite <- En. by apply IH.
Qed.

Lemma reset_net m ok m' : e1000_reset m = (ok, m') → net m' = net m.
Proof using CardRegs0.
  unfold e1000_reset. destruct (e1000_reg_read E1000_REG_CTRL _) as [v m1] eqn:E. destruct (reg_read_same _ _ _ _ E) as (_ & En & _). intros Hw. apply wait_reset_net in Hw. rewrite Hw, reg_write_net, En. apply reg_write_net.
Qed.

(** The last part of [e1000_hw_init] reads the address of the card and logs. *)
Lemma read_mac_ok m t r : regs m t r → net (e1000_log_mac (e1000_read_mac m)) = net m ∧ regs (e1000_log_mac (e1000_read_mac m)) t r ∧ ∃ l, dev (e1000_log_mac (e1000_read_mac m)) = set_mac l (dev m).
Proof using.
  intros [R1 R2]. unfold e1000_read_mac. destruct (e1000_reg_read E1000_REG_RAL0 m) as [ral m1] eqn:E1. destruct (e1000_reg_read E1000_REG_RAH0 m1) as [rah m2] eqn:E2. destruct (reg_read_same _ _ _ _ E1) as (D1 & N1 & H1), (reg_read_same _ _ _ _ E2) as (D2 & N2 & H2).
  unfold regs, base. cbn [e1000_log_mac net dev hw set_dev set_mac mmio_base]. rewrite D2, D1, N2, N1. split; [done|]. unfold base in *. destruct (H2 (mmio_base (dev m))) as [-> ->], (H1 (mmio_base (dev m))) as [-> ->]. split; [by split|by eexists].
Qed.

(** After [e1000_hw_init] both rings are empty. *)
Lemma hw_init_ok m m' : e1000_hw_init m = (true, m') → net m' = net m ∧ tx_ok m' 0 [] ∧ rx_ok m' 0 [].
Proof using.
  unfold e1000_hw_init. destruct (e1000_reset m) as [[] m1] eqn:E1; cbn [negb]; [|done]. apply reset_net in E1 as N1. destruct (e1000_reg_read E1000_REG_CTRL m1) as [ctrl m2] eqn:E2. destruct (reg_read_same _ _ _ _ E2) as (_ & N2 & _). set (m3 := e1000_reg_write E1000_REG_IMC _ _).
  assert (N3 : net m3 = net m) by (unfold m3; by rewrite !reg_write_net, N2, N1). clearbody m3. destruct (e1000_setup_rx m3) as [[] m4] eqn:E4; cbn [negb]; [|done]. destruct (setup_rx_ok m3 m4 _ _ E4 (conj eq_refl eq_refl)) as (N4 & R4 & rl & Hrl & Lrl & D4).
  destruct (e1000_setup_tx m4) as [[] m5] eqn:E5; cbn [negb]; [|done]. destruct (setup_tx_ok m4 m5 _ _ E5 R4) as (N5 & R5 & tl & Htl & Ltl & D5). destruct (read_mac_ok m5 0 31 R5) as (N6 & R6 & mc & D6). set (m6 := e1000_log_mac _) in *. destruct (e1000_reg_read E1000_REG_STATUS m6) as [status m7] eqn:E7. destruct (reg_read_same _ _ _ _ E7) as (D7 & N7 & H7). clearbody m6.
  intros [= <-]. split; [cbn [net set_dev klog]; by rewrite N7, N6, N5, N4|]. set (m8 := set_dev _ _). assert (Ed : dev m8 = set_initialized (set_mac mc (set_tx tl (replicate (RING * BUF_SIZE) 0) 0 0 (set_rx rl (replicate (RING * BUF_SIZE) 0) (RING - 1) 0 (dev m3))))) by (cbn [m8 dev set_dev klog]; by rewrite D7, D6, D5, D4).
  assert (R8 : regs m8 0 31). { unfold regs, base in *. rewrite Ed. cbn [m8 hw set_dev klog set_initialized set_mac set_tx mmio_base set_rx]. rewrite D6, D5, D4 in R6. cbn [set_mac set_tx set_rx mmio_base] in R6. by destruct (H7 (mmio_base (dev m3))) as [-> ->]. }
  assert (Ha : arrays_ok (dev m8)). { rewrite Ed. split; cbn [tx_descs rx_descs tx_buffers rx_buffers tx_head set_initialized set_mac set_tx set_rx]; try done; try apply length_replicate; [| |unfold RING; lia]; apply Forall_ring; try done; intros i Hi; [destruct (Htl i Hi) as [a Ea]|destruct (Hrl i Hi) as [a Ea]]; eexists; (split; [exact Ea|]); cbn [t_length r_length]; lia. }
  assert (Hz : (0 < RING)%nat) by (unfold RING; lia). destruct R8 as [R8 R8']. split.
  - split; [by rewrite Ed|exact Ha|exact Hz|cbn [length]; lia|by rewrite Ed|exact R8|]. apply no_frame. intros i Hi. rewrite Ed. unfold tx_slot. cbn [tx_descs set_initialized set_mac set_tx]. by destruct (Htl i Hi) as [a ->].
  - split; [exact Ha|rewrite Ed; exact Hz|cbn [length]; exact Hz|by rewrite Ed|etrans; [exact R8'|by rewrite Ed]|]. apply no_frame. intros i Hi. rewrite Ed. unfold rx_slot. cbn [rx_descs set_initialized set_mac set_tx set_rx]. by destruct (Hrl i Hi) as [a ->].
Qed.

(** The system when the driver has set the card up. *)
Definition started s : Prop := ∃ m, e1000_hw_init m = (true, mach s) ∧ tdh s = 0%nat ∧ rdh s = 0%nat ∧ accepted s = [] ∧ wire s = [] ∧ arrived s = [].

Lemma card_started_ok s : started s → system_ok (received (net (mach s))) s [] [].
Proof using.
  intros (m & E & Et & Eh & Ha & Hw & Hr). destruct (hw_init_ok m _ E) as (_ & Ht & Hx). split; rewrite ?Et, ?Eh, ?Ha, ?Hw, ?Hr; [exact Ht|exact Hx|unfold RING; cbn; lia|done|]. exists []. split; [done|]. by rewrite app_nil_r.
Qed.

(** C23: The network card loses nothing and repeats nothing.  From the set-up of the card,
    calls of the driver and actions of the card may come in any order, as long as fewer than
    32 frames wait to go out.  Then the frames that went out are those the driver accepted,
    in order, up to those in the ring, and the card sends the next of them next; the stack
    got the good frames that came in, in order, up to those in the ring; and a poll comes to
    its end, stays inside the arrays and hands all of these over. *)
Theorem rings_lossless s0 s : started s0 → steps s0 s →
  ∃ q handed p, accepted s = wire s ++ q ∧ (length q < RING)%nat ∧
    match q with [] => card_send s = None | f :: _ => ∃ s', card_send s = Some s' ∧ wire s' = wire s ++ [f] end ∧
    arrived s = handed ++ p ∧ received (net (mach s)) = received (net (mach s0)) ++ map fst (filter (fun x => x.2 = true) handed) ∧
    ∃ r m', e1000_net_poll net_receive_frame (mach s) = Some (r, m') ∧ received (net m') = received (net (mach s)) ++ map fst (filter (fun x => x.2 = true) p).
Proof using stack_takes.
  intros H0 Hs. destruct (steps_ok _ s0 s [] [] Hs (card_started_ok s0 H0)) as (q & p & [Htx Hrx Hq Hsent (handed & Ha & Hr)]). exists q, handed, p. do 2 (split; [done|]). split.
  - pose proof (card_send_ok s q Htx Hq) as Hone. destruct q as [|f q]; [done|]. destruct Hone as (s' & E & _ & _ & _ & _ & Hw & _). by exists s'.
  - split; [done|]. split; [done|]. destruct (poll_ok (mach s) (tdh s) q (rdh s) p Htx Hrx) as (r & m' & l & E & _ & _ & R). by exists r, m'.
Qed.

(** When the ring is filled up, the tail meets the card: the card takes the ring for empty
    and sends none of the 32 frames, and the driver refuses every other one. *)
Theorem full_ring_stalls s q f m' : tx_ok (mach s) (tdh s) q → length q = (RING - 1)%nat → e1000_net_transmit (Some f) (mach s) = Some (0, m') →
  let s' := System m' (tdh s) (rdh s) (accepted s ++ [f]) (wire s) (arrived s) in
  card_send s' = None ∧ ∀ g, ∃ m2, e1000_net_transmit (Some g) m' = Some (-1, m2) ∧ dev m2 = dev m' ∧ hw m2 = hw m'.
Proof using.
  intros Htx Hq E s'. destruct (transmit_ok _ _ q f Htx) as (r & m1 & E1 & _ & Hc). rewrite E in E1. injection E1 as <- <-. destruct Hc as [(? & _)|(_ & _ & H1 & _)]; [lia|]. assert (Hl : length (q ++ [f]) = RING) by (rewrite length_app, Hq; done). split.
  - unfold card_send, base. cbn [mach s' tdh]. rewrite (tx_reg _ _ _ H1), Hl, pos_wrap by apply H1. by rewrite Z.eqb_refl.
  - intros g. destruct (transmit_ok m' (tdh s) (q ++ [f]) g H1) as (r & m2 & E2 & _ & [(-> & Hd & Hh & _)|(_ & Hlt & _)]); [by exists m2|lia].
Qed.



End rings.

(** ** A card and a stack *)

(** Registers that keep what is stored, but for the bit that resets the card. *)
#[export] Instance memory_card : Hardware (gmap Z Z) := {
  inl _ h := (0, h);
  outl _ _ h := h;
  load a h := (Z.land (default 0 (h !! a)) (not32 E1000_CTRL_RST), h);
  store a v h := <[a := v]> h
}.

#[export] Program Instance memory_card_regs : CardRegs (gmap Z Z) := {
  tdt base h := default 0 (h !! u32 (base + E1000_REG_TDT));
  rdt base h := default 0 (h !! u32 (base + E1000_REG_RDT))
}.
Next Obligation. done. Qed.
Next Obligation. done. Qed.
Next Obligation. intros base v h. cbn. by rewrite lookup_insert_eq. Qed.
Next Obligation. intros base v h. cbn. by rewrite lookup_insert_eq. Qed.
Next Obligation. intros base a v h Hn _. cbn. by rewrite lookup_insert_ne. Qed.
Next Obligation. intros base a v h Hn _. cbn. by rewrite lookup_insert_ne. Qed.

(** A stack that sends every frame back; it remembers what it got and what was accepted. *)
Abbreviation demo_machine := (@machine (gmap Z Z) (list (list Z) * list (list Z))).

Definition remembers (f : list Z) (l : list (list Z)) (m : demo_machine) : demo_machine :=
  Machine (dev m) (hw m) (heap m) ((net m).1 ++ [f], (net m).2 ++ l) (log m).

Definition echo (f : list Z) (m : demo_machine) : option (Z * demo_machine) :=
  '(r, m) ← e1000_net_transmit (Some f) m; Some (r, remembers f (if r =? 0 then [f] else []) m).

Lemma echo_takes f (m : demo_machine) tdh q rdh p : tx_ok m tdh q → rx_ok m rdh p →
  ∃ r m' l, echo f m = Some (r, m') ∧ transmits m l m' ∧ (net m').1 = (net m).1 ++ [f] ∧ (net m').2 = (net m).2 ++ l.
Proof.
  intros Htx _. destruct (transmit_ok m tdh q f Htx) as (r & m1 & E & En & Hc). unfold echo. rewrite E. cbn [mbind option_bind]. exists r, (remembers f (if r =? 0 then [f] else []) m1), (if r =? 0 then [f] else []). split; [done|]. split; [|cbn; by rewrite En].
  apply transmits_end with m1; [|done..]. destruct Hc as [(-> & _)|(-> & _)]; [eapply tr_refused; [exact E|lia|apply tr_done]|eapply tr_sent; [exact E|apply tr_done]].
Qed.

Definition demo_init : bool * demo_machine := e1000_hw_init (Machine no_device ∅ Memory.Memory.memory_init ([], []) []).
Definition demo_system : @system (gmap Z Z) (list (list Z) * list (list Z)) := System demo_init.2 0 0 [] [] [].

Lemma demo_started : started demo_system.
Proof.
  exists (Machine no_device ∅ Memory.Memory.memory_init ([], []) []). split; [|done]. rewrite (surjective_pairing (e1000_hw_init _)). f_equal.
Qed.

Lemma rings_lossless_witness :
  ∃ s q, steps echo (fun n => n.2) demo_system s ∧ accepted s = [[1; 2; 3]] ∧ accepted s = wire s ++ q ∧ ∃ r m', e1000_net_poll echo (mach s) = Some (r, m').
Proof.
  pose proof (card_started_ok (fun n => n.1) demo_system demo_started) as H0. destruct (transmit_ok (mach demo_system) 0 [] [1; 2; 3] (so_tx _ _ _ _ _ H0)) as (r & m1 & E & _ & Hc).
  assert (Hr : r = 0) by (destruct Hc as [(_ & _ & _ & [H|[H|H]])|(H & _)]; [done|unfold BUF_SIZE in H; cbn [length] in H; lia|done|done]). subst r. set (s := System m1 0 0 [[1; 2; 3]] [] [] : @system (gmap Z Z) (list (list Z) * list (list Z))).
  assert (Hs : steps echo (fun n => n.2) demo_system s) by (eapply steps_step; [apply steps_refl|]; apply (st_transmit echo (fun n => n.2) demo_system [1; 2; 3] 0 m1 E); change (1 < 0 + 32)%nat; lia).
  destruct (rings_lossless echo (fun n => n.1) (fun n => n.2) echo_takes demo_system s demo_started Hs) as (q & handed & p & Hq & _ & _ & _ & _ & r & m' & Hp & _). exists s, q. split; [exact Hs|]. split; [done|]. split; [exact Hq|]. by exists r, m'.
Defined.

End E1000Props.
