(* ===== verification/Ata.v ===== *)
(** The driver of the disk (modules/ata_module.c) and its way through the BIOS
    (kernel/bios_fallback.c).

    The class [Ports] has what the processor gives to its port instructions; strings of
    words are lists of bytes.  [None] is an access outside of a buffer.

    The disk driver against an array of sectors: any sequence of reads and writes has the
    results and the effect that it has on the array, for a controller that keeps the
    protocol of ATA disks; and two ways in which the driver leaves the protocol. *)

From S2P Require Import Prelude Bytes.
From S2P Require Block.

Module Ata.

Import Bytes.

Class Ports (H : Type) := {
  inb : Z → H → Z * H;
  outb : Z → Z → H → H;
  insw : Z → nat → H → list Z * H;
  outsw : Z → list Z → H → H
}.

Definition ATA_PRIMARY_IO : Z := 0x1F0.
Definition ATA_PRIMARY_CTRL : Z := 0x3F6.
Definition ATA_REG_DATA : Z := 0.
Definition ATA_REG_SECCOUNT0 : Z := 2.
Definition ATA_REG_LBA0 : Z := 3.
Definition ATA_REG_LBA1 : Z := 4.
Definition ATA_REG_LBA2 : Z := 5.
Definition ATA_REG_HDDEVSEL : Z := 6.
Definition ATA_REG_COMMAND : Z := 7.
Definition ATA_REG_STATUS : Z := 7.
Definition ATA_CMD_IDENTIFY : Z := 0xEC.
Definition ATA_CMD_READ : Z := 0x20.
Definition ATA_CMD_WRITE : Z := 0x30.
Definition ATA_SR_ERR : Z := 0x01.
Definition ATA_SR_DRQ : Z := 0x08.
Definition ATA_SR_DF : Z := 0x20.
Definition ATA_SR_BSY : Z := 0x80.
Definition BIOS_MAX_SECTORS : Z := 64.
Definition SECTOR : nat := 512.

Record ata_device := AtaDevice { io_base : Z; ctrl_base : Z; slave : Z; present : bool; sectors : Z }.

(** The packet that the BIOS takes, at its fixed address. *)
Record bios_dap := Dap { d_size : Z; d_count : Z; d_offset : Z; d_segment : Z; d_lba : Z }.

Section ata.
Context {H : Type} `{!Ports H}.
Implicit Types h : H.

Definition io_wait h : H := outb 0x80 0 h.

(** The answer is false where the source returns -1; [n] reads of the status. *)
Fixpoint ata_wait_loop (n : nat) (io : Z) (need_drq : bool) h : bool * H :=
  match n with
  | O => (false, h)
  | S n' =>
      let '(status, h) := inb (io + ATA_REG_STATUS) h in
      if negb (Z.land status ATA_SR_ERR =? 0) then (false, h)
      else if negb (Z.land status ATA_SR_DF =? 0) then (false, h)
      else if negb (Z.land status ATA_SR_BSY =? 0) then ata_wait_loop n' io need_drq h
      else if need_drq && (Z.land status ATA_SR_DRQ =? 0) then ata_wait_loop n' io need_drq h
      else (true, h)
  end.

Definition WAIT : nat := Z.to_nat 100000.

Definition ata_wait (d : ata_device) (need_drq : bool) h : bool * H := ata_wait_loop WAIT (io_base d) need_drq h.

Definition ata_select (d : ata_device) (lba : Z) h : H :=
  io_wait (outb (io_base d + ATA_REG_HDDEVSEL) (u8 (Z.lor (Z.lor 0xE0 (Z.shiftl (slave d) 4)) (Z.land (Z.shiftr lba 24) 0x0F))) h).

Definition word (l : list Z) (i : nat) : option Z := read_le16 l (2 * i).

(** [Some None] where the source returns -1. *)
Definition ata_identify (d : ata_device) h : option (option ata_device * H) :=
  let h := ata_select d 0 h in
  let h := outb (io_base d + ATA_REG_SECCOUNT0) 0 h in
  let h := outb (io_base d + ATA_REG_LBA0) 0 h in
  let h := outb (io_base d + ATA_REG_LBA1) 0 h in
  let h := outb (io_base d + ATA_REG_LBA2) 0 h in
  let h := io_wait (outb (io_base d + ATA_REG_COMMAND) ATA_CMD_IDENTIFY h) in
  let '(status, h) := inb (io_base d + ATA_REG_STATUS) h in
  if status =? 0 then Some (None, h)
  else
    let '(ok, h) := ata_wait d true h in
    if negb ok then Some (None, h)
    else
      let '(id_buf, h) := insw (io_base d + ATA_REG_DATA) 256 h in
      w61 ← word id_buf 61; w60 ← word id_buf 60; w103 ← word id_buf 103; w102 ← word id_buf 102;
      let sectors := Z.lor (Z.shiftl w61 16) w60 in
      let sectors := if sectors =? 0 then (let hi := Z.lor (Z.shiftl w103 16) w102 in if negb (hi =? 0) then hi else sectors) else sectors in
      let sectors := if sectors =? 0 then 0xFFFFFFFF else sectors in
      Some (Some (AtaDevice (io_base d) (ctrl_base d) (slave d) true sectors), h).

(** The registers of a command for [chunk] sectors from [lba] on. *)
Definition ata_command (d : ata_device) (command lba chunk : Z) h : H :=
  let h := ata_select d lba h in
  let h := outb (io_base d + ATA_REG_SECCOUNT0) (u8 chunk) h in
  let h := outb (io_base d + ATA_REG_LBA0) (Z.land lba 0xFF) h in
  let h := outb (io_base d + ATA_REG_LBA1) (Z.land (Z.shiftr lba 8) 0xFF) h in
  let h := outb (io_base d + ATA_REG_LBA2) (Z.land (Z.shiftr lba 16) 0xFF) h in
  outb (io_base d + ATA_REG_COMMAND) command h.

(** [n] bounds the rounds; the buffer is written from [off] on. *)
Fixpoint ata_pio_read (n : nat) (d : ata_device) (lba remaining : Z) (off : nat) (buffer : list Z) h : option (bool * list Z * H) :=
  if remaining <=? 0 then Some (true, buffer, h)
  else
    match n with
    | O => None
    | S n' =>
        let chunk := if 128 <? remaining then 128 else u16 remaining in
        let h := ata_command d ATA_CMD_READ lba chunk h in
        let '(ok, h) := ata_wait d true h in
        if negb ok then Some (false, buffer, h)
        else
          let '(l, h) := insw (io_base d + ATA_REG_DATA) (Z.to_nat chunk * 256) h in
          buffer ← buf_copy buffer off l;
          ata_pio_read n' d (u64 (lba + chunk)) (remaining - chunk) (off + Z.to_nat chunk * SECTOR) buffer h
    end.

Fixpoint ata_pio_write (n : nat) (d : ata_device) (lba remaining : Z) (off : nat) (buffer : list Z) h : option (bool * H) :=
  if remaining <=? 0 then Some (true, h)
  else
    match n with
    | O => None
    | S n' =>
        let chunk := if 128 <? remaining then 128 else u16 remaining in
        let h := ata_command d ATA_CMD_WRITE lba chunk h in
        let '(ok, h) := ata_wait d true h in
        if negb ok then Some (false, h)
        else
          l ← field buffer off (Z.to_nat chunk * SECTOR);
          let h := outsw (io_base d + ATA_REG_DATA) l h in
          let '(ok, h) := ata_wait d false h in
          if negb ok then Some (false, h)
          else ata_pio_write n' d (u64 (lba + chunk)) (remaining - chunk) (off + Z.to_nat chunk * SECTOR) buffer h
    end.

(** ** The BIOS *)

(** [fallback_ready], [fallback_drive] and the low memory that the BIOS shares: the packet
    and the buffer at [BIOS_BOUNCE_ADDRESS]. *)
Record bios := Bios { fallback_ready : bool; fallback_drive : Z; dap : bios_dap; bounce : list Z }.

Context (bios_thunk_read bios_thunk_write : Z → bios → H → Z * bios * H).

(** Without its message to the log. *)
Definition bios_fallback_init (boot_drive : Z) (b : bios) : bios := Bios true boot_drive (dap b) (bounce b).

Definition packet (lba count : Z) : bios_dap := Dap 16 count (Z.land 0x80000 15) (u16 (Z.shiftr 0x80000 4)) lba.

Definition read_chunk (drive lba count : Z) (off : nat) (buffer : list Z) (b : bios) h : option (bool * list Z * bios * H) :=
  let '(status, b, h) := bios_thunk_read drive (Bios (fallback_ready b) (fallback_drive b) (packet lba count) (bounce b)) h in
  if status <? 0 then Some (false, buffer, b, h)
  else
    l ← field (bounce b) 0 (Z.to_nat count * SECTOR);
    buffer ← buf_copy buffer off l;
    Some (true, buffer, b, h).

Definition write_chunk (drive lba count : Z) (off : nat) (buffer : list Z) (b : bios) h : option (bool * bios * H) :=
  l ← field buffer off (Z.to_nat count * SECTOR);
  bounce ← buf_copy (bounce b) 0 l;
  let '(status, b, h) := bios_thunk_write drive (Bios (fallback_ready b) (fallback_drive b) (packet lba count) bounce) h in
  Some (negb (status <? 0), b, h).

Fixpoint bios_read_loop (n : nat) (drive lba remaining : Z) (off : nat) (buffer : list Z) (b : bios) h : option (bool * list Z * bios * H) :=
  if remaining <=? 0 then Some (true, buffer, b, h)
  else
    match n with
    | O => None
    | S n' =>
        let chunk := if BIOS_MAX_SECTORS <? remaining then BIOS_MAX_SECTORS else u16 remaining in
        '(ok, buffer, b, h) ← read_chunk drive lba chunk off buffer b h;
        if negb (ok : bool) then Some (false, buffer, b, h)
        else bios_read_loop n' drive (u64 (lba + chunk)) (remaining - chunk) (off + Z.to_nat chunk * SECTOR) buffer b h
    end.

Fixpoint bios_write_loop (n : nat) (drive lba remaining : Z) (off : nat) (buffer : list Z) (b : bios) h : option (bool * bios * H) :=
  if remaining <=? 0 then Some (true, b, h)
  else
    match n with
    | O => None
    | S n' =>
        let chunk := if BIOS_MAX_SECTORS <? remaining then BIOS_MAX_SECTORS else u16 remaining in
        '(ok, b, h) ← write_chunk drive lba chunk off buffer b h;
        if negb (ok : bool) then Some (false, b, h)
        else bios_write_loop n' drive (u64 (lba + chunk)) (remaining - chunk) (off + Z.to_nat chunk * SECTOR) buffer b h
    end.

Definition bios_fallback_read (drive lba count : Z) (buffer : list Z) (b : bios) h : option (bool * list Z * bios * H) :=
  if negb (fallback_ready b) || (count =? 0) then Some (false, buffer, b, h) else bios_read_loop (Z.to_nat count) drive lba count 0 buffer b h.

Definition bios_fallback_write (drive lba count : Z) (buffer : list Z) (b : bios) h : option (bool * bios * H) :=
  if negb (fallback_ready b) || (count =? 0) then Some (false, b, h) else bios_write_loop (Z.to_nat count) drive lba count 0 buffer b h.

(** ** The operations of the block device *)

Definition ata_block_read (d : ata_device) (lba count : Z) (buffer : list Z) (b : bios) h : option (Z * list Z * bios * H) :=
  if count =? 0 then Some (-1, buffer, b, h)
  else
    '(ok, buffer, h) ← (if present d then ata_pio_read (Z.to_nat count) d lba count 0 buffer h else Some (false, buffer, h));
    if (ok : bool) then Some (0, buffer, b, h)
    else if fallback_ready b then
      '(ok, buffer, b, h) ← bios_fallback_read (fallback_drive b) lba count buffer b h;
      Some (if (ok : bool) then 0 else -1, buffer, b, h)
    else Some (-1, buffer, b, h).

Definition ata_block_write (d : ata_device) (lba count : Z) (buffer : list Z) (b : bios) h : option (Z * bios * H) :=
  if count =? 0 then Some (-1, b, h)
  else
    '(ok, h) ← (if present d then ata_pio_write (Z.to_nat count) d lba count 0 buffer h else Some (false, h));
    if (ok : bool) then Some (0, b, h)
    else if fallback_ready b then
      '(ok, b, h) ← bios_fallback_write (fallback_drive b) lba count buffer b h;
      Some (if (ok : bool) then 0 else -1, b, h)
    else Some (-1, b, h).

(** ** The module *)

(** [prefix], then the digits, as far as the buffer goes. *)
Definition make_disk_name (cap : nat) (index : Z) : cstring := take (cap - 1) (lit "disk" ++ Block.Block.digits 12 index ++ (if index =? 0 then lit "0" else [])).

Definition primary_master : ata_device := AtaDevice ATA_PRIMARY_IO ATA_PRIMARY_CTRL 0 false 0.

Definition descriptor (d : ata_device) (disk_index : Z) : Block.Block.blockdev_descriptor :=
  Block.Block.Descriptor (Some (make_disk_name Block.Block.BLOCKDEV_NAME_MAX disk_index)) 512 (sectors d) (Block.Block.DiskDriver 0 true true) 0.

(** The variables of the module, the block devices, the log, and what else the machine
    has. *)
Record driver {X : Type} := Driver { disk : ata_device; disk_index : Z; table : Block.Block.blocks; hw : H; messages : list cstring; others : X }.
#[global] Arguments driver : clear implicits.

Context {X : Type} (devmgr_register_device : cstring → driver X → Z * driver X) (partition_scan_device : nat → driver X → option (driver X)).

Definition log (s : string) (m : driver X) : driver X := Driver X (disk m) (disk_index m) (table m) (hw m) (messages m ++ [lit s]) (others m).

Definition ata_register_device (m : driver X) : option (Z * driver X) :=
  let desc := descriptor (disk m) (disk_index m) in
  let n := make_disk_name Block.Block.BLOCKDEV_NAME_MAX (disk_index m) in
  let m := Driver X (disk m) (u32 (disk_index m + 1)) (table m) (hw m) (messages m) (others m) in
  '(r, block, t) ← Block.Block.blockdev_register (Some desc) (table m);
  let m := Driver X (disk m) (disk_index m) t (hw m) (messages m) (others m) in
  if r <? 0 then Some (-1, m)
  else
    let '(r, m) := devmgr_register_device n m in
    let m := if r <? 0 then log "ata.driver: failed to publish disk device" m else m in
    match block with
    | None => Some (0, m)
    | Some block => m ← partition_scan_device block m; Some (0, m)
    end.

Definition module_init (m : driver X) : option (Z * driver X) :=
  '(r, h) ← ata_identify primary_master (hw m);
  let m := Driver X (default primary_master r) (disk_index m) (table m) h (messages m) (others m) in
  '(r, m) ← ata_register_device m;
  if r <? 0 then Some (-1, m) else Some (0, log "ata.driver: initialized" m).

End ata.

End Ata.

Module AtaProps.

Import Bytes Ata.

(** ** Sectors *)

Abbreviation sector_array := (Z → list Z).

(** [n] sectors from [lba] on. *)
Fixpoint span (c : sector_array) (lba : Z) (n : nat) : list Z :=
  match n with O => [] | S n' => c lba ++ span c (lba + 1) n' end.

Definition in_span (lba : Z) (n : nat) (s : Z) : bool := bool_decide (lba ≤ s < lba + Z.of_nat n).

(** The array with [n] sectors from [lba] on replaced. *)
Definition put_span (c : sector_array) (lba : Z) (n : nat) (l : list Z) : sector_array :=
  λ s, if in_span lba n s then take SECTOR (drop (Z.to_nat (s - lba) * SECTOR) l) else c s.

Definition sized (c : sector_array) : Prop := ∀ s, length (c s) = SECTOR.

Lemma span_length c lba n : sized c → length (span c lba n) = (n * SECTOR)%nat.
Proof. intros Hc. revert lba. induction n as [|n IH]; intros lba; [done|]. cbn [span]. by rewrite length_app, Hc, IH. Qed.

Lemma span_ext c c' lba n : (∀ s, c s = c' s) → span c lba n = span c' lba n.
Proof. intros E. revert lba. induction n as [|n IH]; intros lba; [done|]. cbn [span]. by rewrite E, IH. Qed.

Lemma span_add c lba n m : span c lba (n + m) = span c lba n ++ span c (lba + Z.of_nat n) m.
Proof.
  revert lba. induction n as [|n IH]; intros lba; [by rewrite Z.add_0_r|]. cbn [span Nat.add]. rewrite IH, <- app_assoc. do 3 f_equal. lia.
Qed.

(** A buffer into which a span is copied in two parts. *)
Lemma buffer_grows c lba k m off buffer : sized c → (off + (k + m) * SECTOR ≤ length buffer)%nat →
  ∃ buffer', buf_copy buffer off (span c lba k) = Some buffer' ∧ length buffer' = length buffer ∧
    take (off + k * SECTOR) buffer' ++ span c (lba + Z.of_nat k) m ++ drop (off + k * SECTOR + m * SECTOR) buffer' =
    take off buffer ++ span c lba (k + m) ++ drop (off + (k + m) * SECTOR) buffer.
Proof.
  intros Hc Hb. pose proof (span_length c lba k Hc) as Hs. rewrite Nat.mul_add_distr_r in Hb. pose proof (Nat.le_0_l (m * SECTOR)) as Hm.
  rewrite buf_copy_ok by (rewrite Hs; lia). eexists. split; [done|]. split; [rewrite !length_app, length_take, length_drop; lia|].
  assert (Hto : length (take off buffer ++ span c lba k) = (off + k * SECTOR)%nat) by (rewrite length_app, Hs, length_take; lia).
  rewrite (app_assoc (take off buffer) (span c lba k)), Hs, take_app_length' by done. rewrite drop_app_ge by lia.
  rewrite Hto, drop_drop, span_add, <- !app_assoc. do 4 f_equal. lia.
Qed.

Lemma put_span_0 c lba l s : put_span c lba 0 l s = c s.
Proof. unfold put_span, in_span. case_bool_decide; [lia|done]. Qed.

Lemma put_span_ext c c' lba n l s : (∀ s, c s = c' s) → put_span c lba n l s = put_span c' lba n l s.
Proof. intros E. unfold put_span. by rewrite E. Qed.

(** A span is put in two parts. *)
Lemma put_span_add c lba n m l s :
  put_span (put_span c lba n (take (n * SECTOR) l)) (lba + Z.of_nat n) m (drop (n * SECTOR) l) s = put_span c lba (n + m) l s.
Proof.
  unfold put_span, in_span. repeat case_bool_decide; try lia; try done.
  - rewrite drop_drop. do 2 f_equal. assert ((Z.to_nat (s - lba) = n + Z.to_nat (s - (lba + Z.of_nat n)))%nat) as -> by lia. lia.
  - rewrite skipn_firstn_comm, take_take. f_equal. assert ((Z.to_nat (s - lba) < n)%nat) by lia. unfold SECTOR. lia.
Qed.

Lemma put_span_sized c lba n l : sized c → (n * SECTOR ≤ length l)%nat → sized (put_span c lba n l).
Proof.
  intros Hc Hl s. unfold put_span, in_span. case_bool_decide; [|done].
  rewrite length_take, length_drop. assert ((Z.to_nat (s - lba) < n)%nat) by lia. unfold SECTOR in *. lia.
Qed.

(** ** The controller *)

Inductive transfer := Idle | Reading (lba : Z) (n : nat) | Writing (lba : Z) (n : nat).

(** What is left of a transfer when one sector has been moved. *)
Definition reading (lba : Z) (n : nat) : transfer := match n with O => Idle | _ => Reading lba n end.
Definition writing (lba : Z) (n : nat) : transfer := match n with O => Idle | _ => Writing lba n end.

(** A count of 0 stands for 256. *)
Definition sector_count (r : Z) : nat := if r =? 0 then 256 else Z.to_nat r.

(** The primary channel as the ATA standard describes data transfers through the data
    register.  Stores to the registers set them; a command starts a transfer of the sectors
    that the registers name, with 28 bits; the controller is busy for some reads of its
    status, then asks for data; it takes or gives one sector, and is busy again for at most
    [gap] reads before the next one.  A store to port 0x80 only takes time. *)
Class Controller (H : Type) `{!Ports H} := {
  contents : H → sector_array;
  register : H → Z → Z;
  state : H → transfer;
  busy : H → nat;
  gap : nat;
  same (h h' : H) : Prop := (∀ s, contents h' s = contents h s) ∧ (∀ r, register h' r = register h r) ∧ state h' = state h;
  contents_sized h : sized (contents h);
  delay v h : same h (outb 0x80 v h) ∧ busy (outb 0x80 v h) = busy h;
  store_register r v h : 2 ≤ r ≤ 6 → state h = Idle → busy h = 0%nat →
    let h' := outb (ATA_PRIMARY_IO + r) v h in
    (∀ s, contents h' s = contents h s) ∧ state h' = Idle ∧ busy h' = 0%nat ∧ ∀ r', register h' r' = if r' =? r then v else register h r';
  lba28 (h : H) : Z := register h 3 + 256 * (register h 4 + 256 * (register h 5 + 256 * Z.land (register h 6) 15));
  start_read h : state h = Idle → busy h = 0%nat → Z.land (register h 6) 16 = 0 →
    let h' := outb (ATA_PRIMARY_IO + ATA_REG_COMMAND) ATA_CMD_READ h in
    (∀ s, contents h' s = contents h s) ∧ state h' = Reading (lba28 h) (sector_count (register h 2)) ∧ (busy h' < WAIT)%nat;
  start_write h : state h = Idle → busy h = 0%nat → Z.land (register h 6) 16 = 0 →
    let h' := outb (ATA_PRIMARY_IO + ATA_REG_COMMAND) ATA_CMD_WRITE h in
    (∀ s, contents h' s = contents h s) ∧ state h' = Writing (lba28 h) (sector_count (register h 2)) ∧ (busy h' < WAIT)%nat;
  status_busy h n : busy h = S n →
    ∃ v h', inb (ATA_PRIMARY_IO + ATA_REG_STATUS) h = (v, h') ∧ Z.land v ATA_SR_ERR = 0 ∧ Z.land v ATA_SR_DF = 0 ∧ Z.land v ATA_SR_BSY ≠ 0 ∧
      same h h' ∧ busy h' = n;
  status_ready h : busy h = 0%nat →
    ∃ v h', inb (ATA_PRIMARY_IO + ATA_REG_STATUS) h = (v, h') ∧ Z.land v ATA_SR_ERR = 0 ∧ Z.land v ATA_SR_DF = 0 ∧ Z.land v ATA_SR_BSY = 0 ∧
      (state h ≠ Idle → Z.land v ATA_SR_DRQ ≠ 0) ∧ same h h' ∧ busy h' = 0%nat;
  sector_in h lba n : busy h = 0%nat → state h = Reading lba (S n) →
    ∃ h', insw (ATA_PRIMARY_IO + ATA_REG_DATA) 256 h = (contents h lba, h') ∧ (∀ s, contents h' s = contents h s) ∧ state h' = reading (lba + 1) n ∧
      (busy h' ≤ if (n =? 0)%nat then 0 else gap)%nat;
  sector_out h lba n l : busy h = 0%nat → state h = Writing lba (S n) → length l = SECTOR →
    let h' := outsw (ATA_PRIMARY_IO + ATA_REG_DATA) l h in
    (∀ s, contents h' s = if s =? lba then l else contents h s) ∧ state h' = writing (lba + 1) n ∧
      (if (n =? 0)%nat then busy h' < WAIT else busy h' ≤ gap)%nat;
  insw_0 h : insw (ATA_PRIMARY_IO + ATA_REG_DATA) 0 h = ([], h);
  insw_add n h : insw (ATA_PRIMARY_IO + ATA_REG_DATA) (256 + n) h =
    let '(a, h1) := insw (ATA_PRIMARY_IO + ATA_REG_DATA) 256 h in let '(b, h2) := insw (ATA_PRIMARY_IO + ATA_REG_DATA) n h1 in (a ++ b, h2);
  outsw_0 h : outsw (ATA_PRIMARY_IO + ATA_REG_DATA) [] h = h;
  outsw_add a b h : length a = SECTOR → outsw (ATA_PRIMARY_IO + ATA_REG_DATA) (a ++ b) h = outsw (ATA_PRIMARY_IO + ATA_REG_DATA) b (outsw (ATA_PRIMARY_IO + ATA_REG_DATA) a h)
}.

Section controller.
Context {H : Type} `{!Ports H} `{!Controller H}.
Implicit Types h : H.

Definition at_rest h : Prop := state h = Idle ∧ busy h = 0%nat.

(** The wait ends, and changes nothing but the time. *)
Lemma wait_ok n need h : (busy h < n)%nat → (need = true → state h ≠ Idle) →
  ∃ h', ata_wait_loop n ATA_PRIMARY_IO need h = (true, h') ∧ same h h' ∧ busy h' = 0%nat.
Proof using Type*.
  revert h. induction n as [|n IH]; intros h Hb Hn; [lia|]. cbn [ata_wait_loop]. destruct (busy h) as [|k] eqn:E.
  - destruct (status_ready h E) as (v & h' & -> & -> & -> & -> & Hd & Hs & Hb'). exists h'. rewrite !Z.eqb_refl. cbn [negb].
    destruct need; [|done]. cbn [andb]. destruct (Z.land v ATA_SR_DRQ =? 0) eqn:Ed; [|done]. apply Z.eqb_eq in Ed. by destruct (Hd (Hn eq_refl)).
  - destruct (status_busy h k E) as (v & h1 & -> & -> & -> & Hv & Hs & Hk). rewrite !Z.eqb_refl. cbn [negb]. apply Z.eqb_neq in Hv. rewrite Hv. cbn [negb].
    destruct Hs as (Hc & Hr & Ht). destruct (IH h1) as (h' & -> & (Hc' & Hr' & Ht') & Hb'); [lia|by rewrite Ht|].
    exists h'. split; [done|]. split; [|done]. split; [intros; by rewrite Hc'|]. split; [intros; by rewrite Hr'|by rewrite Ht'].
Qed.

(** All the sectors of a command, moved by one instruction, which does not wait between
    them. *)
Lemma sectors_in k h lba : busy h = 0%nat → state h = reading lba k → (k ≤ 1 ∨ gap = 0)%nat →
  ∃ h', insw (ATA_PRIMARY_IO + ATA_REG_DATA) (k * 256) h = (span (contents h) lba k, h') ∧ (∀ s, contents h' s = contents h s) ∧ at_rest h'.
Proof using Type*.
  revert h lba. induction k as [|k IH]; intros h lba Hb Hs Hk; [exists h; split; [apply insw_0|done]|].
  destruct (sector_in h lba k Hb Hs) as (h1 & E1 & Hc & Hs1 & Hb1). destruct (IH h1 (lba + 1)) as (h2 & E2 & Hc2 & Hr); [|done|lia|].
  - destruct (k =? 0)%nat eqn:E; bool_prop; lia.
  - exists h2. change (S k * 256)%nat with (256 + k * 256)%nat. rewrite insw_add, E1, E2. split; [by rewrite (span_ext (contents h1) (contents h))|]. split; [intros; by rewrite Hc2|done].
Qed.

Lemma sectors_out k h lba l : (busy h = 0)%nat → state h = writing lba k → (0 < k)%nat → (k ≤ 1 ∨ gap = 0)%nat → length l = (k * SECTOR)%nat →
  let h' := outsw (ATA_PRIMARY_IO + ATA_REG_DATA) l h in
  (∀ s, contents h' s = put_span (contents h) lba k l s) ∧ state h' = Idle ∧ (busy h' < WAIT)%nat.
Proof using Type*.
  revert h lba l. induction k as [|k IH]; intros h lba l Hb Hs H0 Hk Hl; [lia|].
  assert (Hl1 : length (take SECTOR l) = SECTOR) by (rewrite length_take; lia).
  cbn zeta. assert (E : outsw (ATA_PRIMARY_IO + ATA_REG_DATA) l h = outsw (ATA_PRIMARY_IO + ATA_REG_DATA) (drop SECTOR l) (outsw (ATA_PRIMARY_IO + ATA_REG_DATA) (take SECTOR l) h)) by (by rewrite <- outsw_add, take_drop).
  rewrite E. clear E.
  destruct (sector_out h lba k (take SECTOR l) Hb Hs Hl1) as (Hc & Hs1 & Hb1). set (h1 := outsw _ (take SECTOR l) h) in *.
  assert (Hone : ∀ s, contents h1 s = put_span (contents h) lba 1 (take (1 * SECTOR) l) s).
  { intros s. rewrite Hc, Nat.mul_1_l. unfold put_span, in_span. destruct (decide (s = lba)) as [->|Hne].
    - rewrite Z.eqb_refl, bool_decide_true, Z.sub_diag by lia. change (Z.to_nat 0 * SECTOR)%nat with 0%nat. rewrite drop_0. symmetry. apply firstn_all2. lia.
    - rewrite bool_decide_false by lia. apply Z.eqb_neq in Hne. by rewrite Hne. }
  destruct k as [|k].
  - rewrite drop_ge by lia. rewrite outsw_0. split; [|done]. intros s. rewrite Hone, Nat.mul_1_l. rewrite firstn_all2 by lia. done.
  - destruct (IH h1 (lba + 1) (drop SECTOR l)) as (Hc2 & Hs2 & Hb2); [|done|lia|lia|rewrite length_drop; lia|].
    + destruct (S k =? 0)%nat eqn:E; bool_prop; lia.
    + split; [|done]. intros s. rewrite Hc2, (put_span_ext _ _ _ _ _ _ Hone). pose proof (put_span_add (contents h) lba 1 (S k) l s) as E. rewrite Nat.mul_1_l in E |- *. exact E.
Qed.

(** The disk that [module_init] looks for. *)
Definition master (d : ata_device) : Prop := io_base d = ATA_PRIMARY_IO ∧ slave d = 0 ∧ present d = true.

Lemma select_bits x : 0 ≤ x < 16 → Z.land (u8 (Z.lor 0xE0 x)) 15 = x ∧ Z.land (u8 (Z.lor 0xE0 x)) 16 = 0.
Proof using.
  intros Hx. assert (H0 : Forall (λ x, Z.land (u8 (Z.lor 0xE0 x)) 15 = x ∧ Z.land (u8 (Z.lor 0xE0 x)) 16 = 0) (seqZ 0 16)) by by_eval.
  rewrite Forall_forall in H0. apply H0, elem_of_seqZ. lia.
Qed.

Lemma low_bits lba : 0 ≤ lba →
  Z.land lba 0xFF + 256 * (Z.land (Z.shiftr lba 8) 0xFF + 256 * (Z.land (Z.shiftr lba 16) 0xFF + 256 * Z.land (Z.shiftr lba 24) 0x0F)) = lba mod 2 ^ 28.
Proof using.
  intros H0. change 0xFF with (Z.ones 8). change 0x0F with (Z.ones 4). rewrite !Z.land_ones, !Z.shiftr_div_pow2 by lia.
  change (2 ^ 28) with (2 ^ 8 * (2 ^ 8 * (2 ^ 8 * 2 ^ 4))). rewrite !Z.rem_mul_r by lia. rewrite !Z.div_div by lia. done.
Qed.

(** The registers as the driver sets them for a command. *)
Lemma command_ok d lba chunk h : master d → at_rest h → 0 ≤ lba → 0 < chunk ≤ 128 →
  ∃ h', (∀ c, ata_command d c lba chunk h = outb (ATA_PRIMARY_IO + ATA_REG_COMMAND) c h') ∧ (∀ s, contents h' s = contents h s) ∧ at_rest h' ∧
    lba28 h' = lba mod 2 ^ 28 ∧ sector_count (register h' 2) = Z.to_nat chunk ∧ Z.land (register h' 6) 16 = 0.
Proof using Type*.
  intros (Hio & Hsl & _) [Hi Hb] Hl Hc. unfold ata_command, ata_select, io_wait. rewrite Hio, Hsl. change (Z.lor 0xE0 (Z.shiftl 0 4)) with 0xE0.
  set (x := Z.land (Z.shiftr lba 24) 0x0F). assert (Hx : 0 ≤ x < 16).
  { unfold x. change 0x0F with (Z.ones 4). rewrite Z.land_ones by lia. apply Z.mod_pos_bound. lia. }
  destruct (select_bits x Hx) as [Hx1 Hx2].
  destruct (store_register 6 (u8 (Z.lor 0xE0 x)) h ltac:(lia) Hi Hb) as (C1 & S1 & B1 & R1). set (h1 := outb (ATA_PRIMARY_IO + 6) _ h) in *.
  destruct (delay 0 h1) as [(C2 & R2 & S2) B2]. set (h2 := outb 0x80 0 h1) in *. rewrite S1 in S2. rewrite B1 in B2.
  destruct (store_register 2 (u8 chunk) h2 ltac:(lia) S2 B2) as (C3 & S3 & B3 & R3). set (h3 := outb (ATA_PRIMARY_IO + 2) _ h2) in *.
  destruct (store_register 3 (Z.land lba 0xFF) h3 ltac:(lia) S3 B3) as (C4 & S4 & B4 & R4). set (h4 := outb (ATA_PRIMARY_IO + 3) _ h3) in *.
  destruct (store_register 4 (Z.land (Z.shiftr lba 8) 0xFF) h4 ltac:(lia) S4 B4) as (C5 & S5 & B5 & R5). set (h5 := outb (ATA_PRIMARY_IO + 4) _ h4) in *.
  destruct (store_register 5 (Z.land (Z.shiftr lba 16) 0xFF) h5 ltac:(lia) S5 B5) as (C6 & S6 & B6 & R6). set (h6 := outb (ATA_PRIMARY_IO + 5) _ h5) in *.
  exists h6. split; [done|]. split; [intros s; by rewrite C6, C5, C4, C3, C2, C1|]. split; [done|].
  assert (E6 : register h6 6 = u8 (Z.lor 0xE0 x)) by (by rewrite R6, R5, R4, R3, R2, R1).
  assert (E2 : register h6 2 = chunk) by (rewrite R6, R5, R4, R3; cbn; by rewrite u8_small by lia).
  rewrite E6, E2. split; [|split; [|done]].
  - unfold lba28. rewrite E6, Hx1. assert (register h6 5 = Z.land (Z.shiftr lba 16) 0xFF) as -> by (by rewrite R6).
    assert (register h6 4 = Z.land (Z.shiftr lba 8) 0xFF) as -> by (by rewrite R6, R5). assert (register h6 3 = Z.land lba 0xFF) as -> by (by rewrite R6, R5, R4). by apply low_bits.
  - unfold sector_count. case_match; bool_prop; [lia|done].
Qed.

Lemma chunk_bounds r : 0 < r → let c := if 128 <? r then 128 else u16 r in 0 < c ≤ 128 ∧ c ≤ r.
Proof using. intros H0. cbn zeta. destruct (128 <? r) eqn:E; bool_prop; [lia|]. unfold u16. rewrite Z.mod_small by lia. lia. Qed.

Lemma reading_pos lba k : (0 < k)%nat → Reading lba k = reading lba k.
Proof using. destruct k; [lia|done]. Qed.
Lemma writing_pos lba k : (0 < k)%nat → Writing lba k = writing lba k.
Proof using. destruct k; [lia|done]. Qed.

(** One command for reading, from the registers to the data. *)
Lemma read_command_ok d lba c h : master d → at_rest h → 0 ≤ lba → 0 < c ≤ 128 → (Z.to_nat c ≤ 1 ∨ gap = 0)%nat →
  ∃ h3 h4, ata_wait d true (ata_command d ATA_CMD_READ lba c h) = (true, h3) ∧
    insw (ATA_PRIMARY_IO + ATA_REG_DATA) (Z.to_nat c * 256) h3 = (span (contents h) (lba mod 2 ^ 28) (Z.to_nat c), h4) ∧
    (∀ s, contents h4 s = contents h s) ∧ at_rest h4.
Proof using Type*.
  intros Hd Hh Hl Hc Hg. pose proof Hd as (Hio & _ & _). destruct (command_ok d lba c h Hd Hh Hl Hc) as (h1 & -> & C1 & [S1 B1] & L1 & N1 & D1).
  destruct (start_read h1 S1 B1 D1) as (C2 & S2 & B2). set (h2 := outb _ ATA_CMD_READ h1) in *.
  rewrite L1, N1, reading_pos in S2 by lia. unfold ata_wait. rewrite Hio.
  destruct (wait_ok WAIT true h2 B2) as (h3 & E3 & (C3 & _ & S3) & B3); [intros _; rewrite S2; destruct (Z.to_nat c) eqn:E; [lia|done]|]. rewrite S2 in S3.
  destruct (sectors_in (Z.to_nat c) h3 (lba mod 2 ^ 28) B3 S3 Hg) as (h4 & E4 & C4 & R4). exists h3, h4. split; [done|].
  rewrite E4, (span_ext _ (contents h)) by (intros s; by rewrite C3, C2, C1). split; [done|]. split; [intros s; by rewrite C4, C3, C2, C1|done].
Qed.

(** One command for writing. *)
Lemma write_command_ok d lba c l h : master d → at_rest h → 0 ≤ lba → 0 < c ≤ 128 → (Z.to_nat c ≤ 1 ∨ gap = 0)%nat → length l = (Z.to_nat c * SECTOR)%nat →
  ∃ h3 h5, ata_wait d true (ata_command d ATA_CMD_WRITE lba c h) = (true, h3) ∧
    ata_wait d false (outsw (ATA_PRIMARY_IO + ATA_REG_DATA) l h3) = (true, h5) ∧
    (∀ s, contents h5 s = put_span (contents h) (lba mod 2 ^ 28) (Z.to_nat c) l s) ∧ at_rest h5.
Proof using Type*.
  intros Hd Hh Hl Hc Hg Hlen. pose proof Hd as (Hio & _ & _). destruct (command_ok d lba c h Hd Hh Hl Hc) as (h1 & -> & C1 & [S1 B1] & L1 & N1 & D1).
  destruct (start_write h1 S1 B1 D1) as (C2 & S2 & B2). set (h2 := outb _ ATA_CMD_WRITE h1) in *.
  rewrite L1, N1, writing_pos in S2 by lia. unfold ata_wait. rewrite Hio.
  destruct (wait_ok WAIT true h2 B2) as (h3 & E3 & (C3 & _ & S3) & B3); [intros _; rewrite S2; destruct (Z.to_nat c) eqn:E; [lia|done]|]. rewrite S2 in S3.
  destruct (sectors_out (Z.to_nat c) h3 (lba mod 2 ^ 28) l B3 S3) as (C4 & S4 & B4); [lia|done|done|].
  set (h4 := outsw _ l h3) in *. destruct (wait_ok WAIT false h4 B4) as (h5 & E5 & (C5 & _ & S5) & B5); [done|]. rewrite S4 in S5.
  exists h3, h5. split; [done|]. split; [exact E5|]. split; [|done]. intros s. rewrite C5, C4. apply put_span_ext. intros s2. by rewrite C3, C2, C1.
Qed.

Lemma pio_read_ok d n lba remaining off buffer h : master d → at_rest h → 0 ≤ lba → 0 ≤ remaining ≤ Z.of_nat n → lba + remaining ≤ 2 ^ 28 →
  (off + Z.to_nat remaining * SECTOR ≤ length buffer)%nat → remaining ≤ 1 ∨ gap = 0%nat →
  ∃ h', ata_pio_read n d lba remaining off buffer h =
      Some (true, take off buffer ++ span (contents h) lba (Z.to_nat remaining) ++ drop (off + Z.to_nat remaining * SECTOR) buffer, h') ∧
    (∀ s, contents h' s = contents h s) ∧ at_rest h'.
Proof using Type*.
  intros Hd. pose proof Hd as (Hio & _ & _). revert lba remaining off buffer h. induction n as [|n IH]; intros lba remaining off buffer h Hh Hl Hr Hm Hb Hg; cbn [ata_pio_read]; destruct (remaining <=? 0) eqn:E0; bool_prop; try lia.
  1,2: assert (remaining = 0) as -> by lia; exists h; change (Z.to_nat 0) with 0%nat; rewrite Nat.mul_0_l, Nat.add_0_r; cbn [span app]; by rewrite take_drop.
  pose proof (chunk_bounds remaining E0) as [Hc Hcr]. set (c := if 128 <? remaining then 128 else u16 remaining) in *.
  destruct (read_command_ok d lba c h Hd Hh Hl Hc) as (h3 & h4 & -> & E4 & C4 & R4); [lia|]. rewrite Z.mod_small in E4 by lia. rewrite Hio, E4. cbn [negb].
  assert (Hsum : (Z.to_nat remaining = Z.to_nat c + Z.to_nat (remaining - c))%nat) by lia. rewrite Hsum in Hb |- *.
  destruct (buffer_grows (contents h) lba (Z.to_nat c) (Z.to_nat (remaining - c)) off buffer (contents_sized h)) as (buffer' & -> & Hlen & Eb); [lia|]. cbn [mbind option_bind].
  rewrite u64_small by lia. destruct (IH (lba + c) (remaining - c) (off + Z.to_nat c * SECTOR)%nat buffer' h4) as (h' & -> & C5 & R5); [done|lia|lia|lia|lia|lia|].
  exists h'. split; [|split; [intros s; by rewrite C5, C4|done]]. rewrite (span_ext (contents h4) (contents h)) by done.
  replace (lba + Z.of_nat (Z.to_nat c)) with (lba + c) in Eb by lia. by rewrite Eb.
Qed.

Lemma pio_write_ok d n lba remaining off buffer h : master d → at_rest h → 0 ≤ lba → 0 ≤ remaining ≤ Z.of_nat n → lba + remaining ≤ 2 ^ 28 →
  (off + Z.to_nat remaining * SECTOR ≤ length buffer)%nat → remaining ≤ 1 ∨ gap = 0%nat →
  ∃ h', ata_pio_write n d lba remaining off buffer h = Some (true, h') ∧
    (∀ s, contents h' s = put_span (contents h) lba (Z.to_nat remaining) (drop off buffer) s) ∧ at_rest h'.
Proof using Type*.
  intros Hd. pose proof Hd as (Hio & _ & _). revert lba remaining off h. induction n as [|n IH]; intros lba remaining off h Hh Hl Hr Hm Hb Hg; cbn [ata_pio_write]; destruct (remaining <=? 0) eqn:E0; bool_prop; try lia.
  1,2: assert (remaining = 0) as -> by lia; exists h; split; [done|]; split; [intros s; symmetry; apply put_span_0|done].
  pose proof (chunk_bounds remaining E0) as [Hc Hcr]. set (c := if 128 <? remaining then 128 else u16 remaining) in *.
  assert (Hroom : (off + Z.to_nat c * SECTOR + Z.to_nat (remaining - c) * SECTOR = off + Z.to_nat remaining * SECTOR)%nat).
  { assert ((Z.to_nat remaining = Z.to_nat c + Z.to_nat (remaining - c))%nat) as -> by lia. lia. }
  pose proof (Nat.le_0_l (Z.to_nat (remaining - c) * SECTOR)) as Hrest.
  set (l := take (Z.to_nat c * SECTOR) (drop off buffer)). destruct (write_command_ok d lba c l h Hd Hh Hl Hc) as (h3 & h5 & -> & E5 & C5 & R5); [lia|unfold l; rewrite length_take, length_drop; lia|].
  cbn [negb]. rewrite field_ok by lia. cbn [mbind option_bind]. rewrite Hio. fold l. rewrite E5. cbn [negb]. rewrite Z.mod_small in C5 by lia.
  rewrite u64_small by lia. destruct (IH (lba + c) (remaining - c) (off + Z.to_nat c * SECTOR)%nat h5) as (h' & -> & C6 & R6); [done|lia|lia|lia|lia|lia|].
  exists h'. split; [done|]. split; [|done]. intros s. rewrite C6.
  rewrite (put_span_ext _ (put_span (contents h) lba (Z.to_nat c) l)) by done.
  pose proof (put_span_add (contents h) lba (Z.to_nat c) (Z.to_nat (remaining - c)) (drop off buffer) s) as E. rewrite drop_drop in E.
  replace (Z.to_nat c + Z.to_nat (remaining - c))%nat with (Z.to_nat remaining) in E by lia. replace (lba + Z.of_nat (Z.to_nat c)) with (lba + c) in E by lia. exact E.
Qed.

(** ** The BIOS *)

Section bios.
Context (bios_thunk_read bios_thunk_write : Z → bios → H → Z * bios * H).

(** The variables of bios_fallback.c stay, and so does the size of the shared buffer. *)
Definition keeps (b b' : bios) : Prop := fallback_ready b' = fallback_ready b ∧ fallback_drive b' = fallback_drive b ∧ length (bounce b') = length (bounce b).

(** The BIOS has been prepared, and its buffer holds what one request can move. *)
Definition bios_ok (b : bios) : Prop := fallback_ready b = true ∧ (64 * SECTOR ≤ length (bounce b))%nat.

(** The extended disk services: the sectors that the packet names go to the buffer, or come
    from it. *)
Context (bios_reads : ∀ b h lba count, bios_ok b → dap b = packet lba count → 0 < count ≤ BIOS_MAX_SECTORS → at_rest h →
  ∃ b' h', bios_thunk_read (fallback_drive b) b h = (0, b', h') ∧ keeps b b' ∧ field (bounce b') 0 (Z.to_nat count * SECTOR) = Some (span (contents h) lba (Z.to_nat count)) ∧
    (∀ s, contents h' s = contents h s) ∧ at_rest h').
Context (bios_writes : ∀ b h lba count l, bios_ok b → dap b = packet lba count → 0 < count ≤ BIOS_MAX_SECTORS → at_rest h → field (bounce b) 0 (Z.to_nat count * SECTOR) = Some l →
  ∃ b' h', bios_thunk_write (fallback_drive b) b h = (0, b', h') ∧ keeps b b' ∧ (∀ s, contents h' s = put_span (contents h) lba (Z.to_nat count) l s) ∧ at_rest h').

Lemma keeps_trans b1 b2 b3 : keeps b1 b2 → keeps b2 b3 → keeps b1 b3.
Proof using. intros (? & ? & ?) (? & ? & ?). repeat split; congruence. Qed.

Lemma keeps_ok b b' : keeps b b' → bios_ok b → bios_ok b'.
Proof using. intros (E1 & _ & E2) [H1 H2]. split; [congruence|by rewrite E2]. Qed.

Lemma bios_chunk_bounds r : 0 < r → let c := if BIOS_MAX_SECTORS <? r then BIOS_MAX_SECTORS else u16 r in 0 < c ≤ BIOS_MAX_SECTORS ∧ c ≤ r.
Proof using. intros H0. cbn zeta. unfold BIOS_MAX_SECTORS. destruct (64 <? r) eqn:E; bool_prop; [lia|]. unfold u16. rewrite Z.mod_small by lia. lia. Qed.

Lemma bios_read_ok n lba remaining off buffer b h : bios_ok b → at_rest h → 0 ≤ lba → 0 ≤ remaining ≤ Z.of_nat n → lba + remaining < 2 ^ 64 →
  (off + Z.to_nat remaining * SECTOR ≤ length buffer)%nat →
  ∃ b' h', bios_read_loop bios_thunk_read n (fallback_drive b) lba remaining off buffer b h =
      Some (true, take off buffer ++ span (contents h) lba (Z.to_nat remaining) ++ drop (off + Z.to_nat remaining * SECTOR) buffer, b', h') ∧
    keeps b b' ∧ (∀ s, contents h' s = contents h s) ∧ at_rest h'.
Proof using bios_reads.
  revert lba remaining off buffer b h. induction n as [|n IH]; intros lba remaining off buffer b h Hok Hh Hl Hr Hm Hb; cbn [bios_read_loop]; destruct (remaining <=? 0) eqn:E0; bool_prop; try lia.
  1,2: assert (remaining = 0) as -> by lia; exists b, h; change (Z.to_nat 0) with 0%nat; rewrite Nat.mul_0_l, Nat.add_0_r; cbn [span app]; by rewrite take_drop.
  pose proof (bios_chunk_bounds remaining E0) as [Hc Hcr]. set (c := if BIOS_MAX_SECTORS <? remaining then BIOS_MAX_SECTORS else u16 remaining) in *.
  unfold read_chunk. destruct (bios_reads (Bios (fallback_ready b) (fallback_drive b) (packet lba c) (bounce b)) h lba c Hok eq_refl Hc Hh) as (b1 & h1 & E1 & K1 & F1 & C1 & R1).
  cbn [fallback_drive] in E1. rewrite E1, F1. assert (Kb : keeps b b1) by exact K1. change (0 <? 0) with false. cbn [mbind option_bind negb].
  assert (Hsum : (Z.to_nat remaining = Z.to_nat c + Z.to_nat (remaining - c))%nat) by lia. rewrite Hsum in Hb |- *.
  destruct (buffer_grows (contents h) lba (Z.to_nat c) (Z.to_nat (remaining - c)) off buffer (contents_sized h)) as (buffer' & -> & Hlen & Eb); [lia|]. cbn [mbind option_bind negb].
  rewrite u64_small by lia. assert (fallback_drive b = fallback_drive b1) as -> by (symmetry; apply Kb).
  destruct (IH (lba + c) (remaining - c) (off + Z.to_nat c * SECTOR)%nat buffer' b1 h1) as (b' & h' & -> & K2 & C5 & R5); [by eapply keeps_ok|done|lia|lia|lia|lia|].
  exists b', h'. split; [|split; [by eapply keeps_trans|split; [intros s; by rewrite C5, C1|done]]]. rewrite (span_ext (contents h1) (contents h)) by done.
  replace (lba + Z.of_nat (Z.to_nat c)) with (lba + c) in Eb by lia. by rewrite Eb.
Qed.

Lemma bios_write_ok n lba remaining off buffer b h : bios_ok b → at_rest h → 0 ≤ lba → 0 ≤ remaining ≤ Z.of_nat n → lba + remaining < 2 ^ 64 →
  (off + Z.to_nat remaining * SECTOR ≤ length buffer)%nat →
  ∃ b' h', bios_write_loop bios_thunk_write n (fallback_drive b) lba remaining off buffer b h = Some (true, b', h') ∧
    keeps b b' ∧ (∀ s, contents h' s = put_span (contents h) lba (Z.to_nat remaining) (drop off buffer) s) ∧ at_rest h'.
Proof using bios_writes.
  revert lba remaining off b h. induction n as [|n IH]; intros lba remaining off b h Hok Hh Hl Hr Hm Hb; cbn [bios_write_loop]; destruct (remaining <=? 0) eqn:E0; bool_prop; try lia.
  1,2: assert (remaining = 0) as -> by lia; exists b, h; split; [done|]; split; [done|]; split; [intros s; symmetry; apply put_span_0|done].
  pose proof (bios_chunk_bounds remaining E0) as [Hc Hcr]. set (c := if BIOS_MAX_SECTORS <? remaining then BIOS_MAX_SECTORS else u16 remaining) in *.
  assert (Hsum : (Z.to_nat remaining = Z.to_nat c + Z.to_nat (remaining - c))%nat) by lia. rewrite Hsum, Nat.mul_add_distr_r in Hb. pose proof (Nat.le_0_l (Z.to_nat (remaining - c) * SECTOR)).
  unfold write_chunk. set (l := take (Z.to_nat c * SECTOR) (drop off buffer)). assert (Hll : length l = (Z.to_nat c * SECTOR)%nat) by (unfold l; rewrite length_take, length_drop; lia).
  rewrite field_ok by lia. fold l. cbn [mbind option_bind]. pose proof Hok as [_ Hsz]. assert ((Z.to_nat c * SECTOR ≤ 64 * SECTOR)%nat) by (apply Nat.mul_le_mono_r; unfold BIOS_MAX_SECTORS in Hc; lia).
  rewrite buf_copy_ok by lia. cbn [mbind option_bind Nat.add]. rewrite take_0, app_nil_l, Hll. set (bo := l ++ drop (Z.to_nat c * SECTOR) (bounce b)).
  assert (Hbo : length bo = length (bounce b)) by (unfold bo; rewrite length_app, length_drop; lia).
  destruct (bios_writes (Bios (fallback_ready b) (fallback_drive b) (packet lba c) bo) h lba c l ltac:(split; [apply Hok|cbn [bounce]; lia]) eq_refl Hc Hh) as (b1 & h1 & E1 & K1 & C1 & R1).
  { cbn [bounce]. unfold bo. rewrite <- Hll. apply field_exact. }
  cbn [fallback_drive] in E1. rewrite E1. change (0 <? 0) with false. cbn [mbind option_bind negb].
  assert (Kb : keeps b b1) by (destruct K1 as (K1 & K2 & K3); cbn [fallback_ready fallback_drive bounce] in *; split; [done|]; split; [done|by rewrite K3]).
  rewrite u64_small by lia. assert (fallback_drive b = fallback_drive b1) as -> by (symmetry; apply Kb).
  destruct (IH (lba + c) (remaining - c) (off + Z.to_nat c * SECTOR)%nat b1 h1) as (b' & h' & -> & K2 & C6 & R6); [by eapply keeps_ok|done|lia|lia|lia|lia|].
  exists b', h'. split; [done|]. split; [by eapply keeps_trans|]. split; [|done]. intros s. rewrite C6, (put_span_ext _ (put_span (contents h) lba (Z.to_nat c) l)) by done.
  pose proof (put_span_add (contents h) lba (Z.to_nat c) (Z.to_nat (remaining - c)) (drop off buffer) s) as E. rewrite drop_drop, <- Hsum in E.
  replace (lba + Z.of_nat (Z.to_nat c)) with (lba + c) in E by lia. exact E.
Qed.

(** ** The disk *)

Inductive request := ReadReq (lba count : Z) (buffer : list Z) | WriteReq (lba count : Z) (buffer : list Z).

(** What the driver answers: the status and the buffer after a read. *)
Definition serve (d : ata_device) (r : request) (b : bios) h : option (Z * list Z * bios * H) :=
  match r with
  | ReadReq lba count buffer => ata_block_read bios_thunk_read d lba count buffer b h
  | WriteReq lba count buffer => '(r, b, h) ← ata_block_write bios_thunk_write d lba count buffer b h; Some (r, buffer, b, h)
  end.

Fixpoint serve_all (d : ata_device) (l : list request) (b : bios) h : option (list (Z * list Z) * bios * H) :=
  match l with
  | [] => Some ([], b, h)
  | r :: l => '(x, buffer, b, h) ← serve d r b h; '(xs, b, h) ← serve_all d l b h; Some ((x, buffer) :: xs, b, h)
  end.

(** The same on an array of sectors. *)
Definition array_serve (r : request) (c : sector_array) : Z * list Z * sector_array :=
  match r with
  | ReadReq lba count buffer => if count =? 0 then (-1, buffer, c) else (0, span c lba (Z.to_nat count) ++ drop (Z.to_nat count * SECTOR) buffer, c)
  | WriteReq lba count buffer => if count =? 0 then (-1, buffer, c) else (0, buffer, put_span c lba (Z.to_nat count) buffer)
  end.

Fixpoint array_run (l : list request) (c : sector_array) : list (Z * list Z) * sector_array :=
  match l with
  | [] => ([], c)
  | r :: l => let '(x, buffer, c) := array_serve r c in let '(xs, c) := array_run l c in ((x, buffer) :: xs, c)
  end.

(** The sectors that a request names, with room in its buffer for them. *)
Definition extent_of (r : request) : Z * Z * list Z := match r with ReadReq lba count l | WriteReq lba count l => (lba, count, l) end.

Definition fits (d : ata_device) (r : request) : Prop :=
  let '(lba, count, l) := extent_of r in
  0 ≤ lba ∧ 0 ≤ count ∧ (Z.to_nat count * SECTOR ≤ length l)%nat ∧
  if present d then lba + count ≤ 2 ^ 28 ∧ (count ≤ 1 ∨ gap = 0%nat) else lba + count < 2 ^ 64.

(** The disk is on the primary channel, or the BIOS knows it. *)
Definition served (d : ata_device) (b : bios) : Prop := if present d then master d else bios_ok b.

Lemma served_keeps d b b' : keeps b b' → served d b → served d b'.
Proof using. unfold served. intros K. destruct (present d); [done|]. by apply keeps_ok. Qed.

Lemma serve_ok d r b h : served d b → at_rest h → fits d r → ∃ b' h',
  serve d r b h = Some ((array_serve r (contents h)).1, b', h') ∧ keeps b b' ∧ (∀ s, contents h' s = (array_serve r (contents h)).2 s) ∧ at_rest h'.
Proof using Type*.
  intros Hd Hh Hf. unfold served in Hd. destruct r as [lba count l|lba count l]; unfold fits in Hf; cbn [extent_of] in Hf; destruct Hf as (Hl & Hc & Hr & Hf); cbn [serve array_serve]; unfold ata_block_read, ata_block_write; destruct (count =? 0) eqn:E0; try (by exists b, h); bool_prop; destruct (present d).
  - destruct Hf as [Hm Hg]. destruct (pio_read_ok d (Z.to_nat count) lba count 0 l h Hd Hh) as (h' & -> & C & R); [lia..|]. exists b, h'. by cbn [mbind option_bind].
  - destruct (bios_read_ok (Z.to_nat count) lba count 0 l b h Hd Hh) as (b' & h' & E & K & C & R); [lia..|]. exists b', h'. cbn [mbind option_bind]. unfold bios_fallback_read. destruct Hd as [-> _]. apply Z.eqb_neq in E0. rewrite E0. cbn [negb orb]. by rewrite E.
  - destruct Hf as [Hm Hg]. destruct (pio_write_ok d (Z.to_nat count) lba count 0 l h Hd Hh) as (h' & -> & C & R); [lia..|]. exists b, h'. by cbn [mbind option_bind].
  - destruct (bios_write_ok (Z.to_nat count) lba count 0 l b h Hd Hh) as (b' & h' & E & K & C & R); [lia..|]. exists b', h'. cbn [mbind option_bind]. unfold bios_fallback_write. destruct Hd as [-> _]. apply Z.eqb_neq in E0. rewrite E0. cbn [negb orb]. by rewrite E.
Qed.

Lemma array_serve_ext r c c' : (∀ s, c s = c' s) → (array_serve r c).1 = (array_serve r c').1 ∧ ∀ s, (array_serve r c).2 s = (array_serve r c').2 s.
Proof using. intros E. destruct r as [lba count l|lba count l]; cbn [array_serve]; destruct (count =? 0); try done. - by rewrite (span_ext c c'). - split; [done|]. intros s. by apply put_span_ext. Qed.

Lemma array_run_ext l c c' : (∀ s, c s = c' s) → (array_run l c).1 = (array_run l c').1 ∧ ∀ s, (array_run l c).2 s = (array_run l c').2 s.
Proof using.
  revert c c'. induction l as [|r l IH]; intros c c' E; [done|]. cbn [array_run]. destruct (array_serve_ext r c c' E) as [E1 E2].
  destruct (array_serve r c) as [[x bu] c1], (array_serve r c') as [[x' bu'] c1']. cbn in E1, E2. injection E1 as -> ->.
  destruct (IH _ _ E2) as [E3 E4]. destruct (array_run l c1), (array_run l c1'). cbn in *. by rewrite E3.
Qed.

(** C24: for a controller that keeps the ATA protocol and reports no errors, or a BIOS that keeps that of its disk
    services, any sequence of reads and writes of the disk driver completes, and has the
    results, the contents of the buffers and the effect on the disk that the same requests
    have on an array of sectors, whatever the sizes of the transfers: for the controller as
    long as the sectors have numbers of 28 bits and either each request is for one sector or
    the controller is never busy between two sectors of a command. *)
Theorem ata_disk_refines d l b h : served d b → at_rest h → Forall (fits d) l →
  ∃ b' h', serve_all d l b h = Some ((array_run l (contents h)).1, b', h') ∧ (∀ s, contents h' s = (array_run l (contents h)).2 s) ∧ at_rest h'.
Proof using Type*.
  intros Hd Hh Hl. revert b h Hd Hh. induction Hl as [|r l Hr _ IH]; intros b h Hd Hh; [by exists b, h|]. cbn [serve_all array_run].
  destruct (serve_ok d r b h Hd Hh Hr) as (b1 & h1 & -> & K & C & R). destruct (array_serve r (contents h)) as [[x bu] c1]. cbn [fst snd mbind option_bind] in *.
  destruct (IH b1 h1) as (b2 & h2 & -> & C2 & R2); [by eapply served_keeps|done|]. destruct (array_run_ext l (contents h1) c1 C) as [E1 E2].
  destruct (array_run l (contents h1)) as [xs c2], (array_run l c1) as [xs' c2']. cbn [fst snd mbind option_bind] in *. exists b2, h2. rewrite E1. split; [done|]. split; [|done]. intros s. by rewrite C2.
Qed.

(** A sector whose number has more than 28 bits: the driver reads another one, and reports
    success. *)
Theorem high_sector_wraps d lba buffer b h : master d → at_rest h → 2 ^ 28 ≤ lba < 2 ^ 64 → length buffer = SECTOR →
  ∃ h', ata_block_read bios_thunk_read d lba 1 buffer b h = Some (0, contents h (lba mod 2 ^ 28), b, h').
Proof using Type*.
  intros Hd Hh Hl Hb. pose proof Hd as (Hio & _ & Hp). unfold ata_block_read. rewrite Hp. change (1 =? 0) with false. change (Z.to_nat 1) with 1%nat. cbn [ata_pio_read]. change (1 <=? 0) with false. change (if 128 <? 1 then 128 else u16 1) with 1.
  destruct (read_command_ok d lba 1 h Hd Hh) as (h3 & h4 & -> & E4 & _); [lia..|]. cbn [negb]. rewrite Hio, E4. change (Z.to_nat 1) with 1%nat. cbn [span]. rewrite app_nil_r.
  rewrite buf_copy_ok by (rewrite contents_sized; lia). change (1 - 1 <=? 0) with true. cbn [mbind option_bind]. exists h4. rewrite drop_ge by (rewrite contents_sized; lia). by rewrite take_0, app_nil_r.
Qed.

End bios.
End controller.

(** ** A controller *)

(** A disk of sectors that are all zero but for those written; [pause] is how long it is
    busy between two sectors. *)
Record drive := Drive { files : gmap Z (list Z); regs : gmap Z Z; doing : transfer; left_busy : nat }.

Section drive.
Context (pause : nat).

Definition drive_sector (h : drive) (s : Z) : list Z := resize SECTOR 0 (default [] (files h !! s)).
Definition drive_reg (h : drive) (r : Z) : Z := default 0 (regs h !! r).
Definition drive_lba (h : drive) : Z := drive_reg h 3 + 256 * (drive_reg h 4 + 256 * (drive_reg h 5 + 256 * Z.land (drive_reg h 6) 15)).

Definition drive_inb (p : Z) (h : drive) : Z * drive :=
  if p =? ATA_PRIMARY_IO + ATA_REG_STATUS then
    match left_busy h with
    | S n => (ATA_SR_BSY, Drive (files h) (regs h) (doing h) n)
    | O => (match doing h with Idle => 0x40 | _ => Z.lor 0x40 ATA_SR_DRQ end, h)
    end
  else (0, h).

Definition drive_outb (p v : Z) (h : drive) : drive :=
  if p =? ATA_PRIMARY_IO + ATA_REG_COMMAND then
    if v =? ATA_CMD_READ then Drive (files h) (regs h) (Reading (drive_lba h) (sector_count (drive_reg h 2))) 2
    else if v =? ATA_CMD_WRITE then Drive (files h) (regs h) (Writing (drive_lba h) (sector_count (drive_reg h 2))) 2
    else h
  else if (ATA_PRIMARY_IO + 2 <=? p) && (p <=? ATA_PRIMARY_IO + 6) then Drive (files h) (<[p - ATA_PRIMARY_IO := v]> (regs h)) (doing h) (left_busy h)
  else h.

(** The data register gives nothing but 0xFF, and takes nothing, while the drive is busy or
    has no transfer of that direction. *)
Definition drive_get (h : drive) : list Z * drive :=
  match doing h, left_busy h with
  | Reading lba (S n), O => (drive_sector h lba, Drive (files h) (regs h) (reading (lba + 1) n) (if (n =? 0)%nat then 0 else pause))
  | _, _ => (replicate SECTOR 0xFF, h)
  end.

Definition drive_put (l : list Z) (h : drive) : drive :=
  match doing h, left_busy h with
  | Writing lba (S n), O => Drive (<[lba := l]> (files h)) (regs h) (writing (lba + 1) n) (if (n =? 0)%nat then 2 else pause)
  | _, _ => h
  end.

Fixpoint drive_gets (n : nat) (h : drive) : list Z * drive :=
  match n with O => ([], h) | S n' => let '(a, h) := drive_get h in let '(b, h) := drive_gets n' h in (a ++ b, h) end.

Fixpoint drive_puts (n : nat) (l : list Z) (h : drive) : drive :=
  match n with O => h | S n' => drive_puts n' (drop SECTOR l) (drive_put (take SECTOR l) h) end.

End drive.

(** The ports of a drive that is busy for [pause] reads between sectors; [drive_of] keeps
    drives of different kinds apart. *)
Definition drive_of (pause : nat) : Type := drive.

#[export] Instance drive_ports pause : Ports (drive_of pause) := {
  inb := drive_inb;
  outb := drive_outb;
  insw _ n h := drive_gets pause (n / 256) h;
  outsw _ l h := drive_puts pause (length l / SECTOR) l h
}.

#[export] Program Instance drive_controller pause : Controller (drive_of pause) := {
  contents := drive_sector;
  register := drive_reg;
  state := doing;
  busy := left_busy;
  gap := pause
}.
Next Obligation. intros pause h s. apply length_resize. Qed.
Next Obligation. intros pause v h. by split. Qed.
Next Obligation.
  intros pause r v h Hr Hs Hb. cbn. unfold drive_outb. destruct (ATA_PRIMARY_IO + r =? ATA_PRIMARY_IO + ATA_REG_COMMAND) eqn:E; [apply Z.eqb_eq in E; unfold ATA_REG_COMMAND in E; lia|].
  assert ((ATA_PRIMARY_IO + 2 <=? ATA_PRIMARY_IO + r) && (ATA_PRIMARY_IO + r <=? ATA_PRIMARY_IO + 6) = true) as -> by (apply andb_true_iff; split; apply Z.leb_le; lia).
  cbn [doing left_busy]. split; [done|]. split; [done|]. split; [done|]. intros r'. unfold drive_reg. cbn [regs]. replace (ATA_PRIMARY_IO + r - ATA_PRIMARY_IO) with r by lia.
  destruct (r' =? r) eqn:Er; bool_prop; [subst; by rewrite lookup_insert_eq|by rewrite lookup_insert_ne].
Qed.
Next Obligation. intros pause h Hs Hb _. cbn. split; [done|]. split; [done|]. apply Nat.ltb_lt. by vm_compute. Qed.
Next Obligation. intros pause h Hs Hb _. cbn. split; [done|]. split; [done|]. apply Nat.ltb_lt. by vm_compute. Qed.
Next Obligation. intros pause h n Hb. cbn. unfold drive_inb. rewrite Z.eqb_refl, Hb. do 2 eexists. by repeat split. Qed.
Next Obligation. intros pause h Hb. cbn. unfold drive_inb. rewrite Z.eqb_refl, Hb. do 2 eexists. split; [done|]. destruct (doing h); by repeat split. Qed.
Next Obligation.
  intros pause h lba n Hb Hs. cbn [insw drive_ports]. change (256 / 256)%nat with 1%nat. cbn [drive_gets]. unfold drive_get. rewrite Hs, Hb. eexists. split; [by rewrite app_nil_r|].
  split; [done|]. split; [done|]. cbn [busy left_busy]. by case_match.
Qed.
Next Obligation.
  intros pause h lba n l Hb Hs Hl. cbn [outsw drive_ports]. rewrite Hl. change (SECTOR / SECTOR)%nat with 1%nat. cbn [drive_puts]. unfold drive_put. rewrite Hs, Hb. cbn [doing left_busy].
  split; [|split; [done|]].
  - intros s. unfold drive_sector. cbn [files]. destruct (s =? lba) eqn:E; bool_prop; [subst; rewrite lookup_insert_eq; cbn [default]|by rewrite lookup_insert_ne].
    rewrite firstn_all2 by lia. apply resize_all_alt. by rewrite Hl.
  - case_match; [apply Nat.ltb_lt; by vm_compute|done].
Qed.
Next Obligation. done. Qed.
Next Obligation.
  intros pause n h. cbn [insw drive_ports]. replace ((256 + n) / 256)%nat with (S (n / 256)) by (change (256 + n)%nat with (1 * 256 + n)%nat; by rewrite Nat.div_add_l). change (256 / 256)%nat with 1%nat.
  cbn [drive_gets]. destruct (drive_get pause h) as [a h1]. by rewrite app_nil_r.
Qed.
Next Obligation. done. Qed.
Next Obligation.
  intros pause a b h Ha. cbn [outsw drive_ports]. rewrite length_app, Ha. replace ((SECTOR + length b) / SECTOR)%nat with (S (length b / SECTOR)) by (replace (SECTOR + length b)%nat with (length b + 1 * SECTOR)%nat by lia; rewrite Nat.div_add by done; lia).
  change (SECTOR / SECTOR)%nat with 1%nat. cbn [drive_puts]. by rewrite take_app_length', drop_app_length', (firstn_all2 a) by lia.
Qed.

(** ** A BIOS that knows the same drive *)

Fixpoint store_span (n : nat) (lba : Z) (l : list Z) (h : drive) : drive :=
  match n with O => h | S n' => store_span n' (lba + 1) (drop SECTOR l) (Drive (<[lba := take SECTOR l]> (files h)) (regs h) (doing h) (left_busy h)) end.

Definition drive_bios_read {pause} (_ : Z) (b : bios) (h : drive_of pause) : Z * bios * drive_of pause :=
  let l := span (drive_sector h) (d_lba (dap b)) (Z.to_nat (d_count (dap b))) in
  (0, Bios (fallback_ready b) (fallback_drive b) (dap b) (l ++ drop (length l) (bounce b)), h).

Definition drive_bios_write {pause} (_ : Z) (b : bios) (h : drive_of pause) : Z * bios * drive_of pause :=
  (0, b, store_span (Z.to_nat (d_count (dap b))) (d_lba (dap b)) (take (Z.to_nat (d_count (dap b)) * SECTOR) (bounce b)) h).

Lemma store_span_ok n lba l h : length l = (n * SECTOR)%nat → doing (store_span n lba l h) = doing h ∧ left_busy (store_span n lba l h) = left_busy h ∧
  ∀ s, drive_sector (store_span n lba l h) s = put_span (drive_sector h) lba n l s.
Proof.
  revert lba l h. induction n as [|n IH]; intros lba l h Hl; [split; [done|]; split; [done|]; intros s; by rewrite put_span_0|]. cbn [store_span].
  set (h1 := Drive _ _ _ _). destruct (IH (lba + 1) (drop SECTOR l) h1) as (D & B & C); [rewrite length_drop; lia|]. split; [done|]. split; [done|]. intros s. rewrite C.
  pose proof (put_span_add (drive_sector h) lba 1 n l s) as E. rewrite Nat.mul_1_l in E. change (1 + n)%nat with (S n) in E. rewrite <- E. apply put_span_ext. intros s'.
  assert (Ht : length (take SECTOR l) = SECTOR) by (rewrite length_take; lia).
  unfold put_span, in_span, drive_sector. cbn [files h1]. destruct (decide (s' = lba)) as [->|Hne].
  - rewrite lookup_insert_eq, bool_decide_true, Z.sub_diag by lia. cbn [default]. change (Z.to_nat 0 * SECTOR)%nat with 0%nat. rewrite drop_0, (firstn_all2 (take _ _)) by lia. by apply resize_all_alt.
  - by rewrite lookup_insert_ne, bool_decide_false by lia.
Qed.

Lemma drive_bios_reads pause b (h : drive_of pause) lba count : bios_ok b → dap b = packet lba count → 0 < count ≤ BIOS_MAX_SECTORS → at_rest h →
  ∃ b' h', drive_bios_read (fallback_drive b) b h = (0, b', h') ∧ keeps b b' ∧ field (bounce b') 0 (Z.to_nat count * SECTOR) = Some (span (contents h) lba (Z.to_nat count)) ∧
    (∀ s, contents h' s = contents h s) ∧ at_rest h'.
Proof.
  intros [Hr Hb] Hd Hc Hh. unfold drive_bios_read. rewrite Hd. cbn [d_lba d_count packet]. pose proof (span_length (drive_sector h) lba (Z.to_nat count) (contents_sized h)) as Hs.
  assert ((Z.to_nat count * SECTOR ≤ 64 * SECTOR)%nat) by (apply Nat.mul_le_mono_r; unfold BIOS_MAX_SECTORS in Hc; lia).
  do 2 eexists. split; [done|]. split; [|split; [|done]]. - split; [done|]. split; [done|]. cbn [bounce]. rewrite length_app, length_drop, Hs. lia. - cbn [bounce]. rewrite <- Hs. apply field_exact.
Qed.

Lemma drive_bios_writes pause b (h : drive_of pause) lba count l : bios_ok b → dap b = packet lba count → 0 < count ≤ BIOS_MAX_SECTORS → at_rest h →
  field (bounce b) 0 (Z.to_nat count * SECTOR) = Some l →
  ∃ b' h', drive_bios_write (fallback_drive b) b h = (0, b', h') ∧ keeps b b' ∧ (∀ s, contents h' s = put_span (contents h) lba (Z.to_nat count) l s) ∧ at_rest h'.
Proof.
  intros [Hr Hb] Hd Hc Hh (_ & -> & Hl)%field_Some. unfold drive_bios_write. rewrite Hd. cbn [d_lba d_count packet]. rewrite drop_0 in Hl |- *.
  destruct (store_span_ok (Z.to_nat count) lba _ h Hl) as (D & B & C). do 2 eexists. split; [done|]. split; [done|]. split; [exact C|]. destruct Hh as [H1 H2]. split; [exact (eq_trans D H1)|exact (eq_trans B H2)].
Qed.

Definition blank {pause} : drive_of pause := Drive ∅ ∅ Idle 0.
Definition demo_disk : ata_device := AtaDevice ATA_PRIMARY_IO ATA_PRIMARY_CTRL 0 true 2880.
Definition demo_bios : bios := Bios true 0x80 (packet 0 0) (replicate (64 * SECTOR) 0).
Definition ones : list Z := replicate SECTOR 1.
Definition twos : list Z := replicate SECTOR 2.

(** Two sectors are written and the second one is read, by the controller and by the BIOS. *)
Definition demo_requests : list request := [WriteReq 5 2 (ones ++ twos); ReadReq 6 1 ones].

Lemma ata_disk_refines_witness :
  (∃ b' h', serve_all drive_bios_read drive_bios_write demo_disk demo_requests demo_bios (blank : drive_of 0) = Some ([(0, ones ++ twos); (0, twos)], b', h')) ∧
  (∃ b' h', serve_all drive_bios_read drive_bios_write primary_master demo_requests demo_bios (blank : drive_of 0) = Some ([(0, ones ++ twos); (0, twos)], b', h')).
Proof.
  assert (Hw : ∀ d, d = demo_disk ∨ d = primary_master → ∃ b' h', serve_all drive_bios_read drive_bios_write d demo_requests demo_bios (blank : drive_of 0) = Some ([(0, ones ++ twos); (0, twos)], b', h')); [|split; apply Hw; auto].
  intros d Hd. destruct (ata_disk_refines drive_bios_read drive_bios_write (drive_bios_reads 0) (drive_bios_writes 0) d demo_requests demo_bios blank) as (b' & h' & E & _).
  - destruct Hd as [->| ->]; [split; [reflexivity|split; reflexivity]|]. split; [reflexivity|]. cbn [bounce demo_bios]. rewrite length_replicate. apply Nat.le_refl.
  - split; reflexivity.
  - apply Forall_forall. intros r Hr. assert (Hf : present d = true ∨ present d = false) by (destruct (present d); auto).
    apply elem_of_cons in Hr as [->|Hr%list_elem_of_singleton]; [|subst r]; unfold fits; cbn [extent_of]; (split; [lia|]; split; [lia|]; split; [apply Nat.leb_le; by vm_compute|]; destruct Hf as [-> | ->]; [split; [lia|by right]|lia]).
  - exists b', h'. rewrite E. f_equal.
Defined.

(** A drive that is busy between sectors: the driver does not wait there, and reports
    success for a sector that was never read. *)
Theorem second_sector_not_read :
  (λ x, x.1.1) <$> serve_all drive_bios_read drive_bios_write demo_disk [WriteReq 5 1 ones; WriteReq 6 1 twos; ReadReq 5 2 (replicate (2 * SECTOR) 0)] demo_bios (blank : drive_of 1) =
    Some [(0, ones); (0, twos); (0, ones ++ replicate SECTOR 0xFF)].
Proof. by vm_compute. Qed.

End AtaProps.
