(* ===== verification/Ps2kbd.v ===== *)
(** The keyboard device (modules/ps2kbd_module.c): the events of the keyboard line are
    taken from a mailbox, translated a second time into a queue of its own, and read as
    characters through the device or as records through a system call.

    The mailbox is number [box] of Input.v.  The device manager, the table of system calls
    and the files are arguments: functions on the whole machine, since registering the
    device starts it.  A [char] is a byte. *)

From S2P Require Import Prelude Arrays Bytes Input InputProps.
From S2P Require Syscall.

Module Ps2kbd.

Import Arrays Bytes Input.

Definition KEY_FIFO_CAPACITY : nat := 64.
Definition SYS_KBD_POLL : Z := 32.

Record key_fifo_entry := Key { k_payload : Z; k_timestamp : Z; k_ch : Z }.

Record driver := Driver {
  key_fifo : list key_fifo_entry; fifo_head : nat; fifo_tail : nat; shift_state : bool;
  controller_created : bool; device_registered : bool; syscall_registered : bool
}.

Definition keymap : list Z :=
  [0; 27] ++ lit "1234567890-=" ++ [backspace; tab] ++ lit "qwertyuiop[]" ++ [newline; 0] ++ lit "asdfghjkl;'`" ++ [0] ++
  lit "\zxcvbnm,./" ++ [0] ++ lit "*" ++ [0] ++ lit " " ++ replicate 70 0.

Definition keymap_shift : list Z :=
  [0; 27] ++ lit "!@#$%^&*()_+" ++ [backspace; tab] ++ lit "QWERTYUIOP{}" ++ [newline; 0] ++ lit "ASDFGHJKL:" ++ [34] ++ lit "~" ++ [0] ++
  lit "|ZXCVBNM<>?" ++ [0] ++ lit "*" ++ [0] ++ lit " " ++ replicate 70 0.

Definition set_fifo (l : list key_fifo_entry) (h t : nat) (d : driver) : driver :=
  Driver l h t (shift_state d) (controller_created d) (device_registered d) (syscall_registered d).
Definition set_shift (b : bool) (d : driver) : driver :=
  Driver (key_fifo d) (fifo_head d) (fifo_tail d) b (controller_created d) (device_registered d) (syscall_registered d).
Definition set_flags (c r s : bool) (d : driver) : driver := Driver (key_fifo d) (fifo_head d) (fifo_tail d) (shift_state d) c r s.

(** A key that does not fit is dropped. *)
Definition fifo_push (payload ch timestamp : Z) (d : driver) : option driver :=
  let next := ((fifo_tail d + 1) mod KEY_FIFO_CAPACITY)%nat in
  if (next =? fifo_head d)%nat then Some d
  else l ← buf_store (key_fifo d) (fifo_tail d) (Key payload timestamp ch); Some (set_fifo l (fifo_head d) next d).

Definition fifo_pop (d : driver) : option (option key_fifo_entry * driver) :=
  if (fifo_head d =? fifo_tail d)%nat then Some (None, d)
  else e ← key_fifo d !! fifo_head d; Some (Some e, set_fifo (key_fifo d) ((fifo_head d + 1) mod KEY_FIFO_CAPACITY) (fifo_tail d) d).

(** One event. *)
Definition handle_event (event : irq_event) (d : driver) : option driver :=
  let data := ev_data event in
  let scancode := u8 (Z.land data 0xFF) in
  let release := negb (Z.land data KB_EVENT_FLAG_RELEASE =? 0) in
  let extended := negb (Z.land data KB_EVENT_FLAG_EXTENDED =? 0) in
  let push ch := fifo_push data ch (ev_timestamp event) in
  if extended then
    if release then push 0 d
    else if scancode =? 0x48 then push KB_KEY_ARROW_UP d
    else if scancode =? 0x50 then push KB_KEY_ARROW_DOWN d
    else if scancode =? 0x4B then push KB_KEY_ARROW_LEFT d
    else if scancode =? 0x4D then push KB_KEY_ARROW_RIGHT d
    else push 0 d
  else if (scancode =? 0x2A) || (scancode =? 0x36) then push 0 (set_shift (negb release) d)
  else if release then push 0 d
  else if scancode =? 0x0E then push backspace d
  else if scancode =? 0x1C then push newline d
  else if 128 <=? scancode then Some d
  else
    translated ← (if shift_state d then keymap_shift else keymap) !! Z.to_nat scancode;
    if translated =? 0 then Some d else push translated d.

Section device.
Context (box : nat).

(** [n] bounds the rounds. *)
Fixpoint process_loop (n : nat) (d : driver) (i : irqs) : option (driver * irqs) :=
  '(r, event, i) ← irq_mailbox_receive (Some box) i;
  match event, n with
  | None, _ => Some (d, i)
  | Some _, O => None
  | Some event, S n' => d ← handle_event event d; process_loop n' d i
  end.

Definition process_pending_events : driver → irqs → option (driver * irqs) := process_loop IRQ_MAILBOX_CAPACITY.

(** The loop of [keyboard_read]: the keys are taken one at a time, those without a
    character are left out; [room] is [length - produced]. *)
Fixpoint read_loop (n room : nat) (out : list Z) (d : driver) : option (list Z * driver) :=
  if (room =? 0)%nat then Some (out, d)
  else
    '(e, d) ← fifo_pop d;
    match e, n with
    | None, _ => Some (out, d)
    | Some _, O => None
    | Some e, S n' => if k_ch e =? 0 then read_loop n' room out d else read_loop n' (room - 1) (out ++ [k_ch e]) d
    end.

(** The variables of the driver, the interrupt lines and the keyboard, memory, the log, and
    the rest of the machine. *)
Record machine {X : Type} := Machine { kbd : driver; io : input; mem : gmap Z Z; messages : list cstring; others : X }.
#[global] Arguments machine : clear implicits.

Context {X : Type}.
Implicit Types m : machine X.

Definition set_kbd (d : driver) (i : irqs) m : machine X := Machine X d (In (kb (io m)) i) (mem m) (messages m) (others m).
Definition set_io (s : input) m : machine X := Machine X (kbd m) s (mem m) (messages m) (others m).
Definition set_mem (x : gmap Z Z) m : machine X := Machine X (kbd m) (io m) x (messages m) (others m).
Definition klog (s : string) m : machine X := Machine X (kbd m) (io m) (mem m) (messages m ++ [lit s]) (others m).

(** [keyboard_read]: the status and the bytes produced; [None] for a NULL buffer. *)
Definition keyboard_read (buffer : option nat) m : option (Z * list Z * machine X) :=
  match buffer with
  | None | Some O => Some (-1, [], m)
  | Some length =>
      '(d, i) ← process_pending_events (kbd m) (irq (io m));
      '(out, d) ← read_loop KEY_FIFO_CAPACITY length [] d;
      Some (if (0 <? List.length out)%nat then 0 else -1, out, set_kbd d i m)
  end.

(** The envelope at [msg]: the result and the status. *)
Definition answer (msg result status : Z) m : machine X :=
  set_mem (Syscall.Syscall.store32 (Syscall.Syscall.store32 (mem m) (msg +32 24) result) (msg +32 28) status) m.

(** The record at [addr]; its last word is the character and three zero bytes. *)
Definition store_event (addr : Z) (e : key_fifo_entry) m : machine X :=
  let x := Syscall.Syscall.store32 (mem m) addr (k_timestamp e) in
  let x := Syscall.Syscall.store32 x (addr +32 4) (k_payload e) in
  set_mem (Syscall.Syscall.store x (addr +32 8) [u8 (k_ch e); 0; 0; 0]) m.

Definition sys_kbd_poll (message : option Z) m : option (Z * machine X) :=
  match message with
  | None => Some (-1, m)
  | Some msg =>
      if Syscall.Syscall.load32 (mem m) (msg +32 4) <? 1 then Some (-1, answer msg (-1) 1 m)
      else
        let user_addr := Syscall.Syscall.load32 (mem m) (msg +32 8) in
        if user_addr =? 0 then Some (-1, answer msg (-1) 1 m)
        else if negb (Syscall.Syscall.syscall_validate_user_buffer user_addr 12) then Some (-1, answer msg (-1) 1 m)
        else
          '(d, i) ← process_pending_events (kbd m) (irq (io m));
          '(e, d) ← fifo_pop d;
          let m := set_kbd d i m in
          match e with
          | None => Some (0, answer msg 0 0 m)
          | Some e => Some (0, answer msg 1 0 (store_event user_addr e m))
          end
  end.

(** [handler] stands for [keyboard_irq_handler]. *)
Definition keyboard_start (handler : Z) m : option (Z * machine X) :=
  let d := set_shift false (set_fifo (key_fifo (kbd m)) 0 0 (kbd m)) in
  i ← irq_mailbox_init (Some box) (irq (io m));
  '(r, i) ← irq_mailbox_subscribe KB_IRQ_LINE (Some box) i;
  let m := set_kbd d i m in
  if r <? 0 then Some (-1, klog "ps2kbd.driver: failed to subscribe mailbox" m)
  else s ← kb_init handler (io m); Some (0, klog "ps2kbd.driver: keyboard controller initialized" (set_io s m)).

Definition keyboard_stop m : option (machine X) :=
  '(_, i) ← irq_mailbox_unsubscribe KB_IRQ_LINE (Some box) (irq (io m));
  i ← irq_mailbox_flush (Some box) i;
  Some (klog "ps2kbd.driver: keyboard controller shutdown" (set_kbd (set_shift false (set_fifo (key_fifo (kbd m)) 0 0 (kbd m))) i m)).

(** ** The module *)

Context (devmgr_find : string → machine X → bool)
  (devmgr_register_device : string → string → string → machine X → option (Z * machine X))
  (devmgr_unregister_device : string → machine X → option (machine X))
  (syscall_register_handler : Z → string → machine X → option (Z * machine X))
  (syscall_unregister_handler : Z → machine X → option (Z * machine X))
  (vfs_write_file : string → list Z → machine X → option (machine X))
  (vfs_remove : string → machine X → option (machine X)).

Definition set_created (b : bool) m : machine X := Machine X (set_flags b (device_registered (kbd m)) (syscall_registered (kbd m)) (kbd m)) (io m) (mem m) (messages m) (others m).
Definition set_registered (b : bool) m : machine X := Machine X (set_flags (controller_created (kbd m)) b (syscall_registered (kbd m)) (kbd m)) (io m) (mem m) (messages m) (others m).
Definition set_syscall (b : bool) m : machine X := Machine X (set_flags (controller_created (kbd m)) (device_registered (kbd m)) b (kbd m)) (io m) (mem m) (messages m) (others m).

(** The controller goes if the module created it. *)
Definition drop_controller m : option (machine X) :=
  if controller_created (kbd m) then m ← devmgr_unregister_device "ps2ctrl0" m; Some (set_created false m) else Some m.

(** The registrations of [module_init], each undone when a later one fails. *)
Definition create_controller m : option (Z * machine X) :=
  if devmgr_find "ps2ctrl0" m then Some (0, m)
  else
    '(r, m) ← devmgr_register_device "ps2ctrl0" "bus.ps2" "platform0" m;
    if r <? 0 then Some (-1, klog "ps2kbd.driver: failed to register controller" m) else Some (0, set_created true m).

Definition register_keyboard m : option (Z * machine X) :=
  '(r, m) ← devmgr_register_device "ps2kbd0" "input.keyboard" "ps2ctrl0" m;
  if r <? 0 then m ← drop_controller (klog "ps2kbd.driver: failed to register device" m); Some (-1, m)
  else Some (0, set_registered true m).

Definition register_poll m : option (Z * machine X) :=
  '(r, m) ← syscall_register_handler SYS_KBD_POLL "ps2kbd.poll" m;
  if r <? 0 then
    m ← devmgr_unregister_device "ps2kbd0" (klog "ps2kbd.driver: failed to register syscall handler" m);
    m ← drop_controller (set_registered false m); Some (-1, m)
  else Some (0, set_syscall true m).

Definition module_init m : option (Z * machine X) :=
  let m := Machine X (set_flags false false false (kbd m)) (io m) (mem m) (messages m) (others m) in
  '(r, m) ← create_controller m;
  if r <? 0 then Some (-1, m)
  else
    '(r, m) ← register_keyboard m;
    if r <? 0 then Some (-1, m)
    else
      '(r, m) ← register_poll m;
      if r <? 0 then Some (-1, m)
      else
        m ← vfs_write_file "/Devices/ps2kbd0.status" (lit "keyboard: ready" ++ [newline]) m;
        '(written, layout) ← kb_dump_layout (Some (replicate 512 0)) 512;
        m ← (if 0 <? written then vfs_write_file "/Devices/ps2kbd0.map" (take (Z.to_nat written) layout) m else Some m);
        Some (0, m).

Definition module_exit m : option (machine X) :=
  m ← (if syscall_registered (kbd m) then
         '(r, m) ← syscall_unregister_handler SYS_KBD_POLL m;
         Some (set_syscall false (if r <? 0 then klog "ps2kbd.driver: failed to unregister syscall handler" m else m))
       else Some m);
  m ← (if device_registered (kbd m) then m ← devmgr_unregister_device "ps2kbd0" m; Some (set_registered false m) else Some m);
  m ← drop_controller m;
  m ← vfs_remove "/Devices/ps2kbd0.status" m;
  vfs_remove "/Devices/ps2kbd0.map" m.

End device.

End Ps2kbd.

Module Ps2kbdProps.

Import Arrays Bytes Input InputProps Ps2kbd.

(** ** The queue of keys *)

Record fifo_is (d : driver) (q : list key_fifo_entry) (sh : bool) : Prop := {
  fi_cells : length (key_fifo d) = KEY_FIFO_CAPACITY;
  fi_head : (fifo_head d < KEY_FIFO_CAPACITY)%nat;
  fi_count : (length q ≤ 63)%nat;
  fi_tail : fifo_tail d = ((fifo_head d + length q) mod KEY_FIFO_CAPACITY)%nat;
  fi_queue : ring (key_fifo d) (fifo_head d) (length q) = q;
  fi_shift : shift_state d = sh
}.

Definition queued (e : key_fifo_entry) (q : list key_fifo_entry) : list key_fifo_entry := if (length q <? 63)%nat then q ++ [e] else q.

Lemma fifo_push_ok p c t d q sh : fifo_is d q sh → ∃ d', fifo_push p c t d = Some d' ∧ fifo_is d' (queued (Key p t c) q) sh.
Proof.
  intros [H1 H2 H3 H4 H5 H6]. unfold fifo_push, queued. rewrite H4, Nat.Div0.add_mod_idemp_l.
  replace (fifo_head d + length q + 1)%nat with (fifo_head d + (length q + 1))%nat by lia.
  destruct (Nat.ltb_spec (length q) 63) as [Hlt|Hge].
  - rewrite ring_index by (unfold KEY_FIFO_CAPACITY in *; lia).
    rewrite (proj2 (Nat.eqb_neq _ _)) by (case_decide; unfold KEY_FIFO_CAPACITY in *; lia).
    rewrite buf_store_ok by (rewrite H1; by apply Nat.mod_upper_bound). cbn [mbind option_bind]. eexists. split; [done|].
    constructor; cbn [key_fifo fifo_head fifo_tail shift_state set_fifo]; rewrite ?length_insert, ?length_app; cbn [length]; try done.
    + lia.
    + by rewrite ring_index by (unfold KEY_FIFO_CAPACITY in *; lia).
    + rewrite Nat.add_1_r, <- H1, ring_push by (unfold KEY_FIFO_CAPACITY in *; lia). by rewrite H5.
  - assert (length q = 63%nat) as -> by lia. replace (fifo_head d + (63 + 1))%nat with (fifo_head d + 1 * KEY_FIFO_CAPACITY)%nat by (unfold KEY_FIFO_CAPACITY; lia).
    rewrite Nat.Div0.mod_add, Nat.mod_small, Nat.eqb_refl by done. exists d. split; [done|]. by constructor.
Qed.

Lemma fifo_pop_nil d sh : fifo_is d [] sh → fifo_pop d = Some (None, d).
Proof. intros [_ H2 _ H4 _ _]. unfold fifo_pop. by rewrite H4, Nat.add_0_r, Nat.mod_small, Nat.eqb_refl. Qed.

Lemma fifo_pop_cons d e q sh : fifo_is d (e :: q) sh → ∃ d', fifo_pop d = Some (Some e, d') ∧ fifo_is d' q sh.
Proof.
  intros [H1 H2 H3 H4 H5 H6]. unfold fifo_pop. cbn [length] in *. rewrite H4, ring_index by (unfold KEY_FIFO_CAPACITY in *; lia).
  rewrite (proj2 (Nat.eqb_neq _ _)) by (case_decide; unfold KEY_FIFO_CAPACITY in *; lia).
  destruct (ring_pop (key_fifo d) (fifo_head d) (S (length q))) as (x & Hx & Hp); [lia|unfold KEY_FIFO_CAPACITY in *; lia|].
  rewrite Hp in H5. apply (inj2 cons) in H5 as [-> H5]. rewrite Hx. cbn [mbind option_bind]. eexists. split; [done|].
  constructor; cbn [key_fifo fifo_head fifo_tail shift_state set_fifo]; try done.
  - by apply Nat.mod_upper_bound.
  - lia.
  - rewrite Nat.Div0.add_mod_idemp_l, <- ring_index by (unfold KEY_FIFO_CAPACITY in *; lia). f_equal. lia.
  - by rewrite H1, Nat.sub_succ, Nat.sub_0_r in H5.
Qed.

Lemma fifo_shift d q sh b : fifo_is d q sh → fifo_is (set_shift b d) q b.
Proof. intros []. by constructor. Qed.

Lemma fifo_empty l d : length l = KEY_FIFO_CAPACITY → fifo_is (set_shift false (set_fifo l 0 0 d)) [] false.
Proof. intros Hl. constructor; cbn [key_fifo fifo_head fifo_tail shift_state set_fifo set_shift length]; done || (unfold KEY_FIFO_CAPACITY; lia). Qed.

(** ** Translation *)

(** The key that the payload of an event queues, if any, and the shift key after it. *)
Definition translated (sh : bool) (data : Z) : option Z * bool :=
  let code := data mod 256 in
  if 0x200 <=? data then (Some (if 0x100 <=? data mod 0x200 then 0 else default 0 (arrow code)), sh)
  else if is_shift code then (Some 0, data <? 0x100)
  else if 0x100 <=? data then (Some 0, sh)
  else if key sh code =? 0 then (None, sh) else (Some (key sh code), sh).

Definition after (sh : bool) (e : irq_event) (q : list key_fifo_entry) : list key_fifo_entry :=
  match (translated sh (ev_data e)).1 with Some c => queued (Key (ev_data e) (ev_timestamp e) c) q | None => q end.

(** What the code asks of a payload. *)
Definition payload_ok (data : Z) : Prop := 0 ≤ data < 0x400 ∧ data mod 256 < 128.

(** The code on a state of the shift key, without the queue. *)
Definition key_of (sh : bool) (data : Z) : option (option Z) * bool :=
  let scancode := u8 (Z.land data 0xFF) in
  let release := negb (Z.land data KB_EVENT_FLAG_RELEASE =? 0) in
  if negb (Z.land data KB_EVENT_FLAG_EXTENDED =? 0) then
    (Some (Some (if release then 0 else if scancode =? 0x48 then KB_KEY_ARROW_UP else if scancode =? 0x50 then KB_KEY_ARROW_DOWN else if scancode =? 0x4B then KB_KEY_ARROW_LEFT else if scancode =? 0x4D then KB_KEY_ARROW_RIGHT else 0)), sh)
  else if (scancode =? 0x2A) || (scancode =? 0x36) then (Some (Some 0), negb release)
  else if release then (Some (Some 0), sh)
  else if scancode =? 0x0E then (Some (Some backspace), sh)
  else if scancode =? 0x1C then (Some (Some newline), sh)
  else if 128 <=? scancode then (Some None, sh)
  else ((λ t, if t =? 0 then None else Some t) <$> (if sh then keymap_shift else keymap) !! Z.to_nat scancode, sh).

Lemma key_of_ok sh data : payload_ok data → key_of sh data = (Some (translated sh data).1, (translated sh data).2).
Proof.
  intros [H1 H2].
  assert (Hall : Forall (λ data, data mod 256 < 128 → key_of sh data = (Some (translated sh data).1, (translated sh data).2)) (seqZ 0 0x400)) by (destruct sh; by_eval).
  rewrite Forall_forall in Hall. apply Hall; [|done]. apply elem_of_seqZ. lia.
Qed.

Lemma handle_event_key e d : handle_event e d =
  match key_of (shift_state d) (ev_data e) with
  | (None, _) => None
  | (Some None, _) => Some d
  | (Some (Some c), sh) => fifo_push (ev_data e) c (ev_timestamp e) (set_shift sh d)
  end.
Proof.
  assert (Hd : set_shift (shift_state d) d = d) by by destruct d. unfold handle_event, key_of. cbv zeta.
  destruct (negb (Z.land (ev_data e) KB_EVENT_FLAG_EXTENDED =? 0)); [rewrite Hd; by repeat case_match|].
  destruct ((u8 (Z.land (ev_data e) 0xFF) =? 0x2A) || (u8 (Z.land (ev_data e) 0xFF) =? 0x36)); [done|].
  destruct (negb (Z.land (ev_data e) KB_EVENT_FLAG_RELEASE =? 0)); [by rewrite Hd|].
  destruct (u8 (Z.land (ev_data e) 0xFF) =? 0x0E); [by rewrite Hd|]. destruct (u8 (Z.land (ev_data e) 0xFF) =? 0x1C); [by rewrite Hd|].
  destruct (128 <=? u8 (Z.land (ev_data e) 0xFF)); [done|]. destruct ((if shift_state d then keymap_shift else keymap) !! Z.to_nat (u8 (Z.land (ev_data e) 0xFF))) as [t|]; [|done].
  cbn [mbind option_bind fmap option_fmap option_map]. destruct (t =? 0); [done|by rewrite Hd].
Qed.

Lemma handle_event_ok e d q sh : fifo_is d q sh → payload_ok (ev_data e) →
  ∃ d', handle_event e d = Some d' ∧ fifo_is d' (after sh e q) (translated sh (ev_data e)).2.
Proof.
  intros Hf Hp. rewrite handle_event_key, (fi_shift _ _ _ Hf), key_of_ok by done. unfold after.
  assert (Hn : (translated sh (ev_data e)).1 = None → (translated sh (ev_data e)).2 = sh) by (unfold translated; repeat case_match; done).
  destruct (translated sh (ev_data e)) as [[c|] sh']; cbn [fst snd] in *; [|exists d; by rewrite Hn].
  apply fifo_push_ok. by eapply fifo_shift.
Qed.

(** ** What scancodes raise, and what the keys of the events are *)

(** Scancodes with the ticks at which they come. *)
Abbreviation scancodes := (list (Z * Z)).

Definition opt_list {A} (o : option A) : list A := match o with Some x => [x] | None => [] end.

Fixpoint events_of (sh ex : bool) (cs : scancodes) : list irq_event :=
  match cs with
  | [] => []
  | (c, now) :: cs => let d := decode sh ex c in opt_list ((λ p, Event 1 p (u32 now)) <$> d_event d) ++ events_of (d_shift d) (d_ext d) cs
  end.

Fixpoint typed_by (sh ex : bool) (cs : scancodes) : list Z :=
  match cs with [] => [] | (c, _) :: cs => let d := decode sh ex c in opt_list (d_char d) ++ typed_by (d_shift d) (d_ext d) cs end.

Fixpoint flags_after (sh ex : bool) (cs : scancodes) : bool * bool :=
  match cs with [] => (sh, ex) | (c, _) :: cs => let d := decode sh ex c in flags_after (d_shift d) (d_ext d) cs end.

(** The keys that events queue behind [q]. *)
Fixpoint take_events (sh : bool) (l : list irq_event) (q : list key_fifo_entry) : list key_fifo_entry * bool :=
  match l with [] => (q, sh) | e :: l => take_events (translated sh (ev_data e)).2 l (after sh e q) end.

(** The characters of keys. *)
Definition chars_of (q : list key_fifo_entry) : list Z := filter (λ c, c ≠ 0) (map k_ch q).

Definition agrees (sh : bool) (dd : decoded) : Prop :=
  match d_event dd with
  | Some p => payload_ok p ∧ translated sh p = (Some (default 0 (d_char dd)), d_shift dd)
  | None => d_char dd = None ∧ d_shift dd = sh
  end ∧ d_char dd ≠ Some 0.

#[export] Instance agrees_dec sh dd : Decision (agrees sh dd).
Proof. unfold agrees, payload_ok. destruct (d_event dd); apply _. Defined.

(** The driver and the keyboard handler translate alike. *)
Lemma decode_agrees sh ex c : 0 ≤ c < 256 → agrees sh (decode sh ex c).
Proof.
  intros Hc. assert (Hall : Forall (λ c, agrees sh (decode sh ex c)) (seqZ 0 256)) by (destruct sh, ex; by_eval).
  rewrite Forall_forall in Hall. apply Hall, elem_of_seqZ. lia.
Qed.

Definition byte_codes (cs : scancodes) : Prop := Forall (λ x, 0 ≤ x.1 < 256) cs.

Lemma events_ok sh ex cs : byte_codes cs → Forall (λ e, payload_ok (ev_data e)) (events_of sh ex cs).
Proof.
  intros Hc. revert sh ex. induction Hc as [|[c now] cs Hc _ IH]; intros sh ex; cbn [events_of]; [constructor|]. apply Forall_app. split; [|apply IH].
  destruct (decode_agrees sh ex c Hc) as [Ha _]. destruct (d_event (decode sh ex c)); cbn; [|constructor]. constructor; [apply Ha|constructor].
Qed.

Lemma events_length sh ex cs : (length (events_of sh ex cs) ≤ length cs)%nat.
Proof.
  revert sh ex. induction cs as [|[c now] cs IH]; intros sh ex; [done|]. cbn [events_of length]. rewrite length_app.
  specialize (IH (d_shift (decode sh ex c)) (d_ext (decode sh ex c))). destruct (d_event _); cbn; lia.
Qed.

Lemma chars_queued e q : (length q < 63)%nat → chars_of (queued e q) = chars_of q ++ (if k_ch e =? 0 then [] else [k_ch e]) ∧ length (queued e q) = S (length q).
Proof.
  intros Hq. unfold queued. rewrite (proj2 (Nat.ltb_lt _ _)) by done. rewrite length_app. cbn [length]. split; [|lia].
  unfold chars_of. rewrite map_app, filter_app. f_equal. cbn [map]. destruct (k_ch e =? 0) eqn:E; bool_prop; [by rewrite filter_cons_False by auto|by rewrite filter_cons_True].
Qed.

(** The characters of the keys are those that the keyboard handler typed. *)
Lemma keys_typed sh ex cs q : byte_codes cs → (length q + length cs ≤ 63)%nat →
  chars_of (take_events sh (events_of sh ex cs) q).1 = chars_of q ++ typed_by sh ex cs ∧ (take_events sh (events_of sh ex cs) q).2 = (flags_after sh ex cs).1 ∧
  (length (take_events sh (events_of sh ex cs) q).1 ≤ length q + length cs)%nat.
Proof.
  intros Hc. revert sh ex q. induction Hc as [|[c now] cs Hc _ IH]; intros sh ex q Hq; [rewrite app_nil_r; split; [done|]; split; [done|cbn; lia]|].
  cbn [events_of typed_by flags_after length] in *. destruct (decode_agrees sh ex c Hc) as [Ha Hn]. destruct (d_event (decode sh ex c)) as [p|]; cbn [fmap option_fmap option_map opt_list app take_events ev_data].
  - destruct Ha as [_ Ha]. unfold after. cbn [ev_data ev_timestamp]. rewrite Ha. cbn [fst snd].
    destruct (chars_queued (Key p (u32 now) (default 0 (d_char (decode sh ex c)))) q) as [E1 E2]; [lia|].
    destruct (IH (d_shift (decode sh ex c)) (d_ext (decode sh ex c)) (queued (Key p (u32 now) (default 0 (d_char (decode sh ex c)))) q)) as (I1 & I2 & I3); [lia|].
    rewrite I1, E1, <- app_assoc. split; [|split; [done|lia]]. do 2 f_equal. cbn [k_ch]. revert Hn; destruct (d_char _) as [x|]; intros Hn; cbn; [|done]. destruct (Z.eqb_spec x 0) as [->|]; [by destruct Hn|done].
  - destruct Ha as [E1 E2]. rewrite E1, E2. cbn [opt_list app]. destruct (IH sh (d_ext (decode sh ex c)) q) as (I1 & I2 & I3); [lia|]. split; [done|]. split; [done|lia].
Qed.

(** ** The loops *)

Section device.
Context (box : nat).

Lemma process_ok n s a d q sh l : repr s a → (box < length (queues a))%nat → queues a !!! box = l → fifo_is d q sh →
  Forall (λ e, payload_ok (ev_data e)) l → (length l ≤ n)%nat →
  ∃ d' i', process_loop box n d (irq s) = Some (d', i') ∧ fifo_is d' (take_events sh l q).1 (take_events sh l q).2 ∧
    repr (In (kb s) i') (Board (chars a) (shift a) (ext a) (<[box := []]> (queues a)) (subs a)).
Proof using.
  revert s a d q sh l. induction n as [|n IH]; intros s a d q sh l Hr Hb Hq Hf Hl Hn.
  - destruct l; [|cbn in Hn; lia]. cbn [process_loop]. destruct (receive_ok s a box Hr Hb) as (i & -> & Hi). cbn [board_step] in Hi |- *. rewrite Hq in Hi |- *.
    cbn [mbind option_bind snd] in *. exists d, i. split; [done|]. split; [done|]. rewrite <- Hq, list_insert_id by (apply list_lookup_lookup_total_lt; done). by destruct a.
  - cbn [process_loop]. destruct (receive_ok s a box Hr Hb) as (i & -> & Hi). cbn [board_step] in Hi |- *. rewrite Hq in Hi |- *. destruct l as [|e l]; cbn [mbind option_bind snd fst] in *.
    + exists d, i. split; [done|]. split; [done|]. rewrite <- Hq, list_insert_id by (apply list_lookup_lookup_total_lt; done). by destruct a.
    + apply Forall_cons in Hl as [He Hl]. destruct (handle_event_ok e d q sh Hf He) as (d1 & -> & Hf1). cbn [mbind option_bind].
      destruct (IH _ _ d1 (after sh e q) (translated sh (ev_data e)).2 l Hi) as (d' & i' & E & F & R); [cbn [queues]; by rewrite length_insert|cbn [queues]; by rewrite list_lookup_total_insert_eq|done|done|cbn in Hn; lia|].
      exists d', i'. split; [exact E|]. split; [done|]. cbn [chars shift ext queues subs kb] in R. by rewrite list_insert_insert_eq in R.
Qed.

Lemma read_ok n room out d q sh : fifo_is d q sh → (length q ≤ n)%nat → (length (chars_of q) < room)%nat →
  ∃ d', read_loop n room out d = Some (out ++ chars_of q, d') ∧ fifo_is d' [] sh.
Proof using.
  revert room out d q. induction n as [|n IH]; intros room out d q Hf Hn Hr; (destruct room as [|room]; [lia|]); (destruct q as [|e q]; [|cbn in Hn; try lia]); cbn [read_loop]; change (S room =? 0)%nat with false; cbn iota.
  1,2: rewrite (fifo_pop_nil _ _ Hf); cbn [mbind option_bind]; exists d; by rewrite app_nil_r.
  destruct (fifo_pop_cons d e q sh Hf) as (d1 & -> & Hf1). cbn [mbind option_bind]. unfold chars_of in *. cbn [map] in *. destruct (k_ch e =? 0) eqn:E; bool_prop.
  - rewrite filter_cons_False in Hr |- * by auto. apply IH; [done|lia|done].
  - rewrite filter_cons_True in Hr |- * by done. cbn [length] in Hr. destruct (IH (S room - 1)%nat (out ++ [k_ch e]) d1 q Hf1) as (d' & -> & Hf'); [lia|lia|]. exists d'. by rewrite <- app_assoc.
Qed.

(** ** Rounds *)

(** Scancodes that come one after the other. *)
Fixpoint scan_all (cs : scancodes) (s : input) : option input :=
  match cs with [] => Some s | (c, now) :: cs => s ← keyboard_irq_handler c now s; scan_all cs s end.

Definition all_typed (q l : list Z) : list Z := foldl (λ q c, typed c q) q l.

Lemma deliver_at l e qs b : (b < length qs)%nat → b ∈ l → deliver l e qs !!! b = posted e (qs !!! b).
Proof using.
  intros Hb Hl. destruct (lookup_lt_is_Some_2 _ _ Hb) as [q Hq]. rewrite (list_lookup_total_correct _ _ _ Hq). apply list_lookup_total_correct.
  unfold deliver. rewrite list_lookup_imap, Hq. cbn. by rewrite decide_True.
Qed.

Lemma scan_all_ok cs s a : repr s a → byte_codes cs → (box < length (queues a))%nat → box ∈ subs a !!! 1%nat → (length (queues a !!! box) + length cs ≤ 32)%nat →
  ∃ s' a', scan_all cs s = Some s' ∧ repr s' a' ∧ queues a' !!! box = queues a !!! box ++ events_of (shift a) (ext a) cs ∧
    chars a' = all_typed (chars a) (typed_by (shift a) (ext a) cs) ∧ (shift a', ext a') = flags_after (shift a) (ext a) cs ∧ subs a' = subs a ∧ length (queues a') = length (queues a).
Proof using.
  intros Hr Hc. revert s a Hr. induction Hc as [|[c now] cs Hc _ IH]; intros s a Hr Hb Hs Hq; [exists s, a; by rewrite app_nil_r|]. cbn [scan_all events_of typed_by flags_after length fst] in *.
  destruct (scan_ok s a c now Hr Hc) as (s1 & E & Hr1). unfold keyboard_irq_handler. rewrite E. cbn [mbind option_bind]. clear E. set (d := decode (shift a) (ext a) c) in *.
  set (a1 := (board_step a (Scan c now)).2) in *. assert (Hlen : length (queues a1) = length (queues a)) by apply board_step_queues.
  assert (Hq1 : queues a1 !!! box = queues a !!! box ++ opt_list ((λ p, Event 1 p (u32 now)) <$> d_event d)).
  { unfold a1. cbn [board_step snd queues]. fold d. destruct (d_event d); cbn [fmap option_fmap option_map opt_list]; [|by rewrite app_nil_r].
    rewrite deliver_at by done. unfold posted. by rewrite (proj2 (Nat.leb_gt _ _)) by (unfold IRQ_MAILBOX_CAPACITY; lia). }
  destruct (IH s1 a1 Hr1) as (s' & a' & E & R & Q & C & F & S & L); [by rewrite Hlen|done|rewrite Hq1, length_app; destruct (d_event d); cbn; lia|].
  exists s', a'. split; [done|]. split; [done|]. change (shift a1) with (d_shift d) in *. change (ext a1) with (d_ext d) in *.
  split; [by rewrite Q, Hq1, <- app_assoc|]. split; [|split; [done|split; [done|by rewrite L]]].
  rewrite C. unfold all_typed. rewrite foldl_app. f_equal. unfold a1. cbn [board_step snd chars]. fold d. by destruct (d_char d).
Qed.

Lemma typed_length sh ex cs : (length (typed_by sh ex cs) ≤ length cs)%nat.
Proof using.
  revert sh ex. induction cs as [|[c now] cs IH]; intros sh ex; [done|]. cbn [typed_by length]. rewrite length_app.
  specialize (IH (d_shift (decode sh ex c)) (d_ext (decode sh ex c))). destruct (d_char _); cbn; lia.
Qed.

Context {X : Type}.
Implicit Types m : machine X.

(** Scancodes, and a read of the device. *)
Definition round (room : nat) (cs : scancodes) m : option (Z * list Z * machine X) :=
  s ← scan_all cs (io m); keyboard_read box (Some room) (set_io s m).

Fixpoint rounds (room : nat) (l : list scancodes) m : option (list (Z * list Z) * machine X) :=
  match l with
  | [] => Some ([], m)
  | cs :: l => '(r, out, m) ← round room cs m; '(xs, m) ← rounds room l m; Some ((r, out) :: xs, m)
  end.

(** What each read is to return. *)
Fixpoint reads (sh ex : bool) (l : list scancodes) : list (Z * list Z) :=
  match l with
  | [] => []
  | cs :: l => let out := typed_by sh ex cs in (if (0 <? length out)%nat then 0 else -1, out) :: reads (flags_after sh ex cs).1 (flags_after sh ex cs).2 l
  end.

(** The device waits for keys, in step with the keyboard. *)
Record ready m (a : board) : Prop := {
  rd_io : repr (io m) a;
  rd_fifo : fifo_is (kbd m) [] (shift a);
  rd_box : (box < length (queues a))%nat;
  rd_sub : box ∈ subs a !!! 1%nat;
  rd_queue : queues a !!! box = []
}.

Lemma pending_ok m a sh l : repr (io m) a → (box < length (queues a))%nat → queues a !!! box = l → fifo_is (kbd m) [] sh → Forall (λ e, payload_ok (ev_data e)) l → (length l ≤ 32)%nat →
  ∃ d i, process_pending_events box (kbd m) (irq (io m)) = Some (d, i) ∧ fifo_is d (take_events sh l []).1 (take_events sh l []).2 ∧
    repr (In (kb (io m)) i) (Board (chars a) (shift a) (ext a) (<[box := []]> (queues a)) (subs a)).
Proof using. intros Hr Hb Hq Hf Hl Hn. by apply process_ok. Qed.

Lemma drain_ok room d q sh : fifo_is d q sh → (length (chars_of q) < room)%nat → ∃ d', read_loop KEY_FIFO_CAPACITY room [] d = Some (chars_of q, d') ∧ fifo_is d' [] sh.
Proof using. intros Hf Hr. apply (read_ok KEY_FIFO_CAPACITY room [] d q sh Hf); [|done]. pose proof (fi_count _ _ _ Hf). unfold KEY_FIFO_CAPACITY. lia. Qed.

Lemma bind_ret {A B} (f : A → option B) x : Some x ≫= f = f x.
Proof using. done. Qed.

Lemma keyboard_read_eq room m d i out d' : process_pending_events box (kbd m) (irq (io m)) = Some (d, i) → read_loop KEY_FIFO_CAPACITY (S room) [] d = Some (out, d') →
  keyboard_read box (Some (S room)) m = Some (if (0 <? length out)%nat then 0 else -1, out, set_kbd d' i m).
Proof using. intros E1 E2. unfold keyboard_read. rewrite E1, bind_ret. cbn beta iota. by rewrite E2, bind_ret. Qed.

(** A read of the device takes all that is pending. *)
Lemma keyboard_read_ok room m a sh l : repr (io m) a → (box < length (queues a))%nat → queues a !!! box = l → fifo_is (kbd m) [] sh → Forall (λ e, payload_ok (ev_data e)) l → (length l ≤ 32)%nat →
  let out := chars_of (take_events sh l []).1 in (length out < room)%nat →
  ∃ d i, keyboard_read box (Some room) m = Some (if (0 <? length out)%nat then 0 else -1, out, set_kbd d i m) ∧ fifo_is d [] (take_events sh l []).2 ∧
    repr (In (kb (io m)) i) (Board (chars a) (shift a) (ext a) (<[box := []]> (queues a)) (subs a)).
Proof using.
  intros Hr Hb Hq Hf Hl Hn out Hroom. destruct (pending_ok m a sh l Hr Hb Hq Hf Hl Hn) as (d2 & i2 & E2 & F2 & R2).
  destruct room as [|room]; [lia|]. destruct (drain_ok (S room) d2 _ _ F2 Hroom) as (d3 & E3 & F3). exists d3, i2. split; [|by split].
  by apply (keyboard_read_eq room m d2 i2 out d3).
Qed.

Lemma round_ok room cs m a : ready m a → byte_codes cs → (length cs ≤ 32 < room)%nat →
  let out := typed_by (shift a) (ext a) cs in
  ∃ m' a', round room cs m = Some (if (0 <? length out)%nat then 0 else -1, out, m') ∧ ready m' a' ∧ chars a' = all_typed (chars a) out ∧
    (shift a', ext a') = flags_after (shift a) (ext a) cs.
Proof using.
  intros [Hr Hf Hb Hs Hq] Hc [Hlen Hroom] out. unfold round. destruct (scan_all_ok cs (io m) a Hr Hc Hb Hs) as (s1 & a1 & -> & R1 & Q1 & C1 & F1 & S1 & L1); [rewrite Hq; cbn; lia|].
  rewrite Hq in Q1. change ([] ++ events_of (shift a) (ext a) cs) with (events_of (shift a) (ext a) cs) in Q1. cbn [mbind option_bind].
  destruct (keys_typed (shift a) (ext a) cs [] Hc) as (K1 & K2 & K3); [cbn; lia|]. change (chars_of [] ++ typed_by (shift a) (ext a) cs) with out in K1.
  pose proof (typed_length (shift a) (ext a) cs) as Ht. fold out in Ht. pose proof (events_length (shift a) (ext a) cs) as He.
  destruct (keyboard_read_ok room (set_io s1 m) a1 (shift a) _ R1 ltac:(by rewrite L1) Q1 Hf (events_ok _ _ _ Hc)) as (d & i & E & F & R); [lia|rewrite K1; lia|].
  rewrite K1 in E. rewrite K2, <- F1 in F. rewrite E. eexists. exists (Board (chars a1) (shift a1) (ext a1) (<[box:=[]]> (queues a1)) (subs a1)). split; [done|]. split; [|split; [exact C1|exact F1]].
  constructor; cbn [io kbd set_kbd shift queues subs kb set_io]; [exact R|exact F|by rewrite length_insert, L1|by rewrite S1|by rewrite list_lookup_total_insert_eq by by rewrite L1].
Qed.

Lemma kb_init_ok h s a : repr s a → ∃ s', kb_init h s = Some s' ∧ repr s' (Board [] false false (queues a) (subs a)).
Proof using.
  intros Hr. unfold kb_init, irq_install_handler. change (line 1) with (Some 1%nat). cbn iota. destruct (subs_at s a 1 Hr) as (slot & Hslot & Hsu); [unfold IRQ_MAX_LINES; lia|].
  rewrite Hslot. cbn [mbind option_bind]. eexists. split; [done|].
  assert (Hsl : subs_are (length (queues a)) (Slot (Some h) (shared slot) (mailboxes slot)) (subs a !!! 1%nat)) by (destruct Hsu; by constructor).
  pose proof (subs_upd s a 1 _ _ (command (PicClearMask 1) (Input.set_slot 1 (Slot (Some h) (shared slot) (mailboxes slot)) (irq s))) Hr ltac:(unfold IRQ_MAX_LINES; lia) Hsl eq_refl eq_refl) as H1.
  rewrite list_insert_id in H1 by (apply list_lookup_lookup_total_lt; rewrite (re_lines _ _ Hr); unfold IRQ_MAX_LINES; lia).
  eapply (repr_upd _ _ (Keyboard (buffer (kb s)) 0 0 false false) _ [] false false) in H1; [exact H1| |apply H1|done|done].
  constructor; cbn [buffer head tail shift_active extended_active length]; [apply (re_kb _ _ Hr)|..]; done || (unfold KB_BUFFER_SIZE; lia).
Qed.

Lemma subscribe_line s a : repr s a → (box < length (queues a))%nat →
  box ∈ subs a !!! 1%nat ∨ (size (subs a !!! 1%nat) < IRQ_MAX_MAILBOX_SUBSCRIBERS)%nat →
  ∃ i l, irq_mailbox_subscribe KB_IRQ_LINE (Some box) (irq s) = Some (0, i) ∧ repr (In (kb s) i) (Board (chars a) (shift a) (ext a) (queues a) l) ∧ box ∈ l !!! 1%nat.
Proof using.
  intros Hr Hb Hs. destruct (subscribe_ok s a KB_IRQ_LINE box Hr Hb) as (i & E & R & _). exists i. rewrite E. clear E. revert R. cbn [board_step]. change (line KB_IRQ_LINE) with (Some 1%nat). cbn iota.
  destruct (decide (box ∈ subs a !!! 1%nat)) as [Hin|Hin]; intros R.
  - exists (subs a). split; [done|]. split; [|done]. by destruct a.
  - destruct Hs as [Hs|Hs]; [done|]. rewrite (proj2 (Nat.ltb_lt _ _) Hs) in R |- *. eexists. split; [done|]. split; [exact R|].
    rewrite list_lookup_total_insert_eq by (rewrite (re_lines _ _ Hr); unfold IRQ_MAX_LINES; lia). set_solver.
Qed.

(** Starting the device subscribes its mailbox and resets both sides. *)
Lemma keyboard_start_ok h m a : repr (io m) a → length (key_fifo (kbd m)) = KEY_FIFO_CAPACITY → (box < length (queues a))%nat →
  box ∈ subs a !!! 1%nat ∨ (size (subs a !!! 1%nat) < IRQ_MAX_MAILBOX_SUBSCRIBERS)%nat →
  ∃ m' a', keyboard_start box h m = Some (0, m') ∧ ready m' a' ∧ chars a' = [] ∧ shift a' = false ∧ ext a' = false.
Proof using.
  intros Hr Hl Hb Hs. unfold keyboard_start. destruct (flush_ok (io m) a box Hr Hb) as (i1 & E1 & R1). change (irq_mailbox_flush (Some box) (irq (io m))) with (irq_mailbox_init (Some box) (irq (io m))) in E1.
  rewrite E1, bind_ret. set (a1 := (board_step a (Flush box)).2) in R1. assert (Hb1 : (box < length (queues a1))%nat) by (cbn; by rewrite length_insert).
  destruct (subscribe_line _ a1 R1 Hb1 Hs) as (i2 & l & E2 & R2 & Hin). cbn [irq] in E2. rewrite E2, bind_ret. change (0 <? 0) with false. cbn beta iota zeta.
  destruct (kb_init_ok h _ _ R2) as (s3 & E3 & R3). cbn [kb] in E3. cbn [io set_kbd]. rewrite E3, bind_ret. eexists. exists (Board [] false false (queues a1) l). split; [done|]. split; [|by repeat split].
  constructor; cbn [io kbd klog set_io set_kbd shift queues subs]; [exact R3|by apply fifo_empty|exact Hb1|exact Hin|by apply list_lookup_total_insert_eq].
Qed.

Lemma rounds_ok room l m a : ready m a → Forall (λ cs, byte_codes cs ∧ (length cs ≤ 32)%nat) l → (32 < room)%nat →
  ∃ m' a', rounds room l m = Some (reads (shift a) (ext a) l, m') ∧ ready m' a' ∧ chars a' = all_typed (chars a) (concat (map snd (reads (shift a) (ext a) l))).
Proof using.
  intros Hm Hl Hroom. revert m a Hm. induction Hl as [|cs l [Hc Hn] _ IH]; intros m a Hm; [by exists m, a|]. cbn [rounds reads map concat snd].
  destruct (round_ok room cs m a Hm Hc (conj Hn Hroom)) as (m1 & a1 & -> & H1 & C1 & F1). rewrite bind_ret. cbn beta iota.
  destruct (IH m1 a1 H1) as (m2 & a2 & -> & H2 & C2). rewrite bind_ret, <- F1. cbn [fst snd]. exists m2, a2. split; [done|]. split; [done|].
  unfold all_typed in *. by rewrite foldl_app, <- C1.
Qed.

(** C31: After the keyboard device has been started, reads of it return in their order exactly
    the characters that the scancodes type, with the status 0 when there are any and -1
    otherwise; the queue of the keyboard itself, which translates the scancodes on its own,
    gets the same characters, as far as it has room for them (255 characters).  Between two
    reads there may be up to 32 scancodes, as many as the mailbox has room for events, and
    every read has room for more than 32 bytes. *)
Theorem device_reads_typed h m a room l :
  repr (io m) a → length (key_fifo (kbd m)) = KEY_FIFO_CAPACITY → (box < length (queues a))%nat →
  box ∈ subs a !!! 1%nat ∨ (size (subs a !!! 1%nat) < IRQ_MAX_MAILBOX_SUBSCRIBERS)%nat →
  Forall (λ cs, byte_codes cs ∧ (length cs ≤ 32)%nat) l → (32 < room)%nat →
  ∃ m1 m2, keyboard_start box h m = Some (0, m1) ∧ rounds room l m1 = Some (reads false false l, m2) ∧
    ∃ sh ex, kb_is (Input.kb (io m2)) (all_typed [] (concat (map snd (reads false false l)))) sh ex.
Proof using.
  intros Hr Hf Hb Hs Hl Hroom. destruct (keyboard_start_ok h m a Hr Hf Hb Hs) as (m1 & a1 & E1 & R1 & C1 & S1 & X1). destruct (rounds_ok room l m1 a1 R1 Hl Hroom) as (m2 & a2 & E2 & R2 & C2).
  rewrite S1, X1, C1 in *. exists m1, m2. split; [done|]. split; [done|]. exists (shift a2), (ext a2). rewrite <- C2. apply (re_kb _ _ (rd_io _ _ R2)).
Qed.

End device.

(** ** A keyboard *)

Definition demo_input : input := default (boot_input 1) (kb_init 0 (boot_input 1)).
Definition demo_machine : machine unit := Machine unit (Driver (replicate KEY_FIFO_CAPACITY (Key 0 0 0)) 0 0 false false false false) demo_input ∅ [] ().

Lemma demo_repr : repr (io demo_machine) (boot_board 1).
Proof. destruct (boot_repr 1 0) as (s & Hs & Hr). unfold demo_machine, demo_input. cbn [io]. by rewrite Hs. Qed.

(** Shift and A, B, and nothing. *)
Lemma device_reads_typed_witness : ∃ m1 m2, keyboard_start 0 0 demo_machine = Some (0, m1) ∧
  rounds 0 64 [[(0x2A, 0); (0x1E, 1); (0xAA, 2)]; [(0x30, 3)]; []] m1 = Some ([(0, [65]); (0, [98]); (-1, [])], m2).
Proof.
  destruct (device_reads_typed 0 0 demo_machine (boot_board 1) 64 [[(0x2A, 0); (0x1E, 1); (0xAA, 2)]; [(0x30, 3)]; []] demo_repr) as (m1 & m2 & E1 & E2 & _).
  - reflexivity.
  - cbn. lia.
  - right. change (boot_board 1) with (Board [] false false [[]] (replicate IRQ_MAX_LINES ∅)). cbn [subs]. change (replicate IRQ_MAX_LINES (∅ : gset nat) !!! 1%nat) with (∅ : gset nat). rewrite size_empty. unfold IRQ_MAX_MAILBOX_SUBSCRIBERS. lia.
  - repeat (constructor; [split; [repeat constructor; cbn; lia|cbn; lia]|]). constructor.
  - lia.
  - exists m1, m2. split; [exact E1|exact E2].
Defined.

(** When the release of the shift key is among the events that the mailbox drops, the device
    goes on in capital letters while the keyboard itself types small ones. *)
Theorem dropped_release_sticks :
  let l := [[(0x2A, 0); (0x1E, 0)]; (0xAA, 0) :: concat (replicate 16 [(0x30, 0); (0xB0, 0)])] in
  (λ x, x.1) <$> ('(_, m) ← keyboard_start 0 0 demo_machine; rounds 0 64 l m) = Some [(0, [65]); (0, replicate 16 66)] ∧
  reads false false l = [(0, [65]); (0, replicate 16 98)].
Proof. split; by vm_compute. Qed.

(** A poll that is not refused returns 0 whether there was a key or not, and
    [syscall_handler] stores that ([Syscall.set_result]) over the result 1 in the envelope. *)
Theorem poll_result_lost {X} box msg (m m' : machine X) r : sys_kbd_poll box (Some msg) m = Some (r, m') →
  r = 0 ∨ r = -1 ∧ kbd m' = kbd m.
Proof.
  unfold sys_kbd_poll. intros E. destruct (_ <? 1); [injection E as <- <-; by right|]. destruct (_ =? 0); [injection E as <- <-; by right|].
  destruct (negb _); [injection E as <- <-; by right|]. left. destruct (process_pending_events _ _ _) as [[d i]|]; [|done]. cbn [mbind option_bind] in E.
  destruct (fifo_pop d) as [[[e|] d']|]; [| |done]; cbn [mbind option_bind] in E; by injection E as <- <-.
Qed.

End Ps2kbdProps.
