(* ===== verification/Examples.v ===== *)
(** Concrete states and runs that instantiate the theorems: two hosts on a wire, a machine
    with three disks, a small FAT volume, a process that makes system calls, a tree of
    devices, a relocatable object. *)

From S2P Require Import Prelude Arrays Bytes Net NetSpec NetProps NetRun.

(** Two hosts on a wire: concrete states and runs that instantiate the theorems
    about the network stack. *)
Module NetExamples.

Import Arrays Bytes Net NetSum NetSpec NetLayers NetProps NetRun.

Definition mac_a : list Z := [2; 0; 0; 0; 0; 1].
Definition mac_b : list Z := [2; 0; 0; 0; 0; 2].
Definition ip_a : list Z := [10; 0; 0; 1].
Definition ip_b : list Z := [10; 0; 0; 2].
Definition card (m : list Z) : net_device := NetDevice m true true.

(** A host with an address. *)
Definition fresh_host (m ip : list Z) : net :=
  set_ipv4 ip 0 (replicate (IPV4_HEADER + 1500) 0) (boot_net [card m]).

(** A host that knows one other. *)
Definition host (m ip peer_ip peer_mac : list Z) : net :=
  set_cache (<[0%nat := ArpEntry (Some 0%nat) peer_ip peer_mac 0]> (replicate ARP_CACHE_CAPACITY boot_entry)) (fresh_host m ip).

(** A driver that takes every frame. *)
Definition accept : nat → list (nat * list Z) → list Z → Z := λ _ _ _, 0.

Lemma fresh_host_wf m ip : length m = 6%nat → bytes m → length ip = 4%nat → bytes ip → wf (fresh_host m ip).
Proof.
  intros. apply wf_set_ipv4; try done. apply boot_net_wf. by repeat constructor.
Qed.

Lemma host_wf m ip pip pm :
  length m = 6%nat → bytes m → length ip = 4%nat → bytes ip → length pip = 4%nat → bytes pip → length pm = 6%nat → bytes pm →
  wf (host m ip pip pm).
Proof.
  intros. pose proof (fresh_host_wf m ip ltac:(done) ltac:(done) ltac:(done) ltac:(done)) as Hf.
  unfold host. apply (insert_entry (fresh_host m ip) 0 boot_entry (ArpEntry (Some 0%nat) pip pm 0) 0); try done.
  - unfold wf_entry; cbn. repeat split; try done; try lia. intros d [= <-]. lia.
  - intros j ej Hj Hd. change (g_cache _) with (replicate ARP_CACHE_CAPACITY boot_entry) in Hj. apply lookup_replicate in Hj as [-> _]. done.
Qed.

Ltac solve_bytes := first [done | by_eval].

Definition host_a : net := host mac_a ip_a ip_b mac_b.
Definition host_b : net := host mac_b ip_b ip_a mac_a.

Lemma host_a_wf : wf host_a.
Proof. apply host_wf; solve_bytes. Qed.

Lemma host_b_wf : wf host_b.
Proof. apply host_wf; solve_bytes. Qed.

(** A ping from A to B, with the frames in buffers of 64 bytes. *)
Lemma ping_roundtrip_witness :
  returns (icmp_send_echo_request accept (Some 0%nat) (Some ip_b) 7 1 host_a) (λ '(_, sa1),
    ∃ f1, sent sa1 = [(0%nat, f1)] ∧
    returns (net_receive_frame accept (Some 0%nat) (Some (f1 ++ replicate 22 0)) (Z.of_nat (length f1)) host_b) (λ '(_, sb1),
      ∃ f2, sent sb1 = [(0%nat, f2)] ∧
      returns (net_receive_frame accept (Some 0%nat) (Some (f2 ++ replicate 22 0)) (Z.of_nat (length f2)) sa1) (λ '(r, sa2),
        r = 0 ∧ ∃ sa3, icmp_take_echo_reply 7 1 sa2 = Some (Some (EchoReply 7 1 ip_b), sa3)))).
Proof.
  pose proof (ping_roundtrip accept accept host_a host_b 0 0 (card mac_a) (card mac_b) mac_a mac_b 7 1
    host_a_wf host_b_wf eq_refl eq_refl eq_refl eq_refl eq_refl eq_refl ltac:(lia) ltac:(lia)) as H.
  eapply returns_mono; [exact H|]. intros [r1 sa1] (f1 & Hs1 & H1). exists f1. split; [exact Hs1|].
  eapply returns_mono; [apply (H1 (replicate 22 0)); rewrite length_app; lia|]. intros [r2 sb1] (f2 & Hs2 & H2).
  exists f2. split; [exact Hs2|]. eapply returns_mono; [apply (H2 (replicate 22 0)); rewrite length_app; lia|].
  intros [r sa2] (Hr & _ & [e sa3] & E & _ & Ht). split; [exact Hr|]. exists sa3. rewrite E. destruct Ht as [-> _]; [constructor|reflexivity].
Defined.

(** A host that knows nobody resolves the address of the other. *)
Lemma arp_exchange_witness :
  returns (arp_resolve accept (Some 0%nat) (Some ip_b) (fresh_host mac_a ip_a)) (λ '(_, _, sa1),
    ∃ f1, sent sa1 = [(0%nat, f1)] ∧
    returns (net_receive_frame accept (Some 0%nat) (Some (f1 ++ [])) (Z.of_nat (length f1)) (fresh_host mac_b ip_b)) (λ '(_, sb1),
      arp_cache_lookup 0 ip_a sb1 = Some mac_a ∧
      ∃ f2, sent sb1 = [(0%nat, f2)] ∧
      returns (net_receive_frame accept (Some 0%nat) (Some (f2 ++ [])) (Z.of_nat (length f2)) sa1) (λ '(r, sa2),
        r = 0 ∧ arp_cache_lookup 0 ip_b sa2 = Some mac_b))).
Proof.
  pose proof (arp_exchange accept accept (fresh_host mac_a ip_a) (fresh_host mac_b ip_b) 0 0 (card mac_a) (card mac_b) ip_b
    ltac:(apply fresh_host_wf; solve_bytes) ltac:(apply fresh_host_wf; solve_bytes)
    eq_refl eq_refl eq_refl eq_refl eq_refl ltac:(solve_bytes) eq_refl) as H.
  eapply returns_mono; [exact H|]. intros [[r1 m1] sa1] (f1 & Hs1 & H1). exists f1. split; [exact Hs1|].
  eapply returns_mono; [apply (H1 []); rewrite length_app; lia|]. intros [r2 sb1] (Hc & f2 & Hs2 & H2).
  split; [exact Hc|]. exists f2. split; [exact Hs2|]. apply (H2 []). rewrite length_app. lia.
Defined.

Lemma arp_cache_correct_witness :
  returns (arp_cache_store 0 [10; 0; 0; 9] mac_b host_a) (λ s', wf s' ∧ arp_cache_lookup 0 [10; 0; 0; 9] s' = Some mac_b).
Proof.
  eapply returns_mono; [apply (arp_cache_correct host_a 0 [10; 0; 0; 9] mac_b host_a_wf); first [cbn; lia | solve_bytes]|].
  intros s' (Hw & Hl & _). split; [exact Hw|exact Hl].
Defined.

(** The header of the first packet of host A does not verify at a receiver. *)
Lemma sent_checksum_order_witness :
  returns (ipv4_send accept (Some 0%nat) (Some ip_b) 1 (Some [1; 2; 3]) 3 host_a) (λ '(_, s'),
    ∃ f, sent s' = [(0%nat, f)] ∧ ipv4_checksum (take 20 (drop 14 f)) ≠ Some 0).
Proof.
  pose proof (sent_checksum_order accept host_a 0 (card mac_a) ip_b mac_b 1 [1; 2; 3] 3
    host_a_wf eq_refl eq_refl eq_refl ltac:(solve_bytes) ltac:(done) eq_refl ltac:(lia) ltac:(cbn; lia)) as H.
  destruct H as ([r s'] & Hdo & f & sum & Hs & _). exists (r, s'). split; [exact Hdo|]. exists f. split; [exact Hs|].
  intros Hz. vm_compute in Hdo. injection Hdo as <- <-. vm_compute in Hs. injection Hs as <-. vm_compute in Hz. discriminate Hz.
Defined.

(** A frame of 34 bytes; an old echo reply behind it in the buffer is recorded. *)
Lemma short_total_reads_on_witness :
  let f := frame mac_a mac_b ETHERTYPE_IPV4 (ipv4_packet 0 0 1 ip_b ip_a 0 []) in
  length f = 34%nat ∧
  ethernet_process_frame accept (Some 0%nat) (Some (f ++ [0; 0; 0; 0; 0; 9; 0; 9])) 34 host_a =
    icmp_receive accept (Some 0%nat) (Some [0; 0; 0; 0; 0; 9; 0; 9]) 4294967276 (Some ip_b) host_a.
Proof. exact (short_total_reads_on accept host_a 0 mac_a mac_b 0 0 ip_b ip_a 0 [0; 0; 0; 0; 0; 9; 0; 9] eq_refl eq_refl eq_refl eq_refl ltac:(lia)). Defined.

(** A run with a socket: a frame arrives and is received, and a poll brings another. *)
Definition socket_run : list net_op :=
  [OInit; ORegister (Some 0%nat); OOpen; OReceive (Some 0%nat) (Some (replicate 1600 0)) 60; ORecv 1 true 2000;
   OPoll (fun _ => ([(replicate 1600 0, 60)], 1)); OClose 1].

Lemma socket_run_valid : Forall (valid_op 1) socket_run.
Proof.
  unfold socket_run. repeat (apply Forall_cons; split; [|]); try apply Forall_nil; try done; unfold valid_op.
  - intros d [= <-]. lia.
  - split; [intros d [= <-]; lia|]. split; [lia|]. intros q Hq. apply (inj Some) in Hq as <-. rewrite length_replicate.
    split; [apply Nat.leb_le; by vm_compute|by apply bytes_replicate].
  - intros d. apply Forall_singleton. split; [cbn; lia|]. intros q Hq. apply (inj Some) in Hq as <-. cbn [fst]. rewrite length_replicate.
    split; [apply Nat.leb_le; by vm_compute|by apply bytes_replicate].
Qed.

Lemma net_run_safe_witness : ∃ s', net_run accept socket_run (boot_net [card mac_a]) = Some s' ∧ wf s'.
Proof.
  apply net_run_safe; [apply boot_net_wf; constructor; [split; solve_bytes|constructor]|exact socket_run_valid].
Defined.

Lemma raw_sockets_refine_witness :
  ∃ r data s', net_do accept OOpen host_a = Some (r, data, s') ∧ wf s'.
Proof.
  destruct (raw_sockets_refine accept host_a OOpen host_a_wf I) as (r & data & s' & H & Hw & _). exists r, data, s'. split; [exact H|exact Hw].
Defined.

End NetExamples.

From S2P Require Import Prelude Arrays Memory Bytes Block BlockProps BlockVolumes.

(** A machine with three disks, one of them partitioned: concrete states that
    instantiate the theorems about block devices. *)
Module BlockExamples.

Import Arrays Bytes Block BlockProps BlockVolumes.

(** The variables as the kernel image has them. *)
Definition boot_blocks : blocks := BlockState (replicate BLOCKDEV_MAX_DEVICES zero_device) 0 [] Memory.memory_init [].
Definition boot_volumes : volmgr := VolState (replicate VOLMGR_MAX_VOLUMES empty_volume) 0 [].

Lemma boot_blocks_wf : BlockProps.wf boot_blocks.
Proof. constructor; [done|cbn; lia|]. intros i d [Hi _]. cbn in Hi. lia. Qed.

Lemma boot_volumes_wf : vol_wf boot_volumes.
Proof. apply (reset_table_wf boot_volumes). done. Qed.

Definition disk_desc (n : string) (id : nat) : blockdev_descriptor := Descriptor (Some (lit n)) 512 1000 (DiskDriver id true true) 0.

Definition add (d : blockdev_descriptor) (s : blocks) : blocks :=
  match blockdev_register (Some d) s with Some (_, _, s') => s' | None => s end.

Lemma add_disk_wf n id s : BlockProps.wf s → BlockProps.wf (add (disk_desc n id) s).
Proof.
  intros Hs. destruct (register_wf s (disk_desc n id) (lit n) Hs eq_refl I) as ([[r o] s'] & Hr & Hw & _).
  unfold add. by rewrite Hr.
Qed.

Definition machine : blocks := add (disk_desc "disk2" 2) (add (disk_desc "disk1" 1) (add (disk_desc "disk0" 0) boot_blocks)).

Lemma machine_wf : BlockProps.wf machine.
Proof. do 3 apply add_disk_wf. apply boot_blocks_wf. Qed.

(** A boot sector with two partitions, on disk 1. *)
Definition entry_bytes (type start len : Z) : list Z := [0; 0; 0; 0; type; 0; 0; 0] ++ le32 start ++ le32 len.
Definition boot_sector : list Z := replicate 446 0 ++ entry_bytes 6 1 100 ++ entry_bytes 6 101 200 ++ replicate 32 0 ++ [0x55; 0xAA].
Definition disks : ram_disks := λ id l j, if bool_decide (id = 1%nat ∧ l = 0) then nth (Z.to_nat j) boot_sector 0 else 0.

Definition disk1 : block_device := BlockDevice (lit "disk1") 512 1000 (DiskDriver 1 true true) 0 false.

Definition scanned : blocks := default machine (partition_scan_device (Some 1%nat) disks machine).
Definition part1 : extent := Extent 1 true true 1000 1 100.
Definition part2 : extent := Extent 1 true true 1000 101 200.

Lemma scanned_wf : BlockProps.wf scanned.
Proof.
  destruct (scan_device_ok machine 1 disk1 disks machine_wf) as (s' & Hr & Hw & _).
  - split; [vm_compute; lia|vm_compute; reflexivity].
  - unfold scanned. by rewrite Hr.
Qed.

Lemma part1_of : partition_of scanned 3 part1.
Proof. do 5 eexists. repeat (split; [vm_compute; reflexivity|]). cbn. lia. Qed.

Lemma part2_of : partition_of scanned 4 part2.
Proof. do 5 eexists. repeat (split; [vm_compute; reflexivity|]). cbn. lia. Qed.

Lemma partition_scan_correct_witness :
  ∃ s', partition_scan_device (Some 1%nat) disks machine = Some s' ∧ BlockProps.wf s' ∧ device_count s' = 5%nat ∧
    partition_of s' 4 part2.
Proof.
  destruct (partition_scan_correct machine 1 disk1 1 0 true disks boot_sector) as (s' & Hr & Hw & _ & Hc & Hp).
  - exact machine_wf.
  - split; [split; [vm_compute; lia|vm_compute; reflexivity]|]. repeat split; vm_compute; congruence.
  - reflexivity.
  - vm_compute. reflexivity.
  - lia.
  - vm_compute. reflexivity.
  - vm_compute. reflexivity.
  - split; [vm_compute; lia|]. repeat (split; [vm_compute; first [lia | congruence]|]).
    intros m i d Hm [Hi Hd]. assert (i = 0 ∨ i = 1 ∨ i = 2)%nat as Hc by (change (device_count machine) with 3%nat in Hi; lia).
    destruct Hc as [-> | [-> | ->]]; vm_compute in Hd; injection Hd as <-; unfold partition_name; discriminate.
  - exists s'. split; [exact Hr|]. split; [exact Hw|]. split; [exact Hc|]. exact (proj1 (Hp 1%nat 101 200 eq_refl)).
Defined.

Lemma partitions_isolated_witness :
  ∃ r w', blockdev_write scanned (Some 3%nat) 0 1 (Some (replicate 512 7)) disks = Some (r, w') ∧
    blockdev_read scanned (Some 4%nat) 0 1 w' = blockdev_read scanned (Some 4%nat) 0 1 disks.
Proof.
  destruct (partitions_isolated scanned 3 4 part1 part2 disks 0 1 (replicate 512 7) 0 1 part1_of part2_of) as (r & w' & Hw & Hr & _);
    try lia; [cbn; lia|apply length_replicate|apply bytes_replicate; done|]. exists r, w'. split; [exact Hw|exact Hr].
Defined.

(** The sector in front of the first partition is the partition table. *)
Lemma partition_escape_witness :
  blockdev_read scanned (Some 3%nat) (2 ^ 64 - 1) 1 disks = Some (disk_read 1 0 1 disks).
Proof. exact (partition_escape scanned 3 part1 disks part1_of eq_refl ltac:(cbn; lia) ltac:(cbn; lia)). Defined.

Lemma volumes_correct_witness :
  ∃ v', volmgr_rescan scanned boot_volumes = Some v' ∧ vol_wf v' ∧ volmgr_rescan scanned v' = Some v'.
Proof.
  destruct (volumes_correct scanned boot_volumes scanned_wf boot_volumes_wf) as (v' & Hr & Hv & Hr2 & _).
  exists v'. split; [exact Hr|]. split; [exact Hv|exact Hr2].
Defined.

(** After disk 0 is removed the partitions of disk 1 are windows on disk 2. *)
Lemma unregister_redirects_witness :
  ∃ s', blockdev_unregister (Some (lit "disk0")) scanned = Some (0, s') ∧ partition_of s' 2 (Extent 2 true true 1000 1 100).
Proof.
  apply (unregister_redirects scanned (lit "disk0") 0 1 3 (lit "disk1") 1 1 100
    (BlockDevice (lit "disk2") 512 1000 (DiskDriver 2 true true) 0 false) 2 true true scanned_wf); try lia.
  - vm_compute. reflexivity.
  - do 2 eexists. split; [split; [vm_compute; lia|vm_compute; reflexivity]|]. repeat split.
  - split; [vm_compute; lia|vm_compute; reflexivity].
  - reflexivity.
Defined.

End BlockExamples.

From stdpp Require Import relations.
From S2P Require Import Prelude Arrays Bytes Memory Block BlockProps BlockVolumes Fat FatTable FatChain FatFile FatProps FatPath FatRoot.

(** A small FAT16 volume, and the theorems applied to it. *)
Module FatExamples.

Import Arrays Bytes BlockVolumes BlockExamples Fat FatTable FatChain FatFile FatWrite FatPath FatRoot.

(** ** The volume *)

Definition zeros (n : nat) : list Z := replicate n 0.

(** Sectors of 32 bytes, two to a cluster; two reserved sectors, two tables of one
    sector, two root entries, five clusters. *)
Definition boot : list Z :=
  zeros 11 ++ [32; 0] ++ [2] ++ [2; 0] ++ [2] ++ [2; 0] ++ [16; 0] ++ [0] ++ [1; 0] ++ zeros 40.

(** Clusters 2 and 3 are a file, 4 runs into itself, 5 and 6 are free. *)
Definition table : list Z := [248; 255; 255; 255; 3; 0; 255; 255; 4; 0; 0; 0; 0; 0] ++ zeros 18.

Definition name_a : list Z := [65; 32; 32; 32; 32; 32; 32; 32; 84; 88; 84].
Definition entry_a : list Z := name_a ++ [32] ++ zeros 14 ++ [2; 0] ++ [128; 0; 0; 0].

(** Cluster 4 holds two entries that are in use. *)
Definition image : list Z :=
  boot ++ table ++ table ++ entry_a ++ zeros 32 ++ replicate 64 7 ++ replicate 64 9 ++
  replicate 64 66 ++ zeros 128.

Definition blank : fatfs_volume :=
  Volume [] 0 false 0 0 0 0 0 0 0 0 0 0 0 0 0 [] None 0 0 false false.

Definition demo : fatfs_volume := Volume image 512 true 16 32 2 2 2 1 16 6 5 4 2 2 0 [] None 0 0 false false.

(** What [fatfs_init] makes of the image. *)
Example demo_init : fatfs_init (Some image) 512 blank = Some (FATFS_TYPE_FAT16, demo).
Proof. by vm_compute. Qed.

Lemma demo_geometry : geometry demo.
Proof. constructor; try by vm_compute. all: [> by_eval|by left]. Qed.

Lemma demo_free : free_clusters demo = [5; 6].
Proof. by_eval. Qed.

(** ** The table *)

(** Cluster 5 is linked to cluster 6 in both tables. *)
Lemma fat_entry_write_witness :
  ∃ v', fatfs_write_fat 5 6 demo = Some v' ∧ fatfs_read_fat v' 5 = Some 6 ∧ entry v' 1 5 = Some 6 ∧ fatfs_read_fat v' 2 = Some 3.
Proof.
  destruct (FatProps.fat_entry_write demo 5 6) as (v' & H & _ & H5 & Hk & Hd & _); [exact demo_geometry|by vm_compute|by vm_compute|].
  exists v'. split; [exact H|]. split; [exact H5|]. split; [by apply Hk|]. by rewrite Hd.
Defined.

(** The first free cluster is 5. *)
Lemma allocate_cluster_correct_witness : ∃ v', fatfs_allocate_cluster demo = Some (5, v') ∧ content v' 5 = zeros 64.
Proof.
  destruct (FatProps.allocate_cluster_correct demo demo_geometry) as (c & v' & H & H0 & _ & Hc).
  destruct Hc as (Hh & _ & Hz & _); [intros Hc; apply H0 in Hc; by rewrite demo_free in Hc|].
  rewrite demo_free in Hh. apply (inj Some) in Hh as <-. exists v'. split; [exact H|exact Hz].
Defined.

(** The chain that runs into itself is freed. *)
Lemma free_chain_terminates_witness :
  ∃ v', fatfs_free_chain 4 demo = Some v' ∧ fatfs_read_fat v' 4 = Some 0.
Proof.
  destruct (FatProps.free_chain_terminates demo 4) as (v' & H & _ & Hr & _); [exact demo_geometry|lia|]. exists v'. split; [exact H|].
  apply Hr; [by vm_compute|lia|done].
Defined.

(** ** Files *)

Lemma demo_entry : root_entry demo 128.
Proof. exists 0%nat. split; [vm_compute; lia|reflexivity]. Qed.

Lemma demo_file_entry : file_entry demo 128 2.
Proof.
  constructor; [by vm_compute|by vm_compute|]. intros c i Hc _ Hm. apply (root_entry_apart demo demo_geometry eq_refl 128 c i demo_entry Hc).
  by apply meta_entry.
Qed.

(** The file A.TXT gets new contents of 70 bytes. *)
Lemma file_replace_roundtrip_witness :
  ∃ v' c, fatfs_write_replace 128 (replicate 70 5) demo = Some (0, v') ∧ fatfs_first_cluster v' 128 = Some c ∧
    fatfs_load_cluster_chain v' c (zeros 80) 70 = Some (replicate 70 5 ++ zeros 10, 70%nat).
Proof.
  destruct (FatProps.file_replace_roundtrip demo 128 2 (replicate 70 5) (zeros 80)) as (v1 & rc & v' & H1 & H & _ & H0 & Hok & _);
    [exact demo_geometry|exact demo_file_entry|by apply bytes_replicate|vm_compute; lia|done|].
  assert (rc = 0) as ->.
  { apply H0. assert (E : fatfs_free_chain 2 demo = Some v1) by exact H1. vm_compute in E. apply (inj Some) in E as <-. vm_compute. lia. }
  destruct (Hok eq_refl) as (c & Hc & _ & Hl). exists v', c. split; [exact H|]. split; [exact Hc|exact Hl].
Defined.

(** The name of the file. *)
Lemma short_name_roundtrip_witness :
  fatfs_make_short_name (lit "a.txt") = Some name_a ∧ fatfs_make_short_name (fatfs_format_entry_name name_a) = Some name_a.
Proof. split; [reflexivity|]. apply (FatNames.short_name_roundtrip (lit "a.txt") name_a). reflexivity. Defined.

(** A new file B is written by name and read back. *)
Lemma fat_write_read_witness :
  ∃ v' w', fatfs_write boot_blocks (lit "b") (Some [1; 2; 3]) 3 WriteReplace demo disks = Some (0, v', w') ∧
    fatfs_read v' (lit "b") (zeros 8) 8 = Some (0, [1; 2; 3; 0; 0; 0; 0; 0], 3%nat).
Proof.
  apply (FatRoot.fat_write_read boot_blocks demo disks (lit "b") (66 :: replicate 10 32) [1; 2; 3] (zeros 8) 8 (Scan None None (Some 160%nat) 0)).
  - exact demo_geometry.
  - reflexivity.
  - reflexivity.
  - exact boot_blocks_wf.
  - by intros i Hi.
  - constructor; [reflexivity|vm_compute; lia|reflexivity].
  - by_eval.
  - done.
  - vm_compute. lia.
  - by vm_compute.
  - by exists 160%nat.
  - vm_compute. lia.
Defined.

(** ** Edges *)

Lemma demo_linked : linked demo [2; 3].
Proof.
  split; [by_eval|]. intros i c Hi. destruct i as [|[|i]]; [| |done]; apply (inj Some) in Hi as <-; by vm_compute.
Qed.

(** Three bytes appended to A.TXT, which fills its two clusters. *)
Lemma append_overwrites_witness :
  ∃ v', fatfs_write_append 128 [1; 2; 3] demo = Some (0, v') ∧ content v' 3 = [1; 2; 3] ++ replicate 61 9.
Proof.
  destruct (FatEdge.append_overwrites demo 128 2 [3] [1; 2; 3]) as (v' & q & H & Hq & _ & Hc & _).
  - exact demo_geometry.
  - by vm_compute.
  - exact demo_linked.
  - by vm_compute.
  - by vm_compute.
  - intros d i Hd Hm. apply (root_entry_apart demo demo_geometry eq_refl 128 d i demo_entry Hd). by apply meta_entry.
  - by_eval.
  - done.
  - by vm_compute.
  - apply (inj Some) in Hq as <-. exists v'. split; [exact H|]. rewrite Hc. by vm_compute.
Defined.

(** Cluster 4 taken for a directory. *)
Lemma dir_scan_cycle_witness : scan_chain 1000 demo (Some name_a) 4 0 (Scan None None None 4) 4 = None.
Proof. apply (FatEdge.dir_scan_cycle demo (Some name_a) 4 4 0); [exact demo_geometry|by vm_compute|by vm_compute|by vm_compute]. Defined.

(** A directory that does not exist. *)
Lemma long_segment_is_root_witness : fatfs_resolve_directory demo (lit "no_such_directory") = Some (Some 0).
Proof. apply (FatEdge.long_segment_is_root demo (lit "no_such_directory")); [by_eval|vm_compute; lia]. Defined.

End FatExamples.

From S2P Require Import Vfs VfsSpec FatMount.

(** A FAT volume in the virtual file system. *)

Module FatMountExamples.

Import Arrays Bytes BlockVolumes BlockExamples Fat FatTable FatChain FatPath FatRoot FatExamples Vfs FatMount.

(** One volume, and the disks of the examples above. *)
#[local] Program Instance one_volume : HasFat (fatfs_volume * ram_disks) (option nat) ram_disks := {
  fat_of w _ := w.1;
  with_fat _ v w := (v, w.2);
  blocks_of _ := boot_blocks;
  disks_of w := w.2;
  with_disks d w := (w.1, d);
  as_fat c := c;
  fat_ctx k := Some k
}.
Next Obligation. done. Qed.
Next Obligation. done. Qed.
Next Obligation. done. Qed.

Definition no_mounts : vfs (fatfs_volume * ram_disks) (option nat) :=
  {| mount_table := replicate VFS_MAX_MOUNTS {| m_used := false; mount_point := []; prefix_len := 0; m_ops := None; m_ctx := None |}; root_mount := None; mounts_initialized := true;
     alias_table := replicate VFS_MAX_ALIASES {| a_used := false; a_from := []; from_len := 0; a_to := [] |}; open_table := replicate VFS_MAX_OPEN_FILES closed_handle |}.

Lemma no_mounts_wf : VfsSpec.wf no_mounts.
Proof. apply VfsSpec.cleared_wf. split_and!; try done; by apply Forall_replicate. Qed.

Definition on_path : fatfs_volume := set_mount_path (lit "/Volumes/Disk0") demo.

Definition with_mount : vfs (fatfs_volume * ram_disks) (option nat) :=
  set_mounts ({| m_used := true; mount_point := lit "/Volumes/Disk0"; prefix_len := 14; m_ops := Some fatfs_ops; m_ctx := Some 0%nat |} ::
    replicate 7 {| m_used := false; mount_point := []; prefix_len := 0; m_ops := None; m_ctx := None |}) None no_mounts.

Lemma nothing_located : locate no_mounts (lit "/Volumes/Disk0") = None.
Proof. by vm_compute. Qed.

Lemma first_mount ops : vfs_mount_ no_mounts (Some (lit "/Volumes/Disk0")) (Some ops) (Some 0%nat) =
  (0, set_mounts ({| m_used := true; mount_point := lit "/Volumes/Disk0"; prefix_len := 14; m_ops := Some ops; m_ctx := Some 0%nat |} ::
    replicate 7 {| m_used := false; mount_point := []; prefix_len := 0; m_ops := None; m_ctx := None |}) None no_mounts).
Proof. by vm_compute. Qed.

Lemma demo_mounts : fatfs_mount 0 (Some (lit "Disk0")) no_mounts (demo, disks) = Some (0, with_mount, (on_path, disks)).
Proof.
  unfold fatfs_mount. change (negb (fatfs_ready _)) with false. change (fat_label (Some (lit "Disk0"))) with (lit "Disk0").
  change (VFS_MAX_PATH <=? 9 + length (lit "Disk0"))%nat with false. cbn iota zeta. change (lit "/Volumes/" ++ lit "Disk0") with (lit "/Volumes/Disk0").
  unfold vfs_mkdir, vfs_write_file, vfs_write_internal, dispatch. rewrite nothing_located. cbn [mbind option_bind]. change (-1 <? 0) with true. cbn iota.
  change (fat_ctx 0) with (Some 0%nat). rewrite first_mount. reflexivity.
Qed.

(** The file b in the root directory of the volume. *)
Lemma fat_mounted_write_read_witness : ∃ u',
  fatfs_mount 0 (Some (lit "Disk0")) no_mounts (demo, disks) = Some (0, with_mount, (on_path, disks)) ∧
  vfs_write_file with_mount (on_path, disks) (Some (lit "/Volumes/Disk0/b")) (Some [1; 2; 3]) = Some (0, u') ∧
  vfs_read_path with_mount u' (Some (lit "/Volumes/Disk0/b")) (Some (zeros 8)) = Some (3, [1; 2; 3; 0; 0; 0; 0; 0], u').
Proof.
  destruct (fat_mounted_write_read 0 (Some (lit "Disk0")) no_mounts (demo, disks) with_mount (on_path, disks) no_mounts_wf ltac:(by_eval) demo_mounts) as (slot & m & [Hs Hu] & _ & H).
  assert (slot = 0%nat) as ->. { do 8 (destruct slot as [|slot]; [first [reflexivity|cbn in Hs; injection Hs as <-; discriminate Hu]|]). discriminate Hs. }
  destruct (H (on_path, disks) (lit "/Volumes/Disk0/b") (lit "b") (66 :: replicate 10 32) [1; 2; 3] (zeros 8) (Scan None None (Some 160%nat) 0)) as (u' & Hw & Hr).
  - by vm_compute.
  - constructor; try by vm_compute. all: [> by_eval|by left].
  - reflexivity.
  - reflexivity.
  - exact boot_blocks_wf.
  - by intros i Hi.
  - constructor; [reflexivity|vm_compute; lia|reflexivity].
  - by_eval.
  - done.
  - vm_compute. lia.
  - vm_compute. reflexivity.
  - by vm_compute.
  - by exists 160%nat.
  - vm_compute. lia.
  - exists u'. split; [exact demo_mounts|]. split; [exact Hw|exact Hr].
Defined.

End FatMountExamples.

From S2P Require Import Prelude Arrays Bytes Memory Sched SchedLists SchedSpec SchedRun Ipc IpcSpec IpcMail IpcRun Sync SyncProps Block.
From S2P Require Import Klog KlogRun KlogFiles Service ServiceSpec Syscall SyscallRead SyscallSpec SyscallProps.
From S2P Require Vfs VfsRamfs KlogProps ServiceProps IpcExamples.

(** The theorems about system calls applied to a system of two processes. *)
Module SyscallExamples.

Import Bytes IpcSpec SyncProps KlogFiles ServiceSpec Syscall SyscallMem SyscallRead SyscallSpec SyscallProps.

Abbreviation tree := KlogProps.KlogProps.demo_tree.

Definition table : list syscall_entry := default [] (syscall_init (replicate SYSCALL_TABLE_SIZE (Entry None []))).

Definition envelope (number argc a0 a1 a2 : Z) : list Z := le32 number ++ le32 argc ++ le32 a0 ++ le32 a1 ++ le32 a2 ++ replicate 12 0.

(** At 4096 a write of the two bytes at 8192, at 4160 a send of them to process 1, at
    12288 a receive into the eight bytes at 16384, at 20480 a write of a buffer that
    wraps around the end of memory. *)
Definition ram : memory :=
  store (store (store (store (store ∅ 4096 (envelope 0 2 8192 2 0)) 4160 (envelope 12 3 1 8192 2)) 8192 [104; 105])
    12288 (envelope 13 3 (u32 (-1)) 16384 8)) 20480 (envelope 0 2 4096 4294967295 0).

Definition on_kernel (k : Ipc.kernel) : system Vfs.Vfs.ramfs_world (option Vfs.Vfs.volume_id) :=
  System _ _ (Klog.set_kern k ServiceProps.ServiceProps.service_machine) (Sync.sync_init zero_sync) ram table [].

Lemma on_kernel_ok k : kernel_ok k → system_ok tree (on_kernel k).
Proof.
  intros Hk. constructor; [|exact zero_sync_ok|vm_compute; reflexivity].
  exists ServiceProps.ServiceProps.service_table, KlogSpec.a_start. split; [|exact ServiceProps.ServiceProps.service_table_ok].
  apply KlogRun.sim_kern; [exact ServiceProps.ServiceProps.service_sim|exact Hk].
Qed.

Definition sample := on_kernel IpcExamples.IpcExamples.two_processes.

Lemma sample_ok : system_ok tree sample.
Proof. apply on_kernel_ok, IpcExamples.IpcExamples.two_processes_ok. Qed.

Definition no_other (address msg : Z) (s : system Vfs.Vfs.ramfs_world (option Vfs.Vfs.volume_id)) :
  option (outcome Vfs.Vfs.ramfs_world (option Vfs.Vfs.volume_id)) := None.

Definition result {W Ctx} (o : outcome W Ctx) : option Z := match o with Returns r _ => Some r | Suspends _ _ => None end.


(** The kernel is linked at one megabyte. *)
Definition kernel_image (x : Z) : Prop := 1048576 ≤ x < 2097152.

(** A process that has changed a byte of its memory writes to the console. *)
Definition poked := set_mem (<[8192 := 72]> (mem sample)) sample.

Lemma syscall_safe_witness :
  ∃ o, syscall_handler SchedRun.stacks (replicate 128 0) (replicate 256 0) no_other 0 0 4096 poked = Some o ∧ result o = Some 2 ∧ good tree kernel_image poked o.
Proof.
  destruct (syscall_safe tree SchedRun.stacks kernel_image sample poked []) as [_ H].
  - exact sample_ok.
  - apply runs_user; [apply runs_refl|]. intros x Hx. apply lookup_insert_ne. intros <-.
    destruct Hx as [Hx|[Hx _]]; [apply Hx; split; vm_compute; reflexivity|revert Hx; vm_compute; intros Hx; by apply Hx].
  - destruct (H (replicate 128 0) (replicate 256 0) no_other 0 0) as [Hc _]; [reflexivity|reflexivity|vm_compute; discriminate|].
    destruct (Hc 4096) as (o & E & Hg); [split; lia| |]; cycle 1.
    + exists o. split; [exact E|]. split; [|exact Hg].
      assert (Hv : result <$> syscall_handler SchedRun.stacks (replicate 128 0) (replicate 256 0) no_other 0 0 4096 poked = Some (Some 2)) by (vm_compute; reflexivity).
      rewrite E in Hv. apply (inj Some) in Hv. exact Hv.
    + intros _. split; [intros x Hx [Hk _]; unfold ENVELOPE_SIZE in Hx; lia|]. intros e h He Eh.
      assert (Ew : (e ← syscall_table poked !! Z.to_nat (msg_number poked 4096); e_handler e) = Some HWrite) by (vm_compute; reflexivity).
      rewrite He in Ew. cbn in Ew. rewrite Eh in Ew. injection Ew as ->. exact I.
Defined.

Lemma sample_wraps : refused 20480 sample.
Proof.
  apply (refused_bad _ _ (Entry (Some HWrite) (lit "sys_write")) HWrite).
  - vm_compute. reflexivity.
  - reflexivity.
  - vm_compute. discriminate.
  - replace (bad_request HWrite 20480 sample) with (0 < 4294967295 ∧ ¬ user_block 4096 4294967295); [split; [lia|]; intros [_ H]; revert H; vm_compute; discriminate|].
    unfold bad_request. replace (msg_arg sample 20480 0) with 4096 by (vm_compute; reflexivity).
    replace (msg_arg sample 20480 1) with 4294967295 by (vm_compute; reflexivity). reflexivity.
Qed.

Lemma syscall_refuses_witness :
  ∃ m, syscall_handler SchedRun.stacks (replicate 128 0) (replicate 256 0) no_other 0 0 20480 sample = Some (Returns 4294967295 (set_mem m sample)) ∧
       load32 m 20508 = 1.
Proof.
  destruct (syscall_refuses SchedRun.stacks (replicate 128 0) (replicate 256 0) no_other 0 0 20480 sample) as (m & E & _ & H).
  - split; lia.
  - exact sample_wraps.
  - exists m. split; [exact E|]. destruct (H ltac:(split; vm_compute; reflexivity)) as (_ & Hs & _). exact Hs.
Defined.

Lemma buffer_check_exact_witness :
  syscall_validate_user_buffer 4096 4294967295 = false ∧ ¬ (∀ d, 0 ≤ d ≤ 4294967295 → user_address (4096 + d)).
Proof.
  assert (E : syscall_validate_user_buffer 4096 4294967295 = false) by (vm_compute; reflexivity). split; [exact E|].
  intros H. apply (buffer_check_exact 4096 4294967295) in H; [rewrite E in H; discriminate|split; lia|split; lia|lia].
Defined.



(** The second process sends while the first sleeps; later the first runs and receives. *)
Definition sending := on_kernel IpcExamples.IpcExamples.sleeping_receiver.
Definition receiving := on_kernel IpcExamples.IpcExamples.back_again.

Lemma sending_result : sys_ipc_send_handler 4160 sending = Some (Returns 2 (set_kern IpcExamples.IpcExamples.after_send sending)).
Proof.
  assert (E : Ipc.ipc_send 1 (Some [104; 105]) 2 (kern sending) = Some (2, IpcExamples.IpcExamples.after_send)) by (vm_compute; reflexivity).
  unfold sys_ipc_send_handler, with_args. replace (msg_argc sending 4160) with 3 by (vm_compute; reflexivity).
  replace (msg_arg sending 4160 0) with 1 by (vm_compute; reflexivity). replace (msg_arg sending 4160 1) with 8192 by (vm_compute; reflexivity).
  replace (msg_arg sending 4160 2) with 2 by (vm_compute; reflexivity).
  replace (copy_from_user (mem sending) 8192 2) with [104; 105] by (vm_compute; reflexivity).
  cbn zeta. replace (s32 1) with 1 by reflexivity. change (0 <? 2) with true. cbn iota. rewrite E. reflexivity.
Qed.

Lemma message_calls_deliver_witness :
  load (mem receiving) 16384 2 = [0; 0] ∧
  ∃ s3, sys_ipc_recv_handler (replicate 256 0) 9 12288 receiving = Some (Returns 2 s3) ∧ load (mem s3) 16384 2 = [104; 105].
Proof.
  split; [vm_compute; reflexivity|].
  assert (E2 : msg_arg sending 4160 2 = 2) by (vm_compute; reflexivity).
  assert (E1 : msg_arg receiving 12288 1 = 16384) by (vm_compute; reflexivity).
  destruct (message_calls_deliver tree sending 4160 (set_kern IpcExamples.IpcExamples.after_send sending) 1 receiving 12288 (replicate 256 0) 9
    (IpcExamples.IpcExamples.thread IpcExamples.IpcExamples.back_again 1) (IpcExamples.IpcExamples.endpoint IpcExamples.IpcExamples.back_again 1))
    as (s3 & E & Hl & _).
  - apply on_kernel_ok, IpcExamples.IpcExamples.sleeping_receiver_ok.
  - vm_compute. discriminate.
  - vm_compute. reflexivity.
  - rewrite E2. exact sending_result.
  - vm_compute. reflexivity.
  - vm_compute. reflexivity.
  - apply on_kernel_ok, IpcExamples.IpcExamples.back_again_ok.
  - vm_compute. reflexivity.
  - vm_compute. reflexivity.
  - vm_compute. reflexivity.
  - apply IpcExamples.IpcExamples.thread_at; [exact IpcExamples.IpcExamples.back_again_ok|unfold Sched.MAX_PROCS; lia].
  - apply IpcExamples.IpcExamples.endpoint_at; [exact IpcExamples.IpcExamples.back_again_ok|unfold Sched.MAX_PROCS; lia].
  - reflexivity.
  - vm_compute. discriminate.
  - split; vm_compute; reflexivity.
  - vm_compute. discriminate.
  - left. vm_compute. reflexivity.
  - vm_compute. reflexivity.
  - exists s3. rewrite E1, E2 in Hl. rewrite E2 in E. split; [exact E|].
    replace (load (mem sending) (msg_arg sending 4160 1) (Z.to_nat 2)) with [104; 105] in Hl by (vm_compute; reflexivity). exact Hl.
Defined.

End SyscallExamples.

From S2P Require Import Prelude Arrays Bytes Ipc IpcSpec Block Klog KlogRun Service ServiceSpec.
From S2P Require Import Devmgr DevmgrSpec DevmgrRun DevmgrProps Devicefs DevicefsSpec DevicefsProps.
From S2P Require Import Ramfs RamfsSpec Vfs VfsSpec VfsRamfs.
From S2P Require Memory IpcExamples KlogProps.

(** The theorems about the device manager and the device file system applied to a world
    with four devices at start-up. *)
Module DeviceExamples.

Import Devmgr DevmgrSpec DevmgrRun DevmgrProps Devicefs DevicefsSpec DevicefsProps DevicefsTree.

Record world := World {
  w_ramfs : Vfs.ramfs_world;
  w_devices : devmgr;
  w_data : list devicefs_data_entry;
  w_blocks : Block.blocks;
  w_volumes : Block.volmgr
}.

#[export] Program Instance world_devices : HasDevices world := {
  devices_of := w_devices; with_devices d w := World (w_ramfs w) d (w_data w) (w_blocks w) (w_volumes w)
}.
Solve All Obligations with done.

#[export] Program Instance world_devicefs : HasDevicefs world := {
  data_of := w_data; with_data l w := World (w_ramfs w) (w_devices w) l (w_blocks w) (w_volumes w);
  blocks_of := w_blocks; volumes_of := w_volumes
}.
Solve All Obligations with done.

#[export] Program Instance world_ramfs : Vfs.HasRamfs world (option Vfs.volume_id) := {
  Vfs.ramfs_of := w_ramfs; Vfs.with_ramfs r w := World r (w_devices w) (w_data w) (w_blocks w) (w_volumes w);
  Vfs.as_volume c := c; Vfs.null_ctx := None; Vfs.volume_ctx := Some
}.
Solve All Obligations with done.

#[export] Program Instance world_all : DeviceWorld world (option Vfs.volume_id) := {}.
Solve All Obligations with done.

Definition no_drivers (a : Z) : option (world → list Z → Z * Z * list Z * world) := None.
Definition no_starts (a : Z) : option Z := None.

Definition empty_devices : devmgr := Devices (replicate DEVMGR_MAX_DEVICES (Devmgr.Entry false blank_node)) 0 1 None (-1).
Definition empty_data : list devicefs_data_entry := replicate DEVICEFS_MAX_DATA (DataEntry false [] 0 (replicate DEVICEFS_DATA_CAP 0)).

Definition fresh_world : world :=
  World VfsRamfs.demo_world empty_devices empty_data (Block.BlockState (replicate Block.BLOCKDEV_MAX_DEVICES Block.zero_device) 0 [] Memory.Memory.memory_init [])
    (Block.VolState (replicate Block.VOLMGR_MAX_VOLUMES Block.empty_volume) 0 []).

Definition tree : Vfs.vfs world (option Vfs.volume_id) := device_boot_tree no_drivers.

Definition fresh : Klog.machine world (option Vfs.volume_id) :=
  Klog.Machine _ _ KlogProps.KlogProps.zero_log IpcExamples.IpcExamples.booted KlogProps.KlogProps.no_services tree fresh_world.

Lemma empty_data_ok : entries_ok empty_data.
Proof. split; [done|]. apply Forall_replicate. constructor; vm_compute; lia. Qed.

Lemma fresh_machine : machine_with tree empty_devices fresh.
Proof.
  exists KlogProps.KlogProps.no_services, KlogSpec.a_start. destruct KlogProps.KlogProps.demo_sim as [_ Hl]. split; [|exact Hl].
  constructor; [exact IpcExamples.IpcExamples.booted_ok|done|done|done|]. split; [|done]. split; [apply VfsRamfs.demo_volume_wf|exact empty_data_ok].
Qed.

Lemma devmgr_init_correct_witness :
  ∃ s', devmgr_init (replicate 128 0) (replicate 64 0) no_starts fresh = Some s' ∧ devices_are tree boot_map 4 s'.
Proof.
  apply (devmgr_init_correct tree (replicate 128 0) (replicate 64 0) no_starts eq_refl eq_refl empty_devices fresh).
  - exact fresh_machine.
  - reflexivity.
Defined.

(** The machine with the root and the two buses. *)
Definition buses : devmgr := Devices first_table 3 3 (Some 0%nat) (-1).
Definition with_buses : Klog.machine world (option Vfs.volume_id) := set_devs buses fresh.

Lemma buses_machine : machine_with tree buses with_buses.
Proof. exact (machine_set_devs tree empty_devices buses fresh fresh_machine). Qed.

Lemma buses_abs : abs buses = first_map.
Proof. vm_compute. reflexivity. Qed.

Lemma buses_are : devices_are tree first_map 3 with_buses.
Proof. exists buses. split; [exact buses_machine|]. split; [exact (first_table_ok (-1))|]. split; [exact buses_abs|reflexivity]. Qed.

Definition device (n parent : string) : device_descriptor :=
  Descriptor (Some (lit n)) (Some (lit "block")) (Some (lit parent)) None DEVICE_FLAG_PUBLISH 0.

(** A disk on the storage bus, a partition on the disk; the disk goes, its partition
    stays, on the bus. *)
Definition disk_ops : list device_op :=
  [DRegister (device "disk0" "storage0"); DRegister (device "disk0p1" "disk0"); DUnregister (Some (lit "disk0")); DFind (Some (lit "disk0p1"))].

Lemma disk_ops_ok : Forall device_op_ok disk_ops.
Proof.
  repeat (apply Forall_cons; split; [try (intros n E; injection E as <-; split; [split; [vm_compute; lia|by_eval]|discriminate]); exact I|]). constructor.
Qed.

Lemma devices_refine_witness :
  ∃ s', device_run (replicate 128 0) (replicate 64 0) no_starts disk_ops with_buses =
    Some ([RStatus 0; RStatus 0; RStatus 0; RFound (Some (ADev 4 (lit "block") DEVICE_FLAG_PUBLISH (Some (lit "storage0")) 0 None))], s').
Proof.
  destruct (devices_refine tree (replicate 128 0) (replicate 64 0) no_starts eq_refl eq_refl disk_ops first_map 3 with_buses) as (s' & E & _).
  - exact buses_are.
  - exact disk_ops_ok.
  - exists s'. replace (a_run no_starts disk_ops (first_map, 3)).1 with
      [RStatus 0; RStatus 0; RStatus 0; RFound (Some (ADev 4 (lit "block") DEVICE_FLAG_PUBLISH (Some (lit "storage0")) 0 None))] in E by (vm_compute; reflexivity).
    exact E.
Defined.

Lemma self_parent_never_ends_witness : devmgr_register_device (replicate 128 0) (replicate 64 0) no_starts (device "loop0" "loop0") with_buses = None.
Proof.
  destruct (self_parent_never_ends tree (replicate 128 0) (replicate 64 0) no_starts eq_refl eq_refl buses with_buses (device "loop0" "loop0") (lit "loop0") (lit "block"))
    as (i & d1 & _ & _ & E).
  - exact buses_machine.
  - exact (first_table_ok (-1)).
  - reflexivity.
  - reflexivity.
  - reflexivity.
  - split; [vm_compute; lia|by_eval].
  - rewrite buses_abs. vm_compute. reflexivity.
  - rewrite buses_abs. vm_compute. lia.
  - reflexivity.
  - exact E.
Defined.

(** ** Files *)

Lemma fresh_files : files_ok fresh_world.
Proof.
  split; [exact empty_data_ok|]. intros i j e e' Hi Hj Hu. change (empty_data !! i = Some e) in Hi. unfold empty_data in Hi. apply lookup_replicate in Hi as [-> _]. discriminate Hu.
Qed.

Definition file_ops : list (cstring * VfsRamfs.file_op) :=
  [(lit "led", VfsRamfs.FWrite (Some [111; 110])); (lit "led", VfsRamfs.FAppend (Some [33])); (lit "Null", VfsRamfs.FWrite (Some [1; 2; 3]));
   (lit "Mouse", VfsRamfs.FWrite (Some [1])); (lit "fan", VfsRamfs.FRemove)].

Lemma devicefs_refines_witness :
  ∃ w', call_all no_drivers (None : option Vfs.volume_id) file_ops fresh_world = Some ([2; 1; 3; -1; -1], w') ∧
    devicefs_read no_drivers w' (None : option Vfs.volume_id) (lit "led") [0; 0; 0; 0; 0; 0] = Some (3, [111; 110; 33; 0; 0; 0], w').
Proof.
  destruct (devicefs_refines no_drivers (None : option Vfs.volume_id) file_ops fresh_world) as (w' & E & _ & Hf & Hr).
  - exact fresh_files.
  - repeat (apply Forall_cons; split; [vm_compute; lia|]). constructor.
  - exists w'. assert (Hz : files fresh_world = ∅) by (vm_compute; reflexivity). rewrite Hz in E, Hf. split.
    + rewrite E. replace (a_calls file_ops ∅).1 with [2; 1; 3; -1; -1] by (vm_compute; reflexivity). reflexivity.
    + rewrite Hr; [|discriminate|vm_compute; reflexivity|simpl; lia]. rewrite Hf.
      replace ((a_calls file_ops ∅).2 !! lit "led") with (Some [111; 110; 33]) by (vm_compute; reflexivity). reflexivity.
Defined.

Definition long_name : cstring := replicate 40 97.

Lemma long_names_lost_witness :
  ∃ r w', devicefs_write fresh_world (None : option Vfs.volume_id) long_name (Some [1; 2]) Vfs.VFS_WRITE_REPLACE = Some (r, w') ∧ 0 ≤ r ∧
    devicefs_read no_drivers w' (None : option Vfs.volume_id) long_name [0; 0; 0; 0] = Some (-1, [0; 0; 0; 0], w').
Proof.
  destruct (long_names_lost no_drivers (None : option Vfs.volume_id) long_name [1; 2] Vfs.VFS_WRITE_REPLACE fresh_world) as (r & w' & E & Hr & _ & Hread & _).
  - exact fresh_files.
  - unfold fits. vm_compute. lia.
  - vm_compute. lia.
  - vm_compute. reflexivity.
  - vm_compute. reflexivity.
  - exists r, w'. split; [exact E|]. split; [exact Hr|]. apply Hread. simpl. lia.
Defined.

End DeviceExamples.

From S2P Require Import Prelude Arrays Bytes Ipc IpcSpec Block Klog KlogRun Parts Service ServiceSpec Loader LoaderSpec LoaderRun LoaderProps.
From S2P Require Import Ramfs RamfsSpec Vfs VfsSpec VfsRamfs.
From S2P Require Memory IpcExamples KlogFiles KlogProps.

(** The theorems about the module loader applied to a small relocatable object. *)
Module LoaderExamples.

Import Bytes Parts Loader LoaderSpec LoaderLink LoaderRun LoaderProps.

Record world := World { w_ramfs : Vfs.ramfs_world; w_modules : modules }.

#[export] Program Instance world_modules : HasPart world modules := { part_of := w_modules; with_part m w := World (w_ramfs w) m }.
Solve All Obligations with done.

#[export] Program Instance world_ramfs : Vfs.HasRamfs world (option Vfs.volume_id) := {
  Vfs.ramfs_of := w_ramfs; Vfs.with_ramfs r w := World r (w_modules w);
  Vfs.as_volume c := c; Vfs.null_ctx := None; Vfs.volume_ctx := Some
}.
Solve All Obligations with done.

#[export] Program Instance world_apart : ApartRamfs world (option Vfs.volume_id) modules := {}.
Solve All Obligations with done.

Definition no_devices : Vfs.vfs_fs_ops world (option Vfs.volume_id) := Vfs.Ops _ _ None None None None None.

Definition tree : Vfs.vfs world (option Vfs.volume_id) := KlogFiles.KlogFiles.boot_tree no_devices.

(** The start functions succeed and do nothing else; so do the exit functions. *)
Definition quiet_init (a : Z) (s : Klog.machine world (option Vfs.volume_id)) := Some (0, s).
Definition quiet_exit (a : Z) (s : Klog.machine world (option Vfs.volume_id)) := Some s.

Lemma keep_modules m : set_blocks (blocks m) (set_heap (Memory.Memory.Heap (Memory.Memory.heap_ptr (heap m))) m) = m.
Proof. by destruct m as [? ? ? ? [?] ?]. Qed.

#[export] Program Instance quiet_code : ModuleCode tree quiet_init quiet_exit := {
  init_result a := 0; init_heap a p := p; exit_heap a p := p
}.
Next Obligation. done. Qed.
Next Obligation. intros a m s Hs. exists (blocks m), s. split; [done|]. by rewrite keep_modules. Qed.
Next Obligation. intros a m s Hs. exists (blocks m), s. split; [done|]. by rewrite keep_modules. Qed.

Definition kernel_names : list kernel_symbol := [Symbol (lit "klog_emit") 1048576].

Definition empty_modules : modules := Modules (replicate MODULE_MAX_COUNT zero_handle) 0 kernel_names (-1) Memory.Memory.memory_init ∅.

Definition fresh : Klog.machine world (option Vfs.volume_id) :=
  Klog.Machine _ _ KlogProps.KlogProps.zero_log IpcExamples.IpcExamples.booted KlogProps.KlogProps.no_services tree (World VfsRamfs.demo_world empty_modules).

Lemma fresh_holds : holds tree empty_modules fresh.
Proof.
  exists KlogProps.KlogProps.no_services, KlogRun.KlogSpec.a_start. destruct KlogProps.KlogProps.demo_sim as [_ Hl]. split; [|exact Hl].
  constructor; [exact IpcExamples.IpcExamples.booted_ok|done|done|done|]. split; [apply VfsRamfs.demo_volume_wf|done].
Qed.

Lemma empty_ok : loader_ok empty_modules.
Proof.
  constructor; [done|cbn; lia|constructor| |].
  - split; [vm_compute; split; discriminate|done].
  - repeat constructor; by_eval.
Qed.

(** A relocatable object of 481 bytes: a function that calls [klog_emit], as [module_init], with the
    description of a module [demo] that starts by itself, a relocation, symbols and strings. *)
Definition demo_object : list Z := [
  127; 69; 76; 70; 1; 1; 1; 0; 0; 0; 0; 0; 0; 0; 0; 0; 1; 0; 3; 0; 1; 0; 0; 0; 0; 0; 0; 0; 0; 0; 0; 0; 241; 0; 0; 0; 0; 0; 0; 0; 
  52; 0; 0; 0; 0; 0; 40; 0; 6; 0; 0; 0; 232; 252; 255; 255; 255; 195; 144; 144; 100; 101; 109; 111; 0; 0; 0; 0; 0; 0; 0; 0; 0; 0; 
  0; 0; 0; 0; 0; 0; 0; 0; 0; 0; 0; 0; 0; 0; 0; 0; 0; 0; 49; 46; 48; 0; 0; 0; 0; 0; 0; 0; 0; 0; 0; 0; 0; 0; 0; 0; 0; 0; 0; 0; 0; 0; 
  0; 0; 0; 0; 0; 0; 0; 0; 1; 0; 0; 0; 0; 0; 0; 0; 1; 0; 0; 0; 2; 3; 0; 0; 0; 0; 0; 0; 0; 0; 0; 0; 0; 0; 0; 0; 0; 0; 0; 0; 1; 0; 0; 
  0; 0; 0; 0; 0; 72; 0; 0; 0; 17; 0; 2; 0; 15; 0; 0; 0; 0; 0; 0; 0; 4; 0; 0; 0; 18; 0; 1; 0; 27; 0; 0; 0; 0; 0; 0; 0; 0; 0; 0; 0; 
  16; 0; 0; 0; 0; 95; 95; 109; 111; 100; 117; 108; 101; 95; 105; 110; 102; 111; 0; 109; 111; 100; 117; 108; 101; 95; 105; 110; 105; 
  116; 0; 107; 108; 111; 103; 95; 101; 109; 105; 116; 0; 0; 0; 0; 0; 0; 0; 0; 0; 0; 0; 0; 0; 0; 0; 0; 0; 0; 0; 0; 0; 0; 0; 0; 0; 0; 
  0; 0; 0; 0; 0; 0; 0; 0; 0; 0; 0; 0; 0; 0; 0; 0; 0; 0; 0; 1; 0; 0; 0; 6; 0; 0; 0; 0; 0; 0; 0; 52; 0; 0; 0; 8; 0; 0; 0; 0; 0; 0; 0; 
  0; 0; 0; 0; 16; 0; 0; 0; 0; 0; 0; 0; 0; 0; 0; 0; 1; 0; 0; 0; 2; 0; 0; 0; 0; 0; 0; 0; 60; 0; 0; 0; 72; 0; 0; 0; 0; 0; 0; 0; 0; 0; 
  0; 0; 32; 0; 0; 0; 0; 0; 0; 0; 0; 0; 0; 0; 9; 0; 0; 0; 0; 0; 0; 0; 0; 0; 0; 0; 132; 0; 0; 0; 8; 0; 0; 0; 4; 0; 0; 0; 1; 0; 0; 0; 
  4; 0; 0; 0; 0; 0; 0; 0; 0; 0; 0; 0; 2; 0; 0; 0; 0; 0; 0; 0; 0; 0; 0; 0; 140; 0; 0; 0; 64; 0; 0; 0; 5; 0; 0; 0; 0; 0; 0; 0; 4; 0; 
  0; 0; 0; 0; 0; 0; 0; 0; 0; 0; 3; 0; 0; 0; 0; 0; 0; 0; 0; 0; 0; 0; 204; 0; 0; 0; 37; 0; 0; 0; 0; 0; 0; 0; 0; 0; 0; 0; 1; 0; 0; 0; 
  0; 0; 0; 0].

(** The call goes to [klog_emit], relative to the word behind it. *)
Definition demo_linked : linked :=
  Linked ([232; 251; 255; 223; 255; 195; 144; 144] ++ replicate 24 0 ++ lit "demo" ++ replicate 28 0 ++ lit "1.0" ++ replicate 29 0 ++ [1] ++ replicate 7 0)
    (lit "demo") (lit "1.0") 1 3145728 0.

Lemma demo_links : link demo_object kernel_names 3145728 = Some demo_linked.
Proof. vm_compute. reflexivity. Qed.

Definition demo_sections : list sect := default [] (sections_of demo_object).

Lemma demo_parsed : sections_of demo_object = Some demo_sections.
Proof. vm_compute. reflexivity. Qed.

Lemma demo_patches : patches demo_object kernel_names 3145728 (layout demo_sections 0).1 demo_sections = Some [Patch 1 true 1048576].
Proof. vm_compute. reflexivity. Qed.

Lemma demo_bytes : bytes demo_object.
Proof. by_eval. Qed.

Lemma module_links_witness :
  ∃ s1, module_load_image (replicate 128 0) (replicate 64 0) (replicate 128 0) quiet_init (Some demo_object) false fresh =
      (s' ← start_module (replicate 128 0) (replicate 64 0) quiet_init 0 s1; Some (0, s')) ∧
    loaded (mods s1) = [Handle (lit "demo") (lit "1.0") 1 3145728 104 false false true false 3145728 0] ∧ blocks (mods s1) = {[3145728 := l_block demo_linked]} ∧
    load32 (l_block demo_linked) 1 = Some (u32 (1048576 - 4 - (3145728 + 1))).
Proof.
  destruct (module_links tree (replicate 128 0) (replicate 64 0) (replicate 128 0) quiet_init eq_refl eq_refl demo_object false empty_modules fresh demo_linked)
    as [(s1 & E & Hl & _ & Hb) (secs & ps & Hsecs & Hps & _ & Hwords)].
  - exact fresh_holds.
  - exact empty_ok.
  - exact demo_bytes.
  - vm_compute. lia.
  - exact demo_links.
  - vm_compute. reflexivity.
  - cbn. set_solver.
  - exists s1. split; [exact E|]. split; [exact Hl|]. split; [exact Hb|].
    rewrite demo_parsed in Hsecs. injection Hsecs as <-. change (patches demo_object kernel_names 3145728 (layout demo_sections 0).1 demo_sections = Some ps) in Hps.
    rewrite demo_patches in Hps. injection Hps as <-.
    assert (Hap : ∀ i j p q, [Patch 1 true 1048576] !! i = Some p → [Patch 1 true 1048576] !! j = Some q → i ≠ j → apart p q).
    { intros [|i] [|j] p q Hi Hj Hne; [by destruct Hne|discriminate Hj|discriminate Hi|discriminate Hi]. }
    etransitivity; [exact (Hwords Hap 0%nat (Patch 1 true 1048576) eq_refl)|]. vm_compute. reflexivity.
Defined.

(** Loaded, refused because of its name, found, unloaded, not found. *)
Definition demo_ops : list module_op :=
  [MLoad (Some demo_object) false; MLoad (Some demo_object) false; MFind (Some (lit "demo")); MUnload (Some (lit "demo")); MFind (Some (lit "demo"))].

Definition demo_handle : module_handle := Handle (lit "demo") (lit "1.0") 1 3145728 104 true true true false 3145728 0.

Lemma modules_refine_witness :
  ∃ s', module_run (replicate 128 0) (replicate 64 0) (replicate 128 0) quiet_init quiet_exit demo_ops fresh =
      Some ([RDone 0; RDone (-1); RHandle (Some demo_handle); RDone 0; RHandle None], s') ∧
    modules_are tree kernel_names [] 3145952 s'.
Proof.
  destruct (modules_refine tree (replicate 128 0) (replicate 64 0) (replicate 128 0) quiet_init quiet_exit eq_refl eq_refl kernel_names demo_ops ([], 3145728) fresh
    [RDone 0; RDone (-1); RHandle (Some demo_handle); RDone 0; RHandle None] ([], 3145952)) as (s' & E & Hs').
  - exists empty_modules. split; [exact fresh_holds|]. split; [exact empty_ok|]. done.
  - repeat (apply Forall_cons; split; [first [exact demo_bytes | exact I]|]). constructor.
  - vm_compute. reflexivity.
  - exists s'. split; [exact E|exact Hs'].
Defined.

(** The header alone, with the table of sections at offset 241. *)
Lemma section_table_unchecked_witness :
  module_load_image (replicate 128 0) (replicate 64 0) (replicate 128 0) quiet_init (Some (take 52 demo_object)) false fresh = None.
Proof.
  apply (section_table_unchecked (replicate 128 0) (replicate 64 0) (replicate 128 0) quiet_init (take 52 demo_object) false 241 fresh).
  - by_eval.
  - vm_compute. lia.
  - vm_compute. lia.
  - vm_compute. reflexivity.
  - vm_compute. reflexivity.
  - vm_compute. split; [discriminate|reflexivity].
  - lia.
Defined.

Lemma exports_exact_witness : module_lookup_kernel_symbol (Some (lit "vfs_append")) (module_register_builtin_symbols (fun _ => 1) []) = 0.
Proof.
  destruct (exports_exact (fun _ => 1) (lit "vfs_append")) as (E & Hn & _).
  - apply Forall_forall. intros y _. done.
  - rewrite E. by rewrite bool_decide_false.
Defined.

End LoaderExamples.
